(* ===== verification/_CoqProject ===== *)
-Q . S2P
Prelude.v
Types.v
Bytes.v
Slice.v
Membership.v
Node.v
Wal.v
WalSegments.v
WalBinary.v
Protobuf.v
WalStore.v
WalStoreSafety.v
WalStoreRuns.v
Config.v
Pipeline.v
LogBuffer.v
Cluster.v
Election.v
Append.v
AppendSafety.v
GroupInv.v
Replication.v
ReplicationSafety.v
Steady.v
Votes.v
ReadSafety.v
Reads.v
Reconfig.v
RateLimit.v
SnapshotTransfer.v
Snapshots.v
SnapshotSafety.v
Tenure.v
Durable.v
DurableRuns.v
Executor.v
Dispatch.v
Mail.v
Selector.v
Driver.v
Pool.v
Lease.v
Fsm.v
UniqueId.v
Applier.v
Merge.v
RpcBinary.v
Transport.v
RpcProtobuf.v
