(* ===== verification/Prelude.v ===== *)
(** * A verification of the MatrixRaft consensus core

    MatrixRaft is a Raft implementation in Rust. Its consensus core is
    [RaftCluster] ([src/facade/cluster_runtime.rs]): a state machine that keeps
    every replica of a group ([Node]), one replication pipeline per peer
    ([src/pipeline.rs]), the leader and follower leases, the membership-change
    fence and the leader-transfer record. Around it are the membership algebra
    ([src/facade/membership_core.rs], [src/membership.rs]), the log buffer in
    front of storage ([src/log_buffer.rs]), the write-ahead log and its codecs,
    the snapshot machinery, and the drivers, transports and reports that make it
    a service. The operations of the core take [&mut self], do no I/O and start
    no threads; they are modelled as functions on an explicit state.

    ** Files, in dependency order

    - [Prelude.v] (this file): [u64] arithmetic, [Result] and the
      state-and-error monad [ST], the [transits] calculus for relational
      invariants, [BTreeMap] as [gmap] with its key order, record update.
    - [Types.v]: the structs and enums the components exchange (log entries,
      requests and responses, snapshots, roles), from
      [src/facade/membership_core.rs], [src/facade/api_messages.rs],
      [src/facade/snapshot_runtime.rs] and [src/status.rs].
    - [Bytes.v]: CRC-32C, the FNV-1a hashes, hexadecimal and base64 text.
    - [Slice.v]: the slice routines of the Rust library the code uses
      ([partition_point], [binary_search_by], [select_nth_unstable]).
    - [Membership.v]: quorum sizes under the witness policy, membership
      changes, joint consensus, learner promotion and the readiness decisions.
    - [Node.v]: one replica ([struct Node]): its log with the arithmetic-slot
      lookup, appends, truncation, commit and apply cursors, compaction.
    - [Wal.v]: [src/wal.rs]: the records of the write-ahead log, their checksums,
      the folding of deltas and recovery.
    - [WalSegments.v]: segments, the log in memory ([LocalRaftWal]) and the fence
      between the log and storage.
    - [WalBinary.v]: [src/wal_binary.rs]: the protobuf mirror of a record, the
      encoder that bypasses it, the frames on disk. The protobuf library is the
      class [Prost] with the laws [ProstLaws]; [Protobuf.v] is an instance of both,
      and holds the witnesses.
    - [WalStore.v]: [PersistentRaftWal] ([src/facade/wal_runtime.rs]) over a disk of
      files, each with the length that is known to be synced; a crash keeps at
      least that much of every file. [WalStoreSafety.v] has the proofs,
      [WalStoreRuns.v] the witnesses and concrete runs.
    - [Config.v]: [src/config.rs], the configuration and its validation.
    - [Pipeline.v]: [ReplicationPipeline]: the append queue, in-flight and apply
      windows, probe and replicate states, back-off, the reorder queue, snapshot
      transfer.
    - [LogBuffer.v]: [LogBuffer]: the buffered log between the core and storage,
      with flushes in flight, truncation and memory release.
    - [Cluster.v]: the group [RaftCluster]: construction, leases, the commit
      quorum, liveness, the fences.
    - [Election.v]: campaigns, pre-votes and votes.
    - [Append.v]: append entries and the drain of reordered appends.
    - [AppendSafety.v]: the safety proofs about [Append.v].
    - [GroupInv.v]: the invariants the group operations share (who is a member,
      which entries a replica keeps) and their closure lemmas.
    - [Replication.v]: proposals, append responses, heartbeats, catch-up,
      promotion of caught-up learners and release of log memory.
    - [ReplicationSafety.v]: the proofs about [Replication.v].
    - [Steady.v]: what the operations of [Election.v] and [Replication.v] leave alone, for
      the proofs about runs in [Votes.v] and [Tenure.v].
    - [Votes.v]: the candidate's side of elections: counting responses, standing
      after a pre-vote quorum, taking office.
    - [ReadSafety.v]: [src/read_safety.rs]: the queue of pending reads and the
      decision tables of reads and appends.
    - [Reads.v]: [read_index] and its reports, leader transfer, resignation.
    - [Reconfig.v]: adding, promoting and removing peers, committed membership
      operations, memberships taken from snapshots and records.
    - [RateLimit.v]: [src/rate_limit.rs], the trait as a class with its laws and
      the byte quota as an instance.
    - [SnapshotTransfer.v]: [SnapshotLifecycle] and the validators of a snapshot
      install ([src/facade/snapshot_runtime.rs], [src/snapshot.rs]).
    - [Snapshots.v]: the snapshots of the group: installing one whole, with a log
      tail or in chunks, queueing it behind apply work, triggers and publishing,
      checkpoints, compaction under a storage fence. [SnapshotSafety.v] has the
      proofs.
    - [Tenure.v]: runs of a leader's tenure and the reads served in it.
    - [Durable.v]: the record of a replica for the write-ahead log, cut to what a
      segment does not cover, and the restoration of a replica from it;
      [DurableRuns.v] has the witnesses and concrete runs.
    - [Executor.v]: [MembershipExecutor] ([src/facade/membership_executor.rs]): a
      membership operation validated and run, workflows of them with rollback.
    - [Dispatch.v]: [step], [step_admin] and [step_batch]: the messages and admin
      commands of the group and the operation each reaches.
    - [Mail.v]: [src/mailbox.rs], the mailbox with its priority lanes.
    - [Selector.v]: [src/channel_selector.rs], the mail channels of a worker and
      their selector, as interleaved critical sections of senders and workers.
    - [Driver.v]: the ticker of [src/driver.rs]: registrations, cancels and passes,
      as interleaved critical sections.
    - [Pool.v]: the worker pool of [src/driver.rs]: senders, cancels and the workers
      that hand mail to handlers, as interleaved critical sections.
    - [Lease.v]: [src/lease.rs]: leader and follower leases over wall clocks, with a
      network between them.
    - [Fsm.v]: [src/fsm.rs]: the host's state machine as a class with laws, the
      adapter that applies each entry once, checkpoints, flexible apply, hooks.
    - [UniqueId.v]: [src/unique_id.rs], packed ids.
    - [Applier.v]: [src/applier.rs]: a group's apply work in bounded batches, stalls,
      and the wait of a read for an applied index.
    - [Merge.v]: [src/heartbeat_merge.rs]: heartbeats held back by address.
    - [RpcBinary.v]: [src/rpc_binary.rs]: requests and responses as framed protobuf;
      the class [RpcProst] adds two decoders to [Prost].
    - [Transport.v]: [src/transport.rs] and [src/facade/transport_runtime.rs]: validation,
      the transports as records of operations over the state of whoever answers, the
      server of TCP connections and the client with its pool; sockets are the class
      [Network]. [RpcProtobuf.v] is an instance of [RpcProst] with its laws, and holds the
      witnesses.

    ** Conventions

    A [u64] is an [N]. [saturating_*] and [checked_*] are written as such; a
    plain [+], [-] or [*] of the source wraps, as in a release build, and a
    theorem that needs the absence of overflow says so in its hypotheses. A
    struct is a record with the source's fields (prefixed per record), an enum an
    inductive type. An operation that returns [Result] is a function from the
    state to the result and the state it leaves: the state is kept on the error
    branch too, because an early return does not undo earlier writes. [BTreeMap]
    iteration is in key order ([bt_entries]). Loops over chunks of sixteen node
    ids, a device against allocation, are folds over the ids in order. Shared
    [Arc] entries are values: the source never mutates an entry through them.
    Messages of errors and reasons are kept, since some code compares them.

    Fuel is the length of what a loop consumes. [Slice.binary_search_loop] takes
    the length of the slice, which each round reduces; [Node.conflict_scan] the
    distance from the index to the commit point; [Pipeline.flush_loop] and
    [Pipeline.drain_reorder_loop] one more than the length of the queue they take
    from, and the theorems about them state why the loop stops, so an exhausted
    fuel cannot satisfy them. [Append.drain_loop] takes one more than the length
    of the target's reorder queue: each round removes one queued request and only
    a refused request can put one back, which also ends the loop;
    [drain_satisfies_source_loop] proves that the fuel is never what stops it.
    [Replication.catch_up_chunks] takes one more than the number of replicas, each
    round of which moves its cursor up by at least one id;
    [SnapshotTransfer.chunk_loop] the payload length, each chunk taking at least
    one byte; [SnapshotTransfer.poll_loop] and [limited_loop] the configured
    number of chunks per tick, which is the bound the source's loop has itself.
    [WalStore.frame_loop] and [inspect_frames] take the number of bytes of the file,
    each round consuming a frame of at least one byte, and the readers of
    [Protobuf.v] the length of their input; [Transport.serve_connection] one more than
    the bytes that arrive, a message being at least one byte. [Driver.drain_due] takes one more than the
    number of buckets: a round removes a bucket that is due and adds none
    ([drain_due_spec]); [Fsm.flexible_loop] and [Applier.batch_loop] one more than the
    entries or tasks that remain, of which each round takes at least one.

    ** What the theorems show

    - Quorums ([Membership.v], [Cluster.v]): majorities intersect, also across
      one membership change and a joint configuration; the allocation-free
      quorum checks equal the definitions over the membership; both computations
      of the commit quorum return the highest index a commit quorum holds.
    - Commit safety ([Node.v], [Cluster.v], [AppendSafety.v]): the commit index
      moves only to an index of the current term that a commit quorum holds; no
      append, truncation, conflict or drained request loses a committed entry or
      lowers a cursor; a follower acknowledges only entries it holds.
    - Elections ([Election.v], [Votes.v]): one vote per node and term, terms that
      never decrease, the conditions of a grant, the effect of a campaign; nobody
      takes office without a quorum of grants, and in any run with the answers of one
      candidate counted, two winners of one term are one candidate when every counted
      grant was given in that run and term.
    - Replication ([ReplicationSafety.v]): what a proposal leaves on every replica,
      when it is committed and how it fails, what a catch-up gives a peer, the end of a
      term on a response of a later one.
    - Reads and transfers ([ReadSafety.v], [Reads.v], [Tenure.v]): when a read is
      served, that a read served in a tenure without appends to followers has seen the
      earlier terms, what a transfer's outcome means and that a transfer ends by its
      timeout.
    - Membership of the group ([Reconfig.v]): quorums before and after a committed
      operation overlap, who is in the group after a snapshot or a record.
    - Snapshot transfer ([SnapshotTransfer.v], [RateLimit.v]): chunks give the
      snapshot back, a transfer delivers it, a completed send sent every chunk, a
      limiter loses no byte and grants no more than its quota.
    - Snapshots of the group ([SnapshotSafety.v]): an install has its whole effect or
      none, chunks sent in order install the snapshot they were cut from, a completed
      snapshot is installed or queued, an apply result settles a queued one, a ready
      snapshot reaches the peers that wait for it, a fenced compaction drops nothing
      that storage or a healthy peer still needs.
    - Restarts ([Durable.v]): after a crash that follows a synced append of a replica's
      record, opening the directory recovers that record, and restoring it gives the
      replica's hard state, log, snapshot, commit and applied index and role back.
    - Dispatch ([Executor.v], [Dispatch.v]): no batch of messages lowers the term, a
      batch stops at its first error, executed operations keep quorums in common, a
      workflow is all or nothing.
    - Clocked leases ([Lease.v]): a leader in lease is backed by the running promises of
      a majority, over one clock, one membership and one lease duration.
    - Applying ([Fsm.v], [Applier.v]): each entry is applied once, a checkpoint installed
      elsewhere goes on as the original, hooks come in pairs, a wait is told of no index
      that was not applied.
    - Heartbeats and ids ([Merge.v], [UniqueId.v]): merging keeps the heartbeats it takes in for
      an address, in order, ids never repeat.
    - Mail and ticks ([Mail.v], [Selector.v], [Driver.v], [Pool.v]): lanes keep their order and
      lose nothing, no interleaving of senders and workers strands a mail; a pass of
      the ticker fires each due group once, and a group whose cancel has returned is
      never ticked and handed no mail again.
    - The wire ([RpcBinary.v], [Transport.v]): requests and responses survive the codec, a
      damaged frame is refused, a connection hands the handler exactly the admitted
      requests of its bytes, in order, a call over the wire is a call of the handler behind the server, and the
      connections kept for a peer lead to its current address.
    - The write-ahead log ([Wal.v], [WalBinary.v], [WalStoreSafety.v]): a crash between
      two operations keeps every synced record, an append makes the log on disk read back as the log of
      its record, a compaction keeps it; the direct encoder writes what the derived
      one writes, a damaged frame is not read as a record, recovery picks the record
      the reference scan picks and that record serves its commit index.
    - Leases and fences ([Cluster.v]): a leader lease is bounded by the promises
      of a quorum dated from the probe, confirmations cannot be replayed, one
      membership change is in flight, no command is applied before its commit is
      durable.
    - Flow control and buffering ([Pipeline.v], [LogBuffer.v]): window
      accounting and limits, batches that are consecutive segments of the queue,
      the effect of every response, snapshot transfers that complete, and, as a
      refinement, that what the buffer reports as synced is what storage holds.

    Each property has a doc comment with its number, and a witness that applies
    it to a concrete state where it has hypotheses. [AppendSafety.v] ends with
    two concrete runs of behaviours the source's comments do not suggest.

    ** What is not modelled

    Not modelled: sockets, timers and the threads around the core (node and peer
    runtimes, the listener of the TCP server); of the components that are shared
    between threads, condition variables (a wait is a step that cannot be taken yet) and
    poisoned mutexes; the errors of the operating system (the disk of [WalStore.v] fails
    only on a missing file and a held lock), serialization attributes, metrics,
    reports and readiness artifacts, benchmarks, and the compatibility layer
    [src/facade/matrixraft_compat.rs], none of which holds consensus state.

    Outside the sources, and so parameters: the protobuf library ([Prost], [RpcProst]),
    the sockets ([Network]), JSON ([json_record] and the JSON of older peers), the time an fsync takes, the host's state
    machines, stores and apply handlers ([Fsm.v], [Applier.v]), its resolver of addresses
    and the hasher of the Rust library ([Merge.v], [Pool.v]).

    ** This file

    Machine integers, the result type and the state-and-error monad of the
    operations that take [&mut self] and return [Result], the ordered-map view
    of [BTreeMap], functional record update, and the generic lemmas and
    tactics the component files share. *)

From stdpp Require Import base gmap list sorting strings pretty numbers fin_maps.

(** ** Unsigned 64-bit integers

    A [u64] is an [N]; every operation that can leave the range says what the
    source does there: [saturating_*] clamps, [checked_*] returns an option,
    and the plain [+], [-] and [*] of a release build wrap. *)

Declare Scope u64_scope.
Delimit Scope u64_scope with u64.

Definition u64_max : N := 18446744073709551615.
Definition u64_modulus : N := 18446744073709551616.

Definition saturating_add (a b : N) : N := N.min u64_max (a + b)%N.
Definition saturating_sub (a b : N) : N := (a - b)%N.
Definition saturating_mul (a b : N) : N := N.min u64_max (a * b)%N.
Definition checked_add (a b : N) : option N :=
  if (a + b <=? u64_max)%N then Some (a + b)%N else None.
Definition checked_sub (a b : N) : option N :=
  if (b <=? a)%N then Some (a - b)%N else None.
Definition checked_div (a b : N) : option N :=
  if (b =? 0)%N then None else Some (a / b)%N.
Definition wrapping_add (a b : N) : N := ((a + b) `mod` u64_modulus)%N.
Definition wrapping_sub (a b : N) : N := ((a + u64_modulus - b) `mod` u64_modulus)%N.
Definition wrapping_mul (a b : N) : N := ((a * b) `mod` u64_modulus)%N.

(** [u64] is the range predicate of the machine type. *)
Definition u64 (a : N) : Prop := (a <= u64_max)%N.
#[export] Instance u64_dec a : Decision (u64 a).
Proof. unfold u64. apply _. Defined.

Infix "+s" := saturating_add (at level 50, left associativity) : u64_scope.
Infix "+w" := wrapping_add (at level 50, left associativity) : u64_scope.
Infix "-w" := wrapping_sub (at level 50, left associativity) : u64_scope.

#[global] Open Scope u64_scope.

Create HintDb raft.

Lemma saturating_add_u64 a b : u64 (a +s b).
Proof. unfold u64, saturating_add. lia. Qed.

Lemma saturating_add_le a b : (a +s b <= a + b)%N.
Proof. unfold saturating_add. lia. Qed.

Lemma saturating_add_ge a b : u64 a -> (a <= a +s b)%N.
Proof. unfold u64, saturating_add. lia. Qed.

Lemma saturating_add_small a b : (a + b <= u64_max)%N -> a +s b = (a + b)%N.
Proof. unfold saturating_add. lia. Qed.

Lemma wrapping_add_small a b : (a + b <= u64_max)%N -> a +w b = (a + b)%N.
Proof.
  intros H. unfold wrapping_add. apply N.mod_small.
  unfold u64_max, u64_modulus in *. lia.
Qed.

Lemma wrapping_add_u64 a b : u64 (a +w b).
Proof.
  unfold u64, wrapping_add, u64_max.
  assert (u64_modulus <> 0)%N as Hm by done.
  pose proof (N.mod_lt (a + b) u64_modulus Hm). unfold u64_modulus in *. lia.
Qed.

Lemma wrapping_sub_small a b : u64 a -> (b <= a)%N -> a -w b = (a - b)%N.
Proof.
  unfold u64, u64_max, wrapping_sub, u64_modulus. intros Ha Hb.
  replace (a + 18446744073709551616 - b)%N
    with ((a - b) + 1 * 18446744073709551616)%N by lia.
  rewrite N.Div0.mod_add. apply N.mod_small. lia.
Qed.

Lemma checked_add_Some a b c :
  checked_add a b = Some c <-> c = (a + b)%N /\ (a + b <= u64_max)%N.
Proof. unfold checked_add. destruct (N.leb_spec (a + b) u64_max); split; intros; simplify_eq; intuition (subst; try lia; try done). Qed.

Lemma checked_sub_Some a b c :
  checked_sub a b = Some c <-> c = (a - b)%N /\ (b <= a)%N.
Proof. unfold checked_sub. destruct (N.leb_spec b a); split; intros; simplify_eq; intuition (subst; try lia; try done). Qed.

#[export] Hint Resolve saturating_add_u64 wrapping_add_u64 : raft.

(** ** Results and the state-and-error monad

    An operation on [&mut self] that returns [Result<A, E>] is a function from
    the state to the result and the state it leaves: the state is kept on the
    error branch too, because the source mutates [self] in place and an early
    [return Err(..)] does not undo what was written before it. *)

Inductive result (E A : Type) : Type :=
| Ok (a : A)
| Err (e : E).
Arguments Ok {E A} a.
Arguments Err {E A} e.

Definition is_ok {E A} (r : result E A) : bool :=
  match r with Ok _ => true | Err _ => false end.

Definition ok_or {E A} (o : option A) (e : E) : result E A :=
  match o with Some a => Ok a | None => Err e end.

(** [?] on a result, for operations that take [&self]. *)
#[export] Instance result_bind {E} : MBind (result E) := fun A B k r =>
  match r with Ok a => k a | Err e => Err e end.

Definition ST (E S A : Type) : Type := S -> result E A * S.

#[export] Instance ST_ret {E S} : MRet (ST E S) := fun A a s => (Ok a, s).
#[export] Instance ST_bind {E S} : MBind (ST E S) := fun A B k m s =>
  match m s with
  | (Ok a, s') => k a s'
  | (Err e, s') => (Err e, s')
  end.

Definition fail {E S A} (e : E) : ST E S A := fun s => (Err e, s).
Definition gets {E S A} (f : S -> A) : ST E S A := fun s => (Ok (f s), s).
Definition modify {E S} (f : S -> S) : ST E S unit := fun s => (Ok tt, f s).
(** [lift r] is the [?] operator on a result computed without state. *)
Definition lift {E S A} (r : result E A) : ST E S A := fun s => (r, s).
(** [discard m] is [let _ = m;]: the effect is kept, the result dropped. *)
Definition discard {E S A} (m : ST E S A) : ST E S unit := fun s => (Ok tt, snd (m s)).
(** [catch m] makes the result of [m] available instead of propagating it. *)
Definition catch {E S A} (m : ST E S A) : ST E S (result E A) := fun s =>
  let '(r, s') := m s in (Ok r, s').

(** [for_each f l] runs [f] over [l] in order and stops at the first error. *)
Fixpoint for_each {E S A} (f : A -> ST E S unit) (l : list A) : ST E S unit :=
  match l with
  | [] => mret tt
  | x :: l' => _ ← f x; for_each f l'
  end.

(** One step of a sequence whose first part is known to succeed, or to fail. *)
Lemma bind_Ok {E S A B} (m : ST E S A) (k : A -> ST E S B) s a s' : m s = (Ok a, s') -> (m ≫= k) s = k a s'.
Proof. intros Hm. unfold mbind, ST_bind. by rewrite Hm. Qed.

Lemma bind_Err {E S A B} (m : ST E S A) (k : A -> ST E S B) s e s' : m s = (Err e, s') -> (m ≫= k) s = (Err e, s').
Proof. intros Hm. unfold mbind, ST_bind. by rewrite Hm. Qed.

(** ** Invariants of monadic operations

    [transits R m] says that [m] relates its initial and final state by [R],
    whether it returns [Ok] or [Err]. For a reflexive and transitive [R] the
    combinators compose, which is how the relational invariants (monotone
    terms, preserved identities) are proved once per operation. *)

Section transits.
Context {E S : Type} (R : relation S) `{!PreOrder R}.

Definition transits {A} (m : ST E S A) : Prop := forall s, R s (snd (m s)).

Lemma transits_ret {A} (a : A) : transits (mret a).
Proof. intros s. cbn. reflexivity. Qed.

Lemma transits_fail {A} (e : E) : transits (@fail E S A e).
Proof. intros s. cbn. reflexivity. Qed.

Lemma transits_gets {A} (f : S -> A) : transits (gets f).
Proof. intros s. cbn. reflexivity. Qed.

Lemma transits_lift {A} (r : result E A) : transits (lift r).
Proof. intros s. cbn. reflexivity. Qed.

Lemma transits_modify (f : S -> S) : (forall s, R s (f s)) -> transits (modify f).
Proof. intros H s. apply H. Qed.

Lemma transits_discard {A} (m : ST E S A) : transits m -> transits (discard m).
Proof. intros H s. apply H. Qed.

Lemma transits_catch {A} (m : ST E S A) : transits m -> transits (catch m).
Proof. intros H s. specialize (H s). unfold catch. by destruct (m s). Qed.

Lemma transits_bind {A B} (m : ST E S A) (k : A -> ST E S B) :
  transits m -> (forall a, transits (k a)) -> transits (m ≫= k).
Proof.
  intros Hm Hk s. specialize (Hm s). unfold mbind, ST_bind.
  destruct (m s) as [[a|e] s']; cbn in *; [|done].
  etrans; [exact Hm|apply Hk].
Qed.

(** The same from one state, for a first step that is related only there. *)
Lemma bind_step {A B} (m : ST E S A) (k : A -> ST E S B) s :
  R s (snd (m s)) -> (forall a, transits (k a)) -> R s (snd ((m ≫= k) s)).
Proof.
  intros Hm Hk. unfold mbind, ST_bind. destruct (m s) as [[a|e] s']; cbn in *; [|done].
  etrans; [exact Hm|apply Hk].
Qed.

Lemma transits_for_each {A} (f : A -> ST E S unit) l :
  (forall x, transits (f x)) -> transits (for_each f l).
Proof.
  intros Hf. induction l as [|x l IH]; cbn; [apply transits_ret|].
  apply transits_bind; [apply Hf|done].
Qed.

Lemma transits_if {A} (b : bool) (m1 m2 : ST E S A) :
  transits m1 -> transits m2 -> transits (if b then m1 else m2).
Proof. by destruct b. Qed.

Lemma transits_option {A B} (o : option B) (f : B -> ST E S A) (m : ST E S A) :
  (forall x, transits (f x)) -> transits m ->
  transits (match o with Some x => f x | None => m end).
Proof. by destruct o. Qed.
End transits.

(** ** BTreeMap

    A [BTreeMap<u64, V>] is a [gmap N V]; its iteration order is the order of
    the keys, which [bt_entries] makes explicit. *)

Section btree.
Context {V : Type}.
Implicit Types (m : gmap N V).

Definition key_le (a b : N * V) : Prop := (a.1 <= b.1)%N.

#[global] Instance key_le_dec a b : Decision (key_le a b).
Proof. unfold key_le. apply _. Defined.

Definition bt_entries m : list (N * V) := merge_sort key_le (map_to_list m).
Definition bt_keys m : list N := (bt_entries m).*1.
Definition bt_values m : list V := (bt_entries m).*2.

Lemma bt_entries_perm m : bt_entries m ≡ₚ map_to_list m.
Proof. apply merge_sort_Permutation. Qed.

Lemma elem_of_bt_entries m k v : (k, v) ∈ bt_entries m <-> m !! k = Some v.
Proof. rewrite bt_entries_perm. apply elem_of_map_to_list. Qed.

Lemma elem_of_bt_keys m k : k ∈ bt_keys m <-> is_Some (m !! k).
Proof.
  unfold bt_keys. rewrite list_elem_of_fmap. split.
  - intros ([k' v] & -> & H). exists v. by apply elem_of_bt_entries.
  - intros [v H]. exists (k, v). by rewrite elem_of_bt_entries.
Qed.

Lemma elem_of_bt_values m v : v ∈ bt_values m <-> exists k, m !! k = Some v.
Proof.
  unfold bt_values. rewrite list_elem_of_fmap. split.
  - intros ([k' v'] & -> & H). exists k'. by apply elem_of_bt_entries.
  - intros [k H]. exists (k, v). by rewrite elem_of_bt_entries.
Qed.

Lemma NoDup_bt_keys m : NoDup (bt_keys m).
Proof. unfold bt_keys. rewrite bt_entries_perm. apply NoDup_fst_map_to_list. Qed.
End btree.

#[export] Hint Resolve NoDup_bt_keys : raft.

(** ** Functional record update

    [r <| f := v |>] is the struct-update of the source. A record type
    declares its eta expansion once ([Settable]); the setter of a field is
    derived from it by abstracting that field. *)

Class Settable (R : Type) := eta_record : R -> R.
Class Setter {R T : Type} (proj : R -> T) := update : (T -> T) -> R -> R.
Arguments update {R T} proj {_} _ _ /.

Ltac derive_setter :=
  lazymatch goal with
  | |- @Setter ?R ?T ?p =>
      let inst := constr:(ltac:(typeclasses eauto) : Settable R) in
      let e := eval hnf in inst in
      let g := fresh "g" in
      let r := fresh "r" in
      intros g r;
      let b := eval cbv beta in (e r) in
      lazymatch (eval pattern (p r) in b) with
      | ?h _ => let t := eval cbv beta in (h (g (p r))) in exact t
      end
  end.

#[export] Hint Extern 1 (Setter _) => derive_setter : typeclass_instances.

Notation "r <| f := v |>" := (update f (fun _ => v) r)
  (at level 1, f at level 0, left associativity, format "r  <| f  :=  v |>").
Notation "r <| f ::= g |>" := (update f g r)
  (at level 1, f at level 0, left associativity, format "r  <| f  ::=  g |>").

(** ** Strings *)

Notation "s ++s t" := (String.append s t) (at level 60, right associativity).

(** ** List lemmas shared by the components *)

Lemma filter_and_le {A} (P : A -> Prop) `{forall x, Decision (P x)} (l : list A) :
  (length (filter P l) <= length l)%nat.
Proof. apply length_filter. Qed.

Lemma filter_nil_Forall {A} (P : A -> Prop) `{forall x, Decision (P x)} (l : list A) :
  Forall (fun x => ~ P x) l -> filter P l = [].
Proof. induction 1 as [|x l Hx _ IH]; [done|]. by rewrite filter_cons_False. Qed.

Lemma filter_id_Forall {A} (P : A -> Prop) `{forall x, Decision (P x)} (l : list A) :
  Forall P l -> filter P l = l.
Proof. induction 1 as [|x l Hx _ IH]; [done|]. rewrite filter_cons_True by done. by f_equal. Qed.

Lemma prefix_filter {A} (P : A -> Prop) `{forall x, Decision (P x)} (l1 l2 : list A) :
  l1 `prefix_of` l2 -> filter P l1 `prefix_of` filter P l2.
Proof. intros [k ->]. rewrite filter_app. apply prefix_app_r. done. Qed.

(** Two sublists of a duplicate-free list that together are longer than the
    list share an element: the counting step behind quorum intersection. *)
Lemma filter_overlap {A} `{EqDecision A} (P Q : A -> Prop)
    `{forall x, Decision (P x), forall x, Decision (Q x)} (l : list A) :
  (length l < length (filter P l) + length (filter Q l))%nat ->
  exists x, x ∈ l /\ P x /\ Q x.
Proof.
  induction l as [|x l IH]; [rewrite !filter_nil; simpl; lia|].
  rewrite !filter_cons. intros Hlen.
  destruct (decide (P x)) as [HP|HP], (decide (Q x)) as [HQ|HQ]; simpl in Hlen;
    [exists x; set_solver| |..];
    (destruct IH as (y & ? & ? & ?); [lia|]; exists y; set_solver).
Qed.

Definition sum_N (l : list N) : N := foldr N.add 0%N l.

Lemma sum_N_app l1 l2 : sum_N (l1 ++ l2) = (sum_N l1 + sum_N l2)%N.
Proof. induction l1 as [|x l1 IH]; cbn; [done|]. unfold sum_N in *. lia. Qed.

Lemma sum_N_cons x l : sum_N (x :: l) = (x + sum_N l)%N.
Proof. done. Qed.

(** [b2n] is [u64::from(bool)] and [usize::from(bool)]. *)
Definition b2n (b : bool) : nat := if b then 1%nat else 0%nat.
