(* ===== verification/Types.v ===== *)
(** * Data of the consensus core

    The structs and enums of [src/facade/membership_core.rs],
    [src/facade/api_messages.rs], [src/facade/snapshot_runtime.rs],
    [src/facade/wal_runtime.rs], [src/facade/cluster_runtime.rs] (errors) and
    [src/status.rs] (leader transfer) that the components share. Field names
    carry a short prefix per struct, since Rocq projections share one name
    space. Payloads are lists of bytes. *)

From stdpp Require Import base gmap list strings pretty.
From Stdlib Require Import Strings.Byte.
From S2P Require Import Prelude.

Abbreviation NodeId := N (only parsing).
Abbreviation GroupId := N (only parsing).
Abbreviation Term := N (only parsing).
Abbreviation LogIndex := N (only parsing).
Abbreviation Payload := (list byte) (only parsing).

#[export] Instance byte_eq_decision : EqDecision byte := Byte.byte_eq_dec.

(** ** Errors: [RaftError] *)

Inductive RaftError : Type :=
| ConfigErr (msg : string)
| NodeNotFound (node_id : NodeId)
| NoLeader
| NotLeader (node_id : NodeId)
| InvalidRequest (msg : string)
| TransportErr (msg : string)
| StorageErr (msg : string).

#[export] Instance RaftError_eq_dec : EqDecision RaftError.
Proof. solve_decision. Defined.

Abbreviation Result := (result RaftError) (only parsing).

(** ** Roles *)

Inductive StateRole : Type := Leader | Follower | Candidate | PreCandidate | RoleLearner.
Inductive ReplicaRole : Type := Voter | Learner | Witness.

#[export] Instance StateRole_eq_dec : EqDecision StateRole.
Proof. solve_decision. Defined.
#[export] Instance ReplicaRole_eq_dec : EqDecision ReplicaRole.
Proof. solve_decision. Defined.

Definition participates_in_quorum (r : ReplicaRole) : bool :=
  match r with Voter | Witness => true | Learner => false end.
Definition can_serve_data (r : ReplicaRole) : bool :=
  match r with Voter | Learner => true | Witness => false end.
Definition can_be_leader (r : ReplicaRole) : bool :=
  match r with Voter => true | _ => false end.

(** [{:?}] of a replica role. *)
Definition show_ReplicaRole (r : ReplicaRole) : string :=
  match r with Voter => "Voter" | Learner => "Learner" | Witness => "Witness" end.

(** ** Log identities, entries and the hard state *)

Record LogId := mkLogId {
  lid_term : Term;
  lid_index : LogIndex
}.
#[export] Instance LogId_eq_dec : EqDecision LogId.
Proof. solve_decision. Defined.

Record LogEntry := mkLogEntry {
  log_id : LogId;
  payload : Payload;
  is_command : bool
}.
#[export] Instance LogEntry_eq_dec : EqDecision LogEntry.
Proof. solve_decision. Defined.

Definition entry_index (e : LogEntry) : LogIndex := lid_index (log_id e).
Definition entry_term (e : LogEntry) : Term := lid_term (log_id e).
Definition payload_len (e : LogEntry) : N := N.of_nat (length (payload e)).

Record HardState := mkHardState {
  hs_current_term : Term;
  hs_voted_for : option NodeId;
  hs_committed : option LogId
}.
#[export] Instance eta_HardState : Settable HardState :=
  fun r => mkHardState (hs_current_term r) (hs_voted_for r) (hs_committed r).

Record Peer := mkPeer {
  peer_node_id : NodeId;
  peer_raft_addr : string;
  peer_snapshot_addr : string;
  peer_role : ReplicaRole;
  peer_auto_promote : bool
}.
#[export] Instance eta_Peer : Settable Peer :=
  fun r => mkPeer (peer_node_id r) (peer_raft_addr r) (peer_snapshot_addr r) (peer_role r)
    (peer_auto_promote r).
#[export] Instance Peer_eq_dec : EqDecision Peer.
Proof. solve_decision. Defined.

Inductive LearnerAutoPromoteState : Type := Stop | PromoteCheck | Promoting | Promoted.
#[export] Instance LearnerAutoPromoteState_eq_dec : EqDecision LearnerAutoPromoteState.
Proof. solve_decision. Defined.

(** ** Snapshots *)

Record SnapshotMetadata := mkSnapshotMetadata {
  snap_id : string;
  snap_last_log_id : LogId;
  snap_membership : list NodeId;
  snap_members : list Peer;
  snap_payload_bytes : N
}.
#[export] Instance eta_SnapshotMetadata : Settable SnapshotMetadata :=
  fun r => mkSnapshotMetadata (snap_id r) (snap_last_log_id r) (snap_membership r)
    (snap_members r) (snap_payload_bytes r).
#[export] Instance SnapshotMetadata_eq_dec : EqDecision SnapshotMetadata.
Proof. solve_decision. Defined.

Definition snap_index (m : SnapshotMetadata) : LogIndex := lid_index (snap_last_log_id m).

Record RaftSnapshot := mkRaftSnapshot {
  rs_group_id : GroupId;
  rs_meta : SnapshotMetadata;
  rs_payload : Payload
}.

Record SnapshotChunk := mkSnapshotChunk {
  chunk_meta : SnapshotMetadata;
  chunk_offset : N;
  chunk_data : Payload;
  chunk_done : bool
}.

(** A snapshot being received. *)
Record SnapshotInstallState := mkSnapshotInstallState {
  sis_meta : SnapshotMetadata;
  sis_bytes : Payload;
  sis_next_offset : N;
  sis_complete : bool
}.
#[export] Instance eta_SnapshotInstallState : Settable SnapshotInstallState :=
  fun r => mkSnapshotInstallState (sis_meta r) (sis_bytes r) (sis_next_offset r)
    (sis_complete r).

Inductive SnapshotState : Type :=
| SnapshotNone | Creating | Receiving | Received | NotReady.
#[export] Instance SnapshotState_eq_dec : EqDecision SnapshotState.
Proof. solve_decision. Defined.

Record ApplySnapshotFence := mkApplySnapshotFence {
  fence_applied_index : LogIndex;
  fence_commit_index : LogIndex;
  fence_installed_snapshot_index : LogIndex;
  fence_first_retained_log_index : LogIndex
}.

(** ** Requests and responses *)

Record AppendEntriesRequest := mkAppendEntriesRequest {
  aer_group_id : GroupId;
  aer_term : Term;
  aer_leader_id : NodeId;
  aer_prev_log_id : option LogId;
  aer_entries : list LogEntry;
  aer_leader_commit : LogIndex;
  aer_lease_epoch : N
}.

Record AppendEntriesResponse := mkAppendEntriesResponse {
  resp_term : Term;
  resp_success : bool;
  resp_match_index : LogIndex;
  resp_rejection_hint : option LogIndex;
  resp_rejected_index : option LogIndex;
  resp_require_snapshot : option LogIndex;
  resp_snapshot_state : SnapshotState;
  resp_lease_confirmation_epoch : N;
  resp_lease_duration_ms : N
}.

Record VoteRequest := mkVoteRequest {
  vr_group_id : GroupId;
  vr_term : Term;
  vr_candidate_id : NodeId;
  vr_last_log_id : option LogId;
  vr_pre_vote : bool;
  vr_force : bool
}.

Record VoteResponse := mkVoteResponse {
  vresp_term : Term;
  vresp_vote_granted : bool;
  vresp_reason : string
}.

Record TimeoutNowResponse := mkTimeoutNowResponse {
  tn_node_id : NodeId;
  tn_from : NodeId;
  tn_campaigned : bool;
  tn_term : Term;
  tn_leader_id : option NodeId;
  tn_reason : string
}.

Record ProposeOptions := mkProposeOptions {
  po_expected_term : option Term;
  po_is_command : bool;
  po_is_membership_change : bool
}.

Definition ProposeOptions_default : ProposeOptions := mkProposeOptions None true false.

Record ReadIndexRequest := mkReadIndexRequest {
  rir_group_id : GroupId;
  rir_requester_id : NodeId;
  rir_min_commit_index : LogIndex;
  rir_allow_lease_read : bool
}.

Record ReadIndexResponse := mkReadIndexResponse {
  rresp_safe : bool;
  rresp_read_index : LogIndex;
  rresp_lease_read : bool;
  rresp_reason : string
}.

(** ** Leader transfer: [src/status.rs] *)

Inductive LeaderTransferConclusion : Type := Completed | Aborted.

Record LeaderTransferState := mkLeaderTransferState {
  lt_transferee_id : NodeId;
  lt_elapsed_ticks : N;
  lt_timeout_ticks : N;
  lt_aborted_transfers : N;
  lt_duplicate_requests : N;
  lt_reason : string;
  lt_conclusion : option LeaderTransferConclusion
}.
#[export] Instance eta_LeaderTransferState : Settable LeaderTransferState :=
  fun r => mkLeaderTransferState (lt_transferee_id r) (lt_elapsed_ticks r) (lt_timeout_ticks r)
    (lt_aborted_transfers r) (lt_duplicate_requests r) (lt_reason r) (lt_conclusion r).

Inductive LeaderTransferAdmissionKind : Type :=
| Accepted | IgnoredSelf | IgnoredUnknownPeer | IgnoredIneligiblePeer | Duplicate | Replaced.

Inductive LeaderTransferOutcome : Type := Ignored | Pending | Transferred.
