(* ===== verification/Bytes.v ===== *)
(** * Bytes: words, digests and text encodings

    The byte-level routines under the write-ahead log and the frames:
    [to_le_bytes] of machine words, the CRC-32C and FNV-1a digests of
    [src/wal_binary.rs], the sixteen-character hexadecimal form of a checksum,
    and the base64 of [src/wal.rs] ([wal_entry_payloads]).

    The theorems: words and base64 text come back as they were written, and the
    digest of a frame tells apart any two bodies that differ by a burst of at
    most thirty-two bits, which is what the source claims of it. *)

From stdpp Require Import base strings pretty numbers list.
From Stdlib Require Import Strings.Byte.
From S2P Require Import Prelude Types.

(** ** Bytes and little-endian words *)

Definition byte_N (b : byte) : N := Byte.to_N b.
(** [n as u8]. *)
Definition as_u8 (n : N) : byte := default x00 (Byte.of_N (n `mod` 256)%N).

Fixpoint to_le_bytes (width : nat) (value : N) : list byte :=
  match width with
  | O => []
  | S width => as_u8 value :: to_le_bytes width (value / 256)%N
  end.

Fixpoint from_le_bytes (bytes : list byte) : N :=
  match bytes with
  | [] => 0%N
  | b :: rest => (byte_N b + 256 * from_le_bytes rest)%N
  end.

(** ** Digests of a frame *)

Definition POLYNOMIAL : N := 2197175160. (* 0x82F6_3B78 *)
Definition u32_max : N := 4294967295.
Definition u32_modulus : N := 4294967296.

Definition crc_shift (crc : N) : N :=
  if N.odd crc then N.lxor (N.shiftr crc 1) POLYNOMIAL else N.shiftr crc 1.
Definition crc_byte (crc : N) (b : byte) : N := Nat.iter 8 crc_shift (N.lxor crc (byte_N b)).
Definition crc32c (bytes : list byte) : N := N.lxor (foldl crc_byte u32_max bytes) u32_max.

Definition fnv1a32_byte (hash : N) (b : byte) : N := ((N.lxor hash (byte_N b) * 16777619) `mod` u32_modulus)%N.
Definition fnv1a32 (bytes : list byte) : N := foldl fnv1a32_byte 2166136261%N bytes.

(** ** FNV-1a-64, of the record checksum *)

Definition FNV_OFFSET : N := 14695981039346656037.
Definition fnv1a64_byte (hash : N) (b : byte) : N := wrapping_mul (N.lxor hash (byte_N b)) 1099511628211.
Definition fnv1a64 (hash : N) (bytes : list byte) : N := foldl fnv1a64_byte hash bytes.

(** ** Hexadecimal *)

Definition hex_digit (n : N) : Ascii.ascii :=
  Ascii.ascii_of_N (if (n <? 10)%N then (48 + n)%N else (87 + n)%N).
(** The low [width] hexadecimal digits of a number, most significant first. *)
Fixpoint hex_digits (width : nat) (value : N) (rest : string) : string :=
  match width with
  | O => rest
  | S width => hex_digits width (value / 16)%N (String.String (hex_digit (value `mod` 16)%N) rest)
  end.
(** [format!("{value:016x}")] of a [u64]. *)
Definition hex16 (value : N) : string := hex_digits 16 value "".

Definition hex_value (c : Ascii.ascii) : option N :=
  let n := Ascii.N_of_ascii c in
  if (48 <=? n)%N && (n <=? 57)%N then Some (n - 48)%N
  else if (97 <=? n)%N && (n <=? 102)%N then Some (n - 87)%N
  else None.
(** [u64::from_str_radix(text, 16)] of a text of lowercase hexadecimal digits. *)
Fixpoint hex_parse (acc : N) (text : string) : option N :=
  match text with
  | String.EmptyString => Some acc
  | String.String c text => v ← hex_value c; hex_parse (acc * 16 + v)%N text
  end.

(** ** Base64 *)

Definition ALPHABET : list byte :=
  String.list_byte_of_string "ABCDEFGHIJKLMNOPQRSTUVWXYZabcdefghijklmnopqrstuvwxyz0123456789+/".
Definition base64_char (value : N) : byte := default x00 (ALPHABET !! N.to_nat value).
Definition pad : byte := x3d.

(** One chunk of at most three bytes. *)
Definition encode_chunk (b0 : byte) (b1 b2 : option byte) : list byte :=
  let n1 := default 0%N (byte_N <$> b1) in
  let n2 := default 0%N (byte_N <$> b2) in
  let triple := N.lor (N.lor (N.shiftl (byte_N b0) 16) (N.shiftl n1 8)) n2 in
  [base64_char (N.land (N.shiftr triple 18) 63); base64_char (N.land (N.shiftr triple 12) 63);
   if b1 is Some _ then base64_char (N.land (N.shiftr triple 6) 63) else pad;
   if b2 is Some _ then base64_char (N.land triple 63) else pad].
Fixpoint base64_encode (input : list byte) : list byte :=
  match input with
  | [] => []
  | [b0] => encode_chunk b0 None None
  | [b0; b1] => encode_chunk b0 (Some b1) None
  | b0 :: b1 :: b2 :: rest => encode_chunk b0 (Some b1) (Some b2) ++ base64_encode rest
  end.

Definition in_range (lo hi n : N) : bool := ((lo <=? n) && (n <=? hi))%N.
Definition sextet (b : byte) : option N :=
  let n := byte_N b in
  if in_range 65 90 n then Some (n - 65)%N
  else if in_range 97 122 n then Some (n - 97 + 26)%N
  else if in_range 48 57 n then Some (n - 48 + 52)%N
  else if (n =? 43)%N then Some 62%N
  else if (n =? 47)%N then Some 63%N
  else None.

(** [format!("{byte:#04x}")]. *)
Definition show_byte (b : byte) : string := "0x" ++s hex_digits 2 (byte_N b) "".

(** The loop over the bytes of one quad: the sextets and the padding so far. *)
Fixpoint decode_quad (is_last : bool) (triple padding : N) (chunk : list byte) : result string (N * N) :=
  match chunk with
  | [] => Ok (triple, padding)
  | b :: rest =>
      if bool_decide (b = pad) then
        if negb is_last then Err "base64 padding before the final quad"
        else decode_quad is_last (N.shiftl triple 6) (padding + 1)%N rest
      else if (0 <? padding)%N then Err "base64 padding inside a quad"
      else match sextet b with
           | None => Err ("invalid base64 byte " ++s show_byte b)
           | Some value => decode_quad is_last (N.lor (N.shiftl triple 6) value) padding rest
           end
  end.

Definition quad_bytes (triple padding : N) : list byte :=
  as_u8 (N.shiftr triple 16)
  :: (if (padding <? 2)%N then [as_u8 (N.shiftr triple 8)] else [])
  ++ (if (padding <? 1)%N then [as_u8 triple] else []).

Fixpoint decode_quads (chunks : list (list byte)) : result string (list byte) :=
  match chunks with
  | [] => Ok []
  | chunk :: rest =>
      '(triple, padding) ← decode_quad (bool_decide (rest = [])) 0 0 chunk;
      if (2 <? padding)%N then Err "base64 quad is entirely padding"
      else out ← decode_quads rest; Ok (quad_bytes triple padding ++ out)
  end.

(** [bytes.chunks(4)] of a slice whose length is a multiple of four. *)
Fixpoint quads (bytes : list byte) : list (list byte) :=
  match bytes with
  | a :: b :: c :: d :: rest => [a; b; c; d] :: quads rest
  | _ => []
  end.

Definition base64_decode (input : list byte) : result string (list byte) :=
  if negb (length input `mod` 4 =? 0)%nat then
    Err ("base64 length " ++s pretty (N.of_nat (length input)) ++s " is not a multiple of four")
  else decode_quads (quads input).

(** ** Words *)

Lemma byte_N_lt b : (byte_N b < 256)%N.
Proof. pose proof (Byte.to_N_bounded b). unfold byte_N. lia. Qed.

Lemma byte_N_as_u8 n : byte_N (as_u8 n) = (n `mod` 256)%N.
Proof.
  unfold as_u8. destruct (Byte.of_N (n `mod` 256)) as [b|] eqn:E; cbn.
  - by apply Byte.to_of_N.
  - apply Byte.of_N_None_iff in E. pose proof (N.mod_lt n 256). lia.
Qed.

Lemma as_u8_byte_N b : as_u8 (byte_N b) = b.
Proof. unfold as_u8. rewrite N.mod_small by apply byte_N_lt. unfold byte_N. by rewrite Byte.of_to_N. Qed.

Lemma as_u8_inj a b : as_u8 a = as_u8 b -> (a < 256)%N -> (b < 256)%N -> a = b.
Proof. intros H Ha Hb. apply (f_equal byte_N) in H. rewrite !byte_N_as_u8, !N.mod_small in H by done. done. Qed.

Lemma to_le_bytes_length w v : length (to_le_bytes w v) = w.
Proof. revert v. induction w as [|w IH]; intros v; cbn; [done|]. by rewrite IH. Qed.

Lemma from_to_le_bytes w v : (v < 256 ^ N.of_nat w)%N -> from_le_bytes (to_le_bytes w v) = v.
Proof.
  revert v. induction w as [|w IH]; intros v Hv; cbn [to_le_bytes from_le_bytes].
  - change (256 ^ N.of_nat 0)%N with 1%N in Hv. lia.
  - rewrite Nat2N.inj_succ, N.pow_succ_r' in Hv. rewrite byte_N_as_u8, IH by (apply N.Div0.div_lt_upper_bound; lia).
    pose proof (N.div_mod v 256). lia.
Qed.

Lemma from_le_bytes_lt bytes : (from_le_bytes bytes < 256 ^ N.of_nat (length bytes))%N.
Proof.
  induction bytes as [|b bytes IH]; cbn [from_le_bytes length]; [done|].
  rewrite Nat2N.inj_succ, N.pow_succ_r'. pose proof (byte_N_lt b). lia.
Qed.

Lemma to_from_le_bytes bytes : to_le_bytes (length bytes) (from_le_bytes bytes) = bytes.
Proof.
  induction bytes as [|b bytes IH]; cbn [from_le_bytes length to_le_bytes]; [done|].
  pose proof (byte_N_lt b) as Hb. rewrite (N.mul_comm 256). f_equal.
  - rewrite <- (as_u8_byte_N b) at 2. unfold as_u8. rewrite N.Div0.mod_add. done.
  - rewrite N.div_add by done. rewrite (N.div_small (byte_N b)) by done. exact IH.
Qed.

Lemma from_le_bytes_inj a b : length a = length b -> from_le_bytes a = from_le_bytes b -> a = b.
Proof. intros Hl H. rewrite <- (to_from_le_bytes a), <- (to_from_le_bytes b), Hl, H. done. Qed.

(** ** The frame digest as one shift register

    The shift is linear over exclusive or, so running it over a message is the
    same as exclusive-or-ing the whole message, read as one little-endian number,
    onto the register and shifting it through. *)

Lemma crc_shift_lxor a b : crc_shift (N.lxor a b) = N.lxor (crc_shift a) (crc_shift b).
Proof.
  unfold crc_shift. rewrite N.shiftr_lxor, <- !N.bit0_odd, N.lxor_spec.
  destruct (N.testbit a 0), (N.testbit b 0); cbn; apply N.bits_inj; intros i; rewrite ?N.lxor_spec;
    destruct (N.testbit (N.shiftr a 1) i), (N.testbit (N.shiftr b 1) i), (N.testbit POLYNOMIAL i); done.
Qed.

Lemma iter_crc_shift_lxor n a b :
  Nat.iter n crc_shift (N.lxor a b) = N.lxor (Nat.iter n crc_shift a) (Nat.iter n crc_shift b).
Proof. induction n as [|n IH]; [done|]. rewrite !Nat.iter_succ, IH. apply crc_shift_lxor. Qed.

Lemma iter_crc_shift_shiftl n v : Nat.iter n crc_shift (N.shiftl v (N.of_nat n)) = v.
Proof.
  revert v. induction n as [|n IH]; intros v; [by cbn; rewrite N.shiftl_0_r|].
  rewrite Nat.iter_succ, Nat2N.inj_succ, <- N.add_1_l, <- N.shiftl_shiftl, IH. unfold crc_shift.
  rewrite <- N.bit0_odd, N.shiftl_spec_low by lia. rewrite N.shiftr_shiftl_l by lia. by rewrite N.shiftl_0_r.
Qed.

Lemma testbit_small a i k : (a < 2 ^ k)%N -> (k <= i)%N -> N.testbit a i = false.
Proof.
  intros Ha Hi. destruct (decide (a = 0%N)) as [->|Hz]; [apply N.bits_0|].
  apply N.bits_above_log2. apply (N.lt_le_trans _ k); [|done]. apply N.log2_lt_pow2; [lia|done].
Qed.

Lemma add_shiftl_lxor a b : (a < 256)%N -> (a + 256 * b)%N = N.lxor a (N.shiftl b 8).
Proof.
  intros Ha. rewrite <- N.add_nocarry_lxor; [rewrite N.shiftl_mul_pow2; change (2 ^ 8)%N with 256%N; lia|].
  apply N.bits_inj. intros i. rewrite N.land_spec, N.bits_0. destruct (N.ltb_spec i 8) as [Hi|Hi].
  - by rewrite N.shiftl_spec_low, andb_false_r by done.
  - by rewrite (testbit_small a i 8).
Qed.

Lemma crc_register crc bytes :
  foldl crc_byte crc bytes = Nat.iter (8 * length bytes) crc_shift (N.lxor crc (from_le_bytes bytes)).
Proof.
  revert crc. induction bytes as [|b bytes IH]; intros crc; cbn [foldl length from_le_bytes];
    [by rewrite N.lxor_0_r|].
  rewrite IH, add_shiftl_lxor by apply byte_N_lt. rewrite <- N.lxor_assoc.
  replace (8 * S (length bytes)) with (8 * length bytes + 8) by lia.
  rewrite Nat.iter_add, (iter_crc_shift_lxor 8). change 8%N with (N.of_nat 8).
  by rewrite iter_crc_shift_shiftl.
Qed.

(** The register loses nothing: no state but zero shifts to zero. *)
Lemma crc_shift_nonzero x : (x < u32_modulus)%N -> x <> 0%N -> (crc_shift x < u32_modulus)%N /\ crc_shift x <> 0%N.
Proof.
  intros Hx Hz. unfold crc_shift, u32_modulus in *. rewrite N.shiftr_div_pow2. change (2 ^ 1)%N with 2%N.
  assert (x / 2 < 2147483648)%N as Hd by (apply N.Div0.div_lt_upper_bound; lia).
  destruct (N.odd x) eqn:Ho.
  - assert (POLYNOMIAL <> x / 2)%N as Hp by (unfold POLYNOMIAL; lia). split.
    + change 4294967296%N with (2 ^ 32)%N. destruct (decide (N.lxor (x / 2) POLYNOMIAL = 0%N)) as [->|Hne]; [done|].
      apply N.log2_lt_pow2; [lia|]. eapply N.le_lt_trans; [apply N.log2_lxor|].
      apply N.max_lub_lt; [|vm_compute; reflexivity].
      destruct (decide ((x / 2)%N = 0%N)) as [->|Hn]; [done|].
      apply N.log2_lt_pow2; [by apply N.neq_0_lt_0|]. etrans; [exact Hd|done].
    + intros H. apply N.lxor_eq in H. done.
  - split; [lia|]. intros H. rewrite <- N.bit0_odd in Ho. apply N.div_small_iff in H; [|done].
    destruct x as [|[p|p|]]; cbn in *; try done; lia.
Qed.

Lemma iter_crc_shift_nonzero n x : (x < u32_modulus)%N -> x <> 0%N -> Nat.iter n crc_shift x <> 0%N.
Proof.
  intros Hx Hz. assert (Nat.iter n crc_shift x < u32_modulus /\ Nat.iter n crc_shift x <> 0)%N as [_ ?]; [|done].
  induction n as [|n [IH1 IH2]]; [done|]. rewrite Nat.iter_succ. by apply crc_shift_nonzero.
Qed.

(** The frame digest detects every burst of at most thirty-two bits. Two
    bodies of one length whose bits differ only inside some window of thirty-two
    consecutive bits, and do differ, have different CRC-32C digests. *)
Lemma crc32c_detects_bursts a b e k :
  length a = length b -> N.lxor (from_le_bytes a) (from_le_bytes b) = N.shiftl e k ->
  (0 < e < u32_modulus)%N -> (k <= 8 * N.of_nat (length a))%N ->
  crc32c a <> crc32c b.
Proof.
  intros Hlen Hdiff He Hk Hcrc. unfold crc32c in Hcrc.
  apply (f_equal (fun x => N.lxor x u32_max)) in Hcrc.
  rewrite !N.lxor_assoc, N.lxor_nilpotent, !N.lxor_0_r, !crc_register, <- Hlen in Hcrc.
  apply N.lxor_eq_0_iff in Hcrc. rewrite <- iter_crc_shift_lxor in Hcrc.
  replace (N.lxor (N.lxor u32_max (from_le_bytes a)) (N.lxor u32_max (from_le_bytes b)))
    with (N.shiftl e k) in Hcrc.
  2:{ rewrite <- Hdiff. apply N.bits_inj. intros i. rewrite !N.lxor_spec.
      destruct (N.testbit u32_max i), (N.testbit (from_le_bytes a) i), (N.testbit (from_le_bytes b) i); done. }
  replace (8 * length a) with (8 * length a - N.to_nat k + N.to_nat k) in Hcrc by lia.
  replace (N.shiftl e k) with (N.shiftl e (N.of_nat (N.to_nat k))) in Hcrc by (by rewrite N2Nat.id).
  rewrite Nat.iter_add, iter_crc_shift_shiftl in Hcrc.
  revert Hcrc. apply iter_crc_shift_nonzero; lia.
Qed.

Example crc32c_check_value : crc32c (String.list_byte_of_string "123456789") = 3808858755%N.
Proof. vm_compute. reflexivity. Qed.

(** ** Base64 *)

Lemma base64_char_sextet v : (v < 64)%N -> sextet (base64_char v) = Some v /\ base64_char v <> pad.
Proof.
  intros Hv.
  assert (forallb (fun n => bool_decide (sextet (base64_char (N.of_nat n)) = Some (N.of_nat n)
                                         /\ base64_char (N.of_nat n) <> pad)) (seq 0 64) = true) as H
    by (vm_compute; reflexivity).
  rewrite forallb_forall in H. specialize (H (N.to_nat v)). rewrite N2Nat.id in H.
  apply (bool_decide_eq_true_1 _). apply H, in_seq. lia.
Qed.

(** Shifting in below a number is multiplying and adding. *)
Lemma lor_shiftl_add a b k : (a < 2 ^ k)%N -> N.lor (N.shiftl b k) a = (b * 2 ^ k + a)%N.
Proof.
  intros Ha. rewrite <- N.shiftl_mul_pow2, N.add_nocarry_lxor.
  - apply N.bits_inj. intros i. rewrite N.lor_spec, N.lxor_spec. destruct (N.testbit (N.shiftl b k) i) eqn:E; [|done].
    destruct (N.ltb_spec i k) as [Hi|Hi]; [by rewrite N.shiftl_spec_low in E|].
    assert (N.testbit a i = false) as ->; [|done]. by apply (testbit_small _ _ k).
  - apply N.bits_inj. intros i. rewrite N.land_spec, N.bits_0. destruct (N.ltb_spec i k) as [Hi|Hi].
    + by rewrite N.shiftl_spec_low.
    + assert (N.testbit a i = false) as ->; [by apply (testbit_small _ _ k)|apply andb_false_r].
Qed.

Lemma triple_value a b c : (b < 256)%N -> (c < 256)%N ->
  N.lor (N.lor (N.shiftl a 16) (N.shiftl b 8)) c = (a * 65536 + b * 256 + c)%N.
Proof.
  intros Hb Hc. change 16%N with (8 + 8)%N. rewrite <- N.shiftl_shiftl, <- N.shiftl_lor.
  rewrite (lor_shiftl_add c) by done. rewrite (lor_shiftl_add b a 8) by done. change (2 ^ 8)%N with 256%N. lia.
Qed.

Lemma sextet_of t k : sextet (base64_char (N.land (N.shiftr t k) 63)) = Some ((t / 2 ^ k) `mod` 64)%N
  /\ base64_char (N.land (N.shiftr t k) 63) <> pad.
Proof.
  change 63%N with (N.ones 6). rewrite N.land_ones, N.shiftr_div_pow2. change (2 ^ 6)%N with 64%N.
  apply base64_char_sextet, N.mod_lt. done.
Qed.

Lemma decode_quad_char is_last triple v rest :
  (v < 64)%N -> decode_quad is_last triple 0 (base64_char v :: rest) = decode_quad is_last (triple * 64 + v)%N 0 rest.
Proof.
  intros Hv. destruct (base64_char_sextet v Hv) as [Hs Hp]. cbn [decode_quad].
  rewrite bool_decide_eq_false_2 by done. cbn. rewrite Hs. f_equal. by rewrite lor_shiftl_add.
Qed.

Ltac div_lia := zify; Z.to_euclidean_division_equations; lia.

(** The sextet at a position of a triple, and the byte at a position of the
    triple its sextets give back. *)
Lemma sextet_at t k : (N.land (N.shiftr t k) 63 = (t / 2 ^ k) `mod` 64)%N.
Proof. change 63%N with (N.ones 6). by rewrite N.land_ones, N.shiftr_div_pow2. Qed.
Lemma byte_at triple k b : ((triple / 2 ^ k) `mod` 256 = byte_N b)%N -> as_u8 (N.shiftr triple k) = b.
Proof.
  intros H. rewrite <- (as_u8_byte_N b). unfold as_u8. rewrite N.shiftr_div_pow2, H.
  by rewrite N.mod_small by apply byte_N_lt.
Qed.

Lemma encode_chunk_chars b0 b1 b2 :
  let t := (byte_N b0 * 65536 + default 0 (byte_N <$> b1) * 256 + default 0 (byte_N <$> b2))%N in
  encode_chunk b0 b1 b2
  = [base64_char ((t / 262144) `mod` 64)%N; base64_char ((t / 4096) `mod` 64)%N;
     if b1 is Some _ then base64_char ((t / 64) `mod` 64)%N else pad;
     if b2 is Some _ then base64_char (t `mod` 64)%N else pad].
Proof.
  intros t. unfold encode_chunk. cbv zeta. rewrite triple_value by (destruct b1, b2; cbn; try done; apply byte_N_lt).
  fold t. rewrite !sextet_at. change 63%N with (N.ones 6). by rewrite N.land_ones.
Qed.

Lemma decode_quad_pad triple padding rest :
  decode_quad true triple padding (pad :: rest) = decode_quad true (triple * 64)%N (padding + 1)%N rest.
Proof. cbn [decode_quad]. rewrite bool_decide_eq_true_2 by done. cbn [negb]. by rewrite N.shiftl_mul_pow2. Qed.

(** The bytes of a triple, of which the padding drops the last ones. *)
Lemma quad_bytes_value b0 n1 n2 padding : (n1 < 256)%N -> (n2 < 256)%N ->
  quad_bytes (byte_N b0 * 65536 + n1 * 256 + n2) padding
  = b0 :: (if (padding <? 2)%N then [as_u8 n1] else []) ++ (if (padding <? 1)%N then [as_u8 n2] else []).
Proof.
  intros H1 H2. pose proof (byte_N_lt b0) as H0. unfold quad_bytes. f_equal; [|f_equal].
  - apply byte_at. change (2 ^ 16)%N with 65536%N. div_lia.
  - destruct (padding <? 2)%N; [|done]. f_equal. apply byte_at. rewrite byte_N_as_u8.
    change (2 ^ 8)%N with 256%N. div_lia.
  - destruct (padding <? 1)%N; [|done]. f_equal. rewrite <- (N.shiftr_0_r (_ + _)%N) at 1. apply byte_at.
    rewrite byte_N_as_u8. change (2 ^ 0)%N with 1%N. div_lia.
Qed.

(** A chunk decodes to its bytes; only the final quad may be padded. *)
Lemma decode_encode_chunk b0 b1 b2 is_last :
  (b1 = None -> b2 = None) -> (b2 = None -> is_last = true) ->
  exists triple padding, decode_quad is_last 0 0 (encode_chunk b0 b1 b2) = Ok (triple, padding)
    /\ (padding <= 2)%N /\ quad_bytes triple padding = b0 :: option_list b1 ++ option_list b2.
Proof.
  intros H12 Hlast. rewrite encode_chunk_chars. cbv zeta. rewrite !decode_quad_char by (by apply N.mod_lt).
  set (n1 := default 0%N (byte_N <$> b1)). set (n2 := default 0%N (byte_N <$> b2)). pose proof (byte_N_lt b0) as H0.
  assert (n1 < 256 /\ n2 < 256)%N as [H1 H2] by (subst n1 n2; destruct b1, b2; cbn; split; try done; apply byte_N_lt).
  set (padding := (if b1 is Some _ then if b2 is Some _ then 0 else 1 else 2)%N).
  exists (byte_N b0 * 65536 + n1 * 256 + n2)%N, padding. repeat split.
  - destruct b1, b2; try (by discriminate H12); rewrite ?(Hlast eq_refl), ?decode_quad_char by (by apply N.mod_lt);
      rewrite ?decode_quad_pad; cbn [decode_quad padding]; do 2 f_equal; subst n1 n2;
      cbn [default from_option fmap option_fmap option_map] in *; div_lia.
  - by destruct b1, b2.
  - rewrite quad_bytes_value by done. subst n1 n2 padding.
    destruct b1, b2; cbn; rewrite ?as_u8_byte_N; try done. by discriminate H12.
Qed.

Lemma quads_cons chunk rest : length chunk = 4 -> quads (chunk ++ rest) = chunk :: quads rest.
Proof. destruct chunk as [|? [|? [|? [|? [|]]]]]; try done. Qed.

Lemma encode_chunk_length b0 b1 b2 : length (encode_chunk b0 b1 b2) = 4.
Proof. done. Qed.

(** Induction by chunks of three. *)
Lemma chunks_ind (P : list byte -> Prop) :
  P [] -> (forall a, P [a]) -> (forall a b, P [a; b]) ->
  (forall a b c rest, P rest -> P (a :: b :: c :: rest)) -> forall l, P l.
Proof.
  intros H0 H1 H2 H3. fix F 1. intros [|a [|b [|c rest]]]; [done|apply H1|apply H2|apply H3, F].
Qed.

Lemma base64_encode_length input : length (base64_encode input) `mod` 4 = 0.
Proof.
  induction input as [| | |b0 b1 b2 rest IH] using chunks_ind; try done.
  cbn [base64_encode]. rewrite length_app, encode_chunk_length, Nat.Div0.add_mod, IH. done.
Qed.

Lemma decode_quads_chunk b0 b1 b2 rest out :
  (b1 = None -> b2 = None) -> (b2 = None -> quads rest = []) -> decode_quads (quads rest) = Ok out ->
  decode_quads (quads (encode_chunk b0 b1 b2 ++ rest)) = Ok (b0 :: option_list b1 ++ option_list b2 ++ out).
Proof.
  intros H12 Hlast Hrest. rewrite quads_cons by done. cbn [decode_quads].
  destruct (decode_encode_chunk b0 b1 b2 (bool_decide (quads rest = []))) as (t & p & E & Hp & Hq); [done| |].
  { intros H. by apply bool_decide_eq_true_2, Hlast. }
  unfold mbind, result_bind. rewrite E, Hq, Hrest. destruct (N.ltb_spec 2 p); [lia|]. cbn. by rewrite <- app_assoc.
Qed.

Lemma decode_quads_encode input : decode_quads (quads (base64_encode input)) = Ok input.
Proof.
  induction input as [|b0|b0 b1|b0 b1 b2 rest IH] using chunks_ind; [done|..]; cbn [base64_encode].
  - by apply (decode_quads_chunk b0 None None [] []).
  - by apply (decode_quads_chunk b0 (Some b1) None [] []).
  - by apply (decode_quads_chunk b0 (Some b1) (Some b2)).
Qed.

(** Base64 text decodes to the bytes it was made from, whatever they are. *)
Theorem base64_round_trip input : base64_decode (base64_encode input) = Ok input.
Proof. unfold base64_decode. rewrite base64_encode_length. apply decode_quads_encode. Qed.

(** ** Hexadecimal *)

Lemma hex_digits_head n v rest :
  hex_digits (S n) v rest = String.String (hex_digit ((v / 16 ^ N.of_nat n) `mod` 16)%N) (hex_digits n v rest).
Proof.
  revert v rest. induction n as [|n IH]; intros v rest.
  - cbn [hex_digits]. change (16 ^ N.of_nat 0)%N with 1%N. by rewrite N.div_1_r.
  - change (hex_digits (S (S n)) v rest)
      with (hex_digits (S n) (v / 16) (String.String (hex_digit (v `mod` 16)%N) rest)).
    rewrite IH. cbn [hex_digits]. do 3 f_equal. rewrite Nat2N.inj_succ, N.pow_succ_r', N.Div0.div_div. done.
Qed.

Lemma hex_value_digit c v : hex_value c = Some v -> hex_digit v = c /\ (v < 16)%N.
Proof.
  intros H. assert (Ascii.N_of_ascii c = (if (v <? 10)%N then 48 + v else 87 + v)%N /\ (v < 16)%N) as [Hn Hv].
  - unfold hex_value in H. revert H. cbv zeta. generalize (Ascii.N_of_ascii c). intros n.
    destruct ((48 <=? n) && (n <=? 57))%N eqn:E1; [|destruct ((97 <=? n) && (n <=? 102))%N eqn:E2].
    + intros [= <-]. apply andb_prop in E1 as [?%N.leb_le ?%N.leb_le]. destruct (N.ltb_spec (n - 48) 10); lia.
    + intros [= <-]. apply andb_prop in E2 as [?%N.leb_le ?%N.leb_le]. destruct (N.ltb_spec (n - 87) 10); lia.
    + discriminate.
  - split; [|done]. unfold hex_digit. rewrite <- Hn. apply Ascii.ascii_N_embedding.
Qed.

(** The digits a text spells are the text. *)
Lemma hex_parse_digits text acc v : hex_parse acc text = Some v ->
  (v / 16 ^ N.of_nat (String.length text) = acc)%N
  /\ hex_digits (String.length text) v "" = text.
Proof.
  revert acc. induction text as [|c text IH]; intros acc H; cbn [hex_parse String.length] in *.
  - simplify_eq. by rewrite N.div_1_r.
  - destruct (hex_value c) as [d|] eqn:Ed; [|done]. cbn in H. apply IH in H as [Hv Hs].
    apply hex_value_digit in Ed as [Hc Hd]. split.
    + rewrite Nat2N.inj_succ, N.pow_succ_r', N.mul_comm, <- N.Div0.div_div, Hv. div_lia.
    + rewrite hex_digits_head, Hs, Hv. rewrite <- Hc. do 2 f_equal. div_lia.
Qed.

Lemma hex_parse_bound text acc v : hex_parse acc text = Some v ->
  (v < (acc + 1) * 16 ^ N.of_nat (String.length text))%N.
Proof.
  intros H. apply hex_parse_digits in H as [H _]. rewrite <- H.
  pose proof (N.div_mod v (16 ^ N.of_nat (String.length text))) as Hd.
  pose proof (N.mod_lt v (16 ^ N.of_nat (String.length text))) as Hm.
  assert (16 ^ N.of_nat (String.length text) <> 0)%N as Hz by (by apply N.pow_nonzero). nia.
Qed.

(** ** The digest is a 32-bit word *)

Lemma lxor_lt a b k : (a < 2 ^ k)%N -> (b < 2 ^ k)%N -> (N.lxor a b < 2 ^ k)%N.
Proof.
  intros Ha Hb. destruct (decide (N.lxor a b = 0%N)) as [->|Hz]; [by apply N.neq_0_lt_0, N.pow_nonzero|].
  apply N.log2_lt_pow2; [by apply N.neq_0_lt_0|]. apply N.nle_gt. intros Hk.
  pose proof (N.bit_log2 _ Hz) as Hbit. rewrite N.lxor_spec in Hbit.
  by rewrite (testbit_small a _ k), (testbit_small b _ k) in Hbit.
Qed.

Lemma iter_crc_shift_lt n x : (x < u32_modulus)%N -> (Nat.iter n crc_shift x < u32_modulus)%N.
Proof.
  intros Hx. induction n as [|n IH]; [done|]. rewrite Nat.iter_succ.
  destruct (decide (Nat.iter n crc_shift x = 0%N)) as [->|Hz]; [done|]. by apply crc_shift_nonzero.
Qed.

Lemma crc32c_lt bytes : (crc32c bytes < u32_modulus)%N.
Proof.
  unfold crc32c. apply (lxor_lt _ _ 32); [|done]. change (2 ^ 32)%N with u32_modulus.
  assert (forall crc, (crc < u32_modulus)%N -> (foldl crc_byte crc bytes < u32_modulus)%N) as H; [|by apply H].
  induction bytes as [|b bytes IH]; intros crc Hc; [done|]. cbn [foldl]. apply IH, iter_crc_shift_lt.
  apply (lxor_lt _ _ 32); [done|]. etrans; [apply byte_N_lt|done].
Qed.

(** The byte sequences a Rust [String] can hold. *)
Fixpoint utf8 (bytes : list byte) : bool :=
  let cont b := ((128 <=? byte_N b) && (byte_N b <=? 191))%N in
  match bytes with
  | [] => true
  | a :: rest =>
      let n := byte_N a in
      if (n <? 128)%N then utf8 rest
      else match rest with
      | [] => false
      | b :: rest =>
          let m := byte_N b in
          if ((194 <=? n) && (n <=? 223))%N then cont b && utf8 rest
          else match rest with
          | [] => false
          | c :: rest =>
              if ((224 <=? n) && (n <=? 239))%N then
                cont b && cont c && negb ((n =? 224) && (m <? 160))%N && negb ((n =? 237) && (159 <? m))%N && utf8 rest
              else match rest with
              | [] => false
              | d :: rest =>
                  ((240 <=? n) && (n <=? 244))%N && cont b && cont c && cont d
                  && negb ((n =? 240) && (m <? 144))%N && negb ((n =? 244) && (143 <? m))%N && utf8 rest
              end
          end
      end
  end.
