(* ===== verification/Slice.v ===== *)
(** * The slice routines of the Rust standard library the code relies on

    [binary_search_by], [partition_point] and [select_nth_unstable] as the
    standard library runs them, with the lemmas that give their results on
    ordered or partitioned slices. [slice_get] is [slice.get] at a [u64]
    offset. *)

From stdpp Require Import base numbers sorting list.
From S2P Require Import Prelude.

Section binary_search.
Context {A : Type} (cmp : A -> comparison).

(** The loop of [binary_search_by]: it keeps halving without an early exit. *)
Fixpoint binary_search_loop (fuel : nat) (l : list A) (base size : nat) : nat :=
  match fuel with
  | O => base
  | S fuel' =>
      if (1 <? size)%nat then
        let half := (size / 2)%nat in
        let mid := (base + half)%nat in
        let base' := match l !! mid with
                     | Some x => match cmp x with Gt => base | _ => mid end
                     | None => base
                     end in
        binary_search_loop fuel' l base' (size - half)
      else base
  end.

(** [Ok position] or [Err insertion_point]. *)
Definition binary_search_by (l : list A) : nat + nat :=
  match length l with
  | O => inr 0%nat
  | size =>
      let base := binary_search_loop size l 0 size in
      match l !! base with
      | None => inr base
      | Some x =>
          match cmp x with
          | Eq => inl base
          | Lt => inr (S base)
          | Gt => inr base
          end
      end
  end.

(** The elements that are not [Gt] form the prefix of length [k]. *)
Definition not_greater_prefix (l : list A) (k : nat) : Prop :=
  (k <= length l)%nat /\ forall i x, l !! i = Some x -> (cmp x <> Gt <-> (i < k)%nat).

Lemma binary_search_loop_spec l k fuel base size :
  not_greater_prefix l k ->
  (size <= fuel)%nat -> (1 <= size)%nat -> (base + size <= length l)%nat ->
  (base = 0 \/ base < k)%nat -> (k <= base + size)%nat ->
  binary_search_loop fuel l base size = (k - 1).
Proof.
  intros [Hk Hc]. revert base size.
  induction fuel as [|fuel IH]; cbn [binary_search_loop]; intros base size Hf Hs Hb H0 Hle; [lia|].
  destruct (Nat.ltb_spec 1 size) as [Hlt|Hge]; [|lia].
  assert (1 <= size / 2 /\ 2 * (size / 2) <= size)%nat as [Hh1 Hh2].
  { pose proof (Nat.div_mod_eq size 2). pose proof (Nat.mod_upper_bound size 2). lia. }
  destruct (lookup_lt_is_Some_2 l (base + size / 2)) as [x Hx]; [lia|]. rewrite Hx.
  specialize (Hc _ _ Hx).
  assert (cmp x = Gt -> k <= base + size / 2)%nat.
  { intros HG. rewrite HG in Hc. destruct (decide (base + size / 2 < k)%nat); [naive_solver|lia]. }
  assert (cmp x <> Gt -> base + size / 2 < k)%nat by naive_solver.
  destruct (cmp x); apply IH; try lia; try (right; auto; fail); specialize (H eq_refl); lia.
Qed.

Lemma binary_search_by_spec l k :
  not_greater_prefix l k -> (0 < length l)%nat ->
  binary_search_by l =
    match l !! (k - 1) with
    | Some x => match cmp x with Eq => inl (k - 1) | Lt => inr (S (k - 1))
                | Gt => inr (k - 1) end
    | None => inr (k - 1)
    end.
Proof.
  intros Hp Hl. unfold binary_search_by. destruct (length l) as [|n] eqn:Hn; [lia|].
  assert (k <= S n)%nat by (rewrite <- Hn; apply Hp).
  by rewrite (binary_search_loop_spec l k) by (done || lia).
Qed.
End binary_search.

Definition partition_point {A} (pred : A -> bool) (l : list A) : nat :=
  match binary_search_by (fun x => if pred x then Lt else Gt) l with
  | inl i => i
  | inr i => i
  end.

Lemma partition_point_app {A} (pred : A -> bool) (l1 l2 : list A) :
  Forall (fun x => pred x = true) l1 -> Forall (fun x => pred x = false) l2 ->
  partition_point pred (l1 ++ l2) = length l1.
Proof.
  intros H1 H2. unfold partition_point.
  destruct (decide (length (l1 ++ l2) = 0)%nat) as [H0|H0].
  { rewrite length_app in H0. destruct l1, l2; cbn in *; try lia. }
  assert (not_greater_prefix (fun x => if pred x then Lt else Gt) (l1 ++ l2) (length l1)) as Hp.
  { split; [rewrite length_app; lia|]. intros i x Hx.
    apply lookup_app_Some in Hx as [Hx|[Hge Hx]].
    - rewrite (Forall_lookup_1 _ _ _ _ H1 Hx). apply lookup_lt_Some in Hx. naive_solver.
    - rewrite (Forall_lookup_1 _ _ _ _ H2 Hx). split; [done|lia]. }
  rewrite (binary_search_by_spec _ _ _ Hp) by lia.
  destruct (decide (length l1 = 0)%nat) as [Hl1|Hl1].
  - destruct l1; [|done]. destruct l2 as [|y l2]; [done|].
    inversion H2 as [|? ? Hy _]. cbn. by rewrite Hy.
  - destruct (lookup_lt_is_Some_2 l1 (length l1 - 1)) as [x Hx]; [lia|].
    rewrite lookup_app_l, Hx by lia. rewrite (Forall_lookup_1 _ _ _ _ H1 Hx). lia.
Qed.

(** The [u64] offset is compared with the length before it becomes a position. *)
Definition slice_get {A} (l : list A) (i : N) : option A :=
  if (i <? N.of_nat (length l))%N then l !! N.to_nat i else None.

Lemma slice_get_lookup {A} (l : list A) i : slice_get l i = l !! N.to_nat i.
Proof.
  unfold slice_get. destruct (N.ltb_spec i (N.of_nat (length l))); [done|].
  symmetry. apply lookup_ge_None. lia.
Qed.

(** [slice.select_nth_unstable(k)] puts the [k]-th smallest element at [k]; the
    code reads only that element. *)
Definition select_nth (l : list N) (k : nat) : option N := merge_sort N.le l !! k.

#[global] Arguments binary_search_by : simpl never.
#[global] Arguments partition_point : simpl never.
