(* ===== verification/Membership.v ===== *)
(** * Membership, quorums and joint consensus

    Models [src/facade/membership_core.rs] (the [Membership] and
    [JointMembership] structs with their methods) and the membership decisions
    of [src/membership.rs] (promotion estimate and decision, transition
    evidence, readiness report). The theorems: quorums of one membership
    intersect, quorums on the two sides of one membership operation intersect,
    a joint quorum intersects every majority of both sides, the operations
    keep every node in at most one role, and the readiness report accepts only
    transitions whose joint commit the recorded acknowledgements prove. *)

From stdpp Require Import base gmap list strings pretty.
From S2P Require Import Prelude Types.

(** ** The membership and its methods *)

Definition matrixraft_quorum_size (voters witnesses : nat) (ignore_witness : bool) : nat :=
  if ignore_witness then (voters / 2 + 1)%nat else ((voters + witnesses) / 2 + 1)%nat.

Record Membership := mkMembership {
  m_group_id : GroupId;
  m_voters : list NodeId;
  m_learners : list NodeId;
  m_witnesses : list NodeId;
  m_epoch : N
}.
#[export] Instance eta_Membership : Settable Membership :=
  fun r => mkMembership (m_group_id r) (m_voters r) (m_learners r) (m_witnesses r) (m_epoch r).

Definition quorum_size_with_witness_policy (m : Membership) (ignore_witness : bool) : nat :=
  matrixraft_quorum_size (length (m_voters m)) (length (m_witnesses m)) ignore_witness.

Definition quorum_size (m : Membership) : nat := quorum_size_with_witness_policy m false.

(** The iterator [voters.iter().chain((!ignore_witness).then_some(&witnesses)..)]. *)
Definition participants (m : Membership) (ignore_witness : bool) : list NodeId :=
  m_voters m ++ (if ignore_witness then [] else m_witnesses m).

Definition quorum_reached_with_witness_policy
    (m : Membership) (acknowledgements : list NodeId) (ignore_witness : bool) : bool :=
  let votes := length (filter (fun node_id => node_id ∈ acknowledgements)
                              (participants m ignore_witness)) in
  (quorum_size_with_witness_policy m ignore_witness <=? votes)%nat.

Definition quorum_reached (m : Membership) (acknowledgements : list NodeId) : bool :=
  quorum_reached_with_witness_policy m acknowledgements false.

(** [remove_node]: drops the first occurrence and reports whether there was one. *)
Definition remove_node (nodes : list NodeId) (node_id : NodeId) : list NodeId * bool :=
  match list_find (fun existing => existing = node_id) nodes with
  | Some (position, _) => (delete position nodes, true)
  | None => (nodes, false)
  end.

Definition ensure_absent (m : Membership) (node_id : NodeId) : Result unit :=
  if bool_decide (node_id ∈ m_voters m)
     || bool_decide (node_id ∈ m_learners m)
     || bool_decide (node_id ∈ m_witnesses m)
  then Err (InvalidRequest ("node " ++s pretty node_id ++s " is already a member"))
  else Ok tt.

Definition membership_add_learner (node_id : NodeId) : ST RaftError Membership unit := fun m =>
  match ensure_absent m node_id with
  | Err e => (Err e, m)
  | Ok _ => (Ok tt, m <| m_learners ::= (fun l => l ++ [node_id]) |>
                      <| m_epoch ::= (fun e => e +w 1) |>)
  end.

Definition membership_add_witness (node_id : NodeId) : ST RaftError Membership unit := fun m =>
  match ensure_absent m node_id with
  | Err e => (Err e, m)
  | Ok _ => (Ok tt, m <| m_witnesses ::= (fun l => l ++ [node_id]) |>
                      <| m_epoch ::= (fun e => e +w 1) |>)
  end.

Definition membership_promote_learner (node_id : NodeId) : ST RaftError Membership unit := fun m =>
  match list_find (fun learner => learner = node_id) (m_learners m) with
  | None => (Err (InvalidRequest ("node " ++s pretty node_id ++s " is not a learner")), m)
  | Some (position, _) =>
      (Ok tt, m <| m_learners ::= delete position |>
                <| m_voters ::= (fun l => l ++ [node_id]) |>
                <| m_epoch ::= (fun e => e +w 1) |>)
  end.

(** The three [remove_node] calls are joined by [||], so a later list is only
    touched when the node was in none of the earlier ones. *)
Definition membership_remove_peer (node_id : NodeId) : ST RaftError Membership unit := fun m =>
  let bump m' := (Ok tt, m' <| m_epoch ::= (fun e => e +w 1) |>) in
  match remove_node (m_voters m) node_id with
  | (voters, true) => bump (m <| m_voters := voters |>)
  | (_, false) =>
      match remove_node (m_learners m) node_id with
      | (learners, true) => bump (m <| m_learners := learners |>)
      | (_, false) =>
          match remove_node (m_witnesses m) node_id with
          | (witnesses, true) => bump (m <| m_witnesses := witnesses |>)
          | (_, false) => (Err (NodeNotFound node_id), m)
          end
      end
  end.

Record LearnerCatchUpReport := mkLearnerCatchUpReport {
  cur_learner_id : NodeId;
  cur_learner_match_index : LogIndex;
  cur_leader_commit_index : LogIndex;
  cur_caught_up : bool;
  cur_lag : LogIndex;
  cur_promotable : bool;
  cur_reason : string
}.

Definition membership_catchup_report (m : Membership) (learner_id : NodeId)
    (learner_match_index leader_commit_index : LogIndex) : LearnerCatchUpReport :=
  let lag := saturating_sub leader_commit_index learner_match_index in
  let is_learner := bool_decide (learner_id ∈ m_learners m) in
  let caught_up := is_learner && (leader_commit_index <=? learner_match_index)%N in
  mkLearnerCatchUpReport learner_id learner_match_index leader_commit_index
    caught_up lag caught_up
    (if negb is_learner then "node_is_not_learner"
     else if caught_up then "learner_caught_up"
     else "learner_lagging").

(** ** Joint membership *)

Record JointMembership := mkJointMembership {
  old_voters : list NodeId;
  new_voters : list NodeId
}.

Record JointConsensusCommitEvidence := mkJointConsensusCommitEvidence {
  jce_old_quorum_size : nat;
  jce_new_quorum_size : nat;
  jce_acknowledged_voters : list NodeId;
  jce_old_majority_acked : bool;
  jce_new_majority_acked : bool;
  jce_joint_quorum_reached : bool
}.

Definition old_quorum_size (j : JointMembership) : nat := (length (old_voters j) / 2 + 1)%nat.
Definition new_quorum_size (j : JointMembership) : nat := (length (new_voters j) / 2 + 1)%nat.

Definition commit_evidence (j : JointMembership) (acknowledgements : list NodeId)
    : JointConsensusCommitEvidence :=
  let old_votes := length (filter (fun n => n ∈ acknowledgements) (old_voters j)) in
  let new_votes := length (filter (fun n => n ∈ acknowledgements) (new_voters j)) in
  let old_majority_acked := (old_quorum_size j <=? old_votes)%nat in
  let new_majority_acked := (new_quorum_size j <=? new_votes)%nat in
  mkJointConsensusCommitEvidence (old_quorum_size j) (new_quorum_size j) acknowledgements
    old_majority_acked new_majority_acked (old_majority_acked && new_majority_acked).

Definition joint_quorum_reached (j : JointMembership) (acknowledgements : list NodeId) : bool :=
  jce_joint_quorum_reached (commit_evidence j acknowledgements).

(** ** Learner promotion *)

Record LearnerPromotionEstimate := mkLearnerPromotionEstimate {
  lpe_learner_id : NodeId;
  lpe_remaining_entries : N;
  lpe_turn_entries : N;
  lpe_turn_elapsed_ms : N;
  lpe_estimated_catch_up_ms : N;
  lpe_election_timeout_ms : N;
  lpe_within_election_timeout : bool;
  lpe_promote_now : bool;
  lpe_reason : string
}.

(** The product is a [u128] in the source, so it does not wrap; [u64::try_from]
    of the quotient falls back to [u64::MAX]. *)
Definition matrixraft_learner_promotion_estimate (learner_id : NodeId) (is_learner : bool)
    (learner_match_index leader_last_index : LogIndex)
    (turn_entries turn_elapsed_ms election_timeout_ms : N) : LearnerPromotionEstimate :=
  let remaining_entries := saturating_sub leader_last_index learner_match_index in
  let estimate estimated_catch_up_ms promote_now reason :=
    mkLearnerPromotionEstimate learner_id remaining_entries turn_entries turn_elapsed_ms
      estimated_catch_up_ms election_timeout_ms
      (estimated_catch_up_ms <=? election_timeout_ms)%N promote_now reason in
  if negb is_learner then estimate 0%N false "node_is_not_learner"
  else if (learner_match_index =? 0)%N then estimate 0%N false "learner_has_no_matched_log"
  else if (remaining_entries =? 0)%N then estimate 0%N true "learner_caught_up"
  else if (turn_entries =? 0)%N then estimate 0%N false "no_turn_to_estimate_from"
  else
    let product := (turn_elapsed_ms * remaining_entries)%N in
    let quotient := (product / turn_entries)%N in
    let estimated_catch_up_ms := if (quotient <=? u64_max)%N then quotient else u64_max in
    if (estimated_catch_up_ms <=? election_timeout_ms)%N
    then estimate estimated_catch_up_ms true "estimated_catch_up_within_election_timeout"
    else estimate estimated_catch_up_ms false "estimated_catch_up_exceeds_election_timeout".

Record PeerStatus := mkPeerStatus {
  ps_node_id : NodeId;
  ps_matched : LogIndex;
  ps_next_index : LogIndex;
  ps_learner : bool;
  ps_healthy : bool;
  ps_lag : LogIndex
}.

Record StatusSnapshot := mkStatusSnapshot {
  ss_group_id : GroupId;
  ss_node_id : NodeId;
  ss_role : StateRole;
  ss_term : Term;
  ss_leader_id : option NodeId;
  ss_commit_index : LogIndex;
  ss_applied_index : LogIndex;
  ss_last_log_index : LogIndex;
  ss_last_snapshot_index : LogIndex;
  ss_peers : list PeerStatus
}.

Record LearnerPromotionDecision := mkLearnerPromotionDecision {
  lpd_promotable : bool;
  lpd_learner_id : NodeId;
  lpd_learner_match_index : LogIndex;
  lpd_required_match_index : LogIndex;
  lpd_reason : string
}.

Definition matrixraft_learner_promotion_decision (status : StatusSnapshot)
    (learner_id : NodeId) (max_lag : N) : LearnerPromotionDecision :=
  match list_find (fun peer => ps_node_id peer = learner_id) (ss_peers status) with
  | None =>
      mkLearnerPromotionDecision false learner_id 0
        (saturating_sub (ss_commit_index status) max_lag) "learner_missing"
  | Some (_, peer) =>
      let required_match_index := saturating_sub (ss_commit_index status) max_lag in
      let promotable :=
        ps_learner peer && ps_healthy peer && (required_match_index <=? ps_matched peer)%N in
      mkLearnerPromotionDecision promotable learner_id (ps_matched peer) required_match_index
        (if promotable then "caught_up" else "not_caught_up")
  end.

(** ** Transition evidence and the readiness report *)

Inductive MembershipScope : Type := Metaserver | DataNode.
Inductive MembershipTransitionKind : Type := Failover | ScaleUp | ScaleDown.
#[export] Instance MembershipScope_eq_dec : EqDecision MembershipScope.
Proof. solve_decision. Defined.
#[export] Instance MembershipTransitionKind_eq_dec : EqDecision MembershipTransitionKind.
Proof. solve_decision. Defined.

Record MembershipTransitionEvidence := mkMembershipTransitionEvidence {
  ev_scope : MembershipScope;
  ev_transition : MembershipTransitionKind;
  ev_before_voters : list N;
  ev_after_voters : list N;
  ev_before_learners : list N;
  ev_after_learners : list N;
  ev_leader_before : option N;
  ev_leader_after : option N;
  ev_failed_or_removed_nodes : list N;
  ev_added_nodes : list N;
  ev_caught_up_nodes : list N;
  ev_commit_index_before : N;
  ev_commit_index_after : N;
  ev_applied_index_after : N;
  ev_joint_consensus_used : bool;
  ev_old_majority_preserved : bool;
  ev_new_majority_reached : bool;
  ev_joint_old_quorum_size : nat;
  ev_joint_new_quorum_size : nat;
  ev_joint_acknowledged_voters : list N;
  ev_joint_old_majority_acked : bool;
  ev_joint_new_majority_acked : bool;
  ev_stale_leader_rejected : bool;
  ev_read_index_validated_after : bool;
  ev_write_validated_after : bool;
  ev_snapshot_floor_preserved : bool;
  ev_secondary_replication_visible : bool;
  ev_scheduler_generation_advanced : bool;
  ev_blockers : list string
}.

Record MembershipTransitionDecision := mkMembershipTransitionDecision {
  td_scope : MembershipScope;
  td_transition : MembershipTransitionKind;
  td_ready : bool;
  td_missing : list string
}.

Record MembershipReadinessReport := mkMembershipReadinessReport {
  mrr_ready : bool;
  mrr_satisfied : list string;
  mrr_missing : list string;
  mrr_decisions : list MembershipTransitionDecision
}.

Definition majority_size (voters : nat) : nat := (voters / 2 + 1)%nat.

Definition matrixraft_joint_quorum_commit_proven (ev : MembershipTransitionEvidence) : bool :=
  let joint := mkJointMembership (ev_before_voters ev) (ev_after_voters ev) in
  let computed := commit_evidence joint (ev_joint_acknowledged_voters ev) in
  bool_decide (ev_joint_old_quorum_size ev = jce_old_quorum_size computed)
  && bool_decide (ev_joint_new_quorum_size ev = jce_new_quorum_size computed)
  && ev_joint_old_majority_acked ev
  && ev_joint_new_majority_acked ev
  && jce_joint_quorum_reached computed.

(** [if bad { missing.push(requirement) }]. *)
Definition push_if (bad : bool) (requirement : string) : list string :=
  if bad then [requirement] else [].

Definition matrixraft_membership_transition_missing (ev : MembershipTransitionEvidence)
    : list string :=
  let before_majority := majority_size (length (ev_before_voters ev)) in
  let after_majority := majority_size (length (ev_after_voters ev)) in
  push_if (length (ev_before_voters ev) <? 3)%nat "before_voter_quorum_size"
  ++ push_if (length (ev_after_voters ev) <? 3)%nat "after_voter_quorum_size"
  ++ push_if (ev_commit_index_after ev <? ev_commit_index_before ev)%N "monotonic_commit_index"
  ++ push_if (ev_applied_index_after ev <? ev_commit_index_after ev)%N "apply_catches_commit"
  ++ push_if (negb (ev_old_majority_preserved ev))
       ("old_majority_preserved_" ++s pretty before_majority)
  ++ push_if (negb (ev_new_majority_reached ev))
       ("new_majority_reached_" ++s pretty after_majority)
  ++ push_if (negb (ev_stale_leader_rejected ev)) "stale_leader_rejected"
  ++ push_if (negb (ev_read_index_validated_after ev)) "read_index_after_transition"
  ++ push_if (negb (ev_write_validated_after ev)) "write_after_transition"
  ++ push_if (negb (ev_snapshot_floor_preserved ev)) "snapshot_floor_preserved"
  ++ push_if (negb (ev_secondary_replication_visible ev)) "secondary_replication_visible"
  ++ push_if (bool_decide (ev_scope ev = Metaserver) && negb (ev_scheduler_generation_advanced ev))
       "scheduler_generation_advanced"
  ++ match ev_transition ev with
     | Failover =>
         push_if (bool_decide (ev_leader_before ev = None) || bool_decide (ev_leader_after ev = None))
           "leader_before_after_present"
         ++ push_if (bool_decide (ev_leader_before ev = ev_leader_after ev))
              "leader_changed_after_failover"
         ++ push_if (bool_decide (ev_failed_or_removed_nodes ev = [])) "failed_node_recorded"
     | ScaleUp =>
         push_if (negb (ev_joint_consensus_used ev)) "joint_consensus_used"
         ++ push_if (negb (matrixraft_joint_quorum_commit_proven ev)) "joint_quorum_commit_proven"
         ++ push_if (bool_decide (ev_added_nodes ev = [])) "added_node_recorded"
         ++ push_if (length (ev_after_voters ev) <=? length (ev_before_voters ev))%nat
              "voter_count_increased"
         ++ push_if (bool_decide (ev_caught_up_nodes ev = [])) "learner_catchup_observed"
     | ScaleDown =>
         push_if (negb (ev_joint_consensus_used ev)) "joint_consensus_used"
         ++ push_if (negb (matrixraft_joint_quorum_commit_proven ev)) "joint_quorum_commit_proven"
         ++ push_if (bool_decide (ev_failed_or_removed_nodes ev = [])) "removed_node_recorded"
         ++ push_if (length (ev_before_voters ev) <=? length (ev_after_voters ev))%nat
              "voter_count_decreased"
     end
  ++ ((fun blocker => "blocker:" ++s blocker) <$> ev_blockers ev).

(** [format!("{scope:?}:{transition:?}").to_lowercase()]. *)
Definition membership_transition_id (scope : MembershipScope)
    (transition : MembershipTransitionKind) : string :=
  (match scope with Metaserver => "metaserver" | DataNode => "datanode" end)
  ++s ":" ++s
  (match transition with
   | Failover => "failover" | ScaleUp => "scaleup" | ScaleDown => "scaledown" end).

Definition required_transitions : list (MembershipScope * MembershipTransitionKind) :=
  [(Metaserver, Failover); (Metaserver, ScaleUp); (Metaserver, ScaleDown);
   (DataNode, Failover); (DataNode, ScaleUp); (DataNode, ScaleDown)].

(** The body of the [for (scope, transition) in required] loop. *)
Definition readiness_step (transitions : list MembershipTransitionEvidence)
    (acc : list string * list string * list MembershipTransitionDecision)
    (req : MembershipScope * MembershipTransitionKind)
    : list string * list string * list MembershipTransitionDecision :=
  let '(satisfied, missing, decisions) := acc in
  let '(scope, transition) := req in
  let id := membership_transition_id scope transition in
  match list_find (fun item => ev_scope item = scope /\ ev_transition item = transition)
                  transitions with
  | None =>
      (satisfied, missing ++ [id ++s ":evidence_present"],
       decisions ++ [mkMembershipTransitionDecision scope transition false ["evidence_present"]])
  | Some (_, evidence) =>
      let transition_missing := matrixraft_membership_transition_missing evidence in
      if bool_decide (transition_missing = [])
      then (satisfied ++ [id], missing,
            decisions ++ [mkMembershipTransitionDecision scope transition true []])
      else (satisfied,
            missing ++ ((fun requirement => id ++s ":" ++s requirement) <$> transition_missing),
            decisions ++ [mkMembershipTransitionDecision scope transition false transition_missing])
  end.

Definition matrixraft_membership_readiness_report
    (transitions : list MembershipTransitionEvidence) : MembershipReadinessReport :=
  let '(satisfied, missing, decisions) :=
    foldl (readiness_step transitions) ([], [], []) required_transitions in
  mkMembershipReadinessReport (bool_decide (missing = [])) satisfied missing decisions.

(** ** Quorum arithmetic *)

Lemma half_quorums_exceed n : (n < (n / 2 + 1) + (n / 2 + 1))%nat.
Proof. pose proof (Nat.div_mod_eq n 2). pose proof (Nat.mod_upper_bound n 2). lia. Qed.

Lemma adjacent_quorums_exceed n : (S n < (n / 2 + 1) + (S n / 2 + 1))%nat.
Proof.
  pose proof (Nat.div_mod_eq n 2). pose proof (Nat.mod_upper_bound n 2).
  pose proof (Nat.div_mod_eq (S n) 2). pose proof (Nat.mod_upper_bound (S n) 2). lia.
Qed.

Lemma div_le_iff a b t : b <> 0%N -> (a / b <= t <-> a < (t + 1) * b)%N.
Proof.
  intros Hb. pose proof (N.div_mod' a b) as Ha. pose proof (N.mod_lt a b Hb) as Hr.
  generalize dependent (a / b)%N. generalize dependent (a mod b)%N. intros r Hr q ->.
  split; intros H; [nia|]. destruct (N.le_gt_cases q t) as [|Hgt]; [done|].
  assert (b * (t + 1) <= b * q)%N by (apply N.mul_le_mono_l; lia). lia.
Qed.

(** A majority of [l] acknowledged by [acks]. *)
Definition majority_acked (l acks : list NodeId) : Prop :=
  (length l / 2 + 1 <= length (filter (fun n => n ∈ acks) l))%nat.

Lemma quorum_reached_majority m acks ig :
  quorum_reached_with_witness_policy m acks ig = true <-> majority_acked (participants m ig) acks.
Proof.
  unfold quorum_reached_with_witness_policy, quorum_size_with_witness_policy, majority_acked.
  rewrite Nat.leb_le. unfold participants, matrixraft_quorum_size.
  destruct ig; [rewrite app_nil_r|rewrite length_app]; done.
Qed.

Lemma majorities_overlap l a1 a2 :
  majority_acked l a1 -> majority_acked l a2 -> exists n, n ∈ l /\ n ∈ a1 /\ n ∈ a2.
Proof.
  intros H1 H2. apply (filter_overlap (fun n => n ∈ a1) (fun n => n ∈ a2)).
  pose proof (half_quorums_exceed (length l)). unfold majority_acked in *. lia.
Qed.

(** Majorities of a list and of the same list with one more element overlap. *)
Lemma adjacent_majorities_overlap l l' n a1 a2 :
  l' ≡ₚ n :: l -> majority_acked l a1 -> majority_acked l' a2 ->
  exists x, x ∈ l' /\ x ∈ a1 /\ x ∈ a2.
Proof.
  unfold majority_acked. intros Hp H1 H2. rewrite Hp in H2.
  destruct (filter_overlap (fun x => x ∈ a1) (fun x => x ∈ a2) (n :: l)) as (x & ? & ? & ?).
  - pose proof (adjacent_quorums_exceed (length l)). cbn [length] in *.
    assert (length (filter (fun x => x ∈ a1) l) <= length (filter (fun x => x ∈ a1) (n :: l)))%nat.
    { rewrite filter_cons. case_decide; cbn; lia. }
    lia.
  - exists x. rewrite Hp. done.
Qed.

(** ** Removing a node *)

Lemma delete_found_perm (l : list NodeId) (P : NodeId -> Prop) `{forall x, Decision (P x)} p y :
  list_find P l = Some (p, y) -> l ≡ₚ y :: delete p l.
Proof.
  intros (Hl & _ & _)%list_find_Some. by apply delete_Permutation.
Qed.

Lemma remove_node_true l n l' : remove_node l n = (l', true) -> l ≡ₚ n :: l'.
Proof.
  unfold remove_node. destruct (list_find _ l) as [[p y]|] eqn:Hf; [|done].
  intros [= <-]. pose proof (delete_found_perm _ _ _ _ Hf) as Hp.
  apply list_find_Some in Hf as (_ & -> & _). done.
Qed.

Lemma remove_node_false l n l' : remove_node l n = (l', false) -> l' = l /\ n ∉ l.
Proof.
  unfold remove_node. destruct (list_find _ l) as [[p y]|] eqn:Hf; [done|].
  intros [= <-]. split; [done|]. intros Hin. apply list_find_None in Hf.
  rewrite Forall_forall in Hf. by eapply Hf.
Qed.

(** ** The operations as one step *)

(** The four methods that change a membership. *)
Inductive MembershipChange : Type :=
| AddLearner (n : NodeId) | AddWitness (n : NodeId) | PromoteLearner (n : NodeId) | RemovePeer (n : NodeId).

Definition membership_change (c : MembershipChange) : ST RaftError Membership unit :=
  match c with
  | AddLearner n => membership_add_learner n
  | AddWitness n => membership_add_witness n
  | PromoteLearner n => membership_promote_learner n
  | RemovePeer n => membership_remove_peer n
  end.

(** Every node has at most one role. *)
Definition membership_wf (m : Membership) : Prop :=
  NoDup (m_voters m ++ m_learners m ++ m_witnesses m).

Lemma ensure_absent_Ok m n u :
  ensure_absent m n = Ok u -> n ∉ m_voters m ++ m_learners m ++ m_witnesses m.
Proof.
  unfold ensure_absent. repeat case_bool_decide; cbn; try done. set_solver.
Qed.

(** How one successful change moves the roster: the members (all roles) gain
    one absent node, keep the same nodes, or lose one. *)
Definition roster (m : Membership) : list NodeId := m_voters m ++ m_learners m ++ m_witnesses m.

Lemma membership_change_roster c m m' :
  membership_change c m = (Ok tt, m') ->
  match c with
  | AddLearner n | AddWitness n => (n ∉ roster m) /\ (roster m' ≡ₚ n :: roster m)
  | PromoteLearner n => n ∈ m_learners m /\ roster m' ≡ₚ roster m
  | RemovePeer n => roster m ≡ₚ n :: roster m'
  end.
Proof.
  unfold roster. destruct c as [n|n|n|n]; cbn.
  - unfold membership_add_learner. destruct (ensure_absent m n) eqn:He; [|done].
    intros [= <-]. cbn. split; [by eapply ensure_absent_Ok|]. solve_Permutation.
  - unfold membership_add_witness. destruct (ensure_absent m n) eqn:He; [|done].
    intros [= <-]. cbn. split; [by eapply ensure_absent_Ok|]. solve_Permutation.
  - unfold membership_promote_learner. destruct (list_find _ _) as [[p y]|] eqn:Hf; [|done].
    intros [= <-]. cbn. pose proof (delete_found_perm _ _ _ _ Hf) as Hp.
    apply list_find_Some in Hf as (Hin & -> & _).
    split; [by eapply list_elem_of_lookup_2|]. rewrite Hp at 2. solve_Permutation.
  - unfold membership_remove_peer.
    destruct (remove_node (m_voters m) n) as [l []] eqn:H1;
      [|destruct (remove_node (m_learners m) n) as [l2 []] eqn:H2;
        [|destruct (remove_node (m_witnesses m) n) as [l3 []] eqn:H3; [|done]]];
      intros [= <-]; cbn;
      match goal with H : _ = (_, true) |- _ => apply remove_node_true in H; rewrite H end;
      solve_Permutation.
Qed.

Lemma membership_change_wf c m :
  membership_wf m -> membership_wf (snd (membership_change c m)).
Proof.
  intros Hwf. destruct (membership_change c m) as [[[]|e] m'] eqn:Hc; cbn.
  - pose proof (membership_change_roster _ _ _ Hc) as Hr.
    change (NoDup (roster m')). change (NoDup (roster m)) in Hwf. destruct c.
    + destruct Hr as [Hn ->]. by constructor.
    + destruct Hr as [Hn ->]. by constructor.
    + destruct Hr as [_ ->]. done.
    + rewrite Hr in Hwf. by apply NoDup_cons in Hwf as [_ ?].
  - destruct c; cbn in Hc; revert Hc;
      unfold membership_add_learner, membership_add_witness, membership_promote_learner,
        membership_remove_peer;
      repeat case_match; intros; simplify_eq; done.
Qed.

(** The participants of a quorum move by at most one node per change. *)
Lemma membership_change_participants c m m' ig :
  membership_change c m = (Ok tt, m') ->
  participants m' ig ≡ₚ participants m ig
  \/ (exists n, participants m' ig ≡ₚ n :: participants m ig)
  \/ (exists n, participants m ig ≡ₚ n :: participants m' ig).
Proof.
  unfold participants. destruct c as [n|n|n|n]; cbn.
  - unfold membership_add_learner. destruct (ensure_absent m n); [|done].
    intros [= <-]. by left.
  - unfold membership_add_witness. destruct (ensure_absent m n); [|done].
    intros [= <-]. cbn. destruct ig; [by left|]. right; left. exists n. solve_Permutation.
  - unfold membership_promote_learner. destruct (list_find _ _) as [[p y]|]; [|done].
    intros [= <-]. cbn. right; left. exists n. destruct ig; solve_Permutation.
  - unfold membership_remove_peer.
    destruct (remove_node (m_voters m) n) as [l []] eqn:H1;
      [|destruct (remove_node (m_learners m) n) as [l2 []] eqn:H2;
        [|destruct (remove_node (m_witnesses m) n) as [l3 []] eqn:H3; [|done]]];
      intros [= <-]; cbn; [| by left |].
    + apply remove_node_true in H1. right; right. exists n. rewrite H1. done.
    + apply remove_node_true in H3. destruct ig; [by left|]. right; right. exists n.
      rewrite H3. solve_Permutation.
Qed.

(** ** Evidence helpers *)

Lemma push_if_nil bad r : push_if bad r = [] <-> bad = false.
Proof. by destruct bad. Qed.

(** The joint-commit check of a transition, as a proposition. *)
Lemma joint_quorum_commit_proven_spec ev :
  matrixraft_joint_quorum_commit_proven ev = true ->
  majority_acked (ev_before_voters ev) (ev_joint_acknowledged_voters ev)
  /\ majority_acked (ev_after_voters ev) (ev_joint_acknowledged_voters ev).
Proof.
  unfold matrixraft_joint_quorum_commit_proven, majority_acked. cbn.
  unfold old_quorum_size, new_quorum_size. cbn.
  rewrite !andb_true_iff, !Nat.leb_le. naive_solver.
Qed.

Lemma transition_missing_nil_reconfiguration ev :
  matrixraft_membership_transition_missing ev = [] -> ev_transition ev <> Failover ->
  ev_joint_consensus_used ev = true /\ matrixraft_joint_quorum_commit_proven ev = true.
Proof.
  unfold matrixraft_membership_transition_missing. intros H Hk.
  do 12 apply app_nil in H as [_ H].
  apply app_nil in H as [H _]. destruct (ev_transition ev); [done| |];
    apply app_nil in H as [Hused H]; apply app_nil in H as [Hproven _];
    by rewrite push_if_nil, negb_false_iff in Hused, Hproven.
Qed.

(** ** Properties *)

(** C35: any two quorums of one membership under one witness policy share a
    participant, so two conflicting decisions cannot both gather a quorum. *)
Theorem quorum_intersection m acks1 acks2 ig :
  quorum_reached_with_witness_policy m acks1 ig = true ->
  quorum_reached_with_witness_policy m acks2 ig = true ->
  exists n, n ∈ participants m ig /\ n ∈ acks1 /\ n ∈ acks2.
Proof. rewrite !quorum_reached_majority. apply majorities_overlap. Qed.

(** Three voters and two witnesses. *)
Definition example_membership : Membership := mkMembership 7 [1; 2; 3]%N [] [4; 5]%N 0.

Lemma quorum_intersection_witness :
  exists n, n ∈ participants example_membership false /\ n ∈ [1; 2; 4]%N /\ n ∈ [3; 4; 5]%N.
Proof. apply (quorum_intersection example_membership [1; 2; 4]%N [3; 4; 5]%N false); reflexivity. Defined.

(** A quorum taken before one successful membership operation and a quorum
    taken after it share a node, for each of the four operations and either
    witness policy: single-server changes are safe. *)
Theorem membership_change_quorums_intersect c m m' acks1 acks2 ig :
  membership_change c m = (Ok tt, m') ->
  quorum_reached_with_witness_policy m acks1 ig = true ->
  quorum_reached_with_witness_policy m' acks2 ig = true ->
  exists n, n ∈ acks1 /\ n ∈ acks2.
Proof.
  rewrite !quorum_reached_majority. intros Hc H1 H2.
  destruct (membership_change_participants _ _ _ ig Hc) as [Hp|[[n Hp]|[n Hp]]].
  - unfold majority_acked in H2. rewrite Hp in H2.
    destruct (majorities_overlap _ _ _ H1 H2) as (x & _ & ?). by exists x.
  - destruct (adjacent_majorities_overlap _ _ _ _ _ Hp H1 H2) as (x & _ & ?). by exists x.
  - destruct (adjacent_majorities_overlap _ _ _ _ _ Hp H2 H1) as (x & _ & ?).
    exists x. naive_solver.
Qed.

Lemma membership_change_quorums_intersect_witness :
  exists n, n ∈ [1; 2; 4]%N /\ n ∈ [2; 3; 6; 5]%N.
Proof.
  apply (membership_change_quorums_intersect (AddWitness 6) example_membership
           (mkMembership 7 [1; 2; 3]%N [] [4; 5; 6]%N 1) _ _ false); vm_compute; reflexivity.
Defined.

(** a joint quorum shares a node with every majority of the old voters and
    with every majority of the new voters. *)
Theorem joint_quorum_intersects_both_sides j acks old_acks new_acks :
  joint_quorum_reached j acks = true ->
  majority_acked (old_voters j) old_acks -> majority_acked (new_voters j) new_acks ->
  (exists n, n ∈ old_voters j /\ n ∈ acks /\ n ∈ old_acks)
  /\ (exists n, n ∈ new_voters j /\ n ∈ acks /\ n ∈ new_acks).
Proof.
  unfold joint_quorum_reached, commit_evidence. cbn.
  rewrite andb_true_iff, !Nat.leb_le. intros [Ho Hn] Hold Hnew.
  split; by apply majorities_overlap.
Qed.

Lemma joint_quorum_intersects_both_sides_witness :
  let j := mkJointMembership [1; 2; 3]%N [3; 4; 5]%N in
  (exists n, n ∈ old_voters j /\ n ∈ [1; 3; 4]%N /\ n ∈ [2; 3]%N)
  /\ (exists n, n ∈ new_voters j /\ n ∈ [1; 3; 4]%N /\ n ∈ [4; 5]%N).
Proof.
  apply (joint_quorum_intersects_both_sides (mkJointMembership [1; 2; 3]%N [3; 4; 5]%N)
           [1; 3; 4]%N [2; 3]%N [4; 5]%N);
    [reflexivity | vm_compute; lia | vm_compute; lia].
Defined.

(** Every sequence of membership operations, successful or refused, keeps
    each node in at most one of the three role lists. *)
Theorem membership_changes_keep_roles_disjoint cs m :
  membership_wf m ->
  membership_wf (foldl (fun m c => snd (membership_change c m)) m cs).
Proof.
  revert m. induction cs as [|c cs IH]; cbn; [done|].
  intros m Hwf. apply IH, membership_change_wf, Hwf.
Qed.

Lemma membership_changes_keep_roles_disjoint_witness :
  membership_wf (foldl (fun m c => snd (membership_change c m)) example_membership
                       [AddLearner 9; AddWitness 9; PromoteLearner 9; RemovePeer 1]%N).
Proof.
  apply (membership_changes_keep_roles_disjoint _ example_membership).
  apply (bool_decide_unpack _). vm_compute. exact I.
Defined.

(** Promoting a freshly added learner turns it into a voter and touches no
    other role; removing a freshly added learner or witness restores the three
    role lists. Each step moves the epoch. *)
Theorem membership_add_then_promote_or_remove m n :
  n ∉ roster m ->
  let learner := snd (membership_add_learner n m) in
  let witness := snd (membership_add_witness n m) in
  membership_promote_learner n learner
    = (Ok tt, mkMembership (m_group_id m) (m_voters m ++ [n]) (m_learners m) (m_witnesses m)
                           (m_epoch m +w 1 +w 1))
  /\ membership_remove_peer n learner = (Ok tt, m <| m_epoch := m_epoch m +w 1 +w 1 |>)
  /\ membership_remove_peer n witness = (Ok tt, m <| m_epoch := m_epoch m +w 1 +w 1 |>).
Proof.
  unfold roster. rewrite !not_elem_of_app. intros (Hv & Hl & Hw).
  assert (ensure_absent m n = Ok tt) as Ha.
  { unfold ensure_absent. by rewrite !bool_decide_false. }
  assert (forall l, n ∉ l -> list_find (fun x => x = n) (l ++ [n]) = Some (length l, n)) as Hf.
  { intros l Hn. apply list_find_Some. split_and!; [|done|].
    - by rewrite lookup_app_r, Nat.sub_diag by lia.
    - intros j y Hj Hlt ->. rewrite lookup_app_l in Hj by done. by apply list_elem_of_lookup_2 in Hj. }
  assert (forall l, n ∉ l -> list_find (fun x => x = n) l = None) as Hnone.
  { intros l Hn. apply list_find_None, Forall_forall. by intros x Hx ->. }
  assert (forall l : list N, delete (length l) (l ++ [n]) = l) as Hd.
  { intros l. rewrite delete_take_drop, take_app_length, drop_ge, app_nil_r; [done|].
    rewrite length_app. cbn. lia. }
  unfold membership_add_learner, membership_add_witness. rewrite Ha. cbn.
  unfold membership_promote_learner, membership_remove_peer, remove_node. cbn.
  rewrite !(Hnone (m_voters m)), !Hf, !Hd by done. cbn.
  repeat (rewrite Hnone by done; cbn). rewrite ?Hf, ?Hd by done. done.
Qed.

Lemma membership_add_then_promote_or_remove_witness :
  membership_promote_learner 9 (snd (membership_add_learner 9 example_membership))
  = (Ok tt, mkMembership 7 [1; 2; 3; 9]%N [] [4; 5]%N 2).
Proof.
  apply (membership_add_then_promote_or_remove example_membership 9).
  apply (bool_decide_unpack _). vm_compute. exact I.
Defined.

(** The promotion estimate promotes only learners that have confirmed an
    entry, and only when the learner is level with the leader or the time the
    remaining entries need at the measured rate fits in the election timeout;
    the multiplication is exact, so a fast turn is never rounded down to an
    estimate of zero. *)
Theorem learner_promotion_estimate_sound id is_learner match_index last_index turn elapsed timeout :
  (timeout < u64_max)%N ->
  lpe_promote_now
    (matrixraft_learner_promotion_estimate id is_learner match_index last_index turn elapsed timeout)
  = true <->
  is_learner = true /\ (0 < match_index)%N
  /\ ((last_index <= match_index)%N
      \/ (0 < turn)%N /\ (elapsed * (last_index - match_index) < (timeout + 1) * turn)%N).
Proof.
  intros Ht. unfold matrixraft_learner_promotion_estimate, saturating_sub.
  destruct is_learner; cbn; [|naive_solver].
  destruct (N.eqb_spec match_index 0) as [->|Hm]; cbn; [split; [done|lia]|].
  destruct (N.eqb_spec (last_index - match_index) 0) as [Hr|Hr]; cbn; [split; [lia|done]|].
  destruct (N.eqb_spec turn 0) as [->|Hz]; cbn; [split; [done|lia]|].
  pose proof (div_le_iff (elapsed * (last_index - match_index)) turn timeout Hz) as Hq.
  set (q := (elapsed * (last_index - match_index) / turn)%N) in *.
  set (p := (elapsed * (last_index - match_index))%N) in *.
  destruct (N.leb_spec q u64_max); case_match eqn:Hle; cbn;
    rewrite ?N.leb_le, ?N.leb_gt in Hle; (split; [|done || lia]); intros; try done;
    split_and!; try done; lia.
Qed.

Lemma learner_promotion_estimate_sound_witness :
  lpe_promote_now (matrixraft_learner_promotion_estimate 4 true 10 100010 100 1 1000) = true.
Proof.
  apply (learner_promotion_estimate_sound 4 true 10 100010 100 1 1000); [reflexivity|].
  split_and!; [reflexivity|lia|right; lia].
Defined.

Lemma foldl_readiness_missing transitions reqs sat mis dec :
  exists sat' mis' dec',
    foldl (readiness_step transitions) (sat, mis, dec) reqs
      = (sat ++ sat', mis ++ mis', dec ++ dec')
    /\ (mis' = [] -> Forall (fun req => exists ev, ev ∈ transitions
          /\ ev_scope ev = req.1 /\ ev_transition ev = req.2
          /\ matrixraft_membership_transition_missing ev = []) reqs)
    /\ length dec' = length reqs.
Proof.
  revert sat mis dec. induction reqs as [|[scope tr] reqs IH]; intros sat mis dec.
  { exists [], [], []. rewrite !app_nil_r. cbn. auto. }
  cbn [foldl readiness_step].
  destruct (list_find _ transitions) as [[i ev]|] eqn:Hf; [case_bool_decide as Hm|].
  - destruct (IH (sat ++ [membership_transition_id scope tr]) mis
                 (dec ++ [mkMembershipTransitionDecision scope tr true []]))
      as (s' & m' & d' & -> & Hall & Hlen).
    eexists _, m', _. rewrite <- !app_assoc. split_and!; [done| |cbn; by rewrite Hlen].
    intros Hn. constructor; [|auto]. apply list_find_Some in Hf as (Hi & [Hs Ht] & _).
    exists ev. split_and!; [by eapply list_elem_of_lookup_2|done..].
  - edestruct IH as (s' & m' & d' & -> & _ & Hlen). eexists _, _, _. rewrite <- !app_assoc.
    split_and!; [done| |cbn; by rewrite Hlen].
    intros (Hn & _)%app_nil. by apply fmap_nil_inv in Hn.
  - edestruct IH as (s' & m' & d' & -> & _ & Hlen). eexists _, _, _. rewrite <- !app_assoc.
    split_and!; [done|done|cbn; by rewrite Hlen].
Qed.

(** A readiness report that says ready holds, for each of the six required
    transitions, evidence of that scope and kind; for the two reconfigurations
    that evidence used joint consensus and its recorded acknowledgements
    really contain a majority of the voters before and of the voters after. *)
Theorem membership_readiness_report_sound transitions scope kind :
  mrr_ready (matrixraft_membership_readiness_report transitions) = true ->
  exists ev, ev ∈ transitions /\ ev_scope ev = scope /\ ev_transition ev = kind
    /\ matrixraft_membership_transition_missing ev = []
    /\ (kind <> Failover ->
        ev_joint_consensus_used ev = true
        /\ majority_acked (ev_before_voters ev) (ev_joint_acknowledged_voters ev)
        /\ majority_acked (ev_after_voters ev) (ev_joint_acknowledged_voters ev)).
Proof.
  unfold matrixraft_membership_readiness_report.
  destruct (foldl_readiness_missing transitions required_transitions [] [] [])
    as (s & m & d & -> & Hall & _). cbn. rewrite bool_decide_eq_true. intros Hm.
  specialize (Hall Hm). rewrite Forall_forall in Hall.
  destruct (Hall (scope, kind)) as (ev & Hin & Hs & Hk & Hmiss).
  { destruct scope, kind; cbn; set_solver. }
  cbn in Hs, Hk. exists ev. split_and!; [done..|]. intros Hne.
  rewrite <- Hk in Hne. destruct (transition_missing_nil_reconfiguration ev Hmiss Hne) as [Hu Hp].
  split; [done|]. by apply joint_quorum_commit_proven_spec.
Qed.

(** Evidence of a transition kind with every requirement met. *)
Definition example_evidence (scope : MembershipScope) (kind : MembershipTransitionKind)
    : MembershipTransitionEvidence :=
  let '(before, after) :=
    match kind with
    | Failover => ([1; 2; 3]%N, [1; 2; 3]%N)
    | ScaleUp => ([1; 2; 3]%N, [1; 2; 3; 4]%N)
    | ScaleDown => ([1; 2; 3; 4]%N, [1; 2; 3]%N)
    end in
  mkMembershipTransitionEvidence scope kind before after [] [] (Some 1%N) (Some 2%N) [4]%N [4]%N [4]%N
    128 144 144 true true true
    (majority_size (length before)) (majority_size (length after)) [1; 2; 3; 4]%N true true
    true true true true true true [].

Lemma membership_readiness_report_sound_witness :
  exists ev, ev ∈ ((fun req => example_evidence req.1 req.2) <$> required_transitions)
    /\ ev_scope ev = DataNode /\ ev_transition ev = ScaleUp
    /\ matrixraft_membership_transition_missing ev = []
    /\ (ScaleUp <> Failover ->
        ev_joint_consensus_used ev = true
        /\ majority_acked (ev_before_voters ev) (ev_joint_acknowledged_voters ev)
        /\ majority_acked (ev_after_voters ev) (ev_joint_acknowledged_voters ev)).
Proof. apply membership_readiness_report_sound. vm_compute. reflexivity. Defined.
