(* ===== verification/Node.v ===== *)
(** * One replica of a group: log, commit point and apply cursors

    Models the private struct [Node] of [src/facade/cluster_runtime.rs] with
    all its methods. The log is the list of retained entries; the [Arc] around
    an entry only shares an immutable allocation, so entries are values here.

    The theorems: on an ordered log the arithmetic and binary-search lookups
    find exactly the entry with the index; no operation removes or rewrites a
    committed entry; the running byte total is exact; the conflict hint a
    follower answers with skips exactly the conflicting run and never reaches
    the commit point; commit and apply cursors only move forward. *)

From stdpp Require Import base strings numbers sorting sets list.
From S2P Require Import Prelude Types Slice.

Record Node := mkNode {
  nd_id : NodeId;
  nd_replica_role : ReplicaRole;
  nd_raft_role : StateRole;
  nd_hard_state : HardState;
  nd_log : list LogEntry;
  nd_retained_log_bytes : N;
  nd_installed_snapshot : option SnapshotMetadata;
  nd_commit_index : LogIndex;
  nd_applied_index : LogIndex;
  nd_safety_applied_index : LogIndex;
  nd_rejected_apply_index : option LogIndex;
  nd_witness_ack_index : LogIndex;
  nd_healthy : bool;
  nd_liveness_elapsed_ms : N;
  nd_auto_promote : bool;
  nd_auto_promote_state : LearnerAutoPromoteState
}.
#[export] Instance eta_Node : Settable Node :=
  fun r => mkNode (nd_id r) (nd_replica_role r) (nd_raft_role r) (nd_hard_state r) (nd_log r)
    (nd_retained_log_bytes r) (nd_installed_snapshot r) (nd_commit_index r) (nd_applied_index r)
    (nd_safety_applied_index r) (nd_rejected_apply_index r) (nd_witness_ack_index r)
    (nd_healthy r) (nd_liveness_elapsed_ms r) (nd_auto_promote r) (nd_auto_promote_state r).

Definition node_new (id : NodeId) (replica_role : ReplicaRole) (auto_promote : bool) : Node :=
  mkNode id replica_role
    (if bool_decide (replica_role = Learner) then RoleLearner else Follower)
    (mkHardState 0 None None) [] 0 None 0 0 0 None 0 true 0
    (bool_decide (replica_role = Learner) && auto_promote) Stop.

(** [.map(|entry| entry.log_id.index).unwrap_or_default()]. *)
Definition index_or_default (o : option LogEntry) : LogIndex :=
  match o with Some e => entry_index e | None => 0%N end.

Definition snapshot_index_or_default (o : option SnapshotMetadata) : LogIndex :=
  match o with Some m => snap_index m | None => 0%N end.

Definition match_index (n : Node) : LogIndex :=
  if bool_decide (nd_replica_role n = Witness) then nd_witness_ack_index n
  else
    let log_index := index_or_default (last (nd_log n)) in
    let snapshot_index := snapshot_index_or_default (nd_installed_snapshot n) in
    N.max log_index snapshot_index.

(** [.iter().map(|entry| entry.payload.len() as u64).sum()]. *)
Definition payload_bytes (l : list LogEntry) : N := (sum_N (payload_len <$> l) `mod` u64_modulus)%N.

Definition log_position (n : Node) (log_index : LogIndex) : option nat :=
  first_index ← entry_index <$> head (nd_log n);
  offset ← checked_sub log_index first_index;
  if bool_decide (entry_index <$> slice_get (nd_log n) offset = Some log_index)
  then Some (N.to_nat offset)
  else match binary_search_by (fun e => (entry_index e ?= log_index)%N) (nd_log n) with
       | inl i => Some i
       | inr _ => None
       end.

Definition log_position_at_or_after (n : Node) (log_index : LogIndex) : option nat :=
  match last (nd_log n) with
  | None => None
  | Some e =>
      if (entry_index e <? log_index)%N then None
      else Some (partition_point (fun e => (entry_index e <? log_index)%N) (nd_log n))
  end.

Definition truncate_log_at (position : nat) (n : Node) : Node :=
  let released := payload_bytes (drop position (nd_log n)) in
  n <| nd_retained_log_bytes ::= (fun b => saturating_sub b released) |>
    <| nd_log ::= take position |>.

Definition discard_log_through (log_index : LogIndex) (n : Node) : nat * Node :=
  let cut := partition_point (fun e => (entry_index e <=? log_index)%N) (nd_log n) in
  if (cut =? 0)%nat then (0%nat, n)
  else
    let released := payload_bytes (take cut (nd_log n)) in
    (cut, n <| nd_retained_log_bytes ::= (fun b => saturating_sub b released) |>
            <| nd_log ::= drop cut |>).

Definition set_log (log : list LogEntry) (n : Node) : Node :=
  n <| nd_retained_log_bytes := payload_bytes log |> <| nd_log := log |>.

Definition log_entries (n : Node) : list LogEntry := nd_log n.
Definition log_entries_from (n : Node) (position : nat) : list LogEntry := drop position (nd_log n).

Definition log_term_at (n : Node) (log_index : LogIndex) : option Term :=
  if (log_index =? 0)%N then Some 0%N
  else
    let from_log :=
      position ← log_position n log_index;
      entry_term <$> nd_log n !! position in
    match nd_installed_snapshot n with
    | Some snapshot =>
        if (snap_index snapshot =? log_index)%N
        then Some (lid_term (snap_last_log_id snapshot)) else from_log
    | None => from_log
    end.

Definition is_fresh_candidate_log (n : Node) (candidate_last_log_id : option LogId) : bool :=
  let candidate := default (mkLogId 0 0) candidate_last_log_id in
  let local_index := match_index n in
  let local_term := default 0%N (log_term_at n local_index) in
  (local_term <? lid_term candidate)%N
  || ((lid_term candidate =? local_term)%N && (local_index <=? lid_index candidate)%N).

(** [retained_log_bytes.saturating_add(..)] and [log.push(entry)]. *)
Definition push_entry (entry : LogEntry) (n : Node) : Node :=
  n <| nd_retained_log_bytes ::= (fun b => b +s payload_len entry) |>
    <| nd_log ::= (fun l => l ++ [entry]) |>.

Definition append_entry (entry : LogEntry) (n : Node) : Node :=
  let extends_tail :=
    match last (nd_log n) with
    | None => true
    | Some e => (entry_index e <? entry_index entry)%N
    end in
  if extends_tail then push_entry entry n
  else
    match log_position n (entry_index entry) with
    | None => push_entry entry n
    | Some position =>
        if bool_decide (entry_term <$> nd_log n !! position = Some (entry_term entry)) then n
        else if (entry_index entry <=? nd_commit_index n)%N then n
        else push_entry entry (truncate_log_at position n)
    end.

Definition truncate_log_from (log_index : LogIndex) (n : Node) : Node :=
  if (log_index <=? nd_commit_index n)%N then n
  else match log_position_at_or_after n log_index with
       | Some position => truncate_log_at position n
       | None => n
       end.

(** The [while index > self.commit_index] loop; [index] drops by one per
    round, so [index - commit_index] rounds reach the exit. *)
Fixpoint conflict_scan (fuel : nat) (n : Node) (conflict_term : Term) (index : LogIndex) : LogIndex :=
  match fuel with
  | O => nd_commit_index n +s 1
  | S fuel' =>
      if (nd_commit_index n <? index)%N then
        if bool_decide (log_term_at n index = Some conflict_term)
        then conflict_scan fuel' n conflict_term (saturating_sub index 1)
        else index +s 1
      else nd_commit_index n +s 1
  end.

Definition conflict_next_index (n : Node) (prev_index : LogIndex) : LogIndex :=
  let local_last_index := match_index n in
  if (local_last_index <? prev_index)%N then local_last_index +s 1
  else match log_term_at n prev_index with
       | None => local_last_index +s 1
       | Some conflict_term =>
           conflict_scan (N.to_nat (prev_index - nd_commit_index n)) n conflict_term prev_index
       end.

Definition acknowledge_witness_index (log_index : LogIndex) (n : Node) : Node :=
  if bool_decide (nd_replica_role n = Witness)
  then n <| nd_witness_ack_index ::= N.max log_index |> else n.

Definition append_witness_entry (entry : LogEntry) (preserve_payload : bool) (n : Node) : Node :=
  let n := acknowledge_witness_index (entry_index entry) n in
  let stored := mkLogEntry (log_id entry) (if preserve_payload then payload entry else []) false in
  append_entry stored n.

Definition advance_commit (commit_index : LogIndex) (n : Node) : Node :=
  let n := n <| nd_commit_index ::= (fun c => N.max c (N.min commit_index (match_index n))) |> in
  let n :=
    if (can_serve_data (nd_replica_role n) || bool_decide (nd_replica_role n = Witness))
       && bool_decide (nd_rejected_apply_index n = None)
    then
      let has_inflight_apply := (nd_safety_applied_index n <? nd_applied_index n)%N in
      let n := n <| nd_applied_index ::= N.max (nd_commit_index n) |> in
      if negb has_inflight_apply
      then n <| nd_safety_applied_index ::= N.max (nd_applied_index n) |> else n
    else n in
  let committed_term := default (hs_current_term (nd_hard_state n)) (log_term_at n (nd_commit_index n)) in
  n <| nd_hard_state ::= (fun h => h <| hs_committed :=
        if (0 <? nd_commit_index n)%N then Some (mkLogId committed_term (nd_commit_index n)) else None |>) |>.

Definition node_install_snapshot (snapshot : RaftSnapshot) (n : Node) : Node :=
  let snapshot_index := snap_index (rs_meta snapshot) in
  let snapshot_log_id := snap_last_log_id (rs_meta snapshot) in
  let n := n <| nd_installed_snapshot := Some (rs_meta snapshot) |> in
  let n := snd (discard_log_through snapshot_index n) in
  let n := if bool_decide (nd_replica_role n = Witness)
           then n <| nd_witness_ack_index ::= N.max snapshot_index |> else n in
  let n := n <| nd_commit_index ::= N.max snapshot_index |> in
  let n := match nd_rejected_apply_index n with
           | Some required => if (required <=? snapshot_index)%N
                              then n <| nd_rejected_apply_index := None |> else n
           | None => n
           end in
  let n := if can_serve_data (nd_replica_role n)
           then n <| nd_applied_index ::= N.max snapshot_index |>
                  <| nd_safety_applied_index ::= N.max snapshot_index |>
           else n in
  n <| nd_hard_state ::= (fun h => h <| hs_committed := Some snapshot_log_id |>) |>.

Definition compact_log_through (log_index : LogIndex) (n : Node) : N * Node :=
  let safe_compaction_index :=
    if can_serve_data (nd_replica_role n) then nd_safety_applied_index n else nd_commit_index n in
  let '(cut, n') := discard_log_through (N.min log_index safe_compaction_index) n in
  (N.of_nat cut, n').

(** ** Ordered logs *)

Definition index_lt (a b : LogEntry) : Prop := (entry_index a < entry_index b)%N.
#[export] Instance index_lt_dec a b : Decision (index_lt a b).
Proof. unfold index_lt. apply _. Defined.

Definition log_ordered (l : list LogEntry) : Prop := StronglySorted index_lt l.

Lemma log_ordered_lookup l i j a b :
  log_ordered l -> (i < j)%nat -> l !! i = Some a -> l !! j = Some b ->
  (entry_index a < entry_index b)%N.
Proof.
  unfold log_ordered. intros Hs. revert i j. induction Hs as [|x l Hs IH Hall]; [done|].
  intros [|i] [|j] Hij Ha Hb; cbn in *; try lia; simplify_eq.
  - by apply (Forall_lookup_1 _ _ _ _ Hall Hb).
  - eapply IH; [|done|done]. lia.
Qed.

Lemma log_ordered_index_inj l i j a b :
  log_ordered l -> l !! i = Some a -> l !! j = Some b -> entry_index a = entry_index b -> i = j.
Proof.
  intros Hs Ha Hb He. destruct (Nat.lt_trichotomy i j) as [Hl|[->|Hl]]; [|done|].
  - pose proof (log_ordered_lookup _ _ _ _ _ Hs Hl Ha Hb). lia.
  - pose proof (log_ordered_lookup _ _ _ _ _ Hs Hl Hb Ha). lia.
Qed.

Lemma log_ordered_last l j x y :
  log_ordered l -> l !! j = Some x -> last l = Some y -> (entry_index x <= entry_index y)%N.
Proof.
  intros Hs Hx Hy. rewrite last_lookup in Hy. pose proof (lookup_lt_Some _ _ _ Hx).
  destruct (decide (j < pred (length l))%nat) as [Hlt|Hge].
  - pose proof (log_ordered_lookup _ _ _ _ _ Hs Hlt Hx Hy). lia.
  - replace (pred (length l)) with j in Hy by (destruct (length l); cbn in *; lia).
    naive_solver lia.
Qed.

(** An ordered log splits at every index bound, for the two tests the code uses. *)
Lemma log_ordered_split (test : LogIndex -> bool) l :
  (forall a b, (a < b)%N -> test b = true -> test a = true) ->
  log_ordered l ->
  exists l1 l2, l = l1 ++ l2
    /\ Forall (fun e => test (entry_index e) = true) l1
    /\ Forall (fun e => test (entry_index e) = false) l2.
Proof.
  intros Hmono Hs. induction Hs as [|x l Hs IH Hall].
  { by exists [], []. }
  destruct (test (entry_index x)) eqn:Hx.
  - destruct IH as (l1 & l2 & -> & H1 & H2). exists (x :: l1), l2. auto.
  - exists [], (x :: l). split_and!; [done|done|]. constructor; [done|].
    eapply Forall_impl; [exact Hall|]. intros e He. unfold index_lt in He.
    destruct (test (entry_index e)) eqn:Hte; [|done]. by rewrite (Hmono _ _ He Hte) in Hx.
Qed.

Lemma log_ordered_app_inv l1 l2 :
  log_ordered (l1 ++ l2) -> log_ordered l1 /\ log_ordered l2.
Proof.
  intros H. split; unfold log_ordered in *.
  - by eapply StronglySorted_app_1_l.
  - by eapply StronglySorted_app_1_r.
Qed.

Lemma log_ordered_take n l : log_ordered l -> log_ordered (take n l).
Proof. intros H. rewrite <- (take_drop n l) in H. by apply log_ordered_app_inv in H as [? _]. Qed.

Lemma log_ordered_drop n l : log_ordered l -> log_ordered (drop n l).
Proof. intros H. rewrite <- (take_drop n l) in H. by apply log_ordered_app_inv in H as [_ ?]. Qed.

Lemma log_ordered_filter (P : LogEntry -> Prop) `{forall e, Decision (P e)} l :
  log_ordered l -> log_ordered (filter P l).
Proof.
  induction 1 as [|x l Hs IH Hall]; [constructor|]. rewrite filter_cons. destruct (decide (P x)); [|done].
  constructor; [done|]. rewrite Forall_forall in *. intros y [_ Hy]%list_elem_of_filter. by apply Hall.
Qed.

Lemma log_ordered_snoc l e :
  log_ordered l -> Forall (fun x => index_lt x e) l -> log_ordered (l ++ [e]).
Proof.
  intros Hs Hall. apply StronglySorted_app_2; [|done|repeat constructor].
  intros x y Hx Hy. apply list_elem_of_singleton in Hy as ->.
  by apply list_elem_of_lookup in Hx as [i Hi]; apply (Forall_lookup_1 _ _ _ _ Hall Hi).
Qed.

(** [partition_point] of an ordered log at a bound is the split position. *)
Lemma partition_point_ordered (test : LogIndex -> bool) l :
  (forall a b, (a < b)%N -> test b = true -> test a = true) ->
  log_ordered l ->
  let p := partition_point (fun e => test (entry_index e)) l in
  (p <= length l)%nat
  /\ Forall (fun e => test (entry_index e) = true) (take p l)
  /\ Forall (fun e => test (entry_index e) = false) (drop p l).
Proof.
  intros Hmono Hs p. destruct (log_ordered_split test l Hmono Hs) as (l1 & l2 & -> & H1 & H2).
  unfold p. rewrite partition_point_app by done.
  rewrite take_app_length, drop_app_length, length_app. split_and!; [lia|done|done].
Qed.

Lemma ltb_downward i a b : (a < b)%N -> (b <? i)%N = true -> (a <? i)%N = true.
Proof. rewrite !N.ltb_lt. lia. Qed.
Lemma leb_downward i a b : (a < b)%N -> (b <=? i)%N = true -> (a <=? i)%N = true.
Proof. rewrite !N.leb_le. lia. Qed.

(** The binary search finds the entry with the index when there is one. *)
Lemma binary_search_ordered l i p :
  log_ordered l ->
  binary_search_by (fun e => (entry_index e ?= i)%N) l = inl p
  <-> entry_index <$> l !! p = Some i.
Proof.
  intros Hs. destruct (decide (length l = 0)%nat) as [H0|H0].
  { destruct l; [|done]. by split. }
  destruct (log_ordered_split (fun k => (k <=? i)%N) l (leb_downward i) Hs)
    as (l1 & l2 & Hl & H1 & H2).
  assert (not_greater_prefix (fun e => (entry_index e ?= i)%N) l (length l1)) as Hp.
  { split; [rewrite Hl, length_app; lia|]. intros j x Hx. rewrite Hl in Hx.
    apply lookup_app_Some in Hx as [Hx|[Hge Hx]].
    - pose proof (Forall_lookup_1 _ _ _ _ H1 Hx) as Hle. apply N.leb_le in Hle.
      apply lookup_lt_Some in Hx. rewrite N.compare_gt_iff. split; [done|]. lia.
    - pose proof (Forall_lookup_1 _ _ _ _ H2 Hx) as Hgt. apply N.leb_gt in Hgt.
      rewrite N.compare_gt_iff. split; [lia|]. lia. }
  rewrite (binary_search_by_spec _ _ _ Hp) by lia. split.
  - destruct (l !! (length l1 - 1)) as [x|] eqn:Hx; [|done].
    destruct (entry_index x ?= i)%N eqn:Hc; try done. apply N.compare_eq in Hc.
    intros [= <-]. by rewrite Hx, <- Hc.
  - intros (x & Hx & Hi)%fmap_Some. destruct Hp as [Hk Hp].
    assert (p < length l1)%nat as Hlt.
    { apply (Hp _ _ Hx). by rewrite <- Hi, N.compare_refl. }
    destruct (lookup_lt_is_Some_2 l (length l1 - 1)) as [y Hy]; [lia|]. rewrite Hy.
    destruct (decide (p = length l1 - 1)%nat) as [->|Hne].
    + rewrite Hx in Hy. simplify_eq. by rewrite N.compare_refl.
    + assert (p < length l1 - 1)%nat as Hlt' by lia.
      pose proof (log_ordered_lookup _ _ _ _ _ Hs Hlt' Hx Hy).
      assert (entry_index y <= i)%N; [|lia].
      apply N.leb_le. apply (Forall_lookup_1 _ l1 (length l1 - 1) y H1).
      rewrite Hl, lookup_app_l in Hy by lia. done.
Qed.

(** The lookup is exact on an ordered log: it returns the position of the
    entry with that index, and [None] only when there is none. *)
Lemma log_position_spec n i p :
  log_ordered (nd_log n) ->
  log_position n i = Some p <-> entry_index <$> nd_log n !! p = Some i.
Proof.
  intros Hs. unfold log_position.
  destruct (nd_log n) as [|e0 l] eqn:Hlog; [by split|].
  cbn [head fmap option_fmap option_map mbind option_bind].
  destruct (checked_sub i (entry_index e0)) as [off|] eqn:Hoff; cbn.
  - apply checked_sub_Some in Hoff as [-> Hle].
    case_bool_decide as Hslot.
    2: { rewrite <- binary_search_ordered by done.
         destruct (binary_search_by _ _) as [q|q]; split; by intros [= ->]. }
    rewrite slice_get_lookup in Hslot. split; [by intros [= <-]|].
    intros (x & Hx & Hi)%fmap_Some. apply fmap_Some in Hslot as (y & Hy & Hiy). f_equal.
    eapply log_ordered_index_inj; [exact Hs|exact Hy|exact Hx|]. congruence.
  - split; [done|]. intros (x & Hx & Hi)%fmap_Some.
    assert (entry_index e0 <= i)%N as Hle.
    { destruct p as [|p]; [cbn in Hx; naive_solver lia|].
      pose proof (log_ordered_lookup (e0 :: l) 0 (S p) e0 x Hs ltac:(lia) eq_refl Hx). lia. }
    unfold checked_sub in Hoff. rewrite (proj2 (N.leb_le _ _) Hle) in Hoff. done.
Qed.

Lemma log_position_None n i :
  log_ordered (nd_log n) -> log_position n i = None <-> i ∉ (entry_index <$> nd_log n).
Proof.
  intros Hs. rewrite eq_None_not_Some. split; intros H.
  - intros (e & Hi & Hin)%list_elem_of_fmap. apply list_elem_of_lookup in Hin as [p Hp].
    apply H. exists p. apply log_position_spec; [done|]. by rewrite Hp, Hi.
  - intros [p Hp]. apply log_position_spec in Hp; [|done].
    apply fmap_Some in Hp as (e & He & ->). apply H. apply list_elem_of_fmap.
    exists e. split; [done|]. by eapply list_elem_of_lookup_2.
Qed.

(** ** The byte total *)

Definition log_bytes (l : list LogEntry) : N := sum_N (payload_len <$> l).
#[global] Arguments log_bytes : simpl never.

(** The running total is exact and fits the counter. *)
Definition bytes_exact (n : Node) : Prop :=
  nd_retained_log_bytes n = log_bytes (nd_log n) /\ u64 (log_bytes (nd_log n)).

Lemma log_bytes_app l1 l2 : log_bytes (l1 ++ l2) = (log_bytes l1 + log_bytes l2)%N.
Proof. unfold log_bytes. by rewrite fmap_app, sum_N_app. Qed.

Lemma log_bytes_take_drop k l : log_bytes l = (log_bytes (take k l) + log_bytes (drop k l))%N.
Proof. by rewrite <- log_bytes_app, take_drop. Qed.

Lemma payload_bytes_exact l : u64 (log_bytes l) -> payload_bytes l = log_bytes l.
Proof.
  unfold payload_bytes, u64, u64_max, u64_modulus. intros H. apply N.mod_small.
  eapply N.le_lt_trans; [exact H|done].
Qed.

Lemma truncate_log_at_bytes p n : bytes_exact n -> bytes_exact (truncate_log_at p n).
Proof.
  intros [Hb Hu]. pose proof (log_bytes_take_drop p (nd_log n)) as Hs.
  unfold bytes_exact, truncate_log_at. cbn. unfold u64 in *.
  rewrite payload_bytes_exact by (unfold u64; lia). unfold saturating_sub. lia.
Qed.

Lemma discard_log_through_bytes i n : bytes_exact n -> bytes_exact (snd (discard_log_through i n)).
Proof.
  intros [Hb Hu]. unfold discard_log_through.
  set (cut := partition_point _ _). destruct (cut =? 0)%nat; [by split|].
  pose proof (log_bytes_take_drop cut (nd_log n)) as Hs.
  unfold bytes_exact. cbn. unfold u64 in *.
  rewrite payload_bytes_exact by (unfold u64; lia). unfold saturating_sub. lia.
Qed.

Lemma push_entry_bytes e n :
  bytes_exact n -> u64 (log_bytes (nd_log n) + payload_len e) -> bytes_exact (push_entry e n).
Proof.
  intros [Hb Hu] Hfit. unfold bytes_exact, push_entry. cbn. rewrite log_bytes_app.
  replace (log_bytes [e]) with (payload_len e) by (unfold log_bytes; cbn; lia).
  split; [|done]. rewrite Hb. by apply saturating_add_small.
Qed.

(** ** The shape of each log operation *)

(** Everything but the log and its byte total. *)
Definition same_cursors (n n' : Node) : Prop :=
  n' = n <| nd_log := nd_log n' |> <| nd_retained_log_bytes := nd_retained_log_bytes n' |>.

#[export] Instance same_cursors_preorder : PreOrder same_cursors.
Proof.
  split.
  - intros []. done.
  - intros a b c H1 H2. unfold same_cursors in *. rewrite H2 at 1. rewrite H1. done.
Qed.

Lemma truncate_log_at_cursors p n : same_cursors n (truncate_log_at p n).
Proof. by destruct n. Qed.

Lemma push_entry_cursors e n : same_cursors n (push_entry e n).
Proof. by destruct n. Qed.

Lemma append_entry_cursors e n : same_cursors n (append_entry e n).
Proof.
  unfold append_entry. destruct (match last _ with Some _ => _ | None => _ end).
  { apply push_entry_cursors. }
  destruct (log_position n _) as [p|]; [|apply push_entry_cursors].
  case_bool_decide; [reflexivity|]. destruct (_ <=? _)%N; [reflexivity|].
  etrans; [apply truncate_log_at_cursors|apply push_entry_cursors].
Qed.

Lemma truncate_log_from_cursors i n : same_cursors n (truncate_log_from i n).
Proof.
  unfold truncate_log_from. destruct (_ <=? _)%N; [reflexivity|].
  destruct (log_position_at_or_after _ _); [apply truncate_log_at_cursors|reflexivity].
Qed.

(** The position the log is cut at by [truncate_log_from] separates the
    indexes below the bound from the others. *)
Lemma log_position_at_or_after_spec n i :
  log_ordered (nd_log n) ->
  match log_position_at_or_after n i with
  | Some p => (p < length (nd_log n))%nat
      /\ Forall (fun e => entry_index e < i)%N (take p (nd_log n))
      /\ Forall (fun e => i <= entry_index e)%N (drop p (nd_log n))
  | None => Forall (fun e => entry_index e < i)%N (nd_log n)
  end.
Proof.
  intros Hs. unfold log_position_at_or_after.
  destruct (partition_point_ordered (fun k => (k <? i)%N) _ (ltb_downward i) Hs) as (Hp & H1 & H2).
  set (p := partition_point _ _) in *.
  assert (Forall (fun e => entry_index e < i)%N (take p (nd_log n))) as H1'.
  { eapply Forall_impl; [exact H1|]. intros e He. by apply N.ltb_lt. }
  destruct (last (nd_log n)) as [e|] eqn:Hlast.
  - destruct (N.ltb_spec (entry_index e) i) as [Hlt|Hge].
    + apply Forall_lookup_2. intros j x Hx. pose proof (log_ordered_last _ _ _ _ Hs Hx Hlast). lia.
    + rewrite last_lookup in Hlast. assert (p < length (nd_log n))%nat as Hlt.
      { destruct (decide (p = length (nd_log n))) as [E|]; [|lia]. rewrite E, firstn_all in H1'.
        pose proof (Forall_lookup_1 _ _ _ _ H1' Hlast). cbn in *. lia. }
      split_and!; [done|done|]. eapply Forall_impl; [exact H2|]. intros x Hx. by apply N.ltb_ge.
  - apply last_None in Hlast. by rewrite Hlast.
Qed.

(** [append_entry] either leaves the log alone, extends it, or cuts it above
    the commit point at the slot of the entry's index and puts the entry there. *)
Lemma append_entry_log e n :
  log_ordered (nd_log n) ->
  (append_entry e n = n
   /\ exists x, x ∈ nd_log n /\ entry_index x = entry_index e
      /\ (entry_term x = entry_term e \/ (entry_index e <= nd_commit_index n)%N))
  \/ (nd_log (append_entry e n) = nd_log n ++ [e]
      /\ entry_index e ∉ (entry_index <$> nd_log n))
  \/ (exists p x, nd_log n !! p = Some x /\ entry_index x = entry_index e
      /\ entry_term x <> entry_term e /\ (nd_commit_index n < entry_index e)%N
      /\ nd_log (append_entry e n) = take p (nd_log n) ++ [e]).
Proof.
  intros Hs. unfold append_entry. destruct (match last _ with Some _ => _ | None => _ end) eqn:Hext.
  - right. left. split; [done|]. intros (x & Hx & Hin)%list_elem_of_fmap.
    apply list_elem_of_lookup in Hin as [j Hj].
    destruct (last (nd_log n)) as [y|] eqn:Hlast; [|by rewrite (proj1 (last_None _) Hlast) in Hj].
    apply N.ltb_lt in Hext. pose proof (log_ordered_last _ _ _ _ Hs Hj Hlast). lia.
  - destruct (log_position n (entry_index e)) as [p|] eqn:Hp.
    + apply log_position_spec in Hp as (x & Hx & Hi)%fmap_Some; [|done].
      assert (x ∈ nd_log n) by (by eapply list_elem_of_lookup_2).
      rewrite Hx. cbn. case_bool_decide as Ht; [left; naive_solver|].
      destruct (N.leb_spec (entry_index e) (nd_commit_index n)); [left; naive_solver|].
      right. right. exists p, x. split_and!; try done. intros He. apply Ht. by rewrite He.
    + right. left. split; [done|]. by apply log_position_None.
Qed.

(** ** Operation sequences on one replica *)

Inductive NodeOp : Type :=
| OpAppend (entry : LogEntry)
| OpAppendWitness (entry : LogEntry) (preserve_payload : bool)
| OpTruncateFrom (log_index : LogIndex)
| OpAdvanceCommit (commit_index : LogIndex)
| OpInstallSnapshot (snapshot : RaftSnapshot)
| OpCompact (log_index : LogIndex).

Definition run_op (op : NodeOp) (n : Node) : Node :=
  match op with
  | OpAppend e => append_entry e n
  | OpAppendWitness e keep => append_witness_entry e keep n
  | OpTruncateFrom i => truncate_log_from i n
  | OpAdvanceCommit c => advance_commit c n
  | OpInstallSnapshot s => node_install_snapshot s n
  | OpCompact i => snd (compact_log_through i n)
  end.

Definition run_ops (ops : list NodeOp) (n : Node) : Node := foldl (fun n op => run_op op n) n ops.

(** The operations that write entries or move the commit point, as opposed to
    the two that discard a prefix. *)
Definition writes_log (op : NodeOp) : bool :=
  match op with OpInstallSnapshot _ | OpCompact _ => false | _ => true end.

(** An appended entry is past the tail or lands on a retained index, and its
    payload fits the byte counter. *)
Definition append_admissible (e : LogEntry) (n : Node) : Prop :=
  (Forall (fun x => index_lt x e) (nd_log n) \/ entry_index e ∈ (entry_index <$> nd_log n))
  /\ u64 (log_bytes (nd_log n) + payload_len e).

#[export] Instance append_admissible_dec e n : Decision (append_admissible e n).
Proof. unfold append_admissible. apply _. Defined.

Definition op_admissible (op : NodeOp) (n : Node) : Prop :=
  match op with
  | OpAppend e | OpAppendWitness e _ => append_admissible e n
  | _ => True
  end.

Fixpoint admissible_run (ops : list NodeOp) (n : Node) : Prop :=
  match ops with
  | [] => True
  | op :: ops' => op_admissible op n /\ admissible_run ops' (run_op op n)
  end.

(** The invariant of a replica: ordered log, exact byte total, and apply
    cursors that never run ahead of the commit point. *)
Record node_wf (n : Node) : Prop := mk_node_wf {
  wf_ordered : log_ordered (nd_log n);
  wf_bytes : bytes_exact n;
  wf_safety : (nd_safety_applied_index n <= nd_applied_index n)%N;
  wf_applied : (nd_applied_index n <= nd_commit_index n)%N
}.

Definition committed_log (n : Node) : list LogEntry :=
  filter (fun e => (entry_index e <= nd_commit_index n)%N) (nd_log n).

Lemma node_wf_same_cursors n n' :
  same_cursors n n' -> node_wf n -> log_ordered (nd_log n') -> bytes_exact n' -> node_wf n'.
Proof. intros -> [_ _ Hs Ha] Ho Hb. by split. Qed.

Lemma append_entry_ordered e n :
  log_ordered (nd_log n) -> append_admissible e n -> log_ordered (nd_log (append_entry e n)).
Proof.
  intros Hs [Hadm _].
  destruct (append_entry_log e n Hs) as [[-> _]|[[-> Hnew]|(p & x & Hx & Hi & _ & _ & ->)]]; [done|..].
  - apply log_ordered_snoc; [done|]. by destruct Hadm.
  - apply log_ordered_snoc; [by apply log_ordered_take|].
    apply Forall_lookup_2. intros j y Hy. apply lookup_take_Some in Hy as [Hy Hlt].
    unfold index_lt. rewrite <- Hi. by eapply log_ordered_lookup.
Qed.

Lemma append_entry_bytes e n :
  bytes_exact n -> append_admissible e n -> bytes_exact (append_entry e n).
Proof.
  intros Hb [_ Hfit]. unfold append_entry.
  destruct (match last _ with Some _ => _ | None => _ end); [by apply push_entry_bytes|].
  destruct (log_position n _) as [p|]; [|by apply push_entry_bytes].
  case_bool_decide; [done|]. destruct (_ <=? _)%N; [done|].
  apply push_entry_bytes; [by apply truncate_log_at_bytes|].
  pose proof (log_bytes_take_drop p (nd_log n)). unfold u64 in *. cbn. lia.
Qed.

Lemma append_entry_wf e n : node_wf n -> append_admissible e n -> node_wf (append_entry e n).
Proof.
  intros Hwf Ha. eapply node_wf_same_cursors; [apply append_entry_cursors|done|..].
  - by apply append_entry_ordered; [apply Hwf|].
  - by apply append_entry_bytes; [apply Hwf|].
Qed.

Lemma truncate_log_at_wf p n : node_wf n -> node_wf (truncate_log_at p n).
Proof.
  intros Hwf. eapply node_wf_same_cursors; [apply truncate_log_at_cursors|done|..].
  - apply log_ordered_take, Hwf.
  - apply truncate_log_at_bytes, Hwf.
Qed.

Lemma truncate_log_from_wf i n : node_wf n -> node_wf (truncate_log_from i n).
Proof.
  intros Hwf. unfold truncate_log_from. destruct (_ <=? _)%N; [done|].
  destruct (log_position_at_or_after n i); [by apply truncate_log_at_wf|done].
Qed.

Lemma discard_log_through_cursors i n : same_cursors n (snd (discard_log_through i n)).
Proof. unfold discard_log_through. destruct (_ =? _)%nat; by destruct n. Qed.

Lemma discard_log_through_drop i n :
  nd_log (snd (discard_log_through i n)) = drop (fst (discard_log_through i n)) (nd_log n).
Proof.
  unfold discard_log_through. destruct (Nat.eqb_spec (partition_point (λ e, (entry_index e <=? i)%N) (nd_log n)) 0); done.
Qed.

Lemma discard_log_through_wf i n : node_wf n -> node_wf (snd (discard_log_through i n)).
Proof.
  intros Hwf. eapply node_wf_same_cursors; [apply discard_log_through_cursors|done|..].
  - rewrite discard_log_through_drop. apply log_ordered_drop, Hwf.
  - apply discard_log_through_bytes, Hwf.
Qed.

Lemma acknowledge_witness_index_wf i n : node_wf n -> node_wf (acknowledge_witness_index i n).
Proof. intros [Ho Hb Hs Ha]. unfold acknowledge_witness_index. by case_bool_decide. Qed.

Lemma acknowledge_witness_index_log i n :
  nd_log (acknowledge_witness_index i n) = nd_log n
  /\ nd_commit_index (acknowledge_witness_index i n) = nd_commit_index n.
Proof. unfold acknowledge_witness_index. by case_bool_decide. Qed.

Lemma append_witness_entry_wf e keep n :
  node_wf n -> append_admissible e n -> node_wf (append_witness_entry e keep n).
Proof.
  intros Hwf [Ha Hfit]. unfold append_witness_entry.
  apply append_entry_wf; [by apply acknowledge_witness_index_wf|].
  unfold append_admissible. rewrite (proj1 (acknowledge_witness_index_log _ n)).
  split; [exact Ha|]. unfold u64 in *. unfold payload_len at 1. cbn [payload].
  destruct keep; [exact Hfit|]. cbn. lia.
Qed.

Lemma advance_commit_log c n : nd_log (advance_commit c n) = nd_log n.
Proof. unfold advance_commit. cbn. repeat (case_match; try done). Qed.

Lemma advance_commit_cursors c n :
  nd_commit_index (advance_commit c n) = N.max (nd_commit_index n) (N.min c (match_index n))
  /\ nd_retained_log_bytes (advance_commit c n) = nd_retained_log_bytes n
  /\ (nd_applied_index (advance_commit c n) = nd_applied_index n
      \/ nd_applied_index (advance_commit c n)
         = N.max (nd_commit_index (advance_commit c n)) (nd_applied_index n))
  /\ (nd_safety_applied_index (advance_commit c n) = nd_safety_applied_index n
      \/ nd_safety_applied_index (advance_commit c n)
         = N.max (nd_applied_index (advance_commit c n)) (nd_safety_applied_index n)).
Proof.
  unfold advance_commit. cbn.
  destruct (_ && _); [|split_and!; auto]. destruct (negb _); cbn; split_and!; auto.
Qed.

Lemma advance_commit_wf c n : node_wf n -> node_wf (advance_commit c n).
Proof.
  intros [Ho [Hb Hu] Hs Ha].
  destruct (advance_commit_cursors c n) as (Hc & Hr & Hap & Hsa).
  split.
  - by rewrite advance_commit_log.
  - unfold bytes_exact. by rewrite advance_commit_log, Hr.
  - lia.
  - lia.
Qed.

Lemma node_install_snapshot_wf s n : node_wf n -> node_wf (node_install_snapshot s n).
Proof.
  intros Hwf. unfold node_install_snapshot.
  set (n1 := n <| nd_installed_snapshot := Some (rs_meta s) |>).
  assert (node_wf n1) as Hwf1 by (destruct Hwf as [Ho Hb Hs Ha]; by split).
  pose proof (discard_log_through_wf (snap_index (rs_meta s)) n1 Hwf1) as [Ho [Hb Hu] Hs Ha].
  set (n2 := snd (discard_log_through _ n1)) in *. clearbody n2. clear n1 Hwf1 Hwf.
  case_bool_decide; destruct (nd_rejected_apply_index _) as [r|]; try (destruct (r <=? _)%N);
    destruct (can_serve_data _); split; try split; cbn in *; try done; lia.
Qed.

Lemma run_op_wf op n : node_wf n -> op_admissible op n -> node_wf (run_op op n).
Proof.
  intros Hwf Ha. destruct op; cbn in *.
  - by apply append_entry_wf.
  - by apply append_witness_entry_wf.
  - by apply truncate_log_from_wf.
  - by apply advance_commit_wf.
  - by apply node_install_snapshot_wf.
  - unfold compact_log_through.
    pose proof (discard_log_through_wf (N.min log_index
      (if can_serve_data (nd_replica_role n) then nd_safety_applied_index n
       else nd_commit_index n)) n Hwf). by destruct (discard_log_through _ _).
Qed.

(** ** Properties *)

(** C36: a fresh replica satisfies the replica invariant, and every sequence of
    admissible operations keeps it: the log stays ordered by index, the running
    byte total equals the payload bytes of the retained entries, and the
    cursors stay in the order safety-applied, applied, committed. *)
Theorem node_invariant_preserved id role ap ops :
  admissible_run ops (node_new id role ap) -> node_wf (run_ops ops (node_new id role ap)).
Proof.
  assert (node_wf (node_new id role ap)) as Hwf
    by (split; [apply SSorted_nil|split; [done|vm_compute; discriminate]|done|done]).
  revert Hwf. generalize (node_new id role ap). induction ops as [|op ops IH]; cbn; [done|].
  intros n Hwf [Ha Hrun]. apply IH; [by apply run_op_wf|done].
Qed.

Definition sample_entry (t i : N) (bytes : nat) : LogEntry :=
  mkLogEntry (mkLogId t i) (replicate bytes Byte.x2a) true.

Definition sample_ops : list NodeOp :=
  [OpAppend (sample_entry 1 1 3); OpAppend (sample_entry 1 2 4); OpAdvanceCommit 1;
   OpAppend (sample_entry 2 2 5); OpAppend (sample_entry 2 3 6); OpAdvanceCommit 3; OpCompact 2].

Lemma node_invariant_preserved_witness :
  node_wf (run_ops sample_ops (node_new 1 Voter false))
  /\ nd_retained_log_bytes (run_ops sample_ops (node_new 1 Voter false)) = 6%N.
Proof.
  split; [|vm_compute; reflexivity].
  apply (node_invariant_preserved 1 Voter false sample_ops).
  unfold sample_ops. cbn [admissible_run op_admissible].
  repeat split; try exact I; apply (bool_decide_unpack _); vm_compute; exact I.
Defined.

Lemma committed_prefix_take c p l :
  Forall (fun e => c < entry_index e)%N (drop p l) ->
  log_ordered l -> filter (fun e => (entry_index e <= c)%N) l `prefix_of` take p l.
Proof.
  intros Hd Hs. rewrite <- (take_drop p l) at 1. rewrite filter_app.
  assert (filter (fun e => (entry_index e <= c)%N) (drop p l) = []) as ->.
  { apply filter_nil_Forall. eapply Forall_impl; [exact Hd|]. cbn. lia. }
  rewrite app_nil_r. apply log_ordered_take with (n := p) in Hs. revert Hs.
  generalize (take p l) as k. clear. intros k Hs.
  induction Hs as [|x k Hs IH Hall]; [done|]. rewrite filter_cons.
  destruct (decide (entry_index x <= c)%N) as [Hle|Hgt]; [by apply prefix_cons|].
  rewrite filter_nil_Forall; [apply prefix_nil|].
  eapply Forall_impl; [exact Hall|]. unfold index_lt. cbn. lia.
Qed.

Lemma committed_prefix c l :
  log_ordered l -> filter (fun e => (entry_index e <= c)%N) l `prefix_of` l.
Proof.
  intros Hs. rewrite <- (firstn_all l) at 2. apply committed_prefix_take; [|done].
  by rewrite drop_all.
Qed.

Lemma append_entry_committed e n :
  log_ordered (nd_log n) -> committed_log n `prefix_of` nd_log (append_entry e n).
Proof.
  intros Hs. pose proof (committed_prefix (nd_commit_index n) (nd_log n) Hs) as Hp.
  destruct (append_entry_log e n Hs) as [[-> _]|[[-> _]|(p & x & Hx & Hi & _ & Hc & ->)]]; [done|..].
  - by apply prefix_app_r.
  - apply prefix_app_r, committed_prefix_take; [|done].
    apply Forall_lookup_2. intros j y Hy. rewrite lookup_drop in Hy.
    destruct j as [|j]; [rewrite Nat.add_0_r in Hy; naive_solver lia|].
    pose proof (log_ordered_lookup _ p (p + S j)%nat x y Hs ltac:(lia) Hx Hy). lia.
Qed.

Lemma truncate_log_from_committed i n :
  log_ordered (nd_log n) -> committed_log n `prefix_of` nd_log (truncate_log_from i n).
Proof.
  intros Hs. unfold truncate_log_from.
  destruct (N.leb_spec i (nd_commit_index n)) as [Hle|Hgt]; [by apply committed_prefix|].
  pose proof (log_position_at_or_after_spec n i Hs) as Hp.
  destruct (log_position_at_or_after n i) as [p|]; [|by apply committed_prefix].
  destruct Hp as (_ & _ & Hd). cbn. apply committed_prefix_take; [|done].
  eapply Forall_impl; [exact Hd|]. cbn. lia.
Qed.

Lemma run_op_committed op n :
  log_ordered (nd_log n) -> writes_log op = true ->
  committed_log n `prefix_of` nd_log (run_op op n)
  /\ (nd_commit_index n <= nd_commit_index (run_op op n))%N.
Proof.
  intros Hs Hw. destruct op; try done; cbn [run_op].
  - split; [by apply append_entry_committed|].
    rewrite (append_entry_cursors entry n). cbn. lia.
  - unfold append_witness_entry.
    set (m := acknowledge_witness_index (entry_index entry) n).
    destruct (acknowledge_witness_index_log (entry_index entry) n) as [Hl Hc]. fold m in Hl, Hc.
    replace (committed_log n) with (committed_log m) by (unfold committed_log; by rewrite Hl, Hc).
    split; [apply append_entry_committed; by rewrite Hl|].
    rewrite <- Hc, (append_entry_cursors _ m). cbn. lia.
  - split; [by apply truncate_log_from_committed|].
    rewrite (truncate_log_from_cursors log_index n). cbn. lia.
  - destruct (advance_commit_cursors commit_index n) as (Hc & _).
    rewrite advance_commit_log, Hc. split; [by apply committed_prefix|lia].
Qed.

Lemma filter_le_mono c c' (l : list LogEntry) : (c <= c')%N ->
  filter (fun e => (entry_index e <= c')%N) (filter (fun e => (entry_index e <= c)%N) l)
  = filter (fun e => (entry_index e <= c)%N) l.
Proof.
  intros Hc. rewrite list_filter_filter. apply list_filter_iff. intros x. split; [naive_solver|].
  intros H. split; [lia|done].
Qed.

(** Committed entries are durable under writes. From any replica in its
    invariant, appends (duplicate, reordered or conflicting), witness appends,
    truncations at any index and commit advances leave the committed entries
    as the unchanged beginning of the log. *)
Theorem committed_entries_durable n ops :
  node_wf n -> Forall (fun op => writes_log op = true) ops -> admissible_run ops n ->
  committed_log n `prefix_of` nd_log (run_ops ops n).
Proof.
  revert n. induction ops as [|op ops IH]; intros n Hwf Hw Hadm; cbn in *.
  { apply committed_prefix, Hwf. }
  apply Forall_cons in Hw as [Hop Hw]. destruct Hadm as [Ha Hadm].
  destruct (run_op_committed op n (wf_ordered n Hwf) Hop) as [Hp Hc].
  etrans; [|apply IH; [by apply run_op_wf|done|done]].
  unfold committed_log at 1. rewrite <- (filter_le_mono _ _ _ Hc). by apply prefix_filter.
Qed.

Definition sample_node : Node := run_ops (take 6 sample_ops) (node_new 1 Voter false).

Lemma committed_entries_durable_witness :
  committed_log sample_node = [sample_entry 1 1 3; sample_entry 2 2 5; sample_entry 2 3 6]
  /\ committed_log sample_node `prefix_of`
     nd_log (run_ops [OpAppend (sample_entry 9 2 1); OpTruncateFrom 1; OpAppend (sample_entry 2 4 1)]
               sample_node).
Proof.
  split; [vm_compute; reflexivity|].
  apply (committed_entries_durable sample_node
    [OpAppend (sample_entry 9 2 1); OpTruncateFrom 1; OpAppend (sample_entry 2 4 1)]).
  - split; [repeat constructor|..]; try (split; vm_compute; [reflexivity|discriminate]);
      vm_compute; discriminate.
  - repeat constructor.
  - cbn [admissible_run op_admissible].
    repeat split; try exact I; apply (bool_decide_unpack _); vm_compute; exact I.
Defined.

(** The entry a replica holds at an index, by the lookup the code uses. *)
Definition entry_at (n : Node) (i : LogIndex) : option LogEntry :=
  p ← log_position n i; nd_log n !! p.

Lemma entry_at_spec n i e :
  log_ordered (nd_log n) -> entry_at n i = Some e <-> e ∈ nd_log n /\ entry_index e = i.
Proof.
  intros Hs. unfold entry_at. split.
  - intros (p & Hp & He)%bind_Some. apply log_position_spec in Hp; [|done].
    rewrite He in Hp. split; [by eapply list_elem_of_lookup_2|naive_solver].
  - intros [[p Hp]%list_elem_of_lookup Hi]. apply bind_Some. exists p. split; [|done].
    apply log_position_spec; [done|]. by rewrite Hp, <- Hi.
Qed.

(** On an ordered log the arithmetic-slot lookup with its binary-search
    fallback agrees with a linear search for the index, found or not. *)
Theorem log_lookup_equals_linear_search n i :
  log_ordered (nd_log n) ->
  entry_at n i = snd <$> list_find (fun e => entry_index e = i) (nd_log n).
Proof.
  intros Hs. apply option_eq. intros e. rewrite entry_at_spec by done. split.
  - intros [Hin Hi].
    destruct (list_find_elem_of (fun e => entry_index e = i) _ _ Hin Hi) as [[p x] Hf].
    pose proof Hf as (Hx & Hxi & _)%list_find_Some. rewrite Hf. cbn. f_equal.
    apply list_elem_of_lookup in Hin as [q Hq].
    assert (p = q) as -> by (eapply log_ordered_index_inj; [done|done|done|congruence]).
    naive_solver.
  - intros ([p x] & Hf & ->)%fmap_Some. apply list_find_Some in Hf as (Hx & Hi & _).
    split; [by eapply list_elem_of_lookup_2|done].
Qed.

Lemma log_lookup_equals_linear_search_witness :
  log_ordered [sample_entry 1 3 0; sample_entry 1 5 0; sample_entry 2 6 0]
  /\ entry_at (set_log [sample_entry 1 3 0; sample_entry 1 5 0; sample_entry 2 6 0]
                 (node_new 1 Voter false)) 6 = Some (sample_entry 2 6 0).
Proof.
  assert (log_ordered [sample_entry 1 3 0; sample_entry 1 5 0; sample_entry 2 6 0]) as Hs
    by (repeat constructor).
  split; [exact Hs|].
  rewrite (log_lookup_equals_linear_search (set_log _ (node_new 1 Voter false)) 6 Hs).
  vm_compute. reflexivity.
Defined.

(** The replica has committed another term at the entry's index. *)
Definition committed_conflict (e : LogEntry) (n : Node) : bool :=
  match entry_at n (entry_index e) with
  | Some x => negb (entry_term x =? entry_term e)%N && (entry_index e <=? nd_commit_index n)%N
  | None => false
  end.

Lemma entry_at_prefix_stable n n' k i :
  log_ordered (nd_log n) -> log_ordered (nd_log n') ->
  (exists t t', nd_log n = k ++ t /\ nd_log n' = k ++ t'
    /\ Forall (fun x => i < entry_index x)%N t /\ Forall (fun x => i < entry_index x)%N t') ->
  entry_at n' i = entry_at n i.
Proof.
  intros Hs Hs' (t & t' & Hk & Hk' & Ht & Ht'). apply option_eq. intros x.
  rewrite !entry_at_spec by done. rewrite Hk, Hk', !elem_of_app.
  split; intros [[?|[j Hj]%list_elem_of_lookup] Hi]; auto.
  - pose proof (Forall_lookup_1 _ _ _ _ Ht' Hj). cbn in *. lia.
  - pose proof (Forall_lookup_1 _ _ _ _ Ht Hj). cbn in *. lia.
Qed.

(** The effect of an append on a replica in its invariant. An entry whose
    index is committed with another term is refused and nothing changes;
    otherwise the replica afterwards holds an entry of that index and term, it
    holds every earlier entry it held before, and unless the entry was already
    there it is the last one. *)
Theorem append_entry_effect e n :
  node_wf n -> append_admissible e n ->
  if committed_conflict e n then append_entry e n = n
  else (exists x, entry_at (append_entry e n) (entry_index e) = Some x
                  /\ entry_term x = entry_term e)
       /\ (forall i, (i < entry_index e)%N -> entry_at (append_entry e n) i = entry_at n i)
       /\ (append_entry e n = n \/ last (nd_log (append_entry e n)) = Some e).
Proof.
  intros Hwf Hadm. pose proof (append_entry_ordered e n (wf_ordered n Hwf) Hadm) as Hs'.
  pose proof (wf_ordered n Hwf) as Hs. unfold committed_conflict.
  destruct (append_entry_log e n Hs)
    as [(Heq & x & Hin & Hi & Ht)|[[Hl Hnew]|(p & x & Hx & Hi & Ht & Hc & Hl)]].
  - rewrite (proj2 (entry_at_spec n _ x Hs) (conj Hin Hi)), Heq.
    destruct (N.eqb_spec (entry_term x) (entry_term e)); cbn.
    + split_and!; [|done|by left]. exists x. by rewrite entry_at_spec.
    + by destruct Ht as [?| ->%N.leb_le].
  - assert (entry_at n (entry_index e) = None) as ->.
    { apply eq_None_not_Some. intros [x [Hin Hi]%entry_at_spec]; [|done].
      apply Hnew. rewrite <- Hi. by apply list_elem_of_fmap_2. }
    destruct Hadm as [[Htail|?] _]; [|done]. split_and!.
    + exists e. rewrite entry_at_spec, Hl by done. set_solver.
    + intros i Hlt. apply (entry_at_prefix_stable _ _ (nd_log n)); [done|done|].
      exists [], [e]. rewrite app_nil_r. auto.
    + right. by rewrite Hl, last_snoc.
  - assert (entry_at n (entry_index e) = Some x) as ->.
    { rewrite entry_at_spec by done. split; [by eapply list_elem_of_lookup_2|done]. }
    rewrite (proj2 (N.leb_gt _ _) Hc), andb_false_r. split_and!.
    + exists e. rewrite entry_at_spec, Hl by done. set_solver.
    + intros i Hlt. apply (entry_at_prefix_stable _ _ (take p (nd_log n))); [done|done|].
      exists (drop p (nd_log n)), [e]. rewrite take_drop. split_and!; [done|done| |auto].
      apply Forall_lookup_2. intros j y Hy. rewrite lookup_drop in Hy.
      destruct j as [|j]; [rewrite Nat.add_0_r in Hy; naive_solver lia|].
      pose proof (log_ordered_lookup _ p (p + S j)%nat x y Hs ltac:(lia) Hx Hy). lia.
    + right. by rewrite Hl, last_snoc.
Qed.

Definition sample_entries : list LogEntry := [sample_entry 1 1 3; sample_entry 1 2 4; sample_entry 1 3 1].
Definition sample_follower : Node :=
  advance_commit 1 (run_ops (OpAppend <$> sample_entries) (node_new 2 Voter false)).

Lemma append_entry_effect_witness :
  append_entry (sample_entry 2 1 9) sample_follower = sample_follower
  /\ entry_at (append_entry (sample_entry 2 2 9) sample_follower) 1 = Some (sample_entry 1 1 3)
  /\ nd_log (append_entry (sample_entry 2 2 9) sample_follower)
     = [sample_entry 1 1 3; sample_entry 2 2 9].
Proof.
  assert (node_wf sample_follower) as Hwf.
  { split; [repeat constructor|split; vm_compute; [reflexivity|discriminate]|..];
      vm_compute; discriminate. }
  split; [|split; [|vm_compute; reflexivity]].
  - apply (append_entry_effect (sample_entry 2 1 9) sample_follower Hwf).
    apply (bool_decide_unpack _). vm_compute. exact I.
  - destruct (append_entry_effect (sample_entry 2 2 9) sample_follower Hwf) as (_ & Hbelow & _).
    { apply (bool_decide_unpack _). vm_compute. exact I. }
    rewrite Hbelow; vm_compute; reflexivity.
Defined.

(** [conflict_scan] stops right above the last index of another term, or above
    the commit point, whichever is higher. *)
Lemma conflict_scan_spec n t fuel i :
  (i < u64_max)%N -> (nd_commit_index n < u64_max)%N ->
  (N.to_nat (i - nd_commit_index n) <= fuel)%nat ->
  let r := conflict_scan fuel n t i in
  (nd_commit_index n < r)%N
  /\ (forall j, (r <= j <= i)%N -> log_term_at n j = Some t)
  /\ (r = nd_commit_index n + 1 \/ (r - 1 <= i /\ log_term_at n (r - 1) <> Some t))%N.
Proof.
  intros Hi Hc. revert i Hi. induction fuel as [|fuel IH]; intros i Hi Hf r; cbn in r.
  - unfold r. rewrite saturating_add_small by lia. split_and!; [lia| |by left].
    intros j Hj. lia.
  - destruct (N.ltb_spec (nd_commit_index n) i) as [Hlt|Hge].
    + destruct (bool_decide_reflect (log_term_at n i = Some t)) as [Ht|Ht].
      * destruct (IH (saturating_sub i 1)) as (H1 & H2 & H3);
          [unfold saturating_sub; lia|unfold saturating_sub; lia|].
        unfold r. unfold saturating_sub in *. set (q := conflict_scan _ _ _ _) in *.
        split_and!; [done| |destruct H3 as [?|[? ?]]; [by left|right; split; [lia|done]]].
        intros j Hj. destruct (decide (j = i)) as [->|Hne]; [done|]. apply H2. lia.
      * unfold r. rewrite saturating_add_small by lia. split_and!; [lia|intros j Hj; lia|].
        right. replace (i + 1 - 1)%N with i by lia. split; [lia|done].
    + unfold r. rewrite saturating_add_small by lia. split_and!; [lia|intros j Hj; lia|by left].
Qed.

(** The index a follower asks the leader to resume from. It is always above
    the follower's commit point when the follower still holds everything it
    committed; when the follower holds the probed index, the hint skips exactly
    the run of entries that carry the conflicting term: every index from the
    hint up to the probe has that term, and the index below the hint has
    another term or is the commit point. *)
Theorem conflict_hint_skips_conflicting_term n prev_index t :
  (prev_index < u64_max)%N -> (nd_commit_index n <= match_index n < u64_max)%N ->
  (nd_commit_index n < conflict_next_index n prev_index)%N
  /\ ((prev_index <= match_index n)%N -> log_term_at n prev_index = Some t ->
      let r := conflict_next_index n prev_index in
      (forall j, (r <= j <= prev_index)%N -> log_term_at n j = Some t)
      /\ (r = nd_commit_index n + 1 \/ (r <= prev_index + 1 /\ log_term_at n (r - 1) <> Some t))%N).
Proof.
  intros Hp Hm. unfold conflict_next_index.
  destruct (N.ltb_spec (match_index n) prev_index) as [Hlt|Hge].
  { rewrite saturating_add_small by lia. split; [lia|lia]. }
  destruct (log_term_at n prev_index) as [ct|]; [|by rewrite saturating_add_small by lia; split; [lia|]].
  destruct (conflict_scan_spec n ct _ prev_index Hp ltac:(lia) (le_n _)) as (H1 & H2 & H3).
  split; [done|]. intros _ [= ->]. split; [done|].
  destruct H3 as [?|[? ?]]; [by left|right; split; [lia|done]].
Qed.

Lemma conflict_hint_skips_conflicting_term_witness :
  let n := advance_commit 1 (run_ops (OpAppend <$>
    [sample_entry 1 1 0; sample_entry 1 2 0; sample_entry 2 3 0; sample_entry 2 4 0])
    (node_new 2 Voter false)) in
  conflict_next_index n 4 = 3%N /\ (nd_commit_index n < conflict_next_index n 4)%N.
Proof.
  intros n. split; [vm_compute; reflexivity|].
  apply (conflict_hint_skips_conflicting_term n 4 2); vm_compute; [reflexivity|].
  split; [discriminate|reflexivity].
Defined.

Lemma discard_log_through_spec i n :
  log_ordered (nd_log n) ->
  nd_log (snd (discard_log_through i n)) = filter (fun e => (i < entry_index e)%N) (nd_log n)
  /\ fst (discard_log_through i n)
     = length (filter (fun e => (entry_index e <= i)%N) (nd_log n)).
Proof.
  intros Hs.
  destruct (partition_point_ordered (fun k => (k <=? i)%N) _ (leb_downward i) Hs) as (Hp & H1 & H2).
  assert (fst (discard_log_through i n) = partition_point (fun e => (entry_index e <=? i)%N) (nd_log n)) as Hcut.
  { unfold discard_log_through.
    by destruct (Nat.eqb_spec (partition_point (λ e, (entry_index e <=? i)%N) (nd_log n)) 0) as [->|]. }
  rewrite discard_log_through_drop, Hcut. set (p := partition_point _ _) in *.
  apply (Forall_impl _ (fun e => entry_index e <= i)%N) in H1; [|intros e; by rewrite N.leb_le].
  apply (Forall_impl _ (fun e => i < entry_index e)%N) in H2; [|intros e; by rewrite N.leb_gt].
  rewrite <- (take_drop p (nd_log n)) at 2 3. rewrite !filter_app.
  rewrite (filter_nil_Forall _ (take p _)) by (eapply Forall_impl; [exact H1|]; cbn; lia).
  rewrite (filter_id_Forall _ (drop p _)) by done.
  rewrite (filter_id_Forall _ (take p _)) by done.
  rewrite (filter_nil_Forall _ (drop p _)) by (eapply Forall_impl; [exact H2|]; cbn; lia).
  rewrite app_nil_r, length_take. split; [done|lia].
Qed.

(** Compaction drops exactly the entries at or below the smaller of the
    requested index and the replica's safe point (applied durably for a data
    replica, committed for a witness), reports how many, and moves no cursor;
    so an entry that is not yet applied is never compacted away. *)
Theorem compaction_drops_only_safe_entries i n :
  node_wf n ->
  let safe := if can_serve_data (nd_replica_role n) then nd_safety_applied_index n
              else nd_commit_index n in
  nd_log (snd (compact_log_through i n))
    = filter (fun e => (N.min i safe < entry_index e)%N) (nd_log n)
  /\ fst (compact_log_through i n)
     = N.of_nat (length (filter (fun e => (entry_index e <= N.min i safe)%N) (nd_log n)))
  /\ same_cursors n (snd (compact_log_through i n))
  /\ (safe <= nd_commit_index n)%N.
Proof.
  intros Hwf safe. unfold compact_log_through. fold safe.
  destruct (discard_log_through_spec (N.min i safe) n (wf_ordered n Hwf)) as [Hl Hc].
  pose proof (discard_log_through_cursors (N.min i safe) n) as Hsc.
  destruct (discard_log_through (N.min i safe) n) as [cut n'].
  cbn [fst snd] in *. rewrite Hl, Hc. split_and!; [done|done|done|].
  destruct Hwf as [_ _ Hs Ha]. unfold safe. destruct (can_serve_data _); lia.
Qed.

Lemma compaction_drops_only_safe_entries_witness :
  nd_log (snd (compact_log_through 9 sample_follower)) = [sample_entry 1 2 4; sample_entry 1 3 1]
  /\ fst (compact_log_through 9 sample_follower) = 1%N.
Proof.
  destruct (compaction_drops_only_safe_entries 9 sample_follower) as (Hl & Hc & _).
  { split; [repeat constructor|split; vm_compute; [reflexivity|discriminate]|..];
      vm_compute; discriminate. }
  rewrite Hl, Hc. split; vm_compute; reflexivity.
Defined.

(** ** Cursors never move back *)

Definition cursors_le (n n' : Node) : Prop :=
  (nd_commit_index n <= nd_commit_index n')%N
  /\ (nd_applied_index n <= nd_applied_index n')%N
  /\ (nd_safety_applied_index n <= nd_safety_applied_index n')%N
  /\ (nd_witness_ack_index n <= nd_witness_ack_index n')%N.

#[export] Instance cursors_le_preorder : PreOrder cursors_le.
Proof. split; unfold cursors_le; [intros n|intros a b c]; lia. Qed.

Lemma same_cursors_le n n' : same_cursors n n' -> cursors_le n n'.
Proof. intros ->. unfold cursors_le. cbn. lia. Qed.

Lemma node_install_snapshot_cursors s n : cursors_le n (node_install_snapshot s n).
Proof.
  etrans; [apply (same_cursors_le n), (discard_log_through_cursors (snap_index (rs_meta s)))|].
  unfold node_install_snapshot.
  assert (forall f, snd (discard_log_through (snap_index (rs_meta s)) (n <| nd_installed_snapshot := f |>))
    = (snd (discard_log_through (snap_index (rs_meta s)) n)) <| nd_installed_snapshot := f |>) as ->.
  { intros f. unfold discard_log_through. cbn. by destruct (_ =? _)%nat. }
  set (m := snd (discard_log_through _ _)). clearbody m.
  case_bool_decide; cbn; destruct (nd_rejected_apply_index m) as [r|]; try (destruct (r <=? _)%N);
    cbn; destruct (can_serve_data _); unfold cursors_le; cbn; lia.
Qed.

(** No operation moves a replica's commit, applied, safety-applied or
    witness-acknowledged index back, whatever its argument. *)
Theorem node_cursors_never_regress op n : cursors_le n (run_op op n).
Proof.
  destruct op; cbn [run_op].
  - apply same_cursors_le, append_entry_cursors.
  - etrans; [|apply same_cursors_le, append_entry_cursors].
    unfold acknowledge_witness_index. case_bool_decide; unfold cursors_le; cbn; lia.
  - apply same_cursors_le, truncate_log_from_cursors.
  - destruct (advance_commit_cursors commit_index n) as (Hc & _ & Ha & Hs).
    assert (nd_witness_ack_index (advance_commit commit_index n) = nd_witness_ack_index n) as Hw
      by (unfold advance_commit; cbn; repeat (case_match; try done)).
    unfold cursors_le. lia.
  - apply node_install_snapshot_cursors.
  - unfold compact_log_through.
    pose proof (discard_log_through_cursors (N.min log_index
      (if can_serve_data (nd_replica_role n) then nd_safety_applied_index n
       else nd_commit_index n)) n). destruct (discard_log_through _ _). by apply same_cursors_le.
Qed.
