(* ===== verification/Wal.v ===== *)
(** * Write-ahead log records

    Models [src/wal.rs]: the record of a node's durable state with its checksum,
    the validators recovery applies, the folding of delta records into whole
    ones, the choice of the record recovery restores from, the base of a delta,
    and the report over the lifecycle of a log.

    The theorems: the streaming recovery picks exactly the record the reference
    scan over all folded records picks; folding a segment whose records were cut
    to deltas gives the log back; the validators mean what they are for. *)

From stdpp Require Import base strings pretty numbers sorting list.
From Stdlib Require Import Strings.Byte.
From S2P Require Import Prelude Types Slice Bytes Membership Node.

(** ** Records *)

Record LogRetainedRange := mkLogRetainedRange {
  lrr_first_log_index : LogIndex;
  lrr_last_log_index : LogIndex;
  lrr_first_segment_id : N;
  lrr_last_segment_id : N;
  lrr_record_count : N
}.

Record WalCompactionReport := mkWalCompactionReport {
  wcr_requested_log_index : LogIndex;
  wcr_released_segments : N;
  wcr_retained_range : LogRetainedRange;
  wcr_fence_valid : bool;
  wcr_blocker : option string
}.

Record WalRecord := mkWalRecord {
  wr_group_id : GroupId;
  wr_node_id : NodeId;
  wr_hard_state : HardState;
  wr_membership : Membership;
  wr_entries : list LogEntry;
  wr_entries_are_delta : bool;
  wr_installed_snapshot : option SnapshotMetadata;
  wr_apply_snapshot_fence : ApplySnapshotFence;
  wr_checksum : string
}.
#[export] Instance eta_WalRecord : Settable WalRecord :=
  fun r => mkWalRecord (wr_group_id r) (wr_node_id r) (wr_hard_state r) (wr_membership r)
    (wr_entries r) (wr_entries_are_delta r) (wr_installed_snapshot r) (wr_apply_snapshot_fence r)
    (wr_checksum r).

(** ** The checksum *)

(** [mix]: a word into the hash, a byte at a time. *)
Definition mix (hash value : N) : N := fnv1a64 hash (to_le_bytes 8 value).

Definition list_words (l : list N) : list N := N.of_nat (length l) :: l.

(** The words mixed into the hash, in order. *)
Definition entry_words (cover_payloads : bool) (entry : LogEntry) : list N :=
  [entry_term entry; entry_index entry; payload_len entry]
  ++ if cover_payloads then [fnv1a64 FNV_OFFSET (payload entry)] else [].

Definition checksum_words (record : WalRecord) (cover_membership cover_payloads : bool) : list N :=
  let hard := wr_hard_state record in
  let fence := wr_apply_snapshot_fence record in
  let members := wr_membership record in
  [wr_group_id record; wr_node_id record; hs_current_term hard; default 0%N (hs_voted_for hard)]
  ++ match hs_committed hard with Some committed => [lid_term committed; lid_index committed] | None => [] end
  ++ (wr_entries record ≫= entry_words cover_payloads)
  ++ (if wr_entries_are_delta record then [1%N] else [])
  ++ match wr_installed_snapshot record with
     | Some snapshot => [lid_term (snap_last_log_id snapshot); lid_index (snap_last_log_id snapshot)]
     | None => []
     end
  ++ [fence_applied_index fence; fence_commit_index fence; fence_installed_snapshot_index fence;
      fence_first_retained_log_index fence]
  ++ if cover_membership
     then [m_group_id members; m_epoch members]
          ++ list_words (m_voters members) ++ list_words (m_learners members) ++ list_words (m_witnesses members)
     else [].

Definition wal_checksum (record : WalRecord) (cover_membership cover_payloads : bool) : string :=
  hex16 (foldl mix FNV_OFFSET (checksum_words record cover_membership cover_payloads)).

Definition matrixraft_wal_checksum (record : WalRecord) : string := wal_checksum record true true.
Definition matrixraft_wal_checksum_without_membership (record : WalRecord) : string :=
  wal_checksum record false false.
Definition matrixraft_wal_checksum_without_payloads (record : WalRecord) : string :=
  wal_checksum record true false.

Definition matrixraft_wal_checksum_valid (record : WalRecord) : bool :=
  bool_decide (wr_checksum record = matrixraft_wal_checksum record)
  || bool_decide (wr_checksum record = matrixraft_wal_checksum_without_payloads record)
  || bool_decide (wr_checksum record = matrixraft_wal_checksum_without_membership record).
Definition matrixraft_wal_checksum_covers_payloads (record : WalRecord) : bool :=
  bool_decide (wr_checksum record = matrixraft_wal_checksum record).
Definition matrixraft_wal_checksum_covers_membership (record : WalRecord) : bool :=
  bool_decide (wr_checksum record = matrixraft_wal_checksum record)
  || bool_decide (wr_checksum record = matrixraft_wal_checksum_without_payloads record).

(** ** Validators *)

Definition snapshot_index_of (record : WalRecord) : LogIndex :=
  default 0%N (snap_index <$> wr_installed_snapshot record).
Definition committed_index_of (record : WalRecord) : LogIndex :=
  default 0%N (lid_index <$> hs_committed (wr_hard_state record)).

Definition matrixraft_validate_hard_state_persistence (record : WalRecord) : Result unit :=
  match hs_committed (wr_hard_state record) with
  | None => Ok tt
  | Some committed =>
      if (hs_current_term (wr_hard_state record) <? lid_term committed)%N
      then Err (StorageErr "committed term is ahead of persisted current term")
      else
        let last_entry_index := index_or_default (last (wr_entries record)) in
        if (N.max last_entry_index (snapshot_index_of record) <? lid_index committed)%N
        then Err (StorageErr "committed index is ahead of persisted log and snapshot")
        else Ok tt
  end.

Definition matrixraft_validate_log_continues_snapshot (record : WalRecord) : Result unit :=
  match wr_installed_snapshot record with
  | None => Ok tt
  | Some snapshot =>
      if wr_entries_are_delta record then Ok tt
      else match head (wr_entries record) with
           | None => Ok tt
           | Some first_entry =>
               let continues_at := snap_index snapshot +s 1 in
               if (continues_at <? entry_index first_entry)%N
               then Err (StorageErr ("retained log starts at " ++s pretty (entry_index first_entry)
                           ++s " instead of continuing the snapshot at " ++s pretty continues_at))
               else Ok tt
           end
  end.

Definition matrixraft_validate_apply_snapshot_fence (record : WalRecord) : Result unit :=
  let fence := wr_apply_snapshot_fence record in
  let committed_index := committed_index_of record in
  if (committed_index <? fence_applied_index fence)%N
  then Err (StorageErr "apply snapshot fence is ahead of committed index")
  else if negb (fence_commit_index fence =? committed_index)%N
  then Err (StorageErr "apply snapshot fence commit index does not match hard state")
  else
    match wr_installed_snapshot record with
    | Some snapshot =>
        if negb (fence_installed_snapshot_index fence =? snap_index snapshot)%N
        then Err (StorageErr "apply snapshot fence does not match installed snapshot")
        else if (0 <? fence_first_retained_log_index fence)%N
                && (fence_first_retained_log_index fence <=? snap_index snapshot)%N
        then Err (StorageErr "first retained log index overlaps installed snapshot")
        else matrixraft_validate_log_continues_snapshot record
    | None => matrixraft_validate_log_continues_snapshot record
    end.

(** ** Folding deltas *)

Definition fold_wal_entries_step (folded : list LogEntry) (record : WalRecord) : list LogEntry :=
  if wr_entries_are_delta record then
    match head (wr_entries record) with
    | Some first => take (partition_point (fun entry => entry_index entry <? entry_index first)%N folded) folded
    | None => folded
    end ++ wr_entries record
  else wr_entries record.

Definition whole_from_folded (record : WalRecord) (folded : list LogEntry) : WalRecord :=
  let whole := record <| wr_entries := folded |> <| wr_entries_are_delta := false |> in
  whole <| wr_checksum := matrixraft_wal_checksum whole |>.

Fixpoint fold_wal_records_from (folded_entries : list LogEntry) (stored : list WalRecord) : list WalRecord :=
  match stored with
  | [] => []
  | record :: rest =>
      if matrixraft_wal_checksum_valid record then
        let folded_entries := fold_wal_entries_step folded_entries record in
        whole_from_folded record folded_entries :: fold_wal_records_from folded_entries rest
      else []
  end.
Definition matrixraft_fold_wal_record_iter (stored : list WalRecord) : list WalRecord :=
  fold_wal_records_from [] stored.
Definition matrixraft_fold_wal_records (stored : list WalRecord) : list WalRecord :=
  matrixraft_fold_wal_record_iter stored.

Fixpoint matrixraft_fold_wal_entries_from (folded : list LogEntry) (records : list WalRecord) : list LogEntry :=
  match records with
  | [] => folded
  | record :: rest =>
      if matrixraft_wal_checksum_valid record
      then matrixraft_fold_wal_entries_from (fold_wal_entries_step folded record) rest
      else folded
  end.
Definition matrixraft_fold_wal_entries (records : list WalRecord) : list LogEntry :=
  matrixraft_fold_wal_entries_from [] records.

(** The loop of the latest record: the entries folded and the last record seen. *)
Fixpoint fold_latest_loop (folded : list LogEntry) (last_record : option WalRecord) (stored : list WalRecord)
    : list LogEntry * option WalRecord :=
  match stored with
  | [] => (folded, last_record)
  | record :: rest =>
      if matrixraft_wal_checksum_valid record
      then fold_latest_loop (fold_wal_entries_step folded record) (Some record) rest
      else (folded, last_record)
  end.
Definition matrixraft_fold_wal_latest_record (stored : list WalRecord) : option WalRecord :=
  let '(folded, last_record) := fold_latest_loop [] None stored in
  (fun record => whole_from_folded record folded) <$> last_record.

(** ** Recovery *)

Definition recoverable (record : WalRecord) : bool :=
  is_ok (matrixraft_validate_hard_state_persistence record)
  && is_ok (matrixraft_validate_apply_snapshot_fence record).

(** [max_by_key] keeps the last of the largest. *)
Definition keep_max (best : option WalRecord) (record : WalRecord) : option WalRecord :=
  match best with
  | None => Some record
  | Some b => if (committed_index_of b <=? committed_index_of record)%N then Some record else Some b
  end.

Fixpoint valid_prefix (records : list WalRecord) : list WalRecord :=
  match records with
  | [] => []
  | record :: rest => if matrixraft_wal_checksum_valid record then record :: valid_prefix rest else []
  end.

Definition matrixraft_recover_latest_wal_record (records : list WalRecord) : Result WalRecord :=
  match foldl keep_max None (filter (fun record => recoverable record) (valid_prefix records)) with
  | Some record => Ok record
  | None => Err (StorageErr "no valid WAL record survived recovery")
  end.

(** The candidates, ranked: highest committed index first, later position first
    on a tie. *)
Definition ranked (a b : N * nat) : Prop := (b.1 < a.1)%N \/ (a.1 = b.1 /\ (b.2 <= a.2)%nat).
#[export] Instance ranked_dec a b : Decision (ranked a b).
Proof. unfold ranked. apply _. Defined.

Definition candidates (stored : list WalRecord) : list (N * nat) :=
  imap (fun position record => (committed_index_of record, position)) (valid_prefix stored).

(** The whole record a stored position folds to. *)
Definition whole_at (stored : list WalRecord) (position : nat) : option WalRecord :=
  record ← stored !! position;
  Some (whole_from_folded record (foldl fold_wal_entries_step [] (take (S position) stored))).

Fixpoint first_recoverable (stored : list WalRecord) (ranking : list (N * nat)) : option WalRecord :=
  match ranking with
  | [] => None
  | (_, position) :: rest =>
      match whole_at stored position with
      | Some whole => if recoverable whole then Some whole else first_recoverable stored rest
      | None => first_recoverable stored rest
      end
  end.

Definition matrixraft_recover_from_wal_records (stored : list WalRecord) : nat * option WalRecord :=
  (length (valid_prefix stored), first_recoverable stored (merge_sort ranked (candidates stored))).

(** ** Deltas *)

Definition matrixraft_wal_delta_base (entries : list LogEntry)
    (covered_first_index covered_last_index : LogIndex) (covered_last_term : Term) : option nat :=
  first ← head entries;
  if (covered_first_index <? entry_index first)%N then None
  else match binary_search_by (fun entry => N.compare (entry_index entry) covered_last_index) entries with
       | inr _ => None
       | inl position =>
           entry ← entries !! position;
           if negb (entry_term entry =? covered_last_term)%N then None else Some (S position)
       end.

(** ** Folded records *)

Lemma whole_valid record folded : matrixraft_wal_checksum_valid (whole_from_folded record folded) = true.
Proof. unfold matrixraft_wal_checksum_valid. by rewrite bool_decide_eq_true_2. Qed.

Lemma fold_wal_records_imap acc stored :
  fold_wal_records_from acc stored
  = imap (fun i record => whole_from_folded record (foldl fold_wal_entries_step acc (take (S i) stored)))
      (valid_prefix stored).
Proof.
  revert acc. induction stored as [|record rest IH]; intros acc; cbn [fold_wal_records_from valid_prefix]; [done|].
  destruct (matrixraft_wal_checksum_valid record); [|done]. cbn zeta. rewrite IH. done.
Qed.

Lemma valid_prefix_all records : Forall (fun r => matrixraft_wal_checksum_valid r = true) records -> valid_prefix records = records.
Proof. induction 1 as [|r records Hr _ IH]; cbn; [done|]. by rewrite Hr, IH. Qed.

Lemma valid_prefix_lookup records i r : valid_prefix records !! i = Some r -> records !! i = Some r.
Proof.
  revert i. induction records as [|x records IH]; intros i; cbn; [done|].
  destruct (matrixraft_wal_checksum_valid x); [|done]. destruct i; cbn; [done|apply IH].
Qed.

Lemma folded_lookup stored i w :
  matrixraft_fold_wal_records stored !! i = Some w <->
  exists record, valid_prefix stored !! i = Some record
    /\ w = whole_from_folded record (foldl fold_wal_entries_step [] (take (S i) stored)).
Proof.
  unfold matrixraft_fold_wal_records, matrixraft_fold_wal_record_iter. rewrite fold_wal_records_imap, list_lookup_imap.
  destruct (valid_prefix stored !! i) as [record|]; cbn; naive_solver.
Qed.

Lemma folded_valid_prefix stored : valid_prefix (matrixraft_fold_wal_records stored) = matrixraft_fold_wal_records stored.
Proof.
  apply valid_prefix_all, Forall_lookup_2. intros i w (record & _ & ->)%folded_lookup. apply whole_valid.
Qed.

Lemma folded_length stored : length (matrixraft_fold_wal_records stored) = length (valid_prefix stored).
Proof. unfold matrixraft_fold_wal_records, matrixraft_fold_wal_record_iter. by rewrite fold_wal_records_imap, length_imap. Qed.

Lemma whole_at_folded stored i record :
  valid_prefix stored !! i = Some record -> whole_at stored i = matrixraft_fold_wal_records stored !! i.
Proof.
  intros H. unfold whole_at. rewrite (valid_prefix_lookup _ _ _ H). symmetry. apply folded_lookup. eauto.
Qed.

(** ** The record recovery picks *)

(** [picked ws o]: [o] is the recoverable record of [ws] with the highest
    committed index, the last of those on a tie. *)
Definition picked (ws : list WalRecord) (o : option WalRecord) : Prop :=
  match o with
  | None => forall i w, ws !! i = Some w -> recoverable w = false
  | Some w => exists i, ws !! i = Some w /\ recoverable w = true
      /\ forall j w', ws !! j = Some w' -> recoverable w' = true ->
           ranked (committed_index_of w, i) (committed_index_of w', j)
  end.

Lemma ranked_antisymm k i k' j : ranked (k, i) (k', j) -> ranked (k', j) (k, i) -> i = j.
Proof. unfold ranked. cbn. lia. Qed.

#[export] Instance ranked_total : Total ranked.
Proof. intros [a i] [b j]. unfold ranked. cbn. lia. Qed.
#[export] Instance ranked_trans : Transitive ranked.
Proof. intros [a i] [b j] [c k]. unfold ranked. cbn. lia. Qed.

Lemma picked_unique ws o1 o2 : picked ws o1 -> picked ws o2 -> o1 = o2.
Proof.
  destruct o1 as [w1|], o2 as [w2|]; cbn; [..|done].
  - intros (i & Hi & Hr & H1) (j & Hj & Hr' & H2).
    assert (i = j) as <- by (eapply ranked_antisymm; [by apply H1|by apply H2]). congruence.
  - intros (i & Hi & Hr & _) H. by rewrite (H i w1 Hi) in Hr.
  - intros H (i & Hi & Hr & _). by rewrite (H i w2 Hi) in Hr.
Qed.

(** The reference scan picks it. *)
Lemma keep_max_picked ws : picked ws (foldl keep_max None (filter (fun record => recoverable record) ws)).
Proof.
  induction ws as [|w ws IH] using rev_ind; [intros i w; by rewrite lookup_nil|].
  rewrite filter_app, foldl_app. revert IH. generalize (foldl keep_max None (filter (fun record => recoverable record) ws)).
  intros o IH. rewrite filter_cons, filter_nil. destruct (recoverable w) eqn:Hr.
  - rewrite decide_True by done. cbn [foldl]. destruct o as [b|]; cbn [keep_max].
    + destruct IH as (i & Hi & Hb & Hmax). pose proof (lookup_lt_Some _ _ _ Hi).
      destruct (N.leb_spec (committed_index_of b) (committed_index_of w)).
      * exists (length ws). rewrite list_lookup_middle by done. repeat split; [done|].
        intros j w' [Hj|[Hlen Hj]]%lookup_app_Some Hw'.
        -- pose proof (lookup_lt_Some _ _ _ Hj). specialize (Hmax j w' Hj Hw'). unfold ranked in *. cbn in *. lia.
        -- apply list_lookup_singleton_Some in Hj as [Hj <-]. unfold ranked. cbn. lia.
      * exists i. rewrite lookup_app_l by done. repeat split; [done..|].
        intros j w' [Hj|[Hlen Hj]]%lookup_app_Some Hw'; [by apply Hmax|].
        apply list_lookup_singleton_Some in Hj as [Hj <-]. unfold ranked. cbn. lia.
    + exists (length ws). rewrite list_lookup_middle by done. repeat split; [done|].
      intros j w' [Hj|[Hlen Hj]]%lookup_app_Some Hw'; [by rewrite (IH j w' Hj) in Hw'|].
      apply list_lookup_singleton_Some in Hj as [Hj <-]. unfold ranked. cbn. lia.
  - rewrite decide_False by (intros []). cbn [foldl]. destruct o as [b|]; cbn [picked] in *.
    + destruct IH as (i & Hi & Hb & Hmax). pose proof (lookup_lt_Some _ _ _ Hi).
      exists i. rewrite lookup_app_l by done. repeat split; [done..|].
      intros j w' [Hj|[Hlen Hj]]%lookup_app_Some Hw'; [by apply Hmax|].
      apply list_lookup_singleton_Some in Hj as [_ <-]. congruence.
    + intros i w' [Hj|[Hlen Hj]]%lookup_app_Some; [by eapply IH|].
      by apply list_lookup_singleton_Some in Hj as [_ <-].
Qed.

(** The ranked scan picks it. *)
Lemma first_recoverable_picked stored ranking :
  StronglySorted ranked ranking ->
  (forall k i, (k, i) ∈ ranking -> exists w, whole_at stored i = Some w /\ committed_index_of w = k) ->
  match first_recoverable stored ranking with
  | None => forall k i w, (k, i) ∈ ranking -> whole_at stored i = Some w -> recoverable w = false
  | Some w => exists i, (committed_index_of w, i) ∈ ranking /\ whole_at stored i = Some w /\ recoverable w = true
      /\ forall k j w', (k, j) ∈ ranking -> whole_at stored j = Some w' -> recoverable w' = true ->
           ranked (committed_index_of w, i) (k, j)
  end.
Proof.
  induction 1 as [|[k i] ranking Hs IH Hall]; intros Hw; cbn [first_recoverable]; [by intros ??? []%not_elem_of_nil|].
  destruct (Hw k i) as (w & Hwi & Hk); [left|]. rewrite Hwi.
  rewrite Forall_forall in Hall. destruct (recoverable w) eqn:Hr.
  - exists i. rewrite Hk. repeat split; [left|done..|].
    intros k' j w' [[= -> ->] | Hin]%elem_of_cons Hj Hrj; [unfold ranked; cbn; lia|by apply Hall].
  - assert (forall k' j, (k', j) ∈ ranking -> exists w', whole_at stored j = Some w' /\ committed_index_of w' = k')
      as Hrest by (intros k' j Hin; apply Hw; by right).
    specialize (IH Hrest).
    destruct (first_recoverable stored ranking) as [v|].
    + destruct IH as (j & Hj & Hv & Hrv & Hmax). exists j. repeat split; [by right|done..|].
      intros k' j' w' [[= -> ->] | Hin]%elem_of_cons Hw1 Hr1; [congruence|by eapply Hmax].
    + intros k' j w' [[= -> ->] | Hin]%elem_of_cons Hj; [congruence|by eapply IH].
Qed.

Lemma candidates_elem stored k i :
  (k, i) ∈ candidates stored <-> exists record, valid_prefix stored !! i = Some record /\ k = committed_index_of record.
Proof.
  unfold candidates. rewrite list_elem_of_lookup. split.
  - intros [j Hj]. rewrite list_lookup_imap in Hj. destruct (valid_prefix stored !! j) as [record|] eqn:E; [|done].
    cbn in Hj. simplify_eq. eauto.
  - intros (record & E & ->). exists i. rewrite list_lookup_imap, E. done.
Qed.

(** recovery streams to the record the reference scan picks. Ranking the
    stored records and replaying one candidate at a time gives the number of
    surviving records and exactly the record that folding every stored record
    into a whole one, and taking the recoverable one with the highest committed
    index (the last on a tie), would give; both find nothing in the same cases. *)
Theorem streaming_recovery_equivalent stored :
  matrixraft_recover_from_wal_records stored
  = (length (matrixraft_fold_wal_records stored),
     match matrixraft_recover_latest_wal_record (matrixraft_fold_wal_records stored) with
     | Ok record => Some record
     | Err _ => None
     end).
Proof.
  unfold matrixraft_recover_from_wal_records, matrixraft_recover_latest_wal_record.
  rewrite folded_length, folded_valid_prefix. f_equal.
  transitivity (foldl keep_max None (filter (fun record => recoverable record) (matrixraft_fold_wal_records stored)));
    [|by destruct (foldl _ _ _)].
  apply (picked_unique (matrixraft_fold_wal_records stored)); [|apply keep_max_picked].
  pose proof (first_recoverable_picked stored (merge_sort ranked (candidates stored))
                (StronglySorted_merge_sort ranked _)) as H.
  match type of H with ?P -> _ => assert P as Hw; [|specialize (H Hw); clear Hw] end.
  { intros k i Hin. rewrite merge_sort_Permutation in Hin. apply candidates_elem in Hin as (record & Hi & ->).
    rewrite (whole_at_folded _ _ _ Hi). eexists. split; [apply folded_lookup; eauto|done]. }
  assert (forall i w, matrixraft_fold_wal_records stored !! i = Some w ->
    (committed_index_of w, i) ∈ merge_sort ranked (candidates stored) /\ whole_at stored i = Some w) as Hall.
  { intros i w Hw. pose proof Hw as (record & Hi & ->)%folded_lookup. rewrite merge_sort_Permutation. split.
    - apply candidates_elem. eauto.
    - by rewrite (whole_at_folded _ _ _ Hi). }
  destruct (first_recoverable _ _) as [w|]; cbn.
  - destruct H as (i & Hi & Hw & Hr & Hmax). exists i. repeat split; [|done|].
    + rewrite merge_sort_Permutation in Hi. apply candidates_elem in Hi as (record & Hi & _).
      by rewrite <- (whole_at_folded _ _ _ Hi).
    + intros j w' Hj Hr'. destruct (Hall j w' Hj). by eapply Hmax.
  - intros i w Hw. destruct (Hall i w Hw). by eapply H.
Qed.

(** ** The latest record *)

Lemma fold_latest_loop_spec acc last_record stored :
  fold_latest_loop acc last_record stored
  = (matrixraft_fold_wal_entries_from acc stored,
     match last (valid_prefix stored) with Some record => Some record | None => last_record end).
Proof.
  revert acc last_record. induction stored as [|record rest IH]; intros acc last_record; cbn; [done|].
  destruct (matrixraft_wal_checksum_valid record); [|done]. rewrite IH, last_cons. by destruct (last (valid_prefix rest)).
Qed.

Lemma fold_entries_valid_prefix acc stored :
  matrixraft_fold_wal_entries_from acc stored = foldl fold_wal_entries_step acc (valid_prefix stored).
Proof.
  revert acc. induction stored as [|record rest IH]; intros acc; cbn; [done|].
  destruct (matrixraft_wal_checksum_valid record); cbn; [apply IH|done].
Qed.

Lemma valid_prefix_prefix stored : valid_prefix stored `prefix_of` stored.
Proof.
  induction stored as [|record rest IH]; cbn; [done|].
  destruct (matrixraft_wal_checksum_valid record); [by apply prefix_cons|apply prefix_nil].
Qed.

Lemma last_folded stored :
  last (matrixraft_fold_wal_records stored)
  = (fun record => whole_from_folded record (foldl fold_wal_entries_step [] (valid_prefix stored)))
      <$> last (valid_prefix stored).
Proof.
  rewrite !last_lookup, folded_length. destruct (valid_prefix stored !! _) as [record|] eqn:E; cbn.
  - apply folded_lookup. exists record. split; [done|].
    replace (take (S (pred (length (valid_prefix stored)))) stored) with (valid_prefix stored); [done|].
    apply lookup_lt_Some in E. destruct (valid_prefix_prefix stored) as [rest Hrest]. revert E Hrest.
    generalize (valid_prefix stored). intros vp E ->. rewrite take_app_le, take_ge by lia. done.
  - apply lookup_ge_None in E. apply lookup_ge_None. rewrite folded_length. done.
Qed.

(** The cheap folds agree with the full one. The latest record is the last of
    the records folded one by one, and the entries of the log are that record's. *)
Theorem fold_latest_is_last_fold stored :
  matrixraft_fold_wal_latest_record stored = last (matrixraft_fold_wal_records stored)
  /\ matrixraft_fold_wal_entries stored
     = match last (matrixraft_fold_wal_records stored) with Some w => wr_entries w | None => [] end.
Proof.
  unfold matrixraft_fold_wal_latest_record, matrixraft_fold_wal_entries.
  rewrite fold_latest_loop_spec, fold_entries_valid_prefix, last_folded.
  destruct (last (valid_prefix stored)) as [record|] eqn:E; cbn; [done|].
  apply last_None in E. by rewrite E.
Qed.

(** ** Deltas

    Two logs match in Raft's sense when an entry they agree on, by index and
    term, makes them agree on everything below it. *)

Definition consecutive (first : LogIndex) (l : list LogEntry) : Prop :=
  forall i e, l !! i = Some e -> entry_index e = (first + N.of_nat i)%N.

Definition logs_match (l1 l2 : list LogEntry) : Prop :=
  forall e1 e2 f1 f2, e1 ∈ l1 -> e2 ∈ l2 -> f1 ∈ l1 -> f2 ∈ l2 ->
    entry_index e1 = entry_index e2 -> entry_term e1 = entry_term e2 ->
    entry_index f1 = entry_index f2 -> (entry_index f1 <= entry_index e1)%N -> f1 = f2.

Lemma binary_search_by_found {A} (cmp : A -> comparison) l p :
  binary_search_by cmp l = inl p -> exists x, l !! p = Some x /\ cmp x = Eq.
Proof.
  unfold binary_search_by. destruct (length l); [done|].
  set (base := binary_search_loop _ _ _ _ _). destruct (l !! base) as [x|] eqn:E; [|done].
  destruct (cmp x) eqn:Ec; intros [= <-]. eauto.
Qed.

Lemma delta_base_found entries cf cl ct k :
  matrixraft_wal_delta_base entries cf cl ct = Some k ->
  exists first e p, head entries = Some first /\ (entry_index first <= cf)%N /\ k = S p
    /\ entries !! p = Some e /\ entry_index e = cl /\ entry_term e = ct.
Proof.
  unfold matrixraft_wal_delta_base. destruct (head entries) as [first|]; [|done]. cbn.
  destruct (N.ltb_spec cf (entry_index first)); [done|].
  destruct (binary_search_by _ _) as [p|] eqn:E; [|done]. apply binary_search_by_found in E as (e & He & Hc).
  rewrite He. cbn. apply N.compare_eq in Hc. destruct (N.eqb_spec (entry_term e) ct); [|done]. intros [= <-].
  exists first, e, p. done.
Qed.

(** What a segment covers is the stretch of the new log up to the base. *)
Lemma delta_base_covered covered entries cf g last_entry k :
  consecutive cf covered -> consecutive g entries -> logs_match covered entries ->
  last covered = Some last_entry ->
  matrixraft_wal_delta_base entries cf (entry_index last_entry) (entry_term last_entry) = Some k ->
  (g <= cf)%N /\ covered = take (k - N.to_nat (cf - g)) (drop (N.to_nat (cf - g)) entries)
  /\ k = (N.to_nat (cf - g) + length covered)%nat /\ (k <= length entries)%nat.
Proof.
  intros Hcov Hent Hmatch Hlast (first & e & p & Hhead & Hfirst & -> & Hp & Hei & Het)%delta_base_found.
  rewrite head_lookup in Hhead. pose proof (Hent _ _ Hhead) as Hg. pose proof (Hent _ _ Hp) as Hpi.
  pose proof Hlast as Hl. rewrite last_lookup in Hl. pose proof (Hcov _ _ Hl) as Hli. apply lookup_lt_Some in Hl as Hlen.
  apply lookup_lt_Some in Hp as Hplen. split_and!; [lia| |lia|lia].
  apply list_eq. intros j. destruct (decide (j < length covered)%nat) as [Hj|Hj].
  - destruct (lookup_lt_is_Some_2 covered j Hj) as [x Hx].
    destruct (lookup_lt_is_Some_2 entries (N.to_nat (cf - g) + j)%nat) as [y Hy]; [lia|].
    rewrite lookup_take_lt, lookup_drop, Hx, Hy by lia. f_equal.
    pose proof (Hcov _ _ Hx). pose proof (Hent _ _ Hy).
    apply (Hmatch last_entry e); try done; try (by eapply list_elem_of_lookup_2); lia.
  - rewrite lookup_ge_None_2 by lia. symmetry. rewrite lookup_take_ge by lia. done.
Qed.

Lemma delta_fold_step covered entries record cf g last_entry k :
  consecutive cf covered -> consecutive g entries -> logs_match covered entries ->
  last covered = Some last_entry ->
  matrixraft_wal_delta_base entries cf (entry_index last_entry) (entry_term last_entry) = Some k ->
  wr_entries_are_delta record = true -> wr_entries record = drop k entries ->
  fold_wal_entries_step covered record = drop (N.to_nat (cf - g)) entries.
Proof.
  intros Hcov Hent Hmatch Hlast Hbase Hdelta Hent'.
  destruct (delta_base_covered _ _ _ _ _ _ Hcov Hent Hmatch Hlast Hbase) as (Hg & Hc & Hk & Hlen).
  unfold fold_wal_entries_step. rewrite Hdelta, Hent'.
  assert (covered ++ drop k entries = drop (N.to_nat (cf - g)) entries) as <-.
  { replace (drop k entries) with (drop (k - N.to_nat (cf - g)) (drop (N.to_nat (cf - g)) entries))
      by (rewrite drop_drop; f_equal; lia).
    rewrite Hc at 1. apply take_drop. }
  f_equal. destruct (head (drop k entries)) as [first|] eqn:Ef; [|done].
  rewrite head_lookup, lookup_drop in Ef. pose proof (Hent _ _ Ef) as Hf.
  rewrite <- (app_nil_r covered) at 1. rewrite partition_point_app; [by rewrite take_ge|..|constructor].
  apply Forall_lookup_2. intros j x Hx. apply N.ltb_lt. pose proof (Hcov _ _ Hx). apply lookup_lt_Some in Hx. lia.
Qed.

(** A checksummed record, and a segment of a whole record and a delta. *)
Definition sealed (record : WalRecord) : WalRecord := record <| wr_checksum := matrixraft_wal_checksum record |>.
Definition sample_entry (term index : N) : LogEntry := mkLogEntry (mkLogId term index) [x61] true.
Definition sample_whole : WalRecord :=
  sealed (mkWalRecord 9 1 (mkHardState 3 (Some 1%N) (Some (mkLogId 3 3))) (mkMembership 9 [1%N; 2%N; 3%N] [] [] 1)
    [sample_entry 2 3; sample_entry 3 4] false (Some (mkSnapshotMetadata "s" (mkLogId 2 2) [1%N; 2%N; 3%N] [] 7))
    (mkApplySnapshotFence 3 3 2 3) "").
Definition sample_delta : WalRecord :=
  sealed (sample_whole <| wr_entries := [sample_entry 3 5] |> <| wr_entries_are_delta := true |>
    <| wr_hard_state := mkHardState 3 (Some 1%N) (Some (mkLogId 3 5)) |>
    <| wr_apply_snapshot_fence := mkApplySnapshotFence 4 5 2 3 |>).

Lemma consecutive_check first l :
  bool_decide (Forall (fun p => entry_index p.2 = (first + N.of_nat p.1)%N) (imap pair l)) = true -> consecutive first l.
Proof.
  rewrite bool_decide_eq_true. intros H i e He. rewrite Forall_lookup in H. apply (H i (i, e)).
  by rewrite list_lookup_imap, He.
Qed.


(** A recoverable record can serve what it reports committed. *)
Lemma recoverable_inv record :
  recoverable record = true ->
  (committed_index_of record <= N.max (index_or_default (last (wr_entries record))) (snapshot_index_of record))%N
  /\ (fence_applied_index (wr_apply_snapshot_fence record) <= committed_index_of record)%N
  /\ (forall snapshot first, wr_installed_snapshot record = Some snapshot -> wr_entries_are_delta record = false ->
        head (wr_entries record) = Some first -> (entry_index first <= snap_index snapshot +s 1)%N).
Proof.
  intros [H1 H2]%andb_prop. split_and!.
  - unfold matrixraft_validate_hard_state_persistence, committed_index_of in *.
    destruct (hs_committed _) as [committed|]; [|cbn; lia]. cbn.
    destruct (_ <? _)%N; [done|]. destruct (N.ltb_spec (N.max (index_or_default (last (wr_entries record)))
      (snapshot_index_of record)) (lid_index committed)); [done|lia].
  - unfold matrixraft_validate_apply_snapshot_fence in H2.
    destruct (N.ltb_spec (committed_index_of record) (fence_applied_index (wr_apply_snapshot_fence record))); [done|lia].
  - intros snapshot first Hs Hd Hh. unfold matrixraft_validate_apply_snapshot_fence in H2. revert H2.
    destruct (_ <? _)%N; [done|]. destruct (negb _); [done|]. rewrite Hs. destruct (negb _); [done|].
    destruct (_ && _); [done|]. unfold matrixraft_validate_log_continues_snapshot. rewrite Hs, Hd, Hh.
    cbn zeta. destruct (N.ltb_spec (snap_index snapshot +s 1) (entry_index first)); [done|lia].
Qed.

(** a recovered node can serve every index it reports committed. When recovery
    picks a record with a snapshot and its log is consecutive, every committed
    index is inside the snapshot or is an entry of the recovered log, and the
    applied index of the fence is not ahead of the committed one. *)
Theorem recovered_record_serves_committed stored n w snapshot g :
  matrixraft_recover_from_wal_records stored = (n, Some w) ->
  wr_installed_snapshot w = Some snapshot -> consecutive g (wr_entries w) ->
  (fence_applied_index (wr_apply_snapshot_fence w) <= committed_index_of w)%N
  /\ forall i, (0 < i <= committed_index_of w)%N ->
       (i <= snap_index snapshot)%N \/ exists e, e ∈ wr_entries w /\ entry_index e = i.
Proof.
  intros Hrec Hsnap Hcons.
  assert (recoverable w = true /\ wr_entries_are_delta w = false) as [Hr Hd].
  { unfold matrixraft_recover_from_wal_records in Hrec. injection Hrec as _ Hrec. revert Hrec.
    generalize (merge_sort ranked (candidates stored)). intros ranking.
    induction ranking as [|[k i] ranking IH]; cbn [first_recoverable]; [done|].
    unfold whole_at. destruct (stored !! i) as [record|]; cbn; [|done].
    destruct (recoverable (whole_from_folded _ _)) eqn:E; [|done]. intros [= <-]. done. }
  destruct (recoverable_inv w Hr) as (Hcommit & Happlied & Hfirst). split; [done|].
  intros i Hi. destruct (decide (i <= snap_index snapshot)%N) as [|Hsn]; [by left|right].
  unfold snapshot_index_of in Hcommit. rewrite Hsnap in Hcommit. cbn in Hcommit.
  destruct (wr_entries w) as [|first rest] eqn:Ew; [cbn in Hcommit; lia|].
  specialize (Hfirst snapshot first Hsnap Hd eq_refl). pose proof (Hcons 0 first eq_refl) as Hg.
  pose proof (saturating_add_le (snap_index snapshot) 1).
  destruct (last (first :: rest)) as [e|] eqn:El; [|by apply last_None in El]. cbn in Hcommit.
  rewrite last_lookup in El. pose proof (Hcons _ _ El) as Hle. apply lookup_lt_Some in El as Hlen.
  destruct (lookup_lt_is_Some_2 (first :: rest) (N.to_nat (i - g))) as [x Hx]; [lia|].
  exists x. split; [by eapply list_elem_of_lookup_2|]. pose proof (Hcons _ _ Hx). lia.
Qed.

Lemma recovered_record_serves_committed_witness :
  exists w, matrixraft_recover_from_wal_records [sample_whole; sample_delta] = (2, Some w)
    /\ exists e, e ∈ wr_entries w /\ entry_index e = 4%N.
Proof.
  eexists. split; [vm_compute; reflexivity|].
  edestruct (recovered_record_serves_committed [sample_whole; sample_delta] 2) as [_ H].
  - vm_compute. reflexivity.
  - reflexivity.
  - apply (consecutive_check 3). vm_compute. reflexivity.
  - destruct (H 4%N) as [Hs|He]; [vm_compute; split; [reflexivity|discriminate]| |exact He].
    vm_compute in Hs. by destruct Hs.
Defined.

(** ** Lifecycle evidence

    The report an operator keeps of a log's lifecycle, and its validator. *)

Record WalChecksumFormat := mkWalChecksumFormat {
  wcf_algorithm : string;
  wcf_encoding : string;
  wcf_covered_fields : list string
}.

Definition matrixraft_wal_checksum_format : WalChecksumFormat :=
  mkWalChecksumFormat "fnv1a64-rustraft-v2" "lower_hex_16"
    ["group_id"; "node_id"; "hard_state.current_term"; "hard_state.voted_for"; "hard_state.committed";
     "entries.log_id"; "entries.payload_len"; "entries_are_delta"; "installed_snapshot.last_log_id";
     "apply_snapshot_fence"; "membership"; "entries.payload"].

Record WalLifecycleStatus := mkWalLifecycleStatus {
  wls_segment_count : N;
  wls_active_segment_id : N;
  wls_first_retained_segment_id : N;
  wls_last_retained_segment_id : N;
  wls_total_bytes : N;
  wls_active_segment_bytes : N;
  wls_total_records : N;
  wls_first_sequence : N;
  wls_last_sequence : N;
  wls_first_log_index : N;
  wls_last_log_index : N;
  wls_released_segment_count : N;
  wls_slow_fsync_backpressure_observed : bool;
  wls_fsync_count : N;
  wls_slow_fsync_threshold_ms : N;
  wls_slow_fsync_count : N;
  wls_consecutive_slow_fsync_count : N;
  wls_max_fsync_elapsed_ms : N;
  wls_compacted_after_slow_fsync_count : N
}.

Record WalLifecycleEvidence := mkWalLifecycleEvidence {
  wle_segment_lifecycle_present : bool;
  wle_retained_range_present : bool;
  wle_sequence_range_present : bool;
  wle_log_index_range_present : bool;
  wle_compaction_observed : bool;
  wle_slow_fsync_backpressure_observed : bool;
  wle_compaction_after_slow_fsync_observed : bool
}.

Record WalLifecycleEvidenceArtifact := mkWalLifecycleEvidenceArtifact {
  wla_schema : string;
  wla_status : WalLifecycleStatus;
  wla_evidence : WalLifecycleEvidence
}.

Record WalLifecycleEvidenceValidationReport := mkWalLifecycleEvidenceValidationReport {
  wlv_valid : bool;
  wlv_schema_valid : bool;
  wlv_segment_lifecycle_present : bool;
  wlv_retained_range_present : bool;
  wlv_sequence_range_present : bool;
  wlv_log_index_range_present : bool;
  wlv_compaction_observed : bool;
  wlv_slow_fsync_backpressure_observed : bool;
  wlv_compaction_after_slow_fsync_observed : bool;
  wlv_missing : list string
}.

Definition matrixraft_wal_lifecycle_evidence (status : WalLifecycleStatus) : WalLifecycleEvidence :=
  mkWalLifecycleEvidence
    ((0 <? wls_segment_count status) && (wls_first_retained_segment_id status <=? wls_active_segment_id status)
     && (wls_first_retained_segment_id status <=? wls_last_retained_segment_id status))%N
    (wls_first_retained_segment_id status <=? wls_last_retained_segment_id status)%N
    ((wls_first_sequence status <=? wls_last_sequence status) && (0 <? wls_total_records status))%N
    ((wls_first_log_index status <=? wls_last_log_index status) && (0 <? wls_last_log_index status))%N
    (0 <? wls_released_segment_count status)%N
    (wls_slow_fsync_backpressure_observed status && (0 <? wls_slow_fsync_count status)
     && (wls_slow_fsync_threshold_ms status <=? wls_max_fsync_elapsed_ms status))%N
    ((0 <? wls_compacted_after_slow_fsync_count status)
     && (wls_compacted_after_slow_fsync_count status <=? wls_released_segment_count status)
     && (0 <? wls_slow_fsync_count status))%N.

Definition wal_lifecycle_schema : string := "rustraft.wal_lifecycle_evidence.v1".

Definition matrixraft_wal_lifecycle_evidence_artifact (status : WalLifecycleStatus) : WalLifecycleEvidenceArtifact :=
  mkWalLifecycleEvidenceArtifact wal_lifecycle_schema status (matrixraft_wal_lifecycle_evidence status).

(** The requirements that are not present, in order. *)
Definition missing_of (requirements : list (bool * string)) : list string :=
  snd <$> filter (fun p => negb p.1) requirements.

Definition matrixraft_validate_wal_lifecycle_evidence_artifact (artifact : WalLifecycleEvidenceArtifact)
    : WalLifecycleEvidenceValidationReport :=
  let schema_valid := bool_decide (wla_schema artifact = wal_lifecycle_schema) in
  let recomputed := matrixraft_wal_lifecycle_evidence (wla_status artifact) in
  let both (f : WalLifecycleEvidence -> bool) := f recomputed && f (wla_evidence artifact) in
  let missing := missing_of
    [(schema_valid, "schema_valid");
     (both wle_segment_lifecycle_present, "segment_lifecycle_present");
     (both wle_retained_range_present, "retained_range_present");
     (both wle_sequence_range_present, "sequence_range_present");
     (both wle_log_index_range_present, "log_index_range_present");
     (both wle_compaction_observed, "compaction_observed");
     (both wle_slow_fsync_backpressure_observed, "slow_fsync_backpressure_observed");
     (both wle_compaction_after_slow_fsync_observed, "compaction_after_slow_fsync_observed")] in
  mkWalLifecycleEvidenceValidationReport (bool_decide (missing = [])) schema_valid
    (both wle_segment_lifecycle_present)
    (both wle_retained_range_present)
    (both wle_sequence_range_present)
    (both wle_log_index_range_present)
    (both wle_compaction_observed)
    (both wle_slow_fsync_backpressure_observed)
    (both wle_compaction_after_slow_fsync_observed) missing.

Lemma missing_of_nil requirements : missing_of requirements = [] <-> Forall (fun p => p.1 = true) requirements.
Proof.
  unfold missing_of. induction requirements as [|[b s] l IH]; [by split; [constructor|]|].
  rewrite filter_cons, Forall_cons. destruct b; cbn; [by rewrite IH; intuition|]. split; [done|by intros [? _]].
Qed.

(** The evidence of a lifecycle is complete when every item of it holds. *)
Definition evidence_complete (e : WalLifecycleEvidence) : bool :=
  wle_segment_lifecycle_present e
  && wle_retained_range_present e
  && wle_sequence_range_present e
  && wle_log_index_range_present e
  && wle_compaction_observed e
  && wle_slow_fsync_backpressure_observed e
  && wle_compaction_after_slow_fsync_observed e.

(** An artifact validates exactly when its schema is known and both the evidence
    it carries and the evidence recomputed from its status are complete. *)
Lemma lifecycle_artifact_valid artifact :
  wlv_valid (matrixraft_validate_wal_lifecycle_evidence_artifact artifact) = true <->
  wla_schema artifact = wal_lifecycle_schema
  /\ evidence_complete (matrixraft_wal_lifecycle_evidence (wla_status artifact)) = true
  /\ evidence_complete (wla_evidence artifact) = true.
Proof.
  cbn [wlv_valid matrixraft_validate_wal_lifecycle_evidence_artifact]. rewrite bool_decide_eq_true, missing_of_nil.
  rewrite !Forall_cons. cbn [fst]. rewrite bool_decide_eq_true. unfold evidence_complete.
  rewrite !andb_true_iff. intuition constructor.
Qed.

