(* ===== verification/WalSegments.v ===== *)
(** * Segments of the write-ahead log, and the log kept in memory

    Models the segment record and reports of [src/wal.rs], the helpers over
    segments and [LocalRaftWal] of [src/facade/wal_runtime.rs], and the storage
    fence of [src/storage.rs].

    The theorems: [LocalRaftWal] is a list of records cut into full segments, its
    persisted committed index never moves back and a record that would move it is
    refused without a trace; recovery drops exactly the damaged tail. *)

From stdpp Require Import base strings pretty numbers sorting list.
From S2P Require Import Prelude Types Slice Bytes Membership Node Wal.

(** ** Data *)

Record WalSegment := mkWalSegment {
  ws_segment_id : N;
  ws_first_index : LogIndex;
  ws_last_index : LogIndex;
  ws_records : list WalRecord;
  ws_record_count : N;
  ws_sealed : bool
}.
#[export] Instance eta_WalSegment : Settable WalSegment :=
  fun r => mkWalSegment (ws_segment_id r) (ws_first_index r) (ws_last_index r) (ws_records r) (ws_record_count r)
    (ws_sealed r).

Record WalSegmentIndex := mkWalSegmentIndex {
  wsi_segment_id : N;
  wsi_first_log_index : LogIndex;
  wsi_last_log_index : LogIndex;
  wsi_record_count : N;
  wsi_sealed : bool;
  wsi_bytes : N
}.

Record WalWriteReport := mkWalWriteReport {
  wwr_segment_id : N;
  wwr_log_index : LogIndex;
  wwr_checksum : string;
  wwr_checksum_format : WalChecksumFormat;
  wwr_bytes_written : N;
  wwr_fsync_on_append : bool;
  wwr_fsync_elapsed_ms : N;
  wwr_slow_fsync_threshold_ms : N;
  wwr_slow_fsync_observed : bool;
  wwr_segment_rolled : bool;
  wwr_hard_state_persisted : bool;
  wwr_retained_range : LogRetainedRange
}.
#[export] Instance eta_WalWriteReport : Settable WalWriteReport :=
  fun r => mkWalWriteReport (wwr_segment_id r) (wwr_log_index r) (wwr_checksum r) (wwr_checksum_format r)
    (wwr_bytes_written r) (wwr_fsync_on_append r) (wwr_fsync_elapsed_ms r) (wwr_slow_fsync_threshold_ms r)
    (wwr_slow_fsync_observed r) (wwr_segment_rolled r) (wwr_hard_state_persisted r) (wwr_retained_range r).

Record WalRecoveryReport := mkWalRecoveryReport {
  wrr_recovered : option WalRecord;
  wrr_truncated_corrupt_tail : bool;
  wrr_surviving_records : nat;
  wrr_removed_records : nat;
  wrr_segments_scanned : N;
  wrr_checksum_format : option WalChecksumFormat;
  wrr_retained_range : option LogRetainedRange
}.

Record StorageApplyFence := mkStorageApplyFence {
  saf_group_id : GroupId;
  saf_node_id : NodeId;
  saf_committed_index : LogIndex;
  saf_applied_index : LogIndex;
  saf_durable_applied_index : LogIndex;
  saf_storage_flushed_index : LogIndex;
  saf_installed_snapshot_index : LogIndex;
  saf_first_retained_log_index : LogIndex
}.

Definition matrixraft_validate_storage_apply_fence (fence : StorageApplyFence) : Result unit :=
  if (saf_committed_index fence <? saf_applied_index fence)%N
  then Err (StorageErr "storage apply fence is ahead of committed index")
  else if (saf_applied_index fence <? saf_durable_applied_index fence)%N
  then Err (StorageErr "durable applied index is ahead of in-memory applied index")
  else if (saf_storage_flushed_index fence <? saf_durable_applied_index fence)%N
  then Err (StorageErr "storage flush is behind durable applied index")
  else if (saf_applied_index fence <? saf_installed_snapshot_index fence)%N
  then Err (StorageErr "installed snapshot is ahead of applied index")
  else if (0 <? saf_installed_snapshot_index fence)%N
          && (saf_first_retained_log_index fence <=? saf_installed_snapshot_index fence)%N
  then Err (StorageErr "first retained log index overlaps installed snapshot")
  else Ok tt.

(** [RaftError]'s [Display]. *)
Definition RaftError_to_string (error : RaftError) : string :=
  match error with
  | ConfigErr msg => "configuration error: " ++s msg
  | NodeNotFound node_id => "node " ++s pretty node_id ++s " not found"
  | NoLeader => "no leader is available"
  | NotLeader node_id => "node " ++s pretty node_id ++s " is not the leader"
  | InvalidRequest msg => "invalid request: " ++s msg
  | TransportErr msg => "transport error: " ++s msg
  | StorageErr msg => "storage error: " ++s msg
  end.

(** ** Over segments *)

Definition empty_segment (segment_id : N) : WalSegment := mkWalSegment segment_id 0 0 [] 0 false.

Definition wal_record_index (record : WalRecord) : LogIndex :=
  match hs_committed (wr_hard_state record) with
  | Some log_id => lid_index log_id
  | None => index_or_default (last (wr_entries record))
  end.

Definition segment_id_or_zero (segment : option WalSegment) : N := default 0%N (ws_segment_id <$> segment).
Definition record_total (segments : list WalSegment) : N :=
  foldr (fun segment total => ws_record_count segment +w total) 0%N segments.

Definition wal_retained_range (segments : list WalSegment) : LogRetainedRange :=
  mkLogRetainedRange
    (default 0%N (ws_first_index <$> find (fun segment => 0 <? ws_first_index segment)%N segments))
    (default 0%N (ws_last_index <$> find (fun segment => 0 <? ws_last_index segment)%N (reverse segments)))
    (segment_id_or_zero (head segments)) (segment_id_or_zero (last segments))
    (record_total segments).

(** A record pushed on the segment it is written to. *)
Definition push_record (record : WalRecord) (segment : WalSegment) : WalSegment :=
  let record_index := wal_record_index record in
  let segment := if bool_decide (ws_records segment = []) then segment <| ws_first_index := record_index |> else segment in
  let records := ws_records segment ++ [record] in
  segment <| ws_last_index := record_index |> <| ws_records := records |>
          <| ws_record_count := N.of_nat (length records) |>.

(** [segments.last_mut()]. *)
Definition update_last {A} (f : A -> A) (l : list A) : list A := alter f (pred (length l)) l.

(** ** The log in memory *)

Record LocalRaftWal := mkLocalRaftWal {
  lrw_max_records_per_segment : nat;
  lrw_segments : list WalSegment;
  lrw_next_segment_id : N
}.
#[export] Instance eta_LocalRaftWal : Settable LocalRaftWal :=
  fun r => mkLocalRaftWal (lrw_max_records_per_segment r) (lrw_segments r) (lrw_next_segment_id r).

Definition local_records (w : LocalRaftWal) : list WalRecord := lrw_segments w ≫= ws_records.

(** The last record with a committed index, walking back. *)
Definition persisted_commit_index (w : LocalRaftWal) : LogIndex :=
  let walk := reverse (lrw_segments w) ≫= (fun segment => reverse (ws_records segment)) in
  default 0%N (lid_index <$> head (omap (fun record => hs_committed (wr_hard_state record)) walk)).

Definition local_new (max_records_per_segment : nat) : Result LocalRaftWal :=
  if (max_records_per_segment =? 0)%nat
  then Err (InvalidRequest "max_records_per_segment must be greater than zero")
  else Ok (mkLocalRaftWal max_records_per_segment [empty_segment 0] 1).

(** A full last segment is sealed and a new one opened. *)
Definition roll_if_full (w : LocalRaftWal) : LocalRaftWal :=
  let full := match last (lrw_segments w) with
              | Some segment => (lrw_max_records_per_segment w <=? length (ws_records segment))%nat
              | None => true
              end in
  if full then
    w <| lrw_segments := update_last (fun segment => segment <| ws_sealed := true |>) (lrw_segments w)
                         ++ [empty_segment (lrw_next_segment_id w)] |>
      <| lrw_next_segment_id := lrw_next_segment_id w +w 1 |>
  else w.

Definition local_append (record : WalRecord) : ST RaftError LocalRaftWal string :=
  persisted ← gets persisted_commit_index;
  _ ← (match hs_committed (wr_hard_state record) with
       | Some committed =>
           if (lid_index committed <? persisted)%N
           then fail (StorageErr ("wal record commits index " ++s pretty (lid_index committed)
                                  ++s " below the persisted " ++s pretty persisted))
           else mret tt
       | None => mret tt
       end);
  let record := record <| wr_checksum := matrixraft_wal_checksum record |> in
  _ ← modify roll_if_full;
  segments ← gets lrw_segments;
  match last segments with
  | None => fail (StorageErr "WAL has no active segment")
  | Some _ =>
      _ ← modify (fun w => w <| lrw_segments := update_last (push_record record) (lrw_segments w) |>);
      mret (wr_checksum record)
  end.

Definition local_retained_log_range (w : LocalRaftWal) : LogRetainedRange := wal_retained_range (lrw_segments w).

Definition local_segment_index (w : LocalRaftWal) : list WalSegmentIndex :=
  (fun segment => mkWalSegmentIndex (ws_segment_id segment) (ws_first_index segment) (ws_last_index segment)
                    (ws_record_count segment) (ws_sealed segment) 0) <$> lrw_segments w.

(** Records popped off the end while their checksum is not valid. *)
Fixpoint drop_invalid (reversed : list WalRecord) : list WalRecord :=
  match reversed with
  | [] => []
  | record :: rest => if matrixraft_wal_checksum_valid record then reversed else drop_invalid rest
  end.
Definition pop_corrupt_tail (records : list WalRecord) : list WalRecord := reverse (drop_invalid (reverse records)).

Definition rebuild_from_records (records : list WalRecord) : ST RaftError LocalRaftWal unit :=
  max_records_per_segment ← gets lrw_max_records_per_segment;
  fresh ← lift (local_new max_records_per_segment);
  _ ← modify (fun _ => fresh);
  for_each (fun record => _ ← local_append record; mret tt) records.

Definition local_recover : ST RaftError LocalRaftWal WalRecoveryReport :=
  stored ← gets local_records;
  let surviving := pop_corrupt_tail stored in
  let recovered := match matrixraft_recover_latest_wal_record surviving with Ok r => Some r | Err _ => None end in
  let truncated_corrupt_tail := negb (length surviving =? length stored)%nat in
  _ ← (if truncated_corrupt_tail then rebuild_from_records surviving else mret tt);
  segments ← gets lrw_segments;
  mret (mkWalRecoveryReport recovered truncated_corrupt_tail (length surviving) (length stored - length surviving)
          (N.of_nat (length segments)) (Some matrixraft_wal_checksum_format) (Some (wal_retained_range segments))).


(** ** The log in memory, as a list of records *)

Lemma update_last_app {A} (f : A -> A) l x : update_last f (l ++ [x]) = l ++ [f x].
Proof.
  unfold update_last. rewrite length_app, Nat.add_comm. cbn [length Nat.add pred].
  induction l as [|y l IH]; [done|]. cbn. by rewrite IH.
Qed.

Definition committed_of (record : WalRecord) : option LogIndex := lid_index <$> hs_committed (wr_hard_state record).
Definition commits (records : list WalRecord) : list LogIndex := omap committed_of records.

(** The committed index may stay or move forward. *)
Definition commit_allowed (record : WalRecord) (records : list WalRecord) : Prop :=
  match committed_of record with Some c => (default 0 (last (commits records)) <= c)%N | None => True end.

Record local_wf (w : LocalRaftWal) (full : list WalSegment) (active : WalSegment) : Prop := {
  lw_max : 0 < lrw_max_records_per_segment w;
  lw_segments : lrw_segments w = full ++ [active];
  lw_full : Forall (fun s => ws_sealed s = true /\ length (ws_records s) = lrw_max_records_per_segment w) full;
  lw_active : ws_sealed active = false /\ length (ws_records active) <= lrw_max_records_per_segment w;
  lw_counts : Forall (fun s => ws_record_count s = N.of_nat (length (ws_records s))) (full ++ [active]);
  lw_monotone : StronglySorted N.le (commits (local_records w))
}.

Section local_facts.
Lemma walk_back (segments : list WalSegment) :
  reverse segments ≫= (fun segment => reverse (ws_records segment)) = reverse (segments ≫= ws_records).
Proof.
  induction segments as [|s l IH]; [done|]. rewrite reverse_cons, bind_app. cbn [mbind list_bind].
  rewrite app_nil_r, reverse_app. f_equal. exact IH.
Qed.

Lemma omap_reverse {A B} (f : A -> option B) l : omap f (reverse l) = reverse (omap f l).
Proof.
  induction l as [|x l IH]; [done|]. rewrite reverse_cons, omap_app, IH. cbn [omap list_omap].
  destruct (f x); [by rewrite reverse_cons|by rewrite app_nil_r].
Qed.

Lemma head_reverse {A} (l : list A) : head (reverse l) = last l.
Proof. induction l as [|x l _] using rev_ind; [done|]. by rewrite reverse_app, last_snoc. Qed.

Lemma commits_hard records : commits records = lid_index <$> omap (fun r => hs_committed (wr_hard_state r)) records.
Proof. induction records as [|r l IH]; [done|]. cbn. unfold committed_of at 1. destruct (hs_committed _); cbn; by rewrite <- IH. Qed.

Lemma persisted_commit_last w : persisted_commit_index w = default 0%N (last (commits (local_records w))).
Proof.
  unfold persisted_commit_index. rewrite walk_back, omap_reverse, head_reverse, commits_hard, fmap_last. done.
Qed.

Lemma sorted_snoc l c : StronglySorted N.le l -> (default 0 (last l) <= c)%N -> StronglySorted N.le (l ++ [c]).
Proof.
  intros Hs Hc. apply StronglySorted_app. split_and!; [|done|repeat constructor].
  intros x y Hx ->%list_elem_of_singleton. destruct l as [|z l _] using rev_ind; [by apply not_elem_of_nil in Hx|].
  rewrite last_snoc in Hc. cbn in Hc. apply elem_of_app in Hx as [Hx| ->%list_elem_of_singleton]; [|done].
  apply StronglySorted_app in Hs as (Hz & _ & _). specialize (Hz x z Hx (list_elem_of_here _ _)). lia.
Qed.

Lemma push_record_records r s : ws_records (push_record r s) = ws_records s ++ [r].
Proof. unfold push_record. by case_bool_decide. Qed.

Lemma commits_snoc records r :
  commits (records ++ [sealed r]) = commits records ++ (match committed_of r with Some c => [c] | None => [] end).
Proof. unfold commits. by rewrite omap_app. Qed.

Lemma records_of w full active : lrw_segments w = full ++ [active] ->
  local_records w = (full ≫= ws_records) ++ ws_records active.
Proof. intros E. unfold local_records. rewrite E, bind_app. cbn. by rewrite app_nil_r. Qed.

Lemma roll_wf w full active : local_wf w full active ->
  exists full' active', local_wf (roll_if_full w) full' active' /\ local_records (roll_if_full w) = local_records w
    /\ length (ws_records active') < lrw_max_records_per_segment w
    /\ lrw_max_records_per_segment (roll_if_full w) = lrw_max_records_per_segment w.
Proof.
  intros [Hmax Hseg Hfull [Hs Hlen] Hcounts Hmono]. unfold roll_if_full. rewrite Hseg, last_snoc.
  destruct (Nat.leb_spec (lrw_max_records_per_segment w) (length (ws_records active))) as [Hroll|Hroom].
  - exists (full ++ [active <| ws_sealed := true |>]), (empty_segment (lrw_next_segment_id w)).
    rewrite update_last_app. set (w' := update _ _ _).
    assert (local_records w' = local_records w) as Hrec.
    { rewrite (records_of _ _ _ Hseg). unfold local_records. subst w'. cbn. rewrite !bind_app. cbn. by rewrite !app_nil_r. }
    split_and!; [|done|cbn; lia|done]. split; [done|done| | | |by rewrite Hrec].
    + apply Forall_app. split; [done|]. constructor; [|constructor]. cbn. lia.
    + split; [done|cbn; lia].
    + apply Forall_app in Hcounts as [Hc1 Hc2]. apply Forall_app. split; [apply Forall_app; split; [done|]|by constructor].
      apply Forall_cons in Hc2 as [Hc2 _]. by constructor.
  - exists full, active. by split_and!.
Qed.

Lemma push_wf w full active r w' :
  local_wf w full active -> commit_allowed r (local_records w) -> length (ws_records active) < lrw_max_records_per_segment w ->
  w' = w <| lrw_segments := update_last (push_record (sealed r)) (lrw_segments w) |> ->
  local_wf w' full (push_record (sealed r) active) /\ local_records w' = local_records w ++ [sealed r].
Proof.
  intros [Hmax Hseg Hfull [Hs Hlen] Hcounts Hmono] Hallow Hroom ->. rewrite Hseg, update_last_app.
  assert (local_records (w <| lrw_segments := full ++ [push_record (sealed r) active] |>) = local_records w ++ [sealed r]) as Hrec.
  { rewrite (records_of w _ _ Hseg). unfold local_records.
    cbn [lrw_segments update]. rewrite bind_app. cbn [mbind list_bind].
    by rewrite push_record_records, app_nil_r, app_assoc. }
  split; [|done]. split; [done|done|done| | |].
  - rewrite push_record_records, length_app. cbn. split; [unfold push_record; case_bool_decide; done|lia].
  - apply Forall_app in Hcounts as [Hc1 Hc2]. apply Forall_app. split; [done|]. constructor; [|constructor].
    rewrite push_record_records. unfold push_record. by case_bool_decide.
  - rewrite Hrec, commits_snoc. unfold commit_allowed in Hallow.
    destruct (committed_of r); [by apply sorted_snoc|by rewrite app_nil_r].
Qed.

Lemma append_wf w full active r : local_wf w full active -> commit_allowed r (local_records w) ->
  exists w' full' active', local_append r w = (Ok (matrixraft_wal_checksum r), w') /\ local_wf w' full' active'
    /\ local_records w' = local_records w ++ [sealed r]
    /\ lrw_max_records_per_segment w' = lrw_max_records_per_segment w.
Proof.
  intros Hwf Hallow. destruct (roll_wf _ _ _ Hwf) as (full' & active' & Hwf' & Hrec & Hroom & Hmax).
  destruct (push_wf _ _ _ r _ Hwf' ltac:(by rewrite Hrec) ltac:(by rewrite Hmax) eq_refl) as [Hwf'' Hrec''].
  rewrite Hrec in Hrec''. eexists _, _, _. split_and!; [|exact Hwf''|exact Hrec''|done].
  unfold local_append, gets, modify, mbind, ST_bind. rewrite persisted_commit_last.
  match goal with |- context [match ?g w with _ => _ end] => assert (g w = (Ok tt, w)) as -> end.
  { unfold commit_allowed, committed_of in Hallow. destruct (hs_committed (wr_hard_state r)) as [c|]; [|done].
    cbn in Hallow. destruct (N.ltb_spec (lid_index c) (default 0%N (last (commits (local_records w))))); [lia|done]. }
  assert (last (lrw_segments (roll_if_full w)) = Some active') as Hl by (by rewrite (lw_segments _ _ _ Hwf'), last_snoc).
  cbn zeta. by rewrite Hl.
Qed.

(** The in-memory log only moves its committed index forward. A record that
    commits below what is persisted is refused and nothing changes; any other is
    sealed with its checksum and becomes the last record, the segments stay full
    but the last, and the committed indexes along the log never decrease. *)
Theorem local_append_monotone w full active r : local_wf w full active ->
  (commit_allowed r (local_records w) /\
   exists w' full' active', local_append r w = (Ok (matrixraft_wal_checksum r), w') /\ local_wf w' full' active'
     /\ local_records w' = local_records w ++ [sealed r] /\ (persisted_commit_index w <= persisted_commit_index w')%N)
  \/ (~ commit_allowed r (local_records w) /\ exists why, local_append r w = (Err (StorageErr why), w)).
Proof.
  intros Hwf. destruct (committed_of r) as [c|] eqn:Ec.
  - destruct (N.le_gt_cases (default 0%N (last (commits (local_records w)))) c) as [Hle|Hgt].
    + left. assert (commit_allowed r (local_records w)) as Hallow by (unfold commit_allowed; by rewrite Ec).
      split; [done|]. destruct (append_wf _ _ _ _ Hwf Hallow) as (w' & f' & a' & E & Hwf' & Hrec & _).
      exists w', f', a'. split_and!; [done..|]. by rewrite !persisted_commit_last, Hrec, commits_snoc, Ec, last_snoc.
    + right. split; [unfold commit_allowed; rewrite Ec; lia|].
      unfold local_append, gets, mbind, ST_bind. rewrite persisted_commit_last. unfold committed_of in Ec.
      destruct (hs_committed (wr_hard_state r)) as [c'|]; [|done]. cbn in Ec. injection Ec as ->.
      destruct (N.ltb_spec c (default 0%N (last (commits (local_records w))))); [|lia]. eauto.
  - left. assert (commit_allowed r (local_records w)) as Hallow by (unfold commit_allowed; by rewrite Ec).
    split; [done|]. destruct (append_wf _ _ _ _ Hwf Hallow) as (w' & f' & a' & E & Hwf' & Hrec & _).
    exists w', f', a'. split_and!; [done..|]. by rewrite !persisted_commit_last, Hrec, commits_snoc, Ec, app_nil_r.
Qed.

Lemma commits_sealed l : commits (sealed <$> l) = commits l.
Proof. induction l as [|r l IH]; [done|]. cbn. unfold commits in IH. by rewrite IH. Qed.

Lemma sorted_allows rs r l : StronglySorted N.le (commits (rs ++ r :: l)) -> commit_allowed r rs.
Proof.
  unfold commit_allowed, commits at 1. rewrite omap_app. cbn [omap list_omap].
  destruct (committed_of r) as [c|]; [|done]. intros (Hle & _ & _)%StronglySorted_app.
  unfold commits. destruct (last (omap committed_of rs)) as [x|] eqn:E; [|apply N.le_0_l].
  apply Hle; [|left]. by apply last_Some_elem_of.
Qed.

Lemma rebuild_appends l w full active : local_wf w full active -> StronglySorted N.le (commits (local_records w ++ l)) ->
  exists w' full' active', for_each (fun record => _ ← local_append record; mret tt) l w = (Ok tt, w')
    /\ local_wf w' full' active' /\ local_records w' = local_records w ++ (sealed <$> l).
Proof.
  revert w full active. induction l as [|r l IH]; intros w full active Hwf Hs.
  - exists w, full, active. by rewrite app_nil_r.
  - destruct (append_wf _ _ _ r Hwf (sorted_allows _ _ _ Hs)) as (w1 & f1 & a1 & E & Hwf1 & Hrec & _).
    destruct (IH _ _ _ Hwf1) as (w2 & f2 & a2 & E2 & Hwf2 & Hrec2).
    { rewrite Hrec, <- app_assoc. unfold commits in *. by rewrite omap_app in *. }
    exists w2, f2, a2. split_and!; [|done|by rewrite Hrec2, Hrec, <- app_assoc].
    cbn [for_each]. unfold mbind, ST_bind. rewrite E. exact E2.
Qed.

Lemma rebuild_run l w : 0 < lrw_max_records_per_segment w ->
  rebuild_from_records l w
  = for_each (fun record => _ ← local_append record; mret tt) l
      (mkLocalRaftWal (lrw_max_records_per_segment w) [empty_segment 0] 1).
Proof.
  intros Hmax. unfold rebuild_from_records, mbind at 1 2, ST_bind at 1 2, gets at 1, lift at 1, local_new.
  destruct (Nat.eqb_spec (lrw_max_records_per_segment w) 0); [lia|done].
Qed.

Lemma pop_corrupt_tail_spec l : exists tail, l = pop_corrupt_tail l ++ tail
  /\ Forall (fun r => matrixraft_wal_checksum_valid r = false) tail
  /\ (forall r, last (pop_corrupt_tail l) = Some r -> matrixraft_wal_checksum_valid r = true).
Proof.
  unfold pop_corrupt_tail. induction l as [|r l IH] using rev_ind; [by exists []|].
  rewrite reverse_snoc. cbn [drop_invalid]. destruct (matrixraft_wal_checksum_valid r) eqn:E.
  - exists []. rewrite reverse_cons, reverse_involutive, app_nil_r. split_and!; [done|done|].
    intros r' Hr. rewrite last_snoc in Hr. congruence.
  - destruct IH as (tail & Hl & Hall & Hlast). exists (tail ++ [r]). split_and!; [|by apply Forall_app; repeat constructor|done].
    by rewrite app_assoc, <- Hl.
Qed.

(** Recovery of the in-memory log drops exactly the damaged tail. The records
    it keeps are everything up to the last one with a valid checksum, the report
    counts them and names the record recovery picks among them, and rebuilding
    the segments from them cannot fail. *)
Theorem local_recover_drops_tail w full active : local_wf w full active ->
  let surviving := pop_corrupt_tail (local_records w) in
  exists tail report w' full' active',
    local_records w = surviving ++ tail /\ Forall (fun r => matrixraft_wal_checksum_valid r = false) tail
    /\ (forall r, last surviving = Some r -> matrixraft_wal_checksum_valid r = true)
    /\ local_recover w = (Ok report, w') /\ local_wf w' full' active'
    /\ local_records w' = match tail with [] => local_records w | _ => sealed <$> surviving end
    /\ wrr_truncated_corrupt_tail report = negb (bool_decide (tail = []))
    /\ wrr_surviving_records report = length surviving /\ wrr_removed_records report = length tail
    /\ wrr_recovered report
       = match matrixraft_recover_latest_wal_record surviving with Ok r => Some r | Err _ => None end.
Proof.
  intros Hwf. destruct (pop_corrupt_tail_spec (local_records w)) as (tail & Hl & Hall & Hlast). cbn zeta.
  set (surviving := pop_corrupt_tail (local_records w)) in *. exists tail.
  unfold local_recover. unfold mbind at 1, ST_bind at 1, gets at 1. fold surviving.
  assert (length (local_records w) = length surviving + length tail) as Hlen by (rewrite Hl at 1; by rewrite length_app).
  rewrite Hlen. destruct tail as [|t tail].
  - rewrite Nat.add_0_r, Nat.eqb_refl, Nat.sub_diag. cbn [negb length]. eexists _, w, full, active.
    split_and!; [done|done|done|reflexivity|done|by rewrite Hl|done..].
  - destruct (Nat.eqb_spec (length surviving) (length surviving + length (t :: tail))) as [E|_]; [cbn in E; lia|].
    destruct (rebuild_appends surviving (mkLocalRaftWal (lrw_max_records_per_segment w) [empty_segment 0] 1) [] (empty_segment 0))
      as (w' & f' & a' & E & Hwf' & Hrec').
    { split; [apply Hwf|done|done|split; [done|cbn; lia]|by repeat constructor|constructor]. }
    { pose proof (lw_monotone _ _ _ Hwf) as Hm. rewrite Hl in Hm. unfold commits in *. rewrite omap_app in Hm.
      by apply StronglySorted_app in Hm as (_ & Hm & _). }
    eexists _, w', f', a'. split_and!; [done|done|done| |done|done|..].
    1:{ cbn [negb]. unfold mbind at 1, ST_bind at 1. rewrite (rebuild_run _ _ (lw_max _ _ _ Hwf)), E. reflexivity. }
    all: cbn -[matrixraft_recover_latest_wal_record]; try done. lia.
Qed.

(** Two records behind a damaged one. *)
Definition sample_local : LocalRaftWal :=
  mkLocalRaftWal 2 [mkWalSegment 0 3 4 [sample_whole; sample_delta] 2 false] 1.

Lemma sample_local_wf : local_wf sample_local [] (mkWalSegment 0 3 4 [sample_whole; sample_delta] 2 false).
Proof.
  split; [cbn; lia|done|done|split; [done|cbn; lia]|by repeat constructor|].
  vm_compute. repeat constructor; discriminate.
Qed.

Lemma local_append_monotone_witness :
  exists why, local_append (sample_whole <| wr_hard_state := mkHardState 3 None (Some (mkLogId 2 2)) |>) sample_local
              = (Err (StorageErr why), sample_local).
Proof.
  destruct (local_append_monotone _ _ _ (sample_whole <| wr_hard_state := mkHardState 3 None (Some (mkLogId 2 2)) |>)
    sample_local_wf) as [[Hallow _]|[_ H]]; [|exact H].
  exfalso. vm_compute in Hallow. by apply Hallow.
Defined.

Lemma local_recover_drops_tail_witness :
  exists tail, local_records sample_local = pop_corrupt_tail (local_records sample_local) ++ tail.
Proof.
  destruct (local_recover_drops_tail _ _ _ sample_local_wf) as (tail & _ & _ & _ & _ & H & _). by exists tail.
Defined.

(** A damaged record in front of a sound one survives: when the tail behind them
    is dropped the segments are rebuilt through [append], which seals every
    record anew, and the damaged record passes its checksum from then on. *)
Example rebuild_seals_damaged_record :
  let damaged := sample_whole <| wr_hard_state := mkHardState 3 (Some 2%N) (Some (mkLogId 2 3)) |> in
  let torn := sample_delta <| wr_checksum := "corrupt-tail" |> in
  let w := mkLocalRaftWal 4 [mkWalSegment 0 3 4 [damaged; sample_delta; torn] 3 false] 1 in
  matrixraft_wal_checksum_valid damaged = false
  /\ matrixraft_wal_checksum_valid <$> local_records w = [false; true; false]
  /\ matrixraft_wal_checksum_valid <$> local_records (local_recover w).2 = [true; true].
Proof. vm_compute. done. Qed.
End local_facts.
