(* ===== verification/WalBinary.v ===== *)
(** * The binary write-ahead log

    Models [src/wal_binary.rs]: the protobuf mirror of a record, the encoder that
    writes a record directly in that format, the frame around it (length, digest,
    body), and the frames of checkpoints and descriptors.

    The protobuf library ([prost]) is third-party code. It is a parameter: the
    class [Prost] lists the functions the source calls, and [ProstLaws] what their
    documentation says of them (the length functions measure the encoders; a
    derived message is the concatenation of its fields in tag order, fields at
    their default left out; decoding an encoded message gives it back). The
    theorems hold for every such library; [Protobuf.v] implements one.

    The theorems: the direct encoder writes exactly what the derived one would,
    and as many bytes as it announced; a frame is read back as the record it
    holds, whatever follows it; a frame cut short reads as incomplete; a body
    damaged by a burst of at most thirty-two bits is never read as a record. *)

From stdpp Require Import base strings pretty numbers list.
From Stdlib Require Import Strings.Byte.
From S2P Require Import Prelude Types Slice Bytes Membership Node Wal.

(** ** The mirror messages *)

Record LogIdProto := mkLogIdProto { lip_term : N; lip_index : N }.

Record HardStateProto := mkHardStateProto {
  hsp_current_term : N;
  hsp_voted_for : option N;
  hsp_committed : option LogIdProto
}.

Record MembershipProto := mkMembershipProto {
  mp_group_id : N;
  mp_voters : list N;
  mp_learners : list N;
  mp_witnesses : list N;
  mp_epoch : N
}.

Record LogEntryProto := mkLogEntryProto {
  lep_log_id : option LogIdProto;
  lep_payload : list byte;
  lep_is_command : bool
}.

Record ApplySnapshotFenceProto := mkApplySnapshotFenceProto {
  afp_applied_index : N;
  afp_commit_index : N;
  afp_installed_snapshot_index : N;
  afp_first_retained_log_index : N
}.

Record PeerProto := mkPeerProto {
  pep_node_id : N;
  pep_raft_addr : string;
  pep_snapshot_addr : string;
  pep_role : Z;
  pep_auto_promote : bool
}.

Record SnapshotMetadataProto := mkSnapshotMetadataProto {
  smp_snapshot_id : string;
  smp_last_log_id : option LogIdProto;
  smp_membership : list N;
  smp_members : list PeerProto;
  smp_payload_bytes : N
}.

Record WalRecordProto := mkWalRecordProto {
  wrp_group_id : N;
  wrp_node_id : N;
  wrp_hard_state : option HardStateProto;
  wrp_membership : option MembershipProto;
  wrp_entries : list LogEntryProto;
  wrp_entries_are_delta : bool;
  wrp_installed_snapshot : option SnapshotMetadataProto;
  wrp_apply_snapshot_fence : option ApplySnapshotFenceProto;
  wrp_checksum : string;
  wrp_checksum_digest : option N
}.

Record CheckpointProto := mkCheckpointProto {
  cp_group_id : N;
  cp_meta : option SnapshotMetadataProto;
  cp_payload : list byte
}.

Record DescriptorProto := mkDescriptorProto {
  dp_snapshot_id : string;
  dp_group_id : N;
  dp_last_log_id : option LogIdProto
}.

Record LogProto := mkLogProto { lp_entries : list LogEntryProto }.

(** ** Conversions *)

Definition role_to_wire (role : ReplicaRole) : Z :=
  match role with Voter => 0 | Learner => 1 | Witness => 2 end.
Definition role_from_wire (value : Z) : Result ReplicaRole :=
  if (value =? 0)%Z then Ok Voter
  else if (value =? 1)%Z then Ok Learner
  else if (value =? 2)%Z then Ok Witness
  else Err (StorageErr ("WAL record carries an unknown replica role " ++s pretty value)).

Definition missing (field : string) : RaftError := StorageErr ("WAL record is missing " ++s field).

Definition LogIdProto_from (value : LogId) : LogIdProto := mkLogIdProto (lid_term value) (lid_index value).
Definition LogId_from (value : LogIdProto) : LogId := mkLogId (lip_term value) (lip_index value).

Definition LogEntryProto_from (entry : LogEntry) : LogEntryProto :=
  mkLogEntryProto (Some (LogIdProto_from (log_id entry))) (payload entry) (is_command entry).
Definition LogEntry_try_from (proto : LogEntryProto) : Result LogEntry :=
  log_id ← ok_or (lep_log_id proto) (missing "an entry's log id");
  Ok (mkLogEntry (LogId_from log_id) (lep_payload proto) (lep_is_command proto)).

Definition PeerProto_from (peer : Peer) : PeerProto :=
  mkPeerProto (peer_node_id peer) (peer_raft_addr peer) (peer_snapshot_addr peer)
    (role_to_wire (peer_role peer)) (peer_auto_promote peer).
Definition Peer_try_from (proto : PeerProto) : Result Peer :=
  role ← role_from_wire (pep_role proto);
  Ok (mkPeer (pep_node_id proto) (pep_raft_addr proto) (pep_snapshot_addr proto) role (pep_auto_promote proto)).

(** A loop that converts every element and stops at the first error. *)
Fixpoint try_map {A B} (f : A -> Result B) (l : list A) : Result (list B) :=
  match l with
  | [] => Ok []
  | x :: rest => y ← f x; ys ← try_map f rest; Ok (y :: ys)
  end.

Definition SnapshotMetadataProto_from (meta : SnapshotMetadata) : SnapshotMetadataProto :=
  mkSnapshotMetadataProto (snap_id meta) (Some (LogIdProto_from (snap_last_log_id meta))) (snap_membership meta)
    (PeerProto_from <$> snap_members meta) (snap_payload_bytes meta).
Definition SnapshotMetadata_try_from (proto : SnapshotMetadataProto) : Result SnapshotMetadata :=
  last_log_id ← ok_or (smp_last_log_id proto) (missing "the snapshot's last log id");
  members ← try_map Peer_try_from (smp_members proto);
  Ok (mkSnapshotMetadata (smp_snapshot_id proto) (LogId_from last_log_id) (smp_membership proto) members
        (smp_payload_bytes proto)).

(** *** The checksum on the wire *)

Definition is_lower_hex (c : Ascii.ascii) : bool := bool_decide (is_Some (hex_value c)).
Fixpoint string_forall (f : Ascii.ascii -> bool) (s : string) : bool :=
  match s with String.EmptyString => true | String.String c s => f c && string_forall f s end.

Definition checksum_as_u64 (checksum : string) : option N :=
  if negb (String.length checksum =? 16)%nat then None
  else if negb (string_forall is_lower_hex checksum) then None
  else hex_parse 0 checksum.
Definition checksum_to_wire (checksum : string) : string * option N :=
  match checksum_as_u64 checksum with
  | Some value => ("", Some value)
  | None => (checksum, None)
  end.
Definition checksum_from_wire (text : string) (digest : option N) : string :=
  match digest with Some value => hex16 value | None => text end.

Definition HardStateProto_from (state : HardState) : HardStateProto :=
  mkHardStateProto (hs_current_term state) (hs_voted_for state) (LogIdProto_from <$> hs_committed state).
Definition MembershipProto_from (m : Membership) : MembershipProto :=
  mkMembershipProto (m_group_id m) (m_voters m) (m_learners m) (m_witnesses m) (m_epoch m).
Definition ApplySnapshotFenceProto_from (fence : ApplySnapshotFence) : ApplySnapshotFenceProto :=
  mkApplySnapshotFenceProto (fence_applied_index fence) (fence_commit_index fence)
    (fence_installed_snapshot_index fence) (fence_first_retained_log_index fence).

Definition WalRecordProto_from (record : WalRecord) : WalRecordProto :=
  let '(text, digest) := checksum_to_wire (wr_checksum record) in
  mkWalRecordProto (wr_group_id record) (wr_node_id record)
    (Some (HardStateProto_from (wr_hard_state record)))
    (Some (MembershipProto_from (wr_membership record)))
    (LogEntryProto_from <$> wr_entries record) (wr_entries_are_delta record)
    (SnapshotMetadataProto_from <$> wr_installed_snapshot record)
    (Some (ApplySnapshotFenceProto_from (wr_apply_snapshot_fence record))) text digest.

Definition WalRecord_try_from (proto : WalRecordProto) : Result WalRecord :=
  hard_state ← ok_or (wrp_hard_state proto) (missing "its hard state");
  membership ← ok_or (wrp_membership proto) (missing "its membership");
  fence ← ok_or (wrp_apply_snapshot_fence proto) (missing "its apply snapshot fence");
  entries ← try_map LogEntry_try_from (wrp_entries proto);
  installed_snapshot ←
    match wrp_installed_snapshot proto with
    | Some snapshot => s ← SnapshotMetadata_try_from snapshot; Ok (Some s)
    | None => Ok None
    end;
  Ok (mkWalRecord (wrp_group_id proto) (wrp_node_id proto)
        (mkHardState (hsp_current_term hard_state) (hsp_voted_for hard_state)
           (LogId_from <$> hsp_committed hard_state))
        (mkMembership (mp_group_id membership) (mp_voters membership) (mp_learners membership)
           (mp_witnesses membership) (mp_epoch membership))
        entries (wrp_entries_are_delta proto) installed_snapshot
        (mkApplySnapshotFence (afp_applied_index fence) (afp_commit_index fence)
           (afp_installed_snapshot_index fence) (afp_first_retained_log_index fence))
        (checksum_from_wire (wrp_checksum proto) (wrp_checksum_digest proto))).

(** ** The protobuf library *)

Inductive WireType : Type := Varint | SixtyFourBit | LengthDelimited.

(** A field of a derived message, as its [#[prost(..)]] attribute declares it; a
    nested message is given by its encoding. *)
Inductive Field : Type :=
| FUint64 (tag value : N)
| FOptUint64 (tag : N) (value : option N)
| FPackedUint64 (tag : N) (values : list N)
| FInt32 (tag : N) (value : Z)
| FBool (tag : N) (value : bool)
| FString (tag : N) (value : string)
| FBytes (tag : N) (value : list byte)
| FOptFixed64 (tag : N) (value : option N)
| FMessage (tag : N) (value : option (list byte))
| FMessages (tag : N) (values : list (list byte)).

Class Prost := {
  encode_varint : N -> list byte;
  encoded_len_varint : N -> nat;
  encode_key : N -> WireType -> list byte;
  key_len : N -> nat;
  uint64_encode : N -> N -> list byte;
  uint64_encoded_len : N -> N -> nat;
  uint64_encode_packed : N -> list N -> list byte;
  uint64_encoded_len_packed : N -> list N -> nat;
  int32_encode : N -> Z -> list byte;
  int32_encoded_len : N -> Z -> nat;
  bool_encode : N -> bool -> list byte;
  bool_encoded_len : N -> bool -> nat;
  string_encode : N -> string -> list byte;
  string_encoded_len : N -> string -> nat;
  fixed64_encode : N -> N -> list byte;
  fixed64_encoded_len : N -> N -> nat;
  (** [prost::Message::encode] of a derived message with these fields. *)
  message_encode : list Field -> list byte;
  (** [prost::Message::decode] of the derived messages, with the error's text. *)
  WalRecordProto_decode : list byte -> result string WalRecordProto;
  CheckpointProto_decode : list byte -> result string CheckpointProto;
  DescriptorProto_decode : list byte -> result string DescriptorProto;
  LogProto_decode : list byte -> result string LogProto;
  (** The texts a Rust [String] can hold. *)
  is_str : string -> Prop
}.

Definition string_bytes (s : string) : list byte := String.list_byte_of_string s.

(** The attributes of the mirror messages. *)
Section messages.
Context `{Prost}.

Definition LogIdProto_fields (m : LogIdProto) : list Field :=
  [FUint64 1 (lip_term m); FUint64 2 (lip_index m)].
Definition HardStateProto_fields (m : HardStateProto) : list Field :=
  [FUint64 1 (hsp_current_term m); FOptUint64 2 (hsp_voted_for m);
   FMessage 3 ((fun id => message_encode (LogIdProto_fields id)) <$> hsp_committed m)].
Definition MembershipProto_fields (m : MembershipProto) : list Field :=
  [FUint64 1 (mp_group_id m); FPackedUint64 2 (mp_voters m); FPackedUint64 3 (mp_learners m);
   FPackedUint64 4 (mp_witnesses m); FUint64 5 (mp_epoch m)].
Definition LogEntryProto_fields (m : LogEntryProto) : list Field :=
  [FMessage 1 ((fun id => message_encode (LogIdProto_fields id)) <$> lep_log_id m);
   FBytes 2 (lep_payload m); FBool 3 (lep_is_command m)].
Definition ApplySnapshotFenceProto_fields (m : ApplySnapshotFenceProto) : list Field :=
  [FUint64 1 (afp_applied_index m); FUint64 2 (afp_commit_index m);
   FUint64 3 (afp_installed_snapshot_index m); FUint64 4 (afp_first_retained_log_index m)].
Definition PeerProto_fields (m : PeerProto) : list Field :=
  [FUint64 1 (pep_node_id m); FString 2 (pep_raft_addr m); FString 3 (pep_snapshot_addr m);
   FInt32 4 (pep_role m); FBool 5 (pep_auto_promote m)].
Definition SnapshotMetadataProto_fields (m : SnapshotMetadataProto) : list Field :=
  [FString 1 (smp_snapshot_id m);
   FMessage 2 ((fun id => message_encode (LogIdProto_fields id)) <$> smp_last_log_id m);
   FPackedUint64 3 (smp_membership m);
   FMessages 4 ((fun p => message_encode (PeerProto_fields p)) <$> smp_members m);
   FUint64 5 (smp_payload_bytes m)].
Definition WalRecordProto_fields (m : WalRecordProto) : list Field :=
  [FUint64 1 (wrp_group_id m); FUint64 2 (wrp_node_id m);
   FMessage 3 ((fun h => message_encode (HardStateProto_fields h)) <$> wrp_hard_state m);
   FMessage 4 ((fun h => message_encode (MembershipProto_fields h)) <$> wrp_membership m);
   FMessages 5 ((fun e => message_encode (LogEntryProto_fields e)) <$> wrp_entries m);
   FBool 6 (wrp_entries_are_delta m);
   FMessage 7 ((fun s => message_encode (SnapshotMetadataProto_fields s)) <$> wrp_installed_snapshot m);
   FMessage 8 ((fun f => message_encode (ApplySnapshotFenceProto_fields f)) <$> wrp_apply_snapshot_fence m);
   FString 9 (wrp_checksum m); FOptFixed64 10 (wrp_checksum_digest m)].
Definition CheckpointProto_fields (m : CheckpointProto) : list Field :=
  [FUint64 1 (cp_group_id m);
   FMessage 2 ((fun s => message_encode (SnapshotMetadataProto_fields s)) <$> cp_meta m);
   FBytes 3 (cp_payload m)].
Definition DescriptorProto_fields (m : DescriptorProto) : list Field :=
  [FString 1 (dp_snapshot_id m); FUint64 2 (dp_group_id m);
   FMessage 3 ((fun id => message_encode (LogIdProto_fields id)) <$> dp_last_log_id m)].
Definition LogProto_fields (m : LogProto) : list Field :=
  [FMessages 1 ((fun e => message_encode (LogEntryProto_fields e)) <$> lp_entries m)].

(** What a field of a derived message contributes: nothing at its default (an
    optional field is there when it is set), and a length-delimited field is its
    key, its length and its bytes. *)
Definition delimited (tag : N) (body : list byte) : list byte :=
  encode_key tag LengthDelimited ++ encode_varint (N.of_nat (length body)) ++ body.

Definition field_encode (f : Field) : list byte :=
  match f with
  | FUint64 tag v => if (v =? 0)%N then [] else uint64_encode tag v
  | FOptUint64 tag o => match o with Some v => uint64_encode tag v | None => [] end
  | FPackedUint64 tag l => uint64_encode_packed tag l
  | FInt32 tag v => if (v =? 0)%Z then [] else int32_encode tag v
  | FBool tag b => if b then bool_encode tag b else []
  | FString tag s => if bool_decide (s = "") then [] else string_encode tag s
  | FBytes tag l => if bool_decide (l = []) then [] else delimited tag l
  | FOptFixed64 tag o => match o with Some v => fixed64_encode tag v | None => [] end
  | FMessage tag o => match o with Some body => delimited tag body | None => [] end
  | FMessages tag l => l ≫= delimited tag
  end.

End messages.

(** The values a message of machine integers and Rust strings can hold. *)
Definition u64_opt (o : option N) : Prop := match o with Some v => u64 v | None => True end.
Definition LogIdProto_ok (m : LogIdProto) : Prop := u64 (lip_term m) /\ u64 (lip_index m).
Definition opt_ok {A} (P : A -> Prop) (o : option A) : Prop := match o with Some a => P a | None => True end.
Definition HardStateProto_ok (m : HardStateProto) : Prop :=
  u64 (hsp_current_term m) /\ u64_opt (hsp_voted_for m) /\ opt_ok LogIdProto_ok (hsp_committed m).
Definition MembershipProto_ok (m : MembershipProto) : Prop :=
  u64 (mp_group_id m) /\ Forall u64 (mp_voters m) /\ Forall u64 (mp_learners m) /\ Forall u64 (mp_witnesses m)
  /\ u64 (mp_epoch m).
Definition LogEntryProto_ok (m : LogEntryProto) : Prop := opt_ok LogIdProto_ok (lep_log_id m).
Definition ApplySnapshotFenceProto_ok (m : ApplySnapshotFenceProto) : Prop :=
  u64 (afp_applied_index m) /\ u64 (afp_commit_index m) /\ u64 (afp_installed_snapshot_index m)
  /\ u64 (afp_first_retained_log_index m).
Definition PeerProto_ok `{Prost} (m : PeerProto) : Prop :=
  u64 (pep_node_id m) /\ is_str (pep_raft_addr m) /\ is_str (pep_snapshot_addr m)
  /\ (0 <= pep_role m < 2147483648)%Z.
Definition SnapshotMetadataProto_ok `{Prost} (m : SnapshotMetadataProto) : Prop :=
  is_str (smp_snapshot_id m) /\ opt_ok LogIdProto_ok (smp_last_log_id m) /\ Forall u64 (smp_membership m)
  /\ Forall PeerProto_ok (smp_members m) /\ u64 (smp_payload_bytes m).
Definition WalRecordProto_ok `{Prost} (m : WalRecordProto) : Prop :=
  u64 (wrp_group_id m) /\ u64 (wrp_node_id m) /\ opt_ok HardStateProto_ok (wrp_hard_state m)
  /\ opt_ok MembershipProto_ok (wrp_membership m) /\ Forall LogEntryProto_ok (wrp_entries m)
  /\ opt_ok SnapshotMetadataProto_ok (wrp_installed_snapshot m)
  /\ opt_ok ApplySnapshotFenceProto_ok (wrp_apply_snapshot_fence m)
  /\ is_str (wrp_checksum m) /\ u64_opt (wrp_checksum_digest m).

(** A message whose encoding fits in memory: a slice is at most [isize::MAX]
    bytes, so every length in it is a [u64]. *)
Definition fits (bytes : list byte) : Prop := u64 (N.of_nat (length bytes)).

Class ProstLaws `{Prost} : Prop := {
  varint_len v : encoded_len_varint v = length (encode_varint v);
  key_len_law tag w : key_len tag = length (encode_key tag w);
  uint64_len tag v : uint64_encoded_len tag v = length (uint64_encode tag v);
  uint64_packed_len tag l : uint64_encoded_len_packed tag l = length (uint64_encode_packed tag l);
  int32_len tag v : int32_encoded_len tag v = length (int32_encode tag v);
  bool_len tag b : bool_encoded_len tag b = length (bool_encode tag b);
  string_len_law tag s : string_encoded_len tag s = length (string_encode tag s);
  fixed64_len tag v : fixed64_encoded_len tag v = length (fixed64_encode tag v);
  string_delimited tag s : string_encode tag s = delimited tag (string_bytes s);
  message_encode_fields fields : message_encode fields = fields ≫= field_encode;
  WalRecordProto_decode_encode m : WalRecordProto_ok m -> fits (message_encode (WalRecordProto_fields m)) ->
    WalRecordProto_decode (message_encode (WalRecordProto_fields m)) = Ok m;
  CheckpointProto_decode_encode m : u64 (cp_group_id m) -> opt_ok SnapshotMetadataProto_ok (cp_meta m) ->
    fits (message_encode (CheckpointProto_fields m)) ->
    CheckpointProto_decode (message_encode (CheckpointProto_fields m)) = Ok m;
  DescriptorProto_decode_encode m : is_str (dp_snapshot_id m) -> u64 (dp_group_id m) ->
    opt_ok LogIdProto_ok (dp_last_log_id m) -> fits (message_encode (DescriptorProto_fields m)) ->
    DescriptorProto_decode (message_encode (DescriptorProto_fields m)) = Ok m;
  LogProto_decode_encode m : Forall LogEntryProto_ok (lp_entries m) -> fits (message_encode (LogProto_fields m)) ->
    LogProto_decode (message_encode (LogProto_fields m)) = Ok m
}.

(** ** The direct encoder

    Lengths are counts of bytes in memory, so their sums are exact. *)

Section encoder.
Context `{Prost}.

Definition message_len (tag : N) (body_len : nat) : nat :=
  key_len tag + encoded_len_varint (N.of_nat body_len) + body_len.
(** [encode_message]: the length is the one computed beforehand. *)
Definition encode_message (tag : N) (body_len : nat) (body : list byte) : list byte :=
  encode_key tag LengthDelimited ++ encode_varint (N.of_nat body_len) ++ body.
Definition nonzero_u64_len (tag value : N) : nat :=
  if (value =? 0)%N then 0 else uint64_encoded_len tag value.
Definition encode_nonzero_u64 (tag value : N) : list byte :=
  if negb (value =? 0)%N then uint64_encode tag value else [].
Definition nonzero_i32_len (tag : N) (value : Z) : nat :=
  if (value =? 0)%Z then 0 else int32_encoded_len tag value.
Definition encode_nonzero_i32 (tag : N) (value : Z) : list byte :=
  if negb (value =? 0)%Z then int32_encode tag value else [].
Definition nonzero_bool_len (tag : N) (value : bool) : nat := if value then bool_encoded_len tag value else 0.
Definition encode_nonzero_bool (tag : N) (value : bool) : list byte := if value then bool_encode tag value else [].
Definition bytes_len (tag : N) (value : list byte) : nat :=
  if bool_decide (value = []) then 0
  else key_len tag + encoded_len_varint (N.of_nat (length value)) + length value.
Definition encode_bytes (tag : N) (value : list byte) : list byte :=
  if bool_decide (value = []) then []
  else encode_key tag LengthDelimited ++ encode_varint (N.of_nat (length value)) ++ value.
Definition string_len (tag : N) (value : string) : nat := bytes_len tag (string_bytes value).
Definition encode_string (tag : N) (value : string) : list byte := encode_bytes tag (string_bytes value).

Definition log_id_encoded_len (log_id : LogId) : nat :=
  nonzero_u64_len 1 (lid_term log_id) + nonzero_u64_len 2 (lid_index log_id).
Definition encode_log_id (log_id : LogId) : list byte :=
  encode_nonzero_u64 1 (lid_term log_id) ++ encode_nonzero_u64 2 (lid_index log_id).

Definition hard_state_encoded_len (state : HardState) : nat :=
  nonzero_u64_len 1 (hs_current_term state)
  + match hs_voted_for state with Some value => uint64_encoded_len 2 value | None => 0 end
  + match hs_committed state with Some log_id => message_len 3 (log_id_encoded_len log_id) | None => 0 end.
Definition encode_hard_state (state : HardState) : list byte :=
  encode_nonzero_u64 1 (hs_current_term state)
  ++ match hs_voted_for state with Some value => uint64_encode 2 value | None => [] end
  ++ match hs_committed state with
     | Some log_id => encode_message 3 (log_id_encoded_len log_id) (encode_log_id log_id)
     | None => []
     end.

Definition membership_encoded_len (m : Membership) : nat :=
  nonzero_u64_len 1 (m_group_id m) + uint64_encoded_len_packed 2 (m_voters m)
  + uint64_encoded_len_packed 3 (m_learners m) + uint64_encoded_len_packed 4 (m_witnesses m)
  + nonzero_u64_len 5 (m_epoch m).
Definition encode_membership (m : Membership) : list byte :=
  encode_nonzero_u64 1 (m_group_id m) ++ uint64_encode_packed 2 (m_voters m)
  ++ uint64_encode_packed 3 (m_learners m) ++ uint64_encode_packed 4 (m_witnesses m)
  ++ encode_nonzero_u64 5 (m_epoch m).

Definition log_entry_encoded_len (entry : LogEntry) : nat :=
  message_len 1 (log_id_encoded_len (log_id entry)) + bytes_len 2 (payload entry)
  + nonzero_bool_len 3 (is_command entry).
Definition encode_log_entry (entry : LogEntry) : list byte :=
  encode_message 1 (log_id_encoded_len (log_id entry)) (encode_log_id (log_id entry))
  ++ encode_bytes 2 (payload entry) ++ encode_nonzero_bool 3 (is_command entry).

Definition peer_encoded_len (peer : Peer) : nat :=
  nonzero_u64_len 1 (peer_node_id peer) + string_len 2 (peer_raft_addr peer)
  + string_len 3 (peer_snapshot_addr peer) + nonzero_i32_len 4 (role_to_wire (peer_role peer))
  + nonzero_bool_len 5 (peer_auto_promote peer).
Definition encode_peer (peer : Peer) : list byte :=
  encode_nonzero_u64 1 (peer_node_id peer) ++ encode_string 2 (peer_raft_addr peer)
  ++ encode_string 3 (peer_snapshot_addr peer) ++ encode_nonzero_i32 4 (role_to_wire (peer_role peer))
  ++ encode_nonzero_bool 5 (peer_auto_promote peer).

Definition snapshot_metadata_encoded_len (snapshot : SnapshotMetadata) : nat :=
  string_len 1 (snap_id snapshot) + message_len 2 (log_id_encoded_len (snap_last_log_id snapshot))
  + uint64_encoded_len_packed 3 (snap_membership snapshot)
  + sum_list_with (fun peer => message_len 4 (peer_encoded_len peer)) (snap_members snapshot)
  + nonzero_u64_len 5 (snap_payload_bytes snapshot).
Definition encode_snapshot_metadata (snapshot : SnapshotMetadata) : list byte :=
  encode_string 1 (snap_id snapshot)
  ++ encode_message 2 (log_id_encoded_len (snap_last_log_id snapshot)) (encode_log_id (snap_last_log_id snapshot))
  ++ uint64_encode_packed 3 (snap_membership snapshot)
  ++ (snap_members snapshot ≫= fun peer => encode_message 4 (peer_encoded_len peer) (encode_peer peer))
  ++ encode_nonzero_u64 5 (snap_payload_bytes snapshot).

Definition fence_encoded_len (fence : ApplySnapshotFence) : nat :=
  nonzero_u64_len 1 (fence_applied_index fence) + nonzero_u64_len 2 (fence_commit_index fence)
  + nonzero_u64_len 3 (fence_installed_snapshot_index fence)
  + nonzero_u64_len 4 (fence_first_retained_log_index fence).
Definition encode_fence (fence : ApplySnapshotFence) : list byte :=
  encode_nonzero_u64 1 (fence_applied_index fence) ++ encode_nonzero_u64 2 (fence_commit_index fence)
  ++ encode_nonzero_u64 3 (fence_installed_snapshot_index fence)
  ++ encode_nonzero_u64 4 (fence_first_retained_log_index fence).

Definition wal_record_encoded_len (record : WalRecord) (checksum_digest : option N) : nat :=
  nonzero_u64_len 1 (wr_group_id record) + nonzero_u64_len 2 (wr_node_id record)
  + message_len 3 (hard_state_encoded_len (wr_hard_state record))
  + message_len 4 (membership_encoded_len (wr_membership record))
  + sum_list_with (fun entry => message_len 5 (log_entry_encoded_len entry)) (wr_entries record)
  + nonzero_bool_len 6 (wr_entries_are_delta record)
  + match wr_installed_snapshot record with
    | Some snapshot => message_len 7 (snapshot_metadata_encoded_len snapshot)
    | None => 0
    end
  + message_len 8 (fence_encoded_len (wr_apply_snapshot_fence record))
  + match checksum_digest with
    | Some value => fixed64_encoded_len 10 value
    | None => if negb (bool_decide (wr_checksum record = "")) then string_encoded_len 9 (wr_checksum record) else 0
    end.
Definition encode_wal_record (record : WalRecord) (checksum_digest : option N) : list byte :=
  encode_nonzero_u64 1 (wr_group_id record) ++ encode_nonzero_u64 2 (wr_node_id record)
  ++ encode_message 3 (hard_state_encoded_len (wr_hard_state record)) (encode_hard_state (wr_hard_state record))
  ++ encode_message 4 (membership_encoded_len (wr_membership record)) (encode_membership (wr_membership record))
  ++ (wr_entries record ≫= fun entry => encode_message 5 (log_entry_encoded_len entry) (encode_log_entry entry))
  ++ encode_nonzero_bool 6 (wr_entries_are_delta record)
  ++ match wr_installed_snapshot record with
     | Some snapshot =>
         encode_message 7 (snapshot_metadata_encoded_len snapshot) (encode_snapshot_metadata snapshot)
     | None => []
     end
  ++ encode_message 8 (fence_encoded_len (wr_apply_snapshot_fence record))
       (encode_fence (wr_apply_snapshot_fence record))
  ++ match checksum_digest with
     | Some value => fixed64_encode 10 value
     | None => if negb (bool_decide (wr_checksum record = "")) then string_encode 9 (wr_checksum record) else []
     end.

(** ** Frames *)

Definition FRAME_BYTES : nat := 8.
Definition SEGMENT_MAGIC : list byte := string_bytes "MRWC".
Definition SEGMENT_MAGIC_FNV : list byte := string_bytes "MRWB".
Definition CHECKPOINT_MAGIC : list byte := string_bytes "MRCP".
Definition DESCRIPTOR_MAGIC : list byte := string_bytes "MRSD".

Inductive FrameDigest : Type := Fnv1a32 | Crc32c.

Definition starts_with (bytes magic : list byte) : bool := bool_decide (magic `prefix_of` bytes).
Definition from_segment (bytes : list byte) : option FrameDigest :=
  if starts_with bytes SEGMENT_MAGIC then Some Crc32c
  else if starts_with bytes SEGMENT_MAGIC_FNV then Some Fnv1a32
  else None.
Definition digest_of (kind : FrameDigest) (bytes : list byte) : N :=
  match kind with Fnv1a32 => fnv1a32 bytes | Crc32c => crc32c bytes end.

(** A body behind its length and digest. *)
Definition framed (length : N) (body : list byte) : list byte :=
  to_le_bytes 4 length ++ to_le_bytes 4 (digest_of Crc32c body) ++ body.

Definition encode_framed (record : WalRecord) : Result (list byte) :=
  let checksum_digest := checksum_as_u64 (wr_checksum record) in
  let body_len := wal_record_encoded_len record checksum_digest in
  if (u32_max <? N.of_nat body_len)%N then Err (StorageErr "WAL record exceeds a frame length")
  else Ok (framed (N.of_nat body_len) (encode_wal_record record checksum_digest)).

(** The two words of a frame's header. *)
Definition frame_length (bytes : list byte) : N := from_le_bytes (take 4 bytes).
Definition frame_digest (bytes : list byte) : N := from_le_bytes (take 4 (drop 4 bytes)).

Definition decode_framed (bytes : list byte) (digest_kind : FrameDigest) : Result (option (WalRecord * nat)) :=
  if (length bytes <? FRAME_BYTES)%nat then Ok None
  else
    let length_ := frame_length bytes in
    let digest := frame_digest bytes in
    match checked_add (N.of_nat FRAME_BYTES) length_ with
    | None => Err (StorageErr "WAL frame length overflows")
    | Some end_ =>
        if (N.of_nat (length bytes) <? end_)%N then Ok None
        else
          let is_last := (end_ =? N.of_nat (length bytes))%N in
          let trailing := (N.of_nat (length bytes) - end_)%N in
          let body := take (N.to_nat length_) (drop FRAME_BYTES bytes) in
          if negb (digest_of digest_kind body =? digest)%N then
            if is_last then Ok None
            else Err (StorageErr ("a WAL record of " ++s pretty length_
                        ++s " bytes is complete but fails its frame digest, and " ++s pretty trailing
                        ++s " bytes follow it; refusing rather than discarding them"))
          else
            match WalRecordProto_decode body with
            | Err err =>
                if is_last then Ok None
                else Err (StorageErr ("a WAL record of " ++s pretty length_
                            ++s " bytes passes its frame digest but will not decode (" ++s err ++s "), and "
                            ++s pretty trailing ++s " bytes follow it; refusing rather than discarding them"))
            | Ok proto =>
                record ← WalRecord_try_from proto;
                Ok (Some (record, N.to_nat end_))
            end
    end.

(** ** Logs, checkpoints and descriptors *)

Definition matrixraft_encode_log (entries : list LogEntry) : list byte :=
  message_encode (LogProto_fields (mkLogProto (LogEntryProto_from <$> entries))).
Definition matrixraft_decode_log (bytes : list byte) : Result (list LogEntry) :=
  match LogProto_decode bytes with
  | Err err => Err (StorageErr ("failed to decode a log: " ++s err))
  | Ok proto => try_map LogEntry_try_from (lp_entries proto)
  end.

Definition CHECKPOINT_PAYLOAD_TAG : N := 3.

Definition encode_checkpoint (snapshot : RaftSnapshot) : Result (list byte) :=
  let head := mkCheckpointProto (rs_group_id snapshot) (Some (SnapshotMetadataProto_from (rs_meta snapshot))) [] in
  let payload := rs_payload snapshot in
  let head_bytes := message_encode (CheckpointProto_fields head) in
  let payload_len :=
    if bool_decide (payload = []) then 0
    else key_len CHECKPOINT_PAYLOAD_TAG + encoded_len_varint (N.of_nat (length payload)) + length payload in
  let body_len := N.of_nat (length head_bytes + payload_len) in
  if (u32_max <? body_len)%N then Err (StorageErr "snapshot checkpoint exceeds a frame length")
  else
    let body := head_bytes ++
      (if bool_decide (payload = []) then []
       else encode_key CHECKPOINT_PAYLOAD_TAG LengthDelimited ++ encode_varint (N.of_nat (length payload)) ++ payload) in
    Ok (CHECKPOINT_MAGIC ++ framed body_len body).

Definition is_framed_checkpoint (bytes : list byte) : bool := starts_with bytes CHECKPOINT_MAGIC.

(** A frame that must be whole: the checks checkpoints and descriptors share, with
    the text of each refusal. *)
Definition whole_frame (magic bytes : list byte) (no_magic short overflows : string)
    (declares : N -> N -> string) (bad_digest : string) : Result (list byte) :=
  if negb (starts_with bytes magic) then Err (StorageErr no_magic)
  else
    let rest := drop (length magic) bytes in
    if (length rest <? FRAME_BYTES)%nat then Err (StorageErr short)
    else
      let length_ := frame_length rest in
      match checked_add (N.of_nat FRAME_BYTES) length_ with
      | None => Err (StorageErr overflows)
      | Some end_ =>
          if (N.of_nat (length rest) <? end_)%N
          then Err (StorageErr (declares length_ (N.of_nat (length rest - FRAME_BYTES))))
          else
            let body := take (N.to_nat length_) (drop FRAME_BYTES rest) in
            if negb (digest_of Crc32c body =? frame_digest rest)%N then Err (StorageErr bad_digest) else Ok body
      end.

Definition decode_checkpoint (bytes : list byte) : Result RaftSnapshot :=
  body ← whole_frame CHECKPOINT_MAGIC bytes
    "failed to decode snapshot: the checkpoint does not open with its magic"
    "failed to decode snapshot: the checkpoint is shorter than its frame"
    "failed to decode snapshot: the checkpoint's length overflows"
    (fun declared carried => "failed to decode snapshot: the checkpoint declares " ++s pretty declared
                             ++s " bytes and carries " ++s pretty carried)
    "failed to decode snapshot: the checkpoint fails its frame digest";
  match CheckpointProto_decode body with
  | Err err => Err (StorageErr ("failed to decode snapshot: " ++s err))
  | Ok proto =>
      meta_proto ← ok_or (cp_meta proto) (missing "the checkpoint's metadata");
      meta ← SnapshotMetadata_try_from meta_proto;
      Ok (mkRaftSnapshot (cp_group_id proto) meta (cp_payload proto))
  end.

Definition encode_descriptor (snapshot_id : string) (group_id : N) (last_log_id : LogId) : list byte :=
  let body := message_encode (DescriptorProto_fields
                (mkDescriptorProto snapshot_id group_id (Some (LogIdProto_from last_log_id)))) in
  DESCRIPTOR_MAGIC ++ framed (N.of_nat (length body) `mod` u32_modulus)%N body.

Definition is_framed_descriptor (bytes : list byte) : bool := starts_with bytes DESCRIPTOR_MAGIC.

Definition decode_descriptor (bytes : list byte) : Result (string * N * LogId) :=
  body ← whole_frame DESCRIPTOR_MAGIC bytes
    "a snapshot descriptor does not open with its magic"
    "a snapshot descriptor is shorter than its frame"
    "a snapshot descriptor's length overflows"
    (fun declared carried => "a snapshot descriptor declares " ++s pretty declared
                             ++s " bytes and carries " ++s pretty carried)
    "a snapshot descriptor fails its frame digest";
  match DescriptorProto_decode body with
  | Err err => Err (StorageErr ("failed to decode a snapshot descriptor: " ++s err))
  | Ok proto =>
      last_log_id ← ok_or (dp_last_log_id proto) (StorageErr "a snapshot descriptor carries no last log id");
      Ok (dp_snapshot_id proto, dp_group_id proto, LogId_from last_log_id)
  end.

End encoder.

(** ** The direct encoder writes what it announces *)

Section encoder_facts.
Context `{HP : Prost} `{!ProstLaws}.

Lemma encode_message_exact tag body : encode_message tag (length body) body = delimited tag body.
Proof. done. Qed.

Lemma delimited_len tag body : length (delimited tag body) = message_len tag (length body).
Proof.
  unfold delimited, message_len. rewrite !length_app, varint_len, (key_len_law tag LengthDelimited). lia.
Qed.

Lemma encode_message_len tag body : length (encode_message tag (length body) body) = message_len tag (length body).
Proof. apply delimited_len. Qed.

Lemma nonzero_u64_exact tag v : length (encode_nonzero_u64 tag v) = nonzero_u64_len tag v.
Proof. unfold encode_nonzero_u64, nonzero_u64_len. destruct (v =? 0)%N; cbn; [done|]. symmetry. apply uint64_len. Qed.
Lemma nonzero_i32_exact tag v : length (encode_nonzero_i32 tag v) = nonzero_i32_len tag v.
Proof. unfold encode_nonzero_i32, nonzero_i32_len. destruct (v =? 0)%Z; cbn; [done|]. symmetry. apply int32_len. Qed.
Lemma nonzero_bool_exact tag b : length (encode_nonzero_bool tag b) = nonzero_bool_len tag b.
Proof. unfold encode_nonzero_bool, nonzero_bool_len. destruct b; cbn; [symmetry; apply bool_len|done]. Qed.
Lemma bytes_exact_len tag v : length (encode_bytes tag v) = bytes_len tag v.
Proof.
  unfold encode_bytes, bytes_len. case_bool_decide; [done|]. apply (delimited_len tag v).
Qed.
Lemma string_exact_len tag s : length (encode_string tag s) = string_len tag s.
Proof. apply bytes_exact_len. Qed.

Lemma length_bind_with {A} (f : A -> list byte) (g : A -> nat) l :
  (forall x, length (f x) = g x) -> length (l ≫= f) = sum_list_with g l.
Proof. intros Hf. induction l as [|x l IH]; cbn; [done|]. by rewrite length_app, Hf, IH. Qed.

End encoder_facts.

Create Rewrite HintDb wire.
#[export] Hint Rewrite @nonzero_u64_exact @nonzero_i32_exact @nonzero_bool_exact @bytes_exact_len
  @string_exact_len @length_app @uint64_len @uint64_packed_len @fixed64_len @string_len_law using apply _ : wire.

Section encoder_exact.
Context `{HP : Prost} `{!ProstLaws}.

Lemma log_id_exact id : length (encode_log_id id) = log_id_encoded_len id.
Proof. unfold encode_log_id. by autorewrite with wire. Qed.

Lemma log_id_message tag id :
  encode_message tag (log_id_encoded_len id) (encode_log_id id) = delimited tag (encode_log_id id).
Proof. by rewrite <- log_id_exact. Qed.

Lemma log_id_message_len tag id :
  length (delimited tag (encode_log_id id)) = message_len tag (log_id_encoded_len id).
Proof. by rewrite delimited_len, log_id_exact. Qed.

Lemma hard_state_exact s : length (encode_hard_state s) = hard_state_encoded_len s.
Proof.
  unfold encode_hard_state, hard_state_encoded_len. autorewrite with wire.
  destruct (hs_voted_for s), (hs_committed s); cbn; rewrite ?log_id_message, ?log_id_message_len, ?uint64_len; lia.
Qed.

Lemma membership_exact m : length (encode_membership m) = membership_encoded_len m.
Proof. unfold encode_membership, membership_encoded_len. autorewrite with wire. rewrite ?uint64_packed_len. lia. Qed.

Lemma log_entry_exact e : length (encode_log_entry e) = log_entry_encoded_len e.
Proof.
  unfold encode_log_entry, log_entry_encoded_len. rewrite log_id_message. autorewrite with wire.
  rewrite log_id_message_len. lia.
Qed.

Lemma peer_exact p : length (encode_peer p) = peer_encoded_len p.
Proof. unfold encode_peer, peer_encoded_len. autorewrite with wire. lia. Qed.

Lemma fence_exact f : length (encode_fence f) = fence_encoded_len f.
Proof. unfold encode_fence, fence_encoded_len. autorewrite with wire. lia. Qed.

Lemma snapshot_metadata_exact s : length (encode_snapshot_metadata s) = snapshot_metadata_encoded_len s.
Proof.
  unfold encode_snapshot_metadata, snapshot_metadata_encoded_len. rewrite log_id_message. autorewrite with wire.
  rewrite log_id_message_len, ?uint64_packed_len.
  rewrite (length_bind_with _ (fun peer => message_len 4 (peer_encoded_len peer))); [lia|].
  intros p. rewrite <- peer_exact. apply encode_message_len.
Qed.

Lemma wal_record_exact r d : length (encode_wal_record r d) = wal_record_encoded_len r d.
Proof.
  unfold encode_wal_record, wal_record_encoded_len.
  rewrite <- hard_state_exact, <- membership_exact, <- fence_exact. autorewrite with wire.
  rewrite (length_bind_with _ (fun e => message_len 5 (log_entry_encoded_len e)));
    [|intros e; rewrite <- log_entry_exact; apply encode_message_len].
  rewrite !encode_message_len. destruct (wr_installed_snapshot r) as [s|]; cbn;
    [rewrite <- snapshot_metadata_exact, encode_message_len|];
    (destruct d; [rewrite ?fixed64_len; lia|]); case_bool_decide; cbn; rewrite ?string_len_law; lia.
Qed.
End encoder_exact.

(** ** The direct encoder and the derived one *)

Section encoder_derived.
Context `{HP : Prost} `{!ProstLaws}.

Lemma field_u64 tag v : field_encode (FUint64 tag v) = encode_nonzero_u64 tag v.
Proof. cbn. unfold encode_nonzero_u64. by destruct (v =? 0)%N. Qed.
Lemma field_i32 tag v : field_encode (FInt32 tag v) = encode_nonzero_i32 tag v.
Proof. cbn. unfold encode_nonzero_i32. by destruct (v =? 0)%Z. Qed.
Lemma string_bytes_nil s : string_bytes s = [] <-> s = "".
Proof. destruct s; cbn; [done|]. split; intros ?; discriminate. Qed.
Lemma field_string tag s : field_encode (FString tag s) = encode_string tag s.
Proof.
  cbn. unfold encode_string, encode_bytes. rewrite string_delimited.
  rewrite (bool_decide_ext _ _ (string_bytes_nil s)). done.
Qed.

Lemma message_cons f fields : message_encode (f :: fields) = field_encode f ++ message_encode fields.
Proof. by rewrite !message_encode_fields. Qed.
Lemma message_nil : message_encode [] = [].
Proof. by rewrite message_encode_fields. Qed.

(** The encoding of a message, as the concatenation of its fields. *)
Ltac fields := rewrite !message_cons, message_nil, ?field_u64, ?field_i32, ?field_string, ?app_nil_r.

Lemma log_id_derived id : message_encode (LogIdProto_fields (LogIdProto_from id)) = encode_log_id id.
Proof. unfold LogIdProto_fields. by fields. Qed.

Lemma hard_state_derived s : message_encode (HardStateProto_fields (HardStateProto_from s)) = encode_hard_state s.
Proof.
  unfold HardStateProto_fields. fields. unfold encode_hard_state. do 2 f_equal.
  cbn. destruct (hs_committed s) as [id|]; cbn; [|done]. by rewrite log_id_derived, log_id_message.
Qed.

Lemma membership_derived m : message_encode (MembershipProto_fields (MembershipProto_from m)) = encode_membership m.
Proof. unfold MembershipProto_fields. by fields. Qed.

Lemma log_entry_derived e : message_encode (LogEntryProto_fields (LogEntryProto_from e)) = encode_log_entry e.
Proof. unfold LogEntryProto_fields. fields. cbn. by rewrite log_id_derived, <- log_id_message. Qed.

Lemma fence_derived f :
  message_encode (ApplySnapshotFenceProto_fields (ApplySnapshotFenceProto_from f)) = encode_fence f.
Proof. unfold ApplySnapshotFenceProto_fields. by fields. Qed.

Lemma peer_derived p : message_encode (PeerProto_fields (PeerProto_from p)) = encode_peer p.
Proof. unfold PeerProto_fields. by fields. Qed.

Lemma bind_fmap_ext {A B} (f : A -> B) (g : B -> list byte) (h : A -> list byte) l :
  (forall x, g (f x) = h x) -> (f <$> l) ≫= g = l ≫= h.
Proof. intros E. induction l as [|x l IH]; cbn; [done|]. rewrite E. f_equal. exact IH. Qed.

Lemma snapshot_metadata_derived s :
  message_encode (SnapshotMetadataProto_fields (SnapshotMetadataProto_from s)) = encode_snapshot_metadata s.
Proof.
  unfold SnapshotMetadataProto_fields. fields. unfold encode_snapshot_metadata. f_equal. cbn [field_encode smp_last_log_id
    SnapshotMetadataProto_from fmap option_fmap option_map smp_membership smp_members smp_payload_bytes].
  rewrite log_id_derived, log_id_message. do 3 f_equal. rewrite <- list_fmap_compose. apply bind_fmap_ext.
  intros p. cbn. rewrite peer_derived, <- peer_exact. done.
Qed.

Lemma entries_derived (l : list LogEntry) :
  (fun e => message_encode (LogEntryProto_fields e)) <$> (LogEntryProto_from <$> l) = encode_log_entry <$> l.
Proof. rewrite <- list_fmap_compose. apply list_fmap_ext. intros _ e _. apply log_entry_derived. Qed.

Lemma entries_field l :
  field_encode (FMessages 5 (encode_log_entry <$> l))
  = (l ≫= fun entry => encode_message 5 (log_entry_encoded_len entry) (encode_log_entry entry)).
Proof. apply bind_fmap_ext. intros e. by rewrite <- log_entry_exact. Qed.

Lemma snapshot_field o :
  field_encode (FMessage 7 ((fun s => message_encode (SnapshotMetadataProto_fields s))
                              <$> (SnapshotMetadataProto_from <$> o)))
  = match o with
    | Some snapshot => encode_message 7 (snapshot_metadata_encoded_len snapshot) (encode_snapshot_metadata snapshot)
    | None => []
    end.
Proof. destruct o as [s|]; cbn; [|done]. by rewrite snapshot_metadata_derived, <- snapshot_metadata_exact. Qed.

(** The record the derived encoder would write is the record written directly. *)
Lemma wal_record_derived r :
  message_encode (WalRecordProto_fields (WalRecordProto_from r))
  = encode_wal_record r (checksum_as_u64 (wr_checksum r)).
Proof.
  unfold encode_wal_record.
  rewrite <- hard_state_exact, <- membership_exact, <- fence_exact, !encode_message_exact.
  rewrite <- hard_state_derived, <- membership_derived, <- fence_derived.
  rewrite (message_encode_fields (WalRecordProto_fields _)). unfold WalRecordProto_from, checksum_to_wire.
  destruct (checksum_as_u64 (wr_checksum r)) as [v|]; unfold WalRecordProto_fields; cbn [mbind list_bind
      wrp_group_id wrp_node_id wrp_hard_state wrp_membership wrp_entries wrp_entries_are_delta
      wrp_installed_snapshot wrp_apply_snapshot_fence wrp_checksum wrp_checksum_digest];
    rewrite entries_derived, entries_field, snapshot_field, !field_u64, app_nil_r; do 8 f_equal.
  all: cbn; rewrite ?app_nil_r; try done; by case_bool_decide.
Qed.

(** C31: the direct encoder writes the derived encoding. For every record it writes
    exactly the bytes the protobuf library's derived encoder writes for the mirror
    message, and exactly as many as it computed beforehand, which is the length
    the frame announces. *)
Theorem direct_encoding_is_derived record :
  let digest := checksum_as_u64 (wr_checksum record) in
  encode_wal_record record digest = message_encode (WalRecordProto_fields (WalRecordProto_from record))
  /\ length (encode_wal_record record digest) = wal_record_encoded_len record digest.
Proof. split; [symmetry; apply wal_record_derived|apply wal_record_exact]. Qed.
End encoder_derived.

(** ** Conversions back *)

Lemma checksum_as_u64_spelled c v : checksum_as_u64 c = Some v -> hex16 v = c /\ u64 v.
Proof.
  unfold checksum_as_u64. destruct (Nat.eqb_spec (String.length c) 16) as [Hl|]; [|done]. cbn.
  destruct (negb _); [done|]. intros Hp. split.
  - apply hex_parse_digits in Hp as [_ Hd]. by rewrite Hl in Hd.
  - apply hex_parse_bound in Hp. rewrite Hl in Hp. unfold u64, u64_max.
    change ((0 + 1) * 16 ^ N.of_nat 16)%N with 18446744073709551616%N in Hp. lia.
Qed.

Lemma checksum_round_trip c :
  checksum_from_wire (checksum_to_wire c).1 (checksum_to_wire c).2 = c.
Proof.
  unfold checksum_to_wire. destruct (checksum_as_u64 c) as [v|] eqn:E; cbn; [|done].
  by apply checksum_as_u64_spelled in E as [? _].
Qed.

Lemma try_map_fmap {A B} (f : B -> Result A) (g : A -> B) l :
  (forall x, f (g x) = Ok x) -> try_map f (g <$> l) = Ok l.
Proof. intros Hf. induction l as [|x l IH]; cbn; [done|]. rewrite Hf. cbn. by rewrite IH. Qed.

Lemma LogId_round_trip id : LogId_from (LogIdProto_from id) = id.
Proof. by destruct id. Qed.

Lemma LogEntry_round_trip e : LogEntry_try_from (LogEntryProto_from e) = Ok e.
Proof. destruct e as [id p c]. cbn. by rewrite LogId_round_trip. Qed.

Lemma Peer_round_trip p : Peer_try_from (PeerProto_from p) = Ok p.
Proof. by destruct p as [? ? ? [] ?]. Qed.

Lemma SnapshotMetadata_round_trip s : SnapshotMetadata_try_from (SnapshotMetadataProto_from s) = Ok s.
Proof.
  destruct s as [id lid members peers n]. unfold SnapshotMetadata_try_from, SnapshotMetadataProto_from. cbn -[try_map].
  rewrite (try_map_fmap Peer_try_from PeerProto_from _ Peer_round_trip). cbn. by rewrite LogId_round_trip.
Qed.

Lemma WalRecord_round_trip r : WalRecord_try_from (WalRecordProto_from r) = Ok r.
Proof.
  destruct r as [g n [t v c] [mg mv ml mw me] es d s [f1 f2 f3 f4] sum].
  unfold WalRecordProto_from. destruct (checksum_to_wire _) as [text digest] eqn:Es.
  unfold WalRecord_try_from. cbn -[try_map checksum_to_wire checksum_from_wire].
  rewrite (try_map_fmap LogEntry_try_from LogEntryProto_from _ LogEntry_round_trip).
  assert (checksum_from_wire text digest = sum) as ->.
  { pose proof (checksum_round_trip sum) as Hr. cbn in Es. by rewrite Es in Hr. }
  assert (LogId_from <$> (LogIdProto_from <$> c) = c) as -> by (destruct c; cbn; by rewrite ?LogId_round_trip).
  destruct s as [s|]; [|done]. cbn [fmap option_fmap option_map]. by rewrite SnapshotMetadata_round_trip.
Qed.

(** ** Frames *)

(** The records whose numbers are machine integers and texts Rust strings. *)
Definition record_ok `{Prost} (record : WalRecord) : Prop := WalRecordProto_ok (WalRecordProto_from record).

(** The two words of a header and what they stand in front of. *)
Definition behind (n digest : N) (bytes : list byte) : list byte :=
  to_le_bytes 4 n ++ to_le_bytes 4 digest ++ bytes.

Lemma behind_words n d bytes : (n < u32_modulus)%N -> (d < u32_modulus)%N ->
  frame_length (behind n d bytes) = n /\ frame_digest (behind n d bytes) = d
  /\ drop FRAME_BYTES (behind n d bytes) = bytes /\ length (behind n d bytes) = FRAME_BYTES + length bytes.
Proof.
  intros Hn Hd. unfold frame_length, frame_digest, behind, FRAME_BYTES.
  pose proof (to_le_bytes_length 4 n) as L1. pose proof (to_le_bytes_length 4 d) as L2.
  rewrite (take_app_length' _ _ 4), (drop_app_length' _ _ 4), (take_app_length' _ _ 4) by done.
  rewrite (app_assoc _ _ bytes), (drop_app_length' (_ ++ _) _ 8) by (rewrite length_app; lia).
  split_and!; [by apply from_to_le_bytes..|done|]. rewrite !length_app. lia.
Qed.

Lemma behind_app n d bytes rest : behind n d bytes ++ rest = behind n d (bytes ++ rest).
Proof. unfold behind. by rewrite <- !app_assoc. Qed.

(** What is read of a header whose length is the length of the body behind it. *)
Section frames.
Context `{HP : Prost}.

Definition last_or_refused (rest : list byte) (r : Result (option (WalRecord * nat))) : Prop :=
  match rest with [] => r = Ok None | _ => exists why, r = Err (StorageErr why) end.

Lemma decode_behind n d body rest kind :
  n = N.of_nat (length body) -> (n < u32_modulus)%N -> (d < u32_modulus)%N ->
  let r := decode_framed (behind n d (body ++ rest)) kind in
  (digest_of kind body <> d -> last_or_refused rest r)
  /\ (digest_of kind body = d -> forall proto, WalRecordProto_decode body = Ok proto ->
      r = record ← WalRecord_try_from proto; Ok (Some (record, FRAME_BYTES + length body))).
Proof.
  intros Hn Hlt Hd. destruct (behind_words n d (body ++ rest) Hlt Hd) as (Hl & Hdg & Hbody & Hlen).
  rewrite length_app in Hlen. cbn zeta. unfold decode_framed. rewrite Hl, Hdg, Hbody, Hlen.
  destruct (Nat.ltb_spec (FRAME_BYTES + (length body + length rest)) FRAME_BYTES); [lia|].
  unfold checked_add.
  destruct (N.leb_spec (N.of_nat FRAME_BYTES + n) u64_max);
    [|unfold u64_max, u32_modulus, FRAME_BYTES in *; lia].
  destruct (N.ltb_spec (N.of_nat (FRAME_BYTES + (length body + length rest))) (N.of_nat FRAME_BYTES + n)); [lia|].
  rewrite (take_app_length' _ _ (N.to_nat n)) by lia. split.
  - intros Hne. destruct (N.eqb_spec (digest_of kind body) d); [done|]. cbn [negb]. unfold last_or_refused.
    destruct (N.eqb_spec (N.of_nat FRAME_BYTES + n) (N.of_nat (FRAME_BYTES + (length body + length rest))));
      destruct rest; cbn [length] in *; try lia; [done|eauto].
  - intros -> proto ->. rewrite N.eqb_refl. cbn [negb].
    replace (N.to_nat (N.of_nat FRAME_BYTES + n)) with (FRAME_BYTES + length body) by lia. done.
Qed.

(** A header whose length is more than the bytes behind it. *)
Lemma decode_behind_short n d bytes kind :
  (N.of_nat (length bytes) < n)%N -> (n < u32_modulus)%N -> (d < u32_modulus)%N ->
  decode_framed (behind n d bytes) kind = Ok None.
Proof.
  intros Hn Hlt Hd. destruct (behind_words n d bytes Hlt Hd) as (Hl & Hdg & Hbody & Hlen).
  unfold decode_framed. rewrite Hl, Hlen.
  destruct (Nat.ltb_spec (FRAME_BYTES + length bytes) FRAME_BYTES); [lia|]. unfold checked_add.
  destruct (N.leb_spec (N.of_nat FRAME_BYTES + n) u64_max);
    [|unfold u64_max, u32_modulus, FRAME_BYTES in *; lia].
  destruct (N.ltb_spec (N.of_nat (FRAME_BYTES + length bytes)) (N.of_nat FRAME_BYTES + n)); [done|lia].
Qed.

Context `{!ProstLaws}.

Lemma Ok_inj {E A} (x y : A) : @Ok E A x = Ok y -> x = y.
Proof. by intros [= ->]. Qed.

Lemma encode_framed_Ok record frame :
  encode_framed record = Ok frame ->
  let body := message_encode (WalRecordProto_fields (WalRecordProto_from record)) in
  frame = behind (N.of_nat (length body)) (crc32c body) body /\ (N.of_nat (length body) < u32_modulus)%N.
Proof.
  unfold encode_framed. rewrite <- wal_record_exact, <- wal_record_derived. cbn zeta.
  destruct (N.ltb_spec u32_max
    (N.of_nat (length (message_encode (WalRecordProto_fields (WalRecordProto_from record)))))); [done|].
  intros [= <-]. unfold u32_max, u32_modulus in *. split; [done|lia].
Qed.

(** A framed record is read back. Whatever bytes follow a record's frame in a
    segment, reading there gives the record that was written and the length of
    its frame, which is where the next record starts. *)
Lemma frame_round_trip record frame rest :
  record_ok record -> encode_framed record = Ok frame ->
  decode_framed (frame ++ rest) Crc32c = Ok (Some (record, length frame)).
Proof.
  intros Hok [-> Hlt]%encode_framed_Ok. rewrite behind_app.
  pose proof (crc32c_lt (message_encode (WalRecordProto_fields (WalRecordProto_from record)))) as Hc.
  destruct (behind_words _ _ (message_encode (WalRecordProto_fields (WalRecordProto_from record))) Hlt Hc)
    as (_ & _ & _ & ->).
  edestruct (decode_behind _ _ _ rest Crc32c eq_refl Hlt Hc) as [_ Hr].
  rewrite (Hr eq_refl (WalRecordProto_from record)); [by rewrite WalRecord_round_trip|].
  apply WalRecordProto_decode_encode; [done|]. unfold fits, u64, u64_max, u32_modulus in *. lia.
Qed.

(** A torn frame is never a record and never an error. Cut anywhere before its
    end, a frame reads as an incomplete tail, so a crash during an append is
    told apart from damage. *)
Lemma torn_frame_is_incomplete record frame k :
  encode_framed record = Ok frame -> k < length frame ->
  decode_framed (take k frame) Crc32c = Ok None.
Proof.
  intros [-> Hlt]%encode_framed_Ok Hk.
  set (body := message_encode (WalRecordProto_fields (WalRecordProto_from record))) in *.
  destruct (behind_words _ _ body Hlt (crc32c_lt body)) as (_ & _ & _ & Hlen). rewrite Hlen in Hk.
  destruct (Nat.le_gt_cases FRAME_BYTES k) as [Hge|Hshort].
  - replace (take k (behind (N.of_nat (length body)) (crc32c body) body))
      with (behind (N.of_nat (length body)) (crc32c body) (take (k - FRAME_BYTES) body)).
    + apply decode_behind_short; [rewrite length_take; lia|done|apply crc32c_lt].
    + unfold behind, FRAME_BYTES in *.
      rewrite !take_app_ge by (rewrite ?to_le_bytes_length; lia). rewrite !to_le_bytes_length. do 3 f_equal. lia.
  - unfold decode_framed. rewrite length_take, Hlen, Nat.min_l by lia.
    destruct (Nat.ltb_spec k FRAME_BYTES); [done|lia].
Qed.

(** C30: a damaged body is never read as a record. When the body of a written frame
    is hit by a burst of at most thirty-two bits, reading the frame reports an
    incomplete tail if nothing follows it, and refuses the segment otherwise. *)
Theorem damaged_frame_is_not_read record frame damaged e k rest :
  encode_framed record = Ok frame ->
  let body := drop FRAME_BYTES frame in
  length damaged = length body -> N.lxor (from_le_bytes body) (from_le_bytes damaged) = N.shiftl e k ->
  (0 < e < u32_modulus)%N -> (k <= 8 * N.of_nat (length body))%N ->
  last_or_refused rest (decode_framed (take FRAME_BYTES frame ++ damaged ++ rest) Crc32c).
Proof.
  intros [-> Hlt]%encode_framed_Ok. cbn zeta.
  set (body := message_encode (WalRecordProto_fields (WalRecordProto_from record))) in *.
  destruct (behind_words _ _ body Hlt (crc32c_lt body)) as (_ & _ & -> & _). intros Hlen Hburst He Hk.
  replace (take FRAME_BYTES (behind (N.of_nat (length body)) (crc32c body) body) ++ damaged ++ rest)
    with (behind (N.of_nat (length body)) (crc32c body) (damaged ++ rest)).
  - apply decode_behind; [by rewrite Hlen|done|apply crc32c_lt|].
    intros Heq. by eapply (crc32c_detects_bursts body damaged).
  - unfold behind, FRAME_BYTES. rewrite !take_app_ge by (rewrite ?to_le_bytes_length; lia).
    rewrite !to_le_bytes_length. cbn [Nat.sub take]. by rewrite app_nil_r, <- !app_assoc.
Qed.

(** ** Checkpoints, descriptors and logs *)

Lemma whole_frame_read magic body a b c f d : (N.of_nat (length body) < u32_modulus)%N ->
  whole_frame magic (magic ++ framed (N.of_nat (length body)) body) a b c f d = Ok body.
Proof.
  intros Hlt. unfold whole_frame, starts_with. rewrite bool_decide_true by (by eexists). cbn [negb].
  rewrite (drop_app_length' magic) by done.
  change (framed (N.of_nat (length body)) body) with (behind (N.of_nat (length body)) (crc32c body) body).
  destruct (behind_words _ _ body Hlt (crc32c_lt body)) as (Hl & Hd & Hb & Hlen). rewrite Hl, Hd, Hb, Hlen.
  destruct (Nat.ltb_spec (FRAME_BYTES + length body) FRAME_BYTES); [lia|]. unfold checked_add.
  destruct (N.leb_spec (N.of_nat FRAME_BYTES + N.of_nat (length body)) u64_max);
    [|unfold u64_max, u32_modulus, FRAME_BYTES in *; lia].
  destruct (N.ltb_spec (N.of_nat (FRAME_BYTES + length body)) (N.of_nat FRAME_BYTES + N.of_nat (length body))); [lia|].
  rewrite Nat2N.id, take_ge by done. cbn [digest_of]. by rewrite N.eqb_refl.
Qed.

Definition snapshot_ok (snapshot : RaftSnapshot) : Prop :=
  u64 (rs_group_id snapshot) /\ SnapshotMetadataProto_ok (SnapshotMetadataProto_from (rs_meta snapshot)).

Lemma checkpoint_body snapshot :
  let head := mkCheckpointProto (rs_group_id snapshot) (Some (SnapshotMetadataProto_from (rs_meta snapshot))) [] in
  message_encode (CheckpointProto_fields head) ++ encode_bytes CHECKPOINT_PAYLOAD_TAG (rs_payload snapshot)
  = message_encode (CheckpointProto_fields
      (mkCheckpointProto (rs_group_id snapshot) (Some (SnapshotMetadataProto_from (rs_meta snapshot))) (rs_payload snapshot))).
Proof.
  cbn zeta. rewrite !message_encode_fields. unfold CheckpointProto_fields.
  cbn [mbind list_bind cp_group_id cp_meta cp_payload]. rewrite <- !app_assoc. by rewrite !app_nil_r.
Qed.

(** A snapshot checkpoint survives the round trip through its frame, although
    its payload is appended to an encoding of everything else rather than
    encoded with it. *)
Theorem checkpoint_round_trip snapshot bytes :
  snapshot_ok snapshot -> encode_checkpoint snapshot = Ok bytes ->
  is_framed_checkpoint bytes = true /\ decode_checkpoint bytes = Ok snapshot.
Proof.
  intros [Hg Hm]. unfold encode_checkpoint. cbn zeta.
  change (if bool_decide (rs_payload snapshot = []) then 0
    else key_len CHECKPOINT_PAYLOAD_TAG + encoded_len_varint (N.of_nat (length (rs_payload snapshot)))
         + length (rs_payload snapshot)) with (bytes_len CHECKPOINT_PAYLOAD_TAG (rs_payload snapshot)).
  change (if bool_decide (rs_payload snapshot = []) then [] else _)
    with (encode_bytes CHECKPOINT_PAYLOAD_TAG (rs_payload snapshot)).
  rewrite <- bytes_exact_len, <- length_app, checkpoint_body.
  set (proto := mkCheckpointProto _ _ (rs_payload snapshot)).
  destruct (N.ltb_spec u32_max (N.of_nat (length (message_encode (CheckpointProto_fields proto))))); [done|].
  intros Hb. apply Ok_inj in Hb as <-.
  split; [unfold is_framed_checkpoint, starts_with; rewrite bool_decide_true; [done|by eexists]|].
  unfold decode_checkpoint. rewrite whole_frame_read by (unfold u32_max, u32_modulus in *; lia). cbn [mbind result_bind].
  rewrite CheckpointProto_decode_encode; [|done|done|unfold fits, u64, u32_max, u64_max in *; lia].
  cbn [proto cp_meta cp_group_id cp_payload ok_or mbind result_bind]. rewrite SnapshotMetadata_round_trip.
  by destruct snapshot.
Qed.

Lemma descriptor_round_trip snapshot_id group_id last_log_id :
  is_str snapshot_id -> u64 group_id -> LogIdProto_ok (LogIdProto_from last_log_id) ->
  (N.of_nat (length (message_encode (DescriptorProto_fields
     (mkDescriptorProto snapshot_id group_id (Some (LogIdProto_from last_log_id)))))) < u32_modulus)%N ->
  decode_descriptor (encode_descriptor snapshot_id group_id last_log_id) = Ok (snapshot_id, group_id, last_log_id).
Proof.
  intros Hs Hg Hl Hlt. unfold decode_descriptor, encode_descriptor. rewrite N.mod_small by done.
  rewrite whole_frame_read by done. cbn [mbind result_bind].
  rewrite DescriptorProto_decode_encode; [|done..|unfold fits, u64, u32_modulus, u64_max in *; lia].
  cbn. by rewrite LogId_round_trip.
Qed.

Lemma log_round_trip entries :
  Forall (fun e => LogEntryProto_ok (LogEntryProto_from e)) entries -> fits (matrixraft_encode_log entries) ->
  matrixraft_decode_log (matrixraft_encode_log entries) = Ok entries.
Proof.
  intros He Hf. unfold matrixraft_decode_log, matrixraft_encode_log.
  rewrite LogProto_decode_encode; [|by apply Forall_fmap|done].
  apply (try_map_fmap LogEntry_try_from LogEntryProto_from), LogEntry_round_trip.
Qed.
End frames.
