(* ===== verification/Protobuf.v ===== *)
(** * A protobuf library

    The binary log is verified against any library with the documented behaviour
    of [prost] ([Prost] and [ProstLaws] of [WalBinary.v]). This file writes one
    such library, following the protobuf encoding: varints, keys, length-delimited
    fields, a reader that splits a message into its fields and looks each up by
    its tag. It shows that the laws can hold, and the theorems of the binary log
    are applied to it at concrete records. *)

From stdpp Require Import base strings pretty numbers list.
From Stdlib Require Import Strings.Byte.
From S2P Require Import Prelude Types Slice Bytes Membership Node Wal WalBinary.

(** ** Varints *)

Fixpoint varint (fuel : nat) (v : N) : list byte :=
  match fuel with
  | 0 => [as_u8 v]
  | S fuel => if (v <? 128)%N then [as_u8 v] else as_u8 (128 + v `mod` 128) :: varint fuel (v / 128)
  end.

Fixpoint read_varint (fuel : nat) (bytes : list byte) : option (N * list byte) :=
  match bytes with
  | [] => None
  | b :: rest =>
      if (byte_N b <? 128)%N then Some (byte_N b, rest)
      else match fuel with
           | 0 => None
           | S fuel => '(v, rest) ← read_varint fuel rest; Some (byte_N b - 128 + 128 * v, rest)%N
           end
  end.

Lemma read_varint_app n v rest : (v < 128 * 128 ^ N.of_nat n)%N ->
  read_varint n (varint n v ++ rest) = Some (v, rest).
Proof.
  revert v. induction n as [|n IH]; intros v Hv; cbn [varint].
  - change (128 * 128 ^ N.of_nat 0)%N with 128%N in Hv. cbn [app read_varint].
    rewrite byte_N_as_u8, N.mod_small by lia. by destruct (N.ltb_spec v 128); [|lia].
  - destruct (N.ltb_spec v 128) as [Hs|Hs]; cbn [app read_varint]; rewrite byte_N_as_u8, (N.mod_small _ 256)
      by (pose proof (N.mod_lt v 128 ltac:(done)); lia).
    + by destruct (N.ltb_spec v 128); [|lia].
    + pose proof (N.le_add_r 128 (v `mod` 128)).
      destruct (N.ltb_spec (128 + v `mod` 128) 128); [lia|]. rewrite IH.
      * cbn [mbind option_bind]. do 2 f_equal. pose proof (N.div_mod v 128 ltac:(done)). lia.
      * rewrite Nat2N.inj_succ, N.pow_succ_r' in Hv. apply N.Div0.div_lt_upper_bound. lia.
Qed.

Lemma varint_cons n v : exists b l, varint n v = b :: l.
Proof. destruct n; cbn; [eauto|]. destruct (v <? 128)%N; eauto. Qed.

Definition write_varint (v : N) : list byte := varint 9 v.

Lemma read_write_varint v rest : u64 v -> read_varint 9 (write_varint v ++ rest) = Some (v, rest).
Proof.
  intros Hv. apply read_varint_app. change (128 * 128 ^ N.of_nat 9)%N with 1180591620717411303424%N.
  unfold u64, u64_max in *. lia.
Qed.

(** ** Keys and fields on the wire *)

Inductive WireValue : Type :=
| WVarint (v : N)
| W64 (v : N)
| WBytes (l : list byte).

Definition wire_code (w : WireType) : N := match w with Varint => 0 | SixtyFourBit => 1 | LengthDelimited => 2 end.
Definition write_key (tag : N) (w : WireType) : list byte := write_varint (8 * tag + wire_code w).

Definition put (f : N * WireValue) : list byte :=
  match f.2 with
  | WVarint v => write_key f.1 Varint ++ write_varint v
  | W64 v => write_key f.1 SixtyFourBit ++ to_le_bytes 8 v
  | WBytes l => write_key f.1 LengthDelimited ++ write_varint (N.of_nat (length l)) ++ l
  end.

Definition read_value (code : N) (bytes : list byte) : option (WireValue * list byte) :=
  if (code =? 0)%N then '(v, rest) ← read_varint 9 bytes; Some (WVarint v, rest)
  else if (code =? 1)%N then
    if (length bytes <? 8)%nat then None else Some (W64 (from_le_bytes (take 8 bytes)), drop 8 bytes)
  else if (code =? 2)%N then
    '(n, rest) ← read_varint 9 bytes;
    if (N.of_nat (length rest) <? n)%N then None
    else Some (WBytes (take (N.to_nat n) rest), drop (N.to_nat n) rest)
  else None.

Definition read_field (bytes : list byte) : option ((N * WireValue) * list byte) :=
  '(key, rest) ← read_varint 9 bytes;
  '(v, rest) ← read_value (key `mod` 8) rest;
  Some ((key / 8, v)%N, rest).

Fixpoint read_fields (fuel : nat) (bytes : list byte) : option (list (N * WireValue)) :=
  match bytes with
  | [] => Some []
  | _ => match fuel with
         | 0 => None
         | S fuel => '(f, rest) ← read_field bytes; fs ← read_fields fuel rest; Some (f :: fs)
         end
  end.

(** Tags are below 2^29; a value is a [u64] or has a [u64] number of bytes. *)
Definition tag_ok (t : N) : Prop := (t < 536870912)%N.
Definition value_ok (w : WireValue) : Prop :=
  match w with WVarint v | W64 v => u64 v | WBytes l => fits l end.

Lemma read_key tag w rest : tag_ok tag ->
  read_varint 9 (write_key tag w ++ rest) = Some ((8 * tag + wire_code w)%N, rest).
Proof. intros Ht. apply read_write_varint. unfold u64, u64_max, tag_ok in *. destruct w; cbn; lia. Qed.

Lemma read_field_put f rest : tag_ok f.1 -> value_ok f.2 -> read_field (put f ++ rest) = Some (f, rest).
Proof.
  destruct f as [t w]. cbn [fst snd]. intros Ht Hw. unfold read_field, put. cbn [fst snd].
  assert (forall c, (c < 8)%N -> ((8 * t + c) `mod` 8 = c /\ (8 * t + c) / 8 = t)%N) as Hkey.
  { intros c Hc. rewrite (N.mul_comm 8 t), N.add_comm, N.Div0.mod_add, N.div_add, N.mod_small, N.div_small by lia. lia. }
  destruct w as [v|v|l]; rewrite <- !app_assoc, read_key by done; cbn [mbind option_bind wire_code value_ok] in *;
    destruct (Hkey 0%N), (Hkey 1%N), (Hkey 2%N); try lia;
    repeat match goal with H : _ = _ |- _ => rewrite H end; cbn [read_value N.eqb].
  - unfold read_value. cbn [N.eqb]. by rewrite read_write_varint.
  - unfold read_value. cbn [N.eqb Pos.eqb]. rewrite length_app, to_le_bytes_length.
    destruct (Nat.ltb_spec (8 + length rest) 8); [lia|].
    rewrite (take_app_length' _ _ 8), (drop_app_length' _ _ 8) by (by rewrite to_le_bytes_length).
    rewrite from_to_le_bytes; [done|]. change (256 ^ N.of_nat 8)%N with 18446744073709551616%N.
    unfold u64, u64_max in *. lia.
  - unfold read_value. cbn [N.eqb Pos.eqb]. rewrite read_write_varint by done. cbn [mbind option_bind].
    rewrite length_app. destruct (N.ltb_spec (N.of_nat (length l + length rest)) (N.of_nat (length l))); [lia|].
    by rewrite Nat2N.id, (take_app_length' _ _ (length l)), (drop_app_length' _ _ (length l)).
Qed.

Lemma put_length f : 1 <= length (put f).
Proof.
  destruct f as [t w]. unfold put, write_key, write_varint. cbn [fst snd].
  destruct w; rewrite length_app; match goal with |- context [varint 9 ?k] =>
    destruct (varint_cons 9 k) as (b & r & E) end; rewrite E; cbn [length]; lia.
Qed.

Definition put_all (fs : list (N * WireValue)) : list byte := fs ≫= put.
Definition wire_ok (f : N * WireValue) : Prop := tag_ok f.1 /\ value_ok f.2.

Lemma read_fields_put fs fuel : Forall wire_ok fs -> length (put_all fs) <= fuel ->
  read_fields fuel (put_all fs) = Some fs.
Proof.
  revert fuel. induction fs as [|f fs IH]; intros fuel Hok Hf; [by destruct fuel|].
  apply Forall_cons in Hok as [[Ht Hv] Hok]. unfold put_all in *. cbn [mbind list_bind] in *.
  rewrite length_app in Hf. pose proof (put_length f).
  destruct fuel as [|fuel]; [lia|]. destruct (put f ++ (fs ≫= put)) as [|b r] eqn:E.
  { apply (f_equal length) in E. rewrite length_app in E. cbn in E. lia. }
  cbn [read_fields]. rewrite <- E, read_field_put by done. cbn [mbind option_bind]. by rewrite IH by (done || lia).
Qed.

(** ** Text *)

Definition byte_text (l : list byte) : string := String.string_of_list_byte l.

(** ** What the fields of a message put on the wire *)

(** [value as u64] of an [i32], and back. *)
Definition i32_as_u64 (v : Z) : N := Z.to_N (v mod 18446744073709551616).
Definition u64_as_i32 (v : N) : Z :=
  let low := (Z.of_N v mod 4294967296)%Z in if (low <? 2147483648)%Z then low else (low - 4294967296)%Z.

Definition field_values (f : Field) : list WireValue :=
  match f with
  | FUint64 _ v => if (v =? 0)%N then [] else [WVarint v]
  | FOptUint64 _ o => match o with Some v => [WVarint v] | None => [] end
  | FPackedUint64 _ l => if bool_decide (l = []) then [] else [WBytes (l ≫= write_varint)]
  | FInt32 _ v => if (v =? 0)%Z then [] else [WVarint (i32_as_u64 v)]
  | FBool _ b => if b then [WVarint 1] else []
  | FString _ s => if bool_decide (s = "") then [] else [WBytes (string_bytes s)]
  | FBytes _ l => if bool_decide (l = []) then [] else [WBytes l]
  | FOptFixed64 _ o => match o with Some v => [W64 v] | None => [] end
  | FMessage _ o => match o with Some body => [WBytes body] | None => [] end
  | FMessages _ l => WBytes <$> l
  end.

Definition field_tag (f : Field) : N :=
  match f with
  | FUint64 t _ | FOptUint64 t _ | FPackedUint64 t _ | FInt32 t _ | FBool t _ | FString t _ | FBytes t _
  | FOptFixed64 t _ | FMessage t _ | FMessages t _ => t
  end.

Definition field_wire (f : Field) : list (N * WireValue) := (fun v => (field_tag f, v)) <$> field_values f.
Definition wire (fields : list Field) : list (N * WireValue) := fields ≫= field_wire.

(** ** Reading a message *)

Definition collect (tag : N) (fs : list (N * WireValue)) : list WireValue :=
  omap (fun f : N * WireValue => if (f.1 =? tag)%N then Some f.2 else None) fs.

Definition wrong_type {A} : result string A := Err "invalid wire type".

Definition get_uint64 (tag : N) (fs : list (N * WireValue)) : result string N :=
  match last (collect tag fs) with None => Ok 0%N | Some (WVarint v) => Ok v | Some _ => wrong_type end.
Definition get_opt_uint64 (tag : N) (fs : list (N * WireValue)) : result string (option N) :=
  match last (collect tag fs) with None => Ok None | Some (WVarint v) => Ok (Some v) | Some _ => wrong_type end.
Definition get_opt_fixed64 (tag : N) (fs : list (N * WireValue)) : result string (option N) :=
  match last (collect tag fs) with None => Ok None | Some (W64 v) => Ok (Some v) | Some _ => wrong_type end.
Definition get_bool (tag : N) (fs : list (N * WireValue)) : result string bool :=
  v ← get_uint64 tag fs; Ok (negb (v =? 0)%N).
Definition get_int32 (tag : N) (fs : list (N * WireValue)) : result string Z :=
  v ← get_uint64 tag fs; Ok (u64_as_i32 v).
Definition get_bytes (tag : N) (fs : list (N * WireValue)) : result string (list byte) :=
  match last (collect tag fs) with None => Ok [] | Some (WBytes l) => Ok l | Some _ => wrong_type end.
Definition get_string (tag : N) (fs : list (N * WireValue)) : result string string :=
  l ← get_bytes tag fs; if utf8 l then Ok (byte_text l) else Err "invalid string value: data is not UTF-8 encoded".

Fixpoint read_varints (fuel : nat) (bytes : list byte) : result string (list N) :=
  match bytes with
  | [] => Ok []
  | _ => match fuel with
         | 0 => Err "invalid varint"
         | S fuel => match read_varint 9 bytes with
                     | None => Err "invalid varint"
                     | Some (v, rest) => vs ← read_varints fuel rest; Ok (v :: vs)
                     end
         end
  end.
Definition get_packed (tag : N) (fs : list (N * WireValue)) : result string (list N) :=
  l ← get_bytes tag fs; read_varints (length l) l.

Section nested.
Context {A : Type} (read : list (N * WireValue) -> result string A).

Definition decode_with (bytes : list byte) : result string A :=
  match read_fields (length bytes) bytes with None => Err "invalid message" | Some fs => read fs end.
Fixpoint decode_each (ws : list WireValue) : result string (list A) :=
  match ws with
  | [] => Ok []
  | WBytes l :: ws => a ← decode_with l; rest ← decode_each ws; Ok (a :: rest)
  | _ :: _ => wrong_type
  end.
Definition get_messages (tag : N) (fs : list (N * WireValue)) : result string (list A) := decode_each (collect tag fs).
Definition get_message (tag : N) (fs : list (N * WireValue)) : result string (option A) :=
  l ← get_messages tag fs; Ok (last l).
End nested.

Definition LogIdProto_read fs : result string LogIdProto :=
  term ← get_uint64 1 fs; index ← get_uint64 2 fs; Ok (mkLogIdProto term index).
Definition HardStateProto_read fs : result string HardStateProto :=
  t ← get_uint64 1 fs; v ← get_opt_uint64 2 fs; c ← get_message LogIdProto_read 3 fs; Ok (mkHardStateProto t v c).
Definition MembershipProto_read fs : result string MembershipProto :=
  g ← get_uint64 1 fs; v ← get_packed 2 fs; l ← get_packed 3 fs; w ← get_packed 4 fs; e ← get_uint64 5 fs;
  Ok (mkMembershipProto g v l w e).
Definition LogEntryProto_read fs : result string LogEntryProto :=
  i ← get_message LogIdProto_read 1 fs; p ← get_bytes 2 fs; c ← get_bool 3 fs; Ok (mkLogEntryProto i p c).
Definition ApplySnapshotFenceProto_read fs : result string ApplySnapshotFenceProto :=
  a ← get_uint64 1 fs; c ← get_uint64 2 fs; i ← get_uint64 3 fs; f ← get_uint64 4 fs;
  Ok (mkApplySnapshotFenceProto a c i f).
Definition PeerProto_read fs : result string PeerProto :=
  n ← get_uint64 1 fs; r ← get_string 2 fs; s ← get_string 3 fs; k ← get_int32 4 fs; a ← get_bool 5 fs;
  Ok (mkPeerProto n r s k a).
Definition SnapshotMetadataProto_read fs : result string SnapshotMetadataProto :=
  i ← get_string 1 fs; l ← get_message LogIdProto_read 2 fs; m ← get_packed 3 fs;
  p ← get_messages PeerProto_read 4 fs; b ← get_uint64 5 fs; Ok (mkSnapshotMetadataProto i l m p b).
Definition WalRecordProto_read fs : result string WalRecordProto :=
  g ← get_uint64 1 fs; n ← get_uint64 2 fs; h ← get_message HardStateProto_read 3 fs;
  m ← get_message MembershipProto_read 4 fs; e ← get_messages LogEntryProto_read 5 fs; d ← get_bool 6 fs;
  s ← get_message SnapshotMetadataProto_read 7 fs; f ← get_message ApplySnapshotFenceProto_read 8 fs;
  c ← get_string 9 fs; k ← get_opt_fixed64 10 fs; Ok (mkWalRecordProto g n h m e d s f c k).
Definition CheckpointProto_read fs : result string CheckpointProto :=
  g ← get_uint64 1 fs; m ← get_message SnapshotMetadataProto_read 2 fs; p ← get_bytes 3 fs;
  Ok (mkCheckpointProto g m p).
Definition DescriptorProto_read fs : result string DescriptorProto :=
  s ← get_string 1 fs; g ← get_uint64 2 fs; l ← get_message LogIdProto_read 3 fs; Ok (mkDescriptorProto s g l).
Definition LogProto_read fs : result string LogProto :=
  e ← get_messages LogEntryProto_read 1 fs; Ok (mkLogProto e).

(** ** The library *)

Definition write_packed (tag : N) (l : list N) : list byte :=
  if bool_decide (l = []) then [] else put (tag, WBytes (l ≫= write_varint)).

#[export] Instance protobuf : Prost := {
  encode_varint := write_varint;
  encoded_len_varint v := length (write_varint v);
  encode_key := write_key;
  key_len tag := length (write_key tag Varint);
  uint64_encode tag v := put (tag, WVarint v);
  uint64_encoded_len tag v := length (put (tag, WVarint v));
  uint64_encode_packed := write_packed;
  uint64_encoded_len_packed tag l := length (write_packed tag l);
  int32_encode tag v := put (tag, WVarint (i32_as_u64 v));
  int32_encoded_len tag v := length (put (tag, WVarint (i32_as_u64 v)));
  bool_encode tag b := put (tag, WVarint (if b then 1 else 0));
  bool_encoded_len tag b := length (put (tag, WVarint (if b then 1 else 0)));
  string_encode tag s := put (tag, WBytes (string_bytes s));
  string_encoded_len tag s := length (put (tag, WBytes (string_bytes s)));
  fixed64_encode tag v := put (tag, W64 v);
  fixed64_encoded_len tag v := length (put (tag, W64 v));
  message_encode fields := put_all (wire fields);
  WalRecordProto_decode := decode_with WalRecordProto_read;
  CheckpointProto_decode := decode_with CheckpointProto_read;
  DescriptorProto_decode := decode_with DescriptorProto_read;
  LogProto_decode := decode_with LogProto_read;
  is_str s := utf8 (string_bytes s) = true
}.

(** ** It satisfies the laws *)

Lemma key_length tag w : length (write_key tag Varint) = length (write_key tag w).
Proof.
  unfold write_key, write_varint. cbn [varint wire_code].
  assert (forall c, (c < 8)%N -> ((8 * tag + c) / 128 = tag / 16)%N) as Hdiv.
  { intros c Hc. change 128%N with (8 * 16)%N. rewrite <- N.Div0.div_div, (N.mul_comm 8 tag), N.add_comm,
      N.div_add, (N.div_small c 8) by lia. done. }
  destruct w; cbn [wire_code]; rewrite !(Hdiv _) by lia;
    repeat match goal with |- context [(?a <? 128)%N] => lazymatch a with (8 * tag + _)%N => destruct (N.ltb_spec a 128) end end;
    try done; lia.
Qed.

Lemma put_all_app a b : put_all (a ++ b) = put_all a ++ put_all b.
Proof. apply bind_app. Qed.

Lemma field_encode_wire f : field_encode f = put_all (field_wire f).
Proof.
  destruct f as [t v|t [v|]|t l|t v|t []|t s|t l|t [v|]|t [b|]|t l]; unfold field_wire, put_all; cbn -[put write_varint];
    rewrite ?app_nil_r; try done.
  - destruct (v =? 0)%N; [done|]. cbn -[put]. by rewrite app_nil_r.
  - unfold write_packed. case_bool_decide; [done|]. cbn -[put write_varint]. by rewrite app_nil_r.
  - destruct (v =? 0)%Z; [done|]. cbn -[put]. by rewrite app_nil_r.
  - case_bool_decide; [done|]. cbn -[put]. by rewrite app_nil_r.
  - case_bool_decide; [done|]. cbn -[put]. by rewrite app_nil_r.
  - induction l as [|x l IH]; [done|]. cbn -[put write_varint]. f_equal. exact IH.
Qed.

Lemma message_encode_wire fields : put_all (wire fields) = fields ≫= field_encode.
Proof.
  induction fields as [|f fields IH]; [done|]. unfold wire in *. cbn [mbind list_bind].
  rewrite put_all_app, field_encode_wire. f_equal. exact IH.
Qed.

(** The value of a wire field that is a number is a [u64]. *)
Definition num_ok (w : WireValue) : Prop := match w with WVarint v | W64 v => u64 v | WBytes _ => True end.
Definition field_ok (f : Field) : Prop := tag_ok (field_tag f) /\ Forall num_ok (field_values f).

Lemma sub_fits fs t l : (t, WBytes l) ∈ fs -> fits (put_all fs) -> fits l.
Proof.
  intros (a & b & ->)%list_elem_of_split. rewrite put_all_app. unfold put_all at 2. cbn [mbind list_bind].
  unfold fits, u64. rewrite !length_app. unfold put. cbn [fst snd]. rewrite !length_app. lia.
Qed.

Lemma wire_elem fields t w : (t, w) ∈ wire fields <-> exists f, f ∈ fields /\ t = field_tag f /\ w ∈ field_values f.
Proof.
  unfold wire, field_wire. rewrite list_elem_of_bind. split.
  - intros (f & (w' & [= -> ->] & Hw)%list_elem_of_fmap & Hf). eauto.
  - intros (f & Hf & -> & Hw). exists f. split; [|done]. apply list_elem_of_fmap. eauto.
Qed.

Lemma read_fields_wire fields : Forall field_ok fields -> fits (put_all (wire fields)) ->
  read_fields (length (put_all (wire fields))) (put_all (wire fields)) = Some (wire fields).
Proof.
  intros Hok Hfits. apply read_fields_put; [|done]. apply Forall_forall. intros [t w] Hin.
  pose proof Hin as (f & Hf & -> & Hw)%wire_elem. apply (proj1 (Forall_forall _ _) Hok) in Hf as [Ht Hn].
  split; [done|]. apply (proj1 (Forall_forall _ _) Hn) in Hw. destruct w; cbn in *; [done..|]. by eapply sub_fits.
Qed.

Lemma collect_app t a b : collect t (a ++ b) = collect t a ++ collect t b.
Proof. apply omap_app. Qed.

Lemma collect_field t f : collect t (field_wire f) = if (field_tag f =? t)%N then field_values f else [].
Proof.
  unfold collect, field_wire. induction (field_values f) as [|w ws IH]; [by destruct (_ =? t)%N|].
  cbn. destruct (field_tag f =? t)%N; cbn in *; by rewrite IH.
Qed.

Lemma collect_wire fields f : NoDup (field_tag <$> fields) -> f ∈ fields ->
  collect (field_tag f) (wire fields) = field_values f.
Proof.
  induction fields as [|g fields IH]; intros Hnd Hin; [by apply not_elem_of_nil in Hin|].
  unfold wire. cbn [mbind list_bind]. rewrite collect_app, collect_field.
  apply NoDup_cons in Hnd as [Hg Hnd]. apply elem_of_cons in Hin as [-> |Hin].
  - rewrite N.eqb_refl. rewrite <- (app_nil_r (field_values g)) at 2. f_equal.
    clear IH Hnd. induction fields as [|h fields IH]; [done|]. cbn [mbind list_bind].
    rewrite collect_app, collect_field. apply not_elem_of_cons in Hg as [Hne Hg].
    destruct (N.eqb_spec (field_tag h) (field_tag g)); [congruence|]. exact (IH Hg).
  - destruct (N.eqb_spec (field_tag g) (field_tag f)) as [E|]; [|exact (IH Hnd Hin)].
    destruct Hg. rewrite E. apply list_elem_of_fmap. eauto.
Qed.

(** Each getter gives back the value of the field with its tag. *)
Section getters.
Context (fields : list Field) (Hnd : NoDup (field_tag <$> fields)).

Lemma get_uint64_field t v : FUint64 t v ∈ fields -> get_uint64 t (wire fields) = Ok v.
Proof. intros Hf%collect_wire; [|done]. cbn in Hf. unfold get_uint64. rewrite Hf. destruct (N.eqb_spec v 0); by subst. Qed.

Lemma get_opt_uint64_field t o : FOptUint64 t o ∈ fields -> get_opt_uint64 t (wire fields) = Ok o.
Proof. intros Hf%collect_wire; [|done]. cbn in Hf. unfold get_opt_uint64. rewrite Hf. by destruct o. Qed.

Lemma get_opt_fixed64_field t o : FOptFixed64 t o ∈ fields -> get_opt_fixed64 t (wire fields) = Ok o.
Proof. intros Hf%collect_wire; [|done]. cbn in Hf. unfold get_opt_fixed64. rewrite Hf. by destruct o. Qed.

Lemma get_bool_field t b : FBool t b ∈ fields -> get_bool t (wire fields) = Ok b.
Proof. intros Hf%collect_wire; [|done]. cbn in Hf. unfold get_bool, get_uint64. rewrite Hf. by destruct b. Qed.

Lemma get_int32_field t v : (0 <= v < 2147483648)%Z -> FInt32 t v ∈ fields -> get_int32 t (wire fields) = Ok v.
Proof.
  intros Hv Hf%collect_wire; [|done]. cbn in Hf. unfold get_int32, get_uint64. rewrite Hf.
  destruct (Z.eqb_spec v 0); [by subst|]. cbn [last mbind result_bind]. f_equal. unfold u64_as_i32, i32_as_u64.
  rewrite (Z.mod_small v), Z2N.id, Z.mod_small by lia. destruct (Z.ltb_spec v 2147483648); lia.
Qed.

Lemma get_bytes_field t l : FBytes t l ∈ fields -> get_bytes t (wire fields) = Ok l.
Proof. intros Hf%collect_wire; [|done]. cbn in Hf. unfold get_bytes. rewrite Hf. by case_bool_decide; subst. Qed.

Lemma get_string_field t s : is_str s -> FString t s ∈ fields -> get_string t (wire fields) = Ok s.
Proof.
  intros Hs Hf%collect_wire; [|done]. cbn in Hf, Hs. unfold get_string, get_bytes. rewrite Hf.
  case_bool_decide; subst; [done|]. cbn -[utf8 byte_text]. rewrite Hs. f_equal. apply String.string_of_list_byte_of_string.
Qed.

Lemma read_varints_app l fuel : Forall u64 l -> length (l ≫= write_varint) <= fuel ->
  read_varints fuel (l ≫= write_varint) = Ok l.
Proof.
  revert fuel. induction l as [|v l IH]; intros fuel Hok Hf; [by destruct fuel|].
  apply Forall_cons in Hok as [Hv Hok]. cbn [mbind list_bind] in *. rewrite length_app in Hf.
  destruct (varint_cons 9 v) as (b & r & E). change (varint 9 v) with (write_varint v) in E.
  rewrite E in Hf. cbn [length] in Hf. destruct fuel as [|fuel]; [lia|].
  rewrite E. cbn [app read_varints]. rewrite app_comm_cons, <- E, read_write_varint by done.
  rewrite IH by (done || lia). done.
Qed.

Lemma get_packed_field t l : Forall u64 l -> FPackedUint64 t l ∈ fields -> get_packed t (wire fields) = Ok l.
Proof.
  intros Hl Hf%collect_wire; [|done]. cbn in Hf. unfold get_packed, get_bytes. rewrite Hf.
  case_bool_decide; subst; [done|]. cbn [last mbind result_bind]. by apply read_varints_app.
Qed.

(** A nested message, read by a reader that gives its messages back. *)
Definition reads {A} (read : list (N * WireValue) -> result string A) (to : A -> list Field) (ok : A -> Prop) : Prop :=
  forall m, ok m -> fits (put_all (wire (to m))) -> decode_with read (put_all (wire (to m))) = Ok m.

Lemma get_messages_field {A} read (to : A -> list Field) ok t l :
  reads read to ok -> Forall ok l -> fits (put_all (wire fields)) ->
  FMessages t ((fun m => put_all (wire (to m))) <$> l) ∈ fields -> get_messages read t (wire fields) = Ok l.
Proof.
  intros Hread Hok Hfits Hin. pose proof (collect_wire _ _ Hnd Hin) as Hc. cbn [field_tag] in Hc.
  unfold get_messages. rewrite Hc.
  assert (forall m, m ∈ l -> fits (put_all (wire (to m)))) as Hsub.
  { intros m Hm. eapply (sub_fits _ t); [|done]. apply wire_elem. eexists. split; [done|]. split; [done|]. cbn.
    do 2 (apply list_elem_of_fmap; eexists; split; [done|]). done. }
  clear Hin Hc. cbn [field_values]. induction l as [|m l IH]; [done|]. apply Forall_cons in Hok as [Hm Hok].
  cbn. rewrite Hread by (done || (apply Hsub, list_elem_of_here)). cbn. rewrite IH; [done..|]. intros x Hx. by apply Hsub, list_elem_of_further.
Qed.

Lemma get_message_field {A} read (to : A -> list Field) ok t o :
  reads read to ok -> opt_ok ok o -> fits (put_all (wire fields)) ->
  FMessage t ((fun m => put_all (wire (to m))) <$> o) ∈ fields -> get_message read t (wire fields) = Ok o.
Proof.
  intros Hread Hok Hfits Hin. pose proof (collect_wire _ _ Hnd Hin) as Hc. cbn [field_tag] in Hc.
  unfold get_message, get_messages. rewrite Hc. destruct o as [m|]; [|done]. cbn.
  rewrite Hread; [done|done|]. eapply (sub_fits _ t); [|done]. apply wire_elem. eexists. split; [done|].
  split; [done|]. cbn. apply list_elem_of_here.
Qed.
End getters.

(** The readers of the messages. The fields of each have distinct tags, and the
    numbers in them are [u64]s. *)
Ltac field_in := first [apply list_elem_of_here | apply list_elem_of_further; field_in].
Ltac nums := repeat (apply Forall_cons; split);
  [split; [done|]; unfold field_values;
   repeat first [case_match | case_bool_decide]; repeat (apply Forall_cons; split); try done..|apply Forall_nil; done].

Create HintDb readers.
Ltac reader :=
  match goal with
  | Hnd : NoDup (field_tag <$> _) |- context [get_uint64 ?t (wire _)] =>
      erewrite (get_uint64_field _ Hnd t) by field_in
  | Hnd : NoDup (field_tag <$> _) |- context [get_opt_uint64 ?t (wire _)] =>
      erewrite (get_opt_uint64_field _ Hnd t) by field_in
  | Hnd : NoDup (field_tag <$> _) |- context [get_opt_fixed64 ?t (wire _)] =>
      erewrite (get_opt_fixed64_field _ Hnd t) by field_in
  | Hnd : NoDup (field_tag <$> _) |- context [get_bool ?t (wire _)] => erewrite (get_bool_field _ Hnd t) by field_in
  | Hnd : NoDup (field_tag <$> _) |- context [get_bytes ?t (wire _)] => erewrite (get_bytes_field _ Hnd t) by field_in
  | Hnd : NoDup (field_tag <$> _) |- context [get_int32 ?t (wire _)] =>
      erewrite (get_int32_field _ Hnd t); [|shelve|field_in]
  | Hnd : NoDup (field_tag <$> _) |- context [get_string ?t (wire _)] =>
      erewrite (get_string_field _ Hnd t); [|shelve|field_in]
  | Hnd : NoDup (field_tag <$> _) |- context [get_packed ?t (wire _)] =>
      erewrite (get_packed_field _ Hnd t); [|shelve|field_in]
  | Hnd : NoDup (field_tag <$> _) |- context [get_message ?r ?t (wire _)] =>
      erewrite (get_message_field _ Hnd r _ _ t); [|solve [eauto with readers]|shelve|done|field_in]
  | Hnd : NoDup (field_tag <$> _) |- context [get_messages ?r ?t (wire _)] =>
      erewrite (get_messages_field _ Hnd r _ _ t); [|solve [eauto with readers]|shelve|done|field_in]
  end.
(** Reading back a message [m] with the field list [to]. *)
Ltac reads_back to read :=
  let m := fresh "m" in let Hok := fresh "Hok" in let Hfits := fresh "Hfits" in let Hnd := fresh "Hnd" in
  intros m Hok Hfits; unfold decode_with; rewrite read_fields_wire; [| |done];
  [assert (NoDup (field_tag <$> to m)) as Hnd by (apply (bool_decide_unpack _); vm_compute; exact I);
   unfold read; unshelve (repeat (reader; cbn [mbind result_bind])); [..|by destruct m]
  |]; first [red in Hok | cbv beta in Hok]; destruct_and?.

Lemma LogIdProto_reads : reads LogIdProto_read LogIdProto_fields LogIdProto_ok.
Proof. reads_back LogIdProto_fields LogIdProto_read. nums. Qed.
#[local] Hint Resolve LogIdProto_reads : readers.

Lemma HardStateProto_reads : reads HardStateProto_read HardStateProto_fields HardStateProto_ok.
Proof. reads_back HardStateProto_fields HardStateProto_read. all: try done. nums. Qed.
#[local] Hint Resolve HardStateProto_reads : readers.

Lemma MembershipProto_reads : reads MembershipProto_read MembershipProto_fields MembershipProto_ok.
Proof. reads_back MembershipProto_fields MembershipProto_read. all: try done. nums. Qed.
#[local] Hint Resolve MembershipProto_reads : readers.

Lemma LogEntryProto_reads : reads LogEntryProto_read LogEntryProto_fields LogEntryProto_ok.
Proof. reads_back LogEntryProto_fields LogEntryProto_read. all: try done. nums. Qed.
#[local] Hint Resolve LogEntryProto_reads : readers.

Lemma ApplySnapshotFenceProto_reads :
  reads ApplySnapshotFenceProto_read ApplySnapshotFenceProto_fields ApplySnapshotFenceProto_ok.
Proof. reads_back ApplySnapshotFenceProto_fields ApplySnapshotFenceProto_read. nums. Qed.
#[local] Hint Resolve ApplySnapshotFenceProto_reads : readers.

Lemma i32_as_u64_ok v : (0 <= v < 2147483648)%Z -> u64 (i32_as_u64 v).
Proof. intros Hv. unfold i32_as_u64, u64, u64_max. rewrite Z.mod_small by lia. lia. Qed.

Lemma PeerProto_reads : reads PeerProto_read PeerProto_fields PeerProto_ok.
Proof. reads_back PeerProto_fields PeerProto_read. all: try done. nums. by apply i32_as_u64_ok. Qed.
#[local] Hint Resolve PeerProto_reads : readers.

Lemma bytes_nums l : Forall num_ok (WBytes <$> l).
Proof. apply Forall_fmap, Forall_true. done. Qed.

Lemma SnapshotMetadataProto_reads :
  reads SnapshotMetadataProto_read SnapshotMetadataProto_fields SnapshotMetadataProto_ok.
Proof.
  reads_back SnapshotMetadataProto_fields SnapshotMetadataProto_read. all: try done. nums. apply bytes_nums.
Qed.
#[local] Hint Resolve SnapshotMetadataProto_reads : readers.

Lemma WalRecordProto_reads : reads WalRecordProto_read WalRecordProto_fields WalRecordProto_ok.
Proof.
  reads_back WalRecordProto_fields WalRecordProto_read. all: try done. nums. apply bytes_nums.
Qed.
Lemma CheckpointProto_reads : reads CheckpointProto_read CheckpointProto_fields
  (fun m => u64 (cp_group_id m) /\ opt_ok SnapshotMetadataProto_ok (cp_meta m)).
Proof. reads_back CheckpointProto_fields CheckpointProto_read. all: try done. nums. Qed.
Lemma DescriptorProto_reads : reads DescriptorProto_read DescriptorProto_fields
  (fun m => is_str (dp_snapshot_id m) /\ u64 (dp_group_id m) /\ opt_ok LogIdProto_ok (dp_last_log_id m)).
Proof. reads_back DescriptorProto_fields DescriptorProto_read. all: try done. nums. Qed.
Lemma LogProto_reads : reads LogProto_read LogProto_fields (fun m => Forall LogEntryProto_ok (lp_entries m)).
Proof. reads_back LogProto_fields LogProto_read. all: try done. nums. apply bytes_nums. Qed.

#[export] Instance protobuf_laws : ProstLaws.
Proof.
  split; try done.
  - apply key_length.
  - intros fields. apply message_encode_wire.
  - apply WalRecordProto_reads.
  - intros m H1 H2. by apply CheckpointProto_reads.
  - intros m H1 H2 H3. by apply DescriptorProto_reads.
  - apply LogProto_reads.
Qed.

(** ** The binary log over this library *)

Definition sample_record : WalRecord :=
  mkWalRecord 9 2 (mkHardState 3 (Some 1%N) (Some (mkLogId 3 4))) (mkMembership 9 [1; 2; 3]%N [] [300%N] 5)
    [mkLogEntry (mkLogId 2 3) [] false; mkLogEntry (mkLogId 3 4) [x00; xff] true] true
    (Some (mkSnapshotMetadata "snap" (mkLogId 2 2) [1; 2; 3]%N [mkPeer 2 "h:1" "" Learner true] 7))
    (mkApplySnapshotFence 4 4 2 3) "00000000000000ff".
Definition sample_frame : list byte := match encode_framed sample_record with Ok f => f | Err _ => [] end.

Lemma sample_record_ok : record_ok sample_record.
Proof. unfold record_ok, WalRecordProto_ok. cbn. unfold HardStateProto_ok, MembershipProto_ok, SnapshotMetadataProto_ok,
    ApplySnapshotFenceProto_ok, LogEntryProto_ok, PeerProto_ok, LogIdProto_ok, u64, u64_max; cbn.
  repeat (split || apply Forall_cons || apply Forall_nil); cbn; lia || done. Qed.

Lemma direct_encoding_is_derived_witness :
  length (encode_wal_record sample_record (Some 255%N)) = wal_record_encoded_len sample_record (Some 255%N).
Proof. exact (proj2 (direct_encoding_is_derived sample_record)). Defined.

(** The body of the frame with its third byte struck. *)
Definition sample_damaged : list byte := <[2 := x55]> (drop FRAME_BYTES sample_frame).

Lemma damaged_frame_is_not_read_witness :
  last_or_refused [x01] (decode_framed (take FRAME_BYTES sample_frame ++ sample_damaged ++ [x01]) Crc32c).
Proof.
  apply (damaged_frame_is_not_read sample_record sample_frame sample_damaged
    (N.shiftr (N.lxor (from_le_bytes (drop FRAME_BYTES sample_frame)) (from_le_bytes sample_damaged)) 16) 16).
  - reflexivity.
  - unfold sample_damaged. apply length_insert.
  - vm_compute. reflexivity.
  - vm_compute. split; reflexivity.
  - vm_compute. intros [=].
Defined.

Definition sample_snapshot : RaftSnapshot :=
  mkRaftSnapshot 9 (mkSnapshotMetadata "s-2" (mkLogId 2 2) [1; 2]%N [mkPeer 2 "h:1" "h:2" Witness false] 3) [x0a; x0b; x0c].

Lemma checkpoint_round_trip_witness :
  decode_checkpoint (match encode_checkpoint sample_snapshot with Ok bytes => bytes | Err _ => [] end) = Ok sample_snapshot.
Proof.
  apply (checkpoint_round_trip sample_snapshot); [|reflexivity].
  unfold snapshot_ok, SnapshotMetadataProto_ok, PeerProto_ok, LogIdProto_ok, u64, u64_max. cbn.
  repeat (split || apply Forall_cons || apply Forall_nil); cbn; lia || done.
Defined.
