(* ===== verification/WalStore.v ===== *)
(** * The write-ahead log on disk

    Models [PersistentRaftWal] of [src/facade/wal_runtime.rs]: a directory of
    segment files, opened by one writer at a time, appended to, rolled, recovered
    and compacted.

    The disk is a map from a segment's number to its file: the bytes written, and
    how many of them were on stable storage at the last [sync_data]. A crash cuts
    a file anywhere between the two ([crashed]). File sizes are what the operating
    system counts (below 2^63), so their sums are exact. A failing read, write,
    [fsync] or lock call is not modelled: system calls succeed, except that a
    missing file cannot be read and a held lock cannot be taken.

    Parameters: the protobuf library ([Prost]), the JSON reader of the segments
    written before the frames ([json_record], [serde_json]), and how long the
    n-th fsync takes ([fsync_elapsed]). *)

From stdpp Require Import base strings pretty numbers sorting gmap list.
From Stdlib Require Import Strings.Byte.
From S2P Require Import Prelude Types Slice Bytes Membership Node Wal WalSegments WalBinary.

(** ** The directory *)

Record SegmentFile := mkSegmentFile { sf_bytes : list byte; sf_synced : nat }.
#[export] Instance eta_SegmentFile : Settable SegmentFile := fun f => mkSegmentFile (sf_bytes f) (sf_synced f).

Record Disk := mkDisk { dk_files : gmap N SegmentFile; dk_locked : bool }.
#[export] Instance eta_Disk : Settable Disk := fun d => mkDisk (dk_files d) (dk_locked d).

Definition file_bytes (segment_id : N) (d : Disk) : list byte := default [] (sf_bytes <$> dk_files d !! segment_id).
(** [fs::metadata(..).len()], zero when there is no file. *)
Definition file_len (segment_id : N) (d : Disk) : N := N.of_nat (length (file_bytes segment_id d)).

Definition on_files (f : gmap N SegmentFile -> gmap N SegmentFile) : ST RaftError Disk unit :=
  modify (fun d => d <| dk_files ::= f |>).
(** [File::create]: a new or truncated file. *)
Definition create_file (segment_id : N) : ST RaftError Disk unit := on_files <[segment_id := mkSegmentFile [] 0]>.
Definition write_all (segment_id : N) (bytes : list byte) : ST RaftError Disk unit :=
  on_files (alter (fun f => mkSegmentFile (sf_bytes f ++ bytes) (sf_synced f)) segment_id).
Definition sync_data (segment_id : N) : ST RaftError Disk unit :=
  on_files (alter (fun f => mkSegmentFile (sf_bytes f) (length (sf_bytes f))) segment_id).
Definition set_len (segment_id : N) (len : nat) : ST RaftError Disk unit :=
  on_files (alter (fun f => mkSegmentFile (take len (sf_bytes f)) (Nat.min len (sf_synced f))) segment_id).
Definition remove_file (segment_id : N) : ST RaftError Disk unit := on_files (delete segment_id).
Definition read_file (segment_id : N) (context : string) : ST RaftError Disk (list byte) :=
  d ← gets dk_files;
  match d !! segment_id with
  | Some f => mret (sf_bytes f)
  | None => fail (StorageErr (context ++s ": No such file or directory (os error 2)"))
  end.

(** The segment numbers of the directory, sorted. *)
Definition segment_ids (d : Disk) : list N := merge_sort N.le (fst <$> map_to_list (dk_files d)).

(** A crash: each file keeps what was synced and a prefix of what was not; the
    lock is released with its holder. *)
Definition crashed (d d' : Disk) : Prop :=
  dk_locked d' = false /\ dom (dk_files d') = dom (dk_files d)
  /\ forall id f f', dk_files d !! id = Some f -> dk_files d' !! id = Some f' ->
       exists k, sf_synced f <= k <= length (sf_bytes f) /\ f' = mkSegmentFile (take k (sf_bytes f)) k.

(** ** Options and state *)

Record PersistentRaftWalOptions := mkPersistentRaftWalOptions {
  pwo_dir : string;
  pwo_max_records_per_segment : nat;
  pwo_max_segment_bytes : N;
  pwo_min_keep_segments : nat;
  pwo_fsync_on_append : bool
}.

Definition options_new (dir : string) : PersistentRaftWalOptions :=
  mkPersistentRaftWalOptions dir (N.to_nat 1000) 67108864 2 true.

Definition options_validate (o : PersistentRaftWalOptions) : Result unit :=
  if (pwo_max_records_per_segment o =? 0)%nat
  then Err (InvalidRequest "max_records_per_segment must be greater than zero")
  else if (pwo_max_segment_bytes o =? 0)%N
  then Err (InvalidRequest "max_segment_bytes must be greater than zero")
  else if (pwo_min_keep_segments o =? 0)%nat
  then Err (InvalidRequest "min_keep_segments must be greater than zero")
  else Ok tt.

Definition Coverage : Type := option (LogIndex * LogIndex * Term).

Record PersistentRaftWal := mkPersistentRaftWal {
  prw_options : PersistentRaftWalOptions;
  prw_segments : list WalSegment;
  (** The open file, by the segment it is. *)
  prw_active_segment : N;
  prw_next_segment_id : N;
  prw_released_segment_count : N;
  prw_truncated_corrupt_tail : bool;
  prw_slow_fsync_threshold_ms : N;
  prw_slow_fsync_count : N;
  prw_consecutive_slow_fsync_count : N;
  prw_max_fsync_elapsed_ms : N;
  prw_compacted_after_slow_fsync_count : N;
  prw_inject_next_fsync_delay_ms : option N;
  prw_fsync_count : N;
  prw_expected_active_len : option N;
  prw_active_covered : Coverage
}.
#[export] Instance eta_PersistentRaftWal : Settable PersistentRaftWal :=
  fun w => mkPersistentRaftWal (prw_options w) (prw_segments w) (prw_active_segment w) (prw_next_segment_id w)
    (prw_released_segment_count w) (prw_truncated_corrupt_tail w) (prw_slow_fsync_threshold_ms w)
    (prw_slow_fsync_count w) (prw_consecutive_slow_fsync_count w) (prw_max_fsync_elapsed_ms w)
    (prw_compacted_after_slow_fsync_count w) (prw_inject_next_fsync_delay_ms w) (prw_fsync_count w)
    (prw_expected_active_len w) (prw_active_covered w).

Record Store := mkStore { st_disk : Disk; st_wal : PersistentRaftWal }.
#[export] Instance eta_Store : Settable Store := fun s => mkStore (st_disk s) (st_wal s).

Definition on_disk {A} (m : ST RaftError Disk A) : ST RaftError Store A :=
  fun s => let '(r, d) := m (st_disk s) in (r, s <| st_disk := d |>).
Definition wal {A} (f : PersistentRaftWal -> A) : ST RaftError Store A := gets (fun s => f (st_wal s)).
Definition set_wal (f : PersistentRaftWal -> PersistentRaftWal) : ST RaftError Store unit :=
  modify (fun s => s <| st_wal ::= f |>).

(** The writer's lock on the directory. *)
Definition lock_wal_directory (dir : string) : ST RaftError Disk unit :=
  locked ← gets dk_locked;
  if locked : bool
  then fail (StorageErr ("WAL directory " ++s dir ++s " is already open for writing by another handle; its lock file "
                         ++s dir ++s "/LOCK is held"))
  else modify (fun d => d <| dk_locked := true |>).
(** The handle is dropped. *)
Definition unlock : ST RaftError Disk unit := modify (fun d => d <| dk_locked := false |>).

Section wal_store.
Context `{Prost}.
Context (json_record : list byte -> option WalRecord) (fsync_elapsed : N -> N).

(** ** Reading a segment *)

(** [bytes.split(..)] on the newline. *)
Fixpoint split_lines (bytes : list byte) : list (list byte) :=
  match bytes with
  | [] => [[]]
  | b :: rest =>
      if Byte.eqb b x0a then [] :: split_lines rest
      else match split_lines rest with
           | line :: lines => (b :: line) :: lines
           | [] => [[b]]
           end
  end.

(** The loop of the legacy reader: the records, where they end, and whether it
    stopped early. *)
Fixpoint legacy_loop (lines : list (list byte)) (current_offset valid_end_offset : nat)
    : list WalRecord * nat * bool :=
  match lines with
  | [] => ([], valid_end_offset, false)
  | line :: lines =>
      let current_offset := current_offset + length line + 1 in
      if bool_decide (line = []) then legacy_loop lines current_offset current_offset
      else match json_record line with
           | None => ([], valid_end_offset, true)
           | Some record =>
               if negb (matrixraft_wal_checksum_valid record) then ([], valid_end_offset, true)
               else let '(records, end_, truncated) := legacy_loop lines current_offset current_offset in
                    (record :: records, end_, truncated)
           end
  end.

Definition truncate_wal_segment (segment_id : N) (valid_end_offset : nat) : ST RaftError Disk unit :=
  _ ← set_len segment_id valid_end_offset; sync_data segment_id.

Definition read_legacy_json_segment (segment_id : N) (bytes : list byte) : ST RaftError Disk (list WalRecord * bool) :=
  let '(records, valid_end_offset, truncated) := legacy_loop (split_lines bytes) 0 0 in
  _ ← (if truncated : bool then truncate_wal_segment segment_id valid_end_offset else mret tt);
  mret (records, truncated).

(** The loop of the framed reader. A frame is at least its header, so as many
    steps as there are bytes are enough. *)
Fixpoint frame_loop (fuel : nat) (digest_kind : FrameDigest) (rest : list byte) (valid_end_offset : nat)
    : Result (list WalRecord * nat * bool) :=
  match rest, fuel with
  | [], _ | _, 0 => Ok ([], valid_end_offset, false)
  | _, S fuel =>
      frame ← decode_framed rest digest_kind;
      match frame with
      | Some (record, used) =>
          if negb (matrixraft_wal_checksum_valid record) then Ok ([], valid_end_offset, true)
          else
            '(records, end_, truncated) ← frame_loop fuel digest_kind (drop used rest) (valid_end_offset + used);
            Ok (record :: records, end_, truncated)
      | None => Ok ([], valid_end_offset, true)
      end
  end.

Definition read_wal_segment_file (segment_id : N) : ST RaftError Disk (list WalRecord * bool * bool) :=
  bytes ← read_file segment_id "failed to open WAL segment";
  match from_segment bytes with
  | None =>
      '(records, truncated) ← read_legacy_json_segment segment_id bytes;
      mret (records, truncated, true)
  | Some digest_kind =>
      let outdated := match digest_kind with Crc32c => false | Fnv1a32 => true end in
      let offset := length SEGMENT_MAGIC in
      let rest := drop offset bytes in
      '(records, valid_end_offset, truncated) ← lift (frame_loop (length rest) digest_kind rest offset);
      _ ← (if truncated : bool then truncate_wal_segment segment_id valid_end_offset else mret tt);
      mret (records, truncated, outdated)
  end.

(** The readers that leave the file as it is. *)
Fixpoint json_lines (lines : list (list byte)) : list WalRecord :=
  match lines with
  | [] => []
  | line :: lines =>
      if bool_decide (line = []) then json_lines lines
      else match json_record line with None => [] | Some record => record :: json_lines lines end
  end.
Fixpoint inspect_frames (fuel : nat) (digest_kind : FrameDigest) (rest : list byte) : Result (list WalRecord) :=
  match rest, fuel with
  | [], _ | _, 0 => Ok []
  | _, S fuel =>
      frame ← decode_framed rest digest_kind;
      match frame with
      | Some (record, used) =>
          records ← inspect_frames fuel digest_kind (drop used rest); Ok (record :: records)
      | None => Ok []
      end
  end.
Definition matrixraft_read_wal_segment_file (segment_id : N) : ST RaftError Disk (list WalRecord) :=
  bytes ← read_file segment_id "failed to read WAL segment";
  match from_segment bytes with
  | None => mret (json_lines (split_lines bytes))
  | Some digest_kind =>
      let rest := drop (length SEGMENT_MAGIC) bytes in lift (inspect_frames (length rest) digest_kind rest)
  end.

Definition write_records (segment_id : N) (records : list WalRecord) : ST RaftError Disk unit :=
  for_each (fun record => encoded ← lift (encode_framed record); write_all segment_id encoded) records.

Definition write_wal_segment_file (segment : WalSegment) : ST RaftError Disk unit :=
  _ ← create_file (ws_segment_id segment);
  _ ← write_all (ws_segment_id segment) SEGMENT_MAGIC;
  _ ← write_records (ws_segment_id segment) (ws_records segment);
  if bool_decide (ws_records segment = []) then mret tt else sync_data (ws_segment_id segment).

Definition matrixraft_write_wal_segment_file (segment_id : N) (records : list WalRecord) : ST RaftError Disk unit :=
  _ ← create_file segment_id;
  _ ← write_all segment_id SEGMENT_MAGIC;
  _ ← write_records segment_id records;
  sync_data segment_id.

Definition index_of (record : option WalRecord) : LogIndex := default 0%N (wal_record_index <$> record).

(** A segment of these records. *)
Definition segment_of (segment_id : N) (records : list WalRecord) (sealed : bool) : WalSegment :=
  mkWalSegment segment_id (index_of (head records)) (index_of (last records)) records
    (N.of_nat (length records)) sealed.

Definition open_segment_for_append (segment_id : N) : ST RaftError Disk N :=
  existing ← gets (file_bytes segment_id);
  _ ← (if (0 <? length existing)%nat && negb (starts_with existing SEGMENT_MAGIC) then
         records ← matrixraft_read_wal_segment_file segment_id;
         write_wal_segment_file (segment_of segment_id records false)
       else mret tt);
  files ← gets dk_files;
  _ ← (if files !! segment_id is Some _ then mret tt else create_file segment_id);
  len ← gets (file_len segment_id);
  _ ← (if (len =? 0)%N then write_all segment_id SEGMENT_MAGIC else mret tt);
  mret segment_id.

Fixpoint read_segments (ids : list N) : ST RaftError Disk (list WalSegment * bool) :=
  match ids with
  | [] => mret ([], false)
  | segment_id :: ids =>
      '(records, truncated, _) ← read_wal_segment_file segment_id;
      '(segments, later) ← read_segments ids;
      mret (segment_of segment_id records (negb (bool_decide (ids = []))) :: segments, truncated || later)
  end.

Definition read_wal_segments_from_dir : ST RaftError Disk (list WalSegment * bool) :=
  ids ← gets segment_ids; read_segments ids.

(** ** What the retained records describe *)

Definition segment_records (segment : WalSegment) : ST RaftError Disk (list WalRecord) :=
  if (ws_record_count segment =? 0)%N || negb (bool_decide (ws_records segment = []))
  then mret (ws_records segment)
  else '(records, _, _) ← read_wal_segment_file (ws_segment_id segment); mret records.

Definition release_sealed_segment_records (segments : list WalSegment) : list WalSegment :=
  (fun segment => if ws_sealed segment && negb (bool_decide (ws_records segment = []))
                  then segment <| ws_records := [] |> else segment) <$> segments.

Definition retained_record_count (w : PersistentRaftWal) : N := record_total (prw_segments w).

Fixpoint fold_segments (entries : list LogEntry) (segments : list WalSegment) : ST RaftError Disk (list LogEntry) :=
  match segments with
  | [] => mret entries
  | segment :: segments =>
      records ← segment_records segment;
      fold_segments (matrixraft_fold_wal_entries_from entries records) segments
  end.

(** The first index, last index and last term of a log. *)
Definition coverage_of (entries : list LogEntry) : Coverage :=
  first ← head entries; last ← last entries;
  Some (entry_index first, entry_index last, entry_term last).

Definition covered_from_segments (segments : list WalSegment) : ST RaftError Disk Coverage :=
  fun d => match fold_segments [] segments d with
           | (Ok entries, d') => (Ok (coverage_of entries), d')
           | (Err _, d') => (Ok None, d')
           end.

Definition advance_active_covered (w : PersistentRaftWal) : PersistentRaftWal :=
  match last (prw_segments w) ≫= (fun s => last (ws_records s)) with
  | None => w <| prw_active_covered := None |>
  | Some record =>
      let last_entry := last (wr_entries record) in
      if wr_entries_are_delta record then
        match prw_active_covered w, last_entry with
        | Some (first_index, _, _), Some e =>
            w <| prw_active_covered := Some (first_index, entry_index e, entry_term e) |>
        | _, _ => w
        end
      else w <| prw_active_covered := coverage_of (wr_entries record) |>
  end.

Definition whole_record (record : WalRecord) : WalRecord :=
  let whole := record <| wr_entries_are_delta := false |> in
  whole <| wr_checksum := matrixraft_wal_checksum whole |>.

Definition delta_record (covered : Coverage) (record : WalRecord) : WalRecord :=
  match covered with
  | None => whole_record record
  | Some (first_index, last_index, last_term) =>
      match matrixraft_wal_delta_base (wr_entries record) first_index last_index last_term with
      | None => whole_record record
      | Some base =>
          let delta := record <| wr_entries := drop base (wr_entries record) |> <| wr_entries_are_delta := true |> in
          delta <| wr_checksum := matrixraft_wal_checksum delta |>
      end
  end.

(** ** Opening *)

Definition seal_all_but (active_id : N) (segments : list WalSegment) : list WalSegment :=
  (fun segment => segment <| ws_sealed := negb (ws_segment_id segment =? active_id)%N |>) <$> segments.
Definition or_empty_segment (segments : list WalSegment) : list WalSegment :=
  match segments with [] => [empty_segment 0] | _ => segments end.

Definition report_of (stored : list WalRecord) (original_len : nat) (segments : list WalSegment) (truncated : bool)
    : WalRecoveryReport :=
  let '(surviving_records, recovered) := matrixraft_recover_from_wal_records stored in
  mkWalRecoveryReport recovered truncated surviving_records (original_len - surviving_records)
    (N.of_nat (length segments)) (Some matrixraft_wal_checksum_format) (Some (wal_retained_range segments)).

(** What [open_inner] does while it holds the lock. *)
Definition open_locked (options : PersistentRaftWalOptions) (want_report : bool)
    : ST RaftError Disk (PersistentRaftWal * option WalRecoveryReport) :=
  '(segments, truncated_corrupt_tail) ← read_wal_segments_from_dir;
  let '(original_len, stored) :=
    if want_report then (N.to_nat (record_total segments), segments ≫= ws_records) else (0, []) in
  let segments := or_empty_segment segments in
  let active_id := segment_id_or_zero (last segments) in
  let segments := seal_all_but active_id segments in
  active_segment ← open_segment_for_append active_id;
  active_covered ← covered_from_segments segments;
  let segments := release_sealed_segment_records segments in
  let wal := mkPersistentRaftWal options segments active_segment (active_id +w 1) 0 truncated_corrupt_tail
               10 0 0 0 0 None 0 None active_covered in
  mret (wal, if want_report then Some (report_of stored original_len segments truncated_corrupt_tail) else None).

Definition open_inner (options : PersistentRaftWalOptions) (want_report : bool)
    : ST RaftError Disk (PersistentRaftWal * option WalRecoveryReport) :=
  _ ← lift (options_validate options);
  _ ← lock_wal_directory (pwo_dir options);
  opened ← catch (open_locked options want_report);
  match opened with
  | Ok result => mret result
  | Err e => _ ← unlock; fail e
  end.

Definition open (options : PersistentRaftWalOptions) : ST RaftError Disk PersistentRaftWal :=
  '(wal, _) ← open_inner options false; mret wal.
Definition open_recovered (options : PersistentRaftWalOptions) : ST RaftError Disk (PersistentRaftWal * WalRecoveryReport) :=
  '(wal, report) ← open_inner options true;
  match report with
  | Some report => mret (wal, report)
  | None => fail (StorageErr "WAL opened without the recovery report it was asked for")
  end.

(** ** Appending *)

Definition fsync_active_segment : ST RaftError Store (N * bool) :=
  w ← gets st_wal;
  let elapsed_ms := (default 0 (prw_inject_next_fsync_delay_ms w) + fsync_elapsed (prw_fsync_count w))%N in
  _ ← on_disk (sync_data (prw_active_segment w));
  let slow := (0 <? prw_slow_fsync_threshold_ms w)%N && (prw_slow_fsync_threshold_ms w <=? elapsed_ms)%N in
  _ ← set_wal (fun w =>
        w <| prw_inject_next_fsync_delay_ms := None |>
          <| prw_fsync_count := prw_fsync_count w +w 1 |>
          <| prw_max_fsync_elapsed_ms := N.max (prw_max_fsync_elapsed_ms w) elapsed_ms |>
          <| prw_slow_fsync_count := if slow then prw_slow_fsync_count w +w 1 else prw_slow_fsync_count w |>
          <| prw_consecutive_slow_fsync_count := if slow then prw_consecutive_slow_fsync_count w +w 1 else 0%N |>);
  mret (elapsed_ms, slow).

Definition roll_segment : ST RaftError Store unit :=
  w ← gets st_wal;
  _ ← (match last (prw_segments w) with
       | Some segment =>
           let segment := segment <| ws_sealed := true |> in
           _ ← set_wal (fun w => w <| prw_segments ::= update_last (fun _ => segment) |>);
           _ ← on_disk (write_wal_segment_file segment);
           set_wal (fun w => w <| prw_segments ::= update_last (fun s => s <| ws_records := [] |>) |>)
       | None => mret tt
       end);
  let segment_id := prw_next_segment_id w in
  _ ← set_wal (fun w => w <| prw_next_segment_id := segment_id +w 1 |>);
  let segment := empty_segment segment_id in
  _ ← on_disk (write_wal_segment_file segment);
  active_segment ← on_disk (open_segment_for_append segment_id);
  set_wal (fun w => w <| prw_active_segment := active_segment |> <| prw_expected_active_len := None |>
                      <| prw_segments ::= fun l => l ++ [segment] |>).

(** The record is pushed on the active segment and the coverage advances. *)
Definition push_active (record : WalRecord) (w : PersistentRaftWal) : PersistentRaftWal :=
  advance_active_covered (w <| prw_segments ::= update_last (push_record record) |>).

(** The second half of [write_record_core]: the frame goes to the active segment,
    which may be synced, and the record is pushed on the segment in memory. *)
Definition write_frame (record : WalRecord) (encoded : list byte) (expected_active_len : option N) (fsync : bool)
    : ST RaftError Store (N * N * bool) :=
  active_segment ← wal prw_active_segment;
  _ ← on_disk (write_all active_segment encoded);
  _ ← set_wal (fun w => w <| prw_expected_active_len := expected_active_len |>);
  '(fsync_elapsed_ms, slow_fsync_observed) ← (if fsync : bool then fsync_active_segment else mret (0%N, false));
  segments ← wal prw_segments;
  match last segments with
  | None => fail (StorageErr "WAL has no active segment")
  | Some segment =>
      _ ← set_wal (push_active record);
      mret (ws_segment_id segment, fsync_elapsed_ms, slow_fsync_observed)
  end.

Definition write_record_core (record : WalRecord) (active_records : nat) (rolling_by_count fsync include_report : bool)
    : ST RaftError Store (option WalWriteReport) :=
  let hard_state_persisted := is_ok (matrixraft_validate_hard_state_persistence record) in
  w ← gets st_wal;
  active_len ← on_disk (gets (file_len (prw_active_segment w)));
  _ ← (match prw_expected_active_len w with
       | Some expected =>
           if negb (active_len =? expected)%N
           then fail (StorageErr ("WAL active segment is " ++s pretty active_len ++s " bytes but this writer left it at "
                        ++s pretty expected ++s ": another writer is using " ++s pwo_dir (prw_options w)))
           else mret tt
       | None => mret tt
       end);
  encoded ← lift (encode_framed record);
  let record_bytes := N.of_nat (length encoded) in
  let segment_rolled := rolling_by_count
    || (0 <? active_records)%nat && (pwo_max_segment_bytes (prw_options w) <? active_len + record_bytes)%N in
  _ ← (if segment_rolled : bool then roll_segment else mret tt);
  '(segment_id, fsync_elapsed_ms, slow_fsync_observed) ←
    write_frame record encoded (if segment_rolled then None else Some (active_len + record_bytes)%N) fsync;
  w ← gets st_wal;
  mret (if include_report
        then Some (mkWalWriteReport segment_id (wal_record_index record) (wr_checksum record)
                     matrixraft_wal_checksum_format record_bytes fsync fsync_elapsed_ms
                     (prw_slow_fsync_threshold_ms w) slow_fsync_observed segment_rolled hard_state_persisted
                     (wal_retained_range (prw_segments w)))
        else None).

Definition write_record (record : WalRecord) (active_records : nat) (rolling_by_count fsync : bool)
    : ST RaftError Store WalWriteReport :=
  report ← write_record_core record active_records rolling_by_count fsync true;
  lift (ok_or report (StorageErr "WAL write report was not constructed")).

Definition active_records (w : PersistentRaftWal) : nat :=
  default 0 ((fun segment => length (ws_records segment)) <$> last (prw_segments w)).
Definition rolling_by_count (w : PersistentRaftWal) : bool :=
  (pwo_max_records_per_segment (prw_options w) <=? active_records w)%nat.

Definition append_with_report (record : WalRecord) : ST RaftError Store WalWriteReport :=
  w ← gets st_wal;
  write_record (delta_record (prw_active_covered w) record) (active_records w) (rolling_by_count w)
    (pwo_fsync_on_append (prw_options w)).
Definition append (record : WalRecord) : ST RaftError Store string :=
  report ← append_with_report record; mret (wwr_checksum report).

Definition append_built (build : Coverage -> Result WalRecord) : ST RaftError Store WalWriteReport :=
  w ← gets st_wal;
  record ← lift (build (prw_active_covered w));
  write_record record (active_records w) (rolling_by_count w) (pwo_fsync_on_append (prw_options w)).
Definition append_built_without_report (build : Coverage -> Result WalRecord) : ST RaftError Store unit :=
  w ← gets st_wal;
  record ← lift (build (prw_active_covered w));
  _ ← write_record_core record (active_records w) (rolling_by_count w) (pwo_fsync_on_append (prw_options w)) false;
  mret tt.

Fixpoint write_batch (records : list WalRecord) : ST RaftError Store (list WalWriteReport) :=
  match records with
  | [] => mret []
  | record :: records =>
      w ← gets st_wal;
      report ← write_record (delta_record (prw_active_covered w) record) (active_records w) (rolling_by_count w) false;
      reports ← write_batch records;
      mret (report :: reports)
  end.

Definition append_batch (records : list WalRecord) : ST RaftError Store (list WalWriteReport) :=
  match records with
  | [] => mret []
  | _ =>
      reports ← write_batch records;
      options ← wal prw_options;
      if pwo_fsync_on_append options then
        '(elapsed_ms, slow) ← fsync_active_segment;
        mret (update_last (fun r => r <| wwr_fsync_on_append := true |> <| wwr_fsync_elapsed_ms := elapsed_ms |>
                                      <| wwr_slow_fsync_observed := slow |>) reports)
      else mret reports
  end.

(** ** Recovery of an open log *)

Definition recover : ST RaftError Store WalRecoveryReport :=
  '(read, truncated_corrupt_tail) ← on_disk read_wal_segments_from_dir;
  original_len ← wal (fun w => N.to_nat (retained_record_count w));
  let stored := read ≫= ws_records in
  let segments := or_empty_segment read in
  let active_id := segment_id_or_zero (last segments) in
  let segments := seal_all_but active_id segments in
  _ ← set_wal (fun w => w <| prw_segments := segments |>);
  active_segment ← on_disk (open_segment_for_append active_id);
  _ ← set_wal (fun w => w <| prw_active_segment := active_segment |> <| prw_expected_active_len := None |>
                          <| prw_next_segment_id := active_id +w 1 |>);
  active_covered ← on_disk (covered_from_segments segments);
  _ ← set_wal (fun w => w <| prw_active_covered := active_covered |>
                          <| prw_segments ::= release_sealed_segment_records |>
                          <| prw_truncated_corrupt_tail := prw_truncated_corrupt_tail w || truncated_corrupt_tail |>);
  w ← gets st_wal;
  mret (report_of stored original_len (prw_segments w) (prw_truncated_corrupt_tail w)).

(** ** Compaction *)

Definition is_removable (removable_ids : list N) (segment : WalSegment) : bool :=
  bool_decide (ws_segment_id segment ∈ removable_ids).

(** [segments.iter().position(..)]: the segments before the first that stays, it,
    and its position. *)
Definition first_survivor (removable_ids : list N) (segments : list WalSegment) : option nat :=
  fst <$> list_find (fun segment => is_removable removable_ids segment = false) segments.

Definition materialize_first_surviving_record (removable_ids : list N) : ST RaftError Store unit :=
  segments ← wal prw_segments;
  match first_survivor removable_ids segments with
  | None => mret tt
  | Some position =>
      match segments !! position with
      | None => mret tt
      | Some segment =>
          survivor ← on_disk (segment_records segment);
          match survivor with
          | first :: rest =>
              if wr_entries_are_delta first then
                entries ← on_disk (fold_segments [] (take position segments));
                let entries := matrixraft_fold_wal_entries_from entries [first] in
                let first := first <| wr_entries := entries |> <| wr_entries_are_delta := false |> in
                let first := first <| wr_checksum := matrixraft_wal_checksum first |> in
                let rewritten := segment <| ws_records := first :: rest |> in
                _ ← on_disk (write_wal_segment_file rewritten);
                if ws_sealed segment then mret tt
                else set_wal (fun w => w <| prw_segments ::=
                       alter (fun s => s <| ws_records := first :: rest |>) position |>)
              else mret tt
          | [] => mret tt
          end
      end
  end.

Definition removable_ids (w : PersistentRaftWal) (log_index : LogIndex) : list N :=
  let removable_count := length (prw_segments w) - pwo_min_keep_segments (prw_options w) in
  ws_segment_id <$> filter (fun segment => (0 <? ws_last_index segment)%N && (ws_last_index segment <=? log_index)%N)
                      (take removable_count (prw_segments w)).

Definition compact_through (log_index : LogIndex) : ST RaftError Store N :=
  w ← gets st_wal;
  let segments := prw_segments w in
  if (length segments <=? pwo_min_keep_segments (prw_options w))%nat then mret 0%N
  else
    let removable_ids := removable_ids w log_index in
    _ ← (if bool_decide (removable_ids = []) then mret tt else materialize_first_surviving_record removable_ids);
    _ ← on_disk (for_each remove_file removable_ids);
    _ ← (if bool_decide (removable_ids = []) then mret tt
         else set_wal (fun w =>
           let removed := N.of_nat (length removable_ids) in
           w <| prw_segments ::= filter (fun segment => is_removable removable_ids segment = false) |>
             <| prw_released_segment_count := prw_released_segment_count w +w removed |>
             <| prw_compacted_after_slow_fsync_count :=
                  if (0 <? prw_slow_fsync_count w)%N then prw_compacted_after_slow_fsync_count w +w removed
                  else prw_compacted_after_slow_fsync_count w |>));
    mret (N.of_nat (length removable_ids)).

Definition retained_log_range (w : PersistentRaftWal) : LogRetainedRange := wal_retained_range (prw_segments w).

Definition compact_through_with_fence (log_index : LogIndex) (fence : StorageApplyFence)
    : ST RaftError Store WalCompactionReport :=
  w ← gets st_wal;
  match matrixraft_validate_storage_apply_fence fence with
  | Err error =>
      mret (mkWalCompactionReport log_index 0 (retained_log_range w) false (Some (RaftError_to_string error)))
  | Ok _ =>
      if (saf_durable_applied_index fence <? log_index)%N || (saf_storage_flushed_index fence <? log_index)%N
      then mret (mkWalCompactionReport log_index 0 (retained_log_range w) false
                   (Some "compaction fence is behind requested log index"))
      else
        released_segments ← compact_through log_index;
        w ← gets st_wal;
        mret (mkWalCompactionReport log_index released_segments (retained_log_range w) true None)
  end.

(** ** Reading *)

Fixpoint all_records (segments : list WalSegment) : ST RaftError Disk (list WalRecord) :=
  match segments with
  | [] => mret []
  | segment :: segments =>
      records ← segment_records segment; rest ← all_records segments; mret (records ++ rest)
  end.
Definition try_records : ST RaftError Store (list WalRecord) :=
  segments ← wal prw_segments;
  stored ← on_disk (all_records segments);
  mret (matrixraft_fold_wal_records stored).
Definition records : ST RaftError Store (list WalRecord) :=
  r ← catch try_records; mret (match r with Ok l => l | Err _ => [] end).
Definition latest_record : ST RaftError Store (option WalRecord) :=
  segments ← wal prw_segments;
  stored ← catch (on_disk (all_records segments));
  mret (match stored with Ok stored => matrixraft_fold_wal_latest_record stored | Err _ => None end).

Definition wal_segment_index (d : Disk) (segments : list WalSegment) : list WalSegmentIndex :=
  (fun segment => mkWalSegmentIndex (ws_segment_id segment) (ws_first_index segment) (ws_last_index segment)
     (ws_record_count segment) (ws_sealed segment) (file_len (ws_segment_id segment) d)) <$> segments.

Definition status (s : Store) : WalLifecycleStatus :=
  let w := st_wal s in
  let segments := prw_segments w in
  let first_id := segment_id_or_zero (head segments) in
  let last_id := segment_id_or_zero (last segments) in
  mkWalLifecycleStatus (N.of_nat (length segments)) last_id first_id last_id
    (foldr (fun segment total => file_len (ws_segment_id segment) (st_disk s) + total)%N 0%N segments)
    (default 0%N ((fun segment => file_len (ws_segment_id segment) (st_disk s)) <$> last segments))
    (retained_record_count w) first_id last_id
    (default 0%N (ws_first_index <$> head segments)) (default 0%N (ws_last_index <$> last segments))
    (prw_released_segment_count w) (0 <? prw_slow_fsync_count w)%N (prw_fsync_count w)
    (prw_slow_fsync_threshold_ms w) (prw_slow_fsync_count w) (prw_consecutive_slow_fsync_count w)
    (prw_max_fsync_elapsed_ms w) (prw_compacted_after_slow_fsync_count w).

Definition set_slow_fsync_threshold_ms (threshold_ms : N) : ST RaftError Store unit :=
  set_wal (fun w => w <| prw_slow_fsync_threshold_ms := threshold_ms |>).
Definition inject_next_fsync_delay_for_test (delay_ms : N) : ST RaftError Store unit :=
  set_wal (fun w => w <| prw_inject_next_fsync_delay_ms := Some delay_ms |>).
Definition active_coverage (w : PersistentRaftWal) : Coverage := prw_active_covered w.

End wal_store.
