(* ===== verification/WalStoreSafety.v ===== *)
(** * The write-ahead log on disk keeps the log

    An open log whose files hold its records ([wal_inv]) is, to its caller, a list
    of records ([stored]) that folds to one log ([log_of]). The theorems: an
    append adds its record and the log reads back as the one appended; opening
    after a crash gives back every record that was synced and a prefix of the
    rest, with the files repaired; compacting a prefix of the segments keeps the
    log; a second writer is turned away. *)

From stdpp Require Import base strings pretty numbers sorting gmap list.
From Stdlib Require Import Strings.Byte.
From S2P Require Import Prelude Types Slice Bytes Membership Node Wal WalSegments WalBinary WalStore.

(** ** Files *)

Definition put (id : N) (f : SegmentFile) (d : Disk) : Disk := d <| dk_files := <[id := f]> (dk_files d) |>.

Lemma put_lookup id f d : dk_files (put id f d) !! id = Some f.
Proof. apply lookup_insert_eq. Qed.
Lemma put_lookup_ne id id' f d : id <> id' -> dk_files (put id f d) !! id' = dk_files d !! id'.
Proof. apply lookup_insert_ne. Qed.
Lemma put_put id f g d : put id f (put id g d) = put id f d.
Proof. unfold put. cbn. by rewrite insert_insert_eq. Qed.
Lemma put_same id f d : dk_files d !! id = Some f -> put id f d = d.
Proof. intros Hf. unfold put. rewrite insert_id by done. by destruct d. Qed.

Lemma alter_put (g : SegmentFile -> SegmentFile) id f d : dk_files d !! id = Some f ->
  on_files (alter g id) d = (Ok tt, put id (g f) d).
Proof.
  intros Hf. assert (alter g id (dk_files d) = <[id := g f]> (dk_files d)) as E.
  { apply map_eq. intros i. destruct (decide (i = id)) as [-> |Hne].
    - by rewrite lookup_alter_eq, lookup_insert_eq, Hf.
    - by rewrite lookup_alter_ne, lookup_insert_ne by done. }
  unfold on_files, modify, put. cbn. by rewrite E.
Qed.

Lemma write_all_put id bytes f d : dk_files d !! id = Some f ->
  write_all id bytes d = (Ok tt, put id (mkSegmentFile (sf_bytes f ++ bytes) (sf_synced f)) d).
Proof. intros Hf. exact (alter_put _ id f d Hf). Qed.
Lemma sync_data_put id f d : dk_files d !! id = Some f ->
  sync_data id d = (Ok tt, put id (mkSegmentFile (sf_bytes f) (length (sf_bytes f))) d).
Proof. intros Hf. exact (alter_put _ id f d Hf). Qed.
Lemma create_file_put id d : create_file id d = (Ok tt, put id (mkSegmentFile [] 0) d).
Proof. done. Qed.

Section store.
Context `{HP : Prost} `{!ProstLaws}.
Context (json_record : list byte -> option WalRecord) (fsync_elapsed : N -> N).

(** ** Records and their frames *)

Definition frame_of (r : WalRecord) : list byte := match encode_framed r with Ok f => f | Err _ => [] end.
Definition frames (rs : list WalRecord) : list byte := rs ≫= frame_of.
Definition segment_file (rs : list WalRecord) : list byte := SEGMENT_MAGIC ++ frames rs.

(** A record the log can hold: machine integers and strings, its checksum valid,
    its encoding within a frame. *)
Definition storable (r : WalRecord) : Prop :=
  record_ok r /\ matrixraft_wal_checksum_valid r = true /\ is_ok (encode_framed r) = true.

Lemma storable_frame r : storable r -> encode_framed r = Ok (frame_of r).
Proof. intros (_ & _ & Hok). unfold frame_of. by destruct (encode_framed r). Qed.

Lemma frame_length_ge r : storable r -> FRAME_BYTES <= length (frame_of r).
Proof.
  intros [Hf Hlt]%storable_frame%encode_framed_Ok. rewrite Hf.
  set (body := message_encode _) in *. destruct (behind_words _ _ body Hlt (crc32c_lt body)) as (_ & _ & _ & ->). lia.
Qed.

Lemma frames_app a b : frames (a ++ b) = frames a ++ frames b.
Proof. apply bind_app. Qed.
Lemma segment_file_snoc rs r : segment_file (rs ++ [r]) = segment_file rs ++ frame_of r.
Proof. unfold segment_file. rewrite frames_app, app_assoc. f_equal. apply app_nil_r. Qed.

(** How many whole frames the first [k] bytes hold. *)
Fixpoint fit (k : nat) (rs : list WalRecord) : nat :=
  match rs with
  | [] => 0
  | r :: rs => if (length (frame_of r) <=? k)%nat then S (fit (k - length (frame_of r)) rs) else 0
  end.

Lemma fit_whole rs : fit (length (frames rs)) rs = length rs.
Proof.
  induction rs as [|r rs IH]; [done|]. change (frames (r :: rs)) with (frame_of r ++ frames rs).
  rewrite length_app. cbn [fit length]. destruct (Nat.leb_spec (length (frame_of r)) (length (frame_of r) + length (frames rs))); [|lia].
  f_equal. rewrite <- IH. f_equal. lia.
Qed.

Lemma fit_frames k rs : k <= length (frames rs) -> length (frames (take (fit k rs) rs)) <= k.
Proof.
  revert k. induction rs as [|r rs IH]; intros k Hk; [cbn; lia|]. change (frames (r :: rs)) with (frame_of r ++ frames rs) in Hk.
  rewrite length_app in Hk. cbn [fit]. destruct (Nat.leb_spec (length (frame_of r)) k) as [Hle|]; cbn [take]; [|cbn; lia].
  change (frames (r :: ?l)) with (frame_of r ++ frames l). rewrite length_app.
  specialize (IH (k - length (frame_of r))). lia.
Qed.

(** What is wholly within the cut is kept. *)
Lemma fit_ge k rs j : length (frames (take j rs)) <= k -> j <= length rs -> j <= fit k rs.
Proof.
  revert k j. induction rs as [|r rs IH]; intros k j Hk Hj; [cbn in *; lia|]. destruct j as [|j]; [lia|].
  cbn [take] in Hk. change (frames (r :: ?l)) with (frame_of r ++ frames l) in Hk. rewrite length_app in Hk. cbn [fit].
  destruct (Nat.leb_spec (length (frame_of r)) k); [|lia]. apply le_n_S, IH; cbn in Hj; lia.
Qed.

Lemma frame_loop_read rs k fuel off : Forall storable rs -> k <= length (frames rs) -> k <= fuel ->
  let kept := take (fit k rs) rs in
  frame_loop fuel Crc32c (take k (frames rs)) off
  = Ok (kept, off + length (frames kept), negb (k =? length (frames kept))%nat).
Proof.
  revert k fuel off. induction rs as [|r rs IH]; intros k fuel off Hok Hk Hf; cbn zeta.
  { cbn in Hk. replace k with 0 by lia. destruct fuel; cbn; by rewrite Nat.add_0_r. }
  apply Forall_cons in Hok as [Hr Hok]. pose proof (frame_length_ge r Hr) as Hlen. unfold FRAME_BYTES in Hlen.
  change (frames (r :: rs)) with (frame_of r ++ frames rs) in *. rewrite length_app in Hk. cbn [fit].
  destruct (Nat.leb_spec (length (frame_of r)) k) as [Hle|Hgt]; cbn [take].
  - change (frames (r :: take (fit (k - length (frame_of r)) rs) rs))
      with (frame_of r ++ frames (take (fit (k - length (frame_of r)) rs) rs)).
    rewrite length_app, take_app_ge by done. destruct fuel as [|fuel]; [lia|].
    destruct (frame_of r ++ take (k - length (frame_of r)) (frames rs)) as [|b l] eqn:E.
    { apply (f_equal length) in E. rewrite length_app in E. cbn in E. lia. }
    cbn [frame_loop]. rewrite <- E, (frame_round_trip r (frame_of r)) by (apply Hr || by apply storable_frame).
    cbn [mbind result_bind]. destruct Hr as (_ & -> & _). cbn [negb].
    rewrite drop_app_length', IH by (done || lia). cbn [mbind result_bind]. do 2 f_equal; [f_equal; lia|].
    set (m := length (frames _)). destruct (Nat.eqb_spec (k - length (frame_of r)) m), (Nat.eqb_spec k (length (frame_of r) + m));
      done || lia.
  - rewrite take_app_le by lia. destruct k as [|k]; [by cbn; destruct fuel; rewrite Nat.add_0_r|].
    destruct fuel as [|fuel]; [lia|]. destruct (take (S k) (frame_of r)) as [|b l] eqn:E.
    { apply (f_equal length) in E. rewrite length_take in E. cbn [length] in E. lia. }
    cbn [frame_loop]. rewrite <- E, (torn_frame_is_incomplete r (frame_of r) (S k)) by (done || by apply storable_frame).
    cbn. by rewrite Nat.add_0_r.
Qed.

(** ** Reading a segment *)

Lemma starts_with_magic l : starts_with (SEGMENT_MAGIC ++ l) SEGMENT_MAGIC = true.
Proof. apply bool_decide_eq_true. by exists l. Qed.
Lemma from_segment_magic l : from_segment (SEGMENT_MAGIC ++ l) = Some Crc32c.
Proof. unfold from_segment. by rewrite starts_with_magic. Qed.

Lemma magic_length : length SEGMENT_MAGIC = 4.
Proof. done. Qed.

Lemma take_segment_file m rs : 4 <= m -> take m (segment_file rs) = SEGMENT_MAGIC ++ take (m - 4) (frames rs).
Proof. intros Hm. unfold segment_file. rewrite take_app_ge by (rewrite magic_length; lia). done. Qed.

Lemma segment_file_length rs : length (segment_file rs) = 4 + length (frames rs).
Proof. unfold segment_file. by rewrite length_app. Qed.

Lemma segment_file_prefix j rs : take (length (segment_file (take j rs))) (segment_file rs) = segment_file (take j rs).
Proof.
  rewrite <- (take_drop j rs) at 2. unfold segment_file. rewrite frames_app, app_assoc. by apply take_app_length'.
Qed.

Definition whole_file (rs : list WalRecord) : SegmentFile := mkSegmentFile (segment_file rs) (length (segment_file rs)).

Lemma read_file_Some id d f context : dk_files d !! id = Some f -> read_file id context d = (Ok (sf_bytes f), d).
Proof. intros Hf. unfold read_file, mbind, ST_bind, gets. by rewrite Hf. Qed.

Lemma truncate_put id d f n : dk_files d !! id = Some f -> n <= length (sf_bytes f) ->
  truncate_wal_segment id n d = (Ok tt, put id (mkSegmentFile (take n (sf_bytes f)) n) d).
Proof.
  intros Hf Hn. unfold truncate_wal_segment. erewrite bind_Ok by (by apply alter_put).
  etrans; [apply alter_put, put_lookup|]. cbn. rewrite put_put, length_take, Nat.min_l by done. done.
Qed.

Lemma read_segment_cut id d rs m f : Forall storable rs -> dk_files d !! id = Some f ->
  sf_bytes f = take m (segment_file rs) -> 4 <= m <= length (segment_file rs) ->
  let kept := take (fit (m - 4) rs) rs in
  let whole := (m =? length (segment_file kept))%nat in
  read_wal_segment_file json_record id d
  = (Ok (kept, negb whole, false), if whole then d else put id (whole_file kept) d).
Proof.
  intros Hok Hf Hb Hm. cbn zeta. set (kept := take _ rs). unfold read_wal_segment_file.
  rewrite (bind_Ok _ _ _ _ _ (read_file_Some _ _ _ _ Hf)), Hb, (take_segment_file m) by lia.
  rewrite from_segment_magic, drop_app_length' by done. rewrite segment_file_length in Hm.
  rewrite (bind_Ok _ _ d (kept, length (segment_file kept), negb (m =? length (segment_file kept))%nat) d).
  2:{ unfold lift. rewrite frame_loop_read by (done || rewrite ?length_take; lia). rewrite segment_file_length.
      do 3 f_equal. rewrite <- segment_file_length. fold kept.
      destruct (Nat.eqb_spec (m - 4) (length (frames kept))), (Nat.eqb_spec m (length (segment_file kept)));
        rewrite segment_file_length in *; done || lia. }
  cbn beta iota. destruct (Nat.eqb_spec m (length (segment_file kept))) as [|Hne]; cbn [negb]; [done|].
  rewrite (bind_Ok _ _ d tt (put id (whole_file kept) d)); [done|].
  assert (length (segment_file kept) <= length (sf_bytes f)) as Hlen.
  { rewrite Hb, length_take, !segment_file_length. pose proof (fit_frames (m - 4) rs). unfold kept. lia. }
  rewrite (truncate_put _ _ f) by done. do 2 f_equal. unfold whole_file. f_equal.
  rewrite Hb, take_take, Nat.min_l; [apply segment_file_prefix|]. rewrite Hb, length_take in Hlen. lia.
Qed.

Lemma read_segment_whole id d rs : Forall storable rs -> dk_files d !! id = Some (whole_file rs) ->
  read_wal_segment_file json_record id d = (Ok (rs, false, false), d).
Proof.
  intros Hok Hf. rewrite (read_segment_cut id d rs (length (segment_file rs)) _ Hok Hf);
    [|by rewrite take_ge|rewrite segment_file_length; lia].
  replace (length (segment_file rs) - 4) with (length (frames rs)) by (rewrite segment_file_length; lia).
  by rewrite fit_whole, take_ge, Nat.eqb_refl by done.
Qed.

(** ** Opening a segment whose tail was cut *)

(** JSON text does not begin like the magic. *)
Definition json_refuses_magic : Prop := forall k, 0 < k < 4 -> json_record (take k SEGMENT_MAGIC) = None.

Lemma read_segment_short id d m f : json_refuses_magic -> dk_files d !! id = Some f ->
  sf_bytes f = take m SEGMENT_MAGIC -> m < 4 ->
  exists t f', read_wal_segment_file json_record id d = (Ok ([], t, true), put id f' d) /\ sf_bytes f' = []
    /\ sf_synced f' <= sf_synced f.
Proof.
  intros Hjson Hf Hb Hm. unfold read_wal_segment_file. rewrite (bind_Ok _ _ _ _ _ (read_file_Some _ _ _ _ Hf)), Hb.
  assert (from_segment (take m SEGMENT_MAGIC) = None) as ->
    by (destruct m as [|[|[|[|]]]]; [vm_compute; reflexivity..|lia]).
  unfold read_legacy_json_segment.
  assert (split_lines (take m SEGMENT_MAGIC) = [take m SEGMENT_MAGIC]) as ->
    by (destruct m as [|[|[|[|]]]]; [reflexivity..|lia]).
  destruct (decide (m = 0)) as [-> |Hpos].
  - exists false, f. split_and!; [|by rewrite Hb|done]. by rewrite put_same.
  - cbn [legacy_loop]. rewrite bool_decide_false by (destruct m; [done|discriminate]). rewrite Hjson by lia.
    exists true, (mkSegmentFile [] 0). split_and!; [|done|cbn; lia].
    unfold mbind, ST_bind. by rewrite (truncate_put _ _ f) by (done || lia).
Qed.

Lemma open_existing id d f rs : dk_files d !! id = Some f -> sf_bytes f = segment_file rs ->
  open_segment_for_append json_record id d = (Ok id, d).
Proof.
  intros Hf Hb. assert (file_bytes id d = segment_file rs) as Hbytes by (unfold file_bytes; rewrite Hf; exact Hb).
  unfold open_segment_for_append, mbind, ST_bind, gets, file_len. rewrite Hbytes.
  assert (starts_with (segment_file rs) SEGMENT_MAGIC = true) as -> by apply starts_with_magic.
  rewrite andb_false_r. unfold mret, ST_ret. by rewrite Hf, Hbytes, segment_file_length.
Qed.

Lemma open_blank id d f : dk_files d !! id = Some f -> sf_bytes f = [] ->
  open_segment_for_append json_record id d = (Ok id, put id (mkSegmentFile SEGMENT_MAGIC (sf_synced f)) d).
Proof.
  intros Hf Hb. assert (file_bytes id d = []) as Hbytes by (unfold file_bytes; rewrite Hf; exact Hb).
  unfold open_segment_for_append, mbind, ST_bind, gets, file_len. rewrite Hbytes.
  cbn [length Nat.ltb Nat.leb andb]. unfold mret, ST_ret. rewrite Hf, Hbytes. change (N.of_nat (length []) =? 0)%N with true.
  cbn iota. rewrite (write_all_put id _ f) by done. by rewrite Hb.
Qed.

(** The file a cut file is left as by reading it and opening it for appending. *)
Lemma reopen_cut id d rs m f : json_refuses_magic -> Forall storable rs -> dk_files d !! id = Some f ->
  sf_bytes f = take m (segment_file rs) -> m <= length (segment_file rs) -> sf_synced f <= m ->
  exists j t o f1 f2, read_wal_segment_file json_record id d = (Ok (take j rs, t, o), put id f1 d)
    /\ open_segment_for_append json_record id (put id f1 d) = (Ok id, put id f2 d)
    /\ sf_bytes f2 = segment_file (take j rs) /\ sf_synced f2 <= length (sf_bytes f2)
    /\ (forall i, i <= length rs -> length (segment_file (take i rs)) <= m -> i <= j) /\ j <= length rs.
Proof.
  intros Hjson Hok Hf Hb Hm Hs. destruct (Nat.le_gt_cases 4 m) as [Hge|Hlt].
  - rewrite (read_segment_cut id d rs m f) by done. set (j := fit (m - 4) rs). set (kept := take j rs).
    assert (exists f1, (if (m =? length (segment_file kept))%nat then d else put id (whole_file kept) d) = put id f1 d
      /\ sf_bytes f1 = segment_file kept /\ sf_synced f1 <= length (sf_bytes f1)) as (f1 & E & Hb1 & Hs1).
    { destruct (Nat.eqb_spec m (length (segment_file kept))) as [E|]; [|by exists (whole_file kept)].
      exists f. split_and!; [by rewrite put_same|rewrite Hb, E; exact (segment_file_prefix j rs)|].
      rewrite Hb, length_take. lia. }
    rewrite E. eexists j, _, _, f1, f1. split_and!; [reflexivity| |done|done| |].
    + apply (open_existing _ _ f1 kept); [apply put_lookup|done].
    + intros i Hi Hlen. rewrite segment_file_length in Hlen. apply fit_ge; [lia|done].
    + unfold j. clear. generalize (m - 4) as k. induction rs as [|r rs IH]; intros k; cbn; [lia|].
      destruct (_ <=? k)%nat; [|lia]. apply le_n_S, IH.
  - destruct (read_segment_short id d m f Hjson Hf) as (t & f1 & E & Hb1 & Hs1); [|done|].
    { rewrite Hb. unfold segment_file. apply take_app_le. rewrite magic_length. lia. }
    exists 0, t, true, f1, (mkSegmentFile SEGMENT_MAGIC (sf_synced f1)). split_and!; [done| |done|cbn [sf_bytes sf_synced]; rewrite magic_length; lia| |lia].
    + rewrite (open_blank _ _ f1) by (done || apply put_lookup). by rewrite put_put.
    + intros i Hi Hlen. rewrite segment_file_length in Hlen. lia.
Qed.

(** ** The directory as a list of segments *)

Implicit Types lay : list (N * list WalRecord).

Definition sealed_files (lay : list (N * list WalRecord)) : gmap N SegmentFile :=
  list_to_map ((fun p => (p.1, whole_file p.2)) <$> lay).

Record layout (d : Disk) (lay : list (N * list WalRecord)) (id : N) (f : SegmentFile) : Prop := {
  lo_files : dk_files d = <[id := f]> (sealed_files lay);
  lo_sorted : StronglySorted N.lt (lay.*1 ++ [id])
}.

Lemma sealed_files_keys lay : ((fun p => (p.1, whole_file p.2)) <$> lay).*1 = lay.*1.
Proof. rewrite <- list_fmap_compose. by apply list_fmap_ext. Qed.

Lemma sorted_lt_nodup l : StronglySorted N.lt l -> NoDup l.
Proof.
  induction 1 as [|x l Hs IH Hall]; constructor; [|done]. intros Hx.
  apply (proj1 (Forall_forall _ _) Hall) in Hx. lia.
Qed.

Lemma sorted_lt_le l : StronglySorted N.lt l -> StronglySorted N.le l.
Proof. induction 1 as [|x l Hs IH Hall]; constructor; [done|]. eapply Forall_impl; [exact Hall|]. cbn. lia. Qed.

Lemma layout_lookup d lay id f : layout d lay id f -> dk_files d !! id = Some f.
Proof. intros [-> _]. apply lookup_insert_eq. Qed.

Lemma layout_id_fresh d lay id f i rs : layout d lay id f -> (i, rs) ∈ lay -> i <> id.
Proof.
  intros [_ Hs] Hin ->. apply sorted_lt_nodup, NoDup_app in Hs as (_ & Hd & _).
  apply (Hd id); [|by apply list_elem_of_singleton]. by apply list_elem_of_fmap_2 with (f := fst) in Hin.
Qed.

Lemma layout_sealed d lay id f i rs : layout d lay id f -> (i, rs) ∈ lay -> dk_files d !! i = Some (whole_file rs).
Proof.
  intros Hl Hin. pose proof (layout_id_fresh _ _ _ _ _ _ Hl Hin). destruct Hl as [-> Hs].
  rewrite lookup_insert_ne by done. apply elem_of_list_to_map.
  - rewrite sealed_files_keys. by apply sorted_lt_nodup, NoDup_app in Hs as (? & _ & _).
  - apply list_elem_of_fmap. by exists (i, rs).
Qed.

Lemma layout_put d lay id f g : layout d lay id f -> layout (put id g d) lay id g.
Proof. intros [E Hs]. split; [|done]. unfold put. cbn. by rewrite E, insert_insert_eq. Qed.

Lemma layout_ids d lay id f : layout d lay id f -> segment_ids d = lay.*1 ++ [id].
Proof.
  intros Hl. unfold segment_ids. apply (StronglySorted_unique N.le).
  - apply (StronglySorted_merge_sort N.le).
  - apply sorted_lt_le, Hl.
  - rewrite merge_sort_Permutation. destruct Hl as [-> Hs].
    assert (sealed_files lay !! id = None) as Hnone.
    { apply not_elem_of_list_to_map. rewrite sealed_files_keys. intros Hin.
      apply sorted_lt_nodup, NoDup_app in Hs as (_ & Hd & _). apply (Hd id); [done|]. by apply list_elem_of_singleton. }
    rewrite map_to_list_insert by done. rewrite fmap_cons. cbn [fst].
    unfold sealed_files. rewrite map_to_list_to_map, sealed_files_keys.
    + by rewrite Permutation_app_comm.
    + rewrite sealed_files_keys. by apply sorted_lt_nodup, NoDup_app in Hs as (? & _ & _).
Qed.

Definition stored (lay : list (N * list WalRecord)) (rs : list WalRecord) : list WalRecord := (lay ≫= snd) ++ rs.

Lemma stored_storable lay rs : Forall storable (stored lay rs) <->
  (forall i l, (i, l) ∈ lay -> Forall storable l) /\ Forall storable rs.
Proof.
  unfold stored. rewrite Forall_app, !Forall_forall. split; intros [Ha Hb]; split; try done.
  - intros i l Hin. apply Forall_forall. intros x Hx. apply Ha. apply list_elem_of_bind. by exists (i, l).
  - intros x ((i & l) & Hx & Hin)%list_elem_of_bind. specialize (Ha i l Hin). rewrite Forall_forall in Ha. by apply Ha.
Qed.

(** The directory is read as its segments, the last through its own reading. *)
Lemma read_layout lay id d rs t o d' :
  (forall i l, (i, l) ∈ lay -> dk_files d !! i = Some (whole_file l) /\ Forall storable l) ->
  read_wal_segment_file json_record id d = (Ok (rs, t, o), d') ->
  read_segments json_record (lay.*1 ++ [id]) d
  = (Ok (((fun p => segment_of p.1 p.2 true) <$> lay) ++ [segment_of id rs false], t), d').
Proof.
  revert d. induction lay as [|[i l] lay IH]; intros d Hlay Hread.
  - cbn [fmap list_fmap app read_segments]. erewrite bind_Ok by exact Hread. by destruct t.
  - cbn [fmap list_fmap app read_segments fst snd]. destruct (Hlay i l) as [Hf Hok]; [left|].
    erewrite bind_Ok by (by apply read_segment_whole). cbn beta iota.
    erewrite bind_Ok by (apply IH; [intros ?? Hin; apply Hlay; by right|exact Hread]). cbn beta iota.
    by rewrite bool_decide_false by (by destruct (lay.*1)).
Qed.

(** ** An open log *)

Definition log_of (rs : list WalRecord) : list LogEntry := matrixraft_fold_wal_entries rs.

(** A segment in memory describes these records; a sealed one holds none. *)
Definition seg_matches (s : WalSegment) (p : (N * list WalRecord) * bool) : Prop :=
  ws_segment_id s = p.1.1 /\ ws_record_count s = N.of_nat (length p.1.2) /\ ws_sealed s = p.2
  /\ ws_records s = if p.2 then [] else p.1.2.

Definition described lay (id : N) (rs : list WalRecord) : list ((N * list WalRecord) * bool) :=
  ((fun p => (p, true)) <$> lay) ++ [((id, rs), false)].

(** [synced] bytes of the active file are on stable storage. *)
Record wal_inv (s : Store) lay (id : N) (rs : list WalRecord) (synced : nat) : Prop := {
  wi_valid : options_validate (prw_options (st_wal s)) = Ok tt;
  wi_locked : dk_locked (st_disk s) = true;
  wi_layout : layout (st_disk s) lay id (mkSegmentFile (segment_file rs) synced);
  wi_synced : synced <= length (segment_file rs);
  wi_storable : Forall storable (stored lay rs);
  wi_nonempty : Forall (fun p => p.2 <> []) lay;
  wi_segments : Forall2 seg_matches (prw_segments (st_wal s)) (described lay id rs);
  wi_active : prw_active_segment (st_wal s) = id;
  wi_next : (id < prw_next_segment_id (st_wal s))%N;
  wi_expected : forall n, prw_expected_active_len (st_wal s) = Some n -> n = N.of_nat (length (segment_file rs));
  wi_covered : prw_active_covered (st_wal s) = coverage_of (log_of (stored lay rs))
}.

Lemma fold_entries_app acc a b : Forall storable a ->
  matrixraft_fold_wal_entries_from acc (a ++ b)
  = matrixraft_fold_wal_entries_from (matrixraft_fold_wal_entries_from acc a) b.
Proof.
  intros Ha. revert acc. induction Ha as [|r a (_ & Hr & _) Ha IH]; intros acc; [done|]. cbn. by rewrite Hr, IH.
Qed.

(** Records still in memory are read from there. *)
Lemma segment_records_memory s d :
  ws_record_count s = N.of_nat (length (ws_records s)) -> segment_records json_record s d = (Ok (ws_records s), d).
Proof.
  intros Hc. unfold segment_records. rewrite Hc. destruct (ws_records s); [done|].
  by rewrite bool_decide_false, orb_true_r by done.
Qed.

Lemma fold_memory segments acc d :
  Forall (fun s => ws_record_count s = N.of_nat (length (ws_records s)) /\ Forall storable (ws_records s)) segments ->
  fold_segments json_record acc segments d
  = (Ok (matrixraft_fold_wal_entries_from acc (segments ≫= ws_records)), d).
Proof.
  intros Hall. revert acc. induction Hall as [|s segments [Hc Hs] Hall IH]; intros acc; [done|]. cbn [fold_segments].
  rewrite (bind_Ok _ _ _ _ _ (segment_records_memory s d Hc)), IH. cbn [mbind list_bind].
  by rewrite fold_entries_app.
Qed.

Lemma bind_segments_of lay id rs :
  (((fun p => segment_of p.1 p.2 true) <$> lay) ++ [segment_of id rs false]) ≫= ws_records = stored lay rs.
Proof.
  unfold stored. rewrite bind_app. cbn. rewrite app_nil_r. f_equal.
  induction lay as [|p lay IH]; [done|]. cbn. f_equal. exact IH.
Qed.

Lemma seal_segments_of lay id rs : StronglySorted N.lt (lay.*1 ++ [id]) ->
  seal_all_but id (((fun p => segment_of p.1 p.2 true) <$> lay) ++ [segment_of id rs false])
  = ((fun p => segment_of p.1 p.2 true) <$> lay) ++ [segment_of id rs false].
Proof.
  intros Hs. unfold seal_all_but. rewrite fmap_app. cbn. rewrite N.eqb_refl. f_equal.
  rewrite <- list_fmap_compose. apply list_fmap_ext. intros k [i l] Hk. cbn.
  destruct (N.eqb_spec i id) as [-> |]; [|done]. apply sorted_lt_nodup, NoDup_app in Hs as (_ & Hd & _).
  destruct (Hd id); [|by apply list_elem_of_singleton]. apply list_elem_of_fmap. exists (id, l).
  split; [done|]. by eapply list_elem_of_lookup_2.
Qed.

Lemma release_matches lay id rs :
  Forall2 seg_matches
    (release_sealed_segment_records (((fun p => segment_of p.1 p.2 true) <$> lay) ++ [segment_of id rs false]))
    (described lay id rs).
Proof.
  unfold release_sealed_segment_records, described. rewrite fmap_app. apply Forall2_app.
  - rewrite <- list_fmap_compose. apply Forall2_fmap_l, Forall2_fmap_r, Forall_Forall2_diag, Forall_true.
    intros [i l]. unfold seg_matches, compose, segment_of. cbn. by destruct l.
  - by repeat constructor.
Qed.

Lemma last_segments_of lay id rs :
  or_empty_segment (((fun p => segment_of p.1 p.2 true) <$> lay) ++ [segment_of id rs false])
  = ((fun p => segment_of p.1 p.2 true) <$> lay) ++ [segment_of id rs false].
Proof. by destruct (((fun p => segment_of p.1 p.2 true) <$> lay)). Qed.

Lemma open_locked_layout options d lay id f rs m : json_refuses_magic -> Forall storable (stored lay rs) ->
  layout d lay id f -> sf_bytes f = take m (segment_file rs) -> m <= length (segment_file rs) -> sf_synced f <= m ->
  exists j t f', open_locked json_record options true d
    = (Ok (mkPersistentRaftWal options
             (release_sealed_segment_records (((fun p => segment_of p.1 p.2 true) <$> lay) ++ [segment_of id (take j rs) false]))
             id (id +w 1) 0 t 10 0 0 0 0 None 0 None (coverage_of (log_of (stored lay (take j rs)))),
           Some (report_of (stored lay (take j rs))
                   (N.to_nat (record_total (((fun p => segment_of p.1 p.2 true) <$> lay) ++ [segment_of id (take j rs) false])))
                   (release_sealed_segment_records (((fun p => segment_of p.1 p.2 true) <$> lay) ++ [segment_of id (take j rs) false])) t)),
       put id f' d)
    /\ sf_bytes f' = segment_file (take j rs) /\ sf_synced f' <= length (sf_bytes f')
    /\ (forall i, i <= length rs -> length (segment_file (take i rs)) <= m -> i <= j) /\ j <= length rs.
Proof.
  intros Hjson [Hlay Hrs]%stored_storable Hl Hb Hm Hs.
  destruct (reopen_cut id d rs m f Hjson Hrs (layout_lookup _ _ _ _ Hl) Hb Hm Hs)
    as (j & t & o & f1 & f2 & Hread & Hopen & Hb2 & Hs2 & Hge & Hj).
  exists j, t, f2. split_and!; [|done..]. unfold open_locked.
  erewrite bind_Ok.
  2:{ unfold read_wal_segments_from_dir. rewrite (bind_Ok _ _ d (segment_ids d) d) by done.
      rewrite (layout_ids _ _ _ _ Hl). eapply read_layout; [|exact Hread].
      intros i l Hin. split; [by eapply layout_sealed|by eapply Hlay]. }
  cbn beta iota. rewrite last_segments_of, last_snoc. cbn [segment_id_or_zero fmap option_fmap option_map default segment_of ws_segment_id].
  rewrite seal_segments_of, bind_segments_of by apply Hl.
  erewrite bind_Ok by exact Hopen. erewrite bind_Ok.
  2:{ unfold covered_from_segments. rewrite fold_memory; [by rewrite bind_segments_of|].
      apply Forall_app. split.
      - apply Forall_fmap, Forall_forall. intros [i l] Hin. split; [done|]. by eapply Hlay.
      - apply Forall_singleton. split; [done|]. by apply Forall_take. }
  done.
Qed.

(** ** Crashes *)

Lemma sealed_files_lookup lay i f : sealed_files lay !! i = Some f -> exists l, (i, l) ∈ lay /\ f = whole_file l.
Proof. intros Hin%elem_of_list_to_map_2. apply list_elem_of_fmap in Hin as ([i' l] & [= -> ->] & Hin). eauto. Qed.

Lemma crashed_layout d d' lay id rs n : layout d lay id (mkSegmentFile (segment_file rs) n) -> crashed d d' ->
  exists k, n <= k <= length (segment_file rs)
    /\ layout d' lay id (mkSegmentFile (take k (segment_file rs)) k) /\ dk_locked d' = false.
Proof.
  intros Hl (Hlock & Hdom & Hcut).
  assert (forall i f, dk_files d !! i = Some f -> exists f', dk_files d' !! i = Some f') as Hsome.
  { intros i f Hi. apply elem_of_dom. rewrite Hdom. by apply elem_of_dom_2 in Hi. }
  destruct (Hsome _ _ (layout_lookup _ _ _ _ Hl)) as [g Hg].
  destruct (Hcut _ _ _ (layout_lookup _ _ _ _ Hl) Hg) as (k & Hk & ->). cbn [sf_bytes sf_synced] in *.
  exists k. split_and!; [lia|lia| |done]. split; [|apply Hl]. apply map_eq. intros i.
  destruct (decide (i = id)) as [-> |Hne]; [by rewrite lookup_insert_eq|]. rewrite lookup_insert_ne by done.
  destruct (sealed_files lay !! i) as [f|] eqn:E.
  - apply sealed_files_lookup in E as E'. destruct E' as (l & Hin & ->). pose proof (layout_sealed _ _ _ _ _ _ Hl Hin) as Hi.
    destruct (Hsome _ _ Hi) as [f' Hf']. destruct (Hcut _ _ _ Hi Hf') as (k' & Hk' & ->). cbn [sf_bytes sf_synced whole_file] in *.
    rewrite Hf'. unfold whole_file. do 2 f_equal; [rewrite take_ge; [done|lia]|lia].
  - apply not_elem_of_dom. rewrite Hdom. apply not_elem_of_dom. destruct Hl as [-> _]. by rewrite lookup_insert_ne.
Qed.

Lemma open_inner_unlocked options want d r d' : options_validate options = Ok tt -> dk_locked d = false ->
  open_locked json_record options want (d <| dk_locked := true |>) = (Ok r, d') ->
  open_inner json_record options want d = (Ok r, d').
Proof.
  intros Hval Hlock Hopen. unfold open_inner, lift, lock_wal_directory, gets, modify, catch, mbind, ST_bind.
  by rewrite Hval, Hlock, Hopen.
Qed.

Lemma crash_recovery_spec s lay id rs n d options :
  wal_inv s lay id rs n -> crashed (st_disk s) d -> json_refuses_magic ->
  options_validate options = Ok tt -> (id < u64_max)%N ->
  exists j report s' n', open_recovered json_record options d = (Ok (st_wal s', report), st_disk s')
    /\ wal_inv s' lay id (take j rs) n'
    /\ (forall i, i <= length rs -> length (segment_file (take i rs)) <= n -> i <= j)
    /\ (wrr_surviving_records report, wrr_recovered report)
       = matrixraft_recover_from_wal_records (stored lay (take j rs)).
Proof.
  intros Hinv Hcrash Hjson Hval Hid. destruct Hinv as [_ _ Hl Hn Hok Hne _ _ _ _ _].
  destruct (crashed_layout _ _ _ _ _ _ Hl Hcrash) as (k & Hk & Hl' & Hlock).
  assert (layout (d <| dk_locked := true |>) lay id (mkSegmentFile (take k (segment_file rs)) k)) as Hl''
    by (destruct Hl' as [E Hs]; split; [exact E|done]).
  destruct (open_locked_layout options _ lay id _ rs k Hjson Hok Hl'') as (j & t & f & Hopen & Hb & Hs & Hge & Hj);
    [done|lia|cbn; lia|].
  eexists j, _, (mkStore _ _), (sf_synced f). cbn [st_wal st_disk]. split_and!.
  - unfold open_recovered. erewrite bind_Ok; [|by apply open_inner_unlocked]. reflexivity.
  - split; cbn [st_wal st_disk prw_options prw_segments prw_active_segment prw_next_segment_id prw_expected_active_len prw_active_covered].
    + done.
    + done.
    + apply (layout_put _ _ _ _ f) in Hl''. by destruct f; cbn in *; subst.
    + by rewrite Hb in Hs.
    + apply stored_storable. apply stored_storable in Hok as [Ha Hb']. split; [done|]. by apply Forall_take.
    + done.
    + apply release_matches.
    + done.
    + unfold wrapping_add, u64_modulus, u64_max in *. rewrite N.mod_small by lia. lia.
    + done.
    + done.
  - intros i Hi Hlen. apply Hge; [done|lia].
  - unfold report_of. by destruct (matrixraft_recover_from_wal_records _).
Qed.

(** C11: no synced record is lost in a crash between two operations of the log.
    Whatever of the unsynced bytes of the active segment reached the disk, opening
    the directory again succeeds, gives the records that were there up to a point in
    the active segment, at least those whose frames were synced, reports the record
    recovery picks among them, and leaves the files exactly those records' frames,
    ready to be appended to. A crash in the middle of an operation is not covered:
    [rolling_unsyncs_records] of [WalStoreRuns.v] shows what a roll risks. *)
Theorem crash_keeps_synced_records s lay id rs n d options :
  wal_inv s lay id rs n -> crashed (st_disk s) d -> json_refuses_magic ->
  options_validate options = Ok tt -> (id < u64_max)%N ->
  exists j report s' n', open_recovered json_record options d = (Ok (st_wal s', report), st_disk s')
    /\ wal_inv s' lay id (take j rs) n'
    /\ (forall i, i <= length rs -> length (segment_file (take i rs)) <= n -> i <= j)
    /\ (wrr_surviving_records report, wrr_recovered report)
       = matrixraft_recover_from_wal_records (stored lay (take j rs)).
Proof. exact (crash_recovery_spec s lay id rs n d options). Qed.

(** ** Rolling *)

Lemma write_records_put id d f rs : Forall storable rs -> dk_files d !! id = Some f ->
  write_records id rs d = (Ok tt, put id (mkSegmentFile (sf_bytes f ++ frames rs) (sf_synced f)) d).
Proof.
  intros Hok. revert d f. induction Hok as [|r rs Hr Hok IH]; intros d f Hf.
  - cbn. rewrite app_nil_r, put_same; [done|]. by destruct f.
  - unfold write_records in *. cbn [for_each]. erewrite bind_Ok.
    2:{ unfold lift. rewrite (storable_frame r Hr). erewrite bind_Ok by reflexivity. by apply write_all_put. }
    cbn beta. erewrite IH by apply put_lookup. rewrite put_put. cbn [sf_bytes sf_synced].
    by rewrite <- app_assoc.
Qed.

Lemma write_segment_put seg d : Forall storable (ws_records seg) ->
  write_wal_segment_file seg d
  = (Ok tt, put (ws_segment_id seg)
      (mkSegmentFile (segment_file (ws_records seg))
         (if bool_decide (ws_records seg = []) then 0 else length (segment_file (ws_records seg)))) d).
Proof.
  intros Hok. unfold write_wal_segment_file. rewrite (bind_Ok _ _ _ _ _ (create_file_put _ _)).
  rewrite (bind_Ok _ _ _ _ _ (write_all_put _ _ _ _ (put_lookup _ _ _))), put_put.
  rewrite (bind_Ok _ _ _ _ _ (write_records_put _ _ _ _ Hok (put_lookup _ _ _))), put_put. cbn [sf_bytes sf_synced app].
  case_bool_decide; [done|]. rewrite (sync_data_put _ _ _ (put_lookup _ _ _)), put_put. done.
Qed.

Lemma sorted_lt_snoc l x y : StronglySorted N.lt (l ++ [x]) -> (x < y)%N -> StronglySorted N.lt ((l ++ [x]) ++ [y]).
Proof.
  intros Hs Hxy. apply StronglySorted_app. split_and!; [|done|repeat constructor].
  intros a b Ha ->%list_elem_of_singleton. apply elem_of_app in Ha as [Ha| ->%list_elem_of_singleton]; [|done].
  apply StronglySorted_app in Hs as (Hs & _ & _). specialize (Hs a x Ha (list_elem_of_here _ _)). lia.
Qed.

Lemma layout_roll d lay id f rs id' g : layout d lay id f -> (id < id')%N ->
  layout (put id' g (put id (whole_file rs) d)) (lay ++ [(id, rs)]) id' g.
Proof.
  intros Hl Hlt. pose proof Hl as [E Hs]. split.
  - unfold put. cbn. f_equal. rewrite E, insert_insert_eq. unfold sealed_files. rewrite fmap_app. cbn [fmap list_fmap].
    rewrite list_to_map_snoc; [done|]. rewrite sealed_files_keys. intros Hin.
    apply sorted_lt_nodup, NoDup_app in Hs as (_ & Hd & _). apply (Hd id); [done|]. by apply list_elem_of_singleton.
  - rewrite fmap_app. by apply sorted_lt_snoc.
Qed.

Lemma stored_snoc lay id rs : stored (lay ++ [(id, rs)]) [] = stored lay rs.
Proof. unfold stored. rewrite bind_app. cbn. by rewrite !app_nil_r. Qed.

Lemma described_last segs lay id rs : Forall2 seg_matches segs (described lay id rs) ->
  exists before active, segs = before ++ [active] /\ Forall2 seg_matches before ((fun p => (p, true)) <$> lay)
    /\ seg_matches active ((id, rs), false).
Proof.
  unfold described. intros (before & l & Hb & Ha & ->)%Forall2_app_inv_r.
  destruct l as [|active [|]]; [by inversion Ha| |by inversion Ha; subst; match goal with H : Forall2 _ (_ :: _) [] |- _ => inversion H end].
  exists before, active. split_and!; [done..|]. by inversion Ha.
Qed.

Lemma on_disk_Ok {A} (m : ST RaftError Disk A) s a d : m (st_disk s) = (Ok a, d) ->
  on_disk m s = (Ok a, s <| st_disk := d |>).
Proof. intros E. unfold on_disk. by rewrite E. Qed.

Lemma on_disk_mk {A} (m : ST RaftError Disk A) d w a d' : m d = (Ok a, d') ->
  on_disk m (mkStore d w) = (Ok a, mkStore d' w).
Proof. intros E. unfold on_disk. cbn [st_disk]. by rewrite E. Qed.
Lemma set_wal_Ok f s w : f (st_wal s) = w -> set_wal f s = (Ok tt, mkStore (st_disk s) w).
Proof. by intros <-. Qed.

Lemma roll_spec s lay id rs n : wal_inv s lay id rs n -> rs <> [] -> (prw_next_segment_id (st_wal s) < u64_max)%N ->
  exists s', roll_segment json_record s = (Ok tt, s')
    /\ wal_inv s' (lay ++ [(id, rs)]) (prw_next_segment_id (st_wal s)) [] 0
    /\ prw_options (st_wal s') = prw_options (st_wal s).
Proof.
  intros [Hval Hlock Hl Hn Hok Hne Hseg Hact Hnext Hexp Hcov] Hrs Hmax.
  destruct (described_last _ _ _ _ Hseg) as (before & active & Esegs & Hbefore & Hid & Hcount & Hsealed & Hrecs). cbn in Hid, Hcount, Hsealed, Hrecs.
  pose proof Hok as [_ Hstor]%stored_storable. set (next := prw_next_segment_id (st_wal s)) in *.
  set (sealed_active := active <| ws_sealed := true |>).
  set (d1 := put id (whole_file rs) (st_disk s)). set (d2 := put next (mkSegmentFile SEGMENT_MAGIC 0) d1).
  assert (write_wal_segment_file sealed_active (st_disk s) = (Ok tt, d1)) as Hw1.
  { rewrite write_segment_put by (cbn; by rewrite Hrecs). cbn [ws_records ws_segment_id sealed_active]. cbn.
    rewrite Hrecs, Hid, bool_decide_false by done. done. }
  assert (write_wal_segment_file (empty_segment next) d1 = (Ok tt, d2)) as Hw2.
  { rewrite write_segment_put by constructor. done. }
  assert (open_segment_for_append json_record next d2 = (Ok next, d2)) as Hop.
  { apply (open_existing _ _ (mkSegmentFile SEGMENT_MAGIC 0) []); [apply put_lookup|done]. }
  set (w1 := (st_wal s) <| prw_segments := before ++ [sealed_active] |>).
  set (w2 := (st_wal s) <| prw_segments := before ++ [sealed_active <| ws_records := [] |>] |>).
  set (w3 := w2 <| prw_next_segment_id := next +w 1 |>).
  set (w4 := w3 <| prw_active_segment := next |> <| prw_expected_active_len := None |>
                <| prw_segments := (before ++ [sealed_active <| ws_records := [] |>]) ++ [empty_segment next] |>).
  exists (mkStore d2 w4). split_and!; [| |done].
  - unfold roll_segment. rewrite (bind_Ok _ _ s (st_wal s) s) by done. rewrite Esegs, last_snoc. fold next. cbn zeta.
    rewrite (bind_Ok _ _ s tt (mkStore d1 w2)).
    2:{ rewrite (bind_Ok _ _ s tt (mkStore (st_disk s) w1)) by (apply set_wal_Ok; cbn [update]; by rewrite Esegs, update_last_app).
        rewrite (bind_Ok _ _ _ tt (mkStore d1 w1)) by (by apply (on_disk_mk _ _ _ _ _ Hw1)).
        apply set_wal_Ok. cbn [st_wal update prw_segments]. unfold w1. cbn [update prw_segments]. by rewrite update_last_app. }
    rewrite (bind_Ok _ _ _ tt (mkStore d1 w3)) by (by apply set_wal_Ok).
    rewrite (bind_Ok _ _ _ tt (mkStore d2 w3)) by (by apply (on_disk_mk _ _ _ _ _ Hw2)).
    rewrite (bind_Ok _ _ _ next (mkStore d2 w3)) by (by apply (on_disk_mk _ _ _ _ _ Hop)).
    by apply set_wal_Ok.
  - split; unfold w4, w3, w2; cbn [st_wal st_disk update prw_options prw_segments prw_active_segment prw_next_segment_id
      prw_expected_active_len prw_active_covered].
    + done.
    + done.
    + by apply layout_roll with (f := mkSegmentFile (segment_file rs) n).
    + cbn. lia.
    + by rewrite stored_snoc.
    + apply Forall_app. split; [done|]. by constructor.
    + unfold described. rewrite fmap_app. apply Forall2_app; [|by repeat constructor]. apply Forall2_app; [done|].
      constructor; [|constructor]. cbn. by rewrite Hid, Hcount.
    + done.
    + unfold wrapping_add, u64_modulus, u64_max in *. rewrite N.mod_small by lia. lia.
    + done.
    + by rewrite stored_snoc.
Qed.

(** ** Writing a record *)

(** What the coverage becomes. *)
Definition advanced (c : Coverage) (r : WalRecord) : Coverage :=
  if wr_entries_are_delta r then
    match c, last (wr_entries r) with
    | Some (first_index, _, _), Some e => Some (first_index, entry_index e, entry_term e)
    | _, _ => c
    end
  else coverage_of (wr_entries r).

Lemma push_active_covered r w before active : prw_segments w = before ++ [active] ->
  prw_active_covered (push_active r w) = advanced (prw_active_covered w) r
  /\ prw_segments (push_active r w) = before ++ [push_record r active].
Proof.
  intros E. unfold push_active, advance_active_covered. cbn [update prw_segments]. rewrite E, update_last_app, last_snoc.
  cbn [mbind option_bind]. rewrite push_record_records, last_snoc. unfold advanced.
  destruct (wr_entries_are_delta r); [|done]. cbn [prw_active_covered].
  destruct (prw_active_covered w) as [[[f l] t]|]; [|done]. by destruct (last (wr_entries r)).
Qed.

Lemma push_active_other r w :
  prw_options (push_active r w) = prw_options w /\ prw_active_segment (push_active r w) = prw_active_segment w
  /\ prw_next_segment_id (push_active r w) = prw_next_segment_id w
  /\ prw_expected_active_len (push_active r w) = prw_expected_active_len w.
Proof.
  unfold push_active, advance_active_covered. destruct (last _ ≫= _) as [x|]; [|done].
  destruct (wr_entries_are_delta x); [|done]. cbn. destruct (prw_active_covered w) as [[[f l] t]|]; [|done].
  by destruct (last (wr_entries x)).
Qed.

(** The fields an fsync leaves alone. *)
Definition same_log (w w' : PersistentRaftWal) : Prop :=
  prw_options w' = prw_options w /\ prw_segments w' = prw_segments w /\ prw_active_segment w' = prw_active_segment w
  /\ prw_next_segment_id w' = prw_next_segment_id w /\ prw_expected_active_len w' = prw_expected_active_len w
  /\ prw_active_covered w' = prw_active_covered w.

Lemma fsync_spec s f : dk_files (st_disk s) !! prw_active_segment (st_wal s) = Some f ->
  exists out w', fsync_active_segment fsync_elapsed s
    = (Ok out, mkStore (put (prw_active_segment (st_wal s)) (mkSegmentFile (sf_bytes f) (length (sf_bytes f))) (st_disk s)) w')
    /\ same_log (st_wal s) w'.
Proof.
  intros Hf. eexists _, _. split.
  - unfold fsync_active_segment, gets, mbind, ST_bind. rewrite (on_disk_Ok _ _ _ _ (sync_data_put _ _ _ Hf)). reflexivity.
  - by destruct s as [d w]; destruct w.
Qed.

Lemma maybe_fsync_spec s id bytes n fsync :
  prw_active_segment (st_wal s) = id -> dk_files (st_disk s) !! id = Some (mkSegmentFile bytes n) -> n <= length bytes ->
  exists out w' n', (if fsync : bool then fsync_active_segment fsync_elapsed else mret (0%N, false)) s
    = (Ok out, mkStore (put id (mkSegmentFile bytes n') (st_disk s)) w')
    /\ same_log (st_wal s) w' /\ n' <= length bytes /\ (fsync = true -> n' = length bytes).
Proof.
  intros <- Hf Hn. destruct fsync.
  - destruct (fsync_spec s _ Hf) as (out & w' & E & Hsame). by exists out, w', (length bytes).
  - exists (0%N, false), (st_wal s), n. rewrite put_same by done. by destruct s.
Qed.

Lemma push_matches r active id rs : seg_matches active ((id, rs), false) ->
  seg_matches (push_record r active) ((id, rs ++ [r]), false).
Proof.
  intros (Hi & Hc & Hs & Hr). cbn in *. unfold seg_matches. cbn [fst snd]. rewrite push_record_records, Hr.
  unfold push_record. rewrite Hr. case_bool_decide; cbn; rewrite ?length_app, Hr; done.
Qed.

Lemma stored_app lay rs r : stored lay (rs ++ [r]) = stored lay rs ++ [r].
Proof. unfold stored. apply app_assoc. Qed.

Lemma write_frame_spec s lay id rs n r expected fsync : wal_inv s lay id rs n -> storable r ->
  advanced (coverage_of (log_of (stored lay rs))) r = coverage_of (log_of (stored lay (rs ++ [r]))) ->
  (forall e, expected = Some e -> e = N.of_nat (length (segment_file (rs ++ [r])))) ->
  exists out s' n', write_frame fsync_elapsed r (frame_of r) expected fsync s = (Ok out, s')
    /\ wal_inv s' lay id (rs ++ [r]) n' /\ prw_options (st_wal s') = prw_options (st_wal s)
    /\ (fsync = true -> n' = length (segment_file (rs ++ [r]))).
Proof.
  intros [Hval Hlock Hl Hn Hok Hne Hseg Hact Hnext Hexp Hcov] Hr Hadv Hexp'.
  destruct (described_last _ _ _ _ Hseg) as (before & active & Esegs & Hbefore & Hmatch).
  set (d1 := put id (mkSegmentFile (segment_file (rs ++ [r])) n) (st_disk s)).
  set (w1 := (st_wal s) <| prw_expected_active_len := expected |>).
  assert (n <= length (segment_file (rs ++ [r]))) as Hn' by (rewrite segment_file_snoc, length_app; lia).
  destruct (maybe_fsync_spec (mkStore d1 w1) id _ n fsync Hact (put_lookup _ _ _) Hn')
    as ([elapsed slow] & w2 & n' & Ef & (So & Ss & Sa & Sn & Se & Sc) & Hn2 & Hfs).
  cbn [st_wal st_disk] in *. assert (prw_segments w2 = before ++ [active]) as Es2 by (rewrite Ss; exact Esegs).
  destruct (push_active_covered r w2 _ _ Es2) as [Pc Ps]. destruct (push_active_other r w2) as (Po & Pa & Pn & Pe).
  eexists _, (mkStore (put id (mkSegmentFile (segment_file (rs ++ [r])) n') d1) (push_active r w2)), n'. split_and!.
  - unfold write_frame. rewrite (bind_Ok _ _ s id s) by (unfold wal, gets; by rewrite Hact).
    rewrite (bind_Ok _ _ s tt (s <| st_disk := d1 |>)).
    2:{ apply on_disk_Ok. rewrite (write_all_put _ _ _ _ (layout_lookup _ _ _ _ Hl)). cbn [sf_bytes sf_synced].
        by rewrite <- segment_file_snoc. }
    rewrite (bind_Ok _ _ (s <| st_disk := d1 |>) tt (mkStore d1 w1)) by done.
    rewrite (bind_Ok _ _ _ _ _ Ef). cbn beta iota. rewrite (bind_Ok _ _ _ (before ++ [active]) _) by (unfold wal, gets; cbn [st_wal]; by rewrite Es2).
    rewrite last_snoc. reflexivity.
  - split; cbn [st_wal st_disk]; rewrite ?Po, ?Pa, ?Pn, ?Pe, ?Pc, ?Ps, ?So, ?Sa, ?Sn, ?Se, ?Sc; try done.
    + subst d1. rewrite put_put. by apply layout_put with (f := mkSegmentFile (segment_file rs) n).
    + rewrite stored_app. apply Forall_app. split; [done|]. constructor; [done|constructor].
    + apply Forall2_app; [done|]. constructor; [by apply push_matches|constructor].
    + unfold w1. cbn [prw_active_covered update]. by rewrite Hcov.
  - cbn [st_wal]. by rewrite Po, So.
  - done.
Qed.

Lemma active_records_inv s lay id rs n : wal_inv s lay id rs n -> active_records (st_wal s) = length rs.
Proof.
  intros Hinv. destruct (described_last _ _ _ _ (wi_segments _ _ _ _ _ Hinv)) as (before & active & E & _ & _ & _ & _ & Hr).
  unfold active_records. rewrite E, last_snoc. cbn in *. by rewrite Hr.
Qed.

Lemma max_records_positive o : options_validate o = Ok tt -> 0 < pwo_max_records_per_segment o.
Proof. unfold options_validate. destruct (Nat.eqb_spec (pwo_max_records_per_segment o) 0); [done|lia]. Qed.

Lemma write_core_spec s lay id rs n r fsync incl : wal_inv s lay id rs n -> storable r ->
  (prw_next_segment_id (st_wal s) < u64_max)%N ->
  advanced (coverage_of (log_of (stored lay rs))) r = coverage_of (log_of (stored lay rs ++ [r])) ->
  exists report s' lay' id' rs' n',
    write_record_core json_record fsync_elapsed r (active_records (st_wal s)) (rolling_by_count (st_wal s)) fsync incl s
    = (Ok report, s')
    /\ wal_inv s' lay' id' rs' n' /\ stored lay' rs' = stored lay rs ++ [r]
    /\ (fsync = true -> n' = length (segment_file rs')) /\ (id' < u64_max)%N
    /\ (incl = true -> exists rep, report = Some rep /\ wwr_checksum rep = wr_checksum r).
Proof.
  intros Hinv Hr Hmax Hadv. rewrite (active_records_inv _ _ _ _ _ Hinv).
  assert (file_len id (st_disk s) = N.of_nat (length (segment_file rs))) as Hlen.
  { unfold file_len, file_bytes. by rewrite (layout_lookup _ _ _ _ (wi_layout _ _ _ _ _ Hinv)). }
  unfold write_record_core. rewrite (bind_Ok _ _ s (st_wal s) s) by done. rewrite (wi_active _ _ _ _ _ Hinv).
  rewrite (bind_Ok _ _ s (file_len id (st_disk s)) s) by (unfold on_disk, gets; by destruct s). rewrite Hlen.
  rewrite (bind_Ok _ _ s tt s).
  2:{ destruct (prw_expected_active_len (st_wal s)) as [e|] eqn:E; [|done].
      apply (wi_expected _ _ _ _ _ Hinv) in E as ->. by rewrite N.eqb_refl. }
  rewrite (bind_Ok _ _ s (frame_of r) s) by (unfold lift; by rewrite storable_frame). cbn zeta.
  set (rolled := rolling_by_count (st_wal s) || _).
  assert (rolled = true -> rs <> []) as Hne.
  { unfold rolled, rolling_by_count. rewrite (active_records_inv _ _ _ _ _ Hinv).
    pose proof (max_records_positive _ (wi_valid _ _ _ _ _ Hinv)). intros Hrolled ->.
    apply orb_true_iff in Hrolled as [Hrolled%Nat.leb_le|Hrolled]; [cbn in Hrolled; lia|by cbn in Hrolled]. }
  destruct rolled eqn:Erolled.
  - destruct (roll_spec _ _ _ _ _ Hinv (Hne eq_refl) Hmax) as (s1 & E1 & Hinv1 & _).
    rewrite (bind_Ok _ _ _ _ _ E1).
    destruct (write_frame_spec s1 _ _ _ _ r None fsync Hinv1 Hr) as ([[sid e] slow] & s2 & n' & E2 & Hinv2 & _ & Hf);
      [by rewrite stored_app, stored_snoc|done|].
    rewrite (bind_Ok _ _ _ _ _ E2). cbn beta iota. rewrite (bind_Ok _ _ s2 (st_wal s2) s2) by done.
    eexists _, s2, _, _, _, n'. split_and!; [reflexivity|exact Hinv2|by rewrite stored_app, stored_snoc|done|done|].
    intros ->. by eexists.
  - rewrite (bind_Ok _ _ s tt s) by done.
    destruct (write_frame_spec s _ _ _ _ r (Some (N.of_nat (length (segment_file rs)) + N.of_nat (length (frame_of r)))%N) fsync Hinv Hr)
      as ([[sid e] slow] & s2 & n' & E2 & Hinv2 & _ & Hf);
      [by rewrite stored_app|intros ? [= <-]; by rewrite segment_file_snoc, length_app, Nat2N.inj_add|].
    rewrite (bind_Ok _ _ _ _ _ E2). cbn beta iota. rewrite (bind_Ok _ _ s2 (st_wal s2) s2) by done.
    eexists _, s2, _, _, _, n'. split_and!; [reflexivity|exact Hinv2|apply stored_app|done| |].
    { pose proof (wi_next _ _ _ _ _ Hinv). lia. }
    intros ->. by eexists.
Qed.

(** ** The log after an append *)

Lemma log_of_snoc l r : Forall storable l -> storable r -> log_of (l ++ [r]) = fold_wal_entries_step (log_of l) r.
Proof.
  intros Hl (_ & Hr & _). unfold log_of, matrixraft_fold_wal_entries. rewrite fold_entries_app by done. cbn. by rewrite Hr.
Qed.

Lemma coverage_Some l f k t : coverage_of l = Some (f, k, t) ->
  exists a b, head l = Some a /\ last l = Some b /\ f = entry_index a /\ k = entry_index b /\ t = entry_term b.
Proof.
  unfold coverage_of. destruct (head l) as [a|]; [|done]. cbn. destruct (last l) as [b|]; [|done]. cbn.
  intros [= <- <- <-]. eauto 10.
Qed.

(** The log of the record extends the one stored: consecutive, matching it in
    Raft's sense, and starting no earlier. *)
Definition extends_log (log entries : list LogEntry) : Prop :=
  (exists first, consecutive first log) /\ (exists first, consecutive first entries) /\ logs_match log entries
  /\ forall a b, head log = Some a -> head entries = Some b -> (entry_index a <= entry_index b)%N.

Lemma delta_record_step log r : extends_log log (wr_entries r) ->
  let d := delta_record (coverage_of log) r in
  fold_wal_entries_step log d = wr_entries r /\ advanced (coverage_of log) d = coverage_of (wr_entries r).
Proof.
  intros ([cf Hcf] & [g Hg] & Hmatch & Hstart). cbn zeta. unfold delta_record.
  destruct (coverage_of log) as [[[fi li] lt]|] eqn:Ec; [|done]. apply coverage_Some in Ec as (a & b & Ha & Hb & -> & -> & ->).
  destruct (matrixraft_wal_delta_base _ _ _ _) as [base|] eqn:Eb; [|done].
  assert (entry_index a = cf) as Hacf by (rewrite head_lookup in Ha; rewrite (Hcf _ _ Ha); lia).
  rewrite Hacf in *. destruct (delta_base_covered _ _ _ _ _ _ Hcf Hg Hmatch Hb Eb) as (Hgc & Hcov & Hk & Hlen).
  assert (exists x, head (wr_entries r) = Some x) as [x Hx].
  { destruct (wr_entries r); [|by eexists]. destruct log; [done|]. cbn in *. lia. }
  pose proof (Hstart _ _ Ha Hx) as Hle. rewrite head_lookup in Hx. pose proof (Hg _ _ Hx) as Hgx.
  assert (g = cf) as -> by lia. rewrite N.sub_diag in *. cbn [N.to_nat Nat.add] in *. rewrite drop_0, Nat.sub_0_r in Hcov.
  split.
  - rewrite (delta_fold_step log (wr_entries r) _ cf cf b base) by done. by rewrite N.sub_diag, drop_0.
  - unfold advanced. cbn [wr_entries_are_delta wr_entries update].
    unfold coverage_of. rewrite head_lookup, Hx. cbn [mbind option_bind]. rewrite Hgx.
    change (N.of_nat 0) with 0%N. rewrite N.add_0_r. destruct (last (drop base (wr_entries r))) as [e|] eqn:El.
    + assert (last (wr_entries r) = Some e) as ->; [|done].
      rewrite <- (take_drop base (wr_entries r)), last_app, El. done.
    + apply last_None in El. assert (wr_entries r = log) as ->.
      { rewrite Hcov. rewrite <- (take_drop base (wr_entries r)) at 1. by rewrite El, app_nil_r. }
      rewrite Hb. done.
Qed.

(** ** Reading an open log back *)

Lemma segment_records_matches d sg p sealed : seg_matches sg (p, sealed) -> Forall storable p.2 ->
  (sealed = true -> dk_files d !! p.1 = Some (whole_file p.2)) ->
  segment_records json_record sg d = (Ok p.2, d).
Proof.
  intros (Hi & Hc & Hs & Hr) Hok Hfile. cbn in *. destruct sealed.
  - unfold segment_records. rewrite Hr, Hc. destruct p as [i [|x l]]; [done|]. cbn [fst snd] in *.
    change ((N.of_nat (length (x :: l)) =? 0)%N || negb (bool_decide (@nil WalRecord = []))) with false.
    rewrite Hi, (bind_Ok _ _ _ _ _ (read_segment_whole _ _ _ Hok (Hfile eq_refl))). done.
  - rewrite segment_records_memory by (by rewrite Hr). by rewrite Hr.
Qed.

(** Segments that describe records the disk holds. *)
Definition readable (d : Disk) (q : (N * list WalRecord) * bool) : Prop :=
  Forall storable q.1.2 /\ (q.2 = true -> dk_files d !! q.1.1 = Some (whole_file q.1.2)).

Lemma all_records_matches d segs qs : Forall2 seg_matches segs qs -> Forall (readable d) qs ->
  all_records json_record segs d = (Ok (qs ≫= (fun q => q.1.2)), d).
Proof.
  intros Hm. induction Hm as [|sg [p b] segs qs Hsg Hm IH]; intros Hr; [done|].
  apply Forall_cons in Hr as [[Hok Hf] Hr]. cbn [all_records].
  rewrite (bind_Ok _ _ _ _ _ (segment_records_matches d sg p b Hsg Hok Hf)), (bind_Ok _ _ _ _ _ (IH Hr)). done.
Qed.

Lemma fold_segments_matches d segs qs acc : Forall2 seg_matches segs qs -> Forall (readable d) qs ->
  fold_segments json_record acc segs d = (Ok (matrixraft_fold_wal_entries_from acc (qs ≫= (fun q => q.1.2))), d).
Proof.
  intros Hm. revert acc. induction Hm as [|sg [p b] segs qs Hsg Hm IH]; intros acc Hr; [done|].
  apply Forall_cons in Hr as [[Hok Hf] Hr]. cbn [fold_segments].
  rewrite (bind_Ok _ _ _ _ _ (segment_records_matches d sg p b Hsg Hok Hf)), IH by done. cbn [mbind list_bind].
  cbn [fst snd] in Hok. by rewrite fold_entries_app.
Qed.

Lemma described_stored lay id rs : (described lay id rs) ≫= (fun q => q.1.2) = stored lay rs.
Proof.
  unfold described, stored. rewrite bind_app. cbn. rewrite app_nil_r. f_equal.
  induction lay as [|p lay IH]; [done|]. cbn. f_equal. exact IH.
Qed.

Lemma described_readable s lay id rs n : wal_inv s lay id rs n -> Forall (readable (st_disk s)) (described lay id rs).
Proof.
  intros Hinv. pose proof (wi_storable _ _ _ _ _ Hinv) as [Hlay Hrs]%stored_storable. apply Forall_app. split.
  - apply Forall_fmap, Forall_forall. intros [i l] Hin. split; [by eapply Hlay|]. intros _. eapply layout_sealed; [apply Hinv|done].
  - constructor; [|constructor]. by split.
Qed.

Lemma latest_record_inv s lay id rs n : wal_inv s lay id rs n ->
  latest_record json_record s = (Ok (matrixraft_fold_wal_latest_record (stored lay rs)), s).
Proof.
  intros Hinv. unfold latest_record. rewrite (bind_Ok _ _ s (prw_segments (st_wal s)) s) by done.
  rewrite (bind_Ok _ _ s (Ok (stored lay rs)) s); [done|]. unfold catch, on_disk.
  rewrite (all_records_matches _ _ _ (wi_segments _ _ _ _ _ Hinv) (described_readable _ _ _ _ _ Hinv)), described_stored.
  by destruct s.
Qed.

Lemma valid_prefix_storable l : Forall storable l -> valid_prefix l = l.
Proof. intros Hl. apply valid_prefix_all. eapply Forall_impl; [exact Hl|]. by intros r (_ & ? & _). Qed.

Lemma latest_snoc l r : Forall storable (l ++ [r]) ->
  matrixraft_fold_wal_latest_record (l ++ [r]) = Some (whole_from_folded r (log_of (l ++ [r]))).
Proof.
  intros Hok. unfold matrixraft_fold_wal_latest_record. rewrite fold_latest_loop_spec, valid_prefix_storable, last_snoc by done.
  done.
Qed.

Lemma fold_wal_records_snoc acc l r : Forall storable (l ++ [r]) ->
  fold_wal_records_from acc (l ++ [r])
  = fold_wal_records_from acc l ++ [whole_from_folded r (matrixraft_fold_wal_entries_from acc (l ++ [r]))].
Proof.
  revert acc. induction l as [|x l IH]; intros acc [(_ & Hx & _) Hl]%Forall_cons; cbn; rewrite Hx; [done|]. cbn. by rewrite IH.
Qed.

Lemma fold_wal_records_committed acc l (bound : N) :
  Forall (fun r => (committed_index_of r <= bound)%N) l ->
  Forall (fun r => (committed_index_of r <= bound)%N) (fold_wal_records_from acc l).
Proof.
  intros Hl. revert acc. induction Hl as [|r l Hr Hl IH]; intros acc; [by constructor|]. cbn.
  destruct (matrixraft_wal_checksum_valid r); [|by constructor]. constructor; [exact Hr|apply IH].
Qed.

Lemma keep_max_bounded best l (bound : N) :
  (forall b, best = Some b -> (committed_index_of b <= bound)%N) -> Forall (fun r => (committed_index_of r <= bound)%N) l ->
  forall b, foldl keep_max best l = Some b -> (committed_index_of b <= bound)%N.
Proof.
  intros Hb Hl. revert best Hb. induction Hl as [|r l Hr Hl IH]; intros best Hb; [exact Hb|]. cbn. apply IH.
  intros b. unfold keep_max. destruct best as [b0|]; [|by intros [= <-]].
  destruct (_ <=? _)%N; intros [= <-]; [done|by apply Hb].
Qed.

(** Recovery picks the newest record when nothing stored committed more. *)
Lemma recover_snoc l r : Forall storable (l ++ [r]) ->
  recoverable (whole_from_folded r (log_of (l ++ [r]))) = true ->
  Forall (fun r' => (committed_index_of r' <= committed_index_of r)%N) l ->
  matrixraft_recover_from_wal_records (l ++ [r]) = (S (length l), Some (whole_from_folded r (log_of (l ++ [r])))).
Proof.
  intros Hok Hrec Hmax. rewrite streaming_recovery_equivalent, folded_length, valid_prefix_storable, length_app by done.
  f_equal; [cbn; lia|]. unfold matrixraft_recover_latest_wal_record. rewrite folded_valid_prefix.
  unfold matrixraft_fold_wal_records, matrixraft_fold_wal_record_iter. rewrite fold_wal_records_snoc by done.
  change (matrixraft_fold_wal_entries_from [] (l ++ [r])) with (log_of (l ++ [r])).
  rewrite filter_app, foldl_app, filter_cons_True by (by rewrite Hrec). cbn [filter list_filter foldl].
  destruct (foldl keep_max None _) as [b|] eqn:Eb; [|done]. cbn [keep_max].
  destruct (N.leb_spec (committed_index_of b) (committed_index_of (whole_from_folded r (log_of (l ++ [r]))))) as [|Hlt]; [done|].
  exfalso. apply (keep_max_bounded None _ (committed_index_of r)) in Eb; [|done|].
  - change (committed_index_of (whole_from_folded r _)) with (committed_index_of r) in Hlt. lia.
  - apply Forall_forall. intros x [_ Hx]%list_elem_of_filter.
    by eapply Forall_forall in Hx; [|by apply fold_wal_records_committed].
Qed.

Lemma append_with_report_spec s lay id rs n r :
  wal_inv s lay id rs n -> extends_log (log_of (stored lay rs)) (wr_entries r) ->
  storable (delta_record (prw_active_covered (st_wal s)) r) -> (prw_next_segment_id (st_wal s) < u64_max)%N ->
  let d := delta_record (prw_active_covered (st_wal s)) r in
  exists report s' lay' id' rs' n', append_with_report json_record fsync_elapsed r s = (Ok report, s')
    /\ wal_inv s' lay' id' rs' n' /\ stored lay' rs' = stored lay rs ++ [d]
    /\ log_of (stored lay' rs') = wr_entries r /\ wwr_checksum report = wr_checksum d
    /\ latest_record json_record s' = (Ok (Some (whole_from_folded d (wr_entries r))), s')
    /\ (pwo_fsync_on_append (prw_options (st_wal s)) = true -> n' = length (segment_file rs')) /\ (id' < u64_max)%N.
Proof.
  intros Hinv Hext Hst Hmax. cbn zeta. set (d := delta_record (prw_active_covered (st_wal s)) r) in *.
  pose proof (wi_storable _ _ _ _ _ Hinv) as Hok.
  assert (log_of (stored lay rs ++ [d]) = wr_entries r /\ advanced (coverage_of (log_of (stored lay rs))) d = coverage_of (wr_entries r))
    as [Hlog Hadv].
  { destruct (delta_record_step _ r Hext) as [Hfold Hadv]. rewrite <- (wi_covered _ _ _ _ _ Hinv) in *.
    rewrite (log_of_snoc _ _ Hok Hst). by split. }
  rewrite <- Hlog in Hadv.
  destruct (write_core_spec s lay id rs n d (pwo_fsync_on_append (prw_options (st_wal s))) true Hinv Hst Hmax Hadv)
    as (report & s' & lay' & id' & rs' & n' & E & Hinv' & Hstored & Hsync & Hid & Hrep).
  destruct (Hrep eq_refl) as (rep & -> & Hsum). exists rep, s', lay', id', rs', n'. split_and!; try done.
  - unfold append_with_report. rewrite (bind_Ok _ _ s (st_wal s) s) by done. unfold write_record.
    by rewrite (bind_Ok _ _ _ _ _ E).
  - by rewrite Hstored.
  - rewrite (latest_record_inv _ _ _ _ _ Hinv'), Hstored, latest_snoc, Hlog; [done|].
    rewrite <- Hstored. apply Hinv'.
Qed.

(** C12: the log on disk reads back as the log appended. An append of a record
    whose log extends the stored one succeeds, whether or not it rolls the
    segment; it adds one record to those on disk, a delta when one is sound; the
    entries the records fold to are exactly the entries of the record; reading the
    latest record gives them; and with [fsync_on_append] every byte of the active
    segment is on stable storage when it returns. *)
Theorem append_stores_log s lay id rs n r :
  wal_inv s lay id rs n -> extends_log (log_of (stored lay rs)) (wr_entries r) ->
  storable (delta_record (prw_active_covered (st_wal s)) r) -> (prw_next_segment_id (st_wal s) < u64_max)%N ->
  let d := delta_record (prw_active_covered (st_wal s)) r in
  exists report s' lay' id' rs' n', append_with_report json_record fsync_elapsed r s = (Ok report, s')
    /\ wal_inv s' lay' id' rs' n' /\ stored lay' rs' = stored lay rs ++ [d]
    /\ log_of (stored lay' rs') = wr_entries r /\ wwr_checksum report = wr_checksum d
    /\ latest_record json_record s' = (Ok (Some (whole_from_folded d (wr_entries r))), s')
    /\ (pwo_fsync_on_append (prw_options (st_wal s)) = true -> n' = length (segment_file rs')).
Proof.
  intros Hinv Hext Hst Hmax. cbn zeta.
  destruct (append_with_report_spec s lay id rs n r Hinv Hext Hst Hmax)
    as (report & s' & lay' & id' & rs' & n' & E & H1 & H2 & H3 & H4 & H5 & H6 & _).
  by exists report, s', lay', id', rs', n'.
Qed.

(** ** Compaction *)

Lemma sealed_files_cons i l lay : sealed_files ((i, l) :: lay) = <[i := whole_file l]> (sealed_files lay).
Proof. done. Qed.

Lemma sealed_files_fresh i lay : i ∉ lay.*1 -> sealed_files lay !! i = None.
Proof. intros Hi. apply not_elem_of_list_to_map. by rewrite sealed_files_keys. Qed.

Lemma sorted_cons_fresh i (l : list N) : StronglySorted N.lt (i :: l) -> i ∉ l.
Proof. intros Hs%sorted_lt_nodup. by apply NoDup_cons in Hs as [? _]. Qed.

Lemma layout_remove d i l lay id f : layout d ((i, l) :: lay) id f ->
  remove_file i d = (Ok tt, d <| dk_files ::= delete i |>) /\ layout (d <| dk_files ::= delete i |>) lay id f.
Proof.
  intros [E Hs]. split; [done|]. cbn in Hs. pose proof (sorted_cons_fresh _ _ Hs) as Hi. split.
  - cbn. rewrite E, sealed_files_cons. apply not_elem_of_app in Hi as [Hi Hid].
    rewrite delete_insert_ne, delete_insert_eq by (intros ->; by apply Hid, list_elem_of_singleton).
    f_equal. apply delete_id. by apply sealed_files_fresh.
  - by apply StronglySorted_inv in Hs as [? _].
Qed.

Lemma layout_remove_all d a b id f : layout d (a ++ b) id f ->
  exists d', for_each remove_file (a.*1) d = (Ok tt, d') /\ layout d' b id f /\ dk_locked d' = dk_locked d.
Proof.
  revert d. induction a as [|[i l] a IH]; intros d Hl; [by exists d|].
  destruct (layout_remove _ _ _ _ _ _ Hl) as [E Hl']. destruct (IH _ Hl') as (d' & E' & Hl'' & Hlock).
  exists d'. split_and!; [|done|done]. cbn [fmap list_fmap for_each fst]. by rewrite (bind_Ok _ _ _ _ _ E).
Qed.

Lemma sealed_files_rewrite a i l l' b : i ∉ a.*1 ->
  sealed_files (a ++ (i, l') :: b) = <[i := whole_file l']> (sealed_files (a ++ (i, l) :: b)).
Proof.
  induction a as [|[j x] a IH]; intros Hi; cbn [app].
  - rewrite !sealed_files_cons, insert_insert_eq. done.
  - rewrite !sealed_files_cons. cbn in Hi. apply not_elem_of_cons in Hi as [Hj Hi]. by rewrite IH, insert_insert_ne.
Qed.

Lemma layout_rewrite d a i l l' b id f : layout d (a ++ (i, l) :: b) id f ->
  layout (put i (whole_file l') d) (a ++ (i, l') :: b) id f.
Proof.
  intros Hl. assert (i <> id) as Hne by (eapply layout_id_fresh; [exact Hl|]; apply elem_of_app; right; left).
  destruct Hl as [E Hs]. split.
  - unfold put. cbn. rewrite E, (sealed_files_rewrite a i l l' b), insert_insert_ne; [done|done|].
    rewrite fmap_app, <- app_assoc in Hs. apply sorted_lt_nodup, NoDup_app in Hs as (_ & Hd & _).
    intros Hi. apply (Hd i Hi). left.
  - rewrite fmap_app in *. exact Hs.
Qed.

(** The fold restarts at a whole record. *)
Lemma fold_whole acc m rs : wr_entries_are_delta m = false -> matrixraft_wal_checksum_valid m = true ->
  matrixraft_fold_wal_entries_from acc (m :: rs) = matrixraft_fold_wal_entries_from (wr_entries m) rs.
Proof. intros Hd Hv. cbn. rewrite Hv. unfold fold_wal_entries_step. by rewrite Hd. Qed.

(** Dropping the records before a whole one keeps the log, and so does replacing
    the first record kept by the whole one it folds to. *)
Lemma log_of_suffix pre r rest : Forall storable (pre ++ r :: rest) -> wr_entries_are_delta r = false ->
  log_of (r :: rest) = log_of (pre ++ r :: rest).
Proof.
  intros Hok Hd. apply Forall_app in Hok as [Hpre Hok]. apply Forall_cons in Hok as [(_ & Hv & _) _].
  unfold log_of, matrixraft_fold_wal_entries. rewrite fold_entries_app, !fold_whole by done. done.
Qed.

Lemma log_of_materialized pre r rest : Forall storable (pre ++ r :: rest) ->
  log_of (whole_from_folded r (log_of (pre ++ [r])) :: rest) = log_of (pre ++ r :: rest).
Proof.
  intros Hok. apply Forall_app in Hok as [Hpre Hok]. apply Forall_cons in Hok as [Hr Hok].
  rewrite (cons_middle r pre rest). unfold log_of at 1 3, matrixraft_fold_wal_entries.
  rewrite fold_whole by (done || apply whole_valid). rewrite app_assoc, fold_entries_app; [done|].
  apply Forall_app. split; [done|]. by constructor.
Qed.

(** The first record kept, as compaction leaves it. *)
Definition kept_record (before : list WalRecord) (r : WalRecord) : WalRecord :=
  if wr_entries_are_delta r then whole_from_folded r (log_of (before ++ [r])) else r.

Lemma log_of_kept pre r rest : Forall storable (pre ++ r :: rest) ->
  log_of (kept_record pre r :: rest) = log_of (pre ++ r :: rest).
Proof.
  intros Hok. unfold kept_record. destruct (wr_entries_are_delta r) eqn:E;
    [by apply log_of_materialized|by apply log_of_suffix].
Qed.

Lemma latest_storable l : Forall storable l ->
  matrixraft_fold_wal_latest_record l = (fun r => whole_from_folded r (log_of l)) <$> last l.
Proof.
  intros Hok. unfold matrixraft_fold_wal_latest_record. rewrite fold_latest_loop_spec, valid_prefix_storable by done.
  by destruct (last l).
Qed.

Lemma latest_kept pre r rest : Forall storable (pre ++ r :: rest) -> storable (kept_record pre r) ->
  matrixraft_fold_wal_latest_record (kept_record pre r :: rest) = matrixraft_fold_wal_latest_record (pre ++ r :: rest).
Proof.
  intros Hok Hk. pose proof Hok as [_ [_ Hrest]%Forall_cons]%Forall_app.
  rewrite !latest_storable by (done || by constructor). rewrite (log_of_kept pre r rest Hok), last_app, !last_cons.
  destruct (last rest); [done|]. cbn. unfold kept_record. by destruct (wr_entries_are_delta r).
Qed.

Lemma described_split segs a x b id rs : Forall2 seg_matches segs (described (a ++ x :: b) id rs) ->
  exists sa sx sb, segs = sa ++ sx :: sb /\ Forall2 seg_matches sa ((fun p => (p, true)) <$> a)
    /\ seg_matches sx (x, true) /\ Forall2 seg_matches sb (described b id rs).
Proof.
  unfold described. rewrite fmap_app, <- app_assoc. intros (sa & l & Ha & Hl & ->)%Forall2_app_inv_r.
  cbn in Hl. apply Forall2_cons_inv_r in Hl as (sx & sb & Hx & Hb & ->). exists sa, sx, sb. done.
Qed.

Lemma matches_ids segs qs : Forall2 seg_matches segs qs -> ws_segment_id <$> segs = (fun q => q.1.1) <$> qs.
Proof. induction 1 as [|sg q segs qs (Hi & _) Hm IH]; [done|]. cbn. by rewrite Hi, IH. Qed.

Lemma sealed_ids (a : list (N * list WalRecord)) :
  (fun q : (N * list WalRecord) * bool => q.1.1) <$> ((fun p => (p, true)) <$> a) = a.*1.
Proof. by rewrite <- list_fmap_compose. Qed.

Lemma first_survivor_split sa sx sb (a : list (N * list WalRecord)) x :
  Forall2 seg_matches sa ((fun p => (p, true)) <$> a) -> seg_matches sx (x, true) -> x.1 ∉ a.*1 ->
  first_survivor (a.*1) (sa ++ sx :: sb) = Some (length a).
Proof.
  intros Ha (Hx & _) Hni. unfold first_survivor. cbn in Hx.
  assert (length sa = length a) as Hlen by (apply Forall2_length in Ha; by rewrite length_fmap in Ha).
  apply fmap_Some. exists (length a, sx). split; [|done]. apply list_find_Some. split_and!.
  - rewrite <- Hlen. by apply list_lookup_middle.
  - apply bool_decide_eq_false. by rewrite Hx.
  - intros j y Hy Hj. rewrite lookup_app_l in Hy by lia. unfold is_removable. rewrite bool_decide_eq_false. intros Hn. apply Hn.
    rewrite <- (sealed_ids a), <- (matches_ids _ _ Ha). apply list_elem_of_fmap. exists y. split; [done|]. by eapply list_elem_of_lookup_2.
Qed.

Lemma materialize_spec s a i r l b id rs n : wal_inv s (a ++ (i, r :: l) :: b) id rs n ->
  storable (kept_record (a ≫= snd) r) ->
  materialize_first_surviving_record json_record (a.*1) s
  = (Ok tt, s <| st_disk := put i (whole_file (kept_record (a ≫= snd) r :: l)) (st_disk s) |>).
Proof.
  intros Hinv Hk. pose proof Hinv as [_ _ Hl _ Hok _ Hseg _ _ _ _].
  pose proof (layout_sealed _ _ _ _ i (r :: l) Hl ltac:(apply elem_of_app; right; left)) as Hfile.
  assert (i ∉ a.*1) as Hni.
  { destruct Hl as [_ Hs]. rewrite fmap_app, <- app_assoc in Hs. apply sorted_lt_nodup, NoDup_app in Hs as (_ & Hd & _).
    intros Hi. apply (Hd i Hi). left. }
  pose proof (described_readable _ _ _ _ _ Hinv) as Hread. unfold described in Hread. rewrite fmap_app, <- app_assoc in Hread.
  apply Forall_app in Hread as [Hra Hread]. cbn in Hread. apply Forall_cons in Hread as [[Hsx Hfx] _]. cbn in Hsx.
  destruct (described_split _ _ _ _ _ _ Hseg) as (sa & sx & sb & E & Hsa & Hmx & Hsb).
  assert (length sa = length a) as Hlen by (apply Forall2_length in Hsa; by rewrite length_fmap in Hsa).
  unfold materialize_first_surviving_record. rewrite (bind_Ok _ _ s (sa ++ sx :: sb) s) by (unfold wal, gets; by rewrite E).
  rewrite (first_survivor_split sa sx sb a (i, r :: l)) by done. rewrite <- Hlen, list_lookup_middle by done. rewrite Hlen.
  rewrite (bind_Ok _ _ s (r :: l) s) by
    (rewrite (on_disk_Ok _ _ _ _ (segment_records_matches _ sx (i, r :: l) true Hmx Hsx Hfx)); by destruct s).
  unfold kept_record in *. destruct (wr_entries_are_delta r) eqn:Er.
  2:{ rewrite put_same by done. by destruct s. }
  assert (take (length a) (sa ++ sx :: sb) = sa) as -> by (by apply take_app_length').
  rewrite (bind_Ok _ _ s (log_of (a ≫= snd)) s).
  2:{ rewrite (on_disk_Ok _ _ (log_of (a ≫= snd)) (st_disk s)); [by destruct s|].
      rewrite (fold_segments_matches _ _ _ _ Hsa Hra). unfold log_of, matrixraft_fold_wal_entries. do 3 f_equal.
      clear. induction a as [|p a IH]; [done|]. cbn. f_equal. exact IH. }
  assert (matrixraft_fold_wal_entries_from (log_of (a ≫= snd)) [r] = log_of ((a ≫= snd) ++ [r])) as ->.
  { unfold log_of, matrixraft_fold_wal_entries. rewrite fold_entries_app; [done|].
    apply stored_storable in Hok as [Ha _]. apply Forall_forall. intros x ((j & y) & Hx & Hin)%list_elem_of_bind.
    specialize (Ha j y ltac:(apply elem_of_app; by left)). rewrite Forall_forall in Ha. by apply Ha. }
  cbn zeta. destruct Hmx as (Hxi & _ & Hxs & _). cbn in Hxi, Hxs. rewrite Hxs.
  change ((r <| wr_entries := log_of ((a ≫= snd) ++ [r]) |> <| wr_entries_are_delta := false |>)
    <| wr_checksum := _ |>) with (whole_from_folded r (log_of ((a ≫= snd) ++ [r]))).
  set (m := whole_from_folded r _) in *. apply Forall_cons in Hsx as [_ Hsl].
  rewrite (bind_Ok _ _ s tt (s <| st_disk := put i (whole_file (m :: l)) (st_disk s) |>)); [done|].
  apply on_disk_Ok. rewrite write_segment_put by (by constructor). cbn [update ws_records ws_segment_id]. by rewrite Hxi.
Qed.

Lemma filter_survivors sa sb (a : list (N * list WalRecord)) qs :
  Forall2 seg_matches sa ((fun p => (p, true)) <$> a) -> Forall2 seg_matches sb qs ->
  (forall q, q ∈ qs -> q.1.1 ∉ a.*1) ->
  filter (fun segment => is_removable (a.*1) segment = false) (sa ++ sb) = sb.
Proof.
  intros Ha Hb Hni. rewrite filter_app.
  assert (filter (fun segment => is_removable (a.*1) segment = false) sa = []) as ->.
  { rewrite <- (sealed_ids a), <- (matches_ids _ _ Ha). clear.
    destruct (filter _ sa) as [|y ys] eqn:E; [done|]. exfalso.
    assert (y ∈ y :: ys) as Hy by left. rewrite <- E in Hy. apply list_elem_of_filter in Hy as [Hy Hin].
    unfold is_removable in Hy. rewrite bool_decide_eq_false in Hy. apply Hy. by apply list_elem_of_fmap_2. }
  cbn. induction Hb as [|sg q sb qs (Hi & _) Hb IH]; [done|].
  rewrite filter_cons, decide_True.
  - f_equal. apply IH. intros q' Hq. apply Hni. by right.
  - unfold is_removable. rewrite bool_decide_eq_false, Hi. apply Hni. left.
Qed.

Lemma described_ids lay id rs q : q ∈ described lay id rs -> q.1.1 ∈ lay.*1 ++ [id].
Proof.
  unfold described. rewrite !elem_of_app. intros [(p & -> & Hp)%list_elem_of_fmap| ->%list_elem_of_singleton].
  - left. by apply list_elem_of_fmap_2.
  - right. by apply list_elem_of_singleton.
Qed.

(** The segments that stay match the records that stay. *)
Lemma described_kept sb i l l' b id rs sx : seg_matches sx ((i, l), true) -> length l' = length l ->
  Forall2 seg_matches sb (described b id rs) -> Forall2 seg_matches (sx :: sb) (described ((i, l') :: b) id rs).
Proof.
  intros (Hi & Hc & Hs & Hr) Hlen Hb. constructor; [|exact Hb]. unfold seg_matches. cbn in *. by rewrite Hlen.
Qed.

Lemma compact_spec s a i r l b id rs n log_index : wal_inv s (a ++ (i, r :: l) :: b) id rs n ->
  storable (kept_record (a ≫= snd) r) -> a <> [] -> removable_ids (st_wal s) log_index = a.*1 ->
  exists s', compact_through json_record log_index s = (Ok (N.of_nat (length a)), s')
    /\ wal_inv s' ((i, kept_record (a ≫= snd) r :: l) :: b) id rs n.
Proof.
  intros Hinv Hk Ha Hrem. pose proof Hinv as [Hval Hlock Hl Hn Hok Hne Hseg Hact Hnext Hexp Hcov].
  destruct (described_split _ _ _ _ _ _ Hseg) as (sa & sx & sb & E & Hsa & Hmx & Hsb).
  set (k := kept_record (a ≫= snd) r) in *.
  destruct (layout_remove_all _ a ((i, k :: l) :: b) id _ (layout_rewrite _ _ _ _ (k :: l) _ _ _ Hl)) as (d' & Ed & Hl' & Hlock').
  assert (Forall storable (stored (a ++ (i, r :: l) :: b) rs)) as Hok' by exact Hok.
  assert (stored (a ++ (i, r :: l) :: b) rs = (a ≫= snd) ++ r :: (l ++ stored b rs)) as Hst.
  { unfold stored. rewrite bind_app. cbn. rewrite <- !app_assoc. cbn. by rewrite <- app_assoc. }
  assert (stored ((i, k :: l) :: b) rs = k :: (l ++ stored b rs)) as Hst'.
  { unfold stored. cbn. by rewrite <- app_assoc. }
  rewrite Hst in Hok'. pose proof Hok' as [_ [_ Hrest]%Forall_cons]%Forall_app.
  assert (removable_ids (st_wal s) log_index <> []) as Hnil by (rewrite Hrem; by destruct a).
  assert ((length (prw_segments (st_wal s)) <=? pwo_min_keep_segments (prw_options (st_wal s)))%nat = false) as Hmany.
  { apply Nat.leb_gt. destruct (Nat.le_gt_cases (length (prw_segments (st_wal s))) (pwo_min_keep_segments (prw_options (st_wal s))));
      [|done]. exfalso. apply Hnil. unfold removable_ids. by replace (_ - _) with 0 by lia. }
  eexists. split.
  - unfold compact_through. rewrite (bind_Ok _ _ s (st_wal s) s) by done. rewrite Hmany. cbn zeta.
    rewrite bool_decide_false by done. rewrite Hrem. rewrite (bind_Ok _ _ _ _ _ (materialize_spec _ _ _ _ _ _ _ _ _ Hinv Hk)).
    cbn beta. set (s1 := s <| st_disk := _ |>). rewrite (bind_Ok _ _ s1 tt (s1 <| st_disk := d' |>)) by (by apply on_disk_Ok).
    cbn beta. rewrite length_fmap. erewrite bind_Ok by reflexivity. reflexivity.
  - split; cbn [st_wal st_disk update prw_options prw_segments prw_active_segment prw_next_segment_id prw_expected_active_len prw_active_covered]; try done.
    + by rewrite Hlock'.
    + rewrite Hst'. by constructor.
    + apply Forall_app in Hne as [_ Hne]. by apply Forall_cons in Hne as [_ Hne]; constructor.
    + rewrite E. rewrite (filter_survivors sa (sx :: sb) a (described ((i, k :: l) :: b) id rs));
        [by eapply described_kept|done|by eapply described_kept|].
      intros q Hq%described_ids Hin. destruct Hl as [_ Hs]. rewrite fmap_app, <- app_assoc in Hs.
      apply sorted_lt_nodup, NoDup_app in Hs as (_ & Hd & _). by apply (Hd q.1.1).
    + rewrite Hcov, Hst, Hst'. unfold k. by rewrite (log_of_kept _ _ _ Hok').
Qed.

(** C29: compaction keeps the log. When the segments it may remove come first in
    the directory and at least two segments are kept, compaction removes exactly
    those, and what is left, the first record turned back into a whole one when
    it was a delta against a removed one, folds to the same log and the same
    latest record; the files hold it, and appending goes on. *)
Theorem compaction_keeps_log s a b id rs n log_index :
  wal_inv s (a ++ b) id rs n -> 2 <= pwo_min_keep_segments (prw_options (st_wal s)) ->
  removable_ids (st_wal s) log_index = a.*1 ->
  (forall i r l b', b = (i, r :: l) :: b' -> storable (kept_record (a ≫= snd) r)) ->
  exists s' b', compact_through json_record log_index s = (Ok (N.of_nat (length a)), s')
    /\ wal_inv s' b' id rs n /\ b'.*1 = b.*1 /\ log_of (stored b' rs) = log_of (stored (a ++ b) rs)
    /\ exists latest, latest_record json_record s = (Ok latest, s) /\ latest_record json_record s' = (Ok latest, s').
Proof.
  intros Hinv Hkeep Hrem Hkept. pose proof (Forall2_length _ _ _ (wi_segments _ _ _ _ _ Hinv)) as Hlen.
  unfold described in Hlen. rewrite length_app, length_fmap, length_app in Hlen. cbn in Hlen.
  destruct a as [|p a].
  { exists s, b. split_and!; [|done..|by eexists; split; eapply latest_record_inv].
    unfold compact_through. rewrite (bind_Ok _ _ s (st_wal s) s) by done. cbn zeta. rewrite Hrem. destruct (_ <=? _)%nat; [done|].
    cbn. unfold on_disk, for_each, mret, ST_ret, mbind, ST_bind. by destruct s. }
  assert (length (p :: a) <= length (prw_segments (st_wal s)) - pwo_min_keep_segments (prw_options (st_wal s))) as Hle.
  { apply (f_equal length) in Hrem. rewrite length_fmap in Hrem. rewrite <- Hrem. unfold removable_ids.
    rewrite length_fmap. etrans; [apply length_filter|]. rewrite length_take. lia. }
  destruct b as [|[i [|r l]] b]; [cbn in *; lia| |].
  { exfalso. pose proof (wi_nonempty _ _ _ _ _ Hinv) as [_ [Hne _]%Forall_cons]%Forall_app. done. }
  destruct (compact_spec s (p :: a) i r l b id rs n log_index Hinv (Hkept _ _ _ _ eq_refl) ltac:(done) Hrem) as (s' & E & Hinv').
  exists s', ((i, kept_record ((p :: a) ≫= snd) r :: l) :: b).
  assert (stored ((p :: a) ++ (i, r :: l) :: b) rs = ((p :: a) ≫= snd) ++ r :: (l ++ stored b rs)) as Hst.
  { unfold stored. rewrite bind_app. cbn. rewrite <- !app_assoc. cbn. by rewrite <- !app_assoc. }
  assert (stored ((i, kept_record ((p :: a) ≫= snd) r :: l) :: b) rs = kept_record ((p :: a) ≫= snd) r :: (l ++ stored b rs)) as Hst'.
  { unfold stored. cbn. by rewrite <- app_assoc. }
  pose proof (wi_storable _ _ _ _ _ Hinv) as Hok. rewrite Hst in Hok. split_and!; [done|done|done| |].
  - rewrite Hst, Hst'. by apply log_of_kept.
  - eexists. split; [by eapply latest_record_inv|]. rewrite (latest_record_inv _ _ _ _ _ Hinv'), Hst, Hst'.
    rewrite latest_kept; [done|done|]. by eapply Hkept.
Qed.

(** ** A log just opened *)

(** The store opening leaves over these segments. *)
Definition open_store (options : PersistentRaftWalOptions) lay (id : N) (rs : list WalRecord) (synced : nat) : Store :=
  mkStore (mkDisk (<[id := mkSegmentFile (segment_file rs) synced]> (sealed_files lay)) true)
    (mkPersistentRaftWal options
       (release_sealed_segment_records (((fun p => segment_of p.1 p.2 true) <$> lay) ++ [segment_of id rs false]))
       id (id +w 1) 0 false 10 0 0 0 0 None 0 None (coverage_of (log_of (stored lay rs)))).

Lemma open_store_inv options lay id rs n : options_validate options = Ok tt -> StronglySorted N.lt (lay.*1 ++ [id]) ->
  n <= length (segment_file rs) -> Forall storable (stored lay rs) -> Forall (fun p => p.2 <> []) lay -> (id < u64_max)%N ->
  wal_inv (open_store options lay id rs n) lay id rs n.
Proof.
  intros Hval Hs Hn Hok Hne Hid. split; try done.
  - apply release_matches.
  - cbn. unfold wrapping_add, u64_modulus, u64_max in *. rewrite N.mod_small by lia. lia.
Qed.

(** A crash that keeps the first [k] bytes of its active segment. *)
Lemma crashed_cut options lay id rs n k : n <= k <= length (segment_file rs) ->
  crashed (st_disk (open_store options lay id rs n))
    (mkDisk (<[id := mkSegmentFile (take k (segment_file rs)) k]> (sealed_files lay)) false).
Proof.
  intros Hk. split_and!; [done| |].
  - cbn. by rewrite !dom_insert_L.
  - intros i f f' Hf Hf'. cbn [dk_files st_disk open_store] in Hf, Hf'. destruct (decide (i = id)) as [-> |Hne].
    + rewrite lookup_insert_eq in Hf, Hf'. simplify_eq. by exists k.
    + rewrite lookup_insert_ne in Hf, Hf' by done. assert (f' = f) as -> by congruence.
      apply sealed_files_lookup in Hf as (l & _ & ->). exists (length (segment_file l)). split; [done|].
      cbn [sf_bytes whole_file]. by rewrite take_ge.
Qed.

(** Opening an empty directory creates the first segment. *)
Lemma open_empty options d : options_validate options = Ok tt -> dk_locked d = false -> dk_files d = ∅ ->
  exists w report, open_recovered json_record options d
    = (Ok (w, report), mkDisk {[ 0%N := mkSegmentFile SEGMENT_MAGIC 0 ]} true)
    /\ wal_inv (mkStore (mkDisk {[ 0%N := mkSegmentFile SEGMENT_MAGIC 0 ]} true) w) [] 0 [] 0
    /\ wrr_recovered report = None.
Proof.
  intros Hval Hlock Hfiles. destruct d as [files locked]. cbn in Hlock, Hfiles. subst files locked.
  set (d1 := mkDisk {[ 0%N := mkSegmentFile SEGMENT_MAGIC 0 ]} true).
  assert (open_segment_for_append json_record 0 (mkDisk ∅ true) = (Ok 0%N, d1)) as Hopen.
  { set (d0 := mkDisk ∅ true). set (d2 := put 0 (mkSegmentFile [] 0) d0). unfold open_segment_for_append.
    rewrite (bind_Ok _ _ d0 [] d0), (bind_Ok _ _ d0 tt d0), (bind_Ok _ _ d0 ∅ d0), (bind_Ok _ _ d0 tt d2) by done.
    rewrite (bind_Ok _ _ d2 0%N d2), (bind_Ok _ _ d2 tt d1) by done. done. }
  eexists _, _. split_and!.
  - unfold open_recovered. erewrite bind_Ok; cycle 1.
    + apply open_inner_unlocked; [done|done|]. unfold open_locked. rewrite (bind_Ok _ _ _ ([], false) (mkDisk ∅ true)) by done.
      cbn beta iota zeta. erewrite bind_Ok by exact Hopen. reflexivity.
    + reflexivity.
  - split; try done; cbn.
    + split; [done|]. repeat constructor.
    + lia.
    + constructor; [done|constructor].
  - done.
Qed.
End store.
