(* ===== verification/WalStoreRuns.v ===== *)
(** * Concrete write-ahead logs

    The theorems of the log on disk applied to concrete directories, over the
    protobuf library of [Protobuf.v], and runs of the log that show where the code
    does not keep what it says it keeps. *)

From stdpp Require Import base strings pretty numbers sorting gmap list.
From Stdlib Require Import Strings.Byte.
From S2P Require Import Prelude Types Slice Bytes Membership Node Wal WalSegments WalBinary Protobuf WalStore WalStoreSafety.

(** ** Concrete logs *)

Definition no_json : list byte -> option WalRecord := fun _ => None.
Definition one_ms : N -> N := fun _ => 1%N.

(** A record whose log runs from 3 to [upto], committed up to [commit]. *)
Definition log_record (commit : option N) (upto : nat) : WalRecord :=
  sealed (mkWalRecord 9 1 (mkHardState 3 (Some 1%N) (mkLogId 3 <$> commit)) (mkMembership 9 [1; 2; 3]%N [] [] 1)
    ((fun i => sample_entry 3 (N.of_nat i)) <$> seq 3 (upto - 2)) false
    (Some (mkSnapshotMetadata "s" (mkLogId 2 2) [1; 2; 3]%N [] 7))
    (mkApplySnapshotFence (default 0%N commit) (default 0%N commit) 2 3) "").

Definition sample_options (max_records min_keep : nat) : PersistentRaftWalOptions :=
  mkPersistentRaftWalOptions "wal" max_records 65536 min_keep true.


Ltac machine_record :=
  lazymatch goal with
  | |- record_ok ?r => let v := eval vm_compute in (WalRecordProto_from r) in
      let E := fresh in
      assert (WalRecordProto_from r = v) as E by (vm_compute; reflexivity); unfold record_ok; rewrite E; clear E
  end;
  unfold WalRecordProto_ok; cbn [wrp_group_id wrp_node_id wrp_hard_state wrp_membership wrp_entries wrp_installed_snapshot
    wrp_apply_snapshot_fence wrp_checksum wrp_checksum_digest opt_ok u64_opt];
  unfold HardStateProto_ok, MembershipProto_ok, SnapshotMetadataProto_ok, ApplySnapshotFenceProto_ok, LogEntryProto_ok,
    PeerProto_ok, LogIdProto_ok; cbn;
  repeat (split || apply Forall_cons || apply Forall_nil); try reflexivity; vm_compute; discriminate.
Ltac storable_record := split; [machine_record|split; vm_compute; reflexivity].

Definition whole4 : WalRecord := log_record (Some 3%N) 4.
Definition delta5 : WalRecord := delta_record (coverage_of (wr_entries whole4)) (log_record (Some 4%N) 5).
Definition delta6 : WalRecord := delta_record (coverage_of (wr_entries (log_record (Some 4%N) 5))) (log_record (Some 5%N) 6).

Lemma sample_storable : Forall storable [whole4; delta5; delta6].
Proof. repeat apply Forall_cons_2; [storable_record..|apply Forall_nil_2]. Qed.
Lemma kept5_storable : storable (kept_record [whole4] delta5).
Proof. storable_record. Qed.

(** Two sealed segments and an active one. *)
Definition sample_lay : list (N * list WalRecord) := [(0%N, [whole4]); (1%N, [delta5])].
Definition three_segments : Store := open_store (sample_options 1 2) sample_lay 2 [delta6] 4.

Lemma sample_stored : stored sample_lay [delta6] = [whole4; delta5; delta6].
Proof. reflexivity. Qed.

Lemma three_segments_inv : wal_inv three_segments sample_lay 2 [delta6] 4.
Proof.
  apply open_store_inv; [done| |rewrite segment_file_length; lia|rewrite sample_stored; apply sample_storable| |done].
  - repeat constructor.
  - by repeat constructor.
Qed.

(** The crash loses the frame of the active segment, which was not synced. *)
Definition cut_disk : Disk := mkDisk (<[2%N := mkSegmentFile (take 20 (segment_file [delta6])) 20]> (sealed_files sample_lay)) false.

Lemma cut_disk_crashed : crashed (st_disk three_segments) cut_disk.
Proof. apply crashed_cut. split; [lia|]. apply Nat.leb_le. vm_compute. reflexivity. Qed.

Lemma crash_keeps_synced_records_witness :
  exists j report s' n', open_recovered no_json (sample_options 1 2) cut_disk = (Ok (st_wal s', report), st_disk s')
    /\ wal_inv s' sample_lay 2 (take j [delta6]) n'.
Proof.
  destruct (crash_keeps_synced_records no_json _ _ _ _ _ _ (sample_options 1 2) three_segments_inv cut_disk_crashed)
    as (j & report & s' & n' & E & Hinv & _); [done|done|done|]. exists j, report, s', n'. exact (conj E Hinv).
Defined.

Definition appended7 : WalRecord := log_record (Some 6%N) 7.

Lemma sample_log : log_of (stored sample_lay [delta6]) = sample_entry 3 <$> [3; 4; 5; 6]%N.
Proof. vm_compute. reflexivity. Qed.
Lemma appended_log : wr_entries appended7 = sample_entry 3 <$> [3; 4; 5; 6; 7]%N.
Proof. vm_compute. reflexivity. Qed.

Lemma sample_extends : extends_log (log_of (stored sample_lay [delta6])) (wr_entries appended7).
Proof.
  rewrite sample_log, appended_log. split_and!.
  - exists 3%N. apply consecutive_check. reflexivity.
  - exists 3%N. apply consecutive_check. reflexivity.
  - intros e1 e2 f1 f2 _ _ (i & -> & _)%list_elem_of_fmap (j & -> & _)%list_elem_of_fmap _ _ Hf _. cbn in Hf. by subst.
  - cbn. intros a b [= <-] [= <-]. done.
Qed.

Lemma append_stores_log_witness :
  exists report s' lay' id' rs' n', append_with_report no_json one_ms appended7 three_segments = (Ok report, s')
    /\ wal_inv s' lay' id' rs' n' /\ log_of (stored lay' rs') = wr_entries appended7.
Proof.
  destruct (append_stores_log no_json one_ms _ _ _ _ _ appended7 three_segments_inv sample_extends)
    as (report & s' & lay' & id' & rs' & n' & E & Hinv & _ & Hlog & _); [storable_record|vm_compute; reflexivity|].
  exists report, s', lay', id', rs', n'. exact (conj E (conj Hinv Hlog)).
Defined.

Lemma compaction_keeps_log_witness :
  exists s' b', compact_through no_json 3 three_segments = (Ok 1%N, s') /\ wal_inv s' b' 2 [delta6] 4.
Proof.
  destruct (compaction_keeps_log no_json three_segments [(0%N, [whole4])] [(1%N, [delta5])] 2 [delta6] 4 3 three_segments_inv)
    as (s' & b' & E & Hinv & _); [done|vm_compute; reflexivity| |exists s', b'; exact (conj E Hinv)].
  intros i r l b' [= <- <- <- <-]. exact kept5_storable.
Defined.

(** ** Where the log is lost *)

(** Runs from an empty directory. *)
Definition appends (rs : list WalRecord) : ST RaftError Store unit :=
  for_each (fun r => _ ← append no_json one_ms r; mret tt) rs.
Definition started (options : PersistentRaftWalOptions) : Store :=
  match open no_json options (mkDisk ∅ false) with
  | (Ok w, d) => mkStore d w
  | (Err _, d) => mkStore d (st_wal three_segments)
  end.
Definition indexes (r : result RaftError (option WalRecord) * Store) : list N :=
  match r with (Ok (Some w), _) => entry_index <$> wr_entries w | _ => [] end.

(** With one segment kept, compaction rewrites the active segment and its length
    changes under the writer, which takes it for a second writer: every append
    from then on is refused. *)
Example compaction_refuses_appends :
  let s := (appends [log_record (Some 3%N) 4; log_record (Some 4%N) 5; log_record (Some 5%N) 6; log_record (Some 6%N) 7]
              (started (sample_options 2 1))).2 in
  let '(released, s1) := compact_through no_json 4 s in
  released = Ok 1%N
  /\ exists why, (append no_json one_ms (log_record (Some 7%N) 8) s1).1 = Err (StorageErr why)
      /\ String.substring 0 21 why = "WAL active segment is".
Proof. vm_compute. split; [reflexivity|]. eexists. split; reflexivity. Qed.

(** A segment whose records commit nothing is measured by its last entry, so a
    later segment can be removed while it stays; the entries of the removed one
    are gone from the log. *)
Example compaction_drops_middle_segment :
  let s := (appends [log_record None 6; log_record (Some 3%N) 7; log_record (Some 4%N) 8; log_record (Some 5%N) 9]
              (started (sample_options 1 2))).2 in
  let '(released, s1) := compact_through no_json 3 s in
  indexes (latest_record no_json s) = [3; 4; 5; 6; 7; 8; 9]%N
  /\ released = Ok 1%N
  /\ indexes (latest_record no_json s1) = [3; 4; 5; 6; 8; 9]%N.
Proof. vm_compute. split_and!; reflexivity. Qed.

(** Rolling writes the sealed segment anew: its file is emptied first, and a crash
    before it is synced again loses records that were synced, and acknowledged,
    before. *)
Example rolling_unsyncs_records :
  let s := (appends [log_record (Some 3%N) 4] (started (sample_options 1 2))).2 in
  let after_create := (create_file 0 (st_disk s)).2 in
  let recovered d := match open_recovered no_json (sample_options 1 2) (d <| dk_locked := false |>) with
                     | (Ok (_, report), _) => Some (wrr_surviving_records report)
                     | _ => None
                     end in
  sf_synced <$> dk_files (st_disk s) !! 0%N = Some (length (file_bytes 0 (st_disk s)))
  /\ recovered (st_disk s) = Some 1 /\ recovered after_create = Some 0.
Proof. vm_compute. split_and!; reflexivity. Qed.

(** A record whose own checksum fails ends the reading of its segment, and the
    sound records behind it are cut off the file. *)
Example bad_checksum_discards_followers :
  let bad := whole4 <| wr_checksum := "0000000000000000" |> in
  let d := mkDisk {[ 0%N := whole_file [bad; whole4; delta5] ]} true in
  let '(r, d') := read_wal_segment_file no_json 0 d in
  r = Ok ([], true, false) /\ file_bytes 0 d' = SEGMENT_MAGIC.
Proof. vm_compute. split; reflexivity. Qed.
