(* ===== verification/Config.v ===== *)
(** * Configuration: limits, validation and derived tick counts

    Models [src/config.rs] and [PipelineLimits] of [src/pipeline.rs]. The
    theorems say what an accepted configuration guarantees the rest of the
    program, and that the sanitised pipeline limits never describe a pipeline
    that can do nothing. *)

From stdpp Require Import base strings pretty numbers list.
From S2P Require Import Prelude Types.

Record PipelineLimits := mkPipelineLimits {
  pl_max_inflights_replicate : N;
  pl_max_memory_replicate_log_bytes : N;
  pl_max_inflights_apply_task : N;
  pl_max_apply_batch_bytes : N;
  pl_enable_reorder_queue : bool;
  pl_reorder_window_size : N;
  pl_reorder_timeout_us : N
}.
#[export] Instance eta_PipelineLimits : Settable PipelineLimits :=
  fun r => mkPipelineLimits (pl_max_inflights_replicate r) (pl_max_memory_replicate_log_bytes r)
    (pl_max_inflights_apply_task r) (pl_max_apply_batch_bytes r) (pl_enable_reorder_queue r)
    (pl_reorder_window_size r) (pl_reorder_timeout_us r).

Definition production_default : PipelineLimits :=
  mkPipelineLimits 256 (64 * 1024 * 1024) 1024 (8 * 1024 * 1024) true 1024 5000000.

Record Config := mkConfig {
  election_timeout_ms : N;
  heartbeat_interval_ms : N;
  leader_lease_ms : N;
  last_follower_lease_ms : N;
  max_payload_bytes : N;
  max_log_buffer_bytes : N;
  snapshot_threshold_entries : N;
  max_segment_bytes : N;
  min_keep_segment_num : N;
  enable_pre_vote : bool;
  enable_lease_read : bool;
  assume_lease_when_start : bool;
  can_trigger_snapshot : bool;
  cfg_leader_transfer_timeout_ticks : N;
  cfg_peer_offline_timeout_ticks : N;
  cfg_snapshot_trigger_timeout_ticks : N;
  cfg_pipeline : PipelineLimits
}.
#[export] Instance eta_Config : Settable Config :=
  fun r => mkConfig (election_timeout_ms r) (heartbeat_interval_ms r) (leader_lease_ms r)
    (last_follower_lease_ms r) (max_payload_bytes r) (max_log_buffer_bytes r)
    (snapshot_threshold_entries r) (max_segment_bytes r) (min_keep_segment_num r)
    (enable_pre_vote r) (enable_lease_read r) (assume_lease_when_start r)
    (can_trigger_snapshot r) (cfg_leader_transfer_timeout_ticks r)
    (cfg_peer_offline_timeout_ticks r) (cfg_snapshot_trigger_timeout_ticks r) (cfg_pipeline r).

Definition default_max_log_buffer_bytes : N := 64 * 1024 * 1024.

Definition Config_default : Config :=
  mkConfig 1000 100 500 0 (8 * 1024 * 1024) default_max_log_buffer_bytes 10000
    (64 * 1024 * 1024) 2 true true true true 0 0 0 production_default.

Definition with_pipeline_limits (limits : PipelineLimits) (c : Config) : Config :=
  c <| cfg_pipeline := limits |>.

Definition pipeline_limits (c : Config) : PipelineLimits :=
  let p := cfg_pipeline c in
  mkPipelineLimits
    (N.max (pl_max_inflights_replicate p) 1)
    (N.max (pl_max_memory_replicate_log_bytes p) 1)
    (N.max (pl_max_inflights_apply_task p) 1)
    (N.max (pl_max_apply_batch_bytes p) 1)
    (pl_enable_reorder_queue p)
    (N.max (pl_reorder_window_size p) 1)
    (pl_reorder_timeout_us p).

Inductive ConfigError : Type :=
| ZeroElectionTimeout
| ZeroHeartbeatInterval
| ZeroLeaderLease
| HeartbeatNotLessThanElection (heartbeat_interval_ms election_timeout_ms : N)
| LeaseNotLessThanElection (leader_lease_ms election_timeout_ms : N)
| ZeroMaxPayloadBytes
| ZeroMaxLogBufferBytes
| ZeroSnapshotThreshold
| ZeroMaxSegmentBytes.

Definition ConfigError_to_string (e : ConfigError) : string :=
  match e with
  | ZeroElectionTimeout => "election_timeout_ms must be greater than zero"
  | ZeroHeartbeatInterval => "heartbeat_interval_ms must be greater than zero"
  | ZeroLeaderLease => "leader_lease_ms must be greater than zero"
  | HeartbeatNotLessThanElection h t =>
      "heartbeat_interval_ms (" ++s pretty h ++s ") must be less than election_timeout_ms ("
      ++s pretty t ++s ")"
  | LeaseNotLessThanElection l t =>
      "leader_lease_ms (" ++s pretty l ++s ") must be less than election_timeout_ms ("
      ++s pretty t ++s ")"
  | ZeroMaxPayloadBytes => "max_payload_bytes must be greater than zero"
  | ZeroMaxLogBufferBytes => "max_log_buffer_bytes must be greater than zero"
  | ZeroSnapshotThreshold => "snapshot_threshold_entries must be greater than zero"
  | ZeroMaxSegmentBytes => "max_segment_bytes must be greater than zero"
  end.

Definition validate (c : Config) : result ConfigError unit :=
  if (election_timeout_ms c =? 0)%N then Err ZeroElectionTimeout
  else if (heartbeat_interval_ms c =? 0)%N then Err ZeroHeartbeatInterval
  else if (leader_lease_ms c =? 0)%N then Err ZeroLeaderLease
  else if (election_timeout_ms c <=? heartbeat_interval_ms c)%N then
    Err (HeartbeatNotLessThanElection (heartbeat_interval_ms c) (election_timeout_ms c))
  else if (election_timeout_ms c <=? leader_lease_ms c)%N then
    Err (LeaseNotLessThanElection (leader_lease_ms c) (election_timeout_ms c))
  else if (max_payload_bytes c =? 0)%N then Err ZeroMaxPayloadBytes
  else if (max_log_buffer_bytes c =? 0)%N then Err ZeroMaxLogBufferBytes
  else if (snapshot_threshold_entries c =? 0)%N then Err ZeroSnapshotThreshold
  else if (max_segment_bytes c =? 0)%N then Err ZeroMaxSegmentBytes
  else Ok tt.

(** [impl From<ConfigError> for RaftError]. *)
Definition from_ConfigError (e : ConfigError) : RaftError := ConfigErr (ConfigError_to_string e).

(** What the rest of the program may rely on. *)
Definition config_ok (c : Config) : Prop :=
  (0 < heartbeat_interval_ms c < election_timeout_ms c)%N
  /\ (0 < leader_lease_ms c < election_timeout_ms c)%N
  /\ (0 < max_payload_bytes c)%N /\ (0 < max_log_buffer_bytes c)%N
  /\ (0 < snapshot_threshold_entries c)%N /\ (0 < max_segment_bytes c)%N.

Lemma validate_ok c : validate c = Ok tt <-> config_ok c.
Proof.
  unfold validate, config_ok.
  repeat match goal with
  | |- context [(?a =? ?b)%N] => destruct (N.eqb_spec a b); [split; [done|lia]|]
  | |- context [(?a <=? ?b)%N] => destruct (N.leb_spec a b); [split; [done|lia]|]
  end. split; [lia|done].
Qed.

(** A capacity that the sanitised limits never leave at zero. *)
Definition limits_positive (l : PipelineLimits) : Prop :=
  (0 < pl_max_inflights_replicate l)%N /\ (0 < pl_max_memory_replicate_log_bytes l)%N
  /\ (0 < pl_max_inflights_apply_task l)%N /\ (0 < pl_max_apply_batch_bytes l)%N
  /\ (0 < pl_reorder_window_size l)%N.

Lemma pipeline_limits_positive c : limits_positive (pipeline_limits c).
Proof. unfold limits_positive, pipeline_limits. cbn. lia. Qed.
