(* ===== verification/Pipeline.v ===== *)
(** * The per-peer replication pipeline

    Models [PeerProgress] and [ReplicationPipeline] of [src/pipeline.rs]: the
    append queue and its flush into in-flight batches, the response handler
    with the Probe/Replicate flow control, the reorder queue, the apply window
    and the snapshot transfer. The three [VecDeque]s are lists with the front
    first, the reorder queue is the [BTreeMap] it is. Counters that the source
    bumps with a plain [+= 1] wrap.

    The theorems: the window accounting is exact and the memory, queue, apply
    and reorder bounds hold on every reachable state; a flush sends the queue
    in order as consecutive batches and stops only for a stated reason; the
    reorder drain takes exactly the contiguous run; an append response never
    lowers the match index; snapshot transfers never overlap. *)

From stdpp Require Import base strings pretty numbers gmap fin_maps sets list.
From S2P Require Import Prelude Types Config.

Inductive ProgressState : Type := Probe | Replicate.
#[export] Instance ProgressState_eq_dec : EqDecision ProgressState.
Proof. solve_decision. Defined.

Record PeerProgress := mkPeerProgress {
  pp_peer_id : N;
  pp_progress_state : ProgressState;
  pp_paused : bool;
  pp_old_paused : bool;
  pp_match_index : N;
  pp_next_index : N;
  pp_append_requests : N;
  pp_append_batches : N;
  pp_max_append_batch_entries : N;
  pp_max_append_batch_bytes : N;
  pp_append_accepted : N;
  pp_append_rejected : N;
  pp_retry_attempts : N;
  pp_backoff_ms : N;
  pp_next_retry_after_ms : N;
  pp_inflight_entries : N;
  pp_inflight_bytes : N;
  pp_append_queue_depth : N;
  pp_append_queue_limit : N;
  pp_append_queue_max_depth : N;
  pp_inflight_bytes_limit : N;
  pp_apply_inflight_tasks : N;
  pp_apply_inflight_limit : N;
  pp_apply_queue_depth : N;
  pp_apply_queue_max_depth : N;
  pp_apply_batch_bytes_limit : N;
  pp_apply_backpressure_rejections : N;
  pp_memory_backpressure_rejections : N;
  pp_oversized_log_rejections : N;
  pp_reorder_queue_depth : N;
  pp_out_of_order_append_rejections : N;
  pp_reorder_entries_rejected : N;
  pp_reorder_entries_converged : N;
  pp_reorder_entry_timeouts : N;
  pp_reorder_dropped_packages : N;
  pp_stale_term_rejections : N;
  pp_packet_loss_events : N;
  pp_network_error_probe_transitions : N;
  pp_snapshot_sending : bool;
  pp_snapshot_installing : bool;
  pp_snapshot_installed_index : N;
  pp_snapshot_send_attempts : N;
  pp_snapshot_install_total_chunks : N;
  pp_snapshot_install_progress_per_mille : N;
  pp_snapshot_backpressure_rejections : N;
  pp_snapshot_rate_limit_rejections : N;
  pp_snapshot_install_rolled_back : N;
  pp_snapshot_chunk_retry_count : N;
  pp_snapshot_send_timeouts : N;
  pp_required_snapshot_index : LogIndex;
  pp_acked_snapshot_index : LogIndex;
  pp_snapshot_during_membership_change : bool;
  pp_snapshot_rejoin_after_compacted_log : bool;
  pp_transfer_leader_target : bool;
  pp_transfer_leader_timeouts : N;
  pp_pre_vote_rejections : N;
  pp_election_rejections : N;
  pp_offline_timeout_reached : bool;
  pp_offline_timeout_rejections : N;
  pp_follower_lag : LogIndex;
  pp_learner_catchup_rounds : N;
  pp_learner_caught_up : bool;
  pp_witness_quorum_required : N;
  pp_witness_quorum_acked : N;
  pp_witness_quorum_reached : bool
}.
#[export] Instance eta_PeerProgress : Settable PeerProgress :=
  fun r => mkPeerProgress (pp_peer_id r) (pp_progress_state r) (pp_paused r) (pp_old_paused r)
    (pp_match_index r) (pp_next_index r) (pp_append_requests r) (pp_append_batches r)
    (pp_max_append_batch_entries r) (pp_max_append_batch_bytes r) (pp_append_accepted r)
    (pp_append_rejected r) (pp_retry_attempts r) (pp_backoff_ms r) (pp_next_retry_after_ms r)
    (pp_inflight_entries r) (pp_inflight_bytes r) (pp_append_queue_depth r)
    (pp_append_queue_limit r) (pp_append_queue_max_depth r) (pp_inflight_bytes_limit r)
    (pp_apply_inflight_tasks r) (pp_apply_inflight_limit r) (pp_apply_queue_depth r)
    (pp_apply_queue_max_depth r) (pp_apply_batch_bytes_limit r)
    (pp_apply_backpressure_rejections r) (pp_memory_backpressure_rejections r)
    (pp_oversized_log_rejections r) (pp_reorder_queue_depth r)
    (pp_out_of_order_append_rejections r) (pp_reorder_entries_rejected r)
    (pp_reorder_entries_converged r) (pp_reorder_entry_timeouts r)
    (pp_reorder_dropped_packages r) (pp_stale_term_rejections r) (pp_packet_loss_events r)
    (pp_network_error_probe_transitions r) (pp_snapshot_sending r) (pp_snapshot_installing r)
    (pp_snapshot_installed_index r) (pp_snapshot_send_attempts r)
    (pp_snapshot_install_total_chunks r) (pp_snapshot_install_progress_per_mille r)
    (pp_snapshot_backpressure_rejections r) (pp_snapshot_rate_limit_rejections r)
    (pp_snapshot_install_rolled_back r) (pp_snapshot_chunk_retry_count r)
    (pp_snapshot_send_timeouts r) (pp_required_snapshot_index r) (pp_acked_snapshot_index r)
    (pp_snapshot_during_membership_change r) (pp_snapshot_rejoin_after_compacted_log r)
    (pp_transfer_leader_target r) (pp_transfer_leader_timeouts r) (pp_pre_vote_rejections r)
    (pp_election_rejections r) (pp_offline_timeout_reached r) (pp_offline_timeout_rejections r)
    (pp_follower_lag r) (pp_learner_catchup_rounds r) (pp_learner_caught_up r)
    (pp_witness_quorum_required r) (pp_witness_quorum_acked r) (pp_witness_quorum_reached r).

Definition PeerProgress_new (peer_id : NodeId) (next_index : LogIndex) (limits : PipelineLimits)
    : PeerProgress :=
  mkPeerProgress peer_id Probe false false (saturating_sub next_index 1) next_index 0 0 0 0 0 0
    0 0 0 0 0 0 (pl_max_inflights_replicate limits) 0 (pl_max_memory_replicate_log_bytes limits)
    0 (pl_max_inflights_apply_task limits) 0 0 (pl_max_apply_batch_bytes limits) 0 0 0 0 0 0 0 0
    0 0 0 0 false false 0 0 0 0 0 0 0 0 0 0 0 false false false 0 0 0 false 0 0 0 false 0 0
    false.

Record InflightAppend := mkInflightAppend {
  if_first_log_id : LogId;
  if_last_log_id : LogId;
  if_entry_count : N;
  if_bytes : N
}.

Record SnapshotTransferState := mkSnapshotTransferState {
  st_snapshot_id : string;
  st_snapshot_index : LogIndex;
  st_total_chunks : N;
  st_acknowledged_chunks : N;
  st_bytes_sent : N;
  st_bytes_received : N;
  st_latest_receiving_elapsed_ms : N
}.
#[export] Instance eta_SnapshotTransferState : Settable SnapshotTransferState :=
  fun r => mkSnapshotTransferState (st_snapshot_id r) (st_snapshot_index r) (st_total_chunks r)
    (st_acknowledged_chunks r) (st_bytes_sent r) (st_bytes_received r)
    (st_latest_receiving_elapsed_ms r).

Record ApplyInflightTask := mkApplyInflightTask {
  at_applied_index : LogIndex;
  at_batch_bytes : N
}.

Record QueuedAppend := mkQueuedAppend {
  qa_log_id : LogId;
  qa_bytes : N
}.

Record ReplicationPipeline := mkReplicationPipeline {
  rp_peer_id : NodeId;
  rp_limits : PipelineLimits;
  rp_status : PeerProgress;
  rp_append_queue : list QueuedAppend;
  rp_append_queue_bytes : N;
  rp_inflight : list InflightAppend;
  rp_apply_inflight : list ApplyInflightTask;
  rp_reorder_queue : gmap N N;
  rp_snapshot_transfer : option SnapshotTransferState
}.
#[export] Instance eta_ReplicationPipeline : Settable ReplicationPipeline :=
  fun r => mkReplicationPipeline (rp_peer_id r) (rp_limits r) (rp_status r) (rp_append_queue r)
    (rp_append_queue_bytes r) (rp_inflight r) (rp_apply_inflight r) (rp_reorder_queue r)
    (rp_snapshot_transfer r).

(** Update of a field of [self.status]. *)
Notation "p <|| f := v ||>" := (update rp_status (update f (fun _ => v)) p)
  (at level 1, f at level 0, left associativity).
Notation "p <|| f ::= g ||>" := (update rp_status (update f g) p)
  (at level 1, f at level 0, left associativity).

(** [+= 1] on a [u64] counter. *)
Abbreviation bump := (fun c => c +w 1).

Definition pipeline_new (peer_id : NodeId) (next_index : LogIndex) (limits : PipelineLimits)
    : ReplicationPipeline :=
  mkReplicationPipeline peer_id limits (PeerProgress_new peer_id next_index limits)
    [] 0 [] [] ∅ None.

Definition reset_for_leader_transition (match_index next_index : LogIndex)
    (progress_state : ProgressState) (p : ReplicationPipeline) : ReplicationPipeline :=
  p <| rp_status := (PeerProgress_new (rp_peer_id p) next_index (rp_limits p))
         <| pp_match_index := match_index |>
         <| pp_next_index := next_index |>
         <| pp_progress_state := progress_state |> |>
    <| rp_append_queue := [] |>
    <| rp_append_queue_bytes := 0%N |>
    <| rp_inflight := [] |>
    <| rp_apply_inflight := [] |>
    <| rp_reorder_queue := ∅ |>
    <| rp_snapshot_transfer := None |>.

Definition set_progress_state (progress_state : ProgressState) (p : ReplicationPipeline) :=
  p <|| pp_progress_state := progress_state ||> <|| pp_paused := false ||>.

Definition pause (p : ReplicationPipeline) : ReplicationPipeline := p <|| pp_paused := true ||>.

Definition inflight_is_full (p : ReplicationPipeline) : bool :=
  (pl_max_inflights_replicate (rp_limits p) <=? pp_inflight_entries (rp_status p))%N.

(** The accounting of one batch that leaves the in-flight window. *)
Definition release_inflight (i : InflightAppend) (p : ReplicationPipeline) : ReplicationPipeline :=
  p <|| pp_inflight_entries ::= (fun c => saturating_sub c (if_entry_count i)) ||>
    <|| pp_inflight_bytes ::= (fun c => saturating_sub c (if_bytes i)) ||>.

Definition free_first_inflight (p : ReplicationPipeline) : ReplicationPipeline :=
  match rp_inflight p with
  | [] => p
  | i :: rest => release_inflight i (p <| rp_inflight := rest |>)
  end.

Definition resume (p : ReplicationPipeline) : ReplicationPipeline :=
  match pp_progress_state (rp_status p) with
  | Probe => p <|| pp_paused := false ||>
  | Replicate =>
      if inflight_is_full p
      then (free_first_inflight p) <|| pp_old_paused := true ||>
      else p
  end.

Definition is_paused (p : ReplicationPipeline) : bool :=
  match pp_progress_state (rp_status p) with
  | Probe => pp_paused (rp_status p)
  | Replicate => inflight_is_full p
  end.

Definition inflight_is_empty (p : ReplicationPipeline) : bool :=
  match pp_progress_state (rp_status p) with
  | Probe => false
  | Replicate => match rp_inflight p with [] => true | _ => false end
  end.

Definition take_empty_append_due_to_old_pause (p : ReplicationPipeline)
    : bool * ReplicationPipeline :=
  if pp_old_paused (rp_status p) && inflight_is_empty p
  then (true, p <|| pp_old_paused := false ||>)
  else (false, p).

Definition queue_append (entry : LogEntry) : ST RaftError ReplicationPipeline unit := fun p =>
  let bytes := payload_len entry in
  if (pl_max_apply_batch_bytes (rp_limits p) <? bytes)%N then
    (Err (InvalidRequest "append entry exceeds max apply batch bytes"),
     p <|| pp_oversized_log_rejections ::= bump ||>)
  else if (pp_append_queue_limit (rp_status p) <=? N.of_nat (length (rp_append_queue p)))%N then
    (Err (InvalidRequest "append queue backpressure limit reached"),
     p <|| pp_apply_backpressure_rejections ::= bump ||>)
  else if (pl_max_memory_replicate_log_bytes (rp_limits p)
           <? pp_inflight_bytes (rp_status p) +w rp_append_queue_bytes p +w bytes)%N then
    (Err (InvalidRequest "replication memory backpressure limit reached"),
     p <|| pp_memory_backpressure_rejections ::= bump ||>)
  else
    let p := p <| rp_append_queue ::= (fun q => q ++ [mkQueuedAppend (log_id entry) bytes]) |> in
    let p := p <| rp_append_queue_bytes ::= (fun b => b +s bytes) |> in
    let p := p <|| pp_append_queue_depth := N.of_nat (length (rp_append_queue p)) ||> in
    let p := p <|| pp_append_queue_max_depth ::=
                     (fun d => N.max d (pp_append_queue_depth (rp_status p))) ||> in
    (Ok tt, p).

(** The inner [while entry_count < max_entries] loop: what it takes from the
    front of the queue, as (entry count, bytes, last log id, queue, queue bytes). *)
Fixpoint take_batch (max_entries max_bytes inflight_bytes memory_limit : N)
    (entry_count bytes : N) (last_log_id : LogId) (queue_bytes : N)
    (queue : list QueuedAppend) : N * N * LogId * list QueuedAppend * N :=
  match queue with
  | [] => (entry_count, bytes, last_log_id, [], queue_bytes)
  | queued :: rest =>
      if negb (entry_count <? max_entries)%N then
        (entry_count, bytes, last_log_id, queue, queue_bytes)
      else
        let entry_bytes := qa_bytes queued in
        if (0 <? entry_count)%N && (max_bytes <? bytes +w entry_bytes)%N then
          (entry_count, bytes, last_log_id, queue, queue_bytes)
        else if (memory_limit <? inflight_bytes +w bytes +w entry_bytes)%N then
          (entry_count, bytes, last_log_id, queue, queue_bytes)
        else
          take_batch max_entries max_bytes inflight_bytes memory_limit
            (entry_count +w 1) (bytes +w entry_bytes) (qa_log_id queued)
            (saturating_sub queue_bytes entry_bytes) rest
  end.

(** What one round of the outer loop records for the batch it built. *)
Definition record_batch (i : InflightAppend) (p : ReplicationPipeline) : ReplicationPipeline :=
  p <|| pp_append_requests ::= bump ||>
    <|| pp_append_batches ::= bump ||>
    <|| pp_max_append_batch_entries ::= (fun m => N.max m (if_entry_count i)) ||>
    <|| pp_max_append_batch_bytes ::= (fun m => N.max m (if_bytes i)) ||>
    <|| pp_inflight_entries ::= (fun c => c +w if_entry_count i) ||>
    <|| pp_inflight_bytes ::= (fun c => c +w if_bytes i) ||>
    <| rp_inflight ::= (fun l => l ++ [i]) |>.

(** The outer loop. Each round that continues takes at least one entry from
    the queue, so the queue length plus one rounds reach the exit. *)
Fixpoint flush_loop (fuel : nat) (max_entries max_bytes : N) (p : ReplicationPipeline)
    : list InflightAppend * ReplicationPipeline :=
  match fuel with
  | O => ([], p)
  | S fuel' =>
      if negb (is_paused p)
         && (pp_inflight_entries (rp_status p) <? pl_max_inflights_replicate (rp_limits p))%N
      then
        match rp_append_queue p with
        | [] => ([], p)
        | front :: _ =>
            let '(entry_count, bytes, last_log_id, queue, queue_bytes) :=
              take_batch max_entries max_bytes (pp_inflight_bytes (rp_status p))
                (pl_max_memory_replicate_log_bytes (rp_limits p))
                0 0 (qa_log_id front) (rp_append_queue_bytes p) (rp_append_queue p) in
            let p := p <| rp_append_queue := queue |> <| rp_append_queue_bytes := queue_bytes |> in
            if (entry_count =? 0)%N then
              ([], p <|| pp_memory_backpressure_rejections ::= bump ||>)
            else
              let inflight := mkInflightAppend (qa_log_id front) last_log_id entry_count bytes in
              let p := record_batch inflight p in
              if bool_decide (pp_progress_state (rp_status p) = Probe)
              then ([inflight], pause p)
              else
                let '(more, p) := flush_loop fuel' max_entries max_bytes p in
                (inflight :: more, p)
        end
      else ([], p)
  end.

(** [flush_append_batch_core]; the batches are what [flush_append_batch_into]
    pushes and their number is the returned count. *)
Definition flush_append_batch_core (max_entries max_bytes : N) (p : ReplicationPipeline)
    : list InflightAppend * ReplicationPipeline :=
  let max_entries :=
    if bool_decide (pp_progress_state (rp_status p) = Probe) then 1%N else N.max max_entries 1 in
  let max_bytes := N.max max_bytes 1 in
  let '(flushed, p) := flush_loop (S (length (rp_append_queue p))) max_entries max_bytes p in
  (flushed, p <|| pp_append_queue_depth := N.of_nat (length (rp_append_queue p)) ||>).

Definition flush_append_batch_counted (max_entries max_bytes : N) (p : ReplicationPipeline)
    : nat * ReplicationPipeline :=
  let '(flushed, p) := flush_append_batch_core max_entries max_bytes p in (length flushed, p).

Definition flush_append_window (p : ReplicationPipeline)
    : list InflightAppend * ReplicationPipeline :=
  flush_append_batch_core 1 (pl_max_apply_batch_bytes (rp_limits p)) p.

(** ** Responses *)

Definition next_backoff_ms (retry_attempts : N) : N :=
  let shift := N.min (saturating_sub retry_attempts 1) 10 in
  N.min (saturating_mul 10 (N.shiftl 1 shift)) 5000.

Definition reset_inflight_window (p : ReplicationPipeline) : ReplicationPipeline :=
  p <| rp_inflight := [] |> <|| pp_inflight_entries := 0%N ||> <|| pp_inflight_bytes := 0%N ||>.

(** The [while] loop pops the front batch while it is acknowledged. *)
Fixpoint release_prefix (l : list InflightAppend) (match_index : LogIndex)
    (p : ReplicationPipeline) : ReplicationPipeline :=
  match l with
  | [] => p <| rp_inflight := [] |>
  | i :: rest =>
      if (lid_index (if_last_log_id i) <=? match_index)%N
      then release_prefix rest match_index (release_inflight i p)
      else p <| rp_inflight := i :: rest |>
  end.

Definition release_inflight_through (match_index : LogIndex) (p : ReplicationPipeline)
    : ReplicationPipeline :=
  release_prefix (rp_inflight p) match_index p.

(** Each round removes one key of the reorder queue, so its size plus one
    rounds reach the exit. The counter is the number of converged entries. *)
Fixpoint drain_reorder_loop (fuel : nat) (converged : N) (p : ReplicationPipeline)
    : N * ReplicationPipeline :=
  match fuel with
  | O => (converged, p)
  | S fuel' =>
      let next := pp_next_index (rp_status p) in
      match rp_reorder_queue p !! next with
      | None => (converged, p)
      | Some _ =>
          drain_reorder_loop fuel' (converged +s 1)
            (p <| rp_reorder_queue ::= delete next |>
               <|| pp_match_index := next ||>
               <|| pp_next_index := next +s 1 ||>)
      end
  end.

Definition drain_reorder_queue (p : ReplicationPipeline) : ReplicationPipeline :=
  let '(converged, p) := drain_reorder_loop (S (size (rp_reorder_queue p))) 0 p in
  p <|| pp_reorder_entries_converged ::= (fun c => c +s converged) ||>
    <|| pp_reorder_queue_depth := N.of_nat (size (rp_reorder_queue p)) ||>.

(** ** Snapshot transfer *)

Definition new_transfer (snapshot_id : string) (snapshot_index : LogIndex) (total_chunks : N)
    : SnapshotTransferState :=
  mkSnapshotTransferState snapshot_id snapshot_index total_chunks 0 0 0 0.

Definition begin_snapshot_send (snapshot_id : string) (snapshot_index : LogIndex)
    (total_chunks : N) : ST RaftError ReplicationPipeline unit := fun p =>
  if pp_snapshot_sending (rp_status p) || pp_snapshot_installing (rp_status p) then
    (Err (InvalidRequest "snapshot transfer is already active"),
     p <|| pp_snapshot_backpressure_rejections ::= bump ||>)
  else
    (Ok tt, p <|| pp_snapshot_sending := true ||>
              <|| pp_snapshot_send_attempts ::= bump ||>
              <|| pp_snapshot_install_total_chunks := total_chunks ||>
              <|| pp_snapshot_install_progress_per_mille := 0%N ||>
              <| rp_snapshot_transfer := Some (new_transfer snapshot_id snapshot_index total_chunks) |>).

Definition maybe_require_snapshot (required_index : LogIndex) (p : ReplicationPipeline)
    : bool * ReplicationPipeline :=
  if (required_index =? u64_max)%N then (false, p)
  else if (required_index <=? pp_required_snapshot_index (rp_status p))%N then (false, p)
  else
    let p := p <|| pp_required_snapshot_index := required_index ||> in
    (true, snd (begin_snapshot_send
             ("required-snapshot-" ++s pretty (rp_peer_id p) ++s "-" ++s pretty required_index)
             required_index 1 p)).

Definition is_snapshot_required (p : ReplicationPipeline) : bool :=
  negb (pp_required_snapshot_index (rp_status p) =? pp_acked_snapshot_index (rp_status p))%N.

Definition ack_snapshot_require (p : ReplicationPipeline) : ReplicationPipeline :=
  p <|| pp_acked_snapshot_index := pp_required_snapshot_index (rp_status p) ||>.

(** [if let Some(required_index) = response.require_snapshot { .. }]. *)
Definition require_snapshot_from (response : AppendEntriesResponse) (p : ReplicationPipeline)
    : ReplicationPipeline :=
  match resp_require_snapshot response with
  | Some required_index => snd (maybe_require_snapshot required_index p)
  | None => p
  end.

(** The acknowledged index moves the match and next index, and a first
    progress while probing opens the window. *)
Definition advance_match (response : AppendEntriesResponse) (p : ReplicationPipeline)
    : ReplicationPipeline :=
  let previous_match_index := pp_match_index (rp_status p) in
  let p := p <|| pp_match_index ::= (fun m => N.max m (resp_match_index response)) ||> in
  let p := p <|| pp_next_index := pp_match_index (rp_status p) +s 1 ||> in
  if (previous_match_index <? pp_match_index (rp_status p))%N then
    match pp_progress_state (rp_status p) with
    | Probe =>
        let p := resume p in
        let p := p <|| pp_progress_state := Replicate ||> in
        let p := reset_inflight_window p in
        p <|| pp_next_index := pp_match_index (rp_status p) +s 1 ||>
    | Replicate => release_inflight_through (resp_match_index response) p
    end
  else release_inflight_through (resp_match_index response) p.

(** The success branch of [handle_append_response]. *)
Definition append_accepted (response : AppendEntriesResponse) (p : ReplicationPipeline)
    : ReplicationPipeline :=
  let p := p <|| pp_append_accepted ::= bump ||> in
  let p := p <|| pp_old_paused := is_paused p ||> in
  let p := advance_match response p in
  let p := drain_reorder_queue p in
  let p := p <|| pp_retry_attempts := 0%N ||>
             <|| pp_backoff_ms := 0%N ||>
             <|| pp_next_retry_after_ms := 0%N ||> in
  require_snapshot_from response p.

(** The two early returns of the failure branch: a rejection older than what
    the peer has acknowledged, and one that does not answer the probe. *)
Definition stale_rejection (response : AppendEntriesResponse) (p : ReplicationPipeline) : bool :=
  (bool_decide (resp_require_snapshot response = None)
   && (resp_match_index response <? pp_match_index (rp_status p))%N
   && match resp_rejected_index response with
      | Some rejected => (rejected <? pp_match_index (rp_status p))%N
      | None => true
      end)
  || (bool_decide (pp_progress_state (rp_status p) = Probe)
      && match resp_rejected_index response with
         | Some rejected => negb (rejected =? pp_next_index (rp_status p))%N
         | None => false
         end).

Definition append_rejected (response : AppendEntriesResponse) (p : ReplicationPipeline)
    : ReplicationPipeline :=
  let p := p <|| pp_append_rejected ::= bump ||>
             <|| pp_retry_attempts ::= bump ||> in
  let p := p <|| pp_backoff_ms := next_backoff_ms (pp_retry_attempts (rp_status p)) ||> in
  let p := p <|| pp_next_retry_after_ms := pp_backoff_ms (rp_status p) ||> in
  let was_replicating := bool_decide (pp_progress_state (rp_status p) = Replicate) in
  let p := if was_replicating
           then p <|| pp_progress_state := Probe ||> <|| pp_paused := false ||>
           else resume p in
  let p := reset_inflight_window p in
  let p := p <|| pp_next_index :=
      if was_replicating then pp_match_index (rp_status p) +s 1
      else N.max (default (resp_match_index response +s 1) (resp_rejection_hint response)) 1 ||> in
  let p := if bool_decide (resp_rejection_hint response = resp_rejected_index response)
              && bool_decide (is_Some (resp_rejection_hint response))
           then pause p else p in
  require_snapshot_from response p.

Definition handle_append_response (response : AppendEntriesResponse)
    : ST RaftError ReplicationPipeline unit := fun p =>
  let p := if (resp_term response =? 0)%N
           then p <|| pp_stale_term_rejections ::= bump ||> else p in
  if resp_success response then (Ok tt, append_accepted response p)
  else if stale_rejection response p then (Ok tt, p)
  else (Err (InvalidRequest "append rejected by peer pipeline"), append_rejected response p).

Definition record_retry_backoff_tick (elapsed_ms : N) (p : ReplicationPipeline)
    : bool * ReplicationPipeline :=
  let p := p <|| pp_next_retry_after_ms ::= (fun r => saturating_sub r elapsed_ms) ||> in
  ((pp_next_retry_after_ms (rp_status p) =? 0)%N && (0 <? pp_retry_attempts (rp_status p))%N, p).

Definition record_network_error (p : ReplicationPipeline) : bool * ReplicationPipeline :=
  let p := p <|| pp_packet_loss_events ::= (fun c => c +s 1) ||> in
  if negb (bool_decide (pp_progress_state (rp_status p) = Replicate)) then (false, p)
  else
    let p := p <|| pp_progress_state := Probe ||> <|| pp_paused := false ||> in
    let p := reset_inflight_window p in
    (true, p <|| pp_next_index := pp_match_index (rp_status p) +s 1 ||>
             <|| pp_next_retry_after_ms := 0%N ||>
             <|| pp_network_error_probe_transitions ::= (fun c => c +s 1) ||>).

Definition record_heartbeat_response (p : ReplicationPipeline) : ReplicationPipeline :=
  if is_paused p then resume p else p.

Definition update_follower_lag (leader_commit_index : LogIndex) (p : ReplicationPipeline)
    : LogIndex * ReplicationPipeline :=
  let p := p <|| pp_follower_lag :=
             saturating_sub leader_commit_index (pp_match_index (rp_status p)) ||> in
  (pp_follower_lag (rp_status p), p).

Definition record_learner_catchup_round (leader_commit_index : LogIndex) (p : ReplicationPipeline)
    : bool * ReplicationPipeline :=
  let p := p <|| pp_learner_catchup_rounds ::= bump ||> in
  let p := snd (update_follower_lag leader_commit_index p) in
  let p := p <|| pp_learner_caught_up := (leader_commit_index <=? pp_match_index (rp_status p))%N ||> in
  (pp_learner_caught_up (rp_status p), p).

Definition record_witness_quorum (acknowledged required : N) (p : ReplicationPipeline)
    : bool * ReplicationPipeline :=
  let p := p <|| pp_witness_quorum_acked := acknowledged ||>
             <|| pp_witness_quorum_required := required ||>
             <|| pp_witness_quorum_reached := (required <=? acknowledged)%N ||> in
  (pp_witness_quorum_reached (rp_status p), p).

(** ** The apply window *)

Definition has_apply_inflight_tasks (p : ReplicationPipeline) : bool :=
  match rp_apply_inflight p with [] => false | _ => true end.

Definition can_install_snapshot_now (p : ReplicationPipeline) : bool :=
  negb (has_apply_inflight_tasks p).

Definition begin_apply_task (applied_index : LogIndex) (batch_bytes : N)
    : ST RaftError ReplicationPipeline unit := fun p =>
  if (pl_max_apply_batch_bytes (rp_limits p) <? batch_bytes)%N then
    (Err (InvalidRequest "apply batch exceeds max apply batch bytes"),
     p <|| pp_oversized_log_rejections ::= bump ||>)
  else if (pl_max_inflights_apply_task (rp_limits p) <=? pp_apply_inflight_tasks (rp_status p))%N then
    (Err (InvalidRequest "apply inflight task limit reached"),
     p <|| pp_apply_backpressure_rejections ::= bump ||>)
  else
    let p := p <| rp_apply_inflight ::= (fun l => l ++ [mkApplyInflightTask applied_index batch_bytes]) |> in
    let p := p <|| pp_apply_inflight_tasks := N.of_nat (length (rp_apply_inflight p)) ||> in
    let p := p <|| pp_apply_queue_depth := pp_apply_inflight_tasks (rp_status p) ||> in
    let p := p <|| pp_apply_queue_max_depth ::=
                     (fun d => N.max d (pp_apply_queue_depth (rp_status p))) ||> in
    (Ok tt, p).

(** The tasks the [while] loop pops: the longest completed prefix. *)
Fixpoint pop_completed (safety_applied_index : LogIndex) (l : list ApplyInflightTask)
    : N * list ApplyInflightTask :=
  match l with
  | [] => (0%N, [])
  | task :: rest =>
      if (at_applied_index task <=? safety_applied_index)%N
      then let '(completed, rest') := pop_completed safety_applied_index rest in
           ((completed + 1)%N, rest')
      else (0%N, task :: rest)
  end.

Definition complete_apply_through (safety_applied_index : LogIndex) (p : ReplicationPipeline)
    : N * ReplicationPipeline :=
  let '(completed, rest) := pop_completed safety_applied_index (rp_apply_inflight p) in
  let p := p <| rp_apply_inflight := rest |> in
  let p := p <|| pp_apply_inflight_tasks := N.of_nat (length (rp_apply_inflight p)) ||> in
  (completed, p <|| pp_apply_queue_depth := pp_apply_inflight_tasks (rp_status p) ||>).

Definition reset_apply_inflight_window (p : ReplicationPipeline) : ReplicationPipeline :=
  p <| rp_apply_inflight := [] |>
    <|| pp_apply_inflight_tasks := 0%N ||> <|| pp_apply_queue_depth := 0%N ||>.

Definition record_peer_active (p : ReplicationPipeline) : ReplicationPipeline :=
  p <|| pp_offline_timeout_reached := false ||>.

Definition record_offline_timeout (p : ReplicationPipeline) : ReplicationPipeline :=
  let p := if negb (pp_offline_timeout_reached (rp_status p))
           then p <|| pp_offline_timeout_rejections ::= (fun c => c +s 1) ||> else p in
  p <|| pp_offline_timeout_reached := true ||>.

(** ** The reorder queue *)

Definition receive_out_of_order (entry : LogEntry) : ST RaftError ReplicationPipeline unit := fun p =>
  let index := entry_index entry in
  if (index <? pp_next_index (rp_status p))%N then
    (Err (InvalidRequest "append is below peer next index"),
     p <|| pp_out_of_order_append_rejections ::= bump ||>)
  else if (index =? pp_next_index (rp_status p))%N then
    match checked_add index 1 with
    | None =>
        (Err (InvalidRequest "append index is the largest representable index"),
         p <|| pp_out_of_order_append_rejections ::= bump ||>)
    | Some next_index =>
        (Ok tt, drain_reorder_queue
                  (p <|| pp_match_index := index ||> <|| pp_next_index := next_index ||>))
    end
  else if negb (pl_enable_reorder_queue (rp_limits p)) then
    (Err (InvalidRequest "out-of-order append received while reorder queue is disabled"),
     p <|| pp_out_of_order_append_rejections ::= bump ||>)
  else if (pl_reorder_window_size (rp_limits p) <=? N.of_nat (size (rp_reorder_queue p)))%N then
    (Err (InvalidRequest "reorder queue window is full"),
     p <|| pp_reorder_entries_rejected ::= bump ||>)
  else
    let p := p <| rp_reorder_queue ::= <[index := 0%N]> |> in
    (Ok tt, p <|| pp_reorder_queue_depth := N.of_nat (size (rp_reorder_queue p)) ||>).

(** The ages after [elapsed_us] more, and what the timeout keeps of them. *)
Definition age_reorder_queue (elapsed_us : N) (q : gmap N N) : gmap N N :=
  (fun age => age +s elapsed_us) <$> q.

Definition keep_age (timeout_us age : N) : Prop := timeout_us = 0%N \/ (age < timeout_us)%N.
#[export] Instance keep_age_dec timeout_us age : Decision (keep_age timeout_us age).
Proof. unfold keep_age. apply _. Defined.

Definition tick_reorder_queue (elapsed_us : N) (p : ReplicationPipeline) : N * ReplicationPipeline :=
  if decide (rp_reorder_queue p = ∅) then (0%N, p)
  else
    let timeout_us := pl_reorder_timeout_us (rp_limits p) in
    let aged := age_reorder_queue elapsed_us (rp_reorder_queue p) in
    let kept := filter (fun kv => keep_age timeout_us kv.2) aged in
    let dropped := N.of_nat (size aged - size kept) in
    let p := p <| rp_reorder_queue := kept |> in
    if (dropped =? 0)%N then (0%N, p)
    else (dropped,
          p <|| pp_reorder_queue_depth := N.of_nat (size kept) ||>
            <|| pp_reorder_entry_timeouts ::= (fun c => c +s dropped) ||>
            <|| pp_reorder_dropped_packages ::= (fun c => c +s dropped) ||>).

Definition expire_reorder_queue (p : ReplicationPipeline) : N * ReplicationPipeline :=
  let dropped := N.of_nat (size (rp_reorder_queue p)) in
  if (0 <? dropped)%N then
    (dropped, p <| rp_reorder_queue := ∅ |>
                <|| pp_reorder_queue_depth := 0%N ||>
                <|| pp_reorder_entry_timeouts ::= (fun c => c +w dropped) ||>
                <|| pp_reorder_dropped_packages ::= (fun c => c +w dropped) ||>)
  else (dropped, p).

(** ** Snapshot chunks *)

Definition record_snapshot_chunk_sent (bytes : N) : ST RaftError ReplicationPipeline unit := fun p =>
  match rp_snapshot_transfer p with
  | None => (Err (InvalidRequest "snapshot send is not active"), p)
  | Some t => (Ok tt, p <| rp_snapshot_transfer := Some (t <| st_bytes_sent ::= (fun b => b +w bytes) |>) |>)
  end.

Definition cancel_snapshot_send_for_new_snapshot (p : ReplicationPipeline) : bool * ReplicationPipeline :=
  let was_sending := pp_snapshot_sending (rp_status p) in
  (was_sending,
   if was_sending
   then p <| rp_snapshot_transfer := None |>
          <|| pp_snapshot_sending := false ||> <|| pp_snapshot_installing := false ||>
   else p).

Definition finish_snapshot_install : ST RaftError ReplicationPipeline unit := fun p =>
  match rp_snapshot_transfer p with
  | None => (Err (InvalidRequest "snapshot transfer is not active"), p)
  | Some t =>
      let p := p <| rp_snapshot_transfer := None |>
                 <|| pp_snapshot_sending := false ||>
                 <|| pp_snapshot_installing := false ||>
                 <|| pp_snapshot_installed_index ::= (fun i => N.max i (st_snapshot_index t)) ||>
                 <|| pp_snapshot_install_progress_per_mille := 1000%N ||>
                 <|| pp_match_index ::= (fun i => N.max i (st_snapshot_index t)) ||> in
      let p := p <|| pp_next_index := pp_match_index (rp_status p) +s 1 ||> in
      (Ok tt, reset_apply_inflight_window p)
  end.

(** [(acknowledged * 1000).checked_div(total).map_or(1000, |p| p.min(1000))]. *)
Definition progress_per_mille (acknowledged total : N) : N :=
  match checked_div (wrapping_mul acknowledged 1000) total with
  | Some per_mille => N.min per_mille 1000
  | None => 1000
  end.

Definition acknowledge_snapshot_chunk : ST RaftError ReplicationPipeline unit := fun p =>
  match rp_snapshot_transfer p with
  | None => (Err (InvalidRequest "snapshot transfer is not active"), p)
  | Some t =>
      let t := t <| st_acknowledged_chunks ::= bump |> in
      let p := p <| rp_snapshot_transfer := Some t |>
                 <|| pp_snapshot_install_progress_per_mille :=
                       progress_per_mille (st_acknowledged_chunks t) (st_total_chunks t) ||> in
      if (st_total_chunks t <=? st_acknowledged_chunks t)%N
      then finish_snapshot_install p else (Ok tt, p)
  end.

Definition handle_snapshot_finish (accepted : bool) (committed_index : LogIndex)
    : ST RaftError ReplicationPipeline unit := fun p =>
  match rp_snapshot_transfer p with
  | None => (Err (InvalidRequest "snapshot transfer is not active"), p)
  | Some t =>
      let p := p <| rp_snapshot_transfer := None |>
                 <|| pp_snapshot_sending := false ||>
                 <|| pp_snapshot_installing := false ||> in
      if accepted then
        let p := p <|| pp_snapshot_installed_index ::= (fun i => N.max i (st_snapshot_index t)) ||>
                   <|| pp_snapshot_install_progress_per_mille := 1000%N ||>
                   <|| pp_match_index ::= (fun i => N.max i committed_index) ||> in
        let p := p <|| pp_next_index := pp_match_index (rp_status p) +s 1 ||> in
        (Ok tt, ack_snapshot_require p)
      else (Ok tt, p <|| pp_snapshot_chunk_retry_count ::= bump ||>)
  end.

Definition update_snapshot_progress (remote_receiving : bool)
    (elapsed_since_last_update_ms send_timeout_ms : N) (p : ReplicationPipeline)
    : bool * ReplicationPipeline :=
  match rp_snapshot_transfer p with
  | None => (false, p)
  | Some t =>
      if negb (pp_snapshot_sending (rp_status p)) then (false, p)
      else if remote_receiving then
        (false, p <| rp_snapshot_transfer := Some (t <| st_latest_receiving_elapsed_ms := 0%N |>) |>)
      else
        let t := t <| st_latest_receiving_elapsed_ms ::= (fun e => e +s elapsed_since_last_update_ms) |> in
        let p := p <| rp_snapshot_transfer := Some t |> in
        if (st_latest_receiving_elapsed_ms t <=? send_timeout_ms)%N then (false, p)
        else (true, p <| rp_snapshot_transfer := None |>
                      <|| pp_snapshot_sending := false ||>
                      <|| pp_snapshot_installing := false ||>
                      <|| pp_snapshot_install_progress_per_mille := 0%N ||>
                      <|| pp_snapshot_send_timeouts ::= bump ||>)
  end.

Definition retry_snapshot_chunk : ST RaftError ReplicationPipeline unit := fun p =>
  match rp_snapshot_transfer p with
  | None => (Err (InvalidRequest "snapshot transfer is not active"), p)
  | Some _ => (Ok tt, p <|| pp_snapshot_chunk_retry_count ::= bump ||>)
  end.

Definition begin_snapshot_install (snapshot_id : string) (snapshot_index : LogIndex)
    (total_chunks : N) : ST RaftError ReplicationPipeline unit := fun p =>
  if pp_snapshot_sending (rp_status p) || pp_snapshot_installing (rp_status p) then
    (Err (InvalidRequest "snapshot transfer is already active"),
     p <|| pp_snapshot_backpressure_rejections ::= bump ||>)
  else
    (Ok tt, p <|| pp_snapshot_installing := true ||>
              <|| pp_snapshot_install_total_chunks := total_chunks ||>
              <|| pp_snapshot_install_progress_per_mille := 0%N ||>
              <| rp_snapshot_transfer := Some (new_transfer snapshot_id snapshot_index total_chunks) |>).

Definition receive_snapshot_chunk (bytes : N) (done : bool)
    : ST RaftError ReplicationPipeline unit := fun p =>
  match rp_snapshot_transfer p with
  | None => (Err (InvalidRequest "snapshot install is not active"), p)
  | Some t =>
      let t := t <| st_bytes_received ::= (fun b => b +w bytes) |>
                 <| st_acknowledged_chunks ::= bump |> in
      let p := p <| rp_snapshot_transfer := Some t |>
                 <|| pp_snapshot_install_progress_per_mille :=
                       progress_per_mille (st_acknowledged_chunks t) (st_total_chunks t) ||> in
      if done then finish_snapshot_install p else (Ok tt, p)
  end.

Definition rollback_snapshot_install (p : ReplicationPipeline) : ReplicationPipeline :=
  p <| rp_snapshot_transfer := None |>
    <|| pp_snapshot_sending := false ||>
    <|| pp_snapshot_installing := false ||>
    <|| pp_snapshot_install_rolled_back ::= bump ||>.

Definition mark_snapshot_rejoin_after_compacted_log (p : ReplicationPipeline) : ReplicationPipeline :=
  p <|| pp_snapshot_rejoin_after_compacted_log := true ||>.

(** ** Apply batch outcome *)

Inductive ApplyBatchStatus : Type := ApplyApplied | ApplyNotReady | ApplyRejected.

Record ApplyBatchOutcome := mkApplyBatchOutcome {
  abo_status : ApplyBatchStatus;
  abo_first_log_id : option LogId;
  abo_last_log_id : option LogId;
  abo_applied_through : LogIndex;
  abo_next_index : LogIndex;
  abo_applied_entries : list LogEntry;
  abo_pending_entries : list LogEntry
}.

Definition matrixraft_apply_batch_outcome (entries : list LogEntry) (applied_count : nat)
    (status : ApplyBatchStatus) : ApplyBatchOutcome :=
  let applied_count := Nat.min applied_count (length entries) in
  let applied_entries := take applied_count entries in
  let pending_entries := drop applied_count entries in
  let first_log_id := log_id <$> head entries in
  let last_log_id := log_id <$> last entries in
  let applied_through :=
    match last applied_entries with Some e => entry_index e | None => 0%N end in
  let next_index :=
    match head pending_entries with
    | Some e => entry_index e
    | None => match last_log_id with Some id => lid_index id +s 1 | None => 0%N end
    end in
  mkApplyBatchOutcome status first_log_id last_log_id applied_through next_index
    applied_entries pending_entries.

(** ** Invariants

    The invariant is stated in three groups that different operations touch:
    the send window, the gauges, and the depth counter of the append queue. *)

Definition sum_entries (l : list InflightAppend) : N := sum_N (if_entry_count <$> l).
Definition sum_inflight (l : list InflightAppend) : N := sum_N (if_bytes <$> l).
Definition sum_queue (l : list QueuedAppend) : N := sum_N (qa_bytes <$> l).
#[global] Arguments sum_entries : simpl never.
#[global] Arguments sum_inflight : simpl never.
#[global] Arguments sum_queue : simpl never.

(** Limits whose sums stay in range; the production defaults are such limits. *)
Definition limits_in_range (l : PipelineLimits) : Prop :=
  (pl_max_memory_replicate_log_bytes l + pl_max_apply_batch_bytes l <= u64_max)%N
  /\ (2 * pl_max_inflights_replicate l <= u64_max)%N.

Record window_inv (p : ReplicationPipeline) : Prop := mk_window_inv {
  wi_limit : pp_append_queue_limit (rp_status p) = pl_max_inflights_replicate (rp_limits p);
  wi_entries : pp_inflight_entries (rp_status p) = sum_entries (rp_inflight p);
  wi_bytes : pp_inflight_bytes (rp_status p) = sum_inflight (rp_inflight p);
  wi_queue_bytes : rp_append_queue_bytes p = sum_queue (rp_append_queue p);
  wi_memory : (sum_inflight (rp_inflight p) + sum_queue (rp_append_queue p)
               <= pl_max_memory_replicate_log_bytes (rp_limits p))%N;
  wi_queue_len : (N.of_nat (length (rp_append_queue p))
                  <= pl_max_inflights_replicate (rp_limits p))%N;
  wi_window : (sum_entries (rp_inflight p) <= 2 * pl_max_inflights_replicate (rp_limits p))%N;
  wi_range : limits_in_range (rp_limits p)
}.

Record gauges_inv (p : ReplicationPipeline) : Prop := mk_gauges_inv {
  gi_apply : pp_apply_inflight_tasks (rp_status p) = N.of_nat (length (rp_apply_inflight p));
  gi_apply_limit : (N.of_nat (length (rp_apply_inflight p))
                    <= pl_max_inflights_apply_task (rp_limits p))%N;
  gi_reorder : pp_reorder_queue_depth (rp_status p) = N.of_nat (size (rp_reorder_queue p));
  gi_reorder_limit : (N.of_nat (size (rp_reorder_queue p))
                      <= pl_reorder_window_size (rp_limits p))%N;
  gi_transfer : is_Some (rp_snapshot_transfer p)
                <-> pp_snapshot_sending (rp_status p) || pp_snapshot_installing (rp_status p) = true;
  gi_one_transfer : pp_snapshot_sending (rp_status p) && pp_snapshot_installing (rp_status p) = false;
  gi_progress : (pp_snapshot_install_progress_per_mille (rp_status p) <= 1000)%N
}.

Definition depth_inv (p : ReplicationPipeline) : Prop :=
  pp_append_queue_depth (rp_status p) = N.of_nat (length (rp_append_queue p)).

Definition pipeline_inv (p : ReplicationPipeline) : Prop :=
  window_inv p /\ gauges_inv p /\ depth_inv p.

(** A state that agrees on the fields a group reads satisfies the group too. *)
Lemma window_inv_ext p p' :
  rp_limits p' = rp_limits p -> rp_inflight p' = rp_inflight p ->
  rp_append_queue p' = rp_append_queue p -> rp_append_queue_bytes p' = rp_append_queue_bytes p ->
  pp_append_queue_limit (rp_status p') = pp_append_queue_limit (rp_status p) ->
  pp_inflight_entries (rp_status p') = pp_inflight_entries (rp_status p) ->
  pp_inflight_bytes (rp_status p') = pp_inflight_bytes (rp_status p) ->
  window_inv p -> window_inv p'.
Proof. intros E1 E2 E3 E4 E5 E6 E7 [H1 H2 H3 H4 H5 H6 H7 H8]. split; congruence. Qed.

Lemma gauges_inv_ext p p' :
  rp_limits p' = rp_limits p -> rp_apply_inflight p' = rp_apply_inflight p ->
  rp_reorder_queue p' = rp_reorder_queue p ->
  is_Some (rp_snapshot_transfer p') <-> is_Some (rp_snapshot_transfer p) ->
  pp_apply_inflight_tasks (rp_status p') = pp_apply_inflight_tasks (rp_status p) ->
  pp_reorder_queue_depth (rp_status p') = pp_reorder_queue_depth (rp_status p) ->
  pp_snapshot_sending (rp_status p') = pp_snapshot_sending (rp_status p) ->
  pp_snapshot_installing (rp_status p') = pp_snapshot_installing (rp_status p) ->
  pp_snapshot_install_progress_per_mille (rp_status p')
    = pp_snapshot_install_progress_per_mille (rp_status p) ->
  gauges_inv p -> gauges_inv p'.
Proof.
  intros E1 E2 E3 E4 E5 E6 E7 E8 E9 [H1 H2 H3 H4 H5 H6 H7].
  split; try congruence. rewrite E4, E7, E8. done.
Qed.

Lemma depth_inv_ext p p' :
  rp_append_queue p' = rp_append_queue p ->
  pp_append_queue_depth (rp_status p') = pp_append_queue_depth (rp_status p) ->
  depth_inv p -> depth_inv p'.
Proof. unfold depth_inv. congruence. Qed.

Lemma pipeline_inv_ext p p' :
  rp_limits p' = rp_limits p -> rp_inflight p' = rp_inflight p ->
  rp_append_queue p' = rp_append_queue p -> rp_append_queue_bytes p' = rp_append_queue_bytes p ->
  rp_apply_inflight p' = rp_apply_inflight p -> rp_reorder_queue p' = rp_reorder_queue p ->
  is_Some (rp_snapshot_transfer p') <-> is_Some (rp_snapshot_transfer p) ->
  pp_append_queue_limit (rp_status p') = pp_append_queue_limit (rp_status p) ->
  pp_inflight_entries (rp_status p') = pp_inflight_entries (rp_status p) ->
  pp_inflight_bytes (rp_status p') = pp_inflight_bytes (rp_status p) ->
  pp_append_queue_depth (rp_status p') = pp_append_queue_depth (rp_status p) ->
  pp_apply_inflight_tasks (rp_status p') = pp_apply_inflight_tasks (rp_status p) ->
  pp_reorder_queue_depth (rp_status p') = pp_reorder_queue_depth (rp_status p) ->
  pp_snapshot_sending (rp_status p') = pp_snapshot_sending (rp_status p) ->
  pp_snapshot_installing (rp_status p') = pp_snapshot_installing (rp_status p) ->
  pp_snapshot_install_progress_per_mille (rp_status p')
    = pp_snapshot_install_progress_per_mille (rp_status p) ->
  pipeline_inv p -> pipeline_inv p'.
Proof.
  intros E1 E2 E3 E4 E5 E6 E7 E8 E9 E10 E11 E12 E13 E14 E15 E16 (Hw & Hg & Hd). split_and!.
  - by apply (window_inv_ext p).
  - by apply (gauges_inv_ext p).
  - by apply (depth_inv_ext p).
Qed.

(** Peels updates of fields the invariant does not read: the projections of
    the updated record reduce to those of the record before. *)
Ltac same_field :=
  cbn [update rp_status rp_limits rp_append_queue rp_append_queue_bytes rp_inflight
       rp_apply_inflight rp_reorder_queue rp_snapshot_transfer pp_append_queue_limit
       pp_inflight_entries pp_inflight_bytes pp_append_queue_depth pp_apply_inflight_tasks
       pp_reorder_queue_depth pp_snapshot_sending pp_snapshot_installing
       pp_snapshot_install_progress_per_mille];
  lazymatch goal with
  | |- ?a = ?a => reflexivity
  | |- ?a <-> ?a => reflexivity
  end.

Ltac keep_fields :=
  repeat match goal with
  | |- pipeline_inv (@update _ _ _ _ _ ?p) => apply (pipeline_inv_ext p); [same_field..|]
  | |- window_inv (@update _ _ _ _ _ ?p) => apply (window_inv_ext p); [same_field..|]
  | |- gauges_inv (@update _ _ _ _ _ ?p) => apply (gauges_inv_ext p); [same_field..|]
  | |- depth_inv (@update _ _ _ _ _ ?p) => apply (depth_inv_ext p); [same_field..|]
  end.

Lemma sum_entries_cons i l : sum_entries (i :: l) = (if_entry_count i + sum_entries l)%N.
Proof. done. Qed.
Lemma sum_inflight_cons i l : sum_inflight (i :: l) = (if_bytes i + sum_inflight l)%N.
Proof. done. Qed.
Lemma sum_entries_app l1 l2 : sum_entries (l1 ++ l2) = (sum_entries l1 + sum_entries l2)%N.
Proof. unfold sum_entries. by rewrite fmap_app, sum_N_app. Qed.
Lemma sum_inflight_app l1 l2 : sum_inflight (l1 ++ l2) = (sum_inflight l1 + sum_inflight l2)%N.
Proof. unfold sum_inflight. by rewrite fmap_app, sum_N_app. Qed.
Lemma sum_queue_app l1 l2 : sum_queue (l1 ++ l2) = (sum_queue l1 + sum_queue l2)%N.
Proof. unfold sum_queue. by rewrite fmap_app, sum_N_app. Qed.
Lemma sum_queue_nil : sum_queue [] = 0%N.
Proof. done. Qed.
Lemma sum_queue_cons i l : sum_queue (i :: l) = (qa_bytes i + sum_queue l)%N.
Proof. done. Qed.

Lemma release_inflight_inv i l p :
  pipeline_inv (p <| rp_inflight := i :: l |>) ->
  pipeline_inv ((release_inflight i p) <| rp_inflight := l |>).
Proof.
  intros ([H1 H2 H3 H4 H5 H6 H7 H8] & Hg & Hd). cbn in *.
  rewrite sum_entries_cons in *. rewrite sum_inflight_cons in *. split_and!; [split| |exact Hd].
  - done.
  - cbn. unfold saturating_sub. lia.
  - cbn. unfold saturating_sub. lia.
  - done.
  - cbn. lia.
  - done.
  - cbn. lia.
  - done.
  - eapply gauges_inv_ext; [..|exact Hg]; reflexivity.
Qed.

Lemma pipeline_inv_inflight_eta p : pipeline_inv p -> pipeline_inv (p <| rp_inflight := rp_inflight p |>).
Proof. by destruct p. Qed.

Lemma free_first_inflight_inv p : pipeline_inv p -> pipeline_inv (free_first_inflight p).
Proof.
  intros Hp. unfold free_first_inflight. destruct (rp_inflight p) as [|i l] eqn:E; [done|].
  apply (release_inflight_inv i l p). rewrite <- E. by apply pipeline_inv_inflight_eta.
Qed.

Lemma release_prefix_inv l m p :
  pipeline_inv (p <| rp_inflight := l |>) -> pipeline_inv (release_prefix l m p).
Proof.
  revert p. induction l as [|i l IH]; intros p Hp; [done|]. cbn [release_prefix].
  destruct (_ <=? _)%N; [|done]. apply IH. by apply release_inflight_inv.
Qed.

Lemma release_inflight_through_inv m p : pipeline_inv p -> pipeline_inv (release_inflight_through m p).
Proof. intros Hp. apply release_prefix_inv. by apply pipeline_inv_inflight_eta. Qed.

Lemma reset_inflight_window_inv p : pipeline_inv p -> pipeline_inv (reset_inflight_window p).
Proof.
  intros ([H1 H2 H3 H4 H5 H6 H7 H8] & Hg & Hd). split_and!; [split| |exact Hd]; cbn in *; try done.
  - change (sum_inflight []) with 0%N. lia.
  - change (sum_entries []) with 0%N. lia.
  - eapply gauges_inv_ext; [..|exact Hg]; reflexivity.
Qed.

Lemma resume_inv p : pipeline_inv p -> pipeline_inv (resume p).
Proof.
  intros Hp. unfold resume. destruct (pp_progress_state _); [by keep_fields|].
  destruct (inflight_is_full p); [|done]. keep_fields. by apply free_first_inflight_inv.
Qed.

Lemma pause_inv p : pipeline_inv p -> pipeline_inv (pause p).
Proof. intros. unfold pause. by keep_fields. Qed.

(** *** The reorder drain *)

(** The drain takes exactly the contiguous run that starts at the next index:
    with [k] entries taken, the [k] keys from the next index on are removed,
    the key after them is absent, and the cursors move past them. *)
Lemma drain_reorder_loop_spec fuel c p :
  (size (rp_reorder_queue p) < fuel)%nat ->
  (forall i, is_Some (rp_reorder_queue p !! i) -> (i < u64_max)%N) ->
  exists k : nat,
    let '(c', p') := drain_reorder_loop fuel c p in
    let next := pp_next_index (rp_status p) in
    (k <= size (rp_reorder_queue p))%nat
    /\ (forall j, (j < k)%nat -> is_Some (rp_reorder_queue p !! (next + N.of_nat j)%N))
    /\ rp_reorder_queue p !! (next + N.of_nat k)%N = None
    /\ (forall i, rp_reorder_queue p' !! i =
          if decide (next <= i < next + N.of_nat k)%N then None else rp_reorder_queue p !! i)
    /\ p' = p <| rp_reorder_queue := rp_reorder_queue p' |>
              <|| pp_match_index := if (k =? 0)%nat then pp_match_index (rp_status p)
                                    else (next + N.of_nat k - 1)%N ||>
              <|| pp_next_index := (next + N.of_nat k)%N ||>.
Proof.
  revert c p. induction fuel as [|fuel IH]; intros c p Hf Hmax; [lia|]. cbn [drain_reorder_loop].
  set (next := pp_next_index (rp_status p)).
  destruct (rp_reorder_queue p !! next) as [age|] eqn:Hn.
  - set (p1 := p <| rp_reorder_queue ::= delete next |>
                 <|| pp_match_index := next ||> <|| pp_next_index := next +s 1 ||>).
    assert (next < u64_max)%N as Hlt by (apply Hmax; eauto).
    assert (size (rp_reorder_queue p1) = size (rp_reorder_queue p) - 1)%nat as Hsz.
    { cbn. rewrite map_size_delete_Some by eauto. destruct (size _); cbn; lia. }
    assert (0 < size (rp_reorder_queue p))%nat as Hpos.
    { apply Nat.neq_0_lt_0. intros Hz%map_size_empty_inv. by rewrite Hz in Hn. }
    assert (pp_next_index (rp_status p1) = next + 1)%N as Hnext.
    { cbn. apply saturating_add_small. lia. }
    destruct (IH (c +s 1) p1) as (k & Hk); [lia| |].
    { intros i Hi. cbn in Hi. rewrite lookup_delete_is_Some in Hi. naive_solver. }
    exists (S k). destruct (drain_reorder_loop fuel (c +s 1) p1) as [c' p'].
    rewrite Hnext in Hk. destruct Hk as (H1 & H2 & H3 & H4 & H5). split_and!.
    + lia.
    + intros [|j] Hj; [rewrite N.add_0_r; by rewrite Hn|].
      specialize (H2 j ltac:(lia)). cbn in H2. rewrite lookup_delete_is_Some in H2.
      destruct H2 as [_ H2]. by replace (next + N.of_nat (S j))%N with (next + 1 + N.of_nat j)%N by lia.
    + cbn in H3. rewrite lookup_delete_ne in H3 by lia.
      by replace (next + N.of_nat (S k))%N with (next + 1 + N.of_nat k)%N by lia.
    + intros i. rewrite H4. cbn. destruct (decide (i = next)) as [->|Hne].
      * rewrite decide_False by lia. rewrite decide_True by lia. by rewrite lookup_delete_eq.
      * rewrite lookup_delete_ne by done. repeat case_decide; try done; lia.
    + rewrite H5. cbn. unfold update; cbn.
      replace (next + N.of_nat (S k))%N with (next + 1 + N.of_nat k)%N by lia.
      destruct k; [|done]. cbn. f_equal. f_equal; lia.
  - exists 0%nat. split_and!; [lia|lia|by rewrite N.add_0_r| |].
    + intros i. by rewrite decide_False by lia.
    + rewrite N.add_0_r. unfold next. destruct p as [? ? [] ? ? ? ? ? ?]. done.
Qed.

Lemma drain_reorder_loop_frame fuel c p :
  exists m n,
    snd (drain_reorder_loop fuel c p)
      = p <| rp_reorder_queue := rp_reorder_queue (snd (drain_reorder_loop fuel c p)) |>
          <|| pp_match_index := m ||> <|| pp_next_index := n ||>
    /\ rp_reorder_queue (snd (drain_reorder_loop fuel c p)) ⊆ rp_reorder_queue p.
Proof.
  revert c p. induction fuel as [|fuel IH]; intros c p; cbn [drain_reorder_loop].
  - exists (pp_match_index (rp_status p)), (pp_next_index (rp_status p)). split; [|done].
    by destruct p as [? ? [] ? ? ? ? ? ?].
  - destruct (rp_reorder_queue p !! pp_next_index (rp_status p)) as [age|].
    + destruct (IH (c +s 1) (p <| rp_reorder_queue ::= delete (pp_next_index (rp_status p)) |>
               <|| pp_match_index := pp_next_index (rp_status p) ||>
               <|| pp_next_index := pp_next_index (rp_status p) +s 1 ||>)) as (m & n & Heq & Hsub).
      exists m, n. split; [rewrite Heq; reflexivity|].
      etrans; [exact Hsub|]. apply delete_subseteq.
    + exists (pp_match_index (rp_status p)), (pp_next_index (rp_status p)). split; [|done].
      by destruct p as [? ? [] ? ? ? ? ? ?].
Qed.

Lemma drain_reorder_queue_inv p : pipeline_inv p -> pipeline_inv (drain_reorder_queue p).
Proof.
  intros (Hw & [H1 H2 H3 H4 H5 H6 H7] & Hd). unfold drain_reorder_queue.
  destruct (drain_reorder_loop_frame (S (size (rp_reorder_queue p))) 0 p) as (m & n & Heq & Hsub).
  destruct (drain_reorder_loop _ _ _) as [c p']. cbn [snd] in *.
  apply map_subseteq_size in Hsub. revert Hsub. rewrite Heq. cbn. intros Hsub. split_and!.
  - by apply (window_inv_ext p).
  - split; cbn; try done. lia.
  - done.
Qed.

(** *** Snapshot transfers *)

Lemma begin_snapshot_send_inv id i c p :
  pipeline_inv p -> pipeline_inv (snd (begin_snapshot_send id i c p)).
Proof.
  intros Hp. unfold begin_snapshot_send.
  destruct (pp_snapshot_sending _) eqn:Es; [by cbn [orb snd]; keep_fields|].
  destruct (pp_snapshot_installing _) eqn:Ei; [by cbn [orb snd]; keep_fields|].
  destruct Hp as (Hw & [H1 H2 H3 H4 H5 H6 H7] & Hd). cbn [orb snd]. split_and!.
  - by apply (window_inv_ext p).
  - split; cbn; rewrite ?Ei; try done; lia.
  - done.
Qed.

Lemma begin_snapshot_install_inv id i c p :
  pipeline_inv p -> pipeline_inv (snd (begin_snapshot_install id i c p)).
Proof.
  intros Hp. unfold begin_snapshot_install.
  destruct (pp_snapshot_sending _) eqn:Es; [by cbn [orb snd]; keep_fields|].
  destruct (pp_snapshot_installing _) eqn:Ei; [by cbn [orb snd]; keep_fields|].
  destruct Hp as (Hw & [H1 H2 H3 H4 H5 H6 H7] & Hd). cbn [orb snd]. split_and!.
  - by apply (window_inv_ext p).
  - split; cbn; rewrite ?Es; try done; lia.
  - done.
Qed.

Lemma maybe_require_snapshot_inv i p : pipeline_inv p -> pipeline_inv (snd (maybe_require_snapshot i p)).
Proof.
  intros Hp. unfold maybe_require_snapshot. do 2 (destruct (_ : bool); [done|]).
  cbn [snd]. apply begin_snapshot_send_inv. by keep_fields.
Qed.

Lemma require_snapshot_from_inv r p : pipeline_inv p -> pipeline_inv (require_snapshot_from r p).
Proof. intros. unfold require_snapshot_from. destruct (resp_require_snapshot r); [by apply maybe_require_snapshot_inv|done]. Qed.

(** Ending a transfer: both flags and the transfer are cleared together. *)
Lemma clear_transfer_inv p :
  pipeline_inv p ->
  pipeline_inv (p <| rp_snapshot_transfer := None |>
                  <|| pp_snapshot_sending := false ||> <|| pp_snapshot_installing := false ||>).
Proof.
  intros (Hw & [H1 H2 H3 H4 H5 H6 H7] & Hd). split_and!.
  - by apply (window_inv_ext p).
  - split; cbn; done.
  - done.
Qed.

Lemma set_progress_per_mille_inv v p :
  (v <= 1000)%N -> pipeline_inv p ->
  pipeline_inv (p <|| pp_snapshot_install_progress_per_mille := v ||>).
Proof.
  intros Hv (Hw & [H1 H2 H3 H4 H5 H6 H7] & Hd). split_and!; [by apply (window_inv_ext p)|by split|done].
Qed.

Lemma progress_per_mille_bound a t : (progress_per_mille a t <= 1000)%N.
Proof. unfold progress_per_mille. destruct (checked_div _ _); lia. Qed.

Lemma reset_apply_inflight_window_inv p : pipeline_inv p -> pipeline_inv (reset_apply_inflight_window p).
Proof.
  intros (Hw & [H1 H2 H3 H4 H5 H6 H7] & Hd). split_and!.
  - by apply (window_inv_ext p).
  - split; cbn; try done. lia.
  - done.
Qed.

(** Replacing an active transfer by another record of the same transfer. *)
Lemma update_transfer_inv t t' p :
  rp_snapshot_transfer p = Some t -> pipeline_inv p ->
  pipeline_inv (p <| rp_snapshot_transfer := Some t' |>).
Proof.
  intros Ht. apply pipeline_inv_ext; try reflexivity. rewrite Ht. cbn. split; eauto.
Qed.

Lemma finish_snapshot_install_inv p : pipeline_inv p -> pipeline_inv (snd (finish_snapshot_install p)).
Proof.
  intros Hp. unfold finish_snapshot_install. destruct (rp_snapshot_transfer p) as [t|]; [|done].
  cbn [snd]. apply reset_apply_inflight_window_inv. keep_fields.
  apply set_progress_per_mille_inv; [lia|]. keep_fields. by apply clear_transfer_inv.
Qed.

(** *** Queueing and flushing *)

Lemma queue_append_inv e p : pipeline_inv p -> pipeline_inv (snd (queue_append e p)).
Proof.
  intros Hp. unfold queue_append.
  destruct (N.ltb_spec (pl_max_apply_batch_bytes (rp_limits p)) (payload_len e)) as [|Hb];
    [by cbn [snd]; keep_fields|].
  destruct (N.leb_spec (pp_append_queue_limit (rp_status p)) (N.of_nat (length (rp_append_queue p))))
    as [|Hl]; [by cbn [snd]; keep_fields|].
  destruct Hp as ([H1 H2 H3 H4 H5 H6 H7 H8] & Hg & Hd). pose proof H8 as [Hr _].
  rewrite (wrapping_add_small _ (rp_append_queue_bytes p)) by lia.
  rewrite wrapping_add_small by lia.
  destruct (N.ltb_spec (pl_max_memory_replicate_log_bytes (rp_limits p))
    (pp_inflight_bytes (rp_status p) + rp_append_queue_bytes p + payload_len e)) as [|Hm];
    [cbn [snd]; keep_fields; by split_and!|].
  cbn [snd]. split_and!; [split| |done]; cbn in *; try done.
  - rewrite sum_queue_app, sum_queue_cons. rewrite sum_queue_nil. cbn.
    rewrite saturating_add_small by lia. lia.
  - rewrite sum_queue_app, sum_queue_cons. rewrite sum_queue_nil. cbn. lia.
  - rewrite length_app. cbn. lia.
  - by apply (gauges_inv_ext p).
Qed.

(** What the inner loop takes, when the queue fits the memory limit as the
    invariant says: a nonempty front segment, accounted exactly. *)
Lemma take_batch_spec max_entries max_bytes inflight mem q :
  forall ec b last_id qb,
  (inflight + b + sum_queue q <= mem)%N -> (mem <= u64_max)%N ->
  (ec + N.of_nat (length q) <= u64_max)%N -> qb = sum_queue q ->
  let '(ec', b', last', q', qb') :=
    take_batch max_entries max_bytes inflight mem ec b last_id qb q in
  exists taken,
    q = taken ++ q'
    /\ ec' = (ec + N.of_nat (length taken))%N
    /\ b' = (b + sum_queue taken)%N
    /\ last' = default last_id (qa_log_id <$> last taken)
    /\ qb' = sum_queue q'
    /\ (ec' <= N.max ec max_entries)%N
    /\ (taken = [] \/ b' <= max_bytes \/ (ec = 0 /\ length taken = 1%nat))%N
    /\ (ec = 0%N -> (0 < max_entries)%N -> q <> [] -> taken <> []).
Proof.
  induction q as [|x q IH]; intros ec b last_id qb Hmem Hu Hec Hqb; cbn [take_batch].
  { exists []. rewrite sum_queue_nil in *. split_and!; cbn; auto; lia. }
  rewrite sum_queue_cons in *. cbn [length] in Hec.
  destruct (N.ltb_spec ec max_entries) as [Hlt|Hge]; cbn [negb].
  2: { exists []. rewrite sum_queue_nil, sum_queue_cons. split_and!; cbn; auto; lia. }
  rewrite !(wrapping_add_small b) by lia. rewrite (wrapping_add_small inflight) by lia.
  rewrite (wrapping_add_small (inflight + b)) by lia. rewrite (wrapping_add_small ec) by lia.
  destruct ((0 <? ec) && (max_bytes <? b + qa_bytes x))%N eqn:Hbig.
  { apply andb_true_iff in Hbig as [Hec0%N.ltb_lt _].
    exists []. rewrite sum_queue_nil, sum_queue_cons. split_and!; cbn; auto; lia. }
  rewrite (proj2 (N.ltb_ge _ _)) by lia.
  specialize (IH (ec + 1)%N (b + qa_bytes x)%N (qa_log_id x) (saturating_sub qb (qa_bytes x))
    ltac:(lia) Hu ltac:(lia) ltac:(unfold saturating_sub; lia)).
  destruct (take_batch _ _ _ _ _ _ _ _ q) as [[[[ec' b'] last'] q'] qb'].
  destruct IH as (taken & -> & -> & -> & -> & -> & Hmax & Hbytes & _).
  exists (x :: taken). rewrite sum_queue_cons. cbn [length]. split_and!; try done; try lia.
  - destruct taken as [|y taken]; [done|]. change (x :: y :: taken) with ([x] ++ (y :: taken)).
    rewrite last_app. by destruct (last (y :: taken)) as [z|] eqn:Ez; [|by apply last_None in Ez].
  - right. destruct Hbytes as [->|[?|[? _]]]; [|left; lia|lia].
    apply andb_false_iff in Hbig as [?%N.ltb_ge|?%N.ltb_ge]; [right; split; [lia|done]|left].
    rewrite sum_queue_nil. lia.
Qed.

(** A batch sends exactly a nonempty segment of the queue. *)
Definition batch_of (max_entries max_bytes : N) (segment : list QueuedAppend) (i : InflightAppend) : Prop :=
  (qa_log_id <$> head segment) = Some (if_first_log_id i)
  /\ (qa_log_id <$> last segment) = Some (if_last_log_id i)
  /\ if_entry_count i = N.of_nat (length segment)
  /\ if_bytes i = sum_queue segment
  /\ (if_entry_count i <= max_entries)%N
  /\ ((if_bytes i <= max_bytes)%N \/ length segment = 1%nat).

Lemma record_batch_window i p :
  (pp_inflight_entries (rp_status p) < pl_max_inflights_replicate (rp_limits p))%N ->
  window_inv (p <| rp_append_queue := [] |> <| rp_append_queue_bytes := 0%N |>) ->
  (sum_inflight (rp_inflight p) + if_bytes i + sum_queue (rp_append_queue p)
     <= pl_max_memory_replicate_log_bytes (rp_limits p))%N ->
  rp_append_queue_bytes p = sum_queue (rp_append_queue p) ->
  (if_entry_count i + N.of_nat (length (rp_append_queue p))
     <= pl_max_inflights_replicate (rp_limits p))%N ->
  window_inv (record_batch i p).
Proof.
  intros Hlt [H1 H2 H3 H4 H5 H6 H7 H8] Hm Hqb Hc. cbn in *. pose proof H8 as [Hr1 Hr2].
  assert (sum_entries (rp_inflight p ++ [i]) = sum_entries (rp_inflight p) + if_entry_count i)%N as He.
  { rewrite sum_entries_app, sum_entries_cons. change (sum_entries []) with 0%N. lia. }
  assert (sum_inflight (rp_inflight p ++ [i]) = sum_inflight (rp_inflight p) + if_bytes i)%N as Hb.
  { rewrite sum_inflight_app, sum_inflight_cons. change (sum_inflight []) with 0%N. lia. }
  split; cbn; rewrite ?He, ?Hb; try done; try lia; rewrite wrapping_add_small by lia; lia.
Qed.

Lemma record_batch_frame i p :
  rp_limits (record_batch i p) = rp_limits p
  /\ rp_inflight (record_batch i p) = rp_inflight p ++ [i]
  /\ rp_append_queue (record_batch i p) = rp_append_queue p
  /\ pp_progress_state (rp_status (record_batch i p)) = pp_progress_state (rp_status p)
  /\ (gauges_inv p -> gauges_inv (record_batch i p)).
Proof. split_and!; [done..|]. intros Hg. unfold record_batch. by keep_fields. Qed.

Lemma pause_frame p :
  rp_limits (pause p) = rp_limits p /\ rp_inflight (pause p) = rp_inflight p
  /\ rp_append_queue (pause p) = rp_append_queue p
  /\ (pp_progress_state (rp_status p) = Probe -> is_paused (pause p) = true)
  /\ (window_inv p -> window_inv (pause p)) /\ (gauges_inv p -> gauges_inv (pause p)).
Proof.
  split_and!; [done|done|done|..].
  - unfold is_paused. cbn. by intros ->.
  - intros. unfold pause. by keep_fields.
  - intros. unfold pause. by keep_fields.
Qed.

Lemma flush_loop_spec fuel max_entries max_bytes p :
  window_inv p -> (0 < max_entries)%N ->
  (length (rp_append_queue p) < fuel)%nat ->
  let '(batches, p') := flush_loop fuel max_entries max_bytes p in
  window_inv p'
  /\ (gauges_inv p -> gauges_inv p')
  /\ rp_limits p' = rp_limits p
  /\ rp_inflight p' = rp_inflight p ++ batches
  /\ (exists segments, rp_append_queue p = concat segments ++ rp_append_queue p'
        /\ Forall2 (batch_of max_entries max_bytes) segments batches)
  /\ (is_paused p' = true \/ inflight_is_full p' = true \/ rp_append_queue p' = []).
Proof.
  revert p. induction fuel as [|fuel IH]; intros p Hw Hme Hf; [lia|]. cbn [flush_loop].
  destruct (is_paused p) eqn:Hpaused; cbn [negb andb].
  { split_and!; auto; [by rewrite app_nil_r|by exists []]. }
  destruct (N.ltb_spec (pp_inflight_entries (rp_status p)) (pl_max_inflights_replicate (rp_limits p)))
    as [Hlt|Hge].
  2: { split_and!; auto; [by rewrite app_nil_r|by exists []|]. right. left.
       by apply N.leb_le. }
  destruct (rp_append_queue p) as [|front rest] eqn:Hq.
  { split_and!; auto; [by rewrite app_nil_r|by exists []]. }
  rewrite <- Hq. pose proof Hw as [H1 H2 H3 H4 H5 H6 H7 H8]. pose proof H8 as [Hr1 Hr2].
  pose proof (take_batch_spec max_entries max_bytes (pp_inflight_bytes (rp_status p))
    (pl_max_memory_replicate_log_bytes (rp_limits p)) (rp_append_queue p) 0 0 (qa_log_id front)
    (rp_append_queue_bytes p) ltac:(lia) ltac:(lia) ltac:(lia) H4) as Htb.
  destruct (take_batch _ _ _ _ _ _ _ _ _) as [[[[ec b] last_id] q'] qb'].
  destruct Htb as (taken & Htake & -> & -> & -> & -> & Hmax & Hbytes & Hne).
  specialize (Hne eq_refl Hme ltac:(by rewrite Hq)).
  assert (0 < length taken)%nat as Hlen by (destruct taken; [done|cbn; lia]).
  rewrite (proj2 (N.eqb_neq _ _)) by lia.
  set (i := mkInflightAppend _ _ _ _).
  set (p0 := p <| rp_append_queue := q' |> <| rp_append_queue_bytes := sum_queue q' |>).
  assert (batch_of max_entries max_bytes taken i) as Hbatch.
  { unfold i. rewrite Hq in Htake. destruct taken as [|x taken]; [done|].
    cbn [app] in Htake. injection Htake as -> Htake.
    split_and!; cbn [if_first_log_id if_last_log_id if_entry_count if_bytes]; try done; try lia.
    - destruct (last (x :: taken)) eqn:E; [done|]. by apply last_None in E.
    - destruct Hbytes as [?|[?|[_ ?]]]; [done|by left|by right]. }
  assert (window_inv (record_batch i p0)) as Hw'.
  { rewrite Htake in *. rewrite sum_queue_app in *. rewrite length_app in *.
    apply record_batch_window; cbn; try done; try lia.
    split; cbn; try done; try lia. rewrite sum_queue_nil. lia. }
  destruct (record_batch_frame i p0) as (Elim & Einf & Eq & Eps & Hg').
  assert (gauges_inv p -> gauges_inv p0) as Hg0 by (intros; unfold p0; by keep_fields).
  change (rp_limits p0) with (rp_limits p) in Elim. change (rp_inflight p0) with (rp_inflight p) in Einf.
  change (rp_append_queue p0) with q' in Eq.
  generalize dependent (record_batch i p0). intros p1 Hw' Elim Einf Eq Eps Hg'. clear Hlt.
  case_bool_decide as Hprobe.
  - destruct (pause_frame p1) as (El & Ei & Eqq & Hpause & Hwp & Hgp).
    rewrite El, Ei, Eqq, Elim, Einf, Eq. split_and!; auto.
    exists [taken]. cbn [concat]. rewrite app_nil_r. auto.
  - specialize (IH p1 Hw' Hme).
    destruct (flush_loop fuel max_entries max_bytes p1) as [more p'].
    destruct IH as (Hw'' & Hg'' & Hlim & Hinf & (segs & Hsegs & Hall) & Hstop).
    { rewrite Eq. rewrite <- Hq, Htake, length_app in Hf. lia. }
    split_and!; auto; [congruence|by rewrite Hinf, Einf, <- app_assoc|].
    exists (taken :: segs). cbn [concat]. rewrite Htake, <- app_assoc, <- Hsegs, Eq. auto.
Qed.

(** *** Every operation preserves the invariant *)

Inductive PipelineOp : Type :=
| PQueueAppend (entry : LogEntry)
| PFlush (max_entries max_bytes : N)
| PResponse (response : AppendEntriesResponse)
| PRetryTick (elapsed_ms : N)
| PNetworkError
| PHeartbeatResponse
| PPause
| PSetProgressState (s : ProgressState)
| PTakeEmptyAppend
| PLearnerRound (leader_commit_index : LogIndex)
| PWitnessQuorum (acknowledged required : N)
| PBeginApply (applied_index : LogIndex) (batch_bytes : N)
| PCompleteApply (safety_applied_index : LogIndex)
| PPeerActive
| POfflineTimeout
| PReceiveOutOfOrder (entry : LogEntry)
| PTickReorder (elapsed_us : N)
| PExpireReorder
| PBeginSend (id : string) (index : LogIndex) (chunks : N)
| PBeginInstall (id : string) (index : LogIndex) (chunks : N)
| PRequireSnapshot (required_index : LogIndex)
| PAckRequire
| PChunkSent (bytes : N)
| PCancelSend
| PAckChunk
| PSnapshotFinish (accepted : bool) (committed_index : LogIndex)
| PSnapshotProgress (remote_receiving : bool) (elapsed_ms timeout_ms : N)
| PRetryChunk
| PReceiveChunk (bytes : N) (done : bool)
| PRollback
| PMarkRejoin
| PReset (match_index next_index : LogIndex) (s : ProgressState).

Definition run_pipeline_op (op : PipelineOp) (p : ReplicationPipeline) : ReplicationPipeline :=
  match op with
  | PQueueAppend e => snd (queue_append e p)
  | PFlush n b => snd (flush_append_batch_core n b p)
  | PResponse r => snd (handle_append_response r p)
  | PRetryTick e => snd (record_retry_backoff_tick e p)
  | PNetworkError => snd (record_network_error p)
  | PHeartbeatResponse => record_heartbeat_response p
  | PPause => pause p
  | PSetProgressState s => set_progress_state s p
  | PTakeEmptyAppend => snd (take_empty_append_due_to_old_pause p)
  | PLearnerRound c => snd (record_learner_catchup_round c p)
  | PWitnessQuorum a r => snd (record_witness_quorum a r p)
  | PBeginApply i b => snd (begin_apply_task i b p)
  | PCompleteApply i => snd (complete_apply_through i p)
  | PPeerActive => record_peer_active p
  | POfflineTimeout => record_offline_timeout p
  | PReceiveOutOfOrder e => snd (receive_out_of_order e p)
  | PTickReorder e => snd (tick_reorder_queue e p)
  | PExpireReorder => snd (expire_reorder_queue p)
  | PBeginSend id i c => snd (begin_snapshot_send id i c p)
  | PBeginInstall id i c => snd (begin_snapshot_install id i c p)
  | PRequireSnapshot i => snd (maybe_require_snapshot i p)
  | PAckRequire => ack_snapshot_require p
  | PChunkSent b => snd (record_snapshot_chunk_sent b p)
  | PCancelSend => snd (cancel_snapshot_send_for_new_snapshot p)
  | PAckChunk => snd (acknowledge_snapshot_chunk p)
  | PSnapshotFinish a c => snd (handle_snapshot_finish a c p)
  | PSnapshotProgress r e t => snd (update_snapshot_progress r e t p)
  | PRetryChunk => snd (retry_snapshot_chunk p)
  | PReceiveChunk b d => snd (receive_snapshot_chunk b d p)
  | PRollback => rollback_snapshot_install p
  | PMarkRejoin => mark_snapshot_rejoin_after_compacted_log p
  | PReset m n s => reset_for_leader_transition m n s p
  end.

Definition run_pipeline (ops : list PipelineOp) (p : ReplicationPipeline) : ReplicationPipeline :=
  foldl (fun p op => run_pipeline_op op p) p ops.

Lemma flush_inv n b p :
  pipeline_inv p -> pipeline_inv (snd (flush_append_batch_core n b p)).
Proof.
  intros (Hw & Hg & Hd). unfold flush_append_batch_core.
  set (me := if bool_decide _ then _ else _).
  assert (0 < me)%N as Hme by (unfold me; case_bool_decide; lia).
  pose proof (flush_loop_spec (S (length (rp_append_queue p))) me (N.max b 1) p Hw Hme
    (Nat.lt_succ_diag_r _)) as Hf.
  destruct (flush_loop _ _ _ p) as [batches p']. destruct Hf as (Hw' & Hg' & _).
  cbn [snd]. split_and!; [by keep_fields|keep_fields; auto|done].
Qed.

(** Steps through [let q := x in k q]: the invariant of [x] becomes a goal and
    the rest continues from an arbitrary [q] in the invariant. *)
Ltac let_step :=
  lazymatch goal with
  | |- pipeline_inv (let q : ReplicationPipeline := ?x in @?k q) =>
      let q := fresh "q" in let Hq := fresh "Hq" in
      cut (forall q : ReplicationPipeline, pipeline_inv q -> pipeline_inv (k q));
      [intros Hq; apply (Hq x); clear Hq|intros q Hq; cbv beta]
  | |- pipeline_inv (let q : ?T := ?x in @?k q) =>
      let q := fresh "q" in
      cut (forall q : T, pipeline_inv (k q)); [intros q; apply (q x)|intros q; cbv beta]
  end.

Lemma advance_match_inv r p : pipeline_inv p -> pipeline_inv (advance_match r p).
Proof.
  intros Hp. cbv beta delta [advance_match]. let_step. do 2 (let_step; [by keep_fields|]).
  destruct (_ <? _)%N; [destruct (pp_progress_state _)|].
  - let_step; [by apply resume_inv|]. let_step; [by keep_fields|].
    let_step; [by apply reset_inflight_window_inv|]. by keep_fields.
  - by apply release_inflight_through_inv.
  - by apply release_inflight_through_inv.
Qed.

Lemma append_accepted_inv r p : pipeline_inv p -> pipeline_inv (append_accepted r p).
Proof.
  intros Hp. cbv beta delta [append_accepted]. do 2 (let_step; [by keep_fields|]).
  let_step; [by apply advance_match_inv|]. let_step; [by apply drain_reorder_queue_inv|].
  let_step; [by keep_fields|]. by apply require_snapshot_from_inv.
Qed.

Lemma append_rejected_inv r p : pipeline_inv p -> pipeline_inv (append_rejected r p).
Proof.
  intros Hp. cbv beta delta [append_rejected]. do 3 (let_step; [by keep_fields|]). let_step.
  let_step; [destruct (_ : bool); [by keep_fields|by apply resume_inv]|].
  let_step; [by apply reset_inflight_window_inv|]. let_step; [by keep_fields|].
  let_step; [destruct (_ && _); [by apply pause_inv|done]|]. by apply require_snapshot_from_inv.
Qed.

Lemma handle_append_response_inv r p :
  pipeline_inv p -> pipeline_inv (snd (handle_append_response r p)).
Proof.
  intros Hp. unfold handle_append_response.
  assert (pipeline_inv (if (resp_term r =? 0)%N then p <|| pp_stale_term_rejections ::= bump ||> else p))
    as Hp' by (destruct (_ =? _)%N; [by keep_fields|done]).
  set (p' := if (resp_term r =? 0)%N then _ else _) in *. clearbody p'.
  destruct (resp_success r); [by apply append_accepted_inv|].
  destruct (stale_rejection r p'); [done|by apply append_rejected_inv].
Qed.

Lemma pop_completed_length i l : (length (snd (pop_completed i l)) <= length l)%nat.
Proof.
  induction l as [|t l IH]; cbn; [done|]. destruct (_ <=? _)%N; [|done].
  destruct (pop_completed i l). cbn in *. lia.
Qed.

Lemma apply_window_inv p l d :
  (N.of_nat (length l) <= pl_max_inflights_apply_task (rp_limits p))%N -> pipeline_inv p ->
  pipeline_inv (p <| rp_apply_inflight := l |>
                  <|| pp_apply_inflight_tasks := N.of_nat (length l) ||>
                  <|| pp_apply_queue_depth := d ||>).
Proof.
  intros Hl (Hw & [H1 H2 H3 H4 H5 H6 H7] & Hd). keep_fields.
  split_and!; [by keep_fields|split; cbn; try done|done].
Qed.

Lemma begin_apply_task_inv i b p : pipeline_inv p -> pipeline_inv (snd (begin_apply_task i b p)).
Proof.
  intros Hp. unfold begin_apply_task. destruct (_ <? _)%N; [by cbn [snd]; keep_fields|].
  destruct (N.leb_spec (pl_max_inflights_apply_task (rp_limits p)) (pp_apply_inflight_tasks (rp_status p)))
    as [|Hlt]; [by cbn [snd]; keep_fields|].
  cbn [snd]. keep_fields. apply (apply_window_inv p); [|done].
  rewrite (gi_apply p) in Hlt by apply Hp. rewrite length_app. cbn. lia.
Qed.

Lemma complete_apply_through_inv i p : pipeline_inv p -> pipeline_inv (snd (complete_apply_through i p)).
Proof.
  intros Hp. unfold complete_apply_through.
  pose proof (pop_completed_length i (rp_apply_inflight p)) as Hl.
  destruct (pop_completed _ _) as [c rest]. cbn [snd] in *.
  apply (apply_window_inv p); [|done]. pose proof (gi_apply_limit p ltac:(apply Hp)). lia.
Qed.

(** Replacing the reorder queue by one that fits, with its depth recorded. *)
Lemma reorder_queue_inv q p :
  (N.of_nat (size q) <= pl_reorder_window_size (rp_limits p))%N -> pipeline_inv p ->
  pipeline_inv (p <| rp_reorder_queue := q |> <|| pp_reorder_queue_depth := N.of_nat (size q) ||>).
Proof.
  intros Hs (Hw & [H1 H2 H3 H4 H5 H6 H7] & Hd).
  split_and!; [by keep_fields|split; cbn; try done|done].
Qed.

Lemma receive_out_of_order_inv e p : pipeline_inv p -> pipeline_inv (snd (receive_out_of_order e p)).
Proof.
  intros Hp. unfold receive_out_of_order. destruct (_ <? _)%N; [by cbn [snd]; keep_fields|].
  destruct (_ =? _)%N.
  { destruct (checked_add _ _); cbn [snd]; [|by keep_fields].
    apply drain_reorder_queue_inv. by keep_fields. }
  destruct (pl_enable_reorder_queue _); [|by cbn [negb snd]; keep_fields]. cbn [negb].
  destruct (N.leb_spec (pl_reorder_window_size (rp_limits p)) (N.of_nat (size (rp_reorder_queue p))))
    as [|Hlt]; [by cbn [snd]; keep_fields|].
  cbn [snd]. apply (reorder_queue_inv (<[entry_index e := 0%N]> (rp_reorder_queue p)) p); [|done].
  rewrite map_size_insert. destruct (rp_reorder_queue p !! _); unfold id; lia.
Qed.

Lemma tick_kept_size e t (q : gmap N N) :
  (size (filter (fun kv => keep_age t kv.2) (age_reorder_queue e q)) <= size q)%nat.
Proof.
  rewrite <- (map_size_fmap (fun age => age +s e) q). apply map_subseteq_size, map_filter_subseteq.
Qed.

Lemma tick_reorder_queue_inv e p : pipeline_inv p -> pipeline_inv (snd (tick_reorder_queue e p)).
Proof.
  intros Hp. unfold tick_reorder_queue. case_decide; [done|].
  set (kept := filter _ _).
  assert (size kept <= size (rp_reorder_queue p))%nat as Hk by apply tick_kept_size.
  pose proof (gi_reorder_limit p ltac:(apply Hp)) as Hlim.
  pose proof (gi_reorder p ltac:(apply Hp)) as Hdepth.
  assert (pipeline_inv (p <| rp_reorder_queue := kept |>
            <|| pp_reorder_queue_depth := N.of_nat (size kept) ||>)) as Hp'
    by (apply reorder_queue_inv; [lia|done]).
  destruct (N.eqb_spec (N.of_nat (size (age_reorder_queue e (rp_reorder_queue p)) - size kept)) 0) as [Hz|];
    cbn [snd]; [|by keep_fields].
  unfold age_reorder_queue in Hz. rewrite map_size_fmap in Hz.
  eapply pipeline_inv_ext; [..|exact Hp']; try reflexivity. cbn. rewrite Hdepth. lia.
Qed.

Lemma expire_reorder_queue_inv p : pipeline_inv p -> pipeline_inv (snd (expire_reorder_queue p)).
Proof.
  intros Hp. unfold expire_reorder_queue. destruct (_ <? _)%N; [|done]. cbn [snd]. keep_fields.
  replace 0%N with (N.of_nat (size (∅ : gmap N N))) by (by rewrite map_size_empty).
  apply (reorder_queue_inv ∅ p); [rewrite map_size_empty; lia|done].
Qed.

Lemma acknowledge_snapshot_chunk_inv p : pipeline_inv p -> pipeline_inv (snd (acknowledge_snapshot_chunk p)).
Proof.
  intros Hp. unfold acknowledge_snapshot_chunk. destruct (rp_snapshot_transfer p) as [t|] eqn:Ht; [|done].
  set (t' := t <| st_acknowledged_chunks ::= bump |>).
  assert (pipeline_inv (p <| rp_snapshot_transfer := Some t' |>
    <|| pp_snapshot_install_progress_per_mille :=
          progress_per_mille (st_acknowledged_chunks t') (st_total_chunks t') ||>)) as Hp'.
  { apply set_progress_per_mille_inv; [apply progress_per_mille_bound|by eapply update_transfer_inv]. }
  destruct (_ <=? _)%N; [by apply finish_snapshot_install_inv|done].
Qed.

Lemma receive_snapshot_chunk_inv b d p : pipeline_inv p -> pipeline_inv (snd (receive_snapshot_chunk b d p)).
Proof.
  intros Hp. unfold receive_snapshot_chunk. destruct (rp_snapshot_transfer p) as [t|] eqn:Ht; [|done].
  set (t' := t <| st_bytes_received ::= (fun b0 => b0 +w b) |> <| st_acknowledged_chunks ::= bump |>).
  assert (pipeline_inv (p <| rp_snapshot_transfer := Some t' |>
    <|| pp_snapshot_install_progress_per_mille :=
          progress_per_mille (st_acknowledged_chunks t') (st_total_chunks t') ||>)) as Hp'.
  { apply set_progress_per_mille_inv; [apply progress_per_mille_bound|by eapply update_transfer_inv]. }
  destruct d; [by apply finish_snapshot_install_inv|done].
Qed.

Lemma handle_snapshot_finish_inv a c p : pipeline_inv p -> pipeline_inv (snd (handle_snapshot_finish a c p)).
Proof.
  intros Hp. unfold handle_snapshot_finish. destruct (rp_snapshot_transfer p) as [t|]; [|done].
  pose proof (clear_transfer_inv p Hp) as Hc.
  generalize dependent (p <| rp_snapshot_transfer := None |>
    <|| pp_snapshot_sending := false ||> <|| pp_snapshot_installing := false ||>). intros q Hq.
  destruct a; cbn [snd]; [|by keep_fields]. unfold ack_snapshot_require. keep_fields.
  apply set_progress_per_mille_inv; [lia|]. by keep_fields.
Qed.

Lemma update_snapshot_progress_inv r e t p :
  pipeline_inv p -> pipeline_inv (snd (update_snapshot_progress r e t p)).
Proof.
  intros Hp. unfold update_snapshot_progress. destruct (rp_snapshot_transfer p) as [tr|] eqn:Ht; [|done].
  destruct (pp_snapshot_sending _); [|done]. cbn [negb].
  destruct r; [by eapply update_transfer_inv|].
  destruct (_ <=? _)%N; cbn [snd]; [by eapply update_transfer_inv|]. keep_fields.
  apply set_progress_per_mille_inv; [lia|].
  eapply pipeline_inv_ext; [..|exact (clear_transfer_inv p Hp)]; reflexivity.
Qed.

Lemma empty_sums : sum_entries [] = 0%N /\ sum_inflight [] = 0%N /\ sum_queue [] = 0%N.
Proof. done. Qed.

Lemma pipeline_new_inv peer_id next_index limits :
  limits_in_range limits -> pipeline_inv (pipeline_new peer_id next_index limits).
Proof.
  destruct empty_sums as (E1 & E2 & E3).
  intros Hr. split_and!; [split|split|]; cbn; rewrite ?E1, ?E2, ?E3, ?map_size_empty; try done; lia.
Qed.

Lemma reset_for_leader_transition_inv m n s p :
  pipeline_inv p -> pipeline_inv (reset_for_leader_transition m n s p).
Proof.
  intros (Hw & _). eapply pipeline_inv_ext;
    [..|exact (pipeline_new_inv (rp_peer_id p) n (rp_limits p) (wi_range p Hw))]; reflexivity.
Qed.

Lemma record_network_error_inv p : pipeline_inv p -> pipeline_inv (snd (record_network_error p)).
Proof.
  intros Hp. unfold record_network_error. destruct (negb _); cbn [snd]; [by keep_fields|].
  match goal with |- context [reset_inflight_window ?x] =>
    assert (pipeline_inv (reset_inflight_window x)) as Hx
      by (apply reset_inflight_window_inv; by keep_fields);
    generalize dependent (reset_inflight_window x)
  end. intros q Hq. by keep_fields.
Qed.

Lemma run_pipeline_op_inv op p : pipeline_inv p -> pipeline_inv (run_pipeline_op op p).
Proof.
  intros Hp. destruct op; cbn [run_pipeline_op].
  - by apply queue_append_inv.
  - by apply flush_inv.
  - by apply handle_append_response_inv.
  - unfold record_retry_backoff_tick. cbn [snd]. by keep_fields.
  - by apply record_network_error_inv.
  - unfold record_heartbeat_response. destruct (is_paused p); [by apply resume_inv|done].
  - by apply pause_inv.
  - unfold set_progress_state. by keep_fields.
  - unfold take_empty_append_due_to_old_pause. destruct (_ && _); cbn [snd]; by keep_fields.
  - unfold record_learner_catchup_round, update_follower_lag. cbn [snd]. by keep_fields.
  - unfold record_witness_quorum. cbn [snd]. by keep_fields.
  - by apply begin_apply_task_inv.
  - by apply complete_apply_through_inv.
  - unfold record_peer_active. by keep_fields.
  - unfold record_offline_timeout. destruct (negb _); by keep_fields.
  - by apply receive_out_of_order_inv.
  - by apply tick_reorder_queue_inv.
  - by apply expire_reorder_queue_inv.
  - by apply begin_snapshot_send_inv.
  - by apply begin_snapshot_install_inv.
  - by apply maybe_require_snapshot_inv.
  - unfold ack_snapshot_require. by keep_fields.
  - unfold record_snapshot_chunk_sent. destruct (rp_snapshot_transfer p) eqn:E; [|done].
    by eapply update_transfer_inv.
  - unfold cancel_snapshot_send_for_new_snapshot. cbn [snd].
    destruct (pp_snapshot_sending _); [by apply clear_transfer_inv|done].
  - by apply acknowledge_snapshot_chunk_inv.
  - by apply handle_snapshot_finish_inv.
  - by apply update_snapshot_progress_inv.
  - unfold retry_snapshot_chunk. destruct (rp_snapshot_transfer p); [cbn [snd]; by keep_fields|done].
  - by apply receive_snapshot_chunk_inv.
  - unfold rollback_snapshot_install. keep_fields. by apply clear_transfer_inv.
  - unfold mark_snapshot_rejoin_after_compacted_log. by keep_fields.
  - by apply reset_for_leader_transition_inv.
Qed.

(** ** Properties *)

(** C37: from a fresh pipeline every sequence of operations, successful or
    refused, keeps the accounting exact and the limits: the in-flight entry and
    byte counters and the queue byte counter are the sums over the windows,
    in-flight plus queued bytes never exceed the replication memory limit, the
    queue, the apply window and the reorder queue stay within their limits, the
    published depths are the real ones, the in-flight window stays within
    twice its entry limit, and at most one snapshot transfer is
    active, exactly when a transfer record exists. *)
Theorem pipeline_invariant_preserved peer_id next_index limits ops :
  limits_in_range limits ->
  pipeline_inv (run_pipeline ops (pipeline_new peer_id next_index limits)).
Proof.
  intros Hr. pose proof (pipeline_new_inv peer_id next_index limits Hr) as Hp.
  generalize dependent (pipeline_new peer_id next_index limits).
  induction ops as [|op ops IH]; cbn; [done|]. intros p Hp. by apply IH, run_pipeline_op_inv.
Qed.

Definition sample_append (i : N) : LogEntry := mkLogEntry (mkLogId 1 i) (replicate 4 Byte.x2a) true.

Lemma pipeline_invariant_preserved_witness :
  pipeline_inv (run_pipeline
    [PQueueAppend (sample_append 1); PQueueAppend (sample_append 2); PFlush 8 64; PNetworkError]
    (pipeline_new 2 1 production_default)).
Proof.
  apply (pipeline_invariant_preserved 2 1 production_default). split; vm_compute; discriminate.
Defined.

(** A flush sends the queue in order. On a pipeline in its invariant the
    returned batches are consecutive nonempty segments from the front of the
    append queue with exact first and last log ids, entry counts and byte
    totals; each respects the entry limit (one entry while probing) and the byte
    limit unless it is a single entry; they are appended to the in-flight window
    in the same order; and the flush stops only when the peer is paused, the
    window is full or the queue is empty. *)
Theorem flush_sends_queue_in_order max_entries max_bytes p :
  pipeline_inv p ->
  let '(batches, p') := flush_append_batch_core max_entries max_bytes p in
  let entry_limit := if bool_decide (pp_progress_state (rp_status p) = Probe) then 1%N
                     else N.max max_entries 1 in
  rp_inflight p' = rp_inflight p ++ batches
  /\ (exists segments, rp_append_queue p = concat segments ++ rp_append_queue p'
        /\ Forall2 (batch_of entry_limit (N.max max_bytes 1)) segments batches)
  /\ (is_paused p' = true \/ inflight_is_full p' = true \/ rp_append_queue p' = []).
Proof.
  intros (Hw & _). unfold flush_append_batch_core.
  set (me := if bool_decide _ then _ else _).
  assert (0 < me)%N as Hme by (unfold me; case_bool_decide; lia).
  pose proof (flush_loop_spec (S (length (rp_append_queue p))) me (N.max max_bytes 1) p Hw Hme
    (Nat.lt_succ_diag_r _)) as Hf.
  destruct (flush_loop _ _ _ p) as [batches p']. destruct Hf as (_ & _ & _ & Hi & Hs & Hstop).
  split_and!; [exact Hi|exact Hs|exact Hstop].
Qed.

Definition sample_pipeline : ReplicationPipeline :=
  run_pipeline [PQueueAppend (sample_append 1); PQueueAppend (sample_append 2);
                PQueueAppend (sample_append 3); PSetProgressState Replicate]
    (pipeline_new 2 1 production_default).

Lemma sample_pipeline_inv : pipeline_inv sample_pipeline.
Proof.
  unfold sample_pipeline, run_pipeline. cbn [foldl].
  do 4 apply run_pipeline_op_inv. apply pipeline_new_inv. split; vm_compute; discriminate.
Qed.

Lemma flush_sends_queue_in_order_witness :
  (fst (flush_append_batch_core 2 64 sample_pipeline)
   = [mkInflightAppend (mkLogId 1 1) (mkLogId 1 2) 2 8; mkInflightAppend (mkLogId 1 3) (mkLogId 1 3) 1 4])
  /\ (let '(batches, p') := flush_append_batch_core 2 64 sample_pipeline in
      rp_inflight p' = rp_inflight sample_pipeline ++ batches).
Proof.
  split; [vm_compute; reflexivity|].
  pose proof (flush_sends_queue_in_order 2 64 sample_pipeline sample_pipeline_inv) as H.
  destruct (flush_append_batch_core 2 64 sample_pipeline) as [batches p']. apply H.
Defined.

(** Filling the hole drains exactly the contiguous run. With all queued
    indexes below the ceiling, some [k] consecutive indexes from the next index
    on are taken out of the reorder queue, the index after them is not queued,
    every other queued index stays with its age, the next index moves past the
    run and the published depth is the size of what is left. *)
Theorem reorder_drain_takes_contiguous_run p :
  (forall i, is_Some (rp_reorder_queue p !! i) -> (i < u64_max)%N) ->
  exists k : nat,
    let p' := drain_reorder_queue p in
    let next := pp_next_index (rp_status p) in
    (forall j, (j < k)%nat -> is_Some (rp_reorder_queue p !! (next + N.of_nat j)%N))
    /\ rp_reorder_queue p !! (next + N.of_nat k)%N = None
    /\ (forall i, rp_reorder_queue p' !! i =
          if decide (next <= i < next + N.of_nat k)%N then None else rp_reorder_queue p !! i)
    /\ pp_next_index (rp_status p') = (next + N.of_nat k)%N
    /\ pp_match_index (rp_status p')
       = (if (k =? 0)%nat then pp_match_index (rp_status p) else next + N.of_nat k - 1)%N
    /\ pp_reorder_queue_depth (rp_status p') = N.of_nat (size (rp_reorder_queue p')).
Proof.
  intros Hmax.
  destruct (drain_reorder_loop_spec (S (size (rp_reorder_queue p))) 0 p (Nat.lt_succ_diag_r _) Hmax)
    as (k & Hk). exists k. unfold drain_reorder_queue.
  destruct (drain_reorder_loop _ _ _) as [c p']. destruct Hk as (_ & H2 & H3 & H4 & H5).
  split_and!; [exact H2|exact H3|exact H4| | |reflexivity]; rewrite H5; reflexivity.
Qed.

Definition sample_reordered : ReplicationPipeline :=
  run_pipeline [PReceiveOutOfOrder (sample_append 3); PReceiveOutOfOrder (sample_append 4);
                PReceiveOutOfOrder (sample_append 7)] (pipeline_new 2 2 production_default).

Lemma reorder_drain_takes_contiguous_run_witness :
  pp_next_index (rp_status (run_pipeline_op (PReceiveOutOfOrder (sample_append 2)) sample_reordered)) = 5%N
  /\ exists k : nat, pp_next_index (rp_status (drain_reorder_queue (sample_reordered <|| pp_next_index := 3%N ||>)))
                     = (3 + N.of_nat k)%N.
Proof.
  split; [vm_compute; reflexivity|].
  destruct (reorder_drain_takes_contiguous_run (sample_reordered <|| pp_next_index := 3%N ||>)) as (k & Hk).
  - intros i [a Hi]. assert (map_Forall (fun i _ => i < u64_max)%N (rp_reorder_queue sample_reordered)) as Hall
      by (apply (bool_decide_unpack _); vm_compute; exact I).
    exact (Hall i a Hi).
  - exists k. apply Hk.
Defined.

(** The part of the state the flow control decides on. *)
Definition flow (p : ReplicationPipeline) : ProgressState * LogIndex * LogIndex * N * N * list InflightAppend :=
  (pp_progress_state (rp_status p), pp_match_index (rp_status p), pp_next_index (rp_status p),
   pp_retry_attempts (rp_status p), pp_backoff_ms (rp_status p), rp_inflight p).

Lemma require_snapshot_from_flow r p : flow (require_snapshot_from r p) = flow p.
Proof.
  unfold require_snapshot_from, maybe_require_snapshot, begin_snapshot_send.
  destruct (resp_require_snapshot r) as [i|]; [|done].
  destruct (i =? u64_max)%N; [done|]. destruct (i <=? _)%N; [done|]. cbn.
  by destruct (_ || _).
Qed.

Lemma pause_flow p : flow (pause p) = flow p.
Proof. done. Qed.

Lemma resume_frame p :
  pp_progress_state (rp_status (resume p)) = pp_progress_state (rp_status p)
  /\ pp_match_index (rp_status (resume p)) = pp_match_index (rp_status p)
  /\ pp_next_index (rp_status (resume p)) = pp_next_index (rp_status p)
  /\ pp_retry_attempts (rp_status (resume p)) = pp_retry_attempts (rp_status p)
  /\ pp_backoff_ms (rp_status (resume p)) = pp_backoff_ms (rp_status p).
Proof.
  unfold resume. destruct (pp_progress_state (rp_status p)) eqn:E; rewrite <- E; [done|].
  destruct (inflight_is_full p); [|done]. unfold free_first_inflight. by destruct (rp_inflight p).
Qed.

Lemma release_prefix_frame l m p :
  pp_progress_state (rp_status (release_prefix l m p)) = pp_progress_state (rp_status p)
  /\ pp_match_index (rp_status (release_prefix l m p)) = pp_match_index (rp_status p)
  /\ pp_next_index (rp_status (release_prefix l m p)) = pp_next_index (rp_status p)
  /\ match head (rp_inflight (release_prefix l m p)) with
     | Some i => (m < lid_index (if_last_log_id i))%N
     | None => True
     end.
Proof.
  revert p. induction l as [|i l IH]; intros p; cbn [release_prefix]; [done|].
  destruct (N.leb_spec (lid_index (if_last_log_id i)) m); [|done]. apply (IH (release_inflight i p)).
Qed.

Lemma drain_reorder_loop_match fuel c p :
  (pp_match_index (rp_status p) <= pp_next_index (rp_status p))%N -> u64 (pp_next_index (rp_status p)) ->
  (pp_match_index (rp_status p)
     <= pp_match_index (rp_status (snd (drain_reorder_loop fuel c p))))%N.
Proof.
  revert c p. induction fuel as [|fuel IH]; intros c p Hle Hu; cbn [drain_reorder_loop]; [cbn; lia|].
  destruct (rp_reorder_queue p !! _) as [a|]; [|cbn; lia].
  etrans; [|apply IH]; [exact Hle| |apply saturating_add_u64].
  cbn. by apply saturating_add_ge.
Qed.

Lemma drain_reorder_queue_frame p :
  (pp_match_index (rp_status p) <= pp_next_index (rp_status p))%N -> u64 (pp_next_index (rp_status p)) ->
  pp_progress_state (rp_status (drain_reorder_queue p)) = pp_progress_state (rp_status p)
  /\ (pp_match_index (rp_status p) <= pp_match_index (rp_status (drain_reorder_queue p)))%N
  /\ rp_inflight (drain_reorder_queue p) = rp_inflight p.
Proof.
  intros Hle Hu. unfold drain_reorder_queue.
  pose proof (drain_reorder_loop_match (S (size (rp_reorder_queue p))) 0 p Hle Hu) as Hm.
  destruct (drain_reorder_loop_frame (S (size (rp_reorder_queue p))) 0 p) as (m & n & Heq & _).
  destruct (drain_reorder_loop _ _ _) as [c p']. cbn [snd] in *.
  split_and!; [by rewrite Heq|exact Hm|by rewrite Heq].
Qed.

(** The front of the in-flight window is not acknowledged by [m]. *)
Definition front_unacknowledged (m : LogIndex) (p : ReplicationPipeline) : Prop :=
  match head (rp_inflight p) with
  | Some i => (m < lid_index (if_last_log_id i))%N
  | None => True
  end.

Lemma advance_match_effect r p :
  let p' := advance_match r p in
  pp_match_index (rp_status p') = N.max (pp_match_index (rp_status p)) (resp_match_index r)
  /\ pp_next_index (rp_status p') = pp_match_index (rp_status p') +s 1
  /\ pp_progress_state (rp_status p')
     = (if (pp_match_index (rp_status p) <? resp_match_index r)%N then Replicate
        else pp_progress_state (rp_status p))
  /\ front_unacknowledged (resp_match_index r) p'.
Proof.
  cbv beta delta [advance_match]. cbv zeta.
  set (q := p <|| pp_match_index ::= (fun m => N.max m (resp_match_index r)) ||>).
  set (q' := q <|| pp_next_index := pp_match_index (rp_status q) +s 1 ||>).
  assert (pp_match_index (rp_status q') = N.max (pp_match_index (rp_status p)) (resp_match_index r)
    /\ pp_next_index (rp_status q') = pp_match_index (rp_status q') +s 1
    /\ pp_progress_state (rp_status q') = pp_progress_state (rp_status p)) as (E1 & E2 & E3) by done.
  clearbody q'. clear q. rewrite E3.
  destruct (release_prefix_frame (rp_inflight q') (resp_match_index r) q') as (R1 & R2 & R3 & R4).
  fold (release_inflight_through (resp_match_index r) q') in R1, R2, R3, R4.
  destruct (N.ltb_spec (pp_match_index (rp_status p)) (pp_match_index (rp_status q'))) as [Hlt|Hge].
  - rewrite (proj2 (N.ltb_lt _ _)) by lia. destruct (pp_progress_state (rp_status p)).
    + destruct (resume_frame q') as (_ & F2 & _). rewrite <- E1, <- F2.
      generalize (resume q'). intros [? ? [] ? ? ? ? ? ?]. done.
    + rewrite R1, R2, R3. by rewrite E1 at 1.
  - rewrite (proj2 (N.ltb_ge _ _)) by lia. rewrite R1, R2, R3. by rewrite E1 at 1.
Qed.

Lemma append_accepted_effect r p :
  u64 (pp_match_index (rp_status p)) -> u64 (resp_match_index r) ->
  let p' := append_accepted r p in
  (N.max (pp_match_index (rp_status p)) (resp_match_index r) <= pp_match_index (rp_status p'))%N
  /\ pp_retry_attempts (rp_status p') = 0%N /\ pp_backoff_ms (rp_status p') = 0%N
  /\ front_unacknowledged (resp_match_index r) p'
  /\ pp_progress_state (rp_status p')
     = (if (pp_match_index (rp_status p) <? resp_match_index r)%N then Replicate
        else pp_progress_state (rp_status p)).
Proof.
  intros Hu Hr. cbv beta delta [append_accepted]. cbv zeta.
  set (q := p <|| pp_append_accepted ::= bump ||>).
  set (q1 := q <|| pp_old_paused := is_paused q ||>).
  assert (pp_match_index (rp_status q1) = pp_match_index (rp_status p)
    /\ pp_progress_state (rp_status q1) = pp_progress_state (rp_status p)) as [E1 E2] by done.
  clearbody q1. clear q.
  destruct (advance_match_effect r q1) as (A1 & A2 & A3 & A4). rewrite E1 in A1. rewrite E1, E2 in A3.
  generalize dependent (advance_match r q1). intros q2 A1 A2 A3 A4. clear E1 E2 q1.
  destruct (drain_reorder_queue_frame q2) as (D1 & D2 & D3).
  { rewrite A2. apply saturating_add_ge. rewrite A1. unfold u64 in *. lia. }
  { rewrite A2. apply saturating_add_u64. }
  generalize dependent (drain_reorder_queue q2). intros q3 D1 D2 D3.
  set (q4 := q3 <|| pp_retry_attempts := 0%N ||> <|| pp_backoff_ms := 0%N ||>
                <|| pp_next_retry_after_ms := 0%N ||>).
  pose proof (require_snapshot_from_flow r q4) as Hf. unfold flow in Hf.
  unfold front_unacknowledged in *.
  injection Hf as -> -> _ -> -> ->. cbn. rewrite D3. split_and!; [lia|done|done|done|congruence].
Qed.

Lemma append_rejected_effect r p :
  let p' := append_rejected r p in
  pp_match_index (rp_status p') = pp_match_index (rp_status p)
  /\ pp_progress_state (rp_status p') = Probe
  /\ rp_inflight p' = []
  /\ pp_next_index (rp_status p')
     = (if bool_decide (pp_progress_state (rp_status p) = Replicate)
        then pp_match_index (rp_status p) +s 1
        else N.max (default (resp_match_index r +s 1) (resp_rejection_hint r)) 1)
  /\ pp_backoff_ms (rp_status p') = next_backoff_ms (pp_retry_attempts (rp_status p'))
  /\ pp_retry_attempts (rp_status p') = pp_retry_attempts (rp_status p) +w 1.
Proof.
  cbv beta delta [append_rejected]. cbv zeta.
  set (q0 := p <|| pp_append_rejected ::= bump ||> <|| pp_retry_attempts ::= bump ||>).
  set (q1 := q0 <|| pp_backoff_ms := next_backoff_ms (pp_retry_attempts (rp_status q0)) ||>).
  set (q2 := q1 <|| pp_next_retry_after_ms := pp_backoff_ms (rp_status q1) ||>).
  assert (pp_match_index (rp_status q2) = pp_match_index (rp_status p)
    /\ pp_progress_state (rp_status q2) = pp_progress_state (rp_status p)
    /\ pp_retry_attempts (rp_status q2) = pp_retry_attempts (rp_status p) +w 1
    /\ pp_backoff_ms (rp_status q2) = next_backoff_ms (pp_retry_attempts (rp_status q2)))
    as (E1 & E2 & E3 & E4) by done.
  clearbody q2. clear q0 q1. rewrite E2.
  set (b := bool_decide (pp_progress_state (rp_status p) = Replicate)).
  set (q3 := if b then q2 <|| pp_progress_state := Probe ||> <|| pp_paused := false ||> else resume q2).
  assert (pp_match_index (rp_status q3) = pp_match_index (rp_status p)
    /\ pp_progress_state (rp_status q3) = Probe
    /\ pp_retry_attempts (rp_status q3) = pp_retry_attempts (rp_status p) +w 1
    /\ pp_backoff_ms (rp_status q3) = next_backoff_ms (pp_retry_attempts (rp_status q3)))
    as (F1 & F2 & F3 & F4).
  { unfold q3. destruct (resume_frame q2) as (R1 & R2 & _ & R4 & R5).
    unfold b. case_bool_decide as Hb; [done|]. rewrite R1, R2, R4, R5, E2.
    split_and!; [done| |done|done]. by destruct (pp_progress_state (rp_status p)). }
  clearbody q3. clear q2 E1 E2 E3 E4.
  set (q4 := (reset_inflight_window q3) <|| pp_next_index := _ ||>).
  assert (flow (if bool_decide (resp_rejection_hint r = resp_rejected_index r)
      && bool_decide (is_Some (resp_rejection_hint r)) then pause q4 else q4) = flow q4) as Hq4
    by (by destruct (_ && _)).
  pose proof (require_snapshot_from_flow r (if bool_decide (resp_rejection_hint r = resp_rejected_index r)
      && bool_decide (is_Some (resp_rejection_hint r)) then pause q4 else q4)) as Hf.
  rewrite Hq4 in Hf. unfold flow in Hf. injection Hf as -> -> -> -> -> ->.
  unfold q4. cbn. rewrite F1. split_and!; done.
Qed.

(** What an append response does to the flow control of a peer. The match
    index never goes back. A success raises it to the acknowledged index, clears
    the retry state, frees every acknowledged batch at the front of the window
    and, when it is progress, leaves the peer replicating. A rejection that is
    stale is ignored: windows, indexes and state are as before. Any other
    rejection is reported as an error, empties the in-flight window, puts the
    peer into probing with a next index of at least one (just above the match
    index when it was replicating) and a bounded exponential backoff. *)
Theorem append_response_effect r p :
  u64 (pp_match_index (rp_status p)) -> u64 (resp_match_index r) ->
  let '(res, p') := handle_append_response r p in
  (pp_match_index (rp_status p) <= pp_match_index (rp_status p'))%N
  /\ (if resp_success r then
        res = Ok tt /\ (resp_match_index r <= pp_match_index (rp_status p'))%N
        /\ pp_retry_attempts (rp_status p') = 0%N
        /\ front_unacknowledged (resp_match_index r) p'
        /\ ((pp_match_index (rp_status p) < resp_match_index r)%N ->
            pp_progress_state (rp_status p') = Replicate)
      else if stale_rejection r p then res = Ok tt /\ flow p' = flow p
      else
        (exists e, res = Err e)
        /\ rp_inflight p' = [] /\ pp_progress_state (rp_status p') = Probe
        /\ pp_match_index (rp_status p') = pp_match_index (rp_status p)
        /\ (1 <= pp_next_index (rp_status p'))%N
        /\ (pp_progress_state (rp_status p) = Replicate ->
            pp_next_index (rp_status p') = pp_match_index (rp_status p) +s 1)
        /\ pp_backoff_ms (rp_status p') = next_backoff_ms (pp_retry_attempts (rp_status p'))
        /\ (pp_backoff_ms (rp_status p') <= 5000)%N).
Proof.
  intros Hu Hr. unfold handle_append_response.
  set (q := if (resp_term r =? 0)%N then _ else p).
  assert (pp_match_index (rp_status q) = pp_match_index (rp_status p)
    /\ pp_progress_state (rp_status q) = pp_progress_state (rp_status p)
    /\ stale_rejection r q = stale_rejection r p /\ flow q = flow p) as (E1 & E2 & E3 & E4)
    by (unfold q; by destruct (_ =? _)%N).
  clearbody q. rewrite <- E1, <- E2, <- E3, <- E4. rewrite <- E1 in Hu. clear E1 E2 E3 E4 p.
  destruct (resp_success r).
  - destruct (append_accepted_effect r q Hu Hr) as (A1 & A2 & A3 & A4 & A5).
    split_and!; try done; try lia. intros Hlt. by rewrite A5, (proj2 (N.ltb_lt _ _) Hlt).
  - destruct (stale_rejection r q); [split_and!; [reflexivity|done|done]|].
    destruct (append_rejected_effect r q) as (A1 & A2 & A3 & A4 & A5 & A6).
    rewrite A1. split_and!; [reflexivity|eauto|done|done|done| | |done|].
    + rewrite A4. case_bool_decide; [|lia]. unfold saturating_add, u64_max. lia.
    + intros Hs. by rewrite A4, bool_decide_eq_true_2.
    + rewrite A5. unfold next_backoff_ms. lia.
Qed.

Definition sample_response (success : bool) (m : N) : AppendEntriesResponse :=
  mkAppendEntriesResponse 1 success m None None None SnapshotNone 0 0.

Lemma append_response_effect_witness :
  pp_progress_state (rp_status (snd (handle_append_response (sample_response true 1) sample_pipeline))) = Replicate
  /\ fst (handle_append_response (sample_response false 0) sample_pipeline)
     = Err (InvalidRequest "append rejected by peer pipeline")
  /\ (let '(res, p') := handle_append_response (sample_response false 0) sample_pipeline in
      pp_match_index (rp_status sample_pipeline) <= pp_match_index (rp_status p'))%N.
Proof.
  split; [vm_compute; reflexivity|]. split; [vm_compute; reflexivity|].
  assert (u64 (pp_match_index (rp_status sample_pipeline))) as Hu by (vm_compute; discriminate).
  assert (u64 (resp_match_index (sample_response false 0))) as Hr by (vm_compute; discriminate).
  pose proof (append_response_effect (sample_response false 0) sample_pipeline Hu Hr) as H.
  destruct (handle_append_response (sample_response false 0) sample_pipeline) as [res p'].
  exact (proj1 H).
Defined.

(** ** Snapshot transfer life cycle *)

Fixpoint acknowledge_chunks (k : nat) : ST RaftError ReplicationPipeline unit :=
  match k with
  | O => mret tt
  | S k' => _ ← acknowledge_snapshot_chunk; acknowledge_chunks k'
  end.

Definition transfer_idle (p : ReplicationPipeline) : Prop :=
  pp_snapshot_sending (rp_status p) = false /\ pp_snapshot_installing (rp_status p) = false.

(** The state after [k] of [chunks] chunks of a running transfer. *)
Definition transferring (index chunks k : N) (p : ReplicationPipeline) : Prop :=
  (exists t, rp_snapshot_transfer p = Some t /\ st_snapshot_index t = index
     /\ st_total_chunks t = chunks /\ st_acknowledged_chunks t = k)
  /\ pp_snapshot_sending (rp_status p) = true
  /\ pp_snapshot_install_progress_per_mille (rp_status p) = (k * 1000 / chunks)%N.

(** The state a completed transfer of [index] leaves. *)
Definition transferred (index : N) (p : ReplicationPipeline) : Prop :=
  transfer_idle p /\ rp_snapshot_transfer p = None
  /\ pp_snapshot_install_progress_per_mille (rp_status p) = 1000%N
  /\ (index <= pp_snapshot_installed_index (rp_status p))%N
  /\ (index <= pp_match_index (rp_status p))%N
  /\ pp_next_index (rp_status p) = pp_match_index (rp_status p) +s 1.

Lemma acknowledge_snapshot_chunk_step index chunks k p :
  transferring index chunks k p -> (k < chunks)%N -> (chunks * 1000 <= u64_max)%N ->
  let '(r, p') := acknowledge_snapshot_chunk p in
  r = Ok tt
  /\ if (k + 1 <? chunks)%N
     then transferring index chunks (k + 1) p'
          /\ pp_match_index (rp_status p') = pp_match_index (rp_status p)
     else transferred index p'.
Proof.
  intros [(t & Ht & Hi & Hc & Hk) [Hs _]] Hlt Hu. unfold acknowledge_snapshot_chunk. rewrite Ht.
  assert (st_acknowledged_chunks t +w 1 = k + 1)%N as Ha
    by (rewrite Hk; apply wrapping_add_small; unfold u64_max in *; lia).
  cbn [update st_total_chunks st_acknowledged_chunks]. rewrite Hc, Ha.
  destruct (N.leb_spec chunks (k + 1)) as [Hle|Hgt].
  - rewrite (proj2 (N.ltb_ge _ _)) by lia. unfold finish_snapshot_install. cbn.
    split; [done|]. unfold transferred, transfer_idle. cbn. rewrite Hi. split_and!; try done; lia.
  - rewrite (proj2 (N.ltb_lt _ _)) by lia. unfold transferring.
    split_and!; [done| |exact Hs| |done].
    + eexists. split; [reflexivity|]. cbn. auto.
    + cbn. unfold progress_per_mille, checked_div, wrapping_mul.
      rewrite N.mod_small by (unfold u64_max, u64_modulus in *; lia).
      destruct (N.eqb_spec chunks 0); [lia|]. apply N.min_l.
      apply N.Div0.div_le_upper_bound. lia.
Qed.

Lemma acknowledge_chunks_spec index chunks k j p :
  transferring index chunks j p -> (chunks * 1000 <= u64_max)%N -> (j < chunks)%N ->
  (j + N.of_nat k <= chunks)%N ->
  let '(r, p') := acknowledge_chunks k p in
  r = Ok tt
  /\ if (j + N.of_nat k <? chunks)%N
     then transferring index chunks (j + N.of_nat k) p'
          /\ pp_match_index (rp_status p') = pp_match_index (rp_status p)
     else transferred index p'.
Proof.
  revert j p. induction k as [|k IH]; intros j p Ht Hu Hj Hle; cbn [acknowledge_chunks].
  { rewrite N.add_0_r, (proj2 (N.ltb_lt _ _)) by lia. done. }
  unfold mbind, ST_bind. pose proof (acknowledge_snapshot_chunk_step _ _ _ _ Ht Hj Hu) as Hstep.
  destruct (acknowledge_snapshot_chunk p) as [r p']. destruct Hstep as [-> Hstep].
  replace (j + N.of_nat (S k))%N with (j + 1 + N.of_nat k)%N by lia.
  destruct (N.ltb_spec (j + 1) chunks) as [Hlt|Hge].
  - destruct Hstep as [Ht' Hm]. specialize (IH (j + 1)%N p' Ht' Hu Hlt ltac:(lia)).
    destruct (acknowledge_chunks k p') as [r p'']. by rewrite <- Hm.
  - rewrite (proj2 (N.ltb_ge _ _)) by lia. replace k with 0%nat by lia. done.
Qed.

(** A snapshot send runs to completion. Starting it on an idle pipeline
    succeeds; after fewer acknowledgements than chunks it is still running with
    exact per-mille progress and an untouched match index, and a second transfer
    is refused; after the last one it is finished: idle, at 1000 per mille, with
    the installed and match index at or above the snapshot's index. *)
Theorem snapshot_transfer_completes id index chunks k p :
  transfer_idle p -> (0 < chunks)%N -> (chunks * 1000 <= u64_max)%N -> (N.of_nat k <= chunks)%N ->
  let '(r, p') := (_ ← begin_snapshot_send id index chunks; acknowledge_chunks k) p in
  r = Ok tt
  /\ if (N.of_nat k <? chunks)%N
     then transferring index chunks (N.of_nat k) p'
          /\ pp_match_index (rp_status p') = pp_match_index (rp_status p)
          /\ is_ok (fst (begin_snapshot_send id index chunks p')) = false
          /\ is_ok (fst (begin_snapshot_install id index chunks p')) = false
     else transferred index p'.
Proof.
  intros [Hs Hi] Hc Hu Hk. unfold mbind, ST_bind, begin_snapshot_send at 1. rewrite Hs, Hi. cbn [orb].
  set (q := p <|| pp_snapshot_sending := true ||> <|| pp_snapshot_send_attempts ::= bump ||>
              <|| pp_snapshot_install_total_chunks := chunks ||>
              <|| pp_snapshot_install_progress_per_mille := 0%N ||>
              <| rp_snapshot_transfer := Some (new_transfer id index chunks) |>).
  assert (transferring index chunks 0 q) as Ht.
  { unfold transferring. split_and!; [by eexists|done|]. cbn. by rewrite N.Div0.div_0_l. }
  assert (pp_match_index (rp_status q) = pp_match_index (rp_status p)) as Hm by done. clearbody q.
  pose proof (acknowledge_chunks_spec index chunks k 0 q Ht Hu Hc Hk) as Ha. rewrite N.add_0_l in Ha.
  destruct (acknowledge_chunks k q) as [r p']. destruct Ha as [-> Ha]. split; [done|].
  destruct (_ <? _)%N; [|done]. destruct Ha as [Ht' Hm']. split_and!; [done|congruence|..].
  - destruct Ht' as (_ & Hs' & _). unfold begin_snapshot_send. by rewrite Hs'.
  - destruct Ht' as (_ & Hs' & _). unfold begin_snapshot_install. by rewrite Hs'.
Qed.

Lemma snapshot_transfer_completes_witness :
  let '(r, p') := (_ ← begin_snapshot_send "snap" 40 3; acknowledge_chunks 3) sample_pipeline in
  r = Ok tt /\ transferred 40 p'.
Proof.
  assert (transfer_idle sample_pipeline) as Hi by (vm_compute; split; reflexivity).
  assert (3 * 1000 <= u64_max)%N as Hu by (vm_compute; discriminate).
  exact (snapshot_transfer_completes "snap" 40 3 3 sample_pipeline Hi eq_refl Hu (N.le_refl 3)).
Defined.

(** Ageing the reorder queue keeps exactly the entries that are still
    within the timeout, with the waited time added to their age; a timeout of
    zero keeps them all; the reported number is the number of dropped ones. *)
Theorem reorder_tick_drops_expired elapsed_us p :
  let '(dropped, p') := tick_reorder_queue elapsed_us p in
  (forall i, rp_reorder_queue p' !! i =
     age ← rp_reorder_queue p !! i;
     if decide (keep_age (pl_reorder_timeout_us (rp_limits p)) (age +s elapsed_us))
     then Some (age +s elapsed_us) else None)
  /\ (N.of_nat (size (rp_reorder_queue p')) + dropped = N.of_nat (size (rp_reorder_queue p)))%N.
Proof.
  unfold tick_reorder_queue. case_decide as He.
  { rewrite He. split; [intros i; by rewrite lookup_empty|lia]. }
  set (kept := filter _ _). pose proof (tick_kept_size elapsed_us (pl_reorder_timeout_us (rp_limits p))
    (rp_reorder_queue p)) as Hsz. fold kept in Hsz.
  assert (size (age_reorder_queue elapsed_us (rp_reorder_queue p)) = size (rp_reorder_queue p)) as Hag
    by (unfold age_reorder_queue; by rewrite map_size_fmap).
  rewrite Hag.
  assert (forall i, kept !! i = age ← rp_reorder_queue p !! i;
     if decide (keep_age (pl_reorder_timeout_us (rp_limits p)) (age +s elapsed_us))
     then Some (age +s elapsed_us) else None) as Hl.
  { intros i. unfold kept, age_reorder_queue. rewrite map_lookup_filter, lookup_fmap.
    destruct (rp_reorder_queue p !! i) as [a|]; [|done]. cbn. case_decide; by case_guard. }
  destruct (N.eqb_spec (N.of_nat (size (rp_reorder_queue p) - size kept)) 0); cbn; split; try done; lia.
Qed.
