(* ===== verification/LogBuffer.v ===== *)
(** * The in-memory log buffer

    Models [src/log_buffer.rs]: the entries kept in memory after a sentinel, the
    offsets that split them into synced, waiting-for-storage and unflushed, the
    flush and its acknowledgement, truncation, and the release of applied
    entries. Offsets are [usize] values, kept as [N].

    The theorems: every operation keeps the entries contiguous, the offsets
    ordered and the byte total exact; what the buffer reports as synced is what
    storage holds, also when a truncation or new appends happen while a flush
    is on its way; reads return the requested entries; releasing memory drops
    exactly a prefix of applied entries. *)

From stdpp Require Import base strings pretty numbers gmap fin_maps sets list.
From S2P Require Import Prelude Types Slice.

Record LogBufferFlush := mkLogBufferFlush {
  fl_entries : list LogEntry;
  fl_first_index : LogIndex;
  fl_last_index : LogIndex
}.

Record LogBufferRelease := mkLogBufferRelease {
  released_entries : list LogEntry;
  released_until : LogIndex
}.

Record LogBuffer := mkLogBuffer {
  lb_cache_memory_limit : N;
  lb_initial_state : LogId;
  lb_flushing : bool;
  lb_flushing_offset : N;
  lb_waiting_offset : N;
  lb_log_buffer_bytes : N;
  lb_entries : list LogEntry
}.
#[export] Instance eta_LogBuffer : Settable LogBuffer :=
  fun r => mkLogBuffer (lb_cache_memory_limit r) (lb_initial_state r) (lb_flushing r)
    (lb_flushing_offset r) (lb_waiting_offset r) (lb_log_buffer_bytes r) (lb_entries r).

Definition entry_size (e : LogEntry) : N := 24 +w payload_len e.

Definition ratio (value : N) : N := (saturating_mul value 9 / 10)%N.

Definition buffer_new (cache_memory_limit : N) (initial_state : LogId) : LogBuffer :=
  let dummy := mkLogEntry initial_state [] false in
  mkLogBuffer (N.max cache_memory_limit 1) initial_state false 1 1 (entry_size dummy) [dummy].

Definition actual_first_index (b : LogBuffer) : LogIndex := lid_index (lb_initial_state b).

(** [self.entries.len() as u64]. *)
Definition buffer_len (b : LogBuffer) : N := N.of_nat (length (lb_entries b)).

Definition last_index (b : LogBuffer) : LogIndex := actual_first_index b +w buffer_len b -w 1.

Definition buffer_append (entry : LogEntry) : ST RaftError LogBuffer unit := fun b =>
  let expected := last_index b +s 1 in
  if negb (entry_index entry =? expected)%N then
    (Err (InvalidRequest ("log buffer append expects index " ++s pretty expected
                          ++s ", got " ++s pretty (entry_index entry))), b)
  else
    (Ok tt, b <| lb_log_buffer_bytes ::= (fun n => n +s entry_size entry) |>
              <| lb_entries ::= (fun l => l ++ [entry]) |>).

Definition append_many (entries : list LogEntry) : ST RaftError LogBuffer unit :=
  for_each buffer_append entries.

Definition buffer_flush : ST RaftError LogBuffer (option LogBufferFlush) := fun b =>
  if lb_flushing b || (buffer_len b =? lb_flushing_offset b)%N then (Ok None, b)
  else if negb (lb_flushing_offset b =? lb_waiting_offset b)%N then
    (Err (InvalidRequest "log buffer has entries already waiting for storage flush"), b)
  else
    let flushed_entries := drop (N.to_nat (lb_waiting_offset b)) (lb_entries b) in
    let first_index := default 0%N (entry_index <$> head flushed_entries) in
    let last_index := default 0%N (entry_index <$> last flushed_entries) in
    (Ok (Some (mkLogBufferFlush flushed_entries first_index last_index)),
     b <| lb_waiting_offset := buffer_len b |> <| lb_flushing := true |>).

Definition apply_append_result (first_index last_index : LogIndex)
    : ST RaftError LogBuffer LogIndex := fun b =>
  if (first_index =? 0)%N || (last_index <? first_index)%N then
    (Err (InvalidRequest ("invalid stabled range: " ++s pretty first_index ++s "..="
                          ++s pretty last_index)), b)
  else if negb (actual_first_index b <=? first_index)%N then
    (Err (InvalidRequest ("append result first index " ++s pretty first_index
                          ++s " is before first retained index " ++s pretty (actual_first_index b))), b)
  else
    let first_offset := first_index -w actual_first_index b in
    let written_size := last_index -w first_index +w 1 in
    let last_pending_offset := first_offset +s written_size in
    let b := b <| lb_flushing := false |> in
    if negb (lb_waiting_offset b =? last_pending_offset)%N then
      if (last_pending_offset <=? lb_waiting_offset b)%N then
        (Err (InvalidRequest "log buffer append result can only be rolled back"), b)
      else if negb (first_offset =? lb_flushing_offset b)%N
              || (lb_flushing_offset b =? lb_waiting_offset b)%N then
        if (first_offset <? lb_flushing_offset b)%N then
          (Err (InvalidRequest "log buffer stabled offset moved past append result"), b)
        else (Ok 0%N, b)
      else
        let available_written_size := lb_waiting_offset b -w lb_flushing_offset b in
        let last_written_index := first_index +w available_written_size -w 1 in
        (Ok last_written_index, b <| lb_flushing_offset := lb_waiting_offset b |>)
    else (Ok last_index, b <| lb_flushing_offset := lb_waiting_offset b |>).

(** The [while bytes < limit_bytes && length < max_length] loop over the
    entries from the offset on. *)
Fixpoint limited_length (limit_bytes max_length bytes length : N) (l : list LogEntry) : N :=
  match l with
  | [] => length
  | e :: rest =>
      if (bytes <? limit_bytes)%N && (length <? max_length)%N
      then limited_length limit_bytes max_length (bytes +s entry_size e) (length +w 1) rest
      else length
  end.

Definition buffer_range (b : LogBuffer) : LogIndex * LogIndex :=
  (actual_first_index b +s 1, last_index b +s 1).

(** [{:?}] of the range. *)
Definition show_range (r : LogIndex * LogIndex) : string :=
  "(" ++s pretty r.1 ++s ", " ++s pretty r.2 ++s ")".

Definition read_entries (b : LogBuffer) (from to : LogIndex) (limit_bytes : N)
    : Result (list LogEntry) :=
  if (to <? from)%N || (from <=? actual_first_index b)%N || (last_index b <? to)%N then
    Err (InvalidRequest ("log buffer range " ++s pretty from ++s "..=" ++s pretty to
                         ++s " is outside retained range " ++s show_range (buffer_range b)))
  else
    let offset := N.to_nat (from -w actual_first_index b) in
    let max_length := to -w from +w 1 in
    let length :=
      if (limit_bytes =? 0)%N then max_length
      else limited_length limit_bytes max_length 0 0 (drop offset (lb_entries b)) in
    Ok (take (N.to_nat length) (drop offset (lb_entries b))).

(** Popping one entry from either end keeps the byte total. *)
Definition release_bytes (l : list LogEntry) (bytes : N) : N :=
  foldl (fun n e => saturating_sub n (entry_size e)) bytes l.

Definition truncate_from_index (index : LogIndex) : ST RaftError LogBuffer unit := fun b =>
  if (index <=? actual_first_index b)%N then
    (Err (InvalidRequest ("truncate index " ++s pretty index
       ++s " must be after first retained index " ++s pretty (actual_first_index b))), b)
  else if (last_index b +s 1 <? index)%N then (Ok tt, b)
  else
    let truncate_offset := index -w actual_first_index b in
    let b := b <| lb_waiting_offset ::= (fun o => N.min o truncate_offset) |>
               <| lb_flushing_offset ::= (fun o => N.min o truncate_offset) |> in
    (Ok tt, b <| lb_log_buffer_bytes ::=
                   release_bytes (reverse (drop (N.to_nat truncate_offset) (lb_entries b))) |>
              <| lb_entries ::= take (N.to_nat truncate_offset) |>).

Definition reset_initial_state (initial_state : LogId) : ST RaftError LogBuffer unit := fun b =>
  if (lid_index initial_state <=? actual_first_index b)%N then
    (Err (InvalidRequest ("reset initial index " ++s pretty (lid_index initial_state)
       ++s " must be after first retained index " ++s pretty (actual_first_index b))), b)
  else (Ok tt, buffer_new (lb_cache_memory_limit b) initial_state).

Definition mark_all_stabled (b : LogBuffer) : LogBuffer :=
  b <| lb_flushing_offset := buffer_len b |> <| lb_waiting_offset := buffer_len b |>
    <| lb_flushing := false |>.

(** The [expect] on the sentinel is [None] here: the callers below never
    reach it, since the drained index is at most the last one. *)
Definition drain_until (index : LogIndex)
    : ST RaftError LogBuffer (option LogBufferRelease) := fun b =>
  let first_index := actual_first_index b in
  if (index <=? first_index)%N then (Ok None, b)
  else if (last_index b <? index)%N then
    (Err (InvalidRequest ("drain index " ++s pretty index ++s " exceeds last retained index "
                          ++s pretty (last_index b))), b)
  else
    let drain_length := index -w first_index in
    let released := take (N.to_nat drain_length) (lb_entries b) in
    let rest := drop (N.to_nat drain_length) (lb_entries b) in
    let b := b <| lb_log_buffer_bytes ::= release_bytes released |> <| lb_entries := rest |> in
    let b := match head rest with
             | Some e => b <| lb_initial_state := log_id e |>
             | None => b
             end in
    (Ok (Some (mkLogBufferRelease released index)),
     b <| lb_flushing_offset ::= (fun o => saturating_sub o drain_length) |>
       <| lb_waiting_offset ::= (fun o => saturating_sub o drain_length) |>).

Definition find_releasable_index (b : LogBuffer) (replicate_index applied_index : LogIndex)
    : option LogIndex :=
  let first_index := actual_first_index b in
  let hint_index :=
    if (first_index <? applied_index)%N
       && (ratio (lb_cache_memory_limit b) <=? lb_log_buffer_bytes b)%N then applied_index
    else if (first_index <? replicate_index)%N then replicate_index
    else 0%N in
  if (hint_index =? 0)%N then None
  else
    let drain_length := ratio (hint_index -w first_index) in
    if (0 <? drain_length)%N then Some (first_index +w drain_length) else None.

Definition release_memory (replicate_index applied_index : LogIndex)
    : ST RaftError LogBuffer (option LogBufferRelease) := fun b =>
  if (applied_index <? replicate_index)%N then
    (Err (InvalidRequest ("replicate index " ++s pretty replicate_index
       ++s " must not exceed applied index " ++s pretty applied_index)), b)
  else match find_releasable_index b replicate_index applied_index with
       | None => (Ok None, b)
       | Some recommend_index => drain_until recommend_index b
       end.

Definition term_at (b : LogBuffer) (index : LogIndex) : option Term :=
  if (index <? actual_first_index b)%N || (last_index b <? index)%N then None
  else entry_term <$> slice_get (lb_entries b) (index -w actual_first_index b).

Definition last_synced_index (b : LogBuffer) : LogIndex :=
  actual_first_index b +w lb_flushing_offset b -w 1.

Definition is_busy (b : LogBuffer) : bool :=
  (lb_cache_memory_limit b <=? lb_log_buffer_bytes b)%N.

Definition is_releasable (b : LogBuffer) (applied_index : LogIndex) : bool :=
  match find_releasable_index b applied_index applied_index with Some _ => true | None => false end.

(** ** The buffer invariant *)

Definition buffer_bytes (l : list LogEntry) : N := sum_N (entry_size <$> l).
#[global] Arguments buffer_bytes : simpl never.

(** Consecutive indexes starting at [first]. *)
Definition contiguous (first : N) (l : list LogEntry) : Prop :=
  forall k e, l !! k = Some e -> entry_index e = (first + N.of_nat k)%N.

Record buffer_inv (b : LogBuffer) : Prop := mk_buffer_inv {
  bi_contiguous : contiguous (actual_first_index b) (lb_entries b);
  bi_sentinel : log_id <$> head (lb_entries b) = Some (lb_initial_state b);
  bi_range : (actual_first_index b + buffer_len b <= u64_max)%N;
  bi_flushing : (1 <= lb_flushing_offset b <= lb_waiting_offset b)%N;
  bi_waiting : (lb_waiting_offset b <= buffer_len b)%N;
  bi_bytes : lb_log_buffer_bytes b = buffer_bytes (lb_entries b);
  bi_bytes_range : u64 (buffer_bytes (lb_entries b))
}.

Lemma buffer_bytes_app l1 l2 : buffer_bytes (l1 ++ l2) = (buffer_bytes l1 + buffer_bytes l2)%N.
Proof. unfold buffer_bytes. by rewrite fmap_app, sum_N_app. Qed.

Lemma buffer_bytes_cons e l : buffer_bytes (e :: l) = (entry_size e + buffer_bytes l)%N.
Proof. done. Qed.

Lemma buffer_bytes_reverse l : buffer_bytes (reverse l) = buffer_bytes l.
Proof.
  induction l as [|e l IH]; [done|]. rewrite reverse_cons, buffer_bytes_app, IH, !buffer_bytes_cons.
  change (buffer_bytes []) with 0%N. lia.
Qed.

Lemma release_bytes_sub l n : release_bytes l n = (n - buffer_bytes l)%N.
Proof.
  revert n. induction l as [|e l IH]; intros n; cbn.
  - change (buffer_bytes []) with 0%N. lia.
  - unfold release_bytes in IH. rewrite IH, buffer_bytes_cons. unfold saturating_sub. lia.
Qed.

Lemma buffer_bytes_split k l : buffer_bytes l = (buffer_bytes (take k l) + buffer_bytes (drop k l))%N.
Proof. by rewrite <- buffer_bytes_app, take_drop. Qed.

Lemma contiguous_take first n l : contiguous first l -> contiguous first (take n l).
Proof. intros H k e He. apply lookup_take_Some in He as [He _]. by apply H. Qed.

Lemma contiguous_drop first n l : contiguous first l -> contiguous (first + N.of_nat n) (drop n l).
Proof. intros H k e He. rewrite lookup_drop in He. rewrite (H _ _ He). lia. Qed.

Lemma contiguous_snoc first l e :
  contiguous first l -> entry_index e = (first + N.of_nat (length l))%N -> contiguous first (l ++ [e]).
Proof.
  intros H He k x Hx. apply lookup_app_Some in Hx as [Hx|[Hk Hx]]; [by apply H|].
  apply list_lookup_singleton_Some in Hx as [Hz ->]. rewrite He. lia.
Qed.

Lemma buffer_len_pos b : buffer_inv b -> (1 <= buffer_len b)%N.
Proof. intros H. destruct (bi_flushing b H). pose proof (bi_waiting b H). lia. Qed.

Lemma last_index_exact b : buffer_inv b -> last_index b = (actual_first_index b + buffer_len b - 1)%N.
Proof.
  intros H. pose proof (buffer_len_pos b H). pose proof (bi_range b H). unfold last_index.
  rewrite wrapping_add_small by lia. apply wrapping_sub_small; [done|lia].
Qed.

Lemma last_synced_index_exact b :
  buffer_inv b -> last_synced_index b = (actual_first_index b + lb_flushing_offset b - 1)%N.
Proof.
  intros H. pose proof (bi_range b H). pose proof (bi_flushing b H). pose proof (bi_waiting b H).
  unfold last_synced_index.
  rewrite wrapping_add_small by lia. apply wrapping_sub_small; [unfold u64; lia|lia].
Qed.

Lemma buffer_new_inv limit id : (lid_index id < u64_max)%N -> buffer_inv (buffer_new limit id).
Proof.
  intros Hlt. split; cbn; try done; try lia.
  - intros k e He. apply list_lookup_singleton_Some in He as [-> <-].
    unfold entry_index, actual_first_index. cbn. lia.
  - unfold actual_first_index, buffer_len. cbn. lia.
Qed.

Lemma buffer_append_inv e b :
  buffer_inv b -> (entry_index e < u64_max)%N -> u64 (buffer_bytes (lb_entries b) + entry_size e) ->
  buffer_inv (snd (buffer_append e b)).
Proof.
  intros Hb Hlt Hu. unfold buffer_append. pose proof (last_index_exact b Hb) as Hl.
  pose proof (buffer_len_pos b Hb) as Hpos. pose proof (bi_range b Hb) as Hr.
  rewrite saturating_add_small by lia.
  destruct (N.eqb_spec (entry_index e) (last_index b + 1)) as [He|]; [|done]. cbn [negb snd].
  destruct Hb as [H1 H2 H3 H4 H5 H6 H7]. unfold buffer_len, actual_first_index in *.
  split; unfold buffer_len, actual_first_index; cbn.
  - apply contiguous_snoc; [done|]. lia.
  - destruct (lb_entries b); [cbn in *; lia|done].
  - rewrite length_app. cbn. lia.
  - done.
  - rewrite length_app. cbn. lia.
  - rewrite H6, buffer_bytes_app, buffer_bytes_cons. change (buffer_bytes []) with 0%N.
    rewrite saturating_add_small by (unfold u64 in Hu; lia). lia.
  - rewrite buffer_bytes_app, buffer_bytes_cons. change (buffer_bytes []) with 0%N.
    unfold u64 in *. lia.
Qed.

Lemma buffer_flush_inv b : buffer_inv b -> buffer_inv (snd (buffer_flush b)).
Proof.
  intros [H1 H2 H3 H4 H5 H6 H7]. unfold buffer_flush.
  destruct (_ || _); [done|]. destruct (negb _); [done|].
  split; try done; unfold buffer_len in *; cbn; lia.
Qed.

Lemma apply_append_result_inv f l b : buffer_inv b -> buffer_inv (snd (apply_append_result f l b)).
Proof.
  intros [H1 H2 H3 H4 H5 H6 H7]. unfold apply_append_result.
  repeat (match goal with |- context [if ?c then _ else _] => destruct c end; [|]);
    split; try done; cbn; lia.
Qed.

(** Where a truncation cuts: at an offset between the sentinel and the end. *)
Lemma truncate_from_index_cases i b :
  buffer_inv b ->
  snd (truncate_from_index i b) = b
  \/ exists t, (1 <= t <= buffer_len b)%N /\ i = (actual_first_index b + t)%N
     /\ fst (truncate_from_index i b) = Ok tt
     /\ snd (truncate_from_index i b)
        = b <| lb_waiting_offset := N.min (lb_waiting_offset b) t |>
            <| lb_flushing_offset := N.min (lb_flushing_offset b) t |>
            <| lb_log_buffer_bytes := buffer_bytes (take (N.to_nat t) (lb_entries b)) |>
            <| lb_entries := take (N.to_nat t) (lb_entries b) |>.
Proof.
  intros Hb. unfold truncate_from_index. pose proof (bi_range b Hb) as Hr.
  rewrite (last_index_exact b Hb). pose proof (buffer_len_pos b Hb).
  destruct (N.leb_spec i (actual_first_index b)) as [|Hgt]; [by left|].
  rewrite saturating_add_small by lia.
  destruct (N.ltb_spec (actual_first_index b + buffer_len b - 1 + 1) i) as [|Hle]; [by left|].
  right. exists (i - actual_first_index b)%N. rewrite wrapping_sub_small by (unfold u64; lia).
  split_and!; [lia|lia|lia|done|]. cbn [snd].
  pose proof (buffer_bytes_split (N.to_nat (i - actual_first_index b)) (lb_entries b)) as Hs.
  unfold update. cbn. f_equal. rewrite release_bytes_sub, buffer_bytes_reverse, (bi_bytes b Hb). lia.
Qed.

Lemma truncate_from_index_inv i b : buffer_inv b -> buffer_inv (snd (truncate_from_index i b)).
Proof.
  intros Hb. destruct (truncate_from_index_cases i b Hb) as [->|(t & Ht & _ & _ & ->)]; [done|].
  destruct Hb as [H1 H2 H3 H4 H5 H6 H7]. unfold buffer_len in *.
  pose proof (buffer_bytes_split (N.to_nat t) (lb_entries b)) as Hs.
  split; unfold buffer_len, actual_first_index in *; cbn; rewrite ?length_take; try lia; try done.
  - by apply contiguous_take.
  - destruct (lb_entries b), (N.to_nat t) eqn:E; cbn in *; try done; lia.
  - unfold u64 in *. lia.
Qed.

(** Where a drain cuts: [d] entries leave the front and the entry at [d]
    becomes the sentinel. *)
Lemma drain_until_cases i b :
  buffer_inv b ->
  snd (drain_until i b) = b
  \/ exists d e, (1 <= d < buffer_len b)%N /\ i = (actual_first_index b + d)%N
     /\ lb_entries b !! N.to_nat d = Some e
     /\ fst (drain_until i b)
        = Ok (Some (mkLogBufferRelease (take (N.to_nat d) (lb_entries b)) i))
     /\ snd (drain_until i b)
        = b <| lb_log_buffer_bytes := buffer_bytes (drop (N.to_nat d) (lb_entries b)) |>
            <| lb_entries := drop (N.to_nat d) (lb_entries b) |>
            <| lb_initial_state := log_id e |>
            <| lb_flushing_offset := (lb_flushing_offset b - d)%N |>
            <| lb_waiting_offset := (lb_waiting_offset b - d)%N |>.
Proof.
  intros Hb. unfold drain_until. pose proof (bi_range b Hb) as Hr.
  rewrite (last_index_exact b Hb). pose proof (buffer_len_pos b Hb) as Hpos.
  destruct (N.leb_spec i (actual_first_index b)) as [|Hgt]; [by left|].
  destruct (N.ltb_spec (actual_first_index b + buffer_len b - 1) i) as [|Hle]; [by left|].
  rewrite wrapping_sub_small by (unfold u64; lia).
  destruct (lookup_lt_is_Some_2 (lb_entries b) (N.to_nat (i - actual_first_index b))) as [e He];
    [unfold buffer_len in *; lia|].
  right. exists (i - actual_first_index b)%N, e. split_and!; try done; try lia.
  pose proof (buffer_bytes_split (N.to_nat (i - actual_first_index b)) (lb_entries b)) as Hs.
  rewrite head_lookup, lookup_drop, Nat.add_0_r, He. unfold update. cbn. f_equal.
  rewrite release_bytes_sub, (bi_bytes b Hb). lia.
Qed.

Lemma drain_until_inv i b :
  buffer_inv b -> (i <= last_synced_index b)%N -> buffer_inv (snd (drain_until i b)).
Proof.
  intros Hb Hi. rewrite (last_synced_index_exact b Hb) in Hi.
  destruct (drain_until_cases i b Hb) as [->|(d & e & Hd & -> & He & _ & ->)]; [done|].
  destruct Hb as [H1 H2 H3 H4 H5 H6 H7]. unfold buffer_len in *.
  pose proof (buffer_bytes_split (N.to_nat d) (lb_entries b)) as Hs.
  assert (lid_index (log_id e) = actual_first_index b + d)%N as Hfirst
    by (change (entry_index e = actual_first_index b + d)%N; rewrite (H1 _ _ He); lia).
  split; unfold buffer_len, actual_first_index in *; cbn; rewrite ?length_drop, ?Hfirst; try lia; try done.
  - replace d with (N.of_nat (N.to_nat d)) at 1 by lia. by apply contiguous_drop.
  - by rewrite head_lookup, lookup_drop, Nat.add_0_r, He.
  - unfold u64 in *. lia.
Qed.

(** ** The buffer and storage together

    A flush hands a batch to storage; the batch is written at some later time
    and the write is acknowledged with [apply_append_result]. Between the two
    the buffer may be appended to, truncated and drained. *)

Record BufferSystem := mkBufferSystem {
  bs_buffer : LogBuffer;
  bs_pending : option LogBufferFlush;
  bs_storage : gmap N LogEntry
}.

Inductive BufferOp : Type :=
| BAppend (entry : LogEntry)
| BTruncate (index : LogIndex)
| BFlush
| BComplete
| BDrain (index : LogIndex).

(** Storage writes the entries of a batch at their indexes. *)
Definition write_entries (l : list LogEntry) (m : gmap N LogEntry) : gmap N LogEntry :=
  foldl (fun m e => <[entry_index e := e]> m) m l.

Definition run_buffer_op (op : BufferOp) (s : BufferSystem) : BufferSystem :=
  let b := bs_buffer s in
  match op with
  | BAppend e => mkBufferSystem (snd (buffer_append e b)) (bs_pending s) (bs_storage s)
  | BTruncate i => mkBufferSystem (snd (truncate_from_index i b)) (bs_pending s) (bs_storage s)
  | BFlush =>
      match buffer_flush b with
      | (Ok (Some f), b') => mkBufferSystem b' (Some f) (bs_storage s)
      | (_, b') => mkBufferSystem b' (bs_pending s) (bs_storage s)
      end
  | BComplete =>
      match bs_pending s with
      | None => s
      | Some f =>
          mkBufferSystem (snd (apply_append_result (fl_first_index f) (fl_last_index f) b)) None
            (write_entries (fl_entries f) (bs_storage s))
      end
  | BDrain i => mkBufferSystem (snd (drain_until i b)) (bs_pending s) (bs_storage s)
  end.

(** Appended entries fit the index and byte range; only synced entries are drained. *)
Definition buffer_op_admissible (op : BufferOp) (s : BufferSystem) : Prop :=
  match op with
  | BAppend e => (entry_index e < u64_max)%N
                 /\ u64 (buffer_bytes (lb_entries (bs_buffer s)) + entry_size e)
  | BDrain i => (i <= last_synced_index (bs_buffer s))%N
  | _ => True
  end.

Fixpoint admissible_buffer_run (ops : list BufferOp) (s : BufferSystem) : Prop :=
  match ops with
  | [] => True
  | op :: ops' => buffer_op_admissible op s /\ admissible_buffer_run ops' (run_buffer_op op s)
  end.

Definition run_buffer (ops : list BufferOp) (s : BufferSystem) : BufferSystem :=
  foldl (fun s op => run_buffer_op op s) s ops.

(** A batch on its way: either the waiting entries are its beginning, or a
    truncation cut at or below its first entry and nothing is waiting. *)
Definition pending_ok (b : LogBuffer) (f : LogBufferFlush) : Prop :=
  lb_flushing b = true
  /\ contiguous (fl_first_index f) (fl_entries f)
  /\ (0 < fl_first_index f)%N /\ (0 < length (fl_entries f))%nat
  /\ fl_last_index f = (fl_first_index f + N.of_nat (length (fl_entries f)) - 1)%N
  /\ (fl_last_index f < u64_max)%N
  /\ ((lb_flushing_offset b < lb_waiting_offset b)%N
      /\ fl_first_index f = (actual_first_index b + lb_flushing_offset b)%N
      /\ drop (N.to_nat (lb_flushing_offset b)) (take (N.to_nat (lb_waiting_offset b)) (lb_entries b))
         `prefix_of` fl_entries f
      \/ lb_flushing_offset b = lb_waiting_offset b
         /\ (actual_first_index b + lb_flushing_offset b <= fl_first_index f)%N).

Definition synced_durable (b : LogBuffer) (m : gmap N LogEntry) : Prop :=
  forall k e, lb_entries b !! k = Some e -> (1 <= N.of_nat k < lb_flushing_offset b)%N ->
    m !! entry_index e = Some e.

Record system_inv (s : BufferSystem) : Prop := mk_system_inv {
  si_buffer : buffer_inv (bs_buffer s);
  si_pending : match bs_pending s with
               | Some f => pending_ok (bs_buffer s) f
               | None => lb_flushing (bs_buffer s) = false
                         /\ lb_flushing_offset (bs_buffer s) = lb_waiting_offset (bs_buffer s)
               end;
  si_durable : synced_durable (bs_buffer s) (bs_storage s)
}.

Lemma write_entries_outside l m i :
  (forall e, e ∈ l -> entry_index e <> i) -> write_entries l m !! i = m !! i.
Proof.
  revert m. induction l as [|e l IH]; intros m Hout; [done|]. cbn.
  unfold write_entries in IH. rewrite IH by set_solver. apply lookup_insert_ne. set_solver.
Qed.

Lemma write_entries_inside first l m k e :
  contiguous first l -> l !! k = Some e -> write_entries l m !! entry_index e = Some e.
Proof.
  revert first m k. induction l as [|x l IH]; intros first m k Hc Hk; [done|].
  assert (contiguous (first + 1) l) as Hc'.
  { intros j y Hy. rewrite (Hc (S j) y Hy). lia. }
  destruct k as [|k]; cbn in *.
  - injection Hk as ->. change (write_entries l (<[entry_index e := e]> m) !! entry_index e = Some e).
    rewrite write_entries_outside; [by rewrite lookup_insert_eq|].
    intros y [j Hy]%list_elem_of_lookup. rewrite (Hc' _ _ Hy), (Hc 0%nat e eq_refl). lia.
  - by apply (IH (first + 1)%N _ k).
Qed.

Lemma append_system e s :
  system_inv s -> buffer_op_admissible (BAppend e) s -> system_inv (run_buffer_op (BAppend e) s).
Proof.
  intros [Hb Hp Hd] [Hlt Hu]. split; cbn [run_buffer_op bs_buffer bs_pending bs_storage].
  - by apply buffer_append_inv.
  - unfold buffer_append. destruct (negb _); [done|]. cbn [snd].
    destruct (bs_pending s) as [f|]; [|done]. unfold pending_ok in *. cbn.
    pose proof (bi_waiting _ Hb) as Hw. unfold buffer_len in Hw.
    rewrite take_app_le by lia. exact Hp.
  - unfold buffer_append. destruct (negb _); [done|]. cbn [snd]. intros k x Hx Hk. cbn in *.
    pose proof (bi_flushing _ Hb). pose proof (bi_waiting _ Hb) as Hw. unfold buffer_len in Hw.
    rewrite lookup_app_l in Hx by lia. by apply (Hd k).
Qed.

Lemma pending_truncate b f t (n : N) :
  pending_ok b f -> (1 <= t)%N ->
  pending_ok (b <| lb_waiting_offset := N.min (lb_waiting_offset b) t |>
                <| lb_flushing_offset := N.min (lb_flushing_offset b) t |>
                <| lb_log_buffer_bytes := n |>
                <| lb_entries := take (N.to_nat t) (lb_entries b) |>) f.
Proof.
  intros (H1 & H2 & H3 & H4 & H5 & H6 & Hpos) Ht. unfold pending_ok. cbn. split_and!; try done.
  destruct (decide (lb_flushing_offset b < N.min (lb_waiting_offset b) t)%N) as [Hlt|Hge].
  - destruct Hpos as [(Hlt' & Hf & Hpre)|(Heq & Hf)]; [left|lia].
    rewrite (N.min_l (lb_flushing_offset b)) by lia. split_and!; [done|done|].
    rewrite take_take. etrans; [|exact Hpre].
    replace (N.to_nat (N.min (lb_waiting_offset b) t) `min` N.to_nat t)%nat
      with (N.to_nat (N.min (lb_waiting_offset b) t)) by lia.
    rewrite !skipn_firstn_comm.
    replace (N.to_nat (N.min (lb_waiting_offset b) t) - N.to_nat (lb_flushing_offset b))%nat
      with ((N.to_nat (N.min (lb_waiting_offset b) t) - N.to_nat (lb_flushing_offset b))
            `min` (N.to_nat (lb_waiting_offset b) - N.to_nat (lb_flushing_offset b)))%nat by lia.
    rewrite <- take_take. apply prefix_take.
  - right. unfold actual_first_index in *. cbn. destruct Hpos as [(Hlt' & -> & _)|(Heq & Hf)]; lia.
Qed.

Lemma truncate_system i s : system_inv s -> system_inv (run_buffer_op (BTruncate i) s).
Proof.
  intros [Hb Hp Hd]. split; cbn [run_buffer_op bs_buffer bs_pending bs_storage].
  - by apply truncate_from_index_inv.
  - destruct (truncate_from_index_cases i _ Hb) as [->|(t & Ht & _ & _ & ->)]; [done|].
    destruct (bs_pending s) as [f|]; [apply pending_truncate; [done|lia]|]. cbn.
    destruct Hp as [? ->]. done.
  - destruct (truncate_from_index_cases i _ Hb) as [->|(t & Ht & _ & _ & ->)]; [done|].
    intros k e He Hk. cbn in *. apply lookup_take_Some in He as [He _]. apply (Hd k); [done|lia].
Qed.

Lemma drain_system i s :
  system_inv s -> buffer_op_admissible (BDrain i) s -> system_inv (run_buffer_op (BDrain i) s).
Proof.
  intros [Hb Hp Hd] Hi. cbn in Hi. split; cbn [run_buffer_op bs_buffer bs_pending bs_storage].
  - by apply drain_until_inv.
  - rewrite (last_synced_index_exact _ Hb) in Hi. pose proof (bi_flushing _ Hb).
    destruct (drain_until_cases i _ Hb) as [->|(d & e & Hdr & Hid & He & _ & ->)]; [done|].
    assert (lid_index (log_id e) = actual_first_index (bs_buffer s) + d)%N as Hfirst
      by (change (entry_index e = actual_first_index (bs_buffer s) + d)%N;
          rewrite (bi_contiguous _ Hb _ _ He); lia).
    destruct (bs_pending s) as [f|]; [|destruct Hp as [Hfl Heq]; cbn; split; [done|lia]].
    destruct Hp as (H1 & H2 & H3 & H4 & H5 & H6 & Hpos). unfold pending_ok, actual_first_index in *. cbn.
    rewrite Hfirst. split_and!; try done.
    destruct Hpos as [(Hlt' & Hf & Hpre)|(Heq & Hf)]; [left|right; lia].
    split_and!; [lia|lia|]. rewrite !skipn_firstn_comm in *. rewrite drop_drop.
    replace (N.to_nat d + N.to_nat (lb_flushing_offset (bs_buffer s) - d))%nat
      with (N.to_nat (lb_flushing_offset (bs_buffer s))) by lia.
    replace (N.to_nat (lb_waiting_offset (bs_buffer s) - d) - N.to_nat (lb_flushing_offset (bs_buffer s) - d))%nat
      with (N.to_nat (lb_waiting_offset (bs_buffer s)) - N.to_nat (lb_flushing_offset (bs_buffer s)))%nat
      by lia. done.
  - destruct (drain_until_cases i _ Hb) as [->|(d & e & Hdr & Hid & He & _ & ->)]; [done|].
    intros k x Hx Hk. cbn in *. rewrite lookup_drop in Hx. apply (Hd _ _ Hx). lia.
Qed.

Lemma last_contiguous first l e :
  contiguous first l -> last l = Some e -> entry_index e = (first + N.of_nat (length l) - 1)%N.
Proof.
  intros Hc Hl. rewrite last_lookup in Hl. rewrite (Hc _ _ Hl).
  apply lookup_lt_Some in Hl. destruct (length l); cbn in *; lia.
Qed.

(** A flush with nothing on its way takes exactly the unflushed entries. *)
Lemma buffer_flush_takes_unflushed b :
  buffer_inv b -> lb_flushing b = false -> lb_flushing_offset b = lb_waiting_offset b ->
  buffer_flush b =
    if (buffer_len b =? lb_flushing_offset b)%N then (Ok None, b)
    else (Ok (Some (mkLogBufferFlush (drop (N.to_nat (lb_waiting_offset b)) (lb_entries b))
                      (actual_first_index b + lb_waiting_offset b) (last_index b))),
          b <| lb_waiting_offset := buffer_len b |> <| lb_flushing := true |>).
Proof.
  intros Hb Hf Heq. unfold buffer_flush. rewrite Hf. cbn [orb].
  destruct (N.eqb_spec (buffer_len b) (lb_flushing_offset b)) as [|Hne]; [done|].
  rewrite (proj2 (N.eqb_eq _ _) Heq). cbn [negb].
  pose proof (bi_waiting b Hb) as Hw. pose proof Hw as Hw'. unfold buffer_len in Hw'.
  pose proof (contiguous_drop _ (N.to_nat (lb_waiting_offset b)) _ (bi_contiguous b Hb)) as Hc.
  set (l := drop _ (lb_entries b)) in *.
  assert (length l = length (lb_entries b) - N.to_nat (lb_waiting_offset b))%nat as Hlen
    by apply length_drop.
  unfold buffer_len in *. destruct l as [|x l'] eqn:El; [cbn in Hlen; lia|].
  destruct (last (x :: l')) as [y|] eqn:Ey; [|by apply last_None in Ey].
  cbn [head fmap option_fmap option_map default].
  rewrite (Hc 0%nat x eq_refl), (last_contiguous _ _ _ Hc Ey), (last_index_exact b Hb).
  unfold buffer_len. do 4 f_equal; unfold id; lia.
Qed.

Lemma flush_system s : system_inv s -> system_inv (run_buffer_op BFlush s).
Proof.
  intros [Hb Hp Hd]. cbn [run_buffer_op]. destruct (bs_pending s) as [f|] eqn:Ef.
  { unfold buffer_flush. rewrite (proj1 Hp). cbn. split; cbn; rewrite ?Ef; done. }
  destruct Hp as [Hfl Heq]. pose proof (buffer_flush_inv _ Hb) as Hb'.
  rewrite (buffer_flush_takes_unflushed _ Hb Hfl Heq) in *.
  pose proof (bi_flushing _ Hb). pose proof (bi_waiting _ Hb). pose proof (bi_range _ Hb).
  destruct (N.eqb_spec (buffer_len (bs_buffer s)) (lb_flushing_offset (bs_buffer s)));
    [split; cbn; rewrite ?Ef; done|].
  split; cbn [bs_buffer bs_pending bs_storage]; [done| |exact Hd].
  unfold pending_ok, actual_first_index. cbn. unfold buffer_len in *.
  rewrite (last_index_exact _ Hb), length_drop. unfold actual_first_index, buffer_len in *.
  split_and!; try done; try lia.
  - pose proof (contiguous_drop _ (N.to_nat (lb_waiting_offset (bs_buffer s))) _ (bi_contiguous _ Hb)) as Hc.
    by replace (N.of_nat (N.to_nat (lb_waiting_offset (bs_buffer s))))
      with (lb_waiting_offset (bs_buffer s)) in Hc by lia.
  - left. split_and!; [lia|lia|]. rewrite Heq. rewrite take_ge by lia. done.
Qed.

(** The acknowledgement of a batch on its way never fails; it syncs exactly
    what is still waiting of it. *)
Lemma apply_append_result_pending b f :
  buffer_inv b -> pending_ok b f ->
  apply_append_result (fl_first_index f) (fl_last_index f) b =
    (Ok (if (lb_flushing_offset b <? lb_waiting_offset b)%N
         then (actual_first_index b + lb_waiting_offset b - 1)%N else 0%N),
     b <| lb_flushing := false |> <| lb_flushing_offset := lb_waiting_offset b |>).
Proof.
  intros Hb (H1 & H2 & H3 & H4 & H5 & H6 & Hpos). unfold apply_append_result.
  pose proof (bi_flushing _ Hb). pose proof (bi_waiting _ Hb). pose proof (bi_range _ Hb).
  rewrite (proj2 (N.eqb_neq _ _)), (proj2 (N.ltb_ge _ _)) by lia. cbn [orb].
  rewrite (proj2 (N.leb_le _ _)) by lia. cbn [negb].
  rewrite !(wrapping_sub_small (fl_first_index f)) by (unfold u64; lia).
  rewrite (wrapping_sub_small (fl_last_index f)) by (unfold u64; lia).
  rewrite wrapping_add_small, saturating_add_small by lia.
  set (pend := (fl_first_index f - actual_first_index b + (fl_last_index f - fl_first_index f + 1))%N).
  change (lb_waiting_offset (b <| lb_flushing := false |>)) with (lb_waiting_offset b).
  change (lb_flushing_offset (b <| lb_flushing := false |>)) with (lb_flushing_offset b).
  destruct Hpos as [(Hlt & Hf & Hpre)|(Heq & Hf)].
  - apply prefix_length in Hpre. rewrite length_drop, length_take in Hpre. unfold buffer_len in *.
    rewrite (proj2 (N.ltb_lt _ _) Hlt).
    destruct (N.eqb_spec (lb_waiting_offset b) pend) as [He|Hne]; cbn [negb].
    + do 2 f_equal. lia.
    + rewrite (proj2 (N.leb_gt _ _)) by lia. rewrite (proj2 (N.eqb_eq _ (lb_flushing_offset b))) by lia.
      rewrite (proj2 (N.eqb_neq (lb_flushing_offset b) _)) by lia. cbn [negb orb].
      rewrite (wrapping_sub_small (lb_waiting_offset b)) by (unfold u64; lia).
      rewrite wrapping_add_small by lia. rewrite wrapping_sub_small by (unfold u64; lia).
      do 2 f_equal. lia.
  - rewrite (proj2 (N.ltb_ge _ (lb_waiting_offset b))) by lia.
    rewrite (proj2 (N.eqb_neq _ pend)) by lia. cbn [negb].
    rewrite (proj2 (N.leb_gt _ _)) by lia. rewrite (proj2 (N.eqb_eq (lb_flushing_offset b) _)) by lia.
    rewrite orb_true_r, (proj2 (N.ltb_ge _ _)) by lia. f_equal. rewrite <- Heq. by destruct b.
Qed.

Lemma complete_system s : system_inv s -> system_inv (run_buffer_op BComplete s).
Proof.
  intros [Hb Hp Hd]. cbn [run_buffer_op]. destruct (bs_pending s) as [f|] eqn:Ef; [|split; by rewrite ?Ef].
  pose proof (apply_append_result_inv (fl_first_index f) (fl_last_index f) _ Hb) as Hb'.
  rewrite (apply_append_result_pending _ _ Hb Hp) in *. cbn [snd] in *.
  split; cbn [bs_buffer bs_pending bs_storage]; [done|done|].
  destruct Hp as (H1 & H2 & H3 & H4 & H5 & H6 & Hpos). intros k e He Hk. cbn in He, Hk.
  assert (forall k e, lb_entries (bs_buffer s) !! k = Some e -> (1 <= N.of_nat k < lb_flushing_offset (bs_buffer s))%N ->
    write_entries (fl_entries f) (bs_storage s) !! entry_index e = Some e) as Hold.
  { intros j x Hx Hj. rewrite write_entries_outside; [by apply (Hd j)|].
    intros y [i Hy]%list_elem_of_lookup. rewrite (H2 _ _ Hy), (bi_contiguous _ Hb _ _ Hx).
    destruct Hpos as [(_ & -> & _)|(_ & ?)]; lia. }
  destruct (decide (N.of_nat k < lb_flushing_offset (bs_buffer s))%N); [apply (Hold k); [done|lia]|].
  destruct Hpos as [(Hlt & Hf & Hpre)|(Heq & Hf)]; [|lia].
  apply (write_entries_inside (fl_first_index f) _ _ (k - N.to_nat (lb_flushing_offset (bs_buffer s)))); [done|].
  eapply prefix_lookup_Some; [|exact Hpre]. rewrite lookup_drop, lookup_take.
  replace (N.to_nat (lb_flushing_offset (bs_buffer s)) + (k - N.to_nat (lb_flushing_offset (bs_buffer s))))%nat
    with k by lia. by rewrite decide_True by lia.
Qed.

(** ** Properties *)

Definition new_system (limit : N) (initial_state : LogId) : BufferSystem :=
  mkBufferSystem (buffer_new limit initial_state) None ∅.

Lemma run_buffer_op_inv op s :
  system_inv s -> buffer_op_admissible op s -> system_inv (run_buffer_op op s).
Proof.
  intros Hs Ha. destruct op.
  - by apply append_system.
  - by apply truncate_system.
  - by apply flush_system.
  - by apply complete_system.
  - by apply drain_system.
Qed.

(** C28: what the buffer reports as synced is in storage. Starting from an empty
    buffer, for every interleaving of appends, truncations, flushes, storage
    acknowledgements and drains of synced entries, every retained entry up to
    the last synced index is the entry storage holds at that index; the entries
    stay contiguous, the offsets ordered and the byte total exact. *)
Theorem synced_entries_are_durable limit id ops e :
  (lid_index id < u64_max)%N -> admissible_buffer_run ops (new_system limit id) ->
  let s := run_buffer ops (new_system limit id) in
  buffer_inv (bs_buffer s)
  /\ (e ∈ lb_entries (bs_buffer s) ->
      (actual_first_index (bs_buffer s) < entry_index e <= last_synced_index (bs_buffer s))%N ->
      bs_storage s !! entry_index e = Some e).
Proof.
  intros Hid Hadm.
  assert (system_inv (new_system limit id)) as Hinv.
  { split; [by apply buffer_new_inv|done|]. intros k x Hx Hk. cbn in *. lia. }
  assert (system_inv (run_buffer ops (new_system limit id))) as Hend.
  { revert Hinv Hadm. generalize (new_system limit id). induction ops as [|op ops IH]; [done|].
    intros s Hs [Ha Hr]. cbn. apply IH; [by apply run_buffer_op_inv|done]. }
  cbv zeta. generalize dependent (run_buffer ops (new_system limit id)). intros s [Hb Hp Hd].
  split; [done|]. intros [k Hk]%list_elem_of_lookup Hi. apply (Hd k); [done|].
  rewrite (last_synced_index_exact _ Hb) in Hi. rewrite (bi_contiguous _ Hb _ _ Hk) in Hi. lia.
Qed.

Definition sample_log (t i : N) : LogEntry := mkLogEntry (mkLogId t i) [Byte.x61] true.

(** A truncation and an overwrite race with the acknowledgement of a flush. *)
Definition sample_race : list BufferOp :=
  [BAppend (sample_log 1 1); BAppend (sample_log 1 2); BFlush; BTruncate 2;
   BAppend (sample_log 2 2); BComplete].

Lemma synced_entries_are_durable_witness :
  last_synced_index (bs_buffer (run_buffer sample_race (new_system 64 (mkLogId 0 0)))) = 1%N
  /\ bs_storage (run_buffer sample_race (new_system 64 (mkLogId 0 0))) !! 1%N = Some (sample_log 1 1).
Proof.
  split; [vm_compute; reflexivity|].
  apply (synced_entries_are_durable 64 (mkLogId 0 0) sample_race (sample_log 1 1)).
  - vm_compute. reflexivity.
  - unfold sample_race. cbn [admissible_buffer_run buffer_op_admissible].
    repeat split; try exact I; vm_compute; discriminate || reflexivity.
  - apply (bool_decide_unpack _). vm_compute. exact I.
  - vm_compute. split; [reflexivity|discriminate].
Defined.

(** The acknowledgement of a flush that raced with truncations. It never
    errors; it reports the last index that is still waiting and makes it the
    last synced index, or reports zero when nothing of the batch is left, and
    afterwards the buffer can be flushed again. *)
Theorem flush_acknowledgement_syncs_what_is_left s f :
  system_inv s -> bs_pending s = Some f ->
  let b := bs_buffer s in
  let '(r, b') := apply_append_result (fl_first_index f) (fl_last_index f) b in
  r = Ok (if (lb_flushing_offset b <? lb_waiting_offset b)%N then last_synced_index b' else 0%N)
  /\ lb_flushing b' = false
  /\ last_synced_index b' = (actual_first_index b + lb_waiting_offset b - 1)%N
  /\ is_ok (fst (buffer_flush b')) = true.
Proof.
  intros [Hb Hp Hd] Hf. rewrite Hf in Hp. cbv zeta.
  pose proof (apply_append_result_inv (fl_first_index f) (fl_last_index f) _ Hb) as Hb'.
  rewrite (apply_append_result_pending _ _ Hb Hp) in *. cbn [snd] in Hb'.
  rewrite (last_synced_index_exact _ Hb'). cbn. split_and!; [by destruct (_ <? _)%N|done|done|].
  unfold buffer_flush. cbn. destruct (_ =? _)%N; [done|]. by rewrite N.eqb_refl.
Qed.

Lemma flush_acknowledgement_syncs_what_is_left_witness :
  let b := bs_buffer (run_buffer (take 5 sample_race) (new_system 64 (mkLogId 0 0))) in
  let '(r, b') := apply_append_result 1 2 b in
  r = Ok (if (lb_flushing_offset b <? lb_waiting_offset b)%N then last_synced_index b' else 0%N)
  /\ lb_flushing b' = false.
Proof.
  set (s := run_buffer (take 5 sample_race) (new_system 64 (mkLogId 0 0))).
  assert (system_inv s) as Hs.
  { unfold s, sample_race. cbn [take run_buffer foldl].
    repeat (apply run_buffer_op_inv;
      [|cbn [buffer_op_admissible]; try exact I; split; vm_compute; discriminate || reflexivity]).
    split; [apply buffer_new_inv; reflexivity|split; reflexivity|].
    intros k x Hx Hk. cbn in Hk. lia. }
  pose proof (flush_acknowledgement_syncs_what_is_left s
    (mkLogBufferFlush [sample_log 1 1; sample_log 1 2] 1 2) Hs) as H.
  specialize (H ltac:(vm_compute; reflexivity)). cbn [fl_first_index fl_last_index] in H.
  cbv zeta in *. destruct (apply_append_result 1 2 (bs_buffer s)) as [r b'].
  destruct H as (H1 & H2 & _). exact (conj H1 H2).
Defined.

Lemma ratio_le v : (ratio v <= v)%N.
Proof.
  unfold ratio, saturating_mul. apply N.Div0.div_le_upper_bound. lia.
Qed.

Lemma find_releasable_index_bound b r a i :
  buffer_inv b -> u64 a -> (r <= a)%N -> find_releasable_index b r a = Some i ->
  (actual_first_index b < i <= a)%N.
Proof.
  intros Hb Ha Hra. unfold find_releasable_index. set (first := actual_first_index b).
  set (hint := if _ && _ then _ else _).
  assert (hint = 0 \/ (first < hint <= a))%N as Hh.
  { unfold hint. destruct (N.ltb_spec first a) as [|]; cbn [andb];
      destruct (ratio (lb_cache_memory_limit b) <=? lb_log_buffer_bytes b)%N;
      destruct (N.ltb_spec first r); lia. }
  destruct (N.eqb_spec hint 0) as [|Hne]; [done|].
  destruct Hh as [?|Hh]; [done|]. rewrite wrapping_sub_small by (unfold u64 in *; lia).
  pose proof (ratio_le (hint - first)) as Hr.
  destruct (N.ltb_spec 0 (ratio (hint - first))) as [Hpos|]; [|done].
  rewrite wrapping_add_small by (unfold u64 in *; lia). intros [= <-]. lia.
Qed.

(** Releasing memory drops a prefix of applied entries and nothing else.
    With the applied index inside the buffer the call succeeds; either nothing
    changes, or the released entries followed by the retained ones are the
    entries from before, every released entry is below the new first index,
    and the new first index is at most the applied index. *)
Theorem release_memory_drops_applied_prefix replicate_index applied_index b :
  buffer_inv b -> (replicate_index <= applied_index <= last_index b)%N ->
  let '(r, b') := release_memory replicate_index applied_index b in
  (r = Ok None /\ b' = b)
  \/ exists rel, r = Ok (Some rel)
     /\ released_entries rel ++ lb_entries b' = lb_entries b
     /\ actual_first_index b' = released_until rel
     /\ (released_until rel <= applied_index)%N
     /\ Forall (fun e => entry_index e < released_until rel)%N (released_entries rel).
Proof.
  intros Hb Hr. unfold release_memory. rewrite (proj2 (N.ltb_ge _ _)) by lia.
  pose proof (bi_range b Hb) as Hrange. pose proof (buffer_len_pos b Hb).
  pose proof (last_index_exact b Hb) as Hlast.
  destruct (find_releasable_index b replicate_index applied_index) as [i|] eqn:Hi; [|by left].
  apply find_releasable_index_bound in Hi; [|done|unfold u64; lia|lia].
  unfold drain_until. rewrite (proj2 (N.leb_gt _ _)), (proj2 (N.ltb_ge _ _)) by lia. right.
  rewrite wrapping_sub_small by (unfold u64; lia).
  destruct (lookup_lt_is_Some_2 (lb_entries b) (N.to_nat (i - actual_first_index b))) as [e He];
    [unfold buffer_len in *; lia|].
  eexists. split; [reflexivity|]. rewrite head_lookup, lookup_drop, Nat.add_0_r, He. cbn.
  split_and!; [apply take_drop| |lia|].
  - change (entry_index e = i). rewrite (bi_contiguous b Hb _ _ He). lia.
  - apply Forall_lookup_2. intros k x Hx. apply lookup_take_Some in Hx as [Hx Hk].
    rewrite (bi_contiguous b Hb _ _ Hx). lia.
Qed.

Definition sample_buffer : LogBuffer :=
  mark_all_stabled (snd (append_many (sample_log 1 <$> [1; 2; 3; 4; 5])%N (buffer_new 64 (mkLogId 0 0)))).

Lemma sample_buffer_inv : buffer_inv sample_buffer.
Proof.
  split; try (vm_compute; (reflexivity || discriminate || (split; discriminate))).
  intros k e He. do 6 (destruct k as [|k]; [vm_compute in He; injection He as <-; reflexivity|]).
  discriminate He.
Qed.

Lemma release_memory_drops_applied_prefix_witness :
  actual_first_index (snd (release_memory 2 4 sample_buffer)) = 3%N
  /\ let '(r, b') := release_memory 2 4 sample_buffer in
     (r = Ok None /\ b' = sample_buffer)
     \/ exists rel, r = Ok (Some rel) /\ released_entries rel ++ lb_entries b' = lb_entries sample_buffer.
Proof.
  split; [vm_compute; reflexivity|].
  assert (2 <= 4 <= last_index sample_buffer)%N as Hr by (split; vm_compute; discriminate).
  pose proof (release_memory_drops_applied_prefix 2 4 sample_buffer sample_buffer_inv Hr) as H.
  destruct (release_memory 2 4 sample_buffer) as [r b'].
  destruct H as [H|(rel & H1 & H2 & _)]; [left; exact H|right; exists rel; exact (conj H1 H2)].
Defined.

(** The byte limit stops the scan right after the first entry that reaches it. *)
Lemma limited_length_spec limit max_length l bytes n :
  (n <= max_length)%N -> (n + N.of_nat (length l) <= u64_max)%N ->
  (max_length <= n + N.of_nat (length l))%N -> (bytes + buffer_bytes l <= u64_max)%N ->
  exists k, limited_length limit max_length bytes n l = (n + N.of_nat k)%N
    /\ (n + N.of_nat k <= max_length)%N /\ (k <= length l)%nat
    /\ (k = 0%nat \/ bytes + buffer_bytes (take (k - 1) l) < limit)%N
    /\ ((n + N.of_nat k = max_length)%N \/ (limit <= bytes + buffer_bytes (take k l))%N).
Proof.
  revert bytes n. induction l as [|e l IH]; intros bytes n Hn Hu Hmax Hb; cbn [limited_length length] in *.
  { exists 0%nat. rewrite N.add_0_r. split_and!; auto; lia. }
  rewrite buffer_bytes_cons in Hb.
  destruct (N.ltb_spec bytes limit) as [Hlim|Hlim]; cbn [andb].
  2: { exists 0%nat. change (take 0 (e :: l)) with (@nil LogEntry). change (buffer_bytes []) with 0%N.
       rewrite N.add_0_r. split_and!; auto; lia. }
  destruct (N.ltb_spec n max_length) as [Hlt|Hge].
  2: { exists 0%nat. rewrite N.add_0_r. split_and!; auto; lia. }
  rewrite saturating_add_small, wrapping_add_small by lia.
  destruct (IH (bytes + entry_size e)%N (n + 1)%N) as (k & H1 & H2 & H3 & H4 & H5); try lia.
  exists (S k). rewrite H1. split_and!; try lia.
  - right. replace (S k - 1)%nat with k by lia. destruct k as [|k].
    + cbn. change (buffer_bytes []) with 0%N. lia.
    + replace (S k - 1)%nat with k in H4 by lia. cbn [take]. rewrite buffer_bytes_cons. lia.
  - cbn [take]. rewrite buffer_bytes_cons. lia.
Qed.

(** Reading a retained range. With a zero limit the result is exactly the
    entries of the range, with the requested indexes; with a byte limit it is
    the shortest nonempty beginning of the range that reaches the limit, or the
    whole range. *)
Theorem read_entries_returns_range b from to limit_bytes :
  buffer_inv b -> (actual_first_index b < from <= to)%N -> (to <= last_index b)%N ->
  exists l, read_entries b from to limit_bytes = Ok l
    /\ (forall k e, l !! k = Some e -> e ∈ lb_entries b /\ entry_index e = (from + N.of_nat k)%N)
    /\ (0 < length l)%nat /\ (N.of_nat (length l) <= to - from + 1)%N
    /\ (limit_bytes = 0%N -> N.of_nat (length l) = (to - from + 1)%N)
    /\ (limit_bytes <> 0%N ->
        (buffer_bytes (take (length l - 1) l) < limit_bytes)%N
        /\ (N.of_nat (length l) = (to - from + 1)%N \/ (limit_bytes <= buffer_bytes l)%N)).
Proof.
  intros Hb Hf Ht. unfold read_entries. pose proof (bi_range b Hb) as Hr.
  pose proof (last_index_exact b Hb) as Hl. pose proof (buffer_len_pos b Hb) as Hpos.
  rewrite (proj2 (N.ltb_ge to from)), (proj2 (N.leb_gt from _)), (proj2 (N.ltb_ge _ to)) by lia.
  cbn [orb]. rewrite !wrapping_sub_small, wrapping_add_small by (unfold u64; lia).
  set (off := N.to_nat (from - actual_first_index b)). set (l0 := drop off (lb_entries b)).
  assert (N.of_nat (length l0) = actual_first_index b + buffer_len b - from)%N as Hlen
    by (unfold l0, off, buffer_len in *; rewrite length_drop; lia).
  set (n := if (limit_bytes =? 0)%N then _ else _).
  assert (N.of_nat (length (take (N.to_nat n) l0)) = N.min n (N.of_nat (length l0))) as Htk
    by (rewrite length_take; lia).
  eexists. split; [reflexivity|].
  assert (exists k, n = N.of_nat k /\ (0 < k)%nat /\ (n <= to - from + 1)%N
    /\ (limit_bytes = 0%N -> n = to - from + 1)%N
    /\ (limit_bytes <> 0%N -> (buffer_bytes (take (k - 1) l0) < limit_bytes)%N
         /\ (n = to - from + 1 \/ limit_bytes <= buffer_bytes (take k l0))%N)) as (k & -> & Hk & Hn & H0 & H1).
  { unfold n. destruct (N.eqb_spec limit_bytes 0) as [->|Hne].
    - exists (N.to_nat (to - from + 1)). split_and!; [lia|lia|lia|done|done].
    - pose proof (buffer_bytes_split off (lb_entries b)) as Hsplit. fold l0 in Hsplit.
      pose proof (bi_bytes_range b Hb) as Hu. unfold u64 in Hu.
      destruct (limited_length_spec limit_bytes (to - from + 1) l0 0 0) as (k & E & K1 & K2 & K3 & K4); try lia.
      exists k. rewrite E. change (0 + N.of_nat k)%N with (N.of_nat k) in *.
      assert (0 < k)%nat.
      { destruct k; [|lia]. rewrite take_0 in K4. change (buffer_bytes []) with 0%N in K4. lia. }
      split_and!; try done; try lia. }
  rewrite Nat2N.id in *. assert (length (take k l0) = k) as Hlk by lia. rewrite Hlk.
  split_and!; try lia.
  - intros j e He. apply lookup_take_Some in He as [He Hj]. unfold l0 in He. rewrite lookup_drop in He.
    split; [by eapply list_elem_of_lookup_2|]. rewrite (bi_contiguous b Hb _ _ He). unfold off. lia.
  - intros Hne. rewrite take_take. replace ((k - 1) `min` k)%nat with (k - 1)%nat by lia. auto.
Qed.

Lemma read_entries_returns_range_witness :
  exists l, read_entries sample_buffer 2 4 0 = Ok l /\ (0 < length l)%nat.
Proof.
  assert (actual_first_index sample_buffer < 2 <= 4)%N as Hf by (split; vm_compute; [reflexivity|discriminate]).
  assert (4 <= last_index sample_buffer)%N as Ht by (vm_compute; discriminate).
  destruct (read_entries_returns_range sample_buffer 2 4 0 sample_buffer_inv Hf Ht)
    as (l & H1 & _ & H2 & _).
  exists l. exact (conj H1 H2).
Defined.
