(* ===== verification/Cluster.v ===== *)
(** * The replica group: state, leases, commit quorum and membership fence

    Models the struct [RaftCluster] of [src/facade/cluster_runtime.rs] with the
    operations the rest of the runtime is built from: construction, node
    liveness, the leader and follower leases, the witness commit policy, the
    commit quorum and the refresh of the group-wide indexes, the reset of the
    replication pipelines, the leader-transfer record and the membership-change
    fence. The maps keyed by node id are [gmap]s; iteration is in key order.
    The loops that copy node ids to the stack sixteen at a time are folds over
    the keys in order, since the loop bodies neither add nor remove nodes.

    The theorems: the allocation-free quorum checks equal the definitions over
    the membership; the commit index moves only to an index of the current term
    that a commit quorum holds, and never loses committed entries; a lease is
    valid only while a quorum's promises, dated from the probe, are running; at
    most one membership change is in flight. *)

From stdpp Require Import base strings pretty numbers sorting gmap fin_maps sets list.
From S2P Require Import Prelude Types Slice Membership Node Config Pipeline.

Record SnapshotTriggerState := mkSnapshotTriggerState {
  sts_meta : SnapshotMetadata;
  sts_elapsed_ticks : N;
  sts_timeout_ticks : N;
  sts_timed_out : bool
}.
#[export] Instance eta_SnapshotTriggerState : Settable SnapshotTriggerState :=
  fun r => mkSnapshotTriggerState (sts_meta r) (sts_elapsed_ticks r) (sts_timeout_ticks r)
    (sts_timed_out r).

Record LeaderLeaseConfirmation := mkLeaderLeaseConfirmation {
  llc_role : ReplicaRole;
  llc_epoch : N;
  llc_confirmation_epoch : N;
  llc_duration_ms : N;
  llc_elapsed_ms : N
}.
#[export] Instance eta_LeaderLeaseConfirmation : Settable LeaderLeaseConfirmation :=
  fun r => mkLeaderLeaseConfirmation (llc_role r) (llc_epoch r) (llc_confirmation_epoch r)
    (llc_duration_ms r) (llc_elapsed_ms r).

Record ReorderedAppend := mkReorderedAppend {
  ra_request : AppendEntriesRequest;
  ra_membership_change_indexes : list LogIndex
}.

Record PendingSnapshotInstall := mkPendingSnapshotInstall {
  psi_snapshot : RaftSnapshot;
  psi_fence : ApplySnapshotFence
}.

Record RaftCluster := mkRaftCluster {
  rc_group_id : GroupId;
  rc_config : Config;
  rc_nodes : gmap N Node;
  rc_peer_pipelines : gmap N ReplicationPipeline;
  rc_snapshot_installers : gmap N SnapshotInstallState;
  rc_pending_snapshots : gmap N PendingSnapshotInstall;
  rc_leader_id : option NodeId;
  rc_current_term : Term;
  rc_commit_index : LogIndex;
  rc_applied_index : LogIndex;
  rc_last_log_index : LogIndex;
  rc_last_index_before_current_term : LogIndex;
  rc_pending_membership_change_index : option LogIndex;
  rc_membership_change_indexes : gset N;
  rc_saving_membership_change_index : option LogIndex;
  rc_stabled_membership_change_index : LogIndex;
  rc_running : bool;
  rc_leader_lease_valid : bool;
  rc_leader_lease_expired : bool;
  rc_leader_lease_elapsed_ms : N;
  rc_follower_lease_valid : bool;
  rc_follower_lease_elapsed_ms : N;
  rc_follower_lease_duration_ms : N;
  rc_follower_lease_epoch : N;
  rc_leader_lease_epoch : N;
  rc_leader_lease_confirmations : gmap N LeaderLeaseConfirmation;
  rc_leader_lease_confirmation_epochs : gmap N N;
  rc_reorder_queues : gmap N (gmap N ReorderedAppend);
  rc_ignore_witness : bool;
  rc_count_witness_in_commit_quorum : bool;
  rc_prohibits_election : bool;
  rc_leader_transfer : option LeaderTransferState;
  rc_leader_transfer_timeout_ticks : N;
  rc_aborted_leader_transfers : N;
  rc_duplicate_leader_transfer_requests : N;
  rc_snapshot_trigger : option SnapshotTriggerState;
  rc_duplicate_snapshot_trigger_requests : N;
  rc_vote_responses : gmap N bool;
  rc_pre_vote_responses : gmap N bool;
  rc_election_responses_term : Term
}.
#[export] Instance eta_RaftCluster : Settable RaftCluster :=
  fun r => mkRaftCluster (rc_group_id r) (rc_config r) (rc_nodes r) (rc_peer_pipelines r)
    (rc_snapshot_installers r) (rc_pending_snapshots r) (rc_leader_id r) (rc_current_term r)
    (rc_commit_index r) (rc_applied_index r) (rc_last_log_index r)
    (rc_last_index_before_current_term r) (rc_pending_membership_change_index r)
    (rc_membership_change_indexes r) (rc_saving_membership_change_index r)
    (rc_stabled_membership_change_index r) (rc_running r) (rc_leader_lease_valid r)
    (rc_leader_lease_expired r) (rc_leader_lease_elapsed_ms r) (rc_follower_lease_valid r)
    (rc_follower_lease_elapsed_ms r) (rc_follower_lease_duration_ms r)
    (rc_follower_lease_epoch r) (rc_leader_lease_epoch r) (rc_leader_lease_confirmations r)
    (rc_leader_lease_confirmation_epochs r) (rc_reorder_queues r) (rc_ignore_witness r)
    (rc_count_witness_in_commit_quorum r) (rc_prohibits_election r) (rc_leader_transfer r)
    (rc_leader_transfer_timeout_ticks r) (rc_aborted_leader_transfers r)
    (rc_duplicate_leader_transfer_requests r) (rc_snapshot_trigger r)
    (rc_duplicate_snapshot_trigger_requests r) (rc_vote_responses r) (rc_pre_vote_responses r)
    (rc_election_responses_term r).

Abbreviation Cluster := (ST RaftError RaftCluster) (only parsing).

(** ** Construction *)

Definition resolve_leader_transfer_timeout_ticks (config : Config) : N :=
  if (0 <? cfg_leader_transfer_timeout_ticks config)%N then cfg_leader_transfer_timeout_ticks config
  else N.max (election_timeout_ms config / N.max (heartbeat_interval_ms config) 1) 1.

(** The loop over the peers; a repeated id is an error. *)
Fixpoint insert_peers (peers : list Peer) (nodes : gmap N Node) : Result (gmap N Node) :=
  match peers with
  | [] => Ok nodes
  | peer :: rest =>
      match nodes !! peer_node_id peer with
      | Some _ => Err (InvalidRequest ("duplicate raft node id " ++s pretty (peer_node_id peer)))
      | None => insert_peers rest (<[peer_node_id peer :=
                  node_new (peer_node_id peer) (peer_role peer) (peer_auto_promote peer)]> nodes)
      end
  end.

Definition initial_follower_lease_ms (config : Config) : N :=
  if enable_lease_read config && assume_lease_when_start config then
    if (last_follower_lease_ms config =? 0)%N then leader_lease_ms config
    else last_follower_lease_ms config
  else 0.

Definition cluster_new (group_id : GroupId) (config : Config) (peers : list Peer)
    : Result RaftCluster :=
  match validate config with
  | Err e => Err (from_ConfigError e)
  | Ok _ =>
      match peers with
      | [] => Err (InvalidRequest "raft cluster requires at least one peer")
      | _ =>
          match insert_peers peers ∅ with
          | Err e => Err e
          | Ok nodes =>
              if negb (existsb (fun node => can_be_leader (nd_replica_role node)) (bt_values nodes))
              then Err (InvalidRequest "raft cluster requires at least one voter")
              else
                let peer_pipelines :=
                  map_imap (fun node_id _ => Some (pipeline_new node_id 1 (pipeline_limits config))) nodes in
                let last_follower_lease_ms := initial_follower_lease_ms config in
                Ok (mkRaftCluster group_id config nodes peer_pipelines ∅ ∅ None 0 0 0 0 0 None ∅ None 0
                      false false false 0 (0 <? last_follower_lease_ms)%N 0 last_follower_lease_ms
                      0 0 ∅ ∅ ∅ false false false None
                      (resolve_leader_transfer_timeout_ticks config) 0 0 None 0 ∅ ∅ 0)
          end
      end
  end.

Definition require_running (operation : string) (c : RaftCluster) : Result unit :=
  if rc_running c then Ok tt
  else Err (InvalidRequest ("cannot " ++s operation ++s " while cluster is stopped")).

(** [self.nodes.get(&id).ok_or(NodeNotFound(id))]. *)
Definition get_node (node_id : NodeId) (c : RaftCluster) : Result Node :=
  ok_or (rc_nodes c !! node_id) (NodeNotFound node_id).

(** [if let Some(node) = self.nodes.get_mut(&id) { .. }] and the same for a
    peer's pipeline. *)
Definition on_node (node_id : NodeId) (f : Node -> Node) (c : RaftCluster) : RaftCluster :=
  c <| rc_nodes ::= alter f node_id |>.
Definition on_pipeline (node_id : NodeId) (f : ReplicationPipeline -> ReplicationPipeline)
    (c : RaftCluster) : RaftCluster :=
  c <| rc_peer_pipelines ::= alter f node_id |>.
(** [for node in self.nodes.values_mut() { .. }]. *)
Definition on_nodes (f : Node -> Node) (c : RaftCluster) : RaftCluster :=
  c <| rc_nodes ::= fmap f |>.

Definition membership (c : RaftCluster) : Membership :=
  let with_role role :=
    nd_id <$> filter (fun node => nd_replica_role node = role) (bt_values (rc_nodes c)) in
  mkMembership (rc_group_id c) (with_role Voter) (with_role Learner) (with_role Witness)
    (rc_current_term c).

Definition node_ids (c : RaftCluster) : list NodeId := bt_keys (rc_nodes c).

(** The role a node falls back to when it is not the leader of its term. *)
Definition passive_role (n : Node) : StateRole :=
  if bool_decide (nd_replica_role n = Learner) then RoleLearner else Follower.

(** ** Leases *)

Definition is_follower_lease_valid (c : RaftCluster) : bool :=
  enable_lease_read (rc_config c) && rc_follower_lease_valid c.

Definition expire_follower_lease (c : RaftCluster) : RaftCluster :=
  c <| rc_follower_lease_valid := false |>
    <| rc_follower_lease_elapsed_ms := 0%N |>
    <| rc_follower_lease_duration_ms := 0%N |>.

Definition invalidate_follower_lease (c : RaftCluster) : RaftCluster :=
  c <| rc_follower_lease_valid := false |>
    <| rc_follower_lease_elapsed_ms := 0%N |>
    <| rc_follower_lease_duration_ms := 0%N |>
    <| rc_follower_lease_epoch := 0%N |>.

Definition tick_follower_lease (elapsed_ms : N) (c : RaftCluster) : bool * RaftCluster :=
  if negb (is_follower_lease_valid c) then (false, c)
  else
    let c := c <| rc_follower_lease_elapsed_ms ::= (fun e => e +s elapsed_ms) |> in
    if (rc_follower_lease_duration_ms c <=? rc_follower_lease_elapsed_ms c)%N
    then (true, expire_follower_lease c) else (false, c).

Definition receive_follower_lease_item (epoch : N) (c : RaftCluster) : bool * RaftCluster :=
  if (epoch <=? rc_follower_lease_epoch c)%N then (false, c)
  else
    let c := c <| rc_follower_lease_epoch := epoch |>
               <| rc_follower_lease_valid := enable_lease_read (rc_config c) |>
               <| rc_follower_lease_elapsed_ms := 0%N |>
               <| rc_follower_lease_duration_ms := leader_lease_ms (rc_config c) |> in
    (is_follower_lease_valid c, c).

Definition renew_follower_lease (c : RaftCluster) : RaftCluster :=
  snd (receive_follower_lease_item (rc_follower_lease_epoch c +s 1) c).

Definition renew_follower_lease_from_append_entries (lease_epoch : N) (c : RaftCluster) : RaftCluster :=
  if (0 <? lease_epoch)%N then snd (receive_follower_lease_item lease_epoch c)
  else renew_follower_lease c.

Definition set_follower_lease_valid (valid : bool) (c : RaftCluster) : RaftCluster :=
  if valid then renew_follower_lease c else invalidate_follower_lease c.

Definition invalidate_leader_lease (c : RaftCluster) : RaftCluster :=
  c <| rc_leader_lease_valid := false |>
    <| rc_leader_lease_elapsed_ms := 0%N |>
    <| rc_leader_lease_confirmations := ∅ |>.

Definition expire_leader_lease (c : RaftCluster) : RaftCluster :=
  c <| rc_leader_lease_valid := false |>
    <| rc_leader_lease_expired := true |>
    <| rc_leader_lease_confirmations := ∅ |>.

Definition reset_leader_lease_epoch (c : RaftCluster) : RaftCluster :=
  c <| rc_leader_lease_epoch ::= (fun e => e +s 1) |>
    <| rc_leader_lease_expired := false |>
    <| rc_leader_lease_elapsed_ms := 0%N |>
    <| rc_leader_lease_confirmations := ∅ |>
    <| rc_leader_lease_valid := false |>.

(** The counters of the quorum loop: voters, witnesses, votes. *)
Definition count_role (role : ReplicaRole) (nodes : list Node) : nat :=
  length (filter (fun node => nd_replica_role node = role) nodes).

(** The promise of a node counts for the current epoch and is still running. *)
Definition lease_confirmed (c : RaftCluster) (node : Node) : bool :=
  match rc_leader_lease_confirmations c !! nd_id node with
  | Some confirmation =>
      (llc_epoch confirmation =? rc_leader_lease_epoch c)%N
      && bool_decide (llc_role confirmation = nd_replica_role node)
      && (llc_elapsed_ms confirmation <? llc_duration_ms confirmation)%N
  | None => false
  end.

Definition counts_towards_lease_quorum (c : RaftCluster) (node : Node) : bool :=
  match nd_replica_role node with
  | Voter => true
  | Witness => negb (rc_ignore_witness c)
  | Learner => false
  end.

Definition leader_may_hold_lease (c : RaftCluster) (leader_id : NodeId) : bool :=
  match rc_nodes c !! leader_id with
  | Some node => nd_healthy node && can_be_leader (nd_replica_role node)
                 && (rc_leader_lease_elapsed_ms c <? leader_lease_ms (rc_config c))%N
  | None => false
  end.

Definition leader_lease_quorum_reached (c : RaftCluster) : bool :=
  if rc_leader_lease_expired c then false
  else match rc_leader_id c with
       | None => false
       | Some leader_id =>
           if negb (leader_may_hold_lease c leader_id) then false
           else
             let nodes := bt_values (rc_nodes c) in
             let voters := count_role Voter nodes in
             let witnesses := count_role Witness nodes in
             let votes := length (filter (fun node =>
               counts_towards_lease_quorum c node
               && ((nd_id node =? leader_id)%N || lease_confirmed c node) = true) nodes) in
             (matrixraft_quorum_size voters witnesses (rc_ignore_witness c) <=? votes)%nat
       end.

Definition receive_leader_lease_confirmation_inner (node_id : NodeId)
    (confirmation_epoch duration_ms : N) (recompute_quorum : bool) (c : RaftCluster)
    : bool * RaftCluster :=
  let recompute c :=
    if recompute_quorum then c <| rc_leader_lease_valid := leader_lease_quorum_reached c |> else c in
  if bool_decide (rc_leader_id c = Some node_id) then (false, c)
  else if (duration_ms =? 0)%N then (false, c)
  else match rc_nodes c !! node_id with
       | None => (false, c)
       | Some node =>
           if negb (participates_in_quorum (nd_replica_role node))
              || (rc_ignore_witness c && bool_decide (nd_replica_role node = Witness))
           then (false, c)
           else if (confirmation_epoch
                    <=? default 0 (rc_leader_lease_confirmation_epochs c !! node_id))%N
           then (false, c)
           else
             let c := c <| rc_leader_lease_confirmation_epochs ::= <[node_id := confirmation_epoch]> |> in
             let fresh :=
               let c := c <| rc_leader_lease_expired := false |> in
               let c := c <| rc_leader_lease_confirmations ::=
                      <[node_id := mkLeaderLeaseConfirmation (nd_replica_role node)
                          (rc_leader_lease_epoch c) confirmation_epoch duration_ms
                          (rc_leader_lease_elapsed_ms c)]> |> in
               (true, recompute c) in
             match rc_leader_lease_confirmations c !! node_id with
             | Some existing =>
                 let existing_remaining_ms :=
                   saturating_sub (llc_duration_ms existing) (llc_elapsed_ms existing) in
                 if (llc_epoch existing =? rc_leader_lease_epoch c)%N
                    && bool_decide (llc_role existing = nd_replica_role node)
                    && (duration_ms <=? existing_remaining_ms)%N
                 then
                   let c := c <| rc_leader_lease_confirmations ::=
                          <[node_id := existing <| llc_confirmation_epoch := confirmation_epoch |>]> |> in
                   (true, recompute c)
                 else fresh
             | None => fresh
             end
       end.

Definition receive_leader_lease_confirmation_with_duration (node_id : NodeId)
    (confirmation_epoch duration_ms : N) (c : RaftCluster) : bool * RaftCluster :=
  receive_leader_lease_confirmation_inner node_id confirmation_epoch duration_ms true c.

Definition receive_leader_lease_confirmation (node_id : NodeId) (confirmation_epoch : N)
    (c : RaftCluster) : bool * RaftCluster :=
  receive_leader_lease_confirmation_with_duration node_id confirmation_epoch
    (leader_lease_ms (rc_config c)) c.

Definition record_leader_lease_confirmation_inner (node_id : NodeId) (recompute_quorum : bool)
    (c : RaftCluster) : RaftCluster :=
  let confirmation_epoch := default 0%N (rc_leader_lease_confirmation_epochs c !! node_id) +s 1 in
  snd (receive_leader_lease_confirmation_inner node_id confirmation_epoch
         (leader_lease_ms (rc_config c)) recompute_quorum c).

Definition begin_leader_lease_renewal (c : RaftCluster) : bool * RaftCluster :=
  match rc_leader_id c with
  | None => (false, invalidate_leader_lease c)
  | Some _ =>
      (true, c <| rc_leader_lease_epoch ::= (fun e => e +s 1) |>
               <| rc_leader_lease_expired := false |>
               <| rc_leader_lease_elapsed_ms := 0%N |>)
  end.

Definition finish_leader_lease_renewal (c : RaftCluster) : bool * RaftCluster :=
  let c := c <| rc_leader_lease_valid := leader_lease_quorum_reached c |> in
  (rc_leader_lease_valid c, c).

Definition renew_leader_lease_from_live_quorum (c : RaftCluster) : bool * RaftCluster :=
  match rc_leader_id c with
  | None => (false, invalidate_leader_lease c)
  | Some leader_id =>
      let fit := match rc_nodes c !! leader_id with
                 | Some node => nd_healthy node && can_be_leader (nd_replica_role node)
                 | None => false
                 end in
      if negb fit then (false, invalidate_leader_lease c)
      else
        let '(began, c) := begin_leader_lease_renewal c in
        if negb began then (false, c)
        else
          let live := filter (fun kv : N * Node =>
             nd_healthy kv.2 && participates_in_quorum (nd_replica_role kv.2)
             && negb (rc_ignore_witness c && bool_decide (nd_replica_role kv.2 = Witness)) = true)
             (bt_entries (rc_nodes c)) in
          finish_leader_lease_renewal
            (foldl (fun c node_id => record_leader_lease_confirmation_inner node_id false c) c live.*1)
  end.

Definition set_leader_lease_valid (valid : bool) (c : RaftCluster) : RaftCluster :=
  if valid then snd (renew_leader_lease_from_live_quorum c) else invalidate_leader_lease c.

(** ** The commit quorum *)

Definition counts_toward_commit_quorum (c : RaftCluster) (node : Node) : bool :=
  participates_in_quorum (nd_replica_role node)
  && negb (rc_ignore_witness c && bool_decide (nd_replica_role node = Witness))
  && (negb (bool_decide (nd_replica_role node = Witness)) || rc_count_witness_in_commit_quorum c).

Definition commit_quorum_size (c : RaftCluster) : nat :=
  let voters := length (filter (fun node =>
    bool_decide (nd_replica_role node = Voter)
    || (negb (rc_ignore_witness c) && rc_count_witness_in_commit_quorum c
        && bool_decide (nd_replica_role node = Witness)) = true) (bt_values (rc_nodes c))) in
  (voters / 2 + 1)%nat.

Definition INLINE_QUORUM_CANDIDATES : nat := 16.

(** The nodes the commit quorum is counted over. *)
Definition commit_quorum_nodes (c : RaftCluster) : list Node :=
  filter (fun node => counts_toward_commit_quorum c node = true) (bt_values (rc_nodes c)).

(** How many of the match indexes are at or above [candidate]. *)
Definition holders (candidate : LogIndex) (indexes : list LogIndex) : nat :=
  length (filter (fun i => (candidate <= i)%N) indexes).

(** One round of the counting loop: a candidate above the best so far that a
    quorum holds becomes the best. *)
Definition counting_step (quorum_size : nat) (indexes : list LogIndex)
    (best : option LogIndex) (candidate : LogIndex) : option LogIndex :=
  if match best with Some current => (candidate <=? current)%N | None => false end then best
  else if (quorum_size <=? holders candidate indexes)%nat then Some candidate else best.

Definition commit_quorum_match_index_by_counting (c : RaftCluster) (quorum_size : nat)
    : option LogIndex :=
  let indexes := match_index <$> commit_quorum_nodes c in
  let best := foldl (counting_step quorum_size indexes) None indexes in
  if (length indexes <? quorum_size)%nat then None else best.

Definition commit_quorum_match_index (c : RaftCluster) : option LogIndex :=
  let quorum_size := commit_quorum_size c in
  let candidates := match_index <$> commit_quorum_nodes c in
  if (INLINE_QUORUM_CANDIDATES <? length candidates)%nat
  then commit_quorum_match_index_by_counting c quorum_size
  else if (length candidates <? quorum_size)%nat then None
  else select_nth candidates (length candidates - quorum_size).

(** [iter().max().unwrap_or_default()] and [iter().min().unwrap_or_default()]. *)
Definition max_or_default (l : list N) : N := foldr N.max 0%N l.
Definition min_or_default (l : list N) : N :=
  match l with [] => 0%N | x :: rest => foldr N.min x rest end.

Definition refresh_cluster_indexes (c : RaftCluster) : RaftCluster :=
  let nodes := bt_values (rc_nodes c) in
  c <| rc_commit_index := max_or_default (nd_commit_index <$> nodes) |>
    <| rc_applied_index := min_or_default (nd_safety_applied_index <$>
         filter (fun node => can_serve_data (nd_replica_role node) = true) nodes) |>
    <| rc_last_log_index := max_or_default (match_index <$> nodes) |>.

Definition refresh_commit_index (c : RaftCluster) : RaftCluster :=
  match commit_quorum_match_index c with
  | None => c
  | Some commit_index =>
      match rc_leader_id c with
      | None => c
      | Some leader_id =>
          match rc_nodes c !! leader_id with
          | None => c
          | Some leader =>
              if negb (bool_decide (log_term_at leader commit_index = Some (rc_current_term c))) then c
              else
                let c := c <| rc_commit_index ::= (fun i => N.max i commit_index) |> in
                let c := on_nodes (fun node =>
                  if nd_healthy node then advance_commit (rc_commit_index c) node else node) c in
                refresh_cluster_indexes c
          end
      end
  end.

Definition refresh_witness_commit_quorum_policy (c : RaftCluster) : bool * RaftCluster :=
  let nodes := bt_values (rc_nodes c) in
  let live role := length (filter (fun node => nd_replica_role node = role /\ nd_healthy node = true) nodes) in
  let voters := count_role Voter nodes in
  let witnesses := count_role Witness nodes in
  let normal_voter_quorum := matrixraft_quorum_size voters witnesses true in
  let should_count_witness :=
    if rc_ignore_witness c || (normal_voter_quorum <=? live Voter)%nat then false
    else (matrixraft_quorum_size voters witnesses false <=? live Voter + live Witness)%nat in
  let changed := negb (Bool.eqb (rc_count_witness_in_commit_quorum c) should_count_witness) in
  let c := c <| rc_count_witness_in_commit_quorum := should_count_witness |> in
  (changed, if changed then refresh_commit_index c else c).

Definition tick_leader_lease (elapsed_ms : N) (c : RaftCluster) : bool * RaftCluster :=
  if negb (enable_lease_read (rc_config c)) then
    (rc_leader_lease_valid c, expire_leader_lease c)
  else
    let c := c <| rc_leader_lease_elapsed_ms ::= (fun e => e +s elapsed_ms) |>
               <| rc_leader_lease_confirmations ::=
                    fmap (fun llc => llc <| llc_elapsed_ms ::= (fun e => e +s elapsed_ms) |>) |> in
    let was_valid := rc_leader_lease_valid c in
    let c := c <| rc_leader_lease_valid := leader_lease_quorum_reached c |> in
    let c := snd (refresh_witness_commit_quorum_policy c) in
    (was_valid && negb (rc_leader_lease_valid c), c).

Definition remove_election_response_from (node_id : NodeId) (c : RaftCluster) : RaftCluster :=
  c <| rc_vote_responses ::= delete node_id |> <| rc_pre_vote_responses ::= delete node_id |>.

Definition set_ignore_witness (ignore_witness : bool) (c : RaftCluster) : RaftCluster :=
  if Bool.eqb (rc_ignore_witness c) ignore_witness then c
  else
    let c := c <| rc_ignore_witness := ignore_witness |> in
    let c :=
      if ignore_witness then
        let c := c <| rc_count_witness_in_commit_quorum := false |> in
        foldl (fun c witness_id => remove_election_response_from witness_id c) c
          (m_witnesses (membership c))
      else c in
    let c := c <| rc_leader_lease_valid := leader_lease_quorum_reached c |> in
    refresh_commit_index c.

Definition has_live_quorum (c : RaftCluster) : bool :=
  let nodes := bt_values (rc_nodes c) in
  let live := length (filter (fun node =>
    nd_healthy node && participates_in_quorum (nd_replica_role node)
    && negb (rc_ignore_witness c && bool_decide (nd_replica_role node = Witness)) = true) nodes) in
  (matrixraft_quorum_size (count_role Voter nodes) (count_role Witness nodes)
     (rc_ignore_witness c) <=? live)%nat.

(** ** Leader transfer record *)

Definition active_leader_transfer (c : RaftCluster) : option LeaderTransferState :=
  transfer ← rc_leader_transfer c;
  match lt_conclusion transfer with None => Some transfer | Some _ => None end.

Definition conclude_leader_transfer (reason : string) (conclusion : LeaderTransferConclusion)
    (transfer : LeaderTransferState) : LeaderTransferState :=
  transfer <| lt_reason := reason |> <| lt_conclusion := Some conclusion |>.

Definition abort_leader_transfer (reason : string) (c : RaftCluster) : bool * RaftCluster :=
  match active_leader_transfer c with
  | None => (false, c)
  | Some transfer =>
      (true, c <| rc_leader_transfer := Some (conclude_leader_transfer reason Aborted transfer) |>
               <| rc_aborted_leader_transfers ::= (fun n => n +s 1) |>)
  end.

Definition complete_leader_transfer (reason : string) (c : RaftCluster) : bool * RaftCluster :=
  match active_leader_transfer c with
  | None => (false, c)
  | Some transfer =>
      (true, c <| rc_leader_transfer := Some (conclude_leader_transfer reason Completed transfer) |>)
  end.

Definition tick_leader_transfer (c : RaftCluster) : bool * RaftCluster :=
  match active_leader_transfer c with
  | None => (false, c)
  | Some transfer =>
      let transfer := transfer <| lt_elapsed_ticks ::= (fun t => t +s 1) |> in
      let timed_out := (lt_timeout_ticks transfer <=? lt_elapsed_ticks transfer)%N in
      let c := c <| rc_leader_transfer := Some transfer |> in
      if timed_out then abort_leader_transfer "transfer_timeout" c else (false, c)
  end.

Definition step_down_leader_if_lost_quorum (c : RaftCluster) : bool * RaftCluster :=
  if bool_decide (rc_leader_id c = None) || has_live_quorum c || rc_leader_lease_valid c
  then (false, c)
  else
    let c := c <| rc_leader_id := None |> in
    let c := invalidate_leader_lease c in
    let c := snd (abort_leader_transfer "lost_quorum" c) in
    (true, on_nodes (fun node =>
       if bool_decide (nd_raft_role node = Leader) then node <| nd_raft_role := Follower |> else node) c).

(** ** Node liveness *)

Definition set_node_healthy (node_id : NodeId) (healthy : bool) : Cluster unit := fun c =>
  match rc_nodes c !! node_id with
  | None => (Err (NodeNotFound node_id), c)
  | Some _ =>
      let c := on_node node_id (fun node => node <| nd_healthy := healthy |>
                                                 <| nd_liveness_elapsed_ms := 0%N |>) c in
      let c := if healthy then on_pipeline node_id record_peer_active c else c in
      (Ok tt, if bool_decide (rc_leader_id c = Some node_id) && negb healthy
              then invalidate_leader_lease c else c)
  end.

Definition partition_peer (node_id : NodeId) : Cluster unit := set_node_healthy node_id false.

Definition mark_peer_active (node_id : NodeId) : Cluster unit := fun c =>
  match rc_nodes c !! node_id with
  | None => (Err (NodeNotFound node_id), c)
  | Some _ =>
      let c := on_node node_id (fun node => node <| nd_healthy := true |>
                                                 <| nd_liveness_elapsed_ms := 0%N |>) c in
      (Ok tt, on_pipeline node_id record_peer_active c)
  end.

Definition peer_response_is_active (node_id : NodeId) (c : RaftCluster) : Result bool :=
  match rc_nodes c !! node_id with
  | Some node => Ok (nd_healthy node)
  | None => Err (NodeNotFound node_id)
  end.

Definition peer_offline_timeout_ms (c : RaftCluster) : N :=
  let config := rc_config c in
  if (cfg_peer_offline_timeout_ticks config =? 0)%N then N.max (election_timeout_ms config) 1
  else N.max (saturating_mul (cfg_peer_offline_timeout_ticks config)
                (N.max (heartbeat_interval_ms config) 1)) 1.

Definition resolve_snapshot_trigger_timeout_ticks (c : RaftCluster) : N :=
  let config := rc_config c in
  if (0 <? cfg_snapshot_trigger_timeout_ticks config)%N then cfg_snapshot_trigger_timeout_ticks config
  else N.max (60000 / N.max (heartbeat_interval_ms config) 1) 1.

(** The loop body of [tick_peer_liveness] for one node. *)
Definition tick_node_liveness (leader_id : NodeId) (elapsed_ms timeout_ms : N)
    (acc : list NodeId * RaftCluster) (entry : N * Node) : list NodeId * RaftCluster :=
  let '(timed_out, c) := acc in
  let '(node_id, node) := entry in
  if (node_id =? leader_id)%N then
    (timed_out,
     if nd_healthy node
     then on_pipeline node_id record_peer_active
            (on_node node_id (fun node => node <| nd_liveness_elapsed_ms := 0%N |>) c)
     else c)
  else if negb (nd_healthy node) then (timed_out, c)
  else
    let elapsed := nd_liveness_elapsed_ms node +s elapsed_ms in
    let c := on_node node_id (fun node => node <| nd_liveness_elapsed_ms := elapsed |>) c in
    if (timeout_ms <? elapsed)%N then
      (timed_out ++ [node_id],
       on_pipeline node_id record_offline_timeout
         (on_node node_id (fun node => node <| nd_healthy := false |>) c))
    else (timed_out, c).

Definition tick_peer_liveness (elapsed_ms : N) (c : RaftCluster) : list NodeId * RaftCluster :=
  match rc_leader_id c with
  | None => ([], c)
  | Some leader_id =>
      foldl (tick_node_liveness leader_id elapsed_ms (peer_offline_timeout_ms c)) ([], c)
        (bt_entries (rc_nodes c))
  end.

Definition tick_reorder_queues (elapsed_us : N) (c : RaftCluster) : N * RaftCluster :=
  foldl (fun acc peer_id =>
    let '(dropped, c) := (acc : N * RaftCluster) in
    match rc_peer_pipelines c !! peer_id with
    | None => (dropped, c)
    | Some pipeline =>
        let '(d, pipeline) := tick_reorder_queue elapsed_us pipeline in
        (dropped +s d, c <| rc_peer_pipelines ::= <[peer_id := pipeline]> |>)
    end) (0%N, c) (bt_keys (rc_peer_pipelines c)).

Definition tick_reorder_queues_for_heartbeat (heartbeat_interval_ms : N) (c : RaftCluster)
    : N * RaftCluster :=
  tick_reorder_queues (saturating_mul heartbeat_interval_ms 1000) c.

Definition stop : Cluster unit := fun c =>
  (Ok tt, invalidate_leader_lease (c <| rc_running := false |>)).

(** ** Replication pipelines of a new leader *)

Definition reset_replication_pipelines_for_leader (leader_id : NodeId) (c : RaftCluster) : RaftCluster :=
  let next_index := rc_last_log_index c +s 1 in
  let limits := pipeline_limits (rc_config c) in
  foldl (fun c node_id =>
    let pipeline := default (pipeline_new node_id next_index limits) (rc_peer_pipelines c !! node_id) in
    let is_leader := (node_id =? leader_id)%N in
    c <| rc_peer_pipelines ::= <[node_id :=
           reset_for_leader_transition (if is_leader then rc_last_log_index c else 0%N) next_index
             (if is_leader then Replicate else Probe) pipeline]> |>)
    c (node_ids c).

Definition refresh_replication_pipelines (c : RaftCluster) : RaftCluster :=
  let limits := pipeline_limits (rc_config c) in
  let c := foldl (fun c entry =>
    let '(node_id, node) := (entry : N * Node) in
    match rc_peer_pipelines c !! node_id with
    | Some _ => c
    | None => c <| rc_peer_pipelines ::=
                     <[node_id := pipeline_new node_id (match_index node +s 1) limits]> |>
    end) c (bt_entries (rc_nodes c)) in
  match rc_leader_id c with
  | None => c
  | Some leader_id =>
      let response := mkAppendEntriesResponse (rc_current_term c) true (rc_last_log_index c)
                        None None None SnapshotNone 0 0 in
      on_pipeline leader_id (fun pipeline => snd (handle_append_response response pipeline)) c
  end.

Definition clear_election_responses (c : RaftCluster) : RaftCluster :=
  c <| rc_vote_responses := ∅ |> <| rc_pre_vote_responses := ∅ |>
    <| rc_election_responses_term := rc_current_term c |>.

Definition discard_election_responses_from_an_earlier_term (c : RaftCluster) : RaftCluster :=
  if (rc_election_responses_term c =? rc_current_term c)%N then c else clear_election_responses c.

Definition clear_reorder_queues (c : RaftCluster) : RaftCluster := c <| rc_reorder_queues := ∅ |>.
Definition clear_reorder_queue_for (node_id : NodeId) (c : RaftCluster) : RaftCluster :=
  c <| rc_reorder_queues ::= delete node_id |>.

Definition next_log_index (c : RaftCluster) : Result LogIndex :=
  ok_or (checked_add (rc_last_log_index c) 1)
    (InvalidRequest "the log is already at the largest representable index, so no entry can follow it").

(** ** The membership-change fence *)

(** [opt.is_some_and(|x| x > bound)]. *)
Definition some_above (o : option LogIndex) (bound : LogIndex) : bool :=
  match o with Some x => (bound <? x)%N | None => false end.
(** [opt.is_some_and(|x| x <= bound)]. *)
Definition some_at_most (o : option LogIndex) (bound : LogIndex) : bool :=
  match o with Some x => (x <=? bound)%N | None => false end.

Definition membership_change_fence_active (c : RaftCluster) : bool :=
  some_above (rc_pending_membership_change_index c) (rc_applied_index c)
  || some_above (rc_saving_membership_change_index c) (rc_stabled_membership_change_index c).

(** The two refusals both [begin_*] operations start with; the saving check is
    the same, the pending check is the caller's. *)
Definition refuse_saving (c : RaftCluster) : option RaftError :=
  match rc_saving_membership_change_index c with
  | Some saving_index =>
      if (rc_stabled_membership_change_index c <? saving_index)%N
      then Some (InvalidRequest ("saving_membership_change_index:" ++s pretty saving_index)) else None
  | None => None
  end.

Definition begin_pending_membership_change (log_index : LogIndex) : Cluster unit := fun c =>
  if (log_index =? 0)%N then
    (Err (InvalidRequest "membership change log index must be non-zero"), c)
  else match refuse_saving c with
       | Some e => (Err e, c)
       | None =>
           match rc_pending_membership_change_index c with
           | Some pending_index =>
               if (rc_applied_index c <? pending_index)%N then
                 (Err (InvalidRequest ("pending_membership_change_index:" ++s pretty pending_index)), c)
               else
                 (Ok tt, c <| rc_pending_membership_change_index := Some log_index |>
                           <| rc_membership_change_indexes ::= union {[log_index]} |>)
           | None =>
               (Ok tt, c <| rc_pending_membership_change_index := Some log_index |>
                         <| rc_membership_change_indexes ::= union {[log_index]} |>)
           end
       end.

Definition begin_saving_membership_change (log_index : LogIndex) : Cluster unit := fun c =>
  if (log_index =? 0)%N then
    (Err (InvalidRequest "membership change log index must be non-zero"), c)
  else match refuse_saving c with
       | Some e => (Err e, c)
       | None =>
           let accepted := c <| rc_pending_membership_change_index := Some log_index |>
                             <| rc_membership_change_indexes ::= union {[log_index]} |>
                             <| rc_saving_membership_change_index := Some log_index |> in
           match rc_pending_membership_change_index c with
           | Some pending_index =>
               if negb (pending_index =? log_index)%N && (rc_applied_index c <? pending_index)%N then
                 (Err (InvalidRequest ("pending_membership_change_index:" ++s pretty pending_index)), c)
               else (Ok tt, accepted)
           | None => (Ok tt, accepted)
           end
       end.

Definition mark_membership_change_applied (log_index : LogIndex) (c : RaftCluster) : RaftCluster :=
  let c := c <| rc_applied_index ::= (fun i => N.max i log_index) |> in
  if some_at_most (rc_pending_membership_change_index c) log_index
     && negb (some_at_most (rc_saving_membership_change_index c) log_index)
  then c <| rc_pending_membership_change_index := None |> else c.

Definition mark_membership_change_stabled (log_index : LogIndex) (c : RaftCluster) : RaftCluster :=
  let c := c <| rc_stabled_membership_change_index ::= (fun i => N.max i log_index) |> in
  let c := if some_at_most (rc_saving_membership_change_index c) (rc_stabled_membership_change_index c)
           then c <| rc_saving_membership_change_index := None |> else c in
  if (log_index <=? rc_applied_index c)%N then mark_membership_change_applied log_index c else c.

(** [{first:?}..={last:?}] of two indexes. *)
Definition submit_stabled_result (first_index last_index : option LogIndex)
    (stabled_membership_change_index : LogIndex) : Cluster bool := fun c =>
  let proceed :=
    let c := if (0 <? stabled_membership_change_index)%N
             then mark_membership_change_stabled stabled_membership_change_index c else c in
    match first_index, last_index with
    | Some _, Some _ => (Ok true, refresh_commit_index c)
    | _, _ => (Ok false, c)
    end in
  match first_index, last_index with
  | Some first, Some last =>
      if (first =? 0)%N || (last =? 0)%N || (last <? first)%N then
        (Err (InvalidRequest ("invalid stabled result range: " ++s pretty first ++s "..="
                              ++s pretty last)), c)
      else proceed
  | Some _, None | None, Some _ =>
      (Err (InvalidRequest "stabled result range must include both first_index and last_index"), c)
  | None, None => proceed
  end.

(** The largest element of an ordered set. *)
Definition set_last (s : gset N) : option N :=
  match elements s with
  | [] => None
  | x :: rest => Some (foldr N.max x rest)
  end.

Definition mark_snapshot_membership_floor_applied (snapshot_index : LogIndex) (c : RaftCluster)
    : RaftCluster :=
  let c := c <| rc_applied_index ::= (fun i => N.max i snapshot_index) |>
             <| rc_membership_change_indexes ::= filter (fun i => (snapshot_index < i)%N) |> in
  let c := if some_at_most (rc_saving_membership_change_index c) snapshot_index
           then c <| rc_saving_membership_change_index := None |>
                  <| rc_stabled_membership_change_index ::= (fun i => N.max i snapshot_index) |>
           else c in
  c <| rc_pending_membership_change_index := set_last (rc_membership_change_indexes c) |>.

Definition reset_pending_membership_change_after_truncation
    (last_retained_log_index committed_index : LogIndex) (c : RaftCluster) : RaftCluster :=
  let c := c <| rc_membership_change_indexes ::= filter (fun i => (i <= last_retained_log_index)%N) |> in
  let c := if some_above (rc_saving_membership_change_index c) last_retained_log_index
           then c <| rc_saving_membership_change_index := None |> else c in
  c <| rc_pending_membership_change_index :=
         set_last (filter (fun i => (committed_index < i)%N) (rc_membership_change_indexes c)) |>.

(** ** Apply fence and the retained range *)

Record RetainedLogRange := mkRetainedLogRange {
  first_log_index : LogIndex;
  last_log_index : LogIndex;
  installed_snapshot_index : LogIndex
}.

Definition serves (r : RetainedLogRange) (log_index : LogIndex) : bool :=
  (0 <? first_log_index r)%N && (first_log_index r <=? log_index)%N
  && (log_index <=? last_log_index r)%N.

Definition retained_log_range (node_id : NodeId) (c : RaftCluster) : Result RetainedLogRange :=
  match get_node node_id c with
  | Err e => Err e
  | Ok node =>
      Ok (mkRetainedLogRange (index_or_default (head (nd_log node)))
            (index_or_default (last (nd_log node)))
            (snapshot_index_or_default (nd_installed_snapshot node)))
  end.

Definition peer_can_catch_up_from_log (peer_id : NodeId) (c : RaftCluster) : Result bool :=
  match rc_leader_id c with
  | None => Ok false
  | Some leader_id =>
      match get_node peer_id c with
      | Err e => Err e
      | Ok peer =>
          let next_index := match_index peer +s 1 in
          match retained_log_range leader_id c with
          | Err e => Err e
          | Ok range =>
              if (last_log_index range <? next_index)%N then Ok true else Ok (serves range next_index)
          end
      end
  end.

Definition min_index_any_member_needs (leader_id : NodeId) (c : RaftCluster) : Result LogIndex :=
  match get_node leader_id c with
  | Err e => Err e
  | Ok leader =>
      Ok (if bool_decide (nd_raft_role leader = Leader)
          then foldl (fun lowest peer =>
                 if negb (nd_id peer =? leader_id)%N && can_serve_data (nd_replica_role peer)
                 then N.min lowest (match_index peer) else lowest)
               (nd_safety_applied_index leader) (bt_values (rc_nodes c))
          else nd_safety_applied_index leader)
  end.

Definition min_replicated_index (node_id : NodeId) (c : RaftCluster) : Result LogIndex :=
  match get_node node_id c with
  | Err e => Err e
  | Ok node =>
      Ok (if bool_decide (nd_raft_role node = Leader)
          then foldl (fun replicated_index peer =>
                 if negb (nd_id peer =? node_id)%N && nd_healthy peer
                 then N.min replicated_index (match_index peer) else replicated_index)
               (nd_safety_applied_index node) (bt_values (rc_nodes c))
          else nd_safety_applied_index node)
  end.

Record ApplyEligibility := mkApplyEligibility {
  eligible_through : LogIndex;
  held_back_at : option LogIndex;
  ae_commit_index : LogIndex;
  ae_durable_commit_index : LogIndex
}.

(** The scan: the first command entry at or below the commit index. *)
Fixpoint first_command (commit_index : LogIndex) (l : list LogEntry) : option LogIndex :=
  match l with
  | [] => None
  | e :: rest =>
      if (commit_index <? entry_index e)%N then None
      else if is_command e then Some (entry_index e)
      else first_command commit_index rest
  end.

Definition apply_eligible_through (node_id : NodeId) (durable_commit_index : LogIndex)
    (c : RaftCluster) : Result ApplyEligibility :=
  match get_node node_id c with
  | Err e => Err e
  | Ok node =>
      let commit_index := nd_commit_index node in
      let held :=
        if (durable_commit_index <? commit_index)%N then
          match log_position_at_or_after node (durable_commit_index +s 1) with
          | Some start => first_command commit_index (drop start (nd_log node))
          | None => None
          end
        else None in
      Ok (mkApplyEligibility
            (match held with Some index => saturating_sub index 1 | None => commit_index end)
            held commit_index durable_commit_index)
  end.

Definition mark_apply_task_inflight (node_id : NodeId) (applied_index : LogIndex) : Cluster unit := fun c =>
  match rc_nodes c !! node_id with
  | None => (Err (NodeNotFound node_id), c)
  | Some node =>
      if (nd_commit_index node <? applied_index)%N then
        (Err (InvalidRequest ("inflight applied_index " ++s pretty applied_index
           ++s " exceeds commit index " ++s pretty (nd_commit_index node))), c)
      else if (applied_index <? nd_safety_applied_index node)%N then
        (Err (InvalidRequest ("inflight applied_index " ++s pretty applied_index
           ++s " is below safety applied index " ++s pretty (nd_safety_applied_index node))), c)
      else
        (Ok tt, refresh_cluster_indexes (on_node node_id (fun node =>
           node <| nd_applied_index ::= (fun i => N.max i applied_index) |>
                <| nd_safety_applied_index ::= (fun i => N.min i (saturating_sub applied_index 1)) |>) c))
  end.

Definition mark_apply_task_inflight_with_fence (node_id : NodeId)
    (applied_index durable_commit_index : LogIndex) : Cluster unit := fun c =>
  match apply_eligible_through node_id durable_commit_index c with
  | Err e => (Err e, c)
  | Ok eligibility =>
      if (eligible_through eligibility <? applied_index)%N then
        let at_index := pretty (default applied_index (held_back_at eligibility)) in
        (Err (InvalidRequest ("applied_index " ++s pretty applied_index
           ++s " is past what is durable: a command entry at " ++s at_index
           ++s " needs a durable commit index of at least " ++s at_index
           ++s ", and the caller said " ++s pretty durable_commit_index)), c)
      else mark_apply_task_inflight node_id applied_index c
  end.

(** ** Well-formed groups *)

(** Every node is stored under its own id. *)
Definition nodes_keyed (c : RaftCluster) : Prop :=
  map_Forall (fun node_id node => nd_id node = node_id) (rc_nodes c).

#[export] Instance nodes_keyed_dec c : Decision (nodes_keyed c).
Proof. unfold nodes_keyed. apply _. Defined.

Lemma bt_values_ids (c : RaftCluster) :
  nodes_keyed c -> nd_id <$> bt_values (rc_nodes c) = bt_keys (rc_nodes c).
Proof.
  intros Hk. unfold bt_values, bt_keys. rewrite <- list_fmap_compose.
  apply list_fmap_ext. intros i [k n] Hi. cbn. apply Hk.
  apply elem_of_bt_entries. by eapply list_elem_of_lookup_2.
Qed.

Lemma NoDup_node_ids (c : RaftCluster) :
  nodes_keyed c -> NoDup (nd_id <$> bt_values (rc_nodes c)).
Proof. intros Hk. rewrite bt_values_ids by done. apply NoDup_bt_keys. Qed.

Lemma elem_of_node_values (c : RaftCluster) n :
  nodes_keyed c -> n ∈ bt_values (rc_nodes c) <-> rc_nodes c !! nd_id n = Some n.
Proof.
  intros Hk. rewrite elem_of_bt_values. split.
  - intros [k Hn]. by rewrite (Hk _ _ Hn).
  - eauto.
Qed.

Lemma filter_fmap_length {A B} (f : A -> B) (P : B -> Prop) `{forall x, Decision (P x)} (l : list A) :
  length (filter P (f <$> l)) = length (filter (fun x => P (f x)) l).
Proof.
  induction l as [|x l IH]; [done|]. rewrite fmap_cons, !filter_cons.
  destruct (decide (P (f x))); cbn; lia.
Qed.

Lemma filter_length_iff {A} (P Q : A -> Prop)
    `{forall x, Decision (P x), forall x, Decision (Q x)} (l : list A) :
  (forall x, x ∈ l -> P x <-> Q x) -> length (filter P l) = length (filter Q l).
Proof.
  induction l as [|x l IH]; intros Hpq; [done|]. rewrite !filter_cons.
  assert (length (filter P l) = length (filter Q l)) as E by (apply IH; set_solver).
  specialize (Hpq x ltac:(set_solver)).
  destruct (decide (P x)), (decide (Q x)); cbn; rewrite ?E; naive_solver.
Qed.

Lemma filter_length_split {A} (P Q R : A -> Prop)
    `{forall x, Decision (P x), forall x, Decision (Q x), forall x, Decision (R x)} (l : list A) :
  (forall x, x ∈ l -> R x <-> P x \/ Q x) -> (forall x, P x -> Q x -> False) ->
  length (filter R l) = (length (filter P l) + length (filter Q l))%nat.
Proof.
  intros Hr Hd. induction l as [|x l IH]; [done|]. rewrite !filter_cons.
  specialize (IH ltac:(set_solver)). specialize (Hr x ltac:(set_solver)). specialize (Hd x).
  destruct (decide (P x)), (decide (Q x)), (decide (R x)); cbn; try lia; naive_solver.
Qed.

(** A node of the group takes part in quorums under the witness policy. *)
Definition in_quorum (ignore_witness : bool) (n : Node) : bool :=
  match nd_replica_role n with
  | Voter => true
  | Witness => negb ignore_witness
  | Learner => false
  end.

(** Counting acknowledged participants of the membership by id is counting the
    acknowledged nodes. *)
Lemma participants_count (c : RaftCluster) (ignore : bool) (acks : list NodeId) :
  length (filter (fun node_id => node_id ∈ acks) (participants (membership c) ignore))
  = length (filter (fun n => in_quorum ignore n = true /\ nd_id n ∈ acks) (bt_values (rc_nodes c))).
Proof.
  unfold participants, membership. cbn [m_voters m_witnesses]. rewrite filter_app, length_app.
  rewrite filter_fmap_length, list_filter_filter.
  rewrite (filter_length_split
    (fun n => nd_id n ∈ acks /\ nd_replica_role n = Voter)
    (fun n => (nd_id n ∈ acks /\ nd_replica_role n = Witness) /\ ignore = false)
    (fun n => in_quorum ignore n = true /\ nd_id n ∈ acks)).
  2: { intros n _. unfold in_quorum. destruct (nd_replica_role n), ignore; naive_solver. }
  2: { naive_solver congruence. }
  f_equal. destruct ignore.
  - rewrite filter_nil. symmetry. apply length_zero_iff_nil, filter_nil_Forall.
    apply Forall_forall. naive_solver.
  - rewrite filter_fmap_length, list_filter_filter. apply filter_length_iff. naive_solver.
Qed.

Lemma membership_quorum_size (c : RaftCluster) ignore :
  quorum_size_with_witness_policy (membership c) ignore
  = matrixraft_quorum_size (count_role Voter (bt_values (rc_nodes c)))
      (count_role Witness (bt_values (rc_nodes c))) ignore.
Proof.
  unfold quorum_size_with_witness_policy, membership, count_role. cbn. by rewrite !length_fmap.
Qed.

(** ** Node-wise relations

    [node_wise R c c'] says that every node of [c'] comes from the node of [c]
    with the same key by [R]; a preorder [R] on nodes lifts to the group. *)

Section node_wise.
Context (R : relation Node) `{!PreOrder R}.

Definition node_wise (c c' : RaftCluster) : Prop :=
  forall k n', rc_nodes c' !! k = Some n' -> exists n, rc_nodes c !! k = Some n /\ R n n'.

#[export] Instance node_wise_preorder : PreOrder node_wise.
Proof.
  split.
  - intros c k n Hn. exists n. split; [done|reflexivity].
  - intros c1 c2 c3 H1 H2 k n3 H3. destruct (H2 k n3 H3) as (n2 & Hn2 & Hs2).
    destruct (H1 k n2 Hn2) as (n1 & Hn1 & Hs1). exists n1. split; [done|by etrans].
Qed.

Lemma node_wise_eq c c' : rc_nodes c' = rc_nodes c -> node_wise c c'.
Proof. intros Hn k n. rewrite Hn. intros Hk. exists n. split; [done|reflexivity]. Qed.

Lemma node_wise_on_nodes f c : (forall n, R n (f n)) -> node_wise c (on_nodes f c).
Proof. intros Hf k n'. cbn. rewrite lookup_fmap. intros (n & Hn & ->)%fmap_Some. eauto. Qed.

Lemma node_wise_on_node id f c : (forall n, R n (f n)) -> node_wise c (on_node id f c).
Proof.
  intros Hf k n'. cbn. destruct (decide (k = id)) as [->|Hne].
  - rewrite lookup_alter_eq. intros (n & Hn & ->)%fmap_Some. eauto.
  - rewrite lookup_alter_ne by done. intros Hn. exists n'. split; [done|reflexivity].
Qed.
End node_wise.

(** ** Properties *)

(** The quorum check before it was rewritten to count in one pass: collect the
    acknowledgements, build the membership and ask it. *)
Definition lease_acknowledgements (c : RaftCluster) (leader_id : NodeId) : list NodeId :=
  leader_id :: omap (fun '(node_id, confirmation) =>
    node ← rc_nodes c !! node_id;
    if (llc_epoch confirmation =? rc_leader_lease_epoch c)%N
       && bool_decide (llc_role confirmation = nd_replica_role node)
       && (llc_elapsed_ms confirmation <? llc_duration_ms confirmation)%N
       && participates_in_quorum (nd_replica_role node)
       && negb (rc_ignore_witness c && bool_decide (nd_replica_role node = Witness))
    then Some node_id else None) (bt_entries (rc_leader_lease_confirmations c)).

Definition lease_quorum_as_it_was (c : RaftCluster) : bool :=
  match rc_leader_id c with
  | None => false
  | Some leader_id =>
      if negb (leader_may_hold_lease c leader_id) then false
      else quorum_reached_with_witness_policy (membership c)
             (lease_acknowledgements c leader_id) (rc_ignore_witness c)
  end.

Lemma elem_of_lease_acknowledgements c leader_id n :
  nodes_keyed c -> n ∈ bt_values (rc_nodes c) -> in_quorum (rc_ignore_witness c) n = true ->
  nd_id n ∈ lease_acknowledgements c leader_id
  <-> ((nd_id n =? leader_id)%N || lease_confirmed c n) = true.
Proof.
  intros Hk Hn Hq. apply elem_of_node_values in Hn; [|done].
  unfold lease_acknowledgements, lease_confirmed. rewrite elem_of_cons, orb_true_iff, N.eqb_eq.
  apply or_iff_compat_l. rewrite list_elem_of_omap. split.
  - intros ([k llc] & Hin & Hb). apply bind_Some in Hb as (n' & Hn' & Hb).
    destruct (_ && _) eqn:E; [|done]. injection Hb as ->. apply elem_of_bt_entries in Hin.
    rewrite Hn in Hn'. injection Hn' as <-. rewrite Hin. by do 2 apply andb_true_iff in E as [E _].
  - destruct (rc_leader_lease_confirmations c !! nd_id n) as [llc|] eqn:El; [|done].
    intros E. exists (nd_id n, llc). split; [by apply elem_of_bt_entries|].
    apply bind_Some. exists n. split; [done|]. rewrite E. unfold in_quorum in Hq.
    by destruct (nd_replica_role n), (rc_ignore_witness c).
Qed.

(** the allocation-free lease quorum check decides what the version over
    the membership decided: on a group whose nodes are stored under their ids
    and whose lease was not declared expired, the one-pass count equals
    collecting the acknowledgements and asking the membership for a quorum. *)
Theorem lease_quorum_rewrite_equivalent c :
  nodes_keyed c -> rc_leader_lease_expired c = false ->
  leader_lease_quorum_reached c = lease_quorum_as_it_was c.
Proof.
  intros Hk He. unfold leader_lease_quorum_reached, lease_quorum_as_it_was. rewrite He.
  destruct (rc_leader_id c) as [leader_id|]; [|done].
  destruct (leader_may_hold_lease c leader_id); [|done]. cbn [negb].
  unfold quorum_reached_with_witness_policy. rewrite membership_quorum_size, participants_count.
  f_equal. apply filter_length_iff. intros n Hn.
  pose proof (elem_of_lease_acknowledgements c leader_id n Hk Hn) as Hack.
  unfold counts_towards_lease_quorum. fold (in_quorum (rc_ignore_witness c) n).
  rewrite andb_true_iff. split; intros [Hq H]; (split; [done|]); by apply Hack.
Qed.

(** The liveness check of the tick path counts a quorum of the membership:
    a live quorum is exactly an election quorum of healthy nodes. *)
Theorem live_quorum_is_membership_quorum c :
  nodes_keyed c ->
  has_live_quorum c
  = quorum_reached_with_witness_policy (membership c)
      (nd_id <$> filter (fun n => nd_healthy n = true) (bt_values (rc_nodes c))) (rc_ignore_witness c).
Proof.
  intros Hk. unfold has_live_quorum, quorum_reached_with_witness_policy.
  rewrite membership_quorum_size, participants_count. f_equal. apply filter_length_iff. intros n Hn.
  assert (nd_id n ∈ nd_id <$> filter (fun n => nd_healthy n = true) (bt_values (rc_nodes c))
          <-> nd_healthy n = true) as ->.
  { rewrite list_elem_of_fmap. split.
    - intros (m & Hid & [Hh Hm]%list_elem_of_filter). apply elem_of_node_values in Hm, Hn; [|done|done].
      rewrite Hid in Hn. naive_solver.
    - intros Hh. exists n. split; [done|]. by apply list_elem_of_filter. }
  unfold in_quorum. destruct (nd_replica_role n), (nd_healthy n), (rc_ignore_witness c); cbn;
    repeat case_bool_decide; naive_solver.
Qed.

(** A running three-voter group with one witness, led by node 1. *)
Definition sample_peer (i : N) (role : ReplicaRole) : Peer := mkPeer i "" "" role false.
Definition sample_cluster : RaftCluster :=
  match cluster_new 7 Config_default [sample_peer 1 Voter; sample_peer 2 Voter;
                                      sample_peer 3 Voter; sample_peer 4 Witness] with
  | Ok c => c <| rc_leader_id := Some 1%N |> <| rc_current_term := 2%N |> <| rc_running := true |>
  | Err _ => mkRaftCluster 0 Config_default ∅ ∅ ∅ ∅ None 0 0 0 0 0 None ∅ None 0 false false false 0
               false 0 0 0 0 ∅ ∅ ∅ false false false None 0 0 0 None 0 ∅ ∅ 0
  end.

Lemma sample_cluster_keyed : nodes_keyed sample_cluster.
Proof. apply (bool_decide_unpack _). vm_compute. exact I. Qed.

Lemma lease_quorum_rewrite_equivalent_witness :
  leader_lease_quorum_reached sample_cluster = false
  /\ leader_lease_quorum_reached (snd (renew_leader_lease_from_live_quorum sample_cluster)) = true
  /\ leader_lease_quorum_reached sample_cluster = lease_quorum_as_it_was sample_cluster.
Proof.
  split; [vm_compute; reflexivity|]. split; [vm_compute; reflexivity|].
  exact (lease_quorum_rewrite_equivalent sample_cluster sample_cluster_keyed eq_refl).
Defined.

Lemma live_quorum_is_membership_quorum_witness :
  has_live_quorum sample_cluster = true
  /\ has_live_quorum sample_cluster
     = quorum_reached_with_witness_policy (membership sample_cluster)
         (nd_id <$> filter (fun n => nd_healthy n = true) (bt_values (rc_nodes sample_cluster)))
         (rc_ignore_witness sample_cluster).
Proof.
  split; [vm_compute; reflexivity|].
  exact (live_quorum_is_membership_quorum sample_cluster sample_cluster_keyed).
Defined.

(** *** The commit quorum *)

(** [i] is the highest index that at least [q] of the indexes reach. *)
Definition quorum_index (q : nat) (indexes : list N) (i : N) : Prop :=
  i ∈ indexes /\ (q <= holders i indexes)%nat
  /\ forall j, (q <= holders j indexes)%nat -> (j <= i)%N.

Lemma holders_perm i l1 l2 : l1 ≡ₚ l2 -> holders i l1 = holders i l2.
Proof. intros H. unfold holders. by rewrite H. Qed.

Lemma holders_antitone i j l : (i <= j)%N -> (holders j l <= holders i l)%nat.
Proof.
  intros Hij. unfold holders. induction l as [|x l IH]; [done|]. rewrite !filter_cons.
  repeat case_decide; cbn; lia.
Qed.

Lemma holders_bound i l : (holders i l <= length l)%nat.
Proof. apply length_filter. Qed.

Lemma N_le_sorted_lookup l i j x y :
  StronglySorted N.le l -> (i <= j)%nat -> l !! i = Some x -> l !! j = Some y -> (x <= y)%N.
Proof.
  intros Hs. revert i j. induction Hs as [|z l Hs IH Hall]; [done|].
  intros [|i] [|j] Hij Hx Hy; cbn in *; try lia; simplify_eq; [done|..].
  - by apply (Forall_lookup_1 _ _ _ _ Hall Hy).
  - by apply (IH i j); [lia|..].
Qed.

Lemma sorted_holders l k x j :
  StronglySorted N.le l -> l !! k = Some x ->
  (length l - k <= holders x l)%nat
  /\ ((x < j)%N -> (holders j l < length l - k)%nat).
Proof.
  intros Hs Hx. pose proof (lookup_lt_Some _ _ _ Hx) as Hk. split.
  - unfold holders. rewrite <- (take_drop k l) at 2. rewrite filter_app, length_app.
    rewrite (filter_id_Forall _ (drop k l)); [rewrite length_drop; lia|].
    apply Forall_lookup_2. intros i y Hy. rewrite lookup_drop in Hy.
    by apply (N_le_sorted_lookup l k (k + i)); [done|lia|..].
  - intros Hj. unfold holders. rewrite <- (take_drop (S k) l) at 1. rewrite filter_app, length_app.
    rewrite (filter_nil_Forall _ (take (S k) l)).
    + cbn. pose proof (length_filter (fun i => (j <= i)%N) (drop (S k) l)) as Hl.
      rewrite length_drop in Hl. lia.
    + apply Forall_lookup_2. intros i y Hy. apply lookup_take_Some in Hy as [Hy Hi].
      pose proof (N_le_sorted_lookup l i k y x Hs ltac:(lia) Hy Hx). lia.
Qed.

Lemma select_nth_quorum_index q l :
  (0 < q <= length l)%nat ->
  exists i, select_nth l (length l - q) = Some i /\ quorum_index q l i.
Proof.
  intros Hq. unfold select_nth.
  assert (merge_sort N.le l ≡ₚ l) as Hp by apply merge_sort_Permutation.
  assert (StronglySorted N.le (merge_sort N.le l)) as Hs
    by (apply Sorted_StronglySorted; [intros a b c; lia|apply Sorted_merge_sort; intros a b; lia]).
  pose proof (Permutation_length Hp) as Hlen.
  destruct (lookup_lt_is_Some_2 (merge_sort N.le l) (length l - q)) as [i Hi]; [lia|].
  exists i. split; [done|]. split_and!.
  - rewrite <- Hp. by eapply list_elem_of_lookup_2.
  - rewrite <- (holders_perm _ _ _ Hp). pose proof (proj1 (sorted_holders _ _ _ 0 Hs Hi)). lia.
  - intros j Hj. apply N.nlt_ge. intros Hlt. rewrite <- (holders_perm _ _ _ Hp) in Hj.
    pose proof (proj2 (sorted_holders _ _ _ j Hs Hi) Hlt). lia.
Qed.

(** What the counting loop has after a prefix: the highest candidate of the
    prefix that a quorum holds. *)
Lemma counting_fold q l pre :
  match foldl (counting_step q l) None pre with
  | Some b => b ∈ pre /\ (q <= holders b l)%nat
              /\ forall j, j ∈ pre -> (q <= holders j l)%nat -> (j <= b)%N
  | None => forall j, j ∈ pre -> (holders j l < q)%nat
  end.
Proof.
  induction pre as [|x pre IH] using rev_ind; [cbn; set_solver|].
  rewrite foldl_snoc. unfold counting_step at 1.
  destruct (foldl (counting_step q l) None pre) as [b|].
  - destruct IH as (Hb & Hq & Hmax). destruct (N.leb_spec x b) as [Hle|Hgt].
    + split_and!; [set_solver|done|]. intros j [Hj| ->%list_elem_of_singleton]%elem_of_app Hh; auto.
    + destruct (Nat.leb_spec q (holders x l)).
      * split_and!; [set_solver|done|]. intros j [Hj| ->%list_elem_of_singleton]%elem_of_app Hh; [|lia].
        specialize (Hmax j Hj Hh). lia.
      * split_and!; [set_solver|done|]. intros j [Hj| ->%list_elem_of_singleton]%elem_of_app Hh; [auto|lia].
  - destruct (Nat.leb_spec q (holders x l)).
    + split_and!; [set_solver|done|]. intros j [Hj| ->%list_elem_of_singleton]%elem_of_app Hh; [|lia].
      specialize (IH j Hj). lia.
    + intros j [Hj| ->%list_elem_of_singleton]%elem_of_app; [auto|lia].
Qed.

Lemma counting_quorum_index q l :
  (0 < q <= length l)%nat -> exists i, foldl (counting_step q l) None l = Some i /\ quorum_index q l i.
Proof.
  intros Hq. destruct (select_nth_quorum_index q l Hq) as (m & _ & Hm & Hmq & Hmax).
  pose proof (counting_fold q l l) as Hf. destruct (foldl (counting_step q l) None l) as [i|].
  - exists i. split; [done|]. destruct Hf as (Hi & Hiq & Himax). split_and!; [done|done|].
    intros j Hj. specialize (Hmax j Hj). specialize (Himax m Hm Hmq). lia.
  - specialize (Hf m Hm). lia.
Qed.

Lemma commit_quorum_size_eq c : commit_quorum_size c = (length (commit_quorum_nodes c) / 2 + 1)%nat.
Proof.
  unfold commit_quorum_size, commit_quorum_nodes. do 2 f_equal. apply filter_length_iff.
  intros n _. unfold counts_toward_commit_quorum.
  destruct (nd_replica_role n), (rc_ignore_witness c), (rc_count_witness_in_commit_quorum c);
    cbn; repeat case_bool_decide; naive_solver.
Qed.

(** the commit quorum index is the highest index a majority of the counted
    nodes holds. The stack-array selection for up to sixteen nodes and the
    counting loop for more agree with this definition: there is a result
    exactly when some node is counted; it is the match index of a counted node;
    at least a majority of the counted nodes reach it; and no higher index is
    reached by a majority. *)
Theorem commit_quorum_index_spec c :
  let indexes := match_index <$> commit_quorum_nodes c in
  match commit_quorum_match_index c with
  | Some i => quorum_index (length indexes / 2 + 1) indexes i
  | None => indexes = []
  end
  /\ commit_quorum_match_index_by_counting c (commit_quorum_size c) = commit_quorum_match_index c.
Proof.
  cbv zeta. unfold commit_quorum_match_index, commit_quorum_match_index_by_counting.
  rewrite commit_quorum_size_eq. rewrite <- (length_fmap match_index (commit_quorum_nodes c)).
  set (l := match_index <$> commit_quorum_nodes c). set (q := (length l / 2 + 1)%nat).
  destruct (decide (length l = 0)%nat) as [H0|H0].
  { apply length_zero_iff_nil in H0. unfold q. by rewrite H0. }
  assert (0 < q <= length l)%nat as Hq.
  { unfold q. pose proof (Nat.div_mod_eq (length l) 2). pose proof (Nat.mod_upper_bound (length l) 2). lia. }
  destruct (select_nth_quorum_index q l Hq) as (i & -> & Hi).
  destruct (counting_quorum_index q l Hq) as (j & -> & Hj).
  rewrite (proj2 (Nat.ltb_ge _ q)) by lia.
  assert (j = i) as -> by (destruct Hi as (_ & Hi & Hi'), Hj as (_ & Hj & Hj');
    specialize (Hi' j Hj); specialize (Hj' i Hi); lia).
  by destruct (_ <? _)%nat.
Qed.

(** *** Commit advancement *)

Lemma max_or_default_elem x l : x ∈ l -> (x <= max_or_default l)%N.
Proof. induction l as [|y l IH]; [set_solver|]. rewrite elem_of_cons. cbn. intros [->|?]; [lia|]. specialize (IH ltac:(done)). unfold max_or_default in IH. lia. Qed.

Lemma refresh_cluster_indexes_nodes c : rc_nodes (refresh_cluster_indexes c) = rc_nodes c.
Proof. done. Qed.

(** The state change of [refresh_commit_index]: nothing, or every healthy node
    advances to the larger of the known and the quorum commit index. *)
Lemma refresh_commit_index_cases c :
  refresh_commit_index c = c
  \/ exists i leader_id leader,
       commit_quorum_match_index c = Some i /\ rc_leader_id c = Some leader_id
       /\ rc_nodes c !! leader_id = Some leader
       /\ log_term_at leader i = Some (rc_current_term c)
       /\ rc_nodes (refresh_commit_index c)
          = (fun node => if nd_healthy node then advance_commit (N.max (rc_commit_index c) i) node else node)
            <$> rc_nodes c.
Proof.
  unfold refresh_commit_index. destruct (commit_quorum_match_index c) as [i|]; [|by left].
  destruct (rc_leader_id c) as [leader_id|] eqn:El; [|by left].
  destruct (rc_nodes c !! leader_id) as [leader|] eqn:En; [|by left].
  case_bool_decide as Ht; [|by left]. right. exists i, leader_id, leader. done.
Qed.

(** The counted nodes that hold index [i], by id. *)
Definition commit_quorum_holders (i : LogIndex) (c : RaftCluster) : list NodeId :=
  nd_id <$> filter (fun n => (i <= match_index n)%N) (commit_quorum_nodes c).

(** C3: the commit point only moves to safe indexes. After a refresh every node
    has the log it had, a commit index that did not go back, and a commit index
    that is its old one, the group's known commit index, or an index at or below
    one that a majority of the counted nodes holds and at which the leader's
    entry is of the current term. *)
Theorem commit_advances_only_on_current_term_quorum c node_id node :
  rc_nodes c !! node_id = Some node ->
  exists node', rc_nodes (refresh_commit_index c) !! node_id = Some node'
    /\ nd_log node' = nd_log node
    /\ (nd_commit_index node <= nd_commit_index node')%N
    /\ ((nd_commit_index node' <= N.max (nd_commit_index node) (rc_commit_index c))%N
        \/ exists i leader_id leader,
             (nd_commit_index node' <= i)%N
             /\ (length (commit_quorum_nodes c) / 2 < length (commit_quorum_holders i c))%nat
             /\ rc_leader_id c = Some leader_id /\ rc_nodes c !! leader_id = Some leader
             /\ log_term_at leader i = Some (rc_current_term c)).
Proof.
  intros Hn. destruct (refresh_commit_index_cases c) as [->|(i & lid & leader & Hi & Hl & Hlead & Ht & Hnodes)].
  { exists node. split_and!; [done|done|lia|left; lia]. }
  rewrite Hnodes, lookup_fmap, Hn. eexists. split; [reflexivity|].
  destruct (nd_healthy node); [|split_and!; [done|lia|left; lia]].
  destruct (advance_commit_cursors (N.max (rc_commit_index c) i) node) as (Hc & _).
  rewrite advance_commit_log, Hc. split_and!; [done|lia|].
  destruct (decide (i <= rc_commit_index c)%N); [left; lia|].
  destruct (decide (N.max (nd_commit_index node) (N.min (N.max (rc_commit_index c) i) (match_index node))
                    <= N.max (nd_commit_index node) (rc_commit_index c))%N); [by left|].
  right. exists i, lid, leader. split_and!; [lia| |done|done|done].
  pose proof (proj1 (commit_quorum_index_spec c)) as Hspec. rewrite Hi in Hspec.
  destruct Hspec as (_ & Hq & _). rewrite length_fmap in Hq. unfold holders in Hq.
  rewrite filter_fmap_length in Hq. unfold commit_quorum_holders. rewrite length_fmap. lia.
Qed.

(** The group after the leader and node 2 stored an entry of the current term. *)
Definition sample_replicated : RaftCluster :=
  let e := mkLogEntry (mkLogId 2 1) [] true in
  on_node 2 (append_entry e) (on_node 1 (append_entry e) sample_cluster).

Lemma commit_advances_only_on_current_term_quorum_witness :
  rc_commit_index (refresh_commit_index sample_replicated) = 1%N
  /\ exists node', rc_nodes (refresh_commit_index sample_replicated) !! 1%N = Some node'
       /\ nd_log node' = [mkLogEntry (mkLogId 2 1) [] true].
Proof.
  split; [vm_compute; reflexivity|].
  destruct (rc_nodes sample_replicated !! 1%N) as [node|] eqn:En; [|vm_compute in En; discriminate En].
  destruct (commit_advances_only_on_current_term_quorum sample_replicated 1 node En)
    as (node' & H1 & H2 & _).
  exists node'. split; [exact H1|]. rewrite H2. vm_compute in En. injection En as <-. reflexivity.
Defined.

(** *** Leases *)

Inductive LeaseOp : Type :=
| LTick (elapsed_ms : N)
| LConfirm (node_id : NodeId) (confirmation_epoch duration_ms : N).

Definition run_lease_op (op : LeaseOp) (c : RaftCluster) : RaftCluster :=
  match op with
  | LTick ms => snd (tick_leader_lease ms c)
  | LConfirm n e d => snd (receive_leader_lease_confirmation_with_duration n e d c)
  end.

Definition run_lease (ops : list LeaseOp) (c : RaftCluster) : RaftCluster :=
  foldl (fun c op => run_lease_op op c) c ops.

(** The time that passes in a sequence of lease operations. *)
Definition lease_time (ops : list LeaseOp) : N :=
  sum_N ((fun op => match op with LTick ms => ms | LConfirm _ _ _ => 0%N end) <$> ops).

(** A valid lease is younger than the configured duration. *)
Definition lease_young (c : RaftCluster) : Prop :=
  rc_leader_lease_valid c = true -> (rc_leader_lease_elapsed_ms c < leader_lease_ms (rc_config c))%N.

(** Commit refreshes leave the lease state alone, and the nodes they touch keep
    their identity, role and health. *)
Lemma advance_commit_identity i n :
  nd_id (advance_commit i n) = nd_id n /\ nd_replica_role (advance_commit i n) = nd_replica_role n
  /\ nd_healthy (advance_commit i n) = nd_healthy n.
Proof. unfold advance_commit. cbn. repeat (case_match; try done). Qed.

Definition same_identity (n n' : Node) : Prop :=
  nd_id n' = nd_id n /\ nd_replica_role n' = nd_replica_role n /\ nd_healthy n' = nd_healthy n.

Definition lease_view (c : RaftCluster) :=
  (rc_config c, rc_leader_id c, rc_leader_lease_valid c, rc_leader_lease_expired c,
   rc_leader_lease_elapsed_ms c, rc_leader_lease_epoch c, rc_leader_lease_confirmations c,
   rc_leader_lease_confirmation_epochs c, rc_ignore_witness c).

Lemma refresh_commit_index_lease c :
  lease_view (refresh_commit_index c) = lease_view c
  /\ (forall k, rc_nodes (refresh_commit_index c) !! k = None <-> rc_nodes c !! k = None)
  /\ (forall k n, rc_nodes c !! k = Some n ->
        exists n', rc_nodes (refresh_commit_index c) !! k = Some n' /\ same_identity n n').
Proof.
  split; [|split].
  - unfold refresh_commit_index. repeat (case_match; try done).
  - intros k. destruct (refresh_commit_index_cases c) as [->|(i & l & n & _ & _ & _ & _ & ->)]; [done|].
    rewrite lookup_fmap. by destruct (rc_nodes c !! k).
  - intros k n Hn. destruct (refresh_commit_index_cases c) as [->|(i & l & m & _ & _ & _ & _ & ->)].
    + exists n. by split.
    + rewrite lookup_fmap, Hn. eexists. split; [reflexivity|].
      destruct (nd_healthy n) eqn:Eh; [exact (advance_commit_identity _ n)|done].
Qed.

Lemma policy_lease c : lease_view (snd (refresh_witness_commit_quorum_policy c)) = lease_view c.
Proof.
  unfold refresh_witness_commit_quorum_policy. cbn [snd]. destruct (negb _); [|done].
  etrans; [apply (proj1 (refresh_commit_index_lease _))|done].
Qed.

Lemma policy_lease_fields c :
  rc_config (snd (refresh_witness_commit_quorum_policy c)) = rc_config c
  /\ rc_leader_lease_valid (snd (refresh_witness_commit_quorum_policy c)) = rc_leader_lease_valid c
  /\ rc_leader_lease_elapsed_ms (snd (refresh_witness_commit_quorum_policy c))
     = rc_leader_lease_elapsed_ms c.
Proof.
  pose proof (policy_lease c) as Hp. unfold lease_view in Hp.
  generalize dependent (snd (refresh_witness_commit_quorum_policy c)). intros c' Hp. by simplify_eq.
Qed.

Lemma leader_lease_elapsed_cuts_quorum c :
  (leader_lease_ms (rc_config c) <= rc_leader_lease_elapsed_ms c)%N ->
  leader_lease_quorum_reached c = false.
Proof.
  intros H. unfold leader_lease_quorum_reached. destruct (rc_leader_lease_expired c); [done|].
  destruct (rc_leader_id c) as [l|]; [|done]. unfold leader_may_hold_lease.
  destruct (rc_nodes c !! l); [|done]. by rewrite (proj2 (N.ltb_ge _ _) H), andb_false_r.
Qed.

Lemma confirmation_keeps_clock n e d r c :
  rc_config (snd (receive_leader_lease_confirmation_inner n e d r c)) = rc_config c
  /\ rc_leader_lease_elapsed_ms (snd (receive_leader_lease_confirmation_inner n e d r c))
     = rc_leader_lease_elapsed_ms c.
Proof.
  unfold receive_leader_lease_confirmation_inner. cbn zeta.
  repeat (case_match; try done).
Qed.

(** A confirmation either is refused and changes nothing, or, with the quorum
    recomputed, leaves the flag equal to the quorum check. *)
Lemma confirmation_flag n e d c :
  let '(r, c') := receive_leader_lease_confirmation_inner n e d true c in
  (r = false /\ c' = c)
  \/ (r = true /\ exists c0, c' = c0 <| rc_leader_lease_valid := leader_lease_quorum_reached c0 |>).
Proof.
  unfold receive_leader_lease_confirmation_inner. cbn zeta.
  destruct (bool_decide _); [by left|]. destruct (_ =? _)%N; [by left|].
  destruct (rc_nodes c !! n); [|by left]. destruct (_ || _); [by left|].
  destruct (_ <=? _)%N; [by left|].
  destruct (rc_leader_lease_confirmations _ !! n) as [existing|]; [destruct (_ && _)|];
    right; (split; [reflexivity|]); eexists; reflexivity.
Qed.

Lemma quorum_ignores_flag v c :
  leader_lease_quorum_reached (c <| rc_leader_lease_valid := v |>) = leader_lease_quorum_reached c.
Proof. done. Qed.

Lemma run_lease_op_clock op c :
  enable_lease_read (rc_config c) = true ->
  rc_config (run_lease_op op c) = rc_config c
  /\ rc_leader_lease_elapsed_ms (run_lease_op op c)
     = match op with LTick ms => rc_leader_lease_elapsed_ms c +s ms
       | LConfirm _ _ _ => rc_leader_lease_elapsed_ms c end.
Proof.
  intros He. destruct op as [ms|n e d]; cbn [run_lease_op].
  - unfold tick_leader_lease. rewrite He. cbn [negb snd].
    match goal with |- context [refresh_witness_commit_quorum_policy ?x] =>
      destruct (policy_lease_fields x) as (-> & _ & ->) end. done.
  - apply confirmation_keeps_clock.
Qed.

Lemma quorum_young c : leader_lease_quorum_reached c = true ->
  (rc_leader_lease_elapsed_ms c < leader_lease_ms (rc_config c))%N.
Proof.
  intros Hq. apply N.nle_gt. intros Hle. by rewrite leader_lease_elapsed_cuts_quorum in Hq.
Qed.

Lemma run_lease_op_young op c :
  enable_lease_read (rc_config c) = true -> lease_young c -> lease_young (run_lease_op op c).
Proof.
  intros He Hy. destruct op as [ms|n e d]; cbn [run_lease_op].
  - unfold tick_leader_lease. rewrite He. cbn [negb snd].
    set (c1 := c <| rc_leader_lease_elapsed_ms ::= (fun e => e +s ms) |>
                 <| rc_leader_lease_confirmations ::=
                      fmap (fun llc => llc <| llc_elapsed_ms ::= (fun e => e +s ms) |>) |>).
    destruct (policy_lease_fields (c1 <| rc_leader_lease_valid := leader_lease_quorum_reached c1 |>))
      as (E1 & E2 & E3).
    unfold lease_young. rewrite E1, E2, E3. exact (quorum_young c1).
  - unfold receive_leader_lease_confirmation_with_duration.
    pose proof (confirmation_flag n e d c) as Hf.
    destruct (receive_leader_lease_confirmation_inner n e d true c) as [r c'].
    destruct Hf as [[_ ->]|[_ [c0 ->]]]; [done|]. exact (quorum_young c0).
Qed.

Lemma run_lease_clock ops c :
  enable_lease_read (rc_config c) = true -> lease_young c ->
  lease_young (run_lease ops c)
  /\ rc_config (run_lease ops c) = rc_config c
  /\ (N.min u64_max (rc_leader_lease_elapsed_ms c + lease_time ops)
      <= N.max (rc_leader_lease_elapsed_ms c) (rc_leader_lease_elapsed_ms (run_lease ops c)))%N
  /\ (rc_leader_lease_elapsed_ms c <= u64_max ->
      rc_leader_lease_elapsed_ms c <= rc_leader_lease_elapsed_ms (run_lease ops c))%N.
Proof.
  revert c. induction ops as [|op ops IH]; intros c He Hy.
  { cbn. split_and!; try done; lia. }
  destruct (run_lease_op_clock op c He) as [Hc Ht].
  destruct (IH (run_lease_op op c)) as (H1 & H2 & H3 & H4);
    [by rewrite Hc|by apply run_lease_op_young|].
  cbn [run_lease foldl]. fold (run_lease ops (run_lease_op op c)).
  split_and!; [done|congruence|..]; unfold lease_time in *; rewrite ?fmap_cons, ?sum_N_cons;
    destruct op as [ms|]; rewrite Ht in *; unfold saturating_add in *; lia.
Qed.

(** a leader lease never outlives its probe. Once a renewal round began,
    whatever confirmations arrive in whatever order, from the moment the ticks
    add up to the configured lease duration the lease is not valid. *)
Theorem leader_lease_bounded_by_probe c leader_id ops :
  enable_lease_read (rc_config c) = true -> rc_leader_id c = Some leader_id ->
  (0 < leader_lease_ms (rc_config c) <= u64_max)%N ->
  (leader_lease_ms (rc_config c) <= lease_time ops)%N ->
  rc_leader_lease_valid (run_lease ops (snd (begin_leader_lease_renewal c))) = false.
Proof.
  intros He Hl Hms Ht. unfold begin_leader_lease_renewal. rewrite Hl. cbn [snd].
  set (c0 := c <| rc_leader_lease_epoch ::= (fun e => e +s 1) |>
               <| rc_leader_lease_expired := false |> <| rc_leader_lease_elapsed_ms := 0%N |>).
  destruct (run_lease_clock ops c0) as (Hy & Hc & Hclock & _); [done|intros _; cbn; lia|].
  destruct (rc_leader_lease_valid (run_lease ops c0)) eqn:Ev; [|done]. specialize (Hy Ev).
  rewrite Hc in Hy. cbn in *. lia.
Qed.

Lemma leader_lease_bounded_by_probe_witness :
  rc_leader_lease_valid (run_lease [LTick 100; LConfirm 2 1 500; LConfirm 3 1 500]
    (snd (begin_leader_lease_renewal sample_cluster))) = true
  /\ rc_leader_lease_valid (run_lease [LTick 100; LConfirm 2 1 500; LConfirm 3 1 500; LTick 400]
       (snd (begin_leader_lease_renewal sample_cluster))) = false.
Proof.
  split; [vm_compute; reflexivity|].
  apply (leader_lease_bounded_by_probe sample_cluster 1); try reflexivity; vm_compute;
    try discriminate. split; [reflexivity|discriminate].
Defined.

(** A lease confirmation is counted once. A confirmation whose epoch is not
    above the last one seen from the node changes nothing and is reported as
    refused; an accepted one raises the node's epoch to its own, so replaying it
    is refused, also after the lease was invalidated, expired or re-probed. *)
Theorem lease_confirmation_not_replayable node_id epoch duration_ms c :
  let '(accepted, c') := receive_leader_lease_confirmation_with_duration node_id epoch duration_ms c in
  (accepted = false -> c' = c)
  /\ (accepted = true ->
      (default 0 (rc_leader_lease_confirmation_epochs c !! node_id) < epoch)%N
      /\ forall later, later = c' \/ later = invalidate_leader_lease c' \/ later = expire_leader_lease c'
                        \/ later = reset_leader_lease_epoch c'
                        \/ later = snd (begin_leader_lease_renewal c') ->
          receive_leader_lease_confirmation_with_duration node_id epoch duration_ms later = (false, later)).
Proof.
  unfold receive_leader_lease_confirmation_with_duration.
  assert (forall later, rc_leader_lease_confirmation_epochs later !! node_id = Some epoch ->
    receive_leader_lease_confirmation_inner node_id epoch duration_ms true later = (false, later)) as Hreplay.
  { intros later Hl. unfold receive_leader_lease_confirmation_inner. cbn zeta.
    destruct (bool_decide _); [done|]. destruct (_ =? _)%N; [done|].
    destruct (rc_nodes later !! node_id); [|done]. destruct (_ || _); [done|].
    by rewrite Hl, (proj2 (N.leb_le _ _) (N.le_refl _)). }
  destruct (receive_leader_lease_confirmation_inner node_id epoch duration_ms true c) as [acc c'] eqn:E.
  pose proof (confirmation_flag node_id epoch duration_ms c) as Hf. rewrite E in Hf.
  split; [intros ->; by destruct Hf as [[_ ?]|[? _]]|]. intros ->.
  assert (rc_leader_lease_confirmation_epochs c' !! node_id = Some epoch
    /\ (default 0 (rc_leader_lease_confirmation_epochs c !! node_id) < epoch)%N) as [Hep Hlt].
  { clear Hf Hreplay. unfold receive_leader_lease_confirmation_inner in E. cbn zeta in E.
    destruct (bool_decide _); [done|]. destruct (_ =? _)%N; [done|].
    destruct (rc_nodes c !! node_id); [|done]. destruct (_ || _); [done|].
    destruct (N.leb_spec epoch (default 0%N (rc_leader_lease_confirmation_epochs c !! node_id))) as [|Hlt];
      [done|]. split; [|done].
    repeat (case_match; simplify_eq); cbn; by rewrite lookup_insert_eq. }
  split; [done|]. intros later Hlater. apply Hreplay.
  destruct Hlater as [->|[->|[->|[->| ->]]]]; try exact Hep.
  unfold begin_leader_lease_renewal. by destruct (rc_leader_id c').
Qed.

(** *** One membership change at a time *)

(** A change is in flight at an index: in the log and not applied, or being
    saved and not durable. *)
Definition change_in_flight (i : LogIndex) (c : RaftCluster) : Prop :=
  (rc_pending_membership_change_index c = Some i /\ (rc_applied_index c < i)%N)
  \/ (rc_saving_membership_change_index c = Some i /\ (rc_stabled_membership_change_index c < i)%N).

Lemma fence_active_iff c :
  membership_change_fence_active c = true <-> exists i, change_in_flight i c.
Proof.
  unfold membership_change_fence_active, change_in_flight, some_above.
  rewrite orb_true_iff. split.
  - destruct (rc_pending_membership_change_index c) as [p|], (rc_saving_membership_change_index c) as [s|];
      rewrite ?N.ltb_lt; naive_solver.
  - intros [i [[-> H]|[-> H]]]; rewrite (proj2 (N.ltb_lt _ _) H); naive_solver.
Qed.

(** At most one membership change is in flight. Announcing a change
    succeeds exactly when the index is nonzero and no change is in flight, and
    then that index is the pending one; starting to save a change succeeds
    exactly when the index is nonzero, no save is in flight and any pending
    change is this one; a refusal leaves the group as it was. *)
Theorem membership_change_single_flight i c :
  let '(r, c') := begin_pending_membership_change i c in
  let '(rs, cs) := begin_saving_membership_change i c in
  (is_ok r = true <-> i <> 0%N /\ ~ exists j, change_in_flight j c)
  /\ (is_ok rs = true <->
        i <> 0%N
        /\ (forall j, rc_saving_membership_change_index c = Some j ->
                      (j <= rc_stabled_membership_change_index c)%N)
        /\ (forall j, rc_pending_membership_change_index c = Some j ->
                      (rc_applied_index c < j)%N -> j = i))
  /\ (if is_ok r then rc_pending_membership_change_index c' = Some i else c' = c)
  /\ (if is_ok rs then rc_pending_membership_change_index cs = Some i
                       /\ rc_saving_membership_change_index cs = Some i else cs = c).
Proof.
  destruct (begin_pending_membership_change i c) as [r c'] eqn:E1.
  destruct (begin_saving_membership_change i c) as [rs cs] eqn:E2.
  rewrite <- fence_active_iff. revert E1 E2.
  unfold begin_pending_membership_change, begin_saving_membership_change, refuse_saving,
    membership_change_fence_active, some_above.
  destruct (N.eqb_spec i 0) as [->|Hi]; [intros [= <- <-] [= <- <-]; cbn; split_and!; naive_solver|].
  destruct (rc_saving_membership_change_index c) as [s|] eqn:Es;
    [destruct (N.ltb_spec (rc_stabled_membership_change_index c) s) as [Hs|Hs]|];
    (destruct (rc_pending_membership_change_index c) as [p|] eqn:Ep;
     [destruct (N.ltb_spec (rc_applied_index c) p) as [Hp|Hp]; destruct (N.eqb_spec p i) as [->|Hpi]|]);
    cbn; intros [= <- <-] [= <- <-]; cbn; split_and!; try done; split; intros; destruct_and?; split_and?;
    try done; try (intros ? [= <-]); intros; try lia; first
    [ match goal with H : forall j, Some _ = Some j -> (j <= _)%N |- _ =>
        pose proof (H _ eq_refl); lia end
    | naive_solver lia ].
Qed.

(** *** The apply fence *)

Lemma first_command_spec commit l :
  log_ordered l ->
  match first_command commit l with
  | Some i => (exists e, e ∈ l /\ entry_index e = i /\ is_command e = true) /\ (i <= commit)%N
              /\ forall e, e ∈ l -> is_command e = true -> (entry_index e < i)%N -> False
  | None => forall e, e ∈ l -> is_command e = true -> (commit < entry_index e)%N
  end.
Proof.
  induction 1 as [|e l Hs IH Hall]; cbn; [set_solver|].
  destruct (N.ltb_spec commit (entry_index e)) as [Hgt|Hle].
  { intros x [->|Hx]%elem_of_cons _; [done|].
    apply list_elem_of_lookup in Hx as [j Hj].
    pose proof (Forall_lookup_1 _ _ _ _ Hall Hj) as Hlt. unfold index_lt in Hlt. lia. }
  destruct (is_command e) eqn:Ec.
  - split_and!; [exists e; set_solver|done|]. intros x [->|Hx]%elem_of_cons _ Hlt; [lia|].
    apply list_elem_of_lookup in Hx as [j Hj].
    pose proof (Forall_lookup_1 _ _ _ _ Hall Hj) as Hlt'. unfold index_lt in Hlt'. lia.
  - destruct (first_command commit l) as [i|].
    + destruct IH as ((x & Hx & Hxi) & Hi & Hno). split_and!; [set_solver|done|].
      intros y [->|Hy]%elem_of_cons Hc Hlt; [congruence|eauto].
    + intros y [->|Hy]%elem_of_cons Hc; [congruence|eauto].
Qed.

(** the apply fence protects commands from being replayed. On an ordered
    log the eligible index is at most the commit index; every committed command
    entry at or below it is covered by the durable commit index; and when
    something is held back, it is the first command entry above the durable
    index and the eligible index stops right below it. *)
Theorem apply_fence_protects_commands node_id durable c node r :
  rc_nodes c !! node_id = Some node -> log_ordered (nd_log node) -> (durable < u64_max)%N ->
  apply_eligible_through node_id durable c = Ok r ->
  (eligible_through r <= nd_commit_index node)%N
  /\ (forall e, e ∈ nd_log node -> is_command e = true ->
        (entry_index e <= eligible_through r)%N -> (entry_index e <= durable)%N)
  /\ (forall i, held_back_at r = Some i ->
        (durable < i <= nd_commit_index node)%N /\ eligible_through r = (i - 1)%N
        /\ exists e, e ∈ nd_log node /\ entry_index e = i /\ is_command e = true).
Proof.
  intros Hn Hs Hd. unfold apply_eligible_through, get_node. rewrite Hn. cbn. intros [= <-]. cbn.
  rewrite saturating_add_small by lia.
  destruct (N.ltb_spec durable (nd_commit_index node)) as [Hlt|Hge].
  2: { split_and!; [lia| |done]. intros e He _ Hle. lia. }
  pose proof (log_position_at_or_after_spec node (durable + 1) Hs) as Hp.
  destruct (log_position_at_or_after node (durable + 1)) as [p|].
  2: { split_and!; [lia| |done]. intros e [j Hj]%list_elem_of_lookup _ _.
       pose proof (Forall_lookup_1 _ _ _ _ Hp Hj). cbn in *. lia. }
  destruct Hp as (_ & Hlow & Hhigh).
  pose proof (first_command_spec (nd_commit_index node) _ (log_ordered_drop p _ Hs)) as Hf.
  assert (forall e, e ∈ nd_log node -> e ∈ drop p (nd_log node) \/ (entry_index e <= durable)%N) as Hcase.
  { intros e He. rewrite <- (take_drop p (nd_log node)) in He. apply elem_of_app in He as [He|He]; [right|by left].
    apply list_elem_of_lookup in He as [j Hj]. pose proof (Forall_lookup_1 _ _ _ _ Hlow Hj). cbn in *. lia. }
  destruct (first_command _ _) as [i|].
  - destruct Hf as ((e & He & Hei & Hec) & Hi & Hno). unfold saturating_sub.
    pose proof He as [j Hj]%list_elem_of_lookup. pose proof (Forall_lookup_1 _ _ _ _ Hhigh Hj) as Hge. cbn in Hge.
    split_and!; [lia| |].
    + intros x Hx Hxc Hle. destruct (Hcase x Hx) as [Hx'|?]; [|done].
      exfalso. apply (Hno x Hx' Hxc). lia.
    + intros i' [= <-]. split_and!; [lia|lia|done|]. exists e. split; [|done].
      rewrite <- (take_drop p (nd_log node)). set_solver.
  - split_and!; [lia| |done]. intros x Hx Hxc Hle. destruct (Hcase x Hx) as [Hx'|?]; [|done].
    specialize (Hf x Hx' Hxc). lia.
Qed.

Definition sample_with_command : RaftCluster :=
  refresh_commit_index sample_replicated.

Lemma apply_fence_protects_commands_witness :
  apply_eligible_through 1 0 sample_with_command = Ok (mkApplyEligibility 0 (Some 1%N) 1 0)
  /\ (0 <= 1)%N.
Proof.
  assert (apply_eligible_through 1 0 sample_with_command = Ok (mkApplyEligibility 0 (Some 1%N) 1 0)) as Hr
    by (vm_compute; reflexivity).
  split; [exact Hr|].
  destruct (rc_nodes sample_with_command !! 1%N) as [node|] eqn:En; [|vm_compute in En; discriminate En].
  assert (log_ordered (nd_log node)) as Hs by (vm_compute in En; injection En as <-; repeat constructor).
  assert (0 < u64_max)%N as Hd by reflexivity.
  destruct (apply_fence_protects_commands 1 0 sample_with_command node _ En Hs Hd Hr) as (H & _).
  assert (nd_commit_index node = 1%N) as Hc by (vm_compute in En; injection En as <-; reflexivity).
  rewrite Hc in H. exact H.
Defined.
