(* ===== verification/Election.v ===== *)
(** * Campaigns and votes

    Models the election part of [RaftCluster] in [src/facade/cluster_runtime.rs]:
    the pre-vote and vote answers ([pre_vote], [vote_to] with the observation of
    the candidate), taking office ([campaign], [timeout_now]) and the no-op entry
    a new leader appends. [vote_to] is cut at its three phases: the answer to a
    pre-vote, the adoption of a higher term, and the decision on the vote itself.

    The theorems: a node grants at most one vote per term, over any interleaving
    of vote requests, campaigns and timeout-now messages; a vote is granted only
    to a healthy voter of the group whose log is at least as up to date; terms
    never decrease and no node is ahead of the group; a campaign installs
    exactly one leader in a fresh term, and a refused one changes nothing. *)

From stdpp Require Import base strings pretty numbers gmap fin_maps sets list.
From S2P Require Import Prelude Types Slice Membership Node Config Pipeline Cluster.

(** ** Taking office *)

(** The role a node takes when [candidate_id] holds [office]. *)
Definition elected_role (candidate_id : NodeId) (office : StateRole) (node : Node) : StateRole :=
  if (nd_id node =? candidate_id)%N then office else passive_role node.

(** The loop that moves every node to the term with its vote on the candidate. *)
Definition record_election (candidate_id : NodeId) (office : StateRole) (c : RaftCluster) : RaftCluster :=
  let term := rc_current_term c in
  on_nodes (fun node =>
    node <| nd_hard_state ::= (fun h => h <| hs_current_term := term |>
                                          <| hs_voted_for := Some candidate_id |>) |>
         <| nd_raft_role := elected_role candidate_id office node |>) c.

(** [b"no-op".to_vec()]. *)
Definition noop_payload : Payload := [Byte.x6e; Byte.x6f; Byte.x2d; Byte.x6f; Byte.x70].

(** The loop body of [broadcast_leader_noop] for one node. *)
Definition append_noop (leader_id : NodeId) (entry : LogEntry) (node : Node) : Node :=
  if (nd_id node =? leader_id)%N then append_entry entry node
  else if nd_healthy node && (match_index node +s 1 =? entry_index entry)%N then
    if can_serve_data (nd_replica_role node) then append_entry entry node
    else if bool_decide (nd_replica_role node = Witness) then append_witness_entry entry false node
    else node
  else node.

Definition broadcast_leader_noop : Cluster LogId := fun c =>
  match rc_leader_id c with
  | None => (Err NoLeader, c)
  | Some leader_id =>
      match next_log_index c with
      | Err e => (Err e, c)
      | Ok index =>
          let log_id := mkLogId (rc_current_term c) index in
          let entry := mkLogEntry log_id noop_payload false in
          let c := c <| rc_last_log_index := index |> in
          let c := on_nodes (append_noop leader_id entry) c in
          (Ok log_id, refresh_cluster_indexes c)
      end
  end.

(** A new leader settles the transfer in progress: it completes when the new
    leader is the transferee and is aborted otherwise. *)
Definition settle_leader_transfer (new_leader : NodeId) (c : RaftCluster) : RaftCluster :=
  match active_leader_transfer c with
  | None => c
  | Some transfer =>
      if (lt_transferee_id transfer =? new_leader)%N
      then snd (complete_leader_transfer "transferee_became_leader" c)
      else snd (abort_leader_transfer "leader_changed_before_transfer_complete" c)
  end.

(** The guards of [campaign], in order; [None] lets the campaign go on. *)
Definition campaign_refusal (candidate_id : NodeId) (forced : bool) (c : RaftCluster) : option RaftError :=
  if negb (rc_running c) && negb forced then
    Some (InvalidRequest "cannot campaign before cluster start")
  else if rc_prohibits_election c && negb forced then Some (InvalidRequest "election is prohibited")
  else if is_follower_lease_valid c && negb forced then
    Some (InvalidRequest "follower is still in leader lease")
  else match rc_nodes c !! candidate_id with
       | None => Some (NodeNotFound candidate_id)
       | Some candidate =>
           if negb (can_be_leader (nd_replica_role candidate)) then
             Some (InvalidRequest ("node " ++s pretty candidate_id ++s " cannot become leader"))
           else if negb (nd_healthy candidate) then
             Some (InvalidRequest ("node " ++s pretty candidate_id ++s " is not healthy"))
           else None
       end.

Definition already_leading (candidate_id : NodeId) (c : RaftCluster) : bool :=
  bool_decide (rc_leader_id c = Some candidate_id)
  && match rc_nodes c !! candidate_id with
     | Some candidate => bool_decide (nd_raft_role candidate = Leader)
     | None => false
     end.

(** The state change of a campaign that goes ahead in [next_term], up to the
    no-op. *)
Definition take_office (candidate_id : NodeId) (next_term : Term) (c : RaftCluster) : RaftCluster :=
  let c := c <| rc_last_index_before_current_term := rc_last_log_index c |>
             <| rc_current_term := next_term |>
             <| rc_leader_id := Some candidate_id |>
             <| rc_vote_responses := ∅ |>
             <| rc_pre_vote_responses := ∅ |> in
  let c := clear_reorder_queues c in
  let c := settle_leader_transfer candidate_id c in
  let c := reset_leader_lease_epoch c in
  let c := invalidate_follower_lease c in
  let c := record_election candidate_id Leader c in
  let c := snd (refresh_witness_commit_quorum_policy c) in
  reset_replication_pipelines_for_leader candidate_id c.

Definition campaign (candidate_id : NodeId) (forced : bool) : Cluster unit := fun c =>
  match campaign_refusal candidate_id forced c with
  | Some e => (Err e, c)
  | None =>
      if already_leading candidate_id c then (Ok tt, c)
      else match checked_add (rc_current_term c) 1 with
           | None => (Err (InvalidRequest
               "cannot campaign: the term is already the largest representable value"), c)
           | Some next_term =>
               let append_leader_noop := rc_running c in
               let c := take_office candidate_id next_term c in
               if append_leader_noop then (_ ← broadcast_leader_noop; mret tt) c
               else (Ok tt, c)
           end
  end.

(** [{:?}] of a replica role. *)
Definition debug_ReplicaRole (r : ReplicaRole) : string :=
  match r with Voter => "Voter" | Learner => "Learner" | Witness => "Witness" end.

Definition timeout_now (from target : NodeId) : Cluster TimeoutNowResponse := fun c =>
  match rc_nodes c !! target with
  | None => (Err (NodeNotFound target), c)
  | Some node =>
      if negb (bool_decide (nd_raft_role node = Follower)) || negb (can_be_leader (nd_replica_role node))
      then (Ok (mkTimeoutNowResponse target from false (hs_current_term (nd_hard_state node))
              (rc_leader_id c) ("timeout_now_ignored_" ++s debug_ReplicaRole (nd_replica_role node))), c)
      else match campaign target true c with
           | (Err e, c) => (Err e, c)
           | (Ok _, c) => (Ok (mkTimeoutNowResponse target from true (rc_current_term c)
                                 (rc_leader_id c) "timeout_now_campaign"), c)
           end
  end.

Definition set_prohibits_election (prohibits_election : bool) (c : RaftCluster) : RaftCluster :=
  c <| rc_prohibits_election := prohibits_election |>.

(** ** Votes *)

Definition pre_vote (candidate_id : NodeId) (c : RaftCluster) : Result VoteResponse :=
  match rc_nodes c !! candidate_id with
  | None => Err (NodeNotFound candidate_id)
  | Some candidate =>
      let refused reason := Ok (mkVoteResponse (rc_current_term c) false reason) in
      if rc_prohibits_election c then refused "election_prohibited"
      else if negb (enable_pre_vote (rc_config c)) then refused "pre_vote_disabled"
      else if negb (can_be_leader (nd_replica_role candidate)) then refused "candidate_cannot_be_leader"
      else if negb (nd_healthy candidate) then refused "candidate_unhealthy"
      else match checked_add (rc_current_term c) 1 with
           | None => refused "term_exhausted"
           | Some next_term => Ok (mkVoteResponse next_term true "pre_vote_granted")
           end
  end.

Definition observe_vote_request_candidate (target candidate_id : NodeId) (pre_vote : bool)
    (c : RaftCluster) : RaftCluster :=
  let target_is_leader :=
    match rc_nodes c !! target with
    | Some node => bool_decide (nd_raft_role node = Leader)
    | None => false
    end in
  if negb target_is_leader then c
  else on_node candidate_id (fun candidate =>
    if can_be_leader (nd_replica_role candidate)
    then candidate <| nd_raft_role := if pre_vote then PreCandidate else Candidate |>
    else candidate) c.

(** Why the candidate of a request cannot be voted for, if it cannot. *)
Definition candidate_refusal (candidate_id : NodeId) (c : RaftCluster) : option string :=
  match rc_nodes c !! candidate_id with
  | None => Some "candidate_not_member"
  | Some candidate =>
      if negb (can_be_leader (nd_replica_role candidate)) then Some "candidate_cannot_be_leader"
      else if negb (nd_healthy candidate) then Some "candidate_unhealthy"
      else None
  end.

Definition target_in_lease (target_node : Node) (request : VoteRequest) (c : RaftCluster) : bool :=
  (hs_current_term (nd_hard_state target_node) <? vr_term request)%N
  && negb (vr_force request)
  && enable_lease_read (rc_config c)
  && (if bool_decide (nd_raft_role target_node = Leader) then rc_leader_lease_valid c
      else is_follower_lease_valid c).

(** The answer of a target to a pre-vote request. *)
Definition answer_pre_vote (target_node : Node) (request : VoteRequest) (c : RaftCluster) : VoteResponse :=
  let current_term := hs_current_term (nd_hard_state target_node) in
  let refused reason := mkVoteResponse current_term false reason in
  if negb (enable_pre_vote (rc_config c)) then refused "pre_vote_disabled"
  else match candidate_refusal (vr_candidate_id request) c with
       | Some reason => refused reason
       | None =>
           if (vr_term request <=? current_term)%N then refused "stale_pre_vote_term"
           else if negb (is_fresh_candidate_log target_node (vr_last_log_id request))
           then refused "candidate_log_stale"
           else mkVoteResponse (vr_term request) true "pre_vote_granted"
       end.

(** A vote request of a higher term than the group's moves the group to it. *)
Definition adopt_vote_term (target : NodeId) (request : VoteRequest) (c : RaftCluster) : RaftCluster :=
  if negb (rc_current_term c <? vr_term request)%N then c
  else
    let c := c <| rc_current_term := vr_term request |> <| rc_leader_id := None |> in
    let c := clear_reorder_queues c in
    let c := invalidate_follower_lease c in
    let c := invalidate_leader_lease c in
    let c := on_node target (fun node => node <| nd_hard_state ::= (fun h =>
               h <| hs_current_term := vr_term request |> <| hs_voted_for := None |>) |>) c in
    on_nodes (fun node => node <| nd_raft_role := passive_role node |>) c.

(** The vote is written down; a vote that raised the target's term ends the
    leases of the earlier one. *)
Definition cast_vote (target candidate_id : NodeId) (hard : HardState) (reset_election_leases : bool)
    (c : RaftCluster) : RaftCluster :=
  let c := on_node target (fun node =>
             node <| nd_hard_state := hard <| hs_voted_for := Some candidate_id |> |>) c in
  let c := if reset_election_leases
           then invalidate_leader_lease (invalidate_follower_lease (clear_reorder_queues c))
           else c in
  c <| rc_current_term ::= N.max (hs_current_term hard) |>.

(** The decision on a vote, once the candidate is acceptable and the group's
    term is at least the request's. *)
Definition decide_vote (target : NodeId) (request : VoteRequest) : Cluster VoteResponse := fun c =>
  match rc_nodes c !! target with
  | None => (Err (NodeNotFound target), c)
  | Some target_node =>
      let hard := nd_hard_state target_node in
      let candidate := Some (vr_candidate_id request) in
      let known_leader_blocks_vote := bool_decide (is_Some (rc_leader_id c)) in
      let refused term reason := Ok (mkVoteResponse term false reason) in
      if known_leader_blocks_vote && negb (bool_decide (hs_voted_for hard = candidate)) then
        (refused (hs_current_term hard) "known_leader", c)
      else if negb (is_fresh_candidate_log target_node (vr_last_log_id request)) then
        (refused (N.max (rc_current_term c) (vr_term request)) "candidate_log_stale", c)
      else if (vr_term request <? hs_current_term hard)%N then
        (refused (hs_current_term hard) "stale_term", c)
      else
        let reset_election_leases := (hs_current_term hard <? vr_term request)%N in
        let hard :=
          if reset_election_leases
          then hard <| hs_current_term := vr_term request |> <| hs_voted_for := None |> else hard in
        let c := on_node target (fun node => node <| nd_hard_state := hard |>) c in
        if known_leader_blocks_vote && negb (bool_decide (hs_voted_for hard = candidate)) then
          (refused (hs_current_term hard) "known_leader", c)
        else if bool_decide (hs_voted_for hard <> None) && negb (bool_decide (hs_voted_for hard = candidate))
        then (refused (hs_current_term hard) "already_voted", c)
        else
          (Ok (mkVoteResponse (hs_current_term hard) true "vote_granted"),
           cast_vote target (vr_candidate_id request) hard reset_election_leases c)
  end.

Definition vote_to (target : NodeId) (request : VoteRequest) : Cluster VoteResponse := fun c =>
  let refused term reason := Ok (mkVoteResponse term false reason) in
  if negb (vr_group_id request =? rc_group_id c)%N then
    (refused (N.max (rc_current_term c) (vr_term request)) "group_id_mismatch", c)
  else match rc_nodes c !! target with
  | None => (Err (NodeNotFound target), c)
  | Some target_node =>
      if negb (participates_in_quorum (nd_replica_role target_node)) then
        (refused (N.max (rc_current_term c) (vr_term request)) "target_cannot_vote", c)
      else
        let c := observe_vote_request_candidate target (vr_candidate_id request) (vr_pre_vote request) c in
        match rc_nodes c !! target with
        | None => (Err (NodeNotFound target), c)
        | Some target_node =>
            if target_in_lease target_node request c then
              (refused (hs_current_term (nd_hard_state target_node)) "in_lease", c)
            else if vr_pre_vote request then (Ok (answer_pre_vote target_node request c), c)
            else match candidate_refusal (vr_candidate_id request) c with
                 | Some reason => (refused (N.max (rc_current_term c) (vr_term request)) reason, c)
                 | None => decide_vote target request (adopt_vote_term target request c)
                 end
        end
  end.

(** ** Ballots

    The ballot of a node is its durable term and vote; all the election
    invariants are about the map of ballots. *)

Definition ballot (n : Node) : Term * option NodeId :=
  (hs_current_term (nd_hard_state n), hs_voted_for (nd_hard_state n)).
Definition ballots (c : RaftCluster) : gmap N (Term * option NodeId) := ballot <$> rc_nodes c.

(** No node is in a later term than the group. *)
Definition terms_bounded (c : RaftCluster) : Prop :=
  map_Forall (fun _ b => b.1 <= rc_current_term c)%N (ballots c).
#[export] Instance terms_bounded_dec c : Decision (terms_bounded c).
Proof. unfold terms_bounded. apply _. Defined.

(** A ballot moves to a later term, or keeps its term and any vote it holds. *)
Definition ballot_step (b b' : Term * option NodeId) : Prop :=
  (b.1 < b'.1)%N \/ (b.1 = b'.1 /\ (b.2 = None \/ b'.2 = b.2)).

#[export] Instance ballot_step_preorder : PreOrder ballot_step.
Proof.
  split.
  - intros b. right. auto.
  - intros b1 b2 b3 [H1|[H1 V1]] [H2|[H2 V2]]; unfold ballot_step;
      [left; lia|left; lia|left; lia|right; split; [lia|]].
    destruct V1 as [?|V1]; [by left|]. rewrite V1 in V2. naive_solver.
Qed.

(** What an election step keeps: the group's term only grows, no node is ahead
    of it, and every ballot makes a [ballot_step]. *)
Definition votes_kept (c c' : RaftCluster) : Prop :=
  terms_bounded c ->
  terms_bounded c' /\ (rc_current_term c <= rc_current_term c')%N
  /\ forall k b, ballots c !! k = Some b -> exists b', ballots c' !! k = Some b' /\ ballot_step b b'.

#[export] Instance votes_kept_preorder : PreOrder votes_kept.
Proof.
  split.
  - intros c Hc. split_and!; [done|lia|]. intros k b Hb. exists b. by split.
  - intros c1 c2 c3 H1 H2 Hc. destruct (H1 Hc) as (Hc2 & Ht & Hb). destruct (H2 Hc2) as (Hc3 & Ht' & Hb').
    split_and!; [done|lia|]. intros k b Hk. destruct (Hb k b Hk) as (b2 & Hk2 & Hs).
    destruct (Hb' k b2 Hk2) as (b3 & Hk3 & Hs'). exists b3. split; [done|by etrans].
Qed.

Definition same_ballots (c c' : RaftCluster) : Prop :=
  ballots c' = ballots c /\ rc_current_term c' = rc_current_term c.

#[export] Instance same_ballots_preorder : PreOrder same_ballots.
Proof. unfold same_ballots. split; [done|]. intros c1 c2 c3 [-> ->] [-> ->]. done. Qed.

Lemma same_ballots_kept c c' : same_ballots c c' -> votes_kept c c'.
Proof.
  intros [Hb Ht] Hc. unfold terms_bounded in *. rewrite Hb, Ht. split_and!; [done|lia|].
  intros k b Hk. exists b. by split.
Qed.

Lemma ballots_on_nodes f g c :
  (forall n, ballot (f n) = g (ballot n)) -> ballots (on_nodes f c) = g <$> ballots c.
Proof.
  intros Hf. unfold ballots. cbn. rewrite <- !map_fmap_compose.
  apply map_fmap_ext. intros k n _. apply Hf.
Qed.

Lemma ballots_on_node id f g c :
  (forall n, ballot (f n) = g (ballot n)) -> ballots (on_node id f c) = alter g id (ballots c).
Proof.
  intros Hf. unfold ballots. cbn. apply map_eq. intros k. rewrite lookup_fmap.
  destruct (decide (k = id)) as [->|Hne].
  - rewrite !lookup_alter_eq, lookup_fmap. destruct (rc_nodes c !! id); cbn; [by rewrite Hf|done].
  - rewrite !lookup_alter_ne, lookup_fmap by done. done.
Qed.

Lemma same_ballots_nodes c c' :
  rc_nodes c' = rc_nodes c -> rc_current_term c' = rc_current_term c -> same_ballots c c'.
Proof. intros Hn Ht. split; [|done]. unfold ballots. by rewrite Hn. Qed.

Lemma same_ballots_on_nodes f c : (forall n, ballot (f n) = ballot n) -> same_ballots c (on_nodes f c).
Proof.
  intros Hf. split; [|done]. rewrite (ballots_on_nodes f id) by done.
  by rewrite map_fmap_id.
Qed.

Lemma same_ballots_on_node id f c :
  (forall n, ballot (f n) = ballot n) -> same_ballots c (on_node id f c).
Proof.
  intros Hf. split; [|done]. rewrite (ballots_on_node id f (fun b => b)) by done.
  apply alter_id. done.
Qed.

(** *** Operations that leave the ballots alone *)

Lemma advance_commit_ballot i n : ballot (advance_commit i n) = ballot n.
Proof. unfold advance_commit, ballot. cbn. repeat (case_match; try done). Qed.

Lemma append_entry_ballot e n : ballot (append_entry e n) = ballot n.
Proof. unfold append_entry, ballot. repeat (case_match; try done). Qed.

Lemma append_witness_entry_ballot e keep n : ballot (append_witness_entry e keep n) = ballot n.
Proof.
  unfold append_witness_entry. cbn zeta. rewrite append_entry_ballot.
  unfold acknowledge_witness_index. by case_match.
Qed.

Lemma append_noop_ballot l e n : ballot (append_noop l e n) = ballot n.
Proof.
  unfold append_noop.
  repeat (case_match; rewrite ?append_entry_ballot, ?append_witness_entry_ballot; try done).
Qed.

Lemma refresh_cluster_indexes_ballots c : same_ballots c (refresh_cluster_indexes c).
Proof. done. Qed.

Lemma refresh_commit_index_ballots c : same_ballots c (refresh_commit_index c).
Proof.
  unfold refresh_commit_index. destruct (commit_quorum_match_index c) as [i|]; [|done].
  destruct (rc_leader_id c); [|done]. destruct (rc_nodes c !! _); [|done]. destruct (negb _); [done|].
  cbn zeta. etrans; [|apply refresh_cluster_indexes_ballots].
  etrans; [|apply same_ballots_on_nodes; intros m; case_match; [apply advance_commit_ballot|done]]. done.
Qed.

Lemma refresh_policy_ballots c : same_ballots c (snd (refresh_witness_commit_quorum_policy c)).
Proof.
  unfold refresh_witness_commit_quorum_policy. cbn [snd]. destruct (negb _); [|done].
  etrans; [|apply refresh_commit_index_ballots]. done.
Qed.

Lemma foldl_keeps {A} (R : relation RaftCluster) `{!PreOrder R} (f : RaftCluster -> A -> RaftCluster) l c :
  (forall c x, R c (f c x)) -> R c (foldl f c l).
Proof.
  intros Hf. revert c. induction l as [|x l IH]; intros c; cbn; [reflexivity|].
  etrans; [apply Hf|apply IH].
Qed.

Lemma reset_replication_pipelines_ballots l c :
  same_ballots c (reset_replication_pipelines_for_leader l c).
Proof. unfold reset_replication_pipelines_for_leader. by apply foldl_keeps; [apply _|]. Qed.

Lemma settle_leader_transfer_ballots l c : same_ballots c (settle_leader_transfer l c).
Proof.
  unfold settle_leader_transfer, complete_leader_transfer, abort_leader_transfer.
  destruct (active_leader_transfer c); [|done]. by case_match.
Qed.

Lemma observe_ballots t k p c : same_ballots c (observe_vote_request_candidate t k p c).
Proof.
  unfold observe_vote_request_candidate. destruct (negb _); [done|].
  apply same_ballots_on_node. intros n. by case_match.
Qed.

(** *** The operations that move ballots *)

Lemma record_election_ballots k office c :
  ballots (record_election k office c) = (fun _ => (rc_current_term c, Some k)) <$> ballots c.
Proof. unfold record_election. by apply ballots_on_nodes. Qed.

Lemma take_office_ballots k t c :
  ballots (take_office k t c) = (fun _ => (t, Some k)) <$> ballots c
  /\ rc_current_term (take_office k t c) = t.
Proof.
  unfold take_office.
  set (c1 := clear_reorder_queues _).
  assert (ballots c1 = ballots c /\ rc_current_term c1 = t) as [Hb1 Ht1] by done. clearbody c1.
  destruct (settle_leader_transfer_ballots k c1) as [Hb2 Ht2].
  generalize dependent (settle_leader_transfer k c1). intros c2 Hb2 Ht2.
  set (c3 := record_election k Leader _).
  assert (ballots c3 = (fun _ => (t, Some k)) <$> ballots c /\ rc_current_term c3 = t) as [Hb3 Ht3].
  { subst c3. rewrite record_election_ballots. cbn. rewrite Ht2, Ht1. split; [|done].
    f_equal. rewrite <- Hb1, <- Hb2. done. }
  clearbody c3. cbn zeta.
  destruct (refresh_policy_ballots c3) as [Hb4 Ht4].
  destruct (reset_replication_pipelines_ballots k (snd (refresh_witness_commit_quorum_policy c3))) as [-> ->].
  by rewrite Hb4, Ht4.
Qed.

Lemma take_office_kept k t c : (rc_current_term c < t)%N -> votes_kept c (take_office k t c).
Proof.
  intros Ht Hc. destruct (take_office_ballots k t c) as [Hb Hterm]. split_and!.
  - intros id b. rewrite Hb, Hterm, lookup_fmap. intros (x & _ & ->)%fmap_Some. cbn. lia.
  - lia.
  - intros id b Hk. exists (t, Some k). rewrite Hb, lookup_fmap, Hk. split; [done|].
    left. cbn. specialize (Hc id b Hk). cbn in Hc. lia.
Qed.

Lemma broadcast_leader_noop_ballots c : same_ballots c (snd (broadcast_leader_noop c)).
Proof.
  unfold broadcast_leader_noop. destruct (rc_leader_id c); [|done]. destruct (next_log_index c); [|done].
  cbn [snd]. etrans; [|apply refresh_cluster_indexes_ballots].
  etrans; [|apply same_ballots_on_nodes; intros m; apply append_noop_ballot]. done.
Qed.

Lemma campaign_kept k forced : transits votes_kept (campaign k forced).
Proof.
  intros c. unfold campaign. destruct (campaign_refusal k forced c); [reflexivity|].
  destruct (already_leading k c); [reflexivity|].
  destruct (checked_add _ 1) as [t|] eqn:Et; [|reflexivity].
  apply checked_add_Some in Et as [-> _]. cbn zeta.
  etrans; [apply (take_office_kept k (rc_current_term c + 1)); lia|]. destruct (rc_running c); [|reflexivity].
  generalize (take_office k (rc_current_term c + 1)%N c). intros c'. unfold mbind, ST_bind.
  pose proof (broadcast_leader_noop_ballots c') as Hb. destruct (broadcast_leader_noop c') as [[] c''];
    by apply same_ballots_kept.
Qed.

Lemma timeout_now_kept from target : transits votes_kept (timeout_now from target).
Proof.
  intros c. unfold timeout_now. destruct (rc_nodes c !! target); [|reflexivity].
  destruct (_ || _); [reflexivity|]. pose proof (campaign_kept target true c) as Hc.
  by destruct (campaign target true c) as [[] c'].
Qed.

Lemma votes_kept_alter id g t c c' :
  (rc_current_term c <= t)%N -> rc_current_term c' = t -> ballots c' = alter g id (ballots c) ->
  (forall b, ballots c !! id = Some b -> terms_bounded c -> ballot_step b (g b) /\ ((g b).1 <= t)%N) ->
  votes_kept c c'.
Proof.
  intros Ht Ht' Hb Hg Hc. split_and!; [|lia|].
  - intros k b. rewrite Hb, Ht'. destruct (decide (k = id)) as [->|Hne].
    + rewrite lookup_alter_eq. intros (b0 & Hb0 & ->)%fmap_Some. by apply Hg.
    + rewrite lookup_alter_ne by done. intros Hk. specialize (Hc k b Hk). cbn in *. lia.
  - intros k b Hk. rewrite Hb. destruct (decide (k = id)) as [->|Hne].
    + rewrite lookup_alter_eq, Hk. eexists. split; [reflexivity|]. by apply Hg.
    + rewrite lookup_alter_ne by done. eexists. split; [exact Hk|reflexivity].
Qed.

Lemma adopt_vote_term_kept target request c : votes_kept c (adopt_vote_term target request c).
Proof.
  unfold adopt_vote_term. destruct (N.ltb_spec (rc_current_term c) (vr_term request)) as [Hlt|]; [|reflexivity].
  cbn [negb]. eapply (votes_kept_alter target (fun _ => (vr_term request, None)) (vr_term request)).
  - lia.
  - done.
  - destruct (same_ballots_on_nodes (fun node => node <| nd_raft_role := passive_role node |>)
      (on_node target (fun node => node <| nd_hard_state ::= (fun h =>
               h <| hs_current_term := vr_term request |> <| hs_voted_for := None |>) |>)
        (invalidate_leader_lease (invalidate_follower_lease (clear_reorder_queues
          (c <| rc_current_term := vr_term request |> <| rc_leader_id := None |>))))) ltac:(done)) as [-> _].
    by rewrite (ballots_on_node _ _ (fun _ => (vr_term request, None))).
  - intros b Hb Hc. specialize (Hc _ _ Hb). cbn in Hc. split; [left; cbn; lia|cbn; lia].
Qed.

Lemma alter_const {A} (a b : A) k (m : gmap N A) :
  alter (fun _ => a) k (alter (fun _ => b) k m) = alter (fun _ => a) k m.
Proof.
  apply map_eq. intros i. destruct (decide (i = k)) as [->|].
  - rewrite !lookup_alter_eq. by destruct (m !! k).
  - by rewrite !lookup_alter_ne.
Qed.

Definition granted (r : Result VoteResponse) (term : Term) : Prop :=
  exists reason, r = Ok (mkVoteResponse term true reason).

Lemma cast_vote_ballots target k hard reset c :
  ballots (cast_vote target k hard reset c)
  = alter (fun _ => (hs_current_term hard, Some k)) target (ballots c)
  /\ rc_current_term (cast_vote target k hard reset c) = N.max (hs_current_term hard) (rc_current_term c).
Proof.
  unfold cast_vote. set (c1 := on_node _ _ _).
  assert (ballots c1 = alter (fun _ => (hs_current_term hard, Some k)) target (ballots c)) as Hb
    by (by apply ballots_on_node).
  assert (rc_current_term c1 = rc_current_term c) as Ht by done. clearbody c1.
  rewrite <- Hb, <- Ht. by destruct reset.
Qed.

(** Writing a ballot of the request's term on the target keeps the votes. *)
Lemma write_ballot_kept target node b c c' :
  rc_nodes c !! target = Some node -> ballot_step (ballot node) b -> (b.1 <= rc_current_term c)%N ->
  ballots c' = alter (fun _ => b) target (ballots c) -> rc_current_term c' = rc_current_term c ->
  votes_kept c c'.
Proof.
  intros Hn Hs Hb Hb' Ht. eapply (votes_kept_alter target (fun _ => b)); [reflexivity|done|done|].
  intros b0 H0 _. unfold ballots in H0. rewrite lookup_fmap, Hn in H0. by injection H0 as <-.
Qed.

(** The ballot of the target once it follows the request's term. *)
Lemma raised_ballot hard request :
  (hs_current_term hard <= vr_term request)%N ->
  let hard' := if (hs_current_term hard <? vr_term request)%N
               then hard <| hs_current_term := vr_term request |> <| hs_voted_for := None |> else hard in
  hs_current_term hard' = vr_term request
  /\ ballot_step (hs_current_term hard, hs_voted_for hard) (hs_current_term hard', hs_voted_for hard').
Proof.
  intros Hle. cbn zeta. destruct (N.ltb_spec (hs_current_term hard) (vr_term request)).
  - split; [done|]. by left.
  - split; [lia|reflexivity].
Qed.

Lemma decide_vote_spec target request c :
  (vr_term request <= rc_current_term c)%N ->
  let '(r, c') := decide_vote target request c in
  votes_kept c c'
  /\ forall term, granted r term ->
       exists node, rc_nodes c !! target = Some node
         /\ term = vr_term request
         /\ (hs_current_term (nd_hard_state node) <= term)%N
         /\ is_fresh_candidate_log node (vr_last_log_id request) = true
         /\ ballots c' !! target = Some (term, Some (vr_candidate_id request)).
Proof.
  intros Hterm. unfold decide_vote, granted.
  destruct (rc_nodes c !! target) as [node|] eqn:En; [|split; [reflexivity|naive_solver]].
  cbn zeta. destruct (_ && _); [split; [reflexivity|naive_solver]|].
  destruct (is_fresh_candidate_log node _) eqn:Efresh; cbn [negb]; [|split; [reflexivity|naive_solver]].
  destruct (N.ltb_spec (vr_term request) (hs_current_term (nd_hard_state node))) as [?|Hge];
    [split; [reflexivity|naive_solver]|].
  pose proof (raised_ballot (nd_hard_state node) request Hge) as [Hht Hstep].
  set (raised := (hs_current_term (nd_hard_state node) <? vr_term request)%N) in *. clearbody raised.
  set (hard := if raised then _ else _) in *. clearbody hard.
  set (c1 := on_node target _ c).
  assert (ballots c1 = alter (fun _ => (hs_current_term hard, hs_voted_for hard)) target (ballots c)) as Hb1
    by (by apply ballots_on_node).
  assert (rc_current_term c1 = rc_current_term c) as Ht1 by done. clearbody c1.
  assert (votes_kept c c1) as Hk1 by (apply (write_ballot_kept target node _ c c1 En Hstep); [cbn; lia|done|done]).
  destruct (_ && _); [split; [done|naive_solver]|].
  destruct (bool_decide (hs_voted_for hard <> None) && _) eqn:Evoted; [split; [done|naive_solver]|].
  destruct (cast_vote_ballots target (vr_candidate_id request) hard raised c1) as [Hb2 Ht2].
  rewrite Hb1, Ht1, alter_const in *. generalize dependent (cast_vote target (vr_candidate_id request) hard raised c1).
  intros c2 Hb2 Ht2. split.
  - eapply (write_ballot_kept target node (hs_current_term hard, Some (vr_candidate_id request)) c c2 En);
      [|cbn; lia|exact Hb2|lia].
    etrans; [exact Hstep|]. right. cbn. split; [done|].
    destruct (hs_voted_for hard) as [v|]; [right|by left]. cbn in Evoted. by case_bool_decide.
  - intros t (reason & [= <- <-]). exists node. split_and!; [done|done|lia|done|].
    rewrite Hb2, lookup_alter_eq. unfold ballots. rewrite lookup_fmap, En. done.
Qed.

(** ** Votes over a whole request *)

(** Everything of a node but its durable term and vote and its role. *)
Definition same_but_ballot (n n' : Node) : Prop :=
  n' = n <| nd_hard_state := nd_hard_state n' |> <| nd_raft_role := nd_raft_role n' |>.

#[export] Instance same_but_ballot_preorder : PreOrder same_but_ballot.
Proof.
  split.
  - intros []. done.
  - intros a b c H1 H2. unfold same_but_ballot in *. rewrite H2 at 1. rewrite H1. done.
Qed.

(** The request's preliminaries change no log and no identity. *)
Abbreviation same_nodes := (node_wise same_but_ballot).

Lemma observe_same_nodes t k p c : same_nodes c (observe_vote_request_candidate t k p c).
Proof.
  unfold observe_vote_request_candidate. destruct (negb _); [reflexivity|].
  apply (node_wise_on_node _). intros n. case_match; [by destruct n|reflexivity].
Qed.

Lemma adopt_same_nodes t r c : same_nodes c (adopt_vote_term t r c).
Proof.
  unfold adopt_vote_term. destruct (negb _); [reflexivity|]. cbn zeta.
  etrans; [|apply (node_wise_on_nodes _); by intros []].
  etrans; [|apply (node_wise_on_node _); by intros []]. by apply (node_wise_eq _).
Qed.

Lemma same_but_ballot_fresh n n' l :
  same_but_ballot n n' -> is_fresh_candidate_log n' l = is_fresh_candidate_log n l
  /\ nd_replica_role n' = nd_replica_role n /\ nd_healthy n' = nd_healthy n.
Proof. intros ->. done. Qed.

Lemma adopt_term_reached t r c : (vr_term r <= rc_current_term (adopt_vote_term t r c))%N.
Proof. unfold adopt_vote_term. destruct (N.ltb_spec (rc_current_term c) (vr_term r)); cbn; lia. Qed.

Lemma candidate_refusal_None k c :
  candidate_refusal k c = None ->
  exists n, rc_nodes c !! k = Some n /\ can_be_leader (nd_replica_role n) = true /\ nd_healthy n = true.
Proof.
  unfold candidate_refusal. destruct (rc_nodes c !! k) as [n|]; [|done].
  destruct (can_be_leader _) eqn:E1; [|done]. destruct (nd_healthy n) eqn:E2; [|done]. eauto.
Qed.

Lemma vote_to_kept target request : transits votes_kept (vote_to target request).
Proof.
  intros c. unfold vote_to. cbn zeta. destruct (negb _); [reflexivity|].
  destruct (rc_nodes c !! target); [|reflexivity]. destruct (negb _); [reflexivity|].
  etrans; [apply same_ballots_kept, (observe_ballots target (vr_candidate_id request) (vr_pre_vote request))|].
  generalize (observe_vote_request_candidate target (vr_candidate_id request) (vr_pre_vote request) c).
  intros c1. destruct (rc_nodes c1 !! target); [|reflexivity]. destruct (target_in_lease _ _ _); [reflexivity|].
  destruct (vr_pre_vote request); [reflexivity|]. destruct (candidate_refusal _ _); [reflexivity|].
  etrans; [apply (adopt_vote_term_kept target request)|].
  pose proof (decide_vote_spec target request _ (adopt_term_reached target request c1)) as Hd.
  destruct (decide_vote _ _ _) as [r c2]. by destruct Hd.
Qed.

(** The conditions of a vote or a pre-vote that is granted. *)
Record vote_conditions (target : NodeId) (request : VoteRequest) (c : RaftCluster) : Prop := {
  vc_group : vr_group_id request = rc_group_id c;
  vc_target : exists n, rc_nodes c !! target = Some n
    /\ participates_in_quorum (nd_replica_role n) = true
    /\ (hs_current_term (nd_hard_state n) <= vr_term request)%N
    /\ is_fresh_candidate_log n (vr_last_log_id request) = true;
  vc_candidate : exists n, rc_nodes c !! vr_candidate_id request = Some n
    /\ can_be_leader (nd_replica_role n) = true /\ nd_healthy n = true
}.

Lemma answer_pre_vote_granted n request c :
  vresp_vote_granted (answer_pre_vote n request c) = true ->
  candidate_refusal (vr_candidate_id request) c = None
  /\ (hs_current_term (nd_hard_state n) < vr_term request)%N
  /\ is_fresh_candidate_log n (vr_last_log_id request) = true
  /\ vresp_term (answer_pre_vote n request c) = vr_term request.
Proof.
  unfold answer_pre_vote. cbn zeta. destruct (negb _); [done|].
  destruct (candidate_refusal _ _) eqn:Ec; [done|].
  destruct (N.leb_spec (vr_term request) (hs_current_term (nd_hard_state n))); [done|].
  by destruct (is_fresh_candidate_log n _).
Qed.

(** A granted request passes the preliminaries: it reaches a state that differs
    from the initial one in the candidate's role only. *)
Lemma vote_to_granted_inv target request c resp c' :
  vote_to target request c = (Ok resp, c') -> vresp_vote_granted resp = true ->
  vr_group_id request = rc_group_id c
  /\ exists c1 n0 n1,
       rc_nodes c !! target = Some n0 /\ participates_in_quorum (nd_replica_role n0) = true
       /\ same_ballots c c1 /\ same_nodes c c1 /\ rc_leader_id c1 = rc_leader_id c
       /\ rc_nodes c1 !! target = Some n1
       /\ candidate_refusal (vr_candidate_id request) c1 = None
       /\ if vr_pre_vote request then resp = answer_pre_vote n1 request c1 /\ c' = c1
          else decide_vote target request (adopt_vote_term target request c1) = (Ok resp, c').
Proof.
  unfold vote_to. cbn zeta.
  destruct (N.eqb_spec (vr_group_id request) (rc_group_id c)) as [Hg|]; cbn [negb]; [|by intros [= <- _]].
  destruct (rc_nodes c !! target) as [n0|] eqn:En0; [|done].
  destruct (participates_in_quorum _) eqn:Ep; cbn [negb]; [|by intros [= <- _]].
  pose proof (observe_ballots target (vr_candidate_id request) (vr_pre_vote request) c) as Hob.
  pose proof (observe_same_nodes target (vr_candidate_id request) (vr_pre_vote request) c) as Hsn.
  assert (rc_leader_id (observe_vote_request_candidate target (vr_candidate_id request) (vr_pre_vote request) c)
          = rc_leader_id c) as Hl by (unfold observe_vote_request_candidate; by destruct (negb _)).
  generalize dependent (observe_vote_request_candidate target (vr_candidate_id request) (vr_pre_vote request) c).
  intros c1 Hob Hsn Hl. destruct (rc_nodes c1 !! target) as [n1|] eqn:En1; [|done].
  destruct (target_in_lease n1 request c1); [by intros [= <- _]|].
  destruct (vr_pre_vote request).
  - intros [= <- <-] Hgr. split; [done|]. exists c1, n0, n1. split_and!; try done.
    by apply (answer_pre_vote_granted n1 request c1).
  - destruct (candidate_refusal _ c1) eqn:Ec; [by intros [= <- _]|]. intros Hd _.
    split; [done|]. by exists c1, n0, n1.
Qed.

Lemma same_nodes_fresh c c' k n n' l :
  same_nodes c c' -> rc_nodes c !! k = Some n -> rc_nodes c' !! k = Some n' ->
  is_fresh_candidate_log n' l = is_fresh_candidate_log n l.
Proof.
  intros Hs Hn Hn'. destruct (Hs _ _ Hn') as (m & Hm & Hsame). rewrite Hn in Hm. injection Hm as <-.
  apply (same_but_ballot_fresh _ _ l Hsame).
Qed.

Lemma same_nodes_candidate c c' k :
  same_nodes c c' -> candidate_refusal k c' = None ->
  exists n, rc_nodes c !! k = Some n /\ can_be_leader (nd_replica_role n) = true /\ nd_healthy n = true.
Proof.
  intros Hs (n' & Hn' & H1 & H2)%candidate_refusal_None. destruct (Hs _ _ Hn') as (n & Hn & Hsame).
  exists n. destruct (same_but_ballot_fresh n n' None Hsame) as (_ & <- & <-). done.
Qed.

Lemma ballots_lookup c k n : rc_nodes c !! k = Some n -> ballots c !! k = Some (ballot n).
Proof. intros Hn. unfold ballots. by rewrite lookup_fmap, Hn. Qed.

Lemma votes_kept_node_term c c' k n n' :
  terms_bounded c -> votes_kept c c' -> rc_nodes c !! k = Some n -> rc_nodes c' !! k = Some n' ->
  (hs_current_term (nd_hard_state n) <= hs_current_term (nd_hard_state n'))%N.
Proof.
  intros Hb Hk Hn Hn'. destruct (Hk Hb) as (_ & _ & Hs).
  destruct (Hs k _ (ballots_lookup _ _ _ Hn)) as (b' & Hb' & Hstep).
  rewrite (ballots_lookup _ _ _ Hn') in Hb'. injection Hb' as <-. destruct Hstep as [H|[H _]]; cbn in H; lia.
Qed.

(** What a grant means. On a group where no node is ahead of the group's
    term, [vote_to] grants only when the request is for this group, the target
    is a voter or witness whose term is not past the request's and whose log
    the candidate's log is at least as up to date as, and the candidate is a
    healthy voter of the group; the response carries the request's term. A
    granted vote is written down on the target; a pre-vote, granted or not,
    changes no ballot, no term and no leader. *)
Theorem vote_granted_conditions target request c resp c' :
  terms_bounded c -> vote_to target request c = (Ok resp, c') -> vresp_vote_granted resp = true ->
  vote_conditions target request c
  /\ vresp_term resp = vr_term request
  /\ (if vr_pre_vote request
      then ballots c' = ballots c /\ rc_current_term c' = rc_current_term c
           /\ rc_leader_id c' = rc_leader_id c
      else ballots c' !! target = Some (vr_term request, Some (vr_candidate_id request))).
Proof.
  intros Hbound Hv Hgr.
  destruct (vote_to_granted_inv _ _ _ _ _ Hv Hgr)
    as (Hg & c1 & n0 & n1 & Hn0 & Hp & Hob & Hsn & Hl & Hn1 & Hcand & Hrest).
  pose proof (same_nodes_candidate _ _ _ Hsn Hcand) as Hc. destruct (vr_pre_vote request).
  - destruct Hrest as [-> ->]. destruct (answer_pre_vote_granted _ _ _ Hgr) as (_ & Hlt & Hf & Ht).
    rewrite (same_nodes_fresh _ _ _ _ _ _ Hsn Hn0 Hn1) in Hf.
    pose proof (votes_kept_node_term _ _ _ _ _ Hbound (same_ballots_kept _ _ Hob) Hn0 Hn1).
    split_and!; [|done|apply Hob|apply Hob|done]. split; [done| |done].
    exists n0. split_and!; [done|done|lia|done].
  - pose proof (decide_vote_spec target request _ (adopt_term_reached target request c1)) as Hd.
    rewrite Hrest in Hd. destruct Hd as [_ Hd]. destruct resp as [t g reason]. cbn in Hgr. subst g.
    destruct (Hd t (ex_intro _ reason eq_refl)) as (n2 & Hn2 & -> & Hle & Hf & Hb').
    rewrite (same_nodes_fresh _ _ _ _ _ _ (transitivity Hsn (adopt_same_nodes target request c1)) Hn0 Hn2) in Hf.
    assert (votes_kept c (adopt_vote_term target request c1)) as Hk
      by (etrans; [apply same_ballots_kept, Hob|apply adopt_vote_term_kept]).
    pose proof (votes_kept_node_term _ _ _ _ _ Hbound Hk Hn0 Hn2).
    split_and!; [|done|done]. split; [done| |done]. exists n0. split_and!; [done|done|lia|done].
Qed.

(** A running four-node group at rest in term 0, out of the lease it may hold
    at start. *)
Definition sample_group : RaftCluster :=
  invalidate_follower_lease (sample_cluster <| rc_leader_id := None |> <| rc_current_term := 0%N |>).
Definition sample_request (term : Term) (candidate_id : NodeId) : VoteRequest :=
  mkVoteRequest 7 term candidate_id None false false.

Lemma sample_group_bounded : terms_bounded sample_group.
Proof. apply (bool_decide_unpack _). vm_compute. exact I. Qed.

Lemma vote_granted_conditions_witness :
  vote_conditions 2 (sample_request 1 1) sample_group
  /\ ballots (snd (vote_to 2 (sample_request 1 1) sample_group)) !! 2%N = Some (1%N, Some 1%N).
Proof.
  assert (vote_to 2 (sample_request 1 1) sample_group
          = (Ok (mkVoteResponse 1 true "vote_granted"), snd (vote_to 2 (sample_request 1 1) sample_group))) as Hv
    by (vm_compute; reflexivity).
  destruct (vote_granted_conditions 2 (sample_request 1 1) sample_group _ _ sample_group_bounded Hv eq_refl)
    as (H1 & _ & H2).
  split; [exact H1|exact H2].
Defined.

(** ** Elections over time *)

(** The steps of an election: a vote or pre-vote request, a campaign, a
    timeout-now message and the switch that prohibits elections. *)
Inductive ElectionOp : Type :=
| EVote (target : NodeId) (request : VoteRequest)
| ECampaign (candidate_id : NodeId) (forced : bool)
| ETimeoutNow (from target : NodeId)
| EProhibit (prohibits_election : bool).

Definition run_election_op (c : RaftCluster) (op : ElectionOp) : RaftCluster :=
  match op with
  | EVote target request => snd (vote_to target request c)
  | ECampaign candidate_id forced => snd (campaign candidate_id forced c)
  | ETimeoutNow from target => snd (timeout_now from target c)
  | EProhibit b => set_prohibits_election b c
  end.
Definition run_election (ops : list ElectionOp) (c : RaftCluster) : RaftCluster :=
  foldl run_election_op c ops.

Lemma run_election_kept ops c : votes_kept c (run_election ops c).
Proof.
  unfold run_election. apply (foldl_keeps votes_kept). intros c0 [target request|k forced|from target|b]; cbn.
  - apply vote_to_kept.
  - apply campaign_kept.
  - apply timeout_now_kept.
  - by apply same_ballots_kept.
Qed.

(** terms never go back. Over any sequence of vote requests, campaigns and
    timeout-now messages, refused or not, the group's term does not decrease, no
    node gets ahead of the group, no node disappears, and each node's durable
    term and vote only move to a later term or stay with the vote they hold. *)
Theorem election_terms_never_decrease ops c :
  terms_bounded c ->
  terms_bounded (run_election ops c)
  /\ (rc_current_term c <= rc_current_term (run_election ops c))%N
  /\ forall k b, ballots c !! k = Some b ->
       exists b', ballots (run_election ops c) !! k = Some b' /\ ballot_step b b'.
Proof. apply run_election_kept. Qed.

Definition sample_election : list ElectionOp :=
  [EVote 2 (sample_request 1 1); EVote 3 (sample_request 1 3); ECampaign 1 true; ETimeoutNow 1 3].

Lemma election_terms_never_decrease_witness :
  rc_current_term (run_election sample_election sample_group) = 3%N
  /\ (0 <= 3)%N.
Proof.
  assert (rc_current_term (run_election sample_election sample_group) = 3%N) as Ht by (vm_compute; reflexivity).
  split; [exact Ht|].
  destruct (election_terms_never_decrease sample_election sample_group sample_group_bounded) as (_ & H & _).
  rewrite Ht in H. exact H.
Defined.

Lemma vote_recorded target request c resp c' :
  vr_pre_vote request = false -> vote_to target request c = (Ok resp, c') -> vresp_vote_granted resp = true ->
  ballots c' !! target = Some (vr_term request, Some (vr_candidate_id request)).
Proof.
  intros Hp Hv Hgr. destruct (vote_to_granted_inv _ _ _ _ _ Hv Hgr) as (_ & c1 & n0 & n1 & Hd).
  rewrite Hp in Hd. destruct Hd as (_ & _ & _ & _ & _ & _ & _ & Hd). pose proof (decide_vote_spec target request _ (adopt_term_reached target request c1)) as Hs.
  rewrite Hd in Hs. destruct resp as [t g reason]. cbn in Hgr. subst g.
  destruct (proj2 Hs t (ex_intro _ reason eq_refl)) as (_ & _ & -> & _ & _ & Hb). exact Hb.
Qed.

(** C8: election safety on the voter's side. A node that granted its vote to a
    candidate in a term grants it to no other candidate in that term, whatever
    vote requests, campaigns and timeout-now messages come in between. *)
Theorem one_vote_per_term c target r1 resp1 c1 ops r2 resp2 c2 :
  terms_bounded c ->
  vr_pre_vote r1 = false -> vote_to target r1 c = (Ok resp1, c1) -> vresp_vote_granted resp1 = true ->
  vr_pre_vote r2 = false -> vote_to target r2 (run_election ops c1) = (Ok resp2, c2) ->
  vresp_vote_granted resp2 = true ->
  vr_term r1 = vr_term r2 -> vr_candidate_id r1 = vr_candidate_id r2.
Proof.
  intros Hb P1 V1 G1 P2 V2 G2 Ht.
  assert (votes_kept c c1) as K1 by (pose proof (vote_to_kept target r1 c) as H; by rewrite V1 in H).
  destruct (run_election_kept ops c1 (proj1 (K1 Hb))) as (Hb2 & _ & S12).
  assert (votes_kept (run_election ops c1) c2) as K2
    by (pose proof (vote_to_kept target r2 (run_election ops c1)) as H; by rewrite V2 in H).
  pose proof (vote_recorded _ _ _ _ _ P1 V1 G1) as B1. pose proof (vote_recorded _ _ _ _ _ P2 V2 G2) as B2.
  destruct (S12 _ _ B1) as (b & Hb' & Hs1). destruct (proj2 (proj2 (K2 Hb2)) _ _ Hb') as (b' & Hb'' & Hs2).
  rewrite B2 in Hb''. injection Hb'' as <-. pose proof (transitivity Hs1 Hs2) as [Hs|[_ [Hs|Hs]]]; cbn in Hs.
  - lia.
  - done.
  - by injection Hs.
Qed.

Lemma one_vote_per_term_witness :
  let c1 := snd (vote_to 2 (sample_request 1 1) sample_group) in
  let c2 := run_election [EVote 3 (sample_request 1 3); EVote 2 (sample_request 1 3)] c1 in
  fst (vote_to 2 (sample_request 1 3) c2) = Ok (mkVoteResponse 1 false "already_voted")
  /\ fst (vote_to 2 (sample_request 1 1) c2) = Ok (mkVoteResponse 1 true "vote_granted")
  /\ vr_candidate_id (sample_request 1 1) = 1%N.
Proof.
  intros c1 c2. split; [vm_compute; reflexivity|]. split; [vm_compute; reflexivity|].
  assert (vote_to 2 (sample_request 1 1) sample_group
          = (Ok (mkVoteResponse 1 true "vote_granted"), c1)) as V1 by (vm_compute; reflexivity).
  assert (vote_to 2 (sample_request 1 1) c2
          = (Ok (mkVoteResponse 1 true "vote_granted"), snd (vote_to 2 (sample_request 1 1) c2))) as V2
    by (vm_compute; reflexivity).
  exact (one_vote_per_term sample_group 2 (sample_request 1 1) _ c1 _ (sample_request 1 1) _ _
           sample_group_bounded eq_refl V1 eq_refl eq_refl V2 eq_refl eq_refl).
Defined.

(** ** The effect of a campaign *)

(** No node's log reaches past the group's last log index. *)
Definition indexes_known (c : RaftCluster) : Prop :=
  map_Forall (fun _ n => match_index n <= rc_last_log_index c)%N (rc_nodes c).
#[export] Instance indexes_known_dec c : Decision (indexes_known c).
Proof. unfold indexes_known. apply _. Defined.

Lemma refresh_cluster_indexes_known c : indexes_known (refresh_cluster_indexes c).
Proof.
  intros k n Hn. cbn. apply max_or_default_elem, list_elem_of_fmap. exists n. split; [done|].
  apply elem_of_bt_values. by exists k.
Qed.

(** Commit refreshes change no identity, role, ballot or log. *)
Definition kept_node (n n' : Node) : Prop :=
  nd_id n' = nd_id n /\ nd_replica_role n' = nd_replica_role n /\ nd_raft_role n' = nd_raft_role n
  /\ nd_log n' = nd_log n /\ match_index n' = match_index n /\ ballot n' = ballot n.

#[export] Instance kept_node_preorder : PreOrder kept_node.
Proof. split; [done|]. intros a b c H1 H2. unfold kept_node in *. destruct_and!. split_and!; congruence. Qed.

Lemma advance_commit_kept i n : kept_node n (advance_commit i n).
Proof.
  destruct (advance_commit_identity i n) as (Hid & Hr & _).
  split_and!; [done|done| |apply advance_commit_log| |apply advance_commit_ballot].
  - unfold advance_commit. cbn. repeat (case_match; try done).
  - unfold match_index. rewrite Hr, advance_commit_log.
    unfold advance_commit. cbn. repeat (case_match; try done).
Qed.

Lemma refresh_policy_kept c : node_wise kept_node c (snd (refresh_witness_commit_quorum_policy c)).
Proof.
  unfold refresh_witness_commit_quorum_policy. cbn [snd]. destruct (negb _); [|by apply (node_wise_eq _)].
  set (c1 := c <| rc_count_witness_in_commit_quorum := _ |>).
  transitivity c1; [by apply (node_wise_eq _)|].
  destruct (refresh_commit_index_cases c1) as [->|(i & l & m & _ & _ & _ & _ & Hn)]; [reflexivity|].
  intros k n'. rewrite Hn, lookup_fmap. intros (n & Hk & ->)%fmap_Some. exists n. split; [done|].
  case_match; [apply advance_commit_kept|reflexivity].
Qed.

(** What the leader change sets besides the nodes. *)
Definition office_view (c : RaftCluster) :=
  (rc_leader_id c, rc_leader_lease_valid c, rc_follower_lease_valid c, rc_vote_responses c,
   rc_pre_vote_responses c, rc_reorder_queues c, rc_last_index_before_current_term c).

Lemma refresh_commit_index_view c : office_view (refresh_commit_index c) = office_view c.
Proof. unfold refresh_commit_index. repeat (case_match; try done). Qed.

Lemma refresh_policy_view c :
  office_view (snd (refresh_witness_commit_quorum_policy c)) = office_view c.
Proof.
  unfold refresh_witness_commit_quorum_policy. cbn [snd]. destruct (negb _); [|done].
  by rewrite refresh_commit_index_view.
Qed.

Lemma reset_pipelines_only l c :
  reset_replication_pipelines_for_leader l c
  = c <| rc_peer_pipelines := rc_peer_pipelines (reset_replication_pipelines_for_leader l c) |>.
Proof.
  unfold reset_replication_pipelines_for_leader.
  generalize (rc_last_log_index c +s 1), (pipeline_limits (rc_config c)), (node_ids c).
  intros next limits ids. revert c. induction ids as [|id ids IH]; intros c; [by destruct c|].
  cbn [foldl]. rewrite IH at 1. by destruct c.
Qed.

Lemma refresh_commit_index_known c : indexes_known c -> indexes_known (refresh_commit_index c).
Proof.
  intros Hk. unfold refresh_commit_index. destruct (commit_quorum_match_index c); [|done].
  destruct (rc_leader_id c); [|done]. destruct (rc_nodes c !! _); [|done]. destruct (negb _); [done|].
  apply refresh_cluster_indexes_known.
Qed.

Lemma refresh_policy_known c :
  indexes_known c -> indexes_known (snd (refresh_witness_commit_quorum_policy c)).
Proof.
  intros Hk. unfold refresh_witness_commit_quorum_policy. cbn [snd].
  destruct (negb _); [|done]. by apply refresh_commit_index_known.
Qed.

Record office_taken (k : NodeId) (t : Term) (c c' : RaftCluster) : Prop := {
  ot_leader : rc_leader_id c' = Some k;
  ot_term : rc_current_term c' = t;
  ot_leases : rc_leader_lease_valid c' = false /\ rc_follower_lease_valid c' = false;
  ot_cleared : rc_vote_responses c' = ∅ /\ rc_pre_vote_responses c' = ∅ /\ rc_reorder_queues c' = ∅;
  ot_before : rc_last_index_before_current_term c' = rc_last_log_index c;
  ot_nodes : forall id n', rc_nodes c' !! id = Some n' ->
    ballot n' = (t, Some k) /\ (nd_raft_role n' = Leader <-> id = k)
}.

(** A node after the election was recorded and the commit policy refreshed. *)
Definition elected_node (k : NodeId) (t : Term) (n n' : Node) : Prop :=
  nd_id n' = nd_id n /\ nd_replica_role n' = nd_replica_role n /\ nd_log n' = nd_log n
  /\ ballot n' = (t, Some k) /\ nd_raft_role n' = elected_role k Leader n.

Lemma take_office_spec k t c :
  let c' := take_office k t c in
  node_wise (elected_node k t) c c'
  /\ office_view c' = (Some k, false, false, ∅, ∅, ∅, rc_last_log_index c)
  /\ rc_current_term c' = t
  /\ (indexes_known c -> indexes_known c').
Proof.
  cbn zeta. pose proof (proj2 (take_office_ballots k t c)) as Ht. revert Ht. unfold take_office.
  set (c1 := clear_reorder_queues _).
  assert (settle_leader_transfer k c1 = c1 <| rc_leader_transfer := rc_leader_transfer (settle_leader_transfer k c1) |>
                   <| rc_aborted_leader_transfers := rc_aborted_leader_transfers (settle_leader_transfer k c1) |>) as Hs.
  { unfold settle_leader_transfer, complete_leader_transfer, abort_leader_transfer.
    destruct (active_leader_transfer c1); [|by destruct c1]. case_match; by destruct c1. }
  cbn zeta. set (c2 := settle_leader_transfer k c1) in *. clearbody c2. rewrite Hs. clear Hs.
  set (c3 := record_election k Leader _).
  assert (rc_nodes c3 = (fun node =>
            node <| nd_hard_state ::= (fun h => h <| hs_current_term := t |> <| hs_voted_for := Some k |>) |>
                 <| nd_raft_role := elected_role k Leader node |>) <$> rc_nodes c) as Hn3 by done.
  assert (office_view c3 = (Some k, false, false, ∅, ∅, ∅, rc_last_log_index c)) as Hv3 by done.
  assert (rc_last_log_index c3 = rc_last_log_index c) as Hl3 by done. clearbody c3.
  pose proof (refresh_policy_kept c3) as Hk4. pose proof (refresh_policy_view c3) as Hv4.
  pose proof (refresh_policy_known c3) as Hi4. set (c4 := snd (refresh_witness_commit_quorum_policy c3)) in *.
  clearbody c4. rewrite reset_pipelines_only. intros Ht. split_and!.
  - intros id n' Hn'. destruct (Hk4 id n' Hn') as (n3 & Hn & Hkept). rewrite Hn3, lookup_fmap in Hn.
    apply fmap_Some in Hn as (n & Hn & ->). exists n. split; [done|].
    destruct Hkept as (H1 & H2 & H3 & H4 & _ & H6). by split_and!.
  - rewrite <- Hv3, <- Hv4. done.
  - exact Ht.
  - intros Hi. apply Hi4. intros id n'. rewrite Hn3, Hl3, lookup_fmap.
    intros (n & Hn & ->)%fmap_Some. apply (Hi id n Hn).
Qed.

Lemma take_office_taken k t c :
  nodes_keyed c -> office_taken k t c (take_office k t c).
Proof.
  intros Hkey. destruct (take_office_spec k t c) as (Hn & Hv & Ht & _). unfold office_view in Hv.
  injection Hv as Hl Hlv Hfv Hvr Hpv Hrq Hbf. split; [done|done|done|done|done|].
  intros id n' Hn'. destruct (Hn id n' Hn') as (n & Hc & _ & _ & _ & Hb & Hr). split; [done|].
  rewrite Hr. unfold elected_role, passive_role. rewrite (Hkey _ _ Hc).
  destruct (N.eqb_spec id k); [done|]. by case_bool_decide.
Qed.

Lemma append_noop_role l e n : nd_raft_role (append_noop l e n) = nd_raft_role n.
Proof.
  assert (forall m, nd_raft_role (append_entry e m) = nd_raft_role m) as Ha
    by (intros m; by rewrite (append_entry_cursors e m)).
  unfold append_noop. repeat (case_match; rewrite ?Ha; try done).
  unfold append_witness_entry. cbn zeta.
  rewrite (append_entry_cursors _ (acknowledge_witness_index (entry_index e) n)). cbn.
  unfold acknowledge_witness_index. by case_match.
Qed.

Lemma broadcast_noop_office k t c c1 :
  office_taken k t c c1 ->
  match broadcast_leader_noop c1 with
  | (Ok lid, c2) =>
      office_taken k t c c2 /\ lid = mkLogId t (rc_last_log_index c1 + 1)
      /\ forall n1, rc_nodes c1 !! k = Some n1 -> nd_id n1 = k ->
           rc_nodes c2 !! k = Some (append_entry (mkLogEntry lid noop_payload false) n1)
  | (Err _, c2) => c2 = c1 /\ (u64_max <= rc_last_log_index c1)%N
  end.
Proof.
  intros [Hl Ht Hle Hcl Hb Hn]. unfold broadcast_leader_noop, next_log_index, ok_or. rewrite Hl.
  destruct (checked_add (rc_last_log_index c1) 1) as [i|] eqn:Ei.
  2: { split; [done|]. unfold checked_add in Ei.
       destruct (N.leb_spec (rc_last_log_index c1 + 1) u64_max); [done|lia]. }
  apply checked_add_Some in Ei as [-> _]. rewrite Ht. split_and!; [|done|].
  - split; try done. intros id n'. cbn. rewrite lookup_fmap. intros (n & Hid & ->)%fmap_Some.
    rewrite append_noop_ballot, append_noop_role. by apply Hn.
  - intros n1 Hn1 Hid. cbn. rewrite lookup_fmap, Hn1. cbn. unfold append_noop. by rewrite Hid, N.eqb_refl.
Qed.

Lemma campaign_allowed k forced c :
  campaign_refusal k forced c = None ->
  exists n, rc_nodes c !! k = Some n /\ nd_replica_role n = Voter.
Proof.
  unfold campaign_refusal. destruct (_ && _); [done|]. destruct (_ && _); [done|]. destruct (_ && _); [done|].
  destruct (rc_nodes c !! k) as [n|]; [|done]. destruct (nd_replica_role n) eqn:Er; try done. eauto.
Qed.

(** The leader's node once office is taken: its log is as it was and ends
    below the next index. *)
Lemma take_office_leader k t c n :
  nodes_keyed c -> indexes_known c -> rc_nodes c !! k = Some n -> nd_replica_role n = Voter ->
  exists n1, rc_nodes (take_office k t c) !! k = Some n1 /\ nd_id n1 = k /\ nd_log n1 = nd_log n
    /\ (index_or_default (last (nd_log n)) <= rc_last_log_index (take_office k t c))%N.
Proof.
  intros Hkey Hknown Hn Hr. destruct (take_office_spec k t c) as (Hw & _ & _ & Hi). specialize (Hi Hknown).
  destruct (take_office_ballots k t c) as [Hb _]. apply (f_equal (lookup k)) in Hb.
  unfold ballots in Hb. rewrite !lookup_fmap, Hn in Hb. cbn in Hb. apply fmap_Some in Hb as (n1 & Hn1 & _).
  exists n1. destruct (Hw _ _ Hn1) as (n0 & Hn0 & Hid & Hrole & Hlog & _). rewrite Hn in Hn0. injection Hn0 as <-.
  split_and!; [done|by rewrite Hid, (Hkey _ _ Hn)|done|].
  specialize (Hi _ _ Hn1). unfold match_index in Hi. rewrite Hrole, Hr, Hlog in Hi.
  rewrite bool_decide_eq_false_2 in Hi by done. cbn zeta in Hi. lia.
Qed.

Lemma append_entry_extends e n :
  (index_or_default (last (nd_log n)) < entry_index e)%N -> nd_log (append_entry e n) = nd_log n ++ [e].
Proof.
  intros Hlt. unfold append_entry. destruct (last (nd_log n)) as [x|]; [|done].
  cbn in Hlt. by rewrite (proj2 (N.ltb_lt _ _) Hlt).
Qed.

(** What a campaign does. A campaign that returns an error changed nothing,
    unless the error is that the leader's no-op has no index left. One that
    succeeds finds the candidate leading already, or moves the group to the next
    term with the candidate as its only leader: every node is in that term with
    its vote on the candidate, no lease is valid, no response or reordered append
    of an earlier term is left, and, in a running group whose last log index is
    known, the leader's log is its old log followed by a no-op of the new term. *)
Theorem campaign_effect k forced c :
  nodes_keyed c -> indexes_known c ->
  let t := (rc_current_term c + 1)%N in
  match campaign k forced c with
  | (Err _, c') => c' = c \/ (rc_running c = true /\ office_taken k t c c'
                              /\ (u64_max <= rc_last_log_index c')%N)
  | (Ok _, c') =>
      (already_leading k c = true /\ c' = c)
      \/ (u64 t /\ office_taken k t c c'
          /\ (rc_running c = true -> exists i n n',
                rc_nodes c !! k = Some n /\ rc_nodes c' !! k = Some n'
                /\ (index_or_default (last (nd_log n)) < i)%N
                /\ nd_log n' = nd_log n ++ [mkLogEntry (mkLogId t i) noop_payload false]))
  end.
Proof.
  intros Hkey Hknown. cbn zeta. unfold campaign.
  destruct (campaign_refusal k forced c) eqn:Eref; [by left|].
  destruct (already_leading k c); [by left|].
  destruct (checked_add _ 1) as [t|] eqn:Et; [|by left]. apply checked_add_Some in Et as [-> Hmax].
  set (t := (rc_current_term c + 1)%N) in *.
  pose proof (take_office_taken k t c Hkey) as Hot. pose proof (take_office_leader k t c) as Hlead.
  set (c1 := take_office k t c) in *. clearbody c1.
  destruct (rc_running c); [|by right]. unfold mbind, ST_bind.
  pose proof (broadcast_noop_office k t c c1 Hot) as Hb. destruct (broadcast_leader_noop c1) as [[lid|] c2].
  2: { destruct Hb as [-> Hb]. by right. }
  destruct Hb as (Hot2 & -> & Hlog). right. split_and!; [done|done|]. intros _.
  apply campaign_allowed in Eref as (n & Hn & Hr).
  destruct (Hlead n Hkey Hknown Hn Hr) as (n1 & Hn1 & Hid & Hl1 & Hlt).
  eexists (rc_last_log_index c1 + 1)%N, n, _.
  split_and!; [done|exact (Hlog n1 Hn1 Hid)|lia|]. rewrite <- Hl1. apply append_entry_extends. rewrite Hl1. cbn [entry_index]. unfold entry_index. cbn. lia.
Qed.

Lemma campaign_effect_witness :
  let c := snd (campaign 1 false sample_group) in
  nd_log <$> rc_nodes c !! 1%N = Some [mkLogEntry (mkLogId 1 1) noop_payload false]
  /\ office_taken 1 1 sample_group c.
Proof.
  intros c. split; [vm_compute; reflexivity|].
  assert (nodes_keyed sample_group) as Hk by (apply (bool_decide_unpack _); vm_compute; exact I).
  assert (indexes_known sample_group) as Hi by (apply (bool_decide_unpack _); vm_compute; exact I).
  assert (campaign 1 false sample_group = (Ok tt, c)) as Hc by (vm_compute; reflexivity).
  pose proof (campaign_effect 1 false sample_group Hk Hi) as H. rewrite Hc in H.
  destruct H as [[Ha _]|(_ & H & _)]; [vm_compute in Ha; discriminate Ha|exact H].
Defined.
