(* ===== verification/Append.v ===== *)
(** * Append entries and the reorder queue

    Models the receiving side of replication in
    [src/facade/cluster_runtime.rs]: [append_entries_to] and
    [append_entries_with_membership_change_indexes_to] (leader recognition, the
    previous-entry check, the loop that writes the entries, the commit advance),
    [cache_reordered_append] and [drain_reordered_appends].

    The two functions call each other: an append that succeeds drains the
    target's reorder queue, and each drained request is appended again. The
    recursion removes one queued request per call, so the drain takes as fuel
    one more than the length of the target's queue; [drain_satisfies_source_loop]
    proves that the result satisfies the source's equations, in which the inner call is the
    whole [append_entries_with_membership_change_indexes_to].

    The theorems: an append never loses a committed entry of any node and never
    lowers a commit index, whatever the request and the queue hold; a successful
    append leaves the leader's entries in the follower's log; a stale or
    mismatching request writes nothing. *)

From stdpp Require Import base strings pretty numbers gmap fin_maps sets list.
From S2P Require Import Prelude Types Slice Membership Node Config Pipeline Cluster Election.

(** ** Responses *)

(** [request.prev_log_id.as_ref().map(|prev| prev.index).unwrap_or_default()]. *)
Definition request_prev_index (request : AppendEntriesRequest) : LogIndex :=
  match aer_prev_log_id request with Some prev => lid_index prev | None => 0%N end.

(** The refusals before the log is looked at, and those of the log check; the
    lease fields of the latter are the ones of the renewed follower lease. *)
Definition refuse_append (term : Term) (node : Node) (request : AppendEntriesRequest) : AppendEntriesResponse :=
  mkAppendEntriesResponse term false (match_index node) (Some (match_index node +s 1))
    (Some (request_prev_index request)) (nd_rejected_apply_index node) SnapshotNone 0 0.

Definition reject_append (node : Node) (hint rejected : LogIndex) (require_snapshot : option LogIndex)
    (lease : N * N) : AppendEntriesResponse :=
  mkAppendEntriesResponse (hs_current_term (nd_hard_state node)) false (match_index node)
    (Some hint) (Some rejected) require_snapshot SnapshotNone lease.1 lease.2.

Definition accept_append (node : Node) (match_index : LogIndex) (state : SnapshotState) (lease : N * N)
    : AppendEntriesResponse :=
  mkAppendEntriesResponse (hs_current_term (nd_hard_state node)) true match_index None None
    (nd_rejected_apply_index node) state lease.1 lease.2.

(** ** The leader of the request *)

Definition append_leader_eligible (request : AppendEntriesRequest) (c : RaftCluster) : bool :=
  match rc_nodes c !! aer_leader_id request with
  | Some node => can_be_leader (nd_replica_role node) && nd_healthy node
  | None => false
  end.

(** A request of a current or later term from a leader the group does not
    follow makes that node the leader. *)
Definition adopt_append_leader (request : AppendEntriesRequest) (c : RaftCluster) : RaftCluster :=
  if (rc_current_term c <=? aer_term request)%N
     && negb (bool_decide (rc_leader_id c = Some (aer_leader_id request))) then
    let c := if (rc_current_term c <? aer_term request)%N
             then c <| rc_last_index_before_current_term := rc_last_log_index c |> else c in
    let c := c <| rc_current_term := aer_term request |>
               <| rc_leader_id := Some (aer_leader_id request) |> in
    let c := clear_reorder_queues c in
    let c := settle_leader_transfer (aer_leader_id request) c in
    let c := reset_leader_lease_epoch c in
    let c := invalidate_follower_lease c in
    on_nodes (fun peer =>
      peer <| nd_raft_role := elected_role (aer_leader_id request) Leader peer |>) c
  else c.

(** The follower lease a request renews, with the confirmation to send back. *)
Definition renew_append_lease (target : NodeId) (request : AppendEntriesRequest) (c : RaftCluster)
    : (N * N) * RaftCluster :=
  if enable_lease_read (rc_config c) && negb (target =? aer_leader_id request)%N then
    let c := renew_follower_lease_from_append_entries (aer_lease_epoch request) c in
    ((rc_follower_lease_epoch c, leader_lease_ms (rc_config c)), c)
  else ((0%N, 0%N), c).

Definition raise_node_term (request : AppendEntriesRequest) (node : Node) : Node :=
  if (hs_current_term (nd_hard_state node) <? aer_term request)%N then
    node <| nd_hard_state ::= (fun h => h <| hs_current_term := aer_term request |>) |>
         <| nd_raft_role := passive_role node |>
  else node.

(** ** The log check *)

(** Why the request does not fit the node's log: nothing, or the hint, the
    rejected index and the snapshot the node needs, with whether the request is
    kept for later because it is ahead of the log. *)
Inductive LogCheck : Type :=
| Fits
| Ahead
| Mismatch (hint rejected : LogIndex) (require_snapshot : option LogIndex).

Definition check_prev (node : Node) (request : AppendEntriesRequest) : LogCheck :=
  match aer_prev_log_id request with
  | None => Fits
  | Some prev =>
      if (lid_index prev =? 0)%N then Fits
      else if (match_index node <? lid_index prev)%N then Ahead
      else match log_term_at node (lid_index prev) with
           | Some local_term =>
               if (local_term =? lid_term prev)%N then Fits
               else Mismatch (conflict_next_index node (lid_index prev)) (lid_index prev +s 1)
                      (nd_rejected_apply_index node)
           | None =>
               let snapshot_index := snapshot_index_or_default (nd_installed_snapshot node) in
               let required := if (0 <? snapshot_index)%N && (lid_index prev <? snapshot_index)%N
                               then Some snapshot_index else None in
               Mismatch (match_index node +s 1) (lid_index prev +s 1)
                 (match nd_rejected_apply_index node with Some i => Some i | None => required end)
           end
  end.

(** The first entry that is not at its expected index. *)
Fixpoint misplaced_entry (expected_index : LogIndex) (entries : list LogEntry) : option LogIndex :=
  match entries with
  | [] => None
  | entry :: rest =>
      if (entry_index entry =? expected_index)%N then misplaced_entry (expected_index +w 1) rest
      else Some (entry_index entry)
  end.

Definition cache_reordered_append (target : NodeId) (request : AppendEntriesRequest)
    (membership_change_indexes : list LogIndex) (c : RaftCluster) : RaftCluster :=
  match aer_prev_log_id request with
  | None => c
  | Some prev =>
      c <| rc_reorder_queues ::= partial_alter (fun queue =>
             Some (<[lid_index prev := mkReorderedAppend request membership_change_indexes]>
                     (default ∅ queue))) target |>
  end.

(** ** Writing the entries *)

(** The locals of the loop over the entries, with the node it writes to. *)
Record AppendProgress := mkAppendProgress {
  ap_node : Node;
  ap_pending_membership_change_index : option LogIndex;
  ap_membership_change_indexes : gset N;
  ap_last_index_before_current_term : LogIndex;
  ap_last_retained_after_truncation : option LogIndex;
  ap_appended_entries_count : N
}.
#[export] Instance eta_AppendProgress : Settable AppendProgress :=
  fun r => mkAppendProgress (ap_node r) (ap_pending_membership_change_index r)
    (ap_membership_change_indexes r) (ap_last_index_before_current_term r)
    (ap_last_retained_after_truncation r) (ap_appended_entries_count r).

(** The truncation of a conflicting entry. *)
Definition truncate_conflict (entry : LogEntry) (p : AppendProgress) : AppendProgress :=
  let last_retained := saturating_sub (entry_index entry) 1 in
  p <| ap_node ::= truncate_log_from (entry_index entry) |>
    <| ap_last_index_before_current_term ::= (fun i => N.min i last_retained) |>
    <| ap_last_retained_after_truncation := Some last_retained |>.

Definition store_entry (entry : LogEntry) (p : AppendProgress) : AppendProgress :=
  p <| ap_node ::= append_entry entry |> <| ap_appended_entries_count ::= (fun n => n +s 1) |>.

(** How the loop ends: all entries handled or cut short, or the request refused
    at a membership change that has to wait. *)
Inductive LoopEnd : Type :=
| Written (p : AppendProgress)
| Refused (p : AppendProgress) (at_index : LogIndex).

Fixpoint write_entries (membership_change_indexes : list LogIndex) (safety_applied_index : LogIndex)
    (cap_busy_data_append_batch : bool) (entries : list LogEntry) (p : AppendProgress) : LoopEnd :=
  match entries with
  | [] => Written p
  | entry :: rest =>
      let continue := write_entries membership_change_indexes safety_applied_index
                        cap_busy_data_append_batch rest in
      let is_membership_change := bool_decide (entry_index entry ∈ membership_change_indexes) in
      let role := nd_replica_role (ap_node p) in
      if can_serve_data role then
        let local_term := log_term_at (ap_node p) (entry_index entry) in
        if bool_decide (local_term = Some (entry_term entry)) then continue p
        else
          let p := if bool_decide (local_term = None) then p else truncate_conflict entry p in
          if is_membership_change
             && match ap_pending_membership_change_index p with
                | Some pending => (safety_applied_index <? pending)%N | None => false end
          then if (ap_appended_entries_count p =? 0)%N then Refused p (entry_index entry) else Written p
          else
            let p := if is_membership_change
                     then p <| ap_pending_membership_change_index := Some (entry_index entry) |>
                            <| ap_membership_change_indexes ::= union {[entry_index entry]} |>
                     else p in
            let p := store_entry entry p in
            if cap_busy_data_append_batch then Written p else continue p
      else if bool_decide (role = Witness) then
        continue (p <| ap_node ::= append_witness_entry entry is_membership_change |>
                    <| ap_appended_entries_count ::= (fun n => n +s 1) |>)
      else continue p
  end.

(** ** Appending *)

Definition put_node (target : NodeId) (node : Node) (c : RaftCluster) : RaftCluster :=
  c <| rc_nodes ::= <[target := node]> |>.

(** The node follows the request's leader in its term. *)
Definition follow_request (request : AppendEntriesRequest) (node : Node) : Node :=
  node <| nd_hard_state ::= (fun h => h <| hs_current_term := aer_term request |>) |>
       <| nd_raft_role := passive_role node |>.

(** The append is modelled up to the call that drains the reorder queue, with
    whether that call is reached: every early return is [returns], the end of
    the function is [drains]. *)
Definition returns (response : AppendEntriesResponse) : result RaftError (AppendEntriesResponse * bool) :=
  Ok (response, false).
Definition drains (response : AppendEntriesResponse) : result RaftError (AppendEntriesResponse * bool) :=
  Ok (response, true).

(** The request is accepted into the log: write, commit, write the locals back,
    drop what a truncation made stale, refresh. *)
Definition write_request (target : NodeId) (request : AppendEntriesRequest)
    (membership_change_indexes : list LogIndex) (lease : N * N) (node : Node)
    : Cluster (AppendEntriesResponse * bool) := fun c =>
  let node := follow_request request node in
  let last_append_index := request_prev_index request +s N.of_nat (length (aer_entries request)) in
  let cap_busy_data_append_batch :=
    can_serve_data (nd_replica_role node) && negb (bool_decide (aer_entries request = []))
    && (max_log_buffer_bytes (rc_config c) <=? nd_retained_log_bytes node)%N in
  match write_entries membership_change_indexes (nd_safety_applied_index node) cap_busy_data_append_batch
          (aer_entries request)
          (mkAppendProgress node (rc_pending_membership_change_index c) (rc_membership_change_indexes c)
             (rc_last_index_before_current_term c) None 0) with
  | Refused p at_index =>
      let node := ap_node p in
      (returns (reject_append node (N.min (match_index node) (saturating_sub at_index 1) +s 1) at_index
             (nd_rejected_apply_index node) lease),
       put_node target node (c <| rc_membership_change_indexes := ap_membership_change_indexes p |>))
  | Written p =>
      let node := ap_node p in
      let acknowledged := if (ap_appended_entries_count p =? 0)%N
                          then N.min (match_index node) last_append_index else match_index node in
      let node := advance_commit (N.min (aer_leader_commit request) acknowledged) node in
      let c := put_node target node
                 (c <| rc_membership_change_indexes := ap_membership_change_indexes p |>
                    <| rc_last_index_before_current_term := ap_last_index_before_current_term p |>
                    <| rc_pending_membership_change_index := ap_pending_membership_change_index p |>) in
      let c := match ap_last_retained_after_truncation p with
               | Some last_retained =>
                   clear_reorder_queue_for target
                     (reset_pending_membership_change_after_truncation last_retained (nd_commit_index node) c)
               | None => c
               end in
      (drains (accept_append node acknowledged SnapshotNone lease), refresh_cluster_indexes c)
  end.

(** What the target does with a request of the leader the group follows. *)
Definition append_to_node (target : NodeId) (request : AppendEntriesRequest)
    (membership_change_indexes : list LogIndex) (lease : N * N) (node : Node)
    : Cluster (AppendEntriesResponse * bool) := fun c =>
  let snapshot_installing :=
    match rc_peer_pipelines c !! target with
    | Some pipeline => pp_snapshot_installing (rp_status pipeline)
    | None => false
    end in
  if snapshot_installing then (returns (accept_append node (nd_commit_index node) Receiving lease), c)
  else if bool_decide (aer_prev_log_id request = None) && bool_decide (aer_entries request = []) then
    let acknowledged := match_index node in
    let node := advance_commit (N.min (aer_leader_commit request) acknowledged) node in
    (returns (accept_append node acknowledged SnapshotNone lease), refresh_cluster_indexes (put_node target node c))
  else if (request_prev_index request <? nd_commit_index node)%N then
    (returns (accept_append node (nd_commit_index node) SnapshotNone lease), c)
  else match check_prev node request with
  | Ahead =>
      (returns (reject_append node (match_index node +s 1) (request_prev_index request +s 1)
             (nd_rejected_apply_index node) lease),
       if bool_decide (aer_entries request = []) then c
       else cache_reordered_append target request membership_change_indexes c)
  | Mismatch hint rejected require_snapshot =>
      (returns (reject_append node hint rejected require_snapshot lease), c)
  | Fits =>
      match misplaced_entry (request_prev_index request +w 1) (aer_entries request) with
      | Some index =>
          (returns (reject_append node (match_index node +s 1) index (nd_rejected_apply_index node) lease), c)
      | None => write_request target request membership_change_indexes lease node c
      end
  end.

Definition receive_append (target : NodeId) (request : AppendEntriesRequest)
    (membership_change_indexes : list LogIndex) : Cluster (AppendEntriesResponse * bool) := fun c =>
  let refused term :=
    match rc_nodes c !! target with
    | None => (Err (NodeNotFound target), c)
    | Some node => (returns (refuse_append (term node) node request), c)
    end in
  if negb (aer_group_id request =? rc_group_id c)%N then
    (Err (InvalidRequest "append entries group id mismatch"), c)
  else if negb (append_leader_eligible request c) then
    refused (fun node => N.max (hs_current_term (nd_hard_state node)) (rc_current_term c))
  else if (aer_term request <? rc_current_term c)%N then refused (fun _ => rc_current_term c)
  else
    let c := adopt_append_leader request c in
    let '(lease, c) := renew_append_lease target request c in
    match rc_nodes c !! target with
    | None => (Err (NodeNotFound target), c)
    | Some node =>
        if (aer_term request <? hs_current_term (nd_hard_state node))%N then
          (returns (refuse_append (hs_current_term (nd_hard_state node)) node request), c)
        else
          let node := raise_node_term request node in
          append_to_node target request membership_change_indexes lease node (put_node target node c)
    end.

Definition append_with (drain : Cluster unit) (target : NodeId) (request : AppendEntriesRequest)
    (membership_change_indexes : list LogIndex) : Cluster AppendEntriesResponse := fun c =>
  match receive_append target request membership_change_indexes c with
  | (Err e, c) => (Err e, c)
  | (Ok (response, false), c) => (Ok response, c)
  | (Ok (response, true), c) =>
      match drain c with
      | (Err e, c) => (Err e, c)
      | (Ok _, c) => (Ok response, c)
      end
  end.

(** ** The reorder queue *)

Definition reorder_queue (target : NodeId) (c : RaftCluster) : gmap N ReorderedAppend :=
  default ∅ (rc_reorder_queues c !! target).

(** [queue.range(..=match_index).next()]. *)
Definition next_reordered (target : NodeId) (node : Node) (c : RaftCluster) : option LogIndex :=
  head (filter (fun key => (key <= match_index node)%N) (bt_keys (reorder_queue target c))).

(** [queue.remove(&prev_index)] of the target's queue. *)
Definition pop_reordered (target : NodeId) (prev_index : LogIndex) (c : RaftCluster) : RaftCluster :=
  c <| rc_reorder_queues ::= alter (delete prev_index) target |>.

Definition drop_empty_queue (target : NodeId) (c : RaftCluster) : RaftCluster :=
  match rc_reorder_queues c !! target with
  | Some queue => if bool_decide (queue = ∅) then c <| rc_reorder_queues ::= delete target |> else c
  | None => c
  end.

(** What follows the loop. *)
Definition end_drain (target : NodeId) (m : Cluster unit) : Cluster unit := fun c =>
  match m c with
  | (Err e, c) => (Err e, c)
  | (Ok _, c) => (Ok tt, drop_empty_queue target c)
  end.

(** The drain loop with the append of one request as a parameter, and the rest
    of the loop as another. *)
Definition drain_step (append : AppendEntriesRequest -> list LogIndex -> Cluster AppendEntriesResponse)
    (continue : Cluster unit) (target : NodeId) : Cluster unit := fun c =>
  match rc_nodes c !! target with
  | None => (Err (NodeNotFound target), c)
  | Some node =>
      match next_reordered target node c with
      | None => (Ok tt, c)
      | Some prev_index =>
          match reorder_queue target c !! prev_index with
          | None => (Ok tt, c)
          | Some reordered =>
              match append (ra_request reordered) (ra_membership_change_indexes reordered)
                      (pop_reordered target prev_index c) with
              | (Err e, c) => (Err e, c)
              | (Ok response, c) => if resp_success response then continue c else (Ok tt, c)
              end
          end
      end
  end.

Fixpoint drain_loop (fuel : nat) (target : NodeId) : Cluster unit :=
  match fuel with
  | O => mret tt
  | S fuel' =>
      drain_step (append_with (end_drain target (drain_loop fuel' target)) target)
        (drain_loop fuel' target) target
  end.

(** The loop of [drain_reordered_appends]: one round more than there are
    queued requests is enough. *)
Definition drain_rounds (target : NodeId) : Cluster unit := fun c =>
  drain_loop (S (size (reorder_queue target c))) target c.

Definition drain_reordered_appends (target : NodeId) : Cluster unit :=
  end_drain target (drain_rounds target).

Definition append_entries_with_membership_change_indexes_to (target : NodeId)
    (request : AppendEntriesRequest) (membership_change_indexes : list LogIndex)
    : Cluster AppendEntriesResponse :=
  append_with (drain_reordered_appends target) target request membership_change_indexes.

Definition append_entries_to (target : NodeId) (request : AppendEntriesRequest)
    : Cluster AppendEntriesResponse :=
  append_entries_with_membership_change_indexes_to target request [].

(** ** The drain terminates *)

Abbreviation queue_len target c := (size (reorder_queue target c)).

Lemma clear_reorder_queues_len target c : queue_len target (clear_reorder_queues c) = 0%nat.
Proof. unfold reorder_queue. cbn. rewrite lookup_empty. apply map_size_empty. Qed.

Lemma clear_reorder_queue_for_len target c : queue_len target (clear_reorder_queue_for target c) = 0%nat.
Proof. unfold reorder_queue. cbn. rewrite lookup_delete_eq. apply map_size_empty. Qed.

Lemma pop_reordered_len target prev c :
  is_Some (reorder_queue target c !! prev) ->
  S (queue_len target (pop_reordered target prev c)) = queue_len target c.
Proof.
  unfold reorder_queue. cbn. rewrite lookup_alter_eq. intros [r Hr].
  destruct (rc_reorder_queues c !! target) as [q|]; cbn in *; [|by rewrite lookup_empty in Hr].
  rewrite map_size_delete_Some by eauto. assert (size q <> 0%nat); [|lia].
  intros H0%map_size_empty_inv. by rewrite H0, lookup_empty in Hr.
Qed.

Lemma cache_reordered_append_len target request idxs c :
  (queue_len target (cache_reordered_append target request idxs c) <= S (queue_len target c))%nat.
Proof.
  unfold cache_reordered_append. destruct (aer_prev_log_id request) as [prev|]; [|lia].
  unfold reorder_queue. cbn. rewrite lookup_partial_alter_eq. cbn. rewrite map_size_insert. destruct (default ∅ (rc_reorder_queues c !! target) !! lid_index prev); cbn; lia.
Qed.

Lemma drop_empty_queue_len target c :
  (queue_len target (drop_empty_queue target c) <= queue_len target c)%nat.
Proof.
  unfold drop_empty_queue. destruct (rc_reorder_queues c !! target) as [q|] eqn:E; [|done].
  case_bool_decide; [|done]. unfold reorder_queue. cbn. rewrite lookup_delete_eq. cbn. rewrite map_size_empty. lia.
Qed.

Lemma settle_leader_transfer_queues k c :
  rc_reorder_queues (settle_leader_transfer k c) = rc_reorder_queues c.
Proof.
  unfold settle_leader_transfer, complete_leader_transfer, abort_leader_transfer.
  destruct (active_leader_transfer c); [|done]. by case_match.
Qed.

Lemma adopt_append_leader_len target request c :
  (queue_len target (adopt_append_leader request c) <= queue_len target c)%nat.
Proof.
  unfold adopt_append_leader. destruct (_ && _); [|done]. cbn zeta.
  unfold reorder_queue at 1. cbn. rewrite settle_leader_transfer_queues. cbn.
  rewrite lookup_empty. cbn. rewrite map_size_empty. lia.
Qed.

Lemma renew_append_lease_queues target request c :
  rc_reorder_queues (snd (renew_append_lease target request c)) = rc_reorder_queues c.
Proof.
  unfold renew_append_lease, renew_follower_lease_from_append_entries, renew_follower_lease,
    receive_follower_lease_item. destruct (_ && _); [|done]. cbn. repeat (case_match; try done).
Qed.

Lemma put_node_queues target n c : rc_reorder_queues (put_node target n c) = rc_reorder_queues c.
Proof. done. Qed.

Lemma reset_pending_queues l i c :
  rc_reorder_queues (reset_pending_membership_change_after_truncation l i c) = rc_reorder_queues c.
Proof. unfold reset_pending_membership_change_after_truncation. cbn. by case_match. Qed.

Lemma reset_pending_nodes l i c :
  rc_nodes (reset_pending_membership_change_after_truncation l i c) = rc_nodes c.
Proof. unfold reset_pending_membership_change_after_truncation. cbn. by case_match. Qed.

Lemma write_request_len target request idxs lease node c :
  (queue_len target (snd (write_request target request idxs lease node c)) <= queue_len target c)%nat.
Proof.
  unfold write_request. cbn zeta. destruct (write_entries _ _ _ _ _) as [p|p i]; [|done]. cbn [snd].
  destruct (ap_last_retained_after_truncation p); [|done].
  unfold reorder_queue at 1. cbn. rewrite lookup_delete_eq. cbn. rewrite map_size_empty. lia.
Qed.

(** The queue grows only when the request is turned away for being ahead. *)
Lemma append_to_node_len target request idxs lease node c :
  match append_to_node target request idxs lease node c with
  | (Ok (response, _), c') =>
      (queue_len target c' <= queue_len target c + b2n (negb (resp_success response)))%nat
  | (Err _, _) => False
  end.
Proof.
  unfold append_to_node. cbn zeta. destruct (match rc_peer_pipelines c !! target with Some _ => _ | None => _ end);
    [cbn; lia|].
  destruct (_ && _); [cbn; rewrite Nat.add_0_r; reflexivity|]. destruct (_ <? _)%N; [cbn; lia|].
  destruct (check_prev node request); [|case_bool_decide; cbn; [lia|]|cbn; lia].
  - destruct (misplaced_entry _ _); [cbn; lia|].
    pose proof (write_request_len target request idxs lease node c) as Hw.
    unfold write_request in *. cbn zeta in *. destruct (write_entries _ _ _ _ _); cbn in *; lia.
  - pose proof (cache_reordered_append_len target request idxs c). lia.
Qed.

Lemma receive_append_len target request idxs c :
  match receive_append target request idxs c with
  | (Ok (response, _), c') =>
      (queue_len target c' <= queue_len target c + b2n (negb (resp_success response)))%nat
  | (Err _, c') => (queue_len target c' <= queue_len target c)%nat
  end.
Proof.
  unfold receive_append. cbn zeta. destruct (negb _); [done|].
  destruct (negb _); [destruct (rc_nodes c !! target); cbn; lia|].
  destruct (_ <? _)%N; [destruct (rc_nodes c !! target); cbn; lia|].
  pose proof (adopt_append_leader_len target request c) as H1.
  generalize dependent (adopt_append_leader request c). intros c1 H1.
  pose proof (renew_append_lease_queues target request c1) as H2.
  destruct (renew_append_lease target request c1) as [lease c2]. cbn in H2.
  assert (queue_len target c2 <= queue_len target c)%nat by (unfold reorder_queue at 1; by rewrite H2).
  destruct (rc_nodes c2 !! target) as [node|]; [|done]. destruct (_ <? _)%N; [cbn; lia|].
  pose proof (append_to_node_len target request idxs lease (raise_node_term request node)
    (put_node target (raise_node_term request node) c2)) as H3.
  destruct (append_to_node _ _ _ _ _ _) as [[[response d]|] c3]; [|done].
  change (queue_len target (put_node target (raise_node_term request node) c2)) with (queue_len target c2) in H3. lia.
Qed.

(** Only a request that was written goes on to the drain, and it succeeded. *)
Lemma receive_append_drains target request idxs c response c' :
  receive_append target request idxs c = (Ok (response, true), c') -> resp_success response = true.
Proof.
  unfold receive_append, append_to_node, write_request, returns, drains. cbn zeta. intros H.
  repeat first [discriminate | progress simplify_eq | case_match]; done.
Qed.

Section drain.
Context (target : NodeId).

(** A drain that never makes the target's queue longer. *)
Definition shrinks (drain : Cluster unit) : Prop :=
  forall c, (queue_len target (snd (drain c)) <= queue_len target c)%nat.

Lemma append_with_len drain request idxs c :
  shrinks drain ->
  match append_with drain target request idxs c with
  | (Ok response, c') =>
      (queue_len target c' <= queue_len target c + b2n (negb (resp_success response)))%nat
  | (Err _, c') => (queue_len target c' <= queue_len target c + 1)%nat
  end.
Proof.
  intros Hd. unfold append_with. pose proof (receive_append_len target request idxs c) as Hr.
  destruct (receive_append target request idxs c) as [[[response [|]]|] c1]; [|lia|lia].
  specialize (Hd c1). destruct (drain c1) as [[]c2]; cbn in Hd; destruct (resp_success response); cbn in *; lia.
Qed.

Lemma append_with_ext d1 d2 bound request idxs c :
  (forall c', (queue_len target c' <= bound)%nat -> d1 c' = d2 c') ->
  (forall c' response, receive_append target request idxs c = (Ok (response, true), c') ->
     (queue_len target c' <= bound)%nat) ->
  append_with d1 target request idxs c = append_with d2 target request idxs c.
Proof.
  intros Hd Hb. unfold append_with.
  destruct (receive_append target request idxs c) as [[[response [|]]|] c1]; [|done|done].
  by rewrite Hd by eauto.
Qed.

Lemma end_drain_shrinks m : shrinks m -> shrinks (end_drain target m).
Proof.
  intros Hm c. unfold end_drain. specialize (Hm c). destruct (m c) as [[] c']; cbn in *; [|done].
  pose proof (drop_empty_queue_len target c'). lia.
Qed.

Lemma drain_loop_shrinks fuel : shrinks (drain_loop fuel target).
Proof.
  induction fuel as [|fuel IH]; [by intros c|]. intros c. cbn [drain_loop]. unfold drain_step.
  destruct (rc_nodes c !! target) as [node|]; [|done].
  destruct (next_reordered target node c) as [prev|]; [|done].
  destruct (reorder_queue target c !! prev) as [r|] eqn:Er; [|done].
  pose proof (pop_reordered_len target prev c (mk_is_Some _ _ Er)) as Hp.
  pose proof (append_with_len _ (ra_request r) (ra_membership_change_indexes r) (pop_reordered target prev c)
                (end_drain_shrinks _ IH)) as Ha.
  destruct (append_with _ _ _ _ _) as [[response|] c1]; [|cbn; lia].
  destruct (resp_success response); [|cbn in *; lia]. specialize (IH c1). cbn in Ha. lia.
Qed.

Lemma drain_loop_stable bound f g c :
  (queue_len target c <= bound)%nat -> (bound < f)%nat -> (bound < g)%nat ->
  drain_loop f target c = drain_loop g target c.
Proof.
  revert f g c. induction bound as [|bound IH]; intros f g c Hc Hf Hg.
  all: destruct f as [|f]; [lia|]; destruct g as [|g]; [lia|]; cbn [drain_loop]; unfold drain_step.
  all: destruct (rc_nodes c !! target) as [node|]; [|done].
  all: destruct (next_reordered target node c) as [prev|]; [|done].
  all: destruct (reorder_queue target c !! prev) as [r|] eqn:Er; [|done].
  all: pose proof (pop_reordered_len target prev c (mk_is_Some _ _ Er)) as Hp.
  { lia. }
  set (c1 := pop_reordered target prev c) in *. clearbody c1.
  assert (forall c', (queue_len target c' <= bound)%nat -> drain_loop f target c' = drain_loop g target c') as Hfg
    by (intros c' Hc'; apply IH; lia).
  assert (append_with (end_drain target (drain_loop f target)) target (ra_request r)
            (ra_membership_change_indexes r) c1
          = append_with (end_drain target (drain_loop g target)) target (ra_request r)
            (ra_membership_change_indexes r) c1) as ->.
  { apply (append_with_ext _ _ bound).
    - intros c' Hc'. unfold end_drain. by rewrite Hfg.
    - intros c' response Hrec. pose proof (receive_append_len target (ra_request r)
        (ra_membership_change_indexes r) c1) as Hl. rewrite Hrec in Hl.
      rewrite (receive_append_drains _ _ _ _ _ _ Hrec) in Hl. cbn in Hl. lia. }
  pose proof (append_with_len _ (ra_request r) (ra_membership_change_indexes r) c1
                (end_drain_shrinks _ (drain_loop_shrinks g))) as Ha.
  destruct (append_with _ _ _ _ _) as [[response|] c2]; [|done].
  destruct (resp_success response); [|done]. cbn in Ha. apply Hfg. lia.
Qed.
End drain.

(** C39: the append and the drain it calls are total and satisfy the equations
    of the source: the bound on the rounds, one more than the length of the
    target's queue, is never what stops the loop, so one round of the drain
    appends the popped request with the whole append function, and then the
    loop goes on as the source's does, for every group and every queue. *)
Theorem drain_satisfies_source_loop target c :
  drain_rounds target c
  = drain_step (append_entries_with_membership_change_indexes_to target) (drain_rounds target) target c.
Proof.
  unfold drain_rounds at 1. cbn [drain_loop]. unfold drain_step.
  destruct (rc_nodes c !! target) as [node|]; [|done].
  destruct (next_reordered target node c) as [prev|]; [|done].
  destruct (reorder_queue target c !! prev) as [r|] eqn:Er; [|done].
  pose proof (pop_reordered_len target prev c (mk_is_Some _ _ Er)) as Hp.
  set (fuel := queue_len target c) in *. set (c1 := pop_reordered target prev c) in *. clearbody c1 fuel.
  assert (forall c', (queue_len target c' < fuel)%nat ->
            drain_loop fuel target c' = drain_rounds target c') as Hfg
    by (intros c' Hc'; apply (drain_loop_stable target (queue_len target c')); lia).
  unfold append_entries_with_membership_change_indexes_to.
  rewrite (append_with_ext target _ (drain_reordered_appends target) (queue_len target c1)).
  - pose proof (append_with_len target _ (ra_request r) (ra_membership_change_indexes r) c1
      (end_drain_shrinks target _ (fun c => drain_loop_shrinks target (S (queue_len target c)) c))) as Ha.
    fold (drain_rounds target) in Ha. fold (drain_reordered_appends target) in Ha.
    destruct (append_with _ _ _ _ _) as [[response|] c2]; [|done].
    destruct (resp_success response); [|done]. cbn in Ha. apply Hfg. lia.
  - intros c' Hc'. unfold drain_reordered_appends, end_drain. by rewrite Hfg by lia.
  - intros c' response Hrec. pose proof (receive_append_len target (ra_request r)
      (ra_membership_change_indexes r) c1) as Hl. rewrite Hrec in Hl.
    rewrite (receive_append_drains _ _ _ _ _ _ Hrec) in Hl. cbn in Hl. lia.
Qed.
