(* ===== verification/AppendSafety.v ===== *)
(** * Safety of append entries

    The invariant of a replica that receives appends and the proof that
    [append_entries_to] of [Append.v] keeps it: the log is ordered, the part
    above the commit point has no holes, and the installed snapshot is
    committed. From it: no append loses a committed entry, for any request,
    membership-change marks and reorder queue, and the entries an accepted
    request wrote are the leader's. *)

From stdpp Require Import base strings pretty numbers sorting gmap fin_maps sets list.
From S2P Require Import Prelude Types Slice Membership Node Config Pipeline Cluster Election Append.

(** ** The invariant of one replica *)

Definition holds_index (n : Node) (i : LogIndex) : Prop := i ∈ (entry_index <$> nd_log n).

Record replica_ok (n : Node) : Prop := mk_replica_ok {
  ro_ordered : log_ordered (nd_log n);
  ro_dense : forall e i, e ∈ nd_log n -> (nd_commit_index n < i < entry_index e)%N -> holds_index n i;
  ro_snapshot : (snapshot_index_or_default (nd_installed_snapshot n) <= nd_commit_index n)%N
}.

(** The log reaches up to [i]: everything between the commit point and [i] is
    there, so an entry at [i] extends or replaces without leaving a hole. *)
Definition reaches (n : Node) (i : LogIndex) : Prop :=
  (nd_commit_index n < i)%N /\ forall j, (nd_commit_index n < j < i)%N -> holds_index n j.

(** What every step keeps. *)
Definition keeps (n n' : Node) : Prop :=
  replica_ok n ->
  replica_ok n' /\ (nd_commit_index n <= nd_commit_index n')%N
  /\ committed_log n `prefix_of` committed_log n'.

#[export] Instance keeps_preorder : PreOrder keeps.
Proof.
  split.
  - intros n Hn. split_and!; [done|lia|done].
  - intros a b c H1 H2 Ha. destruct (H1 Ha) as (Hb & Hc1 & Hp1). destruct (H2 Hb) as (Hc & Hc2 & Hp2).
    split_and!; [done|lia|by etrans].
Qed.

(** The entries below an index. *)
Definition cut (i : LogIndex) (l : list LogEntry) : list LogEntry :=
  filter (fun e => (entry_index e < i)%N) l.

Lemma log_ordered_cut_snoc i l e :
  log_ordered l -> entry_index e = i -> log_ordered (cut i l ++ [e]).
Proof.
  intros Hs <-. apply log_ordered_snoc; [by apply log_ordered_filter|].
  apply Forall_forall. intros x Hx. by apply list_elem_of_filter in Hx as [Hx _].
Qed.

Lemma committed_cut c i l :
  log_ordered l -> (c < i)%N ->
  filter (fun e => (entry_index e <= c)%N) l `prefix_of` cut i l.
Proof.
  intros Hs Hc.
  replace (filter (fun e => (entry_index e <= c)%N) l)
    with (filter (fun e => (entry_index e <= c)%N) (cut i l)).
  - by apply committed_prefix, log_ordered_filter.
  - unfold cut. rewrite list_filter_filter. apply list_filter_iff. intros x. split; [naive_solver|].
    intros. split; [done|lia].
Qed.

Lemma prefix_committed n n' :
  committed_log n `prefix_of` nd_log n' -> (nd_commit_index n <= nd_commit_index n')%N ->
  committed_log n `prefix_of` committed_log n'.
Proof.
  intros Hp Hc. unfold committed_log at 1. rewrite <- (filter_le_mono _ _ _ Hc). by apply prefix_filter.
Qed.

(** Writing at index [i] of a log that reaches it: the log below [i] stays and
    at most the entry [i] follows it. *)
Lemma write_at n n' i t :
  replica_ok n -> reaches n i ->
  nd_log n' = cut i (nd_log n) ++ t -> Forall (fun e => entry_index e = i) t -> (length t <= 1)%nat ->
  nd_commit_index n' = nd_commit_index n -> nd_installed_snapshot n' = nd_installed_snapshot n ->
  replica_ok n' /\ committed_log n `prefix_of` committed_log n' /\ reaches n' i
  /\ (t <> [] -> reaches n' (i + 1)).
Proof.
  intros [Ho Hd Hs] [Hi Hr] Hl Ht Hlen Hc Hsn.
  assert (forall j, (nd_commit_index n < j < i)%N -> holds_index n' j) as Hbelow.
  { intros j Hj. pose proof (Hr j Hj) as (x & -> & Hx)%list_elem_of_fmap. unfold holds_index. rewrite Hl.
    apply list_elem_of_fmap. exists x. split; [done|]. apply elem_of_app. left.
    apply list_elem_of_filter. split; [lia|done]. }
  split_and!.
  - split.
    + rewrite Hl. destruct t as [|e [|e' t]]; [rewrite app_nil_r; by apply log_ordered_filter| |cbn in Hlen; lia].
      apply log_ordered_cut_snoc; [done|]. by apply Forall_cons in Ht as [Ht _].
    + intros e j He Hj. rewrite Hc in Hj. apply Hbelow. split; [lia|].
      assert (entry_index e <= i)%N; [|lia]. rewrite Hl in He. apply elem_of_app in He as [He|He].
      * apply list_elem_of_filter in He as [He _]. lia.
      * apply list_elem_of_lookup in He as [k Hk]. pose proof (Forall_lookup_1 _ _ _ _ Ht Hk). cbn in *. lia.
    + by rewrite Hsn, Hc.
  - apply prefix_committed; [|lia]. rewrite Hl. apply prefix_app_r. by apply committed_cut.
  - split; [lia|]. by rewrite Hc.
  - intros Hne. split; [lia|]. rewrite Hc. intros j Hj. destruct (decide (j = i)) as [->|]; [|apply Hbelow; lia].
    destruct t as [|e t]; [done|]. apply Forall_cons in Ht as [<- _]. unfold holds_index. rewrite Hl.
    apply list_elem_of_fmap. exists e. split; [done|]. apply elem_of_app. right. by apply elem_of_cons; left.
Qed.

Lemma cut_split p i l :
  Forall (fun e => entry_index e < i)%N (take p l) -> Forall (fun e => i <= entry_index e)%N (drop p l) ->
  cut i l = take p l.
Proof.
  intros H1 H2. rewrite <- (take_drop p l) at 1. unfold cut. rewrite filter_app, (filter_id_Forall _ (take p l)) by done.
  rewrite (filter_nil_Forall _ (drop p l)); [by rewrite app_nil_r|]. eapply Forall_impl; [exact H2|]. cbn. lia.
Qed.

Lemma truncate_log_from_cut n i :
  log_ordered (nd_log n) -> (nd_commit_index n < i)%N ->
  nd_log (truncate_log_from i n) = cut i (nd_log n).
Proof.
  intros Hs Hi. unfold truncate_log_from. rewrite (proj2 (N.leb_gt _ _) Hi).
  pose proof (log_position_at_or_after_spec n i Hs) as Hp. destruct (log_position_at_or_after n i) as [p|].
  - destruct Hp as (_ & H1 & H2). cbn. symmetry. by apply cut_split.
  - symmetry. by apply filter_id_Forall.
Qed.

(** On a log that reaches the index of an entry, an append finds the entry or
    puts it behind the entries below it. *)
Lemma append_entry_cut e n :
  replica_ok n -> reaches n (entry_index e) ->
  (append_entry e n = n /\ exists x, x ∈ nd_log n /\ entry_index x = entry_index e /\ entry_term x = entry_term e)
  \/ nd_log (append_entry e n) = cut (entry_index e) (nd_log n) ++ [e].
Proof.
  intros [Ho Hd _] [Hi _].
  destruct (append_entry_log e n Ho) as [(Heq & x & Hx & Hxi & [Ht|Hc])|[[Hl Hnew]|(p & x & Hx & Hxi & _ & _ & Hl)]].
  - left. eauto.
  - lia.
  - right. rewrite Hl. f_equal. symmetry. apply filter_id_Forall, Forall_forall. intros y Hy.
    destruct (N.lt_trichotomy (entry_index y) (entry_index e)) as [?|[He|Hgt]]; [done|..]; exfalso; apply Hnew.
    + rewrite <- He. by apply list_elem_of_fmap_2.
    + by apply (Hd y).
  - right. rewrite Hl. f_equal. symmetry. apply cut_split.
    + apply Forall_lookup_2. intros j y Hy. apply lookup_take_Some in Hy as [Hy Hj].
      pose proof (log_ordered_lookup _ _ _ _ _ Ho Hj Hy Hx). lia.
    + apply Forall_lookup_2. intros j y Hy. rewrite lookup_drop in Hy.
      destruct j as [|j]; [rewrite Nat.add_0_r in Hy; naive_solver lia|].
      pose proof (log_ordered_lookup _ p (p + S j)%nat x y Ho ltac:(lia) Hx Hy). lia.
Qed.

(** The node holds an entry of this index and term. *)
Definition holds_entry (n : Node) (e : LogEntry) : Prop :=
  exists x, x ∈ nd_log n /\ entry_index x = entry_index e /\ entry_term x = entry_term e.

(** What writing at an index keeps below it. *)
Definition retains_below (i : LogIndex) (n n' : Node) : Prop :=
  forall x, x ∈ nd_log n -> (entry_index x < i)%N -> x ∈ nd_log n'.

Lemma retains_cut i n n' t : nd_log n' = cut i (nd_log n) ++ t -> retains_below i n n'.
Proof. intros Hl x Hx Hi. rewrite Hl. apply elem_of_app. left. by apply list_elem_of_filter. Qed.

(** The node after the entry of index [i] was dealt with: in the log or not
    needed, with the log reaching one further. *)
Record handled (e : LogEntry) (n n' : Node) : Prop := mk_handled {
  hd_ok : replica_ok n';
  hd_commit : nd_commit_index n' = nd_commit_index n;
  hd_committed : committed_log n `prefix_of` committed_log n';
  hd_reaches : reaches n' (entry_index e + 1);
  hd_holds : holds_entry n' e;
  hd_retains : retains_below (entry_index e) n n'
}.

Lemma holds_reaches n e :
  reaches n (entry_index e) -> holds_entry n e -> reaches n (entry_index e + 1).
Proof.
  intros [Hi Hr] (x & Hx & Hxi & _). split; [lia|]. intros j Hj.
  destruct (decide (j = entry_index e)) as [->|]; [|apply Hr; lia].
  unfold holds_index. rewrite <- Hxi. by apply list_elem_of_fmap_2.
Qed.

Lemma already_handled e n : replica_ok n -> reaches n (entry_index e) -> holds_entry n e -> handled e n n.
Proof. intros Hn Hr Hh. split; [done|done|done|by apply holds_reaches|done|by intros x]. Qed.

Lemma written_handled e s n n' :
  replica_ok n -> reaches n (entry_index e) ->
  nd_log n' = cut (entry_index e) (nd_log n) ++ [s] -> log_id s = log_id e ->
  nd_commit_index n' = nd_commit_index n -> nd_installed_snapshot n' = nd_installed_snapshot n ->
  handled e n n'.
Proof.
  intros Hn Hr Hl Hs Hc Hsn.
  assert (entry_index s = entry_index e /\ entry_term s = entry_term e) as [Hsi Hst]
    by (unfold entry_index, entry_term; by rewrite Hs).
  destruct (write_at n n' (entry_index e) [s] Hn Hr Hl) as (H1 & H2 & H3 & H4); [by repeat constructor|cbn; lia|done|done|].
  split; [done|done|done|by apply H4| |by eapply retains_cut].
  exists s. split_and!; [|done|done]. rewrite Hl. apply elem_of_app. right. by apply elem_of_cons; left.
Qed.

Lemma append_entry_handled e n : replica_ok n -> reaches n (entry_index e) -> handled e n (append_entry e n).
Proof.
  intros Hn Hr. destruct (append_entry_cut e n Hn Hr) as [[-> Hx]|Hl]; [by apply already_handled|].
  apply (written_handled e e); [done|done|done|done|..]; rewrite (append_entry_cursors e n); done.
Qed.

Lemma handled_compose e n n1 n2 :
  nd_commit_index n1 = nd_commit_index n -> committed_log n `prefix_of` committed_log n1 ->
  retains_below (entry_index e) n n1 -> handled e n1 n2 -> handled e n n2.
Proof.
  intros Hc Hp Hr [H1 H2 H3 H4 H5 H6]. split; [done|congruence|by etrans|done|done|].
  intros x Hx Hi. apply H6; [by apply Hr|done].
Qed.

Lemma same_log_ok n n1 :
  nd_log n1 = nd_log n -> nd_commit_index n1 = nd_commit_index n ->
  nd_installed_snapshot n1 = nd_installed_snapshot n ->
  (replica_ok n -> replica_ok n1) /\ (forall i, reaches n i -> reaches n1 i)
  /\ committed_log n1 = committed_log n.
Proof.
  intros Hl Hc Hs. split_and!.
  - intros [H1 H2 H3]. split; unfold holds_index in *; rewrite ?Hl, ?Hc, ?Hs; try done.
  - intros i [H1 H2]. split; unfold holds_index in *; rewrite ?Hl, ?Hc; done.
  - unfold committed_log. by rewrite Hl, Hc.
Qed.

Lemma append_witness_entry_handled e keep n :
  replica_ok n -> reaches n (entry_index e) -> handled e n (append_witness_entry e keep n).
Proof.
  intros Hn Hr. unfold append_witness_entry. cbn zeta.
  set (n1 := acknowledge_witness_index (entry_index e) n).
  destruct (acknowledge_witness_index_log (entry_index e) n) as [Hl Hc]. fold n1 in Hl, Hc.
  assert (nd_installed_snapshot n1 = nd_installed_snapshot n) as Hs
    by (subst n1; unfold acknowledge_witness_index; by case_match).
  clearbody n1. destruct (same_log_ok n n1 Hl Hc Hs) as (Hok & Hre & Hcl). specialize (Hok Hn). specialize (Hre _ Hr).
  eapply (handled_compose e n n1); [done|by rewrite Hcl|intros x; by rewrite Hl|].
  set (s := mkLogEntry (log_id e) _ false).
  pose proof (append_entry_handled s n1 Hok Hre) as [H1 H2 H3 H4 H5 H6]. by split.
Qed.

(** Above the commit point the term of an index is that of the entry there. *)
Lemma log_term_at_entry n i t :
  replica_ok n -> (nd_commit_index n < i)%N -> log_term_at n i = Some t ->
  exists x, x ∈ nd_log n /\ entry_index x = i /\ entry_term x = t.
Proof.
  intros [Ho _ Hs] Hi Ht. unfold log_term_at in Ht.
  destruct (N.eqb_spec i 0) as [->|]; [lia|]. cbn zeta in Ht.
  assert ((log_position n i ≫= fun p => entry_term <$> nd_log n !! p) = Some t) as Hl.
  { destruct (nd_installed_snapshot n) as [snap|]; [|done]. cbn in Hs.
    destruct (N.eqb_spec (snap_index snap) i); [lia|done]. }
  apply bind_Some in Hl as (p & Hp & Hx). apply log_position_spec in Hp; [|done].
  apply fmap_Some in Hx as (x & Hx & ->). rewrite Hx in Hp. cbn in Hp. injection Hp as Hp.
  exists x. split_and!; [by eapply list_elem_of_lookup_2|done|done].
Qed.

Lemma truncate_append_handled e n :
  replica_ok n -> reaches n (entry_index e) ->
  handled e n (append_entry e (truncate_log_from (entry_index e) n))
  /\ replica_ok (truncate_log_from (entry_index e) n)
  /\ committed_log n `prefix_of` committed_log (truncate_log_from (entry_index e) n)
  /\ retains_below (entry_index e) n (truncate_log_from (entry_index e) n).
Proof.
  intros Hn Hr.
  assert (nd_log (truncate_log_from (entry_index e) n) = cut (entry_index e) (nd_log n) ++ []) as Hl.
  { rewrite app_nil_r. apply truncate_log_from_cut; [apply Hn|apply Hr]. }
  assert (nd_commit_index (truncate_log_from (entry_index e) n) = nd_commit_index n) as Hc
    by (by rewrite (truncate_log_from_cursors (entry_index e) n)).
  assert (nd_installed_snapshot (truncate_log_from (entry_index e) n) = nd_installed_snapshot n) as Hs
    by (by rewrite (truncate_log_from_cursors (entry_index e) n)).
  set (n1 := truncate_log_from (entry_index e) n) in *. clearbody n1.
  destruct (write_at n n1 (entry_index e) [] Hn Hr Hl) as (H1 & H2 & H3 & _); [done|cbn; lia|done|done|].
  pose proof (retains_cut _ _ _ _ Hl) as Hre.
  split_and!; [|done|done|done]. eapply (handled_compose e n n1); [done|done|done|by apply append_entry_handled].
Qed.

(** ** The loop over the entries *)

Definition end_node (r : LoopEnd) : Node :=
  match r with Written p | Refused p _ => ap_node p end.

Fixpoint contiguous (i : LogIndex) (entries : list LogEntry) : Prop :=
  match entries with
  | [] => True
  | e :: rest => entry_index e = i /\ contiguous (i + 1) rest
  end.

Lemma misplaced_contiguous i entries :
  (i + N.of_nat (length entries) <= u64_max + 1)%N ->
  misplaced_entry i entries = None -> contiguous i entries.
Proof.
  revert i. induction entries as [|e rest IH]; intros i Hb; cbn; [done|].
  destruct (N.eqb_spec (entry_index e) i) as [->|]; [|done]. intros Hm. split; [done|].
  cbn [length] in Hb. destruct rest as [|e' rest]; [done|]. rewrite wrapping_add_small in Hm by (cbn in Hb; lia).
  apply IH; [lia|done].
Qed.

(** The converse of [log_term_at_entry]. *)
Lemma log_term_at_elem n x :
  replica_ok n -> (nd_commit_index n < entry_index x)%N -> x ∈ nd_log n ->
  log_term_at n (entry_index x) = Some (entry_term x).
Proof.
  intros [Ho _ Hs] Hi Hx. unfold log_term_at. destruct (N.eqb_spec (entry_index x) 0) as [|]; [lia|]. cbn zeta.
  apply list_elem_of_lookup in Hx as [p Hp].
  assert (log_position n (entry_index x) = Some p) as -> by (apply log_position_spec; [done|by rewrite Hp]).
  cbn. rewrite Hp. destruct (nd_installed_snapshot n) as [snap|]; [|done]. cbn in Hs.
  destruct (N.eqb_spec (snap_index snap) (entry_index x)); [lia|done].
Qed.

(** The result of the loop: the replica is kept, and the entries are in it as
    far as the loop went. It stops early only at a cap or a membership change,
    and then an accepted request has stored something and the log ends before
    the first entry that was left out. *)
Record written_all (idxs : list LogIndex) (cap : bool) (i : LogIndex) (entries : list LogEntry)
    (n : Node) (r : LoopEnd) : Prop := mk_written_all {
  wa_ok : replica_ok (end_node r);
  wa_commit : nd_commit_index (end_node r) = nd_commit_index n;
  wa_committed : committed_log n `prefix_of` committed_log (end_node r);
  wa_retains : retains_below i n (end_node r);
  wa_holds : exists k, (k <= length entries)%nat /\ Forall (holds_entry (end_node r)) (take k entries)
    /\ ((k < length entries)%nat ->
         (cap = true \/ Exists (fun e => entry_index e ∈ idxs) entries)
         /\ match r with
            | Written q => ap_appended_entries_count q <> 0%N
                /\ can_serve_data (nd_replica_role (ap_node q)) = true
                /\ Forall (fun x => entry_index x < i + N.of_nat k)%N (nd_log (ap_node q))
            | Refused _ _ => True
            end)
}.

(** The entry and what follows are left out. *)
Lemma written_stop idxs cap i e rest n r :
  entry_index e ∈ idxs -> replica_ok (end_node r) -> nd_commit_index (end_node r) = nd_commit_index n ->
  committed_log n `prefix_of` committed_log (end_node r) -> retains_below i n (end_node r) ->
  match r with
  | Written q => ap_appended_entries_count q <> 0%N /\ can_serve_data (nd_replica_role (ap_node q)) = true
      /\ Forall (fun x => entry_index x < i)%N (nd_log (ap_node q))
  | Refused _ _ => True
  end ->
  written_all idxs cap i (e :: rest) n r.
Proof.
  intros He H1 H2 H3 H4 H5. split; [done|done|done|done|]. exists 0%nat. split_and!; [lia|done|].
  intros _. split; [right; by left|]. destruct r; [|done]. by rewrite N.add_0_r.
Qed.

(** The entry is dealt with and the loop goes on. *)
Lemma written_step idxs cap i e rest n n1 r :
  entry_index e = i -> handled e n n1 -> written_all idxs cap (i + 1) rest n1 r ->
  written_all idxs cap i (e :: rest) n r.
Proof.
  intros <- [H1 H2 H3 H4 H5 H6] [W1 W2 W3 W4 (k & W5 & W6 & W7)]. split.
  - done.
  - congruence.
  - by etrans.
  - intros x Hx Hi. apply W4; [by apply H6|lia].
  - exists (S k). cbn [take length]. split_and!; [lia| |].
    + constructor; [|done]. destruct H5 as (x & Hx & Hxi & Hxt). exists x. split_and!; [|done|done].
      apply W4; [done|lia].
    + intros Hk. destruct (W7 ltac:(lia)) as [Hc Hr]. split; [destruct Hc; [by left|right; by right]|].
      destruct r; [|done]. destruct Hr as (? & ? & Hr). split_and!; [done|done|]. eapply Forall_impl; [exact Hr|]. cbn. lia.
Qed.

(** The entry is stored and the batch is capped there. *)
Lemma written_capped idxs i e rest n q :
  entry_index e = i -> handled e n (ap_node q) -> ap_appended_entries_count q <> 0%N ->
  can_serve_data (nd_replica_role (ap_node q)) = true ->
  Forall (fun x => entry_index x <= i)%N (nd_log (ap_node q)) ->
  written_all idxs true i (e :: rest) n (Written q).
Proof.
  intros <- [H1 H2 H3 H4 H5 H6] Hq Hd Hl. split; [done|done|done|done|]. exists 1%nat. cbn. split_and!; [lia|by constructor|].
  intros _. split; [by left|]. split_and!; [done|done|]. eapply Forall_impl; [exact Hl|]. cbn. lia.
Qed.

(** A stored entry is the last one. *)
Lemma stored_last e n :
  replica_ok n -> reaches n (entry_index e) -> log_term_at n (entry_index e) <> Some (entry_term e) ->
  Forall (fun x => entry_index x <= entry_index e)%N (nd_log (append_entry e n)).
Proof.
  intros Hn Hr Ht. destruct (append_entry_cut e n Hn Hr) as [[_ (x & Hx & Hi & Hxt)]|Hl].
  - exfalso. apply Ht. rewrite <- Hi, <- Hxt. apply log_term_at_elem; [done|rewrite Hi; apply Hr|done].
  - rewrite Hl. apply Forall_app. split; [|by repeat constructor].
    apply Forall_forall. intros x [Hx _]%list_elem_of_filter. lia.
Qed.

(** The log before an entry is stored: cut at its index when it conflicts. *)
Record cleared (e : LogEntry) (p q : AppendProgress) : Prop := mk_cleared {
  cl_ok : replica_ok (ap_node q);
  cl_commit : nd_commit_index (ap_node q) = nd_commit_index (ap_node p);
  cl_committed : committed_log (ap_node p) `prefix_of` committed_log (ap_node q);
  cl_retains : retains_below (entry_index e) (ap_node p) (ap_node q);
  cl_reaches : reaches (ap_node q) (entry_index e);
  cl_free : log_term_at (ap_node q) (entry_index e) <> Some (entry_term e);
  cl_role : nd_replica_role (ap_node q) = nd_replica_role (ap_node p);
  cl_count : ap_appended_entries_count q = ap_appended_entries_count p;
  cl_below : ap_appended_entries_count p <> 0%N \/ log_term_at (ap_node p) (entry_index e) <> None ->
    Forall (fun x => entry_index x < entry_index e)%N (nd_log (ap_node q))
}.

Lemma conflict_cleared e p :
  replica_ok (ap_node p) -> reaches (ap_node p) (entry_index e) ->
  (ap_appended_entries_count p <> 0%N ->
   Forall (fun x => entry_index x < entry_index e)%N (nd_log (ap_node p))) ->
  log_term_at (ap_node p) (entry_index e) <> Some (entry_term e) ->
  cleared e p (if bool_decide (log_term_at (ap_node p) (entry_index e) = None) then p
               else truncate_conflict e p).
Proof.
  intros Hok Hre Hcount Hterm. case_bool_decide as Hnone.
  { split; try done; [by intros x|]. intros [?|?]; [by apply Hcount|done]. }
  destruct (truncate_append_handled e (ap_node p) Hok Hre) as (_ & H2 & H3 & H4).
  assert (nd_commit_index (truncate_log_from (entry_index e) (ap_node p)) = nd_commit_index (ap_node p)) as Hc
    by (by rewrite (truncate_log_from_cursors (entry_index e) (ap_node p))).
  assert (Forall (fun x => entry_index x < entry_index e)%N
            (nd_log (truncate_log_from (entry_index e) (ap_node p)))) as Hlt.
  { rewrite truncate_log_from_cut; [|apply Hok|apply Hre]. apply Forall_forall. by intros x [Hx _]%list_elem_of_filter. }
  split; try done.
  - split; [cbn; rewrite Hc; apply Hre|]. cbn. rewrite Hc. intros j Hj.
    pose proof (proj2 Hre j Hj) as (x & -> & Hx)%list_elem_of_fmap. apply list_elem_of_fmap_2, H4; [done|lia].
  - intros Ht. destruct (log_term_at_entry _ _ _ H2 ltac:(rewrite Hc; apply Hre) Ht) as (x & Hx & Hi & _).
    rewrite Forall_forall in Hlt. specialize (Hlt x Hx). lia.
  - cbn. by rewrite (truncate_log_from_cursors (entry_index e) (ap_node p)).
Qed.

Lemma stored_handled e p q :
  replica_ok (ap_node p) -> reaches (ap_node p) (entry_index e) -> cleared e p q ->
  handled e (ap_node p) (append_entry e (ap_node q)).
Proof.
  intros Hok Hre [C1 C2 C3 C4 C5 _ _ _ _].
  eapply (handled_compose e (ap_node p) (ap_node q)); [done|done|done|by apply append_entry_handled].
Qed.

Lemma append_witness_entry_role e keep n :
  nd_replica_role (append_witness_entry e keep n) = nd_replica_role n.
Proof.
  unfold append_witness_entry. cbn zeta. rewrite (append_entry_cursors _ (acknowledge_witness_index _ n)). cbn.
  unfold acknowledge_witness_index. by case_match.
Qed.

Lemma write_entries_written idxs s cap entries i p :
  replica_ok (ap_node p) -> reaches (ap_node p) i -> contiguous i entries ->
  (can_serve_data (nd_replica_role (ap_node p)) = true -> ap_appended_entries_count p <> 0%N ->
   Forall (fun x => entry_index x < i)%N (nd_log (ap_node p))) ->
  written_all idxs cap i entries (ap_node p) (write_entries idxs s cap entries p).
Proof.
  revert i p. induction entries as [|e rest IH]; intros i p Hok Hre Hcont Hcount.
  { split; [done|done|done|by intros x|]. exists 0%nat. split_and!; [cbn; lia|done|]. cbn. lia. }
  destruct Hcont as [<- Hcont]. cbn [write_entries]. cbn zeta.
  assert (forall q, handled e (ap_node p) (ap_node q) ->
    (can_serve_data (nd_replica_role (ap_node q)) = true -> ap_appended_entries_count q <> 0%N ->
     Forall (fun x => entry_index x <= entry_index e)%N (nd_log (ap_node q))) ->
    written_all idxs cap (entry_index e) (e :: rest) (ap_node p) (write_entries idxs s cap rest q)) as Hgo.
  { intros q Hq Hl. eapply written_step; [done|exact Hq|]. apply IH; [apply Hq|apply Hq|done|].
    intros Hd Ha. eapply Forall_impl; [by apply Hl|]. cbn. lia. }
  destruct (can_serve_data (nd_replica_role (ap_node p))) eqn:Edata.
  2: { case_bool_decide as Hw; [|by destruct (nd_replica_role (ap_node p))].
       apply Hgo; [by apply append_witness_entry_handled|]. cbn. by rewrite append_witness_entry_role, Hw. }
  case_bool_decide as Hsame.
  { apply Hgo; [apply already_handled; [done|done|]; apply log_term_at_entry; [done|apply Hre|done]|].
    intros _ Ha. eapply Forall_impl; [by apply Hcount|]. cbn. lia. }
  pose proof (conflict_cleared e p Hok Hre (Hcount eq_refl) Hsame) as Hcl.
  set (q := if bool_decide _ then p else _) in *. clearbody q.
  pose proof (stored_handled e p q Hok Hre Hcl) as Hst.
  pose proof (stored_last e (ap_node q) (cl_ok _ _ _ Hcl) (cl_reaches _ _ _ Hcl) (cl_free _ _ _ Hcl)) as Hlast.
  assert (can_serve_data (nd_replica_role (append_entry e (ap_node q))) = true) as Hrole
    by (by rewrite (append_entry_cursors e (ap_node q)), <- Edata, <- (cl_role _ _ _ Hcl)).
  assert (forall m, (m +s 1)%u64 <> 0%N) as Hnz by (unfold saturating_add, u64_max; lia).
  case_bool_decide as Hin; cbn [andb].
  - destruct (match ap_pending_membership_change_index q with Some _ => _ | None => _ end).
    + destruct (N.eqb_spec (ap_appended_entries_count q) 0) as [|Hne]; (apply written_stop; [done|apply Hcl..|]); [done|].
      split_and!; [done|by rewrite (cl_role _ _ _ Hcl)|]. apply Hcl. left. by rewrite <- (cl_count _ _ _ Hcl).
    + destruct cap; [apply written_capped; [done|done|apply Hnz|done|done]|by apply Hgo].
  - destruct cap; [apply written_capped; [done|done|apply Hnz|done|done]|by apply Hgo].
Qed.

(** ** The group *)

(** The indexes a request writes are machine integers. *)
Definition request_ok (request : AppendEntriesRequest) : Prop :=
  (request_prev_index request + N.of_nat (length (aer_entries request)) <= u64_max)%N.
#[export] Instance request_ok_dec r : Decision (request_ok r).
Proof. unfold request_ok. apply _. Defined.

Record group_ok (c : RaftCluster) : Prop := mk_group_ok {
  go_nodes : map_Forall (fun _ => replica_ok) (rc_nodes c);
  go_queues : map_Forall (fun _ => map_Forall (fun _ r => request_ok (ra_request r))) (rc_reorder_queues c)
}.

Definition node_kept (n n' : Node) : Prop :=
  (nd_commit_index n <= nd_commit_index n')%N /\ committed_log n `prefix_of` committed_log n'.

Definition group_keeps (c c' : RaftCluster) : Prop :=
  group_ok c ->
  group_ok c' /\ forall k n, rc_nodes c !! k = Some n -> exists n', rc_nodes c' !! k = Some n' /\ node_kept n n'.

#[export] Instance group_keeps_preorder : PreOrder group_keeps.
Proof.
  split.
  - intros c Hc. split; [done|]. intros k n Hn. exists n. split; [done|]. split; [lia|done].
  - intros a b c H1 H2 Ha. destruct (H1 Ha) as (Hb & Hn1). destruct (H2 Hb) as (Hc & Hn2). split; [done|].
    intros k n Hn. destruct (Hn1 k n Hn) as (n1 & Hk1 & [? ?]). destruct (Hn2 k n1 Hk1) as (n2 & Hk2 & [? ?]).
    exists n2. split; [done|]. split; [lia|by etrans].
Qed.

Lemma group_keeps_nodes c c' :
  rc_nodes c' = rc_nodes c ->
  (group_ok c -> map_Forall (fun _ => map_Forall (fun _ r => request_ok (ra_request r))) (rc_reorder_queues c')) ->
  group_keeps c c'.
Proof.
  intros Hn Hq Hc. split; [split; [rewrite Hn; apply Hc|by apply Hq]|].
  rewrite Hn. intros k n Hk. exists n. split; [done|]. split; [lia|done].
Qed.

Lemma keeps_same_log n n' :
  nd_log n' = nd_log n -> nd_commit_index n' = nd_commit_index n ->
  nd_installed_snapshot n' = nd_installed_snapshot n -> keeps n n'.
Proof.
  intros Hl Hc Hs Hn. destruct (same_log_ok n n' Hl Hc Hs) as (H1 & _ & H3).
  split_and!; [by apply H1|lia|by rewrite H3].
Qed.

Lemma keeps_advance_commit i n : keeps n (advance_commit i n).
Proof.
  intros [Ho Hd Hs]. destruct (advance_commit_cursors i n) as [Hc _].
  assert (nd_installed_snapshot (advance_commit i n) = nd_installed_snapshot n) as Hsn
    by (unfold advance_commit; cbn; repeat (case_match; try done)).
  split_and!.
  - split; unfold holds_index; rewrite ?advance_commit_log, ?Hsn, ?Hc; [done| |lia].
    intros e j He Hj. apply (Hd e); [done|lia].
  - lia.
  - apply prefix_committed; [|lia]. rewrite advance_commit_log. by apply committed_prefix.
Qed.

Lemma group_keeps_on_nodes f c : (forall n, keeps n (f n)) -> group_keeps c (on_nodes f c).
Proof.
  intros Hf Hc. split; [split; [|apply Hc]|].
  - intros k n'. cbn. rewrite lookup_fmap. intros (n & Hn & ->)%fmap_Some.
    apply Hf, (go_nodes c Hc k n Hn).
  - intros k n Hn. cbn. rewrite lookup_fmap, Hn. eexists. split; [reflexivity|].
    apply Hf, (go_nodes c Hc k n Hn).
Qed.

Lemma group_keeps_put target n n' c :
  rc_nodes c !! target = Some n -> keeps n n' -> group_keeps c (put_node target n' c).
Proof.
  intros Hn Hk Hc. destruct (Hk (go_nodes c Hc target n Hn)) as (Hok & Hkept). split; [split; [|apply Hc]|].
  - intros k m. cbn. rewrite lookup_insert. case_decide; [by intros [= <-]|]. apply (go_nodes c Hc).
  - intros k m Hm. cbn. rewrite lookup_insert. case_decide as Hkt.
    + subst k. rewrite Hn in Hm. injection Hm as <-. eauto.
    + exists m. split; [done|]. split; [lia|done].
Qed.

Lemma adopt_append_leader_keeps request c : group_keeps c (adopt_append_leader request c).
Proof.
  unfold adopt_append_leader. destruct (_ && _); [|reflexivity]. cbn zeta.
  etrans; [|apply group_keeps_on_nodes; intros n; by apply keeps_same_log].
  set (c1 := clear_reorder_queues _). assert (group_keeps c c1) as H1.
  { apply group_keeps_nodes; [subst c1; by case_match|]. intros _. subst c1. apply map_Forall_empty. }
  clearbody c1. etrans; [exact H1|].
  apply group_keeps_nodes.
  - unfold settle_leader_transfer, complete_leader_transfer, abort_leader_transfer.
    destruct (active_leader_transfer c1); [|done]. by case_match.
  - intros Hc. cbn. rewrite settle_leader_transfer_queues. apply Hc.
Qed.

Lemma renew_append_lease_keeps target request c :
  group_keeps c (snd (renew_append_lease target request c)).
Proof.
  apply group_keeps_nodes; [|intros Hc; rewrite renew_append_lease_queues; apply Hc].
  unfold renew_append_lease, renew_follower_lease_from_append_entries, renew_follower_lease,
    receive_follower_lease_item. destruct (_ && _); [|done]. cbn. repeat (case_match; try done).
Qed.

(** ** One request *)

Lemma check_prev_reaches node request :
  replica_ok node -> check_prev node request = Fits ->
  (nd_commit_index node <= request_prev_index request)%N -> reaches node (request_prev_index request + 1).
Proof.
  intros Hn Hf Hc. split; [lia|]. intros j Hj.
  unfold check_prev in Hf. unfold request_prev_index in *. destruct (aer_prev_log_id request) as [prev|]; [|lia].
  destruct (N.eqb_spec (lid_index prev) 0); [lia|]. destruct (_ <? _)%N; [done|].
  destruct (log_term_at node (lid_index prev)) as [t|] eqn:Et; [|done].
  destruct (log_term_at_entry node (lid_index prev) t Hn ltac:(lia) Et) as (x & Hx & Hxi & _).
  destruct (decide (j = lid_index prev)) as [->|].
  - unfold holds_index. rewrite <- Hxi. by apply list_elem_of_fmap_2.
  - apply (ro_dense _ Hn x); [done|lia].
Qed.

Lemma request_contiguous request :
  request_ok request -> misplaced_entry (request_prev_index request +w 1) (aer_entries request) = None ->
  contiguous (request_prev_index request + 1) (aer_entries request).
Proof.
  unfold request_ok. intros Hb Hm. destruct (aer_entries request) as [|e rest] eqn:He; [done|].
  apply misplaced_contiguous; [lia|]. by rewrite <- (wrapping_add_small (request_prev_index request) 1)
    by (cbn in Hb; lia).
Qed.

Lemma written_all_keeps idxs cap i entries n r : written_all idxs cap i entries n r -> keeps n (end_node r).
Proof. intros [H1 H2 H3 _ _] _. split_and!; [done|lia|done]. Qed.

(** The loop of an accepted request, from the node that follows the leader. *)
Lemma write_entries_keeps request idxs s cap node p :
  request_ok request -> replica_ok node -> check_prev node request = Fits ->
  (nd_commit_index node <= request_prev_index request)%N ->
  misplaced_entry (request_prev_index request +w 1) (aer_entries request) = None ->
  ap_node p = follow_request request node -> ap_appended_entries_count p = 0%N ->
  written_all idxs cap (request_prev_index request + 1) (aer_entries request) (follow_request request node)
    (write_entries idxs s cap (aer_entries request) p).
Proof.
  intros Hreq Hn Hf Hc Hm Hp Hp0.
  destruct (same_log_ok node (follow_request request node)) as (Hok & Hre & _); [done|done|done|].
  rewrite <- Hp. apply write_entries_written; rewrite ?Hp.
  - by apply Hok.
  - by apply Hre, check_prev_reaches.
  - by apply request_contiguous.
  - by rewrite Hp0.
Qed.

Lemma write_request_keeps target request idxs lease node c :
  request_ok request -> rc_nodes c !! target = Some node -> check_prev node request = Fits ->
  (nd_commit_index node <= request_prev_index request)%N ->
  misplaced_entry (request_prev_index request +w 1) (aer_entries request) = None ->
  group_keeps c (snd (write_request target request idxs lease node c)).
Proof.
  intros Hreq Hn Hf Hcm Hm Hc. refine ((_ : group_keeps c _) Hc). unfold write_request. cbn zeta.
  set (p := mkAppendProgress _ _ _ _ _ _). set (cap := _ && _).
  pose proof (write_entries_keeps request idxs (nd_safety_applied_index (follow_request request node)) cap node p
    Hreq (go_nodes c Hc target node Hn) Hf Hcm Hm eq_refl eq_refl) as Hw.
  assert (keeps node (follow_request request node)) as Hfr by (by apply keeps_same_log).
  clear Hc. apply written_all_keeps in Hw.
  destruct (write_entries _ _ _ _ _) as [q|q i]; cbn [end_node snd] in *.
  - set (node' := advance_commit _ _).
    assert (keeps node node') as Hk by (etrans; [exact Hfr|]; etrans; [exact Hw|apply keeps_advance_commit]).
    clearbody node'. etrans; [apply (group_keeps_put target node node' c Hn Hk)|].
    apply group_keeps_nodes.
    { destruct (ap_last_retained_after_truncation q); [|done]. cbn.
      unfold reset_pending_membership_change_after_truncation. cbn. by case_match. }
    intros Hc.
    destruct (ap_last_retained_after_truncation q) as [l|]; [|apply Hc].
    match goal with |- context [reset_pending_membership_change_after_truncation ?a ?b ?d] =>
      change (map_Forall (fun _ => map_Forall (fun _ r => request_ok (ra_request r)))
        (delete target (rc_reorder_queues (reset_pending_membership_change_after_truncation a b d)))) end.
    rewrite reset_pending_queues. apply map_Forall_delete, Hc.
  - etrans; [apply (group_keeps_put target node (ap_node q) c Hn)|]; [by etrans|].
    apply group_keeps_nodes; [done|]. intros Hc. apply Hc.
Qed.

Lemma cache_reordered_append_keeps target request idxs c :
  request_ok request -> group_keeps c (cache_reordered_append target request idxs c).
Proof.
  intros Hreq. apply group_keeps_nodes; [unfold cache_reordered_append; by case_match|].
  intros Hc. unfold cache_reordered_append. destruct (aer_prev_log_id request) as [prev|]; [|apply Hc].
  intros t q. cbn. destruct (decide (t = target)) as [->|Hne].
  - rewrite lookup_partial_alter_eq. intros [= <-]. apply map_Forall_insert_2; [done|].
    destruct (rc_reorder_queues c !! target) as [q|] eqn:Eq; [|apply map_Forall_empty].
    apply (go_queues c Hc target q Eq).
  - rewrite lookup_partial_alter_ne by done. apply (go_queues c Hc).
Qed.

Lemma append_to_node_keeps target request idxs lease node c :
  request_ok request -> rc_nodes c !! target = Some node ->
  group_keeps c (snd (append_to_node target request idxs lease node c)).
Proof.
  intros Hreq Hn. unfold append_to_node. cbn zeta.
  destruct (match rc_peer_pipelines c !! target with Some _ => _ | None => _ end); [reflexivity|].
  destruct (_ && _).
  { cbn [snd]. etrans; [apply (group_keeps_put target node), keeps_advance_commit; exact Hn|].
    apply group_keeps_nodes; [done|]. intros Hc. apply Hc. }
  destruct (N.ltb_spec (request_prev_index request) (nd_commit_index node)) as [|Hcm]; [reflexivity|].
  destruct (check_prev node request) eqn:Ef; [| |reflexivity].
  - destruct (misplaced_entry _ _) eqn:Em; [reflexivity|]. by apply write_request_keeps.
  - cbn [snd]. case_bool_decide; [reflexivity|]. by apply cache_reordered_append_keeps.
Qed.

Lemma receive_append_keeps target request idxs c :
  request_ok request -> group_keeps c (snd (receive_append target request idxs c)).
Proof.
  intros Hreq. unfold receive_append. cbn zeta. destruct (negb _); [reflexivity|].
  destruct (negb _); [destruct (rc_nodes c !! target); reflexivity|].
  destruct (_ <? _)%N; [destruct (rc_nodes c !! target); reflexivity|].
  etrans; [apply (adopt_append_leader_keeps request)|]. generalize (adopt_append_leader request c). intros c1.
  etrans; [apply (renew_append_lease_keeps target request)|].
  destruct (renew_append_lease target request c1) as [lease c2]. cbn [snd].
  destruct (rc_nodes c2 !! target) as [node|] eqn:En; [|reflexivity].
  destruct (_ <? _)%N; [reflexivity|].
  etrans; [apply (group_keeps_put target node (raise_node_term request node) c2 En)|].
  - unfold raise_node_term. case_match; [by apply keeps_same_log|reflexivity].
  - apply append_to_node_keeps; [done|]. cbn. apply lookup_insert_eq.
Qed.

(** ** Appends and drains *)

Lemma append_with_keeps drain target request idxs c :
  (forall c, group_keeps c (snd (drain c))) -> request_ok request ->
  group_keeps c (snd (append_with drain target request idxs c)).
Proof.
  intros Hd Hreq. unfold append_with. pose proof (receive_append_keeps target request idxs c Hreq) as Hr.
  destruct (receive_append target request idxs c) as [[[response [|]]|] c1]; cbn [snd] in *; [|done|done].
  etrans; [exact Hr|]. specialize (Hd c1). by destruct (drain c1) as [[] c2].
Qed.

Lemma pop_reordered_keeps target prev c : group_keeps c (pop_reordered target prev c).
Proof.
  apply group_keeps_nodes; [done|]. intros Hc t q. cbn. rewrite lookup_alter. case_decide as Ht.
  - intros (q0 & Hq0 & ->)%fmap_Some. apply map_Forall_delete, (go_queues c Hc _ _ Hq0).
  - apply (go_queues c Hc).
Qed.

Lemma drop_empty_queue_keeps target c : group_keeps c (drop_empty_queue target c).
Proof.
  unfold drop_empty_queue. destruct (rc_reorder_queues c !! target); [|reflexivity].
  case_bool_decide; [|reflexivity]. apply group_keeps_nodes; [done|]. intros Hc. apply map_Forall_delete, Hc.
Qed.

Lemma end_drain_keeps target m :
  (forall c, group_keeps c (snd (m c))) -> forall c, group_keeps c (snd (end_drain target m c)).
Proof.
  intros Hm c. unfold end_drain. specialize (Hm c). destruct (m c) as [[] c1]; cbn [snd] in *; [|done].
  etrans; [exact Hm|apply drop_empty_queue_keeps].
Qed.

Lemma drain_loop_keeps fuel target c : group_keeps c (snd (drain_loop fuel target c)).
Proof.
  revert c. induction fuel as [|fuel IH]; intros c; [reflexivity|]. cbn [drain_loop]. unfold drain_step.
  destruct (rc_nodes c !! target) as [node|]; [|reflexivity].
  destruct (next_reordered target node c) as [prev|]; [|reflexivity].
  destruct (reorder_queue target c !! prev) as [r|] eqn:Er; [|reflexivity].
  intros Hc. assert (request_ok (ra_request r)) as Hreq.
  { unfold reorder_queue in Er. destruct (rc_reorder_queues c !! target) as [q|] eqn:Eq; cbn in Er; [|by rewrite lookup_empty in Er].
    apply (go_queues c Hc _ _ Eq _ _ Er). }
  revert Hc. refine (_ : group_keeps c _). etrans; [apply (pop_reordered_keeps target prev)|].
  pose proof (append_with_keeps _ target (ra_request r) (ra_membership_change_indexes r)
    (pop_reordered target prev c) (end_drain_keeps target _ IH) Hreq) as Ha.
  destruct (append_with _ _ _ _ _) as [[response|] c1]; cbn [snd] in *; [|done].
  etrans; [exact Ha|]. destruct (resp_success response); [apply IH|reflexivity].
Qed.

(** C1: an append never loses a committed entry. For any request whose indexes
    are machine integers, accepted, refused, kept for later or drained from the
    queue, and any membership-change marks, every replica of the group keeps its
    invariant, its commit index does not go back, and its committed entries stay
    the unchanged beginning of its log. *)
Theorem append_never_loses_committed target request idxs c :
  request_ok request -> group_ok c ->
  let c' := snd (append_entries_with_membership_change_indexes_to target request idxs c) in
  group_ok c'
  /\ forall k n, rc_nodes c !! k = Some n ->
       exists n', rc_nodes c' !! k = Some n' /\ (nd_commit_index n <= nd_commit_index n')%N
         /\ committed_log n `prefix_of` committed_log n'.
Proof.
  intros Hreq Hc.
  assert (forall c0, group_keeps c0 (snd (drain_reordered_appends target c0))) as Hd
    by (apply end_drain_keeps; intros c0; apply drain_loop_keeps).
  destruct (append_with_keeps _ target request idxs c Hd Hreq Hc) as [H1 H2]. split; [exact H1|].
  intros k n Hn. destruct (H2 k n Hn) as (n' & Hn' & Hk1 & Hk2). eauto.
Qed.

(** Two entries of term 2 from the leader 1, and then, with the first committed
    on node 2, a conflicting second entry of term 3 from the leader 3. *)
Definition first_request : AppendEntriesRequest :=
  mkAppendEntriesRequest 7 2 1 None [sample_entry 2 1 4; sample_entry 2 2 5] 1 0.
Definition second_request : AppendEntriesRequest :=
  mkAppendEntriesRequest 7 3 3 (Some (mkLogId 2 1)) [sample_entry 3 2 1] 1 0.

Lemma sample_group_ok : group_ok sample_cluster.
Proof.
  split; [|apply (bool_decide_unpack _); vm_compute; exact I].
  assert (map_Forall (fun _ n => nd_log n = [] /\ nd_installed_snapshot n = None) (rc_nodes sample_cluster)) as H
    by (apply (bool_decide_unpack _); vm_compute; exact I).
  intros k n Hn. destruct (H k n Hn) as [Hl Hs].
  split; rewrite ?Hl, ?Hs; [constructor|set_solver|cbn; lia].
Qed.

Lemma append_never_loses_committed_witness :
  let c1 := snd (append_entries_with_membership_change_indexes_to 2 first_request [] sample_cluster) in
  let c2 := snd (append_entries_with_membership_change_indexes_to 2 second_request [] c1) in
  committed_log <$> rc_nodes c1 !! 2%N = Some [sample_entry 2 1 4]
  /\ nd_log <$> rc_nodes c2 !! 2%N = Some [sample_entry 2 1 4; sample_entry 3 2 1]
  /\ group_ok c1 /\ group_ok c2.
Proof.
  intros c1 c2. split; [vm_compute; reflexivity|]. split; [vm_compute; reflexivity|].
  assert (request_ok first_request) as H1 by (apply (bool_decide_unpack _); vm_compute; exact I).
  assert (request_ok second_request) as H2 by (apply (bool_decide_unpack _); vm_compute; exact I).
  destruct (append_never_loses_committed 2 first_request [] sample_cluster H1 sample_group_ok) as [G1 _].
  destruct (append_never_loses_committed 2 second_request [] c1 H2 G1) as [G2 _].
  split; [exact G1|exact G2].
Defined.

(** ** Acknowledgements *)

Lemma contiguous_lookup i entries j e :
  contiguous i entries -> entries !! j = Some e -> entry_index e = (i + N.of_nat j)%N.
Proof.
  revert i j. induction entries as [|x rest IH]; intros i j; cbn; [done|].
  intros [Hx Hc]. destruct j as [|j]; cbn; [intros [= <-]; lia|]. intros Hj. rewrite (IH _ _ Hc Hj). lia.
Qed.

(** A request that goes on to the drain was written on a node it fits. *)
Lemma receive_append_written target request idxs c response c' :
  receive_append target request idxs c = (Ok (response, true), c') ->
  exists c2 node lease,
    rc_nodes c2 !! target = Some node /\ group_keeps c c2
    /\ (nd_commit_index node <= request_prev_index request)%N /\ check_prev node request = Fits
    /\ misplaced_entry (request_prev_index request +w 1) (aer_entries request) = None
    /\ write_request target request idxs lease node c2 = (Ok (response, true), c').
Proof.
  unfold receive_append. cbn zeta. destruct (negb _); [done|].
  destruct (negb _); [by destruct (rc_nodes c !! target)|].
  destruct (_ <? _)%N; [by destruct (rc_nodes c !! target)|].
  pose proof (adopt_append_leader_keeps request c) as K1. generalize dependent (adopt_append_leader request c). intros c1 K1.
  pose proof (renew_append_lease_keeps target request c1) as K2.
  destruct (renew_append_lease target request c1) as [lease c2]. cbn [snd] in K2.
  destruct (rc_nodes c2 !! target) as [node|] eqn:En; [|done]. destruct (_ <? _)%N; [done|].
  assert (group_keeps c2 (put_node target (raise_node_term request node) c2)) as K3.
  { apply (group_keeps_put target node); [done|].
    unfold raise_node_term. case_match; [by apply keeps_same_log|reflexivity]. }
  assert (rc_nodes (put_node target (raise_node_term request node) c2) !! target
          = Some (raise_node_term request node)) as Hn by (cbn; apply lookup_insert_eq).
  set (c3 := put_node _ _ c2) in *. set (node' := raise_node_term request node) in *. clearbody c3 node'.
  unfold append_to_node. cbn zeta. destruct (match rc_peer_pipelines c3 !! target with Some _ => _ | None => _ end); [done|].
  destruct (_ && _); [done|]. destruct (N.ltb_spec (request_prev_index request) (nd_commit_index node')); [done|].
  destruct (check_prev node' request) eqn:Ef; [|done|done]. destruct (misplaced_entry _ _) eqn:Em; [done|].
  intros Hw. exists c3, node', lease. split_and!; try done. etrans; [exact K1|]. etrans; [exact K2|exact K3].
Qed.

(** The entries a written request acknowledges are in the log. *)
Lemma written_acknowledged idxs cap request node q e :
  request_ok request ->
  misplaced_entry (request_prev_index request +w 1) (aer_entries request) = None ->
  (nd_commit_index node <= request_prev_index request)%N ->
  written_all idxs cap (request_prev_index request + 1) (aer_entries request) (follow_request request node) (Written q) ->
  e ∈ aer_entries request ->
  (entry_index e <= if (ap_appended_entries_count q =? 0)%N
                    then N.min (match_index (ap_node q))
                           (request_prev_index request +s N.of_nat (length (aer_entries request)))
                    else match_index (ap_node q))%N ->
  holds_entry (ap_node q) e.
Proof.
  intros Hreq Hm Hc Hw [j Hj]%list_elem_of_lookup Hle.
  destruct Hw as [Hok Hcommit _ _ (k & Hk & Hholds & Hstop)]. cbn [end_node] in *.
  pose proof (contiguous_lookup _ _ _ _ (request_contiguous request Hreq Hm) Hj) as Hi.
  pose proof (lookup_lt_Some _ _ _ Hj) as Hlen. destruct (decide (j < k)%nat) as [Hjk|Hjk].
  - apply (Forall_lookup_1 _ _ j e Hholds). by apply lookup_take_Some.
  - exfalso. destruct (Hstop ltac:(lia)) as (_ & Hne & Hd & Hl).
    destruct (N.eqb_spec (ap_appended_entries_count q) 0); [done|].
    assert (match_index (ap_node q) <= request_prev_index request + N.of_nat k)%N; [|lia].
    pose proof (ro_snapshot _ Hok). change (nd_commit_index (follow_request request node)) with (nd_commit_index node) in Hcommit.
    unfold match_index. rewrite bool_decide_eq_false_2 by (intros E; by rewrite E in Hd). cbn zeta.
    destruct (last (nd_log (ap_node q))) as [x|] eqn:Ex; cbn [index_or_default]; [|lia].
    apply last_Some_elem_of, list_elem_of_lookup in Ex as [i Ex].
    pose proof (Forall_lookup_1 _ _ _ _ Hl Ex). cbn in *. lia.
Qed.

Lemma write_entries_ballot idxs s cap entries p :
  ballot (end_node (write_entries idxs s cap entries p)) = ballot (ap_node p).
Proof.
  assert (forall i n, ballot (truncate_log_from i n) = ballot n) as Ht
    by (intros i n; by rewrite (truncate_log_from_cursors i n)).
  revert p. induction entries as [|e rest IH]; intros p; [done|]. cbn [write_entries]. cbn zeta.
  destruct (can_serve_data _); [|case_bool_decide; rewrite IH; [apply append_witness_entry_ballot|done]].
  case_bool_decide; [apply IH|]. set (q := if bool_decide (log_term_at _ _ = None) then p else _).
  assert (ballot (ap_node q) = ballot (ap_node p)) as <- by (subst q; case_match; [done|apply Ht]). clearbody q.
  destruct (bool_decide _); cbn [andb].
  - destruct (match ap_pending_membership_change_index q with Some _ => _ | None => _ end); [by destruct (_ =? _)%N|].
    destruct cap; [apply append_entry_ballot|rewrite IH; apply append_entry_ballot].
  - destruct cap; [apply append_entry_ballot|rewrite IH; apply append_entry_ballot].
Qed.

(** C4: what an acknowledgement means. When a request is written to a replica,
    before the reorder queue is drained: the response succeeds in the request's
    term, the follower is in that term, every entry of the request up to the
    acknowledged index is in its log with the leader's term, and its commit index
    is at most the previous-entry index it matched, or the smaller of the
    leader's commit index and the acknowledged index. *)
Theorem append_acknowledges_only_held_entries target request idxs c response c' :
  request_ok request -> group_ok c ->
  receive_append target request idxs c = (Ok (response, true), c') ->
  resp_success response = true /\ resp_term response = aer_term request
  /\ exists n', rc_nodes c' !! target = Some n'
       /\ hs_current_term (nd_hard_state n') = aer_term request
       /\ (forall e, e ∈ aer_entries request -> (entry_index e <= resp_match_index response)%N ->
             exists x, x ∈ nd_log n' /\ entry_index x = entry_index e /\ entry_term x = entry_term e)
       /\ (nd_commit_index n' <= N.max (request_prev_index request)
             (N.min (aer_leader_commit request) (resp_match_index response)))%N.
Proof.
  intros Hreq Hc Hr.
  destruct (receive_append_written _ _ _ _ _ _ Hr) as (c2 & node & lease & Hn & Hk & Hcm & Hf & Hm & Hw).
  clear Hr. destruct (Hk Hc) as [Hc2 _]. revert Hw. unfold write_request. cbn zeta.
  set (p := mkAppendProgress _ _ _ _ _ _). set (cap := _ && _).
  pose proof (write_entries_keeps request idxs (nd_safety_applied_index (follow_request request node)) cap node p
    Hreq (go_nodes c2 Hc2 target node Hn) Hf Hcm Hm eq_refl eq_refl) as Hwa.
  pose proof (write_entries_ballot idxs (nd_safety_applied_index (follow_request request node)) cap
    (aer_entries request) p) as Hb.
  destruct (write_entries _ _ _ _ _) as [q|q i]; [|done]. cbn [end_node] in *. clearbody cap. intros [= <- <-].
  pose proof (written_acknowledged idxs cap request node q) as Hack.
  pose proof (wa_commit _ _ _ _ _ _ Hwa) as Hqc. cbn [end_node] in Hqc.
  change (nd_commit_index (follow_request request node)) with (nd_commit_index node) in Hqc.
  set (ack := if (_ =? _)%N then _ else _) in *. clearbody ack. set (n' := advance_commit _ _).
  assert (hs_current_term (nd_hard_state n') = aer_term request) as Ht.
  { pose proof (advance_commit_ballot (N.min (aer_leader_commit request) ack) (ap_node q)) as Hb'.
    rewrite Hb in Hb'. by injection Hb'. }
  assert (nd_log n' = nd_log (ap_node q)) as Hl by apply advance_commit_log.
  destruct (advance_commit_cursors (N.min (aer_leader_commit request) ack) (ap_node q)) as [Hci _].
  fold n' in Hci. clearbody n'. split_and!; [done|done|]. exists n'. split_and!; [|done| |cbn; lia].
  - destruct (ap_last_retained_after_truncation q); [|apply lookup_insert_eq].
    match goal with |- context [reset_pending_membership_change_after_truncation ?a ?b ?d] =>
      change (rc_nodes (reset_pending_membership_change_after_truncation a b d) !! target = Some n') end.
    rewrite reset_pending_nodes. apply lookup_insert_eq.
  - intros e He Hle. rewrite Hl. by apply (Hack e Hreq Hm Hcm Hwa He).
Qed.

Lemma append_acknowledges_only_held_entries_witness :
  resp_match_index <$> (fst <$> match fst (receive_append 2 first_request [] sample_cluster) with Ok r => Some r | Err _ => None end)
  = Some 2%N
  /\ exists n', rc_nodes (snd (receive_append 2 first_request [] sample_cluster)) !! 2%N = Some n'
       /\ exists x, x ∈ nd_log n' /\ entry_index x = 2%N /\ entry_term x = 2%N.
Proof.
  assert (request_ok first_request) as H1 by (apply (bool_decide_unpack _); vm_compute; exact I).
  split; [vm_compute; reflexivity|].
  assert (exists response, resp_match_index response = 2%N
            /\ receive_append 2 first_request [] sample_cluster
               = (Ok (response, true), snd (receive_append 2 first_request [] sample_cluster))) as (r & Hr & Hrec)
    by (eexists; split; [|vm_compute; reflexivity]; reflexivity).
  destruct (append_acknowledges_only_held_entries 2 first_request [] sample_cluster r _ H1 sample_group_ok Hrec)
    as (_ & _ & n' & Hn' & _ & Hheld & _).
  exists n'. split; [exact Hn'|]. apply (Hheld (sample_entry 2 2 5)); [|rewrite Hr; vm_compute; discriminate].
  right. left.
Defined.

(** ** Two corner cases

    Concrete runs of behaviours that the comments of the source do not lead one
    to expect. *)

(** A request of a later term from the leader the group already follows moves
    the target to that term but leaves the group's term where it was
    ([adopt_append_leader] looks at the term only when the leader is another),
    so a campaign of another node then takes the target back to an earlier
    term. *)
Example known_leader_term_not_adopted :
  let request := mkAppendEntriesRequest 7 5 1 None [sample_entry 5 1 4] 0 0 in
  let c1 := snd (append_entries_to 2 request sample_cluster) in
  let c2 := snd (campaign 3 true c1) in
  rc_current_term c1 = 2%N
  /\ ballots c1 !! 2%N = Some (5%N, None)
  /\ ballots c2 !! 2%N = Some (3%N, Some 3%N).
Proof. split_and!; vm_compute; reflexivity. Qed.

(** A membership change whose entry replaces a conflicting one is stored but
    not left pending: the marks above the truncation point are dropped after
    the loop has set the new one. The same request on a log without the
    conflict leaves it pending. *)
Example membership_change_over_conflict_not_pending :
  let c1 := snd (append_entries_with_membership_change_indexes_to 2 first_request [] sample_cluster) in
  let c2 := snd (append_entries_with_membership_change_indexes_to 2 second_request [2%N] c1) in
  let shorter := mkAppendEntriesRequest 7 2 1 None [sample_entry 2 1 4] 1 0 in
  let d1 := snd (append_entries_with_membership_change_indexes_to 2 shorter [] sample_cluster) in
  let d2 := snd (append_entries_with_membership_change_indexes_to 2 second_request [2%N] d1) in
  nd_log <$> rc_nodes c2 !! 2%N = nd_log <$> rc_nodes d2 !! 2%N
  /\ rc_pending_membership_change_index c2 = None
  /\ rc_pending_membership_change_index d2 = Some 2%N.
Proof. split_and!; vm_compute; reflexivity. Qed.
