(* ===== verification/GroupInv.v ===== *)
(** * The invariant of a group that replicates

    What every operation of the leader's side keeps, stated once: each
    replica's log is ordered and ends at or below its match index, no match index
    is above the group's last index, and the leader is a voter; and what happens
    to a replica over such an operation: no cursor moves back, and a committed
    entry leaves the log only by compaction, at or below the point the replica
    has applied durably (committed, for a witness). The file holds the relation,
    the lemmas that build it from changes to one replica, and its proof for the
    operations of [Cluster.v] and [Election.v]. *)

From stdpp Require Import base strings pretty numbers sorting gmap fin_maps sets list.
From S2P Require Import Prelude Types Slice Membership Node Config Pipeline Cluster Election.

(** ** One replica *)

Definition last_index (n : Node) : LogIndex := index_or_default (last (nd_log n)).

Record node_ok (n : Node) : Prop := mk_node_ok {
  nk_ordered : log_ordered (nd_log n);
  nk_last : (last_index n <= match_index n)%N
}.

(** The index compaction may reach. *)
Definition compaction_floor (n : Node) : LogIndex :=
  if can_serve_data (nd_replica_role n) then nd_safety_applied_index n else nd_commit_index n.

(** What a replica keeps. *)
Record preserved (n n' : Node) : Prop := mk_preserved {
  pv_id : nd_id n' = nd_id n;
  pv_cursors : cursors_le n n';
  pv_data : can_serve_data (nd_replica_role n') = can_serve_data (nd_replica_role n);
  pv_voter : nd_replica_role n = Voter -> nd_replica_role n' = Voter;
  pv_committed : forall e, e ∈ nd_log n -> (entry_index e <= nd_commit_index n)%N ->
    e ∈ nd_log n' \/ (entry_index e <= compaction_floor n')%N
}.

Lemma compaction_floor_mono n n' :
  cursors_le n n' -> can_serve_data (nd_replica_role n') = can_serve_data (nd_replica_role n) ->
  (compaction_floor n <= compaction_floor n')%N.
Proof.
  intros (H1 & H2 & H3 & H4) Hd. unfold compaction_floor. rewrite Hd.
  by destruct (can_serve_data (nd_replica_role n)).
Qed.

#[export] Instance preserved_preorder : PreOrder preserved.
Proof.
  split.
  - intros n. split; [done|reflexivity|done|done|by left].
  - intros a b c [A0 A1 A2 A3 A4] [B0 B1 B2 B3 B4]. split; [congruence|by etrans|congruence|auto|].
    intros e He Hc. destruct (A4 e He Hc) as [Hb|Hb].
    + apply B4; [done|]. destruct A1. lia.
    + right. pose proof (compaction_floor_mono b c B1 B2). lia.
Qed.

(** A change of one replica under a bound on the match index, with ([node_step])
    and without ([log_step]) the ballot unchanged. The cursors move forward from
    any replica. *)
Definition log_step (bound : LogIndex) (n n' : Node) : Prop :=
  cursors_le n n'
  /\ (node_ok n -> (match_index n <= bound)%N -> node_ok n' /\ (match_index n' <= bound)%N /\ preserved n n').

Definition node_step (bound : LogIndex) (n n' : Node) : Prop :=
  log_step bound n n' /\ ballot n' = ballot n.

#[export] Instance log_step_preorder b : PreOrder (log_step b).
Proof.
  split.
  - intros n. split; [reflexivity|]. intros Hn Hm. split_and!; done.
  - intros x y z [C1 H1] [C2 H2]. split; [by etrans|]. intros Hx Hm. destruct (H1 Hx Hm) as (Hy & Hm' & P1). destruct (H2 Hy Hm') as (Hz & Hm'' & P2).
    split_and!; [done|done|by etrans].
Qed.

#[export] Instance node_step_preorder b : PreOrder (node_step b).
Proof.
  split; [intros n; by split|]. intros x y z [L1 B1] [L2 B2]. split; [by etrans|congruence].
Qed.

(** The fields the invariant reads. *)
Definition same_replica (n n' : Node) : Prop :=
  nd_id n' = nd_id n
  /\ nd_log n' = nd_log n /\ nd_installed_snapshot n' = nd_installed_snapshot n
  /\ nd_replica_role n' = nd_replica_role n
  /\ nd_commit_index n' = nd_commit_index n /\ nd_applied_index n' = nd_applied_index n
  /\ nd_safety_applied_index n' = nd_safety_applied_index n
  /\ nd_witness_ack_index n' = nd_witness_ack_index n.

Lemma same_replica_step b n n' : same_replica n n' -> log_step b n n'.
Proof.
  intros (Hid & Hl & Hs & Hr & Hc & Ha & Hsa & Hw). split; [unfold cursors_le; lia|]. intros [Ho Hk] Hm.
  assert (match_index n' = match_index n) as Hmi by (unfold match_index; by rewrite Hr, Hl, Hs, Hw).
  split_and!.
  - split; [by rewrite Hl|]. unfold last_index. by rewrite Hl, Hmi.
  - by rewrite Hmi.
  - split; [done|unfold cursors_le; lia|by rewrite Hr|by rewrite Hr|]. rewrite Hl. auto.
Qed.

Lemma node_step_same b n n' : same_replica n n' -> ballot n' = ballot n -> node_step b n n'.
Proof. intros. split; [by apply same_replica_step|done]. Qed.

Lemma advance_commit_fields i n :
  nd_id (advance_commit i n) = nd_id n
  /\ nd_installed_snapshot (advance_commit i n) = nd_installed_snapshot n
  /\ nd_replica_role (advance_commit i n) = nd_replica_role n
  /\ nd_witness_ack_index (advance_commit i n) = nd_witness_ack_index n
  /\ match_index (advance_commit i n) = match_index n.
Proof. unfold advance_commit. cbn. destruct (_ && _); [|done]. by destruct (negb _). Qed.

Lemma advance_commit_step b i n : node_step b n (advance_commit i n).
Proof.
  split; [|apply advance_commit_ballot].
  destruct (advance_commit_fields i n) as (Hid & Hs & Hr & Hw & Hmi).
  destruct (advance_commit_cursors i n) as (Hc & _ & Ha & Hsa).
  split; [unfold cursors_le; lia|]. intros [Ho Hk] Hm.
  split_and!.
  - split; [by rewrite advance_commit_log|]. unfold last_index. by rewrite advance_commit_log, Hmi.
  - by rewrite Hmi.
  - split; [done|unfold cursors_le; lia|by rewrite Hr|by rewrite Hr|]. rewrite advance_commit_log. auto.
Qed.

Lemma advance_commit_le i n : cursors_le n (advance_commit i n).
Proof. exact (proj1 (proj1 (advance_commit_step 0 i n))). Qed.

(** *** Appends *)

Lemma last_index_bound n e : log_ordered (nd_log n) -> e ∈ nd_log n -> (entry_index e <= last_index n)%N.
Proof.
  intros Ho [j Hj]%list_elem_of_lookup. unfold last_index. destruct (last (nd_log n)) as [y|] eqn:Hl.
  - cbn. by eapply log_ordered_last.
  - apply last_None in Hl. by rewrite Hl in Hj.
Qed.

(** An entry at or above the end of the log is found, put behind it, or put in
    place of an uncommitted last one. *)
Lemma append_entry_end e n :
  log_ordered (nd_log n) -> (last_index n <= entry_index e)%N ->
  log_ordered (nd_log (append_entry e n)) /\ last_index (append_entry e n) = entry_index e
  /\ forall x, x ∈ nd_log n -> (entry_index x <= nd_commit_index n)%N -> x ∈ nd_log (append_entry e n).
Proof.
  intros Ho Hl.
  assert (forall x, x ∈ nd_log n -> (entry_index x <= nd_commit_index n)%N -> x ∈ nd_log (append_entry e n)) as Hkept.
  { intros x Hx Hc. eapply elem_of_prefix; [|apply (append_entry_committed e n Ho)].
    apply list_elem_of_filter. done. }
  destruct (append_entry_log e n Ho) as [(Heq & x & Hx & Hi & _)|[[Hlog Hnew]|(p & x & Hx & Hi & _ & _ & Hlog)]].
  - split_and!; [by rewrite Heq| |done]. rewrite Heq. pose proof (last_index_bound n x Ho Hx). lia.
  - rewrite Hlog in *. split_and!; [|unfold last_index; by rewrite Hlog, last_snoc|done].
    apply log_ordered_snoc; [done|]. apply Forall_forall. intros x Hx. unfold index_lt.
    pose proof (last_index_bound n x Ho Hx). destruct (decide (entry_index x = entry_index e)) as [He|]; [|lia].
    exfalso. apply Hnew. rewrite <- He. by apply list_elem_of_fmap_2.
  - rewrite Hlog in *. split_and!; [|unfold last_index; by rewrite Hlog, last_snoc|done].
    apply log_ordered_snoc; [by apply log_ordered_take|].
    apply Forall_lookup_2. intros j y Hy. apply lookup_take_Some in Hy as [Hy Hj].
    unfold index_lt. rewrite <- Hi. by eapply log_ordered_lookup.
Qed.

Lemma append_entry_step b e n :
  nd_replica_role n <> Witness -> (last_index n <= entry_index e <= b)%N -> node_step b n (append_entry e n).
Proof.
  intros Hw [Hl Hb]. split; [|apply append_entry_ballot].
  pose proof (append_entry_cursors e n) as Hsc. split; [by apply same_cursors_le|]. intros [Ho Hk] Hm.
  destruct (append_entry_end e n Ho Hl) as (Ho' & Hl' & Hc).
  assert (nd_replica_role (append_entry e n) = nd_replica_role n) as Hr by (by rewrite Hsc).
  assert (nd_installed_snapshot (append_entry e n) = nd_installed_snapshot n) as Hs by (by rewrite Hsc).
  assert (match_index (append_entry e n)
    = N.max (last_index (append_entry e n)) (snapshot_index_or_default (nd_installed_snapshot n))) as Hmi.
  { unfold match_index. rewrite Hr, Hs, bool_decide_eq_false_2 by done. done. }
  assert (snapshot_index_or_default (nd_installed_snapshot n) <= match_index n)%N as Hsn.
  { unfold match_index. rewrite bool_decide_eq_false_2 by done. cbn zeta. lia. }
  split_and!; [split; [done|lia]|lia|].
  split; [by rewrite Hsc|by apply same_cursors_le|by rewrite Hr|by rewrite Hr|auto].
Qed.

Lemma append_witness_entry_cursors e keep n : cursors_le n (append_witness_entry e keep n).
Proof.
  unfold append_witness_entry. cbn zeta. etrans; [|apply same_cursors_le, append_entry_cursors].
  unfold acknowledge_witness_index. case_bool_decide; unfold cursors_le; cbn; lia.
Qed.

Lemma append_witness_entry_step b e keep n :
  nd_replica_role n = Witness -> (last_index n <= entry_index e <= b)%N ->
  node_step b n (append_witness_entry e keep n).
Proof.
  intros Hw [Hl Hb]. split; [|apply append_witness_entry_ballot].
  split; [apply append_witness_entry_cursors|]. intros [Ho Hk] Hm.
  unfold append_witness_entry. cbn zeta. unfold acknowledge_witness_index. rewrite bool_decide_eq_true_2 by done.
  set (m := n <| nd_witness_ack_index ::= N.max (entry_index e) |>).
  set (s := mkLogEntry (log_id e) _ false). change (entry_index e) with (entry_index s) in Hl, Hb.
  destruct (append_entry_end s m Ho Hl) as (Ho' & Hl' & Hc). pose proof (append_entry_cursors s m) as Hsc.
  assert (nd_replica_role (append_entry s m) = Witness) as Hr by (by rewrite Hsc).
  assert (nd_witness_ack_index (append_entry s m) = N.max (entry_index e) (nd_witness_ack_index n)) as Ha
    by (by rewrite Hsc).
  assert (match_index (append_entry s m) = N.max (entry_index e) (match_index n)) as Hmi.
  { unfold match_index. rewrite Hr, Hw, !bool_decide_eq_true_2 by done. done. }
  rewrite Hmi. change (entry_index s) with (entry_index e) in Hl', Hb.
  split_and!; [split; [done|rewrite Hl', Hmi; lia]|lia|].
  split; [by rewrite Hsc| |rewrite Hr; by rewrite Hw|by rewrite Hw|intros x Hx Hxc; left; by apply Hc].
  etrans; [|apply same_cursors_le; exact Hsc]. unfold cursors_le. cbn. lia.
Qed.

(** *** Compaction *)

Lemma last_filter_above i l : log_ordered l -> 
  index_or_default (last (filter (fun e => (i < entry_index e)%N) l)) = index_or_default (last l)
  \/ filter (fun e => (i < entry_index e)%N) l = [].
Proof.
  intros Ho. destruct (last l) as [y|] eqn:Hl.
  - destruct (decide (i < entry_index y)%N) as [|Hy].
    + left. apply last_Some in Hl as [k ->]. rewrite filter_app, filter_cons_True, filter_nil by done.
      by rewrite last_snoc.
    + right. apply filter_nil_Forall, Forall_lookup_2. intros j x Hx.
      pose proof (log_ordered_last _ _ _ _ Ho Hx Hl). lia.
  - apply last_None in Hl as ->. by right.
Qed.

Lemma compact_log_through_step b i n : node_step b n (snd (compact_log_through i n)).
Proof.
  assert (same_cursors n (snd (compact_log_through i n))) as Hsc.
  { unfold compact_log_through.
    pose proof (discard_log_through_cursors (N.min i
      (if can_serve_data (nd_replica_role n) then nd_safety_applied_index n else nd_commit_index n)) n).
    by destruct (discard_log_through _ _). }
  split; [|by rewrite Hsc]. split; [by apply same_cursors_le|]. intros [Ho Hk] Hm.
  assert (nd_log (snd (compact_log_through i n))
    = filter (fun e => (N.min i (compaction_floor n) < entry_index e)%N) (nd_log n)) as Hl.
  { unfold compact_log_through. fold (compaction_floor n).
    pose proof (discard_log_through_spec (N.min i (compaction_floor n)) n Ho) as [Hl _].
    by destruct (discard_log_through _ _). }
  set (n' := snd (compact_log_through i n)) in *. clearbody n'.
  assert (last_index n' = last_index n \/ last_index n' = 0%N) as Hlast.
  { unfold last_index. rewrite Hl. destruct (last_filter_above (N.min i (compaction_floor n)) (nd_log n) Ho) as [-> | ->];
      [by left|by right]. }
  assert (nd_replica_role n' = nd_replica_role n) as Hr by (by rewrite Hsc).
  assert (match_index n' <= match_index n /\ last_index n' <= match_index n')%N as [Hm1 Hm2].
  { assert (nd_witness_ack_index n' = nd_witness_ack_index n) as Ha by (by rewrite Hsc).
    assert (nd_installed_snapshot n' = nd_installed_snapshot n) as Hs by (by rewrite Hsc).
    unfold match_index in *. rewrite Hr, Ha, Hs. fold (last_index n') (last_index n) in *. case_bool_decide; lia. }
  split_and!; [split; [rewrite Hl|done]|lia|].
  - by apply log_ordered_filter.
  - split; [by rewrite Hsc|by apply same_cursors_le|by rewrite Hr|by rewrite Hr|]. intros e He Hc. rewrite Hl.
    destruct (decide (N.min i (compaction_floor n) < entry_index e)%N).
    + left. by apply list_elem_of_filter.
    + right. pose proof (compaction_floor_mono n n' (same_cursors_le _ _ Hsc) ltac:(by rewrite Hr)). lia.
Qed.

(** Adopting a snapshot above the match index. *)
Lemma adopt_snapshot_step b s n :
  (nd_replica_role n <> Witness -> snap_index s <= b)%N ->
  node_step b n (n <| nd_installed_snapshot := Some s |>).
Proof.
  intros Hs. split; [|done]. split; [unfold cursors_le; cbn; lia|]. intros [Ho Hk] Hm.
  assert (last_index n <= match_index (n <| nd_installed_snapshot := Some s |>) <= b)%N as [H1 H2].
  { unfold match_index in *. cbn. fold (last_index n) in *. case_bool_decide; [done|]. specialize (Hs ltac:(done)). lia. }
  split_and!; [by split|done|]. split; [done|unfold cursors_le; cbn; lia|done|done|by left].
Qed.

(** ** The group *)

Record logs_inv (c : RaftCluster) : Prop := mk_logs_inv {
  li_nodes : map_Forall (fun _ n => node_ok n /\ (match_index n <= rc_last_log_index c)%N) (rc_nodes c);
  li_keyed : nodes_keyed c;
  li_last : u64 (rc_last_log_index c);
  li_leader : forall l n, rc_leader_id c = Some l -> rc_nodes c !! l = Some n -> nd_replica_role n = Voter
}.

(** The record of membership changes in the log. *)
Definition fence (c : RaftCluster) : option LogIndex * gset N * option LogIndex * LogIndex :=
  (rc_pending_membership_change_index c, rc_membership_change_indexes c,
   rc_saving_membership_change_index c, rc_stabled_membership_change_index c).

(** No node leaves, no cursor moves back and no membership change is recorded,
    from any state. *)
Definition advances (c c' : RaftCluster) : Prop :=
  fence c' = fence c /\
  forall k n, rc_nodes c !! k = Some n -> exists n', rc_nodes c' !! k = Some n' /\ cursors_le n n'.

#[export] Instance advances_preorder : PreOrder advances.
Proof.
  split.
  - intros c. split; [done|]. intros k n Hn. by exists n.
  - intros a b c [F1 H1] [F2 H2]. split; [congruence|]. intros k n Hn. destruct (H1 k n Hn) as (n1 & Hk1 & P1). destruct (H2 k n1 Hk1) as (n2 & Hk2 & P2).
    exists n2. split; [done|by etrans].
Qed.

Definition logs_kept (c c' : RaftCluster) : Prop :=
  advances c c' /\
  (logs_inv c ->
   logs_inv c' /\ forall k n, rc_nodes c !! k = Some n -> exists n', rc_nodes c' !! k = Some n' /\ preserved n n').

#[export] Instance logs_kept_preorder : PreOrder logs_kept.
Proof.
  split.
  - intros c. split; [reflexivity|]. intros Hc. split; [done|]. intros k n Hn. by exists n.
  - intros a b c [C1 H1] [C2 H2]. split; [by etrans|]. intros Ha.
    destruct (H1 Ha) as (Hb & N1). destruct (H2 Hb) as (Hc & N2). split; [done|].
    intros k n Hn. destruct (N1 k n Hn) as (n1 & Hk1 & P1). destruct (N2 k n1 Hk1) as (n2 & Hk2 & P2).
    exists n2. split; [done|by etrans].
Qed.

(** A change that leaves the ballots alone ([quiet]), and one that may hold an
    election ([sound]). *)
Definition quiet (c c' : RaftCluster) : Prop := same_ballots c c' /\ logs_kept c c'.
Definition sound (c c' : RaftCluster) : Prop := votes_kept c c' /\ logs_kept c c'.

#[export] Instance quiet_preorder : PreOrder quiet.
Proof. split; [by split|]. intros a b c [A1 A2] [B1 B2]. split; by etrans. Qed.
#[export] Instance sound_preorder : PreOrder sound.
Proof. split; [by split|]. intros a b c [A1 A2] [B1 B2]. split; by etrans. Qed.

Lemma quiet_sound c c' : quiet c c' -> sound c c'.
Proof. intros [? ?]. split; [by apply same_ballots_kept|done]. Qed.

Lemma advances_nodes c c' : rc_nodes c' = rc_nodes c -> fence c' = fence c -> advances c c'.
Proof. intros Hn Hf. split; [done|]. rewrite Hn. by eexists. Qed.

Lemma logs_kept_frame c c' :
  fence c' = fence c -> rc_nodes c' = rc_nodes c ->
  (rc_last_log_index c <= rc_last_log_index c')%N -> (u64 (rc_last_log_index c) -> u64 (rc_last_log_index c')) ->
  (rc_leader_id c' = rc_leader_id c \/ rc_leader_id c' = None) -> logs_kept c c'.
Proof.
  intros Hf Hn Hl Hu Hle. split; [by apply advances_nodes|]. intros [I1 Ik I2 I3]. split.
  - split; [|unfold nodes_keyed; by rewrite Hn|by apply Hu|].
    + rewrite Hn. intros k n Hk. destruct (I1 k n Hk). split; [done|lia].
    + rewrite Hn. intros l n Hld. apply I3. destruct Hle; congruence.
  - rewrite Hn. intros k n Hk. by exists n.
Qed.

Lemma quiet_frame c c' :
  fence c' = fence c ->
  rc_nodes c' = rc_nodes c -> rc_current_term c' = rc_current_term c ->
  rc_last_log_index c' = rc_last_log_index c ->
  (rc_leader_id c' = rc_leader_id c \/ rc_leader_id c' = None) -> quiet c c'.
Proof.
  intros Hf Hn Ht Hl Hle. split; [by apply same_ballots_nodes|].
  apply logs_kept_frame; [done|done|lia|by rewrite Hl|done].
Qed.

(** Discharges a change of fields outside the invariant. *)
Ltac quiet_fields := apply quiet_frame; [done|done|done|done|by left].

Lemma logs_kept_on_nodes f c :
  (forall n, cursors_le n (f n)) ->
  (logs_inv c -> forall k n, rc_nodes c !! k = Some n -> log_step (rc_last_log_index c) n (f n)) ->
  logs_kept c (on_nodes f c).
Proof.
  intros Hcur Hf. split; [split; [done|]; intros k n Hn; exists (f n); cbn; by rewrite lookup_fmap, Hn|].
  intros Hc. specialize (Hf Hc). destruct Hc as [I1 Ik I2 I3].
  assert (forall k n, rc_nodes c !! k = Some n ->
    node_ok (f n) /\ (match_index (f n) <= rc_last_log_index c)%N /\ preserved n (f n)) as Hs.
  { intros k n Hn. destruct (I1 k n Hn) as [H1 H2]. by apply (Hf k n Hn). }
  split.
  - split; [| |done|].
    + intros k n'. cbn. rewrite lookup_fmap. intros (n & Hn & ->)%fmap_Some. destruct (Hs k n Hn) as (? & ? & _). done.
    + intros k n'. cbn. rewrite lookup_fmap. intros (n & Hn & ->)%fmap_Some. destruct (Hs k n Hn) as (_ & _ & P).
      rewrite (pv_id _ _ P). by apply Ik.
    + intros l n'. cbn. rewrite lookup_fmap. intros Hl (n & Hn & ->)%fmap_Some.
      destruct (Hs l n Hn) as (_ & _ & P). apply P. by eapply I3.
  - intros k n Hn. exists (f n). cbn. rewrite lookup_fmap, Hn. split; [done|]. by destruct (Hs k n Hn) as (_ & _ & P).
Qed.

(** The usual case: a step from every node. *)
Lemma logs_kept_on_nodes_step f c :
  (forall n, log_step (rc_last_log_index c) n (f n)) -> logs_kept c (on_nodes f c).
Proof. intros Hf. apply logs_kept_on_nodes; [intros n; exact (proj1 (Hf n))|]. intros _ k m _. apply Hf. Qed.

Lemma quiet_on_nodes_inv f c :
  (forall n, ballot (f n) = ballot n) -> (forall n, cursors_le n (f n)) ->
  (logs_inv c -> forall k n, rc_nodes c !! k = Some n -> log_step (rc_last_log_index c) n (f n)) ->
  quiet c (on_nodes f c).
Proof. intros Hb Hc Hf. split; [by apply same_ballots_on_nodes|by apply logs_kept_on_nodes]. Qed.

Lemma quiet_on_nodes f c :
  (forall n, node_step (rc_last_log_index c) n (f n)) -> quiet c (on_nodes f c).
Proof. intros Hf. split; [apply same_ballots_on_nodes|apply logs_kept_on_nodes_step]; intros m; apply Hf. Qed.

(** The write-back of one node. *)
Lemma logs_kept_insert id n n' c :
  rc_nodes c !! id = Some n -> cursors_le n n' -> (logs_inv c -> log_step (rc_last_log_index c) n n') ->
  logs_kept c (c <| rc_nodes ::= <[id := n']> |>).
Proof.
  intros Hn Hcur Hs. split.
  { split; [done|]. intros k m Hm. cbn. rewrite lookup_insert. case_decide as Hk; [|by exists m]. subst k. exists n'.
    rewrite Hn in Hm. by injection Hm as <-. }
  intros Hc. specialize (Hs Hc). destruct Hc as [I1 Ik I2 I3]. destruct (I1 id n Hn) as [H1 H2].
  destruct (proj2 Hs H1 H2) as (Ho & Hm & P). split.
  - split; [| |done|].
    + intros k m. cbn. rewrite lookup_insert. case_decide; [by intros [= <-]|apply I1].
    + intros k m. cbn. rewrite lookup_insert. case_decide as Hk; [intros [= <-]|apply Ik].
      subst k. rewrite (pv_id _ _ P). by apply Ik.
    + intros l m Hl. cbn. rewrite lookup_insert. case_decide as Hk; [intros [= <-]|by apply I3].
      subst l. apply P. by eapply I3.
  - intros k m Hm'. cbn. rewrite lookup_insert. case_decide as Hk; [|by exists m].
    subst k. rewrite Hn in Hm'. injection Hm' as <-. by exists n'.
Qed.

Lemma quiet_insert id n n' c :
  rc_nodes c !! id = Some n -> cursors_le n n' -> (logs_inv c -> log_step (rc_last_log_index c) n n') -> ballot n' = ballot n ->
  quiet c (c <| rc_nodes ::= <[id := n']> |>).
Proof.
  intros Hn Hcur Hs Hb. split; [|by apply (logs_kept_insert id n)].
  split; [|done]. unfold ballots. cbn. rewrite fmap_insert, Hb. apply insert_id. by rewrite lookup_fmap, Hn.
Qed.

Lemma on_node_insert id f c n :
  rc_nodes c !! id = Some n -> on_node id f c = c <| rc_nodes ::= <[id := f n]> |>.
Proof.
  intros Hn. unfold on_node. destruct c; cbn in *. f_equal. apply map_eq. intros k.
  destruct (decide (k = id)) as [->|]; [by rewrite lookup_alter_eq, lookup_insert_eq, Hn|].
  by rewrite lookup_alter_ne, lookup_insert_ne.
Qed.

Lemma on_node_absent id f c : rc_nodes c !! id = None -> on_node id f c = c.
Proof.
  intros Hn. unfold on_node. destruct c; cbn in *. f_equal. apply map_eq. intros k.
  destruct (decide (k = id)) as [->|]; [by rewrite lookup_alter_eq, Hn|by rewrite lookup_alter_ne].
Qed.

Lemma quiet_on_node id f c :
  (forall n, rc_nodes c !! id = Some n -> node_step (rc_last_log_index c) n (f n)) -> quiet c (on_node id f c).
Proof.
  intros Hf. destruct (rc_nodes c !! id) as [n|] eqn:Hn; [|by rewrite on_node_absent].
  rewrite (on_node_insert id f c n Hn). destruct (Hf n eq_refl) as [Hs Hb].
  apply (quiet_insert id n); [done|exact (proj1 Hs)|by intros _|done].
Qed.

Lemma logs_kept_on_node id f c : (forall n, same_replica n (f n)) -> logs_kept c (on_node id f c).
Proof.
  intros Hf. destruct (rc_nodes c !! id) as [n|] eqn:Hn; [|by rewrite on_node_absent].
  rewrite (on_node_insert id f c n Hn). apply (logs_kept_insert id n); [done|exact (proj1 (same_replica_step 0 _ _ (Hf n)))|intros _; by apply same_replica_step].
Qed.

Lemma quiet_on_node_same id f c :
  (forall n, same_replica n (f n) /\ ballot (f n) = ballot n) -> quiet c (on_node id f c).
Proof. intros Hf. apply quiet_on_node. intros n _. apply node_step_same; apply Hf. Qed.

Lemma quiet_on_pipeline id f c : quiet c (on_pipeline id f c).
Proof. quiet_fields. Qed.

Lemma max_or_default_least b l : (forall x, x ∈ l -> (x <= b)%N) -> (max_or_default l <= b)%N.
Proof.
  induction l as [|x l IH]; intros H; cbn; [lia|].
  pose proof (H x ltac:(set_solver)). specialize (IH ltac:(set_solver)). unfold max_or_default in IH. lia.
Qed.

Lemma refresh_cluster_indexes_quiet c : quiet c (refresh_cluster_indexes c).
Proof.
  split; [apply refresh_cluster_indexes_ballots|]. split; [by apply advances_nodes|]. intros [I1 Ik I2 I3].
  split; [|intros k n Hn; by exists n]. split; [|exact Ik| |exact I3].
  - intros k n Hn. split; [apply (I1 k n Hn)|]. apply max_or_default_elem, list_elem_of_fmap_2, elem_of_bt_values.
    by exists k.
  - assert (max_or_default (match_index <$> bt_values (rc_nodes c)) <= rc_last_log_index c)%N as Hm.
    { apply max_or_default_least. intros x (n & -> & [k Hn]%elem_of_bt_values)%list_elem_of_fmap. apply (I1 k n Hn). }
    unfold u64 in *. cbn. lia.
Qed.

Lemma refresh_commit_index_quiet c : quiet c (refresh_commit_index c).
Proof.
  unfold refresh_commit_index. destruct (commit_quorum_match_index c) as [i|]; [|reflexivity].
  destruct (rc_leader_id c) as [l|] eqn:El; [|reflexivity]. destruct (rc_nodes c !! l); [|reflexivity].
  destruct (negb _); [reflexivity|]. cbn zeta. etrans; [|apply refresh_cluster_indexes_quiet].
  set (c1 := c <| rc_commit_index ::= (fun j => N.max j i) |>).
  assert (quiet c c1) as H1 by quiet_fields. etrans; [exact H1|]. clearbody c1.
  apply quiet_on_nodes. intros m. destruct (nd_healthy m); [apply advance_commit_step|reflexivity].
Qed.

Lemma refresh_policy_quiet c : quiet c (snd (refresh_witness_commit_quorum_policy c)).
Proof.
  unfold refresh_witness_commit_quorum_policy. cbn [snd].
  destruct (negb _); [etrans; [|apply refresh_commit_index_quiet]|]; quiet_fields.
Qed.

(** ** Campaigns *)

Lemma settle_leader_transfer_quiet k c : quiet c (settle_leader_transfer k c).
Proof.
  unfold settle_leader_transfer, complete_leader_transfer, abort_leader_transfer.
  destruct (active_leader_transfer c); [|reflexivity]. destruct (_ =? _)%N; quiet_fields.
Qed.

Lemma reset_pipelines_quiet k c : quiet c (reset_replication_pipelines_for_leader k c).
Proof. unfold reset_replication_pipelines_for_leader. apply (foldl_keeps quiet). intros c' x. quiet_fields. Qed.

(** A new leader that is a voter keeps the invariant. *)
Lemma logs_kept_leader k n c c' :
  rc_nodes c !! k = Some n -> nd_replica_role n = Voter ->
  fence c' = fence c -> rc_nodes c' = rc_nodes c -> rc_last_log_index c' = rc_last_log_index c -> rc_leader_id c' = Some k ->
  logs_kept c c'.
Proof.
  intros Hk Hr Hf Hn Hl Hle. split; [by apply advances_nodes|].
  intros [I1 Ik I2 I3]. split; [|rewrite Hn; intros id m Hm; by exists m].
  split; [by rewrite Hn, Hl|unfold nodes_keyed; by rewrite Hn|by rewrite Hl|].
  rewrite Hn, Hle. intros l m [= <-] Hm. rewrite Hk in Hm. by injection Hm as <-.
Qed.

Lemma take_office_logs k t n c :
  rc_nodes c !! k = Some n -> nd_replica_role n = Voter -> logs_kept c (take_office k t c).
Proof.
  intros Hn Hr. unfold take_office. cbn zeta.
  etrans; [|apply reset_pipelines_quiet]. etrans; [|apply refresh_policy_quiet].
  etrans; [|apply logs_kept_on_nodes_step; intros m; by apply same_replica_step].
  set (c1 := clear_reorder_queues _).
  etrans; [apply (logs_kept_leader k n c c1); done|]. clearbody c1.
  etrans; [apply (settle_leader_transfer_quiet k)|]. generalize (settle_leader_transfer k c1). intros c2.
  apply logs_kept_frame; [done|done|done|done|by left].
Qed.

Lemma append_noop_cursors l e n : cursors_le n (append_noop l e n).
Proof.
  unfold append_noop. repeat (case_match; try reflexivity);
    (apply same_cursors_le, append_entry_cursors) || apply append_witness_entry_cursors.
Qed.

Lemma append_noop_step l e c k n :
  logs_inv c -> rc_leader_id c = Some l -> rc_nodes c !! k = Some n ->
  (rc_last_log_index c < entry_index e)%N -> u64 (entry_index e) ->
  log_step (entry_index e) n (append_noop l e n).
Proof.
  intros Hc Hl Hn Hlt Hu. destruct (li_nodes c Hc k n Hn) as [[_ Hk] Hm].
  assert (last_index n <= entry_index e <= entry_index e)%N as Hi by lia.
  unfold append_noop. destruct (N.eqb_spec (nd_id n) l) as [He|].
  - apply append_entry_step; [|done]. rewrite (li_keyed c Hc k n Hn) in He. subst k.
    by rewrite (li_leader c Hc l n Hl Hn).
  - destruct (_ && _); [|reflexivity]. destruct (can_serve_data _) eqn:Hd.
    + apply append_entry_step; [|done]. by destruct (nd_replica_role n).
    + case_bool_decide; [by apply append_witness_entry_step|reflexivity].
Qed.

(** Raising the last index leaves room for the next entry. *)
Lemma logs_inv_raise c i :
  logs_inv c -> (rc_last_log_index c <= i)%N -> u64 i -> logs_inv (c <| rc_last_log_index := i |>).
Proof. intros Hc Hi Hu. apply (logs_kept_frame c); [done|done|done|by intros _|by left|done]. Qed.

Lemma next_log_index_Ok c i :
  next_log_index c = Ok i -> i = (rc_last_log_index c + 1)%N /\ u64 i.
Proof.
  unfold next_log_index, ok_or. destruct (checked_add _ 1) as [j|] eqn:Hj; [|done]. intros [= <-].
  apply checked_add_Some in Hj as [-> Hu]. by split.
Qed.

Lemma broadcast_leader_noop_quiet c : quiet c (snd (broadcast_leader_noop c)).
Proof.
  split; [apply broadcast_leader_noop_ballots|]. unfold broadcast_leader_noop.
  destruct (rc_leader_id c) as [l|] eqn:El; [|reflexivity].
  destruct (next_log_index c) as [i|] eqn:Ei; [|reflexivity]. apply next_log_index_Ok in Ei as [-> Hu].
  cbn [snd]. set (e := mkLogEntry _ _ _).
  assert (entry_index e = rc_last_log_index c + 1)%N as He by done. clearbody e. rewrite <- He in *.
  etrans; [|apply refresh_cluster_indexes_quiet].
  assert (logs_inv c -> logs_kept c (on_nodes (append_noop l e) (c <| rc_last_log_index := entry_index e |>))) as HL.
  { intros Hc. etrans; [apply (logs_kept_frame c (c <| rc_last_log_index := entry_index e |>));
      [done|done|cbn; lia|done|by left]|].
    apply logs_kept_on_nodes; [intros n; apply append_noop_cursors|]. intros _ k n Hn.
    apply (append_noop_step l e c k); [done|done|done|lia|done]. }
  split; [|intros Hc; by apply HL]. split; [done|]. intros k n Hn. exists (append_noop l e n). cbn. rewrite lookup_fmap, Hn.
  split; [done|apply append_noop_cursors].
Qed.

Lemma campaign_voter k forced c :
  campaign_refusal k forced c = None -> exists n, rc_nodes c !! k = Some n /\ nd_replica_role n = Voter.
Proof.
  unfold campaign_refusal. destruct (_ && _); [done|]. destruct (_ && _); [done|]. destruct (_ && _); [done|].
  destruct (rc_nodes c !! k) as [n|]; [|done]. destruct (can_be_leader (nd_replica_role n)) eqn:Hr; [|done].
  intros _. exists n. split; [done|]. by destruct (nd_replica_role n).
Qed.

Lemma campaign_sound k forced : transits sound (campaign k forced).
Proof.
  intros c. split; [apply campaign_kept|]. unfold campaign.
  destruct (campaign_refusal k forced c) eqn:Hr; [reflexivity|]. destruct (already_leading k c); [reflexivity|].
  destruct (checked_add _ 1) as [t|]; [|reflexivity]. cbn zeta.
  apply campaign_voter in Hr as (n & Hn & Hv). etrans; [apply (take_office_logs k t n c Hn Hv)|].
  destruct (rc_running c); [|reflexivity]. generalize (take_office k t c). intros c'. unfold mbind, ST_bind.
  pose proof (broadcast_leader_noop_quiet c') as [_ Hb]. by destruct (broadcast_leader_noop c') as [[] c''].
Qed.

Lemma timeout_now_sound from target : transits sound (timeout_now from target).
Proof.
  intros c. unfold timeout_now. destruct (rc_nodes c !! target); [|reflexivity].
  destruct (_ || _); [reflexivity|]. pose proof (campaign_sound target true c) as Hc.
  by destruct (campaign target true c) as [[] c'].
Qed.

(** ** Votes *)

Lemma observe_logs t k p c : logs_kept c (observe_vote_request_candidate t k p c).
Proof.
  unfold observe_vote_request_candidate. destruct (negb _); [reflexivity|].
  apply logs_kept_on_node. intros n. by destruct (can_be_leader _).
Qed.

Lemma adopt_vote_term_logs t r c : logs_kept c (adopt_vote_term t r c).
Proof.
  unfold adopt_vote_term. destruct (negb _); [reflexivity|]. cbn zeta.
  etrans; [|apply logs_kept_on_nodes_step; intros n; by apply same_replica_step].
  etrans; [|by apply logs_kept_on_node]. apply logs_kept_frame; [done|done|done|done|by right].
Qed.

Lemma cast_vote_logs t k hard reset c : logs_kept c (cast_vote t k hard reset c).
Proof.
  unfold cast_vote. cbn zeta.
  set (c1 := on_node _ _ _). assert (logs_kept c c1) as H1 by (by apply logs_kept_on_node). clearbody c1.
  etrans; [exact H1|]. destruct reset; apply logs_kept_frame; done || by left.
Qed.

Lemma decide_vote_logs t r : transits logs_kept (decide_vote t r).
Proof.
  intros c. unfold decide_vote. destruct (rc_nodes c !! t) as [n|]; [|reflexivity]. cbn zeta.
  destruct (_ && _); [reflexivity|]. destruct (negb _); [reflexivity|]. destruct (_ <? _)%N eqn:E1; [reflexivity|].
  set (hard := if (_ <? _)%N then _ else _). set (c1 := on_node _ _ _).
  assert (logs_kept c c1) as H1 by (by apply logs_kept_on_node). clearbody c1 hard.
  destruct (_ && _); [done|]. destruct (_ && _); [done|]. cbn [snd]. etrans; [exact H1|apply cast_vote_logs].
Qed.

Lemma vote_to_sound t r : transits sound (vote_to t r).
Proof.
  intros c. split; [apply vote_to_kept|]. unfold vote_to. cbn zeta. destruct (negb _); [reflexivity|].
  destruct (rc_nodes c !! t); [|reflexivity]. destruct (negb _); [reflexivity|].
  etrans; [apply (observe_logs t (vr_candidate_id r) (vr_pre_vote r))|].
  generalize (observe_vote_request_candidate t (vr_candidate_id r) (vr_pre_vote r) c). intros c1.
  destruct (rc_nodes c1 !! t); [|reflexivity]. destruct (target_in_lease _ _ _); [reflexivity|].
  destruct (vr_pre_vote r); [reflexivity|]. destruct (candidate_refusal _ _); [reflexivity|].
  etrans; [apply (adopt_vote_term_logs t r)|apply decide_vote_logs].
Qed.

(** ** Liveness, leases and transfers *)

Lemma mark_peer_active_quiet id : transits quiet (mark_peer_active id).
Proof.
  intros c. unfold mark_peer_active. destruct (rc_nodes c !! id); [|reflexivity]. cbn [snd]. cbn zeta.
  etrans; [|apply quiet_on_pipeline]; by apply quiet_on_node_same.
Qed.

Lemma set_node_healthy_quiet id h : transits quiet (set_node_healthy id h).
Proof.
  intros c. unfold set_node_healthy. destruct (rc_nodes c !! id); [|reflexivity]. cbn [snd]. cbn zeta.
  set (c1 := on_node _ _ _). assert (quiet c c1) as H1 by (by apply quiet_on_node_same). clearbody c1.
  etrans; [exact H1|]. set (c2 := if h then _ else _).
  assert (quiet c1 c2) as H2 by (subst c2; destruct h; [apply quiet_on_pipeline|reflexivity]). clearbody c2.
  etrans; [exact H2|]. destruct (_ && _); [quiet_fields|reflexivity].
Qed.

Lemma tick_node_liveness_quiet l e t acc x : quiet acc.2 (tick_node_liveness l e t acc x).2.
Proof.
  destruct acc as [ids c], x as [id node]. unfold tick_node_liveness. cbn [snd].
  destruct (_ =? _)%N.
  { cbn [snd]. destruct (nd_healthy node); [|reflexivity].
    etrans; [|apply quiet_on_pipeline]; by apply quiet_on_node_same. }
  destruct (negb _); [reflexivity|]. cbn zeta.
  set (c1 := on_node id _ c). assert (quiet c c1) as H1 by (by apply quiet_on_node_same). clearbody c1.
  destruct (_ <? _)%N; [|done]. cbn [snd]. etrans; [exact H1|].
  etrans; [|apply quiet_on_pipeline]; by apply quiet_on_node_same.
Qed.

Lemma tick_peer_liveness_quiet e c : quiet c (tick_peer_liveness e c).2.
Proof.
  unfold tick_peer_liveness. destruct (rc_leader_id c) as [l|]; [|reflexivity].
  generalize (peer_offline_timeout_ms c) (bt_entries (rc_nodes c)). intros t xs.
  change c with (([] : list NodeId, c).2) at 1. generalize ([] : list NodeId, c). 
  induction xs as [|x xs IH]; intros acc; [reflexivity|].
  etrans; [apply (tick_node_liveness_quiet l e t acc x)|apply IH].
Qed.

Lemma tick_leader_lease_quiet e c : quiet c (tick_leader_lease e c).2.
Proof.
  unfold tick_leader_lease. destruct (negb _); [quiet_fields|]. cbn [snd]. cbn zeta.
  etrans; [|apply refresh_policy_quiet]. quiet_fields.
Qed.

Lemma abort_leader_transfer_quiet r c : quiet c (abort_leader_transfer r c).2.
Proof. unfold abort_leader_transfer. destruct (active_leader_transfer c); [quiet_fields|reflexivity]. Qed.

Lemma tick_leader_transfer_quiet c : quiet c (tick_leader_transfer c).2.
Proof.
  unfold tick_leader_transfer. destruct (active_leader_transfer c); [|reflexivity]. cbn zeta.
  destruct (_ <=? _)%N; [etrans; [|apply abort_leader_transfer_quiet]|]; quiet_fields.
Qed.

Lemma step_down_quiet c : quiet c (step_down_leader_if_lost_quorum c).2.
Proof.
  unfold step_down_leader_if_lost_quorum. destruct (_ || _); [reflexivity|]. cbn [snd]. cbn zeta.
  etrans; [|apply quiet_on_nodes; intros n; apply node_step_same; by case_bool_decide].
  etrans; [|apply abort_leader_transfer_quiet]. apply quiet_frame; [done|done|done|done|by right].
Qed.

Lemma receive_confirmation_quiet k e d r c : quiet c (receive_leader_lease_confirmation_inner k e d r c).2.
Proof.
  unfold receive_leader_lease_confirmation_inner. destruct (bool_decide _); [reflexivity|].
  destruct (_ =? _)%N; [reflexivity|]. destruct (rc_nodes c !! k); [|reflexivity].
  destruct (_ || _); [reflexivity|]. destruct (_ <=? _)%N; [reflexivity|]. cbn zeta.
  destruct (rc_leader_lease_confirmations _ !! k); [destruct (_ && _)|]; destruct r; quiet_fields.
Qed.

Lemma record_confirmation_quiet k r c : quiet c (record_leader_lease_confirmation_inner k r c).
Proof. apply receive_confirmation_quiet. Qed.
