(* ===== verification/Replication.v ===== *)
(** * Proposals, append responses, catch-up and heartbeats

    Models the leader's side of replication in [RaftCluster]
    ([src/facade/cluster_runtime.rs]): [propose_with_options] with the memory
    release in front of it, the handling of append responses, the catch-up of a
    lagging peer, the promotion of a caught-up learner, heartbeats, and the
    trigger of a snapshot a peer asked for. The calls form no cycle: a response
    may catch a peer up, promote it, or let a leader transfer campaign, and none
    of those proposes.

    The theorems are in [ReplicationSafety.v]. *)

From stdpp Require Import base strings pretty numbers sorting gmap fin_maps sets list.
From S2P Require Import Prelude Types Slice Membership Node Config Pipeline Cluster Election Append.

(** An operation chosen by the state it starts from. *)
Definition with_state {A} (f : RaftCluster -> Cluster A) : Cluster A := fun c => f c c.

(** Runs an operation of a pipeline that is there; [None] when it is not. *)
Definition pipeline_op {A} (peer_id : NodeId) (op : ReplicationPipeline -> A * ReplicationPipeline)
    (c : RaftCluster) : option A * RaftCluster :=
  match rc_peer_pipelines c !! peer_id with
  | None => (None, c)
  | Some pipeline =>
      let '(a, pipeline) := op pipeline in
      (Some a, c <| rc_peer_pipelines ::= <[peer_id := pipeline]> |>)
  end.

(** The same as a step of the group. *)
Definition on_peer_pipeline {A} (peer_id : NodeId) (op : ReplicationPipeline -> A * ReplicationPipeline)
    : Cluster (option A) := fun c =>
  let '(a, c) := pipeline_op peer_id op c in (Ok a, c).

(** [self.peer_pipelines.get(&id).map(|p| f(p.status())).unwrap_or(false)]. *)
Definition pipeline_status_is (peer_id : NodeId) (f : PeerProgress -> bool) (c : RaftCluster) : bool :=
  match rc_peer_pipelines c !! peer_id with
  | Some pipeline => f (rp_status pipeline)
  | None => false
  end.

(** [self.nodes.get(&id).map(f).unwrap_or(false)]. *)
Definition node_is (node_id : NodeId) (f : Node -> bool) (c : RaftCluster) : bool :=
  match rc_nodes c !! node_id with Some node => f node | None => false end.

(** [self.nodes.get(&id).map(Node::match_index).unwrap_or_default()]. *)
Definition match_index_of (node_id : NodeId) (c : RaftCluster) : LogIndex :=
  match rc_nodes c !! node_id with Some node => match_index node | None => 0%N end.

(** ** Snapshot triggers *)

Definition snapshot_members (c : RaftCluster) : list Peer :=
  (fun node => mkPeer (nd_id node) "" "" (nd_replica_role node) (nd_auto_promote node))
    <$> bt_values (rc_nodes c).

Definition trigger_snapshot : Cluster SnapshotMetadata := fun c =>
  match require_running "trigger a snapshot" c with
  | Err e => (Err e, c)
  | Ok _ =>
      match rc_snapshot_trigger c with
      | Some trigger =>
          (Ok (sts_meta trigger), c <| rc_duplicate_snapshot_trigger_requests ::= (fun n => n +w 1) |>)
      | None =>
          let meta := mkSnapshotMetadata
            (pretty (rc_group_id c) ++s "-" ++s pretty (rc_commit_index c))
            (mkLogId (rc_current_term c) (rc_commit_index c)) (node_ids c) (snapshot_members c) 0 in
          (Ok meta, c <| rc_snapshot_trigger :=
             Some (mkSnapshotTriggerState meta 0 (resolve_snapshot_trigger_timeout_ticks c) false) |>)
      end
  end.

Definition trigger_new_snapshot_if_leader_snapshot_is_stale (peer_id : NodeId)
    (required_snapshot_index : LogIndex) : Cluster unit := fun c =>
  match rc_leader_id c with
  | None => (Ok tt, c)
  | Some leader_id =>
      let leader_snapshot_index :=
        match rc_nodes c !! leader_id with
        | Some leader => snapshot_index_or_default (nd_installed_snapshot leader)
        | None => 0%N
        end in
      if (required_snapshot_index <=? leader_snapshot_index)%N then (Ok tt, c)
      else
        let c := snd (pipeline_op peer_id cancel_snapshot_send_for_new_snapshot c) in
        if bool_decide (rc_snapshot_trigger c = None) then (_ ← trigger_snapshot; mret tt) c
        else (Ok tt, c)
  end.

(** ** Memory *)

Definition compact_logs_through_with_leader_limit (log_index : LogIndex)
    (leader_limit : option LogIndex) (c : RaftCluster) : N * RaftCluster :=
  let compact node :=
    let log_index :=
      if bool_decide (rc_leader_id c = Some (nd_id node))
      then match leader_limit with Some limit => N.min log_index limit | None => log_index end
      else log_index in
    compact_log_through log_index node in
  let removed := (sum_N ((fun node => (compact node).1) <$> bt_values (rc_nodes c)) `mod` u64_modulus)%N in
  (removed, refresh_cluster_indexes (on_nodes (fun node => (compact node).2) c)).

Definition compact_logs_through (log_index : LogIndex) (c : RaftCluster) : N * RaftCluster :=
  let limit :=
    leader_id ← rc_leader_id c;
    match min_replicated_index leader_id c with Ok i => Some i | Err _ => None end in
  compact_logs_through_with_leader_limit log_index limit c.

(** The leader's retained bytes reach a bound. *)
Definition leader_retains (bound : N) (c : RaftCluster) : bool :=
  match rc_leader_id c with
  | None => false
  | Some leader_id => node_is leader_id (fun leader => (bound <=? nd_retained_log_bytes leader)%N) c
  end.

Definition is_busy (c : RaftCluster) : bool := leader_retains (max_log_buffer_bytes (rc_config c)) c.

Definition should_release_memory (c : RaftCluster) : bool :=
  leader_retains (N.max (saturating_mul (max_log_buffer_bytes (rc_config c)) 9 / 10) 1) c.

(** The index the log may be released below, with the clamp on the leader. *)
Definition release_index (c : RaftCluster) : Result (LogIndex * option LogIndex) :=
  match rc_leader_id c with
  | None =>
      Ok (min_or_default (nd_safety_applied_index <$> bt_values (rc_nodes c)), None)
  | Some leader_id =>
      match (if can_trigger_snapshot (rc_config c) then min_replicated_index leader_id c
             else min_index_any_member_needs leader_id c) with
      | Err e => Err e
      | Ok replicated =>
          if should_release_memory c && can_trigger_snapshot (rc_config c) then
            let applied := match rc_nodes c !! leader_id with
                           | Some leader => nd_safety_applied_index leader
                           | None => replicated
                           end in
            Ok (N.max replicated applied, Some (N.max replicated applied))
          else Ok (replicated, Some replicated)
      end
  end.

Definition release_memory : Cluster bool := fun c =>
  match release_index c with
  | Err e => (Err e, c)
  | Ok (release_index, leader_limit) =>
      if (release_index <=? 1)%N then (Ok false, c)
      else
        let '(removed, c) :=
          compact_logs_through_with_leader_limit (release_index - 1) leader_limit c in
        (Ok (0 <? removed)%N, c)
  end.

(** ** Promotion *)

(** A learner becomes a voter. *)
Definition promoted (node : Node) : Node :=
  node <| nd_replica_role := Voter |>
       <| nd_raft_role := Follower |>
       <| nd_auto_promote := false |>
       <| nd_auto_promote_state := Promoted |>.

Definition promote_peer (node_id : NodeId) : Cluster unit := fun c =>
  match require_running "promote a peer" c with
  | Err e => (Err e, c)
  | Ok _ =>
      match rc_nodes c !! node_id with
      | None => (Err (NodeNotFound node_id), c)
      | Some node =>
          if negb (bool_decide (nd_replica_role node = Learner)) then
            (Err (InvalidRequest ("node " ++s pretty node_id ++s " is not a learner")), c)
          else if (match_index node <? rc_commit_index c)%N then
            (Err (InvalidRequest ("node " ++s pretty node_id ++s " is behind committed index "
                                  ++s pretty (rc_commit_index c))), c)
          else (Ok tt, reset_leader_lease_epoch (on_node node_id promoted c))
      end
  end.

(** A learner that asked for promotion and has matched the log up to [bound]. *)
Definition ready_to_promote (bound : LogIndex) (node : Node) : bool :=
  bool_decide (nd_replica_role node = Learner) && nd_auto_promote node
  && (0 <? match_index node)%N && (bound <=? match_index node)%N.

Definition set_auto_promote_state (state : LearnerAutoPromoteState) (node : Node) : Node :=
  node <| nd_auto_promote_state := state |>.

Definition promote_caught_up_auto_learner (learner_id : NodeId) : Cluster bool := fun c =>
  if negb (node_is learner_id (ready_to_promote (rc_commit_index c)) c) then (Ok false, c)
  else (_ ← promote_peer learner_id; mret true) (on_node learner_id (set_auto_promote_state Promoting) c).

Definition maybe_auto_promote_zero_lag_learner (learner_id : NodeId) : Cluster unit := fun c =>
  if negb (node_is learner_id (ready_to_promote (rc_last_log_index c)) c) then (Ok tt, c)
  else if membership_change_fence_active c
  then (Ok tt, on_node learner_id (set_auto_promote_state Promoting) c)
  else promote_peer learner_id c.

(** ** Catch-up *)

Record LearnerCatchUpLoopReport := mkLearnerCatchUpLoopReport {
  cul_learner_id : NodeId;
  cul_leader_commit_index : LogIndex;
  cul_learner_match_index_before : LogIndex;
  cul_learner_match_index_after : LogIndex;
  cul_rounds : N;
  cul_caught_up : bool;
  cul_reason : string
}.

(** The leader's snapshot goes to a peer that has not matched it yet; the peer's
    log is left as it is. *)
Definition adopt_leader_snapshot (leader_snapshot : option SnapshotMetadata) (peer : Node)
    : option LogIndex * Node :=
  match leader_snapshot with
  | Some snapshot =>
      if (match_index peer <? snap_index snapshot)%N
      then (Some (snap_index snapshot), peer <| nd_installed_snapshot := Some snapshot |>)
      else (None, peer)
  | None => (None, peer)
  end.

(** The entries of the leader's log from an index on. *)
Definition missing_entries (leader : Node) (from_index : LogIndex) : list LogEntry :=
  match log_position_at_or_after leader from_index with
  | Some position => drop position (nd_log leader)
  | None => []
  end.

Definition append_missing (peer : Node) (entry : LogEntry) : Node :=
  if bool_decide (nd_replica_role peer = Witness) then append_witness_entry entry false peer
  else append_entry entry peer.

(** What the pipeline of a caught-up peer records. *)
Definition record_catch_up (peer_id : NodeId) (installed_snapshot_index : option LogIndex)
    (match_index_after leader_commit_index : LogIndex) (term : Term) (pipeline : ReplicationPipeline)
    : bool * ReplicationPipeline :=
  let pipeline :=
    match installed_snapshot_index with
    | Some snapshot_index =>
        let snapshot_id := "catchup-" ++s pretty peer_id ++s "-" ++s pretty snapshot_index in
        let pipeline := snd (begin_snapshot_install snapshot_id snapshot_index 1 pipeline) in
        let pipeline := snd (receive_snapshot_chunk 0 true pipeline) in
        mark_snapshot_rejoin_after_compacted_log pipeline
    | None => pipeline
    end in
  let response := mkAppendEntriesResponse term true match_index_after None None None SnapshotNone 0 0 in
  let pipeline := snd (handle_append_response response pipeline) in
  record_learner_catchup_round leader_commit_index pipeline.

Definition catch_up_reason (reason_prefix : string) (caught_up : bool) : string :=
  if bool_decide (reason_prefix = "") then ""
  else if caught_up then reason_prefix ++s "_caught_up" else reason_prefix ++s "_still_lagging".

(** The peer after the transfer: the snapshot, the missing entries, the commit. *)
Definition transfer_log (leader_id peer_id : NodeId) (leader_commit_index : LogIndex)
    : Cluster (option LogIndex) := fun c =>
  match get_node leader_id c with
  | Err e => (Err e, c)
  | Ok leader =>
      match rc_nodes c !! peer_id with
      | None => (Err (NodeNotFound peer_id), c)
      | Some peer =>
          let '(installed_snapshot_index, peer) :=
            adopt_leader_snapshot (nd_installed_snapshot leader) peer in
          let c := c <| rc_nodes ::= <[peer_id := peer]> |> in
          match get_node leader_id c with
          | Err e => (Err e, c)
          | Ok leader =>
              let entries := missing_entries leader (match_index peer +s 1) in
              let peer := foldl append_missing peer entries in
              let peer := advance_commit (N.min leader_commit_index (match_index peer)) peer in
              (Ok installed_snapshot_index, c <| rc_nodes ::= <[peer_id := peer]> |>)
          end
      end
  end.

(** What follows the transfer: the pipeline's record, the peer's liveness, the
    indexes, a promotion that is due, and the report. *)
Definition settle_catch_up (peer_id : NodeId) (reason_prefix : string)
    (leader_commit_index learner_match_index_before : LogIndex)
    (installed_snapshot_index : option LogIndex) : Cluster LearnerCatchUpLoopReport :=
  learner_match_index_after ← gets (match_index_of peer_id);
  recorded ← with_state (fun c => on_peer_pipeline peer_id
    (record_catch_up peer_id installed_snapshot_index learner_match_index_after
       leader_commit_index (rc_current_term c)));
  let caught_up := default (leader_commit_index <=? learner_match_index_after)%N recorded in
  _ ← mark_peer_active peer_id;
  _ ← modify refresh_cluster_indexes;
  _ ← (if caught_up then _ ← promote_caught_up_auto_learner peer_id; mret tt else mret tt);
  gets (fun c =>
    mkLearnerCatchUpLoopReport peer_id leader_commit_index learner_match_index_before
      learner_match_index_after
      match rc_peer_pipelines c !! peer_id with
      | Some pipeline => pp_learner_catchup_rounds (rp_status pipeline)
      | None => 0%N
      end
      caught_up (catch_up_reason reason_prefix caught_up)).

Definition catch_up_peer_with_reason (peer_id : NodeId) (reason_prefix : string)
    : Cluster LearnerCatchUpLoopReport := fun c =>
  match rc_leader_id c with
  | None => (Err NoLeader, c)
  | Some leader_id =>
      (installed_snapshot_index ← transfer_log leader_id peer_id (rc_commit_index c);
       settle_catch_up peer_id reason_prefix (rc_commit_index c) (match_index_of peer_id c)
         installed_snapshot_index) c
  end.

Definition learner_catch_up_loop (learner_id : NodeId) : Cluster LearnerCatchUpLoopReport := fun c =>
  match rc_nodes c !! learner_id with
  | None => (Err (NodeNotFound learner_id), c)
  | Some learner =>
      if negb (bool_decide (nd_replica_role learner = Learner)) then
        (Err (InvalidRequest ("node " ++s pretty learner_id ++s " is not a learner")), c)
      else catch_up_peer_with_reason learner_id "learner" c
  end.

Definition catch_up_peer (peer_id : NodeId) : Cluster LearnerCatchUpLoopReport :=
  catch_up_peer_with_reason peer_id "peer".

Definition record_network_error_for (peer_id : NodeId) : Cluster unit := fun c =>
  match pipeline_op peer_id record_network_error c with
  | (None, c) => (Err (NodeNotFound peer_id), c)
  | (Some should_probe, c) =>
      if should_probe && node_is peer_id nd_healthy c
      then (_ ← catch_up_peer_with_reason peer_id "network_error_probe"; mret tt) c
      else (Ok tt, c)
  end.

(** [catch_up_lagging_peers]: every healthy, data-bearing peer that is behind,
    in chunks of sixteen ids; the reported errors are the second result. The
    selection of a chunk reads the state the previous chunk left. *)
Definition NODE_ID_CHUNK : nat := 16.

Definition lagging (c : RaftCluster) (entry : N * Node) : bool :=
  let '(peer_id, node) := entry in
  negb (bool_decide (rc_leader_id c = Some peer_id)) && nd_healthy node
  && can_serve_data (nd_replica_role node) && (match_index node <? rc_last_log_index c)%N.

(** One chunk: the ids the scan picks up to [room], and the last id it visits. *)
Fixpoint pick_chunk (c : RaftCluster) (room : nat) (entries : list (N * Node)) (last_visited : option NodeId)
    : list NodeId * option NodeId :=
  match entries with
  | [] => ([], last_visited)
  | entry :: rest =>
      if lagging c entry then
        match room with
        | S (S room') =>
            let '(ids, visited) := pick_chunk c (S room') rest (Some entry.1) in (entry.1 :: ids, visited)
        | _ => ([entry.1], Some entry.1)
        end
      else pick_chunk c room rest (Some entry.1)
  end.

Definition catch_up_one (acc : (N * list (NodeId * RaftError)) * RaftCluster) (peer_id : NodeId)
    : (N * list (NodeId * RaftError)) * RaftCluster :=
  let '((recovered, errors), c) := acc in
  match catch_up_peer_with_reason peer_id "" c with
  | (Ok _, c) => ((recovered +s 1, errors), c)
  | (Err e, c) => ((recovered, errors ++ [(peer_id, e)]), c)
  end.

(** The scan resumes after the last id it visited; every round visits at least
    one, so as many rounds as there are nodes, and one to find the end, do. *)
Fixpoint catch_up_chunks (fuel : nat) (after : option NodeId)
    (acc : (N * list (NodeId * RaftError)) * RaftCluster) : (N * list (NodeId * RaftError)) * RaftCluster :=
  match fuel with
  | O => acc
  | S fuel' =>
      let remaining := filter (fun entry : N * Node =>
        match after with Some id => (id <? entry.1)%N | None => true end = true) (bt_entries (rc_nodes acc.2)) in
      match pick_chunk acc.2 NODE_ID_CHUNK remaining None with
      | (_, None) => acc
      | (ids, Some last_visited) => catch_up_chunks fuel' (Some last_visited) (foldl catch_up_one acc ids)
      end
  end.

Definition catch_up_lagging_peers (c : RaftCluster) : (N * list (NodeId * RaftError)) * RaftCluster :=
  catch_up_chunks (S (size (rc_nodes c))) None ((0%N, []), c).

(** ** Append responses *)

(** A peer that answers is a follower, or a learner. *)
Definition answering_peer_role (local_node_id peer_id : NodeId) (peer : Node) : Node :=
  if negb (peer_id =? local_node_id)%N && can_be_leader (nd_replica_role peer)
  then peer <| nd_raft_role := Follower |>
  else if bool_decide (nd_replica_role peer = Learner) then peer <| nd_raft_role := RoleLearner |>
  else peer.

(** A response of a higher term ends the group's term: no leader, no leases, no
    votes. *)
Definition step_to_higher_term (term : Term) (reason : string) (c : RaftCluster) : RaftCluster :=
  let c := c <| rc_current_term := term |> <| rc_leader_id := None |> in
  let c := clear_reorder_queues c in
  let c := invalidate_follower_lease c in
  let c := invalidate_leader_lease c in
  let c := snd (abort_leader_transfer reason c) in
  on_nodes (fun node =>
    node <| nd_hard_state ::= (fun h => h <| hs_current_term := term |> <| hs_voted_for := None |>) |>
         <| nd_raft_role := passive_role node |>) c.

Definition record_response_lease (peer_id : NodeId) (response : AppendEntriesResponse)
    (recompute_aggregates record_lease_confirmation : bool) (c : RaftCluster) : RaftCluster :=
  if record_lease_confirmation
     && (0 <? resp_lease_confirmation_epoch response)%N && (0 <? resp_lease_duration_ms response)%N
  then snd (receive_leader_lease_confirmation_inner peer_id (resp_lease_confirmation_epoch response)
              (resp_lease_duration_ms response) recompute_aggregates c)
  else if record_lease_confirmation && enable_lease_read (rc_config c)
  then record_leader_lease_confirmation_inner peer_id recompute_aggregates c
  else c.

(** The pipeline takes the response; its result is kept for later. *)
Definition pipeline_response (peer_id : NodeId) (response : AppendEntriesResponse)
    (recompute_aggregates : bool) : Cluster (Result unit) := fun c =>
  let config := rc_config c in
  match pipeline_op peer_id (fun pipeline =>
          let pipeline := snd (update_snapshot_progress
            (bool_decide (resp_snapshot_state response = Receiving))
            (N.max (heartbeat_interval_ms config) 1) (N.max (election_timeout_ms config) 1) pipeline) in
          handle_append_response response pipeline) c with
  | (None, c) => (Ok (Ok tt), c)
  | (Some r, c) => (Ok r, if recompute_aggregates then refresh_commit_index c else c)
  end.

Definition rejected_by_pipeline (response : AppendEntriesResponse) (r : Result unit) : bool :=
  match r with
  | Err (InvalidRequest reason) =>
      negb (resp_success response) && bool_decide (reason = "append rejected by peer pipeline")
  | _ => false
  end.

Definition may_retry_append (peer_id : NodeId) (c : RaftCluster) : bool :=
  negb (bool_decide (rc_leader_id c = None))
  && pipeline_status_is peer_id (fun status =>
       negb (pp_paused status) && negb (pp_snapshot_sending status) && negb (pp_snapshot_installing status)
       && (pp_required_snapshot_index status =? pp_acked_snapshot_index status)%N) c.

(** What follows an accepted response: a learner may be promoted, and a pending
    transfer whose target has caught up campaigns. *)
Definition after_success (peer_id : NodeId) (response : AppendEntriesResponse) : Cluster unit :=
  if negb (resp_success response) then mret tt
  else
    _ ← maybe_auto_promote_zero_lag_learner peer_id;
    with_state (fun c =>
      if match active_leader_transfer c with
         | Some transfer => (lt_transferee_id transfer =? peer_id)%N
         | None => false
         end && (rc_last_log_index c <=? resp_match_index response)%N
      then campaign peer_id true else mret tt).

Definition handle_append_entries_response_inner (local_node_id peer_id : NodeId)
    (response : AppendEntriesResponse) (recompute_aggregates record_lease_confirmation : bool)
    : Cluster unit := fun c =>
  let high_term := (rc_current_term c <? resp_term response)%N in
  match rc_nodes c !! local_node_id with
  | None => (Err (NodeNotFound local_node_id), c)
  | Some _ =>
      match (if high_term then peer_response_is_active peer_id c else Ok true) with
      | Err e => (Err e, c)
      | Ok false => (Ok tt, c)
      | Ok true =>
          (_ ← mark_peer_active peer_id;
           _ ← modify (on_node peer_id (answering_peer_role local_node_id peer_id));
           if high_term then modify (step_to_higher_term (resp_term response) "append_response_high_term")
           else
             _ ← modify (record_response_lease peer_id response recompute_aggregates
                           record_lease_confirmation);
             append_response_result ← pipeline_response peer_id response recompute_aggregates;
             _ ← match resp_require_snapshot response with
                 | Some index => trigger_new_snapshot_if_leader_snapshot_is_stale peer_id index
                 | None => mret tt
                 end;
             retry ← gets (fun c =>
               rejected_by_pipeline response append_response_result && may_retry_append peer_id c);
             _ ← (if rejected_by_pipeline response append_response_result then mret tt
                  else lift append_response_result);
             _ ← (if retry : bool
                  then _ ← catch_up_peer_with_reason peer_id "append_reject_retry"; mret tt
                  else mret tt);
             after_success peer_id response) c
      end
  end.

Definition handle_append_entries_response (local_node_id peer_id : NodeId)
    (response : AppendEntriesResponse) : Cluster unit :=
  handle_append_entries_response_inner local_node_id peer_id response true true.

(** ** Heartbeats *)

(** The empty request both broadcasts send to a peer. *)
Definition heartbeat_request (leader_id peer_id : NodeId) (c : RaftCluster) : AppendEntriesRequest :=
  mkAppendEntriesRequest (rc_group_id c) (rc_current_term c) leader_id None []
    (N.min (rc_commit_index c) (match_index_of peer_id c)) (rc_leader_lease_epoch c).

(** [self.append_entries_to(peer_id, request)?] with the request built from the
    state. *)
Definition send_heartbeat (leader_id peer_id : NodeId) : Cluster AppendEntriesResponse := fun c =>
  append_entries_to peer_id (heartbeat_request leader_id peer_id c) c.

Definition skips_heartbeat (peer_id : NodeId) (c : RaftCluster) : bool :=
  (negb (node_is peer_id nd_healthy c) && negb (pipeline_status_is peer_id pp_offline_timeout_reached c))
  || pipeline_status_is peer_id (fun s => pp_snapshot_sending s || pp_snapshot_installing s) c.

Definition should_probe_tail (peer_id : NodeId) (c : RaftCluster) : bool :=
  pipeline_status_is peer_id (fun status =>
    (pp_match_index status <? rc_last_log_index c)%N
    && (pp_next_index status =? rc_last_log_index c +s 1)%N) c.

(** The loop over the peers; the result is the number of heartbeats sent. *)
Fixpoint heartbeat_peers (leader_id : NodeId) (peers : list NodeId) (sent : N) : Cluster N :=
  match peers with
  | [] => mret sent
  | peer_id :: rest => fun c =>
      if skips_heartbeat peer_id c then heartbeat_peers leader_id rest sent c
      else
        (response ← send_heartbeat leader_id peer_id;
         _ ← handle_append_entries_response_inner leader_id peer_id response false true;
         _ ← modify (on_pipeline peer_id record_heartbeat_response);
         probe ← gets (should_probe_tail peer_id);
         _ ← (if probe : bool
              then _ ← catch_up_peer_with_reason peer_id "heartbeat_tail_probe"; mret tt
              else mret tt);
         heartbeat_peers leader_id rest (sent +s 1)) c
  end.

(** [self.refresh_commit_index(); self.leader_lease_valid = ..]. *)
Definition refresh_aggregates (c : RaftCluster) : RaftCluster :=
  let c := refresh_commit_index c in
  c <| rc_leader_lease_valid := leader_lease_quorum_reached c |>.

Definition broadcast_heartbeat : Cluster N := fun c =>
  match rc_leader_id c with
  | None => (Ok 0%N, c)
  | Some leader_id =>
      if negb (node_is leader_id nd_healthy c) then (Ok 0%N, c)
      else
        (_ ← mark_peer_active leader_id;
         single ← gets (fun c => (size (rc_nodes c) =? 1)%nat);
         if single : bool then mret 0%N
         else
           peers ← gets (fun c => filter (fun id => id <> leader_id) (node_ids c));
           sent ← heartbeat_peers leader_id peers 0;
           _ ← (if (0 <? sent)%N then modify refresh_aggregates else mret tt);
           mret sent) c
  end.

(** The loop of the empty appends that old pauses still owe. *)
Fixpoint old_paused_peers (leader_id : NodeId) (peers : list NodeId) (sent : N) : Cluster N :=
  match peers with
  | [] => mret sent
  | peer_id :: rest => fun c =>
      if negb (node_is peer_id nd_healthy c) then old_paused_peers leader_id rest sent c
      else
        let '(should_send, c) := pipeline_op peer_id (fun pipeline =>
          if pp_snapshot_sending (rp_status pipeline) || pp_snapshot_installing (rp_status pipeline)
          then (false, pipeline) else take_empty_append_due_to_old_pause pipeline) c in
        if negb (default false should_send) then old_paused_peers leader_id rest sent c
        else
          (response ← send_heartbeat leader_id peer_id;
           _ ← handle_append_entries_response leader_id peer_id response;
           old_paused_peers leader_id rest (sent +s 1)) c
  end.

Definition broadcast_commit_index_to_old_paused_peers : Cluster N := fun c =>
  match rc_leader_id c with
  | None => (Ok 0%N, c)
  | Some leader_id =>
      old_paused_peers leader_id (filter (fun id => id <> leader_id) (bt_keys (rc_peer_pipelines c))) 0 c
  end.

(** ** Proposals *)

Inductive MembershipProposalOutcome : Type :=
| ProposalAccepted (index : LogIndex)
| ProposalDowngraded (index pending_at : LogIndex).

Definition outcome_index (o : MembershipProposalOutcome) : LogIndex :=
  match o with ProposalAccepted index | ProposalDowngraded index _ => index end.

(** A proposal that names a term is refused in another one; a membership change
    is not checked. *)
Definition expected_term_mismatch (options : ProposeOptions) (c : RaftCluster) : option RaftError :=
  if po_is_membership_change options then None
  else match po_expected_term options with
       | Some expected_term =>
           if negb (expected_term =? rc_current_term c)%N
           then Some (InvalidRequest ("expected term " ++s pretty expected_term
                        ++s " does not match current term " ++s pretty (rc_current_term c)))
           else None
       | None => None
       end.

(** The guards of a proposal before it touches the state: the leader that takes
    it. *)
Definition admit_proposal (payload : Payload) (options : ProposeOptions) (c : RaftCluster)
    : Result (NodeId * Node) :=
  match expected_term_mismatch options c with
  | Some e => Err e
  | None =>
      match rc_leader_id c with
      | None => Err NoLeader
      | Some leader_id =>
          match require_running "propose" c with
          | Err e => Err e
          | Ok _ =>
              if (max_payload_bytes (rc_config c) <? N.of_nat (length payload))%N
              then Err (InvalidRequest "payload exceeds max_payload_bytes")
              else match get_node leader_id c with
                   | Err e => Err e
                   | Ok leader =>
                       if negb (nd_healthy leader) then Err (NotLeader leader_id)
                       else Ok (leader_id, leader)
                   end
          end
      end
  end.

(** Memory is released when the log is near its limit; a proposal that finds it
    at the limit and cannot release is refused. *)
Definition make_room : Cluster unit :=
  _ ← with_state (fun c => if should_release_memory c then _ ← release_memory; mret tt else mret tt);
  with_state (fun c =>
    if is_busy c then
      released ← release_memory;
      if released : bool then mret tt else fail (InvalidRequest "out of memory buffer")
    else mret tt).

(** What a healthy follower does with the proposed entry, and its answer. *)
Definition offer_entry (entry : LogEntry) (as_membership_change : bool) (node : Node)
    : AppendEntriesResponse * Node :=
  let append_is_contiguous := (match_index node +s 1 =? entry_index entry)%N in
  let node :=
    if append_is_contiguous then
      if can_serve_data (nd_replica_role node) then append_entry entry node
      else if bool_decide (nd_replica_role node = Witness)
      then append_witness_entry entry as_membership_change node
      else node
    else node in
  let match_index := match_index node in
  (mkAppendEntriesResponse (hs_current_term (nd_hard_state node)) append_is_contiguous match_index
     (if append_is_contiguous then None else Some (match_index +s 1))
     (if append_is_contiguous then None else Some (entry_index entry))
     None SnapshotNone 0 0, node).

(** The entry goes to one follower: through its pipeline, then to the node when
    it is healthy. The result is its answer, if it gives one. *)
Definition offer_to (node_id : NodeId) (entry : LogEntry) (as_membership_change : bool) (node : Node)
    : Cluster (option AppendEntriesResponse) := fun c =>
  match pipeline_op node_id (fun pipeline =>
          match queue_append entry pipeline with
          | (Err e, pipeline) => (Err e, pipeline)
          | (Ok _, pipeline) =>
              (Ok tt, snd (flush_append_batch_counted 64 (N.max (max_payload_bytes (rc_config c)) 1) pipeline))
          end) c with
  | (None, c) => (Ok None, c)
  | (Some (Err e), c) => (Err e, c)
  | (Some (Ok _), c) =>
      if nd_healthy node then
        let '(response, node) := offer_entry entry as_membership_change node in
        (Ok (Some response), c <| rc_nodes ::= <[node_id := node]> |>)
      else (Ok None, c)
  end.

(** The loop over the nodes. *)
Fixpoint replicate_entry (leader_id : NodeId) (entry : LogEntry) (as_membership_change renewing_lease : bool)
    (ids : list NodeId) : Cluster unit :=
  match ids with
  | [] => mret tt
  | node_id :: rest => fun c =>
      let continue := replicate_entry leader_id entry as_membership_change renewing_lease rest in
      match rc_nodes c !! node_id with
      | None => continue c
      | Some node =>
          if (node_id =? leader_id)%N then continue (on_node node_id (append_entry entry) c)
          else
            (response ← offer_to node_id entry as_membership_change node;
             _ ← match response with
                 | None => mret tt
                 | Some response =>
                     _ ← (if resp_success response && renewing_lease
                          then modify (record_leader_lease_confirmation_inner node_id false) else mret tt);
                     discard (handle_append_entries_response_inner leader_id node_id response false false)
                 end;
             continue) c
      end
  end.

(** A change of membership is already in the log and not yet applied by the
    leader. *)
Definition membership_change_is_pending (leader_safety_applied_index : LogIndex) (c : RaftCluster) : bool :=
  some_above (rc_pending_membership_change_index c) leader_safety_applied_index.

(** A numbered proposal is registered: as the pending membership change when it
    is one, and as the last index of the group. *)
Definition register_proposal (index : LogIndex) (as_membership_change : bool) (c : RaftCluster) : RaftCluster :=
  let c := if as_membership_change
           then c <| rc_pending_membership_change_index := Some index |>
                  <| rc_membership_change_indexes ::= union {[index]} |>
           else c in
  c <| rc_last_log_index := index |>.

(** It goes to every node under a fresh lease epoch, and the aggregates are
    refreshed. *)
Definition spread_proposal (leader_id : NodeId) (entry : LogEntry) (as_membership_change : bool)
    : Cluster unit := fun c =>
  let '(renewing_lease, c) := begin_leader_lease_renewal c in
  let c := if renewing_lease then record_leader_lease_confirmation_inner leader_id false c else c in
  (_ ← replicate_entry leader_id entry as_membership_change renewing_lease (node_ids c);
   _ ← modify refresh_commit_index;
   (if renewing_lease then modify (fun c => snd (finish_leader_lease_renewal c)) else mret tt)) c.

(** The part of a proposal once it is admitted and there is room. *)
Definition append_proposal (leader_id : NodeId) (leader_safety_applied_index : LogIndex)
    (payload : Payload) (options : ProposeOptions) : Cluster LogId := fun c =>
  match next_log_index c with
  | Err e => (Err e, c)
  | Ok index =>
      let log_id := mkLogId (rc_current_term c) index in
      let proposed_as_membership_change :=
        po_is_membership_change options
        && negb (membership_change_is_pending leader_safety_applied_index c) in
      let entry := mkLogEntry log_id payload
                     (po_is_command options && negb proposed_as_membership_change) in
      (_ ← spread_proposal leader_id entry proposed_as_membership_change; mret log_id)
        (register_proposal index proposed_as_membership_change c)
  end.

Definition propose_with_options (payload : Payload) (options : ProposeOptions) : Cluster LogId := fun c =>
  match admit_proposal payload options c with
  | Err e => (Err e, c)
  | Ok (leader_id, leader) =>
      (_ ← make_room; append_proposal leader_id (nd_safety_applied_index leader) payload options) c
  end.

Definition propose (payload : Payload) : Cluster LogId :=
  propose_with_options payload ProposeOptions_default.

Definition propose_membership_change (payload : Payload) : Cluster MembershipProposalOutcome := fun c =>
  let pending_before := rc_pending_membership_change_index c in
  match propose_with_options payload (mkProposeOptions None false true) c with
  | (Err e, c) => (Err e, c)
  | (Ok log_id, c) =>
      (Ok (if bool_decide (rc_pending_membership_change_index c = Some (lid_index log_id))
           then ProposalAccepted (lid_index log_id)
           else ProposalDowngraded (lid_index log_id)
                  (default 0%N (match rc_pending_membership_change_index c with
                                | Some i => Some i
                                | None => pending_before
                                end))), c)
  end.
