(* ===== verification/ReplicationSafety.v ===== *)
(** * Safety and effect of replication

    The operations of [Replication.v] keep the invariant of [GroupInv.v]: over
    proposals, append responses, catch-ups, heartbeats, compaction and
    promotions, terms and votes only move forward, cursors never go back, and a
    committed entry stays in the log until it may be compacted. Then the effect
    of a proposal, of a catch-up, of a response of a higher term, the errors
    that refuse a proposal, and the fate of a proposed membership change. *)

From stdpp Require Import base strings pretty numbers sorting gmap fin_maps sets list.
From S2P Require Import Prelude Types Slice Membership Node Config Pipeline Cluster Election Append GroupInv Replication.

(** ** Composition of steps *)

Lemma transits_impl {A} (R R' : relation RaftCluster) (m : Cluster A) :
  (forall c c', R c c' -> R' c c') -> transits R m -> transits R' m.
Proof. intros H Hm c. apply H, Hm. Qed.

Lemma transits_quiet_sound {A} (m : Cluster A) : transits quiet m -> transits sound m.
Proof. apply transits_impl, quiet_sound. Qed.

Lemma transits_with_state {A} (R : relation RaftCluster) (f : RaftCluster -> Cluster A) :
  (forall c, R c (snd (f c c))) -> transits R (with_state f).
Proof. done. Qed.

(** A step whose result is dropped. *)
Lemma transits_drop {A} (R : relation RaftCluster) `{!PreOrder R} (m : Cluster A) :
  transits R m -> transits R (_ ← m; mret tt).
Proof. intros Hm. apply (transits_bind R); [done|intros _ c'; reflexivity]. Qed.

#[export] Hint Resolve transits_ret transits_fail transits_gets transits_lift transits_modify
  transits_discard transits_drop transits_quiet_sound : raft.

(** ** Steps that leave the ballots alone *)

Lemma pipeline_op_quiet {A} id (op : ReplicationPipeline -> A * ReplicationPipeline) c :
  quiet c (pipeline_op id op c).2.
Proof.
  unfold pipeline_op. destruct (rc_peer_pipelines c !! id) as [p|]; [|reflexivity].
  destruct (op p). quiet_fields.
Qed.

Lemma on_peer_pipeline_quiet {A} id (op : ReplicationPipeline -> A * ReplicationPipeline) :
  transits quiet (on_peer_pipeline id op).
Proof.
  intros c. unfold on_peer_pipeline. pose proof (pipeline_op_quiet id op c). by destruct (pipeline_op id op c).
Qed.

Lemma trigger_snapshot_quiet : transits quiet trigger_snapshot.
Proof.
  intros c. unfold trigger_snapshot. destruct (require_running _ c); [|reflexivity].
  destruct (rc_snapshot_trigger c); quiet_fields.
Qed.

Lemma trigger_new_snapshot_quiet id i :
  transits quiet (trigger_new_snapshot_if_leader_snapshot_is_stale id i).
Proof.
  intros c. unfold trigger_new_snapshot_if_leader_snapshot_is_stale.
  destruct (rc_leader_id c); [|reflexivity]. cbn zeta. destruct (_ <=? _)%N; [reflexivity|].
  pose proof (pipeline_op_quiet id cancel_snapshot_send_for_new_snapshot c) as H1.
  generalize dependent (pipeline_op id cancel_snapshot_send_for_new_snapshot c). intros [a c1] H1. cbn [snd] in *.
  destruct (bool_decide _); [|done]. etrans; [exact H1|].
  apply (transits_drop quiet), trigger_snapshot_quiet.
Qed.

Lemma compact_logs_quiet i limit c : quiet c (compact_logs_through_with_leader_limit i limit c).2.
Proof.
  unfold compact_logs_through_with_leader_limit. cbn [snd]. etrans; [|apply refresh_cluster_indexes_quiet].
  apply quiet_on_nodes. intros n. apply compact_log_through_step.
Qed.

Lemma compact_logs_through_quiet i c : quiet c (compact_logs_through i c).2.
Proof. apply compact_logs_quiet. Qed.

Lemma release_memory_quiet : transits quiet release_memory.
Proof.
  intros c. unfold release_memory. destruct (release_index c) as [[i limit]|]; [|reflexivity].
  destruct (_ <=? _)%N; [reflexivity|].
  pose proof (compact_logs_quiet (i - 1) limit c) as H.
  by destruct (compact_logs_through_with_leader_limit (i - 1) limit c).
Qed.

Lemma make_room_quiet : transits quiet make_room.
Proof.
  apply (transits_bind quiet); [|intros _]; intros c; unfold with_state.
  - destruct (should_release_memory c); [|reflexivity]. apply (transits_drop quiet), release_memory_quiet.
  - destruct (is_busy c); [|reflexivity]. apply (transits_bind quiet release_memory); [apply release_memory_quiet|].
    intros [] c'; reflexivity.
Qed.

Lemma promoted_step b n : nd_replica_role n = Learner -> node_step b n (promoted n).
Proof.
  intros Hr. split; [|done]. split; [unfold cursors_le; cbn; lia|]. intros [Ho Hk] Hm.
  assert (match_index (promoted n) = match_index n) as Hmi by (unfold match_index; cbn; by rewrite Hr).
  split_and!; [split; [done|by rewrite Hmi]|by rewrite Hmi|].
  split; [done|unfold cursors_le; cbn; lia|cbn; by rewrite Hr|done|by left].
Qed.

Lemma reset_leader_lease_epoch_quiet c : quiet c (reset_leader_lease_epoch c).
Proof. quiet_fields. Qed.

Lemma promote_peer_quiet id : transits quiet (promote_peer id).
Proof.
  intros c. unfold promote_peer. destruct (require_running _ c); [|reflexivity].
  destruct (rc_nodes c !! id) as [n|] eqn:Hn; [|reflexivity]. case_bool_decide as Hr; [|reflexivity]. cbn [negb].
  destruct (_ <? _)%N; [reflexivity|]. cbn [snd]. etrans; [|apply reset_leader_lease_epoch_quiet].
  apply quiet_on_node. intros m Hm. rewrite Hn in Hm. injection Hm as <-. by apply promoted_step.
Qed.

Lemma set_auto_promote_state_quiet id s c : quiet c (on_node id (set_auto_promote_state s) c).
Proof. by apply quiet_on_node_same. Qed.

Lemma promote_caught_up_quiet id : transits quiet (promote_caught_up_auto_learner id).
Proof.
  intros c. unfold promote_caught_up_auto_learner. destruct (negb _); [reflexivity|].
  etrans; [apply (set_auto_promote_state_quiet id Promoting)|].
  apply (transits_bind quiet); [apply promote_peer_quiet|intros _ c'; reflexivity].
Qed.

Lemma maybe_auto_promote_quiet id : transits quiet (maybe_auto_promote_zero_lag_learner id).
Proof.
  intros c. unfold maybe_auto_promote_zero_lag_learner. destruct (negb _); [reflexivity|].
  destruct (membership_change_fence_active c); [apply set_auto_promote_state_quiet|apply promote_peer_quiet].
Qed.

(** ** Catch-up *)

Lemma missing_entries_spec leader i :
  log_ordered (nd_log leader) ->
  log_ordered (missing_entries leader i)
  /\ missing_entries leader i = filter (fun e => (i <= entry_index e)%N) (nd_log leader).
Proof.
  intros Ho. unfold missing_entries. pose proof (log_position_at_or_after_spec leader i Ho) as Hp.
  destruct (log_position_at_or_after leader i) as [p|].
  - destruct Hp as (_ & H1 & H2). split; [by apply log_ordered_drop|].
    rewrite <- (take_drop p (nd_log leader)) at 2. rewrite filter_app, filter_nil_Forall, filter_id_Forall; [done|done|].
    eapply Forall_impl; [exact H1|]. cbn. lia.
  - split; [constructor|]. symmetry. apply filter_nil_Forall. eapply Forall_impl; [exact Hp|]. cbn. lia.
Qed.

Lemma append_missing_ballot n e : ballot (append_missing n e) = ballot n.
Proof. unfold append_missing. case_bool_decide; [apply append_witness_entry_ballot|apply append_entry_ballot]. Qed.

Lemma append_missing_last n e :
  log_ordered (nd_log n) -> (last_index n <= entry_index e)%N -> last_index (append_missing n e) = entry_index e.
Proof.
  intros Ho Hl. unfold append_missing. case_bool_decide as Hw; [|by apply append_entry_end].
  unfold append_witness_entry, acknowledge_witness_index. rewrite bool_decide_eq_true_2 by done.
  change (entry_index e) with (entry_index (mkLogEntry (log_id e) [] false)) at 2.
  by apply append_entry_end.
Qed.

Lemma append_missing_step b n e :
  (last_index n <= entry_index e <= b)%N -> node_step b n (append_missing n e).
Proof.
  intros Hi. unfold append_missing. case_bool_decide; [by apply append_witness_entry_step|by apply append_entry_step].
Qed.

Lemma foldl_append_missing_ballot es n : ballot (foldl append_missing n es) = ballot n.
Proof. revert n. induction es as [|e es IH]; intros n; [done|]. cbn. by rewrite IH, append_missing_ballot. Qed.

Lemma append_missing_cursors n e : cursors_le n (append_missing n e).
Proof.
  unfold append_missing. case_bool_decide; [apply append_witness_entry_cursors|apply same_cursors_le, append_entry_cursors].
Qed.

Lemma foldl_append_missing_cursors es n : cursors_le n (foldl append_missing n es).
Proof.
  revert n. induction es as [|e es IH]; intros n; [reflexivity|]. etrans; [apply (append_missing_cursors n e)|apply IH].
Qed.

Lemma foldl_append_missing_step b es n :
  log_ordered es -> Forall (fun e => last_index n <= entry_index e <= b)%N es ->
  log_step b n (foldl append_missing n es).
Proof.
  intros Hs Hf. split; [apply foldl_append_missing_cursors|]. revert n Hf.
  induction Hs as [|e es Hs IH Hall]; intros n Hf Hn Hm; [done|]. cbn.
  apply Forall_cons in Hf as [He Hf]. destruct (append_missing_step b n e He) as [[_ Hst] _].
  destruct (Hst Hn Hm) as (Hn' & Hm' & P). destruct (IH (append_missing n e)) as (? & ? & P'); [|done|done|].
  2: { split_and!; [done|done|by etrans]. }
  rewrite (append_missing_last n e (nk_ordered n Hn) (proj1 He)). apply Forall_forall. intros x Hx.
  rewrite Forall_forall in Hall, Hf. specialize (Hall x Hx). specialize (Hf x Hx). unfold index_lt in Hall. lia.
Qed.

(** The leader's log and snapshot are within the group's last index. *)
Lemma leader_bounds c l leader :
  logs_inv c -> rc_leader_id c = Some l -> rc_nodes c !! l = Some leader ->
  log_ordered (nd_log leader) /\ Forall (fun e => entry_index e <= rc_last_log_index c)%N (nd_log leader)
  /\ (snapshot_index_or_default (nd_installed_snapshot leader) <= rc_last_log_index c)%N.
Proof.
  intros Hc Hl Hn. destruct (li_nodes c Hc l leader Hn) as [[Ho Hk] Hm]. split_and!; [done| |].
  - apply Forall_forall. intros e He. pose proof (last_index_bound leader e Ho He). lia.
  - unfold match_index in Hm. rewrite (li_leader c Hc l leader Hl Hn), bool_decide_eq_false_2 in Hm by done.
    cbn zeta in Hm. lia.
Qed.

Lemma adopt_leader_snapshot_step b s n :
  (snapshot_index_or_default s <= b)%N -> node_step b n (snd (adopt_leader_snapshot s n)).
Proof.
  intros Hs. unfold adopt_leader_snapshot. destruct s as [s|]; [|reflexivity].
  destruct (_ <? _)%N; [|reflexivity]. by apply adopt_snapshot_step.
Qed.

Lemma adopt_leader_snapshot_ballot s n : ballot (snd (adopt_leader_snapshot s n)) = ballot n.
Proof. unfold adopt_leader_snapshot. destruct s as [s|]; [|done]. by destruct (_ <? _)%N. Qed.

(** The log part of a transfer on one peer. *)
Definition transferred_peer (leader : Node) (commit : LogIndex) (peer : Node) : Node :=
  let peer := foldl append_missing peer (missing_entries leader (match_index peer +s 1)) in
  advance_commit (N.min commit (match_index peer)) peer.

Lemma transferred_peer_cursors leader commit n : cursors_le n (transferred_peer leader commit n).
Proof.
  unfold transferred_peer. cbn zeta. etrans; [apply foldl_append_missing_cursors|].
  apply advance_commit_le.
Qed.

Lemma transferred_peer_step leader commit c k peer l :
  logs_inv c -> rc_nodes c !! k = Some peer -> rc_leader_id c = Some l -> rc_nodes c !! l = Some leader ->
  log_step (rc_last_log_index c) peer (transferred_peer leader commit peer).
Proof.
  intros Hc Hp Hl Hn. destruct (leader_bounds c l leader Hc Hl Hn) as (Ho & Hb & _).
  destruct (li_nodes c Hc k peer Hp) as [[Hpo Hpk] Hpm].
  unfold transferred_peer. cbn zeta. etrans; [|apply advance_commit_step].
  destruct (missing_entries_spec leader (match_index peer +s 1) Ho) as [Hmo Hme].
  apply foldl_append_missing_step; [done|]. rewrite Hme. apply Forall_forall. intros e [He Hin]%list_elem_of_filter.
  rewrite Forall_forall in Hb. specialize (Hb e Hin). cbn in Hb. split; [|lia].
  pose proof (saturating_add_ge (match_index peer) 1). pose proof (li_last c Hc) as Hu. unfold u64 in *. lia.
Qed.

Lemma transferred_peer_ballot leader commit n : ballot (transferred_peer leader commit n) = ballot n.
Proof. unfold transferred_peer. cbn zeta. by rewrite advance_commit_ballot, foldl_append_missing_ballot. Qed.

Lemma transfer_log_quiet l id commit c :
  rc_leader_id c = Some l -> quiet c (snd (transfer_log l id commit c)).
Proof.
  intros Hl. unfold transfer_log, get_node. destruct (rc_nodes c !! l) as [leader|] eqn:Hn; [|reflexivity]. cbn [ok_or].
  destruct (rc_nodes c !! id) as [peer|] eqn:Hp; [|reflexivity].
  destruct (adopt_leader_snapshot (nd_installed_snapshot leader) peer) as [o peer1] eqn:Ha.
  pose proof (adopt_leader_snapshot_ballot (nd_installed_snapshot leader) peer) as Hb.
  pose proof (fun b => adopt_leader_snapshot_step b (nd_installed_snapshot leader) peer) as Hst.
  rewrite Ha in Hb, Hst. cbn [snd] in Hb, Hst. clear Ha.
  set (c1 := c <| rc_nodes ::= <[id := peer1]> |>).
  assert (quiet c c1) as H1.
  { apply (quiet_insert id peer); [done| | |done].
    { destruct (Hst (snapshot_index_or_default (nd_installed_snapshot leader)) ltac:(lia)) as [[Hcu _] _]. exact Hcu. }
    intros Hc. apply Hst.
    by destruct (leader_bounds c l leader Hc Hl Hn) as (_ & _ & ?). }
  assert (rc_nodes c1 !! id = Some peer1) as Hp1 by apply lookup_insert_eq.
  assert (rc_leader_id c1 = Some l) as Hl1 by done. clearbody c1. clear Hn Hst leader.
  destruct (rc_nodes c1 !! l) as [leader|] eqn:Hn; [|done]. cbn [ok_or snd]. cbn zeta.
  fold (transferred_peer leader commit peer1). etrans; [exact H1|].
  apply (quiet_insert id peer1); [done|apply transferred_peer_cursors| |apply transferred_peer_ballot].
  intros Hc1. by apply (transferred_peer_step leader commit c1 id peer1 l).
Qed.

Lemma settle_catch_up_quiet id reason i j o : transits quiet (settle_catch_up id reason i j o).
Proof.
  apply (transits_bind quiet); [intros c'; reflexivity|intros k].
  apply (transits_bind quiet); [intros c'; apply (on_peer_pipeline_quiet id)|intros r].
  apply (transits_bind quiet); [apply mark_peer_active_quiet|intros _].
  apply (transits_bind quiet); [intros c'; apply refresh_cluster_indexes_quiet|intros _].
  apply (transits_bind quiet); [|intros _ c'; reflexivity].
  destruct (default _ r); [|intros c'; reflexivity]. apply (transits_drop quiet), promote_caught_up_quiet.
Qed.

Lemma catch_up_quiet id reason : transits quiet (catch_up_peer_with_reason id reason).
Proof.
  intros c. unfold catch_up_peer_with_reason. destruct (rc_leader_id c) as [l|] eqn:Hl; [|reflexivity].
  apply (bind_step quiet); [by apply transfer_log_quiet|intros o; apply settle_catch_up_quiet].
Qed.

Lemma learner_catch_up_loop_quiet id : transits quiet (learner_catch_up_loop id).
Proof.
  intros c. unfold learner_catch_up_loop. destruct (rc_nodes c !! id); [|reflexivity].
  destruct (negb _); [reflexivity|apply catch_up_quiet].
Qed.

Lemma record_network_error_quiet id : transits quiet (record_network_error_for id).
Proof.
  intros c. unfold record_network_error_for. pose proof (pipeline_op_quiet id record_network_error c) as H1.
  destruct (pipeline_op id record_network_error c) as [[probe|] c1]; [|done]. cbn [snd] in *.
  destruct (_ && _); [|done]. etrans; [exact H1|]. apply (transits_drop quiet), catch_up_quiet.
Qed.

Lemma catch_up_one_quiet acc id : quiet acc.2 (catch_up_one acc id).2.
Proof.
  destruct acc as [[r es] c]. unfold catch_up_one. pose proof (catch_up_quiet id "" c) as H.
  by destruct (catch_up_peer_with_reason id "" c) as [[] c'].
Qed.

Lemma catch_up_lagging_quiet c : quiet c (catch_up_lagging_peers c).2.
Proof.
  assert (forall ids acc, quiet acc.2 (foldl catch_up_one acc ids).2) as Hf.
  { induction ids as [|id ids IH]; intros acc; [reflexivity|]. etrans; [apply (catch_up_one_quiet acc id)|apply IH]. }
  unfold catch_up_lagging_peers. generalize (S (size (rc_nodes c))) (None : option NodeId). intros fuel.
  change c with ((0%N, [] : list (NodeId * RaftError), c).2) at 1. generalize (0%N, [] : list (NodeId * RaftError), c).
  induction fuel as [|fuel IH]; intros acc after; [reflexivity|]. cbn [catch_up_chunks]. cbn zeta.
  destruct (pick_chunk _ _ _ _) as [ids [v|]]; [|reflexivity]. etrans; [apply (Hf ids)|apply IH].
Qed.

(** ** Append responses *)

Lemma step_to_higher_term_sound t reason c :
  (rc_current_term c < t)%N -> sound c (step_to_higher_term t reason c).
Proof.
  intros Ht. unfold step_to_higher_term. cbn zeta. set (c1 := invalidate_leader_lease _).
  assert (rc_nodes c1 = rc_nodes c /\ rc_current_term c1 = t /\ rc_leader_id c1 = None
    /\ rc_last_log_index c1 = rc_last_log_index c /\ fence c1 = fence c) as (Hn & Hct & Hle & Hla & Hf) by done.
  clearbody c1.
  assert (logs_kept c c1) as L1 by (apply logs_kept_frame; [done|done|lia|by rewrite Hla|by right]).
  assert (ballots c1 = ballots c) as Hb by (unfold ballots; by rewrite Hn).
  destruct (abort_leader_transfer_quiet reason c1) as [[Hb2 Ht2] L2].
  generalize dependent (abort_leader_transfer reason c1).2. intros c2 Hb2 Ht2 L2.
  set (f := fun node : Node => _). assert (forall n, same_replica n (f n)) as Hs by done.
  assert (ballots (on_nodes f c2) = (fun _ => (t, None)) <$> ballots c) as Hbf.
  { rewrite (ballots_on_nodes f (fun _ => (t, None))) by done. by rewrite Hb2, Hb. }
  assert (rc_current_term (on_nodes f c2) = t) as Htf by (cbn; congruence).
  split.
  - intros Hc. split_and!; [|lia|].
    + intros k b. rewrite Hbf, Htf, lookup_fmap. intros (b0 & _ & ->)%fmap_Some. cbn. lia.
    + intros k b Hk. rewrite Hbf, lookup_fmap, Hk. eexists. split; [done|]. left. cbn.
      specialize (Hc k b Hk). cbn in Hc. lia.
  - etrans; [exact L1|]. etrans; [exact L2|]. apply logs_kept_on_nodes_step. intros n. by apply same_replica_step.
Qed.

Lemma answering_peer_role_quiet l id c : quiet c (on_node id (answering_peer_role l id) c).
Proof.
  apply quiet_on_node_same. intros n. unfold answering_peer_role.
  destruct (_ && _); [done|]. by case_bool_decide.
Qed.

Lemma record_response_lease_quiet id r x y c : quiet c (record_response_lease id r x y c).
Proof.
  unfold record_response_lease. destruct (_ && _); [apply receive_confirmation_quiet|].
  destruct (_ && _); [apply record_confirmation_quiet|reflexivity].
Qed.

Lemma pipeline_response_quiet id r x : transits quiet (pipeline_response id r x).
Proof.
  intros c. unfold pipeline_response. cbn zeta.
  match goal with |- context [pipeline_op id ?op c] => pose proof (pipeline_op_quiet id op c) as H1;
    destruct (pipeline_op id op c) as [[a|] c1]; [|exact H1] end.
  cbn [snd] in *. destruct x; [|done]. etrans; [exact H1|apply refresh_commit_index_quiet].
Qed.

Lemma after_success_sound id r : transits sound (after_success id r).
Proof.
  unfold after_success. destruct (negb _); [intros c; reflexivity|].
  apply (transits_bind sound); [apply transits_quiet_sound, maybe_auto_promote_quiet|intros _ c].
  unfold with_state. destruct (_ && _); [apply campaign_sound|reflexivity].
Qed.

(** The rest of a response once the peer counts as active. *)
Lemma handle_response_sound l id r x y : transits sound (handle_append_entries_response_inner l id r x y).
Proof.
  intros c. unfold handle_append_entries_response_inner. cbn zeta.
  destruct (rc_nodes c !! l); [|reflexivity].
  destruct (if (rc_current_term c <? resp_term r)%N then peer_response_is_active id c else Ok true)
    as [[]|]; [|reflexivity..].
  destruct (N.ltb_spec (rc_current_term c) (resp_term r)) as [Hlt|].
  { pose proof (mark_peer_active_quiet id c) as H1. unfold mbind, ST_bind, modify.
    destruct (mark_peer_active id c) as [[u|e] c1]; cbn [snd] in *; [|by apply quiet_sound].
    destruct (answering_peer_role_quiet l id c1) as [[_ Ht] _]. pose proof (proj2 (proj1 H1)) as Ht1.
    etrans; [apply quiet_sound, H1|]. etrans; [apply quiet_sound, (answering_peer_role_quiet l id)|].
    apply step_to_higher_term_sound. lia. }
  apply (bind_step sound); [apply quiet_sound, mark_peer_active_quiet|intros _].
  apply (transits_bind sound); [intros c'; apply quiet_sound, answering_peer_role_quiet|intros _].
  apply (transits_bind sound); [intros c'; apply quiet_sound, record_response_lease_quiet|intros _].
  apply (transits_bind sound); [apply transits_quiet_sound, pipeline_response_quiet|intros res].
  apply (transits_bind sound).
  { destruct (resp_require_snapshot r); [|intros c'; reflexivity].
    apply transits_quiet_sound, trigger_new_snapshot_quiet. }
  intros _. apply (transits_bind sound); [intros c'; reflexivity|intros retry].
  apply (transits_bind sound); [destruct (rejected_by_pipeline r res); intros c'; reflexivity|intros _].
  apply (transits_bind sound); [|intros _; apply after_success_sound].
  destruct retry; [|intros c'; reflexivity]. apply transits_quiet_sound, (transits_drop quiet), catch_up_quiet.
Qed.

(** ** Heartbeats *)

Lemma votes_kept_put id n n' c :
  rc_nodes c !! id = Some n ->
  (terms_bounded c -> ballot_step (ballot n) (ballot n') /\ ((ballot n').1 <= rc_current_term c)%N) ->
  votes_kept c (c <| rc_nodes ::= <[id := n']> |>).
Proof.
  intros Hn Hs. apply (votes_kept_alter id (fun _ => ballot n') (rc_current_term c)); [lia|done| |].
  - unfold ballots. cbn. rewrite fmap_insert. apply map_eq. intros k. rewrite lookup_insert, lookup_alter.
    case_decide; [|done]. subst. by rewrite lookup_fmap, Hn.
  - intros b Hb. unfold ballots in Hb. rewrite lookup_fmap, Hn in Hb. injection Hb as <-. done.
Qed.

Lemma adopt_append_leader_sound request c :
  append_leader_eligible request c = true -> aer_term request = rc_current_term c ->
  sound c (adopt_append_leader request c) /\ rc_current_term (adopt_append_leader request c) = rc_current_term c.
Proof.
  intros He Ht. unfold adopt_append_leader. destruct (_ && _); [|done]. rewrite Ht, N.ltb_irrefl. cbn zeta.
  unfold append_leader_eligible in He. destruct (rc_nodes c !! aer_leader_id request) as [n|] eqn:Hn; [|done].
  assert (nd_replica_role n = Voter) as Hv by (by destruct (nd_replica_role n)).
  set (c1 := clear_reorder_queues _).
  assert (sound c c1 /\ rc_current_term c1 = rc_current_term c) as [H1 Ht1].
  { split; [|done]. split; [by apply same_ballots_kept|]. by apply (logs_kept_leader (aer_leader_id request) n). }
  clearbody c1. pose proof (settle_leader_transfer_quiet (aer_leader_id request) c1) as H2.
  generalize dependent (settle_leader_transfer (aer_leader_id request) c1). intros c2 H2.
  pose proof (proj2 (proj1 H2)) as Ht2. split; [|cbn; congruence].
  etrans; [exact H1|]. apply quiet_sound. etrans; [exact H2|].
  etrans; [|apply quiet_on_nodes; intros m; by apply node_step_same]. quiet_fields.
Qed.

Lemma renew_append_lease_quiet t r c : quiet c (snd (renew_append_lease t r c)).
Proof.
  unfold renew_append_lease, renew_follower_lease_from_append_entries, renew_follower_lease,
    receive_follower_lease_item. destruct (_ && _); [|reflexivity]. cbn [snd]. cbn zeta.
  destruct (0 <? _)%N; destruct (_ <=? _)%N; quiet_fields.
Qed.

Lemma raise_node_term_sound id request n c :
  rc_nodes c !! id = Some n -> aer_term request = rc_current_term c ->
  sound c (put_node id (raise_node_term request n) c).
Proof.
  intros Hn Ht. split.
  - apply (votes_kept_put id n); [done|]. intros Hc. unfold raise_node_term.
    destruct (N.ltb_spec (hs_current_term (nd_hard_state n)) (aer_term request)) as [Hlt|].
    + split; [left; done|]. cbn. lia.
    + split; [reflexivity|]. apply (Hc id). unfold ballots. by rewrite lookup_fmap, Hn.
  - assert (same_replica n (raise_node_term request n)) as Hs by (unfold raise_node_term; by destruct (_ <? _)%N).
    apply (logs_kept_insert id n); [done|exact (proj1 (same_replica_step 0 _ _ Hs))|].
    intros _. by apply same_replica_step.
Qed.

(** A heartbeat in the group's term: at most the commit index of the target
    moves, and the reorder queue is not drained. *)
Lemma empty_append_sound target request c :
  aer_prev_log_id request = None -> aer_entries request = [] -> aer_term request = rc_current_term c ->
  sound c (snd (append_entries_to target request c)).
Proof.
  intros Hp He Ht. unfold append_entries_to, append_entries_with_membership_change_indexes_to, append_with, receive_append.
  cbn zeta. destruct (negb (_ =? _)%N); [reflexivity|].
  destruct (append_leader_eligible request c) eqn:Hel; cbn [negb]; [|destruct (rc_nodes c !! target); reflexivity].
  rewrite Ht, N.ltb_irrefl. destruct (adopt_append_leader_sound request c Hel Ht) as [H1 Ht1].
  generalize dependent (adopt_append_leader request c). intros c1 H1 Ht1.
  pose proof (renew_append_lease_quiet target request c1) as H2.
  destruct (renew_append_lease target request c1) as [lease c2]. cbn [snd] in H2.
  assert (sound c c2) as H3 by (etrans; [exact H1|by apply quiet_sound]).
  assert (aer_term request = rc_current_term c2) as Ht2 by (rewrite (proj2 (proj1 H2)); congruence).
  destruct (rc_nodes c2 !! target) as [n|] eqn:Hn; [|done].
  destruct (_ <? _)%N; [done|]. pose proof (raise_node_term_sound target request n c2 Hn Ht2) as H4.
  assert (rc_nodes (put_node target (raise_node_term request n) c2) !! target = Some (raise_node_term request n)) as Hn3
    by apply lookup_insert_eq.
  generalize dependent (raise_node_term request n). intros n3 H4 Hn3. generalize dependent (put_node target n3 c2).
  intros c3 H4 Hn3. unfold append_to_node. cbn zeta. rewrite !bool_decide_eq_true_2 by done. cbn [andb].
  etrans; [exact H3|]. etrans; [exact H4|].
  destruct (match rc_peer_pipelines c3 !! target with Some _ => _ | None => _ end); [reflexivity|]. cbn [snd returns].
  apply quiet_sound. etrans; [|apply refresh_cluster_indexes_quiet].
  apply (quiet_insert target n3); [done| | |apply advance_commit_ballot].
  - apply advance_commit_le.
  - intros _. apply advance_commit_step.
Qed.

Lemma send_heartbeat_sound l id : transits sound (send_heartbeat l id).
Proof. intros c. by apply empty_append_sound. Qed.

Lemma heartbeat_peers_sound l ids sent : transits sound (heartbeat_peers l ids sent).
Proof.
  revert sent. induction ids as [|id ids IH]; intros sent c; [reflexivity|]. cbn [heartbeat_peers].
  destruct (skips_heartbeat id c); [apply IH|].
  apply (bind_step sound); [apply send_heartbeat_sound|intros r].
  apply (transits_bind sound); [apply handle_response_sound|intros _].
  apply (transits_bind sound); [intros c'; apply quiet_sound, quiet_on_pipeline|intros _].
  apply (transits_bind sound); [intros c'; reflexivity|intros probe].
  apply (transits_bind sound); [|intros _; apply IH].
  destruct probe; [|intros c'; reflexivity]. apply transits_quiet_sound, (transits_drop quiet), catch_up_quiet.
Qed.

Lemma refresh_aggregates_quiet c : quiet c (refresh_aggregates c).
Proof. unfold refresh_aggregates. cbn zeta. etrans; [apply refresh_commit_index_quiet|]. quiet_fields. Qed.

Lemma broadcast_heartbeat_sound : transits sound broadcast_heartbeat.
Proof.
  intros c. unfold broadcast_heartbeat. destruct (rc_leader_id c) as [l|]; [|reflexivity].
  destruct (negb _); [reflexivity|].
  apply (bind_step sound); [apply quiet_sound, mark_peer_active_quiet|intros _].
  apply (transits_bind sound); [intros c'; reflexivity|intros []; [intros c'; reflexivity|]].
  apply (transits_bind sound); [intros c'; reflexivity|intros ids].
  apply (transits_bind sound); [apply heartbeat_peers_sound|intros sent].
  apply (transits_bind sound); [|intros _ c'; reflexivity].
  destruct (0 <? sent)%N; intros c'; [apply quiet_sound, refresh_aggregates_quiet|reflexivity].
Qed.

Lemma old_paused_peers_sound l ids sent : transits sound (old_paused_peers l ids sent).
Proof.
  revert sent. induction ids as [|id ids IH]; intros sent c; [reflexivity|]. cbn [old_paused_peers].
  destruct (negb _); [apply IH|].
  match goal with |- context [pipeline_op id ?op c] => pose proof (pipeline_op_quiet id op c) as H1;
    destruct (pipeline_op id op c) as [a c1] end.
  cbn [snd] in H1. etrans; [apply quiet_sound, H1|]. destruct (negb _); [apply IH|].
  apply (bind_step sound); [apply send_heartbeat_sound|intros r].
  apply (transits_bind sound); [apply handle_response_sound|intros _; apply IH].
Qed.

Lemma broadcast_commit_index_sound : transits sound broadcast_commit_index_to_old_paused_peers.
Proof.
  intros c. unfold broadcast_commit_index_to_old_paused_peers.
  destruct (rc_leader_id c); [apply old_paused_peers_sound|reflexivity].
Qed.

(** ** Proposals

    A proposal may leave the log of the group in a state that is not described by
    [logs_inv] (see [proposal_reuses_index] below), so in general it keeps less:
    the votes, the cursors and, apart from the change it registers itself, the
    membership record. *)

Definition onward (c c' : RaftCluster) : Prop := votes_kept c c' /\ advances c c'.

#[export] Instance onward_preorder : PreOrder onward.
Proof. split; [by split|]. intros a b c [A1 A2] [B1 B2]. split; by etrans. Qed.

Lemma sound_onward c c' : sound c c' -> onward c c'.
Proof. intros [H1 [H2 _]]. by split. Qed.

Lemma quiet_onward c c' : quiet c c' -> onward c c'.
Proof. intros. by apply sound_onward, quiet_sound. Qed.

Lemma onward_insert id n n' c :
  rc_nodes c !! id = Some n -> cursors_le n n' -> ballot n' = ballot n ->
  onward c (c <| rc_nodes ::= <[id := n']> |>).
Proof.
  intros Hn Hcur Hb. split.
  - apply (votes_kept_put id n); [done|]. intros Hc. rewrite Hb. split; [reflexivity|].
    apply (Hc id). unfold ballots. by rewrite lookup_fmap, Hn.
  - split; [done|]. intros k m Hm. cbn. rewrite lookup_insert. case_decide as Hk; [|by exists m]. subst k.
    exists n'. rewrite Hn in Hm. by injection Hm as <-.
Qed.

Lemma pipeline_op_nodes {A} id (op : ReplicationPipeline -> A * ReplicationPipeline) c :
  rc_nodes (pipeline_op id op c).2 = rc_nodes c.
Proof. unfold pipeline_op. destruct (rc_peer_pipelines c !! id) as [p|]; [|done]. by destruct (op p). Qed.

Lemma offer_entry_step e m n :
  cursors_le n (offer_entry e m n).2 /\ ballot (offer_entry e m n).2 = ballot n.
Proof.
  unfold offer_entry. cbn [snd]. destruct (_ =? _)%N; [|done]. destruct (can_serve_data _).
  - split; [apply same_cursors_le, append_entry_cursors|apply append_entry_ballot].
  - case_bool_decide; [|done]. split; [apply append_witness_entry_cursors|apply append_witness_entry_ballot].
Qed.

Lemma offer_to_onward id e m n c :
  rc_nodes c !! id = Some n -> onward c (snd (offer_to id e m n c)).
Proof.
  intros Hn. unfold offer_to.
  match goal with |- context [pipeline_op id ?op c] => pose proof (pipeline_op_quiet id op c) as H1;
    pose proof (pipeline_op_nodes id op c) as Hns; destruct (pipeline_op id op c) as [[[u|x]|] c1] end;
    cbn [snd] in *; [|by apply quiet_onward..].
  destruct (nd_healthy n); [|by apply quiet_onward]. pose proof (offer_entry_step e m n) as [Hcur Hb].
  destruct (offer_entry e m n) as [r n']. cbn [snd] in *. etrans; [apply quiet_onward, H1|].
  apply (onward_insert id n); [by rewrite Hns|done|done].
Qed.

Lemma replicate_entry_onward l e m b ids : transits onward (replicate_entry l e m b ids).
Proof.
  induction ids as [|id ids IH]; intros c; [reflexivity|]. cbn [replicate_entry]. cbn zeta.
  destruct (rc_nodes c !! id) as [n|] eqn:Hn; [|apply IH]. destruct (_ =? _)%N.
  { rewrite (on_node_insert id _ c n Hn). etrans; [|apply IH].
    apply (onward_insert id n); [done|apply same_cursors_le, append_entry_cursors|apply append_entry_ballot]. }
  apply (bind_step onward); [by apply offer_to_onward|intros r].
  apply (transits_bind onward); [|intros _; apply IH]. destruct r as [r|]; [|intros c'; reflexivity].
  apply (transits_bind onward).
  - destruct (_ && _); intros c'; [apply quiet_onward, record_confirmation_quiet|reflexivity].
  - intros _ c'. apply sound_onward, handle_response_sound.
Qed.

Lemma begin_renewal_quiet c : quiet c (begin_leader_lease_renewal c).2.
Proof. unfold begin_leader_lease_renewal. destruct (rc_leader_id c); quiet_fields. Qed.

Lemma finish_renewal_quiet c : quiet c (finish_leader_lease_renewal c).2.
Proof. unfold finish_leader_lease_renewal. cbn zeta. quiet_fields. Qed.

Lemma spread_proposal_onward l e m : transits onward (spread_proposal l e m).
Proof.
  intros c. unfold spread_proposal. pose proof (begin_renewal_quiet c) as H1.
  destruct (begin_leader_lease_renewal c) as [b c1]. cbn [snd] in H1. etrans; [apply quiet_onward, H1|]. cbn zeta.
  set (c2 := if b then _ else c1).
  assert (quiet c1 c2) as H2 by (subst c2; destruct b; [apply record_confirmation_quiet|reflexivity]). clearbody c2.
  etrans; [apply quiet_onward, H2|].
  apply (bind_step onward); [apply replicate_entry_onward|intros _].
  apply (transits_bind onward); [intros c'; apply quiet_onward, refresh_commit_index_quiet|intros _ c'].
  destruct b; [apply quiet_onward, finish_renewal_quiet|reflexivity].
Qed.

(** No node leaves and no cursor moves back, with the votes; a proposal may
    register a membership change. *)
Definition forward (c c' : RaftCluster) : Prop :=
  votes_kept c c' /\
  forall k n, rc_nodes c !! k = Some n -> exists n', rc_nodes c' !! k = Some n' /\ cursors_le n n'.

#[export] Instance forward_preorder : PreOrder forward.
Proof.
  split.
  - intros c. split; [reflexivity|]. intros k n Hn. by exists n.
  - intros a b c [V1 H1] [V2 H2]. split; [by etrans|]. intros k n Hn.
    destruct (H1 k n Hn) as (n1 & Hk1 & P1). destruct (H2 k n1 Hk1) as (n2 & Hk2 & P2). exists n2. split; [done|by etrans].
Qed.

Lemma onward_forward c c' : onward c c' -> forward c c'.
Proof. intros [H1 [_ H2]]. by split. Qed.

Lemma sound_forward c c' : sound c c' -> forward c c'.
Proof. intros. by apply onward_forward, sound_onward. Qed.

Lemma register_proposal_forward i m c : forward c (register_proposal i m c).
Proof.
  unfold register_proposal. split; [apply same_ballots_kept, same_ballots_nodes; by destruct m|].
  intros k n Hn. exists n. by destruct m.
Qed.

Lemma append_proposal_forward l s payload options : transits forward (append_proposal l s payload options).
Proof.
  intros c. unfold append_proposal. destruct (next_log_index c) as [i|x]; [|reflexivity]. cbn zeta.
  generalize (po_is_membership_change options && negb (membership_change_is_pending s c)). intros m.
  etrans; [apply (register_proposal_forward i m)|].
  apply (bind_step forward); [apply onward_forward, spread_proposal_onward|intros _ c'; reflexivity].
Qed.

Lemma propose_forward payload options : transits forward (propose_with_options payload options).
Proof.
  intros c. unfold propose_with_options. destruct (admit_proposal payload options c) as [[l leader]|]; [|reflexivity].
  apply (bind_step forward); [apply sound_forward, quiet_sound, make_room_quiet|intros _; apply append_proposal_forward].
Qed.

Lemma propose_membership_change_forward payload : transits forward (propose_membership_change payload).
Proof.
  intros c. unfold propose_membership_change. pose proof (propose_forward payload (mkProposeOptions None false true) c) as H.
  by destruct (propose_with_options _ _ c) as [[] c'].
Qed.

(** *** Membership changes *)

Lemma admit_proposal_Ok payload options c l leader :
  admit_proposal payload options c = Ok (l, leader) ->
  rc_leader_id c = Some l /\ rc_nodes c !! l = Some leader /\ nd_healthy leader = true /\ rc_running c = true
  /\ (N.of_nat (length payload) <= max_payload_bytes (rc_config c))%N.
Proof.
  unfold admit_proposal, require_running, get_node. destruct (expected_term_mismatch _ _); [done|].
  destruct (rc_leader_id c) as [l'|]; [|done]. destruct (rc_running c); [|done].
  destruct (N.ltb_spec (max_payload_bytes (rc_config c)) (N.of_nat (length payload))); [done|].
  destruct (rc_nodes c !! l') as [n|] eqn:Hn; [|done]. cbn [ok_or]. destruct (nd_healthy n) eqn:Hh; [|done].
  intros [= <- <-]. done.
Qed.

(** What an accepted proposal went through. *)
Lemma propose_Ok payload options c lid c' :
  propose_with_options payload options c = (Ok lid, c') ->
  exists l leader c1 m, admit_proposal payload options c = Ok (l, leader) /\ make_room c = (Ok tt, c1)
    /\ next_log_index c1 = Ok (lid_index lid) /\ lid_term lid = rc_current_term c1
    /\ m = po_is_membership_change options
           && negb (membership_change_is_pending (nd_safety_applied_index leader) c1)
    /\ spread_proposal l (mkLogEntry lid payload (po_is_command options && negb m)) m
         (register_proposal (lid_index lid) m c1) = (Ok tt, c').
Proof.
  unfold propose_with_options. destruct (admit_proposal payload options c) as [[l leader]|]; [|done].
  unfold mbind at 1, ST_bind at 1. destruct (make_room c) as [[[]|] c1]; [|done]. unfold append_proposal.
  destruct (next_log_index c1) as [i|] eqn:Hi; [|done]. unfold mbind, ST_bind.
  set (m := po_is_membership_change options && _). set (e := mkLogEntry _ _ _).
  destruct (spread_proposal l e m (register_proposal i m c1)) as [[[]|] c2] eqn:Hs; [|done].
  intros [= <- <-]. exists l, leader, c1, m. done.
Qed.

(** What a proposed membership change comes to. When the leader has applied
    every earlier change, the proposal is accepted and its index becomes the
    pending change and joins the recorded ones; while a change is pending, the
    record of changes stays as it was, and the caller is told the proposal was
    downgraded, and behind which index. *)
Theorem membership_proposal_outcome payload c outcome c' :
  propose_membership_change payload c = (Ok outcome, c') ->
  exists l leader, rc_leader_id c = Some l /\ rc_nodes c !! l = Some leader
  /\ (some_above (rc_pending_membership_change_index c) (nd_safety_applied_index leader) = false ->
      outcome = ProposalAccepted (outcome_index outcome)
      /\ fence c' = (Some (outcome_index outcome), {[outcome_index outcome]} ∪ rc_membership_change_indexes c,
                     rc_saving_membership_change_index c, rc_stabled_membership_change_index c))
  /\ (some_above (rc_pending_membership_change_index c) (nd_safety_applied_index leader) = true ->
      fence c' = fence c
      /\ forall p, rc_pending_membership_change_index c = Some p -> p <> outcome_index outcome ->
           outcome = ProposalDowngraded (outcome_index outcome) p).
Proof.
  unfold propose_membership_change. destruct (propose_with_options _ _ c) as [[lid|] c2] eqn:Hp; [|done].
  intros [= <- <-]. apply propose_Ok in Hp as (l & leader & c1 & m & Ha & Hr & Hi & _ & Hm & Hs).
  apply admit_proposal_Ok in Ha as (Hl & Hn & _). exists l, leader. split_and!; [done|done|..].
  all: pose proof (make_room_quiet c) as [_ [[Hf _] _]]; rewrite Hr in Hf; cbn [snd] in Hf.
  all: pose proof (spread_proposal_onward l (mkLogEntry lid payload (po_is_command (mkProposeOptions None false true) && negb m))
      m (register_proposal (lid_index lid) m c1)) as [_ [Hf2 _]]; rewrite Hs in Hf2; cbn [snd] in Hf2.
  all: unfold fence in *; injection Hf as Hf3 Hf4 Hf5 Hf6; unfold membership_change_is_pending in Hm; rewrite Hf3 in Hm.
  all: intros Hpend; rewrite Hpend in Hm; cbn in Hm; subst m; cbn in Hf2; injection Hf2 as Hg3 Hg4 Hg5 Hg6.
  - rewrite bool_decide_eq_true_2 by done. cbn. split; [done|]. congruence.
  - rewrite Hg3, Hg4, Hg5, Hg6, Hf3, Hf4, Hf5, Hf6. split; [done|]. intros p Hpp Hne. rewrite Hpp in *.
    revert Hne. case_bool_decide as Heq; [injection Heq as ->; by cbn|]. by cbn.
Qed.

(** Node 1 leads and nobody else answers, so a change it proposes stays pending. *)
Definition isolated_leader : RaftCluster :=
  snd ((_ ← partition_peer 2; _ ← partition_peer 3; partition_peer 4) sample_cluster).

Lemma membership_proposal_outcome_witness :
  let c1 := snd (propose_membership_change [Byte.x01] isolated_leader) in
  let c2 := snd (propose_membership_change [Byte.x02] c1) in
  fence c1 = (Some 1%N, {[1%N]}, None, 0%N) /\ fence c2 = fence c1.
Proof.
  intros c1 c2. split; [vm_compute; reflexivity|].
  destruct (membership_proposal_outcome [Byte.x02] c1 (ProposalDowngraded 2 1) c2) as (l & leader & Hl & Hn & _ & H).
  { apply injective_projections; vm_compute; reflexivity. }
  apply H. assert (l = 1%N) as -> by (vm_compute in Hl; congruence).
  assert (nd_safety_applied_index <$> rc_nodes c1 !! 1%N = Some 0%N) as Hs by (vm_compute; reflexivity).
  rewrite Hn in Hs. injection Hs as ->. vm_compute. reflexivity.
Defined.

(** ** A response of a higher term *)

(** The state after the group has left its term: a node keeps its log, its
    replica role and its cursors. *)
Definition left_term (t : Term) (n n' : Node) : Prop :=
  hs_current_term (nd_hard_state n') = t /\ hs_voted_for (nd_hard_state n') = None
  /\ hs_committed (nd_hard_state n') = hs_committed (nd_hard_state n)
  /\ nd_raft_role n' = passive_role n /\ same_replica n n'.

Lemma abort_leader_transfer_spec reason c :
  let c' := (abort_leader_transfer reason c).2 in
  rc_nodes c' = rc_nodes c /\ rc_current_term c' = rc_current_term c /\ rc_leader_id c' = rc_leader_id c
  /\ rc_leader_lease_valid c' = rc_leader_lease_valid c /\ rc_follower_lease_valid c' = rc_follower_lease_valid c
  /\ rc_reorder_queues c' = rc_reorder_queues c /\ active_leader_transfer c' = None.
Proof. unfold abort_leader_transfer. destruct (active_leader_transfer c) eqn:Ha; done. Qed.

Lemma step_to_higher_term_spec t reason c :
  let c' := step_to_higher_term t reason c in
  rc_current_term c' = t /\ rc_leader_id c' = None /\ rc_leader_lease_valid c' = false
  /\ rc_follower_lease_valid c' = false /\ rc_reorder_queues c' = ∅ /\ active_leader_transfer c' = None
  /\ forall k n, rc_nodes c !! k = Some n -> exists n', rc_nodes c' !! k = Some n' /\ left_term t n n'.
Proof.
  cbn zeta. unfold step_to_higher_term. cbn zeta. set (c1 := invalidate_leader_lease _).
  destruct (abort_leader_transfer_spec reason c1) as (H1 & H2 & H3 & H4 & H5 & H6 & H7).
  change (rc_nodes c1) with (rc_nodes c) in H1. change (rc_current_term c1) with t in H2.
  change (rc_leader_id c1) with (None : option NodeId) in H3. change (rc_leader_lease_valid c1) with false in H4.
  change (rc_follower_lease_valid c1) with false in H5.
  change (rc_reorder_queues c1) with (∅ : gmap N (gmap N ReorderedAppend)) in H6. clearbody c1.
  generalize dependent ((abort_leader_transfer reason c1).2). intros c2 H1 H2 H3 H4 H5 H6 H7.
  split_and!; [exact H2|exact H3|exact H4|exact H5|exact H6|exact H7|].
  intros k n Hk. eexists. cbn. rewrite lookup_fmap, H1, Hk. split; [reflexivity|]. done.
Qed.

(** a response of a higher term ends the leader's term. From a peer the group
    counts as live, it moves the group and every node to that term with no vote
    cast, no leader, no lease, no reordered append and no transfer in progress,
    each log untouched; from a peer that is not live it changes nothing. *)
Theorem higher_term_response_ends_term l id r c peer :
  is_Some (rc_nodes c !! l) -> rc_nodes c !! id = Some peer -> (rc_current_term c < resp_term r)%N ->
  let '(result, c') := handle_append_entries_response l id r c in
  result = Ok tt
  /\ if nd_healthy peer then
       rc_current_term c' = resp_term r /\ rc_leader_id c' = None
       /\ rc_leader_lease_valid c' = false /\ rc_follower_lease_valid c' = false
       /\ rc_reorder_queues c' = ∅ /\ active_leader_transfer c' = None
       /\ forall k n, rc_nodes c !! k = Some n ->
            exists n', rc_nodes c' !! k = Some n' /\ left_term (resp_term r) n n'
     else c' = c.
Proof.
  intros [local Hl] Hp Ht. unfold handle_append_entries_response, handle_append_entries_response_inner.
  rewrite Hl. cbn zeta. rewrite (proj2 (N.ltb_lt _ _) Ht). unfold peer_response_is_active. rewrite Hp.
  destruct (nd_healthy peer); [|done].
  unfold mbind, ST_bind, modify, mark_peer_active. rewrite Hp.
  set (c1 := on_node id (answering_peer_role l id) _).
  assert (forall k n, rc_nodes c !! k = Some n -> exists n1, rc_nodes c1 !! k = Some n1 /\ same_replica n n1
    /\ nd_hard_state n1 = nd_hard_state n) as Hc1.
  { intros k n Hk. subst c1. cbn. destruct (decide (k = id)) as [->|].
    - rewrite !lookup_alter_eq, Hk. cbn. eexists. split; [reflexivity|].
      unfold answering_peer_role. destruct (_ && _); [done|]. by case_bool_decide.
    - rewrite !lookup_alter_ne, Hk by done. eexists. split; [reflexivity|]. done. }
  clearbody c1. destruct (step_to_higher_term_spec (resp_term r) "append_response_high_term" c1)
    as (H1 & H2 & H3 & H4 & H5 & H6 & H7).
  split; [done|]. split_and!; [done..|]. intros k n Hk. destruct (Hc1 k n Hk) as (n1 & Hk1 & Hs1 & Hh1).
  destruct (H7 k n1 Hk1) as (n' & Hk' & Ha & Hb & Hd & He & Hs2). exists n'. split; [done|].
  unfold same_replica in *. unfold left_term, passive_role in *. rewrite Hd, Hh1, He.
  destruct Hs1 as (? & ? & ? & Hrole & ?). rewrite Hrole. split_and!; [done..|]. unfold same_replica. intuition congruence.
Qed.

Lemma higher_term_response_ends_term_witness :
  let c' := snd (handle_append_entries_response 1 2
    (mkAppendEntriesResponse 5 false 0 None None None SnapshotNone 0 0) sample_cluster) in
  rc_current_term c' = 5%N /\ rc_leader_id c' = None.
Proof.
  intros c'. set (r := mkAppendEntriesResponse 5 false 0 None None None SnapshotNone 0 0).
  destruct (rc_nodes sample_cluster !! 2%N) as [peer|] eqn:Hp; [|vm_compute in Hp; discriminate].
  assert (nd_healthy <$> rc_nodes sample_cluster !! 2%N = Some true) as Hh by (vm_compute; reflexivity).
  rewrite Hp in Hh. injection Hh as Hh.
  assert (is_Some (rc_nodes sample_cluster !! 1%N)) as Hl by (apply (bool_decide_unpack _); vm_compute; exact I).
  pose proof (higher_term_response_ends_term 1 2 r sample_cluster peer Hl Hp ltac:(vm_compute; reflexivity)) as H.
  rewrite Hh in H. unfold c'. destruct (handle_append_entries_response 1 2 r sample_cluster). cbn [snd].
  destruct H as (_ & H1 & H2 & _). done.
Defined.

(** ** The effect of a catch-up *)

(** Only one node changes, and its log, match index and commit index do not; it
    stays healthy if it was. *)
Definition same_position (n n' : Node) : Prop :=
  nd_log n' = nd_log n /\ match_index n' = match_index n /\ nd_commit_index n' = nd_commit_index n
  /\ nd_installed_snapshot n' = nd_installed_snapshot n /\ (nd_healthy n = true -> nd_healthy n' = true).

Definition touches (id : NodeId) (c c' : RaftCluster) : Prop :=
  (forall k, k <> id -> rc_nodes c' !! k = rc_nodes c !! k)
  /\ forall n, rc_nodes c !! id = Some n -> exists n', rc_nodes c' !! id = Some n' /\ same_position n n'.

#[export] Instance same_position_preorder : PreOrder same_position.
Proof. unfold same_position. split; [done|]. intros a b c. intuition congruence. Qed.

#[export] Instance touches_preorder id : PreOrder (touches id).
Proof.
  split.
  - intros c. split; [done|]. intros n Hn. by exists n.
  - intros a b c [A1 A2] [B1 B2]. split; [intros k Hk; rewrite B1, A1; done|]. intros n Hn.
    destruct (A2 n Hn) as (n1 & H1 & P1). destruct (B2 n1 H1) as (n2 & H2 & P2). exists n2. split; [done|by etrans].
Qed.

Lemma touches_nodes id c c' : rc_nodes c' = rc_nodes c -> touches id c c'.
Proof. intros H. split; rewrite H; [done|]. intros n Hn. by exists n. Qed.

Lemma touches_on_node id f c :
  (forall n, rc_nodes c !! id = Some n -> same_position n (f n)) -> touches id c (on_node id f c).
Proof.
  intros Hf. split; [intros k Hk; cbn; by rewrite lookup_alter_ne|]. intros n Hn. exists (f n). cbn.
  rewrite lookup_alter_eq, Hn. split; [done|by apply Hf].
Qed.

Lemma mark_peer_active_touches id : transits (touches id) (mark_peer_active id).
Proof.
  intros c. unfold mark_peer_active. destruct (rc_nodes c !! id); [|reflexivity]. cbn [snd]. cbn zeta.
  etrans; [|apply touches_nodes; reflexivity]. by apply touches_on_node.
Qed.

Lemma on_peer_pipeline_touches {A} id k (op : ReplicationPipeline -> A * ReplicationPipeline) :
  transits (touches id) (on_peer_pipeline k op).
Proof.
  intros c. apply touches_nodes. unfold on_peer_pipeline. pose proof (pipeline_op_nodes k op c).
  by destruct (pipeline_op k op c).
Qed.

Lemma promote_peer_touches id : transits (touches id) (promote_peer id).
Proof.
  intros c. unfold promote_peer. destruct (require_running _ c); [|reflexivity].
  destruct (rc_nodes c !! id) as [n|] eqn:Hn; [|reflexivity]. case_bool_decide as Hr; [|reflexivity]. cbn [negb].
  destruct (_ <? _)%N; [reflexivity|]. cbn [snd].
  etrans; [|apply (touches_nodes id (on_node id promoted c)); reflexivity]. apply touches_on_node.
  intros m Hm. rewrite Hn in Hm. injection Hm as <-. split_and!; [done| |done|done|done]. unfold match_index. cbn. by rewrite Hr.
Qed.

Lemma promote_caught_up_touches id : transits (touches id) (promote_caught_up_auto_learner id).
Proof.
  intros c. unfold promote_caught_up_auto_learner. destruct (negb _); [reflexivity|].
  etrans; [apply (touches_on_node id (set_auto_promote_state Promoting)); done|].
  apply (transits_bind (touches id)); [apply promote_peer_touches|intros _ c'; reflexivity].
Qed.

(** A promotion of a caught-up learner fails only in a stopped group. *)
Lemma promote_caught_up_Err id c e c' :
  promote_caught_up_auto_learner id c = (Err e, c') -> rc_running c = false.
Proof.
  unfold promote_caught_up_auto_learner, node_is. destruct (rc_nodes c !! id) as [n|] eqn:Hn; [|done].
  destruct (ready_to_promote (rc_commit_index c) n) eqn:Hr; [|done]. cbn [negb].
  unfold mbind, ST_bind, promote_peer, require_running. cbn. destruct (rc_running c); [|done].
  rewrite lookup_alter_eq, Hn. cbn. unfold ready_to_promote in Hr. repeat (apply andb_prop in Hr as [Hr ?]).
  apply bool_decide_eq_true in Hr. rewrite Hr. cbn.
  destruct (N.ltb_spec (match_index (set_auto_promote_state Promoting n)) (rc_commit_index c)) as [Hlt|]; [|done].
  change (match_index (set_auto_promote_state Promoting n)) with (match_index n) in Hlt.
  match goal with H : (_ <=? match_index n)%N = true |- _ => apply N.leb_le in H end. lia.
Qed.

Lemma foldl_append_missing_log es n :
  nd_replica_role n <> Witness -> log_ordered (nd_log n) -> log_ordered es ->
  Forall (fun e => last_index n < entry_index e)%N es ->
  nd_log (foldl append_missing n es) = nd_log n ++ es /\ same_cursors n (foldl append_missing n es).
Proof.
  intros Hr Ho Hs. revert n Hr Ho. induction Hs as [|e es Hs IH Hall]; intros n Hr Ho Hf.
  { by rewrite app_nil_r. }
  apply Forall_cons in Hf as [He Hf]. cbn.
  assert (append_missing n e = append_entry e n) as -> by (unfold append_missing; by rewrite bool_decide_eq_false_2).
  destruct (append_entry_end e n Ho ltac:(lia)) as (Ho' & Hl' & _). pose proof (append_entry_cursors e n) as Hsc.
  assert (nd_log (append_entry e n) = nd_log n ++ [e]) as Hlog.
  { destruct (append_entry_log e n Ho) as [(_ & x & Hx & Hi & _)|[[Hl _]|(p & x & Hx & Hi & _)]]; [|done|].
    - pose proof (last_index_bound n x Ho Hx). lia.
    - pose proof (last_index_bound n x Ho ltac:(by eapply list_elem_of_lookup_2)). lia. }
  destruct (IH (append_entry e n)) as [H1 H2]; [by rewrite Hsc|done|rewrite Hl'; exact Hall|].
  rewrite H1, Hlog, <- app_assoc. split; [done|by etrans].
Qed.

(** Where the peer stands once the leader's snapshot is adopted. *)
Lemma adopted_match s n :
  nd_replica_role n <> Witness ->
  match_index (adopt_leader_snapshot s n).2 = N.max (match_index n) (snapshot_index_or_default s)
  /\ nd_log (adopt_leader_snapshot s n).2 = nd_log n
  /\ nd_replica_role (adopt_leader_snapshot s n).2 = nd_replica_role n
  /\ nd_commit_index (adopt_leader_snapshot s n).2 = nd_commit_index n.
Proof.
  intros Hr. unfold adopt_leader_snapshot. destruct s as [s|]; [|cbn; split_and!; [lia|done..]].
  destruct (N.ltb_spec (match_index n) (snap_index s)) as [Hlt|]; [|cbn; split_and!; [lia|done..]].
  split_and!; [|done..]. unfold match_index in *. cbn. rewrite bool_decide_eq_false_2 in * by done. cbn zeta in *. lia.
Qed.

Lemma match_index_data n :
  nd_replica_role n <> Witness ->
  match_index n = N.max (last_index n) (snapshot_index_or_default (nd_installed_snapshot n)).
Proof. intros Hr. unfold match_index. by rewrite bool_decide_eq_false_2. Qed.

Lemma last_filter_gt i l :
  log_ordered l ->
  N.max i (index_or_default (last (filter (fun e => (i < entry_index e)%N) l))) = N.max i (index_or_default (last l)).
Proof.
  intros Ho. destruct (last_filter_above i l Ho) as [-> | Hnil]; [done|]. rewrite Hnil. cbn.
  destruct (last l) as [y|] eqn:Hl; [|done]. cbn.
  assert (~ (i < entry_index y)%N); [|lia]. intros Hy.
  assert (y ∈ filter (fun e => (i < entry_index e)%N) l) as Hin; [|rewrite Hnil in Hin; set_solver].
  apply list_elem_of_filter. split; [done|]. apply last_Some in Hl as [k ->]. set_solver.
Qed.

Lemma last_index_app n es l :
  nd_log n = l ++ es -> last_index n = match last es with Some e => entry_index e | None => index_or_default (last l) end.
Proof.
  intros Hl. unfold last_index. rewrite Hl. destruct es as [|e es _] using rev_ind; [by rewrite app_nil_r|].
  by rewrite app_assoc, !last_snoc.
Qed.

(** The transfer on a data peer whose position after the snapshot is [m]. *)
Lemma transferred_peer_effect leader commit n m :
  nd_replica_role n <> Witness -> log_ordered (nd_log n) -> log_ordered (nd_log leader) ->
  match_index n = m -> (m < u64_max)%N ->
  let n' := transferred_peer leader commit n in
  nd_log n' = nd_log n ++ filter (fun e => (m < entry_index e)%N) (nd_log leader)
  /\ match_index n' = N.max m (last_index leader)
  /\ nd_commit_index n' = N.max (nd_commit_index n) (N.min commit (match_index n')).
Proof.
  intros Hr Ho Hlo Hm Hu. unfold transferred_peer. cbn zeta.
  destruct (missing_entries_spec leader (match_index n +s 1) Hlo) as [Hmo Hme]. set (es := missing_entries _ _) in *.
  assert (es = filter (fun e => (m < entry_index e)%N) (nd_log leader)) as Hes.
  { rewrite Hme, Hm, saturating_add_small by lia. apply list_filter_iff. intros x. lia. }
  destruct (foldl_append_missing_log es n Hr Ho Hmo) as [Hlog Hsc].
  { rewrite Hes. apply Forall_forall. intros e [He _]%list_elem_of_filter.
    pose proof (match_index_data n Hr). lia. }
  set (n1 := foldl append_missing n es) in *. clearbody n1.
  destruct (advance_commit_fields (N.min commit (match_index n1)) n1) as (_ & _ & _ & _ & Hmi).
  destruct (advance_commit_cursors (N.min commit (match_index n1)) n1) as (Hc & _).
  rewrite advance_commit_log, Hmi, Hc, Hlog, Hes.
  assert (nd_commit_index n1 = nd_commit_index n) as Hcn by (by rewrite Hsc).
  assert (match_index n1 = N.max m (last_index leader)) as Hm1.
  { assert (nd_installed_snapshot n1 = nd_installed_snapshot n) as Hs by (by rewrite Hsc).
    rewrite (match_index_data n1) by (by rewrite Hsc). rewrite Hs, (last_index_app n1 es (nd_log n) Hlog).
    pose proof (match_index_data n Hr) as Hmd. pose proof (last_filter_gt m (nd_log leader) Hlo) as Hg.
    rewrite <- Hes in Hg. fold (last_index leader) (last_index n) in *.
    destruct (last es) as [e|] eqn:Hl; cbn in Hg; [|lia].
    assert (m < entry_index e)%N; [|lia]. apply last_Some in Hl as [k Hk].
    assert (e ∈ es) as Hin by (rewrite Hk; set_solver). rewrite Hes in Hin. by apply list_elem_of_filter in Hin as [? _]. }
  split_and!; [done|done|]. rewrite Hcn. lia.
Qed.

Lemma transfer_log_effect l id commit c leader peer :
  rc_nodes c !! l = Some leader -> rc_nodes c !! id = Some peer -> id <> l ->
  transfer_log l id commit c
  = (Ok (adopt_leader_snapshot (nd_installed_snapshot leader) peer).1,
     c <| rc_nodes ::= <[id := (adopt_leader_snapshot (nd_installed_snapshot leader) peer).2]> |>
       <| rc_nodes ::= <[id := transferred_peer leader commit
            (adopt_leader_snapshot (nd_installed_snapshot leader) peer).2]> |>).
Proof.
  intros Hl Hp Hne. unfold transfer_log, get_node. rewrite Hl, Hp. cbn [ok_or].
  destruct (adopt_leader_snapshot (nd_installed_snapshot leader) peer) as [o peer1]. cbn [fst snd].
  assert (rc_nodes (c <| rc_nodes ::= <[id := peer1]> |>) !! l = Some leader) as -> by (cbn; by rewrite lookup_insert_ne).
  done.
Qed.

Lemma settle_catch_up_touches id reason i j o : transits (touches id) (settle_catch_up id reason i j o).
Proof.
  apply (transits_bind (touches id)); [intros c'; reflexivity|intros k].
  apply (transits_bind (touches id)); [intros c'; apply (on_peer_pipeline_touches id)|intros r].
  apply (transits_bind (touches id)); [apply mark_peer_active_touches|intros _].
  apply (transits_bind (touches id)); [intros c'; by apply touches_nodes|intros _].
  apply (transits_bind (touches id)); [|intros _ c'; reflexivity].
  destruct (default _ r); [|intros c'; reflexivity]. apply (transits_drop (touches id)), promote_caught_up_touches.
Qed.

Lemma settle_catch_up_spec id reason i j o c n :
  let '(result, c') := settle_catch_up id reason i j o c in
  rc_nodes c !! id = Some n ->
  touches id c c'
  /\ match result with
     | Ok report => cul_learner_match_index_before report = j
         /\ cul_learner_match_index_after report = match_index n /\ cul_leader_commit_index report = i
     | Err _ => rc_running c = false
     end.
Proof.
  pose proof (settle_catch_up_touches id reason i j o c) as Ht.
  destruct (settle_catch_up id reason i j o c) as [result c'] eqn:Hs. cbn [snd] in Ht. intros Hn. split; [done|].
  revert Hs. unfold settle_catch_up, mbind, ST_bind, gets, with_state, modify.
  assert (match_index_of id c = match_index n) as -> by (unfold match_index_of; by rewrite Hn).
  unfold on_peer_pipeline. match goal with |- context [pipeline_op id ?op c] =>
    pose proof (pipeline_op_nodes id op c) as Hn1;
    assert (rc_running (pipeline_op id op c).2 = rc_running c) as Hr1
      by (unfold pipeline_op; destruct (rc_peer_pipelines c !! id) as [p|]; [by destruct (op p)|done]);
    destruct (pipeline_op id op c) as [recorded c1] end.
  cbn [snd] in *. unfold mark_peer_active. rewrite Hn1, Hn. set (b := default _ recorded). clearbody b.
  set (c2 := refresh_cluster_indexes _). assert (rc_running c2 = rc_running c) as Hr2 by exact Hr1. clearbody c2.
  destruct b; [|intros [= <- <-]; done].
  destruct (promote_caught_up_auto_learner id c2) as [[u|x] c3] eqn:Hpr; intros [= <- <-]; [done|].
  rewrite <- Hr2. by eapply promote_caught_up_Err.
Qed.

(** The peer has the leader's entries up to where it matches, apart from those its
    snapshot stands for: the log matching property between the two. *)
Definition follows_log (leader peer : Node) : Prop :=
  forall e, e ∈ nd_log leader -> (entry_index e <= match_index peer)%N ->
    e ∈ nd_log peer \/ (entry_index e <= snapshot_index_or_default (nd_installed_snapshot peer))%N.

Lemma adopted_snapshot s n :
  nd_replica_role n <> Witness ->
  (snapshot_index_or_default (nd_installed_snapshot n)
   <= snapshot_index_or_default (nd_installed_snapshot (adopt_leader_snapshot s n).2))%N
  /\ (snapshot_index_or_default s <= match_index n
      \/ snapshot_index_or_default (nd_installed_snapshot (adopt_leader_snapshot s n).2) = snapshot_index_or_default s)%N.
Proof.
  intros Hr. unfold adopt_leader_snapshot. destruct s as [s|]; [|cbn; split; [lia|left; lia]].
  destruct (N.ltb_spec (match_index n) (snap_index s)) as [Hlt|]; [|cbn; split; [lia|left; lia]].
  cbn. rewrite match_index_data in Hlt by done. split; [lia|by right].
Qed.

Lemma foldl_append_missing_snapshot es n :
  nd_installed_snapshot (foldl append_missing n es) = nd_installed_snapshot n.
Proof.
  revert n. induction es as [|e es IH]; intros n; [done|]. cbn. rewrite IH. unfold append_missing.
  assert (forall x m, nd_installed_snapshot (append_entry x m) = nd_installed_snapshot m) as Ha
    by (intros x m; by rewrite (append_entry_cursors x m)).
  case_bool_decide; [|apply Ha]. unfold append_witness_entry. rewrite Ha. unfold acknowledge_witness_index. by case_bool_decide.
Qed.

Lemma transferred_peer_snapshot leader commit n :
  nd_installed_snapshot (transferred_peer leader commit n) = nd_installed_snapshot n.
Proof.
  unfold transferred_peer. cbn zeta. set (n1 := foldl append_missing n _).
  destruct (advance_commit_fields (N.min commit (match_index n1)) n1) as (_ & -> & _). apply foldl_append_missing_snapshot.
Qed.

(** C26: a catch-up brings a data peer to the leader. Its log gains the leader's
    entries above its match index and the leader's snapshot, in order, and keeps what
    it had; its match index becomes the larger of its own and the leader's; it commits
    up to the group's commit index as far as it matches; no other node changes. A peer
    that had the leader's entries up to its match index has all of them afterwards,
    apart from those the snapshot it holds stands for. The report states the positions
    before and after, and the call fails only when a learner is due for promotion in a
    stopped group. ([catch_up_keeps_divergent_entry] shows a peer that did not have the
    leader's entries.) *)
Theorem catch_up_brings_peer_to_leader l id reason c leader peer :
  logs_inv c -> rc_leader_id c = Some l -> rc_nodes c !! l = Some leader -> rc_nodes c !! id = Some peer ->
  id <> l -> nd_replica_role peer <> Witness -> (rc_last_log_index c < u64_max)%N ->
  let '(result, c') := catch_up_peer_with_reason id reason c in
  (forall k, k <> id -> rc_nodes c' !! k = rc_nodes c !! k)
  /\ (exists peer', rc_nodes c' !! id = Some peer'
       /\ nd_log peer' = nd_log peer ++ filter (fun e => (N.max (match_index peer)
            (snapshot_index_or_default (nd_installed_snapshot leader)) < entry_index e)%N) (nd_log leader)
       /\ match_index peer' = N.max (match_index peer) (match_index leader)
       /\ nd_commit_index peer' = N.max (nd_commit_index peer) (N.min (rc_commit_index c) (match_index peer'))
       /\ (follows_log leader peer -> forall e, e ∈ nd_log leader ->
            e ∈ nd_log peer' \/ (entry_index e <= snapshot_index_or_default (nd_installed_snapshot peer'))%N))
  /\ match result with
     | Ok report => cul_learner_match_index_before report = match_index peer
         /\ cul_learner_match_index_after report = N.max (match_index peer) (match_index leader)
         /\ cul_leader_commit_index report = rc_commit_index c
     | Err _ => rc_running c = false
     end.
Proof.
  intros Hc Hl Hn Hp Hne Hr Hu.
  destruct (adopted_match (nd_installed_snapshot leader) peer Hr) as (Hm1 & Hlog1 & Hr1 & Hc1).
  set (m := N.max (match_index peer) (snapshot_index_or_default (nd_installed_snapshot leader))) in *.
  destruct (leader_bounds c l leader Hc Hl Hn) as (Hlo & _ & Hsb).
  destruct (li_nodes c Hc id peer Hp) as [[Hpo _] Hpm].
  pose proof (transfer_log_effect l id (rc_commit_index c) c leader peer Hn Hp Hne) as Ht.
  set (peer1 := (adopt_leader_snapshot (nd_installed_snapshot leader) peer).2) in *.
  destruct (transferred_peer_effect leader (rc_commit_index c) peer1 m) as (E1 & E2 & E3);
    [by rewrite Hr1|by rewrite Hlog1|done|done|subst m; lia|].
  rewrite Hlog1 in E1. rewrite Hc1 in E3.
  assert (match_index leader = N.max (last_index leader) (snapshot_index_or_default (nd_installed_snapshot leader)))
    as Hml by (apply match_index_data; by rewrite (li_leader c Hc l leader Hl Hn)).
  assert (N.max m (last_index leader) = N.max (match_index peer) (match_index leader)) as Hmm by (subst m; lia).
  rewrite Hmm in E2. pose proof (transferred_peer_snapshot leader (rc_commit_index c) peer1) as E4.
  destruct (adopted_snapshot (nd_installed_snapshot leader) peer Hr) as [Hsl Hsn]. fold peer1 in Hsl, Hsn.
  set (peer2 := transferred_peer _ _ _) in *. rewrite <- E4 in Hsl, Hsn. clearbody peer1 peer2.
  assert (follows_log leader peer -> forall e, e ∈ nd_log leader -> e ∈ nd_log peer2
    \/ (entry_index e <= snapshot_index_or_default (nd_installed_snapshot peer2))%N) as Hall.
  { intros Hf e He. rewrite E1. destruct (decide (m < entry_index e)%N) as [Hgt|].
    - left. apply elem_of_app. right. by apply list_elem_of_filter.
    - destruct (decide (entry_index e <= match_index peer)%N) as [Hle|].
      + destruct (Hf e He Hle) as [?|?]; [left; set_solver|right; lia].
      + right. destruct Hsn; subst m; lia. }
  clearbody m.
  unfold catch_up_peer_with_reason. rewrite Hl. unfold mbind, ST_bind. rewrite Ht.
  set (c2 := c <| rc_nodes ::= _ |> <| rc_nodes ::= _ |>).
  assert (rc_nodes c2 = <[id := peer2]> (rc_nodes c)) as Hn2 by (subst c2; cbn; by rewrite insert_insert_eq).
  assert (rc_running c2 = rc_running c) as Hrun by done. clearbody c2.
  assert (match_index_of id c = match_index peer) as -> by (unfold match_index_of; by rewrite Hp).
  pose proof (settle_catch_up_spec id reason (rc_commit_index c) (match_index peer)
    (adopt_leader_snapshot (nd_installed_snapshot leader) peer).1 c2 peer2) as Hs.
  destruct (settle_catch_up _ _ _ _ _ c2) as [result c']. destruct Hs as [[Hk Hpos] Hres]; [by rewrite Hn2, lookup_insert_eq|].
  split_and!.
  - intros k Hk'. by rewrite Hk, Hn2, lookup_insert_ne.
  - destruct (Hpos peer2) as (peer' & Hp' & P1 & P2 & P3 & P4 & _); [by rewrite Hn2, lookup_insert_eq|].
    exists peer'. rewrite P1, P2, P3, P4. by split_and!.
  - destruct result; [|congruence]. by rewrite <- E2.
Qed.

Lemma sample_logs_inv : logs_inv sample_cluster.
Proof.
  assert (map_Forall (fun _ n => nd_log n = [] /\ (match_index n <= rc_last_log_index sample_cluster)%N)
            (rc_nodes sample_cluster)) as H by (apply (bool_decide_unpack _); vm_compute; exact I).
  split.
  - intros k n Hn. destruct (H k n Hn) as [Hl Hm]. split; [|done]. split; [by rewrite Hl; constructor|].
    unfold last_index. rewrite Hl. cbn. lia.
  - apply sample_cluster_keyed.
  - vm_compute. discriminate.
  - intros l n Hl Hn. assert (l = 1%N) as -> by (vm_compute in Hl; congruence).
    assert (nd_replica_role <$> rc_nodes sample_cluster !! 1%N = Some Voter) as Hr by (vm_compute; reflexivity).
    rewrite Hn in Hr. by injection Hr.
Qed.

(** Node 3 missed the no-op of the leader 2. *)
Definition lagging_peer_run : Cluster unit :=
  _ ← partition_peer 3; _ ← campaign 2 true; mark_peer_active 3.
Definition lagging_peer : RaftCluster := snd (lagging_peer_run sample_cluster).

Lemma lagging_peer_sound : sound sample_cluster lagging_peer.
Proof.
  refine ((_ : transits sound lagging_peer_run) sample_cluster).
  apply (transits_bind sound); [apply transits_quiet_sound, set_node_healthy_quiet|intros _].
  apply (transits_bind sound); [apply campaign_sound|intros _].
  apply transits_quiet_sound, mark_peer_active_quiet.
Qed.

Lemma catch_up_brings_peer_to_leader_witness :
  let c' := snd (catch_up_peer 3 lagging_peer) in
  match_index_of 3 lagging_peer = 0%N
  /\ exists peer', rc_nodes c' !! 3%N = Some peer' /\ match_index peer' = 1%N.
Proof.
  intros c'. split; [vm_compute; reflexivity|].
  pose proof (proj1 (proj2 (proj2 lagging_peer_sound) sample_logs_inv)) as Hinv.
  destruct (rc_nodes lagging_peer !! 3%N) as [peer|] eqn:Hp; [|vm_compute in Hp; discriminate].
  destruct (rc_nodes lagging_peer !! 2%N) as [leader|] eqn:Hn; [|vm_compute in Hn; discriminate].
  assert ((fun n => (nd_replica_role n, match_index n)) <$> rc_nodes lagging_peer !! 3%N = Some (Voter, 0%N)) as H3
    by (vm_compute; reflexivity).
  assert (match_index <$> rc_nodes lagging_peer !! 2%N = Some 1%N) as H2 by (vm_compute; reflexivity).
  rewrite Hp in H3. injection H3 as Hr3 Hm3. rewrite Hn in H2. injection H2 as Hm2.
  pose proof (catch_up_brings_peer_to_leader 2 3 "peer" lagging_peer leader peer Hinv ltac:(vm_compute; reflexivity)
    Hn Hp ltac:(done) ltac:(by rewrite Hr3) ltac:(vm_compute; reflexivity)) as H.
  unfold c', catch_up_peer. destruct (catch_up_peer_with_reason 3 "peer" lagging_peer) as [r c2]. cbn [snd].
  destruct H as (_ & (peer' & Hp' & _ & Hm' & _) & _). exists peer'. split; [done|]. by rewrite Hm', Hm2, Hm3.
Defined.

(** ** How a proposal fails *)

Definition backpressure_errors : list RaftError :=
  InvalidRequest <$> ["append entry exceeds max apply batch bytes"; "append queue backpressure limit reached";
                      "replication memory backpressure limit reached"].

Lemma queue_append_Err e p x p' : queue_append e p = (Err x, p') -> x ∈ backpressure_errors.
Proof.
  unfold queue_append, backpressure_errors. destruct (_ <? _)%N; [intros [= <- _]; cbn; set_solver|].
  destruct (_ <=? _)%N; [intros [= <- _]; cbn; set_solver|].
  destruct (_ <? _)%N; [intros [= <- _]; cbn; set_solver|]. done.
Qed.

Lemma offer_to_Err id e m n c x c' : offer_to id e m n c = (Err x, c') -> x ∈ backpressure_errors.
Proof.
  unfold offer_to, pipeline_op. destruct (rc_peer_pipelines c !! id) as [p|]; [|done].
  destruct (queue_append e p) as [[u|y] p1] eqn:Hq.
  - destruct (nd_healthy n); [|done]. by destruct (offer_entry e m n).
  - intros [= <- _]. by eapply queue_append_Err.
Qed.

Lemma replicate_entry_Err l e m b ids c x c' :
  replicate_entry l e m b ids c = (Err x, c') -> x ∈ backpressure_errors.
Proof.
  revert c. induction ids as [|id ids IH]; intros c; [done|]. cbn [replicate_entry]. cbn zeta.
  destruct (rc_nodes c !! id) as [n|]; [|apply IH]. destruct (_ =? _)%N; [apply IH|].
  unfold mbind, ST_bind. destruct (offer_to id e m n c) as [[r|y] c1] eqn:Ho.
  - destruct r as [r|]; [|apply IH]. destruct (_ && _); apply IH.
  - intros [= <- _]. by eapply offer_to_Err.
Qed.

Lemma spread_proposal_Err l e m c x c' : spread_proposal l e m c = (Err x, c') -> x ∈ backpressure_errors.
Proof.
  unfold spread_proposal. destruct (begin_leader_lease_renewal c) as [b c1]. cbn zeta. unfold mbind, ST_bind.
  destruct (replicate_entry _ _ _ _ _ _) as [[u|y] c2] eqn:Hr.
  - cbn. by destruct b.
  - intros [= <- _]. by eapply replicate_entry_Err.
Qed.

Lemma release_memory_Ok c l :
  rc_leader_id c = Some l -> is_Some (rc_nodes c !! l) ->
  exists b c', release_memory c = (Ok b, c') /\ rc_leader_id c' = Some l /\ is_Some (rc_nodes c' !! l).
Proof.
  intros Hl [n Hn]. unfold release_memory, release_index, min_replicated_index, min_index_any_member_needs, get_node.
  rewrite Hl, Hn. cbn [ok_or]. set (r := if bool_decide (nd_raft_role n = Leader) then _ else _).
  set (r' := if bool_decide (nd_raft_role n = Leader) then _ else _). clearbody r r'.
  assert (forall i o, exists b c', (let '(removed, c0) := compact_logs_through_with_leader_limit i o c in
      (Ok (0 <? removed)%N : Result bool, c0)) = (Ok b, c') /\ rc_leader_id c' = Some l /\ is_Some (rc_nodes c' !! l)) as Hcl.
  { intros i o. unfold compact_logs_through_with_leader_limit. eexists _, _. split; [reflexivity|]. cbn.
    rewrite lookup_fmap, Hn. by split; [|eexists]. }
  destruct (can_trigger_snapshot (rc_config c)), (should_release_memory c); cbn [andb];
    (destruct (_ <=? 1)%N; [exists false, c; split_and!; [done|done|by exists n]|apply Hcl]).
Qed.

Lemma make_room_Err c l x c' :
  rc_leader_id c = Some l -> is_Some (rc_nodes c !! l) -> make_room c = (Err x, c') ->
  x = InvalidRequest "out of memory buffer".
Proof.
  intros Hl Hn. unfold make_room, mbind, ST_bind, with_state.
  assert (exists c1, (if should_release_memory c then _ ← release_memory; mret tt else mret tt) c = (Ok tt, c1)
    /\ rc_leader_id c1 = Some l /\ is_Some (rc_nodes c1 !! l)) as (c1 & Hc1 & Hl1 & Hn1).
  { destruct (should_release_memory c); [|by exists c].
    destruct (release_memory_Ok c l Hl Hn) as (b & c1 & Hr & ? & ?). exists c1. unfold mbind, ST_bind. by rewrite Hr. }
  unfold mbind, ST_bind in Hc1. rewrite Hc1. destruct (is_busy c1); [|done].
  destruct (release_memory_Ok c1 l Hl1 Hn1) as (b & c2 & Hr & _). rewrite Hr. destruct b; [done|]. by intros [= <- _].
Qed.

(** ** The effect of a proposal *)

(** A response that stays with its peer: no other node or pipeline changes, the
    term and the transfer record stay. *)
Definition local (id : NodeId) (c c' : RaftCluster) : Prop :=
  touches id c c' /\ (forall k, k <> id -> rc_peer_pipelines c' !! k = rc_peer_pipelines c !! k)
  /\ rc_current_term c' = rc_current_term c /\ rc_leader_transfer c' = rc_leader_transfer c
  /\ rc_leader_id c' = rc_leader_id c.

#[export] Instance local_preorder id : PreOrder (local id).
Proof.
  split; [by intros c; split|]. intros a b c (A1 & A2 & A3 & A4 & A5) (B1 & B2 & B3 & B4 & B5). split_and!; [by etrans| |congruence..].
  intros k Hk. by rewrite B2, A2.
Qed.

Lemma local_frame id c c' :
  rc_nodes c' = rc_nodes c -> rc_peer_pipelines c' = rc_peer_pipelines c -> rc_current_term c' = rc_current_term c ->
  rc_leader_transfer c' = rc_leader_transfer c -> rc_leader_id c' = rc_leader_id c -> local id c c'.
Proof. intros H1 H2 H3 H4 H5. split_and!; [by apply touches_nodes|by rewrite H2|done|done|done]. Qed.

Lemma pipeline_op_local {A} id (op : ReplicationPipeline -> A * ReplicationPipeline) c : local id c (pipeline_op id op c).2.
Proof.
  unfold pipeline_op. destruct (rc_peer_pipelines c !! id) as [p|]; [|reflexivity]. destruct (op p) as [a p'].
  split_and!; [by apply touches_nodes| |done|done|done]. intros k Hk. cbn. by rewrite lookup_insert_ne.
Qed.

Lemma on_node_local id f c :
  (forall n, rc_nodes c !! id = Some n -> same_position n (f n)) -> local id c (on_node id f c).
Proof. intros Hf. split_and!; [by apply touches_on_node|done..]. Qed.

Lemma mark_peer_active_local id : transits (local id) (mark_peer_active id).
Proof.
  intros c. split_and!; [apply mark_peer_active_touches|..]; unfold mark_peer_active; destruct (rc_nodes c !! id); try done.
  intros k Hk. cbn. by rewrite lookup_alter_ne.
Qed.

Lemma promote_peer_local id : transits (local id) (promote_peer id).
Proof.
  intros c. split_and!; [apply promote_peer_touches|..]; unfold promote_peer; destruct (require_running _ c); try done;
    destruct (rc_nodes c !! id); try done; destruct (negb _); try done; destruct (_ <? _)%N; done.
Qed.

Lemma maybe_auto_promote_local id : transits (local id) (maybe_auto_promote_zero_lag_learner id).
Proof.
  intros c. unfold maybe_auto_promote_zero_lag_learner. destruct (negb _); [reflexivity|].
  destruct (membership_change_fence_active c); [by apply on_node_local|apply promote_peer_local].
Qed.

Lemma record_confirmation_local k id c : local k c (record_leader_lease_confirmation_inner id false c).
Proof.
  unfold record_leader_lease_confirmation_inner, receive_leader_lease_confirmation_inner. cbn zeta.
  destruct (bool_decide _); [reflexivity|]. destruct (_ =? _)%N; [reflexivity|].
  destruct (rc_nodes c !! id); [|reflexivity]. destruct (_ || _); [reflexivity|]. destruct (_ <=? _)%N; [reflexivity|].
  destruct (rc_leader_lease_confirmations _ !! id); [destruct (_ && _)|]; by apply local_frame.
Qed.

Lemma after_success_local id r c :
  active_leader_transfer c = None -> local id c (snd (after_success id r c)).
Proof.
  intros Ha. unfold after_success. destruct (negb _); [reflexivity|]. unfold mbind, ST_bind, with_state.
  pose proof (maybe_auto_promote_local id c) as H. destruct (maybe_auto_promote_zero_lag_learner id c) as [[w|x] c'];
    cbn [snd] in H; [|done].
  assert (active_leader_transfer c' = None) as ->; [|done].
  destruct H as (_ & _ & _ & H & _). unfold active_leader_transfer in *. by rewrite H.
Qed.

(** An accepted response in the group's term, with no transfer in progress. *)
Lemma success_response_local l id r c :
  resp_success r = true -> (resp_term r <= rc_current_term c)%N -> resp_require_snapshot r = None ->
  active_leader_transfer c = None ->
  local id c (snd (handle_append_entries_response_inner l id r false false c)).
Proof.
  intros Hs Ht Hq Ha. unfold handle_append_entries_response_inner. cbn zeta. destruct (rc_nodes c !! l); [|reflexivity].
  rewrite (proj2 (N.ltb_ge _ _) Ht), Hq.
  assert (forall c0 c1, active_leader_transfer c0 = None -> local id c0 c1 -> active_leader_transfer c1 = None) as Hact.
  { intros c0 c1 H0 (_ & _ & _ & H & _). unfold active_leader_transfer in *. by rewrite H. }
  unfold mbind, ST_bind, modify, gets, lift. pose proof (mark_peer_active_local id c) as H1.
  destruct (mark_peer_active id c) as [[u|x] c1]; [|done]. cbn [snd] in *.
  set (c2 := on_node id (answering_peer_role l id) c1). assert (local id c1 c2) as H2.
  { apply on_node_local. intros m _. unfold answering_peer_role. destruct (_ && _); [done|]. by case_bool_decide. }
  assert (local id c c2) as H12 by (by etrans). clearbody c2. clear H1 H2 c1.
  change (record_response_lease id r false false c2) with c2.
  unfold pipeline_response. cbn zeta.
  match goal with |- context [pipeline_op id ?op c2] => pose proof (pipeline_op_local id op c2) as H3;
    destruct (pipeline_op id op c2) as [res c3] end.
  cbn [snd] in H3. assert (local id c c3) as H13 by (by etrans).
  assert (local id c (snd (after_success id r c3))) as H14
    by (etrans; [exact H13|]; apply after_success_local; by eapply Hact).
  destruct res as [[v|x]|]; cbn [snd]; [exact H14| |exact H14].
  assert (rejected_by_pipeline r (Err x) = false) as -> by (unfold rejected_by_pipeline; rewrite Hs; by destruct x).
  exact H13.
Qed.

(** What a node stores of a proposed entry: the leader and a live data replica
    the entry, a live witness its identity (with the payload of a membership
    change), the others nothing. *)
Definition received (l k : NodeId) (n : Node) (has_pipeline : bool) (e : LogEntry) (m : bool) : list LogEntry :=
  if (k =? l)%N then [e]
  else if nd_healthy n && has_pipeline then
    if can_serve_data (nd_replica_role n) then [e]
    else [mkLogEntry (log_id e) (if m then payload e else []) false]
  else [].

(** The node is level with the group, so the entry is the next one for it; its
    pipeline has room. *)
Record level (l : NodeId) (e : LogEntry) (c : RaftCluster) (k : NodeId) (n : Node) : Prop := mk_level {
  lv_ordered : log_ordered (nd_log n);
  lv_last : (last_index n < entry_index e)%N;
  lv_room : k <> l -> forall p, rc_peer_pipelines c !! k = Some p -> is_ok (queue_append e p).1 = true;
  lv_match : k <> l -> nd_healthy n = true -> is_Some (rc_peer_pipelines c !! k) ->
    match_index n +s 1 = entry_index e;
  lv_term : (hs_current_term (nd_hard_state n) <= rc_current_term c)%N
}.

Lemma append_entry_next e n :
  log_ordered (nd_log n) -> (last_index n < entry_index e)%N -> nd_log (append_entry e n) = nd_log n ++ [e].
Proof.
  intros Ho Hl. destruct (append_entry_log e n Ho) as [(_ & x & Hx & Hi & _)|[[H _]|(p & x & Hx & Hi & _)]]; [|done|].
  - pose proof (last_index_bound n x Ho Hx). lia.
  - pose proof (last_index_bound n x Ho ltac:(by eapply list_elem_of_lookup_2)). lia.
Qed.

(** How a node comes out of its turn: what it stored, how far it matches, and what
    does not change. *)
Record after_turn (e : LogEntry) (stored : list LogEntry) (n n' : Node) : Prop := mk_after_turn {
  at_log : nd_log n' = nd_log n ++ stored;
  at_match : (match_index n' <= N.max (match_index n) (entry_index e))%N;
  at_holds : stored = [e] -> nd_replica_role n <> Witness -> (entry_index e <= match_index n')%N;
  at_snapshot : nd_installed_snapshot n' = nd_installed_snapshot n;
  at_healthy : nd_healthy n = true -> nd_healthy n' = true
}.

Lemma after_turn_same e n : after_turn e [] n n.
Proof. split; [by rewrite app_nil_r|lia|done|done|done]. Qed.

Lemma after_turn_position e stored n n1 n2 :
  after_turn e stored n n1 -> same_position n1 n2 -> after_turn e stored n n2.
Proof. intros [A1 A2 A3 A4 A5] (B1 & B2 & _ & B4 & B5). split; [congruence|by rewrite B2|by rewrite B2|congruence|auto]. Qed.

Lemma append_entry_turn e n :
  log_ordered (nd_log n) -> (last_index n < entry_index e)%N -> after_turn e [e] n (append_entry e n).
Proof.
  intros Ho Hl. pose proof (append_entry_next e n Ho Hl) as Hlog. pose proof (append_entry_cursors e n) as Hc.
  assert (last_index (append_entry e n) = entry_index e) as Hi by (unfold last_index; by rewrite Hlog, last_snoc).
  assert (nd_installed_snapshot (append_entry e n) = nd_installed_snapshot n /\ nd_replica_role (append_entry e n) = nd_replica_role n
    /\ nd_witness_ack_index (append_entry e n) = nd_witness_ack_index n /\ nd_healthy (append_entry e n) = nd_healthy n)
    as (Hs & Hr & Hw & Hh) by (rewrite Hc; done).
  split; [done| | |done|congruence].
  - unfold match_index. rewrite Hr, Hw, Hs. case_bool_decide; [lia|]. cbn zeta. unfold last_index in Hi. rewrite Hi. lia.
  - intros _ Hwi. rewrite match_index_data by (by rewrite Hr). lia.
Qed.

Lemma append_witness_turn e (m : bool) n :
  nd_replica_role n = Witness -> log_ordered (nd_log n) -> (last_index n < entry_index e)%N ->
  after_turn e [mkLogEntry (log_id e) (if m then payload e else []) false] n (append_witness_entry e m n).
Proof.
  intros Hw Ho Hl. unfold append_witness_entry, acknowledge_witness_index. rewrite bool_decide_eq_true_2 by done. cbn zeta.
  set (s := mkLogEntry _ _ _). set (n1 := n <| nd_witness_ack_index ::= N.max (entry_index e) |>).
  destruct (append_entry_turn s n1 Ho Hl) as [H1 H2 _ H4 H5]. split; [exact H1| |done|exact H4|exact H5].
  assert (match_index n1 = N.max (entry_index e) (match_index n)) as Hm
    by (unfold match_index; cbn; by rewrite !bool_decide_eq_true_2).
  change (entry_index s) with (entry_index e) in H2. lia.
Qed.

Lemma offer_entry_effect l k e m n c :
  level l e c k n -> k <> l -> nd_healthy n = true -> is_Some (rc_peer_pipelines c !! k) ->
  let '(r, n') := offer_entry e m n in
  resp_success r = true /\ resp_require_snapshot r = None /\ (resp_term r <= rc_current_term c)%N
  /\ after_turn e (received l k n true e m) n n'.
Proof.
  intros [Ho Hl _ Hm Ht] Hk Hh Hp. pose proof (offer_entry_step e m n) as [_ Hb]. unfold offer_entry in *.
  rewrite (Hm Hk Hh Hp), N.eqb_refl in *. cbn [snd] in Hb. cbn. split_and!; [done|done| |].
  { unfold ballot in Hb. injection Hb as Hb _. rewrite Hb. done. }
  unfold received. rewrite (proj2 (N.eqb_neq k l) Hk), Hh. cbn [andb].
  destruct (can_serve_data (nd_replica_role n)) eqn:Hd; [by apply append_entry_turn|].
  assert (nd_replica_role n = Witness) as Hw by (by destruct (nd_replica_role n)). rewrite bool_decide_eq_true_2 by done.
  by apply append_witness_turn.
Qed.

(** The follower's turn: only its node and pipeline change. *)
Lemma offer_to_effect l id e m n c :
  rc_nodes c !! id = Some n -> level l e c id n -> id <> l ->
  exists o c1, offer_to id e m n c = (Ok o, c1)
  /\ (forall k, k <> id -> rc_nodes c1 !! k = rc_nodes c !! k /\ rc_peer_pipelines c1 !! k = rc_peer_pipelines c !! k)
  /\ rc_current_term c1 = rc_current_term c /\ rc_leader_transfer c1 = rc_leader_transfer c
  /\ rc_leader_id c1 = rc_leader_id c
  /\ (exists n', rc_nodes c1 !! id = Some n'
      /\ after_turn e (received l id n (bool_decide (is_Some (rc_peer_pipelines c !! id))) e m) n n')
  /\ forall r, o = Some r ->
       resp_success r = true /\ resp_require_snapshot r = None /\ (resp_term r <= rc_current_term c)%N.
Proof.
  intros Hn Hlv Hne. unfold offer_to, pipeline_op. destruct (rc_peer_pipelines c !! id) as [p|] eqn:Hp.
  2: { eexists _, _. split_and!; [done|done|done|done|done| |done]. exists n. split; [done|]. unfold received.
       rewrite (proj2 (N.eqb_neq id l) Hne), andb_false_r. apply after_turn_same. }
  pose proof (lv_room _ _ _ _ _ Hlv Hne p Hp) as Hroom.
  destruct (queue_append e p) as [[u|x] p1]; [|done]. clear Hroom.
  rewrite bool_decide_eq_true_2 by (by eexists). destruct (nd_healthy n) eqn:Hh.
  - pose proof (offer_entry_effect l id e m n c Hlv Hne Hh ltac:(by rewrite Hp; eexists)) as Ho.
    destruct (offer_entry e m n) as [r n']. destruct Ho as (H1 & H2 & H3 & H4). eexists _, _. split_and!; [done| |done|done|done| |].
    + intros k Hk. cbn. by rewrite !lookup_insert_ne.
    + exists n'. cbn. by rewrite lookup_insert_eq.
    + by intros r' [= <-].
  - eexists _, _. split_and!; [done| |done|done|done| |done].
    + intros k Hk. cbn. by rewrite lookup_insert_ne.
    + exists n. split; [done|]. unfold received. rewrite (proj2 (N.eqb_neq id l) Hne), Hh. cbn. apply after_turn_same.
Qed.

(** One node has taken its turn, the others have not changed. *)
Definition took_turn (l : NodeId) (e : LogEntry) (m : bool) (id : NodeId) (c c' : RaftCluster) : Prop :=
  (forall k, k <> id -> rc_nodes c' !! k = rc_nodes c !! k /\ rc_peer_pipelines c' !! k = rc_peer_pipelines c !! k)
  /\ rc_current_term c' = rc_current_term c /\ rc_leader_transfer c' = rc_leader_transfer c
  /\ rc_leader_id c' = rc_leader_id c
  /\ forall n, rc_nodes c !! id = Some n -> exists n', rc_nodes c' !! id = Some n'
       /\ after_turn e (received l id n (bool_decide (is_Some (rc_peer_pipelines c !! id))) e m) n n'.

Lemma took_turn_local l e m id c c1 c2 : took_turn l e m id c c1 -> local id c1 c2 -> took_turn l e m id c c2.
Proof.
  intros (A1 & A2 & A3 & A4 & A5) ((B1 & B2) & B3 & B4 & B5 & B6). split_and!; [|congruence|congruence|congruence|].
  - intros k Hk. rewrite B1, B3 by done. by apply A1.
  - intros n Hn. destruct (A5 n Hn) as (n1 & H1 & L1). destruct (B2 n1 H1) as (n2 & H2 & L2).
    exists n2. split; [done|]. by eapply after_turn_position.
Qed.

Lemma replicate_one l e m b id rest c n :
  active_leader_transfer c = None -> rc_nodes c !! id = Some n -> level l e c id n ->
  exists c', replicate_entry l e m b (id :: rest) c = replicate_entry l e m b rest c' /\ took_turn l e m id c c'.
Proof.
  intros Ha Hn Hlv. cbn [replicate_entry]. cbn zeta. rewrite Hn. destruct (N.eqb_spec id l) as [->|Hne].
  { eexists. split; [reflexivity|]. split_and!; [|done|done|done|].
    - intros k Hk. cbn. by rewrite lookup_alter_ne.
    - intros n0 Hn0. rewrite Hn in Hn0. injection Hn0 as <-. exists (append_entry e n). cbn. rewrite lookup_alter_eq, Hn.
      split; [done|]. unfold received. rewrite N.eqb_refl. apply append_entry_turn; apply Hlv. }
  destruct (offer_to_effect l id e m n c Hn Hlv Hne) as (o & c1 & Ho & Hk & Ht & Hlt & Hld & Hnode & Hr).
  unfold mbind, ST_bind. rewrite Ho.
  assert (took_turn l e m id c c1) as H1.
  { split_and!; [done|done|done|done|]. intros n0 Hn0. rewrite Hn in Hn0. by injection Hn0 as <-. }
  destruct o as [r|]; [|by exists c1]. destruct (Hr r eq_refl) as (Hs & Hq & Hrt).
  set (c2 := if b then record_leader_lease_confirmation_inner id false c1 else c1).
  assert (local id c1 c2) as H2 by (subst c2; destruct b; [apply record_confirmation_local|reflexivity]).
  exists (snd (handle_append_entries_response_inner l id r false false c2)). split.
  { subst c2. rewrite Hs. cbn [andb]. by destruct b. }
  eapply took_turn_local; [eapply took_turn_local; [exact H1|exact H2]|].
  destruct H2 as (_ & _ & Ht2 & Hlt2 & _). apply success_response_local; [done|lia|done|].
  unfold active_leader_transfer in *. by rewrite Hlt2, Hlt.
Qed.

Lemma replicate_entry_effect l e m b ids c :
  NoDup ids -> active_leader_transfer c = None ->
  (forall k, k ∈ ids -> exists n, rc_nodes c !! k = Some n /\ level l e c k n) ->
  let '(r, c') := replicate_entry l e m b ids c in
  r = Ok tt /\ rc_current_term c' = rc_current_term c /\ rc_leader_id c' = rc_leader_id c
  /\ (forall k, k ∉ ids -> rc_nodes c' !! k = rc_nodes c !! k)
  /\ forall k n, k ∈ ids -> rc_nodes c !! k = Some n -> exists n', rc_nodes c' !! k = Some n'
    /\ after_turn e (received l k n (bool_decide (is_Some (rc_peer_pipelines c !! k))) e m) n n'.
Proof.
  intros Hnd. revert c. induction Hnd as [|id ids Hnin Hnd IH]; intros c Ha Hlv.
  { split_and!; [done|done|done|done|]. intros k n Hin. set_solver. }
  destruct (Hlv id ltac:(set_solver)) as (n & Hn & Hl). destruct (replicate_one l e m b id ids c n Ha Hn Hl) as (c1 & -> & H1).
  destruct H1 as (Hk & Ht & Hlt & Hld & Hnode).
  specialize (IH c1). destruct (replicate_entry l e m b ids c1) as [r c'].
  assert (active_leader_transfer c1 = None) as Ha1 by (unfold active_leader_transfer in *; by rewrite Hlt).
  destruct IH as (Hr & Ht' & Hld' & Hout & IH); [done| |].
  { intros k Hin. assert (k <> id) as Hne by set_solver. destruct (Hk k Hne) as [Hnk Hpk].
    destruct (Hlv k ltac:(set_solver)) as (nk & Hnk' & [L1 L2 L3 L4 L5]). exists nk. rewrite Hnk. split; [done|].
    split; [done|done|by rewrite Hpk|by rewrite Hpk|by rewrite Ht]. }
  split_and!; [done|congruence|congruence| |].
  { intros k Hk'. rewrite Hout by set_solver. apply Hk. set_solver. }
  intros k nk Hin Hnk. destruct (decide (k = id)) as [->|Hne].
  - destruct (Hnode nk Hnk) as (n1 & Hn1 & L1). exists n1. by rewrite Hout.
  - destruct (Hk k Hne) as [Hnk' Hpk]. destruct (IH k nk) as (n2 & Hn2 & L2); [set_solver|by rewrite Hnk'|].
    exists n2. split; [done|]. by rewrite <- Hpk.
Qed.

Lemma refresh_commit_index_logs c k n :
  rc_nodes c !! k = Some n -> exists n', rc_nodes (refresh_commit_index c) !! k = Some n' /\ nd_log n' = nd_log n.
Proof.
  intros Hn. destruct (refresh_commit_index_cases c) as [->|(i & l & leader & _ & _ & _ & _ & ->)]; [by exists n|].
  rewrite lookup_fmap, Hn. eexists. split; [reflexivity|]. destruct (nd_healthy n); [apply advance_commit_log|done].
Qed.

(** *** The commit of a proposal *)

(** Nodes counted and holders counted do not depend on commit indexes. *)
Lemma counted_nodes_fmap f c c' :
  rc_nodes c' = f <$> rc_nodes c -> rc_ignore_witness c' = rc_ignore_witness c ->
  rc_count_witness_in_commit_quorum c' = rc_count_witness_in_commit_quorum c ->
  (forall n, nd_replica_role (f n) = nd_replica_role n /\ match_index (f n) = match_index n) ->
  match_index <$> commit_quorum_nodes c' ≡ₚ match_index <$> commit_quorum_nodes c.
Proof.
  intros Hn Hi Hw Hf. unfold commit_quorum_nodes, bt_values. rewrite Hn, !bt_entries_perm, map_to_list_fmap.
  generalize (map_to_list (rc_nodes c)). intros l. induction l as [|[k n] l IH]; [done|].
  rewrite !fmap_cons. cbn [prod_map snd id]. rewrite !filter_cons.
  assert (counts_toward_commit_quorum c' (f n) = counts_toward_commit_quorum c n) as ->
    by (unfold counts_toward_commit_quorum; by rewrite Hi, Hw, (proj1 (Hf n))).
  case_decide; [|done]. rewrite !fmap_cons, (proj2 (Hf n)). by f_equiv.
Qed.

(** A majority of the counted nodes holds index [i]. *)
Definition held_by_quorum (i : LogIndex) (c : RaftCluster) : Prop :=
  (length (commit_quorum_nodes c) / 2 < length (commit_quorum_holders i c))%nat.

Lemma held_by_quorum_holders i c :
  held_by_quorum i c <->
  (length (match_index <$> commit_quorum_nodes c) / 2 + 1 <= holders i (match_index <$> commit_quorum_nodes c))%nat.
Proof.
  unfold held_by_quorum, commit_quorum_holders, holders. rewrite filter_fmap_length, !length_fmap. lia.
Qed.

Lemma refresh_commit_index_match c :
  rc_ignore_witness (refresh_commit_index c) = rc_ignore_witness c
  /\ rc_count_witness_in_commit_quorum (refresh_commit_index c) = rc_count_witness_in_commit_quorum c.
Proof. unfold refresh_commit_index. repeat (case_match; try done). Qed.

Lemma refresh_keeps_quorum i c : held_by_quorum i (refresh_commit_index c) <-> held_by_quorum i c.
Proof.
  rewrite !held_by_quorum_holders. destruct (refresh_commit_index_match c) as [Hi Hw].
  destruct (refresh_commit_index_cases c) as [->|(j & l & n & _ & _ & _ & _ & Hn)]; [done|].
  assert (match_index <$> commit_quorum_nodes (refresh_commit_index c) ≡ₚ match_index <$> commit_quorum_nodes c) as Hp.
  { eapply counted_nodes_fmap; [exact Hn|done|done|]. intros m. cbn beta. destruct (nd_healthy m); [|done].
    destruct (advance_commit_fields (N.max (rc_commit_index c) j) m) as (_ & _ & Hr & _ & Hm). by rewrite Hr, Hm. }
  by rewrite (holders_perm _ _ _ Hp), Hp.
Qed.

(** The entry at the end of an ordered log, above the snapshot, gives its term. *)
Lemma log_term_at_last n l e :
  nd_log n = l ++ [e] -> log_ordered (nd_log n) -> (0 < entry_index e)%N ->
  (snapshot_index_or_default (nd_installed_snapshot n) < entry_index e)%N ->
  log_term_at n (entry_index e) = Some (entry_term e).
Proof.
  intros Hl Ho H0 Hs. unfold log_term_at. destruct (N.eqb_spec (entry_index e) 0); [lia|]. cbn zeta.
  assert (nd_log n !! length l = Some e) as Hp by (rewrite Hl; by apply list_lookup_middle).
  assert (log_position n (entry_index e) = Some (length l)) as -> by (apply log_position_spec; [done|by rewrite Hp]).
  cbn. rewrite Hp. destruct (nd_installed_snapshot n) as [snap|]; [|done]. cbn in Hs.
  destruct (N.eqb_spec (snap_index snap) (entry_index e)); [lia|done].
Qed.

(** When every match index is at most [i], the healthy leader holds an entry of the
    current term there, and a majority of the counted nodes holds it, a refresh
    commits it. *)
Lemma refresh_commits i c l leader :
  rc_leader_id c = Some l -> rc_nodes c !! l = Some leader -> nd_healthy leader = true ->
  (i <= match_index leader)%N -> log_term_at leader i = Some (rc_current_term c) ->
  (forall k n, rc_nodes c !! k = Some n -> (match_index n <= i)%N) ->
  held_by_quorum i c -> (i <= rc_commit_index (refresh_commit_index c))%N.
Proof.
  intros Hl Hn Hh Hm Ht Hmax Hq. apply held_by_quorum_holders in Hq. pose proof (proj1 (commit_quorum_index_spec c)) as Hspec.
  unfold refresh_commit_index. destruct (commit_quorum_match_index c) as [j|] eqn:Hj; cbn zeta in Hspec.
  2: { rewrite Hspec in Hq. cbn in Hq. lia. }
  destruct Hspec as (Hin & _ & Hbest). specialize (Hbest i Hq).
  assert (j <= i)%N as Hji.
  { apply list_elem_of_fmap in Hin as (n & -> & Hin). apply list_elem_of_filter in Hin as [_ Hin].
    apply elem_of_bt_values in Hin as [k Hk]. by eapply Hmax. }
  assert (j = i) as -> by lia. rewrite Hl, Hn, Ht, bool_decide_eq_true_2 by done. cbn [negb]. cbn zeta.
  set (f := fun node => if nd_healthy node then _ else node). unfold refresh_cluster_indexes. cbn [rc_commit_index].
  etrans; [|apply max_or_default_elem, list_elem_of_fmap_2, elem_of_bt_values].
  2: { exists l. cbn. rewrite lookup_fmap, Hn. reflexivity. }
  subst f. cbn. rewrite Hh. destruct (advance_commit_cursors (N.max (rc_commit_index c) i) leader) as (-> & _). lia.
Qed.

(** What the steps in front of the visits leave alone. *)
Definition visit_frame (c c' : RaftCluster) : Prop :=
  rc_nodes c' = rc_nodes c /\ rc_peer_pipelines c' = rc_peer_pipelines c /\ rc_current_term c' = rc_current_term c
  /\ rc_leader_transfer c' = rc_leader_transfer c /\ rc_leader_id c' = rc_leader_id c.

Lemma begin_renewal_frame c : visit_frame c (begin_leader_lease_renewal c).2.
Proof. unfold begin_leader_lease_renewal. destruct (rc_leader_id c) eqn:E; split_and!; try done; by rewrite E. Qed.

Lemma record_confirmation_frame k r c : visit_frame c (record_leader_lease_confirmation_inner k r c).
Proof.
  unfold record_leader_lease_confirmation_inner, receive_leader_lease_confirmation_inner. cbn zeta.
  repeat (case_match; try done).
Qed.

Lemma register_proposal_frame i m c : visit_frame c (register_proposal i m c).
Proof. unfold register_proposal. by destruct m. Qed.

(** A proposal is the visits, under a fresh lease epoch, and then the refreshes. *)
Lemma spread_proposal_visits l e m c :
  exists b c1, visit_frame c c1 /\ spread_proposal l e m c
    = match replicate_entry l e m b (node_ids c) c1 with
      | (Ok _, c2) => (Ok tt, if b then snd (finish_leader_lease_renewal (refresh_commit_index c2)) else refresh_commit_index c2)
      | (Err x, c2) => (Err x, c2)
      end.
Proof.
  unfold spread_proposal. pose proof (begin_renewal_frame c) as (N1 & P1 & T1 & L1 & D1).
  destruct (begin_leader_lease_renewal c) as [b c1]. cbn [snd] in *. cbn zeta. set (c2 := if b then _ else c1).
  assert (visit_frame c1 c2) as (N2 & P2 & T2 & L2 & D2) by (subst c2; destruct b; [apply record_confirmation_frame|done]).
  clearbody c2. exists b, c2. split; [split_and!; congruence|].
  assert (node_ids c2 = node_ids c) as -> by (unfold node_ids; congruence). unfold mbind, ST_bind, modify.
  destruct (replicate_entry l e m b (node_ids c) c2) as [[] c3]; [|done]. by destruct b.
Qed.

Lemma spread_proposal_effect l e m c :
  active_leader_transfer c = None -> (forall k n, rc_nodes c !! k = Some n -> level l e c k n) ->
  let '(r, c') := spread_proposal l e m c in
  r = Ok tt
  /\ (forall k n, rc_nodes c !! k = Some n -> exists n', rc_nodes c' !! k = Some n'
       /\ nd_log n' = nd_log n ++ received l k n (bool_decide (is_Some (rc_peer_pipelines c !! k))) e m)
  /\ forall leader, rc_leader_id c = Some l -> rc_nodes c !! l = Some leader -> nd_healthy leader = true ->
       nd_replica_role leader <> Witness -> entry_term e = rc_current_term c ->
       (forall k n, rc_nodes c !! k = Some n -> (match_index n < entry_index e)%N) ->
       held_by_quorum (entry_index e) c' -> (entry_index e <= rc_commit_index c')%N.
Proof.
  intros Ha Hlv. destruct (spread_proposal_visits l e m c) as (b & c2 & (Hn2 & Hp2 & Ht2 & Hlt2 & Hld2) & ->).
  pose proof (replicate_entry_effect l e m b (node_ids c) c2 (NoDup_bt_keys _)) as Hre.
  destruct (replicate_entry l e m b (node_ids c) c2) as [r c3].
  destruct Hre as (-> & Ht3 & Hld3 & Hout & Hre); [unfold active_leader_transfer in *; by rewrite Hlt2| |].
  { intros k [n Hn]%elem_of_bt_keys. exists n. rewrite Hn2. split; [done|]. destruct (Hlv k n Hn) as [L1 L2 L3 L4 L5].
    split; [done|done|by rewrite Hp2|by rewrite Hp2|by rewrite Ht2]. }
  assert (forall k n, rc_nodes c !! k = Some n -> exists n', rc_nodes c3 !! k = Some n'
    /\ after_turn e (received l k n (bool_decide (is_Some (rc_peer_pipelines c !! k))) e m) n n') as Hturn.
  { intros k n Hn. rewrite <- Hp2. apply Hre; [|by rewrite Hn2]. apply elem_of_bt_keys. by eexists. }
  assert (forall k n3, rc_nodes c3 !! k = Some n3 -> exists n, rc_nodes c !! k = Some n) as Hback.
  { intros k n3 H3. destruct (decide (k ∈ node_ids c)) as [[n Hn]%elem_of_bt_keys|Hk]; [by exists n|].
    rewrite Hout, Hn2 in H3 by done. by exists n3. }
  assert (forall k n, rc_nodes c !! k = Some n -> exists n', rc_nodes (refresh_commit_index c3) !! k = Some n'
    /\ nd_log n' = nd_log n ++ received l k n (bool_decide (is_Some (rc_peer_pipelines c !! k))) e m) as Hfin.
  { intros k n Hn. destruct (Hturn k n Hn) as (n3 & Hn3 & [L3 _ _ _ _]).
    destruct (refresh_commit_index_logs c3 k n3 Hn3) as (n4 & Hn4 & L4). exists n4. by rewrite L4. }
  assert (forall leader, rc_leader_id c = Some l -> rc_nodes c !! l = Some leader -> nd_healthy leader = true ->
    nd_replica_role leader <> Witness -> entry_term e = rc_current_term c ->
    (forall k n, rc_nodes c !! k = Some n -> (match_index n < entry_index e)%N) ->
    held_by_quorum (entry_index e) (refresh_commit_index c3) -> (entry_index e <= rc_commit_index (refresh_commit_index c3))%N) as Hcom.
  { intros leader Hl Hn Hh Hr Het Hmax Hq. apply (proj1 (refresh_keeps_quorum _ _)) in Hq. destruct (Hturn l leader Hn) as (n3 & Hn3 & [A1 A2 A3 A4 A5]).
    unfold received in A1, A3. rewrite N.eqb_refl in A1, A3. destruct (Hlv l leader Hn) as [L1 L2 _ _ _].
    apply (refresh_commits (entry_index e) c3 l n3); [congruence|exact Hn3|exact (A5 Hh)|exact (A3 eq_refl Hr)| | |exact Hq].
    - rewrite Ht3, Ht2, <- Het. pose proof (Hmax l leader Hn) as Hlt. rewrite match_index_data in Hlt by done.
      apply (log_term_at_last n3 (nd_log leader)); [done| |lia|rewrite A4; lia].
      rewrite A1, <- (append_entry_next e leader L1 L2). by apply append_entry_end; [|lia].
    - intros k nk Hk. destruct (Hback k nk Hk) as [n Hn']. destruct (Hturn k n Hn') as (n' & Hk' & [_ B2 _ _ _]).
      rewrite Hk in Hk'. injection Hk' as <-. specialize (Hmax k n Hn'). lia. }
  destruct b; (split_and!; [done|exact Hfin|exact Hcom]).
Qed.

(** C27: what a proposal does when the group is in step: no memory pressure, no
    leader transfer in progress, every live follower at the last index with room
    in its pipeline. It returns the next index of the current term, the leader
    and every live data replica append exactly the entry, every live witness its
    identity, and no other log changes. Where the group knows its last index and the
    leader is a data replica, the group's commit index has reached the entry as soon as
    the nodes that hold it are a majority of those the commit quorum counts. *)
Theorem proposal_replicates payload options c l leader i :
  admit_proposal payload options c = Ok (l, leader) ->
  should_release_memory c = false -> is_busy c = false ->
  next_log_index c = Ok i -> active_leader_transfer c = None ->
  let m := po_is_membership_change options
           && negb (membership_change_is_pending (nd_safety_applied_index leader) c) in
  let e := mkLogEntry (mkLogId (rc_current_term c) i) payload (po_is_command options && negb m) in
  (forall k n, rc_nodes c !! k = Some n -> level l e c k n) ->
  let '(r, c') := propose_with_options payload options c in
  r = Ok (log_id e)
  /\ (forall k n, rc_nodes c !! k = Some n -> exists n', rc_nodes c' !! k = Some n'
       /\ nd_log n' = nd_log n ++ received l k n (bool_decide (is_Some (rc_peer_pipelines c !! k))) e m)
  /\ (indexes_known c -> nd_replica_role leader <> Witness ->
      (length (commit_quorum_nodes c') / 2 < length (commit_quorum_holders i c'))%nat -> (i <= rc_commit_index c')%N).
Proof.
  intros Ha Hrel Hbusy Hi Htr m e Hlv. pose proof (admit_proposal_Ok _ _ _ _ _ Ha) as (Hl & Hn & Hh & _).
  unfold propose_with_options. rewrite Ha. unfold mbind at 1, ST_bind at 1.
  assert (make_room c = (Ok tt, c)) as -> by (unfold make_room, mbind, ST_bind, with_state; rewrite Hrel; cbn; by rewrite Hbusy).
  unfold append_proposal. rewrite Hi. cbn zeta. fold m. fold e. set (c1 := register_proposal i m c).
  destruct (register_proposal_frame i m c) as (Hn1 & Hp1 & Ht1 & Hlt1 & Hl1). fold c1 in Hn1, Hp1, Ht1, Hlt1, Hl1.
  clearbody c1. pose proof (spread_proposal_effect l e m c1) as Hs. unfold mbind, ST_bind.
  destruct (spread_proposal l e m c1) as [r c']. destruct Hs as (-> & Hs & Hcom).
  - unfold active_leader_transfer in *. by rewrite Hlt1.
  - rewrite Hn1. intros k n Hk. destruct (Hlv k n Hk) as [L1 L2 L3 L4 L5]. split; [done|done|by rewrite Hp1..|by rewrite Ht1].
  - split_and!; [done| |].
    + intros k n Hk. rewrite <- Hn1 in Hk. destruct (Hs k n Hk) as (n' & Hn' & L'). exists n'. by rewrite <- Hp1.
    + intros Hknown Hr Hq. unfold next_log_index, ok_or in Hi. destruct (checked_add _ 1) as [j|] eqn:Hj; [|done].
      injection Hi as ->. apply checked_add_Some in Hj as [-> _].
      apply (Hcom leader); [congruence|by rewrite Hn1|done|done|by rewrite Ht1| |done].
      rewrite Hn1. intros k n Hk. specialize (Hknown k n Hk). cbn in *. lia.
Qed.

#[export] Instance log_ordered_dec l : Decision (log_ordered l).
Proof. unfold log_ordered. apply _. Defined.

Lemma proposal_replicates_witness :
  let '(r, c') := propose [Byte.x01] sample_cluster in
  r = Ok (mkLogId 2 1)
  /\ (exists n', rc_nodes c' !! 3%N = Some n' /\ nd_log n' = [mkLogEntry (mkLogId 2 1) [Byte.x01] true])
  /\ (1 <= rc_commit_index c')%N.
Proof.
  set (e := mkLogEntry (mkLogId 2 1) [Byte.x01] true).
  destruct (rc_nodes sample_cluster !! 1%N) as [leader|] eqn:Hl; [|vm_compute in Hl; discriminate].
  destruct (rc_nodes sample_cluster !! 3%N) as [n3|] eqn:H3; [|vm_compute in H3; discriminate].
  assert (map_Forall (fun k n => log_ordered (nd_log n) /\ (last_index n < 1)%N /\ match_index n +s 1 = 1%N
     /\ match rc_peer_pipelines sample_cluster !! k with Some p => is_ok (queue_append e p).1 | None => true end = true
     /\ (hs_current_term (nd_hard_state n) <= rc_current_term sample_cluster)%N) (rc_nodes sample_cluster)) as H
    by (apply (bool_decide_unpack _); vm_compute; exact I).
  assert (admit_proposal [Byte.x01] ProposeOptions_default sample_cluster = Ok (1%N, leader)) as Ha.
  { transitivity (match rc_nodes sample_cluster !! 1%N with Some n => Ok (1%N, n) | None => Err NoLeader end);
      [vm_compute; reflexivity|by rewrite Hl]. }
  pose proof (proposal_replicates [Byte.x01] ProposeOptions_default sample_cluster 1 leader 1 Ha
    ltac:(vm_compute; reflexivity) ltac:(vm_compute; reflexivity) ltac:(vm_compute; reflexivity)
    ltac:(vm_compute; reflexivity)) as Hp. cbn zeta in Hp.
  unfold propose. destruct (propose_with_options [Byte.x01] ProposeOptions_default sample_cluster) as [r c'] eqn:Hc'.
  destruct Hp as (-> & Hp & Hcom).
  - intros k n Hn. destruct (H k n Hn) as (H1 & H2 & H4 & H5 & H6). split; [done|done| |done|done].
    intros _ p Hpp. by rewrite Hpp in H5.
  - split; [reflexivity|]. split.
    { destruct (Hp 3%N n3 H3) as (n' & Hn' & HL). exists n'. split; [done|]. rewrite HL.
    assert (nd_log <$> rc_nodes sample_cluster !! 3%N = Some []) as Hlog by (vm_compute; reflexivity).
    assert ((fun n => (nd_healthy n, can_serve_data (nd_replica_role n))) <$> rc_nodes sample_cluster !! 3%N
      = Some (true, true)) as Hh by (vm_compute; reflexivity).
    rewrite H3 in Hlog, Hh. injection Hlog as ->. injection Hh as Hh1 Hh2. unfold received. rewrite Hh1, Hh2.
    rewrite bool_decide_eq_true_2 by (apply (bool_decide_unpack _); vm_compute; exact I). reflexivity. }
    apply Hcom; [apply (bool_decide_unpack _); vm_compute; exact I| |].
    + assert (nd_replica_role <$> rc_nodes sample_cluster !! 1%N = Some Voter) as Hr by (vm_compute; reflexivity).
      rewrite Hl in Hr. injection Hr as ->. discriminate.
    + replace c' with (snd (propose_with_options [Byte.x01] ProposeOptions_default sample_cluster)) by (by rewrite Hc').
      apply Nat.ltb_lt. vm_compute. reflexivity.
Defined.

(** ** A proposal a pipeline refuses

    The visit of the replicas ran over [before] in full and stopped at the follower [k]:
    its pipeline in the state the visits left refuses the entry, and nothing happens
    after that. *)
Record refused_at (l : NodeId) (entry : LogEntry) (m : bool) (before : list NodeId) (k : NodeId) (x : RaftError)
    (c c' : RaftCluster) : Prop := mk_refused_at {
  ra_follower : k <> l;
  ra_visits : exists b c1 c2 p p',
    visit_frame c c1
    /\ replicate_entry l entry m b before c1 = (Ok tt, c2)
    /\ rc_peer_pipelines c2 !! k = Some p /\ queue_append entry p = (Err x, p')
    /\ c' = c2 <| rc_peer_pipelines ::= <[k := p']> |>
}.

Lemma replicate_entry_app l e m b ids1 ids2 c :
  replicate_entry l e m b (ids1 ++ ids2) c = (_ ← replicate_entry l e m b ids1; replicate_entry l e m b ids2) c.
Proof.
  revert c. induction ids1 as [|id ids1 IH]; intros c; [done|]. cbn [app replicate_entry]. cbn zeta.
  unfold mbind, ST_bind in *. destruct (rc_nodes c !! id) as [n|]; [|apply IH]. destruct (_ =? _)%N; [apply IH|].
  destruct (offer_to id e m n c) as [[[r|]|x] c1]; [|apply IH|done]. destruct (resp_success r && b); cbn [modify discard]; apply IH.
Qed.

Lemma replicate_entry_stops l e m b ids c x c' :
  replicate_entry l e m b ids c = (Err x, c') ->
  exists before k after c2 p p', ids = before ++ k :: after /\ k <> l
    /\ replicate_entry l e m b before c = (Ok tt, c2)
    /\ rc_peer_pipelines c2 !! k = Some p /\ queue_append e p = (Err x, p')
    /\ c' = c2 <| rc_peer_pipelines ::= <[k := p']> |>.
Proof.
  revert c. induction ids as [|id ids IH]; intros c; [done|]. intros H.
  assert (forall c1, replicate_entry l e m b [id] c = (Ok tt, c1) -> replicate_entry l e m b ids c1 = (Err x, c') ->
    exists before k after c2 p p', id :: ids = before ++ k :: after /\ k <> l
      /\ replicate_entry l e m b before c = (Ok tt, c2)
      /\ rc_peer_pipelines c2 !! k = Some p /\ queue_append e p = (Err x, p')
      /\ c' = c2 <| rc_peer_pipelines ::= <[k := p']> |>) as Hlater.
  { intros c1 H1 H2. destruct (IH c1 H2) as (before & k & after & c2 & p & p' & -> & Hk & Hb & Hp).
    exists (id :: before), k, after, c2, p, p'. split_and!; [done|done| |apply Hp..].
    change (id :: before) with ([id] ++ before). rewrite replicate_entry_app. unfold mbind, ST_bind. by rewrite H1. }
  change (id :: ids) with ([id] ++ ids) in H. rewrite replicate_entry_app in H. unfold mbind at 1, ST_bind at 1 in H.
  destruct (replicate_entry l e m b [id] c) as [[[]|y] c1] eqn:H1; [by apply (Hlater c1)|]. injection H as -> ->.
  exists [], id, ids, c. cbn [replicate_entry] in H1. cbn zeta in H1. destruct (rc_nodes c !! id) as [n|]; [|done].
  destruct (N.eqb_spec id l) as [|Hne]; [done|]. unfold mbind, ST_bind in H1. unfold offer_to, pipeline_op in H1.
  destruct (rc_peer_pipelines c !! id) as [p|] eqn:Hp; [|done]. exists p.
  destruct (queue_append e p) as [[u|y] p1] eqn:Hq.
  - destruct (nd_healthy n); [|done]. destruct (offer_entry e m n) as [r n']. destruct (resp_success r && b); done.
  - injection H1 as -> <-. exists p1. by split_and!.
Qed.

Lemma spread_proposal_stops l e m c x c' :
  spread_proposal l e m c = (Err x, c') ->
  exists before k after, node_ids c = before ++ k :: after /\ refused_at l e m before k x c c'.
Proof.
  destruct (spread_proposal_visits l e m c) as (b & c2 & Hfr & ->).
  destruct (replicate_entry l e m b (node_ids c) c2) as [[u|y] c3] eqn:Hr; [done|]. intros [= <- <-].
  destruct (replicate_entry_stops _ _ _ _ _ _ _ _ Hr) as (before & k & after & c4 & p & p' & Hids & Hk & H).
  exists before, k, after. split; [done|]. split; [done|]. by exists b, c2, c4, p, p'.
Qed.

(** The nodes visited before the refusal hold the entry, where they were level. *)
Lemma refused_at_stored l e m before k x c c' :
  refused_at l e m before k x c c' -> NoDup before -> active_leader_transfer c = None ->
  (forall j, j ∈ before -> exists n, rc_nodes c !! j = Some n /\ level l e c j n) ->
  forall j n, j ∈ before -> rc_nodes c !! j = Some n -> exists n', rc_nodes c' !! j = Some n'
    /\ nd_log n' = nd_log n ++ received l j n (bool_decide (is_Some (rc_peer_pipelines c !! j))) e m.
Proof.
  intros [_ (b & c1 & c2 & p & p' & (N1 & P1 & T1 & L1 & _) & Hr & _ & _ & ->)] Hnd Ha Hlv j n Hj Hn.
  pose proof (replicate_entry_effect l e m b before c1 Hnd) as He. rewrite Hr in He.
  destruct He as (_ & _ & _ & _ & He); [unfold active_leader_transfer in *; by rewrite L1| |].
  { intros i Hi. destruct (Hlv i Hi) as (ni & Hni & [B1 B2 B3 B4 B5]). exists ni. rewrite N1. split; [done|].
    split; [done|done|by rewrite P1|by rewrite P1|by rewrite T1]. }
  destruct (He j n Hj) as (n' & Hn' & [HL _ _ _ _]); [by rewrite N1|]. exists n'. by rewrite <- P1.
Qed.


(** A group whose pipelines queue at most one append: with node 2 away and node 3
    leading, the second proposal is refused by the pipeline of node 2. *)
Definition tight_group : RaftCluster :=
  match cluster_new 7 (with_pipeline_limits
          (production_default <| pl_max_memory_replicate_log_bytes := 1%N |>) Config_default)
          [sample_peer 1 Voter; sample_peer 2 Voter; sample_peer 3 Voter] with
  | Ok c => snd ((_ ← campaign 1 true; _ ← partition_peer 2; propose [Byte.x01]) (c <| rc_running := true |>))
  | Err _ => sample_cluster
  end.


(** The refused proposal is in the leader's log: its caller was told it failed,
    and the entry is replicated with the next one. *)
Example failed_proposal_stays_in_log :
  nd_log <$> rc_nodes (snd (propose [Byte.x02] tight_group)) !! 1%N
  = Some [mkLogEntry (mkLogId 1 1) noop_payload false; mkLogEntry (mkLogId 1 2) [Byte.x01] true;
          mkLogEntry (mkLogId 1 3) [Byte.x02] true].
Proof. vm_compute. reflexivity. Qed.

(** A catch-up does not compare what the peer holds with the leader's log: a peer with
    another entry at index 1 keeps it, gets the entries above it and commits them. *)
Definition divergent_group : RaftCluster :=
  let entry t i := mkLogEntry (mkLogId t i) [] true in
  let with_log log c node := node <| nd_log := log |> <| nd_commit_index := c |> in
  on_node 3 (with_log [entry 1 1]%N 0%N)
    (on_node 1 (with_log [entry 2 1; entry 2 2]%N 2%N)
       (sample_cluster <| rc_commit_index := 2%N |> <| rc_last_log_index := 2%N |>)).

Example catch_up_keeps_divergent_entry :
  let '(r, c') := catch_up_peer 3 divergent_group in
  is_ok r = true
  /\ (fun n => (log_id <$> nd_log n, nd_commit_index n)) <$> rc_nodes c' !! 3%N = Some ([mkLogId 1 1; mkLogId 2 2], 2%N)
  /\ (fun n => log_id <$> nd_log n) <$> rc_nodes c' !! 1%N = Some [mkLogId 2 1; mkLogId 2 2].
Proof. vm_compute. auto. Qed.

(** ** A behaviour the comments do not suggest

    With a majority away, a proposal that catches a lagging peer up refreshes the
    group's last index before the leader, later in id order, has appended: the
    next proposal gets the same index and term with another payload, which the
    caught-up peer stores and the leader does not. *)
Definition five_voters : RaftCluster :=
  match cluster_new 7 Config_default (flip sample_peer Voter <$> [1; 2; 3; 4; 5]%N) with
  | Ok c => c <| rc_running := true |>
  | Err _ => sample_cluster
  end.

Definition minority_run : Cluster (LogId * LogId) :=
  _ ← campaign 4 true;
  _ ← partition_peer 2; _ ← partition_peer 3; _ ← partition_peer 4;
  _ ← campaign 5 true; _ ← propose [Byte.x01];
  _ ← partition_peer 1; _ ← propose [Byte.x02]; _ ← mark_peer_active 1;
  first ← propose [Byte.x03];
  second ← propose [Byte.x04];
  mret (first, second).

Example proposal_reuses_index :
  let '(r, c) := minority_run five_voters in
  r = Ok (mkLogId 2 5, mkLogId 2 5)
  /\ (last ∘ nd_log) <$> rc_nodes c !! 1%N = Some (Some (mkLogEntry (mkLogId 2 5) [Byte.x04] true))
  /\ (last ∘ nd_log) <$> rc_nodes c !! 5%N = Some (Some (mkLogEntry (mkLogId 2 5) [Byte.x03] true)).
Proof. vm_compute. auto. Qed.
