(* ===== verification/Steady.v ===== *)
(** * What the leader's operations leave alone

    The operations of a leader ([Replication.v]) and of an election ([Election.v])
    neither write the answers a candidate has collected nor move the read barrier of
    the term they run in: [rc_election_responses_term] stays, [rc_vote_responses] at
    most loses entries, [rc_last_index_before_current_term] changes only with the
    term, and the set of nodes and the witness policy stay as they are. [Votes.v]
    and [Tenure.v] build on this. *)

From stdpp Require Import base strings pretty numbers sorting gmap fin_maps sets list.
From S2P Require Import Prelude Types Slice Membership Node Config Pipeline Cluster Election Append GroupInv Replication ReplicationSafety.

Record steady (c c' : RaftCluster) : Prop := mkSteady {
  st_term : (rc_current_term c <= rc_current_term c')%N;
  st_floor : rc_current_term c' = rc_current_term c ->
    rc_last_index_before_current_term c' = rc_last_index_before_current_term c;
  st_box_term : rc_election_responses_term c' = rc_election_responses_term c;
  st_box : rc_vote_responses c' ⊆ rc_vote_responses c;
  st_policy : rc_ignore_witness c' = rc_ignore_witness c;
  st_nodes : dom (rc_nodes c') = dom (rc_nodes c)
}.

#[export] Instance steady_preorder : PreOrder steady.
Proof.
  split; [intros c; by split|]. intros a b c [A1 A2 A3 A4 A5 A6] [B1 B2 B3 B4 B5 B6].
  split; [lia| |congruence|by etrans|congruence|congruence].
  intros H. rewrite B2, A2; [done|lia|lia].
Qed.

(** The fields a step that is not of an election leaves as they are. *)
Definition steady_view (c : RaftCluster) :=
  (rc_current_term c, rc_last_index_before_current_term c, rc_election_responses_term c, rc_vote_responses c,
   rc_ignore_witness c).

Lemma steady_frame c c' : steady_view c' = steady_view c -> dom (rc_nodes c') = dom (rc_nodes c) -> steady c c'.
Proof. intros [= H1 H2 H3 H4 H5] Hd. split; [lia|done|done|by rewrite H4|done|done]. Qed.

Lemma steady_fields c c' : steady_view c' = steady_view c -> rc_nodes c' = rc_nodes c -> steady c c'.
Proof. intros Hv Hn. apply steady_frame; [done|by rewrite Hn]. Qed.

Lemma steady_on_nodes f c : steady c (on_nodes f c).
Proof. apply steady_frame; [done|]. apply dom_fmap_L. Qed.

Lemma steady_on_node id f c : steady c (on_node id f c).
Proof. apply steady_frame; [done|]. apply dom_alter_L. Qed.

Lemma steady_insert id n c : is_Some (rc_nodes c !! id) -> steady c (c <| rc_nodes ::= <[id := n]> |>).
Proof. intros Hn. apply steady_frame; [done|]. by apply dom_insert_lookup_L. Qed.

(** A step into a later term, with the answers kept or dropped. *)
Lemma steady_later c c' :
  (rc_current_term c < rc_current_term c')%N -> rc_election_responses_term c' = rc_election_responses_term c ->
  rc_vote_responses c' ⊆ rc_vote_responses c -> rc_ignore_witness c' = rc_ignore_witness c ->
  dom (rc_nodes c') = dom (rc_nodes c) -> steady c c'.
Proof. intros. split; [lia|lia|done..]. Qed.

(** Closes a step that sets other fields. *)
Ltac steady_same := first [reflexivity | by apply steady_fields].

#[export] Hint Resolve steady_on_nodes steady_on_node : raft.

(** ** The group's aggregates, leases and pipelines *)

Lemma refresh_cluster_indexes_steady c : steady c (refresh_cluster_indexes c).
Proof. steady_same. Qed.

Lemma refresh_commit_index_steady c : steady c (refresh_commit_index c).
Proof.
  unfold refresh_commit_index. destruct (commit_quorum_match_index c); [|reflexivity].
  destruct (rc_leader_id c); [|reflexivity]. destruct (rc_nodes c !! _); [|reflexivity]. destruct (negb _); [reflexivity|].
  cbn zeta. etrans; [|apply refresh_cluster_indexes_steady]. etrans; [|apply steady_on_nodes]. steady_same.
Qed.

Lemma refresh_policy_steady c : steady c (refresh_witness_commit_quorum_policy c).2.
Proof.
  unfold refresh_witness_commit_quorum_policy. cbn [snd]. destruct (negb _); [|steady_same].
  etrans; [|apply refresh_commit_index_steady]. steady_same.
Qed.

Lemma settle_leader_transfer_steady k c : steady c (settle_leader_transfer k c).
Proof.
  unfold settle_leader_transfer, complete_leader_transfer, abort_leader_transfer.
  destruct (active_leader_transfer c); [|reflexivity]. destruct (_ =? _)%N; steady_same.
Qed.

Lemma reset_pipelines_steady k c : steady c (reset_replication_pipelines_for_leader k c).
Proof. unfold reset_replication_pipelines_for_leader. apply (foldl_keeps steady). intros c' x. steady_same. Qed.

Lemma pipeline_op_steady {A} id (op : ReplicationPipeline -> A * ReplicationPipeline) c :
  steady c (pipeline_op id op c).2.
Proof. unfold pipeline_op. destruct (rc_peer_pipelines c !! id) as [p|]; [|reflexivity]. destruct (op p). steady_same. Qed.

Lemma mark_peer_active_steady id : transits steady (mark_peer_active id).
Proof.
  intros c. unfold mark_peer_active. destruct (rc_nodes c !! id); [|reflexivity]. cbn [snd]. cbn zeta.
  etrans; [apply (steady_on_node id)|]. steady_same.
Qed.

Lemma receive_confirmation_steady k e d r c : steady c (receive_leader_lease_confirmation_inner k e d r c).2.
Proof. unfold receive_leader_lease_confirmation_inner. cbn zeta. repeat (case_match; try steady_same). Qed.

Lemma record_confirmation_steady k r c : steady c (record_leader_lease_confirmation_inner k r c).
Proof. apply receive_confirmation_steady. Qed.

Lemma begin_renewal_steady c : steady c (begin_leader_lease_renewal c).2.
Proof. unfold begin_leader_lease_renewal. destruct (rc_leader_id c); steady_same. Qed.

(** ** Elections *)

Lemma take_office_steady k t c : (rc_current_term c < t)%N -> steady c (take_office k t c).
Proof.
  intros Ht. unfold take_office. cbn zeta. etrans; [|apply reset_pipelines_steady].
  etrans; [|apply refresh_policy_steady]. etrans; [|apply steady_on_nodes].
  set (c1 := clear_reorder_queues _).
  assert (steady c c1) as H1 by (apply steady_later; [done|done|apply map_empty_subseteq|done|done]). clearbody c1.
  etrans; [exact H1|]. etrans; [apply (settle_leader_transfer_steady k)|]. steady_same.
Qed.

Lemma broadcast_leader_noop_steady : transits steady broadcast_leader_noop.
Proof.
  intros c. unfold broadcast_leader_noop. destruct (rc_leader_id c); [|reflexivity].
  destruct (next_log_index c); [|reflexivity]. cbn [snd]. cbn zeta.
  etrans; [|apply refresh_cluster_indexes_steady]. etrans; [|apply steady_on_nodes]. steady_same.
Qed.

Lemma campaign_steady k forced : transits steady (campaign k forced).
Proof.
  intros c. unfold campaign. destruct (campaign_refusal k forced c); [reflexivity|].
  destruct (already_leading k c); [reflexivity|]. destruct (checked_add _ 1) as [t|] eqn:Et; [|reflexivity].
  apply checked_add_Some in Et as [-> _]. cbn zeta.
  etrans; [apply (take_office_steady k (rc_current_term c + 1)); lia|]. destruct (rc_running c); [|reflexivity].
  apply (transits_drop steady), broadcast_leader_noop_steady.
Qed.

Lemma timeout_now_steady from target : transits steady (timeout_now from target).
Proof.
  intros c. unfold timeout_now. destruct (rc_nodes c !! target); [|reflexivity]. destruct (_ || _); [reflexivity|].
  pose proof (campaign_steady target true c) as H. by destruct (campaign target true c) as [[] c1].
Qed.

Lemma adopt_vote_term_steady t r c : steady c (adopt_vote_term t r c).
Proof.
  unfold adopt_vote_term. destruct (N.ltb_spec (rc_current_term c) (vr_term r)); [|reflexivity]. cbn [negb]. cbn zeta.
  etrans; [|apply steady_on_nodes]. etrans; [|apply steady_on_node]. by apply steady_later.
Qed.

Lemma cast_vote_steady t k hard reset c :
  (hs_current_term hard <= rc_current_term c)%N -> steady c (cast_vote t k hard reset c).
Proof.
  intros Hle. unfold cast_vote. cbn zeta. set (c1 := on_node t _ c).
  assert (steady c c1) as H1 by apply steady_on_node. assert (rc_current_term c1 = rc_current_term c) as Ht by done.
  clearbody c1. rewrite <- Ht in Hle. etrans; [exact H1|]. set (c2 := if reset then _ else c1).
  assert (steady c1 c2 /\ rc_current_term c2 = rc_current_term c1) as [H2 Ht2]
    by (subst c2; destruct reset; split; steady_same). clearbody c2. etrans; [exact H2|]. apply steady_fields; [|done].
  unfold steady_view. cbn. by rewrite N.max_r by lia.
Qed.

Lemma decide_vote_steady t r c : (vr_term r <= rc_current_term c)%N -> steady c (snd (decide_vote t r c)).
Proof.
  intros Ht. unfold decide_vote. destruct (rc_nodes c !! t) as [n|]; [|reflexivity]. cbn zeta.
  destruct (_ && _); [reflexivity|]. destruct (negb _); [reflexivity|].
  destruct (N.ltb_spec (vr_term r) (hs_current_term (nd_hard_state n))) as [|Hge]; [reflexivity|].
  destruct (raised_ballot (nd_hard_state n) r Hge) as [Hr _]. cbn zeta in Hr. set (hard := if (_ <? _)%N then _ else _) in *.
  clearbody hard. set (c1 := on_node t _ c). assert (steady c c1) as H1 by apply steady_on_node.
  assert (rc_current_term c1 = rc_current_term c) as Ht1 by done. clearbody c1.
  destruct (_ && _); [done|]. destruct (_ && _); [done|]. cbn [snd]. etrans; [exact H1|]. apply cast_vote_steady. lia.
Qed.

Lemma vote_to_steady t r : transits steady (vote_to t r).
Proof.
  intros c. unfold vote_to. cbn zeta. destruct (negb _); [reflexivity|]. destruct (rc_nodes c !! t); [|reflexivity].
  destruct (negb _); [reflexivity|]. set (c1 := observe_vote_request_candidate _ _ _ _).
  assert (steady c c1) as H1
    by (subst c1; unfold observe_vote_request_candidate; destruct (negb _); [reflexivity|apply steady_on_node]).
  clearbody c1. etrans; [exact H1|]. destruct (rc_nodes c1 !! t); [|reflexivity].
  destruct (target_in_lease _ _ _); [reflexivity|]. destruct (vr_pre_vote r); [reflexivity|].
  destruct (candidate_refusal _ _); [reflexivity|]. etrans; [apply (adopt_vote_term_steady t r)|].
  apply decide_vote_steady, adopt_term_reached.
Qed.

Lemma run_election_op_steady c op : steady c (run_election_op c op).
Proof.
  destruct op as [t r|k f|from t|b]; cbn; [apply vote_to_steady|apply campaign_steady|apply timeout_now_steady|steady_same].
Qed.

(** ** Memory, snapshots and promotion *)

Lemma trigger_new_snapshot_steady id i : transits steady (trigger_new_snapshot_if_leader_snapshot_is_stale id i).
Proof.
  intros c. unfold trigger_new_snapshot_if_leader_snapshot_is_stale.
  destruct (rc_leader_id c); [|reflexivity]. cbn zeta. destruct (_ <=? _)%N; [reflexivity|].
  pose proof (pipeline_op_steady id cancel_snapshot_send_for_new_snapshot c) as H1.
  generalize dependent (pipeline_op id cancel_snapshot_send_for_new_snapshot c). intros [a c1] H1. cbn [snd] in *.
  destruct (bool_decide _); [|done]. etrans; [exact H1|]. apply (transits_drop steady). clear. intros c.
  unfold trigger_snapshot. destruct (require_running _ c); [|reflexivity]. destruct (rc_snapshot_trigger c); steady_same.
Qed.

Lemma compact_logs_steady i limit c : steady c (compact_logs_through_with_leader_limit i limit c).2.
Proof.
  unfold compact_logs_through_with_leader_limit. cbn [snd]. etrans; [|apply refresh_cluster_indexes_steady].
  apply steady_on_nodes.
Qed.

Lemma release_memory_steady : transits steady release_memory.
Proof.
  intros c. unfold release_memory. destruct (release_index c) as [[i limit]|]; [|reflexivity].
  destruct (_ <=? _)%N; [reflexivity|]. pose proof (compact_logs_steady (i - 1) limit c) as H.
  by destruct (compact_logs_through_with_leader_limit (i - 1) limit c).
Qed.

Lemma make_room_steady : transits steady make_room.
Proof.
  apply (transits_bind steady); [|intros _]; intros c; unfold with_state.
  - destruct (should_release_memory c); [|reflexivity]. apply (transits_drop steady), release_memory_steady.
  - destruct (is_busy c); [|reflexivity]. apply (transits_bind steady release_memory); [apply release_memory_steady|].
    intros [] c'; reflexivity.
Qed.

Lemma promote_peer_steady id : transits steady (promote_peer id).
Proof.
  intros c. unfold promote_peer. destruct (require_running _ c); [|reflexivity]. destruct (rc_nodes c !! id); [|reflexivity].
  destruct (negb _); [reflexivity|]. destruct (_ <? _)%N; [reflexivity|]. cbn [snd].
  etrans; [apply (steady_on_node id promoted)|]. steady_same.
Qed.

Lemma promote_caught_up_steady id : transits steady (promote_caught_up_auto_learner id).
Proof.
  intros c. unfold promote_caught_up_auto_learner. destruct (negb _); [reflexivity|].
  etrans; [apply (steady_on_node id (set_auto_promote_state Promoting))|].
  apply (transits_bind steady); [apply promote_peer_steady|intros _ c'; reflexivity].
Qed.

Lemma maybe_auto_promote_steady id : transits steady (maybe_auto_promote_zero_lag_learner id).
Proof.
  intros c. unfold maybe_auto_promote_zero_lag_learner. destruct (negb _); [reflexivity|].
  destruct (membership_change_fence_active c); [apply steady_on_node|apply promote_peer_steady].
Qed.

(** ** Catch-up and append responses *)

Lemma transfer_log_steady l id commit : transits steady (transfer_log l id commit).
Proof.
  intros c. unfold transfer_log, get_node. destruct (rc_nodes c !! l); [|reflexivity]. cbn [ok_or].
  destruct (rc_nodes c !! id) as [peer|] eqn:Hp; [|reflexivity]. destruct (adopt_leader_snapshot _ _) as [o peer1].
  set (c1 := c <| rc_nodes ::= <[id := peer1]> |>). assert (steady c c1) as H1 by (apply steady_insert; by eexists).
  assert (is_Some (rc_nodes c1 !! id)) as Hp1 by (exists peer1; apply lookup_insert_eq). clearbody c1.
  destruct (rc_nodes c1 !! l); [|done]. cbn [ok_or snd]. etrans; [exact H1|]. by apply steady_insert.
Qed.

Lemma catch_up_steady id reason : transits steady (catch_up_peer_with_reason id reason).
Proof.
  intros c. unfold catch_up_peer_with_reason. destruct (rc_leader_id c) as [l|]; [|reflexivity].
  apply (bind_step steady); [apply transfer_log_steady|intros o]. unfold settle_catch_up.
  apply (transits_bind steady); [intros c'; reflexivity|intros k].
  apply (transits_bind steady).
  { intros c'. unfold with_state, on_peer_pipeline. match goal with |- context [pipeline_op id ?op c'] =>
      pose proof (pipeline_op_steady id op c') as H; by destruct (pipeline_op id op c') end. }
  intros r. apply (transits_bind steady); [apply mark_peer_active_steady|intros _].
  apply (transits_bind steady); [intros c'; apply refresh_cluster_indexes_steady|intros _].
  apply (transits_bind steady); [|intros _ c'; reflexivity].
  destruct (default _ r); [|intros c'; reflexivity]. apply (transits_drop steady), promote_caught_up_steady.
Qed.

Lemma abort_leader_transfer_steady reason c : steady c (abort_leader_transfer reason c).2.
Proof. unfold abort_leader_transfer. destruct (active_leader_transfer c); [by apply steady_fields|reflexivity]. Qed.

Lemma step_to_higher_term_steady t reason c : (rc_current_term c < t)%N -> steady c (step_to_higher_term t reason c).
Proof.
  intros Ht. unfold step_to_higher_term. cbn zeta. set (c1 := invalidate_leader_lease _).
  assert (steady c c1) as H1 by (apply steady_later; [exact Ht|reflexivity..]). clearbody c1.
  etrans; [exact H1|]. etrans; [apply (abort_leader_transfer_steady reason)|]. apply steady_on_nodes.
Qed.

Lemma pipeline_response_steady id r x : transits steady (pipeline_response id r x).
Proof.
  intros c. unfold pipeline_response. cbn zeta.
  match goal with |- context [pipeline_op id ?op c] => pose proof (pipeline_op_steady id op c) as H1;
    destruct (pipeline_op id op c) as [[a|] c1]; [|exact H1] end.
  cbn [snd] in *. destruct x; [|done]. etrans; [exact H1|apply refresh_commit_index_steady].
Qed.

Lemma after_success_steady id r : transits steady (after_success id r).
Proof.
  unfold after_success. destruct (negb _); [intros c; reflexivity|].
  apply (transits_bind steady); [apply maybe_auto_promote_steady|intros _ c].
  unfold with_state. destruct (_ && _); [apply campaign_steady|reflexivity].
Qed.

Lemma record_response_lease_steady id r x y c : steady c (record_response_lease id r x y c).
Proof.
  unfold record_response_lease. destruct (_ && _ && _); [apply receive_confirmation_steady|].
  destruct (_ && _); [apply record_confirmation_steady|reflexivity].
Qed.

Lemma handle_response_steady l id r x y : transits steady (handle_append_entries_response_inner l id r x y).
Proof.
  intros c. unfold handle_append_entries_response_inner. cbn zeta. destruct (rc_nodes c !! l); [|reflexivity].
  destruct (if (rc_current_term c <? resp_term r)%N then peer_response_is_active id c else Ok true)
    as [[]|]; [|reflexivity..].
  destruct (N.ltb_spec (rc_current_term c) (resp_term r)) as [Hlt|].
  { pose proof (mark_peer_active_steady id c) as H1. pose proof (mark_peer_active_quiet id c) as Q1.
    unfold mbind, ST_bind, modify. destruct (mark_peer_active id c) as [[u|e] c1]; cbn [snd] in *; [|done].
    etrans; [exact H1|]. etrans; [apply (steady_on_node id (answering_peer_role l id))|].
    apply step_to_higher_term_steady. destruct Q1 as [[_ Ht] _]. cbn. lia. }
  apply (bind_step steady); [apply mark_peer_active_steady|intros _].
  apply (transits_bind steady); [intros c'; apply steady_on_node|intros _].
  apply (transits_bind steady); [intros c'; apply record_response_lease_steady|intros _].
  apply (transits_bind steady); [apply pipeline_response_steady|intros res].
  apply (transits_bind steady).
  { destruct (resp_require_snapshot r); [apply trigger_new_snapshot_steady|intros c'; reflexivity]. }
  intros _. apply (transits_bind steady); [intros c'; reflexivity|intros retry].
  apply (transits_bind steady); [destruct (rejected_by_pipeline r res); intros c'; reflexivity|intros _].
  apply (transits_bind steady); [|intros _; apply after_success_steady].
  destruct retry; [|intros c'; reflexivity]. apply (transits_drop steady), catch_up_steady.
Qed.

(** ** Proposals *)

Lemma offer_to_steady id e m n c : rc_nodes c !! id = Some n -> steady c (snd (offer_to id e m n c)).
Proof.
  intros Hn. unfold offer_to. match goal with |- context [pipeline_op id ?op c] =>
    pose proof (pipeline_op_steady id op c) as H1; pose proof (pipeline_op_nodes id op c) as Hns;
    destruct (pipeline_op id op c) as [[[u|x]|] c1] end; cbn [snd] in *; [|done..].
  destruct (nd_healthy n); [|done]. destruct (offer_entry e m n) as [r n']. cbn [snd]. etrans; [exact H1|].
  apply steady_insert. rewrite Hns, Hn. by eexists.
Qed.

Lemma replicate_entry_steady l e m b ids : transits steady (replicate_entry l e m b ids).
Proof.
  induction ids as [|id ids IH]; intros c; [reflexivity|]. cbn [replicate_entry]. cbn zeta.
  destruct (rc_nodes c !! id) as [n|] eqn:Hn; [|apply IH]. destruct (_ =? _)%N; [etrans; [apply (steady_on_node id)|apply IH]|].
  apply (bind_step steady); [by apply offer_to_steady|intros r].
  apply (transits_bind steady); [|intros _; apply IH]. destruct r as [r|]; [|intros c'; reflexivity].
  apply (transits_bind steady); [destruct (_ && _); intros c'; [apply record_confirmation_steady|reflexivity]|].
  intros _ c'. apply handle_response_steady.
Qed.

Lemma spread_proposal_steady l e m : transits steady (spread_proposal l e m).
Proof.
  intros c. unfold spread_proposal. pose proof (begin_renewal_steady c) as H1.
  destruct (begin_leader_lease_renewal c) as [b c1]. cbn [snd] in H1. etrans; [exact H1|]. cbn zeta.
  set (c2 := if b then _ else c1).
  assert (steady c1 c2) as H2 by (subst c2; destruct b; [apply record_confirmation_steady|reflexivity]). clearbody c2.
  etrans; [exact H2|]. apply (bind_step steady); [apply replicate_entry_steady|intros _].
  apply (transits_bind steady); [intros c'; apply refresh_commit_index_steady|intros _ c'].
  destruct b; [|reflexivity]. unfold finish_leader_lease_renewal, modify. cbn [snd]. steady_same.
Qed.

Lemma propose_steady payload options : transits steady (propose_with_options payload options).
Proof.
  intros c. unfold propose_with_options. destruct (admit_proposal payload options c) as [[l leader]|]; [|reflexivity].
  apply (bind_step steady); [apply make_room_steady|intros _ c']. unfold append_proposal.
  destruct (next_log_index c') as [i|]; [|reflexivity]. cbn zeta. set (m := po_is_membership_change options && _). clearbody m.
  etrans; [apply (steady_fields c' (register_proposal i m c')); unfold register_proposal; by destruct m|].
  apply (bind_step steady); [apply spread_proposal_steady|intros _ c2; reflexivity].
Qed.

(** ** Heartbeats *)

Lemma adopt_append_leader_steady request c :
  aer_term request = rc_current_term c -> steady c (adopt_append_leader request c).
Proof.
  intros Ht. unfold adopt_append_leader. destruct (_ && _); [|reflexivity]. rewrite Ht, N.ltb_irrefl. cbn zeta.
  etrans; [|apply steady_on_nodes]. set (c1 := clear_reorder_queues _). assert (steady c c1) as H1 by steady_same.
  clearbody c1. etrans; [exact H1|]. etrans; [apply (settle_leader_transfer_steady (aer_leader_id request))|]. steady_same.
Qed.

Lemma renew_append_lease_steady t r c : steady c (snd (renew_append_lease t r c)).
Proof.
  unfold renew_append_lease, renew_follower_lease_from_append_entries, renew_follower_lease,
    receive_follower_lease_item. destruct (_ && _); [|reflexivity]. cbn [snd]. cbn zeta.
  destruct (0 <? _)%N; destruct (_ <=? _)%N; steady_same.
Qed.

(** The heartbeat a leader sends in the group's own term. *)
Lemma send_heartbeat_steady l id : transits steady (send_heartbeat l id).
Proof.
  intros c. unfold send_heartbeat. set (request := heartbeat_request l id c).
  assert (aer_term request = rc_current_term c) as Ht by done. assert (aer_prev_log_id request = None) as Hp by done.
  assert (aer_entries request = []) as He by done. clearbody request.
  unfold append_entries_to, append_entries_with_membership_change_indexes_to, append_with, receive_append.
  cbn zeta. destruct (negb (_ =? _)%N); [reflexivity|].
  destruct (negb (append_leader_eligible request c)); [destruct (rc_nodes c !! id); reflexivity|].
  rewrite Ht, N.ltb_irrefl. pose proof (adopt_append_leader_steady request c Ht) as H1.
  generalize dependent (adopt_append_leader request c). intros c1 H1.
  pose proof (renew_append_lease_steady id request c1) as H2.
  destruct (renew_append_lease id request c1) as [lease c2]. cbn [snd] in H2.
  assert (steady c c2) as H3 by (by etrans). destruct (rc_nodes c2 !! id) as [n|] eqn:Hn; [|done].
  destruct (_ <? _)%N; [done|]. unfold put_node. set (n3 := raise_node_term request n). set (c3 := c2 <| rc_nodes ::= _ |>).
  assert (steady c2 c3) as H4 by (apply steady_insert; by eexists).
  assert (is_Some (rc_nodes c3 !! id)) as Hn3 by (exists n3; apply lookup_insert_eq). clearbody c3 n3.
  unfold append_to_node. cbn zeta. rewrite !bool_decide_eq_true_2 by done. cbn [andb].
  etrans; [exact H3|]. etrans; [exact H4|].
  destruct (match rc_peer_pipelines c3 !! id with Some _ => _ | None => _ end); [reflexivity|]. cbn [snd returns].
  etrans; [|apply refresh_cluster_indexes_steady]. by apply steady_insert.
Qed.

Lemma heartbeat_peers_steady l ids sent : transits steady (heartbeat_peers l ids sent).
Proof.
  revert sent. induction ids as [|id ids IH]; intros sent c; [reflexivity|]. cbn [heartbeat_peers].
  destruct (skips_heartbeat id c); [apply IH|].
  apply (bind_step steady); [apply send_heartbeat_steady|intros r].
  apply (transits_bind steady); [apply handle_response_steady|intros _].
  apply (transits_bind steady); [intros c'; steady_same|intros _].
  apply (transits_bind steady); [intros c'; reflexivity|intros probe].
  apply (transits_bind steady); [|intros _; apply IH].
  destruct probe; [|intros c'; reflexivity]. apply (transits_drop steady), catch_up_steady.
Qed.

Lemma broadcast_heartbeat_steady : transits steady broadcast_heartbeat.
Proof.
  intros c. unfold broadcast_heartbeat. destruct (rc_leader_id c) as [l|]; [|reflexivity]. destruct (negb _); [reflexivity|].
  apply (bind_step steady); [apply mark_peer_active_steady|intros _].
  apply (transits_bind steady); [intros c'; reflexivity|intros []; [intros c'; reflexivity|]].
  apply (transits_bind steady); [intros c'; reflexivity|intros ids].
  apply (transits_bind steady); [apply heartbeat_peers_steady|intros sent].
  apply (transits_bind steady); [|intros _ c'; reflexivity].
  destruct (0 <? sent)%N; intros c'; [|reflexivity]. unfold refresh_aggregates, modify. cbn [snd]. cbn zeta.
  etrans; [apply refresh_commit_index_steady|]. steady_same.
Qed.
