(* ===== verification/Votes.v ===== *)
(** * The candidate's side of an election

    Models how a candidate of [RaftCluster] counts the answers to its pre-vote
    and vote requests ([src/facade/cluster_runtime.rs]):
    [handle_vote_response_inner] with [record_vote_response],
    [start_vote_after_pre_vote_quorum] and [become_leader_current_term], which
    takes office in the term the votes were cast in and proposes a no-op.

    The theorems: without a quorum of recorded grants nobody takes office; in a run of
    votes, campaigns and answers to one candidate, two quorums of votes in one term are
    for the same candidate as long as the answers counted are answers of that term and
    run; terms and cursors never go back. Concrete runs show grants of an earlier term
    being counted, what that does to election safety, and a vote started in a term
    that was already used. *)

From stdpp Require Import base strings pretty numbers sorting gmap fin_maps sets list.
From S2P Require Import Prelude Types Slice Membership Node Config Pipeline Cluster Election Append GroupInv Replication ReplicationSafety Steady.

(** Why a node cannot stand, if it cannot; the two callers name the office. *)
Definition office_refusal (candidate_id : NodeId) (office : string) (c : RaftCluster) : option RaftError :=
  match rc_nodes c !! candidate_id with
  | None => Some (NodeNotFound candidate_id)
  | Some candidate =>
      if negb (can_be_leader (nd_replica_role candidate)) then
        Some (InvalidRequest ("node " ++s pretty candidate_id ++s " cannot become " ++s office))
      else if negb (nd_healthy candidate) then
        Some (InvalidRequest ("node " ++s pretty candidate_id ++s " is not healthy"))
      else None
  end.

(** What both offices clear. *)
Definition enter_office (candidate_id : NodeId) (office : StateRole) (c : RaftCluster) : RaftCluster :=
  let c := clear_election_responses c in
  let c := clear_reorder_queues c in
  let c := reset_leader_lease_epoch c in
  let c := invalidate_follower_lease c in
  record_election candidate_id office c.

(** The state change of a candidate that takes office in the current term, up to
    the no-op. *)
Definition lead_current_term (candidate_id : NodeId) (c : RaftCluster) : RaftCluster :=
  let c := c <| rc_leader_id := Some candidate_id |>
             <| rc_last_index_before_current_term := rc_last_log_index c |> in
  reset_replication_pipelines_for_leader candidate_id (enter_office candidate_id Leader c).

Definition become_leader_current_term (candidate_id : NodeId) : Cluster unit := fun c =>
  match office_refusal candidate_id "leader" c with
  | Some e => (Err e, c)
  | None =>
      let c := lead_current_term candidate_id c in
      if rc_running c && (0 <? rc_last_index_before_current_term c)%N
      then (_ ← propose noop_payload; mret tt) c
      else (Ok tt, c)
  end.

(** The state change of a candidate that starts a vote in the next term. *)
Definition stand_in_next_term (candidate_id : NodeId) (c : RaftCluster) : RaftCluster :=
  let c := c <| rc_current_term ::= (fun t => t +s 1) |>
             <| rc_leader_id := None |>
             <| rc_last_index_before_current_term := rc_last_log_index c |> in
  enter_office candidate_id Candidate c.

Definition start_vote_after_pre_vote_quorum (candidate_id : NodeId) : Cluster unit := fun c =>
  match office_refusal candidate_id "candidate" c with
  | Some e => (Err e, c)
  | None =>
      let c := stand_in_next_term candidate_id c in
      (Ok tt, c <| rc_vote_responses ::= <[candidate_id := true]> |>)
  end.

(** [entry(local).or_insert(true)] and [insert(peer, granted)]. *)
Definition note_response (local_node_id peer_id : NodeId) (granted : bool) (votes : gmap N bool) : gmap N bool :=
  let votes := match votes !! local_node_id with
               | Some _ => votes
               | None => <[local_node_id := true]> votes
               end in
  <[peer_id := granted]> votes.

Definition count_response (local_node_id peer_id : NodeId) (granted pre_vote : bool) (c : RaftCluster) : RaftCluster :=
  let c := discard_election_responses_from_an_earlier_term c in
  if pre_vote
  then c <| rc_pre_vote_responses ::= note_response local_node_id peer_id granted |>
  else c <| rc_vote_responses ::= note_response local_node_id peer_id granted |>.

Definition responses (pre_vote : bool) (c : RaftCluster) : gmap N bool :=
  if pre_vote then rc_pre_vote_responses c else rc_vote_responses c.

(** The ids that granted, in key order, and the number of refusals. *)
Definition granted_ids (votes : gmap N bool) : list NodeId :=
  (filter (fun entry : N * bool => entry.2 = true) (bt_entries votes)).*1.
Definition rejections (votes : gmap N bool) : nat :=
  length (filter (fun granted => granted = false) (bt_values votes)).

Definition grant_quorum (votes : gmap N bool) (c : RaftCluster) : bool :=
  quorum_reached_with_witness_policy (membership c) (granted_ids votes) (rc_ignore_witness c).

(** So many refusals that the rest cannot make a quorum. *)
Definition election_lost (votes : gmap N bool) (c : RaftCluster) : bool :=
  let membership := membership c in
  let participants := (length (m_voters membership) + length (m_witnesses membership))%nat in
  (participants - quorum_size_with_witness_policy membership (rc_ignore_witness c) <? rejections votes)%nat.

Definition give_up_election (local_node_id : NodeId) (c : RaftCluster) : RaftCluster :=
  let c := c <| rc_leader_id := None |> in
  let c := invalidate_follower_lease c in
  let c := invalidate_leader_lease c in
  let c := clear_election_responses c in
  on_node local_node_id (fun node => node <| nd_raft_role := Follower |>) c.

Definition record_vote_response (local_node_id peer_id : NodeId) (granted pre_vote : bool)
    : Cluster unit := fun c =>
  match rc_nodes c !! peer_id with
  | None => (Err (NodeNotFound peer_id), c)
  | Some peer =>
      if negb (participates_in_quorum (nd_replica_role peer))
         || (rc_ignore_witness c && bool_decide (nd_replica_role peer = Witness))
      then (Ok tt, c)
      else
        let c := count_response local_node_id peer_id granted pre_vote c in
        let votes := responses pre_vote c in
        if grant_quorum votes c then
          if pre_vote then start_vote_after_pre_vote_quorum local_node_id c
          else become_leader_current_term local_node_id c
        else if election_lost votes c then (Ok tt, give_up_election local_node_id c)
        else (Ok tt, c)
  end.

(** The answer of a node in a later term ends the candidacy. *)
Definition follow_higher_term (term : Term) (c : RaftCluster) : RaftCluster :=
  let c := c <| rc_current_term := term |> <| rc_leader_id := None |> in
  let c := clear_reorder_queues c in
  let c := invalidate_follower_lease c in
  let c := invalidate_leader_lease c in
  let c := clear_election_responses c in
  on_nodes (fun node =>
    node <| nd_hard_state ::= (fun h => h <| hs_current_term := term |> <| hs_voted_for := None |>) |>
         <| nd_raft_role := passive_role node |>) c.

Definition handle_vote_response_inner (local_node_id : NodeId) (peer_id : option NodeId)
    (response : VoteResponse) (pre_vote : bool) : Cluster unit := fun c =>
  match rc_nodes c !! local_node_id with
  | None => (Err (NodeNotFound local_node_id), c)
  | Some _ =>
      let record granted :=
        match peer_id with
        | Some peer_id => record_vote_response local_node_id peer_id granted pre_vote c
        | None => (Ok tt, c)
        end in
      if (vresp_term response <=? rc_current_term c)%N then record (vresp_vote_granted response)
      else
        match (match peer_id with Some peer_id => peer_response_is_active peer_id c | None => Ok true end) with
        | Err e => (Err e, c)
        | Ok false => (Ok tt, c)
        | Ok true =>
            if pre_vote && vresp_vote_granted response then record true
            else (Ok tt, follow_higher_term (vresp_term response) c)
        end
  end.

Definition handle_vote_response (local_node_id : NodeId) (response : VoteResponse) (pre_vote : bool)
    : Cluster unit := handle_vote_response_inner local_node_id None response pre_vote.

Definition handle_vote_response_from (local_node_id peer_id : NodeId) (response : VoteResponse)
    (pre_vote : bool) : Cluster unit := handle_vote_response_inner local_node_id (Some peer_id) response pre_vote.

(** ** Terms and cursors *)

(** What every operation of the group keeps: no node is in a later term than the
    group, terms and cursors do not go back, no node leaves. *)
Definition ahead (c c' : RaftCluster) : Prop :=
  (terms_bounded c ->
   terms_bounded c' /\ (rc_current_term c <= rc_current_term c')%N
   /\ forall k b, ballots c !! k = Some b -> exists b', ballots c' !! k = Some b' /\ (b.1 <= b'.1)%N)
  /\ forall k n, rc_nodes c !! k = Some n -> exists n', rc_nodes c' !! k = Some n' /\ cursors_le n n'.

#[export] Instance ahead_preorder : PreOrder ahead.
Proof.
  split.
  - intros c. split; [intros Hc; split_and!; [done|lia|]; intros k b Hb; exists b; split; [done|lia]|].
    intros k n Hn. by exists n.
  - intros a b c [A1 A2] [B1 B2]. split.
    + intros Ha. destruct (A1 Ha) as (Hb & T1 & S1). destruct (B1 Hb) as (Hc & T2 & S2). split_and!; [done|lia|].
      intros k x Hx. destruct (S1 k x Hx) as (y & Hy & Hxy). destruct (S2 k y Hy) as (z & Hz & Hyz).
      exists z. split; [done|lia].
    + intros k n Hn. destruct (A2 k n Hn) as (n1 & H1 & P1). destruct (B2 k n1 H1) as (n2 & H2 & P2).
      exists n2. split; [done|by etrans].
Qed.

Lemma forward_ahead c c' : forward c c' -> ahead c c'.
Proof.
  intros [Hv Hn]. split; [|done]. intros Hc. destruct (Hv Hc) as (H1 & H2 & H3). split_and!; [done|done|].
  intros k b Hb. destruct (H3 k b Hb) as (b' & Hb' & [Hs|[Hs _]]); exists b'; (split; [done|lia]).
Qed.

Lemma sound_ahead c c' : sound c c' -> ahead c c'.
Proof. intros. by apply forward_ahead, sound_forward. Qed.

(** Every node moves to the group's term [t] with the same vote. *)
Lemma ahead_new_ballots v t c c' :
  (rc_current_term c <= t)%N -> rc_current_term c' = t -> ballots c' = (fun _ => (t, v)) <$> ballots c ->
  advances c c' -> ahead c c'.
Proof.
  intros Ht Ht' Hb [_ Ha]. split; [|done]. intros Hc. rewrite Ht'. split_and!; [|done|].
  - intros k b. rewrite Hb, Ht', lookup_fmap. intros (x & _ & ->)%fmap_Some. cbn. lia.
  - intros k b Hk. rewrite Hb, lookup_fmap, Hk. eexists. split; [done|]. specialize (Hc k b Hk). cbn in *. lia.
Qed.

(** Both offices: the ballots are the candidate's, in the group's term. *)
Lemma record_election_spec k office c c1 :
  rc_nodes c1 = rc_nodes c -> rc_current_term c1 = rc_current_term c -> fence c1 = fence c ->
  rc_leader_id c1 = rc_leader_id c ->
  ballots (record_election k office c1) = (fun _ => (rc_current_term c, Some k)) <$> ballots c
  /\ rc_current_term (record_election k office c1) = rc_current_term c
  /\ advances c (record_election k office c1) /\ rc_leader_id (record_election k office c1) = rc_leader_id c.
Proof.
  intros Hn Ht Hf Hl. rewrite record_election_ballots. unfold ballots. rewrite Hn, Ht.
  split_and!; [done|exact Ht| |exact Hl]. split; [exact Hf|].
  intros k0 n Hk. eexists. cbn. rewrite lookup_fmap, Hn, Hk. split; [reflexivity|]. unfold cursors_le. cbn. lia.
Qed.

Lemma enter_office_spec k office c :
  ballots (enter_office k office c) = (fun _ => (rc_current_term c, Some k)) <$> ballots c
  /\ rc_current_term (enter_office k office c) = rc_current_term c
  /\ advances c (enter_office k office c) /\ rc_leader_id (enter_office k office c) = rc_leader_id c.
Proof. apply record_election_spec; reflexivity. Qed.

Lemma enter_office_ahead k office c c1 :
  rc_nodes c1 = rc_nodes c -> fence c1 = fence c -> (rc_current_term c <= rc_current_term c1)%N ->
  ahead c (enter_office k office c1).
Proof.
  intros Hn Hf Hle. destruct (enter_office_spec k office c1) as (Hb & Ht & Hadv & _).
  apply (ahead_new_ballots (Some k) (rc_current_term c1)); [done|done| |].
  - rewrite Hb. unfold ballots. by rewrite Hn.
  - etrans; [|exact Hadv]. by apply advances_nodes.
Qed.

Lemma lead_current_term_ahead k c : ahead c (lead_current_term k c).
Proof.
  unfold lead_current_term. etrans; [|apply sound_ahead, quiet_sound, reset_pipelines_quiet].
  apply enter_office_ahead; [reflexivity|reflexivity|cbn; lia].
Qed.

Lemma become_leader_ahead k : transits ahead (become_leader_current_term k).
Proof.
  intros c. unfold become_leader_current_term. destruct (office_refusal k _ c); [reflexivity|].
  etrans; [apply (lead_current_term_ahead k)|]. generalize (lead_current_term k c). intros c2.
  destruct (_ && _); [|reflexivity]. apply (transits_drop ahead). intros c'. apply forward_ahead, propose_forward.
Qed.

(** The term of a new vote saturates, so this needs a term in range. *)
Lemma stand_in_next_term_ahead k c : u64 (rc_current_term c) -> ahead c (stand_in_next_term k c).
Proof.
  intros Hu. apply enter_office_ahead; [reflexivity|reflexivity|]. cbn. by apply saturating_add_ge.
Qed.

Lemma start_vote_ahead k c :
  u64 (rc_current_term c) -> ahead c (snd (start_vote_after_pre_vote_quorum k c)).
Proof.
  intros Hu. unfold start_vote_after_pre_vote_quorum. destruct (office_refusal k _ c); [reflexivity|]. cbn [snd].
  etrans; [apply (stand_in_next_term_ahead k c Hu)|]. generalize (stand_in_next_term k c). intros c2.
  apply sound_ahead, quiet_sound. quiet_fields.
Qed.

Lemma count_response_quiet l p g pre c : quiet c (count_response l p g pre c).
Proof.
  unfold count_response. cbn zeta. set (c1 := discard_election_responses_from_an_earlier_term c).
  assert (quiet c c1) as H1 by (subst c1; unfold discard_election_responses_from_an_earlier_term;
    destruct (_ =? _)%N; [reflexivity|quiet_fields]). clearbody c1.
  etrans; [exact H1|]. destruct pre; quiet_fields.
Qed.

Lemma give_up_election_quiet l c : quiet c (give_up_election l c).
Proof.
  unfold give_up_election. cbn zeta. etrans; [|by apply quiet_on_node_same].
  apply quiet_frame; [done|done|done|done|by right].
Qed.

Lemma record_vote_response_ahead l p g pre c :
  u64 (rc_current_term c) -> ahead c (snd (record_vote_response l p g pre c)).
Proof.
  intros Hu. unfold record_vote_response. destruct (rc_nodes c !! p); [|reflexivity]. destruct (_ || _); [reflexivity|].
  cbn zeta. pose proof (count_response_quiet l p g pre c) as H1.
  generalize dependent (count_response l p g pre c). intros c1 H1.
  etrans; [apply sound_ahead, quiet_sound, H1|]. destruct (grant_quorum _ c1).
  - destruct pre; [apply start_vote_ahead; by rewrite (proj2 (proj1 H1))|apply become_leader_ahead].
  - destruct (election_lost _ c1); [|reflexivity]. apply sound_ahead, quiet_sound, give_up_election_quiet.
Qed.

Lemma reset_ballots_ahead t c c1 :
  (rc_current_term c <= t)%N -> rc_nodes c1 = rc_nodes c -> rc_current_term c1 = t -> fence c1 = fence c ->
  ahead c (on_nodes (fun node =>
    node <| nd_hard_state ::= (fun h => h <| hs_current_term := t |> <| hs_voted_for := None |>) |>
         <| nd_raft_role := passive_role node |>) c1).
Proof.
  intros Ht Hn Ht1 Hf. apply (ahead_new_ballots None t); [done|done| |].
  - rewrite (ballots_on_nodes _ (fun _ => (t, None))) by done. unfold ballots. by rewrite Hn.
  - split; [done|]. intros k n Hk. eexists. cbn. rewrite lookup_fmap, Hn, Hk.
    split; [reflexivity|]. unfold cursors_le. cbn. lia.
Qed.

Lemma follow_higher_term_ahead t c : (rc_current_term c <= t)%N -> ahead c (follow_higher_term t c).
Proof. intros Ht. apply reset_ballots_ahead; [done|reflexivity..]. Qed.

Lemma handle_vote_response_ahead l p r pre c :
  u64 (rc_current_term c) -> ahead c (snd (handle_vote_response_inner l p r pre c)).
Proof.
  intros Hu. unfold handle_vote_response_inner. destruct (rc_nodes c !! l); [|reflexivity]. cbn zeta.
  assert (forall g, ahead c (snd (match p with Some p => record_vote_response l p g pre c | None => (Ok tt, c) end))) as Hr
    by (intros g; destruct p; [by apply record_vote_response_ahead|reflexivity]).
  destruct (N.leb_spec (vresp_term r) (rc_current_term c)); [apply Hr|].
  destruct (match p with Some p => peer_response_is_active p c | None => Ok true end) as [[]|]; [|reflexivity..].
  destruct (_ && _); [apply Hr|]. apply follow_higher_term_ahead. lia.
Qed.

(** ** Office needs a quorum of grants *)

(** The answers the candidate holds once this one is counted: those of the
    current term with this one in place. *)
Definition counted_responses (l p : NodeId) (granted : bool) (c : RaftCluster) : gmap N bool :=
  note_response l p granted
    (if (rc_election_responses_term c =? rc_current_term c)%N then rc_vote_responses c else ∅).

Lemma count_response_spec l p g c :
  let c1 := count_response l p g false c in
  rc_vote_responses c1 = counted_responses l p g c /\ rc_nodes c1 = rc_nodes c
  /\ membership c1 = membership c /\ rc_ignore_witness c1 = rc_ignore_witness c /\ rc_leader_id c1 = rc_leader_id c.
Proof.
  cbn zeta. unfold count_response, counted_responses, discard_election_responses_from_an_earlier_term.
  destruct (_ =? _)%N; done.
Qed.

Lemma count_response_leader l p g pre c : rc_leader_id (count_response l p g pre c) = rc_leader_id c.
Proof.
  unfold count_response, discard_election_responses_from_an_earlier_term.
  by destruct pre, (_ =? _)%N.
Qed.

Lemma stand_in_next_term_leader k c : rc_leader_id (stand_in_next_term k c) = None.
Proof. reflexivity. Qed.

Lemma record_vote_response_office l p g pre c r c' x :
  record_vote_response l p g pre c = (r, c') -> rc_leader_id c' = Some x -> rc_leader_id c <> Some x ->
  pre = false /\ office_refusal l "leader" c = None
  /\ quorum_reached_with_witness_policy (membership c) (granted_ids (counted_responses l p g c)) (rc_ignore_witness c)
     = true.
Proof.
  unfold record_vote_response. destruct (rc_nodes c !! p); [|by intros [= _ <-]].
  destruct (_ || _); [by intros [= _ <-]|]. pose proof (count_response_leader l p g pre c) as Hl.
  destruct (grant_quorum _ _) eqn:Hq.
  - destruct pre.
    + generalize dependent (count_response l p g true c). intros c1 Hl _. unfold start_vote_after_pre_vote_quorum.
      destruct (office_refusal _ _ _); intros [= _ <-] Hx Hn; [congruence|].
      change (rc_leader_id (stand_in_next_term l c1) = Some x) in Hx. by rewrite stand_in_next_term_leader in Hx.
    + destruct (count_response_spec l p g c) as (H1 & H2 & H3 & H4 & _). unfold grant_quorum, responses in Hq.
      rewrite H1, H3, H4 in Hq. unfold become_leader_current_term.
      assert (office_refusal l "leader" (count_response l p g false c) = office_refusal l "leader" c) as ->
        by (unfold office_refusal; by rewrite H2).
      destruct (office_refusal l "leader" c); [|done].
      generalize dependent (count_response l p g false c). intros c1. intros. simplify_eq. congruence.
  - generalize dependent (count_response l p g pre c). intros c1 Hl _.
    destruct (election_lost _ _); intros [= _ <-] Hx Hn; [done|congruence].
Qed.

(** C7: nobody takes office without a quorum of grants. When the answer of a peer
    makes the group follow a leader it did not follow, the candidate that
    received it is a healthy voter, the answer was to a vote and not a pre-vote
    and not of a later term, and the answers it holds in this term, its own and
    this one included, are a quorum of the membership under the witness policy. *)
Theorem office_needs_grant_quorum l p resp pre c r c' x :
  handle_vote_response_from l p resp pre c = (r, c') ->
  rc_leader_id c' = Some x -> rc_leader_id c <> Some x ->
  pre = false /\ (vresp_term resp <= rc_current_term c)%N
  /\ (exists n, rc_nodes c !! l = Some n /\ nd_replica_role n = Voter /\ nd_healthy n = true)
  /\ quorum_reached_with_witness_policy (membership c)
       (granted_ids (counted_responses l p (vresp_vote_granted resp) c)) (rc_ignore_witness c) = true.
Proof.
  unfold handle_vote_response_from, handle_vote_response_inner.
  destruct (rc_nodes c !! l) as [n|] eqn:Hn; [|intros [= _ <-]; congruence].
  destruct (N.leb_spec (vresp_term resp) (rc_current_term c)) as [Hle|].
  - intros Hrec Hx Hne. destruct (record_vote_response_office _ _ _ _ _ _ _ _ Hrec Hx Hne) as (Hp & Ho & Hq).
    split_and!; [done|done| |done]. exists n. split; [done|]. unfold office_refusal in Ho. rewrite Hn in Ho.
    destruct (nd_replica_role n), (nd_healthy n); done.
  - destruct (peer_response_is_active p c) as [[]|]; [|intros [= _ <-]; congruence..].
    destruct (pre && vresp_vote_granted resp) eqn:Hpg.
    + intros Hrec Hx Hne. destruct (record_vote_response_office _ _ _ _ _ _ _ _ Hrec Hx Hne) as (Hp & _). by subst pre.
    + intros [= _ <-]. done.
Qed.

(** Node 1 of [sample_group] stood in term 1 and node 2 grants its vote. *)
Definition standing : RaftCluster := snd (start_vote_after_pre_vote_quorum 1 sample_group).

Lemma office_needs_grant_quorum_witness :
  let '(r, c') := handle_vote_response_from 1 2 (mkVoteResponse 1 true "vote_granted") false
                    (snd (handle_vote_response_from 1 3 (mkVoteResponse 1 true "vote_granted") false standing)) in
  rc_leader_id c' = Some 1%N.
Proof.
  set (c := snd (handle_vote_response_from 1 3 (mkVoteResponse 1 true "vote_granted") false standing)).
  destruct (handle_vote_response_from 1 2 (mkVoteResponse 1 true "vote_granted") false c) as [r c'] eqn:H.
  assert (rc_leader_id c' = Some 1%N) as Hl.
  { replace c' with (snd (handle_vote_response_from 1 2 (mkVoteResponse 1 true "vote_granted") false c)) by (by rewrite H).
    vm_compute. reflexivity. }
  assert (rc_leader_id c <> Some 1%N) as Hn by (vm_compute; discriminate).
  destruct (office_needs_grant_quorum 1 2 _ false c r c' 1 H Hl Hn) as (_ & _ & _ & _). exact Hl.
Defined.

(** ** Election safety *)

(** Who is in the group, in which role. *)
Definition role_map (c : RaftCluster) : gmap N (NodeId * ReplicaRole) :=
  (fun n => (nd_id n, nd_replica_role n)) <$> rc_nodes c.

Definition same_roles (c c' : RaftCluster) : Prop := role_map c' = role_map c.

#[export] Instance same_roles_preorder : PreOrder same_roles.
Proof. unfold same_roles. split; [done|]. intros a b c -> ->. done. Qed.

Lemma same_roles_nodes c c' : rc_nodes c' = rc_nodes c -> same_roles c c'.
Proof. intros H. unfold same_roles, role_map. by rewrite H. Qed.

Lemma same_roles_on_nodes f c :
  (forall n, nd_id (f n) = nd_id n /\ nd_replica_role (f n) = nd_replica_role n) -> same_roles c (on_nodes f c).
Proof.
  intros Hf. unfold same_roles, role_map. cbn. rewrite <- map_fmap_compose. apply map_fmap_ext.
  intros k n _. cbn. destruct (Hf n) as [-> ->]. done.
Qed.

Lemma same_roles_on_node id f c :
  (forall n, nd_id (f n) = nd_id n /\ nd_replica_role (f n) = nd_replica_role n) -> same_roles c (on_node id f c).
Proof.
  intros Hf. unfold same_roles, role_map. cbn. apply map_eq. intros k. rewrite !lookup_fmap, lookup_alter.
  case_decide; [subst|done]. destruct (rc_nodes c !! k) as [n|]; [|done]. cbn. destruct (Hf n) as [-> ->]. done.
Qed.

Lemma advance_commit_roles i n :
  nd_id (advance_commit i n) = nd_id n /\ nd_replica_role (advance_commit i n) = nd_replica_role n.
Proof. by destruct (advance_commit_fields i n) as (? & _ & ? & _). Qed.

Lemma append_entry_roles e n :
  nd_id (append_entry e n) = nd_id n /\ nd_replica_role (append_entry e n) = nd_replica_role n.
Proof. by rewrite (append_entry_cursors e n). Qed.

Lemma append_noop_roles l e n :
  nd_id (append_noop l e n) = nd_id n /\ nd_replica_role (append_noop l e n) = nd_replica_role n.
Proof.
  unfold append_noop, append_witness_entry. repeat (case_match; try apply append_entry_roles; try done).
  destruct (append_entry_roles (mkLogEntry (log_id e) [] false) (acknowledge_witness_index (entry_index e) n)) as [-> ->].
  unfold acknowledge_witness_index. by case_match.
Qed.

Lemma refresh_commit_index_roles c : same_roles c (refresh_commit_index c).
Proof.
  unfold same_roles, role_map. destruct (refresh_commit_index_cases c) as [->|(i & l & n & _ & _ & _ & _ & ->)]; [done|].
  rewrite <- map_fmap_compose. apply map_fmap_ext. intros k m _. cbn. destruct (nd_healthy m); [|done].
  by destruct (advance_commit_roles (N.max (rc_commit_index c) i) m) as [-> ->].
Qed.

Lemma refresh_policy_roles c : same_roles c (refresh_witness_commit_quorum_policy c).2.
Proof.
  unfold refresh_witness_commit_quorum_policy. cbn [snd]. destruct (negb _); [|by apply same_roles_nodes].
  set (c1 := c <| rc_count_witness_in_commit_quorum := _ |>). etrans; [by apply (same_roles_nodes c c1)|]. clearbody c1.
  apply refresh_commit_index_roles.
Qed.

Lemma reset_pipelines_roles l c : same_roles c (reset_replication_pipelines_for_leader l c).
Proof.
  unfold reset_replication_pipelines_for_leader. apply (foldl_keeps same_roles). intros c' x. by apply same_roles_nodes.
Qed.

Lemma settle_leader_transfer_roles k c : same_roles c (settle_leader_transfer k c).
Proof.
  apply same_roles_nodes. unfold settle_leader_transfer, complete_leader_transfer, abort_leader_transfer.
  destruct (active_leader_transfer _); [|done]. by destruct (_ =? _)%N.
Qed.

Lemma record_election_roles k office c : same_roles c (record_election k office c).
Proof. apply same_roles_on_nodes. intros m. by split. Qed.

Lemma take_office_roles k t c : same_roles c (take_office k t c).
Proof.
  unfold take_office. cbn zeta.
  etrans; [|apply reset_pipelines_roles]. etrans; [|apply refresh_policy_roles].
  etrans; [|apply record_election_roles].
  set (c1 := clear_reorder_queues _). etrans; [by apply (same_roles_nodes c c1)|]. clearbody c1.
  etrans; [apply (settle_leader_transfer_roles k)|]. generalize (settle_leader_transfer k c1). intros c2.
  by apply same_roles_nodes.
Qed.

Lemma campaign_roles k forced : transits same_roles (campaign k forced).
Proof.
  intros c. unfold campaign. destruct (campaign_refusal k forced c); [reflexivity|].
  destruct (already_leading k c); [reflexivity|]. destruct (checked_add _ 1) as [t|]; [|reflexivity]. cbn zeta.
  etrans; [apply (take_office_roles k t)|]. destruct (rc_running c); [|reflexivity].
  generalize (take_office k t c). intros c'. apply (transits_drop same_roles). clear. intros c.
  unfold broadcast_leader_noop. destruct (rc_leader_id c); [|reflexivity]. destruct (next_log_index c); [|reflexivity].
  cbn [snd]. cbn zeta. etrans; [|by apply same_roles_nodes].
  etrans; [|apply same_roles_on_nodes; intros m; apply append_noop_roles]. by apply same_roles_nodes.
Qed.

Lemma cast_vote_roles t k hard reset c : same_roles c (cast_vote t k hard reset c).
Proof.
  unfold cast_vote. cbn zeta. set (c1 := on_node _ _ c).
  assert (same_roles c c1) as H1 by (by apply same_roles_on_node). clearbody c1. etrans; [exact H1|].
  destruct reset; by apply same_roles_nodes.
Qed.

Lemma vote_to_roles t r : transits same_roles (vote_to t r).
Proof.
  intros c. unfold vote_to. cbn zeta. destruct (negb _); [reflexivity|]. destruct (rc_nodes c !! t); [|reflexivity].
  destruct (negb _); [reflexivity|]. set (c1 := observe_vote_request_candidate _ _ _ _).
  assert (same_roles c c1) as H1.
  { subst c1. unfold observe_vote_request_candidate. destruct (negb _); [reflexivity|].
    apply same_roles_on_node. intros m. by destruct (can_be_leader _). }
  clearbody c1. etrans; [exact H1|]. clear H1 c. destruct (rc_nodes c1 !! t); [|reflexivity].
  destruct (target_in_lease _ _ _); [reflexivity|]. destruct (vr_pre_vote r); [reflexivity|].
  destruct (candidate_refusal _ _); [reflexivity|]. set (c2 := adopt_vote_term _ _ _). assert (same_roles c1 c2) as H2.
  { subst c2. unfold adopt_vote_term. destruct (negb _); [reflexivity|]. cbn zeta.
    etrans; [|by apply same_roles_on_nodes]. etrans; [|by apply same_roles_on_node]. by apply same_roles_nodes. }
  clearbody c2. etrans; [exact H2|]. clear H2 c1. unfold decide_vote. destruct (rc_nodes c2 !! t); [|reflexivity]. cbn zeta.
  destruct (_ && _); [reflexivity|]. destruct (negb _); [reflexivity|]. destruct (_ <? _)%N; [reflexivity|].
  set (hard := if (_ <? _)%N then _ else _). set (c3 := on_node _ _ _).
  assert (same_roles c2 c3) as H3 by (by apply same_roles_on_node). clearbody c3 hard.
  destruct (_ && _); [done|]. destruct (_ && _); [done|]. cbn [snd]. etrans; [exact H3|]. apply cast_vote_roles.
Qed.

Lemma run_election_roles ops c : same_roles c (run_election ops c).
Proof.
  unfold run_election. apply (foldl_keeps same_roles). intros c0 [t r|k f|from t|b]; cbn.
  - apply vote_to_roles.
  - apply campaign_roles.
  - unfold timeout_now. destruct (rc_nodes c0 !! t); [|reflexivity]. destruct (_ || _); [reflexivity|].
    pose proof (campaign_roles t true c0) as H. by destruct (campaign t true c0) as [[] c1].
  - by apply same_roles_nodes.
Qed.

(** The roles decide the membership, up to order. *)
Lemma with_role_perm c c' role :
  same_roles c c' ->
  nd_id <$> filter (fun n => nd_replica_role n = role) (bt_values (rc_nodes c'))
  ≡ₚ nd_id <$> filter (fun n => nd_replica_role n = role) (bt_values (rc_nodes c)).
Proof.
  assert (forall (m : gmap N Node),
    nd_id <$> filter (fun n => nd_replica_role n = role) (bt_values m)
    ≡ₚ fst <$> filter (fun x => x.2 = role)
         (snd <$> map_to_list ((fun n => (nd_id n, nd_replica_role n)) <$> m))) as Hm.
  { intros m. unfold bt_values. rewrite bt_entries_perm, map_to_list_fmap. generalize (map_to_list m). intros l.
    induction l as [|[k n] l IH]; [done|]. rewrite !fmap_cons, !filter_cons.
    change (prod_map id _ (k, n)).2 with (nd_id n, nd_replica_role n). cbn [snd]. case_decide; [rewrite !fmap_cons; by f_equiv|done]. }
  intros Hr. rewrite !Hm. unfold same_roles, role_map in Hr. by rewrite Hr.
Qed.

Lemma participants_perm c c' ig :
  same_roles c c' -> participants (membership c') ig ≡ₚ participants (membership c) ig.
Proof.
  intros Hr. unfold participants, membership. cbn. rewrite (with_role_perm c c' Voter Hr).
  by destruct ig; [|rewrite (with_role_perm c c' Witness Hr)].
Qed.

Lemma majority_acked_perm l l' acks : l ≡ₚ l' -> majority_acked l acks -> majority_acked l' acks.
Proof. unfold majority_acked. by intros ->. Qed.

(** The nodes whose durable vote in term [t] is for [k]. *)
Definition votes_for (t : Term) (k : NodeId) (c : RaftCluster) : list NodeId :=
  bt_keys (filter (fun x => x.2 = (t, Some k)) (ballots c)).

Lemma elem_of_votes_for t k c id : id ∈ votes_for t k c <-> ballots c !! id = Some (t, Some k).
Proof.
  unfold votes_for. rewrite elem_of_bt_keys. split.
  - intros [b [Hb Hv]%map_lookup_filter_Some]. cbn in Hv. by subst b.
  - intros Hb. exists (t, Some k). by apply map_lookup_filter_Some.
Qed.

(** *** What an answer does

    [answer_leaves] lists the outcomes of [handle_vote_response_inner]: nothing, a later
    term, an answer counted, the election given up, a vote started in the next term,
    or the office taken with what the no-op proposal does after it. *)

Inductive answer_leaves (l : NodeId) (counts : NodeId -> bool -> Prop) (pre : bool) (c : RaftCluster)
    : RaftCluster -> Prop :=
| an_ignored : answer_leaves l counts pre c c
| an_higher t : (rc_current_term c < t)%N -> answer_leaves l counts pre c (follow_higher_term t c)
| an_counted q g : counts q g -> answer_leaves l counts pre c (count_response l q g pre c)
| an_lost q g : counts q g -> answer_leaves l counts pre c (give_up_election l (count_response l q g pre c))
| an_stands q g : counts q g -> pre = true -> is_Some (rc_nodes c !! l) ->
    office_refusal l "candidate" (count_response l q g pre c) = None ->
    answer_leaves l counts pre c (snd (start_vote_after_pre_vote_quorum l (count_response l q g pre c)))
| an_leads q g c' : counts q g -> pre = false -> is_Some (rc_nodes c !! l) ->
    grant_quorum (rc_vote_responses (count_response l q g pre c)) (count_response l q g pre c) = true ->
    votes_kept (lead_current_term l (count_response l q g pre c)) c' ->
    steady (lead_current_term l (count_response l q g pre c)) c' ->
    answer_leaves l counts pre c c'.

Lemma count_response_nodes l q g pre c :
  let c1 := count_response l q g pre c in
  rc_nodes c1 = rc_nodes c /\ rc_current_term c1 = rc_current_term c /\ rc_ignore_witness c1 = rc_ignore_witness c
  /\ rc_election_responses_term c1 = rc_current_term c
  /\ forall k, rc_vote_responses c1 !! k = Some true ->
       (rc_election_responses_term c = rc_current_term c /\ rc_vote_responses c !! k = Some true)
       \/ (pre = false /\ (k = l \/ (k = q /\ g = true))).
Proof.
  cbn zeta. unfold count_response, discard_election_responses_from_an_earlier_term.
  assert (forall (votes : gmap N bool) k, note_response l q g votes !! k = Some true ->
    votes !! k = Some true \/ k = l \/ (k = q /\ g = true)) as Hnote.
  { intros votes k. unfold note_response. cbn zeta. rewrite lookup_insert. case_decide; [intros [= ->]; auto|].
    destruct (votes !! l); [by left|]. rewrite lookup_insert. case_decide; [auto|by left]. }
  destruct (N.eqb_spec (rc_election_responses_term c) (rc_current_term c)) as [He|]; destruct pre; cbn;
    (split_and!; [done|done|done|done|]); intros k Hk.
  - by left.
  - destruct (Hnote _ _ Hk); auto.
  - by rewrite lookup_empty in Hk.
  - destruct (Hnote _ _ Hk) as [H|?]; [by rewrite lookup_empty in H|auto].
Qed.

Lemma office_refusal_None k office c : office_refusal k office c = None -> is_Some (rc_nodes c !! k).
Proof. unfold office_refusal. destruct (rc_nodes c !! k); [by eexists|done]. Qed.

(** Taking office, and then the proposal of the no-op. *)
Lemma become_leader_after (R : relation RaftCluster) `{!PreOrder R} k c :
  transits R (propose noop_payload) -> office_refusal k "leader" c = None ->
  R (lead_current_term k c) (snd (become_leader_current_term k c)).
Proof.
  intros HR Ho. unfold become_leader_current_term. rewrite Ho. cbn zeta. generalize (lead_current_term k c). intros c2.
  destruct (_ && _); [|reflexivity]. by apply (transits_drop R).
Qed.

Lemma record_answered l q g pre c (counts : NodeId -> bool -> Prop) :
  counts q g -> answer_leaves l counts pre c (snd (record_vote_response l q g pre c)).
Proof.
  intros Hc. unfold record_vote_response. destruct (rc_nodes c !! q); [|constructor]. destruct (_ || _); [constructor|].
  cbn zeta. destruct (count_response_nodes l q g pre c) as (Hn & _ & _ & _ & _).
  destruct (grant_quorum _ _) eqn:Hq; [|destruct (election_lost _ _); [exact (an_lost l counts pre c q g Hc)|exact (an_counted l counts pre c q g Hc)]].
  destruct pre.
  - destruct (office_refusal l "candidate" (count_response l q g true c)) eqn:Ho.
    { unfold start_vote_after_pre_vote_quorum. rewrite Ho. exact (an_counted l counts true c q g Hc). }
    apply (an_stands l counts true c q g); [exact Hc|reflexivity| |exact Ho]. rewrite <- Hn. by eapply office_refusal_None.
  - destruct (office_refusal l "leader" (count_response l q g false c)) eqn:Ho.
    { unfold become_leader_current_term. rewrite Ho. exact (an_counted l counts false c q g Hc). }
    assert (is_Some (rc_nodes c !! l)) as Hl by (rewrite <- Hn; by eapply office_refusal_None).
    apply (an_leads _ _ _ _ q g); [done|done|done|done| |]; apply become_leader_after; try done; [exact _| |exact _|].
    + intros c3. apply propose_forward.
    + apply propose_steady.
Qed.

Lemma handle_answered l p r pre c :
  answer_leaves l (fun q g => p = Some q /\ (pre = true \/ ((vresp_term r <= rc_current_term c)%N /\ g = vresp_vote_granted r)))
    pre c (snd (handle_vote_response_inner l p r pre c)).
Proof.
  unfold handle_vote_response_inner. destruct (rc_nodes c !! l); [|constructor]. cbn zeta.
  destruct (N.leb_spec (vresp_term r) (rc_current_term c)).
  { destruct p as [q|]; [|constructor]. apply record_answered. auto. }
  destruct (match p with Some q => peer_response_is_active q c | None => Ok true end) as [[]|]; [|constructor..].
  destruct pre; cbn [andb].
  - destruct (vresp_vote_granted r); [|by apply an_higher]. destruct p as [q|]; [|constructor]. apply record_answered. auto.
  - by apply an_higher.
Qed.

(** *** The election with its answers

    The events of an election of which one node, [local], is a candidate: the steps of
    [ElectionOp], and answers that reach [local]. The run keeps the votes granted to
    [local] in it, which are the messages an answer can be. *)

Inductive VoteEvent : Type :=
| VElection (op : ElectionOp)
| VAnswer (peer_id : option NodeId) (response : VoteResponse) (pre_vote : bool).

(** The vote a step grants to [local]. *)
Definition granted_to (local : NodeId) (op : ElectionOp) (c : RaftCluster) : list (Term * NodeId) :=
  match op with
  | EVote target request =>
      match fst (vote_to target request c) with
      | Ok response =>
          if vresp_vote_granted response && negb (vr_pre_vote request) && (vr_candidate_id request =? local)%N
          then [(vr_term request, target)] else []
      | Err _ => []
      end
  | _ => []
  end.

Definition vote_event (local : NodeId) (s : RaftCluster * list (Term * NodeId)) (e : VoteEvent)
    : RaftCluster * list (Term * NodeId) :=
  match e with
  | VElection op => (run_election_op s.1 op, granted_to local op s.1 ++ s.2)
  | VAnswer peer_id response pre_vote =>
      (snd (handle_vote_response_inner local peer_id response pre_vote s.1), s.2)
  end.
Definition run_votes (local : NodeId) (events : list VoteEvent) (s : RaftCluster * list (Term * NodeId))
    : RaftCluster * list (Term * NodeId) := foldl (vote_event local) s events.

(** An answer to a vote that is counted reaches a candidate that has voted for itself
    in the term it is counted in; a grant was given in the run and in that term. An
    answer to a pre-vote comes while there is a next term. *)
Definition genuine (local : NodeId) (s : RaftCluster * list (Term * NodeId)) (e : VoteEvent) : bool :=
  match e with
  | VElection _ => true
  | VAnswer _ _ true => (rc_current_term s.1 <? u64_max)%N
  | VAnswer None _ false => true
  | VAnswer (Some peer_id) response false =>
      (rc_current_term s.1 <? vresp_term response)%N
      || bool_decide (ballots s.1 !! local = Some (rc_current_term s.1, Some local))
         && (negb (vresp_vote_granted response)
             || (vresp_term response =? rc_current_term s.1)%N && bool_decide ((vresp_term response, peer_id) ∈ s.2))
  end.
Fixpoint genuine_run (local : NodeId) (s : RaftCluster * list (Term * NodeId)) (events : list VoteEvent) : bool :=
  match events with
  | [] => true
  | e :: rest => genuine local s e && genuine_run local (vote_event local s e) rest
  end.

(** [x] has voted for [a] in term [t], or has moved to a later term. *)
Definition holds (t : Term) (a x : NodeId) (c : RaftCluster) : Prop :=
  exists b, ballots c !! x = Some b /\ ballot_step (t, Some a) b.

Lemma holds_kept t a x c c' : terms_bounded c -> votes_kept c c' -> holds t a x c -> holds t a x c'.
Proof.
  intros Hc Hk (b & Hb & Hs). destruct (Hk Hc) as (_ & _ & Hv). destruct (Hv _ _ Hb) as (b' & Hb' & Hs').
  exists b'. split; [done|by etrans].
Qed.

Lemma holds_current t a x c b :
  terms_bounded c -> ballots c !! x = Some b -> ballot_step (t, Some a) b -> (rc_current_term c <= t)%N ->
  b = (t, Some a) /\ t = rc_current_term c.
Proof.
  intros Hc Hb Hs Ht. specialize (Hc x b Hb). cbn in Hc. destruct b as [bt bv].
  destruct Hs as [Hs|[Hs [Hv|Hv]]]; cbn in *; [lia|done|subst; split; [done|lia]].
Qed.

(** Once everybody has the vote [(t', Some a)] of a term not before [t], the holders of
    a vote for [a] still are. *)
Lemma holds_everywhere t t' a x c c' :
  ballots c' = (fun _ => (t', Some a)) <$> ballots c -> terms_bounded c -> (rc_current_term c <= t')%N ->
  holds t a x c -> holds t a x c'.
Proof.
  intros Hb Hc Ht (b & Hx & Hs). exists (t', Some a). split; [by rewrite Hb, lookup_fmap, Hx|].
  specialize (Hc x b Hx). cbn in Hc. destruct Hs as [Hs|[Hs _]]; cbn in Hs; unfold ballot_step; cbn.
  - left. lia.
  - destruct (decide (t = t')) as [->|]; [right; auto|left; lia].
Qed.

(** The answers counted in the group's term are votes for [local] in it. *)
Definition box_backed (local : NodeId) (c : RaftCluster) : Prop :=
  (rc_election_responses_term c <= rc_current_term c)%N
  /\ (rc_election_responses_term c = rc_current_term c ->
      forall k, rc_vote_responses c !! k = Some true -> ballots c !! k = Some (rc_current_term c, Some local)).

Record polled (local : NodeId) (s : RaftCluster * list (Term * NodeId)) : Prop := {
  po_terms : terms_bounded s.1;
  po_box : box_backed local s.1;
  po_sent : forall t x, (t, x) ∈ s.2 -> holds t local x s.1
}.
Lemma run_election_op_kept c op : votes_kept c (run_election_op c op).
Proof. apply (run_election_kept [op] c). Qed.

Lemma run_election_op_roles c op : same_roles c (run_election_op c op).
Proof. apply (run_election_roles [op] c). Qed.

Lemma count_response_backed l q g pre c :
  box_backed l c ->
  (pre = false -> ballots c !! l = Some (rc_current_term c, Some l)
                  /\ (g = true -> ballots c !! q = Some (rc_current_term c, Some l))) ->
  box_backed l (count_response l q g pre c).
Proof.
  intros [_ Hb] Hg. destruct (count_response_nodes l q g pre c) as (Hn & Ht & _ & He & Hv).
  unfold box_backed. unfold ballots. rewrite Hn, Ht, He. split; [done|]. intros _ k Hk.
  destruct (Hv k Hk) as [[Heq Hk']|[-> [->|[-> ->]]]]; [by apply Hb|by apply Hg|by apply Hg].
Qed.

Lemma box_empty_backed l c :
  (rc_election_responses_term c <= rc_current_term c)%N -> rc_vote_responses c = ∅ -> box_backed l c.
Proof. intros Ht Hv. split; [done|]. intros _ k. by rewrite Hv, lookup_empty. Qed.

(** A step of the leader or of a voter keeps the answers backed. *)
Lemma steady_backed l c c' :
  terms_bounded c -> votes_kept c c' -> steady c c' -> box_backed l c -> box_backed l c'.
Proof.
  intros Hc Hk [S1 _ S3 S4 _ _] [B1 B2]. split; [lia|]. intros He k Hv.
  assert (rc_current_term c' = rc_current_term c) as Ht by lia. rewrite Ht in *.
  specialize (B2 ltac:(lia) k (lookup_weaken _ _ _ _ Hv S4)). destruct (Hk Hc) as (Hc' & _ & Hs).
  destruct (Hs _ _ B2) as (b & Hb & Hstep). destruct (holds_current _ _ _ _ _ Hc' Hb Hstep) as [-> _]; [lia|done].
Qed.

(** Both offices write the candidate's ballot everywhere and start with no answers. *)
Lemma enter_office_facts k office c :
  let c' := enter_office k office c in
  ballots c' = (fun _ => (rc_current_term c, Some k)) <$> ballots c /\ rc_current_term c' = rc_current_term c
  /\ rc_vote_responses c' = ∅ /\ rc_election_responses_term c' = rc_current_term c
  /\ rc_ignore_witness c' = rc_ignore_witness c /\ same_roles c c'.
Proof.
  cbn zeta. destruct (enter_office_spec k office c) as (Hb & Ht & _). split_and!; [done|done|done|done|done|].
  unfold enter_office. cbn zeta. etrans; [|apply record_election_roles]. by apply same_roles_nodes.
Qed.

Lemma lead_current_term_facts k c :
  let c' := lead_current_term k c in
  ballots c' = (fun _ => (rc_current_term c, Some k)) <$> ballots c /\ rc_current_term c' = rc_current_term c
  /\ rc_ignore_witness c' = rc_ignore_witness c /\ box_backed k c' /\ same_roles c c'.
Proof.
  cbn zeta. unfold lead_current_term. set (c1 := enter_office k Leader _).
  assert (ballots c1 = (fun _ => (rc_current_term c, Some k)) <$> ballots c /\ rc_current_term c1 = rc_current_term c
    /\ rc_vote_responses c1 = ∅ /\ rc_election_responses_term c1 = rc_current_term c
    /\ rc_ignore_witness c1 = rc_ignore_witness c /\ same_roles c c1) as (H1 & H2 & H3 & H4 & H5 & H6).
  { subst c1. set (c0 := c <| rc_leader_id := _ |> <| rc_last_index_before_current_term := _ |>).
    destruct (enter_office_facts k Leader c0) as (? & ? & ? & ? & ? & ?). split_and!; try done. }
  clearbody c1. pose proof (reset_pipelines_steady k c1) as [_ _ S3 S4 S5 _].
  destruct (reset_replication_pipelines_ballots k c1) as [Hb Ht]. pose proof (reset_pipelines_roles k c1) as Hr.
  generalize dependent (reset_replication_pipelines_for_leader k c1). intros c2 S3 S4 S5 Hb Ht Hr. rewrite H3 in S4.
  split_and!; [congruence|congruence|congruence| |by etrans]. apply box_empty_backed; [lia|].
  apply map_eq. intros i. rewrite lookup_empty. destruct (rc_vote_responses c2 !! i) as [v|] eqn:E; [|done].
  pose proof (lookup_weaken _ _ _ _ E S4) as E'. by rewrite lookup_empty in E'.
Qed.

Lemma start_vote_facts k c :
  (rc_current_term c < u64_max)%N -> is_Some (rc_nodes c !! k) -> office_refusal k "candidate" c = None ->
  let c' := snd (start_vote_after_pre_vote_quorum k c) in
  ballots c' = (fun _ => (rc_current_term c + 1, Some k)%N) <$> ballots c /\ rc_current_term c' = (rc_current_term c + 1)%N
  /\ rc_ignore_witness c' = rc_ignore_witness c /\ box_backed k c' /\ same_roles c c'.
Proof.
  intros Ht [n Hn] Ho. cbn zeta. unfold start_vote_after_pre_vote_quorum. rewrite Ho. cbn [snd]. cbn zeta.
  unfold stand_in_next_term. set (c0 := c <| rc_current_term ::= _ |> <| rc_leader_id := _ |> <| rc_last_index_before_current_term := _ |>).
  assert (rc_current_term c0 = (rc_current_term c + 1)%N) as Ht0 by (apply saturating_add_small; lia).
  assert (rc_nodes c0 = rc_nodes c /\ rc_ignore_witness c0 = rc_ignore_witness c) as [Hn0 Hi0] by done. clearbody c0.
  destruct (enter_office_facts k Candidate c0) as (H1 & H2 & H3 & H4 & H5 & H6).
  generalize dependent (enter_office k Candidate c0). intros c1 H1 H2 H3 H4 H5 H6. rewrite Ht0 in *.
  assert (ballots c0 = ballots c) as Hb0 by (unfold ballots; by rewrite Hn0). rewrite Hb0 in H1. split_and!.
  - exact H1.
  - exact H2.
  - exact (eq_trans H5 Hi0).
  - split; [cbn; lia|]. cbn. intros _ i. rewrite H3, lookup_insert, lookup_empty. case_decide; [|done]. intros _. subst i.
    rewrite H2. unfold ballots in *. cbn in *. by rewrite H1, !lookup_fmap, Hn.
  - etrans; [by apply (same_roles_nodes c c0)|]. etrans; [exact H6|]. by apply same_roles_nodes.
Qed.

(** Ballots of a later term everywhere. *)
Lemma votes_kept_later c c' t v :
  (rc_current_term c < t)%N -> rc_current_term c' = t -> ballots c' = (fun _ => (t, v)) <$> ballots c -> votes_kept c c'.
Proof.
  intros Hlt Ht Hb Hc. split_and!.
  - intros k b. rewrite Hb, lookup_fmap. intros (x & _ & ->)%fmap_Some. cbn. lia.
  - lia.
  - intros k b Hk. exists (t, v). rewrite Hb, lookup_fmap, Hk. split; [done|]. left. specialize (Hc k b Hk). cbn in *. lia.
Qed.

Lemma reset_ballots_facts t c c1 :
  (rc_current_term c < t)%N -> rc_nodes c1 = rc_nodes c -> rc_current_term c1 = t -> rc_vote_responses c1 = ∅ ->
  rc_election_responses_term c1 = t ->
  let c' := on_nodes (fun node =>
    node <| nd_hard_state ::= (fun h => h <| hs_current_term := t |> <| hs_voted_for := None |>) |>
         <| nd_raft_role := passive_role node |>) c1 in
  votes_kept c c' /\ same_roles c c' /\ forall l, box_backed l c'.
Proof.
  intros Ht H1 H2 H3 H4. cbn zeta. split_and!.
  - apply (votes_kept_later _ _ t None Ht); [exact H2|]. rewrite (ballots_on_nodes _ (fun _ => (t, None))) by done.
    unfold ballots. by rewrite H1.
  - etrans; [by apply (same_roles_nodes c c1)|]. by apply same_roles_on_nodes.
  - intros l. apply box_empty_backed; cbn; [lia|done].
Qed.

Lemma follow_higher_term_facts t c :
  (rc_current_term c < t)%N ->
  votes_kept c (follow_higher_term t c) /\ same_roles c (follow_higher_term t c)
  /\ (forall l, box_backed l (follow_higher_term t c))
  /\ rc_ignore_witness (follow_higher_term t c) = rc_ignore_witness c.
Proof.
  intros Ht. destruct (reset_ballots_facts t c (clear_election_responses (invalidate_leader_lease (invalidate_follower_lease
    (clear_reorder_queues (c <| rc_current_term := t |> <| rc_leader_id := None |>)))))) as (H1 & H2 & H3); [done|reflexivity..|].
  split_and!; [exact H1|exact H2|exact H3|reflexivity].
Qed.

Lemma give_up_facts l c :
  votes_kept c (give_up_election l c) /\ same_roles c (give_up_election l c)
  /\ rc_ignore_witness (give_up_election l c) = rc_ignore_witness c /\ box_backed l (give_up_election l c).
Proof.
  split_and!; [apply same_ballots_kept, give_up_election_quiet| |done|].
  - unfold give_up_election. cbn zeta. etrans; [|by apply same_roles_on_node]. by apply same_roles_nodes.
  - unfold give_up_election. cbn zeta. by apply box_empty_backed.
Qed.

Lemma elem_of_granted_ids votes k : k ∈ granted_ids votes <-> votes !! k = Some true.
Proof.
  unfold granted_ids. rewrite list_elem_of_fmap. split.
  - intros ([i v] & -> & [Hv Hi]%list_elem_of_filter). cbn in *. subst v. by apply elem_of_bt_entries.
  - intros Hk. exists (k, true). split; [done|]. apply list_elem_of_filter. split; [done|by apply elem_of_bt_entries].
Qed.

(** [a] has won term [t]: a quorum holds its votes, or every node does. *)
Definition won (t : Term) (a : NodeId) (c : RaftCluster) : Prop :=
  (forall x b, ballots c !! x = Some b -> holds t a x c)
  \/ exists acks, majority_acked (participants (membership c) (rc_ignore_witness c)) acks
       /\ forall x, x ∈ acks -> holds t a x c.

Lemma everyone_kept t a c c' :
  terms_bounded c -> votes_kept c c' -> dom (rc_nodes c') = dom (rc_nodes c) ->
  (forall x b, ballots c !! x = Some b -> holds t a x c) -> forall x b, ballots c' !! x = Some b -> holds t a x c'.
Proof.
  intros Hc Hk Hd He x b Hb. assert (is_Some (ballots c !! x)) as [b0 Hb0].
  { unfold ballots in *. rewrite <- elem_of_dom, dom_fmap_L, <- Hd, <- (dom_fmap_L ballot), elem_of_dom. by exists b. }
  exact (holds_kept t a x c c' Hc Hk (He x b0 Hb0)).
Qed.

Lemma same_roles_dom c c' : same_roles c c' -> dom (rc_nodes c') = dom (rc_nodes c).
Proof. unfold same_roles, role_map. intros H. apply (f_equal dom) in H. by rewrite !dom_fmap_L in H. Qed.

Lemma won_kept t a c c' :
  terms_bounded c -> votes_kept c c' -> same_roles c c' -> rc_ignore_witness c' = rc_ignore_witness c ->
  won t a c -> won t a c'.
Proof.
  intros Hc Hk Hr Hi [He|(acks & Hm & Ha)]; [left|right].
  - apply (everyone_kept t a c c' Hc Hk); [by apply same_roles_dom|done].
  - exists acks. rewrite Hi. split; [|intros x Hx; by apply (holds_kept t a x c c' Hc Hk), Ha].
    eapply majority_acked_perm; [|exact Hm]. symmetry. by apply participants_perm.
Qed.

(** Whoever holds a majority of backed answers is the winner of the term, if it has one. *)
Lemma winner_is_unique t a l c acks :
  terms_bounded c -> won t a c -> majority_acked (participants (membership c) (rc_ignore_witness c)) acks ->
  (forall x, x ∈ acks -> ballots c !! x = Some (rc_current_term c, Some l)) ->
  (t <= rc_current_term c)%N /\ (t = rc_current_term c -> a = l).
Proof.
  intros Hc Hw Hm Hacks.
  assert (exists x, x ∈ acks /\ holds t a x c) as (x & Hx & b & Hb & Hs).
  { destruct Hw as [He|(acks' & Hm' & Ha)].
    - destruct (majorities_overlap _ _ _ Hm Hm) as (x & _ & Hx & _). exists x. split; [done|]. by eapply He, Hacks.
    - destruct (majorities_overlap _ _ _ Hm Hm') as (x & _ & Hx & Hx'). exists x. split; [done|by apply Ha]. }
  rewrite (Hacks x Hx) in Hb. injection Hb as <-. destruct Hs as [Hs|[Hs [Hv|Hv]]]; cbn in *; [split; lia|done|].
  split; [lia|]. intros _. by injection Hv.
Qed.

(** *** One event *)

(** A genuine answer counts votes of the candidate in its own term. *)
Lemma genuine_backed l s p r pre q g :
  polled l s -> genuine l s (VAnswer p r pre) = true -> p = Some q ->
  pre = true \/ ((vresp_term r <= rc_current_term s.1)%N /\ g = vresp_vote_granted r) ->
  (pre = true -> (rc_current_term s.1 < u64_max)%N) /\ box_backed l (count_response l q g pre s.1).
Proof.
  intros [Ht Hb Hsent] Hg -> Hc. destruct pre; cbn [genuine] in Hg.
  { split; [intros _; by apply N.ltb_lt|]. by apply count_response_backed. }
  split; [done|]. destruct Hc as [?|[Hle ->]]; [done|]. rewrite (proj2 (N.ltb_ge _ _) Hle) in Hg. cbn [orb] in Hg.
  apply andb_prop in Hg as [Hl Hg]. apply bool_decide_eq_true in Hl. apply count_response_backed; [done|]. intros _.
  split; [done|]. intros Hgr. rewrite Hgr in Hg. cbn [negb orb] in Hg. apply andb_prop in Hg as [Hq Hin].
  apply N.eqb_eq in Hq. apply bool_decide_eq_true in Hin. destruct (Hsent _ _ Hin) as (b & Hbq & Hs).
  rewrite Hq in *. destruct (holds_current _ _ _ _ _ Ht Hbq Hs) as [-> _]; [lia|done].
Qed.

Lemma election_event_polled l s op : polled l s -> polled l (vote_event l s (VElection op)).
Proof.
  intros [Ht Hb Hsent]. pose proof (run_election_op_kept s.1 op) as Hk. destruct (Hk Ht) as (Ht' & _ & _).
  split; cbn [vote_event fst snd]; [done|by apply (steady_backed l s.1), Hb; [|..|apply run_election_op_steady]|].
  intros t x [Hin|Hin]%elem_of_app; [|by apply (holds_kept t l x s.1), Hsent].
  destruct op as [target request|k f|from target|b]; cbn [granted_to] in Hin; try by apply elem_of_nil in Hin.
  destruct (vote_to target request s.1) as [[resp|e] c'] eqn:Hv; cbn [fst] in Hin; [|by apply elem_of_nil in Hin].
  destruct (vresp_vote_granted resp) eqn:Hg; [|by apply elem_of_nil in Hin]. destruct (vr_pre_vote request) eqn:Hp; [by apply elem_of_nil in Hin|].
  destruct (N.eqb_spec (vr_candidate_id request) l) as [Hl|]; [|by apply elem_of_nil in Hin].
  apply list_elem_of_singleton in Hin. injection Hin as -> ->. pose proof (vote_recorded _ _ _ _ _ Hp Hv Hg) as Hrec.
  cbn [run_election_op]. rewrite Hv. cbn [snd]. rewrite Hl in Hrec. eexists. split; [exact Hrec|reflexivity].
Qed.

(** What the outcomes of an answer that do not take office have in common. *)
Record calm (l : NodeId) (c c' : RaftCluster) : Prop := {
  ca_votes : votes_kept c c';
  ca_roles : same_roles c c';
  ca_policy : rc_ignore_witness c' = rc_ignore_witness c;
  ca_box : box_backed l c'
}.

Lemma polled_calm l c sent c' : polled l (c, sent) -> calm l c c' -> polled l (c', sent).
Proof.
  intros [Ht _ Hs] [Hk _ _ Hb]. split; [apply (Hk Ht)|done|]. intros t x Hin. by apply (holds_kept t l x c), Hs.
Qed.

Lemma count_calm l q g pre c c1 : box_backed l (count_response l q g pre c) -> c1 = count_response l q g pre c -> calm l c c1.
Proof.
  intros Hb ->. destruct (count_response_nodes l q g pre c) as (Hn & Ht & Hi & _).
  split; [apply same_ballots_kept; by apply same_ballots_nodes|by apply same_roles_nodes|done|done].
Qed.

Lemma calm_trans l c1 c2 c3 : calm l c1 c2 -> calm l c2 c3 -> calm l c1 c3.
Proof. intros [A1 A2 A3 A4] [B1 B2 B3 B4]. split; [by etrans|by etrans|congruence|done]. Qed.

(** The office taken on a counted answer. *)
Record leads (l : NodeId) (c c' : RaftCluster) : Prop := {
  le_box : box_backed l c;
  le_quorum : majority_acked (participants (membership c) (rc_ignore_witness c)) (granted_ids (rc_vote_responses c));
  le_term : rc_election_responses_term c = rc_current_term c;
  le_votes : votes_kept (lead_current_term l c) c';
  le_steady : steady (lead_current_term l c) c'
}.

(** A genuine answer is calm, or is counted and then takes office. *)
Lemma answer_outcome l c sent p r pre :
  polled l (c, sent) -> genuine l (c, sent) (VAnswer p r pre) = true ->
  let c' := snd (handle_vote_response_inner l p r pre c) in
  c' = c \/ calm l c c' \/ exists c1, calm l c c1 /\ leads l c1 c'.
Proof.
  intros Hp Hg. cbn zeta. pose proof (fun q g => genuine_backed l (c, sent) p r pre q g Hp Hg) as Hback. cbn [fst] in Hback.
  destruct (handle_answered l p r pre c) as [|t Ht|q g [H1 H2]|q g [H1 H2]|q g [H1 H2] Hpre Hn Ho|q g c' [H1 H2] Hpre Hn Hq Hv Hst].
  - by left.
  - right; left. destruct (follow_higher_term_facts t c Ht) as (? & ? & Hb & ?). by split.
  - right; left. destruct (Hback q g H1 H2) as [_ Hb]. by eapply count_calm.
  - right; left. destruct (Hback q g H1 H2) as [_ Hb]. eapply calm_trans; [by eapply count_calm|].
    destruct (give_up_facts l (count_response l q g pre c)) as (? & ? & ? & ?). by split.
  - right; left. destruct (Hback q g H1 H2) as [Hm Hb]. eapply calm_trans; [by eapply count_calm|].
    destruct (count_response_nodes l q g pre c) as (Hn1 & Ht1 & _ & _ & _).
    destruct (start_vote_facts l (count_response l q g pre c)) as (F1 & F2 & F3 & F4 & F5);
      [rewrite Ht1; by apply Hm|by rewrite Hn1|done|]. split; [|done|done|done]. eapply votes_kept_later; [|exact F2|exact F1]. lia.
  - right; right. destruct (Hback q g H1 H2) as [_ Hb]. exists (count_response l q g pre c).
    destruct (count_response_nodes l q g pre c) as (_ & Ht1 & _ & He & _).
    split; [by eapply count_calm|]. split; [done|by apply quorum_reached_majority|congruence|done|done].
Qed.

Lemma leads_everyone l t c c' x :
  terms_bounded c -> leads l c c' -> holds t l x c -> holds t l x (lead_current_term l c).
Proof.
  intros Ht _ Hx. destruct (lead_current_term_facts l c) as (F1 & _). by apply (holds_everywhere t _ l x c _ F1).
Qed.

Lemma lead_terms_bounded l c : terms_bounded (lead_current_term l c).
Proof.
  destruct (lead_current_term_facts l c) as (F1 & F2 & _). intros k b. rewrite F1, F2, lookup_fmap.
  intros (y & _ & ->)%fmap_Some. cbn. lia.
Qed.

Lemma polled_leads l c sent c' : polled l (c, sent) -> leads l c c' -> polled l (c', sent).
Proof.
  intros [Ht _ Hs] Hl. destruct (lead_current_term_facts l c) as (F1 & F2 & F3 & F4 & F5). pose proof (lead_terms_bounded l c) as Hb.
  destruct (le_votes _ _ _ Hl Hb) as (Hb' & _). split; cbn [fst snd] in *; [done| |].
  - exact (steady_backed l _ _ Hb (le_votes _ _ _ Hl) (le_steady _ _ _ Hl) F4).
  - intros t x Hin. apply (holds_kept t l x _ _ Hb (le_votes _ _ _ Hl)). eapply leads_everyone; [done|exact Hl|by apply Hs].
Qed.

Lemma won_leads t a l c c' : terms_bounded c -> won t a c -> leads l c c' -> won t a c'.
Proof.
  intros Ht Hw Hl. destruct (winner_is_unique t a l c _ Ht Hw (le_quorum _ _ _ Hl)) as [Hle Heq].
  { intros x Hx%elem_of_granted_ids. by apply (proj2 (le_box _ _ _ Hl) (le_term _ _ _ Hl)). }
  left. pose proof (lead_terms_bounded l c) as Hb.
  apply (everyone_kept t a _ _ Hb (le_votes _ _ _ Hl) (st_nodes _ _ (le_steady _ _ _ Hl))).
  destruct (lead_current_term_facts l c) as (F1 & _). intros x b Hx. exists b. split; [done|].
  rewrite F1, lookup_fmap in Hx. apply fmap_Some in Hx as (y & _ & ->). unfold ballot_step. cbn.
  destruct (decide (t = rc_current_term c)) as [Heq'|]; [|left; lia]. right. rewrite (Heq Heq'). auto.
Qed.

Lemma vote_event_polled l s e : polled l s -> genuine l s e = true -> polled l (vote_event l s e).
Proof.
  destruct s as [c sent]. intros Hp Hg. destruct e as [op|p r pre]; [by apply election_event_polled|]. cbn [vote_event fst snd].
  destruct (answer_outcome l c sent p r pre Hp Hg) as [->|[Hc|(c1 & Hc & Hl)]]; [done|by eapply polled_calm|].
  eapply polled_leads; [|exact Hl]. by eapply polled_calm.
Qed.

Lemma vote_event_won t a l s e : polled l s -> genuine l s e = true -> won t a s.1 -> won t a (vote_event l s e).1.
Proof.
  destruct s as [c sent]. intros Hp Hg Hw. pose proof (po_terms _ _ Hp) as Ht. cbn [fst] in *.
  destruct e as [op|p r pre]; cbn [vote_event fst snd].
  - apply (won_kept t a c); [done|apply run_election_op_kept|apply run_election_op_roles| |done].
    apply (st_policy _ _ (run_election_op_steady c op)).
  - destruct (answer_outcome l c sent p r pre Hp Hg) as [->|[[C1 C2 C3 _]|(c1 & [C1 C2 C3 _] & Hl)]]; [done|by apply (won_kept t a c)|].
    apply (won_leads t a l c1); [apply (C1 Ht)|by apply (won_kept t a c)|done].
Qed.

Lemma run_votes_kept t a l events s :
  polled l s -> genuine_run l s events = true ->
  polled l (run_votes l events s) /\ (won t a s.1 -> won t a (run_votes l events s).1).
Proof.
  unfold run_votes. revert s. induction events as [|e events IH]; intros s Hp Hg; [done|]. cbn [foldl].
  cbn [genuine_run] in Hg. apply andb_prop in Hg as [Hg Hr].
  destruct (IH (vote_event l s e)) as [H1 H2]; [by apply vote_event_polled|done|]. split; [done|].
  intros Hw. by apply H2, vote_event_won.
Qed.

Lemma genuine_run_app l s e1 e2 :
  genuine_run l s (e1 ++ e2) = genuine_run l s e1 && genuine_run l (run_votes l e1 s) e2.
Proof.
  revert s. induction e1 as [|e e1 IH]; intros s; [done|]. cbn [app genuine_run]. rewrite IH. apply andb_assoc.
Qed.

(** C2: election safety, with the counting of the answers. In a group where the
    candidate [local] collects answers, take any run of vote requests, campaigns,
    timeout-now messages and answers to [local], granted, refused, of a pre-vote or of
    a later term, from a state with no answers collected. The answers are genuine: a
    counted answer to a vote finds the candidate standing in that term, and a grant is
    one given in the run, in the term it is counted in. If at one point a quorum of the
    membership holds votes for [a] in term [t] and at a later point a quorum holds
    votes for [b] in the same term, then [a] and [b] are the same: although taking
    office rewrites every vote of the term, a term never has two winners. (A leader
    taking office leaves every vote of its term on itself, so this covers two leaders of
    a term; [two_winners_of_one_term] shows what a grant of an earlier term does.) *)
Theorem election_safety local before after c t a b :
  terms_bounded c -> rc_vote_responses c = ∅ -> (rc_election_responses_term c <= rc_current_term c)%N ->
  genuine_run local (c, []) (before ++ after) = true ->
  let s1 := run_votes local before (c, []) in
  let s2 := run_votes local after s1 in
  quorum_reached_with_witness_policy (membership s1.1) (votes_for t a s1.1) (rc_ignore_witness s1.1) = true ->
  quorum_reached_with_witness_policy (membership s2.1) (votes_for t b s2.1) (rc_ignore_witness s2.1) = true ->
  a = b.
Proof.
  intros Hc Hv He Hg s1 s2. rewrite !quorum_reached_majority. intros Ha Hb.
  rewrite genuine_run_app in Hg. apply andb_prop in Hg as [Hg1 Hg2].
  assert (polled local (c, [])) as Hp by (split; [done|by apply box_empty_backed|by intros ? ? ?%elem_of_nil]).
  destruct (run_votes_kept t a local before (c, []) Hp Hg1) as [Hp1 _].
  destruct (run_votes_kept t a local after s1 Hp1 Hg2) as [Hp2 Hw]. fold s2 in Hp2, Hw.
  assert (won t a s1.1) as Hw1.
  { right. exists (votes_for t a s1.1). split; [done|]. intros x Hx%elem_of_votes_for. eexists. split; [done|reflexivity]. }
  specialize (Hw Hw1). destruct (majorities_overlap _ _ _ Hb Hb) as (x & _ & Hx & _). apply elem_of_votes_for in Hx as Hbx.
  assert (exists y v, y ∈ votes_for t b s2.1 /\ ballots s2.1 !! y = Some v /\ ballot_step (t, Some a) v) as (y & v & Hy & Hyv & Hs).
  { destruct Hw as [Hev|(acks & Hm & Hacks)].
    - destruct (Hev x _ Hbx) as (v & ? & ?). by exists x, v.
    - destruct (majorities_overlap _ _ _ Hb Hm) as (y & _ & Hy & Hya). destruct (Hacks y Hya) as (v & ? & ?). by exists y, v. }
  apply elem_of_votes_for in Hy. rewrite Hy in Hyv. injection Hyv as <-.
  destruct Hs as [Hs|[_ [Hs|Hs]]]; cbn in Hs; [lia|done|by injection Hs].
Qed.

(** Node 1 is granted pre-votes, stands in term 1, is granted the votes of nodes 2 and
    3 and takes office on their answers; later requests of node 3 in term 1 are refused. *)
Definition elected_run : list VoteEvent :=
  [VAnswer (Some 2%N) (mkVoteResponse 1 true "pre_vote_granted") true;
   VAnswer (Some 3%N) (mkVoteResponse 1 true "pre_vote_granted") true;
   VElection (EVote 2 (sample_request 1 1)); VElection (EVote 3 (sample_request 1 1));
   VAnswer (Some 2%N) (mkVoteResponse 1 true "vote_granted") false;
   VAnswer (Some 3%N) (mkVoteResponse 1 true "vote_granted") false].
Definition contested_run : list VoteEvent :=
  [VElection (EVote 2 (sample_request 1 3)); VAnswer (Some 3%N) (mkVoteResponse 1 false "already_voted") false].

Lemma election_safety_witness :
  rc_leader_id (run_votes 1 elected_run (sample_group, [])).1 = Some 1%N
  /\ forall b, let s2 := run_votes 1 contested_run (run_votes 1 elected_run (sample_group, [])) in
       quorum_reached_with_witness_policy (membership s2.1) (votes_for 1 b s2.1) (rc_ignore_witness s2.1) = true ->
       1%N = b.
Proof.
  split; [vm_compute; reflexivity|]. intros b. cbn zeta.
  apply (election_safety 1 elected_run contested_run sample_group 1 1 b);
    [exact sample_group_bounded|vm_compute; reflexivity|vm_compute; discriminate|vm_compute; reflexivity|vm_compute; reflexivity].
Defined.

(** ** Two runs *)

(** The grants of term 1 elect node 1 in term 2: answers are matched against the
    term they are counted in, not against the term they were given in. *)
Definition standing_again : RaftCluster := snd (start_vote_after_pre_vote_quorum 1 standing).

Example grants_of_earlier_term_elect :
  let grant := mkVoteResponse 1 true "vote_granted" in
  let c := snd (handle_vote_response_from 1 2 grant false standing_again) in
  let c := snd (handle_vote_response_from 1 3 grant false c) in
  rc_current_term standing_again = 2%N /\ rc_leader_id c = Some 1%N /\ rc_current_term c = 2%N.
Proof. vm_compute. split_and!; reflexivity. Qed.

(** What a late grant can do: node 1 stands in term 1 and is granted votes, nodes 2 and
    3 then vote for node 2 in term 2, and the answers of term 1 still make node 1 the
    leader of term 2, with every vote of that term rewritten. *)
Definition late_run : list VoteEvent :=
  [VElection (EVote 2 (sample_request 2 2)); VElection (EVote 3 (sample_request 2 2));
   VAnswer (Some 2%N) (mkVoteResponse 1 true "vote_granted") false;
   VAnswer (Some 3%N) (mkVoteResponse 1 true "vote_granted") false].

Example two_winners_of_one_term :
  let s1 := run_votes 1 (take 2 late_run) (standing, []) in
  let s2 := run_votes 1 (drop 2 late_run) s1 in
  quorum_reached_with_witness_policy (membership s1.1) (votes_for 2 2 s1.1) true = true
  /\ quorum_reached_with_witness_policy (membership s2.1) (votes_for 2 1 s2.1) true = true
  /\ rc_leader_id s2.1 = Some 1%N /\ genuine_run 1 s1 (drop 2 late_run) = false.
Proof. vm_compute. split_and!; reflexivity. Qed.

(** At the largest term a new candidacy stays in the term and takes over the
    votes cast in it. *)
Example last_term_is_used_twice :
  let c := sample_group <| rc_current_term := u64_max |> in
  let c1 := snd (start_vote_after_pre_vote_quorum 1 c) in
  let c2 := snd (start_vote_after_pre_vote_quorum 2 c1) in
  rc_current_term c2 = rc_current_term c1
  /\ ballots c1 !! 3%N = Some (u64_max, Some 1%N)
  /\ ballots c2 !! 3%N = Some (u64_max, Some 2%N).
Proof. vm_compute. split_and!; reflexivity. Qed.
