(* ===== verification/ReadSafety.v ===== *)
(** * Decisions about reads

    Models [src/read_safety.rs] with the types of
    [src/facade/read_safety_runtime.rs]: the queue of reads that wait for the
    state machine ([PendingReadIndexQueue]), the decision whether an append
    reaches into compacted entries, the reports a read path is judged by, the
    runtime decision for a read or a write on a node, and the conformance vector
    with its validation.

    The theorems: the queue answers every read once, in the order of arrival, and
    none before its fence; the runtime decision allows an operation exactly under
    the stated conditions, and reads at the node's own commit index; the
    conformance vector validates. *)

From stdpp Require Import base strings numbers list.
From S2P Require Import Prelude Types Membership.

(** ** Reads that wait for the state machine *)

Record PendingReadIndex := mkPendingReadIndex {
  pri_request : ReadIndexRequest;
  pri_read_index : LogIndex
}.

Record PendingReadIndexResult := mkPendingReadIndexResult {
  prr_request : ReadIndexRequest;
  prr_read_index : LogIndex;
  prr_applied_index : LogIndex;
  prr_ready : bool;
  prr_reason : string
}.

(** [PendingReadIndexQueue]: the [VecDeque], front first. *)
Abbreviation PendingReadIndexQueue := (list PendingReadIndex) (only parsing).

Definition fence_index (pending : PendingReadIndex) : LogIndex :=
  N.max (pri_read_index pending) (rir_min_commit_index (pri_request pending)).

Definition push (request : ReadIndexRequest) (read_index : LogIndex) (queue : PendingReadIndexQueue)
    : nat * PendingReadIndexQueue :=
  let queue := queue ++ [mkPendingReadIndex request read_index] in
  (length queue, queue).

Definition answered (applied_index : LogIndex) (ready : bool) (reason : string) (pending : PendingReadIndex)
    : PendingReadIndexResult :=
  mkPendingReadIndexResult (pri_request pending) (pri_read_index pending) applied_index ready reason.

(** The loop pops the front as long as its fence is reached. *)
Fixpoint notify_applied (applied_index : LogIndex) (queue : PendingReadIndexQueue)
    : list PendingReadIndexResult * PendingReadIndexQueue :=
  match queue with
  | pending :: rest =>
      if (fence_index pending <=? applied_index)%N then
        let '(ready, rest) := notify_applied applied_index rest in
        (answered applied_index true "read_index_applied" pending :: ready, rest)
      else ([], queue)
  | [] => ([], [])
  end.

Definition release_all (applied_index : LogIndex) (reason : string) (queue : PendingReadIndexQueue)
    : list PendingReadIndexResult * PendingReadIndexQueue :=
  (answered applied_index false reason <$> queue, []).

(** ** Appends and compacted entries *)

Record AppendSafetyDecision := mkAppendSafetyDecision {
  asd_accepted : bool;
  asd_rejected_compacted_entry : bool;
  asd_reason : string
}.

Definition matrixraft_append_safety_decision (first_retained_log_index snapshot_index : N)
    (request : AppendEntriesRequest) : AppendSafetyDecision :=
  let prev_index := default 0%N (lid_index <$> aer_prev_log_id request) in
  if (0 <? prev_index)%N && (prev_index <? first_retained_log_index)%N && (prev_index <=? snapshot_index)%N
  then mkAppendSafetyDecision false true "prev_log_compacted"
  else if existsb (fun entry => entry_index entry <? first_retained_log_index)%N (aer_entries request)
  then mkAppendSafetyDecision false true "entry_compacted"
  else mkAppendSafetyDecision true false "accepted".

(** ** Reports of a read path *)

Record ReadSafetyDecision := mkReadSafetyDecision {
  rsd_safe : bool;
  rsd_read_index : LogIndex;
  rsd_lease_read : bool;
  rsd_reason : string
}.

Definition matrixraft_read_safety_decision (status : StatusSnapshot) (request : ReadIndexRequest)
    : ReadSafetyDecision :=
  let unsafe reason := mkReadSafetyDecision false (ss_commit_index status) false reason in
  if negb (ss_group_id status =? rir_group_id request)%N then unsafe "group_mismatch"
  else if negb (bool_decide (ss_role status = Leader)) then unsafe "not_leader"
  else if (ss_applied_index status <? rir_min_commit_index request)%N then unsafe "apply_lag"
  else mkReadSafetyDecision true (ss_commit_index status) (rir_allow_lease_read request) "safe".

Record AppliedIndexFenceReport := mkAppliedIndexFenceReport {
  aif_min_commit_index : LogIndex;
  aif_commit_index : LogIndex;
  aif_applied_index : LogIndex;
  aif_passed : bool;
  aif_reason : string
}.

Definition matrixraft_applied_index_fence_report (min_commit_index commit_index applied_index : LogIndex)
    : AppliedIndexFenceReport :=
  let passed := (min_commit_index <=? applied_index)%N && (applied_index <=? commit_index)%N in
  mkAppliedIndexFenceReport min_commit_index commit_index applied_index passed
    (if (applied_index <? min_commit_index)%N then "applied_index_behind_min_commit"
     else if (commit_index <? applied_index)%N then "applied_index_ahead_of_commit"
     else "applied_index_fence_passed").

Record LeaseReadEligibilityReport := mkLeaseReadEligibilityReport {
  lre_node_id : NodeId;
  lre_leader_id : option NodeId;
  lre_config_enabled : bool;
  lre_requester_is_leader : bool;
  lre_leader_lease_valid : bool;
  lre_applied_index_fence_passed : bool;
  lre_eligible : bool;
  lre_reason : string
}.

Definition matrixraft_lease_read_eligibility_report (node_id : NodeId) (leader_id : option NodeId)
    (config_enabled leader_lease_valid applied_index_fence_passed : bool) : LeaseReadEligibilityReport :=
  let requester_is_leader := bool_decide (leader_id = Some node_id) in
  let eligible := config_enabled && requester_is_leader && leader_lease_valid && applied_index_fence_passed in
  mkLeaseReadEligibilityReport node_id leader_id config_enabled requester_is_leader leader_lease_valid
    applied_index_fence_passed eligible
    (if negb config_enabled then "lease_read_disabled"
     else if negb requester_is_leader then "requester_not_leader"
     else if negb leader_lease_valid then "stale_leader_lease"
     else if negb applied_index_fence_passed then "applied_index_fence_failed"
     else "lease_read_eligible").

Record BoundedStaleReadReport := mkBoundedStaleReadReport {
  bsr_node_id : NodeId;
  bsr_leader_id : NodeId;
  bsr_node_commit_index : LogIndex;
  bsr_leader_commit_index : LogIndex;
  bsr_lag : LogIndex;
  bsr_max_stale_index_lag : LogIndex;
  bsr_allowed : bool;
  bsr_reason : string
}.

Definition matrixraft_bounded_stale_read_report (node_id leader_id : NodeId)
    (node_commit_index leader_commit_index max_stale_index_lag : LogIndex) : BoundedStaleReadReport :=
  let lag := saturating_sub leader_commit_index node_commit_index in
  let allowed := (lag <=? max_stale_index_lag)%N in
  mkBoundedStaleReadReport node_id leader_id node_commit_index leader_commit_index lag max_stale_index_lag allowed
    (if allowed then "bounded_stale_read_allowed" else "replica_lagging").

(** ** The runtime decision *)

Inductive ReadSafetyOperation : Type := ReadIndex | LeaseRead | BoundedStaleRead | WriteOp.
#[export] Instance ReadSafetyOperation_eq_dec : EqDecision ReadSafetyOperation.
Proof. solve_decision. Defined.

Record ReadSafetyRuntimeInput := mkReadSafetyRuntimeInput {
  rsi_operation : ReadSafetyOperation;
  rsi_node_id : N;
  rsi_leader_id : N;
  rsi_node_alive : bool;
  rsi_role_can_serve_data : bool;
  rsi_leader_lease_valid : bool;
  rsi_has_majority : bool;
  rsi_node_commit_index : N;
  rsi_leader_commit_index : N;
  rsi_max_stale_index_lag : N
}.

Record ReadSafetyRuntimeDecision := mkReadSafetyRuntimeDecision {
  rrd_allowed : bool;
  rrd_read_index : N;
  rrd_reason : string;
  rrd_stale_leader_lease_rejected : bool;
  rrd_lagging_follower_read_rejected : bool;
  rrd_stale_follower_write_rejected : bool;
  rrd_minority_partition_read_rejected : bool;
  rrd_minority_partition_write_rejected : bool;
  rrd_healed_follower_catchup_observed : bool
}.

Definition matrixraft_read_safety_runtime_decision (input : ReadSafetyRuntimeInput) : ReadSafetyRuntimeDecision :=
  let is_follower := negb (rsi_node_id input =? rsi_leader_id input)%N in
  let operation := rsi_operation input in
  if bool_decide (operation = WriteOp) then
    let stale_follower_write_rejected := is_follower in
    let minority_partition_write_rejected := negb (rsi_has_majority input) in
    let allowed := negb stale_follower_write_rejected && negb minority_partition_write_rejected in
    mkReadSafetyRuntimeDecision allowed (rsi_leader_commit_index input)
      (if allowed then "write_authority"
       else if stale_follower_write_rejected then "not_leader" else "minority_partition")
      false false stale_follower_write_rejected false minority_partition_write_rejected false
  else if negb (rsi_node_alive input) || negb (rsi_role_can_serve_data input) then
    mkReadSafetyRuntimeDecision false (rsi_node_commit_index input) "node_unavailable"
      false false false false false false
  else if bool_decide (operation = LeaseRead) && negb (rsi_leader_lease_valid input) then
    mkReadSafetyRuntimeDecision false (rsi_node_commit_index input) "stale_leader_lease"
      true false false false false false
  else if (bool_decide (operation = ReadIndex) || bool_decide (operation = LeaseRead))
          && negb (rsi_has_majority input) then
    mkReadSafetyRuntimeDecision false (rsi_node_commit_index input) "minority_partition"
      false false false true false false
  else
    let lag := saturating_sub (rsi_leader_commit_index input) (rsi_node_commit_index input) in
    let max_lag := if bool_decide (operation = BoundedStaleRead) then rsi_max_stale_index_lag input else 0%N in
    if (max_lag <? lag)%N then
      mkReadSafetyRuntimeDecision false (rsi_node_commit_index input) "replica_lagging"
        false is_follower false false false false
    else
      mkReadSafetyRuntimeDecision true (rsi_node_commit_index input) "safe"
        false false false false false
        (is_follower && (rsi_node_commit_index input =? rsi_leader_commit_index input)%N).

(** ** The conformance vector *)

Record ReadSafetyEvidenceArtifact := mkReadSafetyEvidenceArtifact {
  rse_schema : string;
  rse_stale_leader_lease : ReadSafetyRuntimeDecision;
  rse_lagging_follower_read : ReadSafetyRuntimeDecision;
  rse_stale_follower_write : ReadSafetyRuntimeDecision;
  rse_bounded_stale_read_accept : ReadSafetyRuntimeDecision;
  rse_bounded_stale_read_reject : ReadSafetyRuntimeDecision;
  rse_minority_partition_read : ReadSafetyRuntimeDecision;
  rse_minority_partition_write : ReadSafetyRuntimeDecision;
  rse_healed_follower_catchup : ReadSafetyRuntimeDecision
}.

Record ReadSafetyEvidenceValidationReport := mkReadSafetyEvidenceValidationReport {
  rsv_valid : bool;
  rsv_schema_valid : bool;
  rsv_stale_leader_lease_rejected : bool;
  rsv_lagging_follower_read_rejected : bool;
  rsv_stale_follower_write_rejected : bool;
  rsv_bounded_stale_read_accepted : bool;
  rsv_bounded_stale_read_rejected : bool;
  rsv_minority_partition_read_rejected : bool;
  rsv_minority_partition_write_rejected : bool;
  rsv_healed_follower_catchup_observed : bool;
  rsv_missing : list string
}.

(** Every case of the vector has a live node that can serve data. *)
Definition matrixraft_read_safety_evidence_artifact : ReadSafetyEvidenceArtifact :=
  let case operation node_id lease majority node_commit max_lag :=
    matrixraft_read_safety_runtime_decision
      (mkReadSafetyRuntimeInput operation node_id 1 true true lease majority node_commit 10 max_lag) in
  mkReadSafetyEvidenceArtifact "rustraft.read_safety_evidence.v1"
    (case LeaseRead 1 false true 10 0)%N
    (case ReadIndex 2 true true 7 0)%N
    (case WriteOp 2 true true 10 0)%N
    (case BoundedStaleRead 2 true true 9 1)%N
    (case BoundedStaleRead 2 true true 8 1)%N
    (case ReadIndex 1 true false 10 0)%N
    (case WriteOp 1 true false 10 0)%N
    (case ReadIndex 2 true true 10 0)%N.

Definition reason_is (d : ReadSafetyRuntimeDecision) (reason : string) : bool := bool_decide (rrd_reason d = reason).

Definition matrixraft_validate_read_safety_evidence_artifact (artifact : ReadSafetyEvidenceArtifact)
    : ReadSafetyEvidenceValidationReport :=
  let schema_valid := bool_decide (rse_schema artifact = "rustraft.read_safety_evidence.v1") in
  let rejected (d : ReadSafetyRuntimeDecision) flag reason := negb (rrd_allowed d) && flag d && reason_is d reason in
  let stale_leader_lease_rejected :=
    rejected (rse_stale_leader_lease artifact) rrd_stale_leader_lease_rejected "stale_leader_lease" in
  let lagging_follower_read_rejected :=
    rejected (rse_lagging_follower_read artifact) rrd_lagging_follower_read_rejected "replica_lagging" in
  let stale_follower_write_rejected :=
    rejected (rse_stale_follower_write artifact) rrd_stale_follower_write_rejected "not_leader" in
  let bounded_stale_read_accepted :=
    rrd_allowed (rse_bounded_stale_read_accept artifact) && reason_is (rse_bounded_stale_read_accept artifact) "safe" in
  let bounded_stale_read_rejected :=
    rejected (rse_bounded_stale_read_reject artifact) rrd_lagging_follower_read_rejected "replica_lagging" in
  let minority_partition_read_rejected :=
    rejected (rse_minority_partition_read artifact) rrd_minority_partition_read_rejected "minority_partition" in
  let minority_partition_write_rejected :=
    rejected (rse_minority_partition_write artifact) rrd_minority_partition_write_rejected "minority_partition" in
  let healed_follower_catchup_observed :=
    rrd_allowed (rse_healed_follower_catchup artifact)
    && rrd_healed_follower_catchup_observed (rse_healed_follower_catchup artifact) in
  let missing :=
    snd <$> filter (fun requirement : bool * string => requirement.1 = false)
      [(schema_valid, "schema_valid");
       (stale_leader_lease_rejected, "stale_leader_lease_rejected");
       (lagging_follower_read_rejected, "lagging_follower_read_rejected");
       (stale_follower_write_rejected, "stale_follower_write_rejected");
       (bounded_stale_read_accepted, "bounded_stale_read_accepted");
       (bounded_stale_read_rejected, "bounded_stale_read_rejected");
       (minority_partition_read_rejected, "minority_partition_read_rejected");
       (minority_partition_write_rejected, "minority_partition_write_rejected");
       (healed_follower_catchup_observed, "healed_follower_catchup_observed")] in
  mkReadSafetyEvidenceValidationReport (bool_decide (missing = [])) schema_valid stale_leader_lease_rejected
    lagging_follower_read_rejected stale_follower_write_rejected bounded_stale_read_accepted
    bounded_stale_read_rejected minority_partition_read_rejected minority_partition_write_rejected
    healed_follower_catchup_observed missing.

(** ** The queue over time *)

Lemma notify_applied_split i queue :
  let '(ready, rest) := notify_applied i queue in
  exists front, queue = front ++ rest
    /\ ready = answered i true "read_index_applied" <$> front
    /\ Forall (fun p => fence_index p <= i)%N front
    /\ (forall p, head rest = Some p -> (i < fence_index p)%N).
Proof.
  induction queue as [|p queue IH]; cbn; [by exists []|]. destruct (N.leb_spec (fence_index p) i) as [Hp|Hp].
  - destruct (notify_applied i queue) as [ready rest]. destruct IH as (front & -> & -> & Hf & Hr).
    exists (p :: front). split_and!; [done|done|by constructor|done].
  - exists []. split_and!; [done|done|done|]. by intros ? [= <-].
Qed.

Inductive ReadQueueOp : Type :=
| RPush (request : ReadIndexRequest) (read_index : LogIndex)
| RNotify (applied_index : LogIndex)
| RRelease (applied_index : LogIndex) (reason : string).

(** A queue with the answers it has given. *)
Definition run_read_op (s : PendingReadIndexQueue * list PendingReadIndexResult) (op : ReadQueueOp)
    : PendingReadIndexQueue * list PendingReadIndexResult :=
  match op with
  | RPush request read_index => (snd (push request read_index s.1), s.2)
  | RNotify i => let '(answers, queue) := notify_applied i s.1 in (queue, s.2 ++ answers)
  | RRelease i reason => let '(answers, queue) := release_all i reason s.1 in (queue, s.2 ++ answers)
  end.
Definition run_reads (ops : list ReadQueueOp) : PendingReadIndexQueue * list PendingReadIndexResult :=
  foldl run_read_op ([], []) ops.

(** The reads asked for, in order, and those that were answered. *)
Definition asked (op : ReadQueueOp) : option PendingReadIndex :=
  match op with RPush request read_index => Some (mkPendingReadIndex request read_index) | _ => None end.
Definition answer_of (r : PendingReadIndexResult) : PendingReadIndex :=
  mkPendingReadIndex (prr_request r) (prr_read_index r).

Lemma answer_of_answered i b reason (l : list PendingReadIndex) : answer_of <$> (answered i b reason <$> l) = l.
Proof. rewrite <- list_fmap_compose. induction l as [|[] l IH]; [done|]. rewrite fmap_cons, IH. done. Qed.

(** Both parts of the trace, for the induction. *)
Definition reads_accounted (ops : list ReadQueueOp) (s : PendingReadIndexQueue * list PendingReadIndexResult) : Prop :=
  (answer_of <$> s.2) ++ s.1 = omap asked ops
  /\ Forall (fun r => prr_ready r = true -> fence_index (answer_of r) <= prr_applied_index r)%N s.2.

Lemma run_read_op_accounted ops s op :
  reads_accounted ops s -> reads_accounted (ops ++ [op]) (run_read_op s op).
Proof.
  destruct s as [queue answers]. intros [He Hf]. cbn in He, Hf. unfold reads_accounted. rewrite omap_app, <- He.
  destruct op as [request i|i|i reason]; cbn.
  - split; [|done]. by rewrite <- app_assoc.
  - pose proof (notify_applied_split i queue) as H. destruct (notify_applied i queue) as [ready rest].
    destruct H as (front & -> & -> & Hr & _). cbn. rewrite app_nil_r, fmap_app, answer_of_answered, app_assoc.
    split; [done|]. apply Forall_app. split; [done|]. apply Forall_fmap. eapply Forall_impl; [exact Hr|].
    intros [] Hp _. exact Hp.
  - rewrite !app_nil_r, fmap_app, answer_of_answered. split; [done|].
    apply Forall_app. split; [done|]. apply Forall_fmap, Forall_true. intros x Hx. discriminate Hx.
Qed.

(** The queue of pending reads answers every read once, in the order they
    were asked, and none too early. Over any sequence of pushes, apply
    notifications and releases, the answers given so far followed by the queue are
    the reads asked for, in order, and a read answered as ready was answered at an
    applied index that reaches both its read index and the commit index its
    request asks for. *)
Theorem pending_reads_answered_in_order ops :
  let '(queue, answers) := run_reads ops in
  (answer_of <$> answers) ++ queue = omap asked ops
  /\ Forall (fun r => prr_ready r = true ->
       (prr_read_index r <= prr_applied_index r /\ rir_min_commit_index (prr_request r) <= prr_applied_index r)%N) answers.
Proof.
  assert (reads_accounted ops (run_reads ops)) as [He Hf].
  { unfold run_reads. induction ops as [|op ops IH] using rev_ind; [by split; [|constructor]|].
    rewrite foldl_app. cbn. by apply run_read_op_accounted. }
  destruct (run_reads ops) as [queue answers]. split; [exact He|]. eapply Forall_impl; [exact Hf|].
  intros r Hr Hready. specialize (Hr Hready). unfold fence_index in Hr. cbn in Hr. lia.
Qed.

(** A notification leaves nothing behind that it could serve: what stays waits
    behind a read whose fence is still ahead. *)
Lemma notify_applied_drains i queue :
  Forall (fun p => fence_index p <= i)%N queue -> snd (notify_applied i queue) = [].
Proof.
  intros Hq. pose proof (notify_applied_split i queue) as H. destruct (notify_applied i queue) as [ready rest].
  destruct H as (front & -> & _ & _ & Hr). apply Forall_app in Hq as [_ Hq]. cbn.
  destruct rest as [|p rest]; [done|]. specialize (Hr p eq_refl). apply Forall_cons in Hq as [Hq _]. lia.
Qed.

(** ** The runtime decision *)

(** When an operation on a node is allowed. *)
Definition runtime_allows (input : ReadSafetyRuntimeInput) : Prop :=
  match rsi_operation input with
  | WriteOp => rsi_node_id input = rsi_leader_id input /\ rsi_has_majority input = true
  | op =>
      rsi_node_alive input = true /\ rsi_role_can_serve_data input = true
      /\ (op = LeaseRead -> rsi_leader_lease_valid input = true)
      /\ (op <> BoundedStaleRead -> rsi_has_majority input = true)
      /\ (rsi_leader_commit_index input - rsi_node_commit_index input
          <= if bool_decide (op = BoundedStaleRead) then rsi_max_stale_index_lag input else 0)%N
  end.

(** What the runtime decision allows. A write is allowed on the leader of a
    majority only; a read needs a live node that serves data, a lease when it is
    a lease read, a majority unless it is a bounded stale read, and a replica that
    lags at most the allowed bound (none at all for the other reads). A read that
    is allowed is served at the node's own commit index, and a refusal never
    claims that the follower caught up. *)
Theorem runtime_decision_allows input :
  let d := matrixraft_read_safety_runtime_decision input in
  (rrd_allowed d = true <-> runtime_allows input)
  /\ (rsi_operation input <> WriteOp -> rrd_read_index d = rsi_node_commit_index input)
  /\ (rrd_healed_follower_catchup_observed d = true ->
      rrd_allowed d = true /\ rsi_node_id input <> rsi_leader_id input
      /\ rsi_node_commit_index input = rsi_leader_commit_index input).
Proof.
  destruct input as [op node leader alive serves lease majority nc lc lag]. unfold runtime_allows,
    matrixraft_read_safety_runtime_decision, saturating_sub. cbn.
  destruct (N.eqb_spec node leader); destruct op, majority, alive, serves, lease; cbn;
    repeat case_match; cbn; rewrite ?andb_true_iff, ?N.eqb_eq, ?N.ltb_lt, ?N.ltb_ge in *; naive_solver lia.
Qed.

(** ** The conformance vector *)

Example conformance_vector_validates :
  rsv_valid (matrixraft_validate_read_safety_evidence_artifact matrixraft_read_safety_evidence_artifact) = true.
Proof. vm_compute. reflexivity. Qed.
