(* ===== verification/Reads.v ===== *)
(** * Reads and leader transfer of the group

    Models, of [RaftCluster] ([src/facade/cluster_runtime.rs]), the read side
    ([read_index], [read_path_report], [lease_read_eligible],
    [read_quorum_report]) and the operations that hand leadership over
    ([begin_leader_transfer], [transfer_leader_outcome],
    [try_complete_leader_transfer], [closest_follower], [step_down],
    [resign_leader]), with the admission of a transfer from [src/status.rs].

    The theorems: when a read is served ([Tenure.v] has what it has seen); that the
    quorum of the report is the live quorum; that a report that calls a read safe is at
    least as strict as the read itself; which follower is the closest; what each
    outcome of a transfer means; that a transfer ends by its timeout; what a
    resignation leaves. *)

From stdpp Require Import base strings pretty numbers sorting gmap fin_maps sets list.
From S2P Require Import Prelude Types Slice Membership Node Config Pipeline Cluster Election Append GroupInv ReadSafety.

(** ** Reads *)

(** The node's answer to a read that the group's state lets it consider. *)
Definition read_index_at (request : ReadIndexRequest) (node : Node) (c : RaftCluster) : ReadIndexResponse :=
  let unsafe reason := mkReadIndexResponse false (nd_commit_index node) false reason in
  if negb (nd_healthy node) then unsafe "node_unhealthy"
  else if negb (bool_decide (rc_leader_id c = Some (rir_requester_id request))) then unsafe "not_leader"
  else
    let lease_read :=
      rir_allow_lease_read request && enable_lease_read (rc_config c) && rc_leader_lease_valid c in
    if negb (has_live_quorum c) && negb lease_read then unsafe "no_live_quorum"
    else if (nd_safety_applied_index node <? rir_min_commit_index request)%N
    then unsafe "applied_index_behind_min_commit"
    else
      let read_index := N.max (nd_commit_index node) (rc_last_index_before_current_term c +s 1) in
      if (nd_safety_applied_index node <? read_index)%N
      then mkReadIndexResponse false read_index false "applied_index_behind_read_index"
      else mkReadIndexResponse true read_index lease_read (if lease_read then "lease_read" else "read_index").

Definition read_index (request : ReadIndexRequest) (c : RaftCluster) : Result ReadIndexResponse :=
  _ ← require_running "read" c;
  if negb (rir_group_id request =? rc_group_id c)%N
  then Err (InvalidRequest "read index group id mismatch")
  else
    node ← get_node (rir_requester_id request) c;
    Ok (read_index_at request node c).

Definition lease_read_eligible (node_id : NodeId) (min_commit_index : LogIndex) (c : RaftCluster) : Result bool :=
  response ← read_index (mkReadIndexRequest (rc_group_id c) node_id min_commit_index true) c;
  Ok (rresp_safe response && rresp_lease_read response).

Record ReadQuorumReport := mkReadQuorumReport {
  rq_required : N;
  rq_live_voters : list NodeId;
  rq_live_witnesses : list NodeId;
  rq_acknowledgements : list NodeId;
  rq_reached : bool
}.

Definition read_quorum_report (c : RaftCluster) : ReadQuorumReport :=
  let nodes := bt_values (rc_nodes c) in
  let '(voter_count, witness_count) :=
    foldl (fun '(voters, witnesses) node =>
             match nd_replica_role node with
             | Voter => (S voters, witnesses)
             | Witness => (voters, S witnesses)
             | Learner => (voters, witnesses)
             end) (0, 0)%nat nodes in
  let '(live_voters, live_witnesses) :=
    foldl (fun '(voters, witnesses) node =>
             match nd_replica_role node with
             | Voter => (voters ++ [nd_id node], witnesses)
             | Witness => if negb (rc_ignore_witness c) then (voters, witnesses ++ [nd_id node])
                          else (voters, witnesses)
             | Learner => (voters, witnesses)
             end) ([], []) (filter (fun node => nd_healthy node = true) nodes) in
  let acknowledgements := live_voters ++ live_witnesses in
  let required := N.of_nat (matrixraft_quorum_size voter_count witness_count (rc_ignore_witness c)) in
  mkReadQuorumReport required live_voters live_witnesses acknowledgements
    (required <=? N.of_nat (length acknowledgements))%N.

Record ReadPathReport := mkReadPathReport {
  rp_safe : bool;
  rp_read_index : LogIndex;
  rp_lease_read : bool;
  rp_stale_leader_rejected : bool;
  rp_reason : string;
  rp_quorum : ReadQuorumReport;
  rp_applied_index_fence : AppliedIndexFenceReport;
  rp_lease_read_eligibility : LeaseReadEligibilityReport;
  rp_bounded_stale : option BoundedStaleReadReport
}.

(** The report, from the answer [answer] of the read itself. *)
Definition read_path_report_of (request : ReadIndexRequest) (max_stale_index_lag : LogIndex) (node : Node)
    (answer : ReadIndexResponse) (c : RaftCluster) : ReadPathReport :=
  let quorum := read_quorum_report c in
  let fence := matrixraft_applied_index_fence_report (rir_min_commit_index request)
                 (nd_commit_index node) (nd_applied_index node) in
  let eligibility :=
    matrixraft_lease_read_eligibility_report (rir_requester_id request) (rc_leader_id c)
      (enable_lease_read (rc_config c) && rir_allow_lease_read request) (rc_leader_lease_valid c)
      (aif_passed fence) in
  let bounded_stale :=
    (fun leader_id => matrixraft_bounded_stale_read_report (rir_requester_id request) leader_id
       (nd_commit_index node) (rc_commit_index c) max_stale_index_lag) <$> rc_leader_id c in
  let stale_leader_rejected :=
    rir_allow_lease_read request && bool_decide (rc_leader_id c = Some (rir_requester_id request))
    && negb (rc_leader_lease_valid c) in
  let safe := rresp_safe answer && rq_reached quorum && aif_passed fence
              && default true (bsr_allowed <$> bounded_stale) in
  let reason :=
    if negb (nd_healthy node) then "node_unhealthy"
    else if negb (rq_reached quorum) then "no_live_quorum"
    else if negb (aif_passed fence) then aif_reason fence
    else if default false ((fun report => negb (bsr_allowed report)) <$> bounded_stale) then "replica_lagging"
    else if stale_leader_rejected then "stale_leader_lease"
    else if rresp_lease_read answer then "lease_read"
    else "read_index_quorum" in
  mkReadPathReport safe (rresp_read_index answer) (rresp_lease_read answer && safe) stale_leader_rejected
    reason quorum fence eligibility bounded_stale.

Definition read_path_report (request : ReadIndexRequest) (max_stale_index_lag : LogIndex) (c : RaftCluster)
    : Result ReadPathReport :=
  if negb (rir_group_id request =? rc_group_id c)%N
  then Err (InvalidRequest "read path group id mismatch")
  else
    node ← get_node (rir_requester_id request) c;
    let quorum := read_quorum_report c in
    let fence := matrixraft_applied_index_fence_report (rir_min_commit_index request)
                   (nd_commit_index node) (nd_applied_index node) in
    answer ← (if bool_decide (rc_leader_id c = Some (rir_requester_id request)) then read_index request c
              else Ok (mkReadIndexResponse (nd_healthy node && rq_reached quorum && aif_passed fence)
                         (nd_commit_index node) false "bounded_stale_read"));
    Ok (read_path_report_of request max_stale_index_lag node answer c).

(** ** Handing leadership over *)

Definition matrixraft_leader_transfer_admission_kind (local_id transferee_id : NodeId)
    (current_transferee_id : option NodeId) (transferee_role : option ReplicaRole)
    : LeaderTransferAdmissionKind :=
  if (transferee_id =? local_id)%N then IgnoredSelf
  else match transferee_role with
       | None => IgnoredUnknownPeer
       | Some role =>
           if negb (can_be_leader role) then IgnoredIneligiblePeer
           else if bool_decide (current_transferee_id = Some transferee_id) then Duplicate
           else if bool_decide (is_Some current_transferee_id) then Replaced
           else Accepted
       end.

(** The group has a leader that is in office. *)
Definition leader_in_office (c : RaftCluster) : option NodeId :=
  match rc_leader_id c with
  | None => None
  | Some leader_id =>
      match rc_nodes c !! leader_id with
      | None => None
      | Some leader =>
          if negb (bool_decide (nd_raft_role leader = Leader)) || negb (nd_healthy leader) then None
          else Some leader_id
      end
  end.

(** A repeated request only updates the counters and the reason. *)
Definition note_duplicate_transfer (c : RaftCluster) : RaftCluster :=
  let c := c <| rc_duplicate_leader_transfer_requests ::= (fun n => n +s 1) |> in
  match active_leader_transfer c with
  | None => c
  | Some transfer =>
      c <| rc_leader_transfer :=
             Some (transfer <| lt_duplicate_requests ::= (fun n => n +s 1) |>
                            <| lt_reason := "duplicate_transfer_in_progress" |>) |>
  end.

(** The record of an admitted request: both arms of the source fill every field. *)
Definition open_transfer (target : NodeId) (target_node : Node) (c : RaftCluster) : RaftCluster :=
  let replacing := bool_decide (is_Some (active_leader_transfer c)) in
  let aborted_transfers := rc_aborted_leader_transfers c +w (if replacing then 1 else 0)%N in
  let c := if replacing then c <| rc_aborted_leader_transfers := aborted_transfers |> else c in
  let reason :=
    if negb (nd_healthy target_node) then "waiting_for_transferee_available"
    else if (rc_last_log_index c <=? match_index target_node)%N then "transfer_ready"
    else "waiting_for_transferee_catchup" in
  c <| rc_leader_transfer :=
         Some (mkLeaderTransferState target 0 (rc_leader_transfer_timeout_ticks c) aborted_transfers
                 (rc_duplicate_leader_transfer_requests c) reason None) |>.

Definition begin_leader_transfer (target : NodeId) : Cluster (option LeaderTransferState) := fun c =>
  match leader_in_office c with
  | None => (Err NoLeader, c)
  | Some leader_id =>
      let kind := matrixraft_leader_transfer_admission_kind leader_id target
                    (lt_transferee_id <$> active_leader_transfer c)
                    (nd_replica_role <$> rc_nodes c !! target) in
      match kind with
      | Duplicate => let c := note_duplicate_transfer c in (Ok (active_leader_transfer c), c)
      | Accepted | Replaced =>
          match rc_nodes c !! target with
          | None => (Err (NodeNotFound target), c)
          | Some target_node =>
              let c := open_transfer target target_node c in (Ok (active_leader_transfer c), c)
          end
      | _ => (Ok None, c)
      end
  end.

Definition leader_transfer_target_caught_up (target : NodeId) (c : RaftCluster) : Result bool :=
  target_node ← get_node target c;
  Ok (nd_healthy target_node && (rc_last_log_index c <=? match_index target_node)%N).

(** The campaign of the transferee and the record of its success. *)
Definition hand_over (target : NodeId) : Cluster unit := fun c =>
  match campaign target true c with
  | (Err e, c) => (Err e, c)
  | (Ok _, c) => (Ok tt, snd (complete_leader_transfer "transfer_complete" c))
  end.

Definition transfer_leader_outcome (target : NodeId) : Cluster LeaderTransferOutcome := fun c =>
  match begin_leader_transfer target c with
  | (Err e, c) => (Err e, c)
  | (Ok None, c) => (Ok Ignored, c)
  | (Ok (Some _), c) =>
      match leader_transfer_target_caught_up target c with
      | Err e => (Err e, c)
      | Ok false => (Ok Pending, c)
      | Ok true => (_ ← hand_over target; mret Transferred) c
      end
  end.

Definition transfer_leader (target : NodeId) : Cluster unit :=
  _ ← transfer_leader_outcome target; mret tt.

Definition try_complete_leader_transfer : Cluster bool := fun c =>
  match active_leader_transfer c with
  | None => (Ok false, c)
  | Some transfer =>
      let target := lt_transferee_id transfer in
      match leader_transfer_target_caught_up target c with
      | Err e => (Err e, c)
      | Ok false => (Ok false, c)
      | Ok true => (_ ← hand_over target; mret true) c
      end
  end.

(** One round of the loop of [closest_follower]: the best match index so far, the
    smallest id above the leader's and the smallest id that reach it. *)
Definition closest_step (leader_id : NodeId) (acc : option LogIndex * option NodeId * option NodeId) (node : Node)
    : option LogIndex * option NodeId * option NodeId :=
  let '(best_match_index, successor, wrapped) := acc in
  if (nd_id node =? leader_id)%N || negb (nd_healthy node) || negb (can_be_leader (nd_replica_role node)) then acc
  else
    let match_index := match_index node in
    let record '(best, successor, wrapped) :=
      (best, (if (leader_id <? nd_id node)%N
              then Some (match successor with None => nd_id node | Some current => N.min current (nd_id node) end)
              else successor),
       Some (match wrapped with None => nd_id node | Some current => N.min current (nd_id node) end)) in
    match best_match_index with
    | Some best =>
        if (match_index <? best)%N then acc
        else if (match_index =? best)%N then record acc
        else record (Some match_index, None, None)
    | None => record (Some match_index, None, None)
    end.

Definition closest_follower (c : RaftCluster) : option NodeId :=
  leader_id ← rc_leader_id c;
  let '(_, successor, wrapped) := foldl (closest_step leader_id) (None, None, None) (bt_values (rc_nodes c)) in
  match successor with Some id => Some id | None => wrapped end.

Definition step_down (transferee : option NodeId) : Cluster (option NodeId) := fun c =>
  match (match transferee with Some target => Some target | None => closest_follower c end) with
  | None => (Err (InvalidRequest "no healthy follower to step down to"), c)
  | Some target => (_ ← transfer_leader target; mret (Some target)) c
  end.

(** What every resignation clears. *)
Definition leave_office (reason : string) (c : RaftCluster) : RaftCluster :=
  let c := c <| rc_leader_id := None |> in
  let c := invalidate_leader_lease c in
  let c := invalidate_follower_lease c in
  let c := snd (abort_leader_transfer reason c) in
  let c := clear_election_responses c in
  clear_reorder_queues c.

Definition resign_leader : Cluster bool := fun c =>
  match require_running "resign" c with
  | Err e => (Err e, c)
  | Ok _ =>
      match rc_leader_id c with
      | None => (Ok false, c)
      | Some leader_id =>
          match rc_nodes c !! leader_id with
          | None => (Ok false, leave_office "resign_missing_leader" c)
          | Some leader =>
              let c := on_node leader_id (fun node =>
                         if can_be_leader (nd_replica_role node)
                         then node <| nd_raft_role := Follower |> <| nd_auto_promote := false |>
                         else node) c in
              (Ok true, refresh_replication_pipelines (leave_office "resign_leader" c))
          end
      end
  end.

(** ** When a read is served *)

(** The conditions of a read on the leader [n]. *)
Definition read_conditions (request : ReadIndexRequest) (n : Node) (c : RaftCluster) : Prop :=
  nd_healthy n = true /\ rc_leader_id c = Some (rir_requester_id request)
  /\ (has_live_quorum c = true
      \/ (rir_allow_lease_read request = true /\ enable_lease_read (rc_config c) = true
          /\ rc_leader_lease_valid c = true))
  /\ (rir_min_commit_index request <= nd_safety_applied_index n)%N
  /\ (nd_commit_index n <= nd_safety_applied_index n)%N
  /\ (rc_last_index_before_current_term c +s 1 <= nd_safety_applied_index n)%N.

Lemma read_index_at_safe request n c :
  rresp_safe (read_index_at request n c) = true ->
  read_conditions request n c
  /\ rresp_read_index (read_index_at request n c)
     = N.max (nd_commit_index n) (rc_last_index_before_current_term c +s 1).
Proof.
  unfold read_index_at, read_conditions. destruct (nd_healthy n); [|done]. cbn [negb].
  case_bool_decide as Hl; [|done]. cbn [negb].
  destruct (negb (has_live_quorum c) && _) eqn:Hq; [done|].
  destruct (N.ltb_spec (nd_safety_applied_index n) (rir_min_commit_index request)); [done|]. cbn zeta.
  destruct (N.ltb_spec (nd_safety_applied_index n)
    (N.max (nd_commit_index n) (rc_last_index_before_current_term c +s 1))); [done|].
  intros _. split; [|done]. split_and!; [done|done| |done|lia|lia].
  destruct (has_live_quorum c), (rir_allow_lease_read request), (enable_lease_read (rc_config c)),
    (rc_leader_lease_valid c); naive_solver.
Qed.

Lemma read_index_at_served request n c :
  read_conditions request n c -> rresp_safe (read_index_at request n c) = true.
Proof.
  intros (H1 & H2 & H3 & H4 & H5 & H6). unfold read_index_at. rewrite H1. cbn [negb].
  rewrite bool_decide_eq_true_2 by done. cbn [negb].
  replace (negb (has_live_quorum c) && _) with false
    by (destruct H3 as [->|(-> & -> & ->)]; [done|by rewrite andb_false_r]).
  rewrite (proj2 (N.ltb_ge _ _)) by done. cbn zeta. rewrite (proj2 (N.ltb_ge _ _)) by lia. done.
Qed.

Lemma read_index_inv request c resp :
  read_index request c = Ok resp ->
  rc_running c = true /\ rir_group_id request = rc_group_id c
  /\ exists n, rc_nodes c !! rir_requester_id request = Some n /\ resp = read_index_at request n c.
Proof.
  unfold read_index, require_running. destruct (rc_running c); [|done]. cbn.
  destruct (N.eqb_spec (rir_group_id request) (rc_group_id c)); [|done]. cbn. unfold get_node, ok_or.
  destruct (rc_nodes c !! rir_requester_id request) as [n|]; [|done]. cbn. intros [= <-]. eauto 6.
Qed.

(** when a read is served. In a running group that is the request's, a known
    node serves the read exactly when it is the healthy leader, has a live quorum
    or a valid lease the request and the configuration allow, and its state
    machine is durable up to the index the request asks for, to its own commit
    index and past the last index of the terms before its own; the read index is
    then the larger of the last two. *)
Theorem read_index_served_iff request c resp :
  read_index request c = Ok resp ->
  exists n, rc_nodes c !! rir_requester_id request = Some n
    /\ (rresp_safe resp = true <-> read_conditions request n c)
    /\ (rresp_safe resp = true ->
        rresp_read_index resp = N.max (nd_commit_index n) (rc_last_index_before_current_term c +s 1)).
Proof.
  intros (_ & _ & n & Hn & ->)%read_index_inv. exists n. split; [done|].
  split; [|apply read_index_at_safe]. split; [apply read_index_at_safe|apply read_index_at_served].
Qed.

(** The leader of [sample_group] after its election, with the no-op applied. *)
Definition applied_leader : RaftCluster :=
  on_node 1 (fun n => n <| nd_applied_index := 1%N |> <| nd_safety_applied_index := 1%N |>)
    (snd (campaign 1 false sample_group)).
Definition sample_read : ReadIndexRequest := mkReadIndexRequest 7 1 0 false.

Lemma read_index_served_iff_witness :
  exists resp, read_index sample_read applied_leader = Ok resp /\ rresp_safe resp = true
    /\ rresp_read_index resp = 1%N.
Proof.
  destruct (read_index sample_read applied_leader) as [resp|] eqn:H; [|vm_compute in H; discriminate H].
  exists resp. split; [reflexivity|].
  destruct (read_index_served_iff sample_read applied_leader resp H) as (n & Hn & _ & Hi).
  vm_compute in H. injection H as <-. split; [reflexivity|reflexivity].
Defined.

(** A campaign that succeeds is of the leader already or takes office. *)
Lemma campaign_office k forced c c' :
  nodes_keyed c -> campaign k forced c = (Ok tt, c') ->
  (already_leading k c = true /\ c' = c) \/ office_taken k (rc_current_term c + 1) c c'.
Proof.
  intros Hkey. unfold campaign. destruct (campaign_refusal k forced c); [done|].
  destruct (already_leading k c); [intros [= <-]; by left|].
  destruct (checked_add _ 1) as [t|] eqn:Et; [|done]. apply checked_add_Some in Et as [-> _].
  set (t := (rc_current_term c + 1)%N) in *. pose proof (take_office_taken k t c Hkey) as Hot.
  set (c1 := take_office k t c) in *. clearbody c1. cbn zeta.
  destruct (rc_running c); [|intros [= <-]; by right]. unfold mbind, ST_bind.
  pose proof (broadcast_noop_office k t c c1 Hot) as Hb. destruct (broadcast_leader_noop c1) as [[lid|] c2]; [|done].
  destruct Hb as (Hot2 & _ & _). intros [= <-]. by right.
Qed.

(** ** The reported quorum *)

Lemma count_roles_fold l a b :
  foldl (fun '(voters, witnesses) node =>
           match nd_replica_role node with
           | Voter => (S voters, witnesses)
           | Witness => (voters, S witnesses)
           | Learner => (voters, witnesses)
           end) (a, b) l = (a + count_role Voter l, b + count_role Witness l)%nat.
Proof.
  unfold count_role. revert a b. induction l as [|n l IH]; intros a b; cbn [foldl].
  - by rewrite !filter_nil, !Nat.add_0_r.
  - rewrite !filter_cons. destruct (nd_replica_role n); rewrite IH; repeat case_decide; try done; cbn; f_equal; lia.
Qed.

Lemma live_ids_fold ignore l a b :
  let '(v, w) := foldl (fun '(voters, witnesses) node =>
           match nd_replica_role node with
           | Voter => (voters ++ [nd_id node], witnesses)
           | Witness => if negb ignore then (voters, witnesses ++ [nd_id node]) else (voters, witnesses)
           | Learner => (voters, witnesses)
           end) (a, b) l in
  length (v ++ w) = (length (a ++ b) + length (filter (fun n => in_quorum ignore n = true) l))%nat.
Proof.
  revert a b. induction l as [|n l IH]; intros a b; cbn [foldl]; [by rewrite filter_nil, Nat.add_0_r|].
  assert (length (filter (fun n => in_quorum ignore n = true) (n :: l))
          = ((if in_quorum ignore n then 1 else 0) + length (filter (fun n => in_quorum ignore n = true) l))%nat) as ->
    by (rewrite filter_cons; destruct (in_quorum ignore n); case_decide; done).
  unfold in_quorum at 1. destruct (nd_replica_role n).
  - specialize (IH (a ++ [nd_id n]) b). destruct (foldl _ _ _). rewrite IH, !length_app. cbn. lia.
  - specialize (IH a b). destruct (foldl _ _ _). by rewrite IH.
  - destruct ignore; cbn [negb].
    + specialize (IH a b). destruct (foldl _ _ _). by rewrite IH.
    + specialize (IH a (b ++ [nd_id n])). destruct (foldl _ _ _). rewrite IH, !length_app. cbn. lia.
Qed.

Lemma read_quorum_reached c : rq_reached (read_quorum_report c) = has_live_quorum c.
Proof.
  unfold read_quorum_report, has_live_quorum. cbn zeta. rewrite count_roles_fold. cbn [Nat.add].
  pose proof (live_ids_fold (rc_ignore_witness c)
    (filter (fun node => nd_healthy node = true) (bt_values (rc_nodes c))) [] []) as H.
  destruct (foldl _ ([], []) _) as [v w]. cbn [rq_reached]. rewrite H, list_filter_filter. cbn [length app Nat.add].
  set (live := length (filter (fun x => in_quorum _ x = true /\ _) _)).
  replace (length (filter _ _)) with live; [|subst live; apply filter_length_iff; intros n _; unfold in_quorum;
    destruct (nd_replica_role n), (nd_healthy n), (rc_ignore_witness c); cbn; naive_solver].
  apply Bool.eq_iff_eq_true. rewrite N.leb_le, Nat.leb_le. lia.
Qed.

(** The reported quorum is the live quorum. The report that lists the live
    voters and witnesses by id reaches its quorum exactly when the check of the
    read path, which only counts, has a live quorum. *)
Theorem read_quorum_report_is_live_quorum c : rq_reached (read_quorum_report c) = has_live_quorum c.
Proof. apply read_quorum_reached. Qed.

(** The report is at least as strict as the read. When it calls a read of
    the leader safe, the read itself is served at the reported index; when it
    calls a read of another node safe, the node is healthy, a live quorum exists,
    its applied index lies between the index asked for and its own commit index,
    and it lags the group's commit index by at most the allowed bound. *)
Theorem safe_report_is_strict request lag c report :
  read_path_report request lag c = Ok report -> rp_safe report = true ->
  exists n, rc_nodes c !! rir_requester_id request = Some n
    /\ nd_healthy n = true /\ has_live_quorum c = true
    /\ (rir_min_commit_index request <= nd_applied_index n <= nd_commit_index n)%N
    /\ (rc_leader_id c <> None -> (rc_commit_index c - nd_commit_index n <= lag)%N)
    /\ (rc_leader_id c = Some (rir_requester_id request) ->
        exists resp, read_index request c = Ok resp /\ rresp_safe resp = true
                     /\ rresp_read_index resp = rp_read_index report).
Proof.
  unfold read_path_report. destruct (negb _); [done|]. unfold get_node, ok_or.
  destruct (rc_nodes c !! rir_requester_id request) as [n|] eqn:Hn; [|done]. cbn [mbind result_bind].
  set (answer := if bool_decide _ then _ else _). destruct answer as [resp|] eqn:Ha; [|done]. cbn.
  intros [= <-]. cbn. rewrite !andb_true_iff, !N.leb_le. intros [[[Hs Hq] [Hf1 Hf2]] Hb].
  rewrite read_quorum_reached in Hq.
  exists n. subst answer. split; [done|]. split; [|split_and!; [done|done|done| |]].
  - case_bool_decide.
    + apply read_index_inv in Ha as (_ & _ & n' & Hn' & ->). rewrite Hn in Hn'. injection Hn' as <-.
      by apply read_index_at_safe in Hs as ((Hh & _) & _).
    + injection Ha as <-. cbn in Hs. by destruct (nd_healthy n).
  - intros Hl. destruct (rc_leader_id c); [|done]. cbn in Hb. by apply N.leb_le in Hb.
  - intros Hl. rewrite bool_decide_eq_true_2 in Ha by done. by exists resp.
Qed.

(** The leader with its no-op committed as well. *)
Definition committed_leader : RaftCluster :=
  on_node 1 (fun n => n <| nd_commit_index := 1%N |>) applied_leader.

Lemma safe_report_is_strict_witness :
  exists report, read_path_report sample_read 0 committed_leader = Ok report
    /\ exists resp, read_index sample_read committed_leader = Ok resp /\ rresp_safe resp = true
                    /\ rresp_read_index resp = rp_read_index report.
Proof.
  destruct (read_path_report sample_read 0 committed_leader) as [report|] eqn:H; [|vm_compute in H; discriminate H].
  assert (rp_safe report = true) as Hs by (revert H; vm_compute; intros [= <-]; reflexivity).
  exists report. split; [reflexivity|].
  destruct (safe_report_is_strict sample_read 0 committed_leader report H Hs) as (n & _ & _ & _ & _ & _ & Hr).
  apply Hr. vm_compute. reflexivity.
Defined.

(** A leader without a lease that is asked for a lease read serves it from its
    quorum: the report is safe and says at once that the stale leader was
    rejected. *)
Example safe_read_reported_as_rejected :
  match read_path_report (mkReadIndexRequest 7 1 0 true) 0 committed_leader with
  | Ok report => (rp_safe report, rp_stale_leader_rejected report, rp_reason report)
                 = (true, true, "stale_leader_lease")
  | Err _ => False
  end.
Proof. vm_compute. reflexivity. Qed.

(** ** The closest follower *)

(** [o] is the least element of [P], if it has one. *)
Definition least (P : N -> Prop) (o : option N) : Prop :=
  match o with
  | None => forall x, ~ P x
  | Some m => P m /\ forall x, P x -> (m <= x)%N
  end.

Lemma least_add (P Q : N -> Prop) o i :
  least P o -> (forall x, Q x <-> P x \/ x = i) ->
  least Q (Some (match o with None => i | Some current => N.min current i end)).
Proof.
  intros Hp HQ. destruct o as [m|]; cbn in *.
  - split; [|intros x [Hx|Hx]%HQ; [apply Hp in Hx|subst x]; lia]. apply HQ.
    destruct (N.min_spec m i) as [[_ ->]|[_ ->]]; [left; apply Hp|by right].
  - split; [apply HQ; by right|]. intros x [Hx|Hx]%HQ; [by apply Hp in Hx|by subst x].
Qed.

Lemma least_ext (P Q : N -> Prop) o : least P o -> (forall x, Q x <-> P x) -> least Q o.
Proof. intros Hp HQ. destruct o; cbn in *; [|naive_solver]. split; [apply HQ, Hp|]. intros x Hx%HQ. by apply Hp. Qed.

(** The nodes leadership can go to. *)
Definition successor_candidate (leader_id : NodeId) (n : Node) : Prop :=
  nd_id n <> leader_id /\ nd_healthy n = true /\ nd_replica_role n = Voter.

(** The ids of the candidates in [l] that have matched [i]. *)
Definition tied (leader_id : NodeId) (l : list Node) (i : LogIndex) (x : N) : Prop :=
  exists n, n ∈ l /\ successor_candidate leader_id n /\ match_index n = i /\ nd_id n = x.

Definition closest_inv (leader_id : NodeId) (l : list Node) (acc : option LogIndex * option NodeId * option NodeId) : Prop :=
  let '(best, successor, wrapped) := acc in
  match best with
  | None => (forall n, n ∈ l -> ~ successor_candidate leader_id n) /\ successor = None /\ wrapped = None
  | Some b =>
      (forall n, n ∈ l -> successor_candidate leader_id n -> (match_index n <= b)%N)
      /\ wrapped <> None /\ least (tied leader_id l b) wrapped
      /\ least (fun x => tied leader_id l b x /\ (leader_id < x)%N) successor
  end.

Lemma tied_snoc leader_id l node i x :
  tied leader_id (l ++ [node]) i x
  <-> tied leader_id l i x \/ (successor_candidate leader_id node /\ match_index node = i /\ nd_id node = x).
Proof.
  unfold tied. split.
  - intros (n & [Hn|Hn%list_elem_of_singleton]%elem_of_app & ?); [left; by exists n|right; by subst n].
  - intros [(n & Hn & ?)|?]; [exists n|exists node]; rewrite elem_of_app, ?list_elem_of_singleton; tauto.
Qed.

Lemma closest_record leader_id l node successor wrapped :
  successor_candidate leader_id node ->
  (forall n, n ∈ l -> successor_candidate leader_id n -> (match_index n <= match_index node)%N) ->
  least (tied leader_id l (match_index node)) wrapped ->
  least (fun x => tied leader_id l (match_index node) x /\ (leader_id < x)%N) successor ->
  closest_inv leader_id (l ++ [node])
    (Some (match_index node),
     (if (leader_id <? nd_id node)%N
      then Some (match successor with None => nd_id node | Some current => N.min current (nd_id node) end)
      else successor),
     Some (match wrapped with None => nd_id node | Some current => N.min current (nd_id node) end)).
Proof.
  intros Hc Hle Hw Hs.
  assert (forall x, tied leader_id (l ++ [node]) (match_index node) x
                    <-> tied leader_id l (match_index node) x \/ x = nd_id node) as Ht.
  { intros x. rewrite tied_snoc. split.
    - intros [?|(_ & _ & ?)]; [by left|by right].
    - intros [?| ->]; [by left|by right]. }
  split_and!; [|done| |].
  - intros n [Hn|Hn%list_elem_of_singleton]%elem_of_app Hcn; [by apply Hle|by subst n].
  - by apply (least_add (tied leader_id l (match_index node))).
  - destruct (N.ltb_spec leader_id (nd_id node)).
    + eapply least_add; [exact Hs|]. intros x. cbn. rewrite Ht. intuition congruence.
    + eapply least_ext; [exact Hs|]. intros x. cbn. rewrite Ht. intuition (subst; lia).
Qed.

Lemma closest_step_inv leader_id l acc node :
  closest_inv leader_id l acc -> closest_inv leader_id (l ++ [node]) (closest_step leader_id acc node).
Proof.
  destruct acc as [[best successor] wrapped]. unfold closest_step.
  assert (forall n, n ∈ l ++ [node] <-> n ∈ l \/ n = node) as Hin by set_solver.
  destruct (_ || _) eqn:Hc.
  - assert (~ successor_candidate leader_id node) as Hno.
    { intros (H1 & H2 & H3). rewrite H2, H3, (proj2 (N.eqb_neq _ _) H1) in Hc. done. }
    destruct best as [b|]; cbn; intros H.
    2: { destruct H as (H1 & H2 & H3). split; [|by split]. intros n [Hn|Hn]%Hin; [by apply H1|by subst n]. }
    destruct H as (H1 & H2 & H3 & H4). split_and!; [|done| |].
    + intros n [Hn|Hn]%Hin Hs; [by apply H1|congruence].
    + eapply least_ext; [exact H3|]. intros x. cbn. rewrite tied_snoc. tauto.
    + eapply least_ext; [exact H4|]. intros x. cbn. rewrite tied_snoc. tauto.
  - assert (successor_candidate leader_id node) as Hyes.
    { apply orb_false_iff in Hc as [[H1 H2]%orb_false_iff H3]. unfold successor_candidate.
      apply N.eqb_neq in H1. destruct (nd_healthy node), (nd_replica_role node); done. }
    assert (forall m, (forall n, n ∈ l -> successor_candidate leader_id n -> (match_index n < m)%N) ->
              least (tied leader_id l m) None /\ least (fun x => tied leader_id l m x /\ (leader_id < x)%N) None) as Hnone.
    { intros m Hm. cbn. unfold tied. split; [intros x (n & Hn & Hcn & Hmn & _)|intros x [(n & Hn & Hcn & Hmn & _) _]];
        specialize (Hm n Hn Hcn); lia. }
    destruct best as [b|]; cbn; [intros (H1 & H2 & H3 & H4)|intros (H1 & _ & _)].
    + destruct (N.ltb_spec (match_index node) b) as [Hlt|Hge].
      * cbn. split_and!; [|done| |].
        -- intros n [Hn|Hn]%Hin Hcn; [by apply H1|subst n; lia].
        -- eapply least_ext; [exact H3|]. intros x. cbn. rewrite tied_snoc. intuition lia.
        -- eapply least_ext; [exact H4|]. intros x. cbn. rewrite tied_snoc. intuition lia.
      * destruct (N.eqb_spec (match_index node) b) as [<-|Hne].
        -- by apply closest_record.
        -- destruct (Hnone (match_index node)) as [Hw Hs]; [intros n Hn Hcn; specialize (H1 n Hn Hcn); lia|].
           apply (closest_record leader_id l node None None); [done| |done|done]. intros n Hn Hcn. specialize (H1 n Hn Hcn). lia.
    + destruct (Hnone (match_index node)) as [Hw Hs]; [intros n Hn Hcn; by destruct (H1 n Hn)|].
      apply (closest_record leader_id l node None None); [done| |done|done]. intros n Hn Hcn. by destruct (H1 n Hn).
Qed.

(** The closest follower. It is a healthy voter other than the leader whose
    log reaches furthest among those; between nodes that are equally far it is the
    one with the next id above the leader's, or the smallest id when none is above.
    There is none exactly when the group has no leader or no such voter. *)
Theorem closest_follower_is_closest c :
  match closest_follower c with
  | None => forall leader_id, rc_leader_id c = Some leader_id ->
              forall n, n ∈ bt_values (rc_nodes c) -> ~ successor_candidate leader_id n
  | Some x => exists leader_id n, rc_leader_id c = Some leader_id /\ n ∈ bt_values (rc_nodes c)
      /\ successor_candidate leader_id n /\ nd_id n = x
      /\ forall m, m ∈ bt_values (rc_nodes c) -> successor_candidate leader_id m ->
           (match_index m < match_index n)%N
           \/ (match_index m = match_index n
               /\ ((leader_id < nd_id m -> leader_id < x /\ x <= nd_id m)
                   /\ (nd_id m < x -> leader_id < x /\ nd_id m <= leader_id)))%N
  end.
Proof.
  unfold closest_follower. destruct (rc_leader_id c) as [leader_id|]; [|done]. cbn [mbind option_bind].
  assert (closest_inv leader_id (bt_values (rc_nodes c))
            (foldl (closest_step leader_id) (None, None, None) (bt_values (rc_nodes c)))) as H.
  { induction (bt_values (rc_nodes c)) as [|n l IH] using rev_ind.
    - cbn. split; [|done]. intros n Hn. by apply not_elem_of_nil in Hn.
    - rewrite foldl_app. by apply closest_step_inv. }
  destruct (foldl _ _ _) as [[[b|] successor] wrapped]; cbn in H.
  2: { destruct H as (H & -> & ->). intros l [= <-]. apply H. }
  destruct H as (H1 & H2 & H3 & H4). destruct successor as [x|]; [|destruct wrapped as [x|]; [|done]].
  - destruct H4 as [[(n & Hn & Hc & Hm & Hx) Hlt] Hle]. exists leader_id, n. split_and!; [done..|].
    intros m Hin Hcm. pose proof (H1 m Hin Hcm). destruct (N.eq_dec (match_index m) b) as [He|]; [right|left; lia].
    assert (leader_id < nd_id m -> x <= nd_id m)%N by (intros; apply Hle; split; [by exists m|done]). lia.
  - destruct H3 as [(n & Hn & Hc & Hm & Hx) Hle]. exists leader_id, n. split_and!; [done..|].
    intros m Hin Hcm. pose proof (H1 m Hin Hcm). destruct (N.eq_dec (match_index m) b) as [He|]; [right|left; lia].
    assert (x <= nd_id m)%N by (apply Hle; by exists m).
    assert (~ leader_id < nd_id m)%N by (intros Hlt; apply (H4 (nd_id m)); split; [by exists m|done]). lia.
Qed.

(** ** Leader transfer *)

Lemma open_transfer_active target n c :
  active_leader_transfer (open_transfer target n c)
  = Some (mkLeaderTransferState target 0 (rc_leader_transfer_timeout_ticks c)
            (rc_aborted_leader_transfers c +w (if bool_decide (is_Some (active_leader_transfer c)) then 1 else 0)%N)
            (rc_duplicate_leader_transfer_requests c)
            (if negb (nd_healthy n) then "waiting_for_transferee_available"
             else if (rc_last_log_index c <=? match_index n)%N then "transfer_ready"
             else "waiting_for_transferee_catchup") None).
Proof. unfold open_transfer. cbn zeta. by destruct (bool_decide _). Qed.

(** What the requests to transfer leave alone. *)
Definition transfer_frame (c c' : RaftCluster) : Prop :=
  rc_nodes c' = rc_nodes c /\ rc_leader_id c' = rc_leader_id c /\ rc_current_term c' = rc_current_term c
  /\ rc_last_log_index c' = rc_last_log_index c.

Lemma note_duplicate_transfer_spec t c :
  active_leader_transfer c = Some t ->
  transfer_frame c (note_duplicate_transfer c)
  /\ exists t', active_leader_transfer (note_duplicate_transfer c) = Some t' /\ lt_transferee_id t' = lt_transferee_id t.
Proof.
  intros Ha. unfold note_duplicate_transfer. cbn zeta.
  assert (active_leader_transfer (c <| rc_duplicate_leader_transfer_requests ::= (fun n => n +s 1) |>) = Some t) as -> by done.
  assert (lt_conclusion t = None) as Ht.
  { unfold active_leader_transfer in Ha. destruct (rc_leader_transfer c) as [u|]; [|done]. cbn in Ha.
    destruct (lt_conclusion u) eqn:Hu; [done|]. by injection Ha as <-. }
  split; [done|]. destruct t as [a1 a2 a3 a4 a5 a6 a7]. cbn in Ht. subst a7. eexists. by split.
Qed.

Lemma open_transfer_frame target n c : transfer_frame c (open_transfer target n c).
Proof. unfold open_transfer. cbn zeta. by destruct (bool_decide _). Qed.

(** What an admitted request leaves: a transfer to [target] is under way. *)
Lemma begin_leader_transfer_spec target c r c' :
  begin_leader_transfer target c = (Ok r, c') ->
  transfer_frame c c'
  /\ match r with
     | None => c' = c /\ (rc_leader_id c = Some target \/ forall n, rc_nodes c !! target = Some n -> nd_replica_role n <> Voter)
     | Some t => active_leader_transfer c' = Some t /\ lt_transferee_id t = target /\ rc_leader_id c <> Some target
                 /\ exists n, rc_nodes c !! target = Some n /\ nd_replica_role n = Voter
     end.
Proof.
  unfold begin_leader_transfer, leader_in_office. destruct (rc_leader_id c) as [leader_id|] eqn:Hl; [|done].
  destruct (rc_nodes c !! leader_id) as [leader|]; [|done]. destruct (_ || _); [done|].
  unfold matrixraft_leader_transfer_admission_kind. destruct (N.eqb_spec target leader_id) as [->|Hne].
  { intros [= <- <-]. split; [done|]. split; [done|by left]. }
  pose proof (fun n => open_transfer_active target n c) as HA. pose proof (fun n => open_transfer_frame target n c) as HF.
  generalize dependent (open_transfer target). intros open HA HF.
  destruct (rc_nodes c !! target) as [n|] eqn:Hn; cbn.
  2: { intros [= <- <-]. split; [done|]. split; [done|by right]. }
  destruct (nd_replica_role n) eqn:Hr; cbn.
  2,3: intros [= <- <-]; split; [done|]; split; [done|]; right; intros m [= <-]; congruence.
  destruct (bool_decide_reflect (lt_transferee_id <$> active_leader_transfer c = Some target)) as [Hdup|].
  - destruct (active_leader_transfer c) as [t|] eqn:Ha; [|done]. cbn in Hdup. injection Hdup as <-.
    destruct (note_duplicate_transfer_spec t c Ha) as (Hf & t' & Ha' & Ht).
    generalize dependent (note_duplicate_transfer c). intros c1 Hf Ha' [= <- <-]. rewrite Ha'.
    split; [done|]. split_and!; [done|done|congruence|by exists n].
  - specialize (HA n) as Ha. specialize (HF n) as Hf.
    set (t := mkLeaderTransferState target _ _ _ _ _ _) in Ha. assert (lt_transferee_id t = target) as Ht by done.
    clearbody t. generalize dependent (open n c). intros c1 Ha Hf. rewrite Ha.
    destruct (bool_decide (is_Some (lt_transferee_id <$> active_leader_transfer c))); intros Hr1; injection Hr1 as <- <-;
      (split; [exact Hf|]; split_and!; [exact Ha|exact Ht|congruence|by exists n]).
Qed.

Lemma hand_over_spec target c c' :
  nodes_keyed c -> rc_leader_id c <> Some target -> hand_over target c = (Ok tt, c') ->
  rc_leader_id c' = Some target /\ rc_current_term c' = (rc_current_term c + 1)%N
  /\ active_leader_transfer c' = None
  /\ forall id n, rc_nodes c' !! id = Some n -> (nd_raft_role n = Leader <-> id = target).
Proof.
  intros Hkey Hl. unfold hand_over. destruct (campaign target true c) as [[[]|] c1] eqn:Hc; [|done].
  destruct (campaign_office target true c c1 Hkey Hc) as [[Ha _]|Hot].
  { unfold already_leading in Ha. rewrite bool_decide_eq_false_2 in Ha by done. done. }
  intros [= <-]. destruct Hot as [H1 H2 _ _ _ H6]. unfold complete_leader_transfer.
  destruct (active_leader_transfer c1) as [t|] eqn:Ht; cbn [snd]; split_and!; try done; apply H6.
Qed.

(** what the outcome of a transfer means. An ignored request changed nothing,
    and its target was the leader or no voter of the group. A pending one leaves
    the leader and the term, and a transfer to the target is under way. After a
    transfer that reports success the target, a healthy voter whose log had
    reached the group's last index, is the only leader, one term later, and no
    transfer is left under way. *)
Theorem transfer_outcome_meaning target c outcome c' :
  nodes_keyed c -> transfer_leader_outcome target c = (Ok outcome, c') ->
  match outcome with
  | Ignored => c' = c /\ (rc_leader_id c = Some target
                          \/ forall n, rc_nodes c !! target = Some n -> nd_replica_role n <> Voter)
  | Pending => rc_leader_id c' = rc_leader_id c /\ rc_current_term c' = rc_current_term c /\ rc_nodes c' = rc_nodes c
               /\ lt_transferee_id <$> active_leader_transfer c' = Some target
  | Transferred =>
      (exists n, rc_nodes c !! target = Some n /\ nd_replica_role n = Voter /\ nd_healthy n = true
                 /\ (rc_last_log_index c <= match_index n)%N)
      /\ rc_leader_id c' = Some target /\ rc_current_term c' = (rc_current_term c + 1)%N
      /\ active_leader_transfer c' = None
      /\ forall id n, rc_nodes c' !! id = Some n -> (nd_raft_role n = Leader <-> id = target)
  end.
Proof.
  intros Hkey. unfold transfer_leader_outcome.
  destruct (begin_leader_transfer target c) as [[r|] c1] eqn:Hb; [|done].
  apply begin_leader_transfer_spec in Hb as ((Hn & Hl & Ht & Hi) & Hr).
  destruct r as [t|]; [|intros [= <- <-]; done]. destruct Hr as (Ha & Htgt & Hnl & n & Hnode & Hrole).
  unfold leader_transfer_target_caught_up, get_node, ok_or. rewrite Hn, Hnode. cbn [mbind result_bind].
  destruct (nd_healthy n && _) eqn:Hup.
  - apply andb_true_iff in Hup as [Hh Hup]. apply N.leb_le in Hup. rewrite Hi in Hup. unfold mbind, ST_bind.
    destruct (hand_over target c1) as [[[]|] c2] eqn:Hh2; [|done]. intros [= <- <-]. split; [by exists n|].
    rewrite <- Ht. apply hand_over_spec; [unfold nodes_keyed; by rewrite Hn|by rewrite Hl|done].
  - intros [= <- <-]. rewrite Ha. cbn. rewrite Htgt. by split_and!.
Qed.

(** The two followers of [applied_leader]: node 2 caught up, node 3 behind. *)
Lemma transfer_outcome_meaning_witness :
  rc_leader_id (snd (transfer_leader_outcome 2 applied_leader)) = Some 2%N
  /\ rc_current_term (snd (transfer_leader_outcome 2 applied_leader)) = 2%N.
Proof.
  assert (nodes_keyed applied_leader) as Hk by (apply (bool_decide_unpack _); vm_compute; exact I).
  assert (transfer_leader_outcome 2 applied_leader
          = (Ok Transferred, snd (transfer_leader_outcome 2 applied_leader))) as H by (vm_compute; reflexivity).
  destruct (transfer_outcome_meaning 2 applied_leader Transferred _ Hk H) as (_ & Hl & Ht & _).
  split; [exact Hl|]. rewrite Ht. vm_compute. reflexivity.
Defined.

(** *** Timeout *)

Definition ticks_of_transfer (k : nat) (c : RaftCluster) : RaftCluster :=
  Nat.iter k (fun c => snd (tick_leader_transfer c)) c.

Lemma tick_leader_transfer_active c t :
  active_leader_transfer c = Some t -> u64 (lt_elapsed_ticks t) ->
  match active_leader_transfer (snd (tick_leader_transfer c)) with
  | None => True
  | Some t' => lt_timeout_ticks t' = lt_timeout_ticks t /\ (lt_elapsed_ticks t' < lt_timeout_ticks t)%N
               /\ lt_elapsed_ticks t' = (lt_elapsed_ticks t +s 1)
  end.
Proof.
  intros Ha Hu. unfold tick_leader_transfer. rewrite Ha.
  assert (lt_conclusion t = None) as Hc.
  { unfold active_leader_transfer in Ha. destruct (rc_leader_transfer c) as [u|]; [|done]. cbn in Ha.
    destruct (lt_conclusion u) eqn:Hc; [done|]. by injection Ha as <-. }
  cbn zeta. destruct t as [a1 a2 a3 a4 a5 a6 a7]. cbn in Hc. subst a7. cbn [lt_timeout_ticks lt_elapsed_ticks].
  match goal with |- context [if ?b then _ else _] => destruct b eqn:Hb end; [done|].
  cbn in Hb |- *. apply N.leb_gt in Hb. done.
Qed.

Lemma ticks_of_transfer_idle k c :
  active_leader_transfer c = None -> active_leader_transfer (ticks_of_transfer k c) = None.
Proof.
  intros Hc. induction k as [|k IH]; [done|].
  change (ticks_of_transfer (S k) c) with (snd (tick_leader_transfer (ticks_of_transfer k c))).
  generalize dependent (ticks_of_transfer k c). intros c1 IH. unfold tick_leader_transfer. by rewrite IH.
Qed.

(** A leader transfer does not outlive its timeout. However a transfer under
    way got there, after as many ticks as its timeout has left it is concluded. *)
Theorem leader_transfer_times_out k c t :
  active_leader_transfer c = Some t -> u64 (lt_timeout_ticks t) -> u64 (lt_elapsed_ticks t) ->
  (lt_timeout_ticks t <= lt_elapsed_ticks t + N.of_nat (S k))%N ->
  active_leader_transfer (ticks_of_transfer (S k) c) = None.
Proof.
  revert c t. induction k as [|k IH]; intros c t Ha Hm Hu Hk; pose proof (tick_leader_transfer_active c t Ha Hu) as Ht;
    unfold ticks_of_transfer, saturating_add, u64 in *; rewrite Nat.iter_succ_r;
    destruct (active_leader_transfer (snd (tick_leader_transfer c))) as [t'|] eqn:Ha'.
  - lia.
  - exact Ha'.
  - destruct Ht as (H1 & H2 & H3). apply (IH _ t' Ha'); rewrite ?H1; lia.
  - by apply (ticks_of_transfer_idle (S k)).
Qed.

(** A transfer of [applied_leader] to node 3, which is away. *)
Definition waiting_transfer : RaftCluster :=
  snd (transfer_leader_outcome 3 (on_node 3 (fun n => n <| nd_healthy := false |>) applied_leader)).

Lemma leader_transfer_times_out_witness :
  lt_transferee_id <$> active_leader_transfer waiting_transfer = Some 3%N
  /\ active_leader_transfer (ticks_of_transfer 10 waiting_transfer) = None.
Proof.
  split; [vm_compute; reflexivity|].
  destruct (active_leader_transfer waiting_transfer) as [t|] eqn:Ha; [|vm_compute in Ha; discriminate Ha].
  refine (leader_transfer_times_out 9 waiting_transfer t Ha _ _ _);
    vm_compute in Ha; injection Ha as <-; vm_compute; discriminate.
Defined.

(** ** Resignation *)

Lemma refresh_replication_pipelines_only c :
  refresh_replication_pipelines c
  = c <| rc_peer_pipelines := rc_peer_pipelines (refresh_replication_pipelines c) |>.
Proof.
  unfold refresh_replication_pipelines. cbn zeta. set (f := fun (c : RaftCluster) (entry : N * Node) => _).
  assert (forall l c, foldl f c l = c <| rc_peer_pipelines := rc_peer_pipelines (foldl f c l) |>) as H.
  { induction l as [|[k n] l IH]; intros c0; [by destruct c0|]. cbn [foldl]. rewrite IH at 1.
    subst f. cbn. destruct (rc_peer_pipelines c0 !! k); by destruct c0. }
  specialize (H (bt_entries (rc_nodes c)) c). generalize dependent (foldl f c (bt_entries (rc_nodes c))).
  intros c1 Hc1. rewrite Hc1. destruct (rc_leader_id _); by destruct c.
Qed.

(** Everything of the group that a resignation clears. *)
Definition office_left (c' : RaftCluster) : Prop :=
  rc_leader_id c' = None /\ rc_leader_lease_valid c' = false /\ rc_follower_lease_valid c' = false
  /\ active_leader_transfer c' = None /\ rc_vote_responses c' = ∅ /\ rc_pre_vote_responses c' = ∅
  /\ rc_reorder_queues c' = ∅.

Lemma leave_office_spec reason c :
  office_left (leave_office reason c) /\ quiet c (leave_office reason c)
  /\ rc_nodes (leave_office reason c) = rc_nodes c.
Proof.
  assert (quiet c (leave_office reason c) /\ rc_nodes (leave_office reason c) = rc_nodes c) as [Hq Hn].
  { unfold leave_office. cbn zeta. unfold abort_leader_transfer. destruct (active_leader_transfer _);
      (split; [apply quiet_frame; [done|done|done|done|by right]|done]). }
  split; [|done]. unfold leave_office. cbn zeta. set (c1 := invalidate_follower_lease _).
  assert (rc_leader_id c1 = None /\ rc_leader_lease_valid c1 = false /\ rc_follower_lease_valid c1 = false)
    as (H1 & H2 & H3) by done. clearbody c1. unfold abort_leader_transfer.
  destruct (active_leader_transfer c1) eqn:Ha; cbn [snd]; by split_and!.
Qed.

(** What a resignation leaves. In a running group with a leader it leaves no
    leader, no valid lease, no transfer under way, no answer of an election and no
    reordered append; the leader that was a voter is a follower, and no term, vote
    or log has moved. *)
Theorem resignation_leaves_no_leader c r c' :
  resign_leader c = (Ok r, c') -> rc_leader_id c <> None ->
  office_left c' /\ quiet c c'
  /\ forall l n', rc_leader_id c = Some l -> rc_nodes c' !! l = Some n' ->
       nd_replica_role n' = Voter -> nd_raft_role n' = Follower.
Proof.
  unfold resign_leader. destruct (require_running _ c); [|done]. destruct (rc_leader_id c) as [l|]; [|done].
  intros H _. destruct (rc_nodes c !! l) as [leader|] eqn:Hl.
  - set (f := fun node => if can_be_leader _ then _ else _) in H.
    assert (quiet c (on_node l f c)) as Hq
      by (apply quiet_on_node_same; intros n; subst f; cbn; by destruct (can_be_leader _)).
    assert (forall n', rc_nodes (on_node l f c) !! l = Some n' -> nd_replica_role n' = Voter -> nd_raft_role n' = Follower) as Hf.
    { intros n'. cbn. rewrite lookup_alter_eq, Hl. cbn. intros [= <-]. subst f. cbn.
      destruct (can_be_leader (nd_replica_role leader)) eqn:Hb; [done|]. intros Hr. by rewrite Hr in Hb. }
    generalize dependent (on_node l f c). intros c1 H Hq Hf.
    destruct (leave_office_spec "resign_leader" c1) as (Ho & Hq2 & Hn).
    generalize dependent (leave_office "resign_leader" c1). intros c2 H Ho Hq2 Hn.
    rewrite refresh_replication_pipelines_only in H.
    generalize dependent (rc_peer_pipelines (refresh_replication_pipelines c2)). intros p [= _ <-].
    split; [exact Ho|]. split; [etrans; [exact Hq|]; etrans; [exact Hq2|quiet_fields]|].
    intros l' n' [= <-]. cbn. rewrite Hn. apply Hf.
  - destruct (leave_office_spec "resign_missing_leader" c) as (Ho & Hq & Hn).
    generalize dependent (leave_office "resign_missing_leader" c). intros c1 [= _ <-] Ho Hq Hn.
    split_and!; [done|done|]. intros l' n' [= <-]. by rewrite Hn, Hl.
Qed.

Lemma resignation_leaves_no_leader_witness : office_left (snd (resign_leader waiting_transfer)).
Proof.
  assert (resign_leader waiting_transfer = (Ok true, snd (resign_leader waiting_transfer))) as H
    by (vm_compute; reflexivity).
  apply (resignation_leaves_no_leader waiting_transfer true _ H). vm_compute. discriminate.
Defined.
