(* ===== verification/Reconfig.v ===== *)
(** * Membership changes of the group

    Models the operations of [RaftCluster] ([src/facade/cluster_runtime.rs]) that
    change who is in the group: [add_peer] with [add_learner] and [add_witness],
    [remove_peer], [apply_committed_membership_operation] (the operations of
    [src/facade/membership_executor.rs]), [reset_membership_from_snapshot],
    [restore_membership_from_record], [auto_promote_learner],
    [witness_quorum_report] and the learner reports.

    The theorems: the effect of adding and removing a node; that one operation
    changes the voters by at most one, so that quorums before and after overlap;
    that a reset leaves exactly the members of the snapshot; when a learner is
    promoted. *)

From stdpp Require Import base strings pretty numbers sorting gmap fin_maps sets list.
From S2P Require Import Prelude Types Slice Membership Node Config Pipeline Cluster Election Append GroupInv Replication ReplicationSafety Votes ReadSafety Reads.

(** ** Adding and removing *)

(** The state of a peer that joins, before it is caught up. *)
Definition admit_peer (peer : Peer) (c : RaftCluster) : RaftCluster :=
  let peer_id := peer_node_id peer in
  let limits := pipeline_limits (rc_config c) in
  let c := c <| rc_snapshot_installers ::= delete peer_id |>
             <| rc_pending_snapshots ::= delete peer_id |> in
  let c := clear_reorder_queue_for peer_id c in
  let c := c <| rc_nodes ::= <[peer_id := node_new peer_id (peer_role peer) (peer_auto_promote peer)]> |>
             <| rc_peer_pipelines ::= <[peer_id := pipeline_new peer_id (rc_last_log_index c +w 1) limits]> |> in
  let c := reset_leader_lease_epoch c in
  refresh_replication_pipelines c.

Definition add_peer (peer : Peer) : Cluster unit := fun c =>
  match require_running "add a peer" c with
  | Err e => (Err e, c)
  | Ok _ =>
      if bool_decide (is_Some (rc_nodes c !! peer_node_id peer)) then
        (Err (InvalidRequest ("duplicate raft node id " ++s pretty (peer_node_id peer))), c)
      else
        let c := admit_peer peer c in
        if match rc_leader_id c with Some leader_id => negb (leader_id =? peer_node_id peer)%N | None => false end
        then (_ ← catch_up_peer_with_reason (peer_node_id peer) "added_peer"; mret tt) c
        else (Ok tt, c)
  end.

Definition add_learner (peer : Peer) : Cluster unit := add_peer (peer <| peer_role := Learner |>).
Definition add_witness (peer : Peer) : Cluster unit := add_peer (peer <| peer_role := Witness |>).

(** What goes with a node, whoever removes it. *)
Definition forget_node (node_id : NodeId) (transfer_reason : string) (c : RaftCluster) : RaftCluster :=
  let c := c <| rc_nodes ::= delete node_id |>
             <| rc_peer_pipelines ::= delete node_id |>
             <| rc_snapshot_installers ::= delete node_id |>
             <| rc_pending_snapshots ::= delete node_id |> in
  let c := clear_reorder_queue_for node_id c in
  let c := remove_election_response_from node_id c in
  if bool_decide (lt_transferee_id <$> active_leader_transfer c = Some node_id)
  then snd (abort_leader_transfer transfer_reason c) else c.

Definition remove_peer (node_id : NodeId) : Cluster unit := fun c =>
  match require_running "remove a peer" c with
  | Err e => (Err e, c)
  | Ok _ =>
      let removing_leader := bool_decide (rc_leader_id c = Some node_id) in
      let transfer_target := if removing_leader then closest_follower c else None in
      if negb (bool_decide (is_Some (rc_nodes c !! node_id))) then (Ok tt, c)
      else
        let c := forget_node node_id "transferee_removed" c in
        if bool_decide (rc_leader_id c = Some node_id) then
          let c := invalidate_leader_lease (c <| rc_leader_id := None |>) in
          match transfer_target with
          | Some target =>
              match campaign target true c with
              | (Err e, c) => (Err e, c)
              | (Ok _, c) => (Ok tt, refresh_replication_pipelines c)
              end
          | None => (Ok tt, refresh_replication_pipelines c)
          end
        else
          (Ok tt, refresh_replication_pipelines (refresh_commit_index (reset_leader_lease_epoch c)))
  end.

(** ** The membership of a snapshot or of a record *)

(** The voters, learners and witnesses of a record as peers without addresses. *)
Definition record_membership_as_members (m : Membership) : list Peer :=
  let with_role role := (fun node_id => mkPeer node_id "" "" role false) in
  (with_role Voter <$> m_voters m) ++ (with_role Learner <$> m_learners m) ++ (with_role Witness <$> m_witnesses m).

Definition retained_members (target : NodeId) (snapshot_membership : list NodeId) (snapshot_members : list Peer)
    (c : RaftCluster) : gset N :=
  list_to_set snapshot_membership ∪ list_to_set (peer_node_id <$> snapshot_members)
  ∪ (if bool_decide (is_Some (rc_nodes c !! target)) then {[target]} else ∅).

Definition remove_unlisted (c : RaftCluster) (node_id : NodeId) : RaftCluster :=
  let c := forget_node node_id "snapshot_membership_removed_transferee" c in
  if bool_decide (rc_leader_id c = Some node_id)
  then invalidate_leader_lease (c <| rc_leader_id := None |>) else c.

Definition take_member_role (c : RaftCluster) (peer : Peer) : RaftCluster :=
  c <| rc_nodes ::= (fun nodes =>
    match nodes !! peer_node_id peer with
    | Some node =>
        let node := node <| nd_replica_role := peer_role peer |>
                         <| nd_auto_promote := bool_decide (peer_role peer = Learner) && peer_auto_promote peer |> in
        <[peer_node_id peer :=
            if bool_decide (nd_replica_role node = Learner) then node <| nd_raft_role := RoleLearner |> else node]> nodes
    | None =>
        <[peer_node_id peer := node_new (peer_node_id peer) (peer_role peer) (peer_auto_promote peer)]> nodes
    end) |>.

Definition ensure_member (c : RaftCluster) (node_id : NodeId) : RaftCluster :=
  c <| rc_nodes ::= (fun nodes =>
    match nodes !! node_id with Some _ => nodes | None => <[node_id := node_new node_id Voter false]> nodes end) |>.

(** The members once nodes were removed, roles taken and missing nodes made. *)
Definition settle_members (target : NodeId) (snapshot_membership : list NodeId) (snapshot_members : list Peer)
    (c : RaftCluster) : RaftCluster :=
  let retained := retained_members target snapshot_membership snapshot_members c in
  let removed := filter (fun node_id => node_id ∉ retained) (bt_keys (rc_nodes c)) in
  let c := foldl remove_unlisted c removed in
  let c := foldl take_member_role c snapshot_members in
  foldl ensure_member c (merge_sort N.le (elements retained)).

Definition reset_membership_from_snapshot (target : NodeId) (snapshot_membership : list NodeId)
    (snapshot_members : list Peer) (c : RaftCluster) : RaftCluster :=
  let c := settle_members target snapshot_membership snapshot_members c in
  let c := reset_leader_lease_epoch c in
  let c := refresh_commit_index c in
  let c := refresh_replication_pipelines c in
  match rc_leader_id c with
  | None => c
  | Some leader_id =>
      on_nodes (fun node =>
        node <| nd_raft_role := if (nd_id node =? leader_id)%N then Leader else passive_role node |>) c
  end.

Definition restore_membership_from_record (target : NodeId) (m : Membership) (c : RaftCluster) : RaftCluster :=
  let members := record_membership_as_members m in
  if bool_decide (members = []) then c
  else reset_membership_from_snapshot target (peer_node_id <$> members) members c.

(** ** Committed operations *)

Inductive MembershipOperation : Type :=
| AddNode (peer : Peer)
| AddVoter (peer : Peer)
| AddLearner (peer : Peer)
| AddWitness (peer : Peer)
| Promote (node_id : NodeId)
| Remove (node_id : NodeId)
| TransferLeader (node_id : NodeId).

(** The promotion of a committed operation asks nothing of the learner's log. *)
Definition promote_committed (node_id : NodeId) (c : RaftCluster) : RaftCluster :=
  refresh_replication_pipelines (reset_leader_lease_epoch (on_node node_id promoted c)).

Definition apply_committed_add (peer : Peer) : Cluster bool := fun c =>
  match rc_nodes c !! peer_node_id peer with
  | None => (_ ← add_peer peer; mret true) c
  | Some existing =>
      if bool_decide (nd_replica_role existing = Learner) && bool_decide (peer_role peer = Voter)
      then (Ok true, promote_committed (peer_node_id peer) c)
      else (Ok false, c)
  end.

Definition apply_committed_membership_operation (operation : MembershipOperation) : Cluster bool := fun c =>
  match operation with
  | AddNode peer => apply_committed_add peer c
  | AddVoter peer => apply_committed_add (peer <| peer_role := Voter |>) c
  | AddLearner peer => apply_committed_add (peer <| peer_role := Learner |>) c
  | AddWitness peer => apply_committed_add (peer <| peer_role := Witness |>) c
  | Promote node_id =>
      match rc_nodes c !! node_id with
      | None => (Err (NodeNotFound node_id), c)
      | Some node =>
          match nd_replica_role node with
          | Voter => (Ok false, c)
          | Witness => (Err (InvalidRequest ("node " ++s pretty node_id ++s " is not a learner")), c)
          | Learner => (Ok true, promote_committed node_id c)
          end
      end
  | Remove node_id =>
      if negb (bool_decide (is_Some (rc_nodes c !! node_id))) then (Ok false, c)
      else (_ ← remove_peer node_id; mret true) c
  | TransferLeader node_id => (_ ← transfer_leader node_id; mret true) c
  end.

(** ** Learners and witnesses *)

Definition catchup_report (learner_id : NodeId) (c : RaftCluster) : Result LearnerCatchUpReport :=
  node ← get_node learner_id c;
  Ok (membership_catchup_report (membership c) learner_id (match_index node) (rc_commit_index c)).

Definition learner_promotion_estimate (learner_id : NodeId) (turn_entries turn_elapsed_ms : N) (c : RaftCluster)
    : Result LearnerPromotionEstimate :=
  node ← get_node learner_id c;
  Ok (matrixraft_learner_promotion_estimate learner_id (bool_decide (nd_replica_role node = Learner))
        (match_index node) (rc_last_log_index c) turn_entries turn_elapsed_ms (election_timeout_ms (rc_config c))).

Record LearnerAutoPromoteReport := mkLearnerAutoPromoteReport {
  lap_learner_id : NodeId;
  lap_auto_promote : bool;
  lap_state_before : LearnerAutoPromoteState;
  lap_state_after : LearnerAutoPromoteState;
  lap_catchup : option LearnerCatchUpLoopReport;
  lap_promoted : bool;
  lap_reason : string
}.

(** The catch-up of a learner with its own promotion switched off meanwhile. *)
Definition catch_up_without_promotion (learner_id : NodeId) (auto_promote : bool)
    : Cluster LearnerCatchUpLoopReport := fun c =>
  let c := on_node learner_id (fun node => node <| nd_auto_promote := false |>) c in
  let '(catchup, c) := learner_catch_up_loop learner_id c in
  (catchup, on_node learner_id (fun node => node <| nd_auto_promote := auto_promote |>) c).

(** The decision once the learner was caught up. *)
Definition promote_after_catch_up (learner_id : NodeId) (auto_promote : bool) (state_before catchup_state : LearnerAutoPromoteState)
    (learner_match_index : LogIndex) (catchup : LearnerCatchUpLoopReport) : Cluster LearnerAutoPromoteReport := fun c =>
  let report state_after promoted reason :=
    mkLearnerAutoPromoteReport learner_id auto_promote state_before state_after (Some catchup) promoted reason in
  if bool_decide (state_before = Stop) && (learner_match_index <? rc_last_log_index c)%N
  then (Ok (report catchup_state false "learner_check_turn_started"), c)
  else if negb (cul_caught_up catchup) then (Ok (report catchup_state false "learner_still_lagging"), c)
  else if membership_change_fence_active c then (Ok (report catchup_state false "membership_change_pending"), c)
  else if node_is learner_id (fun node => bool_decide (nd_replica_role node = Voter)) c
  then (Ok (report Promoted true "learner_promoted"), c)
  else (_ ← promote_peer learner_id; mret (report Promoted true "learner_promoted"))
         (on_node learner_id (set_auto_promote_state Promoting) c).

Definition auto_promote_learner (learner_id : NodeId) : Cluster LearnerAutoPromoteReport := fun c =>
  match rc_nodes c !! learner_id with
  | None => (Err (NodeNotFound learner_id), c)
  | Some learner =>
      if bool_decide (nd_replica_role learner = Voter) && bool_decide (nd_auto_promote_state learner = Promoted) then
        (Ok (mkLearnerAutoPromoteReport learner_id true Promoted Promoted None true "learner_promoted"), c)
      else if negb (bool_decide (nd_replica_role learner = Learner)) then
        (Err (InvalidRequest ("node " ++s pretty learner_id ++s " is not a learner")), c)
      else
        let auto_promote := nd_auto_promote learner in
        let state_before := nd_auto_promote_state learner in
        let idle reason :=
          Ok (mkLearnerAutoPromoteReport learner_id auto_promote state_before state_before None false reason) in
        if negb auto_promote then (idle "auto_promote_disabled", c)
        else if bool_decide (state_before = Stop) && (match_index learner =? 0)%N
        then (idle "learner_has_no_matched_log", c)
        else
          let catchup_state := if bool_decide (state_before = Promoting) then Promoting else PromoteCheck in
          let c := on_node learner_id (set_auto_promote_state catchup_state) c in
          match catch_up_without_promotion learner_id auto_promote c with
          | (Err e, c) => (Err e, c)
          | (Ok catchup, c) =>
              promote_after_catch_up learner_id auto_promote state_before catchup_state (match_index learner) catchup c
          end
  end.

Record WitnessQuorumReport := mkWitnessQuorumReport {
  wq_required : N;
  wq_acknowledged : N;
  wq_reached : bool;
  wq_voters : list NodeId;
  wq_witnesses : list NodeId
}.

Definition witness_quorum_report (acknowledgements : list NodeId) (c : RaftCluster)
    : WitnessQuorumReport * RaftCluster :=
  let m := membership c in
  let acknowledged :=
    N.of_nat (length (filter (fun node_id => node_id ∈ acknowledgements) (participants m (rc_ignore_witness c)))) in
  let required := N.of_nat (quorum_size_with_witness_policy m (rc_ignore_witness c)) in
  let c := foldl (fun c witness_id =>
             on_pipeline witness_id (fun p => snd (record_witness_quorum acknowledged required p)) c)
             c (m_witnesses m) in
  (mkWitnessQuorumReport required acknowledged (required <=? acknowledged)%N (m_voters m) (m_witnesses m), c).

(** ** One change at a time *)

(** Everything but the node [k] keeps its id and its role. *)
Definition one_member (k : NodeId) (c c' : RaftCluster) : Prop :=
  (forall j, j <> k -> role_map c' !! j = role_map c !! j) /\ (nodes_keyed c -> nodes_keyed c').

#[export] Instance one_member_preorder k : PreOrder (one_member k).
Proof.
  split; [done|]. intros a b c [A1 A2] [B1 B2]. split; [|auto]. intros j Hj. by rewrite B1, A1.
Qed.

Lemma one_member_roles k c c' : same_roles c c' -> one_member k c c'.
Proof.
  intros Hr. split; [by intros j _; rewrite Hr|]. intros Hk j n Hn. apply (f_equal (lookup j)) in Hr.
  unfold role_map in Hr. rewrite !lookup_fmap, Hn in Hr. cbn in Hr. symmetry in Hr.
  apply fmap_Some in Hr as (m & Hm & [= -> _]). by apply Hk.
Qed.

Lemma one_member_nodes k c c' : rc_nodes c' = rc_nodes c -> one_member k c c'.
Proof. intros H. by apply one_member_roles, same_roles_nodes. Qed.

Lemma one_member_insert k n c : nd_id n = k -> one_member k c (c <| rc_nodes ::= <[k := n]> |>).
Proof.
  intros Hn. split.
  - intros j Hj. unfold role_map. cbn. by rewrite !lookup_fmap, lookup_insert_ne.
  - intros Hk j m. cbn. rewrite lookup_insert. case_decide as Hj; [subst j; by intros [= <-]|apply Hk].
Qed.

Lemma one_member_on_node k f c : (forall n, nd_id (f n) = nd_id n) -> one_member k c (on_node k f c).
Proof.
  intros Hf. split.
  - intros j Hj. unfold role_map. cbn. by rewrite !lookup_fmap, lookup_alter_ne.
  - intros Hk j m. cbn. rewrite lookup_alter. case_decide as Hj; [subst j|apply Hk].
    destruct (rc_nodes c !! k) as [n|] eqn:Hn; [|done]. intros [= <-]. rewrite Hf. by apply Hk.
Qed.

Lemma one_member_delete k c : one_member k c (c <| rc_nodes ::= delete k |>).
Proof.
  split.
  - intros j Hj. unfold role_map. cbn. by rewrite !lookup_fmap, lookup_delete_ne.
  - intros Hk j m. cbn. rewrite lookup_delete_Some. intros [_ Hm]. by apply Hk.
Qed.

(** *** The participants are a set *)

Lemma NoDup_ids_filter (P : Node -> Prop) `{!forall n, Decision (P n)} (l : list Node) :
  NoDup (nd_id <$> l) -> NoDup (nd_id <$> filter P l).
Proof.
  induction l as [|n l IH]; [done|]. rewrite fmap_cons, NoDup_cons, filter_cons. intros [Hn Hl].
  case_decide; [|by apply IH]. rewrite fmap_cons, NoDup_cons. split; [|by apply IH].
  intros (m & Hm & [_ Hin]%list_elem_of_filter)%list_elem_of_fmap. apply Hn. rewrite Hm. by apply list_elem_of_fmap_2.
Qed.

(** The ids whose answer counts. *)
Definition participant (ig : bool) (c : RaftCluster) (k : NodeId) : Prop :=
  exists n, rc_nodes c !! k = Some n /\ in_quorum ig n = true.

Lemma elem_of_with_role c role k :
  nodes_keyed c ->
  k ∈ nd_id <$> filter (fun n => nd_replica_role n = role) (bt_values (rc_nodes c))
  <-> exists n, rc_nodes c !! k = Some n /\ nd_replica_role n = role.
Proof.
  intros Hk. rewrite list_elem_of_fmap. split.
  - intros (n & -> & [Hr Hn]%list_elem_of_filter). apply elem_of_node_values in Hn; [|done]. by exists n.
  - intros (n & Hn & Hr). exists n. split; [by rewrite (Hk k n Hn)|]. apply list_elem_of_filter. split; [done|].
    apply elem_of_bt_values. by exists k.
Qed.

Lemma elem_of_participants c ig k :
  nodes_keyed c -> k ∈ participants (membership c) ig <-> participant ig c k.
Proof.
  intros Hk. unfold participants, participant, membership, in_quorum. cbn [m_voters m_witnesses].
  rewrite elem_of_app, elem_of_with_role by done.
  assert (k ∈ (if ig then [] else nd_id <$> filter (fun n => nd_replica_role n = Witness) (bt_values (rc_nodes c)))
          <-> ig = false /\ exists n, rc_nodes c !! k = Some n /\ nd_replica_role n = Witness) as ->.
  { destruct ig; [|by rewrite elem_of_with_role; naive_solver]. rewrite elem_of_nil. naive_solver. }
  split.
  - intros [(n & Hn & Hr)|(-> & n & Hn & Hr)]; exists n; (split; [done|by rewrite Hr]).
  - intros (n & Hn & Hq). destruct (nd_replica_role n) eqn:Hr; [left; by exists n|done|right].
    split; [by destruct ig|by exists n].
Qed.

Lemma NoDup_participants c ig : nodes_keyed c -> NoDup (participants (membership c) ig).
Proof.
  intros Hk. unfold participants, membership. cbn [m_voters m_witnesses]. apply NoDup_app. split_and!.
  - by apply NoDup_ids_filter, NoDup_node_ids.
  - intros k Hv Hw. apply elem_of_with_role in Hv as (n & Hn & Hr); [|done]. destruct ig; [by apply not_elem_of_nil in Hw|].
    apply elem_of_with_role in Hw as (m & Hm & Hr'); [|done]. congruence.
  - destruct ig; [apply NoDup_nil_2|by apply NoDup_ids_filter, NoDup_node_ids].
Qed.

Lemma participant_role_map ig c c' k : role_map c' !! k = role_map c !! k -> participant ig c k -> participant ig c' k.
Proof.
  unfold role_map, participant, in_quorum. rewrite !lookup_fmap. intros Hr (n & Hn & Hq). rewrite Hn in Hr. cbn in Hr.
  apply fmap_Some in Hr as (m & Hm & [= _ Hrole]). exists m. split; [done|]. by rewrite <- Hrole.
Qed.

(** The participants of both states, but for [k], are the same. *)
Lemma participants_but k c c' ig :
  nodes_keyed c -> nodes_keyed c' -> one_member k c c' ->
  exists base b b', participants (membership c) ig ≡ₚ (if b : bool then [k] else []) ++ base
    /\ participants (membership c') ig ≡ₚ (if b' : bool then [k] else []) ++ base.
Proof.
  intros Hk Hk' [Hr _].
  assert (forall d, nodes_keyed d -> exists b : bool, participants (membership d) ig
            ≡ₚ (if b then [k] else []) ++ filter (fun x => x <> k) (participants (membership d) ig)) as Hd.
  { intros d Hd. pose proof (NoDup_participants d ig Hd) as Hn. set (l := participants _ _) in *. clearbody l.
    exists (bool_decide (k ∈ l)). apply NoDup_Permutation; [done| |].
    - apply NoDup_app. split_and!; [by case_bool_decide; [apply NoDup_singleton|apply NoDup_nil_2]| |by apply NoDup_filter].
      intros x Hx [Hne _]%list_elem_of_filter. case_bool_decide; [|by apply not_elem_of_nil in Hx].
      by apply list_elem_of_singleton in Hx.
    - intros x. rewrite elem_of_app, list_elem_of_filter. destruct (N.eq_dec x k) as [->|Hx].
      + case_bool_decide; rewrite ?list_elem_of_singleton, ?elem_of_nil; naive_solver.
      + case_bool_decide; rewrite ?list_elem_of_singleton, ?elem_of_nil; naive_solver. }
  destruct (Hd c Hk) as [b Hb]. destruct (Hd c' Hk') as [b' Hb'].
  exists (filter (fun x => x <> k) (participants (membership c) ig)), b, b'. split; [exact Hb|].
  rewrite Hb'. f_equiv. apply NoDup_Permutation; [by apply NoDup_filter, NoDup_participants..|].
  intros x. rewrite !list_elem_of_filter, !elem_of_participants by done.
  split; intros [Hx Hp]; (split; [done|]); eapply participant_role_map; [|exact Hp|..|exact Hp]; [symmetry|]; by apply Hr.
Qed.

(** Majorities across one change. *)
Lemma one_member_majorities k c c' ig a1 a2 :
  nodes_keyed c -> one_member k c c' ->
  quorum_reached_with_witness_policy (membership c) a1 ig = true ->
  quorum_reached_with_witness_policy (membership c') a2 ig = true ->
  exists n, n ∈ a1 /\ n ∈ a2.
Proof.
  intros Hk Ho. rewrite !quorum_reached_majority.
  destruct (participants_but k c c' ig Hk (proj2 Ho Hk) Ho) as (base & b & b' & Hb & Hb').
  intros H1%(majority_acked_perm _ _ _ Hb) H2%(majority_acked_perm _ _ _ Hb').
  assert (exists n, n ∈ a1 /\ n ∈ a2); [|done].
  destruct b, b'; cbn [app] in H1, H2.
  - destruct (majorities_overlap _ _ _ H1 H2) as (x & _ & ?). by exists x.
  - destruct (adjacent_majorities_overlap base (k :: base) k a2 a1) as (x & _ & ? & ?); [done..|by exists x].
  - destruct (adjacent_majorities_overlap base (k :: base) k a1 a2) as (x & _ & ?); [done..|by exists x].
  - destruct (majorities_overlap _ _ _ H1 H2) as (x & _ & ?). by exists x.
Qed.

(** *** Each operation changes one member *)

Lemma refresh_replication_pipelines_member k c : one_member k c (refresh_replication_pipelines c).
Proof. apply one_member_nodes. by rewrite refresh_replication_pipelines_only. Qed.

Lemma refresh_cluster_indexes_member k c : one_member k c (refresh_cluster_indexes c).
Proof. by apply one_member_nodes. Qed.

Lemma mark_peer_active_member k : transits (one_member k) (mark_peer_active k).
Proof.
  intros c. unfold mark_peer_active. destruct (rc_nodes c !! k); [|reflexivity]. cbn [snd]. cbn zeta.
  etrans; [|by apply one_member_nodes]. by apply one_member_on_node.
Qed.

Lemma promote_peer_member k : transits (one_member k) (promote_peer k).
Proof.
  intros c. unfold promote_peer. destruct (require_running _ c); [|reflexivity].
  destruct (rc_nodes c !! k); [|reflexivity]. destruct (negb _); [reflexivity|]. destruct (_ <? _)%N; [reflexivity|].
  cbn [snd]. etrans; [|by apply (one_member_nodes k (on_node k promoted c))]. by apply one_member_on_node.
Qed.

Lemma on_peer_pipeline_member {A} k j (op : ReplicationPipeline -> A * ReplicationPipeline) :
  transits (one_member k) (on_peer_pipeline j op).
Proof.
  intros c. apply one_member_nodes. unfold on_peer_pipeline. pose proof (pipeline_op_nodes j op c).
  by destruct (pipeline_op j op c).
Qed.

Lemma settle_catch_up_member k reason i j o : transits (one_member k) (settle_catch_up k reason i j o).
Proof.
  apply (transits_bind (one_member k)); [intros c'; reflexivity|intros m].
  apply (transits_bind (one_member k)); [intros c'; apply (on_peer_pipeline_member k)|intros r].
  apply (transits_bind (one_member k)); [apply mark_peer_active_member|intros _].
  apply (transits_bind (one_member k)); [intros c'; apply refresh_cluster_indexes_member|intros _].
  apply (transits_bind (one_member k)); [|intros _ c'; reflexivity].
  destruct (default _ r); [|intros c'; reflexivity]. apply (transits_drop (one_member k)). intros c.
  unfold promote_caught_up_auto_learner. destruct (negb _); [reflexivity|].
  etrans; [by apply (one_member_on_node k (set_auto_promote_state Promoting) c)|].
  apply (bind_step (one_member k)); [apply promote_peer_member|intros a c'; reflexivity].
Qed.

Lemma append_missing_id n e : nd_id (append_missing n e) = nd_id n.
Proof.
  unfold append_missing. case_bool_decide; [|apply append_entry_roles]. unfold append_witness_entry.
  rewrite (proj1 (append_entry_roles _ _)). unfold acknowledge_witness_index. by case_match.
Qed.

Lemma transferred_peer_id leader commit n : nd_id (transferred_peer leader commit n) = nd_id n.
Proof.
  unfold transferred_peer. cbn zeta. rewrite (proj1 (advance_commit_roles _ _)).
  generalize (missing_entries leader (match_index n +s 1)). intros es. revert n.
  induction es as [|e es IH]; intros n; [done|]. cbn [foldl]. by rewrite IH, append_missing_id.
Qed.

Lemma one_member_put k n n' c :
  rc_nodes c !! k = Some n -> nd_id n' = nd_id n -> one_member k c (c <| rc_nodes ::= <[k := n']> |>).
Proof.
  intros Hn Hid. split; [intros j Hj; unfold role_map; cbn; by rewrite !lookup_fmap, lookup_insert_ne|].
  intros Hk j m. cbn. rewrite lookup_insert. case_decide as Hj; [subst j|apply Hk]. intros [= <-]. rewrite Hid. by apply Hk.
Qed.

Lemma transfer_log_member l k commit : transits (one_member k) (transfer_log l k commit).
Proof.
  intros c. unfold transfer_log, get_node. destruct (rc_nodes c !! l) as [leader|]; [|reflexivity]. cbn [ok_or].
  destruct (rc_nodes c !! k) as [peer|] eqn:Hp; [|reflexivity].
  destruct (adopt_leader_snapshot (nd_installed_snapshot leader) peer) as [o peer1] eqn:Ha.
  assert (nd_id peer1 = nd_id peer) as Hid
    by (revert Ha; unfold adopt_leader_snapshot; repeat case_match; by intros [= _ <-]).
  set (c1 := c <| rc_nodes ::= <[k := peer1]> |>).
  assert (one_member k c c1) as H1 by (by apply (one_member_put k peer)).
  assert (rc_nodes c1 !! k = Some peer1) as Hp1 by apply lookup_insert_eq. clearbody c1.
  destruct (rc_nodes c1 !! l) as [leader1|]; [|exact H1]. cbn [ok_or snd]. cbn zeta.
  fold (transferred_peer leader1 commit peer1). etrans; [exact H1|].
  apply (one_member_put k peer1); [done|apply transferred_peer_id].
Qed.

Lemma catch_up_member k reason : transits (one_member k) (catch_up_peer_with_reason k reason).
Proof.
  intros c. unfold catch_up_peer_with_reason. destruct (rc_leader_id c); [|reflexivity].
  apply (bind_step (one_member k)); [apply transfer_log_member|intros o; apply settle_catch_up_member].
Qed.

Lemma admit_peer_member peer c : one_member (peer_node_id peer) c (admit_peer peer c).
Proof.
  unfold admit_peer. cbn zeta. etrans; [|apply refresh_replication_pipelines_member].
  set (n := node_new _ _ _). set (c1 := clear_reorder_queue_for _ _). etrans; [by apply (one_member_nodes _ c c1)|].
  clearbody c1. etrans; [by apply (one_member_insert (peer_node_id peer) n c1)|]. by apply one_member_nodes.
Qed.

Lemma add_peer_member peer : transits (one_member (peer_node_id peer)) (add_peer peer).
Proof.
  intros c. unfold add_peer. destruct (require_running _ c); [|reflexivity].
  destruct (bool_decide _); [reflexivity|]. cbn zeta. etrans; [apply admit_peer_member|].
  generalize (admit_peer peer c). intros c1. destruct (match rc_leader_id c1 with Some _ => _ | None => _ end); [|reflexivity].
  apply (transits_drop (one_member _)), catch_up_member.
Qed.

Lemma forget_node_spec k reason c :
  rc_nodes (forget_node k reason c) = delete k (rc_nodes c) /\ rc_leader_id (forget_node k reason c) = rc_leader_id c.
Proof.
  unfold forget_node, abort_leader_transfer. cbn zeta. case_bool_decide; [|done].
  destruct (active_leader_transfer _); done.
Qed.

Lemma forget_node_member k reason c : one_member k c (forget_node k reason c).
Proof.
  etrans; [apply one_member_delete|]. apply one_member_nodes. by rewrite (proj1 (forget_node_spec k reason c)).
Qed.

Lemma remove_peer_member k : transits (one_member k) (remove_peer k).
Proof.
  intros c. unfold remove_peer. destruct (require_running _ c); [|reflexivity]. cbn zeta.
  destruct (negb _); [reflexivity|]. generalize (if bool_decide (rc_leader_id c = Some k) then closest_follower c else None). intros target.
  etrans; [apply (forget_node_member k "transferee_removed")|]. generalize (forget_node k "transferee_removed" c). clear c. intros c.
  case_bool_decide.
  - set (c1 := invalidate_leader_lease _). etrans; [by apply (one_member_nodes k c c1)|]. clearbody c1.
    destruct target as [t|]; [|apply refresh_replication_pipelines_member].
    pose proof (campaign_roles t true c1) as Hc. destruct (campaign t true c1) as [[] c2]; cbn [snd] in *.
    + etrans; [apply one_member_roles, Hc|apply refresh_replication_pipelines_member].
    + by apply one_member_roles.
  - cbn [snd]. etrans; [|apply refresh_replication_pipelines_member].
    set (c1 := reset_leader_lease_epoch c). etrans; [by apply (one_member_nodes k c c1)|].
    apply one_member_roles, refresh_commit_index_roles.
Qed.

Lemma transfer_leader_roles t : transits same_roles (transfer_leader t).
Proof.
  intros c. apply (bind_step same_roles); [|intros a c'; reflexivity]. unfold transfer_leader_outcome.
  destruct (begin_leader_transfer t c) as [[[tr|]|] c1] eqn:Hb; cbn [snd].
  - apply begin_leader_transfer_spec in Hb as ((Hn & _) & _).
    etrans; [by apply (same_roles_nodes c c1)|]. destruct (leader_transfer_target_caught_up t c1) as [[]|]; [|reflexivity..].
    apply (bind_step same_roles); [|intros a c'; reflexivity]. unfold hand_over.
    pose proof (campaign_roles t true c1) as Hc. destruct (campaign t true c1) as [[] c2]; [|exact Hc].
    cbn [snd] in *. etrans; [exact Hc|]. apply same_roles_nodes. unfold complete_leader_transfer.
    by destruct (active_leader_transfer c2).
  - apply begin_leader_transfer_spec in Hb as ((Hn & _) & _). by apply same_roles_nodes.
  - revert Hb. unfold begin_leader_transfer. repeat case_match; intros; simplify_eq; reflexivity.
Qed.

Lemma promote_committed_member k c : one_member k c (promote_committed k c).
Proof.
  unfold promote_committed. etrans; [|apply refresh_replication_pipelines_member].
  etrans; [by apply (one_member_on_node k promoted c)|]. by apply one_member_nodes.
Qed.

Lemma apply_committed_add_member peer : transits (one_member (peer_node_id peer)) (apply_committed_add peer).
Proof.
  intros c. unfold apply_committed_add. destruct (rc_nodes c !! peer_node_id peer).
  - destruct (_ && _); [|reflexivity]. apply promote_committed_member.
  - apply (bind_step (one_member _)); [apply add_peer_member|intros a c'; reflexivity].
Qed.

Lemma apply_committed_member operation c :
  exists k, one_member k c (snd (apply_committed_membership_operation operation c)).
Proof.
  destruct operation as [p|p|p|p|k|k|k]; cbn [apply_committed_membership_operation].
  - eexists. apply apply_committed_add_member.
  - eexists. apply apply_committed_add_member.
  - eexists. apply apply_committed_add_member.
  - eexists. apply apply_committed_add_member.
  - exists k. destruct (rc_nodes c !! k) as [n|]; [|reflexivity].
    destruct (nd_replica_role n); [reflexivity|apply promote_committed_member|reflexivity].
  - exists k. destruct (negb _); [reflexivity|].
    apply (bind_step (one_member k)); [apply remove_peer_member|intros a c'; reflexivity].
  - exists k. apply one_member_roles. apply (bind_step same_roles); [apply transfer_leader_roles|intros a c'; reflexivity].
Qed.

(** C5: quorums overlap across a committed membership operation. Whatever the
    operation (a voter, learner or witness added and caught up, a learner promoted,
    a node removed, the leader too, or leadership transferred), and whether it
    succeeds or not, a quorum of the membership before it and a quorum of the
    membership after it have a node in common, under either witness policy; every
    node stays under its own id. *)
Theorem committed_operation_keeps_quorums operation c ig a1 a2 :
  nodes_keyed c ->
  let c' := snd (apply_committed_membership_operation operation c) in
  nodes_keyed c'
  /\ (quorum_reached_with_witness_policy (membership c) a1 ig = true ->
      quorum_reached_with_witness_policy (membership c') a2 ig = true ->
      exists n, n ∈ a1 /\ n ∈ a2).
Proof.
  intros Hk. cbn zeta. destruct (apply_committed_member operation c) as [k Ho].
  split; [by apply (proj2 Ho)|]. by apply (one_member_majorities k).
Qed.

(** A fourth voter joins the three of [applied_leader]. *)
Lemma committed_operation_keeps_quorums_witness :
  let c' := snd (apply_committed_membership_operation (AddVoter (sample_peer 5 Voter)) applied_leader) in
  quorum_reached_with_witness_policy (membership c') [2; 3; 5]%N true = true
  /\ exists n, n ∈ [1; 2]%N /\ n ∈ [2; 3; 5]%N.
Proof.
  assert (nodes_keyed applied_leader) as Hk by (apply (bool_decide_unpack _); vm_compute; exact I).
  split; [vm_compute; reflexivity|].
  refine (proj2 (committed_operation_keeps_quorums (AddVoter (sample_peer 5 Voter)) applied_leader true
           [1; 2]%N [2; 3; 5]%N Hk) _ _); vm_compute; reflexivity.
Defined.

(** ** Membership from a snapshot or a record *)

Lemma remove_unlisted_nodes c k : rc_nodes (remove_unlisted c k) = delete k (rc_nodes c).
Proof.
  unfold remove_unlisted. cbn zeta. destruct (forget_node_spec k "snapshot_membership_removed_transferee" c) as [Hn _].
  generalize dependent (forget_node k "snapshot_membership_removed_transferee" c). intros c1 Hn. by case_bool_decide.
Qed.

Lemma remove_unlisted_lookup l c k :
  rc_nodes (foldl remove_unlisted c l) !! k = if bool_decide (k ∈ l) then None else rc_nodes c !! k.
Proof.
  revert c. induction l as [|x l IH]; intros c; cbn [foldl]; [by rewrite bool_decide_eq_false_2 by apply not_elem_of_nil|].
  rewrite IH, remove_unlisted_nodes. clear IH. case_bool_decide as Hl; case_bool_decide as Hxl; try done.
  - set_solver.
  - destruct (N.eq_dec x k) as [->|Hne]; [by rewrite lookup_delete_eq|set_solver].
  - apply lookup_delete_ne. set_solver.
Qed.

(** The role of [k] once the roles of [members] are taken. *)
Lemma take_member_role_lookup c peer k :
  role_map (take_member_role c peer) !! k
  = if bool_decide (k = peer_node_id peer)
    then Some (default k (nd_id <$> rc_nodes c !! k), peer_role peer) else role_map c !! k.
Proof.
  unfold take_member_role, role_map. cbn. rewrite !lookup_fmap.
  destruct (bool_decide_reflect (k = peer_node_id peer)) as [->|Hk].
  - destruct (rc_nodes c !! peer_node_id peer) as [n|]; rewrite lookup_insert_eq; cbn; [|done].
    by case_bool_decide.
  - destruct (rc_nodes c !! peer_node_id peer); by rewrite lookup_insert_ne by congruence.
Qed.

Definition roles_keyed (c : RaftCluster) : Prop := forall k x, role_map c !! k = Some x -> x.1 = k.

Lemma roles_keyed_nodes c : roles_keyed c <-> nodes_keyed c.
Proof.
  unfold roles_keyed, nodes_keyed, role_map. split.
  - intros H k n Hn. apply (H k (nd_id n, nd_replica_role n)). by rewrite lookup_fmap, Hn.
  - intros H k x. rewrite lookup_fmap. intros (n & Hn & ->)%fmap_Some. by apply H.
Qed.

Lemma take_member_roles_lookup members c k :
  nodes_keyed c -> NoDup (peer_node_id <$> members) ->
  nodes_keyed (foldl take_member_role c members)
  /\ role_map (foldl take_member_role c members) !! k
     = match list_find (fun p => peer_node_id p = k) members with
       | Some (_, p) => Some (k, peer_role p)
       | None => role_map c !! k
       end.
Proof.
  revert c. induction members as [|p members IH]; intros c Hk Hnd; [done|].
  rewrite fmap_cons, NoDup_cons in Hnd. destruct Hnd as [Hp Hnd]. cbn [foldl].
  assert (nodes_keyed (take_member_role c p)) as Hk1.
  { apply roles_keyed_nodes. intros j x. rewrite take_member_role_lookup. case_bool_decide as Hj.
    - intros [= <-]. cbn. destruct (rc_nodes c !! j) as [n|] eqn:Hn; [|done]. by apply Hk.
    - by apply roles_keyed_nodes. }
  destruct (IH (take_member_role c p) Hk1 Hnd) as [IH1 IH2]. split; [done|]. rewrite IH2, take_member_role_lookup.
  cbn [list_find]. destruct (list_find _ members) as [[i q]|] eqn:Hf.
  - apply list_find_Some in Hf as (Hi & Hq & _). rewrite decide_False; [done|]. intros Hpk. apply Hp.
    rewrite Hpk, <- Hq. apply list_elem_of_fmap_2. by apply list_elem_of_lookup_2 in Hi.
  - case_bool_decide as Hkp; [|by rewrite decide_False by congruence]. subst k. rewrite decide_True by done.
    destruct (rc_nodes c !! peer_node_id p) as [n|] eqn:Hn; cbn; [|done]. by rewrite (Hk _ n Hn).
Qed.

Lemma ensure_members_lookup l c k :
  role_map (foldl ensure_member c l) !! k
  = match role_map c !! k with
    | Some x => Some x
    | None => if bool_decide (k ∈ l) then Some (k, Voter) else None
    end.
Proof.
  revert c. induction l as [|x l IH]; intros c; cbn [foldl].
  { rewrite bool_decide_eq_false_2 by apply not_elem_of_nil. by destruct (role_map c !! k). }
  rewrite IH. unfold ensure_member, role_map. cbn. destruct (rc_nodes c !! x) as [n|] eqn:Hx; rewrite !lookup_fmap.
  - destruct (rc_nodes c !! k) as [m|] eqn:Hm; [done|]. cbn. case_bool_decide; case_bool_decide; set_solver.
  - rewrite lookup_insert. destruct (decide (x = k)) as [->|Hk];
      [rewrite Hx; cbn; by rewrite bool_decide_eq_true_2 by set_solver|].
    destruct (rc_nodes c !! k); [done|]. cbn. case_bool_decide; case_bool_decide; set_solver.
Qed.

(** Who is in the group after the reset, in which role. *)
Definition member_role (target : NodeId) (ids : list NodeId) (members : list Peer) (c : RaftCluster) (k : NodeId)
    : option (NodeId * ReplicaRole) :=
  match list_find (fun p => peer_node_id p = k) members with
  | Some (_, p) => Some (k, peer_role p)
  | None =>
      if bool_decide (k ∈ ids) || bool_decide (k = target)
      then match role_map c !! k with Some x => Some x | None => if bool_decide (k ∈ ids) then Some (k, Voter) else None end
      else None
  end.

Lemma settle_members_lookup target ids members c k :
  nodes_keyed c -> NoDup (peer_node_id <$> members) ->
  role_map (settle_members target ids members c) !! k = member_role target ids members c k.
Proof.
  intros Hk Hnd. unfold settle_members. cbn zeta. rewrite ensure_members_lookup.
  set (retained := retained_members target ids members c). set (c1 := foldl remove_unlisted c _).
  assert (forall j, rc_nodes c1 !! j = if bool_decide (j ∈ retained) then rc_nodes c !! j else None) as H1.
  { intros j. unfold c1. rewrite remove_unlisted_lookup.
    destruct (rc_nodes c !! j) as [n|] eqn:Hj; [|by do 2 case_bool_decide].
    assert (j ∈ bt_keys (rc_nodes c)) as Hin by (by apply elem_of_bt_keys; exists n).
    case_bool_decide as Hf; case_bool_decide as Hr; try done.
    - by apply list_elem_of_filter in Hf as [? _].
    - exfalso. apply Hf, list_elem_of_filter. by split. }
  assert (nodes_keyed c1) as Hk1 by (intros j n; rewrite H1; case_bool_decide; [apply Hk|done]).
  destruct (take_member_roles_lookup members c1 k Hk1 Hnd) as [_ ->]. unfold member_role.
  destruct (list_find _ members) as [[i p]|] eqn:Hf; [done|]. unfold role_map at 1. rewrite lookup_fmap, H1.
  assert (k ∉ peer_node_id <$> members) as Hm.
  { rewrite list_find_None, Forall_forall in Hf. intros (p & -> & Hp)%list_elem_of_fmap. by apply (Hf p Hp). }
  assert (k ∈ merge_sort N.le (elements retained) <-> k ∈ retained) as Hms
    by (by rewrite merge_sort_Permutation, elem_of_elements).
  rewrite (bool_decide_ext _ _ Hms).
  assert (k ∈ retained <-> k ∈ ids \/ (k = target /\ is_Some (rc_nodes c !! k))) as Hr.
  { unfold retained, retained_members. rewrite !elem_of_union, !elem_of_list_to_set. case_bool_decide; set_solver. }
  unfold role_map. rewrite lookup_fmap. destruct (rc_nodes c !! k) as [n|] eqn:Hn; cbn.
  - case_bool_decide as HR; cbn; case_bool_decide as Hi; cbn; try case_bool_decide as Ht; try done; exfalso; naive_solver.
  - case_bool_decide as HR; cbn; case_bool_decide as Hi; cbn; try case_bool_decide as Ht; try done; exfalso; naive_solver.
Qed.

Lemma refresh_replication_pipelines_roles c : same_roles c (refresh_replication_pipelines c).
Proof. apply same_roles_nodes. by rewrite refresh_replication_pipelines_only. Qed.

Lemma reset_leader_lease_epoch_roles c : same_roles c (reset_leader_lease_epoch c).
Proof. by apply same_roles_nodes. Qed.

Lemma reset_membership_roles target ids members c :
  same_roles (settle_members target ids members c) (reset_membership_from_snapshot target ids members c).
Proof.
  unfold reset_membership_from_snapshot. cbn zeta. generalize (settle_members target ids members c). clear c. intros c.
  etrans; [apply reset_leader_lease_epoch_roles|]. generalize (reset_leader_lease_epoch c). clear c. intros c.
  etrans; [apply refresh_commit_index_roles|]. generalize (refresh_commit_index c). clear c. intros c.
  etrans; [apply refresh_replication_pipelines_roles|]. generalize (refresh_replication_pipelines c). clear c. intros c.
  destruct (rc_leader_id c); [|reflexivity]. apply same_roles_on_nodes. intros m. by split.
Qed.

Lemma reset_membership_keyed target ids members c :
  nodes_keyed c -> NoDup (peer_node_id <$> members) ->
  nodes_keyed (reset_membership_from_snapshot target ids members c).
Proof.
  intros Hk Hnd. apply roles_keyed_nodes. intros j x. rewrite (reset_membership_roles target ids members c).
  rewrite settle_members_lookup by done. unfold member_role.
  destruct (list_find _ _) as [[i p]|]; [by intros [= <-]|]. destruct (_ || _); [|done].
  destruct (role_map c !! j) as [y|] eqn:Hy; [|case_bool_decide; [by intros [= <-]|done]].
  intros [= <-]. by apply (proj2 (roles_keyed_nodes c) Hk).
Qed.

(** Who is in the group after a snapshot's membership was taken over. The
    group has the listed members in their listed roles, the listed ids without a
    role as the voters or in the role they had, and the node that installed the
    snapshot; every other node is gone. *)
Theorem reset_membership_exact target ids members c k :
  nodes_keyed c -> NoDup (peer_node_id <$> members) ->
  (fun n => (nd_id n, nd_replica_role n)) <$> rc_nodes (reset_membership_from_snapshot target ids members c) !! k
  = member_role target ids members c k.
Proof.
  intros Hk Hnd. rewrite <- (settle_members_lookup target ids members c k Hk Hnd).
  rewrite <- (reset_membership_roles target ids members c). unfold role_map. by rewrite lookup_fmap.
Qed.

Lemma reset_membership_exact_witness :
  (fun n => (nd_id n, nd_replica_role n))
    <$> rc_nodes (reset_membership_from_snapshot 1 [1; 2; 9]%N [sample_peer 2 Learner] applied_leader) !! 2%N
  = Some (2%N, Learner)
  /\ rc_nodes (reset_membership_from_snapshot 1 [1; 2; 9]%N [sample_peer 2 Learner] applied_leader) !! 3%N = None.
Proof.
  assert (nodes_keyed applied_leader) as Hk by (apply (bool_decide_unpack _); vm_compute; exact I).
  assert (NoDup (peer_node_id <$> [sample_peer 2 Learner])) as Hn by (apply (bool_decide_unpack _); vm_compute; exact I).
  pose proof (reset_membership_exact 1 [1; 2; 9]%N [sample_peer 2 Learner] applied_leader 2 Hk Hn) as H2.
  pose proof (reset_membership_exact 1 [1; 2; 9]%N [sample_peer 2 Learner] applied_leader 3 Hk Hn) as H3.
  split; [rewrite H2; vm_compute; reflexivity|].
  replace (member_role 1 [1; 2; 9]%N [sample_peer 2 Learner] applied_leader 3) with (@None (NodeId * ReplicaRole)) in H3
    by (vm_compute; reflexivity).
  by apply fmap_None in H3.
Defined.

(** *** Records *)

Definition record_ids (m : Membership) : list NodeId := m_voters m ++ m_learners m ++ m_witnesses m.

Lemma record_members_ids m : peer_node_id <$> record_membership_as_members m = record_ids m.
Proof.
  unfold record_membership_as_members, record_ids. rewrite !fmap_app, <- !list_fmap_compose.
  f_equal; [|f_equal]; (rewrite <- (list_fmap_id (_ m)) at 2; apply list_fmap_ext; intros; done).
Qed.

Definition record_role (m : Membership) (role : ReplicaRole) : list NodeId :=
  match role with Voter => m_voters m | Learner => m_learners m | Witness => m_witnesses m end.

Lemma record_member_role m p :
  p ∈ record_membership_as_members m <-> exists k role, p = mkPeer k "" "" role false /\ k ∈ record_role m role.
Proof.
  unfold record_membership_as_members. rewrite !elem_of_app, !list_elem_of_fmap. split.
  - intros [(k & -> & ?)|[(k & -> & ?)|(k & -> & ?)]]; eexists k, _; (split; [done|done]).
  - intros (k & [] & -> & Hk); cbn in Hk; [left|right; left|right; right]; by exists k.
Qed.

Lemma record_find m k :
  NoDup (record_ids m) -> k ∈ record_ids m ->
  exists i role, list_find (fun p => peer_node_id p = k) (record_membership_as_members m)
               = Some (i, mkPeer k "" "" role false) /\ k ∈ record_role m role.
Proof.
  intros Hnd Hk. rewrite <- record_members_ids in Hk. apply list_elem_of_fmap in Hk as (p & -> & Hp).
  destruct (list_find (fun q => peer_node_id q = peer_node_id p) (record_membership_as_members m)) as [[i q]|] eqn:Hf.
  - apply list_find_Some in Hf as (Hi & Hq & _). apply list_elem_of_lookup_2, record_member_role in Hi as (k & role & -> & Hk).
    cbn in Hq. rewrite <- Hq. eauto.
  - rewrite list_find_None, Forall_forall in Hf. by destruct (Hf p Hp).
Qed.

Lemma record_role_unique m k r1 r2 :
  NoDup (record_ids m) -> k ∈ record_role m r1 -> k ∈ record_role m r2 -> r1 = r2.
Proof.
  unfold record_ids. rewrite !NoDup_app, ?elem_of_app. intros (_ & H1 & _ & H2 & _).
  destruct r1, r2; cbn; intros Ha Hb; try done; exfalso;
    first [apply (H1 _ Ha); set_solver|apply (H1 _ Hb); set_solver|by apply (H2 _ Ha)|by apply (H2 _ Hb)].
Qed.

(** a recorded membership is restored. Recovering a record that lists each
    node once and lists the node that recovers leaves, whatever the group was
    before, a membership with exactly the recorded voters, learners and
    witnesses. *)
Theorem restored_membership_is_recorded target m c :
  nodes_keyed c -> NoDup (record_ids m) -> target ∈ record_ids m ->
  let m' := membership (restore_membership_from_record target m c) in
  m_voters m' ≡ₚ m_voters m /\ m_learners m' ≡ₚ m_learners m /\ m_witnesses m' ≡ₚ m_witnesses m.
Proof.
  intros Hk Hnd Ht. unfold restore_membership_from_record. cbn zeta.
  rewrite bool_decide_eq_false_2.
  2: { intros He. rewrite <- record_members_ids, He in Ht. by apply not_elem_of_nil in Ht. }
  rewrite record_members_ids. set (c' := reset_membership_from_snapshot _ _ _ _).
  assert (nodes_keyed c') as Hk' by (apply reset_membership_keyed; [done|by rewrite record_members_ids]).
  assert (forall role, nd_id <$> filter (fun n => nd_replica_role n = role) (bt_values (rc_nodes c'))
                       ≡ₚ record_role m role) as Hall; [|split_and!; [apply (Hall Voter)|apply (Hall Learner)|apply (Hall Witness)]].
  intros role. apply NoDup_Permutation; [by apply NoDup_ids_filter, NoDup_node_ids| |].
  { unfold record_ids in Hnd. rewrite !NoDup_app in Hnd. destruct role; cbn; tauto. }
  intros k. rewrite elem_of_with_role by done.
  assert (role_map c' !! k = member_role target (record_ids m) (record_membership_as_members m) c k) as Hr.
  { rewrite <- settle_members_lookup by (try done; by rewrite record_members_ids).
    apply (f_equal (lookup k)), reset_membership_roles. }
  clearbody c'. unfold role_map in Hr. rewrite lookup_fmap in Hr. unfold member_role in Hr.
  destruct (decide (k ∈ record_ids m)) as [Hin|Hout].
  - destruct (record_find m k Hnd Hin) as (i & r & Hf & Hkr). rewrite Hf in Hr. apply fmap_Some in Hr as (n & Hn & [= _ Hrole]).
    cbn in Hrole. split.
    + intros (n' & Hn' & Hr'). rewrite Hn in Hn'. injection Hn' as <-. by rewrite <- Hr', <- Hrole.
    + intros Hkr'. exists n. split; [done|]. rewrite <- Hrole. by apply (record_role_unique m k).
  - replace (list_find _ _) with (@None (nat * Peer)) in Hr.
    2: { symmetry. apply list_find_None, Forall_forall. intros p Hp Hpk. apply Hout. rewrite <- record_members_ids, <- Hpk.
         by apply list_elem_of_fmap_2. }
    rewrite (bool_decide_eq_false_2 (k ∈ record_ids m)), (bool_decide_eq_false_2 (k = target)) in Hr
      by (done || by intros ->).
    cbn in Hr. apply fmap_None in Hr. split; [intros (n & Hn & _); congruence|]. intros Hkr. exfalso. apply Hout.
    unfold record_ids. destruct role; cbn in Hkr; set_solver.
Qed.

Lemma restored_membership_is_recorded_witness :
  m_learners (membership (restore_membership_from_record 1 (mkMembership 7 [1; 4]%N [2]%N [9]%N 3) applied_leader)) ≡ₚ [2%N].
Proof.
  assert (nodes_keyed applied_leader) as Hk by (apply (bool_decide_unpack _); vm_compute; exact I).
  refine (proj1 (proj2 (restored_membership_is_recorded 1 (mkMembership 7 [1; 4]%N [2]%N [9]%N 3) applied_leader Hk _ _)));
    apply (bool_decide_unpack _); vm_compute; exact I.
Defined.

(** ** Removal *)

Lemma same_roles_absent c c' k : same_roles c c' -> rc_nodes c !! k = None -> rc_nodes c' !! k = None.
Proof.
  intros Hr Hk. apply (f_equal (lookup k)) in Hr. unfold role_map in Hr. rewrite !lookup_fmap, Hk in Hr.
  by apply fmap_None in Hr.
Qed.

Lemma refresh_replication_pipelines_office c :
  rc_leader_id (refresh_replication_pipelines c) = rc_leader_id c
  /\ rc_current_term (refresh_replication_pipelines c) = rc_current_term c.
Proof. by rewrite refresh_replication_pipelines_only. Qed.

Lemma refresh_commit_index_office c :
  rc_leader_id (refresh_commit_index c) = rc_leader_id c /\ rc_current_term (refresh_commit_index c) = rc_current_term c.
Proof. unfold refresh_commit_index. repeat (case_match; try done). Qed.

(** The removed leader's successor, elected or none. *)
Lemma hand_over_removed target c c' :
  nodes_keyed c -> rc_leader_id c = None -> campaign target true c = (Ok tt, c') ->
  rc_leader_id c' = Some target /\ rc_current_term c' = (rc_current_term c + 1)%N.
Proof.
  intros Hk Hl Hc. destruct (campaign_office target true c c' Hk Hc) as [[Ha _]|[H1 H2 _ _ _ _]]; [|done].
  unfold already_leading in Ha. by rewrite Hl in Ha.
Qed.

(** What a removal does. A removal of a node that reports success leaves the
    node out and every other node in its place and role; leadership and term are
    as they were, unless the node was the leader: then its closest follower leads
    in the next term, or nobody does when it has none. *)
Theorem remove_peer_effect k c c' n :
  nodes_keyed c -> rc_nodes c !! k = Some n -> remove_peer k c = (Ok tt, c') ->
  rc_nodes c' !! k = None
  /\ (forall j, j <> k -> role_map c' !! j = role_map c !! j)
  /\ (rc_leader_id c <> Some k -> rc_leader_id c' = rc_leader_id c /\ rc_current_term c' = rc_current_term c)
  /\ (rc_leader_id c = Some k -> rc_leader_id c' = closest_follower c
      /\ rc_current_term c' = (rc_current_term c + match closest_follower c with Some _ => 1 | None => 0 end)%N).
Proof.
  intros Hk Hn Hrm. pose proof (remove_peer_member k c) as Hm. rewrite Hrm in Hm. cbn [snd] in Hm.
  split; [|split; [apply Hm|]]; revert Hrm; unfold remove_peer; (destruct (require_running _ c); [|done]); cbn zeta;
    rewrite (bool_decide_eq_true_2 (is_Some _)) by (by exists n); cbn [negb];
    destruct (forget_node_spec k "transferee_removed" c) as [Hf1 Hf2];
    assert (rc_current_term (forget_node k "transferee_removed" c) = rc_current_term c) as Hft
      by (unfold forget_node, abort_leader_transfer; cbn zeta; case_bool_decide; [destruct (active_leader_transfer _)|]; done);
    pose proof (proj2 (forget_node_member k "transferee_removed" c) Hk) as Hfk;
    generalize dependent (forget_node k "transferee_removed" c); intros c1 Hf1 Hf2 Hft Hfk; rewrite Hf2;
    set (c2 := invalidate_leader_lease (c1 <| rc_leader_id := None |>)).
  - assert (rc_nodes c1 !! k = None) as H1 by (by rewrite Hf1, lookup_delete_eq).
    assert (rc_nodes c2 !! k = None) as H2 by exact H1. clearbody c2.
    case_bool_decide.
    + destruct (closest_follower c) as [t|]; [|intros [= <-]; by apply (same_roles_absent c2); [apply refresh_replication_pipelines_roles|]].
      pose proof (campaign_roles t true c2) as Hr. destruct (campaign t true c2) as [[] c3]; [|done]. cbn [snd] in Hr.
      intros [= <-]. apply (same_roles_absent c2); [|done]. etrans; [exact Hr|apply refresh_replication_pipelines_roles].
    + intros [= <-]. apply (same_roles_absent c1); [|done].
      etrans; [apply reset_leader_lease_epoch_roles|]. generalize (reset_leader_lease_epoch c1). intros c3.
      etrans; [apply refresh_commit_index_roles|]. apply refresh_replication_pipelines_roles.
  - assert (rc_leader_id c2 = None /\ rc_current_term c2 = rc_current_term c /\ nodes_keyed c2) as (H1 & H2 & H3) by done.
    clearbody c2. case_bool_decide as Hl.
    + destruct (closest_follower c) as [t|].
      * destruct (campaign t true c2) as [[[]|] c3] eqn:Hc; [|done]. destruct (hand_over_removed t c2 c3 H3 H1 Hc) as [H4 H5].
        intros [= <-]. destruct (refresh_replication_pipelines_office c3) as [-> ->]. rewrite H4, H5, H2. by split.
      * intros [= <-]. destruct (refresh_replication_pipelines_office c2) as [-> ->]. rewrite H1, H2, N.add_0_r. by split.
    + intros [= <-]. destruct (refresh_replication_pipelines_office (refresh_commit_index (reset_leader_lease_epoch c1))) as [-> ->].
      destruct (refresh_commit_index_office (reset_leader_lease_epoch c1)) as [-> ->]. by split.
Qed.

Lemma remove_peer_effect_witness :
  closest_follower applied_leader = Some 2%N
  /\ rc_leader_id (snd (remove_peer 1 applied_leader)) = Some 2%N.
Proof.
  assert (nodes_keyed applied_leader) as Hk by (apply (bool_decide_unpack _); vm_compute; exact I).
  split; [vm_compute; reflexivity|].
  destruct (rc_nodes applied_leader !! 1%N) as [n|] eqn:Hn; [|vm_compute in Hn; discriminate Hn].
  assert (remove_peer 1 applied_leader = (Ok tt, snd (remove_peer 1 applied_leader))) as Hr by (vm_compute; reflexivity).
  destruct (remove_peer_effect 1 applied_leader _ n Hk Hn Hr) as (_ & _ & _ & H).
  refine (eq_trans (proj1 (H _)) _); vm_compute; reflexivity.
Defined.

(** ** Promotion *)

Lemma promote_peer_Ok k c c' :
  promote_peer k c = (Ok tt, c') ->
  exists n, rc_nodes c !! k = Some n /\ nd_replica_role n = Learner /\ (rc_commit_index c <= match_index n)%N
    /\ rc_nodes c' !! k = Some (promoted n).
Proof.
  unfold promote_peer. destruct (require_running _ c); [|done]. destruct (rc_nodes c !! k) as [n|] eqn:Hn; [|done].
  case_bool_decide as Hr; [|done]. cbn [negb]. destruct (N.ltb_spec (match_index n) (rc_commit_index c)); [done|].
  intros [= <-]. exists n. split_and!; [done|done|done|]. cbn. by rewrite lookup_alter_eq, Hn.
Qed.

(** A learner is promoted only when it is caught up. When the check of a
    learner that promotes itself reports a promotion it made now, the catch-up it
    ran reports the learner caught up, no membership change is in flight, and the
    node is a voter afterwards, with every entry up to the group's commit index if
    this check promoted it. *)
Theorem auto_promotion_needs_catch_up k c report catchup c' :
  auto_promote_learner k c = (Ok report, c') -> lap_promoted report = true -> lap_catchup report = Some catchup ->
  cul_caught_up catchup = true /\ lap_state_after report = Promoted
  /\ exists c1 n, catch_up_without_promotion k true
                    (on_node k (set_auto_promote_state
                       (if bool_decide (lap_state_before report = Promoting) then Promoting else PromoteCheck)) c)
                  = (Ok catchup, c1)
     /\ membership_change_fence_active c1 = false
     /\ rc_nodes c' !! k = Some n /\ nd_replica_role n = Voter
     /\ (c' = c1 \/ exists n1, rc_nodes c1 !! k = Some n1 /\ (rc_commit_index c1 <= match_index n1)%N).
Proof.
  unfold auto_promote_learner. destruct (rc_nodes c !! k) as [learner|] eqn:Hn; [|done].
  destruct (_ && _); [by intros [= <- <-]|]. destruct (negb (bool_decide (nd_replica_role learner = Learner))); [done|]. cbn zeta.
  destruct (nd_auto_promote learner); cbn [negb]; [|by intros [= <- <-]].
  destruct (bool_decide (nd_auto_promote_state learner = Stop) && (match_index learner =? 0)%N); [by intros [= <- <-]|].
  set (state := if bool_decide (nd_auto_promote_state learner = Promoting) then _ else _).
  destruct (catch_up_without_promotion k true (on_node k (set_auto_promote_state state) c)) as [[cu|] c1] eqn:Hc; [|done].
  unfold promote_after_catch_up. cbn zeta.
  destruct (bool_decide (nd_auto_promote_state learner = Stop) && _); [by intros [= <- <-]|].
  destruct (cul_caught_up cu) eqn:Hcu; cbn [negb]; [|by intros [= <- <-]].
  destruct (membership_change_fence_active c1) eqn:Hf; [by intros [= <- <-]|].
  destruct (node_is k (fun node => bool_decide (nd_replica_role node = Voter)) c1) eqn:Hv.
  - intros [= <- <-] _ [= <-]. split_and!; [done|done|]. unfold node_is in Hv.
    destruct (rc_nodes c1 !! k) as [n1|] eqn:Hn1; [|done]. apply bool_decide_eq_true in Hv.
    exists c1, n1. split_and!; [exact Hc|done|done|done|by left].
  - unfold mbind, ST_bind. set (c2 := on_node k (set_auto_promote_state Promoting) c1).
    destruct (promote_peer k c2) as [[[]|] c3] eqn:Hp; [|done]. intros [= <- <-] _ [= <-]. split_and!; [done|done|].
    apply promote_peer_Ok in Hp as (n2 & Hn2 & _ & Hle & Hn3). exists c1, (promoted n2). split_and!; [exact Hc|done|done|done|right].
    subst c2. cbn in Hn2, Hle. rewrite lookup_alter_eq in Hn2. apply fmap_Some in Hn2 as (n1 & Hn1 & ->). by exists n1.
Qed.

(** A learner of [applied_leader] that was caught up and asks for promotion. *)
Definition ready_learner : RaftCluster :=
  on_node 5 (fun n => n <| nd_auto_promote := true |>) (snd (add_peer (sample_peer 5 Learner) applied_leader)).

Lemma auto_promotion_needs_catch_up_witness :
  exists report catchup, fst (auto_promote_learner 5 ready_learner) = Ok report
    /\ lap_catchup report = Some catchup /\ cul_caught_up catchup = true.
Proof.
  destruct (auto_promote_learner 5 ready_learner) as [[report|e] c'] eqn:H; [|vm_compute in H; discriminate H].
  assert (lap_promoted report = true) as Hp by (revert H; vm_compute; intros [= <- _]; reflexivity).
  destruct (lap_catchup report) as [catchup|] eqn:Hc; [|revert H Hc; vm_compute; intros [= <- _]; discriminate].
  exists report, catchup. split; [reflexivity|]. split; [exact Hc|].
  exact (proj1 (auto_promotion_needs_catch_up 5 ready_learner report catchup c' H Hp Hc)).
Defined.

(** The check of a learner waits for a membership change in flight; the catch-up
    that any heartbeat or response runs does not: it makes the learner a voter while
    the change at index 1 is pending. *)
Example catch_up_promotes_across_pending_change :
  let c := snd (begin_pending_membership_change 1 ready_learner) in
  membership_change_fence_active c = true
  /\ m_learners (membership c) = [5%N]
  /\ (match fst (auto_promote_learner 5 c) with Ok r => lap_reason r | Err _ => "" end) = "membership_change_pending"
  /\ m_learners (membership (snd (catch_up_peer 5 c))) = [] /\ membership_change_fence_active (snd (catch_up_peer 5 c)) = true.
Proof. vm_compute. split_and!; reflexivity. Qed.
