(* ===== verification/RateLimit.v ===== *)
(** * Byte quotas

    Models [src/rate_limit.rs]: the trait [RateLimiter] as a class with the laws
    its users rely on, and [ByteQuotaLimiter] with the refill of
    [RateLimiterRefiller] as its instance (the refiller's lock and counters are
    the caller's: one refill is one step here).

    The theorems: the quota is conserved over any sequence of requests and
    refills and never exceeds its capacity. *)

From stdpp Require Import base strings numbers list.
From S2P Require Import Prelude Types.

Record RateLimitDecision := mkRateLimitDecision {
  rld_allowed : bool;
  rld_requested_bytes : N;
  rld_granted_bytes : N;
  rld_available_before : N;
  rld_available_after : N;
  rld_reason : string
}.

Record RateLimiterStats := mkRateLimiterStats {
  rls_total_granted_bytes : N;
  rls_total_rejected_bytes : N;
  rls_total_refilled_bytes : N;
  rls_grant_count : N;
  rls_rejection_count : N
}.
#[export] Instance eta_RateLimiterStats : Settable RateLimiterStats :=
  fun r => mkRateLimiterStats (rls_total_granted_bytes r) (rls_total_rejected_bytes r)
    (rls_total_refilled_bytes r) (rls_grant_count r) (rls_rejection_count r).

(** What a limiter promises to the code that sends under it: a limited
    reservation grants no more than was asked, nothing when it refuses, something
    when it allows a request for something, and takes what it granted from the
    quota. *)
Class RateLimiter (L : Type) := {
  reserve_bytes : N -> L -> RateLimitDecision * L;
  reserve_limited_bytes : N -> L -> RateLimitDecision * L;
  refill_bytes : N -> L -> L;
  available_bytes : L -> N;
  limited_granted_le : forall n l, (rld_granted_bytes (reserve_limited_bytes n l).1 <= n)%N;
  limited_refused : forall n l, rld_allowed (reserve_limited_bytes n l).1 = false ->
    rld_granted_bytes (reserve_limited_bytes n l).1 = 0%N;
  limited_progress : forall n l, rld_allowed (reserve_limited_bytes n l).1 = true -> (0 < n)%N ->
    (0 < rld_granted_bytes (reserve_limited_bytes n l).1)%N;
  limited_taken : forall n l,
    available_bytes (reserve_limited_bytes n l).2 = (available_bytes l - rld_granted_bytes (reserve_limited_bytes n l).1)%N
}.

Record ByteQuotaLimiter := mkByteQuotaLimiter {
  bq_capacity_bytes : N;
  bq_available_bytes : N;
  bq_stats : RateLimiterStats
}.
#[export] Instance eta_ByteQuotaLimiter : Settable ByteQuotaLimiter :=
  fun r => mkByteQuotaLimiter (bq_capacity_bytes r) (bq_available_bytes r) (bq_stats r).

Definition with_available (capacity_bytes available_bytes : N) : ByteQuotaLimiter :=
  mkByteQuotaLimiter capacity_bytes (N.min available_bytes capacity_bytes) (mkRateLimiterStats 0 0 0 0 0).
Definition quota_new (capacity_bytes : N) : ByteQuotaLimiter := with_available capacity_bytes capacity_bytes.

(** The counters of a refused and of a granted request. *)
Definition count_rejection (requested_bytes : N) (l : ByteQuotaLimiter) : ByteQuotaLimiter :=
  l <| bq_stats ::= (fun s => s <| rls_rejection_count ::= (fun n => n +s 1) |>
                                <| rls_total_rejected_bytes ::= (fun n => n +s requested_bytes) |>) |>.
Definition count_grant (granted_bytes : N) (l : ByteQuotaLimiter) : ByteQuotaLimiter :=
  l <| bq_stats ::= (fun s => s <| rls_grant_count ::= (fun n => n +s 1) |>
                                <| rls_total_granted_bytes ::= (fun n => n +s granted_bytes) |>) |>.

Definition quota_reserve_bytes (requested_bytes : N) (l : ByteQuotaLimiter) : RateLimitDecision * ByteQuotaLimiter :=
  let available_before := bq_available_bytes l in
  let refused reason :=
    (mkRateLimitDecision false requested_bytes 0 available_before available_before reason, count_rejection requested_bytes l) in
  if (requested_bytes =? 0)%N
  then (mkRateLimitDecision true requested_bytes 0 available_before available_before "zero_request", l)
  else if (bq_capacity_bytes l <? requested_bytes)%N then refused "request_exceeds_capacity"
  else if (bq_available_bytes l <? requested_bytes)%N then refused "quota_unavailable"
  else
    let l := count_grant requested_bytes (l <| bq_available_bytes ::= (fun a => wrapping_sub a requested_bytes) |>) in
    (mkRateLimitDecision true requested_bytes requested_bytes available_before (bq_available_bytes l) "granted", l).

Definition quota_reserve_limited_bytes (requested_bytes : N) (l : ByteQuotaLimiter)
    : RateLimitDecision * ByteQuotaLimiter :=
  let available_before := bq_available_bytes l in
  if (requested_bytes =? 0)%N
  then (mkRateLimitDecision true requested_bytes 0 available_before available_before "zero_request", l)
  else if (bq_capacity_bytes l =? 0)%N || (bq_available_bytes l =? 0)%N then
    (mkRateLimitDecision false requested_bytes 0 available_before available_before "quota_unavailable",
     count_rejection requested_bytes l)
  else
    let granted_bytes := N.min requested_bytes (bq_available_bytes l) in
    let l := count_grant granted_bytes (l <| bq_available_bytes ::= (fun a => saturating_sub a granted_bytes) |>) in
    (mkRateLimitDecision true requested_bytes granted_bytes available_before (bq_available_bytes l)
       (if (granted_bytes =? requested_bytes)%N then "granted" else "partial_granted"), l).

Definition quota_refill_bytes (bytes : N) (l : ByteQuotaLimiter) : ByteQuotaLimiter :=
  let available_before := bq_available_bytes l in
  let l := l <| bq_available_bytes ::= (fun a => N.min (a +s bytes) (bq_capacity_bytes l)) |> in
  l <| bq_stats ::= (fun s => s <| rls_total_refilled_bytes ::=
         (fun n => n +s saturating_sub (bq_available_bytes l) available_before) |>) |>.

#[export] Program Instance ByteQuotaLimiter_RateLimiter : RateLimiter ByteQuotaLimiter := {|
  reserve_bytes := quota_reserve_bytes;
  reserve_limited_bytes := quota_reserve_limited_bytes;
  refill_bytes := quota_refill_bytes;
  available_bytes := bq_available_bytes
|}.
Next Obligation. intros n l. unfold quota_reserve_limited_bytes. repeat case_match; cbn; lia. Qed.
Next Obligation. intros n l. unfold quota_reserve_limited_bytes. repeat case_match; cbn; done. Qed.
Next Obligation.
  intros n l. unfold quota_reserve_limited_bytes. destruct (N.eqb_spec n 0); [intros; lia|].
  destruct (N.eqb_spec (bq_capacity_bytes l) 0), (N.eqb_spec (bq_available_bytes l) 0); cbn; try done; lia.
Qed.
Next Obligation.
  intros n l. unfold quota_reserve_limited_bytes. destruct (N.eqb_spec n 0); cbn; [lia|].
  destruct (_ || _); cbn; [lia|done].
Qed.

(** [RateLimiterRefiller::refill_now] on the limiter it holds, with the bytes it
    reports as restored. *)
Definition refill_now (l : ByteQuotaLimiter) : N * ByteQuotaLimiter :=
  let missing := saturating_sub (bq_capacity_bytes l) (bq_available_bytes l) in
  (missing, if (0 <? missing)%N then quota_refill_bytes missing l else l).

(** ** The quota over time *)

Inductive QuotaOp : Type :=
| QReserve (bytes : N)
| QReserveLimited (bytes : N)
| QRefill (bytes : N)
| QRefillNow.

(** The limiter with the bytes granted and restored so far. *)
Definition run_quota_op (s : ByteQuotaLimiter * N * N) (op : QuotaOp) : ByteQuotaLimiter * N * N :=
  let '(l, granted, restored) := s in
  match op with
  | QReserve n => let '(d, l') := reserve_bytes n l in (l', (granted + rld_granted_bytes d)%N, restored)
  | QReserveLimited n => let '(d, l') := reserve_limited_bytes n l in (l', (granted + rld_granted_bytes d)%N, restored)
  | QRefill n => let l' := refill_bytes n l in (l', granted, (restored + (available_bytes l' - available_bytes l))%N)
  | QRefillNow => let '(n, l') := refill_now l in (l', granted, (restored + n)%N)
  end.
Definition run_quota (ops : list QuotaOp) (l : ByteQuotaLimiter) : ByteQuotaLimiter * N * N :=
  foldl run_quota_op (l, 0%N, 0%N) ops.

(** What is left and what was granted is what there was and what was restored. *)
Definition quota_inv (l : ByteQuotaLimiter) (s : ByteQuotaLimiter * N * N) : Prop :=
  let '(l', granted, restored) := s in
  bq_capacity_bytes l' = bq_capacity_bytes l /\ (bq_available_bytes l' <= bq_capacity_bytes l)%N
  /\ (bq_available_bytes l' + granted = bq_available_bytes l + restored)%N.

Lemma wrapping_sub_le a b : u64 a -> (b <= a)%N -> wrapping_sub a b = (a - b)%N.
Proof.
  unfold u64, wrapping_sub. intros Ha Hb. replace (a + u64_modulus - b)%N with ((a - b) + 1 * u64_modulus)%N by lia.
  rewrite N.Div0.mod_add. apply N.mod_small. unfold u64_max in Ha. unfold u64_modulus. lia.
Qed.

Lemma run_quota_op_inv l s op : u64 (bq_capacity_bytes l) -> quota_inv l s -> quota_inv l (run_quota_op s op).
Proof.
  destruct s as [[l1 granted] restored]. intros Hu (Hc & Ha & Hs). unfold u64 in Hu.
  assert (u64 (bq_available_bytes l1)) as Hu1 by (unfold u64; lia).
  destruct op as [n|n|n|]; cbn [run_quota_op reserve_bytes reserve_limited_bytes refill_bytes ByteQuotaLimiter_RateLimiter].
  - unfold quota_reserve_bytes. destruct (n =? 0)%N; [cbn; split_and!; [done|lia|lia]|].
    destruct (_ <? n)%N; [cbn; split_and!; [done|lia|lia]|].
    destruct (N.ltb_spec (bq_available_bytes l1) n); [cbn; split_and!; [done|lia|lia]|].
    cbn. rewrite wrapping_sub_le by done. split_and!; [done|lia|lia].
  - unfold quota_reserve_limited_bytes. destruct (n =? 0)%N; [cbn; split_and!; [done|lia|lia]|].
    destruct (_ || _); [cbn; split_and!; [done|lia|lia]|]. cbn. unfold saturating_sub. split_and!; [done|lia|lia].
  - cbn. unfold saturating_add in *. split_and!; [done|lia|lia].
  - unfold refill_now, saturating_sub. destruct (N.ltb_spec 0 (bq_capacity_bytes l1 - bq_available_bytes l1)).
    + cbn. unfold saturating_add. rewrite Hc in *. split_and!; [done|lia|lia].
    + cbn. split_and!; [done|lia|lia].
Qed.

(** The byte quota is conserved. Over any sequence of whole and limited
    reservations and refills, a limiter never holds more than its capacity, and the
    bytes it granted plus those it still holds are the bytes it began with plus
    those that were restored. *)
Theorem byte_quota_conserved ops capacity available :
  u64 capacity ->
  let '(l, granted, restored) := run_quota ops (with_available capacity available) in
  (bq_available_bytes l <= capacity)%N
  /\ (bq_available_bytes l + granted = N.min available capacity + restored)%N.
Proof.
  intros Hu. set (l0 := with_available capacity available).
  assert (quota_inv l0 (run_quota ops l0)) as H.
  { unfold run_quota. assert (quota_inv l0 (l0, 0%N, 0%N)) as H0 by (cbn; split_and!; [done|lia|lia]).
    revert H0. generalize (l0, 0%N, 0%N). induction ops as [|op ops IH]; intros s Hs; [done|].
    apply IH. by apply run_quota_op_inv. }
  destruct (run_quota ops l0) as [[l granted] restored]. destruct H as (_ & H1 & H2). cbn in H1, H2. split; [done|lia].
Qed.

Lemma byte_quota_conserved_witness :
  let '(l, granted, restored) :=
    run_quota [QReserveLimited 30; QReserve 50; QRefill 5; QReserveLimited 100; QRefillNow] (with_available 64 64) in
  (granted, restored, bq_available_bytes l) = (69, 69, 64)%N
  /\ (bq_available_bytes l + granted = N.min 64 64 + restored)%N.
Proof.
  assert (u64 64) as Hu by (vm_compute; discriminate).
  pose proof (byte_quota_conserved [QReserveLimited 30; QReserve 50; QRefill 5; QReserveLimited 100; QRefillNow] 64 64 Hu) as H.
  destruct (run_quota _ _) as [[l granted] restored] eqn:E.
  split; [vm_compute in E; injection E as <- <- <-; reflexivity|exact (proj2 H)].
Defined.
