(* ===== verification/SnapshotTransfer.v ===== *)
(** * Snapshot transfer

    Models the state machine that moves a snapshot from one node to another,
    [SnapshotLifecycle] and [SnapshotInstallState] of
    [src/facade/snapshot_runtime.rs], with the validators of [src/snapshot.rs]:
    splitting a snapshot into chunks, sending them under the limits of a tick and
    of a rate limiter, the answers and the retries, and the receiving side that
    puts the chunks together. The rate limiter is any instance of the class of
    [RateLimit.v].

    The theorems: chunks put together in order give the snapshot back; each poll
    sends the next chunks and makes progress, with the limiter too, so a transfer
    whose chunks arrive ends with the snapshot installed; a send completes only
    when every chunk was sent and accepted; a cancelled install stays cancelled. *)

From stdpp Require Import base strings pretty numbers relations list.
From S2P Require Import Prelude Types RateLimit.

Record InstallSnapshotRequest := mkInstallSnapshotRequest {
  isr_group_id : GroupId;
  isr_term : Term;
  isr_leader_id : NodeId;
  isr_chunk : SnapshotChunk
}.

Record InstallSnapshotResponse := mkInstallSnapshotResponse {
  isp_term : Term;
  isp_accepted : bool;
  isp_next_offset : N;
  isp_committed_index : LogIndex;
  isp_reason : string;
  isp_throttled : bool
}.

(** ** Validators *)

Definition matrixraft_validate_snapshot_floor_log_matching (snapshot : SnapshotMetadata)
    (first_retained_log_index : LogIndex) (prev_log_id : option LogId) : Result unit :=
  if (0 <? first_retained_log_index)%N && (first_retained_log_index <=? snap_index snapshot)%N
  then Err (StorageErr "first retained log index overlaps snapshot floor")
  else match prev_log_id with
       | None => Ok tt
       | Some prev =>
           if (lid_index prev <? snap_index snapshot)%N
           then Err (StorageErr "previous log id is below snapshot floor")
           else if (lid_index prev =? snap_index snapshot)%N
                   && negb (lid_term prev =? lid_term (snap_last_log_id snapshot))%N
           then Err (StorageErr "snapshot floor term does not match previous log id")
           else Ok tt
       end.

Definition matrixraft_validate_snapshot_install (snapshot : RaftSnapshot) (fence : ApplySnapshotFence) : Result unit :=
  if negb (fence_installed_snapshot_index fence =? snap_index (rs_meta snapshot))%N
  then Err (StorageErr "snapshot install fence does not match snapshot last log index")
  else matrixraft_validate_snapshot_floor_log_matching (rs_meta snapshot)
         (fence_first_retained_log_index fence) (Some (snap_last_log_id (rs_meta snapshot))).

Definition not_contiguous : RaftError := StorageErr "tail catch-up entries are not contiguous after snapshot".

Fixpoint validate_tail (snapshot_index : LogIndex) (offset : N) (tail_entries : list LogEntry) : Result unit :=
  match tail_entries with
  | [] => Ok tt
  | entry :: rest =>
      if (entry_index entry <=? snapshot_index)%N
      then Err (StorageErr "tail catch-up entry overlaps installed snapshot")
      else match (first ← checked_add snapshot_index 1; checked_add first offset) with
           | None => Err not_contiguous
           | Some expected_index =>
               if negb (entry_index entry =? expected_index)%N then Err not_contiguous
               else validate_tail snapshot_index (offset + 1)%N rest
           end
  end.
Definition matrixraft_validate_snapshot_tail_catchup (snapshot : SnapshotMetadata) (tail_entries : list LogEntry)
    : Result unit := validate_tail (snap_index snapshot) 0 tail_entries.

(** ** The receiving side: [SnapshotInstallState] *)

Definition install_state_new (meta : SnapshotMetadata) : SnapshotInstallState := mkSnapshotInstallState meta [] 0 false.

Definition data_len (data : Payload) : N := N.of_nat (length data).

Definition install_chunk (chunk : SnapshotChunk) : ST RaftError SnapshotInstallState unit := fun s =>
  if negb (bool_decide (chunk_meta chunk = sis_meta s))
  then (Err (InvalidRequest "snapshot chunk metadata changed during install"), s)
  else if negb (chunk_offset chunk =? sis_next_offset s)%N
  then (Err (InvalidRequest ("snapshot chunk offset " ++s pretty (chunk_offset chunk)
                             ++s " does not match next offset " ++s pretty (sis_next_offset s))), s)
  else
    let arriving := sis_next_offset s +s data_len (chunk_data chunk) in
    if (0 <? snap_payload_bytes (sis_meta s))%N && (snap_payload_bytes (sis_meta s) <? arriving)%N
    then (Err (InvalidRequest ("snapshot chunk at offset " ++s pretty (chunk_offset chunk)
                 ++s " would carry the install to " ++s pretty arriving ++s " bytes, past the "
                 ++s pretty (snap_payload_bytes (sis_meta s)) ++s " the sender declared")), s)
    else (Ok tt, s <| sis_next_offset := arriving |>
                   <| sis_bytes ::= (fun bytes => bytes ++ chunk_data chunk) |>
                   <| sis_complete := chunk_done chunk |>).

Definition finish (group_id : GroupId) (s : SnapshotInstallState) : Result RaftSnapshot :=
  if negb (sis_complete s) then Err (InvalidRequest "snapshot install is incomplete")
  else if (0 <? snap_payload_bytes (sis_meta s))%N && negb (data_len (sis_bytes s) =? snap_payload_bytes (sis_meta s))%N
  then Err (InvalidRequest ("snapshot install ended with " ++s pretty (data_len (sis_bytes s)) ++s " bytes, not the "
                            ++s pretty (snap_payload_bytes (sis_meta s)) ++s " the sender declared"))
  else Ok (mkRaftSnapshot group_id (sis_meta s) (sis_bytes s)).

(** ** The sending side: [SnapshotLifecycle] *)

Record SnapshotLifecycleConfig := mkSnapshotLifecycleConfig {
  slc_chunk_size : N;
  slc_max_chunks_per_tick : N;
  slc_max_bytes_per_tick : N;
  slc_max_retry_attempts : N
}.

Definition SnapshotLifecycleConfig_default : SnapshotLifecycleConfig :=
  mkSnapshotLifecycleConfig (64 * 1024) 16 (4 * 1024 * 1024) 3.

Definition slc_validate (config : SnapshotLifecycleConfig) : Result unit :=
  if (slc_chunk_size config =? 0)%N then Err (InvalidRequest "snapshot chunk_size must be greater than zero")
  else if (slc_max_chunks_per_tick config =? 0)%N
  then Err (InvalidRequest "snapshot max_chunks_per_tick must be greater than zero")
  else if (slc_max_bytes_per_tick config =? 0)%N
  then Err (InvalidRequest "snapshot max_bytes_per_tick must be greater than zero")
  else Ok tt.

Record SnapshotLifecycleStatus := mkSnapshotLifecycleStatus {
  sls_snapshot_id : option string;
  sls_sending : bool;
  sls_installing : bool;
  sls_total_chunks : N;
  sls_sent_chunks : N;
  sls_received_chunks : N;
  sls_retry_count : N;
  sls_throttled_ticks : N;
  sls_rate_limited_ticks : N;
  sls_throttled_responses : N;
  sls_refused_chunks : N;
  sls_cancelled_installs : N;
  sls_install_cancelled : bool;
  sls_rolled_back : N;
  sls_completed : bool;
  sls_installed_index : LogIndex
}.
#[export] Instance eta_SnapshotLifecycleStatus : Settable SnapshotLifecycleStatus :=
  fun r => mkSnapshotLifecycleStatus (sls_snapshot_id r) (sls_sending r) (sls_installing r)
    (sls_total_chunks r) (sls_sent_chunks r) (sls_received_chunks r) (sls_retry_count r)
    (sls_throttled_ticks r) (sls_rate_limited_ticks r) (sls_throttled_responses r)
    (sls_refused_chunks r) (sls_cancelled_installs r) (sls_install_cancelled r)
    (sls_rolled_back r) (sls_completed r) (sls_installed_index r).

Record SnapshotSendState := mkSnapshotSendState {
  sss_group_id : GroupId;
  sss_term : Term;
  sss_leader_id : NodeId;
  sss_chunks : list SnapshotChunk;
  sss_next_chunk : nat;
  sss_accepted_chunks : N;
  sss_retry_count : N
}.
#[export] Instance eta_SnapshotSendState : Settable SnapshotSendState :=
  fun r => mkSnapshotSendState (sss_group_id r) (sss_term r) (sss_leader_id r) (sss_chunks r)
    (sss_next_chunk r) (sss_accepted_chunks r) (sss_retry_count r).

Record SnapshotLifecycle := mkSnapshotLifecycle {
  sl_config : SnapshotLifecycleConfig;
  sl_sender : option SnapshotSendState;
  sl_installer : option SnapshotInstallState;
  sl_status : SnapshotLifecycleStatus;
  sl_install_closed : bool
}.
#[export] Instance eta_SnapshotLifecycle : Settable SnapshotLifecycle :=
  fun r => mkSnapshotLifecycle (sl_config r) (sl_sender r) (sl_installer r) (sl_status r)
    (sl_install_closed r).

Abbreviation Lifecycle := (ST RaftError SnapshotLifecycle) (only parsing).

Definition lifecycle_new (config : SnapshotLifecycleConfig) : Result SnapshotLifecycle :=
  _ ← slc_validate config;
  Ok (mkSnapshotLifecycle config None None
        (mkSnapshotLifecycleStatus None false false 0 0 0 0 0 0 0 0 0 false 0 false 0) false).

Definition on_status (f : SnapshotLifecycleStatus -> SnapshotLifecycleStatus) (l : SnapshotLifecycle) : SnapshotLifecycle :=
  l <| sl_status ::= f |>.

(** The loop of [checkpoint]; [fuel] bounds the rounds, each of which takes at
    least one byte. *)
Fixpoint chunk_loop (fuel : nat) (declared : SnapshotMetadata) (chunk_size offset : N) (payload : Payload)
    : list SnapshotChunk :=
  match fuel with
  | O => []
  | S fuel =>
      if (offset <? data_len payload)%N then
        let end_ := N.min (offset +w chunk_size) (data_len payload) in
        mkSnapshotChunk declared offset
          (take (N.to_nat (end_ - offset)) (drop (N.to_nat offset) payload)) (end_ =? data_len payload)%N
        :: chunk_loop fuel declared chunk_size end_ payload
      else []
  end.

Definition checkpoint (snapshot : RaftSnapshot) (chunk_size : N) : Result (list SnapshotChunk) :=
  if (chunk_size =? 0)%N then Err (InvalidRequest "snapshot chunk_size must be greater than zero")
  else
    let payload := rs_payload snapshot in
    let declared := (rs_meta snapshot) <| snap_payload_bytes := data_len payload |> in
    let chunks := chunk_loop (length payload) declared chunk_size 0 payload in
    Ok (match chunks with [] => [mkSnapshotChunk declared 0 [] true] | _ => chunks end).

Definition begin_send (snapshot : RaftSnapshot) (term : Term) (leader_id : NodeId) : Lifecycle unit := fun l =>
  if bool_decide (is_Some (sl_sender l)) || bool_decide (is_Some (sl_installer l))
  then (Err (InvalidRequest "snapshot lifecycle is already active"), l)
  else match checkpoint snapshot (slc_chunk_size (sl_config l)) with
       | Err e => (Err e, l)
       | Ok chunks =>
           let status := sl_status l in
           (Ok tt, l <| sl_status :=
                          mkSnapshotLifecycleStatus (Some (snap_id (rs_meta snapshot))) true false
                            (N.of_nat (length chunks)) 0 0 0 0 (sls_rate_limited_ticks status) 0
                            (sls_refused_chunks status) (sls_cancelled_installs status) (sl_install_closed l)
                            (sls_rolled_back status) false 0 |>
                     <| sl_sender := Some (mkSnapshotSendState (rs_group_id snapshot) term leader_id chunks 0 0 0) |>)
       end.

Definition request_of (sender : SnapshotSendState) (chunk : SnapshotChunk) : InstallSnapshotRequest :=
  mkInstallSnapshotRequest (sss_group_id sender) (sss_term sender) (sss_leader_id sender) chunk.

Definition not_sending : RaftError := InvalidRequest "snapshot send is not active".

Definition count_throttled (l : SnapshotLifecycle) : SnapshotLifecycle :=
  on_status (fun s => s <| sls_throttled_ticks ::= (fun n => n +w 1) |>) l.
Definition count_sent (l : SnapshotLifecycle) : SnapshotLifecycle :=
  on_status (fun s => s <| sls_sent_chunks ::= (fun n => n +w 1) |>) l.

(** The loop of [poll_send_requests]: [room] requests are left in this tick,
    [first] says that none was made yet. *)
Fixpoint poll_loop (room : nat) (first : bool) (bytes : N) (sender : SnapshotSendState) (l : SnapshotLifecycle)
    : list InstallSnapshotRequest * SnapshotSendState * SnapshotLifecycle :=
  match room with
  | O => ([], sender, l)
  | S room =>
      match sss_chunks sender !! sss_next_chunk sender with
      | None => ([], sender, l)
      | Some chunk =>
          let next_bytes := bytes +w data_len (chunk_data chunk) in
          if negb first && (slc_max_bytes_per_tick (sl_config l) <? next_bytes)%N
          then ([], sender, count_throttled l)
          else
            let '(requests, sender', l') :=
              poll_loop room false next_bytes (sender <| sss_next_chunk ::= S |>) (count_sent l) in
            (request_of sender chunk :: requests, sender', l')
      end
  end.

(** What both polls do after the loop. *)
Definition finish_poll (result : list InstallSnapshotRequest * SnapshotSendState * SnapshotLifecycle)
    : list InstallSnapshotRequest * SnapshotLifecycle :=
  let '(requests, sender, l) := result in
  let l := l <| sl_sender := Some sender |> in
  (requests, if (sss_next_chunk sender <? length (sss_chunks sender))%nat then count_throttled l else l).

Definition poll_send_requests : Lifecycle (list InstallSnapshotRequest) := fun l =>
  match sl_sender l with
  | None => (Err not_sending, l)
  | Some sender =>
      let '(requests, l) :=
        finish_poll (poll_loop (N.to_nat (slc_max_chunks_per_tick (sl_config l))) true 0 sender l) in
      (Ok requests, l)
  end.

Section limited.
Context {L : Type} `{!RateLimiter L}.

(** What a grant sends: the whole chunk, or its front with the rest left in the
    chunk's place. *)
Definition send_granted (granted_bytes : N) (chunk : SnapshotChunk) (sender : SnapshotSendState) (l : SnapshotLifecycle)
    : SnapshotChunk * SnapshotSendState * SnapshotLifecycle :=
  let granted := N.to_nat granted_bytes in
  if (granted <? length (chunk_data chunk))%nat then
    let remaining := mkSnapshotChunk (chunk_meta chunk) (chunk_offset chunk +w granted_bytes)
                       (drop granted (chunk_data chunk)) (chunk_done chunk) in
    (mkSnapshotChunk (chunk_meta chunk) (chunk_offset chunk) (take granted (chunk_data chunk)) false,
     sender <| sss_chunks ::= <[sss_next_chunk sender := remaining]> |>,
     on_status (fun s => s <| sls_total_chunks ::= (fun n => n +s 1) |>) l)
  else (chunk, sender <| sss_next_chunk ::= S |>, l).

Fixpoint limited_loop (room : nat) (first : bool) (bytes : N) (sender : SnapshotSendState) (l : SnapshotLifecycle)
    (limiter : L) : list InstallSnapshotRequest * SnapshotSendState * SnapshotLifecycle * L :=
  match room with
  | O => ([], sender, l, limiter)
  | S room =>
      match sss_chunks sender !! sss_next_chunk sender with
      | None => ([], sender, l, limiter)
      | Some chunk =>
          let chunk_bytes := data_len (chunk_data chunk) in
          let next_bytes := bytes +w chunk_bytes in
          if negb first && (slc_max_bytes_per_tick (sl_config l) <? next_bytes)%N
          then ([], sender, count_throttled l, limiter)
          else
            let '(decision, limiter) := reserve_limited_bytes chunk_bytes limiter in
            if negb (rld_allowed decision) then
              ([], sender,
               on_status (fun s => s <| sls_rate_limited_ticks ::= (fun n => n +w 1) |>) (count_throttled l), limiter)
            else
              let '(sent, sender', l') := send_granted (rld_granted_bytes decision) chunk sender l in
              let '(requests, sender', l', limiter) :=
                limited_loop room false (bytes +w rld_granted_bytes decision) sender' (count_sent l') limiter in
              (request_of sender sent :: requests, sender', l', limiter)
      end
  end.

Definition poll_send_requests_with_limiter (limiter : L) (l : SnapshotLifecycle)
    : Result (list InstallSnapshotRequest) * SnapshotLifecycle * L :=
  match sl_sender l with
  | None => (Err not_sending, l, limiter)
  | Some sender =>
      let '(requests, sender, l, limiter) :=
        limited_loop (N.to_nat (slc_max_chunks_per_tick (sl_config l))) true 0 sender l limiter in
      let '(requests, l) := finish_poll (requests, sender, l) in
      (Ok requests, l, limiter)
  end.
End limited.

(** ** Answers and retries *)

(** The send goes on, or is over. *)
Definition keep_sender (sender : SnapshotSendState) (l : SnapshotLifecycle) : SnapshotLifecycle :=
  l <| sl_sender := Some sender |>.

Definition accept_response (sender : SnapshotSendState) (l : SnapshotLifecycle) : SnapshotLifecycle :=
  let sender := sender <| sss_accepted_chunks ::= (fun n => n +w 1) |> in
  if (N.of_nat (length (sss_chunks sender)) <=? sss_accepted_chunks sender)%N
     && (length (sss_chunks sender) <=? sss_next_chunk sender)%nat
  then on_status (fun s => s <| sls_sending := false |> <| sls_completed := true |>) (l <| sl_sender := None |>)
  else keep_sender sender l.

(** A retry spends the budget; when it is exhausted the send is over. *)
Definition spend_retry (message : string) (sender : SnapshotSendState) (l : SnapshotLifecycle)
    : option RaftError * SnapshotSendState * SnapshotLifecycle :=
  let sender := sender <| sss_retry_count ::= (fun n => n +w 1) |> in
  let l := on_status (fun s => s <| sls_retry_count ::= (fun n => n +w 1) |>) l in
  if (slc_max_retry_attempts (sl_config l) <? sss_retry_count sender)%N
  then (Some (TransportErr message), sender,
        on_status (fun s => s <| sls_sending := false |>) (l <| sl_sender := None |>))
  else (None, sender, keep_sender sender l).

(** The first chunk at or after the offset the receiver asks for. *)
Definition rewind (next_offset : N) (sender : SnapshotSendState) : SnapshotSendState :=
  sender <| sss_next_chunk :=
    match list_find (fun chunk => (next_offset <= chunk_offset chunk)%N) (sss_chunks sender) with
    | Some (position, _) => position
    | None => length (sss_chunks sender)
    end |>.

Definition record_send_response (response : InstallSnapshotResponse) : Lifecycle unit := fun l =>
  match sl_sender l with
  | None => if isp_accepted response then (Ok tt, l) else (Err not_sending, l)
  | Some sender =>
      if isp_accepted response then (Ok tt, accept_response sender l)
      else if negb (isp_throttled response) then
        match spend_retry "snapshot send retry budget exhausted" sender l with
        | (Some e, _, l) => (Err e, l)
        | (None, sender, l) => (Ok tt, keep_sender (rewind (isp_next_offset response) sender) l)
        end
      else
        (Ok tt, keep_sender (rewind (isp_next_offset response) sender)
                  (on_status (fun s => s <| sls_throttled_responses ::= (fun n => n +w 1) |>) l))
  end.

Definition record_send_timeout : Lifecycle unit := fun l =>
  match sl_sender l with
  | None => (Err not_sending, l)
  | Some sender =>
      match spend_retry "snapshot send timeout retry budget exhausted" sender l with
      | (Some e, _, l) => (Err e, l)
      | (None, _, l) => (Ok tt, l)
      end
  end.

Definition cancel_send (l : SnapshotLifecycle) : bool * SnapshotLifecycle :=
  match sl_sender l with
  | None => (false, l)
  | Some _ =>
      (true, on_status (fun s => s <| sls_sending := false |> <| sls_completed := false |>) (l <| sl_sender := None |>))
  end.

(** ** Receiving *)

(** A lifecycle without an installer begins one for the chunk's snapshot. *)
Definition open_installer (meta : SnapshotMetadata) (l : SnapshotLifecycle) : SnapshotInstallState * SnapshotLifecycle :=
  match sl_installer l with
  | Some installer => (installer, l)
  | None =>
      let installer := install_state_new meta in
      (installer,
       on_status (fun s => s <| sls_snapshot_id := Some (snap_id meta) |> <| sls_installing := true |>
                             <| sls_sending := false |> <| sls_completed := false |>
                             <| sls_received_chunks := 0%N |> <| sls_total_chunks := 0%N |>)
         (l <| sl_installer := Some installer |>))
  end.

Definition install_request (request : InstallSnapshotRequest) : Lifecycle (option RaftSnapshot) := fun l =>
  let chunk := isr_chunk request in
  if sl_install_closed l then
    (Err (InvalidRequest "snapshot install is cancelled for this group"),
     on_status (fun s => s <| sls_refused_chunks ::= (fun n => n +w 1) |>) l)
  else
    let '(installer, l) := open_installer (chunk_meta chunk) l in
    if (chunk_offset chunk =? 0)%N && negb (bool_decide (sis_meta installer = chunk_meta chunk)) then (Ok None, l)
    else match install_chunk chunk installer with
         | (Err e, _) => (Err e, l)
         | (Ok _, installer) =>
             let l := on_status (fun s =>
                        let s := s <| sls_received_chunks ::= (fun n => n +w 1) |> in
                        s <| sls_total_chunks ::= N.max (sls_received_chunks s) |>)
                        (l <| sl_installer := Some installer |>) in
             if sis_complete installer then
               let l := l <| sl_installer := None |> in
               match finish (isr_group_id request) installer with
               | Err e => (Err e, l)
               | Ok snapshot =>
                   (Ok (Some snapshot),
                    on_status (fun s => s <| sls_installing := false |> <| sls_completed := true |>
                                          <| sls_installed_index := snap_index (rs_meta snapshot) |>) l)
               end
             else (Ok None, l)
         end.

Definition rollback_install (l : SnapshotLifecycle) : SnapshotLifecycle :=
  on_status (fun s => s <| sls_installing := false |> <| sls_rolled_back ::= (fun n => n +w 1) |>)
    (l <| sl_installer := None |>).

Definition cancel_install (l : SnapshotLifecycle) : bool * SnapshotLifecycle :=
  let was_installing := bool_decide (is_Some (sl_installer l)) in
  let l := l <| sl_installer := None |> <| sl_install_closed := true |> in
  (was_installing,
   on_status (fun s =>
     let s := s <| sls_installing := false |> <| sls_install_cancelled := true |> in
     if was_installing then s <| sls_cancelled_installs ::= (fun n => n +w 1) |> else s) l).

Definition admit_install (l : SnapshotLifecycle) : bool * SnapshotLifecycle :=
  (sl_install_closed l,
   on_status (fun s => s <| sls_install_cancelled := false |>) (l <| sl_install_closed := false |>)).

(** ** Splitting and putting together *)

(** A payload fits in memory: a Rust vector holds at most [isize::MAX] bytes. *)
Definition payload_fits (payload : Payload) : Prop := (data_len payload <= 9223372036854775807)%N.

Definition declared_meta (snapshot : RaftSnapshot) : SnapshotMetadata :=
  (rs_meta snapshot) <| snap_payload_bytes := data_len (rs_payload snapshot) |>.

(** The bounds of the next chunk do not wrap. *)
Lemma chunk_end_spec payload size offset :
  payload_fits payload -> u64 size -> (0 < size)%N -> (offset < data_len payload)%N ->
  offset = 0%N \/ (size <= data_len payload)%N ->
  let e := N.min (offset +w size) (data_len payload) in
  (offset < e <= data_len payload)%N /\ (e < data_len payload -> size <= data_len payload)%N.
Proof.
  unfold payload_fits, u64, wrapping_add. intros Hp Hs H0 Ho Hc. cbn zeta.
  rewrite N.mod_small by (unfold u64_max, u64_modulus in *; lia). lia.
Qed.

(** Only the last chunk of the loop is marked as done. *)
Lemma chunk_loop_done fuel declared size offset payload :
  Forall (fun c => chunk_done c = true -> (data_len payload <= chunk_offset c + data_len (chunk_data c))%N)
    (chunk_loop fuel declared size offset payload).
Proof.
  revert offset. induction fuel as [|fuel IH]; intros offset; cbn [chunk_loop]; [done|].
  destruct (N.ltb_spec offset (data_len payload)); [|done]. constructor; [|apply IH]. cbn [chunk_done chunk_offset chunk_data].
  intros He%N.eqb_eq. rewrite He. unfold data_len in *. rewrite length_take, length_drop. lia.
Qed.

(** The receiver that has the first [offset] bytes. *)
Definition received (declared : SnapshotMetadata) (payload : Payload) (offset : N) (done : bool) : SnapshotInstallState :=
  mkSnapshotInstallState declared (take (N.to_nat offset) payload) offset done.

Lemma install_next_chunk declared payload offset e done :
  payload_fits payload -> snap_payload_bytes declared = data_len payload ->
  (offset < e <= data_len payload)%N ->
  install_chunk (mkSnapshotChunk declared offset (take (N.to_nat (e - offset)) (drop (N.to_nat offset) payload)) done)
    (received declared payload offset false)
  = (Ok tt, received declared payload e done).
Proof.
  intros Hp Hd He. unfold install_chunk, received.
  cbn [chunk_meta chunk_offset chunk_data chunk_done sis_meta sis_next_offset sis_bytes sis_complete].
  rewrite bool_decide_eq_true_2 by done. cbn [negb]. rewrite N.eqb_refl. cbn [negb].
  set (d := take (N.to_nat (e - offset)) (drop (N.to_nat offset) payload)).
  assert (data_len d = e - offset)%N as Hl.
  { unfold d, data_len in *. rewrite length_take, length_drop. lia. }
  assert (offset +s data_len d = e)%N as Ha.
  { rewrite Hl. unfold saturating_add, payload_fits, u64_max in *. lia. }
  rewrite Ha, Hd. rewrite (proj2 (N.ltb_ge (data_len payload) e)) by lia. rewrite andb_false_r.
  f_equal. cbn. f_equal. unfold d. rewrite take_take_drop. f_equal. lia.
Qed.

Lemma install_chunk_loop fuel declared size offset payload :
  payload_fits payload -> u64 size -> (0 < size)%N -> snap_payload_bytes declared = data_len payload ->
  offset = 0%N \/ (size <= data_len payload)%N ->
  (offset < data_len payload)%N -> (data_len payload - offset <= N.of_nat fuel)%N ->
  for_each install_chunk (chunk_loop fuel declared size offset payload) (received declared payload offset false)
  = (Ok tt, received declared payload (data_len payload) true).
Proof.
  intros Hp Hu H0 Hd. revert offset. induction fuel as [|fuel IH]; intros offset Hc Ho Hf; [lia|].
  cbn [chunk_loop]. rewrite (proj2 (N.ltb_lt _ _) Ho). cbn zeta.
  destruct (chunk_end_spec payload size offset Hp Hu H0 Ho Hc) as [He Hs].
  set (e := N.min (offset +w size) (data_len payload)) in *. clearbody e. cbn [for_each]. unfold mbind, ST_bind.
  rewrite install_next_chunk by done. destruct (N.eqb_spec e (data_len payload)) as [->|Hne].
  - destruct fuel as [|fuel]; cbn [chunk_loop]; [done|]. by rewrite N.ltb_irrefl.
  - apply IH; [right; apply Hs; lia|lia|lia].
Qed.

Lemma chunk_loop_nil fuel declared size offset payload :
  (offset < data_len payload)%N -> fuel <> 0%nat -> chunk_loop fuel declared size offset payload <> [].
Proof. destruct fuel; [done|]. cbn. intros Ho _. by rewrite (proj2 (N.ltb_lt _ _) Ho). Qed.

(** The chunks of a snapshot, installed in order. *)
Lemma install_checkpoint snapshot size chunks :
  payload_fits (rs_payload snapshot) -> u64 size -> checkpoint snapshot size = Ok chunks ->
  for_each install_chunk chunks (install_state_new (declared_meta snapshot))
  = (Ok tt, received (declared_meta snapshot) (rs_payload snapshot) (data_len (rs_payload snapshot)) true).
Proof.
  intros Hp Hu. unfold checkpoint. destruct (N.eqb_spec size 0) as [|H0]; [done|]. cbn zeta. fold (declared_meta snapshot).
  set (payload := rs_payload snapshot) in *. destruct (decide (data_len payload = 0%N)) as [Hz|Hz].
  - assert (payload = []) as Hnil by (unfold data_len in Hz; destruct payload; [done|cbn in Hz; lia]).
    intros [= <-]. rewrite Hnil. cbn [length chunk_loop for_each]. unfold mbind, ST_bind, install_chunk, install_state_new.
    cbn [chunk_meta chunk_offset chunk_data chunk_done sis_meta sis_next_offset sis_bytes sis_complete].
    rewrite bool_decide_eq_true_2 by done.
    assert (snap_payload_bytes (declared_meta snapshot) = 0)%N as -> by (unfold declared_meta; fold payload; by rewrite Hnil).
    done.
  - assert (0 < data_len payload)%N as Hpos by lia.
    assert (chunk_loop (length payload) (declared_meta snapshot) size 0 payload <> []) as Hne
      by (apply chunk_loop_nil; [done|unfold data_len in Hpos; lia]).
    intros [= <-]. replace (match chunk_loop _ _ _ _ _ with [] => _ | _ => _ end)
      with (chunk_loop (length payload) (declared_meta snapshot) size 0 payload) by (by destruct (chunk_loop _ _ _ _ _)).
    change (install_state_new (declared_meta snapshot)) with (received (declared_meta snapshot) payload 0 false).
    apply install_chunk_loop; [done|done|lia|done|by left|done|unfold data_len; lia].
Qed.

Lemma finish_received snapshot group :
  finish group (received (declared_meta snapshot) (rs_payload snapshot) (data_len (rs_payload snapshot)) true)
  = Ok (mkRaftSnapshot group (declared_meta snapshot) (rs_payload snapshot)).
Proof.
  unfold finish, received. cbn [sis_complete sis_meta sis_bytes negb].
  assert (take (N.to_nat (data_len (rs_payload snapshot))) (rs_payload snapshot) = rs_payload snapshot) as ->
    by (unfold data_len; rewrite Nat2N.id; apply take_ge; lia).
  change (snap_payload_bytes (declared_meta snapshot)) with (data_len (rs_payload snapshot)).
  by rewrite N.eqb_refl, andb_false_r.
Qed.

(** A snapshot survives being split. For every snapshot that fits in memory
    and every chunk size but zero, the chunks exist, and a receiver that installs
    them in order ends complete with the snapshot's payload byte for byte, under
    metadata that differs from the snapshot's in declaring the payload's length. *)
Theorem chunks_reassemble_snapshot snapshot size group :
  payload_fits (rs_payload snapshot) -> u64 size -> size <> 0%N ->
  exists chunks s, checkpoint snapshot size = Ok chunks
    /\ for_each install_chunk chunks (install_state_new (declared_meta snapshot)) = (Ok tt, s)
    /\ finish group s = Ok (mkRaftSnapshot group (declared_meta snapshot) (rs_payload snapshot)).
Proof.
  intros Hp Hu H0. destruct (checkpoint snapshot size) as [chunks|e] eqn:Hc.
  2: { exfalso. revert Hc. unfold checkpoint. by rewrite (proj2 (N.eqb_neq size 0) H0). }
  eexists chunks, _. split; [done|]. split; [by apply (install_checkpoint snapshot size)|].
  apply finish_received.
Qed.

Definition sample_snapshot : RaftSnapshot :=
  mkRaftSnapshot 7 (mkSnapshotMetadata "s" (mkLogId 2 9) [1; 2; 3]%N [] 0) (replicate 5 Byte.x2a ++ replicate 2 Byte.x07).

Lemma chunks_reassemble_snapshot_witness :
  exists chunks s, checkpoint sample_snapshot 3 = Ok chunks /\ length chunks = 3%nat
    /\ finish 7 s = Ok (mkRaftSnapshot 7 (declared_meta sample_snapshot) (rs_payload sample_snapshot)).
Proof.
  assert (payload_fits (rs_payload sample_snapshot)) as Hp by (vm_compute; discriminate).
  assert (u64 3) as Hu by (vm_compute; discriminate).
  destruct (chunks_reassemble_snapshot sample_snapshot 3 7 Hp Hu ltac:(discriminate)) as (chunks & s & Hc & _ & Hf).
  exists chunks, s. split; [exact Hc|]. split; [vm_compute in Hc; injection Hc as <-; reflexivity|exact Hf].
Defined.

(** ** Polls *)

Lemma poll_loop_spec room first bytes sender l :
  (sss_next_chunk sender <= length (sss_chunks sender))%nat ->
  exists k, let '(requests, sender', l') := poll_loop room first bytes sender l in
    requests = request_of sender <$> take k (drop (sss_next_chunk sender) (sss_chunks sender))
    /\ sender' = sender <| sss_next_chunk := (sss_next_chunk sender + k)%nat |>
    /\ (k <= room)%nat /\ (sss_next_chunk sender + k <= length (sss_chunks sender))%nat
    /\ (first = true -> room <> 0%nat -> (sss_next_chunk sender < length (sss_chunks sender))%nat -> (0 < k)%nat)
    /\ sl_config l' = sl_config l /\ sl_installer l' = sl_installer l /\ sl_install_closed l' = sl_install_closed l.
Proof.
  revert first bytes sender l. induction room as [|room IH]; intros first bytes sender l Hle; cbn [poll_loop].
  { exists 0%nat. rewrite Nat.add_0_r. split_and!; try done; try lia. by destruct sender. }
  destruct (sss_chunks sender !! sss_next_chunk sender) as [chunk|] eqn:Hc.
  2: { exists 0%nat. apply lookup_ge_None in Hc. rewrite Nat.add_0_r. split_and!; try done; try lia. by destruct sender. }
  pose proof (lookup_lt_Some _ _ _ Hc) as Hlt. destruct (negb first && _) eqn:Hb.
  { exists 0%nat. rewrite Nat.add_0_r. split_and!; try done; try lia; [by destruct sender|]. by intros ->. }
  set (sender1 := sender <| sss_next_chunk ::= S |>).
  destruct (IH false (bytes +w data_len (chunk_data chunk)) sender1 (count_sent l)) as [k Hk]; [cbn; lia|].
  destruct (poll_loop room false _ sender1 (count_sent l)) as [[requests sender'] l'].
  destruct Hk as (-> & -> & Hr & Hn & _ & Hcf & Hi & Hcl). exists (S k). cbn [sss_next_chunk sss_chunks] in *.
  split_and!; [|cbn; by rewrite Nat.add_succ_r|lia|cbn in Hn; lia|lia|done|done|done].
  rewrite (drop_S (sss_chunks sender) chunk (sss_next_chunk sender)) by exact Hc. cbn [take]. rewrite fmap_cons. f_equal.
Qed.

(** What one poll does to the send. *)
Lemma poll_spec l sender :
  sl_sender l = Some sender -> (sss_next_chunk sender <= length (sss_chunks sender))%nat ->
  exists k l', poll_send_requests l
      = (Ok (request_of sender <$> take k (drop (sss_next_chunk sender) (sss_chunks sender))), l')
    /\ sl_sender l' = Some (sender <| sss_next_chunk := (sss_next_chunk sender + k)%nat |>)
    /\ (N.of_nat k <= slc_max_chunks_per_tick (sl_config l))%N
    /\ (sss_next_chunk sender + k <= length (sss_chunks sender))%nat
    /\ (slc_max_chunks_per_tick (sl_config l) <> 0%N -> (sss_next_chunk sender < length (sss_chunks sender))%nat -> (0 < k)%nat)
    /\ sl_config l' = sl_config l /\ sl_installer l' = sl_installer l /\ sl_install_closed l' = sl_install_closed l.
Proof.
  intros Hs Hle. unfold poll_send_requests. rewrite Hs.
  destruct (poll_loop_spec (N.to_nat (slc_max_chunks_per_tick (sl_config l))) true 0 sender l Hle) as [k Hk].
  destruct (poll_loop _ true 0 sender l) as [[requests sender'] l1]. destruct Hk as (-> & -> & Hr & Hn & Hp & Hcf & Hi & Hcl).
  unfold finish_poll. exists k. eexists. split; [done|].
  assert (forall b : bool, let l2 := if b then count_throttled (l1 <| sl_sender := Some (sender <| sss_next_chunk := (sss_next_chunk sender + k)%nat |>) |>)
            else l1 <| sl_sender := Some (sender <| sss_next_chunk := (sss_next_chunk sender + k)%nat |>) |> in
          sl_sender l2 = Some (sender <| sss_next_chunk := (sss_next_chunk sender + k)%nat |>)
          /\ sl_config l2 = sl_config l /\ sl_installer l2 = sl_installer l /\ sl_install_closed l2 = sl_install_closed l) as Hl2
    by (intros []; cbn; by split_and!).
  destruct (Hl2 (sss_next_chunk (sender <| sss_next_chunk := (sss_next_chunk sender + k)%nat |>)
                   <? length (sss_chunks (sender <| sss_next_chunk := (sss_next_chunk sender + k)%nat |>)))%nat)
    as (H1 & H2 & H3 & H4).
  split_and!; [exact H1|lia|lia|intros Hm; apply Hp; [done|lia]|exact H2|exact H3|exact H4].
Qed.

(** A poll sends the next chunks. While a snapshot is being sent, a poll
    returns the chunks that follow those already sent, in order and as requests of
    this send, at most as many as a tick allows, and at least one as long as one is
    left, so repeated polls come to the end of the snapshot. *)
Theorem poll_sends_next_chunks l sender :
  sl_sender l = Some sender -> (sss_next_chunk sender <= length (sss_chunks sender))%nat ->
  slc_max_chunks_per_tick (sl_config l) <> 0%N ->
  exists k, fst (poll_send_requests l)
      = Ok (request_of sender <$> take k (drop (sss_next_chunk sender) (sss_chunks sender)))
    /\ sl_sender (snd (poll_send_requests l)) = Some (sender <| sss_next_chunk := (sss_next_chunk sender + k)%nat |>)
    /\ (N.of_nat k <= slc_max_chunks_per_tick (sl_config l))%N
    /\ (sss_next_chunk sender + k <= length (sss_chunks sender))%nat
    /\ ((sss_next_chunk sender < length (sss_chunks sender))%nat -> (0 < k)%nat).
Proof.
  intros Hs Hle Hm. destruct (poll_spec l sender Hs Hle) as (k & l' & -> & H1 & H2 & H3 & H4 & _).
  exists k. split_and!; [done..|by apply H4].
Qed.

Definition fresh_lifecycle (config : SnapshotLifecycleConfig) : SnapshotLifecycle :=
  mkSnapshotLifecycle config None None (mkSnapshotLifecycleStatus None false false 0 0 0 0 0 0 0 0 0 false 0 false 0) false.

Definition sample_config : SnapshotLifecycleConfig := mkSnapshotLifecycleConfig 3 2 100 3.
Definition sample_sending : SnapshotLifecycle := snd (begin_send sample_snapshot 2 1 (fresh_lifecycle sample_config)).

Lemma poll_sends_next_chunks_witness :
  exists sender k, sl_sender sample_sending = Some sender /\ (0 < k)%nat
    /\ fst (poll_send_requests sample_sending) = Ok (request_of sender <$> take k (drop 0 (sss_chunks sender))).
Proof.
  destruct (sl_sender sample_sending) as [sender|] eqn:Hs; [|vm_compute in Hs; discriminate Hs].
  assert (sss_next_chunk sender = 0%nat /\ length (sss_chunks sender) = 3%nat) as [H0 H3]
    by (vm_compute in Hs; injection Hs as <-; split; reflexivity).
  destruct (poll_sends_next_chunks sample_sending sender Hs) as (k & Hk & _ & _ & _ & Hp);
    [rewrite H0; apply Nat.le_0_l|vm_compute; discriminate|].
  exists sender, k. rewrite H0, H3 in *. split; [reflexivity|]. split; [apply Hp; lia|exact Hk].
Defined.

(** ** A whole transfer *)

(** Requests delivered in order, up to the one that completes the snapshot. *)
Fixpoint deliver (requests : list InstallSnapshotRequest) (to : SnapshotLifecycle) : option RaftSnapshot * SnapshotLifecycle :=
  match requests with
  | [] => (None, to)
  | request :: rest =>
      match install_request request to with
      | (Ok (Some snapshot), to) => (Some snapshot, to)
      | (_, to) => deliver rest to
      end
  end.

(** A sender that polls [polls] times, its requests delivered at once. *)
Fixpoint transfer (polls : nat) (from to : SnapshotLifecycle) : option RaftSnapshot :=
  match polls with
  | O => None
  | S polls =>
      match poll_send_requests from with
      | (Ok requests, from) =>
          match deliver requests to with
          | (Some snapshot, _) => Some snapshot
          | (None, to) => transfer polls from to
          end
      | (Err _, _) => None
      end
  end.

(** The receiver [to] has [s], with nothing received when it has no installer. *)
Definition holds_install (declared : SnapshotMetadata) (s : SnapshotInstallState) (to : SnapshotLifecycle) : Prop :=
  sl_install_closed to = false /\ default (install_state_new declared) (sl_installer to) = s /\ sis_meta s = declared.

Lemma open_installer_spec declared s to :
  holds_install declared s to ->
  exists to1, open_installer declared to = (s, to1) /\ sl_install_closed to1 = false.
Proof.
  intros (Hc & Hs & _). unfold open_installer. destruct (sl_installer to) as [i|]; cbn in Hs; subst; by eexists.
Qed.

Lemma install_chunk_done chunk s s' :
  install_chunk chunk s = (Ok tt, s') -> sis_complete s' = chunk_done chunk /\ sis_meta s' = sis_meta s.
Proof. unfold install_chunk. repeat (case_match; [done|]). intros [= <-]. done. Qed.

Lemma install_request_step declared s to chunk group term leader s' :
  holds_install declared s to -> chunk_meta chunk = declared -> install_chunk chunk s = (Ok tt, s') ->
  chunk_done chunk = false ->
  exists to', install_request (mkInstallSnapshotRequest group term leader chunk) to = (Ok None, to')
    /\ holds_install declared s' to'.
Proof.
  intros Hh Hm Hi Hd. destruct (install_chunk_done _ _ _ Hi) as [Hc Hm'].
  destruct (open_installer_spec declared s to Hh) as (to1 & Ho & Hcl). destruct Hh as (Hclosed & _ & Hsm).
  unfold install_request. cbn [isr_chunk isr_group_id]. rewrite Hclosed, Hm, Ho, Hsm.
  rewrite bool_decide_eq_true_2 by done. rewrite andb_false_r, Hi, Hc, Hd. eexists. split; [done|].
  split_and!; [done|done|by rewrite Hm'].
Qed.

Lemma install_request_last declared s to chunk group term leader s' snapshot :
  holds_install declared s to -> chunk_meta chunk = declared -> install_chunk chunk s = (Ok tt, s') ->
  chunk_done chunk = true -> finish group s' = Ok snapshot ->
  exists to', install_request (mkInstallSnapshotRequest group term leader chunk) to = (Ok (Some snapshot), to').
Proof.
  intros Hh Hm Hi Hd Hf. destruct (install_chunk_done _ _ _ Hi) as [Hc Hm'].
  destruct (open_installer_spec declared s to Hh) as (to1 & Ho & Hcl). destruct Hh as (Hclosed & _ & Hsm).
  unfold install_request. cbn [isr_chunk isr_group_id]. rewrite Hclosed, Hm, Ho, Hsm.
  rewrite bool_decide_eq_true_2 by done. rewrite andb_false_r, Hi, Hc, Hd, Hf. by eexists.
Qed.

(** What is left to receive: chunks of this snapshot that install from [s], of
    which only the last is marked as done, and the snapshot they complete. *)
Definition still_to_come (declared : SnapshotMetadata) (group : GroupId) (snapshot : RaftSnapshot)
    (s : SnapshotInstallState) (chunks : list SnapshotChunk) : Prop :=
  chunks <> [] /\ Forall (fun c => chunk_meta c = declared) chunks
  /\ (forall i c, chunks !! i = Some c -> chunk_done c = bool_decide (S i = length chunks))
  /\ exists s', for_each install_chunk chunks s = (Ok tt, s') /\ finish group s' = Ok snapshot.

Lemma still_to_come_cons declared group snapshot s c chunks :
  still_to_come declared group snapshot s (c :: chunks) -> chunks <> [] ->
  exists s1, install_chunk c s = (Ok tt, s1) /\ chunk_done c = false /\ chunk_meta c = declared
    /\ still_to_come declared group snapshot s1 chunks.
Proof.
  intros (_ & Hm & Hd & s' & Hf & Hfin) Hne. apply Forall_cons in Hm as [Hm Hms]. cbn [for_each] in Hf.
  unfold mbind, ST_bind in Hf. destruct (install_chunk c s) as [[[]|] s1]; [|done]. exists s1.
  split_and!; [done| |done|]. { rewrite (Hd 0%nat c eq_refl). apply bool_decide_eq_false. destruct chunks; [done|]. cbn. lia. }
  split_and!; [done|done| |by exists s']. intros i x Hx. rewrite (Hd (S i) x Hx). apply bool_decide_ext. cbn. lia.
Qed.

(** Delivering a front of what is left. *)
Lemma deliver_front declared group term leader snapshot chunks k s to :
  still_to_come declared group snapshot s chunks -> holds_install declared s to ->
  let '(result, to') := deliver (mkInstallSnapshotRequest group term leader <$> take k chunks) to in
  if bool_decide (length chunks <= k)%nat then result = Some snapshot
  else result = None /\ exists s1, still_to_come declared group snapshot s1 (drop k chunks) /\ holds_install declared s1 to'.
Proof.
  revert k s to. induction chunks as [|c chunks IH]; intros k s to Hc Hh; [by destruct Hc|].
  destruct k as [|k]; cbn [take].
  { cbn [fmap list_fmap deliver]. rewrite bool_decide_eq_false_2 by (cbn; lia). split; [done|]. by exists s. }
  rewrite fmap_cons. cbn [deliver]. destruct (decide (chunks = [])) as [->|Hne].
  - rewrite bool_decide_eq_true_2 by (cbn; lia). destruct Hc as (_ & Hm & Hd & s' & Hf & Hfin).
    apply Forall_cons in Hm as [Hm _]. cbn [for_each] in Hf. unfold mbind, ST_bind in Hf.
    destruct (install_chunk c s) as [[[]|] s1] eqn:Hi; [|done]. cbn in Hf. injection Hf as <-.
    assert (chunk_done c = true) as Hdone by (rewrite (Hd 0%nat c eq_refl); by apply bool_decide_eq_true).
    destruct (install_request_last declared s to c group term leader s1 snapshot Hh Hm Hi Hdone Hfin) as (to' & ->). done.
  - destruct (still_to_come_cons _ _ _ _ _ _ Hc Hne) as (s1 & Hi & Hd & Hm & Hc1).
    destruct (install_request_step declared s to c group term leader s1 Hh Hm Hi Hd) as (to' & -> & Hh1).
    specialize (IH k s1 to' Hc1 Hh1). destruct (deliver _ to') as [result to2].
    rewrite (bool_decide_ext (length (c :: chunks) <= S k)%nat (length chunks <= k)%nat) by (cbn; lia). exact IH.
Qed.

Lemma transfer_completes declared group snapshot polls from to sender s :
  sl_sender from = Some sender -> sss_group_id sender = group -> slc_max_chunks_per_tick (sl_config from) <> 0%N ->
  still_to_come declared group snapshot s (drop (sss_next_chunk sender) (sss_chunks sender)) -> holds_install declared s to ->
  (length (drop (sss_next_chunk sender) (sss_chunks sender)) <= polls)%nat ->
  transfer polls from to = Some snapshot.
Proof.
  revert from to sender s. induction polls as [|polls IH]; intros from to sender s Hs Hg Hm Hc Hh Hl.
  { destruct Hc as [Hne _]. apply Nat.le_0_r, length_zero_iff_nil in Hl. by rewrite Hl in Hne. }
  assert (sss_next_chunk sender < length (sss_chunks sender))%nat as Hlt.
  { destruct Hc as [Hne _]. destruct (Nat.lt_ge_cases (sss_next_chunk sender) (length (sss_chunks sender))); [done|].
    by rewrite drop_ge in Hne. }
  destruct (poll_spec from sender Hs ltac:(lia)) as (k & from' & Hp & Hs' & _ & Hk & Hpos & Hcf & _).
  cbn [transfer]. rewrite Hp. specialize (Hpos Hm Hlt).
  pose proof (deliver_front declared group (sss_term sender) (sss_leader_id sender) snapshot _ k s to Hc Hh) as Hd.
  unfold request_of. rewrite Hg. destruct (deliver _ to) as [result to']. case_bool_decide as Hb; [by subst result|].
  destruct Hd as (-> & s1 & Hc1 & Hh1). rewrite length_drop in *.
  apply (IH from' to' _ s1 Hs'); [done|by rewrite Hcf| |done|].
  - cbn. by rewrite drop_drop in Hc1.
  - cbn. rewrite length_drop. lia.
Qed.

Lemma chunk_loop_shape fuel declared size offset payload :
  Forall (fun c => chunk_meta c = declared) (chunk_loop fuel declared size offset payload)
  /\ forall i c, chunk_loop fuel declared size offset payload !! i = Some c -> chunk_done c = true ->
       S i = length (chunk_loop fuel declared size offset payload).
Proof.
  revert offset. induction fuel as [|fuel IH]; intros offset; cbn [chunk_loop]; [done|].
  destruct (N.ltb_spec offset (data_len payload)); [|done]. cbn zeta. set (e := N.min _ _). destruct (IH e) as [IH1 IH2].
  split; [by constructor|]. intros [|i] c; cbn [lookup list_lookup].
  - intros [= <-]. cbn [chunk_done]. intros He%N.eqb_eq. rewrite He.
    destruct fuel; cbn [chunk_loop]; [done|]. by rewrite N.ltb_irrefl.
  - intros Hc Hd. cbn [length]. f_equal. by apply (IH2 i c).
Qed.

(** Of the chunks of a snapshot exactly the last is marked as done. *)
Lemma checkpoint_shape snapshot size chunks :
  payload_fits (rs_payload snapshot) -> u64 size -> checkpoint snapshot size = Ok chunks ->
  chunks <> [] /\ Forall (fun c => chunk_meta c = declared_meta snapshot) chunks
  /\ forall i c, chunks !! i = Some c -> chunk_done c = bool_decide (S i = length chunks).
Proof.
  intros Hp Hu Hc. pose proof (install_checkpoint snapshot size chunks Hp Hu Hc) as Hi.
  assert (chunks <> [] /\ Forall (fun c => chunk_meta c = declared_meta snapshot) chunks
    /\ forall i c, chunks !! i = Some c -> chunk_done c = true -> S i = length chunks) as (Hne & Hm & Hd).
  { revert Hc. unfold checkpoint. destruct (size =? 0)%N; [done|]. cbn zeta. fold (declared_meta snapshot).
    destruct (chunk_loop_shape (length (rs_payload snapshot)) (declared_meta snapshot) size 0 (rs_payload snapshot)) as [H1 H2].
    destruct (chunk_loop _ _ _ _ _) as [|c l] eqn:E; intros [= <-]; [|by split_and!].
    split_and!; [done|by repeat constructor|]. by intros [|[]] c. }
  split_and!; [done|done|]. intros i c Hc'. destruct (chunk_done c) eqn:Hdone; symmetry.
  - apply bool_decide_eq_true. by apply (Hd i c).
  - apply bool_decide_eq_false. intros Hl. destruct (decide (chunks = [])) as [->|Hnil]; [done|].
    assert (chunks = take i chunks ++ [c]) as Hsplit.
    { rewrite <- (take_drop_middle chunks i c Hc') at 1. f_equal. f_equal. apply drop_ge. lia. }
    rewrite Hsplit in Hi. clear -Hi Hdone. revert Hi. generalize (install_state_new (declared_meta snapshot)).
    induction (take i chunks) as [|x l IH]; intros s; cbn [app for_each]; unfold mbind, ST_bind.
    + destruct (install_chunk c s) as [[[]|] s1] eqn:Hx; [|done]. cbn. intros [= ->].
      apply install_chunk_done in Hx as [Hx _]. by rewrite Hdone in Hx.
    + destruct (install_chunk x s) as [[[]|] s1]; [|done]. apply IH.
Qed.

Lemma chunk_loop_length fuel declared size offset payload :
  (length (chunk_loop fuel declared size offset payload) <= fuel)%nat.
Proof.
  revert offset. induction fuel as [|fuel IH]; intros offset; cbn [chunk_loop]; [done|].
  destruct (_ <? _)%N; cbn; [|lia]. specialize (IH (N.min (offset +w size) (data_len payload))). lia.
Qed.

Lemma checkpoint_length snapshot size chunks :
  checkpoint snapshot size = Ok chunks -> (length chunks <= length (rs_payload snapshot) + 1)%nat.
Proof.
  unfold checkpoint. destruct (size =? 0)%N; [done|]. cbn zeta. intros [= <-].
  pose proof (chunk_loop_length (length (rs_payload snapshot)) ((rs_meta snapshot) <| snap_payload_bytes := data_len (rs_payload snapshot) |>)
                size 0 (rs_payload snapshot)). destruct (chunk_loop _ _ _ _ _); cbn in *; lia.
Qed.

(** The chunks of a snapshot are what its receiver waits for. *)
Lemma checkpoint_to_come snapshot size chunks group :
  payload_fits (rs_payload snapshot) -> u64 size -> checkpoint snapshot size = Ok chunks ->
  still_to_come (declared_meta snapshot) group (mkRaftSnapshot group (declared_meta snapshot) (rs_payload snapshot))
    (install_state_new (declared_meta snapshot)) chunks.
Proof.
  intros Hp Hu Hc. destruct (checkpoint_shape snapshot size chunks Hp Hu Hc) as (H1 & H2 & H3). split_and!; [done..|].
  eexists. split; [by apply (install_checkpoint snapshot size)|]. apply finish_received.
Qed.

(** C9: a transfer delivers the snapshot. A sender that begins a snapshot and
    polls as often as it has chunks, its requests delivered in order to a receiver
    that is not receiving another snapshot and was not cancelled, ends with the
    receiver holding the snapshot: the same payload, under the metadata with its
    declared length. *)
Theorem transfer_delivers_snapshot snapshot term leader config to from :
  payload_fits (rs_payload snapshot) -> u64 (slc_chunk_size config) -> slc_max_chunks_per_tick config <> 0%N ->
  sl_install_closed to = false -> sl_installer to = None ->
  begin_send snapshot term leader (fresh_lifecycle config) = (Ok tt, from) ->
  transfer (length (rs_payload snapshot) + 1) from to
  = Some (mkRaftSnapshot (rs_group_id snapshot) (declared_meta snapshot) (rs_payload snapshot)).
Proof.
  intros Hp Hu Hm Hcl Hi. unfold begin_send, fresh_lifecycle. cbn [sl_sender sl_installer sl_config slc_chunk_size].
  rewrite !bool_decide_eq_false_2 by (intros [? [=]]). cbn [orb].
  destruct (checkpoint snapshot (slc_chunk_size config)) as [chunks|] eqn:Hc; [|done]. intros [= <-].
  pose proof (checkpoint_to_come snapshot _ chunks (rs_group_id snapshot) Hp Hu Hc) as Hcome.
  pose proof (checkpoint_length snapshot _ chunks Hc) as Hl.
  eapply (transfer_completes (declared_meta snapshot) (rs_group_id snapshot));
    [reflexivity|reflexivity|exact Hm|exact Hcome| |exact Hl].
  split_and!; [exact Hcl|by rewrite Hi|done].
Qed.

Lemma transfer_delivers_snapshot_witness :
  transfer (length (rs_payload sample_snapshot) + 1) sample_sending (fresh_lifecycle sample_config)
  = Some (mkRaftSnapshot 7 (declared_meta sample_snapshot) (rs_payload sample_snapshot)).
Proof.
  refine (transfer_delivers_snapshot sample_snapshot 2 1 sample_config (fresh_lifecycle sample_config) sample_sending
            _ _ _ eq_refl eq_refl eq_refl); vm_compute; discriminate.
Defined.

(** ** When a send is complete *)

(** A send over time, with the chunks that went out. A refusal asks for a chunk
    that was sent before; without that it could move the send ahead, as
    [refusal_skips_chunks] shows. *)
Inductive send_step : relation (SnapshotLifecycle * list SnapshotChunk) :=
| step_poll l sent requests l' :
    poll_send_requests l = (Ok requests, l') -> send_step (l, sent) (l', sent ++ (isr_chunk <$> requests))
| step_accepted l sent response r l' :
    isp_accepted response = true -> record_send_response response l = (r, l') -> send_step (l, sent) (l', sent)
| step_refused l sent response r l' :
    isp_accepted response = false ->
    (forall sender, sl_sender l = Some sender ->
       (sss_next_chunk (rewind (isp_next_offset response) sender) <= sss_next_chunk sender)%nat) ->
    record_send_response response l = (r, l') -> send_step (l, sent) (l', sent)
| step_timeout l sent r l' : record_send_timeout l = (r, l') -> send_step (l, sent) (l', sent)
| step_cancelled l sent b l' : cancel_send l = (b, l') -> send_step (l, sent) (l', sent).

(** Every chunk before the next one was sent, and all were once it is complete. *)
Definition send_inv (chunks : list SnapshotChunk) (s : SnapshotLifecycle * list SnapshotChunk) : Prop :=
  let '(l, sent) := s in
  match sl_sender l with
  | Some sender =>
      sls_completed (sl_status l) = false /\ sss_chunks sender = chunks
      /\ (sss_next_chunk sender <= length chunks)%nat /\ take (sss_next_chunk sender) chunks ⊆ sent
  | None => sls_completed (sl_status l) = true -> chunks ⊆ sent
  end.

Lemma poll_loop_status room first bytes sender l :
  sls_completed (sl_status (snd (poll_loop room first bytes sender l))) = sls_completed (sl_status l).
Proof.
  revert first bytes sender l. induction room as [|room IH]; intros first bytes sender l; cbn [poll_loop]; [done|].
  destruct (_ !! _); [|done]. destruct (_ && _); [done|].
  specialize (IH false (bytes +w data_len (chunk_data s)) (sender <| sss_next_chunk ::= S |>) (count_sent l)).
  by destruct (poll_loop room false _ _ _) as [[? ?] ?].
Qed.

Lemma poll_completed requests l l' :
  poll_send_requests l = (Ok requests, l') -> sls_completed (sl_status l') = sls_completed (sl_status l).
Proof.
  unfold poll_send_requests. destruct (sl_sender l) as [sender|]; [|done].
  pose proof (poll_loop_status (N.to_nat (slc_max_chunks_per_tick (sl_config l))) true 0 sender l) as H.
  destruct (poll_loop _ true 0 sender l) as [[reqs sender'] l1]. cbn [snd] in H. unfold finish_poll. cbn zeta.
  intros [= _ <-]. rewrite <- H. by destruct (_ <? _)%nat.
Qed.

Lemma take_subseteq_le {A} (l sent : list A) i j : (i <= j)%nat -> take j l ⊆ sent -> take i l ⊆ sent.
Proof.
  intros Hij Hs x Hx. apply Hs. rewrite <- (take_drop i (take j l)), take_take, Nat.min_l by done.
  apply elem_of_app. by left.
Qed.

Lemma poll_step_inv chunks l sent requests l' :
  send_inv chunks (l, sent) -> poll_send_requests l = (Ok requests, l') ->
  send_inv chunks (l', sent ++ (isr_chunk <$> requests)).
Proof.
  intros Hi Hp. pose proof (poll_completed _ _ _ Hp) as Hc. cbn [send_inv] in *.
  destruct (sl_sender l) as [sender|] eqn:Hs; [|unfold poll_send_requests in Hp; by rewrite Hs in Hp].
  destruct Hi as (Hf & <- & Hn & Hsent). destruct (poll_spec l sender Hs Hn) as (k & l2 & Hp2 & Hs2 & _ & Hk & _).
  rewrite Hp in Hp2. injection Hp2 as -> <-. rewrite Hs2. split_and!; [by rewrite Hc|done|done|]. cbn.
  rewrite <- list_fmap_compose, (list_fmap_ext _ id), list_fmap_id by done. rewrite <- take_take_drop.
  intros x [Hx|Hx]%elem_of_app; apply elem_of_app; [left; by apply Hsent|by right].
Qed.

Lemma accept_step_inv chunks sender l sent :
  sl_sender l = Some sender -> send_inv chunks (l, sent) -> send_inv chunks (accept_response sender l, sent).
Proof.
  intros Hs. cbn [send_inv]. rewrite Hs. intros (Hf & Hch & Hn & Hsent). unfold accept_response. cbn zeta.
  destruct (_ && _) eqn:Hb; cbn; [|by split_and!]. intros _. apply andb_true_iff in Hb as [_ Hb]. apply Nat.leb_le in Hb.
  cbn in Hb. rewrite Hch in Hb. by rewrite take_ge in Hsent by lia.
Qed.

Lemma retry_step_inv chunks message sender l sent :
  sl_sender l = Some sender -> send_inv chunks (l, sent) ->
  let '(e, sender', l') := spend_retry message sender l in
  send_inv chunks (l', sent) /\ (e = None -> sl_sender l' = Some sender' /\ sss_chunks sender' = sss_chunks sender
                                            /\ sss_next_chunk sender' = sss_next_chunk sender).
Proof.
  intros Hs. cbn [send_inv]. rewrite Hs. intros (Hf & Hch & Hn & Hsent). unfold spend_retry. cbn zeta.
  destruct (_ <? _)%N; cbn; (split; [|done]); [by rewrite Hf|by split_and!].
Qed.

Lemma rewind_step_inv chunks next sender sender0 l sent :
  sl_sender l = Some sender -> send_inv chunks (l, sent) -> sss_chunks sender0 = sss_chunks sender ->
  (sss_next_chunk (rewind next sender0) <= sss_next_chunk sender)%nat ->
  send_inv chunks (keep_sender (rewind next sender0) l, sent).
Proof.
  intros Hs. cbn [send_inv]. rewrite Hs. intros (Hf & Hch & Hn & Hsent) Hc Hle. cbn.
  split_and!; [done|by rewrite <- Hch, <- Hc|cbn in Hle; lia|]. eapply take_subseteq_le; [exact Hle|done].
Qed.

Lemma send_step_inv chunks s s' : send_inv chunks s -> send_step s s' -> send_inv chunks s'.
Proof.
  intros Hi Hst. destruct Hst as [l sent requests l' Hp|l sent response r l' Ha Hr|l sent response r l' Ha Hw Hr|l sent r l' Hr|l sent b l' Hc].
  - by apply (poll_step_inv chunks l).
  - revert Hr. unfold record_send_response. rewrite Ha. destruct (sl_sender l) as [sender|] eqn:Hs; intros [= _ <-]; [|done].
    by apply accept_step_inv.
  - revert Hr. unfold record_send_response. rewrite Ha. destruct (sl_sender l) as [sender|] eqn:Hs; [|by intros [= _ <-]].
    specialize (Hw sender eq_refl). destruct (negb _).
    + pose proof (retry_step_inv chunks "snapshot send retry budget exhausted" sender l sent Hs Hi) as H.
      destruct (spend_retry _ sender l) as [[[e|] sender'] l1]; destruct H as [H1 H2]; intros [= _ <-]; [done|].
      destruct (H2 eq_refl) as (Hs1 & Hc1 & Hn1). apply (rewind_step_inv chunks _ sender'); [done|done|done|].
      rewrite Hn1. replace (sss_next_chunk (rewind _ sender')) with (sss_next_chunk (rewind (isp_next_offset response) sender)); [done|].
      cbn. by rewrite Hc1.
    + intros [= _ <-]. apply (rewind_step_inv chunks _ sender); [done| |done|done].
      revert Hi. unfold send_inv, on_status. cbn. by rewrite Hs.
  - revert Hr. unfold record_send_timeout. destruct (sl_sender l) as [sender|] eqn:Hs; [|by intros [= _ <-]].
    pose proof (retry_step_inv chunks "snapshot send timeout retry budget exhausted" sender l sent Hs Hi) as H.
    destruct (spend_retry _ sender l) as [[[e|] sender'] l1]; destruct H as [H1 _]; by intros [= _ <-].
  - revert Hc. unfold cancel_send. destruct (sl_sender l); intros [= _ <-]; done.
Qed.

(** A send that reports completion has sent the whole snapshot. However
    polls, answers, timeouts and a cancellation follow each other after a send
    began, as long as a refusal asks for a chunk that was sent before, the status is
    completed only if every chunk of the snapshot went out in some request,
    duplicated answers or not. *)
Theorem completed_send_sent_every_chunk snapshot term leader l0 l1 chunks l sent :
  begin_send snapshot term leader l0 = (Ok tt, l1) -> checkpoint snapshot (slc_chunk_size (sl_config l0)) = Ok chunks ->
  rtc send_step (l1, []) (l, sent) -> sls_completed (sl_status l) = true ->
  forall c, c ∈ chunks -> c ∈ sent.
Proof.
  intros Hb Hc Hr Hd c Hin. assert (send_inv chunks (l1, [])) as H0.
  { revert Hb. unfold begin_send. destruct (_ || _); [done|]. rewrite Hc. intros [= <-]. cbn. split_and!; [done|done|lia|done]. }
  assert (send_inv chunks (l, sent)) as Hl.
  { clear -H0 Hr. remember (l1, []) as s eqn:Es. remember (l, sent) as s' eqn:Es'. clear Es Es'.
    induction Hr as [s|s1 s2 s3 Hst Hr IH]; [done|]. apply IH. by apply (send_step_inv chunks s1). }
  cbn [send_inv] in Hl. destruct (sl_sender l); [|by apply Hl]. destruct Hl as (Hf & _). congruence.
Qed.

(** Polls and accepted answers, one after the other, until the send is over. *)
Definition accepted : InstallSnapshotResponse := mkInstallSnapshotResponse 2 true 0 0 "snapshot_chunk_accepted" false.
Definition poll_once (s : SnapshotLifecycle * list SnapshotChunk) : SnapshotLifecycle * list SnapshotChunk :=
  match poll_send_requests s.1 with
  | (Ok requests, l) => (l, s.2 ++ (isr_chunk <$> requests))
  | (Err _, _) => s
  end.
Definition accept_once (s : SnapshotLifecycle * list SnapshotChunk) : SnapshotLifecycle * list SnapshotChunk :=
  (snd (record_send_response accepted s.1), s.2).
Definition sample_sent : SnapshotLifecycle * list SnapshotChunk :=
  accept_once (accept_once (accept_once (poll_once (poll_once (sample_sending, []))))).

Lemma poll_once_step s : rtc send_step s (poll_once s).
Proof.
  unfold poll_once. destruct s as [l sent]. cbn. destruct (poll_send_requests l) as [[requests|] l'] eqn:H; [|apply rtc_refl].
  by apply rtc_once, step_poll.
Qed.
Lemma accept_once_step s : rtc send_step s (accept_once s).
Proof.
  destruct s as [l sent]. apply rtc_once. eapply (step_accepted l sent accepted); [done|]. apply surjective_pairing.
Qed.

Lemma completed_send_sent_every_chunk_witness :
  sls_completed (sl_status sample_sent.1) = true
  /\ exists chunks, checkpoint sample_snapshot 3 = Ok chunks /\ forall c, c ∈ chunks -> c ∈ sample_sent.2.
Proof.
  assert (sls_completed (sl_status sample_sent.1) = true) as Hd by (vm_compute; reflexivity).
  split; [exact Hd|]. destruct (checkpoint sample_snapshot 3) as [chunks|] eqn:Hc; [|vm_compute in Hc; discriminate Hc].
  exists chunks. split; [reflexivity|].
  refine (completed_send_sent_every_chunk sample_snapshot 2 1 (fresh_lifecycle sample_config) sample_sending chunks
            sample_sent.1 sample_sent.2 _ Hc _ Hd); [vm_compute; reflexivity|].
  change (sample_sent.1, sample_sent.2) with sample_sent. unfold sample_sent.
  etrans; [|apply accept_once_step]. etrans; [|apply accept_once_step].
  etrans; [|apply accept_once_step]. etrans; [|apply poll_once_step]. apply poll_once_step.
Defined.

(** A refusal names the offset to resume from. One that names the end of the
    refused chunk, as the group's refusals do, moves the send past that chunk: the
    next poll starts with the third chunk although the first and the second were
    refused. *)
Example refusal_skips_chunks :
  let refused := mkInstallSnapshotResponse 3 false 6 0 "stale_term" false in
  let l := snd (poll_send_requests sample_sending) in
  let l := snd (record_send_response refused l) in
  match poll_send_requests l with
  | (Ok requests, _) => (chunk_offset ∘ isr_chunk) <$> requests = [6%N]
  | (Err _, _) => False
  end.
Proof. vm_compute. reflexivity. Qed.

(** ** Cancelled installs *)

Inductive InstallOp : Type :=
| IRequest (request : InstallSnapshotRequest)
| IRollback
| ICancel
| IBeginSend (snapshot : RaftSnapshot) (term : Term) (leader : NodeId)
| ICancelSend.

Definition run_install_op (l : SnapshotLifecycle) (op : InstallOp) : SnapshotLifecycle :=
  match op with
  | IRequest request => snd (install_request request l)
  | IRollback => rollback_install l
  | ICancel => snd (cancel_install l)
  | IBeginSend snapshot term leader => snd (begin_send snapshot term leader l)
  | ICancelSend => snd (cancel_send l)
  end.

Lemma run_install_op_closed l op :
  sl_install_closed l = true -> sl_install_closed (run_install_op l op) = true.
Proof.
  intros Hc. destruct op as [r| | |s t k|]; cbn.
  - unfold install_request. by rewrite Hc.
  - done.
  - done.
  - unfold begin_send. destruct (_ || _); [done|]. by destruct (checkpoint _ _).
  - unfold cancel_send. by destruct (sl_sender l).
Qed.

(** A cancelled install stays cancelled. After a cancellation, whatever else
    happens but an explicit admission, every request is refused with an error, so
    no chunk starts the transfer over and no snapshot is installed. *)
Theorem cancelled_install_stays_cancelled l ops request :
  let l1 := foldl run_install_op (snd (cancel_install l)) ops in
  sl_installer (snd (cancel_install l)) = None
  /\ fst (install_request request l1) = Err (InvalidRequest "snapshot install is cancelled for this group")
  /\ sl_installer (snd (install_request request l1)) = sl_installer l1.
Proof.
  cbn zeta. split; [done|]. assert (sl_install_closed (foldl run_install_op (snd (cancel_install l)) ops) = true) as Hc.
  { assert (sl_install_closed (snd (cancel_install l)) = true) as H by done. revert H. generalize (snd (cancel_install l)).
    induction ops as [|op ops IH]; intros l1 H1; [done|]. apply IH. by apply run_install_op_closed. }
  generalize dependent (foldl run_install_op (snd (cancel_install l)) ops). intros l1 Hc. unfold install_request. by rewrite Hc.
Qed.

(** ** Sending under a limiter *)

Section limited_send.
Context {L : Type} `{!RateLimiter L}.

(** The bytes a send has left, in order. *)
Definition bytes_left (sender : SnapshotSendState) : Payload :=
  concat (chunk_data <$> drop (sss_next_chunk sender) (sss_chunks sender)).

Lemma send_granted_bytes granted chunk sender l :
  sss_chunks sender !! sss_next_chunk sender = Some chunk ->
  let '(sent, sender', _) := send_granted granted chunk sender l in
  chunk_data sent ++ bytes_left sender' = bytes_left sender.
Proof.
  intros Hc. unfold send_granted, bytes_left. cbn zeta. pose proof (lookup_lt_Some _ _ _ Hc) as Hlt.
  rewrite (drop_S (sss_chunks sender) chunk (sss_next_chunk sender)) by exact Hc.
  destruct (_ <? _)%nat; [|done]. cbn. rewrite (drop_S _ (mkSnapshotChunk (chunk_meta chunk) (chunk_offset chunk +w granted)
    (drop (N.to_nat granted) (chunk_data chunk)) (chunk_done chunk))) by (by apply list_lookup_insert_eq).
  rewrite drop_insert_lt by lia. cbn. by rewrite app_assoc, take_drop.
Qed.

Lemma limited_loop_bytes room first bytes sender l limiter :
  let '(requests, sender', _, _) := limited_loop room first bytes sender l limiter in
  concat ((chunk_data ∘ isr_chunk) <$> requests) ++ bytes_left sender' = bytes_left sender.
Proof.
  revert first bytes sender l limiter. induction room as [|room IH]; intros first bytes sender l limiter; cbn [limited_loop]; [done|].
  destruct (sss_chunks sender !! sss_next_chunk sender) as [chunk|] eqn:Hc; [|done]. cbn zeta.
  destruct (_ && _); [done|]. destruct (reserve_limited_bytes _ limiter) as [d limiter1]. destruct (negb _); [done|].
  pose proof (send_granted_bytes (rld_granted_bytes d) chunk sender l Hc) as Hs.
  destruct (send_granted _ chunk sender l) as [[sent sender1] l1].
  specialize (IH false (bytes +w rld_granted_bytes d) sender1 (count_sent l1) limiter1).
  destruct (limited_loop room false _ sender1 _ limiter1) as [[[requests sender'] l2] limiter2].
  rewrite fmap_cons. cbn [concat compose]. rewrite <- app_assoc, IH. exact Hs.
Qed.
End limited_send.

(** A limiter loses no byte. Under any limiter, a poll that splits chunks to
    what was granted sends bytes that, followed by what the send then has left, are
    the bytes it had left before, in order. *)
Theorem limited_poll_keeps_bytes {L} `{!RateLimiter L} (limiter : L) l sender :
  sl_sender l = Some sender ->
  match poll_send_requests_with_limiter limiter l with
  | (Ok requests, l', _) => exists sender', sl_sender l' = Some sender'
      /\ concat ((chunk_data ∘ isr_chunk) <$> requests) ++ bytes_left sender' = bytes_left sender
  | (Err _, _, _) => False
  end.
Proof.
  intros Hs. unfold poll_send_requests_with_limiter. rewrite Hs.
  pose proof (limited_loop_bytes (N.to_nat (slc_max_chunks_per_tick (sl_config l))) true 0 sender l limiter) as H.
  destruct (limited_loop _ true 0 sender l limiter) as [[[requests sender'] l1] limiter1].
  unfold finish_poll. exists sender'. split; [|exact H]. by destruct (sss_next_chunk sender' <? length (sss_chunks sender'))%nat.
Qed.

Lemma limited_poll_keeps_bytes_witness :
  exists sender', sl_sender (snd (fst (poll_send_requests_with_limiter (quota_new 4) sample_sending))) = Some sender'
    /\ length (bytes_left sender') = 3%nat.
Proof.
  destruct (sl_sender sample_sending) as [sender|] eqn:Hs; [|vm_compute in Hs; discriminate Hs].
  pose proof (limited_poll_keeps_bytes (quota_new 4) sample_sending sender Hs) as H.
  destruct (poll_send_requests_with_limiter (quota_new 4) sample_sending) as [[[requests|e] l'] q] eqn:Hp; [|destruct H].
  destruct H as (sender' & Hs' & _). exists sender'. split; [exact Hs'|].
  vm_compute in Hp. injection Hp as _ <- _. vm_compute in Hs'. injection Hs' as <-. vm_compute. reflexivity.
Defined.

(** A limiter that splits a chunk keeps only its rest: the front that went out is
    not sent again when the receiver asks for it. *)
Example split_front_is_not_sent_again :
  let '(_, l, _) := poll_send_requests_with_limiter (quota_new 2) sample_sending in
  let refused := mkInstallSnapshotResponse 2 false 0 0 "leader_unavailable" false in
  let l := snd (record_send_response refused l) in
  match poll_send_requests l with
  | (Ok requests, _) => (chunk_offset ∘ isr_chunk) <$> requests = [2; 3]%N
  | (Err _, _) => False
  end.
Proof. vm_compute. reflexivity. Qed.
