(* ===== verification/Snapshots.v ===== *)
(** * Snapshots of the group

    What [RaftCluster] ([src/facade/cluster_runtime.rs]) does with snapshots: a
    snapshot is triggered, published to the peers that wait for one, sent, received
    in chunks, installed or queued until the replica has applied what it committed,
    and the log below it is compacted. Also here are the reports of a replica's
    status and the operations of the group that hand over to one peer's pipeline.

    An install is refused before anything is written, so a refusal keeps the group
    as it was. The decision to queue a completed snapshot is made on the text of
    the refusal, as in the source. The theorems are in [SnapshotSafety.v]. *)

From stdpp Require Import base strings pretty numbers sorting gmap fin_maps sets list.
From S2P Require Import Prelude Types Bytes Slice Membership Node Wal WalSegments WalBinary Config Pipeline Cluster Election Append GroupInv Replication ReplicationSafety Votes Reads Reconfig SnapshotTransfer.

(** [str::contains]. *)
Fixpoint contains (needle s : string) : bool :=
  String.prefix needle s || match s with EmptyString => false | String _ rest => contains needle rest end.

(** ** Installing a snapshot *)

Definition check_snapshot_index (target : NodeId) (snapshot_index : LogIndex) (node : Node) : Result unit :=
  match nd_rejected_apply_index node with
  | Some required_index =>
      if (snapshot_index <? required_index)%N
      then Err (InvalidRequest ("snapshot index " ++s pretty snapshot_index
                                ++s " is below rejected apply index " ++s pretty required_index))
      else Ok tt
  | None =>
      if (nd_safety_applied_index node <? nd_applied_index node)%N
      then Err (InvalidRequest ("cannot install snapshot while node " ++s pretty target
                                ++s " has inflight apply tasks " ++s pretty (nd_safety_applied_index node)
                                ++s ".." ++s pretty (nd_applied_index node)))
      else if (nd_applied_index node <? nd_commit_index node)%N
      then Err (InvalidRequest ("cannot install snapshot while node " ++s pretty target
                                ++s " has unapplied entries " ++s pretty (nd_applied_index node)
                                ++s ".." ++s pretty (nd_commit_index node)))
      else if (snapshot_index <=? nd_commit_index node)%N
      then Err (InvalidRequest ("snapshot index " ++s pretty snapshot_index
                                ++s " is not newer than committed index " ++s pretty (nd_commit_index node)))
      else Ok tt
  end.

(** The pipeline of the target records an install of one chunk, whatever it was doing. *)
Definition note_installed (target : NodeId) (snapshot_index : LogIndex) (p : ReplicationPipeline)
    : ReplicationPipeline :=
  let p := snd (begin_snapshot_install ("installed-" ++s pretty target ++s "-" ++s pretty snapshot_index)
                  snapshot_index 1 p) in
  snd (receive_snapshot_chunk 0 true p).

Definition install_snapshot_to (target : NodeId) (snapshot : RaftSnapshot) (fence : ApplySnapshotFence)
    : Cluster unit := fun c =>
  if negb (rs_group_id snapshot =? rc_group_id c)%N
  then (Err (InvalidRequest "snapshot group id mismatch"), c)
  else match matrixraft_validate_snapshot_install snapshot fence with
       | Err e => (Err e, c)
       | Ok _ =>
           match rc_nodes c !! target with
           | None => (Err (NodeNotFound target), c)
           | Some node =>
               let snapshot_index := snap_index (rs_meta snapshot) in
               match check_snapshot_index target snapshot_index node with
               | Err e => (Err e, c)
               | Ok _ =>
                   let c := on_node target (node_install_snapshot snapshot) c in
                   let c := clear_reorder_queue_for target c in
                   let c := reset_membership_from_snapshot target (snap_membership (rs_meta snapshot))
                              (snap_members (rs_meta snapshot)) c in
                   let c := mark_snapshot_membership_floor_applied snapshot_index c in
                   let c := c <| rc_snapshot_installers ::= delete target |>
                              <| rc_pending_snapshots ::= delete target |> in
                   let c := on_pipeline target (note_installed target snapshot_index) c in
                   (Ok tt, refresh_cluster_indexes c)
               end
           end
       end.

Definition tail_overlaps (snapshot_index : LogIndex) (tail_entries : list LogEntry) : bool :=
  match tail_entries with
  | first_tail :: _ => (entry_index first_tail <=? snapshot_index)%N
  | [] => false
  end.

(** The tail on the target, all of it committed there, and its pipeline told so. *)
Definition append_tail (target : NodeId) (tail_entries : list LogEntry) (c : RaftCluster) : RaftCluster :=
  match rc_nodes c !! target with
  | None => c
  | Some node =>
      let node := foldl (fun node entry => append_entry entry node) node tail_entries in
      let node := advance_commit (N.max (rc_commit_index c) (match_index node)) node in
      let response := mkAppendEntriesResponse (rc_current_term c) true (match_index node) None None None
                        SnapshotNone 0 0 in
      on_pipeline target (fun p =>
          mark_snapshot_rejoin_after_compacted_log (snd (handle_append_response response p)))
        (c <| rc_nodes ::= <[target := node]> |>)
  end.

Definition install_snapshot_with_tail_to (target : NodeId) (snapshot : RaftSnapshot) (fence : ApplySnapshotFence)
    (tail_entries : list LogEntry) : Cluster unit := fun c =>
  let snapshot_index := snap_index (rs_meta snapshot) in
  if tail_overlaps snapshot_index tail_entries
  then (Err (InvalidRequest "tail catch-up entry overlaps installed snapshot"), c)
  else match rc_nodes c !! target with
       | None => (Err (NodeNotFound target), c)
       | Some node =>
           let finish_tail : Cluster unit := fun c =>
             match rc_nodes c !! target with
             | None => (Err (NodeNotFound target), c)
             | Some _ => (Ok tt, refresh_cluster_indexes (append_tail target tail_entries c))
             end in
           match snap_index <$> nd_installed_snapshot node with
           | Some index =>
               if (index =? snapshot_index)%N then finish_tail c
               else if (snapshot_index <? index)%N
               then (Err (InvalidRequest ("snapshot index " ++s pretty snapshot_index
                            ++s " is older than installed snapshot index " ++s pretty index)), c)
               else (_ ← install_snapshot_to target snapshot fence; finish_tail) c
           | None => (_ ← install_snapshot_to target snapshot fence; finish_tail) c
           end
       end.

(** ** Completed and queued snapshots *)

Definition snapshot_install_waits_for_apply (error : RaftError) : bool :=
  match error with
  | InvalidRequest reason => contains "has inflight apply tasks" reason || contains "has unapplied entries" reason
  | _ => false
  end.

Definition install_or_queue_completed_snapshot (target : NodeId) (snapshot : RaftSnapshot) (fence : ApplySnapshotFence)
    : Cluster bool := fun c =>
  match install_snapshot_to target snapshot fence c with
  | (Ok _, c) => (Ok true, c)
  | (Err error, c) =>
      if snapshot_install_waits_for_apply error
      then (Ok false, c <| rc_pending_snapshots ::= <[target := mkPendingSnapshotInstall snapshot fence]> |>)
      else (Err error, c)
  end.

Definition try_install_pending_snapshot_to (target : NodeId) : Cluster bool := fun c =>
  match rc_pending_snapshots c !! target with
  | None => (Ok false, c)
  | Some pending =>
      match install_snapshot_to target (psi_snapshot pending) (psi_fence pending) c with
      | (Ok _, c) => (Ok true, c)
      | (Err error, c) => if snapshot_install_waits_for_apply error then (Ok false, c) else (Err error, c)
      end
  end.

(** What an apply result records on the replica. *)
Definition record_apply_result (applied_index : LogIndex) (apply_task_rejected : bool) (node : Node) : Node :=
  let node := node <| nd_safety_applied_index := applied_index |> in
  if apply_task_rejected
  then node <| nd_rejected_apply_index := Some (nd_safety_applied_index node +s 1) |> else node.

(** A leader whose apply was rejected hands its office over, or leaves it. *)
Definition leave_after_rejection (node_id : NodeId) (c : RaftCluster) : RaftCluster :=
  let transfer_target := closest_follower c in
  let c := on_node node_id (fun node => node <| nd_raft_role := Follower |>) c in
  let '(campaigned, c) :=
    match transfer_target with
    | Some target => let '(r, c) := campaign target true c in (is_ok r, c)
    | None => (false, c)
    end in
  if negb campaigned && bool_decide (rc_leader_id c = Some node_id)
  then invalidate_leader_lease (c <| rc_leader_id := None |>) else c.

Definition submit_apply_result (node_id : NodeId) (applied_index : LogIndex) (apply_task_rejected : bool)
    : Cluster unit := fun c =>
  match rc_nodes c !! node_id with
  | None => (Err (NodeNotFound node_id), c)
  | Some node =>
      if (applied_index <? nd_safety_applied_index node)%N || (nd_applied_index node <? applied_index)%N
      then (Err (InvalidRequest ("applied_index " ++s pretty applied_index ++s " outside safety/applied range "
                   ++s pretty (nd_safety_applied_index node) ++s ".." ++s pretty (nd_applied_index node))), c)
      else
        let leader_apply_rejected := apply_task_rejected && bool_decide (nd_raft_role node = Leader) in
        let c := on_node node_id (record_apply_result applied_index apply_task_rejected) c in
        let c := if leader_apply_rejected then leave_after_rejection node_id c else c in
        (_ ← try_install_pending_snapshot_to node_id; modify refresh_cluster_indexes) c
  end.

(** ** Receiving a snapshot in chunks *)

Definition snapshot_response (term : Term) (accepted : bool) (next_offset : N) (committed_index : LogIndex)
    (reason : string) : InstallSnapshotResponse :=
  mkInstallSnapshotResponse term accepted next_offset committed_index reason false.

Definition next_offset_of (request : InstallSnapshotRequest) : N :=
  chunk_offset (isr_chunk request) +s data_len (chunk_data (isr_chunk request)).

Definition reject_snapshot_before_observe (target : NodeId) (request : InstallSnapshotRequest) (next_offset : N)
    (c : RaftCluster) : Result (option InstallSnapshotResponse) :=
  match rc_nodes c !! target with
  | None => Err (NodeNotFound target)
  | Some node =>
      let reject reason :=
        Ok (Some (snapshot_response (N.max (hs_current_term (nd_hard_state node)) (rc_current_term c)) false
                    next_offset 0 reason)) in
      if (isr_term request <? rc_current_term c)%N then reject "stale_term"
      else match rc_nodes c !! isr_leader_id request with
           | Some leader =>
               if can_be_leader (nd_replica_role leader)
               then if nd_healthy leader then Ok None else reject "leader_unavailable"
               else reject "leader_not_member"
           | None => reject "leader_not_member"
           end
  end.

(** The roles and terms a message of a leader settles. *)
Definition follow_snapshot_leader (request : InstallSnapshotRequest) (peer : Node) : Node :=
  peer <| nd_hard_state ::= (fun h => h <| hs_current_term ::= (fun t => N.max t (isr_term request)) |>) |>
       <| nd_raft_role := if (nd_id peer =? isr_leader_id request)%N then Leader else passive_role peer |>.

Definition observe_snapshot_leader (request : InstallSnapshotRequest) (c : RaftCluster) : RaftCluster :=
  if (isr_term request <? rc_current_term c)%N then c
  else
    let c := if (rc_current_term c <? isr_term request)%N
             then clear_reorder_queues (c <| rc_last_index_before_current_term := rc_last_log_index c |>
                                          <| rc_current_term := isr_term request |>)
             else c in
    let c :=
      if negb (bool_decide (rc_leader_id c = Some (isr_leader_id request))) then
        let c := match active_leader_transfer c with
                 | Some transfer =>
                     if (lt_transferee_id transfer =? isr_leader_id request)%N
                     then snd (complete_leader_transfer "transferee_became_leader" c)
                     else snd (abort_leader_transfer "snapshot_leader_changed" c)
                 | None => c
                 end in
        let c := c <| rc_leader_id := Some (isr_leader_id request) |> in
        invalidate_follower_lease (reset_leader_lease_epoch (clear_reorder_queues c))
      else c in
    on_nodes (follow_snapshot_leader request) c.

Definition stale_snapshot_chunk_response (target : NodeId) (request : InstallSnapshotRequest) (next_offset : N)
    : Cluster (option InstallSnapshotResponse) := fun c =>
  match rc_nodes c !! target with
  | None => (Err (NodeNotFound target), c)
  | Some node =>
      let snapshot_index := snap_index (chunk_meta (isr_chunk request)) in
      let stale := match nd_rejected_apply_index node with
                   | Some required_index => (snapshot_index <? required_index)%N
                   | None => (snapshot_index <=? nd_commit_index node)%N
                   end in
      if negb stale then (Ok None, c)
      else (Ok (Some (snapshot_response (N.max (rc_current_term c) (isr_term request)) true next_offset
                        (nd_commit_index node) "stale_snapshot_ignored")),
            c <| rc_snapshot_installers ::= delete target |>)
  end.

Definition installed_snapshot_fence (snapshot_index : LogIndex) : ApplySnapshotFence :=
  mkApplySnapshotFence snapshot_index snapshot_index snapshot_index (snapshot_index +s 1).

Definition installed_index_of (target : NodeId) (c : RaftCluster) : Result LogIndex :=
  match rc_nodes c !! target with
  | None => Err (NodeNotFound target)
  | Some node => Ok (snapshot_index_or_default (nd_installed_snapshot node))
  end.

(** The installer of the target: a chunk at offset 0 opens one, or begins it again. *)
Definition open_target_installer (target : NodeId) (chunk : SnapshotChunk) : Cluster SnapshotInstallState := fun c =>
  let fresh := install_state_new (chunk_meta chunk) in
  match rc_snapshot_installers c !! target with
  | Some installer =>
      if (chunk_offset chunk =? 0)%N && negb (sis_next_offset installer =? 0)%N
      then (Ok fresh, c <| rc_snapshot_installers ::= <[target := fresh]> |>)
      else (Ok installer, c)
  | None =>
      if negb (chunk_offset chunk =? 0)%N
      then (Err (InvalidRequest ("snapshot chunk offset " ++s pretty (chunk_offset chunk)
                                 ++s " arrived before offset 0")), c)
      else (Ok fresh, c <| rc_snapshot_installers ::= <[target := fresh]> |>)
  end.

(** The chunk in the installer, and the snapshot once the last chunk is there. *)
Definition receive_chunk (target : NodeId) (chunk : SnapshotChunk) : Cluster (option RaftSnapshot) := fun c =>
  match open_target_installer target chunk c with
  | (Err e, c) => (Err e, c)
  | (Ok installer, c) =>
      match install_chunk chunk installer with
      | (Err e, _) => (Err e, c)
      | (Ok _, installer) =>
          if negb (sis_complete installer)
          then (Ok None, c <| rc_snapshot_installers ::= <[target := installer]> |>)
          else
            let c := c <| rc_snapshot_installers ::= delete target |> in
            match finish (rc_group_id c) installer with
            | Err e => (Err e, c)
            | Ok snapshot => (Ok (Some snapshot), c)
            end
      end
  end.

Definition ignored_while_receiving (target : NodeId) (chunk : SnapshotChunk) (c : RaftCluster)
    : option SnapshotInstallState :=
  match rc_snapshot_installers c !! target with
  | Some installer =>
      if (chunk_offset chunk =? 0)%N && negb (bool_decide (sis_meta installer = chunk_meta chunk))
      then Some installer else None
  | None => None
  end.

(** After the leader was observed and the chunk found not to be stale. *)
Definition take_chunk (target : NodeId) (request : InstallSnapshotRequest) (next_offset : N)
    : Cluster InstallSnapshotResponse :=
  with_state (fun c =>
    let chunk := isr_chunk request in
    let respond term := snapshot_response (N.max term (isr_term request)) true in
    match installed_index_of target c with
    | Err e => fail e
    | Ok installed_snapshot_index =>
        if (snap_index (chunk_meta chunk) <=? installed_snapshot_index)%N then
          _ ← modify (fun c => c <| rc_snapshot_installers ::= delete target |>);
          mret (respond (rc_current_term c) next_offset installed_snapshot_index "stale_snapshot_ignored")
        else match ignored_while_receiving target chunk c with
             | Some installer =>
                 mret (respond (rc_current_term c) (sis_next_offset installer) 0%N
                         "snapshot_install_ignored_while_receiving")
             | None =>
                 received ← receive_chunk target chunk;
                 match received with
                 | None => gets (fun c => respond (rc_current_term c) next_offset 0%N "snapshot_chunk_accepted")
                 | Some snapshot =>
                     let snapshot_index := snap_index (rs_meta snapshot) in
                     installed ← install_or_queue_completed_snapshot target snapshot
                                   (installed_snapshot_fence snapshot_index);
                     gets (fun c =>
                       if installed : bool
                       then respond (rc_current_term c) next_offset snapshot_index "snapshot_installed"
                       else respond (rc_current_term c) next_offset 0%N "snapshot_pending_apply")
                 end
             end
    end).

(** What both ways of receiving a chunk do first. *)
Definition observe_chunk (mismatch : string) (target : NodeId) (request : InstallSnapshotRequest)
    : Cluster (option InstallSnapshotResponse) := fun c =>
  let next_offset := next_offset_of request in
  if negb (isr_group_id request =? rc_group_id c)%N then (Err (InvalidRequest mismatch), c)
  else match reject_snapshot_before_observe target request next_offset c with
       | Err e => (Err e, c)
       | Ok (Some response) => (Ok (Some response), c)
       | Ok None =>
           stale_snapshot_chunk_response target request next_offset (observe_snapshot_leader request c)
       end.

Definition install_snapshot_chunk_to (target : NodeId) (request : InstallSnapshotRequest)
    : Cluster InstallSnapshotResponse :=
  answered ← observe_chunk "snapshot install group id mismatch" target request;
  match answered with
  | Some response => mret response
  | None => take_chunk target request (next_offset_of request)
  end.

(** The caller's lifecycle assembles the chunks instead of the group. *)
Definition take_lifecycle_chunk (target : NodeId) (lifecycle : SnapshotLifecycle) (request : InstallSnapshotRequest)
    (c : RaftCluster) : Result InstallSnapshotResponse * SnapshotLifecycle * RaftCluster :=
  let next_offset := next_offset_of request in
  let respond c := snapshot_response (N.max (rc_current_term c) (isr_term request)) true next_offset in
  match installed_index_of target c with
  | Err e => (Err e, lifecycle, c)
  | Ok installed_snapshot_index =>
      match install_request request lifecycle with
      | (Err e, lifecycle) => (Err e, lifecycle, c)
      | (Ok None, lifecycle) => (Ok (respond c 0%N "snapshot_chunk_accepted"), lifecycle, c)
      | (Ok (Some snapshot), lifecycle) =>
          let snapshot_index := snap_index (rs_meta snapshot) in
          if (snapshot_index <=? installed_snapshot_index)%N
          then (Ok (respond c installed_snapshot_index "stale_snapshot_ignored"), lifecycle, c)
          else match install_snapshot_to target snapshot (installed_snapshot_fence snapshot_index) c with
               | (Err e, c) => (Err e, lifecycle, c)
               | (Ok _, c) => (Ok (respond c snapshot_index "snapshot_installed"), lifecycle, c)
               end
      end
  end.

Definition install_snapshot_lifecycle_request_to (target : NodeId) (lifecycle : SnapshotLifecycle)
    (request : InstallSnapshotRequest) (c : RaftCluster)
    : Result InstallSnapshotResponse * SnapshotLifecycle * RaftCluster :=
  match observe_chunk "snapshot lifecycle group id mismatch" target request c with
  | (Err e, c) => (Err e, lifecycle, c)
  | (Ok (Some response), c) => (Ok response, lifecycle, c)
  | (Ok None, c) => take_lifecycle_chunk target lifecycle request c
  end.

(** ** Compaction and checkpoints *)

Definition log_retained_range (c : RaftCluster) : LogRetainedRange :=
  let nodes := bt_values (rc_nodes c) in
  mkLogRetainedRange
    (min_or_default (omap (fun node => entry_index <$> head (nd_log node)) nodes))
    (match omap (fun node => entry_index <$> last (nd_log node)) nodes with
     | [] => rc_last_log_index c
     | indexes => max_or_default indexes
     end)
    0 0 (sum_N ((fun node => N.of_nat (length (nd_log node))) <$> nodes) `mod` u64_modulus)%N.

Definition compact_logs_with_storage_fence (log_index : LogIndex) (fence : StorageApplyFence) (c : RaftCluster)
    : WalCompactionReport * RaftCluster :=
  let blocked blocker := mkWalCompactionReport log_index 0 (log_retained_range c) false (Some blocker) in
  match matrixraft_validate_storage_apply_fence fence with
  | Err error => (blocked (RaftError_to_string error), c)
  | Ok _ =>
      if (saf_durable_applied_index fence <? log_index)%N || (saf_storage_flushed_index fence <? log_index)%N
      then (blocked "compaction fence is behind requested log index", c)
      else
        let '(removed_entries, c) := compact_logs_through log_index c in
        (mkWalCompactionReport log_index removed_entries (log_retained_range c) true None, c)
  end.

Section checkpoint.
Context `{!Prost}.

Definition checkpoint_snapshot (node_id : NodeId) (snapshot_id : string) (c : RaftCluster) : Result RaftSnapshot :=
  match rc_nodes c !! node_id with
  | None => Err (NodeNotFound node_id)
  | Some node =>
      let snapshot_index := N.max (nd_commit_index node) (match_index node) in
      let payload := matrixraft_encode_log (nd_log node) in
      Ok (mkRaftSnapshot (rc_group_id c)
            (mkSnapshotMetadata snapshot_id (mkLogId (hs_current_term (nd_hard_state node)) snapshot_index)
               (node_ids c) (snapshot_members c) (data_len payload)) payload)
  end.
End checkpoint.

(** ** Triggers *)

Record SnapshotTriggerStatus := mkSnapshotTriggerStatus {
  trs_in_progress : bool;
  trs_snapshot_id : option string;
  trs_last_log_id : option LogId;
  trs_elapsed_ticks : N;
  trs_timeout_ticks : N;
  trs_timed_out : bool;
  trs_duplicate_requests : N
}.

Definition snapshot_trigger_status (c : RaftCluster) : SnapshotTriggerStatus :=
  let trigger := rc_snapshot_trigger c in
  mkSnapshotTriggerStatus (bool_decide (is_Some trigger))
    ((fun t => snap_id (sts_meta t)) <$> trigger) ((fun t => snap_last_log_id (sts_meta t)) <$> trigger)
    (default 0%N (sts_elapsed_ticks <$> trigger)) (default 0%N (sts_timeout_ticks <$> trigger))
    (default false (sts_timed_out <$> trigger)) (rc_duplicate_snapshot_trigger_requests c).

Record SnapshotDueReport := mkSnapshotDueReport {
  sdr_leader_id : option NodeId;
  sdr_retained_entries : N;
  sdr_threshold_entries : N;
  sdr_entries_exceeded : bool;
  sdr_trigger_in_flight : bool;
  sdr_can_trigger : bool;
  sdr_due : bool;
  sdr_reason : string
}.

Definition retained_leader_entries (c : RaftCluster) : N :=
  match (leader_id ← rc_leader_id c; rc_nodes c !! leader_id) with
  | Some leader => N.of_nat (length (nd_log leader))
  | None => 0%N
  end.

Definition snapshot_is_due (c : RaftCluster) : bool :=
  if negb (can_trigger_snapshot (rc_config c)) || bool_decide (is_Some (rc_snapshot_trigger c)) then false
  else (snapshot_threshold_entries (rc_config c) <=? retained_leader_entries c)%N.

Definition snapshot_due (c : RaftCluster) : SnapshotDueReport :=
  let can_trigger := can_trigger_snapshot (rc_config c) in
  let trigger_in_flight := bool_decide (is_Some (rc_snapshot_trigger c)) in
  let threshold_entries := snapshot_threshold_entries (rc_config c) in
  let retained_entries := retained_leader_entries c in
  let entries_exceeded := (threshold_entries <=? retained_entries)%N in
  mkSnapshotDueReport (rc_leader_id c) retained_entries threshold_entries entries_exceeded trigger_in_flight
    can_trigger (snapshot_is_due c)
    (if negb can_trigger then "snapshot_trigger_disabled"
     else if bool_decide (rc_leader_id c = None) then "no_leader"
     else if trigger_in_flight then "snapshot_trigger_in_flight"
     else if entries_exceeded then "retained_entries_reached_threshold"
     else "retained_entries_below_threshold").

Definition tick_snapshot_trigger (c : RaftCluster) : bool * RaftCluster :=
  match rc_snapshot_trigger c with
  | None => (false, c)
  | Some trigger =>
      let trigger := trigger <| sts_elapsed_ticks ::= (fun t => t +s 1) |> in
      if negb (sts_timed_out trigger) && (sts_timeout_ticks trigger <=? sts_elapsed_ticks trigger)%N
      then (true, c <| rc_snapshot_trigger := Some (trigger <| sts_timed_out := true |>) |>)
      else (false, c <| rc_snapshot_trigger := Some trigger |>)
  end.

Definition complete_snapshot_trigger (snapshot_id : string) : Cluster unit := fun c =>
  match rc_snapshot_trigger c with
  | None => (Err (InvalidRequest "no snapshot trigger is in progress"), c)
  | Some trigger =>
      if negb (bool_decide (snap_id (sts_meta trigger) = snapshot_id))
      then (Err (InvalidRequest ("snapshot trigger mismatch: expected " ++s snap_id (sts_meta trigger)
                                 ++s ", got " ++s snapshot_id)), c)
      else (Ok tt, c <| rc_snapshot_trigger := None |>)
  end.

(** ** Operations of one peer's pipeline *)

(** [self.peer_pipelines.get_mut(&id).ok_or(RaftError::NodeNotFound(id))?.op()]. *)
Definition peer_op {A} (peer_id : NodeId) (op : ST RaftError ReplicationPipeline A) : Cluster A := fun c =>
  match pipeline_op peer_id op c with
  | (None, c) => (Err (NodeNotFound peer_id), c)
  | (Some r, c) => (r, c)
  end.

(** An operation that cannot fail, as one that can. *)
Definition always_ok {A} (op : ReplicationPipeline -> A * ReplicationPipeline)
    : ST RaftError ReplicationPipeline A := fun p => let '(a, p) := op p in (Ok a, p).

Definition peer_pipeline_status (peer_id : NodeId) (c : RaftCluster) : Result PeerProgress :=
  ok_or (rp_status <$> rc_peer_pipelines c !! peer_id) (NodeNotFound peer_id).

Definition peer_pipeline_statuses (c : RaftCluster) : list PeerProgress :=
  (fun entry : N * ReplicationPipeline => rp_status entry.2)
    <$> filter (fun entry => rc_leader_id c <> Some entry.1) (bt_entries (rc_peer_pipelines c)).

Definition receive_out_of_order_append_for (peer_id : NodeId) (entry : LogEntry) : Cluster unit :=
  peer_op peer_id (receive_out_of_order entry).
Definition expire_peer_reorder_queue (peer_id : NodeId) : Cluster N :=
  peer_op peer_id (always_ok expire_reorder_queue).
Definition begin_snapshot_send_to (peer_id : NodeId) (snapshot_id : string) (snapshot_index : LogIndex)
    (total_chunks : N) : Cluster unit :=
  peer_op peer_id (begin_snapshot_send snapshot_id snapshot_index total_chunks).
Definition record_snapshot_chunk_sent_to (peer_id : NodeId) (bytes : N) : Cluster unit :=
  peer_op peer_id (record_snapshot_chunk_sent bytes).
Definition acknowledge_snapshot_chunk_to (peer_id : NodeId) : Cluster unit :=
  peer_op peer_id acknowledge_snapshot_chunk.
Definition update_snapshot_progress_from (peer_id : NodeId) (remote_receiving : bool)
    (elapsed_since_last_receiving_ms send_timeout_ms : N) : Cluster bool :=
  peer_op peer_id (always_ok (update_snapshot_progress remote_receiving elapsed_since_last_receiving_ms
                                send_timeout_ms)).
Definition retry_snapshot_chunk_to (peer_id : NodeId) : Cluster unit := peer_op peer_id retry_snapshot_chunk.
Definition begin_snapshot_install_from (peer_id : NodeId) (snapshot_id : string) (snapshot_index : LogIndex)
    (total_chunks : N) : Cluster unit :=
  peer_op peer_id (begin_snapshot_install snapshot_id snapshot_index total_chunks).
Definition receive_snapshot_chunk_from (peer_id : NodeId) (bytes : N) (done : bool) : Cluster unit :=
  peer_op peer_id (receive_snapshot_chunk bytes done).
Definition cancel_snapshot_send_to (peer_id : NodeId) : Cluster unit :=
  peer_op peer_id (fun p => (Ok tt, snd (cancel_snapshot_send_for_new_snapshot p))).
Definition rollback_snapshot_install_from (peer_id : NodeId) : Cluster unit :=
  peer_op peer_id (fun p => (Ok tt, rollback_snapshot_install p)).

(** ** Publishing a snapshot, and the outcome of sending one *)

Definition publish_snapshot_to (leader_id : NodeId) (snapshot_id : string) (snapshot_index : LogIndex)
    (peer_id : NodeId) : Cluster unit := fun c =>
  if (peer_id =? leader_id)%N then (Ok tt, c)
  else if pipeline_status_is peer_id (fun status =>
            (0 <? pp_required_snapshot_index status)%N && (pp_required_snapshot_index status <=? snapshot_index)%N
            && negb (pp_snapshot_sending status) && negb (pp_snapshot_installing status)) c
  then peer_op peer_id (begin_snapshot_send snapshot_id snapshot_index 1) c
  else (Ok tt, c).

(** The leader keeps the newer of its snapshot and the ready one. The name that is
    sent is the ready one's, whether the metadata moved to the leader or not. *)
Definition publish_ready_snapshot_to_waiting_peers (meta : SnapshotMetadata) : Cluster unit := fun c =>
  match rc_leader_id c with
  | None => (Ok tt, c)
  | Some leader_id =>
      let snapshot_index := snap_index meta in
      let c := on_node leader_id (fun leader =>
                 if (snapshot_index_or_default (nd_installed_snapshot leader) <=? snapshot_index)%N
                 then leader <| nd_installed_snapshot := Some meta |> else leader) c in
      for_each (publish_snapshot_to leader_id (snap_id meta) snapshot_index) (bt_keys (rc_peer_pipelines c)) c
  end.

Definition handle_snapshot_ready (snapshot_id : string) (success : bool) : Cluster unit := fun c =>
  match rc_snapshot_trigger c with
  | None => (Ok tt, c)
  | Some trigger =>
      if negb (bool_decide (snap_id (sts_meta trigger) = snapshot_id)) then (Ok tt, c)
      else
        let c := c <| rc_snapshot_trigger := None |> in
        if success then publish_ready_snapshot_to_waiting_peers (sts_meta trigger) c else (Ok tt, c)
  end.

Definition record_replication_task_result_for (peer_id : NodeId) (success : bool) : Cluster bool := fun c =>
  match rc_nodes c !! peer_id with
  | None => (Err (NodeNotFound peer_id), c)
  | Some _ =>
      if success || bool_decide (is_Some (rc_snapshot_trigger c)) then (Ok false, c)
      else match rc_leader_id c with
           | None => (Err NoLeader, c)
           | Some leader_id =>
               let leader_snapshot := leader ← rc_nodes c !! leader_id; nd_installed_snapshot leader in
               match rc_peer_pipelines c !! peer_id with
               | None => (Err (NodeNotFound peer_id), c)
               | Some pipeline =>
                   let required_snapshot_index := pp_required_snapshot_index (rp_status pipeline) in
                   let trigger : Cluster bool := _ ← trigger_snapshot; mret false in
                   match leader_snapshot with
                   | Some snapshot =>
                       if (required_snapshot_index <=? snap_index snapshot)%N
                       then (_ ← peer_op peer_id (begin_snapshot_send (snap_id snapshot) (snap_index snapshot) 1);
                             mret true) c
                       else trigger c
                   | None => trigger c
                   end
               end
           end
  end.

Definition handle_snapshot_finish_from (peer_id : NodeId) (accepted : bool) (committed_index : LogIndex)
    : Cluster unit := fun c =>
  match rc_peer_pipelines c !! peer_id with
  | None => (Err (NodeNotFound peer_id), c)
  | Some pipeline =>
      if negb (pp_snapshot_sending (rp_status pipeline)) && negb (pp_snapshot_installing (rp_status pipeline))
      then (Ok tt, c)
      else
        (_ ← peer_op peer_id (handle_snapshot_finish accepted committed_index);
         with_state (fun c =>
           if accepted then
             if node_is peer_id nd_healthy c
             then _ ← catch_up_peer_with_reason peer_id "snapshot_finish_tail"; mret tt
             else mret tt
           else if bool_decide (is_Some (rc_leader_id c)) && negb (trs_in_progress (snapshot_trigger_status c))
           then _ ← trigger_snapshot; mret tt
           else mret tt)) c
  end.

Definition handle_install_snapshot_response (local_node_id peer_id : NodeId) (response : InstallSnapshotResponse)
    : Cluster unit := fun c =>
  match rc_nodes c !! local_node_id with
  | None => (Err (NodeNotFound local_node_id), c)
  | Some _ =>
      let high_term := (rc_current_term c <? isp_term response)%N in
      match (if high_term then peer_response_is_active peer_id c else Ok true) with
      | Err e => (Err e, c)
      | Ok false => (Ok tt, c)
      | Ok true =>
          if high_term
          then (Ok tt, step_to_higher_term (isp_term response) "snapshot_response_high_term" c)
          else if (isp_term response =? rc_current_term c)%N && pipeline_status_is peer_id pp_snapshot_sending c then
            (_ ← handle_snapshot_finish_from peer_id (isp_accepted response) (isp_committed_index response);
             with_state (fun c =>
               if negb (isp_accepted response) && negb (trs_in_progress (snapshot_trigger_status c))
               then _ ← trigger_snapshot; mret tt
               else mret tt)) c
          else (Ok tt, c)
      end
  end.

(** ** Status *)

Definition peer_status (node peer : Node) : PeerStatus :=
  mkPeerStatus (nd_id peer) (match_index peer) (match_index peer +s 1)
    (bool_decide (nd_replica_role peer = Learner)) (nd_healthy peer)
    (match_index node - match_index peer)%N.

Definition status (node_id : NodeId) (c : RaftCluster) : Result StatusSnapshot :=
  match rc_nodes c !! node_id with
  | None => Err (NodeNotFound node_id)
  | Some node =>
      Ok (mkStatusSnapshot (rc_group_id c) node_id (nd_raft_role node) (hs_current_term (nd_hard_state node))
            (rc_leader_id c) (nd_commit_index node) (nd_applied_index node) (match_index node)
            (snapshot_index_or_default (nd_installed_snapshot node))
            (peer_status node <$> filter (fun peer => nd_id peer <> node_id) (bt_values (rc_nodes c))))
  end.
