(* ===== verification/SnapshotSafety.v ===== *)
(** * The proofs about snapshots of the group

    Theorems about [Snapshots.v]: what an install leaves on its target and when it
    is refused, that a completed snapshot is installed or queued, that chunks sent
    in order install the snapshot they were cut from, that a fenced compaction
    drops nothing above its fence, which peers a ready snapshot is sent to, and
    what happens to a queued snapshot that commits overtake. *)

From stdpp Require Import base strings pretty numbers sorting gmap fin_maps sets list.
From S2P Require Import Prelude Types Bytes Slice Membership Node Wal WalSegments WalBinary Config Pipeline Cluster Election Append GroupInv Replication ReplicationSafety Votes Reads Reconfig SnapshotTransfer Snapshots.

(** ** Frames *)

(** The log and the snapshot of a replica, with cursors that do not move back. *)
Definition same_log (n n' : Node) : Prop :=
  nd_log n' = nd_log n /\ nd_installed_snapshot n' = nd_installed_snapshot n /\ cursors_le n n'.

#[export] Instance same_log_preorder : PreOrder same_log.
Proof.
  split; [intros n; unfold same_log; by split_and!|].
  intros a b c (A1 & A2 & A3) (B1 & B2 & B3). split_and!; [congruence|congruence|by etrans].
Qed.

(** The replica [k] stays in the group and keeps its log. *)
Definition node_kept (k : NodeId) (c c' : RaftCluster) : Prop :=
  forall n, rc_nodes c !! k = Some n -> exists n', rc_nodes c' !! k = Some n' /\ same_log n n'.

#[export] Instance node_kept_preorder k : PreOrder (node_kept k).
Proof.
  split; [intros c n Hn; by exists n|]. intros a b c H1 H2 n Hn. destruct (H1 n Hn) as (n1 & Hn1 & S1).
  destruct (H2 n1 Hn1) as (n2 & Hn2 & S2). exists n2. split; [done|by etrans].
Qed.

Lemma node_kept_nodes k c c' : rc_nodes c' = rc_nodes c -> node_kept k c c'.
Proof. intros Hn n. rewrite Hn. by exists n. Qed.

Lemma node_kept_on_nodes k f c : (forall n, same_log n (f n)) -> node_kept k c (on_nodes f c).
Proof. intros Hf n Hn. exists (f n). cbn. rewrite lookup_fmap, Hn. by split. Qed.

Lemma node_kept_remove k l c : k ∉ l -> node_kept k c (foldl remove_unlisted c l).
Proof.
  intros Hk n Hn. exists n. rewrite remove_unlisted_lookup. by rewrite bool_decide_eq_false_2.
Qed.

Lemma node_kept_take_role k peer c : node_kept k c (take_member_role c peer).
Proof.
  intros n Hn. unfold take_member_role. cbn. destruct (decide (k = peer_node_id peer)) as [->|Hk].
  - rewrite Hn, lookup_insert_eq. eexists. split; [done|]. by case_bool_decide.
  - exists n. split; [|reflexivity]. destruct (rc_nodes c !! peer_node_id peer); by rewrite lookup_insert_ne by congruence.
Qed.

Lemma node_kept_ensure k c x : node_kept k c (ensure_member c x).
Proof.
  intros n Hn. exists n. split; [|reflexivity]. unfold ensure_member. cbn.
  destruct (rc_nodes c !! x) eqn:Hx; [done|]. rewrite lookup_insert_ne; congruence.
Qed.

Lemma node_kept_foldl {A} k (f : RaftCluster -> A -> RaftCluster) l c :
  (forall c a, node_kept k c (f c a)) -> node_kept k c (foldl f c l).
Proof. intros Hf. revert c. induction l as [|a l IH]; intros c; cbn; [reflexivity|]. etrans; [apply Hf|apply IH]. Qed.

Lemma settle_members_kept target ids members c : node_kept target c (settle_members target ids members c).
Proof.
  unfold settle_members. cbn zeta.
  etrans; [|apply node_kept_foldl; intros; apply node_kept_ensure].
  etrans; [|apply node_kept_foldl; intros; apply node_kept_take_role].
  destruct (rc_nodes c !! target) as [n|] eqn:Hn; [|by intros n; rewrite Hn].
  apply node_kept_remove. rewrite list_elem_of_filter. intros [Hr _]. apply Hr. unfold retained_members.
  rewrite !elem_of_union. right. rewrite Hn, bool_decide_eq_true_2 by eauto. set_solver.
Qed.

Lemma advance_commit_same_log i n : same_log n (advance_commit i n).
Proof.
  split_and!; [apply advance_commit_log|apply advance_commit_fields|apply advance_commit_le].
Qed.

Lemma refresh_commit_index_kept k c : node_kept k c (refresh_commit_index c).
Proof.
  unfold refresh_commit_index. repeat (case_match; try reflexivity). cbn zeta.
  etrans; [|by apply node_kept_nodes]. etrans; [|apply node_kept_on_nodes]; [by apply node_kept_nodes|].
  intros m. destruct (nd_healthy m); [apply advance_commit_same_log|reflexivity].
Qed.

Lemma reset_membership_kept target ids members c :
  node_kept target c (reset_membership_from_snapshot target ids members c).
Proof.
  unfold reset_membership_from_snapshot. cbn zeta. etrans; [apply (settle_members_kept target ids members)|].
  generalize (settle_members target ids members c). clear c. intros c.
  assert (node_kept target c (reset_leader_lease_epoch c)) as H1 by (by apply node_kept_nodes).
  etrans; [exact H1|]. clear H1. generalize (reset_leader_lease_epoch c). clear c. intros c.
  etrans; [apply refresh_commit_index_kept|]. generalize (refresh_commit_index c). clear c. intros c.
  assert (node_kept target c (refresh_replication_pipelines c)) as H
    by (apply node_kept_nodes; by rewrite refresh_replication_pipelines_only).
  etrans; [exact H|]. clear H. generalize (refresh_replication_pipelines c). clear c. intros c.
  destruct (rc_leader_id c); [|reflexivity]. apply node_kept_on_nodes. by intros m.
Qed.

(** ** Installing *)

Lemma node_install_snapshot_fields s n :
  log_ordered (nd_log n) ->
  nd_log (node_install_snapshot s n) = filter (fun e => (snap_index (rs_meta s) < entry_index e)%N) (nd_log n)
  /\ nd_installed_snapshot (node_install_snapshot s n) = Some (rs_meta s)
  /\ (snap_index (rs_meta s) <= nd_commit_index (node_install_snapshot s n))%N
  /\ (can_serve_data (nd_replica_role n) = true ->
      (snap_index (rs_meta s) <= nd_safety_applied_index (node_install_snapshot s n))%N).
Proof.
  intros Ho. unfold node_install_snapshot. cbn zeta.
  set (n1 := n <| nd_installed_snapshot := Some (rs_meta s) |>). set (i := snap_index (rs_meta s)).
  pose proof (discard_log_through_spec i n1 Ho) as [Hl _]. change (nd_log n1) with (nd_log n) in Hl.
  assert (nd_installed_snapshot (snd (discard_log_through i n1)) = Some (rs_meta s)
          /\ nd_replica_role (snd (discard_log_through i n1)) = nd_replica_role n) as [Hs Hr]
    by (unfold discard_log_through; cbn; by destruct (_ =? _)%nat).
  destruct (discard_log_through i n1) as [cut m]. cbn [snd] in *. clearbody i. clear n1.
  case_bool_decide as Hw; cbn; destruct (nd_rejected_apply_index m) as [r|]; try (destruct (r <=? _)%N);
    cbn; rewrite Hr; destruct (can_serve_data (nd_replica_role n)); cbn; split_and!; try done; intros; lia.
Qed.

(** Why a replica refuses a snapshot index; [None] when it does not. *)
Lemma check_snapshot_index_ok target i n :
  check_snapshot_index target i n = Ok tt
  <-> match nd_rejected_apply_index n with
      | Some required => (required <= i)%N
      | None => (nd_applied_index n <= nd_safety_applied_index n)%N /\ (nd_commit_index n <= nd_applied_index n)%N
                /\ (nd_commit_index n < i)%N
      end.
Proof.
  unfold check_snapshot_index. destruct (nd_rejected_apply_index n) as [r|].
  - destruct (N.ltb_spec i r); split; intros; try done; lia.
  - destruct (N.ltb_spec (nd_safety_applied_index n) (nd_applied_index n)); [split; intros; [done|lia]|].
    destruct (N.ltb_spec (nd_applied_index n) (nd_commit_index n)); [split; intros; [done|lia]|].
    destruct (N.leb_spec i (nd_commit_index n)); split; intros; try done; lia.
Qed.

(** When [install_snapshot_to] goes ahead. *)
Record install_admitted (target : NodeId) (s : RaftSnapshot) (f : ApplySnapshotFence) (c : RaftCluster) (n : Node) : Prop :=
  mk_install_admitted {
  ia_group : rs_group_id s = rc_group_id c;
  ia_fence : matrixraft_validate_snapshot_install s f = Ok tt;
  ia_node : rc_nodes c !! target = Some n;
  ia_index : check_snapshot_index target (snap_index (rs_meta s)) n = Ok tt
}.

(** The group an admitted install leaves. *)
Definition after_install (target : NodeId) (s : RaftSnapshot) (c : RaftCluster) : RaftCluster :=
  let i := snap_index (rs_meta s) in
  refresh_cluster_indexes (on_pipeline target (note_installed target i)
    ((mark_snapshot_membership_floor_applied i
       (reset_membership_from_snapshot target (snap_membership (rs_meta s)) (snap_members (rs_meta s))
          (clear_reorder_queue_for target (on_node target (node_install_snapshot s) c))))
     <| rc_snapshot_installers ::= delete target |> <| rc_pending_snapshots ::= delete target |>)).

Lemma install_snapshot_cases target s f c :
  (exists n, install_admitted target s f c n /\ install_snapshot_to target s f c = (Ok tt, after_install target s c))
  \/ (exists e, (forall n, ~ install_admitted target s f c n) /\ install_snapshot_to target s f c = (Err e, c)).
Proof.
  unfold install_snapshot_to. destruct (N.eqb_spec (rs_group_id s) (rc_group_id c)) as [Hg|Hg]; cbn [negb];
    [|right; eexists; split; [|done]; by intros n []].
  destruct (matrixraft_validate_snapshot_install s f) as [[]|e] eqn:Hf;
    [|right; eexists; split; [|done]; intros n []; congruence].
  destruct (rc_nodes c !! target) as [n|] eqn:Hn; [|right; eexists; split; [|done]; intros n []; congruence].
  destruct (check_snapshot_index target _ n) as [[]|e] eqn:Hi.
  - left. exists n. split; [by constructor|]. unfold after_install. reflexivity.
  - right. exists e. split; [|done]. intros m []. simplify_eq. congruence.
Qed.

Definition with_installed (target : NodeId) (s : RaftSnapshot) (c : RaftCluster) : RaftCluster :=
  clear_reorder_queue_for target (on_node target (node_install_snapshot s) c).

Lemma after_install_frame target s c :
  rc_nodes (after_install target s c)
    = rc_nodes (reset_membership_from_snapshot target (snap_membership (rs_meta s)) (snap_members (rs_meta s))
                  (with_installed target s c))
  /\ rc_pending_snapshots (after_install target s c) !! target = None
  /\ rc_snapshot_installers (after_install target s c) !! target = None.
Proof.
  unfold after_install. cbn zeta. fold (with_installed target s c).
  generalize (reset_membership_from_snapshot target (snap_membership (rs_meta s)) (snap_members (rs_meta s))
                (with_installed target s c)). intros c1.
  unfold mark_snapshot_membership_floor_applied. cbn zeta.
  split_and!; [by destruct (some_at_most _ _)| |]; apply lookup_delete_eq.
Qed.

Lemma node_install_snapshot_role s n :
  (nd_id (node_install_snapshot s n), nd_replica_role (node_install_snapshot s n)) = (nd_id n, nd_replica_role n).
Proof.
  unfold node_install_snapshot. cbn zeta. set (n1 := n <| nd_installed_snapshot := Some (rs_meta s) |>).
  assert (nd_id (snd (discard_log_through (snap_index (rs_meta s)) n1)) = nd_id n
    /\ nd_replica_role (snd (discard_log_through (snap_index (rs_meta s)) n1)) = nd_replica_role n) as [Hd1 Hd2]
    by (unfold discard_log_through; cbn; by destruct (_ =? _)%nat).
  destruct (discard_log_through _ n1) as [cut m]. cbn [snd] in *. rewrite <- Hd1, <- Hd2. clear.
  case_bool_decide; cbn; destruct (nd_rejected_apply_index m) as [r|]; try (destruct (r <=? _)%N);
    cbn; by destruct (can_serve_data (nd_replica_role m)).
Qed.

Lemma with_installed_roles target s c : role_map (with_installed target s c) = role_map c.
Proof.
  unfold role_map. apply map_eq. intros k. rewrite !lookup_fmap.
  change (rc_nodes (with_installed target s c)) with (alter (node_install_snapshot s) target (rc_nodes c)).
  destruct (decide (k = target)) as [->|Hk]; [|by rewrite lookup_alter_ne by done].
  rewrite lookup_alter_eq. destruct (rc_nodes c !! target) as [n|]; [|done]. cbn [fmap option_fmap option_map].
  by rewrite node_install_snapshot_role.
Qed.

Lemma after_install_roles target s c k :
  nodes_keyed c -> NoDup (peer_node_id <$> snap_members (rs_meta s)) ->
  role_map (after_install target s c) !! k
  = member_role target (snap_membership (rs_meta s)) (snap_members (rs_meta s)) c k.
Proof.
  intros Hk Hnd. unfold role_map. rewrite (proj1 (after_install_frame target s c)).
  fold (role_map (reset_membership_from_snapshot target (snap_membership (rs_meta s)) (snap_members (rs_meta s))
                    (with_installed target s c))).
  rewrite reset_membership_roles, settle_members_lookup; [|apply roles_keyed_nodes; unfold roles_keyed; rewrite with_installed_roles; by apply roles_keyed_nodes|done].
  unfold member_role. by rewrite with_installed_roles.
Qed.

Lemma after_install_node target s c n :
  rc_nodes c !! target = Some n -> log_ordered (nd_log n) ->
  exists n', rc_nodes (after_install target s c) !! target = Some n'
  /\ nd_installed_snapshot n' = Some (rs_meta s)
  /\ nd_log n' = filter (fun e => (snap_index (rs_meta s) < entry_index e)%N) (nd_log n)
  /\ (snap_index (rs_meta s) <= nd_commit_index n')%N
  /\ cursors_le n n'.
Proof.
  intros Hn Ho. rewrite (proj1 (after_install_frame target s c)).
  assert (rc_nodes (with_installed target s c) !! target = Some (node_install_snapshot s n)) as Hi
    by (cbn; by rewrite lookup_alter_eq, Hn).
  destruct (reset_membership_kept target (snap_membership (rs_meta s)) (snap_members (rs_meta s))
              (with_installed target s c) _ Hi) as (n' & Hn' & Hl & Hs & Hc).
  destruct (node_install_snapshot_fields s n Ho) as (Fl & Fs & Fc & _).
  exists n'. split_and!; [done|congruence|congruence|destruct Hc; lia|].
  etrans; [apply node_install_snapshot_cursors|done].
Qed.

(** A snapshot install is all or nothing. It goes ahead exactly when the
    snapshot is of this group, fits its fence and is new to a replica with nothing
    left to apply (or covers the entry the replica could not apply). Then the target
    holds the snapshot and the log entries above it and no others, its cursors have
    not moved back and its commit index covers the snapshot, nothing is left of a
    partial or queued install, and the group has the members the snapshot lists in
    their roles. A refused install changes nothing. *)
Theorem snapshot_install_effect target s f c :
  (forall n, rc_nodes c !! target = Some n -> log_ordered (nd_log n)) ->
  nodes_keyed c -> NoDup (peer_node_id <$> snap_members (rs_meta s)) ->
  match install_snapshot_to target s f c with
  | (Ok _, c') =>
      exists n n', install_admitted target s f c n /\ rc_nodes c' !! target = Some n'
      /\ nd_installed_snapshot n' = Some (rs_meta s)
      /\ nd_log n' = filter (fun e => (snap_index (rs_meta s) < entry_index e)%N) (nd_log n)
      /\ (snap_index (rs_meta s) <= nd_commit_index n')%N /\ cursors_le n n'
      /\ rc_pending_snapshots c' !! target = None /\ rc_snapshot_installers c' !! target = None
      /\ forall k, (fun n => (nd_id n, nd_replica_role n)) <$> rc_nodes c' !! k
                   = member_role target (snap_membership (rs_meta s)) (snap_members (rs_meta s)) c k
  | (Err _, c') => c' = c /\ forall n, ~ install_admitted target s f c n
  end.
Proof.
  intros Ho Hk Hnd. destruct (install_snapshot_cases target s f c) as [(n & Ha & ->)|(e & Ha & ->)]; [|done].
  pose proof (ia_node _ _ _ _ _ Ha) as Hn.
  destruct (after_install_node target s c n Hn (Ho n Hn)) as (n' & Hn' & Hs & Hl & Hc & Hle).
  destruct (after_install_frame target s c) as (_ & Hp & Hi).
  exists n, n'. split_and!; try done. intros k. rewrite <- (after_install_roles target s c k Hk Hnd).
  unfold role_map. by rewrite lookup_fmap.
Qed.

(** ** The text of a refusal *)

Lemma append_cons x (a b : string) : String x a ++s b = String x (a ++s b).
Proof. done. Qed.

Lemma append_nil (a : string) : a ++s EmptyString = a.
Proof. induction a as [|x a IH]; [done|]. by rewrite append_cons, IH. Qed.

Definition is_digit (a : Ascii.ascii) : bool := (48 <=? Ascii.N_of_ascii a)%N && (Ascii.N_of_ascii a <=? 57)%N.
Fixpoint digits (s : string) : bool :=
  match s with EmptyString => true | String a rest => is_digit a && digits rest end.

Lemma digits_pretty (n : N) : digits (pretty n) = true.
Proof.
  unfold pretty, pretty_N. case_decide; [done|].
  assert (forall m s, digits s = true -> digits (pretty_N_go m s) = true) as Hgo; [|by apply Hgo].
  intros m. induction (N.lt_wf_0 m) as [m _ IH]. intros s Hs. destruct (decide (m = 0)%N) as [->|Hm]; [done|].
  rewrite pretty_N_go_step by lia. apply IH; [apply N.div_lt; lia|]. cbn [digits]. rewrite Hs, andb_true_r.
  pose proof (N.mod_lt m 10 ltac:(lia)). assert (forall k, (k < 10)%N -> is_digit (pretty_N_char k) = true) as Hd; [|by apply Hd].
  intros k Hk. assert (k = 0 \/ k = 1 \/ k = 2 \/ k = 3 \/ k = 4 \/ k = 5 \/ k = 6 \/ k = 7 \/ k = 8 \/ k = 9)%N as He by lia.
  by destruct_or! He; subst k.
Qed.

(** No occurrence begins in a number. *)
Lemma contains_digits x needle d b :
  is_digit x = false -> digits d = true -> contains (String x needle) (d ++s b) = contains (String x needle) b.
Proof.
  intros Hx. induction d as [|a d IH]; [done|]. rewrite append_cons. cbn [digits]. rewrite andb_true_iff. intros [Ha Hd].
  cbn [contains String.prefix]. destruct (Ascii.ascii_dec x a); [congruence|]. by apply IH.
Qed.

(** Why a replica that lags behind its commit index refuses. *)
Definition apply_pending (n : Node) : Prop :=
  nd_rejected_apply_index n = None
  /\ ((nd_safety_applied_index n < nd_applied_index n)%N \/ (nd_applied_index n < nd_commit_index n)%N).

Lemma contains_pretty x needle (n : N) b :
  is_digit x = false -> contains (String x needle) (pretty n ++s b) = contains (String x needle) b.
Proof. intros Hx. apply contains_digits; [done|apply digits_pretty]. Qed.

Lemma contains_pretty_end x needle (n : N) : is_digit x = false -> contains (String x needle) (pretty n) = false.
Proof. intros Hx. rewrite <- (append_nil (pretty n)). by apply contains_pretty. Qed.

(** An occurrence may begin in a literal, within it or running over its end. *)
Fixpoint begins_in (needle lit : string) : bool :=
  match lit with
  | EmptyString => false
  | String _ rest => String.prefix needle lit || String.prefix lit needle || begins_in needle rest
  end.

Lemma prefix_append needle lit rest :
  String.prefix needle (lit ++s rest) = true -> String.prefix needle lit || String.prefix lit needle = true.
Proof.
  revert needle. induction lit as [|x lit IH]; intros [|y needle]; try done.
  rewrite append_cons. cbn [String.prefix]. destruct (Ascii.ascii_dec y x) as [->|]; [|done].
  destruct (Ascii.ascii_dec x x); [apply IH|done].
Qed.

Lemma contains_skip needle lit rest :
  begins_in needle lit = false -> contains needle (lit ++s rest) = contains needle rest.
Proof.
  induction lit as [|x lit IH]; [done|]. cbn [begins_in]. rewrite !orb_false_iff. intros [[H1 H2] H3].
  rewrite append_cons. cbn [contains]. rewrite (IH H3). rewrite <- append_cons.
  destruct (String.prefix needle (String x lit ++s rest)) eqn:Hp; [|done].
  apply prefix_append in Hp. rewrite H1, H2 in Hp. done.
Qed.

Lemma contains_here needle lit rest : contains needle lit = true -> contains needle (lit ++s rest) = true.
Proof.
  induction lit as [|x lit IH].
  - cbn [contains]. destruct needle; [by destruct rest|done].
  - rewrite append_cons. cbn [contains]. rewrite !orb_true_iff. intros [H|H]; [left|right; by apply IH].
    revert H. rewrite <- append_cons. generalize (String x lit). clear. intros lit. revert needle.
    induction lit as [|x lit IH]; intros [|y needle]; try done; [by destruct rest|].
    rewrite append_cons. cbn [String.prefix]. destruct (Ascii.ascii_dec y x); [apply IH|done].
Qed.

(** Reads a message: past its literals and numbers, or up to the literal that has the text. *)
Ltac read_text :=
  cbn [snapshot_install_waits_for_apply];
  repeat first [ rewrite contains_pretty by reflexivity | rewrite contains_pretty_end by reflexivity
               | rewrite contains_skip by reflexivity | rewrite contains_here by reflexivity ].

(** The text of the refusal says whether the replica has something to apply first. *)
Lemma waits_for_apply_spec target i n e :
  check_snapshot_index target i n = Err e -> snapshot_install_waits_for_apply e = true <-> apply_pending n.
Proof.
  unfold check_snapshot_index, apply_pending. destruct (nd_rejected_apply_index n) as [r|].
  - destruct (i <? r)%N; [|done]. intros [= <-]. read_text.
    split; [done|by intros [? _]].
  - destruct (N.ltb_spec (nd_safety_applied_index n) (nd_applied_index n)).
    { intros [= <-]. read_text. split; [split; [done|by left]|done]. }
    destruct (N.ltb_spec (nd_applied_index n) (nd_commit_index n)).
    { intros [= <-]. read_text. split; [split; [done|by right]|done]. }
    destruct (i <=? nd_commit_index n)%N; [|done]. intros [= <-]. read_text.
    split; [done|]. intros [_ Hp]. lia.
Qed.

(** ** Completed and queued snapshots *)

(** The install would go ahead but for entries still to be applied. *)
Definition install_waits (target : NodeId) (s : RaftSnapshot) (f : ApplySnapshotFence) (c : RaftCluster) : Prop :=
  rs_group_id s = rc_group_id c /\ matrixraft_validate_snapshot_install s f = Ok tt
  /\ exists n, rc_nodes c !! target = Some n /\ apply_pending n.

Lemma validate_install_storage s f e :
  matrixraft_validate_snapshot_install s f = Err e -> snapshot_install_waits_for_apply e = false.
Proof.
  unfold matrixraft_validate_snapshot_install, matrixraft_validate_snapshot_floor_log_matching.
  repeat (case_match; try done); by intros [= <-].
Qed.

Lemma install_refusal_waits target s f c e c' :
  install_snapshot_to target s f c = (Err e, c') ->
  snapshot_install_waits_for_apply e = true <-> install_waits target s f c.
Proof.
  unfold install_snapshot_to, install_waits. destruct (N.eqb_spec (rs_group_id s) (rc_group_id c)) as [Hg|Hg]; cbn [negb].
  2:{ intros [= <- _]. split; [done|]. by intros [? _]. }
  destruct (matrixraft_validate_snapshot_install s f) as [[]|err] eqn:Hf.
  2:{ intros [= -> _]. rewrite (validate_install_storage s f e Hf). split; [done|]. by intros (_ & ? & _). }
  destruct (rc_nodes c !! target) as [n|] eqn:Hn.
  2:{ intros [= <- _]. split; [done|]. by intros (_ & _ & ? & ? & _). }
  destruct (check_snapshot_index target _ n) as [[]|err] eqn:Hi; [done|]. intros [= -> _].
  rewrite (waits_for_apply_spec _ _ _ _ Hi). split; [naive_solver|]. intros (_ & _ & m & [= <-] & Hp). done.
Qed.

Lemma apply_pending_not_admitted target s f c n : install_admitted target s f c n -> ~ apply_pending n.
Proof. intros Ha [Hr Hp]. pose proof (ia_index _ _ _ _ _ Ha) as Hi. apply check_snapshot_index_ok in Hi. rewrite Hr in Hi. lia. Qed.

(** A snapshot whose last chunk has arrived is installed, or queued exactly
    when the replica still has entries to apply, or refused without a change. The
    code decides to queue by searching the text of the refusal; the text says the
    right thing for every node number and index. *)
Theorem completed_snapshot_installed_or_queued target s f c :
  match install_or_queue_completed_snapshot target s f c with
  | (Ok true, c') => (exists n, install_admitted target s f c n) /\ c' = after_install target s c
  | (Ok false, c') =>
      install_waits target s f c
      /\ c' = c <| rc_pending_snapshots ::= <[target := mkPendingSnapshotInstall s f]> |>
  | (Err _, c') => c' = c /\ (forall n, ~ install_admitted target s f c n) /\ ~ install_waits target s f c
  end.
Proof.
  unfold install_or_queue_completed_snapshot.
  destruct (install_snapshot_cases target s f c) as [(n & Ha & ->)|(e & Ha & He)]; [split; [by exists n|done]|].
  rewrite He. pose proof (install_refusal_waits _ _ _ _ _ _ He) as Hw.
  destruct (snapshot_install_waits_for_apply e); [split; [by apply Hw|done]|].
  split_and!; [done|done|]. intros H%Hw. done.
Qed.

(** *** Apply results *)

(** The pending snapshot once an apply result has been recorded. *)
Lemma record_apply_result_node c id i n :
  rc_nodes c !! id = Some n ->
  rc_nodes (on_node id (record_apply_result i false) c) !! id = Some (n <| nd_safety_applied_index := i |>).
Proof. intros Hn. cbn. by rewrite lookup_alter_eq, Hn. Qed.

Lemma submit_apply_result_accepted id i n c :
  rc_nodes c !! id = Some n -> (nd_safety_applied_index n <= i <= nd_applied_index n)%N ->
  submit_apply_result id i false c
  = (_ ← try_install_pending_snapshot_to id; modify refresh_cluster_indexes) (on_node id (record_apply_result i false) c).
Proof.
  intros Hn Hi. unfold submit_apply_result. rewrite Hn.
  by rewrite (proj2 (N.ltb_ge i _)), (proj2 (N.ltb_ge _ i)) by lia.
Qed.

Lemma try_install_pending_cases id s f c :
  rc_pending_snapshots c !! id = Some (mkPendingSnapshotInstall s f) ->
  (exists n, install_admitted id s f c n /\ try_install_pending_snapshot_to id c = (Ok true, after_install id s c))
  \/ (install_waits id s f c /\ try_install_pending_snapshot_to id c = (Ok false, c))
  \/ (exists e, (forall n, ~ install_admitted id s f c n) /\ ~ install_waits id s f c
       /\ try_install_pending_snapshot_to id c = (Err e, c)).
Proof.
  intros Hp. unfold try_install_pending_snapshot_to. rewrite Hp. cbn [psi_snapshot psi_fence].
  destruct (install_snapshot_cases id s f c) as [(n & Ha & ->)|(e & Ha & He)]; [left; by exists n|right].
  rewrite He. pose proof (install_refusal_waits _ _ _ _ _ _ He) as Hw.
  destruct (snapshot_install_waits_for_apply e); [left; split; [by apply Hw|done]|right].
  exists e. split_and!; [done| |done]. intros H%Hw. done.
Qed.

(** A snapshot of this group, with a valid fence, waits for the replica [n]. *)
Record queued (id : NodeId) (s : RaftSnapshot) (f : ApplySnapshotFence) (n : Node) (c : RaftCluster) : Prop := mk_queued {
  qu_pending : rc_pending_snapshots c !! id = Some (mkPendingSnapshotInstall s f);
  qu_group : rs_group_id s = rc_group_id c;
  qu_fence : matrixraft_validate_snapshot_install s f = Ok tt;
  qu_node : rc_nodes c !! id = Some n;
  qu_healthy : nd_rejected_apply_index n = None
}.

Lemma queued_after_result id s f n c i :
  queued id s f n c -> queued id s f (n <| nd_safety_applied_index := i |>) (on_node id (record_apply_result i false) c).
Proof. intros [H1 H2 H3 H4 H5]. split; [done|done|done|by apply record_apply_result_node|done]. Qed.

Lemma queued_step id s f n c :
  queued id s f n c ->
  if (nd_safety_applied_index n <? nd_applied_index n)%N || (nd_applied_index n <? nd_commit_index n)%N
  then try_install_pending_snapshot_to id c = (Ok false, c)
  else if (nd_commit_index n <? snap_index (rs_meta s))%N
  then try_install_pending_snapshot_to id c = (Ok true, after_install id s c)
  else exists e, try_install_pending_snapshot_to id c = (Err e, c).
Proof.
  intros Hq. pose proof Hq as [H1 H2 H3 H4 H5].
  assert (forall m, install_admitted id s f c m <->
    m = n /\ (nd_applied_index n <= nd_safety_applied_index n)%N /\ (nd_commit_index n <= nd_applied_index n)%N
    /\ (nd_commit_index n < snap_index (rs_meta s))%N) as Hadm.
  { intros m. split.
    - intros [_ _ Hm Hi]. rewrite H4 in Hm. injection Hm as <-. apply check_snapshot_index_ok in Hi. by rewrite H5 in Hi.
    - intros [-> Hi]. split; try done. apply check_snapshot_index_ok. by rewrite H5. }
  assert (install_waits id s f c <-> (nd_safety_applied_index n < nd_applied_index n)%N \/ (nd_applied_index n < nd_commit_index n)%N) as Hw.
  { unfold install_waits, apply_pending. rewrite H4. naive_solver. }
  destruct (try_install_pending_cases id s f c H1) as [(m & Ha & E)|[[Hp E]|(e & Hn & Hp & E)]].
  - apply Hadm in Ha as [_ Ha]. destruct (N.ltb_spec (nd_safety_applied_index n) (nd_applied_index n)); [lia|].
    destruct (N.ltb_spec (nd_applied_index n) (nd_commit_index n)); [lia|]. cbn [orb].
    destruct (N.ltb_spec (nd_commit_index n) (snap_index (rs_meta s))); [done|lia].
  - apply Hw in Hp. destruct (N.ltb_spec (nd_safety_applied_index n) (nd_applied_index n)); [done|].
    destruct (N.ltb_spec (nd_applied_index n) (nd_commit_index n)); [done|lia].
  - rewrite Hw in Hp. specialize (Hn n). rewrite Hadm in Hn.
    destruct (N.ltb_spec (nd_safety_applied_index n) (nd_applied_index n)); [tauto|].
    destruct (N.ltb_spec (nd_applied_index n) (nd_commit_index n)); [tauto|]. cbn [orb].
    destruct (N.ltb_spec (nd_commit_index n) (snap_index (rs_meta s))); [|by exists e]. exfalso. apply Hn. done.
Qed.

(** What an apply result does to a queued snapshot. While the replica has
    more to apply, the snapshot stays queued. The result that completes the work
    installs it, if it is still newer than what the replica has committed: the
    replica then holds the snapshot and the queue is empty. If commits have overtaken
    the snapshot meanwhile, the apply result is answered with an error and the
    snapshot stays queued. *)
Theorem apply_result_settles_queued_snapshot id s f n c i :
  queued id s f n c -> log_ordered (nd_log n) -> (nd_safety_applied_index n <= i <= nd_applied_index n)%N ->
  let '(result, c') := submit_apply_result id i false c in
  if (i <? nd_applied_index n)%N || (nd_applied_index n <? nd_commit_index n)%N
  then result = Ok tt /\ queued id s f (n <| nd_safety_applied_index := i |>) c'
  else if (nd_commit_index n <? snap_index (rs_meta s))%N
  then result = Ok tt /\ rc_pending_snapshots c' !! id = None
       /\ exists n', rc_nodes c' !! id = Some n' /\ nd_installed_snapshot n' = Some (rs_meta s)
  else is_ok result = false /\ queued id s f (n <| nd_safety_applied_index := i |>) c'.
Proof.
  intros Hq Ho Hi. rewrite (submit_apply_result_accepted id i n c (qu_node _ _ _ _ _ Hq) Hi).
  pose proof (queued_after_result id s f n c i Hq) as Hq1.
  pose proof (queued_step _ _ _ _ _ Hq1) as Hs.
  set (c1 := on_node id (record_apply_result i false) c) in *. clearbody c1.
  change (nd_safety_applied_index (n <| nd_safety_applied_index := i |>)) with i in Hs.
  change (nd_applied_index (n <| nd_safety_applied_index := i |>)) with (nd_applied_index n) in Hs.
  change (nd_commit_index (n <| nd_safety_applied_index := i |>)) with (nd_commit_index n) in Hs.
  destruct ((i <? nd_applied_index n)%N || (nd_applied_index n <? nd_commit_index n)%N).
  - rewrite (bind_Ok _ _ _ _ _ Hs). split; [reflexivity|]. destruct Hq1 as [Q1 Q2 Q3 Q4 Q5].
    split; [exact Q1|exact Q2|exact Q3|exact Q4|exact Q5].
  - destruct (nd_commit_index n <? snap_index (rs_meta s))%N.
    + rewrite (bind_Ok _ _ _ _ _ Hs).
      destruct (after_install_node id s c1 _ (qu_node _ _ _ _ _ Hq1) Ho) as (n' & Hn' & Hi' & _).
      destruct (after_install_frame id s c1) as (_ & Hp & _). clear Hs. revert Hp Hn'.
      generalize (after_install id s c1). intros c2 Hp Hn'.
      split; [reflexivity|]. split; [exact Hp|]. exists n'. split; [exact Hn'|exact Hi'].
    + destruct Hs as [e Hs]. rewrite (bind_Err _ _ _ _ _ Hs). split; [reflexivity|exact Hq1].
Qed.

(** ** Chunks received by the group *)

(** What an install reads of a replica. *)
Definition unmoved (n n' : Node) : Prop :=
  nd_log n' = nd_log n /\ nd_installed_snapshot n' = nd_installed_snapshot n
  /\ nd_commit_index n' = nd_commit_index n /\ nd_applied_index n' = nd_applied_index n
  /\ nd_safety_applied_index n' = nd_safety_applied_index n /\ nd_witness_ack_index n' = nd_witness_ack_index n
  /\ nd_rejected_apply_index n' = nd_rejected_apply_index n.

Lemma unmoved_check target i n n' : unmoved n n' -> check_snapshot_index target i n' = check_snapshot_index target i n.
Proof. intros (_ & _ & Hc & Ha & Hs & _ & Hr). unfold check_snapshot_index. by rewrite Hc, Ha, Hs, Hr. Qed.

(** The target [n] may receive from [leader] in [term]. *)
Record receiving (target leader : NodeId) (term : Term) (group : GroupId) (n : Node) (c : RaftCluster) : Prop := mk_receiving {
  rv_group : rc_group_id c = group;
  rv_term : (rc_current_term c <= term)%N;
  rv_node : exists n', rc_nodes c !! target = Some n' /\ unmoved n n';
  rv_leader : exists l, rc_nodes c !! leader = Some l /\ can_be_leader (nd_replica_role l) = true /\ nd_healthy l = true
}.

(** What observing a leader leaves alone. *)
Definition kept_fields (c : RaftCluster) := (rc_nodes c, rc_group_id c, rc_snapshot_installers c, rc_current_term c).

Lemma complete_transfer_kept r c : kept_fields (snd (complete_leader_transfer r c)) = kept_fields c.
Proof. unfold complete_leader_transfer. by destruct (active_leader_transfer c). Qed.

Lemma abort_transfer_kept r c : kept_fields (snd (abort_leader_transfer r c)) = kept_fields c.
Proof. unfold abort_leader_transfer. by destruct (active_leader_transfer c). Qed.

Lemma observe_snapshot_leader_spec request c :
  (rc_current_term c <= isr_term request)%N ->
  kept_fields (observe_snapshot_leader request c)
  = (follow_snapshot_leader request <$> rc_nodes c, rc_group_id c, rc_snapshot_installers c, isr_term request).
Proof.
  intros Ht. unfold observe_snapshot_leader. rewrite (proj2 (N.ltb_ge _ _) Ht).
  set (c1 := if (rc_current_term c <? isr_term request)%N then _ else c).
  assert (kept_fields c1 = (rc_nodes c, rc_group_id c, rc_snapshot_installers c, isr_term request)) as H1.
  { subst c1. destruct (N.ltb_spec (rc_current_term c) (isr_term request)); [done|]. unfold kept_fields. f_equal. lia. }
  clearbody c1. cbn zeta. set (c2 := if negb _ then _ else c1).
  assert (kept_fields c2 = kept_fields c1) as H2.
  { subst c2. destruct (negb _); [|done]. destruct (active_leader_transfer c1) as [t|]; [|done].
    destruct (_ =? _)%N; [rewrite <- (complete_transfer_kept "transferee_became_leader" c1)
                         |rewrite <- (abort_transfer_kept "snapshot_leader_changed" c1)];
      generalize (snd (complete_leader_transfer "transferee_became_leader" c1));
      generalize (snd (abort_leader_transfer "snapshot_leader_changed" c1)); by intros. }
  clearbody c2. rewrite <- H2 in H1. clear H2. unfold kept_fields in *. cbn. congruence.
Qed.

Lemma receiving_observe target leader term group n c chunk :
  receiving target leader term group n c ->
  let c' := observe_snapshot_leader (mkInstallSnapshotRequest group term leader chunk) c in
  receiving target leader term group n c' /\ rc_snapshot_installers c' = rc_snapshot_installers c.
Proof.
  intros [Hg Ht (n' & Hn & Hu) (l & Hl & Hc & Hh)]. cbn zeta.
  pose proof (observe_snapshot_leader_spec (mkInstallSnapshotRequest group term leader chunk) c Ht) as Hk.
  revert Hk. generalize (observe_snapshot_leader (mkInstallSnapshotRequest group term leader chunk) c). intros c'.
  unfold kept_fields. cbn [isr_term]. intros [= Hn' Hg' Hi Ht']. split; [|done].
  split; [congruence|lia| |]; rewrite Hn', lookup_fmap.
  - rewrite Hn. by eexists.
  - rewrite Hl. by eexists.
Qed.

Lemma receiving_installers target leader term group n c f :
  receiving target leader term group n c -> receiving target leader term group n (c <| rc_snapshot_installers ::= f |>).
Proof. intros [Hg Ht Hn Hl]. split; [exact Hg|exact Ht|exact Hn|exact Hl]. Qed.

(** The target's installer has [s], a new one when there is none. *)
Definition holds_target (target : NodeId) (declared : SnapshotMetadata) (s : SnapshotInstallState) (c : RaftCluster) : Prop :=
  default (install_state_new declared) (rc_snapshot_installers c !! target) = s /\ sis_meta s = declared.

Lemma install_chunk_offset chunk s s' : install_chunk chunk s = (Ok tt, s') -> chunk_offset chunk = sis_next_offset s.
Proof.
  unfold install_chunk. case_match; [done|]. case_match eqn:Ho; [done|]. intros _.
  apply negb_false_iff, N.eqb_eq in Ho. done.
Qed.

Lemma open_target_spec target declared s chunk s' c :
  holds_target target declared s c -> chunk_meta chunk = declared -> install_chunk chunk s = (Ok tt, s') ->
  ignored_while_receiving target chunk c = None
  /\ exists f, open_target_installer target chunk c = (Ok s, c <| rc_snapshot_installers ::= f |>).
Proof.
  intros [Hs Hd] Hm Hi. apply install_chunk_offset in Hi. unfold ignored_while_receiving, open_target_installer.
  destruct (rc_snapshot_installers c !! target) as [i|]; cbn [default from_option id] in Hs.
  - subst i. rewrite Hd, Hm, bool_decide_eq_true_2 by done. cbn [negb]. rewrite andb_false_r. split; [done|].
    exists (fun m => m). rewrite Hi. rewrite andb_negb_r. by destruct c.
  - split; [done|]. subst s. cbn in Hi. rewrite Hi, Hm. cbn [N.eqb negb]. by eexists.
Qed.

Lemma receive_chunk_step target declared s chunk s' c :
  holds_target target declared s c -> chunk_meta chunk = declared -> install_chunk chunk s = (Ok tt, s') ->
  if chunk_done chunk
  then forall snapshot, finish (rc_group_id c) s' = Ok snapshot ->
       exists f, receive_chunk target chunk c = (Ok (Some snapshot), c <| rc_snapshot_installers ::= f |>)
  else exists f, receive_chunk target chunk c = (Ok None, c <| rc_snapshot_installers ::= f |>)
       /\ holds_target target declared s' (c <| rc_snapshot_installers ::= f |>).
Proof.
  intros Hh Hm Hi. destruct (open_target_spec target declared s chunk s' c Hh Hm Hi) as (_ & f & Ho).
  destruct (install_chunk_done _ _ _ Hi) as [Hd Hm']. destruct Hh as [_ Hsm].
  unfold receive_chunk. rewrite Ho, Hi, Hd. destruct (chunk_done chunk); cbn [negb].
  - intros snapshot Hf. lazymatch goal with |- context [finish ?g s'] => change g with (rc_group_id c) end. rewrite Hf.
    by exists (fun m => delete target (f m)).
  - exists (fun m => <[target := s']> (f m)). split; [reflexivity|]. split; [|congruence].
    unfold holds_target. cbn. by rewrite lookup_insert_eq.
Qed.

Section chunks.
Context (target leader : NodeId) (term : Term) (group : GroupId) (n : Node) (declared : SnapshotMetadata).
Hypothesis fresh : check_snapshot_index target (snap_index declared) n = Ok tt.
Hypothesis newer : (snapshot_index_or_default (nd_installed_snapshot n) < snap_index declared)%N.
Hypothesis room : (snap_index declared < u64_max)%N.

Let request chunk := mkInstallSnapshotRequest group term leader chunk.

(** The guards let the chunk through to the installer. *)
Lemma chunk_reaches_installer chunk c :
  receiving target leader term group n c -> chunk_meta chunk = declared ->
  exists c1, install_snapshot_chunk_to target (request chunk) c = take_chunk target (request chunk) (next_offset_of (request chunk)) c1
    /\ receiving target leader term group n c1 /\ rc_snapshot_installers c1 = rc_snapshot_installers c.
Proof.
  intros Hr Hm. exists (observe_snapshot_leader (request chunk) c).
  destruct (receiving_observe target leader term group n c chunk Hr) as [Hr1 Hi]. split; [|done].
  destruct Hr as [Hg Ht (m & Hn & Hu) (l & Hl & Hc & Hh)].
  unfold install_snapshot_chunk_to.
  rewrite (bind_Ok _ _ _ None (observe_snapshot_leader (request chunk) c)); [reflexivity|]. unfold observe_chunk. cbn [isr_group_id].
  rewrite Hg, N.eqb_refl. cbn [negb]. unfold reject_snapshot_before_observe. cbn [isr_term isr_leader_id request].
  rewrite Hn, (proj2 (N.ltb_ge _ _) Ht), Hl, Hc, Hh. unfold stale_snapshot_chunk_response.
  destruct Hr1 as [_ _ (m1 & Hn1 & Hu1) _]. fold (request chunk). fold (request chunk) in Hn1. rewrite Hn1.
  cbn [isr_chunk request]. rewrite Hm. rewrite <- (unmoved_check target (snap_index declared) n m1 Hu1) in fresh.
  apply check_snapshot_index_ok in fresh. destruct (nd_rejected_apply_index m1) as [r|].
  - by rewrite (proj2 (N.ltb_ge _ _) fresh).
  - by rewrite (proj2 (N.leb_gt _ _)) by lia.
Qed.

Lemma take_chunk_step chunk s s' c :
  receiving target leader term group n c -> holds_target target declared s c ->
  chunk_meta chunk = declared -> install_chunk chunk s = (Ok tt, s') -> chunk_done chunk = false ->
  exists c' response, install_snapshot_chunk_to target (request chunk) c = (Ok response, c')
    /\ receiving target leader term group n c' /\ holds_target target declared s' c'.
Proof.
  intros Hr Hh Hm Hi Hd. destruct (chunk_reaches_installer chunk c Hr Hm) as (c1 & -> & Hr1 & Hin).
  assert (holds_target target declared s c1) as Hh1 by (unfold holds_target; by rewrite Hin).
  pose proof (receive_chunk_step target declared s chunk s' c1 Hh1 Hm Hi) as Hs. rewrite Hd in Hs.
  destruct Hs as (f & Hrc & Hh2). destruct (open_target_spec target declared s chunk s' c1 Hh1 Hm Hi) as [Hig _].
  exists (c1 <| rc_snapshot_installers ::= f |>). eexists.
  split; [|split; [by apply receiving_installers|exact Hh2]].
  unfold take_chunk, with_state. cbn zeta. cbn [isr_chunk request]. unfold installed_index_of.
  destruct Hr1 as [_ _ (m & Hn & Hu) _]. rewrite Hn, (proj1 (proj2 Hu)), Hm, (proj2 (N.leb_gt _ _) newer), Hig.
  rewrite (bind_Ok _ _ _ _ _ Hrc). reflexivity.
Qed.

Lemma take_chunk_last chunk s s' snapshot c :
  receiving target leader term group n c -> holds_target target declared s c ->
  chunk_meta chunk = declared -> install_chunk chunk s = (Ok tt, s') -> chunk_done chunk = true ->
  finish group s' = Ok snapshot -> rs_meta snapshot = declared -> rs_group_id snapshot = group ->
  exists c1 response m, install_snapshot_chunk_to target (request chunk) c = (Ok response, after_install target snapshot c1)
    /\ rc_nodes c1 !! target = Some m /\ unmoved n m /\ isp_reason response = "snapshot_installed"
    /\ isp_committed_index response = snap_index declared.
Proof.
  intros Hr Hh Hm Hi Hd Hf Hsm Hsg. destruct (chunk_reaches_installer chunk c Hr Hm) as (c1 & -> & Hr1 & Hin).
  assert (holds_target target declared s c1) as Hh1 by (unfold holds_target; by rewrite Hin).
  pose proof (receive_chunk_step target declared s chunk s' c1 Hh1 Hm Hi) as Hs. rewrite Hd in Hs.
  rewrite (rv_group _ _ _ _ _ _ Hr1) in Hs. destruct (Hs snapshot Hf) as (f & Hrc).
  destruct (open_target_spec target declared s chunk s' c1 Hh1 Hm Hi) as [Hig _].
  pose proof (rv_node _ _ _ _ _ _ Hr1) as (m & Hn & Hu).
  pose proof (receiving_installers target leader term group n c1 f Hr1) as Hr2.
  set (c2 := c1 <| rc_snapshot_installers ::= f |>) in *.
  assert (rc_nodes c2 !! target = Some m) as Hn2 by exact Hn.
  assert (install_admitted target snapshot (installed_snapshot_fence (snap_index (rs_meta snapshot))) c2 m) as Ha.
  { split; [by rewrite Hsg, (rv_group _ _ _ _ _ _ Hr2)| |done|by rewrite Hsm, (unmoved_check _ _ _ _ Hu)].
    unfold matrixraft_validate_snapshot_install, matrixraft_validate_snapshot_floor_log_matching. cbn.
    rewrite N.eqb_refl. cbn [negb]. rewrite Hsm, saturating_add_small by lia.
    rewrite (proj2 (N.leb_gt (snap_index declared + 1) _)), andb_false_r by lia.
    unfold snap_index. rewrite N.ltb_irrefl, !N.eqb_refl. done. }
  exists c2. eexists. exists m. split; [|split; [exact Hn2|split; [exact Hu|]]].
  - unfold take_chunk, with_state. cbn zeta. cbn [isr_chunk request]. unfold installed_index_of.
    rewrite Hn, (proj1 (proj2 Hu)), Hm, (proj2 (N.leb_gt _ _) newer), Hig, (bind_Ok _ _ _ _ _ Hrc).
    fold c2. clearbody c2. rewrite (bind_Ok _ _ _ true (after_install target snapshot c2)); [reflexivity|].
    unfold install_or_queue_completed_snapshot.
    destruct (install_snapshot_cases target snapshot (installed_snapshot_fence (snap_index (rs_meta snapshot))) c2)
      as [(m' & _ & ->)|(e & Hna & _)]; [reflexivity|]. by destruct (Hna m).
  - cbn. by rewrite Hsm.
Qed.

(** The chunks in order, each answered before the next is sent. *)
Definition send_chunks (chunks : list SnapshotChunk) : Cluster unit :=
  for_each (fun chunk => _ ← install_snapshot_chunk_to target (request chunk); mret tt) chunks.

Lemma send_chunks_install chunks s snapshot c :
  still_to_come declared group snapshot s chunks -> rs_meta snapshot = declared -> rs_group_id snapshot = group ->
  receiving target leader term group n c -> holds_target target declared s c ->
  exists c1 m, send_chunks chunks c = (Ok tt, after_install target snapshot c1)
    /\ rc_nodes c1 !! target = Some m /\ unmoved n m.
Proof.
  intros Hc Hsm Hsg. revert s c Hc. induction chunks as [|chunk chunks IH]; intros s c Hc Hr Hh; [by destruct Hc|].
  unfold send_chunks. cbn [for_each]. fold (send_chunks chunks). destruct (decide (chunks = [])) as [->|Hne].
  - destruct Hc as (_ & Hm & Hd & s' & Hf & Hfin). apply Forall_cons in Hm as [Hm _]. cbn [for_each] in Hf.
    unfold mbind, ST_bind in Hf. destruct (install_chunk chunk s) as [[[]|] s1] eqn:Hi; [|done]. cbn in Hf. injection Hf as <-.
    assert (chunk_done chunk = true) as Hdone by (rewrite (Hd 0%nat chunk eq_refl); by apply bool_decide_eq_true).
    destruct (take_chunk_last chunk s s1 snapshot c Hr Hh Hm Hi Hdone Hfin Hsm Hsg) as (c1 & response & m & E & Hn & Hu & _).
    exists c1, m. split; [|done]. rewrite (bind_Ok _ _ _ tt (after_install target snapshot c1)); [reflexivity|].
    rewrite (bind_Ok _ _ _ _ _ E). reflexivity.
  - destruct (still_to_come_cons _ _ _ _ _ _ Hc Hne) as (s1 & Hi & Hd & Hm & Hc1).
    destruct (take_chunk_step chunk s s1 c Hr Hh Hm Hi Hd) as (c' & response & E & Hr' & Hh').
    rewrite (bind_Ok _ _ _ tt c'); [by apply (IH s1 c')|]. rewrite (bind_Ok _ _ _ _ _ E). reflexivity.
Qed.
End chunks.

(** C10: Chunks sent in order install the snapshot they were cut from. A leader
    that cuts a snapshot into chunks of any size and sends them one by one to a
    replica that has nothing left to apply and is not receiving another snapshot
    meets no error, and the replica then holds that snapshot under its declared
    length, the part of its log above it, and cursors that have not moved back. *)
Theorem chunks_install_snapshot target leader term n snapshot size chunks c :
  payload_fits (rs_payload snapshot) -> u64 size -> checkpoint snapshot size = Ok chunks ->
  receiving target leader term (rc_group_id c) n c -> log_ordered (nd_log n) ->
  rc_snapshot_installers c !! target = None ->
  check_snapshot_index target (snap_index (rs_meta snapshot)) n = Ok tt ->
  (snapshot_index_or_default (nd_installed_snapshot n) < snap_index (rs_meta snapshot) < u64_max)%N ->
  exists c' n', send_chunks target leader term (rc_group_id c) chunks c = (Ok tt, c')
    /\ rc_nodes c' !! target = Some n'
    /\ nd_installed_snapshot n' = Some (declared_meta snapshot)
    /\ nd_log n' = filter (fun e => (snap_index (rs_meta snapshot) < entry_index e)%N) (nd_log n)
    /\ (snap_index (rs_meta snapshot) <= nd_commit_index n')%N /\ cursors_le n n'.
Proof.
  intros Hp Hu Hc Hr Ho Hi Hchk [Hnew Hroom].
  pose proof (checkpoint_to_come snapshot size chunks (rc_group_id c) Hp Hu Hc) as Hcome.
  assert (holds_target target (declared_meta snapshot) (install_state_new (declared_meta snapshot)) c) as Hh
    by (unfold holds_target; by rewrite Hi).
  destruct (send_chunks_install target leader term (rc_group_id c) n (declared_meta snapshot) Hchk Hnew Hroom chunks _ _ c
              Hcome eq_refl eq_refl Hr Hh) as (c1 & m & Hsend & Hm & Hun).
  destruct Hun as (Hl & Hs & Hcm & Ha & Hsa & Hw & Hrj).
  assert (log_ordered (nd_log m)) as Hom by (by rewrite Hl).
  destruct (after_install_node target (mkRaftSnapshot (rc_group_id c) (declared_meta snapshot) (rs_payload snapshot)) c1 m Hm Hom) as (n' & Hn' & Hi' & Hl' & Hci & Hle).
  eexists _, n'. split; [exact Hsend|]. split; [exact Hn'|]. split; [exact Hi'|].
  split; [rewrite Hl'; by rewrite Hl|]. split; [exact Hci|]. unfold cursors_le in *. lia.
Qed.

(** Node 2 of the sample group receives from node 1 in term 5. *)
Definition sample_target : Node := default (node_new 2 Voter false) (rc_nodes sample_group !! 2%N).

Lemma sample_receiving : receiving 2 1 5 (rc_group_id sample_group) sample_target sample_group.
Proof.
  split; [reflexivity|vm_compute; discriminate| |].
  - exists sample_target. split; [vm_compute; reflexivity|]. by split_and!.
  - exists (default (node_new 1 Voter false) (rc_nodes sample_group !! 1%N)). split_and!; vm_compute; reflexivity.
Qed.

Lemma chunks_install_snapshot_witness :
  exists chunks c' n', checkpoint sample_snapshot 3 = Ok chunks /\ length chunks = 3%nat
    /\ send_chunks 2 1 5 (rc_group_id sample_group) chunks sample_group = (Ok tt, c')
    /\ rc_nodes c' !! 2%N = Some n' /\ nd_installed_snapshot n' = Some (declared_meta sample_snapshot).
Proof.
  destruct (checkpoint sample_snapshot 3) as [chunks|] eqn:Hc; [|vm_compute in Hc; discriminate Hc].
  assert (length chunks = 3%nat) as Hl by (revert Hc; vm_compute; intros [= <-]; reflexivity).
  destruct (chunks_install_snapshot 2 1 5 sample_target sample_snapshot 3 chunks sample_group)
    as (c' & n' & Hs & Hn & Hi & _);
    [vm_compute; discriminate|vm_compute; discriminate|exact Hc|exact sample_receiving
    |replace (nd_log sample_target) with (@nil LogEntry) by (vm_compute; reflexivity); constructor
    |vm_compute; reflexivity|vm_compute; reflexivity|split; vm_compute; reflexivity|].
  exists chunks, c', n'. exact (conj eq_refl (conj Hl (conj Hs (conj Hn Hi)))).
Defined.

Lemma snapshot_install_effect_witness :
  exists c' n', install_snapshot_to 2 sample_snapshot (installed_snapshot_fence 9) sample_group = (Ok tt, c')
    /\ rc_nodes c' !! 2%N = Some n' /\ nd_installed_snapshot n' = Some (rs_meta sample_snapshot)
    /\ rc_nodes c' !! 4%N = None.
Proof.
  destruct (install_snapshot_to 2 sample_snapshot (installed_snapshot_fence 9) sample_group) as [[[]|e] c'] eqn:E;
    [|apply (f_equal fst) in E; vm_compute in E; discriminate E].
  pose proof (snapshot_install_effect 2 sample_snapshot (installed_snapshot_fence 9) sample_group) as H. rewrite E in H.
  destruct H as (n & n' & _ & Hn' & Hi & _ & _ & _ & _ & _ & Hr).
  - intros n. replace (rc_nodes sample_group !! 2%N) with (Some sample_target) by (vm_compute; reflexivity).
    intros [= <-]. replace (nd_log sample_target) with (@nil LogEntry) by (vm_compute; reflexivity). constructor.
  - apply (bool_decide_unpack _). vm_compute. exact I.
  - constructor.
  - exists c', n'. split; [reflexivity|]. split; [exact Hn'|]. split; [exact Hi|]. specialize (Hr 4%N).
    replace (member_role 2 _ _ sample_group 4) with (@None (NodeId * ReplicaRole)) in Hr by (vm_compute; reflexivity).
    by apply fmap_None in Hr.
Defined.

(** Node 2 has committed through [commit] and handed it to the state machine, and
    the sample snapshot, of index 9, waits for it. *)
Definition sample_waiting (commit : LogIndex) : RaftCluster :=
  on_node 2 (fun n => n <| nd_commit_index := commit |> <| nd_applied_index := commit |>)
    (snd (install_or_queue_completed_snapshot 2 sample_snapshot (installed_snapshot_fence 9)
            (on_node 2 (fun n => n <| nd_commit_index := 3%N |> <| nd_applied_index := 3%N |>) sample_group))).

Definition sample_waiting_node (commit : LogIndex) : Node :=
  sample_target <| nd_commit_index := commit |> <| nd_applied_index := commit |>.

Lemma sample_queued commit :
  queued 2 sample_snapshot (installed_snapshot_fence 9) (sample_waiting_node commit) (sample_waiting commit).
Proof.
  split; [vm_compute; reflexivity|vm_compute; reflexivity|vm_compute; reflexivity| |vm_compute; reflexivity].
  unfold sample_waiting, sample_waiting_node. cbn [rc_nodes on_node].
  set (c := snd _). assert (rc_nodes c !! 2%N = Some (sample_target <| nd_commit_index := 3%N |> <| nd_applied_index := 3%N |>)) as Hc
    by (subst c; vm_compute; reflexivity).
  clearbody c. unfold on_node. cbn. by rewrite lookup_alter_eq, Hc.
Qed.

Lemma apply_result_settles_queued_snapshot_witness :
  rc_pending_snapshots (snd (submit_apply_result 2 3 false (sample_waiting 3))) !! 2%N = None
  /\ is_ok (fst (submit_apply_result 2 12 false (sample_waiting 12))) = false.
Proof.
  assert (log_ordered (nd_log (sample_waiting_node 3))) as Ho3
    by (replace (nd_log (sample_waiting_node 3)) with (@nil LogEntry) by (vm_compute; reflexivity); constructor).
  pose proof (apply_result_settles_queued_snapshot 2 _ _ _ _ 3 (sample_queued 3) Ho3) as H3.
  pose proof (apply_result_settles_queued_snapshot 2 _ _ _ _ 12 (sample_queued 12) Ho3) as H12.
  destruct (submit_apply_result 2 3 false (sample_waiting 3)) as [r3 c3].
  destruct (submit_apply_result 2 12 false (sample_waiting 12)) as [r12 c12].
  split.
  - apply H3. split; vm_compute; discriminate.
  - apply H12. split; vm_compute; discriminate.
Defined.

(** ** Compaction under a storage fence *)

(** What the leader may drop: what it has durably applied and every healthy peer holds.
    A peer that is not healthy is not counted. *)
Definition held_by_healthy_peers (c : RaftCluster) (n : Node) (i : LogIndex) : Prop :=
  rc_leader_id c = Some (nd_id n) -> nd_raft_role n = Leader ->
  (i <= nd_safety_applied_index n)%N
  /\ forall k peer, rc_nodes c !! k = Some peer -> k <> nd_id n -> nd_healthy peer = true -> (i <= match_index peer)%N.

Lemma foldl_min_spec {A} (P : A -> bool) (f : A -> N) l init :
  let m := foldl (fun acc x => if P x then N.min acc (f x) else acc) init l in
  (m <= init)%N /\ forall x, x ∈ l -> P x = true -> (m <= f x)%N.
Proof.
  cbn zeta. revert init. induction l as [|y l IH]; intros init; cbn [foldl]; [split; [lia|set_solver]|].
  destruct (IH (if P y then N.min init (f y) else init)) as [H1 H2].
  split; [destruct (P y); lia|]. intros x [->|Hx]%elem_of_cons HP; [rewrite HP in H1; rewrite HP; lia|by apply H2].
Qed.

Lemma min_replicated_index_spec c n limit :
  nodes_keyed c -> rc_nodes c !! nd_id n = Some n -> nd_raft_role n = Leader ->
  min_replicated_index (nd_id n) c = Ok limit ->
  (limit <= nd_safety_applied_index n)%N
  /\ forall k peer, rc_nodes c !! k = Some peer -> k <> nd_id n -> nd_healthy peer = true -> (limit <= match_index peer)%N.
Proof.
  intros Hkey Hn Hr. unfold min_replicated_index, get_node. rewrite Hn. cbn [ok_or].
  rewrite bool_decide_eq_true_2 by done. intros [= <-]. destruct (foldl_min_spec (fun peer => negb (nd_id peer =? nd_id n)%N && nd_healthy peer) match_index
    (bt_values (rc_nodes c)) (nd_safety_applied_index n)) as [H1 H2]. split; [exact H1|]. intros k peer Hk Hne Hh.
  apply H2; [apply elem_of_bt_values; by exists k|]. rewrite (Hkey k peer Hk), (proj2 (N.eqb_neq k (nd_id n)) Hne). done.
Qed.

Lemma compact_log_through_keeps i n e :
  log_ordered (nd_log n) -> e ∈ nd_log n ->
  e ∈ nd_log (snd (compact_log_through i n)) \/ (entry_index e <= i)%N /\ (entry_index e <= compaction_floor n)%N.
Proof.
  intros Ho He. unfold compact_log_through. fold (compaction_floor n).
  destruct (discard_log_through_spec (N.min i (compaction_floor n)) n Ho) as [Hl _].
  destruct (discard_log_through _ n) as [cut n']. cbn [snd] in *.
  destruct (decide (N.min i (compaction_floor n) < entry_index e)%N); [left|right; lia].
  rewrite Hl. by apply list_elem_of_filter.
Qed.

Lemma compact_logs_through_keeps i c k n :
  nodes_keyed c -> rc_nodes c !! k = Some n -> log_ordered (nd_log n) ->
  exists n', rc_nodes (snd (compact_logs_through i c)) !! k = Some n'
  /\ forall e, e ∈ nd_log n ->
     e ∈ nd_log n'
     \/ (entry_index e <= i)%N /\ (entry_index e <= compaction_floor n)%N /\ held_by_healthy_peers c n (entry_index e).
Proof.
  intros Hkey Hn Ho. unfold compact_logs_through, compact_logs_through_with_leader_limit. cbn [snd].
  eexists. split; [cbn; by rewrite lookup_fmap, Hn|]. cbn beta. intros e He.
  destruct (compact_log_through_keeps
    (if bool_decide (rc_leader_id c = Some (nd_id n))
     then match leader_id ← rc_leader_id c; match min_replicated_index leader_id c with Ok j => Some j | Err _ => None end with
          | Some limit => N.min i limit | None => i end else i) n e Ho He) as [|[Hi Hf]]; [by left|right].
  unfold held_by_healthy_peers. case_bool_decide as Hl; [|split_and!; [done|done|done]].
  rewrite Hl in Hi. cbn in Hi. assert (rc_nodes c !! nd_id n = Some n) as Hn' by (by rewrite (Hkey k n Hn)).
  destruct (min_replicated_index (nd_id n) c) as [j|] eqn:Hj;
    [|unfold min_replicated_index, get_node in Hj; by rewrite Hn' in Hj].
  split_and!; [lia|lia|]. intros _ Hr. destruct (min_replicated_index_spec c n j Hkey Hn' Hr Hj) as [H1 H2].
  split; [lia|]. intros k' peer Hk' Hne Hh. specialize (H2 k' peer Hk' Hne Hh). lia.
Qed.



(** Node 3 is partitioned while the leader's log holds three entries that the other
    nodes have applied: the compaction drops what it lacks. *)
Definition partitioned_group : RaftCluster :=
  let entry i := mkLogEntry (mkLogId 1 i) [] true in
  let c := on_nodes (fun n => n <| nd_log := [entry 1; entry 2; entry 3]%N |> <| nd_commit_index := 3%N |>
             <| nd_applied_index := 3%N |> <| nd_safety_applied_index := 3%N |> <| nd_witness_ack_index := 3%N |>) applied_leader in
  on_node 3 (fun n => n <| nd_log := [entry 1%N] |> <| nd_commit_index := 1%N |> <| nd_applied_index := 1%N |>
               <| nd_safety_applied_index := 1%N |> <| nd_healthy := false |>) c.

Example compaction_leaves_partitioned_peer_behind :
  let '(report, c') := compact_logs_with_storage_fence 3 (mkStorageApplyFence 7 3 3 3 3 3 0 0) partitioned_group in
  wcr_fence_valid report = true /\ match_index_of 3 partitioned_group = 1%N
  /\ (fun n => entry_index <$> nd_log n) <$> rc_nodes c' !! 1%N = Some [].
Proof. vm_compute. auto. Qed.

(** ** Publishing a snapshot *)

(** The peer waits for a snapshot that the one at [i] is recent enough to be. *)
Definition waits_for_snapshot (i : LogIndex) (p : ReplicationPipeline) : bool :=
  let status := rp_status p in
  (0 <? pp_required_snapshot_index status)%N && (pp_required_snapshot_index status <=? i)%N
  && negb (pp_snapshot_sending status) && negb (pp_snapshot_installing status).

Definition published (leader_id : NodeId) (snapshot_id : string) (i : LogIndex) (peer_id : NodeId)
    (p : ReplicationPipeline) : ReplicationPipeline :=
  if negb (peer_id =? leader_id)%N && waits_for_snapshot i p
  then snd (begin_snapshot_send snapshot_id i 1 p) else p.

Lemma begin_send_waiting i id p :
  waits_for_snapshot i p = true -> begin_snapshot_send id i 1 p = (Ok tt, snd (begin_snapshot_send id i 1 p)).
Proof.
  unfold waits_for_snapshot, begin_snapshot_send. rewrite !andb_true_iff, !negb_true_iff. intros [[_ H1] H2].
  by rewrite H1, H2.
Qed.

Lemma publish_snapshot_to_spec leader_id id i peer_id c :
  exists c', publish_snapshot_to leader_id id i peer_id c = (Ok tt, c')
  /\ rc_nodes c' = rc_nodes c
  /\ forall k, rc_peer_pipelines c' !! k
     = if bool_decide (k = peer_id) then published leader_id id i k <$> rc_peer_pipelines c !! k
       else rc_peer_pipelines c !! k.
Proof.
  unfold publish_snapshot_to, pipeline_status_is, published. fold (waits_for_snapshot i).
  destruct (N.eqb_spec peer_id leader_id) as [->|Hl].
  { exists c. split_and!; [done|done|]. intros k. case_bool_decide; [subst k|done].
    rewrite N.eqb_refl. cbn. by destruct (rc_peer_pipelines c !! leader_id). }
  destruct (rc_peer_pipelines c !! peer_id) as [p|] eqn:Hp.
  2:{ exists c. split_and!; [done|done|]. intros k. case_bool_decide; [subst k; by rewrite Hp|done]. }
  change (_ && _ && _ && _) with (waits_for_snapshot i p). destruct (waits_for_snapshot i p) eqn:Hw.
  - eexists. split; [unfold peer_op, pipeline_op; rewrite Hp, (begin_send_waiting i id p Hw); reflexivity|].
    split; [done|]. intros k. cbn. case_bool_decide as Hk; [subst k|by rewrite lookup_insert_ne by congruence].
    rewrite lookup_insert_eq, Hp. cbn. rewrite (proj2 (N.eqb_neq _ _) Hl), Hw. done.
  - exists c. split_and!; [done|done|]. intros k. case_bool_decide; [subst k|done].
    rewrite Hp. cbn. by rewrite Hw, andb_false_r.
Qed.

Lemma publish_all_spec leader_id id i keys c :
  NoDup keys ->
  exists c', for_each (publish_snapshot_to leader_id id i) keys c = (Ok tt, c')
  /\ rc_nodes c' = rc_nodes c
  /\ forall k, rc_peer_pipelines c' !! k
     = if bool_decide (k ∈ keys) then published leader_id id i k <$> rc_peer_pipelines c !! k
       else rc_peer_pipelines c !! k.
Proof.
  revert c. induction keys as [|x keys IH]; intros c Hnd.
  { exists c. split_and!; [done|done|]. intros k. by rewrite bool_decide_eq_false_2 by apply not_elem_of_nil. }
  apply NoDup_cons in Hnd as [Hx Hnd]. destruct (publish_snapshot_to_spec leader_id id i x c) as (c1 & E & Hn1 & Hp1).
  destruct (IH c1 Hnd) as (c2 & E2 & Hn2 & Hp2). exists c2. cbn [for_each]. rewrite (bind_Ok _ _ _ _ _ E).
  split_and!; [done|congruence|]. intros k. rewrite Hp2, Hp1.
  case_bool_decide as Hk; case_bool_decide as Hkx; case_bool_decide as Hc; try done; try set_solver.
Qed.

(** A ready snapshot is sent to exactly the peers that wait for one. When the
    snapshot the leader asked for is ready, the trigger is cleared, the leader keeps
    the newer of this snapshot and its own, every other peer that waits for a
    snapshot this one is recent enough for, and is not already sending or installing,
    begins a transfer of it, and no other peer's pipeline changes; the operation
    does not fail. *)
Theorem ready_snapshot_reaches_waiting_peers c trigger leader_id leader :
  rc_snapshot_trigger c = Some trigger -> rc_leader_id c = Some leader_id -> rc_nodes c !! leader_id = Some leader ->
  let meta := sts_meta trigger in
  exists c' leader', handle_snapshot_ready (snap_id meta) true c = (Ok tt, c')
  /\ (forall k, rc_peer_pipelines c' !! k
        = published leader_id (snap_id meta) (snap_index meta) k <$> rc_peer_pipelines c !! k)
  /\ rc_nodes c' !! leader_id = Some leader'
  /\ snapshot_index_or_default (nd_installed_snapshot leader')
     = N.max (snapshot_index_or_default (nd_installed_snapshot leader)) (snap_index meta).
Proof.
  intros Ht Hl Hn. cbn zeta. unfold handle_snapshot_ready. rewrite Ht, bool_decide_eq_true_2 by done. cbn [negb].
  unfold publish_ready_snapshot_to_waiting_peers. change (rc_leader_id _) with (rc_leader_id c) at 1. rewrite Hl.
  set (c1 := on_node leader_id _ _).
  destruct (publish_all_spec leader_id (snap_id (sts_meta trigger)) (snap_index (sts_meta trigger))
              (bt_keys (rc_peer_pipelines c1)) c1 (NoDup_bt_keys _)) as (c2 & E & Hn2 & Hp2).
  eexists c2, _. split; [exact E|]. split_and!.
  - intros k. rewrite Hp2. change (rc_peer_pipelines c1) with (rc_peer_pipelines c).
    case_bool_decide as Hk; [done|]. rewrite elem_of_bt_keys in Hk. by apply eq_None_not_Some in Hk as ->.
  - rewrite Hn2. subst c1. cbn. rewrite lookup_alter_eq, Hn. reflexivity.
  - cbn beta. destruct (N.leb_spec (snapshot_index_or_default (nd_installed_snapshot leader)) (snap_index (sts_meta trigger)));
      cbn; lia.
Qed.

(** The leader has asked for a snapshot at index 4, and node 3 needs one at 2. *)
Definition sample_publishing : RaftCluster :=
  on_pipeline 3 (fun p => p <| rp_status ::= (fun st => st <| pp_required_snapshot_index := 2%N |>) |>)
    (snd (trigger_snapshot (applied_leader <| rc_commit_index := 4%N |>))).

Lemma ready_snapshot_reaches_waiting_peers_witness :
  exists c', handle_snapshot_ready "7-4" true sample_publishing = (Ok tt, c')
    /\ (fun p => pp_snapshot_sending (rp_status p)) <$> rc_peer_pipelines c' !! 3%N = Some true
    /\ (fun p => pp_snapshot_sending (rp_status p)) <$> rc_peer_pipelines c' !! 2%N = Some false.
Proof.
  destruct (rc_snapshot_trigger sample_publishing) as [trigger|] eqn:Ht; [|vm_compute in Ht; discriminate Ht].
  assert (snap_id (sts_meta trigger) = "7-4" /\ snap_index (sts_meta trigger) = 4%N) as [Hid Hix]
    by (revert Ht; vm_compute; intros [= <-]; split; reflexivity).
  destruct (rc_nodes sample_publishing !! 1%N) as [leader|] eqn:Hn; [|vm_compute in Hn; discriminate Hn].
  destruct (ready_snapshot_reaches_waiting_peers sample_publishing trigger 1 leader Ht eq_refl Hn) as (c' & l & E & Hp & _).
  rewrite Hid, Hix in *. exists c'. split; [exact E|]. split; rewrite Hp; vm_compute; reflexivity.
Defined.
