(* ===== verification/Tenure.v ===== *)
(** * Reads during a leader's tenure

    A leader may serve a read only past the last index of the terms before its own
    ([read_index_at] of [Reads.v]); the group keeps that index in
    [last_index_before_current_term] ([src/facade/cluster_runtime.rs]). The run here is
    what a leader does and receives while it is in office: proposals, append answers,
    catch-ups, heartbeats, votes and campaigns, apply results (with the snapshot installs
    they release), compaction, liveness and lease ticks. None of them moves the index
    within the term, so that a read served at any point of the run has seen what the
    earlier terms can have committed.

    An append that truncates a follower is not among them: [truncation_lowers_read_floor]
    shows that it lowers the index of the whole group. *)

From stdpp Require Import base strings pretty numbers sorting gmap fin_maps sets list.
From S2P Require Import Prelude Types Bytes Slice Membership Node Wal WalSegments WalBinary Config Pipeline Cluster Election Append GroupInv Replication ReplicationSafety Steady Votes Reads Reconfig SnapshotTransfer Snapshots.

(** The index below which reads wait changes only with the term. *)
Definition floor_kept (c c' : RaftCluster) : Prop :=
  (rc_current_term c <= rc_current_term c')%N
  /\ (rc_current_term c' = rc_current_term c ->
      rc_last_index_before_current_term c' = rc_last_index_before_current_term c).

#[export] Instance floor_kept_preorder : PreOrder floor_kept.
Proof.
  split; [by intros c|]. intros a b c [A1 A2] [B1 B2]. split; [lia|]. intros H. rewrite B2, A2; [done|lia|lia].
Qed.

Lemma steady_floor c c' : steady c c' -> floor_kept c c'.
Proof. intros [H1 H2 _ _ _ _]. by split. Qed.

Lemma same_floor c c' :
  rc_current_term c' = rc_current_term c ->
  rc_last_index_before_current_term c' = rc_last_index_before_current_term c -> floor_kept c c'.
Proof. intros H1 H2. split; [lia|done]. Qed.

Lemma transits_steady_floor {A} (m : Cluster A) : transits steady m -> transits floor_kept m.
Proof. intros H c. apply steady_floor, H. Qed.

Lemma foldl_floor {A} (f : RaftCluster -> A -> RaftCluster) l c :
  (forall c x, floor_kept c (f c x)) -> floor_kept c (foldl f c l).
Proof. intros Hf. by apply (foldl_keeps floor_kept). Qed.

(** ** Apply results and the snapshots they release *)

Lemma forget_node_floor k reason c : floor_kept c (forget_node k reason c).
Proof. unfold forget_node, abort_leader_transfer. cbn zeta. repeat (case_match; try by apply same_floor). Qed.

Lemma refresh_replication_pipelines_floor c : floor_kept c (refresh_replication_pipelines c).
Proof.
  unfold refresh_replication_pipelines. cbn zeta. set (c1 := foldl _ c _).
  assert (floor_kept c c1) as H1 by (apply foldl_floor; intros c2 [k n]; case_match; by apply same_floor). clearbody c1.
  etrans; [exact H1|]. destruct (rc_leader_id c1); by apply same_floor.
Qed.

Lemma reset_membership_floor t ids members c : floor_kept c (reset_membership_from_snapshot t ids members c).
Proof.
  unfold reset_membership_from_snapshot. cbn zeta. set (c1 := settle_members t ids members c).
  assert (floor_kept c c1) as H1.
  { subst c1. unfold settle_members. cbn zeta. etrans; [|apply foldl_floor; by intros; apply same_floor].
    etrans; [|apply foldl_floor; by intros; apply same_floor]. apply foldl_floor. intros c2 k. unfold remove_unlisted.
    cbn zeta. etrans; [apply (forget_node_floor k "snapshot_membership_removed_transferee")|].
    generalize (forget_node k "snapshot_membership_removed_transferee" c2). intros c3. case_bool_decide; by apply same_floor. }
  clearbody c1. etrans; [exact H1|]. etrans; [apply (same_floor _ (reset_leader_lease_epoch c1)); reflexivity|].
  generalize (reset_leader_lease_epoch c1). intros c2. etrans; [apply steady_floor, refresh_commit_index_steady|].
  etrans; [apply refresh_replication_pipelines_floor|]. generalize (refresh_replication_pipelines (refresh_commit_index c2)).
  intros c3. destruct (rc_leader_id c3); [|reflexivity]. by apply same_floor.
Qed.

Lemma install_snapshot_floor t s f : transits floor_kept (install_snapshot_to t s f).
Proof.
  intros c. unfold install_snapshot_to. destruct (negb _); [reflexivity|].
  destruct (matrixraft_validate_snapshot_install s f); [|reflexivity]. destruct (rc_nodes c !! t); [|reflexivity]. cbn zeta.
  destruct (check_snapshot_index t _ _); [|reflexivity]. cbn [snd].
  set (c1 := clear_reorder_queue_for t _). assert (floor_kept c c1) as H1 by (by apply same_floor). clearbody c1.
  etrans; [exact H1|]. etrans; [apply (reset_membership_floor t (snap_membership (rs_meta s)) (snap_members (rs_meta s)))|].
  generalize (reset_membership_from_snapshot t (snap_membership (rs_meta s)) (snap_members (rs_meta s)) c1). intros c2.
  apply same_floor; cbn; unfold mark_snapshot_membership_floor_applied; cbn; by case_match.
Qed.

Lemma try_install_pending_floor t : transits floor_kept (try_install_pending_snapshot_to t).
Proof.
  intros c. unfold try_install_pending_snapshot_to. destruct (rc_pending_snapshots c !! t) as [p|]; [|reflexivity].
  pose proof (install_snapshot_floor t (psi_snapshot p) (psi_fence p) c) as H1.
  destruct (install_snapshot_to t _ _ c) as [[] c1]; [exact H1|]. case_match; exact H1.
Qed.

Lemma leave_after_rejection_floor k c : floor_kept c (leave_after_rejection k c).
Proof.
  unfold leave_after_rejection. cbn zeta. set (c1 := on_node k _ c).
  assert (floor_kept c c1) as H1 by (by apply same_floor). clearbody c1. etrans; [exact H1|].
  set (m := match closest_follower c with Some _ => _ | None => _ end).
  assert (floor_kept c1 m.2) as H2.
  { subst m. destruct (closest_follower c) as [t|]; [|reflexivity]. pose proof (campaign_steady t true c1) as H2.
    destruct (campaign t true c1). by apply steady_floor. }
  clearbody m. destruct m as [b c2]. etrans; [exact H2|]. cbn [snd]. case_match; [by apply same_floor|reflexivity].
Qed.

Lemma submit_apply_result_floor k i rejected : transits floor_kept (submit_apply_result k i rejected).
Proof.
  intros c. unfold submit_apply_result. destruct (rc_nodes c !! k) as [n|]; [|reflexivity].
  destruct (_ || _); [reflexivity|]. cbn zeta. set (c1 := on_node k _ c).
  assert (floor_kept c c1) as H1 by (by apply same_floor). clearbody c1. etrans; [exact H1|].
  set (c2 := if _ && _ then leave_after_rejection k c1 else c1).
  assert (floor_kept c1 c2) as H2 by (subst c2; destruct (_ && _); [apply leave_after_rejection_floor|reflexivity]).
  clearbody c2. etrans; [exact H2|]. apply (bind_step floor_kept); [apply try_install_pending_floor|].
  intros _ c3. apply steady_floor, refresh_cluster_indexes_steady.
Qed.

(** ** Liveness and leases *)

Lemma set_node_healthy_floor k h : transits floor_kept (set_node_healthy k h).
Proof. intros c. unfold set_node_healthy. cbn zeta. repeat (case_match; try by apply same_floor). Qed.

Lemma tick_peer_liveness_floor ms c : floor_kept c (tick_peer_liveness ms c).2.
Proof.
  unfold tick_peer_liveness. destruct (rc_leader_id c) as [l|]; [|reflexivity].
  generalize (bt_entries (rc_nodes c)) (peer_offline_timeout_ms c). intros entries timeout.
  change c with (([] : list NodeId, c).2) at 1. generalize ([] : list NodeId, c).
  induction entries as [|[k n] entries IH]; intros acc; [reflexivity|]. cbn [foldl].
  etrans; [|apply IH]. unfold tick_node_liveness. destruct acc as [out c1]. cbn [snd]. repeat (case_match; try by apply same_floor).
Qed.

Lemma tick_leader_lease_floor ms c : floor_kept c (tick_leader_lease ms c).2.
Proof.
  unfold tick_leader_lease. destruct (negb _); [by apply same_floor|]. cbn [snd]. cbn zeta.
  etrans; [|apply steady_floor, refresh_policy_steady]. by apply same_floor.
Qed.

Lemma network_error_floor id : transits floor_kept (record_network_error_for id).
Proof.
  intros c. unfold record_network_error_for. pose proof (pipeline_op_steady id record_network_error c) as H1%steady_floor.
  destruct (pipeline_op id record_network_error c) as [[probe|] c1]; [|done]. cbn [snd] in *.
  destruct (_ && _); [|done]. etrans; [exact H1|]. apply (transits_drop floor_kept), transits_steady_floor, catch_up_steady.
Qed.

(** ** The run *)

Inductive TenureOp : Type :=
| TPropose (payload : Payload) (options : ProposeOptions)
| TAppendAnswer (local_node_id peer_id : NodeId) (response : AppendEntriesResponse)
| TCatchUp (peer_id : NodeId)
| TNetworkError (peer_id : NodeId)
| THeartbeat
| TElection (op : ElectionOp)
| TApplied (node_id : NodeId) (applied_index : LogIndex) (rejected : bool)
| TCompact (log_index : LogIndex)
| THealth (node_id : NodeId) (healthy : bool)
| TLivenessTick (elapsed_ms : N)
| TLeaseTick (elapsed_ms : N).

Definition tenure_op (c : RaftCluster) (op : TenureOp) : RaftCluster :=
  match op with
  | TPropose payload options => snd (propose_with_options payload options c)
  | TAppendAnswer local peer_id response => snd (handle_append_entries_response local peer_id response c)
  | TCatchUp peer_id => snd (catch_up_peer peer_id c)
  | TNetworkError peer_id => snd (record_network_error_for peer_id c)
  | THeartbeat => snd (broadcast_heartbeat c)
  | TElection op => run_election_op c op
  | TApplied node_id applied_index rejected => snd (submit_apply_result node_id applied_index rejected c)
  | TCompact log_index => snd (compact_logs_through log_index c)
  | THealth node_id healthy => snd (set_node_healthy node_id healthy c)
  | TLivenessTick elapsed_ms => snd (tick_peer_liveness elapsed_ms c)
  | TLeaseTick elapsed_ms => snd (tick_leader_lease elapsed_ms c)
  end.
Definition run_tenure (ops : list TenureOp) (c : RaftCluster) : RaftCluster := foldl tenure_op c ops.

Lemma tenure_op_floor c op : floor_kept c (tenure_op c op).
Proof.
  destruct op; cbn [tenure_op].
  - apply steady_floor, propose_steady.
  - apply steady_floor, handle_response_steady.
  - apply steady_floor, catch_up_steady.
  - apply network_error_floor.
  - apply steady_floor, broadcast_heartbeat_steady.
  - apply steady_floor, run_election_op_steady.
  - apply submit_apply_result_floor.
  - apply steady_floor, compact_logs_steady.
  - apply set_node_healthy_floor.
  - apply tick_peer_liveness_floor.
  - apply tick_leader_lease_floor.
Qed.

Lemma run_tenure_floor ops c : floor_kept c (run_tenure ops c).
Proof. apply foldl_floor, tenure_op_floor. Qed.

(** ** Taking office *)

(** A candidate comes into office by a campaign, or by an answer to its vote requests
    that makes it the leader of the term the votes were cast in. *)
Inductive comes_into_office (k : NodeId) (c c1 : RaftCluster) : Prop :=
| by_campaign forced : campaign k forced c = (Ok tt, c1) -> already_leading k c = false -> comes_into_office k c c1
| by_votes peer response :
    handle_vote_response_from k peer response false c = (Ok tt, c1) ->
    rc_leader_id c <> Some k -> rc_leader_id c1 = Some k -> rc_current_term c1 = rc_current_term c ->
    comes_into_office k c c1.

Lemma votes_set_floor k p r c c1 :
  handle_vote_response_from k p r false c = (Ok tt, c1) ->
  rc_leader_id c <> Some k -> rc_leader_id c1 = Some k -> rc_current_term c1 = rc_current_term c ->
  rc_last_index_before_current_term c1 = rc_last_log_index c.
Proof.
  intros Hv Hne Hl Ht. pose proof (handle_answered k (Some p) r false c) as Ha. unfold handle_vote_response_from in Hv.
  rewrite Hv in Ha. cbn [snd] in Ha.
  assert (forall q g, rc_leader_id (count_response k q g false c) = rc_leader_id c
    /\ rc_last_log_index (count_response k q g false c) = rc_last_log_index c
    /\ rc_current_term (count_response k q g false c) = rc_current_term c) as Hcount.
  { intros q g. unfold count_response, discard_election_responses_from_an_earlier_term. by destruct (_ =? _)%N. }
  destruct Ha as [|t _|q g _|q g _|q g _ ? _ _|q g c1 _ _ _ _ _ Hst]; [done|done| |done|done|].
  - by rewrite (proj1 (Hcount q g)) in Hl.
  - destruct (Hcount q g) as (_ & Hi & Hct). destruct (lead_current_term_facts k (count_response k q g false c)) as (_ & Hlt & _).
    rewrite (st_floor _ _ Hst) by congruence. rewrite <- Hi. generalize (count_response k q g false c). intros c2.
    unfold lead_current_term. rewrite reset_pipelines_only. reflexivity.
Qed.

Lemma office_sets_floor k c c1 :
  nodes_keyed c -> comes_into_office k c c1 -> rc_last_index_before_current_term c1 = rc_last_log_index c.
Proof.
  intros Hkey [forced Hc Hal|p r Hv H1 H2 H3]; [|by eapply votes_set_floor].
  destruct (campaign_office k forced c c1 Hkey Hc) as [[? _]|Hot]; [congruence|]. apply (ot_before _ _ _ _ Hot).
Qed.

(** C25: a served read has seen the earlier terms. A candidate takes office, by a
    campaign or by the answers to its vote requests, and then come any proposals,
    append answers, catch-ups, heartbeats, votes, campaigns, apply results, compactions
    and ticks. As long as the term is the one it took office in, a read that is served
    is at an index the reading node has durably applied and that no log of any node
    passed when the office was taken: whatever an earlier leader can have committed is in
    the state the read observes. Append requests to followers are not among the steps:
    [truncation_lowers_read_floor] shows one that breaks this. *)
Theorem served_read_sees_earlier_terms k c c1 ops request resp :
  nodes_keyed c -> indexes_known c -> u64 (rc_last_log_index c) -> comes_into_office k c c1 ->
  let c2 := run_tenure ops c1 in
  rc_current_term c2 = rc_current_term c1 -> read_index request c2 = Ok resp -> rresp_safe resp = true ->
  (exists n2, rc_nodes c2 !! rir_requester_id request = Some n2
              /\ (rresp_read_index resp <= nd_safety_applied_index n2)%N)
  /\ forall id n, rc_nodes c !! id = Some n -> (match_index n <= rresp_read_index resp)%N.
Proof.
  intros Hkey Hknown Hu Hoff c2 Ht (_ & _ & n2 & Hn2 & ->)%read_index_inv Hs.
  pose proof (proj2 (run_tenure_floor ops c1) Ht) as Hb. fold c2 in Hb. rewrite (office_sets_floor k c c1 Hkey Hoff) in Hb.
  destruct (read_index_at_safe _ _ _ Hs) as ((_ & _ & _ & _ & H5 & H6) & ->). split; [exists n2; split; [done|lia]|].
  intros id n Hn. specialize (Hknown id n Hn). cbn in Hknown. rewrite Hb in *.
  pose proof (saturating_add_ge (rc_last_log_index c) 1 Hu). lia.
Qed.

(** Node 1 takes office, its followers acknowledge the no-op, and a read is served. *)
Definition tenure_sample : list TenureOp :=
  let answer := mkAppendEntriesResponse 1 true 1 None None None SnapshotNone 0 0 in
  [TAppendAnswer 1 2 answer; TAppendAnswer 1 3 answer; THeartbeat; TLeaseTick 1; TElection (EVote 2 (sample_request 1 3))].

Lemma served_read_sees_earlier_terms_witness :
  exists resp, read_index sample_read (run_tenure tenure_sample (snd (campaign 1 false sample_group))) = Ok resp
    /\ rresp_read_index resp = 1%N /\ (0 <= rresp_read_index resp)%N.
Proof.
  set (c1 := snd (campaign 1 false sample_group)).
  destruct (read_index sample_read (run_tenure tenure_sample c1)) as [resp|] eqn:H; [|vm_compute in H; discriminate H].
  assert (nodes_keyed sample_group) as Hk by (apply (bool_decide_unpack _); vm_compute; exact I).
  assert (indexes_known sample_group) as Hi by (apply (bool_decide_unpack _); vm_compute; exact I).
  assert (comes_into_office 1 sample_group c1) as Hc by (apply (by_campaign _ _ _ false); vm_compute; reflexivity).
  assert (exists n, rc_nodes sample_group !! 2%N = Some n /\ match_index n = 0%N) as (n & Hn & Hm)
    by (eexists; split; [vm_compute; reflexivity|vm_compute; reflexivity]).
  assert (rresp_safe resp = true /\ rresp_read_index resp = 1%N) as [Hs Hr] by (revert H; vm_compute; intros [= <-]; split; reflexivity).
  exists resp. split; [reflexivity|]. split; [exact Hr|]. rewrite <- Hm.
  refine (proj2 (served_read_sees_earlier_terms 1 sample_group c1 tenure_sample sample_read resp Hk Hi _ Hc _ H Hs) 2%N n Hn);
    vm_compute; first [reflexivity|discriminate].
Defined.

(** Office can be taken on votes as well. *)
Example elected_by_votes : comes_into_office 1 (run_votes 1 (take 5 elected_run) (sample_group, [])).1
                             (run_votes 1 elected_run (sample_group, [])).1.
Proof. apply (by_votes _ _ _ 3 (mkVoteResponse 1 true "vote_granted")); vm_compute; [reflexivity|discriminate|reflexivity|reflexivity]. Qed.

(** What a truncation does. Every log holds three entries of term 1 when node 1 takes
    office in term 2, so reads wait for index 4. An append of that leader that replaces
    the first entry of node 2 lowers the index of the group to 0: a read of node 1 is
    then served at index 1, below two entries of term 1 in its own log. *)
Definition long_log_group : RaftCluster :=
  let entry i := mkLogEntry (mkLogId 1 i) [] true in
  on_nodes (fun n => n <| nd_log := [entry 1; entry 2; entry 3]%N |> <| nd_hard_state ::= (fun h => h <| hs_current_term := 1%N |>) |>)
    (sample_group <| rc_current_term := 1%N |> <| rc_last_log_index := 3%N |>).
Definition long_log_leader : RaftCluster := snd (campaign 1 false long_log_group).
Definition truncated_follower : RaftCluster :=
  snd (append_entries_to 2 (mkAppendEntriesRequest 7 2 1 None [mkLogEntry (mkLogId 2 1) [] true] 0 0) long_log_leader).
Definition read_outcome (c : RaftCluster) : option (bool * LogIndex) :=
  match read_index sample_read c with Ok r => Some (rresp_safe r, rresp_read_index r) | Err _ => None end.

Example truncation_lowers_read_floor :
  let applied := on_node 1 (fun n => n <| nd_applied_index := 1%N |> <| nd_safety_applied_index := 1%N |> <| nd_commit_index := 1%N |>) in
  rc_last_index_before_current_term long_log_leader = 3%N /\ rc_current_term truncated_follower = rc_current_term long_log_leader
  /\ rc_last_index_before_current_term truncated_follower = 0%N
  /\ read_outcome (applied long_log_leader) = Some (false, 4%N)
  /\ read_outcome (applied truncated_follower) = Some (true, 1%N)
  /\ (fun n => entry_index <$> nd_log n) <$> rc_nodes truncated_follower !! 1%N = Some [1; 2; 3; 4]%N.
Proof. vm_compute. split_and!; reflexivity. Qed.
