(* ===== verification/Durable.v ===== *)
(** * What a replica writes down, and what a restart reads back

    The operations of [RaftCluster] ([src/facade/cluster_runtime.rs]) between a
    replica and its write-ahead log: the record of a replica, whole or as the part a
    segment does not cover yet, the restoration of a record, and the fatal event a
    failed write fires.

    The theorems join this to the log on disk of [WalStore.v]: the record cut by the
    group is the one the log would cut from the whole record, and a replica whose
    record was appended and synced gets its hard state, log, snapshot, commit index,
    applied index and role back from the directory a crash leaves. What it does not
    get back is the apply work it had in flight: the restored replica counts it as
    done. *)

From stdpp Require Import base strings pretty numbers sorting gmap fin_maps sets list.
From S2P Require Import Prelude Types Bytes Slice Membership Node Wal WalSegments WalBinary WalStore WalStoreSafety Config Pipeline Cluster Election Append GroupInv Replication ReplicationSafety Votes Reads Reconfig.

(** ** Records *)

Definition first_retained (node : Node) : LogIndex :=
  let snapshot_index := snapshot_index_or_default (nd_installed_snapshot node) in
  if (0 <? snapshot_index)%N then snapshot_index +s 1 else index_or_default (head (nd_log node)).

Definition wal_record_shell (node_id : NodeId) (node : Node) (c : RaftCluster) : WalRecord :=
  mkWalRecord (rc_group_id c) node_id (nd_hard_state node) (membership c) [] false (nd_installed_snapshot node)
    (mkApplySnapshotFence (nd_applied_index node) (nd_commit_index node)
       (snapshot_index_or_default (nd_installed_snapshot node)) (first_retained node)) "".

Definition seal (record : WalRecord) : WalRecord := record <| wr_checksum := matrixraft_wal_checksum record |>.

Definition wal_record_for (node_id : NodeId) (c : RaftCluster) : Result WalRecord :=
  match rc_nodes c !! node_id with
  | None => Err (NodeNotFound node_id)
  | Some node => Ok (seal ((wal_record_shell node_id node c) <| wr_entries := log_entries node |>))
  end.

(** Where the part of the log that [coverage] does not hold begins. *)
Definition coverage_extends (node : Node) (coverage : Coverage) : option nat :=
  '(first_index, last_index, last_term) ← coverage;
  log_first ← entry_index <$> head (nd_log node);
  if (first_index <? log_first)%N then None
  else
    position ← log_position node last_index;
    entry ← nd_log node !! position;
    if negb (entry_term entry =? last_term)%N then None else Some (S position).

Definition wal_record_for_coverage (node_id : NodeId) (coverage : Coverage) (c : RaftCluster) : Result WalRecord :=
  match rc_nodes c !! node_id with
  | None => Err (NodeNotFound node_id)
  | Some node =>
      let record := wal_record_shell node_id node c in
      Ok (seal (match coverage_extends node coverage with
                | Some from => record <| wr_entries := log_entries_from node from |> <| wr_entries_are_delta := true |>
                | None => record <| wr_entries := log_entries node |>
                end))
  end.

(** ** Restoration *)

Definition exhausted_index (record : WalRecord) : option LogIndex :=
  find (fun index => index =? u64_max)%N
    (option_list (entry_index <$> last (wr_entries record)) ++ option_list (snap_index <$> wr_installed_snapshot record)).

Definition restored_witness_index (node : Node) : LogIndex :=
  N.max (N.max (N.max (default 0%N (lid_index <$> hs_committed (nd_hard_state node))) (nd_commit_index node))
           (snapshot_index_or_default (nd_installed_snapshot node)))
    (index_or_default (last (nd_log node))).

Definition restore_node (record : WalRecord) (node : Node) : Node :=
  let node := node <| nd_hard_state := wr_hard_state record |> in
  let node := set_log (wr_entries record) node in
  let node := node <| nd_installed_snapshot := wr_installed_snapshot record |>
                   <| nd_commit_index := fence_commit_index (wr_apply_snapshot_fence record) |>
                   <| nd_applied_index := fence_applied_index (wr_apply_snapshot_fence record) |>
                   <| nd_safety_applied_index := fence_applied_index (wr_apply_snapshot_fence record) |> in
  if bool_decide (nd_replica_role node = Witness)
  then acknowledge_witness_index (restored_witness_index node) node else node.

Definition restore_wal_record (record : WalRecord) : Cluster unit := fun c =>
  if negb (wr_group_id record =? rc_group_id c)%N
  then (Err (InvalidRequest "WAL record group id mismatch"), c)
  else match matrixraft_validate_log_continues_snapshot record with
       | Err e => (Err e, c)
       | Ok _ =>
           match exhausted_index record with
           | Some index =>
               (Err (InvalidRequest ("WAL record carries index " ++s pretty index
                       ++s ", the largest representable index, so no entry could ever follow it")), c)
           | None =>
               let c := restore_membership_from_record (wr_node_id record) (wr_membership record) c in
               match rc_nodes c !! wr_node_id record with
               | None => (Err (NodeNotFound (wr_node_id record)), c)
               | Some node =>
                   let node := restore_node record node in
                   let c := c <| rc_nodes ::= <[wr_node_id record := node]> |>
                              <| rc_last_log_index ::= (fun i => N.max i (match_index node)) |>
                              <| rc_current_term ::= (fun t => N.max t (hs_current_term (nd_hard_state node))) |> in
                   let c := c <| rc_last_index_before_current_term := rc_last_log_index c |> in
                   (Ok tt, refresh_replication_pipelines (refresh_cluster_indexes c))
               end
           end
       end.

(** ** Fatal events *)

Definition apply_fatal_event (node_id : NodeId) : Cluster (option NodeId) := fun c =>
  let '(transfer, c) :=
    if bool_decide (rc_leader_id c = Some node_id) then step_down None c else (Ok None, c) in
  (_ ← set_node_healthy node_id false; lift transfer) c.

(** ** Records and coverage *)

Lemma coverage_extends_base node cov :
  log_ordered (nd_log node) ->
  coverage_extends node cov
  = ('(first_index, last_index, last_term) ← cov; matrixraft_wal_delta_base (nd_log node) first_index last_index last_term).
Proof.
  intros Ho. destruct cov as [[[f l] t]|]; [|done]. unfold coverage_extends, matrixraft_wal_delta_base. cbn.
  destruct (head (nd_log node)) as [e0|]; [|done]. cbn. destruct (f <? entry_index e0)%N; [done|].
  pose proof (binary_search_ordered (nd_log node) l) as Hb.
  destruct (log_position node l) as [p|] eqn:Hp; cbn.
  - apply log_position_spec in Hp; [|done]. apply Hb in Hp; [|done]. by rewrite Hp.
  - destruct (binary_search_by _ _) as [p|p]; [|done]. exfalso.
    assert (log_position node l = Some p) by (apply log_position_spec; [done|]; by apply Hb). congruence.
Qed.

(** The record the group builds for what a segment covers is the record the
    log would cut from the whole one. On an ordered log the two computations, one
    over the replica's slots and one by binary search over the record's entries,
    give the same delta or the same whole record, checksum included; so handing the
    log a short record saves copying and changes nothing on disk. *)
Theorem coverage_record_is_delta k cov c n r :
  rc_nodes c !! k = Some n -> log_ordered (nd_log n) -> wal_record_for k c = Ok r ->
  wal_record_for_coverage k cov c = Ok (delta_record cov r).
Proof.
  intros Hn Ho. unfold wal_record_for, wal_record_for_coverage. rewrite Hn, (coverage_extends_base n cov Ho).
  intros Hr. assert (wr_entries r = nd_log n) as He by (by injection Hr as <-).
  injection Hr as Hr. f_equal. unfold delta_record. rewrite He. clear He.
  destruct cov as [[[f l] t]|]; [|subst r; reflexivity]. cbn [mbind option_bind].
  destruct (matrixraft_wal_delta_base (nd_log n) f l t); subst r; reflexivity.
Qed.

(** ** A restart *)

(** What of a replica comes back from its record. The index up to which applies are
    confirmed, [nd_safety_applied_index], is not recorded: a restart takes the applied
    index for it. *)
Definition durable_state (n : Node) : HardState * list LogEntry * option SnapshotMetadata * LogIndex * LogIndex :=
  (nd_hard_state n, nd_log n, nd_installed_snapshot n, nd_commit_index n, nd_applied_index n).

Lemma membership_ids_nodup c : nodes_keyed c -> NoDup (record_ids (membership c)).
Proof.
  intros Hk. unfold record_ids. cbn.
  assert (forall role1 role2 k, role1 <> role2 ->
    k ∈ nd_id <$> filter (fun n => nd_replica_role n = role1) (bt_values (rc_nodes c)) ->
    k ∉ nd_id <$> filter (fun n => nd_replica_role n = role2) (bt_values (rc_nodes c))) as Hd.
  { intros r1 r2 k Hr H1 H2. rewrite elem_of_with_role in H1, H2 by done.
    destruct H1 as (n1 & H1 & E1), H2 as (n2 & H2 & E2). congruence. }
  rewrite !NoDup_app. split_and!; try (by apply NoDup_ids_filter, NoDup_node_ids).
  - intros k Hv. rewrite elem_of_app. intros [Hl|Hw]; [by apply (Hd Voter Learner k)|by apply (Hd Voter Witness k)].
  - intros k Hl Hw. by apply (Hd Learner Witness k).
Qed.

Lemma membership_has c k n : nodes_keyed c -> rc_nodes c !! k = Some n -> k ∈ record_ids (membership c).
Proof.
  intros Hk Hn. unfold record_ids. cbn. rewrite !elem_of_app, !elem_of_with_role by done.
  destruct (nd_replica_role n) eqn:Hr; [left|right; left|right; right]; by exists n.
Qed.

(** The node that recovers is in the restored group, in its recorded role. *)
Lemma restore_membership_node target m c :
  nodes_keyed c -> NoDup (record_ids m) -> target ∈ record_ids m ->
  exists n, rc_nodes (restore_membership_from_record target m c) !! target = Some n
    /\ target ∈ record_role m (nd_replica_role n).
Proof.
  intros Hk Hnd Ht. unfold restore_membership_from_record. cbn zeta. rewrite bool_decide_eq_false_2.
  2:{ intros He. rewrite <- record_members_ids, He in Ht. by apply not_elem_of_nil in Ht. }
  rewrite record_members_ids. destruct (record_find m target Hnd Ht) as (i & role & Hf & Hrole).
  assert (role_map (reset_membership_from_snapshot target (record_ids m) (record_membership_as_members m) c) !! target
    = Some (target, role)) as Hr.
  { rewrite reset_membership_roles, settle_members_lookup by (try done; by rewrite record_members_ids).
    unfold member_role. by rewrite Hf. }
  unfold role_map in Hr. rewrite lookup_fmap in Hr. apply fmap_Some in Hr as (n & Hn & [= _ ->]). by exists n.
Qed.

(** The record may be restored: its log follows its snapshot and leaves room. *)
Definition restorable (r : WalRecord) : Prop :=
  matrixraft_validate_log_continues_snapshot r = Ok tt /\ exhausted_index r = None.

Lemma restore_node_durable r n :
  durable_state (restore_node r n)
  = (wr_hard_state r, wr_entries r, wr_installed_snapshot r, fence_commit_index (wr_apply_snapshot_fence r),
     fence_applied_index (wr_apply_snapshot_fence r))
  /\ nd_safety_applied_index (restore_node r n) = fence_applied_index (wr_apply_snapshot_fence r)
  /\ nd_replica_role (restore_node r n) = nd_replica_role n.
Proof. unfold restore_node, acknowledge_witness_index, durable_state. cbn. by case_bool_decide. Qed.

Lemma restore_wal_record_spec r c :
  wr_group_id r = rc_group_id c -> restorable r ->
  nodes_keyed c -> NoDup (record_ids (wr_membership r)) -> wr_node_id r ∈ record_ids (wr_membership r) ->
  exists c' n', restore_wal_record r c = (Ok tt, c') /\ rc_nodes c' !! wr_node_id r = Some n'
    /\ durable_state n' = (wr_hard_state r, wr_entries r, wr_installed_snapshot r,
         fence_commit_index (wr_apply_snapshot_fence r), fence_applied_index (wr_apply_snapshot_fence r))
    /\ nd_safety_applied_index n' = fence_applied_index (wr_apply_snapshot_fence r)
    /\ wr_node_id r ∈ record_role (wr_membership r) (nd_replica_role n')
    /\ (hs_current_term (wr_hard_state r) <= rc_current_term c')%N.
Proof.
  intros Hg [Hv He] Hk Hnd Hin.
  destruct (restore_membership_node (wr_node_id r) (wr_membership r) c Hk Hnd Hin) as (n & Hn & Hrole).
  unfold restore_wal_record. rewrite Hg, N.eqb_refl, Hv, He. cbn [negb]. rewrite Hn.
  generalize dependent (restore_membership_from_record (wr_node_id r) (wr_membership r) c). intros c1 Hn.
  destruct (restore_node_durable r n) as (Hd & Hsa & Hr). assert (nd_hard_state (restore_node r n) = wr_hard_state r) as Hhs by (unfold durable_state in Hd; congruence).
  generalize dependent (restore_node r n). intros n' Hd Hsa Hr Hhs. eexists _, n'. split; [reflexivity|].
  rewrite refresh_replication_pipelines_only. split_and!.
  - cbn. apply lookup_insert_eq.
  - done.
  - done.
  - by rewrite Hr.
  - cbn. rewrite Hhs. lia.
Qed.

(** *** Through the log on disk *)

Lemma delta_record_fields cov r :
  wr_group_id (delta_record cov r) = wr_group_id r /\ wr_node_id (delta_record cov r) = wr_node_id r
  /\ wr_hard_state (delta_record cov r) = wr_hard_state r /\ wr_membership (delta_record cov r) = wr_membership r
  /\ wr_installed_snapshot (delta_record cov r) = wr_installed_snapshot r
  /\ wr_apply_snapshot_fence (delta_record cov r) = wr_apply_snapshot_fence r.
Proof. unfold delta_record. destruct cov as [[[f l] t]|]; [|done]. by destruct (matrixraft_wal_delta_base _ _ _ _). Qed.

Lemma checksum_unsealed r sum : matrixraft_wal_checksum (r <| wr_checksum := sum |>) = matrixraft_wal_checksum r.
Proof. by destruct r. Qed.

(** A sealed record that is not a delta is the record its delta folds back to. *)
Lemma whole_of_delta cov r :
  wr_entries_are_delta r = false -> wr_checksum r = matrixraft_wal_checksum r ->
  whole_from_folded (delta_record cov r) (wr_entries r) = r.
Proof.
  intros Hd Hc. destruct (delta_record_fields cov r) as (D1 & D2 & D3 & D4 & D5 & D6).
  assert (exists sum, (delta_record cov r) <| wr_entries := wr_entries r |> <| wr_entries_are_delta := false |>
                      = r <| wr_checksum := sum |>) as [sum Hsum].
  { exists (wr_checksum (delta_record cov r)). destruct r, (delta_record cov _). cbn in *. congruence. }
  unfold whole_from_folded. rewrite Hsum, checksum_unsealed, <- Hc. by destruct r.
Qed.

Lemma recoverable_restorable r : recoverable r = true -> exhausted_index r = None -> restorable r.
Proof.
  intros Hr He. split; [|done]. apply andb_true_iff in Hr as [_ Hf]. revert Hf.
  unfold matrixraft_validate_apply_snapshot_fence. repeat (case_match; [done|]).
  destruct (matrixraft_validate_log_continues_snapshot r) as [[]|] eqn:E; [done|].
  destruct (wr_installed_snapshot r); [|by rewrite ?E]. by repeat (case_match; [done|]).
Qed.

Lemma wal_record_for_fields k c n r : rc_nodes c !! k = Some n -> wal_record_for k c = Ok r ->
  wr_entries r = nd_log n /\ wr_entries_are_delta r = false /\ wr_checksum r = matrixraft_wal_checksum r
  /\ wr_node_id r = k /\ wr_group_id r = rc_group_id c /\ wr_membership r = membership c
  /\ (wr_hard_state r, wr_entries r, wr_installed_snapshot r, fence_commit_index (wr_apply_snapshot_fence r),
      fence_applied_index (wr_apply_snapshot_fence r)) = durable_state n.
Proof. intros Hn. unfold wal_record_for. rewrite Hn. by intros [= <-]. Qed.

Section restart.
Context `{HP : Prost} `{!ProstLaws}.
Context (json_record : list Byte.byte -> option WalRecord) (fsync_elapsed : N -> N).

(** A replica restored from its record. *)
Lemma restore_own_record k c n r c0 :
  rc_nodes c !! k = Some n -> wal_record_for k c = Ok r -> restorable r ->
  nodes_keyed c -> nodes_keyed c0 -> rc_group_id c0 = rc_group_id c ->
  exists c' n', restore_wal_record r c0 = (Ok tt, c') /\ rc_nodes c' !! k = Some n'
    /\ durable_state n' = durable_state n /\ nd_safety_applied_index n' = nd_applied_index n
    /\ nd_replica_role n' = nd_replica_role n /\ (hs_current_term (nd_hard_state n) <= rc_current_term c')%N.
Proof.
  intros Hn Hr Hok Hk Hk0 Hg. destruct (wal_record_for_fields k c n r Hn Hr) as (_ & _ & _ & Hnid & Hgid & Hm & Hdur).
  destruct (restore_wal_record_spec r c0) as (c' & n' & E & Hn' & Hd' & Hsa & Hrole & Hterm); [congruence|done|done| | |].
  { rewrite Hm. by apply membership_ids_nodup. }
  { rewrite Hnid, Hm. by apply (membership_has c k n). }
  rewrite Hnid in Hn'. rewrite Hnid, Hm in Hrole. unfold durable_state in Hdur.
  injection Hdur as H1 H2 H3 H4 H5.
  exists c', n'. split_and!; [exact E|exact Hn'|unfold durable_state at 2; congruence|congruence| |congruence].
  apply (record_role_unique (membership c) k); [by apply membership_ids_nodup|done|].
  destruct (nd_replica_role n) eqn:Hro; cbn; rewrite elem_of_with_role by done; by exists n.
Qed.

(** C13: A crash gives the replica's record back. A replica's record is appended to
    the log on disk, in full or cut to what the active segment does not hold, rolling
    the segment or not, and synced; the append succeeds. Whatever crash follows,
    opening the directory again succeeds and recovers exactly that record, provided it
    passes the validators of recovery, leaves room for a next index and no record
    stored before it had committed more. Restoring it into any group of the same id,
    whatever peers that group was configured with, gives a replica with the hard state,
    the log, the snapshot, the commit index and the applied index the replica had, in
    the role it had, in a group at least in its term. The restored replica takes every
    entry it had handed to its state machine for confirmed: its safety-applied index is
    the applied index, whatever it was before. *)
Theorem restart_restores_replica s lay id rs synced k c n r c0 options :
  wal_inv s lay id rs synced -> pwo_fsync_on_append (prw_options (st_wal s)) = true ->
  rc_nodes c !! k = Some n -> wal_record_for k c = Ok r ->
  extends_log (log_of (stored lay rs)) (nd_log n) ->
  storable (delta_record (prw_active_covered (st_wal s)) r) -> (prw_next_segment_id (st_wal s) < u64_max)%N ->
  recoverable r = true -> exhausted_index r = None ->
  Forall (fun r' => (committed_index_of r' <= committed_index_of r)%N) (stored lay rs) ->
  nodes_keyed c -> nodes_keyed c0 -> rc_group_id c0 = rc_group_id c ->
  json_refuses_magic json_record -> options_validate options = Ok tt ->
  exists report s', append_with_report json_record fsync_elapsed r s = (Ok report, s')
    /\ forall d, crashed (st_disk s') d ->
       exists wal recovery d' c' n',
         open_recovered json_record options d = (Ok (wal, recovery), d') /\ wrr_recovered recovery = Some r
         /\ restore_wal_record r c0 = (Ok tt, c')
         /\ rc_nodes c' !! k = Some n' /\ durable_state n' = durable_state n
         /\ nd_safety_applied_index n' = nd_applied_index n /\ nd_replica_role n' = nd_replica_role n
         /\ (hs_current_term (nd_hard_state n) <= rc_current_term c')%N.
Proof.
  intros Hinv Hfs Hn Hr Hext Hst Hmax Hrec Hex Hcom Hk Hk0 Hg Hjson Hval.
  destruct (wal_record_for_fields k c n r Hn Hr) as (He & Hdelta & Hsum & _). rewrite <- He in Hext.
  destruct (append_with_report_spec json_record fsync_elapsed s lay id rs synced r Hinv Hext Hst Hmax)
    as (report & s' & lay' & id' & rs' & n' & E & Hinv' & Hstored & Hlog & _ & _ & Hsync & Hid).
  exists report, s'. split; [exact E|]. intros d Hd.
  destruct (crash_recovery_spec json_record s' lay' id' rs' n' d options Hinv' Hd Hjson Hval Hid)
    as (j & recovery & s'' & m & Hopen & _ & Hj & Hrep).
  rewrite (take_ge rs' j), Hstored in Hrep by (apply Hj; [done|]; rewrite firstn_all, (Hsync Hfs); done).
  pose proof (wi_storable _ _ _ _ _ Hinv') as Hok. rewrite Hstored in Hok, Hlog.
  assert (whole_from_folded (delta_record (prw_active_covered (st_wal s)) r) (wr_entries r) = r) as Hw
    by (by apply whole_of_delta).
  rewrite recover_snoc, Hlog, Hw in Hrep; [| |by rewrite Hlog, Hw|].
  2:{ exact Hok. }
  2:{ eapply Forall_impl; [exact Hcom|]. intros r' Hr'. unfold committed_index_of in *.
      destruct (delta_record_fields (prw_active_covered (st_wal s)) r) as (_ & _ & -> & _). exact Hr'. }
  destruct (restore_own_record k c n r c0 Hn Hr (recoverable_restorable r Hrec Hex) Hk Hk0 Hg)
    as (c' & nd & Er & Hrest).
  exists (st_wal s''), recovery, (st_disk s''), c', nd. split; [exact Hopen|]. split; [congruence|]. by split.
Qed.
End restart.
