(* ===== verification/DurableRuns.v ===== *)
(** * Runs of recording and restarting

    Concrete states for the theorems of [Durable.v], with the protobuf library of
    [Protobuf.v] and the three-segment log of [WalStoreRuns.v], and the run that
    shows what a restart makes of apply work in flight. *)

From stdpp Require Import base strings pretty numbers sorting gmap fin_maps sets list.
From S2P Require Import Prelude Types Bytes Slice Membership Node Wal WalSegments WalBinary Protobuf WalStore WalStoreSafety WalStoreRuns Config Pipeline Cluster Election Append GroupInv Replication Votes Reads Reconfig Durable.

(** Node 1 of the sample group with a log of entries 3 to 7 after a snapshot at 2. *)
Definition recorded_group : RaftCluster :=
  on_node 1 (fun n => set_log (wr_entries appended7) n
    <| nd_installed_snapshot := Some (mkSnapshotMetadata "s" (mkLogId 3 2) [1; 2; 3; 4]%N [] 0) |>
    <| nd_hard_state := mkHardState 3 (Some 1%N) (Some (mkLogId 3 6)) |>
    <| nd_commit_index := 6%N |> <| nd_applied_index := 5%N |> <| nd_safety_applied_index := 4%N |>) sample_group.
Definition recorded_node : Node := default (node_new 1 Voter false) (rc_nodes recorded_group !! 1%N).
Definition recorded : WalRecord :=
  match wal_record_for 1 recorded_group with Ok r => r | Err _ => appended7 end.

Lemma recorded_lookup : rc_nodes recorded_group !! 1%N = Some recorded_node.
Proof. vm_compute. reflexivity. Qed.
Lemma recorded_record : wal_record_for 1 recorded_group = Ok recorded.
Proof. unfold recorded. destruct (wal_record_for 1 recorded_group) eqn:E; [reflexivity|vm_compute in E; discriminate E]. Qed.
Lemma recorded_log : nd_log recorded_node = wr_entries appended7.
Proof. vm_compute. reflexivity. Qed.

Lemma coverage_record_is_delta_witness :
  wal_record_for_coverage 1 (Some (3, 5, 3)%N) recorded_group = Ok (delta_record (Some (3, 5, 3)%N) recorded)
  /\ entry_index <$> wr_entries (delta_record (Some (3, 5, 3)%N) recorded) = [6; 7]%N.
Proof.
  split; [|vm_compute; reflexivity].
  apply (coverage_record_is_delta 1 (Some (3, 5, 3)%N) recorded_group recorded_node recorded recorded_lookup);
    [|exact recorded_record].
  rewrite recorded_log. apply (bool_decide_unpack _). vm_compute. exact I.
Defined.

Lemma recorded_extends : extends_log (log_of (stored sample_lay [delta6])) (nd_log recorded_node).
Proof. rewrite recorded_log. exact sample_extends. Qed.
Lemma recorded_storable : storable (delta_record (prw_active_covered (st_wal three_segments)) recorded).
Proof. storable_record. Qed.

(** The crash that loses every byte not synced. *)
Definition power_cut (d : Disk) : Disk :=
  mkDisk ((fun f => mkSegmentFile (take (sf_synced f) (sf_bytes f)) (sf_synced f)) <$> dk_files d) false.

Lemma power_cut_crashed s lay id rs n : wal_inv s lay id rs n -> crashed (st_disk s) (power_cut (st_disk s)).
Proof.
  intros Hinv. split_and!; [done|cbn; by rewrite dom_fmap_L|]. intros i f f' Hf. cbn. rewrite lookup_fmap, Hf. intros [= <-].
  exists (sf_synced f). split; [|done]. split; [lia|]. destruct (wi_layout _ _ _ _ _ Hinv) as [Hl _]. rewrite Hl in Hf.
  apply lookup_insert_Some in Hf as [[_ <-]|[_ Hf]]; [apply Hinv|].
  apply sealed_files_lookup in Hf as (l & _ & ->). done.
Qed.

(** The record is appended, the power fails, the directory is opened and the record
    restored. *)
Lemma restart_restores_replica_witness :
  exists report s' wal recovery d' c' n',
    append_with_report no_json one_ms recorded three_segments = (Ok report, s')
    /\ crashed (st_disk s') (power_cut (st_disk s'))
    /\ open_recovered no_json (sample_options 1 2) (power_cut (st_disk s')) = (Ok (wal, recovery), d')
    /\ wrr_recovered recovery = Some recorded /\ restore_wal_record recorded sample_group = (Ok tt, c')
    /\ rc_nodes c' !! 1%N = Some n' /\ durable_state n' = durable_state recorded_node
    /\ nd_safety_applied_index n' = 5%N.
Proof.
  destruct (restart_restores_replica no_json one_ms three_segments sample_lay 2 [delta6] 4 1 recorded_group
              recorded_node recorded sample_group (sample_options 1 2) three_segments_inv)
    as (report & s' & E & Hcrash);
    [reflexivity|exact recorded_lookup|exact recorded_record|exact recorded_extends|exact recorded_storable|vm_compute; reflexivity
    |vm_compute; reflexivity|vm_compute; reflexivity
    |apply (bool_decide_unpack _); vm_compute; exact I|apply (bool_decide_unpack _); vm_compute; exact I
    |apply (bool_decide_unpack _); vm_compute; exact I|reflexivity|done|reflexivity|].
  assert (crashed (st_disk s') (power_cut (st_disk s'))) as Hcut.
  { destruct (append_with_report_spec no_json one_ms three_segments sample_lay 2 [delta6] 4 recorded three_segments_inv)
      as (r1 & s1 & lay' & id' & rs' & n1 & E1 & Hinv & _);
      [exact recorded_extends|exact recorded_storable|vm_compute; reflexivity|].
    rewrite E in E1. injection E1 as _ <-. exact (power_cut_crashed _ _ _ _ _ Hinv). }
  destruct (Hcrash _ Hcut) as (wal & recovery & d' & c' & n' & Ho & Hr & Hres & Hn & Hd & Hs & _).
  exists report, s', wal, recovery, d', c', n'.
  split; [exact E|]. split; [exact Hcut|]. split; [exact Ho|]. split; [exact Hr|]. split; [exact Hres|].
  split; [exact Hn|]. split; [exact Hd|]. rewrite Hs. vm_compute. reflexivity.
Defined.

(** Entry 5 was handed to the state machine and not confirmed when the record was
    made; the restart counts it as confirmed, so nothing hands it out again and a
    compaction may drop it. *)
Example restart_confirms_inflight_applies :
  (fun n => (nd_safety_applied_index n, nd_applied_index n)) <$> rc_nodes recorded_group !! 1%N = Some (4, 5)%N
  /\ (fun n => (nd_safety_applied_index n, nd_applied_index n))
       <$> rc_nodes (snd (restore_wal_record recorded sample_group)) !! 1%N = Some (5, 5)%N.
Proof. split; vm_compute; reflexivity. Qed.
