(* ===== verification/Executor.v ===== *)
(** * The membership executor

    [MembershipExecutor] ([src/facade/membership_executor.rs]): a membership
    operation is validated against the group, applied, and reported with the
    membership before and after; a workflow of operations can be rolled back as a
    whole. The executor keeps its reports; the group is the other half of the state.

    The theorems: an execution, whatever comes of it, leaves a voter in the group and
    keeps a node in common between the quorums before and after; a workflow with
    rollback is applied whole or not at all, and its history says which. *)

From stdpp Require Import base strings pretty numbers sorting gmap fin_maps sets list.
From S2P Require Import Prelude Types Slice Membership Node WalSegments Config Pipeline Cluster Election Append GroupInv Replication Votes Reads Reconfig Snapshots.

Record MembershipExecutionReport := mkMembershipExecutionReport {
  mer_operation : MembershipOperation;
  mer_before : Membership;
  mer_after : Membership;
  mer_leader_before : option NodeId;
  mer_leader_after : option NodeId;
  mer_success : bool;
  mer_reason : string;
  mer_validation_passed : bool;
  mer_blockers : list string;
  mer_rolled_back : bool;
  mer_joint_consensus : option JointMembership;
  mer_joint_consensus_commit : option JointConsensusCommitEvidence
}.
#[export] Instance eta_MembershipExecutionReport : Settable MembershipExecutionReport :=
  fun r => mkMembershipExecutionReport (mer_operation r) (mer_before r) (mer_after r) (mer_leader_before r)
    (mer_leader_after r) (mer_success r) (mer_reason r) (mer_validation_passed r) (mer_blockers r)
    (mer_rolled_back r) (mer_joint_consensus r) (mer_joint_consensus_commit r).

Record MembershipExecutor := mkMembershipExecutor { mex_reports : list MembershipExecutionReport }.

Definition executor_new : MembershipExecutor := mkMembershipExecutor [].

(** The executor and the group it works on. *)
Abbreviation Execution := (ST RaftError (MembershipExecutor * RaftCluster)) (only parsing).

(** ** Validation *)

Definition contains_id (node_id : NodeId) (ids : list NodeId) : bool := bool_decide (node_id ∈ ids).

Definition validate_peer_absent (m : Membership) (node_id : NodeId) : list string :=
  if contains_id node_id (m_voters m) || contains_id node_id (m_learners m) || contains_id node_id (m_witnesses m)
  then ["node_" ++s pretty node_id ++s "_already_member"] else [].

Definition validate (operation : MembershipOperation) (c : RaftCluster) : list string :=
  let m := membership c in
  match operation with
  | AddNode peer =>
      if bool_decide (peer_role peer = Voter) && contains_id (peer_node_id peer) (m_learners m) then []
      else validate_peer_absent m (peer_node_id peer)
  | AddVoter peer =>
      if contains_id (peer_node_id peer) (m_learners m) then [] else validate_peer_absent m (peer_node_id peer)
  | AddLearner peer | AddWitness peer => validate_peer_absent m (peer_node_id peer)
  | Promote node_id =>
      if contains_id node_id (m_learners m) then [] else ["node_" ++s pretty node_id ++s "_is_not_learner"]
  | Remove node_id =>
      (if negb (contains_id node_id (m_voters m)) && negb (contains_id node_id (m_learners m))
          && negb (contains_id node_id (m_witnesses m))
       then ["node_" ++s pretty node_id ++s "_not_member"] else [])
      ++ (if contains_id node_id (m_voters m) && (length (m_voters m) <=? 1)%nat
          then ["cannot_remove_last_voter"] else [])
      ++ (if bool_decide (rc_leader_id c = Some node_id) && bool_decide (closest_follower c = None)
          then ["cannot_remove_current_leader_without_transfer"] else [])
  | TransferLeader node_id =>
      match rc_nodes c !! node_id with
      | Some node =>
          if negb (can_be_leader (nd_replica_role node)) then ["node_" ++s pretty node_id ++s "_cannot_be_leader"]
          else if (match_index node <? rc_commit_index c)%N then ["node_" ++s pretty node_id ++s "_is_lagging"]
          else []
      | None => ["node_" ++s pretty node_id ++s "_not_found"]
      end
  end.

(** ** Execution *)

(** [blockers.join("; ")]. *)
Fixpoint join (separator : string) (l : list string) : string :=
  match l with
  | [] => EmptyString
  | [s] => s
  | s :: rest => s ++s separator ++s join separator rest
  end.

Definition cannot_promote (node_id : NodeId) (reason : string) : RaftError :=
  InvalidRequest ("node " ++s pretty node_id ++s " cannot be promoted: " ++s reason).

Definition execute_promote (node_id : NodeId) : Cluster unit :=
  catchup ← learner_catch_up_loop node_id;
  if negb (cul_caught_up catchup) then fail (cannot_promote node_id (cul_reason catchup))
  else
    report ← with_state (fun c => lift (catchup_report node_id c));
    if negb (cur_promotable report) then fail (cannot_promote node_id (cur_reason report))
    else promote_peer node_id.

Definition run_operation (operation : MembershipOperation) : Cluster unit :=
  match operation with
  | AddNode peer => _ ← apply_committed_membership_operation (AddNode peer); mret tt
  | AddVoter peer => _ ← apply_committed_membership_operation (AddVoter (peer <| peer_role := Voter |>)); mret tt
  | AddLearner peer => add_learner peer
  | AddWitness peer => add_witness peer
  | Promote node_id => execute_promote node_id
  | Remove node_id => remove_peer node_id
  | TransferLeader node_id => transfer_leader node_id
  end.

Definition membership_joint_if_voters_changed (before after : Membership) : option JointMembership :=
  if bool_decide (m_voters before = m_voters after) then None
  else Some (mkJointMembership (m_voters before) (m_voters after)).

Definition joint_acknowledgements (before after : Membership) : list NodeId :=
  merge_sort N.le (elements (list_to_set (m_voters before ++ m_voters after) : gset N)).

Definition execute_inner (operation : MembershipOperation) (rollback_on_failure : bool)
    : Execution MembershipExecutionReport := fun '(executor, c) =>
  let before := membership c in
  let blockers := validate operation c in
  let validation_passed := bool_decide (blockers = []) in
  let '(result, c') :=
    if validation_passed then run_operation operation c else (Err (InvalidRequest (join "; " blockers)), c) in
  let success := is_ok result in
  let rolled_back := negb success && validation_passed && rollback_on_failure in
  let c' := if rolled_back then c else c' in
  let reason := match result with
                | Ok _ => "membership_operation_applied"
                | Err error => RaftError_to_string error ++s (if rolled_back then "; rolled_back" else EmptyString)
                end in
  let after := membership c' in
  let joint := membership_joint_if_voters_changed before after in
  let commit := if success then (fun j => commit_evidence j (joint_acknowledgements before after)) <$> joint else None in
  let report := mkMembershipExecutionReport operation before after (rc_leader_id c) (rc_leader_id c') success reason
                  validation_passed blockers rolled_back joint commit in
  (match result with Ok _ => Ok report | Err error => Err error end,
   (mkMembershipExecutor (mex_reports executor ++ [report]), c')).

Definition execute (operation : MembershipOperation) : Execution MembershipExecutionReport :=
  execute_inner operation false.

Fixpoint execute_all (operations : list MembershipOperation) : Execution (list MembershipExecutionReport) :=
  match operations with
  | [] => mret []
  | operation :: rest => report ← execute operation; reports ← execute_all rest; mret (report :: reports)
  end.

(** The last report of a failed workflow is marked, if it is of a failure. *)
Definition mark_rolled_back (executor : MembershipExecutor) : MembershipExecutor :=
  match last (mex_reports executor) with
  | Some report =>
      if mer_success report then executor
      else
        let report := report <| mer_rolled_back := true |> in
        let report := if contains "rolled_back" (mer_reason report) then report
                      else report <| mer_reason ::= (fun reason => reason ++s "; rolled_back") |> in
        mkMembershipExecutor (removelast (mex_reports executor) ++ [report])
  | None => executor
  end.

Fixpoint workflow (operations : list MembershipOperation) : Execution (list MembershipExecutionReport) :=
  match operations with
  | [] => mret []
  | operation :: rest => report ← execute_inner operation true; reports ← workflow rest; mret (report :: reports)
  end.

Definition execute_all_with_rollback (operations : list MembershipOperation)
    : Execution (list MembershipExecutionReport) := fun '(executor, workflow_before) =>
  match workflow operations (executor, workflow_before) with
  | (Ok reports, s) => (Ok reports, s)
  | (Err error, (executor, _)) => (Err error, (mark_rolled_back executor, workflow_before))
  end.

(** ** A validated operation keeps the group able to vote *)

(** The node an operation is about. *)
Definition subject (operation : MembershipOperation) : NodeId :=
  match operation with
  | AddNode peer | AddVoter peer | AddLearner peer | AddWitness peer => peer_node_id peer
  | Promote node_id | Remove node_id | TransferLeader node_id => node_id
  end.

Definition is_voter (c : RaftCluster) (k : NodeId) : Prop := exists n, rc_nodes c !! k = Some n /\ nd_replica_role n = Voter.

Lemma learner_catch_up_member k : transits (one_member k) (learner_catch_up_loop k).
Proof.
  intros c. unfold learner_catch_up_loop. repeat (case_match; try reflexivity). apply catch_up_member.
Qed.

Lemma execute_promote_member k : transits (one_member k) (execute_promote k).
Proof.
  intros c. unfold execute_promote. apply (bind_step (one_member k)); [apply learner_catch_up_member|].
  intros catchup c1. destruct (negb _); [reflexivity|].
  apply (bind_step (one_member k)); [reflexivity|]. intros report c2. destruct (negb _); [reflexivity|apply promote_peer_member].
Qed.

Lemma run_operation_member operation : transits (one_member (subject operation)) (run_operation operation).
Proof.
  intros c. destruct operation as [p|p|p|p|k|k|k]; cbn [run_operation subject].
  - apply (bind_step (one_member _)); [apply apply_committed_add_member|intros a c'; reflexivity].
  - set (q := p <| peer_role := Voter |>). change (peer_node_id p) with (peer_node_id (q <| peer_role := Voter |>)).
    apply (bind_step (one_member _)); [apply apply_committed_add_member|intros a c'; reflexivity].
  - set (q := p <| peer_role := Learner |>). exact (add_peer_member q c).
  - set (q := p <| peer_role := Witness |>). exact (add_peer_member q c).
  - apply execute_promote_member.
  - apply remove_peer_member.
  - apply one_member_roles, transfer_leader_roles.
Qed.

Lemma voter_role_map c k : is_voter c k <-> exists i, role_map c !! k = Some (i, Voter).
Proof.
  unfold is_voter, role_map. rewrite lookup_fmap. split.
  - intros (n & -> & <-). cbn. by eexists.
  - intros (i & (n & Hn & [= _ Hr])%fmap_Some). by exists n.
Qed.

Lemma elem_of_voters c k : nodes_keyed c -> k ∈ m_voters (membership c) <-> is_voter c k.
Proof. apply elem_of_with_role. Qed.

(** Unless there is another voter, a validated operation is about a node whose vote
    stays. *)
Lemma validated_keeps_voter operation c :
  nodes_keyed c -> validate operation c = [] -> m_voters (membership c) <> [] ->
  (exists j, j <> subject operation /\ is_voter c j) \/ (exists k, operation = TransferLeader k).
Proof.
  intros Hk Hv Hne. assert (NoDup (m_voters (membership c))) as Hnd by (by apply NoDup_ids_filter, NoDup_node_ids).
  destruct (decide (Exists (fun j => j <> subject operation) (m_voters (membership c)))) as [He|He].
  { left. apply Exists_exists in He as (j & Hj & Hs). exists j. split; [done|]. by apply elem_of_voters. }
  assert (is_voter c (subject operation)) as Hs.
  { destruct (m_voters (membership c)) as [|j l] eqn:Hl; [done|]. destruct (decide (j = subject operation)) as [<-|Hj].
    - apply elem_of_voters; [done|]. rewrite Hl. apply list_elem_of_here.
    - exfalso. apply He. by left. }
  assert (contains_id (subject operation) (m_voters (membership c)) = true) as Hcv
    by (by apply bool_decide_eq_true, elem_of_voters).
  assert (contains_id (subject operation) (m_learners (membership c)) = false) as Hcl.
  { apply bool_decide_eq_false. cbn. rewrite elem_of_with_role by done. intros (n & Hn & Hr).
    destruct Hs as (m & Hm & Hr'). congruence. }
  destruct operation as [p|p|p|p|k|k|k]; cbn [validate subject] in *; unfold validate_peer_absent in Hv;
    rewrite ?Hcl, ?Hcv, ?andb_false_r in Hv; try done; [|right; by exists k].
  exfalso. cbn [negb andb] in Hv. destruct (Nat.leb_spec (length (m_voters (membership c))) 1) as [Hlen|Hlen]; [done|].
  apply He. destruct (m_voters (membership c)) as [|a [|b l]]; cbn in Hlen; [lia|lia|].
  destruct (decide (a = k)) as [->|Ha]; [|by left]. right. left. intros ->.
  apply NoDup_cons in Hnd as [Hn _]. apply Hn, list_elem_of_here.
Qed.

(** C6: Executing a membership operation never disables the group. From a group
    with a voter, whatever the operation and whether it is refused, fails, is rolled
    back or succeeds, there is still a voter, every node is still under its own id,
    and a quorum of the membership before and a quorum of the membership after have
    a node in common, under either witness policy. *)
Theorem execution_keeps_quorums operation rollback executor c ig a1 a2 :
  nodes_keyed c -> m_voters (membership c) <> [] ->
  let c' := snd (snd (execute_inner operation rollback (executor, c))) in
  m_voters (membership c') <> [] /\ nodes_keyed c'
  /\ (quorum_reached_with_witness_policy (membership c) a1 ig = true ->
      quorum_reached_with_witness_policy (membership c') a2 ig = true -> exists n, n ∈ a1 /\ n ∈ a2).
Proof.
  intros Hk Hne. cbn zeta.
  assert (one_member (subject operation) c c /\ m_voters (membership c) <> []) as Hsame by (by split).
  assert (validate operation c = [] ->
    one_member (subject operation) c (snd (run_operation operation c))
    /\ m_voters (membership (snd (run_operation operation c))) <> []) as Hrun.
  { intros Hv. pose proof (run_operation_member operation c) as Ho. split; [done|].
    assert (exists j, is_voter (snd (run_operation operation c)) j) as [j Hj].
    { destruct (validated_keeps_voter operation c Hk Hv Hne) as [(j & Hj & Hvj)|(k & ->)].
      - exists j. apply voter_role_map. rewrite (proj1 Ho j Hj). by apply voter_role_map.
      - destruct (m_voters (membership c)) as [|j l] eqn:Hl; [done|]. exists j. apply voter_role_map.
        pose proof (transfer_leader_roles k c) as Hr. cbn [run_operation]. rewrite Hr. apply voter_role_map, elem_of_voters; [done|].
        rewrite Hl. apply list_elem_of_here. }
    apply elem_of_voters in Hj; [|by apply (proj2 Ho)]. intros E. rewrite E in Hj. by apply not_elem_of_nil in Hj. }
  set (c' := snd (snd _)).
  assert (one_member (subject operation) c c' /\ m_voters (membership c') <> []) as [Ho Hv].
  { subst c'. unfold execute_inner. cbn zeta. case_bool_decide as Hv; [|by rewrite andb_false_r].
    specialize (Hrun Hv). destruct (run_operation operation c) as [r c1]. cbn [snd] in *. by destruct (negb _ && _ && _). }
  clearbody c'. split; [done|]. split; [by apply (proj2 Ho)|]. by apply (one_member_majorities (subject operation)).
Qed.

(** ** Workflows *)

(** Each report begins with the membership the one before ended with. *)
Fixpoint chained (before : Membership) (reports : list MembershipExecutionReport) (after : Membership) : Prop :=
  match reports with
  | [] => before = after
  | report :: rest => mer_before report = before /\ chained (mer_after report) rest after
  end.

Definition applied (report : MembershipExecutionReport) : Prop :=
  mer_success report = true /\ mer_blockers report = [] /\ mer_rolled_back report = false.

Lemma execute_inner_spec operation executor c :
  exists report, mer_operation report = operation /\ mer_before report = membership c
  /\ match execute_inner operation true (executor, c) with
     | (Ok r, (executor', c')) =>
         r = report /\ applied report /\ mer_after report = membership c'
         /\ mex_reports executor' = mex_reports executor ++ [report]
     | (Err _, (executor', c')) =>
         c' = c /\ mer_success report = false /\ mex_reports executor' = mex_reports executor ++ [report]
     end.
Proof.
  unfold execute_inner. cbn zeta. case_bool_decide as Hv.
  - destruct (run_operation operation c) as [[[]|e] c1]; cbn [is_ok negb andb].
    + eexists. split; [|split; [|split; [reflexivity|]]]; [reflexivity|reflexivity|]. by split_and!.
    + eexists. split; [|split; [|split; [reflexivity|split; [|reflexivity]]]]; reflexivity.
  - cbn [is_ok negb andb]. eexists. split; [|split; [|split; [reflexivity|split; [|reflexivity]]]]; reflexivity.
Qed.

Lemma workflow_spec operations executor c :
  match workflow operations (executor, c) with
  | (Ok reports, (executor', c')) =>
      mer_operation <$> reports = operations /\ Forall applied reports
      /\ chained (membership c) reports (membership c') /\ mex_reports executor' = mex_reports executor ++ reports
  | (Err _, (executor', _)) =>
      exists done failed, mex_reports executor' = mex_reports executor ++ done ++ [failed]
      /\ mer_operation <$> (done ++ [failed]) `prefix_of` operations /\ Forall applied done /\ mer_success failed = false
  end.
Proof.
  revert executor c. induction operations as [|operation rest IH]; intros executor c; cbn [workflow].
  { cbn. split_and!; [done|done|done|by rewrite app_nil_r]. }
  destruct (execute_inner_spec operation executor c) as (report & Hop & Hb & He).
  destruct (execute_inner operation true (executor, c)) as [[r|e] [executor1 c1]] eqn:E.
  - destruct He as (-> & Ha & Hafter & Hr). rewrite (bind_Ok _ _ _ _ _ E). specialize (IH executor1 c1).
    destruct (workflow rest (executor1, c1)) as [[reports|e] [executor2 c2]] eqn:W.
    + rewrite (bind_Ok _ _ _ _ _ W). cbn. destruct IH as (H1 & H2 & H3 & H4). split_and!.
      * by rewrite Hop, H1.
      * by constructor.
      * done.
      * by rewrite Hafter.
      * rewrite H4, Hr, <- app_assoc. done.
    + rewrite (bind_Err _ _ _ _ _ W). destruct IH as (done' & failed & H1 & H2 & H3 & H4). exists (report :: done'), failed. split_and!.
      * rewrite H1, Hr, <- app_assoc. done.
      * cbn. rewrite Hop. by apply prefix_cons.
      * by constructor.
      * done.
  - destruct He as (-> & Hs & Hr). rewrite (bind_Err _ _ _ _ _ E). exists [], report. split_and!; [done| |done|done].
    cbn. rewrite Hop. apply prefix_cons, prefix_nil.
Qed.

Lemma mark_rolled_back_snoc executor reports failed :
  mex_reports executor = reports ++ [failed] -> mer_success failed = false ->
  exists marked, mex_reports (mark_rolled_back executor) = reports ++ [marked]
    /\ mer_operation marked = mer_operation failed /\ mer_success marked = false /\ mer_rolled_back marked = true.
Proof.
  intros Hr Hs. unfold mark_rolled_back. rewrite Hr, last_snoc, Hs, removelast_last. cbn zeta.
  eexists. split; [reflexivity|]. by destruct (contains _ _).
Qed.

(** A workflow with rollback is applied whole or not at all. When it succeeds,
    it reports one applied operation per request, in order, each report beginning
    with the membership the one before ended with and the last ending with the
    membership of the group. When an operation is refused or fails, the group is
    exactly the one the workflow began with, and the executor's history shows the
    operations applied before it and, last, the failed one, marked as rolled back. *)
Theorem workflow_is_all_or_nothing operations executor c :
  match execute_all_with_rollback operations (executor, c) with
  | (Ok reports, (executor', c')) =>
      mer_operation <$> reports = operations /\ Forall applied reports
      /\ chained (membership c) reports (membership c') /\ mex_reports executor' = mex_reports executor ++ reports
  | (Err _, (executor', c')) =>
      c' = c /\ exists done failed, mex_reports executor' = mex_reports executor ++ done ++ [failed]
      /\ mer_operation <$> (done ++ [failed]) `prefix_of` operations /\ Forall applied done
      /\ mer_success failed = false /\ mer_rolled_back failed = true
  end.
Proof.
  unfold execute_all_with_rollback. pose proof (workflow_spec operations executor c) as H.
  destruct (workflow operations (executor, c)) as [[reports|e] [executor' c']]; [exact H|].
  destruct H as (done' & failed & Hr & Hp & Ha & Hs). split; [done|]. rewrite app_assoc in Hr.
  destruct (mark_rolled_back_snoc executor' _ failed Hr Hs) as (marked & Hm & Ho & Hs' & Hb).
  exists done', marked. split_and!; [by rewrite Hm, app_assoc| |done|done|done].
  rewrite fmap_app in *. cbn in *. by rewrite Ho.
Qed.

Lemma execution_keeps_quorums_witness :
  m_voters (membership (snd (snd (execute_inner (Remove 3) true (executor_new, applied_leader))))) = [1; 2]%N
  /\ nodes_keyed (snd (snd (execute_inner (Remove 3) true (executor_new, applied_leader)))).
Proof.
  split; [vm_compute; reflexivity|].
  refine (proj1 (proj2 (execution_keeps_quorums (Remove 3) true executor_new applied_leader true [] [] _ _))).
  - apply (bool_decide_unpack _). vm_compute. exact I.
  - vm_compute. discriminate.
Defined.

(** The second operation is refused and the first is undone. *)
Example failed_workflow_undone :
  let '(result, (executor, c)) :=
    execute_all_with_rollback [AddLearner (sample_peer 9 Learner); Remove 77] (executor_new, applied_leader) in
  is_ok result = false /\ node_ids c = node_ids applied_leader
  /\ (fun r => (mer_success r, mer_rolled_back r)) <$> mex_reports executor = [(true, false); (false, true)].
Proof. vm_compute. split_and!; reflexivity. Qed.
