(* ===== verification/Dispatch.v ===== *)
(** * Messages and their dispatch

    [RaftCluster::step] ([src/facade/cluster_runtime.rs]) takes one message of the
    outside world, from a peer ([Message]) or an operator ([AdminCommand],
    [src/facade/api_messages.rs]), to the operation that handles it and wraps the
    answer; [step_batch] runs messages in order and stops at the first error. This
    is the surface of the whole group: every operation of the other files is reached
    through it.

    The theorems: however messages are mixed, and whether they succeed or fail, the
    term of the group never goes back; a batch is the messages one by one up to the
    first that fails. *)

From stdpp Require Import base strings pretty numbers sorting gmap fin_maps sets list.
From S2P Require Import Prelude Types Bytes Slice Membership Node Wal WalSegments WalBinary Protobuf Config Pipeline Cluster Election Append GroupInv Replication ReplicationSafety Votes Reads Reconfig SnapshotTransfer Snapshots Durable Executor.

Inductive AdminCommand : Type :=
| ACampaign (candidate_id : NodeId) (forced : bool)
| ATransferLeader (target : NodeId)
| ACompleteLeaderTransfer
| AAbortLeaderTransfer (reason : string)
| AFireFatalEvent (node_id : NodeId) (reason : string)
| AStepDown (transferee : option NodeId)
| AResign (reason : string)
| ATriggerSnapshot
| ASnapshotReady (snapshot_id : string) (success : bool)
| ASnapshotApplied (snapshot_id : string)
| ABeginSnapshotSend (peer_id : NodeId) (snapshot_id : string) (snapshot_index : LogIndex) (total_chunks : N)
| ARecordSnapshotChunkSent (peer_id : NodeId) (bytes : N)
| AAcknowledgeSnapshotChunk (peer_id : NodeId)
| ARetrySnapshotChunk (peer_id : NodeId)
| ACancelSnapshotSend (peer_id : NodeId)
| ABeginSnapshotInstall (peer_id : NodeId) (snapshot_id : string) (snapshot_index : LogIndex) (total_chunks : N)
| AReceiveSnapshotChunk (peer_id : NodeId) (bytes : N) (done : bool)
| ARollbackSnapshotInstall (peer_id : NodeId)
| AApplyResult (node_id : NodeId) (applied_index : LogIndex) (rejected : bool)
| AApplyTaskInflight (node_id : NodeId) (applied_index : LogIndex)
| AStabledResult (first_index last_index : option LogIndex) (stabled_membership_change_index : LogIndex)
| AReplicated (peer_id : NodeId) (success : bool)
| ACompactLogsThrough (log_index : LogIndex)
| ACompactLogsWithStorageFence (log_index : LogIndex) (fence : StorageApplyFence)
| ACheckpointSnapshot (target : NodeId) (snapshot_id : string)
| AWitnessQuorum (acknowledgements : list NodeId)
| APartitionPeer (peer_id : NodeId)
| AHealPeer (peer_id : NodeId)
| AReceiveOutOfOrderAppend (peer_id : NodeId) (entry : LogEntry)
| AExpirePeerReorderQueue (peer_id : NodeId)
| ASetNodeHealthy (node_id : NodeId) (healthy : bool)
| ASetLeaderLeaseValid (valid : bool)
| AReceiveLeaderLeaseConfirmation (node_id : NodeId) (confirmation_epoch : N) (duration_ms : option N)
| ATickLeaderLease (elapsed_ms : N)
| AReceiveFollowerLease (epoch : N)
| ATickFollowerLease (elapsed_ms : N)
| AProhibitsElection (prohibits : bool)
| AIgnoreWitness (ignore : bool)
| AReleaseMemory.

Inductive Message : Type :=
| MAdmin (command : AdminCommand)
| MPropose (payload : Payload) (options : ProposeOptions)
| MMembership (operation : MembershipOperation)
| MAutoPromoteLearner (learner_id : NodeId)
| MCatchUpPeer (peer_id : NodeId)
| MPreVote (candidate_id : NodeId)
| MAppendEntries (target : NodeId) (request : AppendEntriesRequest)
| MAppendEntriesResponse (local_node_id peer_id : NodeId) (response : AppendEntriesResponse)
| MVote (target : NodeId) (request : VoteRequest)
| MVoteResponse (local_node_id : NodeId) (peer_id : option NodeId) (response : VoteResponse) (pre_vote : bool)
| MInstallSnapshot (target : NodeId) (request : InstallSnapshotRequest)
| MInstallSnapshotResponse (local_node_id peer_id : NodeId) (response : InstallSnapshotResponse)
| MNetworkError (peer_id : NodeId)
| MSnapshotFinish (peer_id : NodeId) (accepted : bool) (committed_index : LogIndex)
| MSnapshotProgress (peer_id : NodeId) (remote_receiving : bool) (elapsed_since_last_receiving_ms send_timeout_ms : N)
| MReadIndex (request : ReadIndexRequest)
| MTimeoutNow (from target : NodeId).

Inductive StepResult : Type :=
| RHandled
| RProposed (log_id : LogId)
| RMembership (report : MembershipExecutionReport)
| RAutoPromoteLearner (report : LearnerAutoPromoteReport)
| RCatchUpPeer (report : LearnerCatchUpLoopReport)
| RPreVote (response : VoteResponse)
| RSnapshotTriggered (meta : SnapshotMetadata)
| RReleasedMemory (released : bool)
| RCompactedLogs (removed : N)
| RFencedCompaction (report : WalCompactionReport)
| RCheckpointedSnapshot (snapshot : RaftSnapshot)
| RLeaderTransferCompleted (completed : bool)
| RLeaderTransferAborted (aborted : bool)
| RFatalEvent (moved_to : option NodeId)
| RLeaderResigned (resigned : bool)
| RLeaderLeaseConfirmed (confirmed : bool)
| RLeaderLeaseExpired (expired : bool)
| RFollowerLeaseReceived (received : bool)
| RFollowerLeaseExpired (expired : bool)
| RStepDown (moved_to : option NodeId)
| RWitnessQuorum (report : WitnessQuorumReport)
| RAppendEntries (response : AppendEntriesResponse)
| RVote (response : VoteResponse)
| RInstallSnapshot (response : InstallSnapshotResponse)
| RReadIndex (response : ReadIndexResponse)
| RTimeoutNow (response : TimeoutNowResponse).

Definition heal_peer (node_id : NodeId) : Cluster LearnerCatchUpLoopReport :=
  _ ← set_node_healthy node_id true; catch_up_peer_with_reason node_id "healed_peer".

(** [result.map(f)], and the operations that do not fail or do not change the group. *)
Definition map_ok {A B} (f : A -> B) (m : Cluster A) : Cluster B := a ← m; mret (f a).
Definition acknowledged {A} (m : Cluster A) : Cluster StepResult := map_ok (fun _ => RHandled) m.
Definition total {A} (f : A -> StepResult) (op : RaftCluster -> A * RaftCluster) : Cluster StepResult := fun c =>
  let '(a, c) := op c in (Ok (f a), c).
Definition observe {A} (f : A -> StepResult) (op : RaftCluster -> Result A) : Cluster StepResult := fun c =>
  (match op c with Ok a => Ok (f a) | Err e => Err e end, c).

Section dispatch.
Context `{!Prost}.

Definition step_admin (command : AdminCommand) : Cluster StepResult :=
  match command with
  | ACampaign candidate_id forced => acknowledged (campaign candidate_id forced)
  | ATransferLeader target => acknowledged (transfer_leader target)
  | ACompleteLeaderTransfer => map_ok RLeaderTransferCompleted try_complete_leader_transfer
  | AAbortLeaderTransfer reason => total RLeaderTransferAborted (abort_leader_transfer reason)
  | AFireFatalEvent node_id _ => map_ok RFatalEvent (apply_fatal_event node_id)
  | AStepDown transferee => map_ok RStepDown (step_down transferee)
  | AResign _ => map_ok RLeaderResigned resign_leader
  | ATriggerSnapshot => map_ok RSnapshotTriggered trigger_snapshot
  | ASnapshotReady snapshot_id success => acknowledged (handle_snapshot_ready snapshot_id success)
  | ASnapshotApplied snapshot_id => acknowledged (complete_snapshot_trigger snapshot_id)
  | ABeginSnapshotSend peer_id snapshot_id snapshot_index total_chunks =>
      acknowledged (begin_snapshot_send_to peer_id snapshot_id snapshot_index total_chunks)
  | ARecordSnapshotChunkSent peer_id bytes => acknowledged (record_snapshot_chunk_sent_to peer_id bytes)
  | AAcknowledgeSnapshotChunk peer_id => acknowledged (acknowledge_snapshot_chunk_to peer_id)
  | ARetrySnapshotChunk peer_id => acknowledged (retry_snapshot_chunk_to peer_id)
  | ACancelSnapshotSend peer_id => acknowledged (cancel_snapshot_send_to peer_id)
  | ABeginSnapshotInstall peer_id snapshot_id snapshot_index total_chunks =>
      acknowledged (begin_snapshot_install_from peer_id snapshot_id snapshot_index total_chunks)
  | AReceiveSnapshotChunk peer_id bytes done => acknowledged (receive_snapshot_chunk_from peer_id bytes done)
  | ARollbackSnapshotInstall peer_id => acknowledged (rollback_snapshot_install_from peer_id)
  | AApplyResult node_id applied_index rejected => acknowledged (submit_apply_result node_id applied_index rejected)
  | AApplyTaskInflight node_id applied_index => acknowledged (mark_apply_task_inflight node_id applied_index)
  | AStabledResult first_index last_index stabled => acknowledged (submit_stabled_result first_index last_index stabled)
  | AReplicated peer_id success => acknowledged (record_replication_task_result_for peer_id success)
  | ACompactLogsThrough log_index => total RCompactedLogs (compact_logs_through log_index)
  | ACompactLogsWithStorageFence log_index fence =>
      total RFencedCompaction (compact_logs_with_storage_fence log_index fence)
  | ACheckpointSnapshot target snapshot_id => observe RCheckpointedSnapshot (checkpoint_snapshot target snapshot_id)
  | AWitnessQuorum acknowledgements => total RWitnessQuorum (witness_quorum_report acknowledgements)
  | APartitionPeer peer_id => acknowledged (partition_peer peer_id)
  | AHealPeer peer_id => map_ok RCatchUpPeer (heal_peer peer_id)
  | AReceiveOutOfOrderAppend peer_id entry => acknowledged (receive_out_of_order_append_for peer_id entry)
  | AExpirePeerReorderQueue peer_id => map_ok RCompactedLogs (expire_peer_reorder_queue peer_id)
  | ASetNodeHealthy node_id healthy => acknowledged (set_node_healthy node_id healthy)
  | ASetLeaderLeaseValid valid => acknowledged (modify (set_leader_lease_valid valid))
  | AReceiveLeaderLeaseConfirmation node_id epoch duration_ms =>
      total RLeaderLeaseConfirmed
        (match duration_ms with
         | Some duration_ms => receive_leader_lease_confirmation_with_duration node_id epoch duration_ms
         | None => receive_leader_lease_confirmation node_id epoch
         end)
  | ATickLeaderLease elapsed_ms => total RLeaderLeaseExpired (tick_leader_lease elapsed_ms)
  | AReceiveFollowerLease epoch => total RFollowerLeaseReceived (receive_follower_lease_item epoch)
  | ATickFollowerLease elapsed_ms => total RFollowerLeaseExpired (tick_follower_lease elapsed_ms)
  | AProhibitsElection prohibits => acknowledged (modify (set_prohibits_election prohibits))
  | AIgnoreWitness ignore => acknowledged (modify (set_ignore_witness ignore))
  | AReleaseMemory => map_ok RReleasedMemory release_memory
  end.

(** A message for the executor runs on one made for it. *)
Definition execute_membership (operation : MembershipOperation) : Cluster MembershipExecutionReport := fun c =>
  let '(r, (_, c)) := execute operation (executor_new, c) in (r, c).

Definition step (message : Message) : Cluster StepResult :=
  match message with
  | MAdmin command => step_admin command
  | MPropose payload options => map_ok RProposed (propose_with_options payload options)
  | MMembership operation => map_ok RMembership (execute_membership operation)
  | MAutoPromoteLearner learner_id => map_ok RAutoPromoteLearner (auto_promote_learner learner_id)
  | MCatchUpPeer peer_id => map_ok RCatchUpPeer (catch_up_peer peer_id)
  | MPreVote candidate_id => observe RPreVote (pre_vote candidate_id)
  | MAppendEntries target request => map_ok RAppendEntries (append_entries_to target request)
  | MAppendEntriesResponse local_node_id peer_id response =>
      acknowledged (handle_append_entries_response local_node_id peer_id response)
  | MVote target request => map_ok RVote (vote_to target request)
  | MVoteResponse local_node_id (Some peer_id) response pre_vote =>
      acknowledged (handle_vote_response_from local_node_id peer_id response pre_vote)
  | MVoteResponse local_node_id None response pre_vote =>
      acknowledged (handle_vote_response local_node_id response pre_vote)
  | MInstallSnapshot target request => map_ok RInstallSnapshot (install_snapshot_chunk_to target request)
  | MInstallSnapshotResponse local_node_id peer_id response =>
      acknowledged (handle_install_snapshot_response local_node_id peer_id response)
  | MNetworkError peer_id => acknowledged (record_network_error_for peer_id)
  | MSnapshotFinish peer_id accepted committed_index =>
      acknowledged (handle_snapshot_finish_from peer_id accepted committed_index)
  | MSnapshotProgress peer_id remote_receiving elapsed_ms send_timeout_ms =>
      acknowledged (update_snapshot_progress_from peer_id remote_receiving elapsed_ms send_timeout_ms)
  | MReadIndex request => observe RReadIndex (read_index request)
  | MTimeoutNow from target => map_ok RTimeoutNow (timeout_now from target)
  end.

(** [collect] into a [Result] stops at the first error and keeps what was done. *)
Fixpoint step_batch (messages : list Message) : Cluster (list StepResult) :=
  match messages with
  | [] => mret []
  | message :: rest => result ← step message; results ← step_batch rest; mret (result :: results)
  end.
End dispatch.

(** ** The term never goes back

    The term of the group at its width: a term past the largest representable one
    (which no [u64] is) counts as that one. *)

Definition term_level (c : RaftCluster) : N := N.min (rc_current_term c) u64_max.
Definition no_lower (c c' : RaftCluster) : Prop := (term_level c <= term_level c')%N.

#[export] Instance no_lower_preorder : PreOrder no_lower.
Proof. unfold no_lower. split; [intros c; lia|intros a b c; lia]. Qed.

Create HintDb terms.

Lemma higher_term c c' : (rc_current_term c <= rc_current_term c')%N -> no_lower c c'.
Proof. unfold no_lower, term_level. lia. Qed.

Lemma same_term c c' : rc_current_term c' = rc_current_term c -> no_lower c c'.
Proof. intros H. apply higher_term. lia. Qed.

Lemma quiet_no_lower c c' : quiet c c' -> no_lower c c'.
Proof. intros [[_ H] _]. by apply same_term. Qed.

Lemma same_ballots_no_lower c c' : same_ballots c c' -> no_lower c c'.
Proof. intros [_ H]. by apply same_term. Qed.

Lemma transits_quiet_terms {A} (m : Cluster A) : transits quiet m -> transits no_lower m.
Proof. intros H c. apply quiet_no_lower, H. Qed.

Lemma with_state_terms {A} (f : RaftCluster -> Cluster A) :
  (forall c, transits no_lower (f c)) -> transits no_lower (with_state f).
Proof. intros H c. apply H. Qed.

(** An operation all of whose branches leave the term alone. *)
Ltac keeps_term := intros; apply same_term; repeat case_match; simplify_eq; reflexivity.

(** The parts of a sequence of operations. *)
Ltac terms_step :=
  lazymatch goal with
  | |- transits no_lower (_ ≫= _) => apply (transits_bind no_lower); [|intros]
  | |- transits no_lower (mret _) => intros ?; reflexivity
  | |- transits no_lower (fail _) => intros ?; reflexivity
  | |- transits no_lower (lift _) => intros ?; reflexivity
  | |- transits no_lower (gets _) => intros ?; reflexivity
  | |- transits no_lower (if ?b then _ else _) => destruct b
  | |- transits no_lower (match ?x with _ => _ end) => destruct x
  | |- transits no_lower (with_state _) => apply with_state_terms; intros ?
  end.
Ltac terms := repeat first [terms_step | progress (eauto with terms)].

Lemma map_ok_terms {A B} (f : A -> B) m : transits no_lower m -> transits no_lower (map_ok f m).
Proof. intros Hm. unfold map_ok. by terms. Qed.

Lemma acknowledged_terms {A} (m : Cluster A) : transits no_lower m -> transits no_lower (acknowledged m).
Proof. apply map_ok_terms. Qed.

Lemma total_terms {A} (f : A -> StepResult) op : (forall c, no_lower c (op c).2) -> transits no_lower (total f op).
Proof. intros Hop c. specialize (Hop c). unfold total. by destruct (op c). Qed.

Lemma observe_terms {A} (f : A -> StepResult) op : transits no_lower (observe f op).
Proof. intros c. unfold observe. by destruct (op c). Qed.

#[local] Hint Resolve map_ok_terms acknowledged_terms total_terms observe_terms : terms.

(** *** Elections *)

Lemma campaign_terms k forced : transits no_lower (campaign k forced).
Proof.
  intros c. unfold campaign. destruct (campaign_refusal k forced c); [reflexivity|].
  destruct (already_leading k c); [reflexivity|]. destruct (checked_add (rc_current_term c) 1) as [t|] eqn:Ht; [|reflexivity].
  assert (no_lower c (take_office k t c)) as H1.
  { apply higher_term. rewrite (proj2 (take_office_ballots k t c)). unfold checked_add in Ht. case_match; simplify_eq. lia. }
  cbn zeta. destruct (rc_running c); [|exact H1]. etrans; [exact H1|]. generalize (take_office k t c). intros c1.
  apply (transits_drop no_lower). intros c2. apply same_ballots_no_lower, broadcast_leader_noop_ballots.
Qed.

Lemma timeout_now_terms from target : transits no_lower (timeout_now from target).
Proof.
  intros c. unfold timeout_now. repeat first [reflexivity|case_match]; cbn [snd].
  all: try (match goal with H : campaign ?k ?f ?s = _ |- _ => pose proof (campaign_terms k f s) as Hc; by rewrite H in Hc end).
Qed.

Lemma adopt_vote_term_terms t r c : no_lower c (adopt_vote_term t r c).
Proof.
  unfold adopt_vote_term. destruct (N.ltb_spec (rc_current_term c) (vr_term r)); [|reflexivity]. cbn [negb].
  apply higher_term. cbn. lia.
Qed.

Lemma decide_vote_terms t r : transits no_lower (decide_vote t r).
Proof.
  intros c. unfold decide_vote. destruct (rc_nodes c !! t) as [n|]; [|reflexivity]. cbn zeta.
  repeat first [reflexivity|apply same_term; reflexivity|case_match]; cbn [snd].
  all: apply higher_term; unfold cast_vote; cbn zeta; repeat case_match; cbn; lia.
Qed.

Lemma vote_to_terms t r : transits no_lower (vote_to t r).
Proof.
  intros c. unfold vote_to. cbn zeta. destruct (negb _); [reflexivity|]. destruct (rc_nodes c !! t) as [n|]; [|reflexivity].
  destruct (negb _); [reflexivity|].
  pose proof (same_ballots_no_lower _ _ (observe_ballots t (vr_candidate_id r) (vr_pre_vote r) c)) as H1.
  generalize dependent (observe_vote_request_candidate t (vr_candidate_id r) (vr_pre_vote r) c). intros c1 H1.
  etrans; [exact H1|]. destruct (rc_nodes c1 !! t) as [n1|]; [|reflexivity]. repeat (case_match; try reflexivity).
  etrans; [apply adopt_vote_term_terms|apply decide_vote_terms].
Qed.

#[local] Hint Resolve campaign_terms timeout_now_terms vote_to_terms : terms.

(** *** Responses and proposals *)

Lemma step_to_higher_term_terms t reason c : (rc_current_term c < t)%N -> no_lower c (step_to_higher_term t reason c).
Proof.
  intros Ht. apply higher_term. unfold step_to_higher_term, abort_leader_transfer. cbn zeta.
  repeat case_match; cbn; lia.
Qed.

Lemma after_success_terms id r : transits no_lower (after_success id r).
Proof.
  unfold after_success. terms. apply transits_quiet_terms, maybe_auto_promote_quiet.
Qed.

Lemma handle_response_terms l id r x y : transits no_lower (handle_append_entries_response_inner l id r x y).
Proof.
  intros c. unfold handle_append_entries_response_inner. cbn zeta. destruct (rc_nodes c !! l); [|reflexivity].
  destruct (if (rc_current_term c <? resp_term r)%N then peer_response_is_active id c else Ok true)
    as [[]|]; [|reflexivity..].
  destruct (N.ltb_spec (rc_current_term c) (resp_term r)) as [Hlt|].
  { pose proof (mark_peer_active_quiet id c) as H1. unfold mbind, ST_bind, modify.
    destruct (mark_peer_active id c) as [[u|e] c1]; cbn [snd] in *; [|by apply quiet_no_lower].
    pose proof (proj2 (proj1 (answering_peer_role_quiet l id c1))) as Ht. pose proof (proj2 (proj1 H1)) as Ht1.
    etrans; [apply quiet_no_lower, H1|]. etrans; [apply quiet_no_lower, (answering_peer_role_quiet l id)|].
    apply step_to_higher_term_terms. lia. }
  apply (bind_step no_lower); [apply quiet_no_lower, mark_peer_active_quiet|intros _].
  apply (transits_bind no_lower); [intros c'; apply quiet_no_lower, answering_peer_role_quiet|intros _].
  apply (transits_bind no_lower); [intros c'; apply quiet_no_lower, record_response_lease_quiet|intros _].
  apply (transits_bind no_lower); [apply transits_quiet_terms, pipeline_response_quiet|intros res].
  apply (transits_bind no_lower).
  { destruct (resp_require_snapshot r); [apply transits_quiet_terms, trigger_new_snapshot_quiet|intros c'; reflexivity]. }
  intros _. terms; [apply transits_quiet_terms, catch_up_quiet|apply after_success_terms].
Qed.

Lemma offer_to_terms id e m n : transits no_lower (offer_to id e m n).
Proof.
  intros c. unfold offer_to.
  match goal with |- context [pipeline_op id ?op c] => pose proof (pipeline_op_quiet id op c) as H1;
    destruct (pipeline_op id op c) as [[[u|x]|] c1] end; cbn [snd] in *; [|by apply quiet_no_lower..].
  etrans; [apply quiet_no_lower, H1|]. destruct (nd_healthy n); [|reflexivity].
  destruct (offer_entry e m n). by apply same_term.
Qed.

Lemma replicate_entry_terms l e m b ids : transits no_lower (replicate_entry l e m b ids).
Proof.
  induction ids as [|id ids IH]; intros c; [reflexivity|]. cbn [replicate_entry]. cbn zeta.
  destruct (rc_nodes c !! id) as [n|] eqn:Hn; [|apply IH]. destruct (_ =? _)%N.
  { etrans; [|apply IH]. by apply same_term. }
  apply (bind_step no_lower); [apply offer_to_terms|intros r].
  apply (transits_bind no_lower); [|intros _; apply IH]. destruct r as [r|]; [|intros c'; reflexivity].
  apply (transits_bind no_lower).
  - destruct (_ && _); intros c'; [apply quiet_no_lower, record_confirmation_quiet|reflexivity].
  - intros _. apply transits_discard, handle_response_terms.
Qed.

Lemma spread_proposal_terms l e m : transits no_lower (spread_proposal l e m).
Proof.
  intros c. unfold spread_proposal. pose proof (begin_renewal_quiet c) as H1.
  destruct (begin_leader_lease_renewal c) as [b c1]. cbn [snd] in H1. etrans; [apply quiet_no_lower, H1|]. cbn zeta.
  set (c2 := if b then _ else c1).
  assert (quiet c1 c2) as H2 by (subst c2; destruct b; [apply record_confirmation_quiet|reflexivity]). clearbody c2.
  etrans; [apply quiet_no_lower, H2|].
  apply (bind_step no_lower); [apply replicate_entry_terms|intros _].
  apply (transits_bind no_lower); [intros c'; apply quiet_no_lower, refresh_commit_index_quiet|intros _ c'].
  destruct b; [apply quiet_no_lower, finish_renewal_quiet|reflexivity].
Qed.

Lemma propose_terms payload options : transits no_lower (propose_with_options payload options).
Proof.
  intros c. unfold propose_with_options. destruct (admit_proposal payload options c) as [[l leader]|]; [|reflexivity].
  apply (bind_step no_lower); [apply quiet_no_lower, make_room_quiet|intros _ c1]. unfold append_proposal.
  destruct (next_log_index c1) as [i|x]; [|reflexivity]. cbn zeta.
  match goal with |- context [register_proposal i ?m c1] => generalize m end. intros m.
  etrans; [apply (same_term _ (register_proposal i m c1)); by destruct m|].
  apply (bind_step no_lower); [apply spread_proposal_terms|intros _ c'; reflexivity].
Qed.

(** *** Votes that come back *)

Lemma become_leader_terms k : transits no_lower (become_leader_current_term k).
Proof.
  intros c. unfold become_leader_current_term. destruct (office_refusal k _ c); [reflexivity|].
  assert (no_lower c (lead_current_term k c)) as H1.
  { apply same_term. unfold lead_current_term. cbn zeta.
    rewrite (proj2 (reset_replication_pipelines_ballots k _)). reflexivity. }
  etrans; [exact H1|]. generalize (lead_current_term k c). intros c2.
  destruct (_ && _); [|reflexivity]. apply (transits_drop no_lower), propose_terms.
Qed.

Lemma start_vote_terms k : transits no_lower (start_vote_after_pre_vote_quorum k).
Proof.
  intros c. unfold start_vote_after_pre_vote_quorum. destruct (office_refusal k _ c); [reflexivity|]. cbn [snd].
  unfold no_lower, term_level. cbn. unfold saturating_add. lia.
Qed.

Lemma record_vote_response_terms l p g pre : transits no_lower (record_vote_response l p g pre).
Proof.
  intros c. unfold record_vote_response. destruct (rc_nodes c !! p); [|reflexivity]. destruct (_ || _); [reflexivity|].
  cbn zeta. pose proof (count_response_quiet l p g pre c) as H1.
  generalize dependent (count_response l p g pre c). intros c1 H1. etrans; [apply quiet_no_lower, H1|].
  destruct (grant_quorum _ c1); [destruct pre; [apply start_vote_terms|apply become_leader_terms]|].
  destruct (election_lost _ c1); [|reflexivity]. apply quiet_no_lower, give_up_election_quiet.
Qed.

Lemma handle_vote_response_terms l p r pre : transits no_lower (handle_vote_response_inner l p r pre).
Proof.
  intros c. unfold handle_vote_response_inner. destruct (rc_nodes c !! l); [|reflexivity]. cbn zeta.
  assert (forall g, no_lower c (snd (match p with Some p => record_vote_response l p g pre c | None => (Ok tt, c) end))) as Hr
    by (intros g; destruct p; [apply record_vote_response_terms|reflexivity]).
  destruct (N.leb_spec (vresp_term r) (rc_current_term c)); [apply Hr|].
  destruct (match p with Some p => peer_response_is_active p c | None => Ok true end) as [[]|]; [|reflexivity..].
  destruct (_ && _); [apply Hr|]. apply higher_term. cbn. lia.
Qed.

#[local] Hint Resolve propose_terms handle_response_terms handle_vote_response_terms : terms.

(** *** Appends *)

Lemma adopt_append_leader_terms r c : no_lower c (adopt_append_leader r c).
Proof.
  unfold adopt_append_leader. destruct (N.leb_spec (rc_current_term c) (aer_term r)); [|reflexivity].
  destruct (negb _); cbn [andb]; [|reflexivity]. cbn zeta. apply higher_term. destruct (_ <? _)%N.
  all: match goal with |- context [settle_leader_transfer ?k ?s] =>
         pose proof (proj2 (settle_leader_transfer_ballots k s)) as Hs; generalize dependent (settle_leader_transfer k s) end;
       intros c1 Hs; cbn in *; lia.
Qed.

Lemma receive_follower_lease_terms epoch c : no_lower c (receive_follower_lease_item epoch c).2.
Proof. apply same_term. unfold receive_follower_lease_item. case_match; reflexivity. Qed.

Lemma renew_append_lease_terms t r c : no_lower c (renew_append_lease t r c).2.
Proof.
  unfold renew_append_lease. destruct (_ && _); [|reflexivity]. cbn [snd].
  unfold renew_follower_lease_from_append_entries. destruct (_ <? _)%N; apply receive_follower_lease_terms.
Qed.

Lemma write_request_terms t r idxs lease n : transits no_lower (write_request t r idxs lease n).
Proof.
  intros c. apply same_term. unfold write_request. cbn zeta.
  destruct (write_entries _ _ _ _ _) as [p|p i]; [|reflexivity]. cbn [snd].
  rewrite (proj2 (refresh_cluster_indexes_ballots _)). destruct (ap_last_retained_after_truncation p); [|reflexivity].
  unfold reset_pending_membership_change_after_truncation. repeat case_match; reflexivity.
Qed.

Lemma append_to_node_terms t r idxs lease n : transits no_lower (append_to_node t r idxs lease n).
Proof.
  intros c. unfold append_to_node. cbn zeta. repeat first [reflexivity|apply write_request_terms|case_match]; cbn [snd].
  all: apply same_term; first [reflexivity|rewrite (proj2 (refresh_cluster_indexes_ballots _)); reflexivity|idtac].
  all: unfold cache_reordered_append; by destruct (aer_prev_log_id r).
Qed.

Lemma receive_append_terms t r idxs : transits no_lower (receive_append t r idxs).
Proof.
  intros c. unfold receive_append. cbn zeta. destruct (negb _); [reflexivity|].
  destruct (negb _); [by destruct (rc_nodes c !! t)|]. destruct (_ <? _)%N; [by destruct (rc_nodes c !! t)|].
  etrans; [apply (adopt_append_leader_terms r)|]. generalize (adopt_append_leader r c). intros c1.
  pose proof (renew_append_lease_terms t r c1) as H1. destruct (renew_append_lease t r c1) as [lease c2]. cbn [snd] in H1.
  etrans; [exact H1|]. destruct (rc_nodes c2 !! t) as [n|]; [|reflexivity]. destruct (_ <? _)%N; [reflexivity|].
  etrans; [|apply append_to_node_terms]. by apply same_term.
Qed.

Lemma append_with_terms drain t r idxs : transits no_lower drain -> transits no_lower (append_with drain t r idxs).
Proof.
  intros Hd c. unfold append_with. pose proof (receive_append_terms t r idxs c) as H1.
  destruct (receive_append t r idxs c) as [[[resp []]|e] c1]; cbn [snd] in *; [|exact H1..].
  etrans; [exact H1|]. specialize (Hd c1). by destruct (drain c1) as [[] c2].
Qed.

Lemma end_drain_terms t m : transits no_lower m -> transits no_lower (end_drain t m).
Proof.
  intros Hm c. unfold end_drain. specialize (Hm c). destruct (m c) as [[] c1]; [|exact Hm]. cbn [snd] in *.
  etrans; [exact Hm|]. apply same_term. unfold drop_empty_queue. repeat case_match; reflexivity.
Qed.

Lemma drain_loop_terms fuel t : transits no_lower (drain_loop fuel t).
Proof.
  induction fuel as [|fuel IH]; intros c; [reflexivity|]. cbn [drain_loop]. unfold drain_step.
  destruct (rc_nodes c !! t) as [n|]; [|reflexivity]. destruct (next_reordered t n c) as [i|]; [|reflexivity].
  destruct (reorder_queue t c !! i) as [q|]; [|reflexivity].
  etrans; [apply (same_term _ (pop_reordered t i c)); reflexivity|]. generalize (pop_reordered t i c). intros c1.
  pose proof (append_with_terms _ t (ra_request q) (ra_membership_change_indexes q) (end_drain_terms t _ IH) c1) as H1.
  destruct (append_with _ t _ _ c1) as [[resp|e] c2]; [|exact H1]. cbn [snd] in H1.
  etrans; [exact H1|]. destruct (resp_success resp); [apply IH|reflexivity].
Qed.

Lemma append_entries_terms t r : transits no_lower (append_entries_to t r).
Proof.
  apply append_with_terms, end_drain_terms. intros c. apply drain_loop_terms.
Qed.

#[local] Hint Resolve append_entries_terms : terms.

(** *** Transfers, resignation and membership *)

Lemma complete_transfer_terms reason c : no_lower c (complete_leader_transfer reason c).2.
Proof. apply same_term. unfold complete_leader_transfer. repeat case_match; reflexivity. Qed.

Lemma hand_over_terms t : transits no_lower (hand_over t).
Proof.
  intros c. unfold hand_over. pose proof (campaign_terms t true c) as H1.
  destruct (campaign t true c) as [[] c1]; [|exact H1]. cbn [snd] in *. etrans; [exact H1|apply complete_transfer_terms].
Qed.

Lemma begin_leader_transfer_terms t : transits no_lower (begin_leader_transfer t).
Proof.
  intros c. apply same_term. unfold begin_leader_transfer. destruct (leader_in_office c); [|reflexivity]. cbn zeta.
  destruct (matrixraft_leader_transfer_admission_kind _ _ _ _); try reflexivity.
  all: repeat case_match; try reflexivity; unfold open_transfer, note_duplicate_transfer; cbn [snd]; cbn zeta.
  all: repeat case_match; reflexivity.
Qed.

Lemma transfer_leader_terms t : transits no_lower (transfer_leader t).
Proof.
  apply (transits_drop no_lower). intros c. unfold transfer_leader_outcome.
  pose proof (begin_leader_transfer_terms t c) as H1. destruct (begin_leader_transfer t c) as [[[x|]|e] c1]; [|exact H1..].
  cbn [snd] in H1. etrans; [exact H1|]. destruct (leader_transfer_target_caught_up t c1) as [[]|]; [|reflexivity..].
  apply (bind_step no_lower); [apply hand_over_terms|intros _ c2; reflexivity].
Qed.

Lemma try_complete_terms : transits no_lower try_complete_leader_transfer.
Proof.
  intros c. unfold try_complete_leader_transfer. destruct (active_leader_transfer c) as [x|]; [|reflexivity]. cbn zeta.
  destruct (leader_transfer_target_caught_up _ c) as [[]|]; [|reflexivity..].
  apply (bind_step no_lower); [apply hand_over_terms|intros _ c2; reflexivity].
Qed.

Lemma step_down_terms t : transits no_lower (step_down t).
Proof.
  intros c. unfold step_down. destruct (match t with Some t => Some t | None => closest_follower c end) as [k|]; [|reflexivity].
  apply (bind_step no_lower); [apply transfer_leader_terms|intros _ c2; reflexivity].
Qed.

Lemma abort_transfer_terms reason c : no_lower c (abort_leader_transfer reason c).2.
Proof. apply quiet_no_lower, abort_leader_transfer_quiet. Qed.

Lemma refresh_replication_pipelines_terms c : no_lower c (refresh_replication_pipelines c).
Proof. apply same_term. by rewrite refresh_replication_pipelines_only. Qed.

Lemma resign_terms : transits no_lower resign_leader.
Proof.
  intros c. unfold resign_leader. destruct (require_running "resign" c); [|reflexivity].
  destruct (rc_leader_id c) as [l|]; [|reflexivity]. destruct (rc_nodes c !! l); cbn [snd]; cbn zeta.
  - etrans; [|apply refresh_replication_pipelines_terms]. etrans; [|apply quiet_no_lower, leave_office_spec].
    apply same_term. reflexivity.
  - apply quiet_no_lower, leave_office_spec.
Qed.

Lemma fatal_terms k : transits no_lower (apply_fatal_event k).
Proof.
  intros c. unfold apply_fatal_event.
  set (m := if bool_decide (rc_leader_id c = Some k) then _ else _).
  assert (no_lower c m.2) as H1 by (subst m; case_bool_decide; [apply step_down_terms|reflexivity]). clearbody m.
  destruct m as [r c1]. cbn [snd] in H1. etrans; [exact H1|].
  apply (bind_step no_lower); [apply quiet_no_lower, set_node_healthy_quiet|intros _ c2; reflexivity].
Qed.

Lemma catch_up_terms k reason : transits no_lower (catch_up_peer_with_reason k reason).
Proof. apply transits_quiet_terms, catch_up_quiet. Qed.

Lemma add_peer_terms peer : transits no_lower (add_peer peer).
Proof.
  intros c. unfold add_peer. destruct (require_running _ c); [|reflexivity]. destruct (bool_decide _); [reflexivity|].
  cbn zeta. assert (no_lower c (admit_peer peer c)) as H1
    by (unfold admit_peer; cbn zeta; etrans; [|apply refresh_replication_pipelines_terms]; by apply same_term).
  etrans; [exact H1|]. generalize (admit_peer peer c). intros c1.
  match goal with |- context [if ?b then _ else _] => destruct b end; [|reflexivity].
  apply (transits_drop no_lower), catch_up_terms.
Qed.

Lemma forget_node_terms k reason c : no_lower c (forget_node k reason c).
Proof.
  unfold forget_node. cbn zeta. case_match; [|by apply same_term].
  etrans; [|apply abort_transfer_terms]. by apply same_term.
Qed.

Lemma remove_peer_terms k : transits no_lower (remove_peer k).
Proof.
  intros c. unfold remove_peer. destruct (require_running _ c); [|reflexivity]. cbn zeta.
  destruct (negb _); [reflexivity|]. set (t := if bool_decide _ then closest_follower c else None). clearbody t.
  etrans; [apply (forget_node_terms k "transferee_removed")|]. generalize (forget_node k "transferee_removed" c). intros c1.
  case_bool_decide.
  - set (c2 := invalidate_leader_lease _). assert (no_lower c1 c2) as H2 by (subst c2; by apply same_term). clearbody c2.
    etrans; [exact H2|]. destruct t as [t|]; [|apply refresh_replication_pipelines_terms].
    pose proof (campaign_terms t true c2) as H3. destruct (campaign t true c2) as [[] c3]; [|exact H3]. cbn [snd] in *.
    etrans; [exact H3|apply refresh_replication_pipelines_terms].
  - cbn [snd]. etrans; [|apply refresh_replication_pipelines_terms].
    etrans; [|apply quiet_no_lower, refresh_commit_index_quiet]. by apply same_term.
Qed.

Lemma promote_committed_terms k c : no_lower c (promote_committed k c).
Proof. unfold promote_committed. etrans; [|apply refresh_replication_pipelines_terms]. by apply same_term. Qed.

Lemma apply_committed_add_terms peer : transits no_lower (apply_committed_add peer).
Proof.
  intros c. unfold apply_committed_add. destruct (rc_nodes c !! peer_node_id peer).
  - destruct (_ && _); [apply promote_committed_terms|reflexivity].
  - apply (bind_step no_lower); [apply add_peer_terms|intros _ c1; reflexivity].
Qed.

Lemma apply_committed_terms operation : transits no_lower (apply_committed_membership_operation operation).
Proof.
  intros c. destruct operation as [p|p|p|p|k|k|k]; try apply apply_committed_add_terms; cbn.
  - destruct (rc_nodes c !! k) as [n|]; [|reflexivity].
    destruct (nd_replica_role n); try reflexivity. apply promote_committed_terms.
  - destruct (negb _); [reflexivity|]. apply (bind_step no_lower); [apply remove_peer_terms|intros _ c1; reflexivity].
  - apply (bind_step no_lower); [apply transfer_leader_terms|intros _ c1; reflexivity].
Qed.

Lemma learner_catch_up_terms k : transits no_lower (learner_catch_up_loop k).
Proof. apply transits_quiet_terms, learner_catch_up_loop_quiet. Qed.
Lemma promote_peer_terms k : transits no_lower (promote_peer k).
Proof. apply transits_quiet_terms, promote_peer_quiet. Qed.

#[local] Hint Resolve transfer_leader_terms try_complete_terms step_down_terms abort_transfer_terms resign_terms
  fatal_terms catch_up_terms add_peer_terms remove_peer_terms apply_committed_terms learner_catch_up_terms
  promote_peer_terms : terms.

Lemma auto_promote_terms k : transits no_lower (auto_promote_learner k).
Proof.
  intros c. unfold auto_promote_learner. destruct (rc_nodes c !! k) as [n|]; [|reflexivity].
  destruct (_ && _); [reflexivity|]. destruct (negb _); [reflexivity|]. cbn zeta. destruct (negb _); [reflexivity|].
  destruct (_ && _); [reflexivity|]. set (s := if bool_decide _ then Promoting else PromoteCheck). clearbody s.
  set (c1 := on_node k (set_auto_promote_state s) c). assert (no_lower c c1) as H1 by (by apply same_term). clearbody c1.
  etrans; [exact H1|].
  assert (transits no_lower (catch_up_without_promotion k (nd_auto_promote n))) as Hc.
  { intros c2. unfold catch_up_without_promotion. cbn zeta. set (c3 := on_node k _ c2).
    assert (no_lower c2 c3) as H2 by (by apply same_term). clearbody c3. etrans; [exact H2|].
    pose proof (learner_catch_up_terms k c3) as H3. destruct (learner_catch_up_loop k c3) as [r c4].
    etrans; [exact H3|]. by apply same_term. }
  specialize (Hc c1). destruct (catch_up_without_promotion k (nd_auto_promote n) c1) as [[r|e] c2]; [|exact Hc].
  cbn [snd] in Hc. etrans; [exact Hc|]. unfold promote_after_catch_up. cbn zeta. do 4 (case_match; [reflexivity|]).
  etrans; [apply (same_term _ (on_node k (set_auto_promote_state Promoting) c2)); reflexivity|].
  apply (bind_step no_lower); [apply promote_peer_terms|intros _ c3; reflexivity].
Qed.

Lemma run_operation_terms operation : transits no_lower (run_operation operation).
Proof.
  destruct operation; cbn; unfold add_learner, add_witness, execute_promote; try solve [eauto with terms]; terms.
Qed.

Lemma execute_membership_terms operation : transits no_lower (execute_membership operation).
Proof.
  intros c. unfold execute_membership, execute, execute_inner. cbn zeta.
  pose proof (run_operation_terms operation c) as H1.
  case_bool_decide; [|reflexivity]. destruct (run_operation operation c) as [[u|e] c1]; exact H1.
Qed.

#[local] Hint Resolve auto_promote_terms execute_membership_terms : terms.

(** *** Snapshots *)

Lemma foldl_terms {A} (f : RaftCluster -> A -> RaftCluster) l c :
  (forall c x, no_lower c (f c x)) -> no_lower c (foldl f c l).
Proof. intros Hf. by apply (foldl_keeps no_lower). Qed.

Lemma reset_membership_terms t ids members c : no_lower c (reset_membership_from_snapshot t ids members c).
Proof.
  unfold reset_membership_from_snapshot. cbn zeta. set (c1 := settle_members t ids members c).
  assert (no_lower c c1) as H1.
  { subst c1. unfold settle_members. cbn zeta. etrans; [|apply foldl_terms; by intros; apply same_term].
    etrans; [|apply foldl_terms; by intros; apply same_term]. apply foldl_terms. intros c2 k. unfold remove_unlisted.
    cbn zeta. etrans; [apply (forget_node_terms k "snapshot_membership_removed_transferee")|].
    generalize (forget_node k "snapshot_membership_removed_transferee" c2). intros c3. case_bool_decide; by apply same_term. }
  clearbody c1. etrans; [exact H1|]. etrans; [apply (same_term _ (reset_leader_lease_epoch c1)); reflexivity|].
  generalize (reset_leader_lease_epoch c1). intros c2. etrans; [apply quiet_no_lower, refresh_commit_index_quiet|].
  etrans; [apply refresh_replication_pipelines_terms|]. generalize (refresh_replication_pipelines (refresh_commit_index c2)).
  intros c3. destruct (rc_leader_id c3); [|reflexivity]. by apply same_term.
Qed.

Lemma install_snapshot_terms t s f : transits no_lower (install_snapshot_to t s f).
Proof.
  intros c. unfold install_snapshot_to. destruct (negb _); [reflexivity|].
  destruct (matrixraft_validate_snapshot_install s f); [|reflexivity]. destruct (rc_nodes c !! t); [|reflexivity]. cbn zeta.
  destruct (check_snapshot_index t _ _); [|reflexivity]. cbn [snd].
  etrans; [|apply quiet_no_lower, refresh_cluster_indexes_quiet]. etrans; [|apply quiet_no_lower, quiet_on_pipeline].
  set (c1 := clear_reorder_queue_for t _). assert (no_lower c c1) as H1 by (by apply same_term). clearbody c1.
  etrans; [exact H1|]. etrans; [apply (reset_membership_terms t (snap_membership (rs_meta s)) (snap_members (rs_meta s)))|].
  generalize (reset_membership_from_snapshot t (snap_membership (rs_meta s)) (snap_members (rs_meta s)) c1). intros c2.
  apply same_term. cbn. unfold mark_snapshot_membership_floor_applied. cbn. by case_match.
Qed.

Lemma install_or_queue_terms t s f : transits no_lower (install_or_queue_completed_snapshot t s f).
Proof.
  intros c. unfold install_or_queue_completed_snapshot. pose proof (install_snapshot_terms t s f c) as H1.
  destruct (install_snapshot_to t s f c) as [[] c1]; [exact H1|]. case_match; [|exact H1]. cbn [snd] in *.
  etrans; [exact H1|]. by apply same_term.
Qed.

Lemma try_install_pending_terms t : transits no_lower (try_install_pending_snapshot_to t).
Proof.
  intros c. unfold try_install_pending_snapshot_to. destruct (rc_pending_snapshots c !! t) as [p|]; [|reflexivity].
  pose proof (install_snapshot_terms t (psi_snapshot p) (psi_fence p) c) as H1.
  destruct (install_snapshot_to t _ _ c) as [[] c1]; [exact H1|]. case_match; exact H1.
Qed.

Lemma leave_after_rejection_terms k c : no_lower c (leave_after_rejection k c).
Proof.
  unfold leave_after_rejection. cbn zeta. set (c1 := on_node k _ c).
  assert (no_lower c c1) as H1 by (by apply same_term). clearbody c1. etrans; [exact H1|].
  set (m := match closest_follower c with Some _ => _ | None => _ end).
  assert (no_lower c1 m.2) as H2.
  { subst m. destruct (closest_follower c) as [t|]; [|reflexivity]. pose proof (campaign_terms t true c1) as H2.
    by destruct (campaign t true c1). }
  clearbody m. destruct m as [b c2]. etrans; [exact H2|]. cbn [snd]. case_match; [by apply same_term|reflexivity].
Qed.

Lemma submit_apply_result_terms k i rejected : transits no_lower (submit_apply_result k i rejected).
Proof.
  intros c. unfold submit_apply_result. destruct (rc_nodes c !! k) as [n|]; [|reflexivity].
  destruct (_ || _); [reflexivity|]. cbn zeta. set (c1 := on_node k _ c).
  assert (no_lower c c1) as H1 by (by apply same_term). clearbody c1. etrans; [exact H1|].
  set (c2 := if _ && _ then leave_after_rejection k c1 else c1).
  assert (no_lower c1 c2) as H2 by (subst c2; destruct (_ && _); [apply leave_after_rejection_terms|reflexivity]).
  clearbody c2. etrans; [exact H2|]. apply (bind_step no_lower); [apply try_install_pending_terms|].
  intros _ c3. apply quiet_no_lower, refresh_cluster_indexes_quiet.
Qed.

Lemma observe_snapshot_leader_terms r c : no_lower c (observe_snapshot_leader r c).
Proof.
  unfold observe_snapshot_leader. destruct (isr_term r <? rc_current_term c)%N; [reflexivity|]. cbn zeta.
  set (c1 := if (rc_current_term c <? isr_term r)%N then _ else c).
  assert (no_lower c c1) as H1.
  { subst c1. destruct (N.ltb_spec (rc_current_term c) (isr_term r)); [|reflexivity]. apply higher_term. cbn. lia. }
  clearbody c1. etrans; [exact H1|]. set (c2 := if negb _ then _ else c1).
  assert (no_lower c1 c2) as H2.
  { subst c2. destruct (negb _); [|reflexivity].
    set (c3 := match active_leader_transfer c1 with Some _ => _ | None => c1 end).
    assert (no_lower c1 c3) as H3.
    { subst c3. destruct (active_leader_transfer c1); [|reflexivity].
      destruct (_ =? _)%N; [apply complete_transfer_terms|apply abort_transfer_terms]. }
    clearbody c3. etrans; [exact H3|]. by apply same_term. }
  clearbody c2. etrans; [exact H2|]. by apply same_term.
Qed.

Lemma receive_chunk_terms t chunk : transits no_lower (receive_chunk t chunk).
Proof.
  intros c. unfold receive_chunk. set (m := open_target_installer t chunk c).
  assert (no_lower c m.2) as H1 by (subst m; unfold open_target_installer; cbn zeta; repeat case_match; by apply same_term).
  clearbody m. destruct m as [[installer|e] c1]; [|exact H1]. cbn [snd] in H1. etrans; [exact H1|].
  destruct (install_chunk chunk installer) as [[u|e] s]; [|reflexivity]. case_match; [by apply same_term|]. cbn zeta.
  case_match; by apply same_term.
Qed.

Lemma install_chunk_terms t r : transits no_lower (install_snapshot_chunk_to t r).
Proof.
  unfold install_snapshot_chunk_to. apply (transits_bind no_lower).
  - intros c. unfold observe_chunk. cbn zeta. destruct (negb _); [reflexivity|].
    destruct (reject_snapshot_before_observe t r _ c) as [[x|]|e]; [reflexivity| |reflexivity].
    etrans; [apply (observe_snapshot_leader_terms r)|]. generalize (observe_snapshot_leader r c). intros c1.
    unfold stale_snapshot_chunk_response. destruct (rc_nodes c1 !! t); [|reflexivity]. cbn zeta.
    destruct (negb _); [reflexivity|]. by apply same_term.
  - intros [x|]; [intros c; reflexivity|]. unfold take_chunk. apply with_state_terms. intros c.
    cbn zeta. destruct (installed_index_of t c); [|intros c'; reflexivity]. destruct (_ <=? _)%N.
    { apply (transits_bind no_lower); [intros c'; by apply same_term|intros _ c'; reflexivity]. }
    destruct (ignored_while_receiving t _ c); [intros c'; reflexivity|].
    apply (transits_bind no_lower); [apply receive_chunk_terms|intros [s|]; [|intros c'; reflexivity]].
    apply (transits_bind no_lower); [apply install_or_queue_terms|intros x c'; reflexivity].
Qed.

Lemma peer_op_terms {A} k (op : ST RaftError ReplicationPipeline A) : transits no_lower (peer_op k op).
Proof.
  intros c. unfold peer_op. pose proof (pipeline_op_quiet k op c) as H1.
  destruct (pipeline_op k op c) as [[r|] c1]; by apply quiet_no_lower.
Qed.

Lemma trigger_snapshot_terms : transits no_lower trigger_snapshot.
Proof. apply transits_quiet_terms, trigger_snapshot_quiet. Qed.

#[local] Hint Resolve submit_apply_result_terms install_chunk_terms peer_op_terms trigger_snapshot_terms : terms.

Lemma snapshot_ready_terms id success : transits no_lower (handle_snapshot_ready id success).
Proof.
  intros c. unfold handle_snapshot_ready. destruct (rc_snapshot_trigger c) as [x|]; [|reflexivity].
  destruct (negb _); [reflexivity|]. cbn zeta. destruct success; [|by apply same_term].
  unfold publish_ready_snapshot_to_waiting_peers. destruct (rc_leader_id _) as [l|]; [|by apply same_term]. cbn zeta.
  set (c1 := on_node l _ _). assert (no_lower c c1) as H1 by (by apply same_term). clearbody c1. etrans; [exact H1|].
  apply transits_for_each; [exact _|]. intros k c2. unfold publish_snapshot_to.
  destruct (_ =? _)%N; [reflexivity|]. case_match; [apply peer_op_terms|reflexivity].
Qed.

Lemma complete_trigger_terms id : transits no_lower (complete_snapshot_trigger id).
Proof. intros c. unfold complete_snapshot_trigger. repeat case_match; by apply same_term. Qed.

Lemma replication_task_terms k success : transits no_lower (record_replication_task_result_for k success).
Proof.
  intros c. unfold record_replication_task_result_for. destruct (rc_nodes c !! k); [|reflexivity].
  destruct (_ || _); [reflexivity|]. destruct (rc_leader_id c); [|reflexivity]. cbn zeta.
  destruct (rc_peer_pipelines c !! k); [|reflexivity].
  assert (transits no_lower (_ ← trigger_snapshot; mret false)) as Ht by terms.
  destruct (_ ≫= _) as [s|]; [|apply Ht]. destruct (_ <=? _)%N; [|apply Ht].
  apply (bind_step no_lower); [apply peer_op_terms|intros _ c1; reflexivity].
Qed.

Lemma snapshot_finish_terms k accepted i : transits no_lower (handle_snapshot_finish_from k accepted i).
Proof.
  intros c. unfold handle_snapshot_finish_from. destruct (rc_peer_pipelines c !! k); [|reflexivity].
  destruct (_ && _); [reflexivity|]. apply (bind_step no_lower); [apply peer_op_terms|intros _].
  apply with_state_terms. intros c1. terms.
Qed.

Lemma install_response_terms l k r : transits no_lower (handle_install_snapshot_response l k r).
Proof.
  intros c. unfold handle_install_snapshot_response. destruct (rc_nodes c !! l); [|reflexivity]. cbn zeta.
  destruct (if (rc_current_term c <? isp_term r)%N then _ else _) as [[]|]; [|reflexivity..].
  destruct (N.ltb_spec (rc_current_term c) (isp_term r)); [by apply step_to_higher_term_terms|].
  destruct (_ && _); [|reflexivity]. apply (bind_step no_lower); [apply snapshot_finish_terms|intros _].
  apply with_state_terms. intros c1. terms.
Qed.

#[local] Hint Resolve snapshot_ready_terms complete_trigger_terms replication_task_terms snapshot_finish_terms
  install_response_terms : terms.

(** *** Leases, liveness and the rest *)

Lemma set_node_healthy_terms k healthy : transits no_lower (set_node_healthy k healthy).
Proof. apply transits_quiet_terms, set_node_healthy_quiet. Qed.

Lemma heal_peer_terms k : transits no_lower (heal_peer k).
Proof. unfold heal_peer. terms. apply set_node_healthy_terms. Qed.

Lemma apply_inflight_terms k i : transits no_lower (mark_apply_task_inflight k i).
Proof.
  intros c. unfold mark_apply_task_inflight. repeat (case_match; try reflexivity). cbn [snd].
  etrans; [|apply quiet_no_lower, refresh_cluster_indexes_quiet]. by apply same_term.
Qed.

Lemma stabled_terms first last i : transits no_lower (submit_stabled_result first last i).
Proof.
  intros c. unfold submit_stabled_result. cbn zeta. set (c1 := if (0 <? i)%N then _ else c).
  assert (no_lower c c1) as H1.
  { subst c1. apply same_term. destruct (_ <? _)%N; [|done]. unfold mark_membership_change_stabled.
    cbn zeta. unfold mark_membership_change_applied. repeat case_match; reflexivity. }
  clearbody c1. repeat (case_match; try reflexivity; try exact H1); cbn [snd].
  all: etrans; [exact H1|apply quiet_no_lower, refresh_commit_index_quiet].
Qed.

Lemma witness_report_terms acks c : no_lower c (witness_quorum_report acks c).2.
Proof. unfold witness_quorum_report. cbn [snd]. apply foldl_terms. intros c1 k. apply quiet_no_lower, quiet_on_pipeline. Qed.

Lemma compact_terms i c : no_lower c (compact_logs_through i c).2.
Proof. apply quiet_no_lower. unfold compact_logs_through. apply compact_logs_quiet. Qed.

Lemma fenced_compact_terms i f c : no_lower c (compact_logs_with_storage_fence i f c).2.
Proof.
  unfold compact_logs_with_storage_fence. cbn zeta. destruct (matrixraft_validate_storage_apply_fence f); [|reflexivity].
  destruct (_ || _); [reflexivity|]. pose proof (compact_terms i c) as H1. by destruct (compact_logs_through i c).
Qed.

Lemma set_lease_valid_terms valid c : no_lower c (set_leader_lease_valid valid c).
Proof.
  unfold set_leader_lease_valid. destruct valid; [|by apply same_term].
  unfold renew_leader_lease_from_live_quorum. destruct (rc_leader_id c); [|by apply same_term]. cbn zeta.
  destruct (negb _); [by apply same_term|]. pose proof (begin_renewal_quiet c) as H1.
  destruct (begin_leader_lease_renewal c) as [b c1]. cbn [snd] in H1. etrans; [apply quiet_no_lower, H1|].
  destruct (negb b); [reflexivity|]. etrans; [|apply quiet_no_lower, finish_renewal_quiet].
  apply foldl_terms. intros c2 k. apply quiet_no_lower, record_confirmation_quiet.
Qed.

Lemma confirmation_terms k epoch duration c :
  no_lower c (match duration with
              | Some duration => receive_leader_lease_confirmation_with_duration k epoch duration
              | None => receive_leader_lease_confirmation k epoch
              end c).2.
Proof. destruct duration; apply quiet_no_lower, receive_confirmation_quiet. Qed.

Lemma tick_follower_terms ms c : no_lower c (tick_follower_lease ms c).2.
Proof. apply same_term. unfold tick_follower_lease. repeat case_match; reflexivity. Qed.

Lemma ignore_witness_terms ignore c : no_lower c (set_ignore_witness ignore c).
Proof.
  unfold set_ignore_witness. destruct (Bool.eqb _ _); [reflexivity|]. cbn zeta.
  etrans; [|apply quiet_no_lower, refresh_commit_index_quiet]. destruct ignore; [|by apply same_term].
  set (c1 := foldl _ _ _). assert (no_lower c c1) as H1.
  { subst c1. etrans; [apply (same_term _ (c <| rc_ignore_witness := true |> <| rc_count_witness_in_commit_quorum := false |>)); reflexivity|].
    apply foldl_terms. intros c2 k. by apply same_term. }
  clearbody c1. etrans; [exact H1|]. by apply same_term.
Qed.

#[local] Hint Resolve set_node_healthy_terms heal_peer_terms apply_inflight_terms stabled_terms witness_report_terms
  compact_terms fenced_compact_terms set_lease_valid_terms confirmation_terms receive_follower_lease_terms
  tick_follower_terms ignore_witness_terms : terms.

Section dispatched.
Context `{!Prost}.

Lemma step_admin_terms command : transits no_lower (step_admin command).
Proof.
  destruct command; cbn [step_admin]; try solve [eauto with terms].
  - apply acknowledged_terms. intros c. apply set_lease_valid_terms.
  - apply total_terms. intros c. apply quiet_no_lower, tick_leader_lease_quiet.
  - apply acknowledged_terms. intros c. by apply same_term.
  - apply acknowledged_terms. intros c. apply ignore_witness_terms.
  - apply map_ok_terms, transits_quiet_terms, release_memory_quiet.
Qed.

Lemma step_terms message : transits no_lower (step message).
Proof.
  destruct message as [| | | | | | | | |l [p|] r pre| | | | | | |]; cbn [step]; try solve [eauto using step_admin_terms with terms].
  apply acknowledged_terms, transits_quiet_terms, record_network_error_quiet.
Qed.

Lemma step_batch_terms messages : transits no_lower (step_batch messages).
Proof.
  induction messages as [|message rest IH]; [intros c; reflexivity|]. cbn [step_batch].
  apply (transits_bind no_lower); [apply step_terms|intros r].
  apply (transits_bind no_lower); [exact IH|intros rs c; reflexivity].
Qed.

(** C14: The term of the group never goes back. Whatever messages of peers, operators
    and clients a batch holds, in whatever order, and whether the batch succeeds or
    stops at an error, the term of the group afterwards is at least the term before;
    the lowest term an earlier answer can carry is never undercut. *)
Theorem messages_never_lower_term messages c :
  u64 (rc_current_term c) -> (rc_current_term c <= rc_current_term (snd (step_batch messages c)))%N.
Proof. intros Hu. pose proof (step_batch_terms messages c) as Hle. unfold no_lower, term_level, u64 in *. lia. Qed.

(** A batch is the messages one by one. It succeeds with one answer per message,
    in order, or it stops at the first message that fails with that message's error:
    the messages before it have all been answered and keep their effect, the failing
    one leaves what it left, and none of the later ones is looked at. *)
Theorem batch_stops_at_first_error messages c :
  match step_batch messages c with
  | (Ok results, c') => length results = length messages
      /\ forall i message, messages !! i = Some message ->
           exists r ci ci', step_batch (take i messages) c = (Ok (take i results), ci)
             /\ step message ci = (Ok r, ci') /\ results !! i = Some r
  | (Err e, c') => exists before message after results c1,
      messages = before ++ message :: after /\ step_batch before c = (Ok results, c1)
      /\ step message c1 = (Err e, c')
  end.
Proof.
  revert c. induction messages as [|m rest IH]; intros c; [by split|].
  cbn [step_batch]. unfold mbind, ST_bind. destruct (step m c) as [[r|e] c1] eqn:Hm.
  2: { by exists [], m, rest, [], c. }
  specialize (IH c1). destruct (step_batch rest c1) as [[rs|e] c2] eqn:Hr.
  - destruct IH as [Hlen IH]. split; [cbn; lia|]. intros [|i] message Hi.
    + injection Hi as <-. by exists r, c, c1.
    + destruct (IH i message Hi) as (r' & ci & ci' & Hb & Hs & Hres). exists r', ci, ci'. split_and!; [|done|done].
      cbn [take step_batch]. rewrite (bind_Ok _ _ _ _ _ Hm), (bind_Ok _ _ _ _ _ Hb). done.
  - destruct IH as (before & message & after & results & c0 & -> & Hb & Hs).
    exists (m :: before), message, after, (r :: results), c0. split_and!; [done| |done].
    cbn [step_batch]. rewrite (bind_Ok _ _ _ _ _ Hm), (bind_Ok _ _ _ _ _ Hb). done.
Qed.
End dispatched.

(** Node 2 is made to campaign, a stale append of the old leader arrives, and a chunk for a
    node that is not there stops the batch before the resignation. *)
Definition sample_messages : list Message :=
  [MAdmin (ACampaign 2 true);
   MAppendEntries 3 (mkAppendEntriesRequest 7 2 1 None [] 0 0);
   MAdmin (ARetrySnapshotChunk 9);
   MAdmin (AResign "maintenance")].

Lemma messages_never_lower_term_witness :
  fst (step_batch sample_messages sample_cluster) = Err (NodeNotFound 9)
  /\ rc_leader_id (snd (step_batch sample_messages sample_cluster)) = Some 2%N
  /\ rc_current_term sample_cluster = 2%N /\ rc_current_term (snd (step_batch sample_messages sample_cluster)) = 3%N
  /\ (rc_current_term sample_cluster <= rc_current_term (snd (step_batch sample_messages sample_cluster)))%N.
Proof.
  do 4 (split; [vm_compute; reflexivity|]). apply messages_never_lower_term. vm_compute. discriminate.
Defined.
