(* ===== verification/Mail.v ===== *)
(** * Mailboxes and the scheduler's queues

    [MailBox] ([src/mailbox.rs]) is a bounded queue with three lanes of priority that
    many threads share; [Scheduler] ([src/scheduler.rs]) queues its tasks in one and
    keeps two lists of answers. Every operation holds the mailbox's mutex once, so an
    interleaving of threads is a sequence of operations: [mail_step] is one of them,
    together with what it lets in and what it lets out. A wait on a condition
    variable is the operation not being enabled. A poisoned mutex (a thread that
    panicked while it held it) is not modelled.

    The theorems: each lane hands out exactly what it let in, in order, whatever the
    threads do; a fetch empties the lanes above its cut and shares its limit among the
    others in order of priority; a lane only passes the watermark through the
    unbounded [send]. *)

From stdpp Require Import base strings pretty numbers list.
From S2P Require Import Prelude Types.

Inductive MailPriority : Type := Urgent | Normal | Slowly.
#[export] Instance MailPriority_eq_dec : EqDecision MailPriority.
Proof. solve_decision. Defined.

Definition MailPriority_index (p : MailPriority) : N :=
  match p with Urgent => 0 | Normal => 1 | Slowly => 2 end%N.

Record MailBoxFetchPolicy := mkMailBoxFetchPolicy {
  mfp_limit : N;
  mfp_timeout_ms : N;
  mfp_include_until : MailPriority
}.

Definition MATRIXRAFT_MAILBOX_MAX_TIMEOUT_MS : N := 9223372036854775807.

Definition MailBoxFetchPolicy_default : MailBoxFetchPolicy :=
  mkMailBoxFetchPolicy 1 MATRIXRAFT_MAILBOX_MAX_TIMEOUT_MS Urgent.

Record MailBoxPressureStats := mkMailBoxPressureStats {
  mps_high_watermark : N;
  mps_total_len : N;
  mps_max_channel_depth : N;
  mps_rejected_send_count : N
}.

Definition len {A} (l : list A) : N := N.of_nat (length l).

Lemma len_app {A} (l l' : list A) : len (l ++ l') = (len l + len l')%N.
Proof. unfold len. rewrite length_app. lia. Qed.

Section mailbox.
Context {Mail : Type}.

(** [[VecDeque<Mail>; 3]], one queue per priority, in the order of the priorities. *)
Record Lanes := mkLanes { lane_urgent : list Mail; lane_normal : list Mail; lane_slowly : list Mail }.

Definition lane (p : MailPriority) (l : Lanes) : list Mail :=
  match p with Urgent => lane_urgent l | Normal => lane_normal l | Slowly => lane_slowly l end.
Definition on_lane (p : MailPriority) (f : list Mail -> list Mail) (l : Lanes) : Lanes :=
  match p with
  | Urgent => mkLanes (f (lane_urgent l)) (lane_normal l) (lane_slowly l)
  | Normal => mkLanes (lane_urgent l) (f (lane_normal l)) (lane_slowly l)
  | Slowly => mkLanes (lane_urgent l) (lane_normal l) (f (lane_slowly l))
  end.
Definition no_mail : Lanes := mkLanes [] [] [].
Definition lanes_list (l : Lanes) : list (list Mail) := [lane_urgent l; lane_normal l; lane_slowly l].
Definition all_mail (l : Lanes) : list Mail := mjoin (lanes_list l).
Definition lanes_app (l l' : Lanes) : Lanes :=
  mkLanes (lane_urgent l ++ lane_urgent l') (lane_normal l ++ lane_normal l') (lane_slowly l ++ lane_slowly l').

Record MailBox := mkMailBox {
  mb_high_watermark : N;
  mb_channels : Lanes;
  mb_max_channel_depth : N;
  mb_rejected_send_count : N
}.
#[export] Instance eta_MailBox : Settable MailBox :=
  fun b => mkMailBox (mb_high_watermark b) (mb_channels b) (mb_max_channel_depth b) (mb_rejected_send_count b).

Definition mailbox_new (high_watermark : N) : MailBox := mkMailBox (N.max high_watermark 1) no_mail 0 0.

Definition has_new_mail (b : MailBox) : bool := existsb (fun channel => negb (bool_decide (length channel = 0%nat))) (lanes_list (mb_channels b)).

(** [channel.extend(mails)] and the depth it reaches. *)
Definition enqueue (p : MailPriority) (mails : list Mail) (b : MailBox) : MailBox :=
  let b := b <| mb_channels ::= on_lane p (fun channel => channel ++ mails) |> in
  b <| mb_max_channel_depth ::= (fun depth => N.max depth (len (lane p (mb_channels b)))) |>.

Definition mailbox_try_send (p : MailPriority) (mail : Mail) (b : MailBox) : bool * MailBox :=
  if (mb_high_watermark b <=? len (lane p (mb_channels b)))%N
  then (false, b <| mb_rejected_send_count ::= (fun n => n +s 1) |>)
  else (true, enqueue p [mail] b).

(** A refusal hands the mails back. *)
Definition mailbox_try_send_many (p : MailPriority) (mails : list Mail) (b : MailBox)
    : result (list Mail) unit * MailBox :=
  if (mb_high_watermark b <? len (lane p (mb_channels b)) +s len mails)%N
  then (Err mails, b <| mb_rejected_send_count ::= (fun n => n +s len mails) |>)
  else (Ok tt, enqueue p mails b).

(** [None] while the lane is full: the sender waits until a fetch or a clear. *)
Definition mailbox_wait_and_send (p : MailPriority) (mail : Mail) (b : MailBox) : option MailBox :=
  if (mb_high_watermark b <=? len (lane p (mb_channels b)))%N then None else Some (enqueue p [mail] b).

Definition mailbox_send (p : MailPriority) (mail : Mail) (b : MailBox) : MailBox := enqueue p [mail] b.

(** What each lane gives up: the lanes before [all_include_until] everything, the
    others share the limit. *)
Fixpoint lane_takes (priority_index all_include_until lower_priority_limit : N) (channels : list (list Mail)) : list N :=
  match channels with
  | [] => []
  | channel :: rest =>
      if (all_include_until <=? priority_index)%N then
        let take := N.min (len channel) lower_priority_limit in
        take :: lane_takes (priority_index + 1) all_include_until (lower_priority_limit - take) rest
      else len channel :: lane_takes (priority_index + 1) all_include_until lower_priority_limit rest
  end.

(** [channel.drain(..take)] of each lane: what leaves, and what stays. *)
Definition drain_lane (take_len : N) (channel : list Mail) : list Mail * list Mail :=
  (take (N.to_nat take_len) channel, drop (N.to_nat take_len) channel).

Definition drain_lanes (takes : list N) (l : Lanes) : Lanes * Lanes :=
  let at_lane i := drain_lane (nth i takes 0%N) in
  let '(u, u') := at_lane 0%nat (lane_urgent l) in
  let '(n, n') := at_lane 1%nat (lane_normal l) in
  let '(s, s') := at_lane 2%nat (lane_slowly l) in
  (mkLanes u n s, mkLanes u' n' s').

(** A fetch that would wait for mail without an end. A wait with a deadline ends
    and takes what is there, nothing included. *)
Definition fetch_waits (policy : MailBoxFetchPolicy) (b : MailBox) : bool :=
  negb (has_new_mail b) && (mfp_timeout_ms policy =? MATRIXRAFT_MAILBOX_MAX_TIMEOUT_MS)%N.

(** What a fetch takes, by lane; its answer is all of it in the order of the lanes. *)
Definition fetch_lanes (policy : MailBoxFetchPolicy) (b : MailBox) : Lanes * MailBox :=
  let takes := lane_takes 0 (MailPriority_index (mfp_include_until policy)) (mfp_limit policy)
                 (lanes_list (mb_channels b)) in
  let '(taken, kept) := drain_lanes takes (mb_channels b) in
  (taken, b <| mb_channels := kept |>).

Definition mailbox_fetch (policy : MailBoxFetchPolicy) (b : MailBox) : option (list Mail * MailBox) :=
  if fetch_waits policy b then None
  else let '(taken, b) := fetch_lanes policy b in Some (all_mail taken, b).

Definition mailbox_clear (b : MailBox) : MailBox := b <| mb_channels := no_mail |>.

Definition mailbox_len (p : MailPriority) (b : MailBox) : N := len (lane p (mb_channels b)).
Definition mailbox_total_len (b : MailBox) : N := len (all_mail (mb_channels b)).
Definition mailbox_is_empty (b : MailBox) : bool := (mailbox_total_len b =? 0)%N.
Definition mailbox_pressure_stats (b : MailBox) : MailBoxPressureStats :=
  mkMailBoxPressureStats (mb_high_watermark b) (mailbox_total_len b) (mb_max_channel_depth b)
    (mb_rejected_send_count b).

(** ** Threads that share a mailbox *)

Inductive MailOp : Type :=
| OpTrySend (p : MailPriority) (mail : Mail)
| OpTrySendMany (p : MailPriority) (mails : list Mail)
| OpWaitAndSend (p : MailPriority) (mail : Mail)
| OpSend (p : MailPriority) (mail : Mail)
| OpFetch (policy : MailBoxFetchPolicy)
| OpClear.

(** The mailbox with what every lane has let in so far, and what has left it. *)
Record MailHistory := mkMailHistory { mh_box : MailBox; mh_accepted : Lanes; mh_left : Lanes }.

Definition only (p : MailPriority) (mails : list Mail) : Lanes := on_lane p (fun _ => mails) no_mail.

(** One operation of one thread; [None] while it waits. *)
Definition mail_step (op : MailOp) (h : MailHistory) : option MailHistory :=
  let b := mh_box h in
  let accept p mails b := mkMailHistory b (lanes_app (mh_accepted h) (only p mails)) (mh_left h) in
  match op with
  | OpTrySend p mail =>
      let '(sent, b) := mailbox_try_send p mail b in
      Some (if sent : bool then accept p [mail] b else mkMailHistory b (mh_accepted h) (mh_left h))
  | OpTrySendMany p mails =>
      let '(sent, b) := mailbox_try_send_many p mails b in
      Some (match sent with Ok _ => accept p mails b | Err _ => mkMailHistory b (mh_accepted h) (mh_left h) end)
  | OpWaitAndSend p mail => accept p [mail] <$> mailbox_wait_and_send p mail b
  | OpSend p mail => Some (accept p [mail] (mailbox_send p mail b))
  | OpFetch policy =>
      if fetch_waits policy b then None
      else let '(taken, b) := fetch_lanes policy b in
           Some (mkMailHistory b (mh_accepted h) (lanes_app (mh_left h) taken))
  | OpClear => Some (mkMailHistory (mailbox_clear b) (mh_accepted h) (lanes_app (mh_left h) (mb_channels b)))
  end.

Fixpoint run_mail (ops : list MailOp) (h : MailHistory) : option MailHistory :=
  match ops with
  | [] => Some h
  | op :: rest => h ← mail_step op h; run_mail rest h
  end.

Definition mail_start (high_watermark : N) : MailHistory := mkMailHistory (mailbox_new high_watermark) no_mail no_mail.

(** ** Lanes keep their mail *)

Lemma lane_on_lane p q f l : lane q (on_lane p f l) = if decide (p = q) then f (lane q l) else lane q l.
Proof. by destruct p, q. Qed.

Lemma lane_app q l l' : lane q (lanes_app l l') = lane q l ++ lane q l'.
Proof. by destruct q. Qed.

Lemma drain_lanes_split takes l q : lane q (drain_lanes takes l).1 ++ lane q (drain_lanes takes l).2 = lane q l.
Proof. destruct q; cbn; apply take_drop. Qed.

Lemma fetch_lanes_split policy b q :
  lane q (fetch_lanes policy b).1 ++ lane q (mb_channels (fetch_lanes policy b).2) = lane q (mb_channels b).
Proof.
  unfold fetch_lanes. cbn zeta. match goal with |- context [drain_lanes ?t ?l] => pose proof (drain_lanes_split t l q) as H;
    by destruct (drain_lanes t l) end.
Qed.

(** What came in is what left and what is queued, lane by lane; the recorded depth
    covers every lane. *)
Definition mail_inv (h : MailHistory) : Prop :=
  (forall q, lane q (mh_accepted h) = lane q (mh_left h) ++ lane q (mb_channels (mh_box h)))
  /\ (forall q, (len (lane q (mb_channels (mh_box h))) <= mb_max_channel_depth (mh_box h))%N).

Lemma enqueue_inv p mails h b' :
  mail_inv h -> b' = enqueue p mails (mh_box h) ->
  mail_inv (mkMailHistory b' (lanes_app (mh_accepted h) (only p mails)) (mh_left h)).
Proof.
  intros [Ha Hd] ->. split; intros q; specialize (Ha q); specialize (Hd q); cbn.
  - unfold only. rewrite lane_app, !lane_on_lane, Ha. case_decide; [by rewrite <- app_assoc|by destruct q; rewrite app_nil_r].
  - rewrite !lane_on_lane. case_decide as Hp; [subst; rewrite ?lane_on_lane, decide_True by done; lia|lia].
Qed.

Lemma mail_step_inv op h h' : mail_inv h -> mail_step op h = Some h' -> mail_inv h'.
Proof.
  intros Hi. destruct op as [p m|p ms|p m|p m|policy|]; cbn -[fetch_lanes].
  - unfold mailbox_try_send. destruct (_ <=? _)%N; intros [= <-]; [exact Hi|by apply enqueue_inv].
  - unfold mailbox_try_send_many. destruct (_ <? _)%N; intros [= <-]; [exact Hi|by apply enqueue_inv].
  - unfold mailbox_wait_and_send. destruct (_ <=? _)%N; intros [= <-]. by apply enqueue_inv.
  - intros [= <-]. by apply enqueue_inv.
  - destruct (fetch_waits policy (mh_box h)); [done|]. destruct Hi as [Ha Hd].
    pose proof (fun q => fetch_lanes_split policy (mh_box h) q) as Hs.
    assert (mb_max_channel_depth (fetch_lanes policy (mh_box h)).2 = mb_max_channel_depth (mh_box h)) as Hm
      by (unfold fetch_lanes; by destruct (drain_lanes _ _)).
    destruct (fetch_lanes policy (mh_box h)) as [taken b]. intros [= <-]. cbn [fst snd] in *. split; intros q; cbn.
    + rewrite lane_app, Ha, <- app_assoc. by rewrite Hs.
    + rewrite Hm. specialize (Hd q). rewrite <- (Hs q), len_app in Hd. lia.
  - intros [= <-]. destruct Hi as [Ha Hd]. split; intros q; cbn.
    + rewrite lane_app, Ha. destruct q; cbn; by rewrite app_nil_r.
    + destruct q; unfold len; cbn; lia.
Qed.

Lemma run_mail_inv ops h h' : mail_inv h -> run_mail ops h = Some h' -> mail_inv h'.
Proof.
  revert h. induction ops as [|op ops IH]; intros h Hi; cbn; [by intros [= <-]|].
  destruct (mail_step op h) as [h1|] eqn:Hs; [|done]. cbn. apply IH. by apply (mail_step_inv op h).
Qed.

(** A mailbox loses, repeats and reorders nothing. Whatever operations the threads
    that share it perform, in whatever order, each lane has let out exactly a prefix
    of what it let in, in order, and the rest is what it holds; what a fetch answers
    is what left the lanes in that step, by priority. The recorded depth is never
    below the length of a lane. *)
Theorem mailbox_delivers_in_order high_watermark ops h :
  run_mail ops (mail_start high_watermark) = Some h ->
  (forall q, lane q (mh_accepted h) = lane q (mh_left h) ++ lane q (mb_channels (mh_box h)))
  /\ (forall q, (mailbox_len q (mh_box h) <= mb_max_channel_depth (mh_box h))%N)
  /\ forall policy mails b, mailbox_fetch policy (mh_box h) = Some (mails, b) ->
       exists h', mail_step (OpFetch policy) h = Some h' /\ mh_box h' = b
         /\ forall q, exists out, lane q (mh_left h') = lane q (mh_left h) ++ out /\ out ⊆+ mails.
Proof.
  intros Hr. destruct (run_mail_inv ops (mail_start high_watermark) h) as [Ha Hd]; [|done|].
  { split; intros q; destruct q; try done; unfold len; cbn; lia. }
  split_and!; [exact Ha|exact Hd|]. intros policy mails b. unfold mailbox_fetch, mail_step.
  destruct (fetch_waits policy (mh_box h)); [done|]. destruct (fetch_lanes policy (mh_box h)) as [taken b'].
  intros [= <- <-]. eexists. split; [reflexivity|]. split; [done|]. intros q. exists (lane q taken). split; [apply lane_app|].
  unfold all_mail, lanes_list. cbn. rewrite app_nil_r. destruct q; cbn; solve_submseteq.
Qed.

(** ** The cut of a fetch *)

(** The part of the limit the lanes at or below the cut used. *)
Lemma fetch_lane_spec policy b q :
  let until := MailPriority_index (mfp_include_until policy) in
  let '(taken, b') := fetch_lanes policy b in
  ((MailPriority_index q < until)%N -> lane q taken = lane q (mb_channels b))
  /\ ((until <= MailPriority_index q)%N ->
        lane q (mb_channels b') = []
        \/ mfp_limit policy
           = sum_N ((fun p => if (until <=? MailPriority_index p)%N then len (lane p taken) else 0%N) <$> [Urgent; Normal; Slowly])).
Proof.
  assert (forall (l : list Mail), N.to_nat (len l) = length l) as Hlen by (intros l; unfold len; lia).
  assert (forall (l : list Mail) n, len (take (N.to_nat n) l) = N.min n (len l)) as Htake
    by (intros l n; unfold len; rewrite length_take; lia).
  assert (forall (l : list Mail) n, (len l <= n)%N -> drop (N.to_nat n) l = []) as Hdrop
    by (intros l n Hn; apply drop_ge; unfold len in Hn; lia).
  cbn zeta. unfold fetch_lanes. cbn zeta. destruct policy as [limit timeout until]. destruct b as [hw [u n s] d r]. cbn.
  destruct until, q; cbn; repeat match goal with |- context [(?a <=? ?b)%N] =>
    let v := eval vm_compute in (a <=? b)%N in change (a <=? b)%N with v end; cbn; (split; [intros Hq|intros Hq]); try (exfalso; lia); try (rewrite ?Hlen, ?take_ge; done || lia).
  all: rewrite ?Htake; try match goal with |- drop (N.to_nat ?n) ?l = [] \/ _ =>
    destruct (N.le_gt_cases (len l) n) as [Hl|Hl]; [left; by apply Hdrop|right; lia] end.
Qed.

(** A fetch honours priorities. The lanes above the cut come out whole and do not
    count; the others give at most the limit, and all of it as long as they have
    mail; a lane that keeps mail back leaves nothing of the limit to the lanes below
    it. *)
Theorem fetch_honours_priority policy b :
  let until := MailPriority_index (mfp_include_until policy) in
  let counted p := (until <=? MailPriority_index p)%N in
  let '(taken, b') := fetch_lanes policy b in
  let used := sum_N ((fun p => if counted p then len (lane p taken) else 0%N) <$> [Urgent; Normal; Slowly]) in
  (used <= mfp_limit policy)%N
  /\ (forall q, counted q = false -> lane q taken = lane q (mb_channels b))
  /\ (forall q, counted q = true -> lane q (mb_channels b') <> [] -> used = mfp_limit policy)
  /\ (forall q q', counted q = true -> (MailPriority_index q < MailPriority_index q')%N ->
        lane q (mb_channels b') <> [] -> lane q' taken = []).
Proof.
  cbn zeta. pose proof (fetch_lane_spec policy b) as Hs. cbn zeta in Hs.
  destruct (fetch_lanes policy b) as [taken b'] eqn:Hf.
  assert (forall (l : list Mail) n, len (take (N.to_nat n) l) = N.min n (len l)) as Htake
    by (intros l n; unfold len; rewrite length_take; lia).
  split_and!.
  - unfold fetch_lanes in Hf. cbn zeta in Hf. destruct policy as [limit timeout until]. destruct b as [hw [u n s] d r].
    cbn in *. injection Hf as <- _. destruct until; cbn; repeat match goal with |- context [(?a <=? ?b)%N] =>
      let v := eval vm_compute in (a <=? b)%N in change (a <=? b)%N with v end; cbn; rewrite ?Htake; lia.
  - intros q Hq. apply (Hs q). by apply N.leb_gt.
  - intros q Hq Hne. destruct (Hs q) as [_ H]. destruct H as [H|H]; [by apply N.leb_le|done|done].
  - intros q q' Hq Hlt Hne. apply N.leb_le in Hq. clear Hs.
    unfold fetch_lanes in Hf. cbn zeta in Hf. destruct policy as [limit timeout until]. destruct b as [hw [u n s] d r].
    cbn in *. injection Hf as <- <-. cbn in Hne.
    assert (forall (l : list Mail) k, drop (N.to_nat k) l <> [] -> (k < len l)%N) as Hk
      by (intros l k Hl; unfold len; destruct (N.le_gt_cases (N.of_nat (length l)) k); [|lia];
          exfalso; apply Hl, drop_ge; lia).
    destruct until, q, q'; cbn in *; try (exfalso; lia); revert Hne; repeat match goal with |- context [(?a <=? ?b)%N] =>
      let v := eval vm_compute in (a <=? b)%N in change (a <=? b)%N with v end; cbn; intros Hne%Hk;
      apply nil_length_inv; rewrite length_take; lia.
Qed.

(** ** The watermark *)

Definition bounded_op (op : MailOp) : bool := match op with OpSend _ _ => false | _ => true end.

Definition within_watermark (b : MailBox) : Prop := forall q, (len (lane q (mb_channels b)) <= mb_high_watermark b)%N.

Lemma mail_step_watermark op h h' :
  bounded_op op = true -> (mb_high_watermark (mh_box h) < u64_max)%N -> within_watermark (mh_box h) ->
  mail_step op h = Some h' ->
  within_watermark (mh_box h') /\ mb_high_watermark (mh_box h') = mb_high_watermark (mh_box h).
Proof.
  intros Ho Hu Hw. assert (forall p mails, (len (lane p (mb_channels (mh_box h))) + len mails <= mb_high_watermark (mh_box h))%N ->
    within_watermark (enqueue p mails (mh_box h))) as He.
  { intros p mails Hl q. specialize (Hw q). cbn. rewrite lane_on_lane. case_decide; subst; [rewrite len_app; lia|lia]. }
  destruct op as [p m|p ms|p m|p m|policy|]; cbn -[fetch_lanes]; try done.
  - unfold mailbox_try_send. destruct (N.leb_spec (mb_high_watermark (mh_box h)) (len (lane p (mb_channels (mh_box h)))));
      intros [= <-]; (split; [|done]); [exact Hw|apply He; unfold len in *; cbn; lia].
  - unfold mailbox_try_send_many, saturating_add. destruct (N.ltb_spec (mb_high_watermark (mh_box h))
      (N.min u64_max (len (lane p (mb_channels (mh_box h))) + len ms)));
      intros [= <-]; (split; [|done]); [exact Hw|]. apply He. lia.
  - unfold mailbox_wait_and_send. destruct (N.leb_spec (mb_high_watermark (mh_box h)) (len (lane p (mb_channels (mh_box h)))));
      intros [= <-]. split; [|done]. apply He. unfold len in *. cbn. lia.
  - destruct (fetch_waits policy (mh_box h)); [done|]. pose proof (fun q => fetch_lanes_split policy (mh_box h) q) as Hs.
    assert (mb_high_watermark (fetch_lanes policy (mh_box h)).2 = mb_high_watermark (mh_box h)) as Hm
      by (unfold fetch_lanes; by destruct (drain_lanes _ _)).
    destruct (fetch_lanes policy (mh_box h)) as [taken b]. intros [= <-]. cbn [fst snd] in *. cbn. split; [|done].
    intros q. rewrite Hm. specialize (Hw q). rewrite <- (Hs q), len_app in Hw. lia.
  - intros [= <-]. split; [|done]. intros q. destruct q; unfold len; cbn; lia.
Qed.

Lemma run_mail_watermark ops h h' :
  Forall (fun op => bounded_op op = true) ops -> (mb_high_watermark (mh_box h) < u64_max)%N ->
  within_watermark (mh_box h) -> run_mail ops h = Some h' ->
  within_watermark (mh_box h') /\ mb_high_watermark (mh_box h') = mb_high_watermark (mh_box h).
Proof.
  intros Hb. revert h. induction Hb as [|op ops Ho Hb IH]; intros h Hu Hw; cbn; [by intros [= <-]|].
  destruct (mail_step op h) as [h1|] eqn:Hs; [|done]. cbn. intros Hr.
  destruct (mail_step_watermark op h h1 Ho Hu Hw Hs) as [Hw1 He].
  destruct (IH h1) as [Hw2 He2]; [by rewrite He|done|done|]. split; [done|congruence].
Qed.

(** No lane passes the watermark unless a thread uses the unbounded [send]. *)
Theorem watermark_bounds_lanes high_watermark ops h :
  (high_watermark < u64_max)%N -> Forall (fun op => bounded_op op = true) ops ->
  run_mail ops (mail_start high_watermark) = Some h ->
  forall q, (mailbox_len q (mh_box h) <= N.max high_watermark 1)%N.
Proof.
  intros Hu Hb Hr q. destruct (run_mail_watermark ops (mail_start high_watermark) h Hb) as [Hw He]; [| |done|].
  - cbn. unfold u64_max in *. lia.
  - intros p. destruct p; unfold len; cbn; lia.
  - specialize (Hw q). rewrite He in Hw. exact Hw.
Qed.
End mailbox.
Arguments Lanes : clear implicits.
Arguments MailBox : clear implicits.
Arguments MailOp : clear implicits.
Arguments MailHistory : clear implicits.

(** Two full sends, a refused one, a fetch of everything urgent and one of the rest,
    and a send that waits. *)
Definition sample_mail_ops : list (MailOp N) :=
  [OpSend Normal 1%N; OpTrySendMany Urgent [2; 3]%N; OpTrySend Urgent 4%N; OpSend Slowly 5%N;
   OpFetch (mkMailBoxFetchPolicy 1 0 Normal); OpWaitAndSend Urgent 6%N].

Definition sample_mail : MailHistory N :=
  default (mail_start 2) (run_mail sample_mail_ops (mail_start 2)).

Lemma mailbox_delivers_in_order_witness :
  lane Urgent (mh_left sample_mail) = [2; 3]%N /\ lane Urgent (mb_channels (mh_box sample_mail)) = [6]%N
  /\ mb_rejected_send_count (mh_box sample_mail) = 1%N
  /\ forall q, lane q (mh_accepted sample_mail) = lane q (mh_left sample_mail) ++ lane q (mb_channels (mh_box sample_mail)).
Proof.
  do 3 (split; [vm_compute; reflexivity|]).
  refine (proj1 (mailbox_delivers_in_order 2 sample_mail_ops sample_mail _)). vm_compute. reflexivity.
Defined.
