(* ===== verification/Selector.v ===== *)
(** * Channels, their selector, and the workers that drain them

    [MailChannel] and [ChannelSelector] ([src/channel_selector.rs]): each group has a
    channel of its own, a selector lists the channels that have mail, and the workers
    of [DriverWorkerPool] ([src/driver.rs]) select channels and drain them. A channel
    is shared between its senders, the selector and the workers through [Arc]s; the
    store of the channels is a map from their ids, which the pool never reuses, and the
    selector and the workers hold ids.

    A send is two critical sections, the channel's and then the selector's ([fire]),
    and a fetch is two of the channel's (consume, then drain), so threads interleave
    between them: [slot_step] takes one critical section, and the state keeps who is
    between two. Waiting is the step not being enabled. Poisoned mutexes are not
    modelled.

    The theorems: whatever the interleaving, no mail is lost, repeated or reordered,
    and no mail is stranded: a channel that holds mail is with a sender about to fire
    it, listed, or with a worker; and when the senders stop, the workers deliver
    everything in a bounded number of steps. *)

From stdpp Require Import base strings pretty numbers sorting gmap fin_maps sets list.
From S2P Require Import Prelude Types Mail.

Record ChannelSelectorPolicy := mkChannelSelectorPolicy { csp_limit : N; csp_timeout_ms : N }.
Definition ChannelSelectorPolicy_default : ChannelSelectorPolicy := mkChannelSelectorPolicy 1 9223372036854775807.

Record MailChannelPressureStats := mkMailChannelPressureStats {
  mcp_replica_id : N;
  mcp_num_mail_limit : N;
  mcp_queued_len : N;
  mcp_selector_total_mail_count : Z;
  mcp_max_depth : N;
  mcp_rejected_send_count : N
}.

Section selector.
Context {Mail : Type}.
Abbreviation Lanes := (Lanes Mail) (only parsing).

(** ** A channel *)

Record MailChannel := mkMailChannel {
  mc_replica_id : N;
  mc_num_mail_limit : N;
  mc_size : N;
  mc_previous_channel_mail_count : Z;
  mc_selector_total_mail_count : Z;
  mc_max_depth : N;
  mc_rejected_send_count : N;
  mc_channels : Lanes;
  mc_buffered : Lanes
}.
#[export] Instance eta_MailChannel : Settable MailChannel :=
  fun c => mkMailChannel (mc_replica_id c) (mc_num_mail_limit c) (mc_size c) (mc_previous_channel_mail_count c)
    (mc_selector_total_mail_count c) (mc_max_depth c) (mc_rejected_send_count c) (mc_channels c) (mc_buffered c).

Definition channel_new (replica_id num_mail_limit : N) : MailChannel :=
  mkMailChannel replica_id (N.max num_mail_limit 1) 0 0 0 0 0 no_mail no_mail.

Definition overflow (c : MailChannel) : bool := (mc_num_mail_limit c <=? mc_size c)%N.

(** The mails queued, with the count and the depth. *)
Definition channel_queue (p : MailPriority) (mails : list Mail) (c : MailChannel) : MailChannel :=
  let c := c <| mc_channels ::= on_lane p (fun channel => channel ++ mails) |>
             <| mc_size ::= (fun size => size + len mails)%N |> in
  c <| mc_max_depth ::= (fun depth => N.max depth (mc_size c)) |>.

Definition channel_try_send (p : MailPriority) (mail : Mail) (c : MailChannel) : result Mail unit * MailChannel :=
  if overflow c then (Err mail, c <| mc_rejected_send_count ::= (fun n => n +s 1) |>)
  else (Ok tt, channel_queue p [mail] c).

(** [admit]: whether the whole batch fits; a refusal is counted. *)
Definition admits (count : N) (c : MailChannel) : bool :=
  negb (overflow c || (mc_num_mail_limit c <? mc_size c +s count)%N).
Definition refuse (count : N) (c : MailChannel) : MailChannel :=
  c <| mc_rejected_send_count ::= (fun n => n +s count) |>.

Definition channel_try_send_many (p : MailPriority) (mails : list Mail) (c : MailChannel)
    : result (list Mail) unit * MailChannel :=
  if admits (len mails) c then (Ok tt, channel_queue p mails c) else (Err mails, refuse (len mails) c).

Definition channel_try_send_iter (p : MailPriority) (mails : list Mail) (c : MailChannel)
    : result N unit * MailChannel :=
  if admits (len mails) c then (Ok tt, channel_queue p mails c) else (Err (len mails), refuse (len mails) c).

Definition channel_send (p : MailPriority) (mail : Mail) (c : MailChannel) : MailChannel := channel_queue p [mail] c.

Definition channel_pressure_stats (c : MailChannel) : MailChannelPressureStats :=
  mkMailChannelPressureStats (mc_replica_id c) (mc_num_mail_limit c) (mc_size c) (mc_selector_total_mail_count c)
    (mc_max_depth c) (mc_rejected_send_count c).

(** ** The selector *)

Record ChannelSelector := mkChannelSelector {
  cs_total_mail_count : Z;
  cs_active_channels : gset N;
  cs_channel_list : list N;
  cs_global_mails : list Mail
}.
#[export] Instance eta_ChannelSelector : Settable ChannelSelector :=
  fun s => mkChannelSelector (cs_total_mail_count s) (cs_active_channels s) (cs_channel_list s) (cs_global_mails s).

Definition selector_new : ChannelSelector := mkChannelSelector 0 ∅ [] [].

Definition has_ready_work (s : ChannelSelector) : bool :=
  negb (bool_decide (cs_channel_list s = [])) || negb (bool_decide (length (cs_global_mails s) = 0%nat)).

Definition send_global (mail : Mail) (s : ChannelSelector) : ChannelSelector :=
  s <| cs_global_mails ::= (fun mails => mails ++ [mail]) |>.

Definition fire (replica_id : N) (s : ChannelSelector) : bool * ChannelSelector :=
  if bool_decide (replica_id ∈ cs_active_channels s) then (false, s)
  else (true, s <| cs_active_channels ::= union {[replica_id]} |> <| cs_channel_list ::= (fun l => l ++ [replica_id]) |>).

Definition rearrange (input : list N) (s : ChannelSelector) : ChannelSelector :=
  foldl (fun s replica_id => snd (fire replica_id s)) s input.

(** The loop that pops channels from the list. *)
Fixpoint pop_channels (count : nat) (s : ChannelSelector) : list N * ChannelSelector :=
  match count with
  | O => ([], s)
  | S count =>
      match cs_channel_list s with
      | [] => ([], s)
      | replica_id :: rest =>
          let s := s <| cs_channel_list := rest |> <| cs_active_channels ::= (fun a => a ∖ {[replica_id]}) |> in
          let '(channels, s) := pop_channels count s in (replica_id :: channels, s)
      end
  end.

(** The channels, the global mail, and whether channels were left behind. *)
Definition take_selection (limit : N) (s : ChannelSelector) : (list N * list Mail * bool) * ChannelSelector :=
  let global_mails := cs_global_mails s in
  let s := s <| cs_global_mails := [] |> in
  let count := N.min limit (N.of_nat (size (cs_active_channels s))) in
  let '(channels, s) := pop_channels (N.to_nat count) s in
  ((channels, global_mails, negb (bool_decide (cs_active_channels s = ∅))), s).

(** [None]: it waits for work without a deadline. *)
Definition select_into (policy : ChannelSelectorPolicy) (input : list N) (s : ChannelSelector)
    : option ((list N * list Mail * bool) * ChannelSelector) :=
  let s := rearrange input s in
  if negb (has_ready_work s) && (csp_timeout_ms policy =? csp_timeout_ms ChannelSelectorPolicy_default)%N then None
  else Some (take_selection (csp_limit policy) s).

(** ** Draining a channel: two critical sections *)

Definition consume (c : MailChannel) (s : ChannelSelector) : MailChannel * ChannelSelector :=
  let num_mails := Z.of_N (mc_size c) in
  let diff := (num_mails - mc_previous_channel_mail_count c)%Z in
  let s := s <| cs_total_mail_count ::= (fun n => n + diff)%Z |> in
  (c <| mc_previous_channel_mail_count := num_mails |> <| mc_selector_total_mail_count := cs_total_mail_count s |>
     <| mc_size := 0%N |>
     <| mc_buffered := lanes_app (mc_buffered c) (mc_channels c) |> <| mc_channels := no_mail |>, s).

Definition drain_buffered (c : MailChannel) : list Mail * MailChannel :=
  (all_mail (mc_buffered c), c <| mc_buffered := no_mail |>).

(** Without another thread in between. *)
Definition fetch_into (out : list Mail) (c : MailChannel) (s : ChannelSelector) : list Mail * MailChannel * ChannelSelector :=
  let '(c, s) := consume c s in
  let '(mails, c) := drain_buffered c in (out ++ mails, c, s).

(** ** Threads that share a selector *)

(** The selector of a worker slot and its channels, with the threads that are
    between two critical sections: senders that queued a mail and have not fired,
    workers that selected a channel and have not consumed it, workers that consumed
    and have not drained; and by channel, what was let in and what was handed out. *)
Record Slot := mkSlot {
  sl_selector : ChannelSelector;
  sl_channels : gmap N MailChannel;
  sl_firing : list N;
  sl_selected : list N;
  sl_consumed : list N;
  sl_accepted : gmap N Lanes;
  sl_left : gmap N Lanes
}.
#[export] Instance eta_Slot : Settable Slot :=
  fun s => mkSlot (sl_selector s) (sl_channels s) (sl_firing s) (sl_selected s) (sl_consumed s) (sl_accepted s) (sl_left s).

Inductive SlotOp : Type :=
| SRegister (id limit : N)
| STrySend (id : N) (p : MailPriority) (mail : Mail)
| STrySendMany (id : N) (p : MailPriority) (mails : list Mail)
| SSend (id : N) (p : MailPriority) (mail : Mail)
| SFire (sender : nat)
| SSendGlobal (mail : Mail)
| SSelect (limit : N)
| SConsume (worker : nat)
| SDrain (worker : nat).

(** The mails of one batch that were let in. *)
Definition accept_mail (id : N) (p : MailPriority) (mails : list Mail) (c : MailChannel) (s : Slot) : Slot :=
  s <| sl_channels ::= <[id := c]> |>
    <| sl_firing ::= (fun l => l ++ [id]) |>
    <| sl_accepted ::= alter (fun a => lanes_app a (only p mails)) id |>.

(** [sl_left] keeps what a drain hands out by lane; [drain_buffered] returns the same
    mail, lane after lane. *)
Definition slot_step (op : SlotOp) (s : Slot) : option Slot :=
  match op with
  | SRegister id limit =>
      if bool_decide (is_Some (sl_channels s !! id)) then None
      else Some (s <| sl_channels ::= <[id := channel_new id limit]> |>
                   <| sl_accepted ::= <[id := no_mail]> |> <| sl_left ::= <[id := no_mail]> |>)
  | STrySend id p mail =>
      c ← sl_channels s !! id;
      let '(sent, c) := channel_try_send p mail c in
      Some (match sent with Ok _ => accept_mail id p [mail] c s | Err _ => s <| sl_channels ::= <[id := c]> |> end)
  | STrySendMany id p mails =>
      c ← sl_channels s !! id;
      let '(sent, c) := channel_try_send_many p mails c in
      Some (match sent with Ok _ => accept_mail id p mails c s | Err _ => s <| sl_channels ::= <[id := c]> |> end)
  | SSend id p mail => c ← sl_channels s !! id; Some (accept_mail id p [mail] (channel_send p mail c) s)
  | SFire sender =>
      id ← sl_firing s !! sender;
      Some (s <| sl_firing ::= delete sender |> <| sl_selector ::= (fun x => snd (fire id x)) |>)
  | SSendGlobal mail => Some (s <| sl_selector ::= send_global mail |>)
  | SSelect limit =>
      '((channels, _, _), x) ← select_into (mkChannelSelectorPolicy limit (csp_timeout_ms ChannelSelectorPolicy_default)) [] (sl_selector s);
      Some (s <| sl_selector := x |> <| sl_selected ::= (fun l => l ++ channels) |>)
  | SConsume worker =>
      id ← sl_selected s !! worker; c ← sl_channels s !! id;
      let '(c, x) := consume c (sl_selector s) in
      Some (s <| sl_channels ::= <[id := c]> |> <| sl_selector := x |>
              <| sl_selected ::= delete worker |> <| sl_consumed ::= (fun l => l ++ [id]) |>)
  | SDrain worker =>
      id ← sl_consumed s !! worker; c ← sl_channels s !! id;
      let '(mails, c') := drain_buffered c in
      Some (s <| sl_channels ::= <[id := c']> |> <| sl_consumed ::= delete worker |>
              <| sl_left ::= alter (fun l => lanes_app l (mc_buffered c)) id |>)
  end.

Definition slot_start : Slot := mkSlot selector_new ∅ [] [] [] ∅ ∅.

Fixpoint run_slot (ops : list SlotOp) (s : Slot) : option Slot :=
  match ops with
  | [] => Some s
  | op :: rest => s ← slot_step op s; run_slot rest s
  end.

(** ** No mail is lost or stranded *)

(** The list of a selector has no channel twice, and the set is its channels. *)
Definition selector_ok (x : ChannelSelector) : Prop :=
  NoDup (cs_channel_list x) /\ cs_active_channels x = list_to_set (cs_channel_list x).

Lemma fire_ok id x : selector_ok x ->
  selector_ok (fire id x).2 /\ forall k, k ∈ cs_channel_list (fire id x).2 <-> k = id \/ k ∈ cs_channel_list x.
Proof.
  intros [Hn Ha]. unfold fire. case_bool_decide as Hin; cbn.
  - split; [done|]. intros k. rewrite Ha, elem_of_list_to_set in Hin. naive_solver.
  - rewrite Ha, elem_of_list_to_set in Hin. split; [split; cbn|].
    + apply NoDup_app. split_and!; [done| |apply NoDup_singleton].
      intros y Hy ->%list_elem_of_singleton. done.
    + rewrite Ha. set_solver.
    + intros k. rewrite elem_of_app, list_elem_of_singleton. naive_solver.
Qed.

Lemma pop_channels_ok n x : selector_ok x ->
  selector_ok (pop_channels n x).2 /\ (pop_channels n x).1 = take n (cs_channel_list x)
  /\ cs_channel_list (pop_channels n x).2 = drop n (cs_channel_list x).
Proof.
  revert x. induction n as [|n IH]; intros x Hx; [done|]. cbn.
  destruct (cs_channel_list x) as [|id rest] eqn:Hl; [done|].
  destruct (IH (x <| cs_channel_list := rest |> <| cs_active_channels ::= (fun a => a ∖ {[id]}) |>)) as (H1 & H2 & H3).
  { destruct Hx as [Hn Ha]. rewrite Hl in *. apply NoDup_cons in Hn as [Hid Hn]. split; cbn; [done|]. rewrite Ha. set_solver. }
  destruct (pop_channels n _) as [l x']. cbn in *. split_and!; [done|by rewrite H2|done].
Qed.

Lemma select_ok limit x channels globals more x' : selector_ok x ->
  select_into (mkChannelSelectorPolicy limit (csp_timeout_ms ChannelSelectorPolicy_default)) [] x
    = Some ((channels, globals, more), x') ->
  selector_ok x' /\ cs_channel_list x = channels ++ cs_channel_list x'
  /\ ((0 < limit)%N -> cs_channel_list x <> [] -> channels <> []).
Proof.
  intros Hx. unfold select_into. cbn [rearrange foldl csp_limit csp_timeout_ms]. destruct (_ && _); [done|].
  unfold take_selection. cbn zeta. set (x0 := x <| cs_global_mails := [] |>).
  assert (selector_ok x0) as Hx0 by exact Hx. set (n := N.to_nat _).
  destruct (pop_channels_ok n x0 Hx0) as (H1 & H2 & H3). destruct (pop_channels n x0) as [l x1] eqn:Hp.
  intros [= <- _ _ <-]. cbn in *. subst l. split_and!; [done|by rewrite H3, take_drop|].
  intros Hl Hne. destruct (cs_channel_list x) as [|id rest] eqn:He; [done|]. subst n. intros Ht.
  assert (0 < size (cs_active_channels x))%nat as Hs.
  { destruct Hx as [_ ->]. rewrite He. apply Nat.neq_0_lt_0. intros H%size_empty_inv. set_solver. }
  destruct (N.to_nat _) eqn:E in Ht; [|done]. cbn in E. lia.
Qed.

(** A channel of the slot: what came in is what went out, what is staged and what
    is queued, in order, and mail is never left where no thread will look. *)
Record channel_ok (s : Slot) (id : N) (c : MailChannel) : Prop := mk_channel_ok {
  co_flow : exists a l, sl_accepted s !! id = Some a /\ sl_left s !! id = Some l
    /\ forall p, lane p a = lane p l ++ lane p (mc_buffered c) ++ lane p (mc_channels c);
  co_size : mc_size c = len (all_mail (mc_channels c));
  co_queued : mc_channels c <> no_mail -> id ∈ sl_firing s \/ id ∈ cs_channel_list (sl_selector s) \/ id ∈ sl_selected s;
  co_staged : mc_buffered c <> no_mail -> id ∈ sl_consumed s
}.

Definition in_hand (s : Slot) : list N := sl_firing s ++ cs_channel_list (sl_selector s) ++ sl_selected s ++ sl_consumed s.

Record slot_ok (s : Slot) : Prop := mk_slot_ok {
  so_selector : selector_ok (sl_selector s);
  so_channels : forall id c, sl_channels s !! id = Some c -> channel_ok s id c;
  so_known : forall id, id ∈ in_hand s -> is_Some (sl_channels s !! id)
}.

Lemma elem_of_deleted (l : list N) i x k : l !! i = Some x -> k ∈ l -> k = x \/ k ∈ delete i l.
Proof. intros Hi Hk. rewrite (delete_Permutation l i x Hi) in Hk. by apply elem_of_cons in Hk. Qed.

Lemma elem_of_undeleted (l : list N) i k : k ∈ delete i l -> k ∈ l.
Proof. intros Hk. by apply (sublist_subseteq (delete i l) l (sublist_delete l i)). Qed.

(** What a channel asks of the rest of the slot. *)
Lemma channel_ok_mono s s' id c :
  channel_ok s id c -> sl_accepted s' !! id = sl_accepted s !! id -> sl_left s' !! id = sl_left s !! id ->
  (id ∈ sl_firing s \/ id ∈ cs_channel_list (sl_selector s) \/ id ∈ sl_selected s ->
   id ∈ sl_firing s' \/ id ∈ cs_channel_list (sl_selector s') \/ id ∈ sl_selected s') ->
  (id ∈ sl_consumed s -> id ∈ sl_consumed s') -> channel_ok s' id c.
Proof.
  intros [(a & l & Ha & Hl & Hf) Hs Hq Hb] Ha' Hl' Hq' Hb'. constructor; [|done|auto|auto].
  exists a, l. by rewrite Ha', Hl'.
Qed.

Lemma channel_queue_ok s id p mails c :
  channel_ok s id c -> channel_ok (accept_mail id p mails (channel_queue p mails c) s) id (channel_queue p mails c).
Proof.
  intros [(a & l & Ha & Hl & Hf) Hs Hq Hb]. constructor; cbn.
  - exists (lanes_app a (only p mails)), l. rewrite lookup_alter_eq, Ha. split_and!; [done|done|]. intros q.
    unfold only. rewrite lane_app, !lane_on_lane, Hf. case_decide; [by rewrite !app_assoc|destruct q; by rewrite app_nil_r].
  - rewrite Hs. unfold all_mail, lanes_list. destruct p; cbn; unfold len; rewrite !length_app; cbn; lia.
  - intros _. left. rewrite elem_of_app. right. by apply list_elem_of_singleton.
  - exact Hb.
Qed.

Lemma accept_mail_ok s id p mails c :
  slot_ok s -> sl_channels s !! id = Some c -> slot_ok (accept_mail id p mails (channel_queue p mails c) s).
Proof.
  intros [Hx Hc Hk] Hid. constructor; [exact Hx| |].
  - intros id' c'. cbn. rewrite lookup_insert. case_decide as Hi.
    + subst id'. intros [= <-]. apply channel_queue_ok. by apply Hc.
    + intros Hc'. apply (channel_ok_mono s); [by apply Hc|cbn; by rewrite lookup_alter_ne|done| |done].
      cbn. intros [H|H]; [|by right]. left. rewrite elem_of_app. by left.
  - intros id' Hin. cbn. rewrite lookup_insert. case_decide; [by eexists|]. apply Hk.
    unfold in_hand in *. cbn in Hin. rewrite !elem_of_app in *. rewrite list_elem_of_singleton in Hin. naive_solver.
Qed.

(** A refused send only counts. *)
Lemma refused_ok s id c c' :
  slot_ok s -> sl_channels s !! id = Some c -> mc_channels c' = mc_channels c -> mc_buffered c' = mc_buffered c ->
  mc_size c' = mc_size c -> slot_ok (s <| sl_channels ::= <[id := c']> |>).
Proof.
  intros [Hx Hc Hk] Hid H1 H2 H3. constructor; [exact Hx| |].
  - intros id' c0. cbn. rewrite lookup_insert. case_decide as Hi; [|intros Hc'; by apply (channel_ok_mono s); [apply Hc|..]].
    subst id'. intros [= <-]. destruct (Hc id c Hid) as [Hf Hs Hq Hb]. constructor; cbn; rewrite ?H1, ?H2, ?H3; done.
  - intros id' Hin. cbn. rewrite lookup_insert. case_decide; [by eexists|]. by apply Hk.
Qed.

Lemma slot_fire_ok s i id :
  slot_ok s -> sl_firing s !! i = Some id ->
  slot_ok (s <| sl_firing ::= delete i |> <| sl_selector ::= (fun x => snd (fire id x)) |>).
Proof.
  intros [Hx Hc Hk] Hi. destruct (fire_ok id (sl_selector s) Hx) as [Hx' Hin]. constructor; [exact Hx'| |].
  - intros id' c Hc'. apply (channel_ok_mono s); [by apply Hc|done|done| |done]. cbn.
    intros [H|[H|H]]; [|right; left; rewrite Hin; by right|by right; right].
    destruct (elem_of_deleted _ _ _ _ Hi H) as [->|H']; [right; left; rewrite Hin; by left|by left].
  - intros id' H. apply Hk. unfold in_hand in *. cbn in H. rewrite !elem_of_app, Hin in *.
    destruct H as [H|[[-> |H]|H]]; [left; by apply elem_of_undeleted in H|left; by apply list_elem_of_lookup_2 in Hi|naive_solver..].
Qed.

Lemma slot_select_ok s channels x :
  slot_ok s -> selector_ok x -> cs_channel_list (sl_selector s) = channels ++ cs_channel_list x ->
  slot_ok (s <| sl_selector := x |> <| sl_selected ::= (fun l => l ++ channels) |>).
Proof.
  intros [Hx Hc Hk] Hx' Hl. constructor; [exact Hx'| |].
  - intros id c Hid. apply (channel_ok_mono s); [by apply Hc|done|done| |done]. cbn. rewrite Hl, !elem_of_app. naive_solver.
  - intros id H. apply Hk. unfold in_hand in *. cbn in H. rewrite Hl, !elem_of_app in *. naive_solver.
Qed.

Lemma slot_consume_ok s i id c :
  slot_ok s -> sl_selected s !! i = Some id -> sl_channels s !! id = Some c ->
  let '(c', x) := consume c (sl_selector s) in
  slot_ok (s <| sl_channels ::= <[id := c']> |> <| sl_selector := x |>
             <| sl_selected ::= delete i |> <| sl_consumed ::= (fun l => l ++ [id]) |>).
Proof.
  intros [Hx Hc Hk] Hi Hid. unfold consume. cbn zeta. constructor; [exact Hx| |].
  - intros id' c'. cbn. rewrite lookup_insert. case_decide as He.
    + subst id'. intros [= <-]. destruct (Hc id c Hid) as [(a & l & Ha & Hl & Hf) Hs Hq Hb].
      constructor; cbn; [|done|done|intros _; rewrite elem_of_app; right; by apply list_elem_of_singleton].
      exists a, l. split_and!; [done|done|]. intros p. rewrite Hf, lane_app. destruct p; cbn; by rewrite app_nil_r.
    + intros Hc'. apply (channel_ok_mono s); [by apply Hc|done|done| |cbn; rewrite elem_of_app; by left]. cbn.
      intros [H|[H|H]]; [by left|by right; left|]. right. right.
      destruct (elem_of_deleted _ _ _ _ Hi H) as [->|H']; [done|done].
  - intros id' H. cbn. rewrite lookup_insert. case_decide; [by eexists|]. apply Hk. unfold in_hand in *. cbn in H.
    rewrite !elem_of_app, list_elem_of_singleton in *. destruct H as [H|[H|[H|[H| ->]]]]; [by left|by right; left| |by right; right; right|].
    + right. right. left. by apply elem_of_undeleted in H.
    + right. right. left. by apply list_elem_of_lookup_2 in Hi.
Qed.

Lemma slot_drain_ok s i id c :
  slot_ok s -> sl_consumed s !! i = Some id -> sl_channels s !! id = Some c ->
  slot_ok (s <| sl_channels ::= <[id := snd (drain_buffered c)]> |> <| sl_consumed ::= delete i |>
             <| sl_left ::= alter (fun l => lanes_app l (mc_buffered c)) id |>).
Proof.
  intros [Hx Hc Hk] Hi Hid. constructor; [exact Hx| |].
  - intros id' c'. cbn. rewrite lookup_insert. case_decide as He.
    + subst id'. intros [= <-]. destruct (Hc id c Hid) as [(a & l & Ha & Hl & Hf) Hs Hq Hb].
      constructor; cbn; [|done|done|done]. exists a, (lanes_app l (mc_buffered c)). rewrite lookup_alter_eq, Hl.
      split_and!; [done|done|]. intros p. rewrite Hf, lane_app. destruct p; cbn; by rewrite <- app_assoc.
    + intros Hc'. apply (channel_ok_mono s); [by apply Hc|done|cbn; by rewrite lookup_alter_ne|done|]. cbn.
      intros H. destruct (elem_of_deleted _ _ _ _ Hi H) as [->|H']; [done|done].
  - intros id' H. cbn. rewrite lookup_insert. case_decide; [by eexists|]. apply Hk. unfold in_hand in *. cbn in H.
    rewrite !elem_of_app in *. destruct H as [H|[H|[H|H]]]; [naive_solver..|].
    right. right. right. by apply elem_of_undeleted in H.
Qed.

Lemma slot_step_ok op s s' : slot_ok s -> slot_step op s = Some s' -> slot_ok s'.
Proof.
  intros Hok. destruct op as [id limit|id p m|id p ms|id p m|i|m|limit|i|i]; cbn -[select_into consume].
  - case_bool_decide as Hid; [done|]. intros [= <-]. destruct Hok as [Hx Hc Hk].
    assert (sl_channels s !! id = None) as Hn by (by apply eq_None_not_Some). constructor; [exact Hx| |].
    + intros id' c. cbn. rewrite lookup_insert. case_decide as He.
      * subst id'. intros [= <-]. constructor; cbn; [|done|done|done]. exists no_mail, no_mail.
        rewrite !lookup_insert_eq. split_and!; [done|done|]. by intros [].
      * intros Hc'. apply (channel_ok_mono s); [by apply Hc|cbn; by rewrite lookup_insert_ne..|done|done].
    + intros id' H. cbn. rewrite lookup_insert. case_decide; [by eexists|]. by apply Hk.
  - destruct (sl_channels s !! id) as [c|] eqn:Hid; [|done]. cbn. unfold channel_try_send.
    destruct (overflow c); intros [= <-]; [by apply (refused_ok s id c)|by apply accept_mail_ok].
  - destruct (sl_channels s !! id) as [c|] eqn:Hid; [|done]. cbn. unfold channel_try_send_many.
    destruct (admits _ c); intros [= <-]; [by apply accept_mail_ok|by apply (refused_ok s id c)].
  - destruct (sl_channels s !! id) as [c|] eqn:Hid; [|done]. cbn. intros [= <-]. by apply accept_mail_ok.
  - destruct (sl_firing s !! i) as [id|] eqn:Hi; [|done]. cbn. intros [= <-]. by apply slot_fire_ok.
  - intros [= <-]. destruct Hok as [Hx Hc Hk]. constructor; [exact Hx| |exact Hk].
    intros id c Hc'. apply (channel_ok_mono s); [by apply Hc|done..].
  - destruct (select_into _ _ _) as [[[[channels globals] more] x]|] eqn:Hs; [|done]. cbn. intros [= <-].
    destruct (select_ok _ _ _ _ _ _ (so_selector s Hok) Hs) as (Hx & Hl & _). by apply slot_select_ok.
  - destruct (sl_selected s !! i) as [id|] eqn:Hi; [|done]. cbn. destruct (sl_channels s !! id) as [c|] eqn:Hid; [|done].
    cbn. intros [= <-]. exact (slot_consume_ok s i id c Hok Hi Hid).
  - destruct (sl_consumed s !! i) as [id|] eqn:Hi; [|done]. cbn. destruct (sl_channels s !! id) as [c|] eqn:Hid; [|done].
    cbn. intros [= <-]. exact (slot_drain_ok s i id c Hok Hi Hid).
Qed.

Lemma run_slot_ok ops s s' : slot_ok s -> run_slot ops s = Some s' -> slot_ok s'.
Proof.
  revert s. induction ops as [|op ops IH]; intros s Hok; cbn; [by intros [= <-]|].
  destruct (slot_step op s) as [s1|] eqn:Hs; [|done]. cbn. apply IH. by apply (slot_step_ok op s).
Qed.

Lemma slot_start_ok : slot_ok slot_start.
Proof. constructor; [split; [apply NoDup_nil_2|done]|done|]. intros id. cbn. by intros H%not_elem_of_nil. Qed.

(** ** Progress *)

(** The steps of threads already under way: a sender that fires, a worker that
    selects, consumes or drains. *)
Definition internal (op : SlotOp) : bool :=
  match op with SFire _ | SConsume _ | SDrain _ => true | SSelect limit => (0 <? limit)%N | _ => false end.

Definition work (s : Slot) : nat :=
  4 * length (sl_firing s) + 3 * length (cs_channel_list (sl_selector s)) + 2 * length (sl_selected s)
  + length (sl_consumed s) + length (cs_global_mails (sl_selector s)).

Lemma delete_length {A} (l : list A) i x : l !! i = Some x -> length l = S (length (delete i l)).
Proof. intros Hi. apply (delete_Permutation l i x), Permutation_length in Hi. exact Hi. Qed.

Lemma fire_length id x :
  (length (cs_channel_list (fire id x).2) <= S (length (cs_channel_list x)))%nat
  /\ cs_global_mails (fire id x).2 = cs_global_mails x.
Proof. unfold fire. case_bool_decide; cbn; [split; [lia|done]|]. rewrite length_app. cbn. split; [lia|done]. Qed.

Lemma pop_channels_globals n x : cs_global_mails (pop_channels n x).2 = cs_global_mails x.
Proof.
  revert x. induction n as [|n IH]; intros x; [done|]. cbn. destruct (cs_channel_list x) as [|id rest]; [done|].
  specialize (IH (x <| cs_channel_list := rest |> <| cs_active_channels ::= (fun a => a ∖ {[id]}) |>)).
  by destruct (pop_channels n _).
Qed.

Lemma select_globals limit x channels globals more x' :
  select_into (mkChannelSelectorPolicy limit (csp_timeout_ms ChannelSelectorPolicy_default)) [] x
    = Some ((channels, globals, more), x') ->
  cs_global_mails x' = [] /\ (cs_channel_list x <> [] \/ cs_global_mails x <> []).
Proof.
  unfold select_into. cbn [rearrange foldl csp_limit csp_timeout_ms]. rewrite N.eqb_refl, andb_true_r.
  destruct (has_ready_work x) eqn:Hr; [|done]. cbn [negb]. unfold take_selection. cbn zeta.
  match goal with |- context [pop_channels ?n ?y] => pose proof (pop_channels_globals n y) as Hg;
    destruct (pop_channels n y) as [l x1] end.
  intros [= <- _ _ <-]. split; [exact Hg|]. unfold has_ready_work in Hr. apply orb_true_iff in Hr as [H|H].
  - left. by case_bool_decide.
  - right. case_bool_decide as Hl; [done|]. intros Hnil. by rewrite Hnil in Hl.
Qed.

Lemma internal_step_work op s s' :
  slot_ok s -> internal op = true -> slot_step op s = Some s' -> (work s' < work s)%nat.
Proof.
  intros Hok Hin. unfold work. destruct op as [id limit|id p m|id p ms|id p m|i|m|limit|i|i]; try done; cbn -[select_into consume].
  - destruct (sl_firing s !! i) as [id|] eqn:Hi; [|done]. cbn -[Nat.mul]. intros [= <-]. cbn -[Nat.mul].
    rewrite (delete_length _ _ _ Hi). destruct (fire_length id (sl_selector s)) as [Hl ->]. lia.
  - destruct (select_into _ _ _) as [[[[channels globals] more] x]|] eqn:Hs; [|done]. cbn -[Nat.mul]. intros [= <-]. cbn -[Nat.mul].
    destruct (select_ok _ _ _ _ _ _ (so_selector s Hok) Hs) as (_ & Hl & Hne). destruct (select_globals _ _ _ _ _ _ Hs) as [Hg Hr].
    rewrite Hg. cbn in Hin. apply N.ltb_lt in Hin. specialize (Hne Hin). rewrite Hl in Hne |- *. rewrite !length_app.
    destruct channels as [|id channels]; cbn -[Nat.mul]; [|lia]. destruct Hr as [Hr|Hr]; [by rewrite Hl in Hr; destruct Hne|].
    destruct (cs_global_mails (sl_selector s)); [done|cbn; lia].
  - destruct (sl_selected s !! i) as [id|] eqn:Hi; [|done]. cbn. destruct (sl_channels s !! id) as [c|] eqn:Hid; [|done].
    cbn -[Nat.mul]. intros [= <-]. cbn -[Nat.mul]. rewrite (delete_length _ _ _ Hi), length_app. cbn. lia.
  - destruct (sl_consumed s !! i) as [id|] eqn:Hi; [|done]. cbn. destruct (sl_channels s !! id) as [c|] eqn:Hid; [|done].
    cbn -[Nat.mul]. intros [= <-]. cbn -[Nat.mul]. rewrite (delete_length _ _ _ Hi). lia.
Qed.

(** As long as a thread is under way, one of them can go on. *)
Lemma internal_step_enabled s : slot_ok s -> (0 < work s)%nat -> exists op, internal op = true /\ is_Some (slot_step op s).
Proof.
  intros Hok Hw. unfold work in Hw. destruct (sl_firing s) as [|id l] eqn:Hf.
  2: { exists (SFire 0). split; [done|]. cbn. rewrite Hf. by eexists. }
  assert (forall id, id ∈ in_hand s -> is_Some (sl_channels s !! id)) as Hk by apply Hok. unfold in_hand in Hk.
  destruct (sl_selected s) as [|id l] eqn:Hsel.
  2: { exists (SConsume 0). split; [done|]. cbn. rewrite Hsel. cbn. destruct (Hk id) as [c Hc]; [set_solver|].
    rewrite Hc. cbn. by eexists. }
  destruct (sl_consumed s) as [|id l] eqn:Hcon.
  2: { exists (SDrain 0). split; [done|]. cbn. rewrite Hcon. cbn. destruct (Hk id) as [c Hc]; [set_solver|].
    rewrite Hc. cbn. by eexists. }
  exists (SSelect 1). split; [done|]. cbn -[select_into]. unfold select_into. cbn [rearrange foldl csp_timeout_ms].
  assert (has_ready_work (sl_selector s) = true) as ->.
  { unfold has_ready_work. apply orb_true_iff. cbn in Hw. destruct (cs_channel_list (sl_selector s)); [|by left].
    right. cbn in Hw. case_bool_decide; [lia|done]. }
  cbn. destruct (take_selection _ _) as [[[channels globals] more] x]. cbn. by eexists.
Qed.

Lemma internal_run_bound more s s' :
  slot_ok s -> Forall (fun op => internal op = true) more -> run_slot more s = Some s' ->
  slot_ok s' /\ (length more + work s' <= work s)%nat.
Proof.
  intros Hok Hin. revert s Hok. induction Hin as [|op more Ho Hin IH]; intros s Hok; cbn [run_slot length].
  { intros [= <-]. split; [done|lia]. }
  destruct (slot_step op s) as [s1|] eqn:Hs; [|done]. cbn [mbind option_bind]. intros Hr.
  pose proof (internal_step_work op s s1 Hok Ho Hs) as Hw.
  destruct (IH s1 (slot_step_ok op s s1 Hok Hs) Hr) as [Hok' Hl]. split; [done|lia].
Qed.

Lemma lanes_empty_dec (l : Lanes) : l = no_mail \/ l <> no_mail.
Proof. destruct l as [[|] [|] [|]]; try (by right); by left. Qed.

Lemma settled_delivered s id c :
  slot_ok s -> (forall op, internal op = true -> slot_step op s = None) -> sl_channels s !! id = Some c ->
  sl_left s !! id = sl_accepted s !! id /\ mc_channels c = no_mail /\ mc_buffered c = no_mail.
Proof.
  intros Hok Hst Hc. assert (work s = 0)%nat as Hw.
  { destruct (work s) eqn:E; [done|]. destruct (internal_step_enabled s Hok) as (op & Ho & Hs); [lia|].
    rewrite (Hst op Ho) in Hs. by destruct Hs. }
  unfold work in Hw. destruct (so_channels s Hok id c Hc) as [(a & l & Ha & Hl & Hf) _ Hq Hb].
  assert (mc_channels c = no_mail) as Hc0.
  { destruct (lanes_empty_dec (mc_channels c)) as [?|Hne]; [done|]. exfalso. destruct (Hq Hne) as [H|[H|H]];
      apply list_elem_of_lookup_1 in H as [i Hi]; apply lookup_lt_Some in Hi; clear -Hw Hi; cbn in Hw; lia. }
  assert (mc_buffered c = no_mail) as Hb0.
  { destruct (lanes_empty_dec (mc_buffered c)) as [?|Hne]; [done|]. exfalso. pose proof (Hb Hne) as H.
    apply list_elem_of_lookup_1 in H as [i Hi]. apply lookup_lt_Some in Hi. lia. }
  split_and!; [|done|done]. rewrite Ha, Hl. f_equal. rewrite Hc0, Hb0 in Hf.
  pose proof (Hf Urgent) as H1. pose proof (Hf Normal) as H2. pose proof (Hf Slowly) as H3. destruct a, l. cbn in *.
  rewrite !app_nil_r in *. by subst.
Qed.

(** C24: No mail of a channel is lost, repeated, reordered or stranded. Whatever senders
    and workers do, critical section by critical section, each lane of each channel has
    handed out a prefix of the mail it let in, in order, and the rest is staged or
    queued; and while anything is staged or queued some thread is under way, so that
    once the senders stop, every way of running the threads ends, within a number of
    steps known beforehand, with all of the mail handed out. *)
Theorem channels_deliver_everything ops s :
  run_slot ops slot_start = Some s ->
  (forall id c, sl_channels s !! id = Some c -> exists accepted left,
     sl_accepted s !! id = Some accepted /\ sl_left s !! id = Some left
     /\ forall p, lane p accepted = lane p left ++ lane p (mc_buffered c) ++ lane p (mc_channels c))
  /\ (forall more s', Forall (fun op => internal op = true) more -> run_slot more s = Some s' ->
        (length more <= work s)%nat
        /\ ((forall op, internal op = true -> slot_step op s' = None) ->
            forall id c, sl_channels s' !! id = Some c ->
              sl_left s' !! id = sl_accepted s' !! id /\ mc_channels c = no_mail /\ mc_buffered c = no_mail)).
Proof.
  intros Hr. assert (slot_ok s) as Hok by exact (run_slot_ok ops _ _ slot_start_ok Hr). split.
  - intros id c Hc. apply (so_channels s Hok id c Hc).
  - intros more s' Hin Hm. destruct (internal_run_bound more s s' Hok Hin Hm) as [Hok' Hl]. split; [lia|].
    intros Hst id c Hc. by apply settled_delivered.
Qed.
End selector.
Arguments MailChannel : clear implicits.
Arguments ChannelSelector : clear implicits.
Arguments Slot : clear implicits.
Arguments SlotOp : clear implicits.

(** Two workers inside a fetch of one channel: a second mail arrives, is fired and
    consumed, before the first is drained. *)
Definition sample_slot_ops : list (SlotOp N) :=
  [SRegister 1 8; STrySend 1 Normal 10%N; SFire 0; SSelect 4; SConsume 0; SSend 1 Urgent 20%N; SFire 0; SSelect 4].
Definition sample_slot : Slot N := default slot_start (run_slot sample_slot_ops slot_start).
Definition sample_slot_rest : list (SlotOp N) := [SConsume 0; SDrain 0; SDrain 0].
Definition sample_slot_end : Slot N := default slot_start (run_slot sample_slot_rest sample_slot).

Lemma channels_deliver_everything_witness :
  work sample_slot = 3%nat /\ sl_left sample_slot_end !! 1%N = Some (mkLanes [20%N] [10%N] [])
  /\ forall c, sl_channels sample_slot_end !! 1%N = Some c -> sl_left sample_slot_end !! 1%N = sl_accepted sample_slot_end !! 1%N.
Proof.
  do 2 (split; [vm_compute; reflexivity|]). intros c Hc.
  assert (run_slot sample_slot_ops slot_start = Some sample_slot) as Hr by (vm_compute; reflexivity).
  destruct (channels_deliver_everything sample_slot_ops sample_slot Hr) as [_ H].
  destruct (H sample_slot_rest sample_slot_end) as [_ Hd]; [repeat constructor|vm_compute; reflexivity|].
  apply (Hd) with (c := c); [|exact Hc]. intros [] Ho; try discriminate Ho; cbn -[select_into]; [reflexivity| |reflexivity|reflexivity].
  unfold select_into. cbn -[take_selection]. reflexivity.
Defined.
