(* ===== verification/Driver.v ===== *)
(** * The driver: one ticker for many groups

    [Driver] ([src/driver.rs]) ticks every registered group from one thread. Deadlines
    are kept in buckets by millisecond; a registration lives in a slot, and a deadline
    names its slot with the generation it was scheduled under, so that a deadline of a
    cancelled group is dropped and never fires whoever took the slot over. The ticker
    gathers the receivers that are due with the state's lock held, and calls them with
    the lock dropped; a cancel that finds such a pass under way waits for its end.

    [advance] is the locked part of [advance_to]; [tick_step] takes one critical
    section of one thread, and the state keeps the receivers the ticker has gathered
    and not yet called, and the cancels that wait. The pool of emptied bucket vectors
    ([spare]) holds capacity only and is not modelled, nor are the condition variables
    (a wait is the step not being enabled) and poisoned mutexes. A cancel vacates the
    slot and reads the pass in one step: of the ticker's steps only the gather could
    tell the difference, and it takes the lock the cancel holds.

    The theorems: a pass of the ticker fires each group that is due once, and leaves
    each registered group exactly one deadline, in the future; once a cancel has
    returned, its group is never ticked again. *)

From stdpp Require Import base strings pretty numbers sorting gmap fin_maps sets list.
From S2P Require Import Prelude Types.

Record DriverGroupKey := mkDriverGroupKey { dgk_group_id : N; dgk_node_id : N }.
#[export] Instance DriverGroupKey_eq_dec : EqDecision DriverGroupKey.
Proof. solve_decision. Defined.
#[export] Instance DriverGroupKey_countable : Countable DriverGroupKey.
Proof.
  apply (inj_countable' (fun k => (dgk_group_id k, dgk_node_id k)) (fun p => mkDriverGroupKey p.1 p.2)). by intros [].
Defined.

Record DriverOptions := mkDriverOptions {
  do_worker_num : N;
  do_max_messages_each_poll : N;
  do_max_queue_depth : N;
  do_driver_batch_bytes : N;
  do_tick_interval_ms : N
}.
Definition DriverOptions_default : DriverOptions := mkDriverOptions 1 64 4096 1048576 100.

Definition DriverOptions_validate (o : DriverOptions) : Result unit :=
  if (do_worker_num o =? 0)%N then Err (InvalidRequest "driver requires at least one worker")
  else if (do_tick_interval_ms o =? 0)%N then Err (InvalidRequest "driver tick interval must be at least 1ms")
  else Ok tt.

Definition u32_modulus : N := 4294967296.

Record Scheduled := mkScheduled { sc_slot : N; sc_generation : N }.
#[export] Instance Scheduled_eq_dec : EqDecision Scheduled.
Proof. solve_decision. Defined.

(** A receiver is an [Arc] to code of the host: its identity. *)
Record Registration := mkRegistration { reg_receiver : N; reg_interval_ms : N }.

Record TickSlot := mkTickSlot { ts_registration : option Registration; ts_generation : N }.

Record TickState := mkTickState {
  tk_clock_ms : N;
  tk_buckets : gmap N (list Scheduled);
  tk_groups : gmap DriverGroupKey N;
  tk_slots : list TickSlot;
  tk_free : list N
}.
#[export] Instance eta_TickState : Settable TickState :=
  fun s => mkTickState (tk_clock_ms s) (tk_buckets s) (tk_groups s) (tk_slots s) (tk_free s).

(** The counters of a pass. *)
Record TickCounts := mkTickCounts { tc_dropped : N; tc_skipped : N }.
#[export] Instance eta_TickCounts : Settable TickCounts := fun c => mkTickCounts (tc_dropped c) (tc_skipped c).

Definition tick_state_new : TickState := mkTickState 0 ∅ ∅ [] [].

(** [buckets.entry(at_ms).or_default().push(entry)], and the [get_mut] or [insert] of
    a reschedule, which is the same. *)
Definition push_bucket (at_ms : N) (entry : Scheduled) (b : gmap N (list Scheduled)) : gmap N (list Scheduled) :=
  <[at_ms := default [] (b !! at_ms) ++ [entry]]> b.

(** ** A pass of the ticker *)

(** The registration a deadline is for, if it is still there under the generation
    of the deadline. The slot of a deadline is never past the end of the table. *)
Definition live (s : TickState) (entry : Scheduled) : option Registration :=
  slot ← tk_slots s !! N.to_nat (sc_slot entry);
  if (ts_generation slot =? sc_generation entry)%N then ts_registration slot else None.

Definition next_at (at_ms interval now : N) : N := N.max (at_ms +s interval) (now + 1).

(** The body of the loop over one bucket. *)
Definition fire_entry (now at_ms : N) (acc : TickState * list N * TickCounts) (entry : Scheduled)
    : TickState * list N * TickCounts :=
  let '(s, due, counts) := acc in
  match live s entry with
  | None => (s, due, counts <| tc_dropped ::= (fun n => n + 1)%N |>)
  | Some registration =>
      let interval := N.max (reg_interval_ms registration) 1 in
      let owed := ((now - at_ms) / interval)%N in
      (s <| tk_buckets ::= push_bucket (next_at at_ms interval now) entry |>,
       due ++ [reg_receiver registration],
       counts <| tc_skipped ::= (fun n => n + owed)%N |>)
  end.

Definition first_bucket (b : gmap N (list Scheduled)) : option (N * list Scheduled) := head (bt_entries b).

(** The loop over the buckets that are due. *)
Fixpoint drain_due (fuel : nat) (now : N) (acc : TickState * list N * TickCounts) : TickState * list N * TickCounts :=
  match fuel with
  | O => acc
  | S fuel =>
      let '(s, due, counts) := acc in
      match first_bucket (tk_buckets s) with
      | None => acc
      | Some (at_ms, scheduled) =>
          if (now <? at_ms)%N then acc
          else drain_due fuel now
                 (foldl (fire_entry now at_ms) (s <| tk_buckets ::= delete at_ms |>, due, counts) scheduled)
      end
  end.

Definition advance (now_ms : N) (s : TickState) : TickState * list N * TickCounts :=
  let s := s <| tk_clock_ms ::= (fun clock => if (clock <? now_ms)%N then now_ms else clock) |> in
  drain_due (S (size (tk_buckets s))) (tk_clock_ms s) (s, [], mkTickCounts 0 0).

(** ** Registration and cancelling *)

(** The slot of a new registration: a free one, or a new one at the end. *)
Definition take_slot (registration : Registration) (s : TickState) : N * TickState :=
  match tk_free s with
  | [] =>
      ((N.of_nat (length (tk_slots s)) `mod` u32_modulus)%N,
       s <| tk_slots ::= (fun slots => slots ++ [mkTickSlot (Some registration) 0]) |>)
  | slot :: rest =>
      (slot, s <| tk_free := rest |>
               <| tk_slots ::= alter (fun reused => mkTickSlot (Some registration) (ts_generation reused)) (N.to_nat slot) |>)
  end.

(** Whether the ticker was woken. *)
Definition register_group_every (options : DriverOptions) (key : DriverGroupKey) (receiver interval_ms : N) (s : TickState)
    : Result bool * TickState :=
  let interval_ms := N.max (if (interval_ms =? 0)%N then do_tick_interval_ms options else interval_ms) 1 in
  if bool_decide (is_Some (tk_groups s !! key)) then
    (Err (InvalidRequest ("driver already holds group " ++s pretty (dgk_group_id key) ++s " node "
                          ++s pretty (dgk_node_id key))), s)
  else
    let at_ms := tk_clock_ms s +s interval_ms in
    let earliest_before := fst <$> first_bucket (tk_buckets s) in
    let '(slot, s) := take_slot (mkRegistration receiver interval_ms) s in
    let generation := default 0%N (ts_generation <$> tk_slots s !! N.to_nat slot) in
    let s := s <| tk_groups ::= <[key := slot]> |> <| tk_buckets ::= push_bucket at_ms (mkScheduled slot generation) |> in
    (Ok (match earliest_before with None => true | Some earliest => (at_ms <? earliest)%N end), s).

(** The part of a cancel that changes the state; the slot it vacated. *)
Definition vacate (key : DriverGroupKey) (s : TickState) : option (N * TickState) :=
  slot ← tk_groups s !! key;
  Some (slot, s <| tk_groups ::= delete key |>
                <| tk_slots ::= alter (fun vacated => mkTickSlot None ((ts_generation vacated + 1) `mod` u32_modulus)) (N.to_nat slot) |>
                <| tk_free ::= cons slot |>).

(** ** Deadlines as a bag *)

Definition deadlines (b : gmap N (list Scheduled)) : list (N * Scheduled) :=
  '(at_ms, entries) ← map_to_list b; (fun entry => (at_ms, entry)) <$> entries.

Lemma deadlines_insert at_ms es b :
  b !! at_ms = None -> deadlines (<[at_ms := es]> b) ≡ₚ ((fun e => (at_ms, e)) <$> es) ++ deadlines b.
Proof. intros H. unfold deadlines. by rewrite map_to_list_insert. Qed.

Lemma deadlines_delete at_ms es b :
  b !! at_ms = Some es -> deadlines b ≡ₚ ((fun e => (at_ms, e)) <$> es) ++ deadlines (delete at_ms b).
Proof.
  intros H. rewrite <- (insert_delete_id b at_ms es H) at 1. apply deadlines_insert. apply lookup_delete_eq.
Qed.

Lemma deadlines_push at_ms e b : deadlines (push_bucket at_ms e b) ≡ₚ (at_ms, e) :: deadlines b.
Proof.
  unfold push_bucket. destruct (b !! at_ms) as [es|] eqn:H; cbn.
  - rewrite (deadlines_delete at_ms es b H), (deadlines_delete at_ms (es ++ [e]) (<[at_ms:=_]> b)) by apply lookup_insert_eq.
    rewrite delete_insert_eq, fmap_app, <- app_assoc. cbn. symmetry. apply Permutation_middle.
  - by rewrite deadlines_insert.
Qed.

Lemma elem_of_deadlines at_ms e b : (at_ms, e) ∈ deadlines b <-> exists es, b !! at_ms = Some es /\ e ∈ es.
Proof.
  unfold deadlines. rewrite list_elem_of_bind. split.
  - intros ([a es] & H1 & H2). apply elem_of_map_to_list in H2. apply list_elem_of_fmap in H1 as (e' & [= -> ->] & H1). by exists es.
  - intros (es & H1 & H2). exists (at_ms, es). rewrite elem_of_map_to_list. split; [|done]. apply list_elem_of_fmap. by exists e.
Qed.

Lemma first_bucket_some b at_ms es : first_bucket b = Some (at_ms, es) ->
  b !! at_ms = Some es /\ forall k es', b !! k = Some es' -> (at_ms <= k)%N.
Proof.
  unfold first_bucket. intros H. assert ((at_ms, es) ∈ bt_entries b) as Hin by (destruct (bt_entries b); [done|]; cbn in H; injection H as ->; apply list_elem_of_here).
  split; [by apply elem_of_bt_entries|]. intros k es' Hk%elem_of_bt_entries.
  assert (StronglySorted key_le (bt_entries b)) as Hs by (apply StronglySorted_merge_sort; [intros x y z; unfold key_le; lia|intros x y; unfold key_le; lia]).
  destruct (bt_entries b) as [|x l]; [done|]. cbn in H. injection H as ->. apply StronglySorted_inv in Hs as [_ Hf].
  apply elem_of_cons in Hk as [[= -> ->]|Hk]; [done|]. rewrite Forall_forall in Hf. exact (Hf _ Hk).
Qed.

Lemma first_bucket_none b : first_bucket b = None -> b = ∅.
Proof.
  unfold first_bucket. intros H. apply map_empty. intros k. destruct (b !! k) as [es|] eqn:Hk; [|done].
  apply elem_of_bt_entries in Hk. by destruct (bt_entries b); [apply not_elem_of_nil in Hk|].
Qed.

(** What a pass does with a deadline that has come. *)
Definition resched (s : TickState) (now : N) (d : N * Scheduled) : option (N * Scheduled) :=
  (fun r => (next_at d.1 (N.max (reg_interval_ms r) 1) now, d.2)) <$> live s d.2.
Definition receiver_of (s : TickState) (d : N * Scheduled) : option N := reg_receiver <$> live s d.2.

(** A pass moves the buckets and nothing else. *)
Definition same_table (s s' : TickState) : Prop := s' = s <| tk_buckets := tk_buckets s' |>.

Lemma same_table_trans s1 s2 s3 : same_table s1 s2 -> same_table s2 s3 -> same_table s1 s3.
Proof. unfold same_table. intros H1 H2. rewrite H2 at 1. rewrite H1. by destruct s1. Qed.

Lemma same_table_live s s' e : same_table s s' -> live s' e = live s e.
Proof. intros ->. done. Qed.

Lemma fire_entries_spec now at_ms es s due counts :
  let '(s', due', _) := foldl (fire_entry now at_ms) (s, due, counts) es in
  same_table s s'
  /\ deadlines (tk_buckets s') ≡ₚ omap (resched s now) ((fun e => (at_ms, e)) <$> es) ++ deadlines (tk_buckets s)
  /\ due' = due ++ omap (receiver_of s) ((fun e => (at_ms, e)) <$> es).
Proof.
  revert s due counts. induction es as [|e es IH]; intros s due counts; cbn [foldl].
  { cbn. rewrite app_nil_r. split_and!; [by destruct s|done|done]. }
  unfold fire_entry at 2. cbn [fmap list_fmap omap list_omap]. unfold resched at 1, receiver_of at 1. cbn [snd fst].
  destruct (live s e) as [r|] eqn:Hl; cbn [fmap option_fmap option_map].
  - set (s1 := s <| tk_buckets ::= _ |>). specialize (IH s1 (due ++ [reg_receiver r]) (counts <| tc_skipped ::= (fun n => n + (now - at_ms) / N.max (reg_interval_ms r) 1)%N |>)).
    destruct (foldl _ _ es) as [[s' due'] counts']. destruct IH as (H1 & H2 & H3).
    assert (same_table s s1) as Hs by (subst s1; by destruct s). split_and!.
    + by apply (same_table_trans s s1).
    + rewrite H2. subst s1. cbn [tk_buckets]. cbn. rewrite deadlines_push. symmetry. apply Permutation_middle.
    + rewrite H3, <- app_assoc. done.
  - specialize (IH s due (counts <| tc_dropped ::= (fun n => n + 1)%N |>)). exact IH.
Qed.

Lemma resched_later s now d d' : resched s now d = Some d' -> (now < d'.1)%N.
Proof. unfold resched. destruct (live s d.2); [|done]. cbn. intros [= <-]. cbn. unfold next_at. lia. Qed.

Definition is_due (now : N) (d : N * Scheduled) : Prop := (d.1 <= now)%N.
#[export] Instance is_due_dec now d : Decision (is_due now d).
Proof. unfold is_due. apply _. Defined.

Lemma filter_resched_due s now (l : list (N * Scheduled)) : filter (is_due now) (omap (resched s now) l) = [].
Proof.
  induction l as [|d l IH]; [done|]. cbn. destruct (resched s now d) as [d'|] eqn:Hd; [|done].
  apply resched_later in Hd. rewrite filter_cons_False; [done|]. unfold is_due. lia.
Qed.

Lemma filter_resched_later s now (l : list (N * Scheduled)) : filter (fun d => ~ is_due now d) (omap (resched s now) l) = omap (resched s now) l.
Proof.
  induction l as [|d l IH]; [done|]. cbn. destruct (resched s now d) as [d'|] eqn:Hd; [|done].
  apply resched_later in Hd. rewrite filter_cons_True by (unfold is_due; lia). by rewrite IH.
Qed.

Lemma filter_due_all now (l : list (N * Scheduled)) : (forall d, d ∈ l -> is_due now d) ->
  filter (is_due now) l = l /\ filter (fun d => ~ is_due now d) l = [].
Proof.
  induction l as [|d l IH]; intros H; [done|]. destruct IH as [H1 H2]; [intros x Hx; apply H; by right|].
  assert (is_due now d) as Hd by (apply H; left). rewrite filter_cons_True, filter_cons_False by (done || tauto).
  by rewrite H1, H2.
Qed.

Lemma filter_due_none now (l : list (N * Scheduled)) : (forall d, d ∈ l -> ~ is_due now d) ->
  filter (is_due now) l = [] /\ filter (fun d => ~ is_due now d) l = l.
Proof.
  induction l as [|d l IH]; intros H; [done|]. destruct IH as [H1 H2]; [intros x Hx; apply H; by right|].
  assert (~ is_due now d) as Hd by (apply H; left). rewrite filter_cons_False, (filter_cons_True (fun d => ~ is_due now d)) by done.
  by rewrite H1, H2.
Qed.

(** The buckets a pass still has to visit. *)
Definition pending (now : N) (b : gmap N (list Scheduled)) : gmap N (list Scheduled) :=
  filter (fun kv : N * list Scheduled => (kv.1 <= now)%N) b.

Lemma push_later_pending now k e b : (now < k)%N -> pending now (push_bucket k e b) = pending now b.
Proof.
  intros Hk. unfold pending, push_bucket. apply map_filter_insert_not'; cbn; [lia|]. intros y _. lia.
Qed.

Lemma fire_entries_pending now at_ms es s due counts :
  pending now (tk_buckets (foldl (fire_entry now at_ms) (s, due, counts) es).1.1) = pending now (tk_buckets s).
Proof.
  revert s due counts. induction es as [|e es IH]; intros s due counts; [done|]. cbn [foldl]. unfold fire_entry at 2.
  destruct (live s e) as [r|]; rewrite IH; [|done]. cbn. apply push_later_pending. unfold next_at. lia.
Qed.

Lemma omap_pointwise {A B} (f g : A -> option B) (l : list A) : (forall x, f x = g x) -> omap f l = omap g l.
Proof. intros H. induction l as [|x l IH]; [done|]. cbn. by rewrite H, IH. Qed.

Lemma drain_due_spec fuel now s due counts :
  (size (pending now (tk_buckets s)) < fuel)%nat ->
  let '(s', due', _) := drain_due fuel now (s, due, counts) in
  same_table s s'
  /\ deadlines (tk_buckets s') ≡ₚ omap (resched s now) (filter (is_due now) (deadlines (tk_buckets s)))
                                  ++ filter (fun d => ~ is_due now d) (deadlines (tk_buckets s))
  /\ due' ≡ₚ due ++ omap (receiver_of s) (filter (is_due now) (deadlines (tk_buckets s))).
Proof.
  revert s due counts. induction fuel as [|fuel IH]; intros s due counts Hf; [lia|]. cbn [drain_due].
  assert ((forall k es, tk_buckets s !! k = Some es -> (now < k)%N) ->
    same_table s s
    /\ deadlines (tk_buckets s) ≡ₚ omap (resched s now) (filter (is_due now) (deadlines (tk_buckets s)))
                                   ++ filter (fun d => ~ is_due now d) (deadlines (tk_buckets s))
    /\ due ≡ₚ due ++ omap (receiver_of s) (filter (is_due now) (deadlines (tk_buckets s)))) as Hnone.
  { intros Hk. destruct (filter_due_none now (deadlines (tk_buckets s))) as [-> ->].
    - intros [k e] (es & Hes & _)%elem_of_deadlines. unfold is_due. cbn. apply Hk in Hes. lia.
    - cbn. rewrite app_nil_r. split_and!; [by destruct s|done|done]. }
  destruct (first_bucket (tk_buckets s)) as [[at_ms es]|] eqn:Hb.
  2: { apply Hnone. intros k es Hk. apply first_bucket_none in Hb. rewrite Hb in Hk. done. }
  apply first_bucket_some in Hb as [Hat Hmin]. destruct (N.ltb_spec now at_ms) as [Hlt|Hle].
  { apply Hnone. intros k es' Hk. apply Hmin in Hk. lia. }
  set (s0 := s <| tk_buckets ::= delete at_ms |>). pose proof (fire_entries_spec now at_ms es s0 due counts) as Hfe.
  pose proof (fire_entries_pending now at_ms es s0 due counts) as Hp.
  destruct (foldl _ _ es) as [[s1 due1] counts1]. cbn [fst] in Hp. destruct Hfe as (Ht1 & Hd1 & Hr1).
  assert (same_table s s1) as Ht by (apply (same_table_trans s s0); [subst s0; by destruct s|done]).
  assert (size (pending now (tk_buckets s1)) < fuel)%nat as Hf1.
  { rewrite Hp. subst s0. cbn. unfold pending in *.
    assert (filter (fun kv : N * list Scheduled => (kv.1 <= now)%N) (tk_buckets s) !! at_ms = Some es) as Hin
      by (apply map_lookup_filter_Some; by split).
    rewrite map_filter_delete, map_size_delete_Some by (by exists es).
    assert (size (filter (fun kv : N * list Scheduled => (kv.1 <= now)%N) (tk_buckets s)) <> 0%nat) as Hne
      by (apply map_size_non_empty_iff; intros He; by rewrite He in Hin). lia. }
  specialize (IH s1 due1 counts1 Hf1). destruct (drain_due fuel now _) as [[s' due'] counts']. destruct IH as (I1 & I2 & I3).
  split; [by apply (same_table_trans s s1)|].
  assert (forall d, resched s1 now d = resched s now d) as Er by (intros d; unfold resched; by rewrite (same_table_live s s1 _ Ht)).
  assert (forall d, receiver_of s1 d = receiver_of s d) as Ec by (intros d; unfold receiver_of; by rewrite (same_table_live s s1 _ Ht)).
  rewrite (omap_pointwise _ _ _ Er) in I2. rewrite (omap_pointwise _ _ _ Ec) in I3.
  assert (deadlines (tk_buckets s) ≡ₚ ((fun e => (at_ms, e)) <$> es) ++ deadlines (tk_buckets s0)) as Hd0 by (by apply deadlines_delete).
  assert (forall d, d ∈ (fun e => (at_ms, e)) <$> es -> is_due now d) as Hdue
    by (intros d (e & -> & _)%list_elem_of_fmap; exact Hle).
  assert (deadlines (tk_buckets s1) ≡ₚ omap (resched s now) ((fun e => (at_ms, e)) <$> es) ++ deadlines (tk_buckets s0)) as Hd1' by exact Hd1.
  clear -I2 I3 Hr1 Hd0 Hdue Hd1'. destruct (filter_due_all now _ Hdue) as [F1 F2].
  rewrite Hd1', !filter_app, filter_resched_due, filter_resched_later in I2. rewrite Hd1', filter_app, filter_resched_due in I3.
  rewrite Hd0, !filter_app, F1, F2, !omap_app. cbn [app] in *. split.
  - rewrite I2. rewrite <- !app_assoc. rewrite !app_assoc. apply Permutation_app_tail. apply Permutation_app_comm.
  - rewrite I3, Hr1, <- app_assoc. done.
Qed.

(** ** The table of registrations *)

(** The slots whose deadline is live, one per deadline. *)
Definition live_slots (s : TickState) : list N :=
  omap (fun d : N * Scheduled => (fun _ => sc_slot d.2) <$> live s d.2) (deadlines (tk_buckets s)).

Definition registered (s : TickState) (slot : N) : Prop :=
  exists r g, tk_slots s !! N.to_nat slot = Some (mkTickSlot (Some r) g).

(** After at most [k] registrations and cancels: keys and registered slots match, a
    free slot is vacant, a deadline is of a slot of the table and of no later
    generation, of an earlier one where the slot is vacant, and each registered slot
    has exactly one live deadline. *)
Record table_ok (k : nat) (s : TickState) : Prop := mk_table_ok {
  to_key : forall key slot, tk_groups s !! key = Some slot -> registered s slot;
  to_inj : forall key key' slot, tk_groups s !! key = Some slot -> tk_groups s !! key' = Some slot -> key = key';
  to_owner : forall slot, registered s slot -> exists key, tk_groups s !! key = Some slot;
  to_free : forall slot, slot ∈ tk_free s -> exists g, tk_slots s !! N.to_nat slot = Some (mkTickSlot None g);
  to_free_once : NoDup (tk_free s);
  to_entry : forall at_ms e, (at_ms, e) ∈ deadlines (tk_buckets s) -> exists ts, tk_slots s !! N.to_nat (sc_slot e) = Some ts
    /\ (sc_generation e <= ts_generation ts)%N /\ (ts_registration ts = None -> (sc_generation e < ts_generation ts)%N);
  to_live_once : NoDup (live_slots s);
  to_live : forall slot, slot ∈ live_slots s <-> registered s slot;
  to_bound : (length (tk_slots s) <= k)%nat /\ forall i ts, tk_slots s !! i = Some ts -> (ts_generation ts <= N.of_nat k)%N
}.

Lemma live_Some s e r : live s e = Some r <->
  tk_slots s !! N.to_nat (sc_slot e) = Some (mkTickSlot (Some r) (sc_generation e)).
Proof.
  unfold live. destruct (tk_slots s !! N.to_nat (sc_slot e)) as [[o g]|]; cbn; [|by split].
  destruct (N.eqb_spec g (sc_generation e)) as [->|Hne]; split.
  - by intros ->.
  - by intros [= ->].
  - done.
  - intros [= -> ->]. done.
Qed.

Lemma live_slots_perm s s' :
  tk_slots s' = tk_slots s -> deadlines (tk_buckets s') ≡ₚ deadlines (tk_buckets s) -> live_slots s' ≡ₚ live_slots s.
Proof.
  intros Hs Hd. unfold live_slots. rewrite (omap_pointwise _ (fun d : N * Scheduled => (fun _ => sc_slot d.2) <$> live s d.2)).
  - by rewrite Hd.
  - intros d. unfold live. by rewrite Hs.
Qed.

Lemma to_nat_inj (a b : N) : N.to_nat a = N.to_nat b -> a = b.
Proof. lia. Qed.

(** The deadline of a live registration. *)
Definition scheduled (s : TickState) (slot at_ms : N) (r : Registration) : Prop :=
  exists e, (at_ms, e) ∈ deadlines (tk_buckets s) /\ sc_slot e = slot /\ live s e = Some r.

Lemma advance_table now s :
  let '(s', due, _) := advance now s in
  let n := N.max (tk_clock_ms s) now in
  tk_clock_ms s' = n /\ tk_groups s' = tk_groups s /\ tk_slots s' = tk_slots s /\ tk_free s' = tk_free s
  /\ deadlines (tk_buckets s') ≡ₚ omap (resched s n) (filter (is_due n) (deadlines (tk_buckets s)))
                                  ++ filter (fun d => ~ is_due n d) (deadlines (tk_buckets s))
  /\ due ≡ₚ omap (receiver_of s) (filter (is_due n) (deadlines (tk_buckets s))).
Proof.
  unfold advance. set (s0 := s <| tk_clock_ms ::= _ |>).
  assert (tk_clock_ms s0 = N.max (tk_clock_ms s) now) as Hc by (subst s0; cbn; destruct (N.ltb_spec (tk_clock_ms s) now); lia).
  pose proof (drain_due_spec (S (size (tk_buckets s0))) (tk_clock_ms s0) s0 [] (mkTickCounts 0 0)) as H.
  destruct (drain_due _ _ _) as [[s' due] counts]. cbn zeta. destruct H as (Ht & Hd & Hr).
  { apply Nat.lt_succ_r. apply map_subseteq_size, map_filter_subseteq. }
  rewrite Hc in *. cbn [app] in Hr. unfold same_table in Ht.
  split_and!; [by rewrite Ht|by rewrite Ht..|exact Hd|exact Hr].
Qed.

Lemma omap_omap_live {A} (f : N * Scheduled -> A) s now (l : list (N * Scheduled)) :
  (forall d d', resched s now d = Some d' -> f d' = f d) ->
  omap (fun d : N * Scheduled => (fun _ => f d) <$> live s d.2) (omap (resched s now) l)
  = omap (fun d : N * Scheduled => (fun _ => f d) <$> live s d.2) l.
Proof.
  intros Hf. induction l as [|d l IH]; [done|]. cbn. unfold resched at 1. destruct (live s d.2) as [r|] eqn:Hl; cbn.
  - rewrite Hl. cbn. rewrite IH. f_equal. apply Hf. unfold resched. by rewrite Hl.
  - done.
Qed.

Lemma filter_split_perm now (l : list (N * Scheduled)) :
  l ≡ₚ filter (is_due now) l ++ filter (fun d => ~ is_due now d) l.
Proof.
  induction l as [|d l IH]; [done|]. rewrite !filter_cons. destruct (decide (is_due now d)).
  - rewrite decide_False by tauto. cbn. by rewrite <- IH.
  - rewrite decide_True by done. rewrite <- Permutation_middle. by rewrite <- IH.
Qed.

Lemma advance_live_slots now s : live_slots (advance now s).1.1 ≡ₚ live_slots s.
Proof.
  pose proof (advance_table now s) as H. destruct (advance now s) as [[s' due] counts]. cbn [fst].
  destruct H as (_ & _ & Hs & _ & Hd & _). unfold live_slots.
  rewrite (omap_pointwise _ (fun d : N * Scheduled => (fun _ => sc_slot d.2) <$> live s d.2))
    by (intros d; unfold live; by rewrite Hs).
  rewrite Hd, omap_app, (omap_omap_live (fun d => sc_slot d.2)), <- omap_app.
  - by rewrite <- filter_split_perm.
  - intros d d'. unfold resched. destruct (live s d.2); [|done]. cbn. by intros [= <-].
Qed.

Lemma advance_ok k now s : table_ok k s -> table_ok k (advance now s).1.1.
Proof.
  intros [H1 H2 H3 H4 H5 H6 H7 H8 H9]. pose proof (advance_live_slots now s) as Hl.
  pose proof (advance_table now s) as H. destruct (advance now s) as [[s' due] counts]. cbn [fst] in *.
  destruct H as (Hc & Hg & Hs & Hf & Hd & _).
  assert (forall slot, registered s' slot <-> registered s slot) as Hreg by (intros slot; unfold registered; by rewrite Hs).
  constructor; rewrite ?Hg, ?Hf, ?Hs; try done.
  - intros key slot Hk. rewrite Hreg. by apply (H1 key).
  - intros slot. rewrite Hreg. apply H3.
  - intros at_ms e. rewrite Hd, elem_of_app. intros [Hin|Hin].
    + apply list_elem_of_omap in Hin as ([a e'] & Hin & Hr). apply list_elem_of_filter in Hin as [_ Hin].
      apply H6 in Hin. unfold resched in Hr. destruct (live s _); [|done]. injection Hr as <- <-. exact Hin.
    + apply list_elem_of_filter in Hin as [_ Hin]. by apply (H6 at_ms).
  - by rewrite Hl.
  - intros slot. by rewrite Hl, Hreg.
Qed.

Lemma receivers_of_slots s (l : list (N * Scheduled)) :
  omap (fun slot => ts ← tk_slots s !! N.to_nat slot; reg_receiver <$> ts_registration ts)
    (omap (fun d : N * Scheduled => (fun _ => sc_slot d.2) <$> live s d.2) l) = omap (receiver_of s) l.
Proof.
  induction l as [|d l IH]; [done|]. cbn. unfold receiver_of at 1. destruct (live s d.2) as [r|] eqn:Hl; cbn; [|exact IH].
  apply live_Some in Hl. rewrite Hl. cbn. by rewrite IH.
Qed.

Lemma sublist_omap {A B} (f : A -> option B) (l l' : list A) : l `sublist_of` l' -> omap f l `sublist_of` omap f l'.
Proof. intros H. induction H as [|x l l' H IH|x l l' H IH]; cbn; [done|destruct (f x); [by constructor|done]|destruct (f x); [by constructor|done]]. Qed.

(** A pass of the ticker fires each group that is due exactly once and forgets
    none. From a state reached by fewer than 2^32 registrations and cancels, every
    registered group has one deadline; the receivers the pass gathers are those of the
    groups whose deadline has come, each once, and of nobody else, a cancelled group's
    outstanding deadline included; each of those groups is rescheduled after the clock,
    at its interval past its old deadline where that is still ahead, and every other
    group keeps its deadline. *)
Theorem ticker_fires_due_groups_once k now s :
  table_ok k s ->
  let '(s', due, _) := advance now s in
  let clock := N.max (tk_clock_ms s) now in
  table_ok k s' /\ tk_clock_ms s' = clock /\ tk_groups s' = tk_groups s
  /\ (forall key slot, tk_groups s !! key = Some slot -> exists at_ms r, scheduled s slot at_ms r)
  /\ exists fired : list N,
       NoDup fired
       /\ (forall slot, slot ∈ fired <-> exists at_ms r, scheduled s slot at_ms r /\ (at_ms <= clock)%N)
       /\ due ≡ₚ omap (fun slot => ts ← tk_slots s !! N.to_nat slot; reg_receiver <$> ts_registration ts) fired
       /\ forall slot at_ms r, scheduled s slot at_ms r ->
            scheduled s' slot (if decide (at_ms <= clock)%N then next_at at_ms (N.max (reg_interval_ms r) 1) clock else at_ms) r.
Proof.
  intros Hok. pose proof (advance_ok k now s Hok) as Hok'. pose proof (advance_table now s) as H.
  destruct (advance now s) as [[s' due] counts]. cbn [fst] in *. cbn zeta in *. destruct H as (Hc & Hg & Hs & Hf & Hd & Hr).
  set (n := N.max (tk_clock_ms s) now) in *. split_and!; [done|done|done| |].
  { intros key slot Hk. apply (to_key k s Hok) in Hk. apply (to_live k s Hok) in Hk.
    unfold live_slots in Hk. apply list_elem_of_omap in Hk as ([a e] & Hin & He). cbn in He.
    destruct (live s e) as [r|] eqn:Hl; [|done]. injection He as <-. by exists a, r, e. }
  exists (omap (fun d : N * Scheduled => (fun _ => sc_slot d.2) <$> live s d.2) (filter (is_due n) (deadlines (tk_buckets s)))).
  split_and!.
  - eapply sublist_NoDup; [apply (to_live_once k s Hok)|]. apply sublist_omap, sublist_filter.
  - intros slot. rewrite list_elem_of_omap. split.
    + intros ([a e] & [Ha Hin]%list_elem_of_filter & He). cbn in He. destruct (live s e) as [r|] eqn:Hl; [|done].
      injection He as <-. exists a, r. split; [by exists e|exact Ha].
    + intros (a & r & (e & Hin & <- & Hl) & Ha). exists (a, e). cbn. rewrite Hl. split; [|done].
      apply list_elem_of_filter. by split.
  - rewrite Hr. rewrite (receivers_of_slots s). done.
  - intros slot a r (e & Hin & He & Hl). exists e. split_and!; [|done|unfold live in *; by rewrite Hs].
    rewrite Hd, elem_of_app. case_decide as Ha.
    + left. apply list_elem_of_omap. exists (a, e). split; [apply list_elem_of_filter; by split|]. unfold resched. cbn. by rewrite Hl.
    + right. apply list_elem_of_filter. split; [exact Ha|done].
Qed.

(** ** Registrations and cancels keep the table *)

(** A new deadline for a slot that had no live one, in a table changed only there. *)
Lemma live_slots_push s s' at_ms e r :
  tk_buckets s' = push_bucket at_ms e (tk_buckets s) -> live s' e = Some r ->
  (forall d, d ∈ deadlines (tk_buckets s) -> live s' d.2 = live s d.2) ->
  live_slots s' ≡ₚ sc_slot e :: live_slots s.
Proof.
  intros Hb He Hd. unfold live_slots. rewrite Hb, deadlines_push. cbn. rewrite He. cbn. apply perm_skip.
  clear He Hb. induction (deadlines (tk_buckets s)) as [|d l IH]; [done|]. cbn. rewrite (Hd d) by left.
  destruct (live s d.2); cbn; [apply perm_skip|]; apply IH; intros d' Hd'; apply Hd; by right.
Qed.

(** The slot a registration takes: vacant, known to nobody, and of the generation
    the deadline will carry. *)
Record fresh_slot (s s1 : TickState) (slot : N) (r : Registration) : Prop := mk_fresh_slot {
  fs_slot : exists g, tk_slots s1 !! N.to_nat slot = Some (mkTickSlot (Some r) g)
    /\ forall at_ms e, (at_ms, e) ∈ deadlines (tk_buckets s) -> sc_slot e = slot -> (sc_generation e < g)%N;
  fs_vacant : ~ registered s slot;
  fs_others : forall i, i <> N.to_nat slot -> tk_slots s1 !! i = tk_slots s !! i;
  fs_frame : tk_groups s1 = tk_groups s /\ tk_buckets s1 = tk_buckets s /\ tk_clock_ms s1 = tk_clock_ms s;
  fs_free : NoDup (tk_free s1) /\ forall x, x ∈ tk_free s1 -> x ∈ tk_free s /\ x <> slot
}.

Lemma take_slot_fresh k r s :
  table_ok k s -> (N.of_nat k < u32_modulus)%N ->
  let '(slot, s1) := take_slot r s in
  fresh_slot s s1 slot r
  /\ (length (tk_slots s1) <= S k)%nat /\ (forall i ts, tk_slots s1 !! i = Some ts -> (ts_generation ts <= N.of_nat k)%N).
Proof.
  intros Hok Hk. unfold take_slot. destruct (to_bound k s Hok) as [Hlen Hgen]. destruct (tk_free s) as [|slot rest] eqn:Hf.
  - rewrite N.mod_small by lia. split; [constructor; cbn|split; cbn; [rewrite length_app; cbn; lia|]].
    + exists 0%N. rewrite Nat2N.id, lookup_app_r, Nat.sub_diag by lia. split; [done|]. intros a e Hin He.
      destruct (to_entry k s Hok a e Hin) as (ts & Hts & _). apply lookup_lt_Some in Hts. rewrite He in Hts. lia.
    + intros (r' & g & Hr). apply lookup_lt_Some in Hr. lia.
    + intros i Hi. destruct (decide (i < length (tk_slots s))%nat); [by apply lookup_app_l|].
      rewrite !lookup_ge_None_2; [done|lia|rewrite length_app; cbn; lia].
    + done.
    + rewrite Hf. split; [apply NoDup_nil_2|]. by intros x Hx%not_elem_of_nil.
    + intros i ts. rewrite lookup_app_Some. intros [Hi|[_ Hi]]; [by apply (Hgen i)|].
      apply list_lookup_singleton_Some in Hi as [_ <-]. cbn. lia.
  - destruct (to_free k s Hok slot) as [g Hg]; [rewrite Hf; left|].
    pose proof (to_free_once k s Hok) as Hnd. rewrite Hf in Hnd. apply NoDup_cons in Hnd as [Hni Hnd].
    split; [constructor; cbn|split; cbn; [rewrite length_alter; lia|]].
    + exists g. rewrite list_lookup_alter_eq, Hg. split; [done|]. intros a e Hin <-.
      destruct (to_entry k s Hok a e Hin) as (ts & Hts & _ & Hlt). rewrite Hg in Hts. injection Hts as <-. by apply Hlt.
    + intros (r' & g' & Hr). rewrite Hg in Hr. done.
    + intros i Hi. by rewrite list_lookup_alter_ne.
    + done.
    + split; [done|]. intros x Hx. rewrite Hf. split; [by right|]. by intros ->.
    + intros i ts Hi. destruct (decide (i = N.to_nat slot)) as [->|Hne].
      * rewrite list_lookup_alter_eq, Hg in Hi. injection Hi as <-. cbn. apply (Hgen _ _ Hg).
      * rewrite list_lookup_alter_ne in Hi by done. by apply (Hgen i).
Qed.

Lemma register_ok k options key receiver interval s :
  table_ok k s -> (N.of_nat k < u32_modulus)%N ->
  table_ok (S k) (register_group_every options key receiver interval s).2.
Proof.
  intros Hok Hk. unfold register_group_every. cbn zeta. set (iv := N.max _ 1). clearbody iv.
  case_bool_decide as Hkey.
  { cbn. destruct Hok as [? ? ? ? ? ? ? ? [Hl Hg]]. constructor; [done..|]. split; [lia|]. intros i ts Hi. apply Hg in Hi. lia. }
  assert (tk_groups s !! key = None) as Hn by (by apply eq_None_not_Some).
  pose proof (take_slot_fresh k (mkRegistration receiver iv) s Hok Hk) as Hfs.
  destruct (take_slot _ s) as [slot s1]. destruct Hfs as (Hfs & Hlen & Hgen). cbn [snd].
  destruct Hfs as [(g & Hslot & Hold) Hvac Hoth (Eg & Eb & Ec) [Hnd Hfr]].
  rewrite Hslot. cbn [fmap option_fmap option_map default from_option ts_generation].
  set (e := mkScheduled slot g). set (s2 := s1 <| tk_groups ::= _ |> <| tk_buckets ::= _ |>).
  assert (live s2 e = Some (mkRegistration receiver iv)) as He by (apply live_Some; exact Hslot).
  assert (forall d, d ∈ deadlines (tk_buckets s) -> live s2 d.2 = live s d.2) as Hlive.
  { intros [a d] Hd. cbn. unfold live, s2. cbn. destruct (decide (sc_slot d = slot)) as [Hd'|Hd'].
    - pose proof (Hold a d Hd Hd') as Hlt. rewrite Hd', Hslot. cbn. destruct (N.eqb_spec g (sc_generation d)); [lia|].
      destruct (tk_slots s !! N.to_nat slot) as [[o g']|] eqn:Hs; [|done]. cbn. destruct o as [r'|]; [|by destruct (_ =? _)%N].
      exfalso. apply Hvac. by exists r', g'.
    - rewrite Hoth; [done|]. intros H%to_nat_inj. done. }
  assert (live_slots s2 ≡ₚ slot :: live_slots s) as Hls.
  { apply (live_slots_push s s2 (tk_clock_ms s +s iv) e (mkRegistration receiver iv)); [|done|done]. cbn. by rewrite Eb. }
  assert (forall x, registered s2 x <-> x = slot \/ registered s x) as Hreg.
  { intros x. unfold registered, s2. cbn. destruct (decide (x = slot)) as [->|Hx].
    - split; [by left|]. intros _. by exists (mkRegistration receiver iv), g.
    - rewrite Hoth by (intros H%to_nat_inj; done). naive_solver. }
  assert (forall x, tk_groups s !! x <> Some slot) as Hnog by (intros x Hx; apply Hvac; by apply (to_key k s Hok) in Hx).
  constructor.
  - intros key' x. cbn. rewrite Eg, lookup_insert. case_decide; [intros [= <-]; apply Hreg; by left|].
    intros Hx. apply Hreg. right. by apply (to_key k s Hok key').
  - intros k1 k2 x. cbn. rewrite Eg, !lookup_insert. destruct (decide (key = k1)) as [E1|E1], (decide (key = k2)) as [E2|E2].
    + congruence.
    + intros [= <-] H. by destruct (Hnog k2).
    + intros H [= <-]. by destruct (Hnog k1).
    + apply (to_inj k s Hok).
  - intros x [->|Hx]%Hreg; cbn; rewrite Eg; [exists key; by rewrite lookup_insert_eq|].
    destruct (to_owner k s Hok x Hx) as [k' Hk']. exists k'. rewrite lookup_insert_ne; [done|]. intros ->. congruence.
  - intros x Hx. cbn in Hx |- *. destruct (Hfr x Hx) as [Hin Hne]. rewrite Hoth by (intros H%to_nat_inj; done).
    by apply (to_free k s Hok).
  - exact Hnd.
  - intros a d. cbn. rewrite Eb, deadlines_push, elem_of_cons. intros [[= -> ->]|Hin].
    + exists (mkTickSlot (Some (mkRegistration receiver iv)) g). cbn. split_and!; [done|lia|done].
    + destruct (decide (sc_slot d = slot)) as [Hd|Hd].
      * rewrite Hd. exists (mkTickSlot (Some (mkRegistration receiver iv)) g). pose proof (Hold a d Hin Hd). cbn.
        split_and!; [done|lia|done].
      * rewrite Hoth by (intros H%to_nat_inj; done). by apply (to_entry k s Hok a).
  - rewrite Hls. apply NoDup_cons. split; [|apply (to_live_once k s Hok)]. intros H%(to_live k s Hok). done.
  - intros x. rewrite Hls, elem_of_cons, Hreg, (to_live k s Hok). done.
  - cbn. split; [done|]. intros i ts Hi. apply Hgen in Hi. lia.
Qed.

Lemma live_slots_drop s s' slot :
  tk_buckets s' = tk_buckets s ->
  (forall e, live s' e = if decide (sc_slot e = slot) then None else live s e) ->
  live_slots s' = filter (fun x => x <> slot) (live_slots s).
Proof.
  intros Hb Hl. unfold live_slots. rewrite Hb. induction (deadlines (tk_buckets s)) as [|d l IH]; [done|].
  cbn [omap list_omap]. rewrite Hl. case_decide as Hd; destruct (live s d.2); cbn [fmap option_fmap option_map]; rewrite ?IH; try done.
  - rewrite filter_cons_False; [done|]. intros H. by apply H.
  - rewrite filter_cons_True; [done|]. exact Hd.
Qed.

Lemma vacate_ok k key s slot s' :
  table_ok k s -> (N.of_nat (S k) < u32_modulus)%N -> vacate key s = Some (slot, s') ->
  table_ok (S k) s' /\ tk_groups s' = delete key (tk_groups s) /\ ~ registered s' slot.
Proof.
  intros Hok Hk. unfold vacate. destruct (tk_groups s !! key) as [slot'|] eqn:Hkey; [|done]. cbn [mbind option_bind]. intros [= -> Hs].
  destruct (to_key k s Hok key slot Hkey) as (r & g & Hslot). destruct (to_bound k s Hok) as [Hlen Hgen].
  pose proof (Hgen _ _ Hslot) as Hg. cbn in Hg.
  assert (tk_slots s' !! N.to_nat slot = Some (mkTickSlot None (g + 1))) as Hs'.
  { rewrite <- Hs. cbn. rewrite list_lookup_alter_eq, Hslot. cbn. by rewrite N.mod_small by lia. }
  assert (forall x, x <> slot -> tk_slots s' !! N.to_nat x = tk_slots s !! N.to_nat x) as Hoth.
  { intros x Hx. rewrite <- Hs. cbn. rewrite list_lookup_alter_ne; [done|]. intros H%to_nat_inj. by apply Hx. }
  assert (forall x, registered s' x <-> x <> slot /\ registered s x) as Hreg.
  { intros x. destruct (decide (x = slot)) as [->|Hx].
    - split; [|by intros []]. intros (r' & g' & Hr). rewrite Hs' in Hr. done.
    - unfold registered. rewrite Hoth by done. naive_solver. }
  assert (live_slots s' = filter (fun x => x <> slot) (live_slots s)) as Hls.
  { apply live_slots_drop; [by rewrite <- Hs|]. intros e. unfold live. case_decide as He; [|by rewrite Hoth].
    rewrite He, Hs'. cbn. by destruct (_ =? _)%N. }
  assert (tk_groups s' = delete key (tk_groups s) /\ tk_buckets s' = tk_buckets s /\ tk_free s' = slot :: tk_free s) as (Eg & Eb & Ef) by (by rewrite <- Hs).
  split_and!; [|done|rewrite Hreg; tauto]. constructor; rewrite ?Eg, ?Ef, ?Eb.
  - intros k1 x. rewrite lookup_delete_Some. intros [Hne Hx]. apply Hreg. split; [|by apply (to_key k s Hok k1)].
    intros ->. apply Hne. by apply (to_inj k s Hok key k1 slot).
  - intros k1 k2 x. rewrite !lookup_delete_Some. intros [_ H1] [_ H2]. by apply (to_inj k s Hok k1 k2 x).
  - intros x [Hne Hx]%Hreg. destruct (to_owner k s Hok x Hx) as [k' Hk']. exists k'. apply lookup_delete_Some.
    split; [|done]. intros ->. congruence.
  - intros x [->|Hx]%elem_of_cons; [by exists (g + 1)%N|].
    destruct (to_free k s Hok x Hx) as [g' Hx']. exists g'. rewrite Hoth; [done|]. intros ->. congruence.
  - apply NoDup_cons. split; [|apply (to_free_once k s Hok)]. intros [g' Hx]%(to_free k s Hok). congruence.
  - intros a e Hin. destruct (to_entry k s Hok a e Hin) as (ts & Hts & Hle & Hlt).
    destruct (decide (sc_slot e = slot)) as [He|He]; [|rewrite Hoth by done; by exists ts].
    rewrite He, Hs'. exists (mkTickSlot None (g + 1)). rewrite He, Hslot in Hts. injection Hts as <-. cbn in Hle |- *.
    split_and!; [done|lia|lia].
  - rewrite Hls. apply NoDup_filter, (to_live_once k s Hok).
  - intros x. rewrite Hls, list_elem_of_filter, Hreg, (to_live k s Hok). done.
  - split; [rewrite <- Hs; cbn; rewrite length_alter; lia|]. intros i ts Hi. destruct (decide (i = N.to_nat slot)) as [->|Hne].
    + rewrite Hs' in Hi. injection Hi as <-. cbn. lia.
    + rewrite <- Hs in Hi. cbn in Hi. rewrite list_lookup_alter_ne in Hi by done. apply Hgen in Hi. lia.
Qed.

Lemma new_ok : table_ok 0 tick_state_new.
Proof.
  assert (forall slot, ~ registered tick_state_new slot) as Hr by (intros slot (r & g & H); done).
  constructor; cbn.
  - done.
  - done.
  - intros slot H. by destruct (Hr slot).
  - by intros slot H%not_elem_of_nil.
  - apply NoDup_nil_2.
  - intros a e (es & H & _)%elem_of_deadlines. done.
  - apply NoDup_nil_2.
  - intros slot. split; [by intros H%not_elem_of_nil|by intros H%Hr].
  - done.
Qed.

Lemma ticker_fires_due_groups_once_witness :
  let s := (register_group_every DriverOptions_default (mkDriverGroupKey 1 1) 7 10 tick_state_new).2 in
  table_ok 1 (advance 25 s).1.1 /\ (advance 25 s).1.2 = [7%N].
Proof.
  split; [|vm_compute; reflexivity]. cbn zeta.
  set (s := (register_group_every DriverOptions_default (mkDriverGroupKey 1 1) 7 10 tick_state_new).2).
  assert (table_ok 1 s) as Hok by (apply register_ok; [apply new_ok|vm_compute; reflexivity]).
  pose proof (ticker_fires_due_groups_once 1 25 s Hok) as H. destruct (advance 25 s) as [[s' due] counts]. apply H.
Defined.

(** ** The driver's threads *)

(** One cancel that waits: who called it, and the pass it found under way. *)
Record CancelWait := mkCancelWait { cw_caller : N; cw_pass : N }.

Record DriverInner := mkDriverInner {
  di_options : DriverOptions;
  di_state : TickState;
  di_ticks_fired : N;
  di_ticks_dropped : N;
  di_ticks_skipped : N;
  di_registration_wakes : N;
  di_cancel_quiesce_waits : N;
  di_ticks_suppressed : N;
  di_ticks_enabled : bool;
  di_fire_pass : N;
  di_waiting : list CancelWait;   (* [cancel_waiters] counts these *)
  di_due : list N;                (* gathered by the ticker, not yet called *)
  di_called : list N              (* the calls of [fire_tick], in order *)
}.
#[export] Instance eta_DriverInner : Settable DriverInner :=
  fun d => mkDriverInner (di_options d) (di_state d) (di_ticks_fired d) (di_ticks_dropped d) (di_ticks_skipped d)
    (di_registration_wakes d) (di_cancel_quiesce_waits d) (di_ticks_suppressed d) (di_ticks_enabled d)
    (di_fire_pass d) (di_waiting d) (di_due d) (di_called d).

Definition driver_start (options : DriverOptions) : Result DriverInner :=
  match DriverOptions_validate options with
  | Err e => Err e
  | Ok _ => Ok (mkDriverInner options tick_state_new 0 0 0 0 0 0 true 0 [] [] [])
  end.

Definition bump_pass (d : DriverInner) : DriverInner :=
  d <| di_fire_pass ::= (fun pass => wrapping_add pass 1) |>.

(** The locked part of [advance_to]. *)
Definition gather (now_ms : N) (d : DriverInner) : DriverInner :=
  let '(state, due, counts) := advance now_ms (di_state d) in
  let d := d <| di_state := state |>
             <| di_ticks_dropped ::= (fun n => n + tc_dropped counts)%N |>
             <| di_ticks_skipped ::= (fun n => n + tc_skipped counts)%N |> in
  let '(d, due) :=
    if di_ticks_enabled d then (d, due)
    else (d <| di_ticks_suppressed ::= (fun n => n + N.of_nat (length due))%N |>, []) in
  let d := d <| di_due := due |> in
  if bool_decide (due = []) then d else bump_pass d.

Definition driver_register (key : DriverGroupKey) (receiver interval_ms : N) (d : DriverInner) : Result unit * DriverInner :=
  let '(result, state) := register_group_every (di_options d) key receiver interval_ms (di_state d) in
  let d := d <| di_state := state |> in
  match result with
  | Err e => (Err e, d)
  | Ok wake_ticker => (Ok tt, if wake_ticker then d <| di_registration_wakes ::= N.succ |> else d)
  end.

(** [cancel_group] up to its return or its wait: [None] while it waits. *)
Definition cancel_group (caller : N) (on_the_ticker : bool) (key : DriverGroupKey) (d : DriverInner)
    : option bool * DriverInner :=
  match vacate key (di_state d) with
  | None => (Some false, d)
  | Some (_, state) =>
      let d := d <| di_state := state |> in
      let pass := di_fire_pass d in
      if ((pass `mod` 2 =? 1)%N && negb on_the_ticker)%bool
      then (None, d <| di_cancel_quiesce_waits ::= N.succ |> <| di_waiting ::= cons (mkCancelWait caller pass) |>)
      else (Some true, d)
  end.

Record DriverStats := mkDriverStats {
  dst_registered_groups : nat; dst_ticks_fired : N; dst_ticks_dropped : N; dst_ticks_skipped : N;
  dst_ticks_suppressed : N; dst_registration_wakes : N; dst_cancel_quiesce_waits : N; dst_clock_ms : N
}.
Definition driver_stats (d : DriverInner) : DriverStats :=
  mkDriverStats (size (tk_groups (di_state d))) (di_ticks_fired d) (di_ticks_dropped d) (di_ticks_skipped d)
    (di_ticks_suppressed d) (di_registration_wakes d) (di_cancel_quiesce_waits d) (tk_clock_ms (di_state d)).

(** One critical section, or one call of a receiver. [None]: it cannot be taken now. *)
Inductive DriverOp :=
  | OpRegister (key : DriverGroupKey) (receiver interval_ms : N)
  | OpCancel (caller : N) (on_the_ticker : bool) (key : DriverGroupKey)
  | OpCancelReturns (caller : N)
  | OpGather (now_ms : N)
  | OpFire
  | OpEndPass
  | OpEnableTicks (enabled : bool).

(** The ticker is between two passes: nothing gathered is left to call. *)
Definition idle (d : DriverInner) : bool := (di_fire_pass d `mod` 2 =? 0)%N.

(** The loop of [cancel_group]: the pass it waits for is over. *)
Definition pass_over (caller : N) (d : DriverInner) : bool :=
  existsb (fun w => (cw_caller w =? caller)%N && negb (cw_pass w =? di_fire_pass d)%N) (di_waiting d).

Definition tick_step (op : DriverOp) (d : DriverInner) : option DriverInner :=
  match op with
  | OpRegister key receiver interval_ms => Some (driver_register key receiver interval_ms d).2
  | OpCancel caller on_the_ticker key => Some (cancel_group caller on_the_ticker key d).2
  | OpCancelReturns caller =>
      if pass_over caller d
      then Some (d <| di_waiting ::= filter (fun w => ~ (cw_caller w = caller /\ cw_pass w <> di_fire_pass d)) |>)
      else None
  | OpGather now_ms => if idle d then Some (gather now_ms d) else None
  | OpFire =>
      match di_due d with
      | [] => None
      | receiver :: due =>
          Some (d <| di_due := due |> <| di_called ::= (fun called => called ++ [receiver]) |> <| di_ticks_fired ::= N.succ |>)
      end
  | OpEndPass => if (negb (idle d) && bool_decide (di_due d = []))%bool then Some (bump_pass d) else None
  | OpEnableTicks enabled => Some (d <| di_ticks_enabled := enabled |>)
  end.

Definition run_ticks (ops : list DriverOp) (d : DriverInner) : option DriverInner :=
  foldl (fun acc op => d ← acc; tick_step op d) (Some d) ops.

Example two_groups_tick :
  (fun d => (di_called d, driver_stats d)) <$>
    run_ticks [OpRegister (mkDriverGroupKey 1 1) 7 10; OpRegister (mkDriverGroupKey 2 1) 8 20; OpGather 20; OpFire; OpFire;
               OpEndPass; OpCancel 1 false (mkDriverGroupKey 1 1); OpGather 40; OpFire; OpEndPass]
      (mkDriverInner DriverOptions_default tick_state_new 0 0 0 0 0 0 true 0 [] [] [])
  = Some ([7; 8; 8]%N, mkDriverStats 1 3 1 1 0 1 0 40).
Proof. vm_compute. reflexivity. Qed.

(** A receiver that cancels another group from its own [fire_tick] is not made to wait,
    and the other group, already gathered, is ticked after its cancel has returned. *)
Theorem cancel_from_a_tick_returns_too_early :
  let ops := [OpRegister (mkDriverGroupKey 1 1) 7 10; OpRegister (mkDriverGroupKey 2 1) 8 10; OpGather 10; OpFire] in
  let d0 := mkDriverInner DriverOptions_default tick_state_new 0 0 0 0 0 0 true 0 [] [] [] in
  exists d, run_ticks ops d0 = Some d /\ di_called d = [7%N]
    /\ (cancel_group 1 true (mkDriverGroupKey 2 1) d).1 = Some true
    /\ di_called <$> run_ticks [OpFire] (cancel_group 1 true (mkDriverGroupKey 2 1) d).2 = Some [7; 8]%N.
Proof.
  intros ops d0. destruct (run_ticks ops d0) as [d|] eqn:Hd; [|vm_compute in Hd; done].
  exists d. vm_compute in Hd. injection Hd as <-. split_and!; vm_compute; reflexivity.
Qed.

(** *** What a run keeps *)

Lemma run_ticks_cons op ops d d' :
  run_ticks (op :: ops) d = Some d' <-> exists d1, tick_step op d = Some d1 /\ run_ticks ops d1 = Some d'.
Proof.
  unfold run_ticks. cbn. destruct (tick_step op d) as [d1|]; cbn.
  - split; [by exists d1|]. intros (? & [= <-] & ?). done.
  - split; [|by intros (? & ? & _)]. intros H. exfalso. induction ops as [|o ops IH]; [done|]. by apply IH.
Qed.

Lemma table_ok_mono k s : table_ok k s -> table_ok (S k) s.
Proof. intros [? ? ? ? ? ? ? ? [Hl Hg]]. constructor; [done..|]. split; [lia|]. intros i ts Hi. apply Hg in Hi. lia. Qed.

Lemma gather_state now d : di_state (gather now d) = (advance now (di_state d)).1.1.
Proof. unfold gather. destruct (advance _ _) as [[s' due] counts]. destruct (di_ticks_enabled _); case_bool_decide; done. Qed.

(** What a step does to the tables. *)
Lemma tick_step_state op d d' : tick_step op d = Some d' ->
  di_state d' = match op with
    | OpRegister key receiver interval => (register_group_every (di_options d) key receiver interval (di_state d)).2
    | OpCancel _ _ key => match vacate key (di_state d) with None => di_state d | Some (_, s) => s end
    | OpGather now => (advance now (di_state d)).1.1
    | _ => di_state d
    end.
Proof.
  destruct op; cbn; intros H.
  - injection H as <-. unfold driver_register. destruct (register_group_every _ _ _ _ _) as [[wake|e] s]; [by destruct wake|done].
  - injection H as <-. unfold cancel_group. destruct (vacate _ _) as [[slot s]|]; [|done]. by destruct (_ && _).
  - destruct (pass_over _ _); [|done]. by injection H as <-.
  - destruct (idle d); [|done]. injection H as <-. apply gather_state.
  - destruct (di_due d); [done|]. by injection H as <-.
  - destruct (_ && _); [|done]. by injection H as <-.
  - by injection H as <-.
Qed.

Lemma tick_step_ok k op d d' :
  table_ok k (di_state d) -> (N.of_nat (S k) < u32_modulus)%N -> tick_step op d = Some d' -> table_ok (S k) (di_state d').
Proof.
  intros Hok Hk Hs. rewrite (tick_step_state op d d' Hs). destruct op; try by apply table_ok_mono.
  - apply register_ok; [done|lia].
  - destruct (vacate key (di_state d)) as [[slot s]|] eqn:Hv; [|by apply table_ok_mono].
    by apply (vacate_ok k key (di_state d) slot s).
  - by apply table_ok_mono, advance_ok.
Qed.

Lemma run_ticks_ok k ops d d' :
  table_ok k (di_state d) -> (N.of_nat (k + length ops) < u32_modulus)%N -> run_ticks ops d = Some d' ->
  table_ok (k + length ops) (di_state d').
Proof.
  revert k d. induction ops as [|op ops IH]; intros k d Hok Hk H; cbn in Hk |- *.
  - injection H as <-. by rewrite Nat.add_0_r.
  - apply run_ticks_cons in H as (d1 & H1 & H2). replace (k + S (length ops))%nat with (S k + length ops)%nat by lia.
    apply (IH _ d1); [|lia|done]. apply (tick_step_ok k op d); [done|lia|done].
Qed.

(** Somebody registered has this receiver. *)
Definition receives (s : TickState) (r : N) : Prop :=
  exists slot reg g, tk_slots s !! slot = Some (mkTickSlot (Some reg) g) /\ reg_receiver reg = r.

Lemma due_receives now s r : r ∈ (advance now s).1.2 -> receives s r.
Proof.
  pose proof (advance_table now s) as H. destruct (advance now s) as [[s' due] counts]. cbn. destruct H as (_ & _ & _ & _ & _ & Hr).
  rewrite Hr. intros ([a e] & _ & He)%list_elem_of_omap. unfold receiver_of in He. cbn in He.
  destruct (live s e) as [reg|] eqn:Hl; [|done]. apply live_Some in Hl. injection He as <-. by exists (N.to_nat (sc_slot e)), reg, (sc_generation e).
Qed.

Lemma take_slot_receives reg s r : reg_receiver reg <> r -> receives (take_slot reg s).2 r -> receives s r.
Proof.
  intros Hne. unfold take_slot. destruct (tk_free s) as [|slot rest]; cbn; intros (i & reg' & g & Hi & Hr); cbn in Hi.
  - apply lookup_app_Some in Hi as [Hi|[_ Hi]]; [by exists i, reg', g|].
    apply list_lookup_singleton_Some in Hi as [_ [= <- _]]. done.
  - destruct (decide (i = N.to_nat slot)) as [->|Hi'].
    + rewrite list_lookup_alter_eq in Hi. destruct (tk_slots s !! _); [|done]. injection Hi as -> _. done.
    + rewrite list_lookup_alter_ne in Hi by done. by exists i, reg', g.
Qed.

Lemma register_receives options key receiver interval s r :
  receiver <> r -> receives (register_group_every options key receiver interval s).2 r -> receives s r.
Proof.
  intros Hne. unfold register_group_every. cbn zeta. case_bool_decide; [done|].
  set (reg := mkRegistration receiver _). pose proof (take_slot_receives reg s r Hne) as H'.
  destruct (take_slot reg s) as [slot s1]. exact H'.
Qed.

Lemma vacate_receives key s slot s' r : vacate key s = Some (slot, s') -> receives s' r ->
  exists i reg g, tk_slots s !! i = Some (mkTickSlot (Some reg) g) /\ reg_receiver reg = r /\ i <> N.to_nat slot.
Proof.
  unfold vacate. destruct (tk_groups s !! key) as [x|]; [|done]. cbn [mbind option_bind]. intros [= -> <-] (i & reg & g & Hi & Hr).
  cbn in Hi. destruct (decide (i = N.to_nat slot)) as [->|Hne].
  - rewrite list_lookup_alter_eq in Hi. by destruct (tk_slots s !! _).
  - rewrite list_lookup_alter_ne in Hi by done. by exists i, reg, g.
Qed.

(** Between two passes the ticker holds no receiver. *)
Definition quiet (d : DriverInner) : Prop := idle d = true -> di_due d = [].

Lemma bump_idle d : idle (bump_pass d) = negb (idle d).
Proof.
  unfold idle, bump_pass, wrapping_add. cbn. set (p := di_fire_pass d).
  assert (((p + 1) `mod` u64_modulus) `mod` 2 = (p + 1) `mod` 2)%N as ->.
  { rewrite (N.Div0.div_mod (p + 1) u64_modulus) at 2. set (q := ((p + 1) / u64_modulus)%N). set (m := ((p + 1) `mod` u64_modulus)%N).
    replace (u64_modulus * q + m)%N with (m + (9223372036854775808 * q) * 2)%N; [by rewrite N.Div0.mod_add|].
    unfold u64_modulus. lia. }
  rewrite N.Div0.add_mod. assert (p `mod` 2 < 2)%N as Hp by (by apply N.mod_lt).
  revert Hp. generalize (p `mod` 2)%N as m. intros m Hm. assert (m = 0 \/ m = 1)%N as [-> | ->] by lia; reflexivity.
Qed.

Lemma tick_step_quiet op d d' : quiet d -> tick_step op d = Some d' -> quiet d'.
Proof.
  unfold quiet. intros Hq. destruct op; cbn; intros H.
  - injection H as <-. unfold driver_register. destruct (register_group_every _ _ _ _ _) as [[[]|e] s]; exact Hq.
  - injection H as <-. unfold cancel_group. destruct (vacate _ _) as [[slot s]|]; [|exact Hq]. destruct (_ && _); exact Hq.
  - destruct (pass_over _ _); [|done]. injection H as <-. exact Hq.
  - destruct (idle d) eqn:Hi; [|done]. injection H as <-. unfold gather. destruct (advance _ _) as [[s due] counts].
    destruct (di_ticks_enabled _); case_bool_decide as Hd; try done.
    rewrite bump_idle. unfold idle in *. cbn. by rewrite Hi.
  - destruct (di_due d) as [|x due] eqn:Hd; [done|]. injection H as <-. intros H. by discriminate (Hq H).
  - destruct (idle d) eqn:Hi; [done|]. cbn in H. case_bool_decide as Hd; [|done]. injection H as <-. intros _. exact Hd.
  - injection H as <-. exact Hq.
Qed.

(** A receiver that nobody registered has: the ticker does not hold it, or holds it
    in the pass the cancel waits for. *)
Definition cancelled (caller pass r : N) (d : DriverInner) : Prop :=
  ~ receives (di_state d) r
  /\ (r ∉ di_due d \/ (mkCancelWait caller pass ∈ di_waiting d /\ di_fire_pass d = pass)).

Lemma cancelled_kept op caller pass r d d' :
  (forall key receiver interval, op = OpRegister key receiver interval -> receiver <> r) ->
  cancelled caller pass r d -> tick_step op d = Some d' -> cancelled caller pass r d'.
Proof.
  intros Hop [Hr Hd] Hs. assert (~ receives (di_state d') r) as Hr'.
  { rewrite (tick_step_state op d d' Hs). destruct op; try done.
    - intros H. apply Hr, (register_receives (di_options d) key receiver interval_ms); [by apply (Hop _ _ _ eq_refl)|done].
    - destruct (vacate key _) as [[slot s]|] eqn:Hv; [|done]. intros H.
      apply (vacate_receives _ _ _ _ _ Hv) in H as (i & reg & g & Hi & Hreg & _). apply Hr. by exists i, reg, g.
    - pose proof (advance_table now_ms (di_state d)) as H. destruct (advance _ _) as [[s due] counts]. cbn. destruct H as (_ & _ & Hslots & _).
      unfold receives. by rewrite Hslots. }
  split; [done|]. destruct op; cbn in Hs.
  - injection Hs as <-. unfold driver_register. destruct (register_group_every _ _ _ _ _) as [[[]|e] s]; exact Hd.
  - injection Hs as <-. unfold cancel_group. destruct (vacate _ _) as [[slot s]|]; [|exact Hd]. destruct (_ && _); [|exact Hd].
    destruct Hd as [Hd|[Hw Hp]]; [by left|right]. split; [by right|done].
  - destruct (pass_over _ _); [|done]. injection Hs as <-. destruct Hd as [Hd|[Hw Hp]]; [by left|right]. cbn.
    split; [|done]. apply list_elem_of_filter. split; [|done]. cbn. naive_solver.
  - destruct (idle d); [|done]. injection Hs as <-. left. intros Hin. apply Hr, (due_receives now_ms).
    unfold gather in Hin. destruct (advance now_ms (di_state d)) as [[s due] counts]. cbn.
    destruct (di_ticks_enabled _); [|by case_bool_decide; apply not_elem_of_nil in Hin].
    case_bool_decide; exact Hin.
  - destruct (di_due d) as [|x due] eqn:Hdue; [done|]. injection Hs as <-. cbn. destruct Hd as [Hd|Hd]; [left|by right].
    intros H. apply Hd. by right.
  - case_bool_decide as Hdue; [|by rewrite andb_false_r in Hs]. destruct (negb _); [|done]. injection Hs as <-. left. cbn. rewrite Hdue. apply not_elem_of_nil.
  - injection Hs as <-. exact Hd.
Qed.

(** No operation of the list registers the receiver. *)
Definition never_registers (r : N) (ops : list DriverOp) : Prop :=
  forall key receiver interval, OpRegister key receiver interval ∈ ops -> receiver <> r.

Lemma cancelled_run ops caller pass r d d' :
  never_registers r ops -> cancelled caller pass r d -> run_ticks ops d = Some d' -> cancelled caller pass r d'.
Proof.
  revert d. induction ops as [|op ops IH]; intros d Hops Hc H; [by injection H as <-|].
  apply run_ticks_cons in H as (d1 & H1 & H2). apply (IH d1); [|by apply (cancelled_kept op caller pass r d); [intros k0 r0 i0 ->; apply (Hops k0 r0 i0); left|..]|done].
  intros k0 r0 i0 Hin. apply (Hops k0 r0 i0). by right.
Qed.

Lemma tick_step_called op d d' : tick_step op d = Some d' ->
  di_called d' = di_called d \/ exists x, x ∈ di_due d /\ di_called d' = di_called d ++ [x].
Proof.
  destruct op; cbn; intros H.
  - injection H as <-. unfold driver_register. left. by destruct (register_group_every _ _ _ _ _) as [[[]|e] s].
  - injection H as <-. unfold cancel_group. left. destruct (vacate _ _) as [[slot s]|]; [|done]. by destruct (_ && _).
  - destruct (pass_over _ _); [|done]. injection H as <-. by left.
  - destruct (idle d); [|done]. injection H as <-. left. unfold gather. destruct (advance _ _) as [[s due] counts].
    destruct (di_ticks_enabled _); by case_bool_decide.
  - destruct (di_due d) as [|x due] eqn:Hd; [done|]. injection H as <-. right. exists x. split; [left|done].
  - destruct (_ && _); [|done]. injection H as <-. by left.
  - injection H as <-. by left.
Qed.

(** A cancel whose pass is not the one under way has nothing in flight. *)
Lemma cancelled_elsewhere caller r d : cancelled caller (di_fire_pass d + 1) r d -> r ∉ di_due d.
Proof. intros [_ [H|[_ H]]]; [done|lia]. Qed.

Lemma gone_run ops r d d' :
  never_registers r ops -> ~ receives (di_state d) r -> r ∉ di_due d -> run_ticks ops d = Some d' ->
  exists later, di_called d' = di_called d ++ later /\ r ∉ later.
Proof.
  revert d. induction ops as [|op ops IH]; intros d Hops Hr Hd H.
  { injection H as <-. exists []. rewrite app_nil_r. split; [done|apply not_elem_of_nil]. }
  apply run_ticks_cons in H as (d1 & H1 & H2).
  assert (cancelled 0 (di_fire_pass d1 + 1) r d1) as Hc.
  { apply (cancelled_kept op 0 _ r d); [intros k0 r0 i0 ->; apply (Hops k0 r0 i0); left|by split; [|left]|done]. }
  destruct (IH d1) as (later & Hl & Hn); [intros k0 r0 i0 Hin; apply (Hops k0 r0 i0); by right|apply Hc|by apply (cancelled_elsewhere 0)|done|].
  apply tick_step_called in H1 as [E|(x & Hx & E)]; rewrite E in Hl; [by exists later|].
  exists (x :: later). rewrite Hl, <- app_assoc. split; [done|]. intros [->|H]%elem_of_cons; done.
Qed.

Lemma run_ticks_quiet ops d d' : quiet d -> run_ticks ops d = Some d' -> quiet d'.
Proof.
  revert d. induction ops as [|op ops IH]; intros d Hq H; [by injection H as <-|].
  apply run_ticks_cons in H as (d1 & H1 & H2). apply (IH d1); [by apply (tick_step_quiet op d)|done].
Qed.

Lemma cancel_group_cancels caller key slot reg g d :
  quiet d -> tk_groups (di_state d) !! key = Some slot ->
  tk_slots (di_state d) !! N.to_nat slot = Some (mkTickSlot (Some reg) g) ->
  (forall i reg' g', tk_slots (di_state d) !! i = Some (mkTickSlot (Some reg') g') -> reg_receiver reg' = reg_receiver reg -> i = N.to_nat slot) ->
  cancelled caller (di_fire_pass d) (reg_receiver reg) (cancel_group caller false key d).2.
Proof.
  intros Hq Hkey Hslot Hu. unfold cancel_group. destruct (vacate key (di_state d)) as [[x s']|] eqn:Hv.
  2: { unfold vacate in Hv. by rewrite Hkey in Hv. }
  assert (x = slot) as -> by (unfold vacate in Hv; rewrite Hkey in Hv; by injection Hv).
  assert (~ receives s' (reg_receiver reg)) as Hr.
  { intros H. apply (vacate_receives _ _ _ _ _ Hv) in H as (i & reg' & g' & Hi & Hreg & Hne). by apply Hne, (Hu i reg' g'). }
  cbn zeta. destruct (N.eqb_spec (di_fire_pass d `mod` 2) 1) as [Hp|Hp]; cbn [di_fire_pass negb andb]; cbn.
  - rewrite Hp. cbn. split; [exact Hr|right]. split; [left|done].
  - assert (di_due d = []) as Hdue.
    { apply Hq. unfold idle. apply N.eqb_eq. assert (di_fire_pass d `mod` 2 < 2)%N as Hm by (by apply N.mod_lt).
      revert Hp Hm. generalize (di_fire_pass d `mod` 2)%N. lia. }
    apply N.eqb_neq in Hp. rewrite Hp. cbn. split; [exact Hr|left]. cbn. rewrite Hdue. apply not_elem_of_nil.
Qed.

(** The receiver the driver calls for a group. *)
Definition receiver_for (s : TickState) (key : DriverGroupKey) : option N :=
  slot ← tk_groups s !! key; ts ← tk_slots s !! N.to_nat slot; reg_receiver <$> ts_registration ts.

Lemma receiver_for_slot k s key r : table_ok k s -> receiver_for s key = Some r ->
  exists slot reg g, tk_groups s !! key = Some slot /\ tk_slots s !! N.to_nat slot = Some (mkTickSlot (Some reg) g) /\ reg_receiver reg = r.
Proof.
  intros Hok. unfold receiver_for. destruct (tk_groups s !! key) as [slot|] eqn:Hk; [|done]. cbn.
  destruct (to_key k s Hok key slot Hk) as (reg & g & Hs). rewrite Hs. cbn. intros [= <-]. by exists slot, reg, g.
Qed.

(** C23: Once a cancel has returned, its group is never ticked again. In any
    interleaving of registrations, cancels and the ticker's passes (with fewer than
    2^32 steps before the cancel), let a thread other than the ticker's cancel a group
    whose receiver no other group has; it returns at once, or is left waiting with the
    number of the pass that may hold the receiver. From any later point at which the
    cancel is not waiting, and as long as nobody registers that receiver again, no
    step calls it, a pass that was already gathered when the cancel came included. *)
Theorem cancelled_group_is_never_ticked_again options d0 ops0 d caller key r ops1 d2 ops2 d3 :
  driver_start options = Ok d0 -> run_ticks ops0 d0 = Some d -> (N.of_nat (length ops0) < u32_modulus)%N ->
  receiver_for (di_state d) key = Some r ->
  (forall key', receiver_for (di_state d) key' = Some r -> key' = key) ->
  run_ticks (OpCancel caller false key :: ops1) d = Some d2 -> never_registers r (ops1 ++ ops2) ->
  mkCancelWait caller (di_fire_pass d) ∉ di_waiting d2 ->
  run_ticks ops2 d2 = Some d3 ->
  exists later, di_called d3 = di_called d2 ++ later /\ r ∉ later.
Proof.
  intros Hstart H0 Hlen Hr Hu H1 Hops Hret H2. unfold driver_start in Hstart.
  destruct (DriverOptions_validate options); [|done]. injection Hstart as <-.
  assert (quiet d) as Hq by (eapply run_ticks_quiet; [|exact H0]; done).
  assert (table_ok (0 + length ops0) (di_state d)) as Hok by (eapply run_ticks_ok; [|exact Hlen|exact H0]; exact new_ok).
  destruct (receiver_for_slot _ _ _ _ Hok Hr) as (slot & reg & g & Hk & Hs & <-).
  apply run_ticks_cons in H1 as (d1 & Hc & H1). cbn in Hc. injection Hc as <-.
  assert (cancelled caller (di_fire_pass d) (reg_receiver reg) d2) as [Hnr Hd].
  { apply (cancelled_run ops1 caller _ _ (cancel_group caller false key d).2); [|apply (cancel_group_cancels caller key slot reg g)|]; try done.
    - intros k0 r0 i0 Hin. apply (Hops k0 r0 i0). apply elem_of_app. by left.
    - intros i reg' g' Hi Hreg. destruct (to_owner _ _ Hok (N.of_nat i)) as [key' Hk']; [exists reg', g'; by rewrite Nat2N.id|].
      assert (key' = key) as ->.
      { apply Hu. unfold receiver_for. rewrite Hk'. cbn. rewrite Nat2N.id, Hi. cbn. by rewrite Hreg. }
      rewrite Hk in Hk'. injection Hk' as ->. by rewrite Nat2N.id. }
  apply (gone_run ops2 _ d2 d3); [|done| |done].
  - intros k0 r0 i0 Hin. apply (Hops k0 r0 i0). apply elem_of_app. by right.
  - destruct Hd as [Hd|[Hd _]]; [done|by destruct Hret].
Qed.

Lemma cancelled_group_is_never_ticked_again_witness :
  let d0 := mkDriverInner DriverOptions_default tick_state_new 0 0 0 0 0 0 true 0 [] [] [] in
  let ops0 := [OpRegister (mkDriverGroupKey 1 1) 7 10; OpRegister (mkDriverGroupKey 2 1) 8 20; OpGather 20; OpFire] in
  let ops1 := [OpFire; OpEndPass; OpCancelReturns 5] in
  exists d d2 d3 later, run_ticks ops0 d0 = Some d /\ di_due d = [8%N]
    /\ run_ticks (OpCancel 5 false (mkDriverGroupKey 2 1) :: ops1) d = Some d2 /\ di_called d2 = [7; 8]%N
    /\ run_ticks [OpGather 100; OpFire; OpEndPass] d2 = Some d3 /\ di_called d3 = di_called d2 ++ later /\ 8%N ∉ later.
Proof.
  intros d0 ops0 ops1.
  destruct (run_ticks ops0 d0) as [d|] eqn:H0; [|vm_compute in H0; discriminate].
  destruct (run_ticks (OpCancel 5 false (mkDriverGroupKey 2 1) :: ops1) d) as [d2|] eqn:H1;
    [|vm_compute in H0; injection H0 as <-; vm_compute in H1; discriminate].
  destruct (run_ticks [OpGather 100; OpFire; OpEndPass] d2) as [d3|] eqn:H2;
    [|vm_compute in H0; injection H0 as <-; vm_compute in H1; injection H1 as <-; vm_compute in H2; discriminate].
  pose proof (cancelled_group_is_never_ticked_again DriverOptions_default d0 ops0 d 5 (mkDriverGroupKey 2 1) 8 ops1 d2
    [OpGather 100; OpFire; OpEndPass] d3 eq_refl H0 eq_refl) as H.
  pose proof H0 as Ed. vm_compute in Ed. injection Ed as Ed. symmetry in Ed. destruct H as (later & Hl & Hn); try done.
  - rewrite Ed. vm_compute. reflexivity.
  - intros key' Hk.
    assert (exists slot, tk_groups (di_state d) !! key' = Some slot) as [slot Hs].
    { unfold receiver_for in Hk. destruct (tk_groups _ !! key') as [slot|]; [by exists slot|done]. }
    assert (map_Forall (fun key' (_ : N) => receiver_for (di_state d) key' = Some 8%N -> key' = mkDriverGroupKey 2 1) (tk_groups (di_state d))) as Hall
      by (rewrite Ed; eapply bool_decide_unpack; vm_compute; exact I).
    by apply (Hall key' slot).
  - intros k0 r0 i0 Hin. cbn in Hin. repeat (apply elem_of_cons in Hin as [Hin|Hin]; [done|]). by apply not_elem_of_nil in Hin.
  - rewrite Ed in H1. vm_compute in H1. injection H1 as <-. rewrite Ed. apply not_elem_of_nil.
  - exists d, d2, d3, later. split_and!; [done|by rewrite Ed|done| |done|done|done].
    rewrite Ed in H1. vm_compute in H1. by injection H1 as <-.
Defined.

Lemma run_ticks_app ops1 ops2 d d1 d2 : run_ticks ops1 d = Some d1 -> run_ticks ops2 d1 = Some d2 -> run_ticks (ops1 ++ ops2) d = Some d2.
Proof. unfold run_ticks. rewrite foldl_app. by intros ->. Qed.

Lemma run_fires d : exists d', run_ticks (replicate (length (di_due d)) OpFire) d = Some d'
  /\ di_due d' = [] /\ di_fire_pass d' = di_fire_pass d /\ di_waiting d' = di_waiting d.
Proof.
  remember (length (di_due d)) as n eqn:Hn. revert d Hn. induction n as [|n IH]; intros d Hn.
  { exists d. split_and!; try done. by apply nil_length_inv. }
  destruct (di_due d) as [|x due] eqn:Hd; [done|]. cbn in Hn.
  set (d1 := d <| di_due := due |> <| di_called ::= (fun called => called ++ [x]) |> <| di_ticks_fired ::= N.succ |>).
  destruct (IH d1) as (d' & H1 & H2 & H3 & H4); [cbn; lia|]. exists d'. split_and!; [|done|done|done].
  cbn [replicate]. apply run_ticks_cons. exists d1. split; [|done]. cbn. by rewrite Hd.
Qed.

(** A cancel that waits returns once the ticker has called the receivers it holds. *)
Theorem waiting_cancel_returns caller d :
  mkCancelWait caller (di_fire_pass d) ∈ di_waiting d -> idle d = false -> (di_fire_pass d < u64_modulus)%N ->
  exists d', run_ticks (replicate (length (di_due d)) OpFire ++ [OpEndPass; OpCancelReturns caller]) d = Some d'
    /\ mkCancelWait caller (di_fire_pass d) ∉ di_waiting d'.
Proof.
  intros Hw Hi Hb. destruct (run_fires d) as (d1 & H1 & Hdue & Hp & Hwait).
  set (d2 := bump_pass d1). assert (cw_pass (mkCancelWait caller (di_fire_pass d)) <> di_fire_pass d2) as Hne.
  { cbn. rewrite Hp. unfold wrapping_add. intros E. assert (di_fire_pass d = u64_modulus - 1 \/ di_fire_pass d + 1 < u64_modulus)%N as [H|H] by lia.
    - rewrite H in E. vm_compute in E. done.
    - rewrite N.mod_small in E by done. lia. }
  assert (pass_over caller d2 = true) as Hover.
  { apply existsb_exists. exists (mkCancelWait caller (di_fire_pass d)). split; [apply list_elem_of_In; cbn; by rewrite Hwait|].
    cbn [cw_caller]. apply N.eqb_neq in Hne. by rewrite N.eqb_refl, Hne. }
  eexists. split; [eapply run_ticks_app; [exact H1|]|].
  - apply run_ticks_cons. exists d2. split; [cbn; unfold idle in *; rewrite Hp, Hi, bool_decide_true by done; done|].
    apply run_ticks_cons. eexists. split; [cbn [tick_step]; rewrite Hover; reflexivity|reflexivity].
  - cbn. intros [H _]%list_elem_of_filter. apply H. by split.
Qed.
