(* ===== verification/Pool.v ===== *)
(** * The driver's worker pool

    [DriverWorkerPool] ([src/driver.rs]) serves the mail of many groups with a fixed
    number of threads. A group is pinned to a worker by the hash of its key and has a
    channel of its own ([Selector.v]) with an id that is never used again; a worker
    selects channels, drains one, takes the group's handler out of the table and calls
    it with no lock held. While it holds the table it marks the channel as in flight,
    which is what a cancel waits for.

    [pool_step] takes one critical section, or one call of a handler, of one thread:
    senders (look the group up, queue, fire), cancels (remove the group, remove the
    handler, wait), and workers. A worker alone drains its channels, so the two
    sections of [fetch_into] are one step. The hasher belongs to the Rust library and
    the size of a mail to the host: both are parameters; condition variables, poisoned
    mutexes, panics of a handler and the reuse of buffers are not modelled.

    The theorems: once a cancel has returned, its handler is never called again; a cut
    by bytes keeps the mail and its order within the budget. *)

From stdpp Require Import base strings pretty numbers gmap fin_maps sets list.
From S2P Require Import Prelude Types Mail Selector Driver.

Inductive Envelope (M : Type) := EMail (mail : M) | EStop.
Arguments EMail {M} _.
Arguments EStop {M}.

Section pool.
Context {M : Type} (hash : DriverGroupKey -> N) (mail_size : option (M -> N)) (options : DriverOptions).

Record PoolGroup := mkPoolGroup { pg_channel_id : N; pg_worker : nat }.

(** Where a worker is. *)
Inductive WorkerState :=
  | WSelecting
  | WChannels (channels : list N)
  | WDrained (channel : N) (mails : list M) (channels : list N)
  | WHandling (channel handler : N) (batches : list (list M)) (channels : list N)
  | WStopped.

Record WorkerSlot := mkWorkerSlot { ws_selector : ChannelSelector (Envelope M); ws_in_flight : N; ws_state : WorkerState }.
#[export] Instance eta_WorkerSlot : Settable WorkerSlot := fun s => mkWorkerSlot (ws_selector s) (ws_in_flight s) (ws_state s).

(** Where a send and a cancel are. *)
Inductive SenderState := SFound (group : PoolGroup) | SQueued (group : PoolGroup) | SAnswered (r : result RaftError unit).
Inductive CancelState := CRemoved (channel : N) (worker : nat) | CWaiting (channel : N) (worker : nat) | CReturned (channel : N) (found : bool).

Record PoolInner := mkPoolInner {
  pi_slots : list WorkerSlot;
  pi_groups : gmap DriverGroupKey PoolGroup;
  pi_channels : gmap N (MailChannel (Envelope M));
  pi_handlers : gmap N N;
  pi_next_slot : N;
  pi_exit : bool;
  pi_batches_handled : N;
  pi_mails_handled : N;
  pi_mails_refused : N;
  pi_cancel_quiesce_waits : N;
  pi_senders : gmap N SenderState;
  pi_cancels : gmap N CancelState;
  pi_calls : list (N * N * list M)     (* channel, handler, batch *)
}.
#[export] Instance eta_PoolInner : Settable PoolInner :=
  fun p => mkPoolInner (pi_slots p) (pi_groups p) (pi_channels p) (pi_handlers p) (pi_next_slot p) (pi_exit p)
    (pi_batches_handled p) (pi_mails_handled p) (pi_mails_refused p) (pi_cancel_quiesce_waits p) (pi_senders p)
    (pi_cancels p) (pi_calls p).

Definition pool_start : Result PoolInner :=
  match DriverOptions_validate options with
  | Err e => Err e
  | Ok _ => Ok (mkPoolInner (replicate (N.to_nat (do_worker_num options)) (mkWorkerSlot selector_new 0 WSelecting)) ∅ ∅ ∅ 1 false 0 0 0 0 ∅ ∅ [])
  end.

Definition worker_for (key : DriverGroupKey) (p : PoolInner) : nat :=
  N.to_nat (hash key `mod` N.of_nat (Nat.max (length (pi_slots p)) 1)).

Definition pool_register_group (key : DriverGroupKey) (handler : N) (p : PoolInner) : Result unit * PoolInner :=
  if bool_decide (is_Some (pi_groups p !! key)) then
    (Err (InvalidRequest ("driver already holds group " ++s pretty (dgk_group_id key) ++s " node " ++s pretty (dgk_node_id key))), p)
  else
    let channel_id := pi_next_slot p in
    let worker := worker_for key p in
    (Ok tt, p <| pi_next_slot ::= N.succ |>
              <| pi_channels ::= <[channel_id := channel_new channel_id (do_max_queue_depth options)]> |>
              <| pi_groups ::= <[key := mkPoolGroup channel_id worker]> |>
              <| pi_handlers ::= <[channel_id := handler]> |>).

(** ** Sending *)

Definition queue_depth_error (key : DriverGroupKey) : RaftError :=
  InvalidRequest ("group " ++s pretty (dgk_group_id key) ++s " node " ++s pretty (dgk_node_id key)
                  ++s " is at its queue depth of " ++s pretty (do_max_queue_depth options)).
Definition queue_room_error (key : DriverGroupKey) (refused : N) : RaftError :=
  InvalidRequest ("group " ++s pretty (dgk_group_id key) ++s " node " ++s pretty (dgk_node_id key) ++s " cannot take "
                  ++s pretty refused ++s " more: its queue depth is " ++s pretty (do_max_queue_depth options)).

(** The group table, under its lock. *)
Definition send_lookup (key : DriverGroupKey) (p : PoolInner) : SenderState :=
  match pi_groups p !! key with None => SAnswered (Err (NodeNotFound (dgk_node_id key))) | Some group => SFound group end.

(** The check of the depth, and the channel. *)
Definition send_queue (key : DriverGroupKey) (priority : MailPriority) (mail : M) (group : PoolGroup) (p : PoolInner) : SenderState * PoolInner :=
  match pi_channels p !! pg_channel_id group with
  | None => (SAnswered (Err (NodeNotFound (dgk_node_id key))), p)
  | Some channel =>
      let refused p := (SAnswered (Err (queue_depth_error key)), p <| pi_mails_refused ::= N.succ |>) in
      if (do_max_queue_depth options <=? mc_size channel)%N then refused p
      else let '(r, channel) := channel_try_send priority (EMail mail) channel in
           let p := p <| pi_channels ::= <[pg_channel_id group := channel]> |> in
           match r with Err _ => refused p | Ok _ => (SQueued group, p) end
  end.
Definition send_many_queue (key : DriverGroupKey) (priority : MailPriority) (mails : list M) (group : PoolGroup) (p : PoolInner) : SenderState * PoolInner :=
  match pi_channels p !! pg_channel_id group with
  | None => (SAnswered (Err (NodeNotFound (dgk_node_id key))), p)
  | Some channel =>
      let count := len mails in
      let refused p := (SAnswered (Err (queue_room_error key count)), p <| pi_mails_refused ::= N.add count |>) in
      if (do_max_queue_depth options <? mc_size channel +s count)%N then refused p
      else let '(r, channel) := channel_try_send_iter priority (EMail <$> mails) channel in
           let p := p <| pi_channels ::= <[pg_channel_id group := channel]> |> in
           match r with Err _ => refused p | Ok _ => (SQueued group, p) end
  end.

Definition on_slot (worker : nat) (f : WorkerSlot -> WorkerSlot) (p : PoolInner) : PoolInner := p <| pi_slots ::= alter f worker |>.

Definition send_fire (group : PoolGroup) (p : PoolInner) : PoolInner :=
  on_slot (pg_worker group) (fun slot => slot <| ws_selector ::= (fun s => (fire (pg_channel_id group) s).2) |>) p.

(** ** Cancelling *)

Definition cancel_remove (key : DriverGroupKey) (p : PoolInner) : CancelState * PoolInner :=
  match pi_groups p !! key with
  | None => (CReturned 0 false, p)
  | Some group => (CRemoved (pg_channel_id group) (worker_for key p), p <| pi_groups ::= delete key |>)
  end.

Definition in_flight (worker : nat) (p : PoolInner) : N := default 0%N (ws_in_flight <$> pi_slots p !! worker).

Definition cancel_handler (on_this_worker : bool) (channel : N) (worker : nat) (p : PoolInner) : CancelState * PoolInner :=
  let p := p <| pi_handlers ::= delete channel |> in
  if (in_flight worker p =? channel)%N && negb on_this_worker
  then (CWaiting channel worker, p <| pi_cancel_quiesce_waits ::= N.succ |>) else (CReturned channel true, p).

(** ** Workers *)

Definition is_stop (e : Envelope M) : bool := match e with EStop => true | EMail _ => false end.
Definition mails_of (envelopes : list (Envelope M)) : list M := omap (fun e => match e with EMail m => Some m | EStop => None end) envelopes.

(** The cut of a drain into batches: each new mail that would pass the budget ends
    the batch it was to join. *)
Fixpoint split_on_budget (size : M -> N) (budget : N) (batch : list M) (batch_bytes : N) (mails : list M) : list (list M) :=
  match mails with
  | [] => match batch with [] => [] | _ => [batch] end
  | mail :: mails =>
      let bytes := size mail in
      if match batch with [] => false | _ => (budget <? batch_bytes +s bytes)%N end
      then batch :: split_on_budget size budget [mail] (0 +s bytes) mails
      else split_on_budget size budget (batch ++ [mail]) (batch_bytes +s bytes) mails
  end.
Definition batches_of (mails : list M) : list (list M) :=
  match mail_size with
  | None => [mails]
  | Some size => split_on_budget size (N.max (do_driver_batch_bytes options) 1) [] 0 mails
  end.

Definition worker_policy : ChannelSelectorPolicy :=
  mkChannelSelectorPolicy (N.max (do_max_messages_each_poll options) 1) (csp_timeout_ms ChannelSelectorPolicy_default).

(** The first half of a pass; [None] while there is nothing to select. *)
Definition worker_select (p : PoolInner) (slot : WorkerSlot) : option WorkerSlot :=
  if pi_exit p then Some (slot <| ws_state := WStopped |>)
  else
    '((channels, global_mails, _), selector) ← select_into worker_policy [] (ws_selector slot);
    Some (if existsb is_stop global_mails
          then slot <| ws_selector := send_global EStop selector |> <| ws_state := WStopped |>
          else slot <| ws_selector := selector |> <| ws_state := WChannels channels |>).

(** [fetch_into] and the sorting out of its envelopes. *)
Definition worker_fetch (worker : nat) (slot : WorkerSlot) (channel_id : N) (channels : list N) (p : PoolInner) : PoolInner :=
  match pi_channels p !! channel_id with
  | None => on_slot worker (fun slot => slot <| ws_state := WChannels channels |>) p
  | Some channel =>
      let '(envelopes, channel, selector) := fetch_into [] channel (ws_selector slot) in
      let mails := mails_of envelopes in
      let next := if existsb is_stop envelopes || bool_decide (length mails = 0%nat) then WChannels channels else WDrained channel_id mails channels in
      on_slot worker (fun slot => slot <| ws_selector := selector |> <| ws_state := next |>)
        (p <| pi_channels ::= <[channel_id := channel]> |>)
  end.

(** The handler taken, and marked, under one lock. *)
Definition worker_take (worker : nat) (channel : N) (mails : list M) (channels : list N) (p : PoolInner) : PoolInner :=
  on_slot worker (fun slot =>
    match pi_handlers p !! channel with
    | Some handler => slot <| ws_in_flight := channel |> <| ws_state := WHandling channel handler (batches_of mails) channels |>
    | None => slot <| ws_state := WChannels channels |>
    end) p.

Definition worker_step (worker : nat) (p : PoolInner) : option PoolInner :=
  slot ← pi_slots p !! worker;
  match ws_state slot with
  | WSelecting => slot' ← worker_select p slot; Some (on_slot worker (fun _ => slot') p)
  | WChannels [] => Some (on_slot worker (fun slot => slot <| ws_state := WSelecting |>) p)
  | WChannels (channel :: channels) =>
      Some (if pi_exit p then on_slot worker (fun slot => slot <| ws_state := WStopped |>) p
            else worker_fetch worker slot channel channels p)
  | WDrained channel mails channels => Some (worker_take worker channel mails channels p)
  | WHandling channel handler [] channels =>
      Some (on_slot worker (fun slot => slot <| ws_in_flight := 0%N |> <| ws_state := WChannels channels |>) p)
  | WHandling channel handler (batch :: batches) channels =>
      Some (on_slot worker (fun slot => slot <| ws_state := WHandling channel handler batches channels |>)
              (p <| pi_calls ::= (fun calls => calls ++ [(channel, handler, batch)]) |>
                 <| pi_batches_handled ::= N.succ |> <| pi_mails_handled ::= N.add (len batch) |>))
  | WStopped => None
  end.

(** The flag and a sentinel for each worker, once. *)
Definition shutdown (p : PoolInner) : PoolInner :=
  if pi_exit p then p
  else p <| pi_exit := true |> <| pi_slots ::= fmap (fun slot => slot <| ws_selector ::= send_global EStop |>) |>.

Inductive PoolOp :=
  | PRegister (key : DriverGroupKey) (handler : N)
  | PSendLookup (sender : N) (key : DriverGroupKey)
  | PSendQueue (sender : N) (key : DriverGroupKey) (priority : MailPriority) (mail : M)
  | PSendManyQueue (sender : N) (key : DriverGroupKey) (priority : MailPriority) (mails : list M)
  | PSendFire (sender : N)
  | PCancelRemove (caller : N) (key : DriverGroupKey)
  | PCancelHandler (caller : N) (on_this_worker : bool)
  | PCancelReturns (caller : N)
  | PWorker (worker : nat)
  | PShutdown.

(** A thread makes one call at a time; a call of [send_many] with no mail returns at
    once and takes no step. *)
Definition sender_free (sender : N) (p : PoolInner) : bool :=
  match pi_senders p !! sender with None | Some (SAnswered _) => true | _ => false end.
Definition caller_free (caller : N) (p : PoolInner) : bool :=
  match pi_cancels p !! caller with None | Some (CReturned _ _) => true | _ => false end.

Definition pool_step (op : PoolOp) (p : PoolInner) : option PoolInner :=
  match op with
  | PRegister key handler => Some (pool_register_group key handler p).2
  | PSendLookup sender key => if sender_free sender p then Some (p <| pi_senders ::= <[sender := send_lookup key p]> |>) else None
  | PSendQueue sender key priority mail =>
      match pi_senders p !! sender with
      | Some (SFound group) => let '(s, p) := send_queue key priority mail group p in Some (p <| pi_senders ::= <[sender := s]> |>)
      | _ => None
      end
  | PSendManyQueue sender key priority mails =>
      match pi_senders p !! sender, mails with
      | Some (SFound group), _ :: _ => let '(s, p) := send_many_queue key priority mails group p in Some (p <| pi_senders ::= <[sender := s]> |>)
      | _, _ => None
      end
  | PSendFire sender =>
      match pi_senders p !! sender with
      | Some (SQueued group) => Some (send_fire group p <| pi_senders ::= <[sender := SAnswered (Ok tt)]> |>)
      | _ => None
      end
  | PCancelRemove caller key =>
      if caller_free caller p then let '(c, p) := cancel_remove key p in Some (p <| pi_cancels ::= <[caller := c]> |>) else None
  | PCancelHandler caller on_this_worker =>
      match pi_cancels p !! caller with
      | Some (CRemoved channel worker) => let '(c, p) := cancel_handler on_this_worker channel worker p in Some (p <| pi_cancels ::= <[caller := c]> |>)
      | _ => None
      end
  | PCancelReturns caller =>
      match pi_cancels p !! caller with
      | Some (CWaiting channel worker) =>
          if (in_flight worker p =? channel)%N then None else Some (p <| pi_cancels ::= <[caller := CReturned channel true]> |>)
      | _ => None
      end
  | PWorker worker => worker_step worker p
  | PShutdown => Some (shutdown p)
  end.

Definition run_pool (ops : list PoolOp) (p : PoolInner) : option PoolInner := foldl (fun acc op => p ← acc; pool_step op p) (Some p) ops.

(** ** Every channel on its own worker *)

Definition state_ids (s : WorkerState) : list N :=
  match s with
  | WChannels channels => channels
  | WDrained channel _ channels | WHandling channel _ _ channels => channel :: channels
  | WSelecting | WStopped => []
  end.
Definition slot_ids (slot : WorkerSlot) : list N := cs_channel_list (ws_selector slot) ++ state_ids (ws_state slot).
Definition mark_of (s : WorkerState) : N := match s with WHandling channel _ _ _ => channel | _ => 0%N end.

(** [pin] is the worker each id was given to. *)
Record pool_ok (pin : gmap N nat) (p : PoolInner) : Prop := mk_pool_ok {
  po_ids : forall ch w, pin !! ch = Some w -> (1 <= ch < pi_next_slot p)%N;
  po_groups : forall key g, pi_groups p !! key = Some g -> pin !! pg_channel_id g = Some (pg_worker g) /\ pg_worker g = worker_for key p;
  po_senders : forall s g, pi_senders p !! s = Some (SFound g) \/ pi_senders p !! s = Some (SQueued g) -> pin !! pg_channel_id g = Some (pg_worker g);
  po_slots : forall w slot, pi_slots p !! w = Some slot ->
    (forall ch, ch ∈ slot_ids slot -> pin !! ch = Some w) /\ ws_in_flight slot = mark_of (ws_state slot);
  po_cancels : forall c ch w, pi_cancels p !! c = Some (CRemoved ch w) \/ pi_cancels p !! c = Some (CWaiting ch w) -> pin !! ch = Some w;
  po_handlers : forall ch h, pi_handlers p !! ch = Some h -> is_Some (pin !! ch);
  po_next : (1 <= pi_next_slot p)%N
}.

Lemma on_slot_ok pin p w f :
  pool_ok pin p ->
  (forall slot, pi_slots p !! w = Some slot ->
     (forall ch, ch ∈ slot_ids (f slot) -> pin !! ch = Some w) /\ ws_in_flight (f slot) = mark_of (ws_state (f slot))) ->
  pool_ok pin (on_slot w f p).
Proof.
  intros [H1 H2 H3 H4 H5 H6 H7] Hf. constructor; cbn; try done.
  - intros key g Hg. destruct (H2 key g Hg) as [Hp Hw]. split; [done|]. rewrite Hw. unfold worker_for. cbn. by rewrite length_alter.
  - intros i slot Hi. destruct (decide (i = w)) as [->|Hne].
    + rewrite list_lookup_alter_eq in Hi. destruct (pi_slots p !! w) as [slot0|] eqn:Hs; [|done]. injection Hi as <-. by apply Hf.
    + rewrite list_lookup_alter_ne in Hi by done. by apply H4.
Qed.

(** Changes that the invariant does not look at. *)
Lemma pool_ok_same pin p p' :
  pool_ok pin p -> pi_next_slot p' = pi_next_slot p -> pi_groups p' = pi_groups p -> pi_senders p' = pi_senders p ->
  pi_slots p' = pi_slots p -> pi_cancels p' = pi_cancels p -> pi_handlers p' = pi_handlers p -> pool_ok pin p'.
Proof.
  intros [H1 H2 H3 H4 H5 H6 H7] E1 E2 E3 E4 E5 E6. constructor; rewrite ?E1, ?E2, ?E3, ?E4, ?E5, ?E6; try done.
  intros key g Hg. unfold worker_for. rewrite E4. by apply H2.
Qed.

Lemma senders_ok pin p s st : pool_ok pin p ->
  (forall g, st = SFound g \/ st = SQueued g -> pin !! pg_channel_id g = Some (pg_worker g)) ->
  pool_ok pin (p <| pi_senders ::= <[s := st]> |>).
Proof.
  intros [H1 H2 H3 H4 H5 H6 H7] Hst. constructor; cbn; try done.
  intros s' g. rewrite lookup_insert. case_decide; [|by apply H3]. intros [[= ->]|[= ->]]; apply Hst; tauto.
Qed.

Lemma cancels_ok pin p c st : pool_ok pin p ->
  (forall ch w, st = CRemoved ch w \/ st = CWaiting ch w -> pin !! ch = Some w) -> pool_ok pin (p <| pi_cancels ::= <[c := st]> |>).
Proof.
  intros [H1 H2 H3 H4 H5 H6 H7] Hst. constructor; cbn; try done.
  intros c' ch w. rewrite lookup_insert. case_decide; [|by apply H5]. intros [[= ->]|[= ->]]; apply Hst; tauto.
Qed.

Lemma fire_list id (s : ChannelSelector (Envelope M)) ch : ch ∈ cs_channel_list (fire id s).2 -> ch = id \/ ch ∈ cs_channel_list s.
Proof. unfold fire. case_bool_decide; cbn; [by right|]. rewrite elem_of_app, list_elem_of_singleton. tauto. Qed.

Lemma pop_channels_list n (s : ChannelSelector (Envelope M)) ch :
  ch ∈ (pop_channels n s).1 \/ ch ∈ cs_channel_list (pop_channels n s).2 -> ch ∈ cs_channel_list s.
Proof.
  revert s. induction n as [|n IH]; intros s; cbn; [intros [H%not_elem_of_nil|H]; done|].
  destruct (cs_channel_list s) as [|id rest] eqn:Hl; cbn; [rewrite Hl; intros [H|H]; done|].
  set (s1 := mkChannelSelector _ _ _ _). specialize (IH s1).
  destruct (pop_channels n s1) as [l s2]. cbn in *. rewrite elem_of_cons. intros [[->|H]|H]; [left|right; apply IH; by left|right; apply IH; by right].
Qed.

Lemma select_list policy (s s' : ChannelSelector (Envelope M)) channels mails more ch :
  select_into policy [] s = Some ((channels, mails, more), s') ->
  ch ∈ channels \/ ch ∈ cs_channel_list s' -> ch ∈ cs_channel_list s.
Proof.
  unfold select_into, take_selection, rearrange. cbn [foldl]. destruct (_ && _); [done|].
  set (s0 := s <| cs_global_mails := [] |>). set (n := N.to_nat _). pose proof (pop_channels_list n s0 ch) as H.
  destruct (pop_channels n s0) as [l s2]. intros [= <- _ _ <-]. exact H.
Qed.

Lemma elem_slot_ids ch slot : ch ∈ slot_ids slot <-> ch ∈ cs_channel_list (ws_selector slot) \/ ch ∈ state_ids (ws_state slot).
Proof. unfold slot_ids. apply elem_of_app. Qed.

Lemma register_ok_pool pin p key handler : pool_ok pin p -> exists pin', pool_ok pin' (pool_register_group key handler p).2 /\ pin ⊆ pin'.
Proof.
  intros Hok. unfold pool_register_group. case_bool_decide as Hk; [by exists pin|]. cbn [snd].
  exists (<[pi_next_slot p := worker_for key p]> pin). destruct Hok as [H1 H2 H3 H4 H5 H6 H7].
  assert (pin !! pi_next_slot p = None) as Hn.
  { destruct (pin !! pi_next_slot p) as [w|] eqn:E; [|done]. apply H1 in E. lia. }
  assert (forall ch w, pin !! ch = Some w -> <[pi_next_slot p := worker_for key p]> pin !! ch = Some w) as Hmono.
  { intros ch w Hch. rewrite lookup_insert_ne; [done|]. intros <-. congruence. }
  split; [|by apply insert_subseteq]. constructor; cbn.
  - intros ch w. rewrite lookup_insert. case_decide as E; [intros _; lia|]. intros H. apply H1 in H. lia.
  - intros key' g. rewrite lookup_insert. case_decide as E.
    + intros [= <-]. cbn. rewrite lookup_insert_eq. subst key'. done.
    + intros Hg. destruct (H2 key' g Hg) as [Hp Hw]. split; [by apply Hmono|done].
  - intros s g Hs. by apply Hmono, (H3 s).
  - intros w slot Hs. destruct (H4 w slot Hs) as [Hi Hf]. split; [|done]. intros ch Hch. by apply Hmono, Hi.
  - intros c ch w Hc. by apply Hmono, (H5 c).
  - intros ch h. rewrite !lookup_insert. case_decide; [by eexists|]. apply H6.
  - lia.
Qed.

Lemma worker_step_ok pin p p' w : pool_ok pin p -> worker_step w p = Some p' -> pool_ok pin p'.
Proof.
  intros Hok. unfold worker_step. destruct (pi_slots p !! w) as [slot|] eqn:Hs; [|done]. cbn.
  destruct (po_slots pin p Hok w slot Hs) as [Hids Hmark].
  assert (forall ch, ch ∈ cs_channel_list (ws_selector slot) -> pin !! ch = Some w) as Hl by (intros ch H; apply Hids, elem_slot_ids; by left).
  assert (forall ch, ch ∈ state_ids (ws_state slot) -> pin !! ch = Some w) as Hst by (intros ch H; apply Hids, elem_slot_ids; by right).
  destruct (ws_state slot) as [|[|ch channels]|ch mails channels|ch h [|b bs] channels|] eqn:E; cbn in Hst.
  - unfold worker_select. destruct (pi_exit p); [|destruct (select_into _ _ _) as [[[[channels mails] more] s']|] eqn:Hsel; [|done]; cbn; destruct (existsb _ _)];
      intros [= <-]; apply on_slot_ok; try done; intros slot' Hs'; (split; [|try exact Hmark; try done]); intros ch; rewrite elem_slot_ids; cbn.
    + intros [H|H%not_elem_of_nil]; [by apply Hl|done].
    + intros [H|H%not_elem_of_nil]; [apply Hl; apply (select_list _ _ _ _ _ _ _ Hsel); by right|done].
    + intros H. apply Hl, (select_list _ _ _ _ _ _ _ Hsel). tauto.
  - intros [= <-]. apply on_slot_ok; [done|]. intros slot'. rewrite Hs. intros [= <-]. split; [|exact Hmark]. intros ch. rewrite elem_slot_ids. cbn.
    intros [H|H%not_elem_of_nil]; [by apply Hl|done].
  - intros [= <-]. destruct (pi_exit p).
    + apply on_slot_ok; [done|]. intros slot'. rewrite Hs. intros [= <-]. split; [|exact Hmark]. intros x. rewrite elem_slot_ids. cbn.
      intros [H|H%not_elem_of_nil]; [by apply Hl|done].
    + unfold worker_fetch. destruct (pi_channels p !! ch) as [c|].
      * unfold fetch_into, consume, drain_buffered. cbn. apply on_slot_ok; [by apply (pool_ok_same pin p)|]. intros slot' Hs'. change (pi_slots p !! w = Some slot') in Hs'. rewrite Hs in Hs'. injection Hs' as <-.
        split; [|destruct (_ || _); exact Hmark]. intros x. rewrite elem_slot_ids. cbn. intros [H|H]; [by apply Hl|]. apply Hst. destruct (_ || _); cbn in H; [by right|done].
      * apply on_slot_ok; [done|]. intros slot'. rewrite Hs. intros [= <-]. split; [|exact Hmark]. intros x. rewrite elem_slot_ids. cbn. intros [H|H]; [by apply Hl|apply Hst; by right].
  - intros [= <-]. unfold worker_take. apply on_slot_ok; [done|]. intros slot'. rewrite Hs. intros [= <-].
    destruct (pi_handlers p !! ch); (split; [|try exact Hmark; try done]); intros x; rewrite elem_slot_ids; cbn; intros [H|H]; try (by apply Hl); apply Hst; [done|by right].
  - intros [= <-]. apply on_slot_ok; [done|]. intros slot'. rewrite Hs. intros [= <-]. split; [|done]. intros x. rewrite elem_slot_ids. cbn.
    intros [H|H]; [by apply Hl|apply Hst; by right].
  - intros [= <-]. apply on_slot_ok; [by apply (pool_ok_same pin p)|]. intros slot' Hs'. change (pi_slots p !! w = Some slot') in Hs'. rewrite Hs in Hs'. injection Hs' as <-. split; [|exact Hmark]. intros x.
    rewrite elem_slot_ids. cbn. intros [H|H]; [by apply Hl|by apply Hst].
  - done.
Qed.

Lemma channel_in_flight pin p w slot ch h bs cs :
  pool_ok pin p -> pi_slots p !! w = Some slot -> ws_state slot = WHandling ch h bs cs -> pin !! ch = Some w /\ in_flight w p = ch.
Proof.
  intros Hok Hs He. destruct (po_slots pin p Hok w slot Hs) as [Hi Hm]. rewrite He in Hm. split.
  - apply Hi, elem_slot_ids. right. rewrite He. left.
  - unfold in_flight. by rewrite Hs.
Qed.

Lemma send_queue_ok pin p key priority mail group :
  pool_ok pin p -> pin !! pg_channel_id group = Some (pg_worker group) ->
  let '(s, p') := send_queue key priority mail group p in
  pool_ok pin p' /\ forall g, s = SFound g \/ s = SQueued g -> pin !! pg_channel_id g = Some (pg_worker g).
Proof.
  intros Hok Hg. unfold send_queue. destruct (pi_channels p !! _) as [c|]; [|split; [done|naive_solver]].
  destruct (_ <=? _)%N; [split; [by apply (pool_ok_same pin p)|naive_solver]|].
  destruct (channel_try_send _ _ _) as [[u|e] c']; (split; [by apply (pool_ok_same pin p)|naive_solver]).
Qed.

Lemma send_many_queue_ok pin p key priority mails group :
  pool_ok pin p -> pin !! pg_channel_id group = Some (pg_worker group) ->
  let '(s, p') := send_many_queue key priority mails group p in
  pool_ok pin p' /\ forall g, s = SFound g \/ s = SQueued g -> pin !! pg_channel_id g = Some (pg_worker g).
Proof.
  intros Hok Hg. unfold send_many_queue. destruct (pi_channels p !! _) as [c|]; [|split; [done|naive_solver]].
  cbn zeta. destruct (_ <? _)%N; [split; [by apply (pool_ok_same pin p)|naive_solver]|].
  destruct (channel_try_send_iter _ _ _) as [[u|e] c']; (split; [by apply (pool_ok_same pin p)|naive_solver]).
Qed.

Lemma pool_fire_ok pin p group : pool_ok pin p -> pin !! pg_channel_id group = Some (pg_worker group) -> pool_ok pin (send_fire group p).
Proof.
  intros Hok Hg. apply on_slot_ok; [done|]. intros slot Hs. destruct (po_slots pin p Hok _ slot Hs) as [Hi Hm]. split; [|exact Hm].
  intros ch. rewrite elem_slot_ids. cbn. intros [[->|H]%fire_list|H]; [done|..]; apply Hi, elem_slot_ids; tauto.
Qed.

Lemma shutdown_ok pin p : pool_ok pin p -> pool_ok pin (shutdown p).
Proof.
  unfold shutdown. destruct (pi_exit p); [done|].
  intros [H1 H2 H3 H4 H5 H6 H7]. constructor; cbn; try done.
  - intros key g Hg. unfold worker_for. cbn. rewrite length_fmap. by apply H2.
  - intros w slot Hs. rewrite list_lookup_fmap in Hs. destruct (pi_slots p !! w) as [s0|] eqn:E; [|done]. injection Hs as <-. by apply (H4 w s0).
Qed.

Lemma cancel_remove_ok pin p key : pool_ok pin p ->
  let '(c, p') := cancel_remove key p in pool_ok pin p' /\ forall ch w, c = CRemoved ch w \/ c = CWaiting ch w -> pin !! ch = Some w.
Proof.
  intros Hok. unfold cancel_remove. destruct (pi_groups p !! key) as [g|] eqn:Hg; [|split; [done|naive_solver]].
  destruct (po_groups pin p Hok key g Hg) as [Hp Hw]. split.
  - destruct Hok as [H1 H2 H3 H4 H5 H6 H7]. constructor; cbn; try done. intros key' g' [_ Hg']%lookup_delete_Some. by apply H2.
  - intros ch w [[= <- <-]|H]; [by rewrite <- Hw|done].
Qed.

Lemma cancel_handler_ok pin p b ch w : pool_ok pin p -> pin !! ch = Some w ->
  let '(c, p') := cancel_handler b ch w p in pool_ok pin p' /\ forall ch' w', c = CRemoved ch' w' \/ c = CWaiting ch' w' -> pin !! ch' = Some w'.
Proof.
  intros Hok Hp. unfold cancel_handler.
  assert (pool_ok pin (p <| pi_handlers ::= delete ch |>)) as Hok'.
  { destruct Hok as [H1 H2 H3 H4 H5 H6 H7]. constructor; cbn; try done. intros ch' h [_ Hh]%lookup_delete_Some. by apply (H6 ch' h). }
  destruct (_ && _); (split; [|naive_solver]); [|done]. by apply (pool_ok_same pin (p <| pi_handlers ::= delete ch |>)).
Qed.

Lemma pool_step_ok pin op p p' : pool_ok pin p -> pool_step op p = Some p' -> exists pin', pool_ok pin' p' /\ pin ⊆ pin'.
Proof.
  intros Hok. destruct op; cbn.
  - intros [= <-]. by apply register_ok_pool.
  - destruct (sender_free sender p); [|done]. intros [= <-]. exists pin. split; [|done]. apply senders_ok; [done|]. unfold send_lookup.
    destruct (pi_groups p !! key) as [g|] eqn:Hg; [|naive_solver]. intros g' [[= <-]|H]; [|done]. by apply (po_groups pin p Hok key).
  - destruct (pi_senders p !! sender) as [[g| |]|] eqn:Hs; try done. pose proof (send_queue_ok pin p key priority mail g Hok) as H.
    destruct (send_queue _ _ _ _ _) as [s p1]. intros [= <-]. destruct H as [H1 H2]; [by apply (po_senders pin p Hok sender); left|].
    exists pin. split; [by apply senders_ok|done].
  - destruct (pi_senders p !! sender) as [[g| |]|] eqn:Hs; try done. pose proof (send_many_queue_ok pin p key priority mails g Hok) as H.
    destruct mails as [|m mails]; [done|].
    destruct (send_many_queue _ _ _ _ _) as [s p1]. intros [= <-]. destruct H as [H1 H2]; [by apply (po_senders pin p Hok sender); left|].
    exists pin. split; [by apply senders_ok|done].
  - destruct (pi_senders p !! sender) as [[|g|]|] eqn:Hs; try done. intros [= <-]. exists pin. split; [|done].
    apply pool_fire_ok; [|by apply (po_senders pin p Hok sender); right]. apply senders_ok; [done|naive_solver].
  - destruct (caller_free caller p); [|done]. pose proof (cancel_remove_ok pin p key Hok) as H. destruct (cancel_remove key p) as [c p1].
    intros [= <-]. exists pin. split; [|done]. apply cancels_ok; apply H.
  - destruct (pi_cancels p !! caller) as [[ch w|ch w|]|] eqn:Hc; try done.
    pose proof (cancel_handler_ok pin p on_this_worker ch w Hok (po_cancels pin p Hok caller ch w (or_introl Hc))) as H.
    destruct (cancel_handler _ _ _ _) as [c p1]. intros [= <-]. exists pin. split; [|done]. apply cancels_ok; apply H.
  - destruct (pi_cancels p !! caller) as [[|ch w|]|] eqn:Hc; try done. destruct (_ =? _)%N; [done|]. intros [= <-]. exists pin.
    split; [|done]. apply cancels_ok; [done|naive_solver].
  - intros H. exists pin. split; [by apply (worker_step_ok pin p p' worker)|done].
  - intros [= <-]. exists pin. split; [by apply shutdown_ok|done].
Qed.

(** ** After a cancel *)

Definition handling (ch : N) (p : PoolInner) : Prop :=
  exists w slot h bs cs, pi_slots p !! w = Some slot /\ ws_state slot = WHandling ch h bs cs.

Lemma handling_same ch p p' : ws_state <$> pi_slots p' = ws_state <$> pi_slots p -> handling ch p' -> handling ch p.
Proof.
  intros E (w & slot & h & bs & cs & Hs & He).
  assert ((ws_state <$> pi_slots p) !! w = Some (WHandling ch h bs cs)) as H by (rewrite <- E, list_lookup_fmap, Hs; cbn; by rewrite He).
  rewrite list_lookup_fmap in H. destruct (pi_slots p !! w) as [slot'|] eqn:Hs'; [|done]. injection H as H. by exists w, slot', h, bs, cs.
Qed.

Lemma on_slot_handling ch w f p :
  handling ch (on_slot w f p) ->
  handling ch p \/ exists slot h bs cs, pi_slots p !! w = Some slot /\ ws_state (f slot) = WHandling ch h bs cs.
Proof.
  intros (i & slot & h & bs & cs & Hs & He). cbn in Hs. destruct (decide (i = w)) as [->|Hne].
  - rewrite list_lookup_alter_eq in Hs. destruct (pi_slots p !! w) as [s0|] eqn:Hw; [|done]. injection Hs as <-. right. by exists s0, h, bs, cs.
  - rewrite list_lookup_alter_ne in Hs by done. left. by exists i, slot, h, bs, cs.
Qed.

(** Only a worker that finds the handler begins to handle. *)
Lemma worker_step_handling ch w p p' : worker_step w p = Some p' -> pi_handlers p !! ch = None -> handling ch p' -> handling ch p.
Proof.
  intros Hst Hn. unfold worker_step in Hst. destruct (pi_slots p !! w) as [slot|] eqn:Hs; [|done]. cbn in Hst.
  assert (forall f q, pi_slots q = pi_slots p -> p' = on_slot w f q ->
    (forall h bs cs, ws_state (f slot) = WHandling ch h bs cs -> exists bs', ws_state slot = WHandling ch h bs' cs) -> handling ch p' -> handling ch p) as Hgen.
  { intros f q Hq -> Hf [H|(s0 & h & bs & cs & Hs0 & He)]%on_slot_handling; [by apply (handling_same ch p q); [rewrite Hq|]|].
    rewrite Hq, Hs in Hs0. injection Hs0 as <-. destruct (Hf h bs cs He) as [bs' H']. by exists w, slot, h, bs', cs. }
  destruct (ws_state slot) as [|[|c channels]|c mails channels|c h [|b bs] channels|] eqn:E.
  - destruct (worker_select p slot) as [slot'|] eqn:Hsel; [|done]. cbn in Hst. injection Hst as <-. apply (Hgen _ p eq_refl eq_refl). intros h bs cs He.
    exfalso. unfold worker_select in Hsel. destruct (pi_exit p); [injection Hsel as <-; done|].
    destruct (select_into _ _ _) as [[[[? ?] ?] ?]|]; [|done]. cbn in Hsel. injection Hsel as <-. by destruct (existsb _ _).
  - injection Hst as <-. apply (Hgen _ p eq_refl eq_refl). done.
  - injection Hst as <-. destruct (pi_exit p); [by apply (Hgen _ p eq_refl eq_refl)|]. unfold worker_fetch in *.
    destruct (pi_channels p !! c) as [mc|]; [|by apply (Hgen _ p eq_refl eq_refl)].
    unfold fetch_into, consume, drain_buffered in *. cbn in *. eapply Hgen; [|reflexivity|]; [done|]. intros h bs cs. cbn. by destruct (_ || _).
  - injection Hst as <-. apply (Hgen _ p eq_refl eq_refl). intros h bs cs. destruct (pi_handlers p !! c) as [h'|] eqn:Hh; [|done]. cbn.
    intros [= <- <- <- <-]. congruence.
  - injection Hst as <-. apply (Hgen _ p eq_refl eq_refl). done.
  - injection Hst as <-. eapply Hgen; [|reflexivity|]; [done|]. intros h' bs' cs. cbn. intros [= <- <- <- <-]. by exists (b :: bs).
  - done.
Qed.

Lemma map_alter_same {A B} (f : A -> B) (g : A -> A) (l : list A) i : (forall x, f (g x) = f x) -> f <$> alter g i l = f <$> l.
Proof.
  intros H. apply list_eq. intros j. rewrite !list_lookup_fmap. destruct (decide (j = i)) as [->|Hne].
  - rewrite list_lookup_alter_eq. destruct (l !! i); [cbn; by rewrite H|done].
  - by rewrite list_lookup_alter_ne.
Qed.

Lemma pool_step_handling ch op p p' : pool_step op p = Some p' -> pi_handlers p !! ch = None -> handling ch p' -> handling ch p.
Proof.
  intros Hst Hn. destruct op; cbn in Hst; try (by apply (worker_step_handling ch worker)); apply handling_same.
  - injection Hst as <-. unfold pool_register_group. by case_bool_decide.
  - destruct (sender_free _ _); [|done]. by injection Hst as <-.
  - destruct (pi_senders p !! sender) as [[g| |]|]; try done. unfold send_queue in Hst. destruct (pi_channels p !! _); [|by injection Hst as <-].
    destruct (_ <=? _)%N; [by injection Hst as <-|]. destruct (channel_try_send _ _ _) as [[] ?]; by injection Hst as <-.
  - destruct (pi_senders p !! sender) as [[g| |]|]; try done. destruct mails as [|m mails]; [done|]. unfold send_many_queue in Hst. destruct (pi_channels p !! _); [|by injection Hst as <-].
    cbn zeta in Hst. destruct (_ <? _)%N; [by injection Hst as <-|]. destruct (channel_try_send_iter _ _ _) as [[] ?]; by injection Hst as <-.
  - destruct (pi_senders p !! sender) as [[|g|]|]; try done. injection Hst as <-. cbn. by apply map_alter_same.
  - destruct (caller_free _ _); [|done]. unfold cancel_remove in Hst. destruct (pi_groups p !! key); by injection Hst as <-.
  - destruct (pi_cancels p !! caller) as [[c w|c w|]|]; try done. unfold cancel_handler in Hst. destruct (_ && _); by injection Hst as <-.
  - destruct (pi_cancels p !! caller) as [[c w|c w|]|]; try done. destruct (_ =? _)%N; [done|]. by injection Hst as <-.
  - injection Hst as <-. unfold shutdown. destruct (pi_exit p); [done|]. cbn. rewrite <- list_fmap_compose. by apply list_fmap_ext.
Qed.

Lemma worker_step_frame w p p' : worker_step w p = Some p' ->
  pi_handlers p' = pi_handlers p /\ pi_next_slot p' = pi_next_slot p /\ pi_cancels p' = pi_cancels p
  /\ (pi_calls p' = pi_calls p \/ exists ch h b, pi_calls p' = pi_calls p ++ [(ch, h, b)] /\ handling ch p).
Proof.
  unfold worker_step. destruct (pi_slots p !! w) as [slot|] eqn:Hs; [|done]. cbn.
  destruct (ws_state slot) as [|[|c channels]|c mails channels|c h [|b bs] channels|] eqn:E.
  - destruct (worker_select p slot); [|done]. cbn. intros [= <-]. split_and!; try done. by left.
  - intros [= <-]. split_and!; try done. by left.
  - intros [= <-]. destruct (pi_exit p); [split_and!; try done; by left|]. unfold worker_fetch.
    destruct (pi_channels p !! c); [|split_and!; try done; by left]. unfold fetch_into, consume, drain_buffered. cbn. split_and!; try done. by left.
  - intros [= <-]. split_and!; try done. by left.
  - intros [= <-]. split_and!; try done. by left.
  - intros [= <-]. split_and!; try done. right. exists c, h, b. split; [done|]. by exists w, slot, h, (b :: bs), channels.
  - done.
Qed.

(** What the other threads do to the table of handlers, the cancels and the calls. *)
Lemma pool_step_frame op p p' ch : pool_step op p = Some p' -> pi_handlers p !! ch = None -> (ch < pi_next_slot p)%N ->
  pi_handlers p' !! ch = None /\ (ch < pi_next_slot p')%N
  /\ (pi_calls p' = pi_calls p \/ exists c h b, pi_calls p' = pi_calls p ++ [(c, h, b)] /\ handling c p).
Proof.
  intros Hst Hn Hlt. destruct op; cbn in Hst.
  - injection Hst as <-. unfold pool_register_group. case_bool_decide; cbn; [by split_and!; [..|left]|].
    split_and!; [rewrite lookup_insert_ne; [done|lia]|lia|by left].
  - destruct (sender_free _ _); [|done]. injection Hst as <-. by split_and!; [..|left].
  - destruct (pi_senders p !! sender) as [[g| |]|]; try done. unfold send_queue in Hst. destruct (pi_channels p !! _); [|injection Hst as <-; by split_and!; [..|left]].
    destruct (_ <=? _)%N; [injection Hst as <-; by split_and!; [..|left]|]. destruct (channel_try_send _ _ _) as [[] ?]; injection Hst as <-; by split_and!; [..|left].
  - destruct (pi_senders p !! sender) as [[g| |]|]; try done. destruct mails as [|m mails]; [done|]. unfold send_many_queue in Hst. destruct (pi_channels p !! _); [|injection Hst as <-; by split_and!; [..|left]].
    cbn zeta in Hst. destruct (_ <? _)%N; [injection Hst as <-; by split_and!; [..|left]|]. destruct (channel_try_send_iter _ _ _) as [[] ?]; injection Hst as <-; by split_and!; [..|left].
  - destruct (pi_senders p !! sender) as [[|g|]|]; try done. injection Hst as <-. by split_and!; [..|left].
  - destruct (caller_free _ _); [|done]. unfold cancel_remove in Hst. destruct (pi_groups p !! key); injection Hst as <-; by split_and!; [..|left].
  - destruct (pi_cancels p !! caller) as [[c w|c w|]|]; try done. unfold cancel_handler in Hst.
    assert (delete c (pi_handlers p) !! ch = None) as Hd by (by apply lookup_delete_None; right). destruct (_ && _); injection Hst as <-; by split_and!; [..|left].
  - destruct (pi_cancels p !! caller) as [[c w|c w|]|]; try done. destruct (_ =? _)%N; [done|]. injection Hst as <-. by split_and!; [..|left].
  - destruct (worker_step_frame _ _ _ Hst) as (E1 & E2 & E3 & E4). rewrite E1, E2. done.
  - injection Hst as <-. unfold shutdown. destruct (pi_exit p); by split_and!; [..|left].
Qed.

(** A cancel that waits goes on waiting, or its worker is done with the channel. *)
Lemma pool_step_waiting op p p' caller ch w : pool_step op p = Some p' -> pi_cancels p !! caller = Some (CWaiting ch w) ->
  pi_cancels p' !! caller = Some (CWaiting ch w) \/ (in_flight w p <> ch /\ pi_slots p' = pi_slots p).
Proof.
  intros Hst Hc. destruct op; cbn in Hst.
  - injection Hst as <-. unfold pool_register_group. case_bool_decide; by left.
  - destruct (sender_free _ _); [|done]. injection Hst as <-. by left.
  - destruct (pi_senders p !! sender) as [[g| |]|]; try done. unfold send_queue in Hst. destruct (pi_channels p !! _); [|injection Hst as <-; by left].
    destruct (_ <=? _)%N; [injection Hst as <-; by left|]. destruct (channel_try_send _ _ _) as [[] ?]; injection Hst as <-; by left.
  - destruct (pi_senders p !! sender) as [[g| |]|]; try done. destruct mails as [|m mails]; [done|]. unfold send_many_queue in Hst. destruct (pi_channels p !! _); [|injection Hst as <-; by left].
    cbn zeta in Hst. destruct (_ <? _)%N; [injection Hst as <-; by left|]. destruct (channel_try_send_iter _ _ _) as [[] ?]; injection Hst as <-; by left.
  - destruct (pi_senders p !! sender) as [[|g|]|]; try done. injection Hst as <-. by left.
  - unfold caller_free in Hst. destruct (decide (caller0 = caller)) as [->|Hne]; [by rewrite Hc in Hst|]. destruct (pi_cancels p !! caller0) as [[]|]; try done;
      unfold cancel_remove in Hst; destruct (pi_groups p !! key); injection Hst as <-; left; cbn; by rewrite lookup_insert_ne.
  - destruct (decide (caller0 = caller)) as [->|Hne]; [by rewrite Hc in Hst|]. destruct (pi_cancels p !! caller0) as [[c' w'|c' w'|]|]; try done.
    unfold cancel_handler in Hst. destruct (_ && _); injection Hst as <-; left; cbn; by rewrite lookup_insert_ne.
  - destruct (pi_cancels p !! caller0) as [[c' w'|c' w'|]|] eqn:Hc0; try done. destruct (N.eqb_spec (in_flight w' p) c') as [|Hf]; [done|].
    injection Hst as <-. destruct (decide (caller0 = caller)) as [->|Hne]; [|left; cbn; by rewrite lookup_insert_ne].
    right. rewrite Hc in Hc0. injection Hc0 as -> ->. done.
  - destruct (worker_step_frame _ _ _ Hst) as (E1 & E2 & E3 & E4). left. by rewrite E3.
  - injection Hst as <-. unfold shutdown. destruct (pi_exit p); by left.
Qed.

Definition pool_cancelled (caller ch : N) (p : PoolInner) : Prop :=
  pi_handlers p !! ch = None /\ (ch < pi_next_slot p)%N
  /\ (~ handling ch p \/ exists w, pi_cancels p !! caller = Some (CWaiting ch w)).

Lemma pool_cancelled_kept pin op caller ch p p' :
  pool_ok pin p -> pool_cancelled caller ch p -> pool_step op p = Some p' -> pool_cancelled caller ch p'.
Proof.
  intros Hok (Hn & Hlt & Hd) Hst. destruct (pool_step_frame op p p' ch Hst Hn Hlt) as (Hn' & Hlt' & _). split_and!; [done|done|].
  destruct Hd as [Hh|[w Hw]]; [left; intros H; by apply Hh, (pool_step_handling ch op p p')|].
  destruct (pool_step_waiting op p p' caller ch w Hst Hw) as [H|[Hf Hsl]]; [right; by exists w|]. left. intros H.
  apply (pool_step_handling ch op p p' Hst Hn) in H as (w' & slot & h & bs & cs & Hs & He).
  destruct (channel_in_flight pin p w' slot ch h bs cs Hok Hs He) as [Hp Hfl].
  rewrite (po_cancels pin p Hok caller ch w (or_intror Hw)) in Hp. injection Hp as <-. done.
Qed.

Lemma run_pool_cons op ops p p' : run_pool (op :: ops) p = Some p' <-> exists p1, pool_step op p = Some p1 /\ run_pool ops p1 = Some p'.
Proof.
  unfold run_pool. cbn. destruct (pool_step op p) as [p1|]; cbn.
  - split; [by exists p1|]. intros (? & [= <-] & ?). done.
  - split; [|by intros (? & ? & _)]. intros H. exfalso. induction ops as [|o ops IH]; [done|]. by apply IH.
Qed.

Lemma run_pool_ok ops pin p p' : pool_ok pin p -> run_pool ops p = Some p' -> exists pin', pool_ok pin' p'.
Proof.
  revert pin p. induction ops as [|op ops IH]; intros pin p Hok H; [injection H as <-; by exists pin|].
  apply run_pool_cons in H as (p1 & H1 & H2). destruct (pool_step_ok pin op p p1 Hok H1) as (pin' & Hok' & _). by apply (IH pin' p1).
Qed.

Lemma pool_cancelled_run ops pin caller ch p p' :
  pool_ok pin p -> pool_cancelled caller ch p -> run_pool ops p = Some p' -> pool_cancelled caller ch p'.
Proof.
  revert pin p. induction ops as [|op ops IH]; intros pin p Hok Hc H; [by injection H as <-|].
  apply run_pool_cons in H as (p1 & H1 & H2). destruct (pool_step_ok pin op p p1 Hok H1) as (pin' & Hok' & _).
  apply (IH pin' p1); [done| |done]. by apply (pool_cancelled_kept pin op caller ch p).
Qed.

Lemma not_handled_run ops ch p p' :
  pi_handlers p !! ch = None -> (ch < pi_next_slot p)%N -> ~ handling ch p -> run_pool ops p = Some p' ->
  exists later, pi_calls p' = pi_calls p ++ later /\ forall h b, (ch, h, b) ∉ later.
Proof.
  revert p. induction ops as [|op ops IH]; intros p Hn Hlt Hh H.
  { injection H as <-. exists []. rewrite app_nil_r. split; [done|]. intros h b. apply not_elem_of_nil. }
  apply run_pool_cons in H as (p1 & H1 & H2). destruct (pool_step_frame op p p1 ch H1 Hn Hlt) as (Hn' & Hlt' & Hcalls).
  destruct (IH p1 Hn' Hlt') as (later & Hl & Hlater); [intros H; by apply Hh, (pool_step_handling ch op p p1)|done|].
  destruct Hcalls as [E|(c & h & b & E & Hc)]; rewrite E in Hl; [by exists later|].
  exists ((c, h, b) :: later). rewrite Hl, <- app_assoc. split; [done|]. intros h' b' [[= <- <- <-]|H]%elem_of_cons; [done|by apply (Hlater h' b')].
Qed.

Lemma pool_start_ok p : pool_start = Ok p -> pool_ok ∅ p.
Proof.
  unfold pool_start. destruct (DriverOptions_validate options); [|done]. intros [= <-]. constructor; cbn; try done.
  - intros s g [H|H]; done.
  - intros w slot Hs. apply lookup_replicate_1 in Hs as [-> _]. split; [|done]. intros ch H. by apply not_elem_of_nil in H.
  - intros c ch w [H|H]; done.
Qed.

(** C19: Once a cancel of the pool has returned, the group's handler is never called
    again. In any interleaving of senders, cancels, registrations, workers and the
    shutdown, let a cancel come to the table of handlers from a thread that is not the
    worker's own: from any later point at which it has returned, no worker calls a
    handler for that channel, also not one that had drained its mail or selected it
    before. *)
Theorem cancelled_handler_is_never_called_again p0 ops0 p caller ch w p1 ops1 p2 ops2 p3 :
  pool_start = Ok p0 -> run_pool ops0 p0 = Some p ->
  pi_cancels p !! caller = Some (CRemoved ch w) ->
  pool_step (PCancelHandler caller false) p = Some p1 ->
  run_pool ops1 p1 = Some p2 -> pi_cancels p2 !! caller = Some (CReturned ch true) ->
  run_pool ops2 p2 = Some p3 ->
  exists later, pi_calls p3 = pi_calls p2 ++ later /\ forall h b, (ch, h, b) ∉ later.
Proof.
  intros H0 Hr0 Hc H1 Hr1 Hret Hr2. destruct (run_pool_ok ops0 ∅ p0 p (pool_start_ok p0 H0) Hr0) as [pin Hok].
  assert (pool_cancelled caller ch p1) as Hj.
  { pose proof (po_cancels pin p Hok caller ch w (or_introl Hc)) as Hp. pose proof (po_ids pin p Hok ch w Hp) as Hid.
    cbn in H1. rewrite Hc in H1. unfold cancel_handler in H1. set (q := p <| pi_handlers ::= delete ch |>) in H1.
    destruct (N.eqb_spec (in_flight w q) ch) as [Hf|Hf]; cbn in H1; injection H1 as <-; (split_and!; [by apply lookup_delete_eq|cbn; lia|]).
    - right. exists w. cbn. by rewrite lookup_insert_eq.
    - left. intros (w' & slot & h & bs & cs & Hs & He). cbn in Hs. destruct (channel_in_flight pin p w' slot ch h bs cs Hok Hs He) as [Hp' Hfl].
      rewrite Hp in Hp'. injection Hp' as <-. done. }
  destruct (pool_step_ok pin _ p p1 Hok H1) as (pin1 & Hok1 & _).
  destruct (pool_cancelled_run ops1 pin1 caller ch p1 p2 Hok1 Hj Hr1) as (Hn & Hlt & Hd).
  apply (not_handled_run ops2 ch p2 p3 Hn Hlt); [|done]. destruct Hd as [H|[w' Hw]]; [done|]. rewrite Hret in Hw. done.
Qed.

(** ** Batches by bytes *)

Definition bytes_of (size : M -> N) (batch : list M) : N := foldl (fun n mail => n +s size mail) 0%N batch.

Lemma split_on_budget_spec size budget batch batch_bytes mails :
  batch_bytes = bytes_of size batch -> (length batch = 1%nat \/ (batch_bytes <= budget)%N) ->
  let batches := split_on_budget size budget batch batch_bytes mails in
  mjoin batches = batch ++ mails
  /\ Forall (fun b => b <> [] /\ (length b = 1%nat \/ (bytes_of size b <= budget)%N)) batches.
Proof.
  assert (forall (b : list M) bs, mjoin (b :: bs) = b ++ mjoin bs) as Hj by done.
  cbv zeta. revert batch batch_bytes. induction mails as [|mail mails IH]; intros batch batch_bytes Hb Hl; cbn [split_on_budget].
  { rewrite app_nil_r. destruct batch as [|x batch]; cbn; [by split|]. rewrite app_nil_r. split; [done|].
    constructor; [|done]. split; [done|]. rewrite <- Hb. exact Hl. }
  assert (bytes_of size (batch ++ [mail]) = batch_bytes +s size mail) as Hsn by (unfold bytes_of in *; rewrite foldl_snoc, <- Hb; done).
  destruct batch as [|x batch].
  - destruct (IH [mail] (batch_bytes +s size mail)) as [I1 I2]; [by rewrite <- Hsn|by left|]. split; [exact I1|exact I2].
  - destruct (N.ltb_spec budget (batch_bytes +s size mail)) as [Ho|Ho].
    + destruct (IH [mail] (0 +s size mail)) as [I1 I2]; [done|by left|]. rewrite Hj, I1. split; [done|]. constructor; [|done].
      split; [done|]. rewrite <- Hb. exact Hl.
    + destruct (IH ((x :: batch) ++ [mail]) (batch_bytes +s size mail)) as [I1 I2]; [done|by right|]. rewrite I1, <- app_assoc. by split.
Qed.

(** The batches of a drain are its mail, in order; none is empty, and one that has
    several mails is within the budget, where there is one. *)
Theorem batches_keep_mail mails : mails <> [] ->
  mjoin (batches_of mails) = mails
  /\ Forall (fun b => b <> [] /\ forall size, mail_size = Some size ->
       length b = 1%nat \/ (bytes_of size b <= N.max (do_driver_batch_bytes options) 1)%N) (batches_of mails).
Proof.
  intros Hm. unfold batches_of. destruct mail_size as [size|].
  - destruct (split_on_budget_spec size (N.max (do_driver_batch_bytes options) 1) [] 0 mails) as [H1 H2]; [done|right; lia|].
    split; [done|]. eapply Forall_impl; [exact H2|]. intros b [Hb Hl]. split; [done|]. by intros size' [= <-].
  - cbn. rewrite app_nil_r. split; [done|]. constructor; [|done]. done.
Qed.
End pool.

(** ** Two runs *)

Definition two_workers : DriverOptions := mkDriverOptions 2 4 16 100 10.
Definition sample_key : DriverGroupKey := mkDriverGroupKey 1 1.
Definition sample_pool (mail_size : option (N -> N)) : PoolInner (M := N) :=
  match pool_start two_workers with Ok p => p | Err _ => mkPoolInner [] ∅ ∅ ∅ 1 false 0 0 0 0 ∅ ∅ [] end.

(** A group takes two mails, and its worker is handed them. *)
Definition busy_ops : list (PoolOp (M := N)) :=
  [PRegister sample_key 7; PSendLookup 1 sample_key; PSendManyQueue 1 sample_key Normal [60; 50]%N; PSendFire 1;
   PWorker 0; PWorker 0; PWorker 0].

(** A handler that cancels its own group is called again with the batches that are left
    of its drain. *)
Theorem self_cancel_leaves_batches :
  let size := Some (fun mail : N => mail) in
  let run ops := run_pool (fun _ => 0%N) size two_workers ops (sample_pool size) in
  exists p, run (busy_ops ++ [PWorker 0; PCancelRemove 5 sample_key; PCancelHandler 5 true; PWorker 0]) = Some p
    /\ pi_cancels p !! 5%N = Some (CReturned 1 true) /\ pi_calls p = [(1%N, 7%N, [60%N]); (1%N, 7%N, [50%N])].
Proof.
  intros size run. destruct (run _) as [p|] eqn:Hp; [|vm_compute in Hp; done]. exists p. vm_compute in Hp. injection Hp as <-.
  split_and!; vm_compute; reflexivity.
Qed.

(** The states of a run in which a cancel comes while the worker holds the group's mail. *)
Definition after (ops : list (PoolOp (M := N))) (p : PoolInner (M := N)) : PoolInner (M := N) :=
  default p (run_pool (fun _ => 0%N) None two_workers ops p).
Definition removed_pool : PoolInner (M := N) := after (busy_ops ++ [PCancelRemove 5 sample_key]) (sample_pool None).
Definition fenced_pool : PoolInner (M := N) := after [PCancelHandler 5 false] removed_pool.
Definition returned_pool : PoolInner (M := N) := after [PWorker 0; PWorker 0; PCancelReturns 5] fenced_pool.
Definition reused_pool : PoolInner (M := N) := after [PWorker 0; PRegister sample_key 8] returned_pool.

Lemma cancelled_handler_is_never_called_again_witness :
  in_flight 0 removed_pool = 1%N /\ in_flight 0 returned_pool = 0%N
  /\ exists later, pi_calls reused_pool = pi_calls returned_pool ++ later /\ forall h b, (1%N, h, b) ∉ later.
Proof.
  split; [vm_compute; reflexivity|]. split; [vm_compute; reflexivity|].
  apply (cancelled_handler_is_never_called_again (fun _ => 0%N) None two_workers (sample_pool None)
           (busy_ops ++ [PCancelRemove 5 sample_key]) removed_pool 5 1 0 fenced_pool
           [PWorker 0; PWorker 0; PCancelReturns 5] returned_pool [PWorker 0; PRegister sample_key 8] reused_pool);
    vm_compute; reflexivity.
Defined.
