(* ===== verification/Lease.v ===== *)
(** * Leader and follower leases with clocks

    [LeaderLease] and [FollowerLease] ([src/lease.rs]) are the lease pair of a host that
    keeps wall clocks. A follower that takes a lease item promises, until its own clock
    passes, to support nobody else, and confirms; a leader is in lease while a quorum of
    its voting peers has promised. The lease groups keep for themselves, counted in
    ticks, is in [Cluster.v].

    [lease_step] lets a leader, its followers and a network that delays, repeats and
    reorders messages interleave, over one clock. The theorems: the two computations of
    the quorum's expiry agree with its definition, and a leader in lease is backed by
    the running promises of a quorum. *)

From stdpp Require Import base strings pretty numbers sorting gmap fin_maps sets list.
From S2P Require Import Prelude Types Slice Cluster.

Definition INLINE_LEASE_ENDS : nat := 16.

Record LeasePeer := mkLeasePeer { lp_node_id : N; lp_role : ReplicaRole }.

Record LeaderLeaseStatus := mkLeaderLeaseStatus {
  lls_in_lease : bool;
  lls_lease_end_ms : option N;
  lls_quorum_size : nat;
  lls_voting_peer_count : nat;
  lls_reason : string
}.

Record PeerLeaseInfo := mkPeerLeaseInfo { pli_role : ReplicaRole; pli_max_send_epoch_ms : N; pli_lease_end_ms : option N }.
#[export] Instance eta_PeerLeaseInfo : Settable PeerLeaseInfo :=
  fun i => mkPeerLeaseInfo (pli_role i) (pli_max_send_epoch_ms i) (pli_lease_end_ms i).

Record LeaderLease := mkLeaderLease {
  ll_peer_id : N;
  ll_lease_duration_ms : N;
  ll_current_term : N;
  ll_peers : gmap N PeerLeaseInfo;
  ll_last_active_lease_end_ms : option N;
  ll_have_new_confirm : bool
}.
#[export] Instance eta_LeaderLease : Settable LeaderLease :=
  fun l => mkLeaderLease (ll_peer_id l) (ll_lease_duration_ms l) (ll_current_term l) (ll_peers l)
             (ll_last_active_lease_end_ms l) (ll_have_new_confirm l).

(** ** The leader's side *)

Definition leader_lease_new (peer_id lease_duration_ms : N) : LeaderLease :=
  mkLeaderLease peer_id lease_duration_ms 0 ∅ None false.

Definition leader_lease_reset (new_term : N) (l : LeaderLease) : LeaderLease :=
  l <| ll_current_term := new_term |> <| ll_have_new_confirm := false |>
    <| ll_peers ::= fmap (fun info => info <| pli_max_send_epoch_ms := 0%N |> <| pli_lease_end_ms := None |>) |>.

Definition need_reset_node_role (before after : ReplicaRole) : bool :=
  negb (bool_decide (before = after))
  && (negb (participates_in_quorum before) || negb (participates_in_quorum after))
  && (bool_decide (before = Learner) || bool_decide (after = Learner)).

Definition update_member (peers : gmap N PeerLeaseInfo) (peer : LeasePeer) : gmap N PeerLeaseInfo :=
  match peers !! lp_node_id peer with
  | Some info =>
      if need_reset_node_role (pli_role info) (lp_role peer)
      then <[lp_node_id peer := mkPeerLeaseInfo (lp_role peer) 0 None]> peers
      else <[lp_node_id peer := info <| pli_role := lp_role peer |>]> peers
  | None => <[lp_node_id peer := mkPeerLeaseInfo (lp_role peer) 0 None]> peers
  end.

Definition update_members (peers : list LeasePeer) (l : LeaderLease) : LeaderLease :=
  l <| ll_peers ::= (fun known =>
         filter (fun kv : N * PeerLeaseInfo => kv.1 ∈ (lp_node_id <$> peers)) (foldl update_member known peers)) |>.

Definition epoch_id_from_send_time (send_time_ms : N) : N := send_time_ms.

Definition on_recv_lease_confirm (term from epoch_id lease_duration_ms : N) (l : LeaderLease) : bool * LeaderLease :=
  if negb (term =? ll_current_term l)%N || (from =? ll_peer_id l)%N then (false, l)
  else match ll_peers l !! from with
  | None => (false, l)
  | Some info =>
      if (epoch_id <=? pli_max_send_epoch_ms info)%N then (false, l)
      else
        let info := info <| pli_max_send_epoch_ms := epoch_id |> in
        let new_end := epoch_id +s lease_duration_ms in
        let info := if match pli_lease_end_ms info with Some old => (old <? new_end)%N | None => true end
                    then info <| pli_lease_end_ms := Some new_end |> else info in
        (true, l <| ll_peers ::= <[from := info]> |> <| ll_have_new_confirm := true |>)
  end.

Definition peer_lease_end_ms (l : LeaderLease) (now_ms : N) (peer : N * PeerLeaseInfo) : N :=
  if (peer.1 =? ll_peer_id l)%N then now_ms +s ll_lease_duration_ms l else default 0%N (pli_lease_end_ms peer.2).

Definition voting_peers (l : LeaderLease) : list (N * PeerLeaseInfo) :=
  filter (fun peer : N * PeerLeaseInfo => participates_in_quorum (pli_role peer.2) = true) (bt_entries (ll_peers l)).

Definition valid_lease_end_ms_by_counting (l : LeaderLease) (now_ms : N) : option N :=
  let end_times := peer_lease_end_ms l now_ms <$> voting_peers l in
  let voting_peer_count := length (voting_peers l) in
  if bool_decide (voting_peer_count = 0%nat) then None
  else foldl (counting_step (voting_peer_count / 2 + 1) end_times) None end_times.

(** The array of the source has room for [INLINE_LEASE_ENDS] expiries. *)
Definition valid_lease_end_ms (l : LeaderLease) (now_ms : N) : option N :=
  let end_times := peer_lease_end_ms l now_ms <$> voting_peers l in
  let end_count := length end_times in
  if (INLINE_LEASE_ENDS <? end_count)%nat then valid_lease_end_ms_by_counting l now_ms
  else if bool_decide (end_count = 0%nat) then None
  else select_nth end_times (end_count - (end_count / 2 + 1)).

Definition maybe_renew_lease_point (now_ms : N) (l : LeaderLease) : bool * LeaderLease :=
  if (1 <? size (ll_peers l))%nat && negb (ll_have_new_confirm l) then (false, l)
  else (true, l <| ll_last_active_lease_end_ms := valid_lease_end_ms l now_ms |> <| ll_have_new_confirm := false |>).

Definition active (now_ms : N) (l : LeaderLease) : bool :=
  match ll_last_active_lease_end_ms l with Some lease_end => (now_ms <? lease_end)%N | None => false end.

Definition leader_in_lease (term now_ms : N) (l : LeaderLease) : bool * LeaderLease :=
  if negb (term =? ll_current_term l)%N then (false, l)
  else if active now_ms l then (true, l)
  else let '(renewed, l) := maybe_renew_lease_point now_ms l in
       if negb renewed then (false, l) else (active now_ms l, l).

Definition status_for_mismatched_term (l : LeaderLease) : LeaderLeaseStatus :=
  let voting_peer_count := length (voting_peers l) in
  mkLeaderLeaseStatus false None (voting_peer_count / 2 + 1) voting_peer_count "term_mismatch".
Definition status_with_reason (now_ms : N) (reason : string) (l : LeaderLease) : LeaderLeaseStatus :=
  let voting_peer_count := length (voting_peers l) in
  mkLeaderLeaseStatus (active now_ms l) (ll_last_active_lease_end_ms l) (voting_peer_count / 2 + 1) voting_peer_count reason.

Definition leader_lease_status (term now_ms : N) (l : LeaderLease) : LeaderLeaseStatus * LeaderLease :=
  if negb (term =? ll_current_term l)%N then (status_for_mismatched_term l, l)
  else if active now_ms l then (status_with_reason now_ms "active" l, l)
  else let '(renewed, l) := maybe_renew_lease_point now_ms l in
       (status_with_reason now_ms (if renewed then "renewed" else "insufficient_confirmations")%string l, l).

(** ** The follower's side *)

Record FollowerLease := mkFollowerLease {
  fl_peer_id : N;
  fl_lease_duration_ms : N;
  fl_current_term : N;
  fl_received_lease_end_ms : option N;
  fl_max_received_epoch_id : N
}.
#[export] Instance eta_FollowerLease : Settable FollowerLease :=
  fun f => mkFollowerLease (fl_peer_id f) (fl_lease_duration_ms f) (fl_current_term f) (fl_received_lease_end_ms f)
             (fl_max_received_epoch_id f).

Definition follower_lease_new (peer_id lease_duration_ms last_lease_duration_ms now_ms : N) : FollowerLease :=
  mkFollowerLease peer_id lease_duration_ms 0
    (if (0 <? last_lease_duration_ms)%N then Some (now_ms +s last_lease_duration_ms) else None) 0.

Definition follower_lease_reset (new_term : N) (f : FollowerLease) : FollowerLease :=
  f <| fl_current_term := new_term |> <| fl_max_received_epoch_id := 0%N |>.

Definition follower_in_lease (term now_ms : N) (f : FollowerLease) : bool :=
  if negb (term =? fl_current_term f)%N then false
  else match fl_received_lease_end_ms f with Some lease_end => (now_ms <? lease_end)%N | None => false end.

Definition on_recv_lease_item (term epoch_id now_ms : N) (f : FollowerLease) : bool * FollowerLease :=
  if negb (term =? fl_current_term f)%N then (false, f)
  else if (epoch_id <=? fl_max_received_epoch_id f)%N then (false, f)
  else (true, f <| fl_max_received_epoch_id := epoch_id |>
                <| fl_received_lease_end_ms := Some (now_ms +s fl_lease_duration_ms f) |>).

Definition max_met_epoch_id (term : N) (f : FollowerLease) : N :=
  if negb (term =? fl_current_term f)%N then 0%N else fl_max_received_epoch_id f.

(** ** The expiry of a quorum *)

Lemma majority_bounds (n : nat) : n <> 0%nat -> (0 < n / 2 + 1 <= n)%nat.
Proof. intros H. pose proof (Nat.div_mod_eq n 2). pose proof (Nat.mod_upper_bound n 2). lia. Qed.

(** The expiry of a lease is the latest time a majority of the voting peers has
    promised, the leader's own promise counted from now: there is one exactly when a
    peer votes, some peer has it, a majority reaches it and no later time is reached by
    one; and the counting loop for large groups answers what the selection for small
    ones does. *)
Theorem lease_expiry_is_quorum_promise l now :
  let ends := peer_lease_end_ms l now <$> voting_peers l in
  match valid_lease_end_ms l now with
  | Some t => quorum_index (length ends / 2 + 1) ends t
  | None => ends = []
  end
  /\ valid_lease_end_ms_by_counting l now = valid_lease_end_ms l now.
Proof.
  cbv zeta. unfold valid_lease_end_ms, valid_lease_end_ms_by_counting.
  rewrite <- (length_fmap (peer_lease_end_ms l now) (voting_peers l)).
  set (ends := peer_lease_end_ms l now <$> voting_peers l). case_bool_decide as H0.
  { apply length_zero_iff_nil in H0. rewrite H0. done. }
  destruct (select_nth_quorum_index _ ends (majority_bounds _ H0)) as (i & -> & Hi).
  destruct (counting_quorum_index _ ends (majority_bounds _ H0)) as (j & -> & Hj).
  assert (j = i) as -> by (destruct Hi as (_ & Hi & Hi'), Hj as (_ & Hj & Hj'); specialize (Hi' j Hj); specialize (Hj' i Hi); lia).
  by destruct (_ <? _)%nat.
Qed.

(** ** A leader, its followers and the network *)

Record LeaseConfirm := mkLeaseConfirm { lc_term : N; lc_from : N; lc_epoch : N; lc_duration : N }.

Record LeaseWorld := mkLeaseWorld {
  lw_clock : N;
  lw_leader : LeaderLease;
  lw_followers : gmap N FollowerLease;
  lw_items : list (N * N);         (* the lease items sent: term and epoch *)
  lw_confirms : list LeaseConfirm
}.
#[export] Instance eta_LeaseWorld : Settable LeaseWorld :=
  fun w => mkLeaseWorld (lw_clock w) (lw_leader w) (lw_followers w) (lw_items w) (lw_confirms w).

Inductive LeaseOp :=
  | LAdvance (elapsed_ms : N)
  | LReset (new_term : N)
  | LSend
  | LQuery (term : N)
  | LConfirm (message : nat)
  | LReceive (follower : N) (message : nat)
  | LFollowerReset (follower new_term : N)
  | LRestart (follower lease_duration_ms : N).

(** A message stays in the network: it may be late, lost, or delivered twice. *)
Definition lease_step (op : LeaseOp) (w : LeaseWorld) : option LeaseWorld :=
  match op with
  | LAdvance elapsed_ms => Some (w <| lw_clock ::= N.add elapsed_ms |>)
  | LReset new_term => Some (w <| lw_leader ::= leader_lease_reset new_term |>)
  | LSend => Some (w <| lw_items ::= cons (ll_current_term (lw_leader w), epoch_id_from_send_time (lw_clock w)) |>)
  | LQuery term => Some (w <| lw_leader := (leader_in_lease term (lw_clock w) (lw_leader w)).2 |>)
  | LConfirm message =>
      c ← lw_confirms w !! message;
      Some (w <| lw_leader := (on_recv_lease_confirm (lc_term c) (lc_from c) (lc_epoch c) (lc_duration c) (lw_leader w)).2 |>)
  | LReceive follower message =>
      f ← lw_followers w !! follower; item ← lw_items w !! message;
      let '(taken, f') := on_recv_lease_item item.1 item.2 (lw_clock w) f in
      Some (if taken : bool
            then w <| lw_followers ::= <[follower := f']> |>
                   <| lw_confirms ::= cons (mkLeaseConfirm item.1 follower item.2 (fl_lease_duration_ms f)) |>
            else w)
  | LFollowerReset follower new_term => Some (w <| lw_followers ::= alter (follower_lease_reset new_term) follower |>)
  | LRestart follower lease_duration_ms =>
      f ← lw_followers w !! follower;
      Some (w <| lw_followers ::= <[follower := follower_lease_new follower lease_duration_ms (fl_lease_duration_ms f) (lw_clock w)]> |>)
  end.

Definition run_leases (ops : list LeaseOp) (w : LeaseWorld) : option LeaseWorld :=
  foldl (fun acc op => w ← acc; lease_step op w) (Some w) ops.

(** A group whose members have just started, each with the duration it had before. *)
Definition lease_world (leader duration now : N) (peers : list LeasePeer) : LeaseWorld :=
  mkLeaseWorld now (update_members peers (leader_lease_new leader duration))
    (list_to_map ((fun p => (lp_node_id p, follower_lease_new (lp_node_id p) duration duration now)) <$> peers)) [] [].

Definition three_voters : list LeasePeer := [mkLeasePeer 1 Voter; mkLeasePeer 2 Voter; mkLeasePeer 3 Voter].

Definition follower_promises (w : LeaseWorld) (q : N) : bool :=
  match lw_followers w !! q with Some f => follower_in_lease (fl_current_term f) (lw_clock w) f | None => false end.

(** A follower that restarts with a shorter lease duration overwrites, with the next
    item it takes, a longer promise the leader still counts on. *)
Theorem shorter_duration_rewinds_a_promise :
  let ops := [LAdvance 500; LReset 1; LFollowerReset 2 1; LSend; LReceive 2 0; LConfirm 0; LQuery 1;
              LRestart 2 30; LFollowerReset 2 1; LAdvance 1; LSend; LReceive 2 0; LAdvance 50] in
  exists w, run_leases ops (lease_world 1 100 0 three_voters) = Some w
    /\ (leader_in_lease 1 (lw_clock w) (lw_leader w)).1 = true
    /\ follower_promises w 2 = false /\ follower_promises w 3 = false.
Proof.
  intros ops. destruct (run_leases ops _) as [w|] eqn:Hw; [|vm_compute in Hw; done].
  exists w. vm_compute in Hw. injection Hw as <-. split_and!; vm_compute; reflexivity.
Qed.

(** ** What a run keeps *)

Definition end_of (w : LeaseWorld) (q : N) : option N := f ← lw_followers w !! q; fl_received_lease_end_ms f.

(** The peer will support nobody else before [t]; a leader supports itself. *)
Definition promised (w : LeaseWorld) (t q : N) : Prop :=
  q = ll_peer_id (lw_leader w) \/ t = 0%N \/ exists e, end_of w q = Some e /\ (t <= e)%N.

Definition voter_set (l : LeaderLease) : gset N :=
  dom (filter (fun kv : N * PeerLeaseInfo => participates_in_quorum (pli_role kv.2) = true) (ll_peers l)).

Definition backed (w : LeaseWorld) (t : N) : Prop :=
  exists Q : gset N, Q ⊆ voter_set (lw_leader w) /\ (size (voter_set (lw_leader w)) / 2 < size Q)%nat /\ set_Forall (promised w t) Q.

Lemma elem_of_voter_set q l :
  q ∈ voter_set l <-> exists info, ll_peers l !! q = Some info /\ participates_in_quorum (pli_role info) = true.
Proof.
  unfold voter_set. rewrite elem_of_dom. split.
  - intros [info H]. apply map_lookup_filter_Some in H. by exists info.
  - intros (info & H). exists info. by apply map_lookup_filter_Some.
Qed.

Lemma voting_peers_spec l q info :
  (q, info) ∈ voting_peers l <-> ll_peers l !! q = Some info /\ participates_in_quorum (pli_role info) = true.
Proof. unfold voting_peers. rewrite list_elem_of_filter, elem_of_bt_entries. cbn. tauto. Qed.

Lemma voting_peers_NoDup l : NoDup (voting_peers l).*1.
Proof.
  unfold voting_peers. eapply sublist_NoDup; [|apply fmap_sublist, sublist_filter]. apply NoDup_bt_keys.
Qed.

Lemma voter_set_voting_peers l : voter_set l = list_to_set (voting_peers l).*1.
Proof.
  apply set_eq. intros q. rewrite elem_of_voter_set, elem_of_list_to_set, list_elem_of_fmap. split.
  - intros (info & H). exists (q, info). split; [done|]. by apply voting_peers_spec.
  - intros ([q' info] & -> & H). exists info. by apply voting_peers_spec.
Qed.

Lemma voter_set_size l : size (voter_set l) = length (voting_peers l).
Proof. rewrite voter_set_voting_peers, size_list_to_set by apply voting_peers_NoDup. by rewrite length_fmap. Qed.

(** Ends and voters only grow. *)
Record extends (w w' : LeaseWorld) : Prop := mk_extends {
  ex_peer : ll_peer_id (lw_leader w') = ll_peer_id (lw_leader w);
  ex_voters : voter_set (lw_leader w') = voter_set (lw_leader w);
  ex_ends : forall q e, end_of w q = Some e -> exists e', end_of w' q = Some e' /\ (e <= e')%N
}.

Lemma promised_extends w w' t q : extends w w' -> promised w t q -> promised w' t q.
Proof.
  intros [H1 H2 H3] [->|[->|(e & He & Ht)]]; [by left|by right; left|]. right. right.
  destruct (H3 q e He) as (e' & He' & Hle). exists e'. split; [done|lia].
Qed.

Lemma backed_extends w w' t : extends w w' -> backed w t -> backed w' t.
Proof.
  intros H (Q & H1 & H2 & H3). exists Q. rewrite (ex_voters _ _ H). split_and!; [done|done|].
  intros q Hq. by apply (promised_extends w), H3.
Qed.

Record lease_inv (D : N) (w : LeaseWorld) : Prop := mk_lease_inv {
  li_followers : forall q f, lw_followers w !! q = Some f -> fl_lease_duration_ms f = D
    /\ forall e, fl_received_lease_end_ms f = Some e -> (e <= lw_clock w +s D)%N;
  li_items : forall it, it ∈ lw_items w -> (it.2 <= lw_clock w)%N;
  li_confirms : forall c, c ∈ lw_confirms w -> lc_duration c = D /\ promised w (lc_epoch c +s D) (lc_from c);
  li_peers : forall q info t, ll_peers (lw_leader w) !! q = Some info -> pli_lease_end_ms info = Some t -> promised w t q;
  li_active : forall t, ll_last_active_lease_end_ms (lw_leader w) = Some t -> backed w t
}.

(** The expiry a renewal computes is backed by the promises the leader knows. *)
Lemma valid_lease_end_backed D w t :
  lease_inv D w -> valid_lease_end_ms (lw_leader w) (lw_clock w) = Some t -> backed w t.
Proof.
  intros Hi Ht. pose proof (proj1 (lease_expiry_is_quorum_promise (lw_leader w) (lw_clock w))) as H. cbv zeta in H.
  rewrite Ht in H. destruct H as (_ & Hq & _). unfold holders in Hq. rewrite filter_fmap_length, length_fmap in Hq.
  set (vp := voting_peers (lw_leader w)) in *.
  set (sel := filter (fun p => (t <= peer_lease_end_ms (lw_leader w) (lw_clock w) p)%N) vp) in *.
  assert (NoDup sel.*1) as Hnd by (eapply sublist_NoDup; [apply (voting_peers_NoDup (lw_leader w))|apply fmap_sublist, sublist_filter]).
  exists (list_to_set sel.*1). split_and!.
  - rewrite voter_set_voting_peers. intros q. rewrite !elem_of_list_to_set, !list_elem_of_fmap.
    intros (p & -> & [_ Hp]%list_elem_of_filter). by exists p.
  - rewrite size_list_to_set by done. rewrite voter_set_size, length_fmap. fold vp. lia.
  - intros q. rewrite elem_of_list_to_set, list_elem_of_fmap. intros ([q' info] & -> & [Hle Hp]%list_elem_of_filter).
    apply voting_peers_spec in Hp as [Hp _]. unfold peer_lease_end_ms in Hle. cbn in Hle |- *.
    destruct (N.eqb_spec q' (ll_peer_id (lw_leader w))) as [->|Hne]; [by left|].
    destruct (pli_lease_end_ms info) as [x|] eqn:Hx; cbn in Hle; [|right; left; lia].
    destruct (li_peers D w Hi q' info x Hp Hx) as [?|[->|(e & He & Hxe)]]; [done|right; left; lia|].
    right. right. exists e. split; [done|lia].
Qed.

Lemma extends_same_followers w w' :
  lw_followers w' = lw_followers w -> ll_peer_id (lw_leader w') = ll_peer_id (lw_leader w) ->
  voter_set (lw_leader w') = voter_set (lw_leader w) -> extends w w'.
Proof. intros Hf Hp Hv. constructor; [done|done|]. intros q e He. exists e. unfold end_of in *. rewrite Hf. by split. Qed.

(** The roles of the peers decide who votes. *)
Lemma voter_set_roles l l' : pli_role <$> ll_peers l' = pli_role <$> ll_peers l -> voter_set l' = voter_set l.
Proof.
  intros H. apply set_eq. intros q. rewrite !elem_of_voter_set.
  assert (pli_role <$> ll_peers l' !! q = pli_role <$> ll_peers l !! q) as E by (rewrite <- !lookup_fmap; by rewrite H).
  destruct (ll_peers l' !! q) as [i'|], (ll_peers l !! q) as [i|]; cbn in E; simplify_eq; [|naive_solver].
  split; intros (info & [= <-] & Hr); eexists; (split; [done|]); congruence.
Qed.

(** A step that leaves the followers and the network alone. *)
Lemma leader_step_inv D w l' :
  lease_inv D w -> ll_peer_id l' = ll_peer_id (lw_leader w) -> voter_set l' = voter_set (lw_leader w) ->
  (forall q info t, ll_peers l' !! q = Some info -> pli_lease_end_ms info = Some t -> promised w t q) ->
  (forall t, ll_last_active_lease_end_ms l' = Some t -> backed w t) ->
  lease_inv D (w <| lw_leader := l' |>).
Proof.
  intros [H1 H2 H3 H4 H5] Hp Hv Hpe Ha. set (w' := w <| lw_leader := l' |>).
  assert (extends w w') as Hx by (by apply extends_same_followers). constructor; [exact H1|exact H2| | |].
  - intros c Hc. destruct (H3 c Hc) as [Hd Hpr]. split; [done|]. by apply (promised_extends w).
  - intros q info t Hq Ht. apply (promised_extends w); [done|]. by apply (Hpe q info).
  - intros t Ht. apply (backed_extends w); [done|]. by apply Ha.
Qed.

(** A step that replaces a follower by one that promises at least as long. *)
Lemma follower_step_inv D w q f f' :
  lease_inv D w -> lw_followers w !! q = Some f -> fl_lease_duration_ms f' = D ->
  (forall e, fl_received_lease_end_ms f' = Some e -> (e <= lw_clock w +s D)%N) ->
  (forall e, fl_received_lease_end_ms f = Some e -> exists e', fl_received_lease_end_ms f' = Some e' /\ (e <= e')%N) ->
  lease_inv D (w <| lw_followers ::= <[q := f']> |>) /\ extends w (w <| lw_followers ::= <[q := f']> |>).
Proof.
  intros [H1 H2 H3 H4 H5] Hf Hd Hb Hm. set (w' := w <| lw_followers ::= _ |>).
  assert (extends w w') as Hx.
  { constructor; [done|done|]. intros x e He. unfold end_of, w' in *. cbn. destruct (decide (q = x)) as [->|Hne].
    - rewrite lookup_insert_eq. cbn. apply Hm. by rewrite Hf in He.
    - rewrite lookup_insert_ne by done. exists e. by split. }
  split; [|done]. constructor; [|exact H2| | |].
  - intros x g Hg. cbn in Hg. destruct (decide (q = x)) as [->|Hne].
    + rewrite lookup_insert_eq in Hg. injection Hg as <-. by split.
    + rewrite lookup_insert_ne in Hg by done. by apply (H1 x).
  - intros c Hc. destruct (H3 c Hc). split; [done|]. by apply (promised_extends w).
  - intros x info t Hq Ht. apply (promised_extends w); [done|]. by apply (H4 x info).
  - intros t Ht. apply (backed_extends w); [done|]. by apply H5.
Qed.

Lemma saturating_add_mono a b c : (a <= b)%N -> (a +s c <= b +s c)%N.
Proof. unfold saturating_add. lia. Qed.

Lemma receive_inv D w q f item :
  lease_inv D w -> (0 < D)%N -> lw_followers w !! q = Some f -> item ∈ lw_items w ->
  (on_recv_lease_item item.1 item.2 (lw_clock w) f).1 = true ->
  lease_inv D (w <| lw_followers ::= <[q := (on_recv_lease_item item.1 item.2 (lw_clock w) f).2]> |>
                 <| lw_confirms ::= cons (mkLeaseConfirm item.1 q item.2 (fl_lease_duration_ms f)) |>).
Proof.
  intros Hi HD Hf Hin. destruct (li_followers D w Hi q f Hf) as [Hd Hb]. pose proof (li_items D w Hi item Hin) as Hit.
  unfold on_recv_lease_item. destruct (negb _); [done|]. destruct (_ <=? _)%N; [done|]. cbn [fst snd]. intros _.
  set (f' := f <| fl_max_received_epoch_id := _ |> <| fl_received_lease_end_ms := _ |>).
  assert (fl_received_lease_end_ms f' = Some (lw_clock w +s D)) as Hf' by (unfold f'; cbn; by rewrite Hd).
  destruct (follower_step_inv D w q f f' Hi Hf Hd) as [[G1 G2 G3 G4 G5] Hx].
  { intros e He. rewrite Hf' in He. injection He as <-. done. }
  { intros e He. exists (lw_clock w +s D). split; [done|by apply Hb]. }
  constructor; [exact G1|exact G2| |exact G4|exact G5].
  intros c [->|Hc]%elem_of_cons; [|by apply G3]. cbn. split; [done|]. right. right. exists (lw_clock w +s D).
  unfold end_of. cbn. rewrite lookup_insert_eq. split; [done|by apply saturating_add_mono].
Qed.

Lemma reset_inv D w term : lease_inv D w -> lease_inv D (w <| lw_leader ::= leader_lease_reset term |>).
Proof.
  intros Hi. apply (leader_step_inv D w); [done|done| | |exact (li_active D w Hi)].
  - apply voter_set_roles. cbn. rewrite <- map_fmap_compose. apply map_fmap_ext. done.
  - intros q info t. cbn. rewrite lookup_fmap. destruct (ll_peers _ !! q); [|done]. cbn. by intros [= <-].
Qed.

Lemma query_inv D w term : lease_inv D w -> lease_inv D (w <| lw_leader := (leader_in_lease term (lw_clock w) (lw_leader w)).2 |>).
Proof.
  intros Hi. assert (lease_inv D (w <| lw_leader := lw_leader w |>)) as Hsame by (by destruct w).
  unfold leader_in_lease. destruct (negb _); [exact Hsame|]. destruct (active _ _); [exact Hsame|].
  unfold maybe_renew_lease_point. destruct (_ && _); [exact Hsame|]. cbn [negb snd].
  apply (leader_step_inv D w); [done|done|done|exact (li_peers D w Hi)|]. cbn. intros t. by apply valid_lease_end_backed with (D := D).
Qed.

Lemma confirm_inv D w c :
  lease_inv D w -> c ∈ lw_confirms w ->
  lease_inv D (w <| lw_leader := (on_recv_lease_confirm (lc_term c) (lc_from c) (lc_epoch c) (lc_duration c) (lw_leader w)).2 |>).
Proof.
  intros Hi Hc. assert (lease_inv D (w <| lw_leader := lw_leader w |>)) as Hsame by (by destruct w).
  unfold on_recv_lease_confirm. destruct (_ || _); [exact Hsame|]. destruct (ll_peers _ !! lc_from c) as [info|] eqn:Hinfo; [|exact Hsame].
  destruct (_ <=? _)%N; [exact Hsame|]. cbn [snd]. cbn zeta. destruct (li_confirms D w Hi c Hc) as [-> Hp].
  apply (leader_step_inv D w); [done|done| | |exact (li_active D w Hi)].
  - apply voter_set_roles. cbn. rewrite fmap_insert. apply insert_id. rewrite lookup_fmap, Hinfo. cbn.
    f_equal. by destruct (pli_lease_end_ms info) as [old|]; [destruct (old <? _)%N|].
  - intros q info' t. cbn. rewrite lookup_insert_Some. intros [[<- <-]|[_ Hq]] Ht; [|by apply (li_peers D w Hi q info')].
    destruct (pli_lease_end_ms info) as [old|] eqn:Hold; [destruct (old <? lc_epoch c +s D)%N|]; cbn in Ht.
    + injection Ht as <-. exact Hp.
    + apply (li_peers D w Hi (lc_from c) info t Hinfo). congruence.
    + injection Ht as <-. exact Hp.
Qed.

Lemma advance_inv D w ms : lease_inv D w -> lease_inv D (w <| lw_clock ::= N.add ms |>).
Proof.
  intros Hi. set (w' := w <| lw_clock ::= _ |>). destruct Hi as [H1 H2 H3 H4 H5]. constructor; [| |exact H3|exact H4|exact H5].
  - intros q f Hf. destruct (H1 q f Hf) as [Hd He]. split; [done|]. intros e Hee. etrans; [by apply He|]. apply saturating_add_mono. cbn. lia.
  - intros it Hit. etrans; [by apply H2|]. cbn. lia.
Qed.

(** No restart changes the duration. *)
Definition keeps_duration (D : N) (op : LeaseOp) : bool :=
  match op with LRestart _ duration => (duration =? D)%N | _ => true end.

Lemma lease_step_inv D op w w' :
  lease_inv D w -> (0 < D)%N -> keeps_duration D op = true -> lease_step op w = Some w' -> lease_inv D w'.
Proof.
  intros Hi HD Hk. destruct op; cbn.
  - intros [= <-]. by apply advance_inv.
  - intros [= <-]. by apply reset_inv.
  - intros [= <-]. destruct Hi as [H1 H2 H3 H4 H5]. constructor; [exact H1| |exact H3|exact H4|exact H5].
    intros it [->|Hit]%elem_of_cons; [cbn; unfold epoch_id_from_send_time; lia|by apply H2].
  - intros [= <-]. by apply query_inv.
  - destruct (lw_confirms w !! message) as [c|] eqn:Hc; [|done]. cbn. intros [= <-]. apply confirm_inv; [done|]. by eapply list_elem_of_lookup_2.
  - destruct (lw_followers w !! follower) as [f|] eqn:Hf; [|done]. cbn. destruct (lw_items w !! message) as [item|] eqn:Hit; [|done]. cbn.
    pose proof (receive_inv D w follower f item Hi HD Hf (list_elem_of_lookup_2 _ _ _ Hit)) as H.
    destruct (on_recv_lease_item _ _ _ f) as [[] f']; intros [= <-]; [by apply H|done].
  - intros [= <-]. destruct (lw_followers w !! follower) as [f|] eqn:Hf.
    + destruct (li_followers D w Hi follower f Hf) as [Hd Hb].
      destruct (follower_step_inv D w follower f (follower_lease_reset new_term f) Hi Hf Hd) as [H _]; [exact Hb|intros e He; by exists e|].
      enough (alter (follower_lease_reset new_term) follower (lw_followers w) = <[follower := follower_lease_reset new_term f]> (lw_followers w)) as E
        by (destruct w; cbn in *; by rewrite E).
      apply map_eq. intros i. destruct (decide (follower = i)) as [<-|Hne]; [by rewrite lookup_alter_eq, lookup_insert_eq, Hf|].
      by rewrite lookup_alter_ne, lookup_insert_ne.
    + enough (alter (follower_lease_reset new_term) follower (lw_followers w) = lw_followers w) as E by (destruct w; cbn in *; by rewrite E).
      apply map_eq. intros i. destruct (decide (follower = i)) as [<-|Hne]; [by rewrite lookup_alter_eq, Hf|by rewrite lookup_alter_ne].
  - destruct (lw_followers w !! follower) as [f|] eqn:Hf; [|done]. cbn. intros [= <-]. destruct (li_followers D w Hi follower f Hf) as [Hd Hb].
    cbn in Hk. apply N.eqb_eq in Hk as ->. rewrite Hd.
    apply (follower_step_inv D w follower f); [done|done|done| |]; cbn; rewrite (proj2 (N.ltb_lt 0 D) HD).
    + by intros e [= <-].
    + intros e He. exists (lw_clock w +s D). split; [done|by apply Hb].
Qed.

Lemma update_members_fresh peers known :
  map_Forall (fun _ info => pli_lease_end_ms info = None) known ->
  map_Forall (fun _ info => pli_lease_end_ms info = None) (foldl update_member known peers).
Proof.
  revert known. induction peers as [|p peers IH]; intros known Hk; [done|]. cbn. apply IH. unfold update_member.
  destruct (known !! lp_node_id p) as [info|] eqn:Hp; [|by apply map_Forall_insert_2].
  destruct (need_reset_node_role _ _); apply map_Forall_insert_2; try done. exact (Hk _ _ Hp).
Qed.

Lemma lease_world_inv leader D now peers : (0 < D)%N -> lease_inv D (lease_world leader D now peers).
Proof.
  intros HD. constructor; cbn.
  - intros q f Hf. apply elem_of_list_to_map_2 in Hf. apply list_elem_of_fmap in Hf as (p & [= -> ->] & _). cbn.
    rewrite (proj2 (N.ltb_lt 0 D) HD). split; [done|]. by intros e [= <-].
  - by intros it Hit%not_elem_of_nil.
  - by intros c Hc%not_elem_of_nil.
  - intros q info t Hq Ht. apply map_lookup_filter_Some in Hq as [Hq _].
    rewrite (update_members_fresh peers ∅ (map_Forall_empty _) q info Hq) in Ht. done.
  - done.
Qed.

Lemma run_leases_inv D ops w w' :
  lease_inv D w -> (0 < D)%N -> forallb (keeps_duration D) ops = true -> run_leases ops w = Some w' -> lease_inv D w'.
Proof.
  intros Hi HD. revert w'. unfold run_leases. induction ops as [|op ops IH] using rev_ind; intros w' Hk; [by intros [= <-]|].
  rewrite forallb_app in Hk. cbn in Hk. apply andb_true_iff in Hk as [Hk Hop]. rewrite andb_true_r in Hop. rewrite foldl_snoc.
  destruct (foldl _ _ ops) as [w1|]; [|done]. cbn. intros Hs. by apply (lease_step_inv D op w1); [apply IH|..].
Qed.

(** C15: A leader in lease is backed by a quorum of promises that are still running,
    as long as the members read one clock, the peers stay the same and nobody changes
    the lease duration. However the clock, lease items, confirmations, changes of term
    and restarts with the same duration interleave, with messages delayed, lost,
    repeated and reordered: whenever [in_lease] answers yes, a majority of the voting
    peers are the leader itself or followers that are in a lease at that moment,
    whatever term they are in. [shorter_duration_rewinds_a_promise] shows that a
    restart with a shorter duration can break it. *)
Theorem leader_lease_is_backed_by_promises leader duration start peers ops w term :
  (0 < duration)%N -> forallb (keeps_duration duration) ops = true ->
  run_leases ops (lease_world leader duration start peers) = Some w ->
  (leader_in_lease term (lw_clock w) (lw_leader w)).1 = true ->
  exists Q : gset N, Q ⊆ voter_set (lw_leader w) /\ (size (voter_set (lw_leader w)) / 2 < size Q)%nat
    /\ forall q, q ∈ Q -> q = ll_peer_id (lw_leader w) \/ follower_promises w q = true.
Proof.
  intros HD Hk Hr Hin. pose proof (run_leases_inv _ _ _ _ (lease_world_inv leader duration start peers HD) HD Hk Hr) as Hi.
  assert (exists t, (lw_clock w < t)%N /\ backed w t) as (t & Ht & Q & H1 & H2 & H3).
  { unfold leader_in_lease in *. destruct (negb _); [done|].
    destruct (active (lw_clock w) (lw_leader w)) eqn:Ha.
    - unfold active in Ha. destruct (ll_last_active_lease_end_ms _) as [t|] eqn:Hl; [|done]. exists t.
      split; [by apply N.ltb_lt|by apply (li_active _ _ Hi)].
    - unfold maybe_renew_lease_point in Hin. destruct (_ && _); [done|]. cbn in Hin. unfold active in Hin. cbn in Hin.
      destruct (valid_lease_end_ms _ _) as [t|] eqn:Hv; [|done]. exists t.
      split; [by apply N.ltb_lt|by apply valid_lease_end_backed with (D := duration)]. }
  exists Q. split_and!; [done|done|]. intros q Hq. destruct (H3 q Hq) as [->|[->|(e & He & Hle)]].
  - by left.
  - lia.
  - right. unfold follower_promises. unfold end_of in He. destruct (lw_followers w !! q) as [f|]; [|done]. cbn in He.
    unfold follower_in_lease. rewrite N.eqb_refl. cbn. rewrite He. apply N.ltb_lt. lia.
Qed.

Lemma leader_lease_is_backed_by_promises_witness :
  let ops := [LAdvance 500; LReset 1; LFollowerReset 2 1; LFollowerReset 3 1; LSend; LAdvance 5; LReceive 2 0; LConfirm 0;
              LAdvance 20; LRestart 3 100; LQuery 1; LReset 2; LAdvance 60] in
  exists w, run_leases ops (lease_world 1 100 0 three_voters) = Some w
    /\ exists Q : gset N, (1 < size Q)%nat /\ forall q, q ∈ Q -> q = ll_peer_id (lw_leader w) \/ follower_promises w q = true.
Proof.
  intros ops. destruct (run_leases ops (lease_world 1 100 0 three_voters)) as [w|] eqn:Hw; [|vm_compute in Hw; discriminate].
  exists w. split; [reflexivity|].
  destruct (leader_lease_is_backed_by_promises 1 100 0 three_voters ops w 2) as (Q & _ & Hs & HQ); [lia|reflexivity|exact Hw| |].
  - vm_compute in Hw. injection Hw as <-. vm_compute. reflexivity.
  - exists Q. split; [|exact HQ]. vm_compute in Hw. injection Hw as <-. vm_compute in Hs. exact Hs.
Defined.
