(* ===== verification/Fsm.v ===== *)
(** * State machines: apply, replay, checkpoints and hooks

    [src/fsm.rs]. The state machine itself belongs to the host: the trait
    [RaftStateMachine] is a class, with the laws a checkpoint relies on in a second
    one. [FsmAdapter] wraps a state machine and remembers which log ids it has applied,
    so that a replayed log is not applied twice. [MatrixRaftFsmIterator] and
    [flexible_apply] hand a batch of mixed entries to a state machine, inside a batch
    of the store. [MatrixRaftFsmRuntimeBinding] turns the statuses a node reports into
    calls of the hooks of a state machine.

    The theorems: however entries are applied, replayed and batched, no index is
    applied twice; a checkpoint installed elsewhere goes on as the original would; the
    hooks are called in pairs. *)

From stdpp Require Import base strings pretty numbers sorting gmap fin_maps sets list.
From S2P Require Import Prelude Types.

(** ** The traits of the host *)

Record RaftApplyRequest := mkRaftApplyRequest { arq_group_id : N; arq_log_id : LogId; arq_payload : Payload }.
Record RaftApplyResponse (R : Type) := mkRaftApplyResponse { arp_applied_index : N; arp_response : R }.
Arguments mkRaftApplyResponse {R} _ _.
Arguments arp_applied_index {R} _.
Arguments arp_response {R} _.

(** [RaftApply] and [RaftStateMachine], and [Default] of the response. *)
Class RaftStateMachine (S R Snap : Type) := {
  sm_apply : RaftApplyRequest -> ST RaftError S (RaftApplyResponse R);
  sm_snapshot : N -> S -> result RaftError Snap;
  sm_install_snapshot : Snap -> ST RaftError S unit;
  response_default : R
}.

(** What a checkpoint relies on: states are compared by an equivalence that no apply
    and no snapshot can tell, and an installed snapshot is the state it was taken of. *)
Class StateMachineLaws (S R Snap : Type) `{RaftStateMachine S R Snap} (E : relation S) := {
  sm_equivalence :: Equivalence E;
  sm_apply_proper request s s' : E s s' ->
    (sm_apply request s).1 = (sm_apply request s').1 /\ E (sm_apply request s).2 (sm_apply request s').2;
  sm_install_restores g s snap s' : sm_snapshot g s = Ok snap ->
    (sm_install_snapshot snap s').1 = Ok tt /\ E (sm_install_snapshot snap s').2 s
}.

(** ** The adapter *)

Inductive FsmApplyEntryKind := KindData | KindNoOp.
Definition matrixraft_fsm_entry_kind (entry : LogEntry) : FsmApplyEntryKind := if is_command entry then KindData else KindNoOp.

Record FsmReplayReport := mkFsmReplayReport {
  frr_attempted : N; frr_applied : N; frr_skipped_replay : N; frr_last_applied : N; frr_idempotent : bool }.
#[export] Instance eta_FsmReplayReport : Settable FsmReplayReport :=
  fun r => mkFsmReplayReport (frr_attempted r) (frr_applied r) (frr_skipped_replay r) (frr_last_applied r) (frr_idempotent r).

Record FsmBatchApplyReport := mkFsmBatchApplyReport {
  fbr_attempted : N; fbr_applied : N; fbr_skipped_noop : N; fbr_skipped_replay : N; fbr_deferred : N;
  fbr_first_log_id : option LogId; fbr_last_log_id : option LogId; fbr_applied_through : N; fbr_next_index : N;
  fbr_hit_batch_limit : bool }.
#[export] Instance eta_FsmBatchApplyReport : Settable FsmBatchApplyReport :=
  fun r => mkFsmBatchApplyReport (fbr_attempted r) (fbr_applied r) (fbr_skipped_noop r) (fbr_skipped_replay r)
    (fbr_deferred r) (fbr_first_log_id r) (fbr_last_log_id r) (fbr_applied_through r) (fbr_next_index r) (fbr_hit_batch_limit r).

Section adapter.
Context {S R Snap : Type} `{SM : !RaftStateMachine S R Snap}.

Record FsmApplyOutcome := mkFsmApplyOutcome {
  fao_response : RaftApplyResponse R; fao_applied : bool; fao_replayed : bool; fao_reason : string }.

Record FsmCheckpoint := mkFsmCheckpoint {
  fcp_group_id : N; fcp_last_applied : N; fcp_applied_log_ids : list LogId; fcp_snapshot : Snap }.

Record FsmAdapter := mkFsmAdapter {
  fa_group_id : N;
  fa_state_machine : S;
  fa_applied : gmap N N;
  fa_responses : gmap N (RaftApplyResponse R);
  fa_last_applied : N
}.
#[export] Instance eta_FsmAdapter : Settable FsmAdapter :=
  fun a => mkFsmAdapter (fa_group_id a) (fa_state_machine a) (fa_applied a) (fa_responses a) (fa_last_applied a).

Definition adapter_new (group_id : N) (state_machine : S) : FsmAdapter := mkFsmAdapter group_id state_machine ∅ ∅ 0.

Definition replay_conflict (index term replay_term : N) : RaftError :=
  InvalidRequest ("FSM replay conflict at index " ++s pretty index ++s ": existing term " ++s pretty term
                  ++s ", replay term " ++s pretty replay_term).
Definition response_missing (index : N) : RaftError :=
  StorageErr ("FSM replay response missing for applied index " ++s pretty index).

(** [self.state_machine.apply(request)?]. *)
Definition on_state_machine {A} (m : ST RaftError S A) : ST RaftError FsmAdapter A := fun a =>
  let '(r, s) := m (fa_state_machine a) in (r, a <| fa_state_machine := s |>).

Definition apply_entry (entry : LogEntry) : ST RaftError FsmAdapter FsmApplyOutcome := fun a =>
  let index := lid_index (log_id entry) in
  match fa_applied a !! index with
  | Some term =>
      if negb (term =? lid_term (log_id entry))%N then (Err (replay_conflict index term (lid_term (log_id entry))), a)
      else match fa_responses a !! index with
      | None => (Err (response_missing index), a)
      | Some response => (Ok (mkFsmApplyOutcome response false true "duplicate_log_id_replayed_idempotently"), a)
      end
  | None =>
      (response ← on_state_machine (sm_apply (mkRaftApplyRequest (fa_group_id a) (log_id entry) (payload entry)));
       _ ← modify (fun a => a <| fa_last_applied ::= (fun last => N.max last (arp_applied_index response)) |>
                              <| fa_applied ::= <[index := lid_term (log_id entry)]> |>
                              <| fa_responses ::= <[index := response]> |>);
       mret (mkFsmApplyOutcome response true false "applied_new_log_id")) a
  end.

Definition count_if (b : bool) (n : N) : N := if b then (n + 1)%N else n.

Fixpoint replay_loop (entries : list LogEntry) (report : FsmReplayReport) : ST RaftError FsmAdapter FsmReplayReport :=
  match entries with
  | [] => mret report
  | entry :: entries =>
      outcome ← apply_entry entry;
      replay_loop entries (report <| frr_attempted ::= (fun n => n + 1)%N |>
                                  <| frr_applied ::= count_if (fao_applied outcome) |>
                                  <| frr_skipped_replay ::= count_if (fao_replayed outcome) |>)
  end.

Definition replay_entries (entries : list LogEntry) : ST RaftError FsmAdapter FsmReplayReport :=
  last ← gets fa_last_applied;
  report ← replay_loop entries (mkFsmReplayReport 0 0 0 last true);
  last ← gets fa_last_applied;
  mret (report <| frr_last_applied := last |>).

(** An entry of a batch that is no command: it is marked and not handed out. *)
Definition apply_noop (entry : LogEntry) (report : FsmBatchApplyReport) : ST RaftError FsmAdapter FsmBatchApplyReport := fun a =>
  let index := lid_index (log_id entry) in
  let finish report a :=
    (Ok (report <| fbr_skipped_noop ::= (fun n => n + 1)%N |>), a <| fa_last_applied ::= (fun last => N.max last index) |>) in
  match fa_applied a !! index with
  | Some term =>
      if negb (term =? lid_term (log_id entry))%N then (Err (replay_conflict index term (lid_term (log_id entry))), a)
      else finish (report <| fbr_skipped_replay ::= (fun n => n + 1)%N |>) a
  | None =>
      finish (report <| fbr_applied ::= (fun n => n + 1)%N |>)
        (a <| fa_applied ::= <[index := lid_term (log_id entry)]> |>
           <| fa_responses ::= <[index := mkRaftApplyResponse index response_default]> |>)
  end.

Definition apply_in_batch (entry : LogEntry) (report : FsmBatchApplyReport) : ST RaftError FsmAdapter FsmBatchApplyReport :=
  match matrixraft_fsm_entry_kind entry with
  | KindData =>
      outcome ← apply_entry entry;
      mret (report <| fbr_applied ::= count_if (fao_applied outcome) |>
                   <| fbr_skipped_replay ::= count_if (fao_replayed outcome) |>)
  | KindNoOp => apply_noop entry report
  end.

Fixpoint batch_loop (entries : list LogEntry) (report : FsmBatchApplyReport) : ST RaftError FsmAdapter FsmBatchApplyReport :=
  match entries with
  | [] => mret report
  | entry :: entries =>
      report ← apply_in_batch entry (report <| fbr_attempted ::= (fun n => n + 1)%N |>);
      last ← gets fa_last_applied;
      batch_loop entries (report <| fbr_applied_through := last |>)
  end.

Definition apply_batch (entries : list LogEntry) (max_entries : nat) : ST RaftError FsmAdapter FsmBatchApplyReport := fun a =>
  let apply_count := Nat.min (length entries) (Nat.max max_entries 1) in
  let next_index :=
    match entries !! apply_count, last entries with
    | Some entry, _ => lid_index (log_id entry)
    | None, Some entry => lid_index (log_id entry) +s 1
    | None, None => fa_last_applied a
    end in
  batch_loop (take apply_count entries)
    (mkFsmBatchApplyReport 0 0 0 0 (N.of_nat (length entries - apply_count)) (log_id <$> head entries)
       (log_id <$> last entries) (fa_last_applied a) next_index (apply_count <? length entries)%nat) a.

Definition adapter_checkpoint (a : FsmAdapter) : result RaftError FsmCheckpoint :=
  snapshot ← sm_snapshot (fa_group_id a) (fa_state_machine a);
  Ok (mkFsmCheckpoint (fa_group_id a) (fa_last_applied a)
        ((fun kv : N * N => mkLogId kv.2 kv.1) <$> bt_entries (fa_applied a)) snapshot).

Definition install_checkpoint (checkpoint : FsmCheckpoint) : ST RaftError FsmAdapter unit :=
  _ ← on_state_machine (sm_install_snapshot (fcp_snapshot checkpoint));
  modify (fun a => a <| fa_last_applied := fcp_last_applied checkpoint |>
                     <| fa_applied := foldl (fun m id => <[lid_index id := lid_term id]> m) ∅ (fcp_applied_log_ids checkpoint) |>
                     <| fa_responses := ∅ |>).

(** ** Exactly once *)

(** Calls of [apply] in a row, each of which may fail: the indexes of those that did
    not, and the state they leave. *)
Fixpoint apply_calls (group_id : N) (calls : list LogEntry) (s : S) : list N * S :=
  match calls with
  | [] => ([], s)
  | entry :: calls =>
      let '(r, s) := sm_apply (mkRaftApplyRequest group_id (log_id entry) (payload entry)) s in
      let '(applied, s) := apply_calls group_id calls s in
      (match r with Ok _ => lid_index (log_id entry) :: applied | Err _ => applied end, s)
  end.

Lemma apply_calls_app g l1 l2 s :
  apply_calls g (l1 ++ l2) s =
  let '(i1, s1) := apply_calls g l1 s in let '(i2, s2) := apply_calls g l2 s1 in (i1 ++ i2, s2).
Proof.
  revert s. induction l1 as [|e l1 IH]; intros s; cbn; [by destruct (apply_calls g l2 s)|].
  destruct (sm_apply _ s) as [r s1]. rewrite IH. destruct (apply_calls g l1 s1) as [i1 s2]. destruct (apply_calls g l2 s2) as [i2 s3].
  by destruct r.
Qed.

(** What happened between two states of an adapter: calls of the state machine that
    applied indexes nobody had applied, each of them once; what else is on record as
    applied is a no-op. *)
Section once.
Context (noop : N -> Prop).

Definition applied_once (a a' : FsmAdapter) : Prop :=
  fa_group_id a' = fa_group_id a /\ fa_applied a ⊆ fa_applied a'
  /\ exists calls, fa_state_machine a' = (apply_calls (fa_group_id a) calls (fa_state_machine a)).2
       /\ NoDup (apply_calls (fa_group_id a) calls (fa_state_machine a)).1
       /\ (forall i, i ∈ (apply_calls (fa_group_id a) calls (fa_state_machine a)).1 ->
            fa_applied a !! i = None /\ is_Some (fa_applied a' !! i))
       /\ (forall i, is_Some (fa_applied a' !! i) ->
            is_Some (fa_applied a !! i) \/ i ∈ (apply_calls (fa_group_id a) calls (fa_state_machine a)).1 \/ noop i).

#[export] Instance applied_once_preorder : PreOrder applied_once.
Proof.
  split.
  - intros a. split_and!; [done|done|]. exists []. cbn. split_and!; [done|apply NoDup_nil_2|by intros i H%not_elem_of_nil|by left].
  - intros a b c (G1 & A1 & l1 & S1 & N1 & I1 & J1) (G2 & A2 & l2 & S2 & N2 & I2 & J2). split_and!; [congruence|by etrans|].
    exists (l1 ++ l2). rewrite apply_calls_app. destruct (apply_calls (fa_group_id a) l1 _) as [i1 s1]. cbn in S1, N1, I1, J1. subst s1.
    rewrite <- G1. destruct (apply_calls (fa_group_id b) l2 _) as [i2 s2]. cbn in *. split_and!; [done| | |].
    + apply NoDup_app. split_and!; [done| |done]. intros i H1 H2. apply I1 in H1 as [_ [t H1]]. apply I2 in H2 as [H2 _]. congruence.
    + intros i [H|H]%elem_of_app.
      * apply I1 in H as [H [t Ht]]. split; [done|]. exists t. by apply (lookup_weaken _ _ _ _ Ht).
      * apply I2 in H as [H Hs]. split; [|done]. destruct (fa_applied a !! i) as [t|] eqn:Ha; [|done].
        by rewrite (lookup_weaken _ _ _ _ Ha A1) in H.
    + intros i Hi. destruct (J2 i Hi) as [H|[H|H]]; [destruct (J1 i H) as [?|[?|?]]|..]; rewrite ?elem_of_app; tauto.
Qed.

(** Nothing handed out. *)
Lemma applied_once_same a a' :
  fa_group_id a' = fa_group_id a -> fa_state_machine a' = fa_state_machine a -> fa_applied a ⊆ fa_applied a' ->
  (forall i, is_Some (fa_applied a' !! i) -> is_Some (fa_applied a !! i) \/ noop i) -> applied_once a a'.
Proof.
  intros Hg Hs Ha Hn. split_and!; [done|done|]. exists []. cbn. split_and!; [done|apply NoDup_nil_2|by intros i H%not_elem_of_nil|].
  intros i Hi. destruct (Hn i Hi); tauto.
Qed.

Lemma is_Some_insert (m : gmap N N) k v i : is_Some (<[k := v]> m !! i) -> i = k \/ is_Some (m !! i).
Proof. rewrite lookup_insert_is_Some. naive_solver. Qed.

Lemma apply_entry_once entry : transits applied_once (apply_entry entry).
Proof.
  intros a. unfold apply_entry. destruct (fa_applied a !! _) as [term|] eqn:Hi.
  { destruct (negb _); [reflexivity|]. by destruct (fa_responses a !! _). }
  unfold mbind, ST_bind, on_state_machine. set (req := mkRaftApplyRequest _ _ _).
  destruct (sm_apply req (fa_state_machine a)) as [[resp|e] s] eqn:Hs; cbn.
  - split_and!; [done|by apply insert_subseteq|]. exists [entry]. cbn. fold req. rewrite Hs. cbn.
    split_and!; [done|apply NoDup_singleton| |].
    + intros i ->%list_elem_of_singleton. split; [done|]. rewrite lookup_insert_eq. by eexists.
    + intros i [->|H]%is_Some_insert; [right; left; left|by left].
  - split_and!; [done|done|]. exists [entry]. cbn. fold req. rewrite Hs. cbn.
    split_and!; [done|apply NoDup_nil_2|by intros i H%not_elem_of_nil|by left].
Qed.

Lemma replay_loop_once entries report : transits applied_once (replay_loop entries report).
Proof.
  revert report. induction entries as [|e entries IH]; intros report; cbn; [apply transits_ret, _|].
  apply transits_bind; [apply _|apply apply_entry_once|]. intros outcome. apply IH.
Qed.

Lemma apply_in_batch_once entry report :
  (is_command entry = false -> noop (lid_index (log_id entry))) -> transits applied_once (apply_in_batch entry report).
Proof.
  intros Hn. unfold apply_in_batch, matrixraft_fsm_entry_kind. destruct (is_command entry).
  - apply transits_bind; [apply _|apply apply_entry_once|]. intros outcome. apply transits_ret, _.
  - intros a. unfold apply_noop. destruct (fa_applied a !! _) as [term|] eqn:Hi.
    + destruct (negb _); [reflexivity|]. apply applied_once_same; try done. by left.
    + apply applied_once_same; [done|done|by apply insert_subseteq|]. intros i [->|H]%is_Some_insert; [right; by apply Hn|by left].
Qed.

Lemma batch_loop_once entries report :
  (forall entry, entry ∈ entries -> is_command entry = false -> noop (lid_index (log_id entry))) ->
  transits applied_once (batch_loop entries report).
Proof.
  revert report. induction entries as [|e entries IH]; intros report Hn; cbn; [apply transits_ret, _|].
  apply transits_bind; [apply _|apply apply_in_batch_once; apply Hn; left|]. intros r.
  apply transits_bind; [apply _|apply transits_gets, _|]. intros last. apply IH. intros x Hx. apply Hn. by right.
Qed.
End once.

Inductive AdapterOp :=
  | AApply (entry : LogEntry)
  | AReplay (entries : list LogEntry)
  | ABatch (entries : list LogEntry) (max_entries : nat).

(** What is called next does not depend on whether this one failed. *)
Definition adapter_step (op : AdapterOp) (a : FsmAdapter) : FsmAdapter :=
  match op with
  | AApply entry => (apply_entry entry a).2
  | AReplay entries => (replay_entries entries a).2
  | ABatch entries max_entries => (apply_batch entries max_entries a).2
  end.

(** The entries of batches that are no commands. *)
Definition batch_noop (ops : list AdapterOp) (i : N) : Prop :=
  exists entries n entry, ABatch entries n ∈ ops /\ entry ∈ entries /\ is_command entry = false /\ lid_index (log_id entry) = i.

Lemma adapter_steps_once ops0 ops a : ops ⊆ ops0 -> applied_once (batch_noop ops0) a (foldl (fun a op => adapter_step op a) a ops).
Proof.
  revert a. induction ops as [|op ops IH]; intros a Hin; cbn; [reflexivity|]. etrans; [|apply IH; set_solver].
  destruct op as [entry|entries|entries n]; cbn.
  - apply apply_entry_once.
  - unfold replay_entries. revert a. apply transits_bind; [apply _|apply transits_gets, _|]. intros last.
    apply transits_bind; [apply _|apply replay_loop_once|]. intros report.
    apply transits_bind; [apply _|apply transits_gets, _|]. intros last'. apply transits_ret, _.
  - apply batch_loop_once. intros entry Hentry Hc. exists entries, n, entry. split_and!; [set_solver| |done|done].
    rewrite <- (take_drop (Nat.min (length entries) (Nat.max n 1)) entries). apply elem_of_app. by left.
Qed.

(** C16: Every entry is applied exactly once. However entries reach an adapter, one by
    one, as a replayed log or in batches, repeated, overlapping, out of order, in
    conflicting terms, with applies that fail and are tried again: the state machine
    is the one that results from a sequence of calls in which no index succeeds more
    than once, every index that succeeded is on record as applied, and what is on
    record and did not succeed is a no-op of a batch. *)
Theorem entries_apply_exactly_once group_id state_machine ops :
  let a := foldl (fun a op => adapter_step op a) (adapter_new group_id state_machine) ops in
  exists calls, fa_state_machine a = (apply_calls group_id calls state_machine).2
    /\ NoDup (apply_calls group_id calls state_machine).1
    /\ (forall i, i ∈ (apply_calls group_id calls state_machine).1 -> is_Some (fa_applied a !! i))
    /\ (forall i, is_Some (fa_applied a !! i) -> i ∈ (apply_calls group_id calls state_machine).1 \/ batch_noop ops i).
Proof.
  cbv zeta. destruct (adapter_steps_once ops ops (adapter_new group_id state_machine)) as (_ & _ & calls & H1 & H2 & H3 & H4); [done|].
  exists calls. split_and!; [done|done|intros i Hi; by apply H3|]. intros i Hi. destruct (H4 i Hi) as [[t Ht]|H]; [|done]. done.
Qed.

(** ** Checkpoints *)

Lemma collect_lookup (l : list (N * N)) (m0 : gmap N N) i : NoDup l.*1 ->
  foldl (fun m (kv : N * N) => <[kv.1 := kv.2]> m) m0 l !! i = match (list_to_map l : gmap N N) !! i with Some v => Some v | None => m0 !! i end.
Proof.
  revert m0. induction l as [|[k v] l IH]; intros m0; [done|]. cbn. intros [Hk Hn]%NoDup_cons. rewrite IH by done.
  destruct (decide (k = i)) as [->|Hne].
  - rewrite lookup_insert_eq, (not_elem_of_list_to_map_1 _ _ Hk), lookup_insert_eq. done.
  - by rewrite !lookup_insert_ne.
Qed.

(** The log ids of a checkpoint are the map of what was applied. *)
Lemma collect_bt_entries (m : gmap N N) :
  foldl (fun m id => <[lid_index id := lid_term id]> m) ∅ ((fun kv : N * N => mkLogId kv.2 kv.1) <$> bt_entries m) = m.
Proof.
  assert (forall (l : list (N * N)) m0, foldl (fun m id => <[lid_index id := lid_term id]> m) m0 ((fun kv : N * N => mkLogId kv.2 kv.1) <$> l)
    = foldl (fun m (kv : N * N) => <[kv.1 := kv.2]> m) m0 l) as -> by (induction l; cbn; auto).
  assert (NoDup (bt_entries m).*1) as Hn by apply NoDup_bt_keys.
  apply map_eq. intros i. rewrite collect_lookup by done.
  assert ((list_to_map (bt_entries m) : gmap N N) = m) as ->.
  { rewrite <- (list_to_map_to_list m) at 2. apply list_to_map_proper; [done|apply bt_entries_perm]. }
  rewrite lookup_empty. by destruct (m !! i).
Qed.

Section checkpoints.
Context {E : relation S} `{Laws : !StateMachineLaws S R Snap E}.

(** The second adapter lacks only the responses of the entries of [base]. *)
Definition goes_on_as (base : gmap N N) (a b : FsmAdapter) : Prop :=
  fa_group_id a = fa_group_id b /\ E (fa_state_machine a) (fa_state_machine b) /\ fa_applied a = fa_applied b
  /\ fa_last_applied a = fa_last_applied b /\ base ⊆ fa_applied a
  /\ forall i, base !! i = None -> fa_responses a !! i = fa_responses b !! i.

(** Operations that cannot tell the two apart. *)
Definition same_course {A} (base : gmap N N) (m : ST RaftError FsmAdapter A) : Prop :=
  forall a b, goes_on_as base a b -> (m a).1 = (m b).1 /\ goes_on_as base (m a).2 (m b).2.

Lemma same_course_ret {A} base (x : A) : same_course base (mret x).
Proof. by intros a b H. Qed.

Lemma same_course_last base : same_course base (gets fa_last_applied).
Proof. intros a b H. split; [|done]. cbn. f_equal. apply H. Qed.

Lemma same_course_bind {A B} base (m : ST RaftError FsmAdapter A) (k : A -> ST RaftError FsmAdapter B) :
  same_course base m -> (forall x, same_course base (k x)) -> same_course base (m ≫= k).
Proof.
  intros Hm Hk a b H. destruct (Hm a b H) as [Hr Hs]. unfold mbind, ST_bind.
  destruct (m a) as [r a'], (m b) as [r' b']. cbn in *. subst r'. destruct r as [x|e]; [by apply Hk|done].
Qed.

(** An entry past the checkpoint. *)
Definition beyond (base : gmap N N) (entry : LogEntry) : Prop := base !! lid_index (log_id entry) = None.

Lemma mark_same_course base a b i (t : N) (resp : RaftApplyResponse R) (last : N -> N) :
  goes_on_as base a b -> fa_applied a !! i = None ->
  goes_on_as base (a <| fa_last_applied ::= last |> <| fa_applied ::= <[i := t]> |> <| fa_responses ::= <[i := resp]> |>)
                  (b <| fa_last_applied ::= last |> <| fa_applied ::= <[i := t]> |> <| fa_responses ::= <[i := resp]> |>).
Proof.
  intros (H1 & H2 & H3 & H4 & H5 & H6) Hi. unfold goes_on_as. cbn. rewrite H3, H4. split_and!; try done.
  - rewrite <- H3. by apply insert_subseteq_r; [apply (lookup_weaken_None _ _ _ Hi)|].
  - intros j Hj. destruct (decide (i = j)) as [->|Hne]; [by rewrite !lookup_insert_eq|]. rewrite !lookup_insert_ne by done. by apply H6.
Qed.

Lemma apply_entry_same_course base entry : beyond base entry -> same_course base (apply_entry entry).
Proof.
  intros Hb a b H. pose proof H as (H1 & H2 & H3 & H4 & H5 & H6). unfold apply_entry. rewrite <- H3, <- (H6 _ Hb), <- H1.
  destruct (fa_applied a !! _) as [term|] eqn:Hi.
  { destruct (negb _); [done|]. by destruct (fa_responses a !! _). }
  unfold mbind, ST_bind, on_state_machine. set (req := mkRaftApplyRequest _ _ _).
  destruct (sm_apply_proper req _ _ H2) as [Hr Hs].
  destruct (sm_apply req (fa_state_machine a)) as [r s], (sm_apply req (fa_state_machine b)) as [r' s']. cbn in Hr, Hs. subst r'.
  assert (goes_on_as base (a <| fa_state_machine := s |>) (b <| fa_state_machine := s' |>)) as Hg by (by split_and!).
  destruct r as [resp|e]; [|done]. split; [done|].
  exact (mark_same_course base _ _ (lid_index (log_id entry)) (lid_term (log_id entry)) resp
           (fun last => N.max last (arp_applied_index resp)) Hg Hi).
Qed.

Lemma apply_noop_same_course base entry report : beyond base entry -> same_course base (apply_noop entry report).
Proof.
  intros Hb a b H. pose proof H as (H1 & H2 & H3 & H4 & H5 & H6). unfold apply_noop. rewrite <- H3.
  destruct (fa_applied a !! _) as [term|] eqn:Hi.
  { destruct (negb _); [done|]. split; [done|]. unfold goes_on_as. cbn. rewrite H4. by split_and!. }
  split; [done|].
  apply (mark_same_course base a b (lid_index (log_id entry)) (lid_term (log_id entry))
           (mkRaftApplyResponse (lid_index (log_id entry)) response_default) (fun last => N.max last (lid_index (log_id entry)))); done.
Qed.

Lemma replay_loop_same_course base entries report : Forall (beyond base) entries -> same_course base (replay_loop entries report).
Proof.
  intros H. revert report. induction H as [|e entries He H IH]; intros report; cbn; [apply same_course_ret|].
  apply same_course_bind; [by apply apply_entry_same_course|]. intros outcome. apply IH.
Qed.

Lemma batch_loop_same_course base entries report : Forall (beyond base) entries -> same_course base (batch_loop entries report).
Proof.
  intros H. revert report. induction H as [|e entries He H IH]; intros report; cbn; [apply same_course_ret|].
  apply same_course_bind; [|intros r; apply same_course_bind; [apply same_course_last|intros last; apply IH]].
  unfold apply_in_batch. destruct (matrixraft_fsm_entry_kind e); [|by apply apply_noop_same_course].
  apply same_course_bind; [by apply apply_entry_same_course|]. intros outcome. apply same_course_ret.
Qed.

(** A response is kept only of an index on record. *)
Definition recorded (a : FsmAdapter) : Prop := forall i, fa_applied a !! i = None -> fa_responses a !! i = None.
Definition keeps_record (a a' : FsmAdapter) : Prop := recorded a -> recorded a'.
#[local] Instance keeps_record_preorder : PreOrder keeps_record.
Proof. split; unfold keeps_record; [by intros a|intros a b c; tauto]. Qed.

Lemma mark_recorded a i (t : N) (resp : RaftApplyResponse R) (last : N -> N) :
  recorded a -> recorded (a <| fa_last_applied ::= last |> <| fa_applied ::= <[i := t]> |> <| fa_responses ::= <[i := resp]> |>).
Proof. intros H j. cbn. destruct (decide (i = j)) as [->|Hne]; [by rewrite lookup_insert_eq|]. rewrite !lookup_insert_ne by done. apply H. Qed.

Lemma apply_entry_recorded entry : transits keeps_record (apply_entry entry).
Proof.
  intros a H. unfold apply_entry. destruct (fa_applied a !! _) as [term|].
  { destruct (negb _); [done|]. by destruct (fa_responses a !! _). }
  unfold mbind, ST_bind, on_state_machine. destruct (sm_apply _ (fa_state_machine a)) as [[resp|e] s]; [|done].
  exact (mark_recorded (mkFsmAdapter (fa_group_id a) s (fa_applied a) (fa_responses a) (fa_last_applied a)) _ _ resp (fun last => N.max last (arp_applied_index resp)) H).
Qed.

Lemma apply_in_batch_recorded entry report : transits keeps_record (apply_in_batch entry report).
Proof.
  unfold apply_in_batch. destruct (matrixraft_fsm_entry_kind entry).
  - apply transits_bind; [apply _|apply apply_entry_recorded|]. intros outcome. apply transits_ret, _.
  - intros a H. unfold apply_noop. destruct (fa_applied a !! _) as [term|]; [by destruct (negb _)|].
    exact (mark_recorded a _ _ _ (fun last => N.max last (lid_index (log_id entry))) H).
Qed.

Lemma replay_loop_recorded entries report : transits keeps_record (replay_loop entries report).
Proof.
  revert report. induction entries as [|e entries IH]; intros report; cbn; [apply transits_ret, _|].
  apply transits_bind; [apply _|apply apply_entry_recorded|]. intros outcome. apply IH.
Qed.

Lemma batch_loop_recorded entries report : transits keeps_record (batch_loop entries report).
Proof.
  revert report. induction entries as [|e entries IH]; intros report; cbn; [apply transits_ret, _|].
  apply transits_bind; [apply _|apply apply_in_batch_recorded|]. intros r.
  apply transits_bind; [apply _|apply transits_gets, _|]. intros last. apply IH.
Qed.

Lemma adapter_steps_recorded ops a : recorded a -> recorded (foldl (fun a op => adapter_step op a) a ops).
Proof.
  revert a. induction ops as [|op ops IH]; intros a H; [done|]. cbn. apply IH. destruct op; cbn.
  - by apply apply_entry_recorded.
  - assert (transits keeps_record (replay_entries entries)) as Hr; [|by apply Hr].
    unfold replay_entries. apply transits_bind; [apply _|apply transits_gets, _|]. intros last.
    apply transits_bind; [apply _|apply replay_loop_recorded|]. intros report.
    apply transits_bind; [apply _|apply transits_gets, _|]. intros last'. apply transits_ret, _.
  - by apply batch_loop_recorded.
Qed.

(** What an adapter answers. *)
Inductive AdapterAnswer :=
  | ApplyAnswer (r : result RaftError FsmApplyOutcome)
  | ReplayAnswer (r : result RaftError FsmReplayReport)
  | BatchAnswer (r : result RaftError FsmBatchApplyReport).

Definition adapter_answer (op : AdapterOp) (a : FsmAdapter) : AdapterAnswer :=
  match op with
  | AApply entry => ApplyAnswer (apply_entry entry a).1
  | AReplay entries => ReplayAnswer (replay_entries entries a).1
  | ABatch entries max_entries => BatchAnswer (apply_batch entries max_entries a).1
  end.

Fixpoint run_adapter (ops : list AdapterOp) (a : FsmAdapter) : list AdapterAnswer * FsmAdapter :=
  match ops with
  | [] => ([], a)
  | op :: ops => let '(answers, a') := run_adapter ops (adapter_step op a) in (adapter_answer op a :: answers, a')
  end.

Definition op_beyond (base : gmap N N) (op : AdapterOp) : Prop :=
  match op with AApply entry => beyond base entry | AReplay entries | ABatch entries _ => Forall (beyond base) entries end.

Lemma adapter_step_same_course base op a b : op_beyond base op -> goes_on_as base a b ->
  adapter_answer op a = adapter_answer op b /\ goes_on_as base (adapter_step op a) (adapter_step op b).
Proof.
  intros Hop H. destruct op as [entry|entries|entries n]; cbn in *.
  - destruct (apply_entry_same_course base entry Hop a b H) as [Hr Hs]. split; [by f_equal|done].
  - assert (same_course base (replay_entries entries)) as Hc.
    { apply same_course_bind; [apply same_course_last|]. intros l. apply same_course_bind; [by apply replay_loop_same_course|].
      intros r. apply same_course_bind; [apply same_course_last|]. intros l'. apply same_course_ret. }
    destruct (Hc a b H) as [Hr Hs]. split; [by f_equal|done].
  - unfold apply_batch. assert (fa_last_applied a = fa_last_applied b) as -> by apply H.
    match goal with |- context [batch_loop ?es ?r a] => destruct (batch_loop_same_course base es r (Forall_take _ _ _ Hop) a b H) as [Hr Hs] end.
    split; [by f_equal|done].
Qed.

(** C18: A checkpoint taken of one adapter, in any state it can reach, and installed in another goes on as the
    original does: whatever is applied, replayed and batched afterwards, of entries
    the checkpoint does not cover, both answer the same, and end with state machines
    that nothing can tell apart, the same applied log ids and the same last index. *)
Theorem checkpoint_goes_on group_id state_machine ops0 a b checkpoint :
  a = foldl (fun a op => adapter_step op a) (adapter_new group_id state_machine) ops0 ->
  adapter_checkpoint a = Ok checkpoint -> fa_group_id b = fa_group_id a ->
  exists b', install_checkpoint checkpoint b = (Ok tt, b')
    /\ forall ops, Forall (op_beyond (fa_applied a)) ops ->
         let '(answers, a2) := run_adapter ops a in let '(answers', b2) := run_adapter ops b' in
         answers' = answers /\ E (fa_state_machine a2) (fa_state_machine b2)
         /\ fa_applied b2 = fa_applied a2 /\ fa_last_applied b2 = fa_last_applied a2.
Proof.
  intros Ha Hc Hg. assert (recorded a) as Hrec by (rewrite Ha; by apply adapter_steps_recorded). clear Ha. unfold adapter_checkpoint in Hc. destruct (sm_snapshot _ _) as [snap|] eqn:Hs; [|done]. injection Hc as <-.
  destruct (sm_install_restores _ _ snap (fa_state_machine b) Hs) as [Hi He]. unfold install_checkpoint, on_state_machine, mbind, ST_bind. cbn.
  destruct (sm_install_snapshot snap (fa_state_machine b)) as [r s]. cbn in Hi, He. subst r. cbn. rewrite collect_bt_entries.
  eexists. split; [reflexivity|]. intros ops Hops.
  set (b' := mkFsmAdapter _ _ _ _ _).
  assert (forall a1 b1, goes_on_as (fa_applied a) a1 b1 ->
    let '(answers, a2) := run_adapter ops a1 in let '(answers', b2) := run_adapter ops b1 in
    answers' = answers /\ goes_on_as (fa_applied a) a2 b2) as Hrun.
  { induction Hops as [|op ops Hop Hops IH]; intros a1 b1 H1; [done|]. cbn.
    destruct (adapter_step_same_course _ op a1 b1 Hop H1) as [-> H2]. specialize (IH _ _ H2).
    destruct (run_adapter ops (adapter_step op a1)) as [l a2], (run_adapter ops (adapter_step op b1)) as [l' b2].
    destruct IH as [-> IH]. done. }
  assert (goes_on_as (fa_applied a) a b') as H0.
  { split_and!; [done| |done|done|done|]; [by symmetry|]. intros i Hi. by rewrite (Hrec i Hi). }
  specialize (Hrun a b' H0). destruct (run_adapter ops a) as [l a2], (run_adapter ops b') as [l' b2].
  destruct Hrun as [-> (H1 & H2 & H3 & H4 & _)]. done.
Qed.
End checkpoints.

(** A command the checkpoint covers is refused after its install, where the adapter it
    was taken of answers the replay: the install drops the responses. *)
Theorem installed_checkpoint_refuses_replay a b checkpoint b' entry :
  adapter_checkpoint a = Ok checkpoint -> install_checkpoint checkpoint b = (Ok tt, b') ->
  fa_applied a !! lid_index (log_id entry) = Some (lid_term (log_id entry)) ->
  apply_entry entry b' = (Err (response_missing (lid_index (log_id entry))), b').
Proof.
  intros Hc Hi Ha. unfold adapter_checkpoint in Hc. destruct (sm_snapshot _ _) as [snap|]; [|done]. injection Hc as <-.
  unfold install_checkpoint, on_state_machine, mbind, ST_bind in Hi. cbn in Hi.
  destruct (sm_install_snapshot _ _) as [[u|e] s]; [|done]. cbn in Hi. injection Hi as <-. unfold apply_entry. cbn.
  by rewrite collect_bt_entries, Ha, N.eqb_refl.
Qed.
End adapter.
Arguments FsmAdapter : clear implicits.

(** A state machine that keeps what it was given, and refuses an empty payload. *)
#[export] Instance recording_machine : RaftStateMachine (list (N * Payload)) N (list (N * Payload)) := {|
  sm_apply request s :=
    match arq_payload request with
    | [] => (Err (InvalidRequest "empty payload"), s)
    | payload => (Ok (mkRaftApplyResponse (lid_index (arq_log_id request)) (N.of_nat (length s))),
                  s ++ [(lid_index (arq_log_id request), payload)])
    end;
  sm_snapshot _ s := Ok s;
  sm_install_snapshot snap _ := (Ok tt, snap);
  response_default := 0%N |}.

#[export] Instance recording_laws : StateMachineLaws (list (N * Payload)) N (list (N * Payload)) eq.
Proof.
  constructor; [apply _| |].
  - intros request s s' ->. done.
  - intros g s snap s' [= <-]. done.
Qed.

Definition sample_command (index : N) : LogEntry := mkLogEntry (mkLogId 1 index) [Byte.x61] true.
Definition sample_adapter_ops : list AdapterOp :=
  [ABatch [mkLogEntry (mkLogId 1 1) [] false; sample_command 2; sample_command 3] 2; AReplay [sample_command 2; sample_command 3]].

Example sample_adapter_applies :
  fa_state_machine (foldl (fun a op => adapter_step op a) (adapter_new 7 []) sample_adapter_ops) = [(2%N, [Byte.x61]); (3%N, [Byte.x61])].
Proof. vm_compute. reflexivity. Qed.

Lemma entries_apply_exactly_once_witness :
  let a := foldl (fun a op => adapter_step op a) (adapter_new 7 []) sample_adapter_ops in
  exists calls, [(2%N, [Byte.x61]); (3%N, [Byte.x61])] = (apply_calls 7 calls []).2 /\ NoDup (apply_calls 7 calls []).1.
Proof.
  destruct (entries_apply_exactly_once 7 [] sample_adapter_ops) as (calls & H1 & H2 & _).
  exists calls. split; [|exact H2]. rewrite <- H1. vm_compute. reflexivity.
Defined.

Lemma checkpoint_goes_on_witness :
  let a := foldl (fun a op => adapter_step op a) (adapter_new 7 []) sample_adapter_ops in
  exists checkpoint b', adapter_checkpoint a = Ok checkpoint /\ install_checkpoint checkpoint (adapter_new 7 [(9%N, [])]) = (Ok tt, b')
    /\ (run_adapter [AApply (sample_command 4)] b').1 = (run_adapter [AApply (sample_command 4)] a).1.
Proof.
  intros a. destruct (adapter_checkpoint a) as [checkpoint|e] eqn:Hc; [|vm_compute in Hc; discriminate].
  destruct (checkpoint_goes_on (E := eq) 7 [] sample_adapter_ops a (adapter_new 7 [(9%N, [])]) checkpoint eq_refl Hc) as (b' & Hb & Hrun);
    [vm_compute; reflexivity|].
  exists checkpoint, b'. split_and!; [done|done|]. specialize (Hrun [AApply (sample_command 4)]).
  destruct (run_adapter _ a) as [l a2], (run_adapter _ b') as [l' b2]. apply Hrun. repeat constructor; vm_compute; reflexivity.
Defined.

(** ** Flexible apply *)

Definition MATRIXRAFT_NON_BATCH : Z := 0.
Inductive MatrixRaftFsmEntryKind := FsmData | FsmNoOp | FsmConfigChange | FsmMeta.
Record MatrixRaftFsmEntry := mkMatrixRaftFsmEntry {
  fe_batch_id : Z; fe_log_id : LogId; fe_data : Payload; fe_kind : MatrixRaftFsmEntryKind }.
#[export] Instance eta_MatrixRaftFsmEntry : Settable MatrixRaftFsmEntry :=
  fun e => mkMatrixRaftFsmEntry (fe_batch_id e) (fe_log_id e) (fe_data e) (fe_kind e).

Definition data_entry (index term : N) (data : Payload) := mkMatrixRaftFsmEntry MATRIXRAFT_NON_BATCH (mkLogId term index) data FsmData.
Definition noop_entry (index term : N) := mkMatrixRaftFsmEntry MATRIXRAFT_NON_BATCH (mkLogId term index) [] FsmNoOp.
Definition config_change_entry (index term : N) (data : Payload) :=
  mkMatrixRaftFsmEntry MATRIXRAFT_NON_BATCH (mkLogId term index) data FsmConfigChange.
Definition meta_entry (index term : N) (data : Payload) := mkMatrixRaftFsmEntry MATRIXRAFT_NON_BATCH (mkLogId term index) data FsmMeta.
Definition with_batch_id (batch_id : Z) (e : MatrixRaftFsmEntry) : MatrixRaftFsmEntry := e <| fe_batch_id := batch_id |>.

Record MatrixRaftFsmIterator := mkMatrixRaftFsmIterator { it_entries : list MatrixRaftFsmEntry; it_position : nat }.
#[export] Instance eta_MatrixRaftFsmIterator : Settable MatrixRaftFsmIterator := fun i => mkMatrixRaftFsmIterator (it_entries i) (it_position i).
Definition iterator_new (entries : list MatrixRaftFsmEntry) : MatrixRaftFsmIterator := mkMatrixRaftFsmIterator entries 0.
Definition it_valid (i : MatrixRaftFsmIterator) : bool := (it_position i <? length (it_entries i))%nat.
Definition it_current (i : MatrixRaftFsmIterator) : option MatrixRaftFsmEntry := it_entries i !! it_position i.
Definition it_next (i : MatrixRaftFsmIterator) : MatrixRaftFsmIterator := if it_valid i then i <| it_position ::= Nat.succ |> else i.
Definition it_remaining (i : MatrixRaftFsmIterator) : list MatrixRaftFsmEntry :=
  drop (Nat.min (it_position i) (length (it_entries i))) (it_entries i).
Definition it_batch_id (i : MatrixRaftFsmIterator) : Z := default MATRIXRAFT_NON_BATCH (fe_batch_id <$> it_current i).
Definition it_index (i : MatrixRaftFsmIterator) : option N := (fun e => lid_index (fe_log_id e)) <$> it_current i.
Definition it_term (i : MatrixRaftFsmIterator) : option N := (fun e => lid_term (fe_log_id e)) <$> it_current i.
Definition it_data (i : MatrixRaftFsmIterator) : option Payload := fe_data <$> it_current i.
Definition it_kind (i : MatrixRaftFsmIterator) : option MatrixRaftFsmEntryKind := fe_kind <$> it_current i.

Record MatrixRaftNodeId := mkMatrixRaftNodeId { mni_peer_id : N; mni_raft_addr : string; mni_snapshot_addr : string }.
#[export] Instance MatrixRaftNodeId_eq_dec : EqDecision MatrixRaftNodeId.
Proof. solve_decision. Defined.

(** The methods of the trait [MatrixRaftFsm] other than [apply]. *)
Inductive FsmHook :=
  | HOpen
  | HClose
  | HStartFollowing (term leader_id : N)
  | HStopFollowing (term leader_id : N)
  | HLeaderStart (term : N)
  | HLeaderStop (term : N)
  | HConfigurationApplied (old_config new_config : list MatrixRaftNodeId).

Class MatrixRaftFsm (F : Type) := {
  fsm_apply : N -> Payload -> ST RaftError F unit;
  fsm_hook : FsmHook -> ST RaftError F unit
}.
Class MatrixRaftStoreFsm (St : Type) := { store_begin : ST RaftError St Z; store_commit : Z -> ST RaftError St unit }.

Record MatrixRaftFlexibleApplyReport := mkMatrixRaftFlexibleApplyReport {
  mfr_batch_id : Z; mfr_attempted : N; mfr_applied : N; mfr_skipped_noop : N; mfr_skipped_config_change : N;
  mfr_skipped_meta : N; mfr_first_log_id : option LogId; mfr_last_log_id : option LogId; mfr_applied_through : N; mfr_next_index : N }.
#[export] Instance eta_MatrixRaftFlexibleApplyReport : Settable MatrixRaftFlexibleApplyReport :=
  fun r => mkMatrixRaftFlexibleApplyReport (mfr_batch_id r) (mfr_attempted r) (mfr_applied r) (mfr_skipped_noop r)
    (mfr_skipped_config_change r) (mfr_skipped_meta r) (mfr_first_log_id r) (mfr_last_log_id r) (mfr_applied_through r) (mfr_next_index r).

Definition is_data (e : MatrixRaftFsmEntry) : bool := match fe_kind e with FsmData => true | _ => false end.

(** One entry of the tally of a batch. *)
Definition tally (report : MatrixRaftFlexibleApplyReport) (entry : MatrixRaftFsmEntry) : MatrixRaftFlexibleApplyReport :=
  match fe_kind entry with
  | FsmData => report <| mfr_applied ::= N.succ |> <| mfr_applied_through ::= (fun n => N.max n (lid_index (fe_log_id entry))) |>
  | FsmNoOp => report <| mfr_skipped_noop ::= N.succ |>
  | FsmConfigChange => report <| mfr_skipped_config_change ::= N.succ |>
  | FsmMeta => report <| mfr_skipped_meta ::= N.succ |>
  end.

Section flexible.
Context {F St : Type} `{!MatrixRaftFsm F} `{!MatrixRaftStoreFsm St}.

(** The default body of [flexible_apply]. *)
Fixpoint flexible_loop (fuel : nat) : ST RaftError (F * MatrixRaftFsmIterator) unit := fun '(f, it) =>
  match fuel with
  | O => (Ok tt, (f, it))
  | S fuel =>
      match it_current it with
      | None => (Ok tt, (f, it))
      | Some entry =>
          let '(r, f) := if is_data entry then fsm_apply (lid_index (fe_log_id entry)) (fe_data entry) f else (Ok tt, f) in
          match r with Err e => (Err e, (f, it)) | Ok _ => flexible_loop fuel (f, it_next it) end
      end
  end.
Definition flexible_apply : ST RaftError (F * MatrixRaftFsmIterator) unit := fun s =>
  flexible_loop (S (length (it_remaining s.2))) s.

Definition matrixraft_flexible_apply_with_store_report (entries : list MatrixRaftFsmEntry)
    : ST RaftError (F * St) MatrixRaftFlexibleApplyReport := fun '(fsm, store) =>
  match store_begin store with
  | (Err e, store) => (Err e, (fsm, store))
  | (Ok batch_id, store) =>
      let entries := with_batch_id batch_id <$> entries in
      let report := mkMatrixRaftFlexibleApplyReport batch_id (N.of_nat (length entries)) 0 0 0 0 (fe_log_id <$> head entries)
        (fe_log_id <$> last entries) 0 (match last entries with Some entry => lid_index (fe_log_id entry) +s 1 | None => 0%N end) in
      match flexible_apply (fsm, iterator_new entries) with
      | (Err e, (fsm, _)) => (Err e, (fsm, store))
      | (Ok _, (fsm, _)) =>
          match store_commit batch_id store with
          | (Err e, store) => (Err e, (fsm, store))
          | (Ok _, store) => (Ok (foldl tally report entries), (fsm, store))
          end
      end
  end.
Definition matrixraft_flexible_apply_with_store (entries : list MatrixRaftFsmEntry) : ST RaftError (F * St) Z :=
  report ← matrixraft_flexible_apply_with_store_report entries; mret (mfr_batch_id report).

(** The loop hands out the data that remains, in order, up to the first refusal. *)
Lemma flexible_loop_spec fuel f entries pos :
  (length (drop pos entries) < fuel)%nat ->
  let '(r, (f', it')) := flexible_loop fuel (f, mkMatrixRaftFsmIterator entries pos) in
  (r, f') = for_each (fun e => fsm_apply (lid_index (fe_log_id e)) (fe_data e)) (filter (fun e => is_data e = true) (drop pos entries)) f
  /\ it_entries it' = entries
  /\ match r with Ok _ => it_current it' = None | Err _ => exists e, it_current it' = Some e /\ is_data e = true end.
Proof.
  revert f pos. induction fuel as [|fuel IH]; intros f pos Hf; [lia|]. cbn [flexible_loop]. unfold it_current at 1. cbn [it_entries it_position].
  destruct (entries !! pos) as [e|] eqn:He.
  2: { apply lookup_ge_None in He as Hp. rewrite drop_ge by done. cbn. split_and!; done. }
  rewrite (drop_S _ _ _ He) in Hf |- *. cbn in Hf. assert (it_next (mkMatrixRaftFsmIterator entries pos) = mkMatrixRaftFsmIterator entries (S pos)) as Hn.
  { unfold it_next, it_valid. cbn [it_position it_entries]. apply lookup_lt_Some in He. rewrite (proj2 (Nat.ltb_lt _ _) He). done. }
  specialize (fun f => IH f (S pos) ltac:(lia)). destruct (is_data e) eqn:Hd.
  - rewrite filter_cons_True by done. cbn [for_each]. unfold mbind, ST_bind.
    destruct (fsm_apply _ _ f) as [[u|err] f1]; [rewrite Hn; apply IH|]. split_and!; [done|done|]. exists e. by split.
  - rewrite filter_cons_False by congruence. rewrite Hn. apply IH.
Qed.
End flexible.

(** ** The runtime binding *)

Record MatrixRaftFsmRuntimeHookReport := mkMatrixRaftFsmRuntimeHookReport {
  rhr_opened : bool; rhr_closed : bool; rhr_leader_started : bool; rhr_leader_stopped : bool; rhr_following_started : bool;
  rhr_following_stopped : bool; rhr_configuration_applied : bool; rhr_term : N; rhr_leader_id : option N; rhr_role : StateRole }.
#[export] Instance eta_MatrixRaftFsmRuntimeHookReport : Settable MatrixRaftFsmRuntimeHookReport :=
  fun r => mkMatrixRaftFsmRuntimeHookReport (rhr_opened r) (rhr_closed r) (rhr_leader_started r) (rhr_leader_stopped r)
    (rhr_following_started r) (rhr_following_stopped r) (rhr_configuration_applied r) (rhr_term r) (rhr_leader_id r) (rhr_role r).

Section binding.
Context {F : Type} `{!MatrixRaftFsm F}.

Record RuntimeBinding := mkRuntimeBinding {
  rb_fsm : F;
  rb_opened : bool;
  rb_role : option StateRole;
  rb_term : N;
  rb_leader_id : option N;
  rb_membership : list MatrixRaftNodeId
}.
#[export] Instance eta_RuntimeBinding : Settable RuntimeBinding :=
  fun b => mkRuntimeBinding (rb_fsm b) (rb_opened b) (rb_role b) (rb_term b) (rb_leader_id b) (rb_membership b).

Definition binding_new (fsm : F) : RuntimeBinding := mkRuntimeBinding fsm false None 0 None [].

Definition following (b : RuntimeBinding) : bool := bool_decide (rb_role b = Some Follower) && bool_decide (is_Some (rb_leader_id b)).
Definition leading (b : RuntimeBinding) : bool := bool_decide (rb_role b = Some Leader).

Definition hook_report (opened closed : bool) (b : RuntimeBinding) : MatrixRaftFsmRuntimeHookReport :=
  mkMatrixRaftFsmRuntimeHookReport opened closed false false false false false (rb_term b) (rb_leader_id b) (default Follower (rb_role b)).

Definition call (hook : FsmHook) : ST RaftError RuntimeBinding unit := fun b =>
  let '(r, fsm) := fsm_hook hook (rb_fsm b) in (r, b <| rb_fsm := fsm |>).
(** A hook under a condition; whether it was called. *)
Definition call_if (c : bool) (hook : FsmHook) : ST RaftError RuntimeBinding bool :=
  if c then (_ ← call hook; mret true) else mret false.
(** [if !self.opened { self.fsm.open()?; self.opened = true }] *)
Definition open_once : ST RaftError RuntimeBinding bool :=
  opened ← gets rb_opened;
  if opened : bool then mret false
  else (_ ← call HOpen; _ ← modify (fun b => b <| rb_opened := true |>); mret true).

Definition binding_open : ST RaftError RuntimeBinding MatrixRaftFsmRuntimeHookReport :=
  opened ← open_once; gets (hook_report opened false).

Definition binding_close : ST RaftError RuntimeBinding MatrixRaftFsmRuntimeHookReport := fun b =>
  (leader_stopped ← call_if (leading b) (HLeaderStop (rb_term b));
   following_stopped ← call_if (following b) (HStopFollowing (rb_term b) (default 0%N (rb_leader_id b)));
   closed ← call_if (rb_opened b) HClose;
   _ ← modify (fun b => b <| rb_opened := false |> <| rb_role := None |> <| rb_leader_id := None |>);
   mret ((hook_report false false b) <| rhr_leader_stopped := leader_stopped |> <| rhr_following_stopped := following_stopped |>
           <| rhr_closed := closed |>)) b.

Record MatrixRaftStatus := mkMatrixRaftStatus { ms_role : StateRole; ms_term : N; ms_leader_id : option N }.

Definition observe_status (status : MatrixRaftStatus) (membership : list MatrixRaftNodeId)
    : ST RaftError RuntimeBinding MatrixRaftFsmRuntimeHookReport := fun b =>
  let old_follow := following b in
  let new_follow := bool_decide (ms_role status = Follower) && bool_decide (is_Some (ms_leader_id status)) in
  let moved := negb (bool_decide (rb_leader_id b = ms_leader_id status)) || negb (rb_term b =? ms_term status)%N in
  let was_leader := leading b in
  let is_leader := bool_decide (ms_role status = Leader) in
  let config_changed := negb (bool_decide (rb_membership b = [])) && negb (bool_decide (rb_membership b = membership)) in
  (opened ← open_once;
   following_stopped ← call_if (old_follow && (negb new_follow || moved)) (HStopFollowing (rb_term b) (default 0%N (rb_leader_id b)));
   leader_stopped ← call_if (was_leader && negb is_leader) (HLeaderStop (rb_term b));
   leader_started ← call_if (negb was_leader && is_leader) (HLeaderStart (ms_term status));
   following_started ← call_if (new_follow && (negb old_follow || moved))
                         (HStartFollowing (ms_term status) (default 0%N (ms_leader_id status)));
   configuration_applied ← (if config_changed then (_ ← discard (call (HConfigurationApplied (rb_membership b) membership)); mret true)
                            else mret false);
   _ ← modify (fun b => b <| rb_membership := membership |> <| rb_role := Some (ms_role status) |> <| rb_term := ms_term status |>
                          <| rb_leader_id := ms_leader_id status |>);
   mret (mkMatrixRaftFsmRuntimeHookReport opened false leader_started leader_stopped following_started following_stopped
           configuration_applied (ms_term status) (ms_leader_id status) (ms_role status))) b.
End binding.
Arguments RuntimeBinding : clear implicits.

(** *** The calls of the hooks *)

(** A state machine that writes its calls down, and refuses those a test says. *)
Definition recording_fsm (refuses : list FsmHook -> FsmHook -> bool) : MatrixRaftFsm (list FsmHook) := {|
  fsm_apply _ _ calls := (Ok tt, calls);
  fsm_hook hook calls := if refuses calls hook then (Err (StorageErr "refused"), calls) else (Ok tt, calls ++ [hook]) |}.

Inductive BindingOp := BOpen | BClose | BObserve (status : MatrixRaftStatus) (membership : list MatrixRaftNodeId).
Definition binding_step `{!MatrixRaftFsm F} (op : BindingOp) (b : RuntimeBinding F) : RuntimeBinding F :=
  match op with
  | BOpen => (binding_open b).2
  | BClose => (binding_close b).2
  | BObserve status membership => (observe_status status membership b).2
  end.

(** What a state machine may expect: calls come between an open and a close, and it
    is told that it stops leading, or following the same leader in the same term,
    before it is told of anything else. *)
Inductive Office := Idle | Leading | Following (term leader_id : N).
Record HookState := mkHookState { hs_opened : bool; hs_office : Office }.
Definition expect (hook : FsmHook) (s : HookState) : option HookState :=
  match hook, s with
  | HOpen, mkHookState false Idle => Some (mkHookState true Idle)
  | HClose, mkHookState true Idle => Some (mkHookState false Idle)
  | HLeaderStart _, mkHookState true Idle => Some (mkHookState true Leading)
  | HLeaderStop _, mkHookState true Leading => Some (mkHookState true Idle)
  | HStartFollowing term leader_id, mkHookState true Idle => Some (mkHookState true (Following term leader_id))
  | HStopFollowing term leader_id, mkHookState true (Following term' leader_id') =>
      if ((term =? term') && (leader_id =? leader_id'))%N then Some (mkHookState true Idle) else None
  | HConfigurationApplied _ _, mkHookState true _ => Some s
  | _, _ => None
  end.
Definition expects (calls : list FsmHook) : option HookState :=
  foldl (fun acc hook => s ← acc; expect hook s) (Some (mkHookState false Idle)) calls.

(** What the binding remembers is what the calls add up to. *)
Definition office (b : RuntimeBinding (list FsmHook)) : Office :=
  if leading b then Leading else if following b then Following (rb_term b) (default 0%N (rb_leader_id b)) else Idle.
Definition binding_ok (b : RuntimeBinding (list FsmHook)) : Prop :=
  expects (rb_fsm b) = Some (mkHookState (rb_opened b) (office b)) /\ (rb_opened b = false -> rb_role b = None).

Section infallible.
#[local] Instance infallible : MatrixRaftFsm (list FsmHook) := recording_fsm (fun _ _ => false).

Definition when (c : bool) (hook : FsmHook) : list FsmHook := if c then [hook] else [].
Definition hook_all (hooks : list FsmHook) (s : HookState) : option HookState :=
  foldl (fun acc hook => s ← acc; expect hook s) (Some s) hooks.

Lemma expects_app calls hooks s : expects calls = Some s -> expects (calls ++ hooks) = hook_all hooks s.
Proof. intros H. unfold expects, hook_all in *. by rewrite foldl_app, H. Qed.

Lemma call_if_infallible c hook (b : RuntimeBinding (list FsmHook)) :
  call_if c hook b = (Ok c, b <| rb_fsm ::= (fun calls => calls ++ when c hook) |>).
Proof. destruct b, c; cbn; [done|]. by rewrite app_nil_r. Qed.

Lemma open_once_infallible (b : RuntimeBinding (list FsmHook)) :
  open_once b = (Ok (negb (rb_opened b)), b <| rb_fsm ::= (fun calls => calls ++ when (negb (rb_opened b)) HOpen) |> <| rb_opened := true |>).
Proof. destruct b as [calls [] ? ? ? ?]; cbn; [|done]. by rewrite app_nil_r. Qed.

Definition now_following (status : MatrixRaftStatus) : bool := bool_decide (ms_role status = Follower) && bool_decide (is_Some (ms_leader_id status)).
Definition moved (status : MatrixRaftStatus) (b : RuntimeBinding (list FsmHook)) : bool :=
  negb (bool_decide (rb_leader_id b = ms_leader_id status)) || negb (rb_term b =? ms_term status)%N.

(** The calls an observed status makes. *)
Definition observe_calls (status : MatrixRaftStatus) (membership : list MatrixRaftNodeId) (b : RuntimeBinding (list FsmHook)) : list FsmHook :=
  when (negb (rb_opened b)) HOpen
  ++ when (following b && (negb (now_following status) || moved status b)) (HStopFollowing (rb_term b) (default 0%N (rb_leader_id b)))
  ++ when (leading b && negb (bool_decide (ms_role status = Leader))) (HLeaderStop (rb_term b))
  ++ when (negb (leading b) && bool_decide (ms_role status = Leader)) (HLeaderStart (ms_term status))
  ++ when (now_following status && (negb (following b) || moved status b)) (HStartFollowing (ms_term status) (default 0%N (ms_leader_id status)))
  ++ when (negb (bool_decide (rb_membership b = [])) && negb (bool_decide (rb_membership b = membership)))
       (HConfigurationApplied (rb_membership b) membership).

Lemma observe_infallible status membership b :
  (observe_status status membership b).2
  = mkRuntimeBinding (rb_fsm b ++ observe_calls status membership b) true (Some (ms_role status)) (ms_term status) (ms_leader_id status) membership.
Proof.
  unfold observe_status, observe_calls. fold (now_following status). fold (moved status b).
  generalize (following b && (negb (now_following status) || moved status b)), (leading b && negb (bool_decide (ms_role status = Leader))),
    (negb (leading b) && bool_decide (ms_role status = Leader)), (now_following status && (negb (following b) || moved status b)).
  intros c1 c2 c3 c4. set (config := negb _ && negb _). clearbody config.
  unfold mbind, ST_bind. rewrite open_once_infallible, !call_if_infallible.
  destruct config; cbn; rewrite <- ?app_assoc, ?app_nil_r; done.
Qed.

Lemma not_leading_and_following (b : RuntimeBinding (list FsmHook)) : leading b = true -> following b = false.
Proof. unfold leading, following. intros H%bool_decide_eq_true. rewrite H. done. Qed.

Lemma observe_ok status membership b : binding_ok b -> binding_ok (observe_status status membership b).2.
Proof.
  intros [He Hr]. rewrite observe_infallible. split; [|done]. cbn [rb_fsm rb_opened].
  rewrite (expects_app _ _ _ He). unfold observe_calls, office, hook_all. rewrite !foldl_app.
  set (b' := mkRuntimeBinding _ _ _ _ _ _).
  assert (leading b' = bool_decide (ms_role status = Leader)) as Hl by (unfold leading; cbn; by destruct (ms_role status)).
  assert (following b' = now_following status) as Hf by (unfold following, now_following; cbn; by destruct (ms_role status)).
  pose proof (not_leading_and_following b) as Hx. pose proof (not_leading_and_following b') as Hx'. rewrite Hl, Hf in Hx' |- *.
  assert (moved status b = false -> rb_leader_id b = ms_leader_id status /\ rb_term b = ms_term status) as Hm.
  { unfold moved. intros H. apply orb_false_iff in H as [H1 H2]. apply negb_false_iff in H1, H2.
    apply bool_decide_eq_true in H1. apply N.eqb_eq in H2. done. }
  assert (rb_opened b = false -> leading b = false /\ following b = false) as Ho
    by (intros H; apply Hr in H; unfold leading, following; rewrite H; done).
  set (config := negb _ && negb _). clearbody config. cbn [rb_term rb_leader_id b'].
  clear He Hl Hf Hr. clearbody b'.
  destruct (rb_opened b), (leading b), (following b), (bool_decide (ms_role status = Leader)), (now_following status), (moved status b), config;
    try (discriminate (Hx eq_refl)); try (discriminate (Hx' eq_refl)); try (by destruct (Ho eq_refl));
    cbn; rewrite ?N.eqb_refl; cbn; try reflexivity; destruct (Hm eq_refl) as [-> ->]; reflexivity.
Qed.

Lemma open_ok b : binding_ok b -> binding_ok (binding_open b).2.
Proof.
  intros [He Hr]. unfold binding_open, mbind, ST_bind. rewrite open_once_infallible. cbn [gets snd].
  destruct b as [calls opened role term leader membership]. cbn in *. split; [|done]. cbn [rb_fsm].
  destruct opened; cbn; [by rewrite app_nil_r|]. rewrite (expects_app _ _ _ He). rewrite (Hr eq_refl). reflexivity.
Qed.

Lemma close_ok b : binding_ok b -> binding_ok (binding_close b).2.
Proof.
  intros [He Hr]. unfold binding_close, mbind, ST_bind. rewrite !call_if_infallible. cbn [modify mret ST_ret snd].
  split; [|done]. pose proof (not_leading_and_following b) as Hx.
  assert (rb_opened b = false -> leading b = false /\ following b = false) as Ho
    by (intros H; apply Hr in H; unfold leading, following; rewrite H; done).
  destruct b as [calls opened role term leader membership]. cbn [rb_fsm rb_opened rb_term rb_leader_id] in *. cbn. rewrite <- !app_assoc.
  rewrite (expects_app _ _ _ He). unfold office in *. cbn [rb_term rb_leader_id] in *. clear He Hr.
  set (lead := leading _) in *. set (fol := following _) in *. clearbody lead fol.
  destruct opened, lead, fol; try (discriminate (Hx eq_refl)); try (by destruct (Ho eq_refl)); cbn; rewrite ?N.eqb_refl; reflexivity.
Qed.

(** C32: The hooks of a state machine come in pairs. Whatever statuses and memberships
    are observed, in any order, with opens and closes in between, and as long as no
    hook fails: the state machine is opened before and closed after any other call, it
    is told of one office at a time, it is told to stop leading before anything else
    begins, and to stop following a leader of a term just when it was told to start
    following that leader in that term. *)
Theorem hooks_come_in_pairs ops :
  let b := foldl (fun b op => binding_step op b) (binding_new []) ops in
  expects (rb_fsm b) = Some (mkHookState (rb_opened b) (office b)).
Proof.
  cbv zeta. assert (forall b, binding_ok b -> binding_ok (foldl (fun b op => binding_step op b) b ops)) as H.
  { induction ops as [|op ops IH]; intros b Hb; [done|]. cbn. apply IH.
    destruct op; cbn; [by apply open_ok|by apply close_ok|by apply observe_ok]. }
  apply H. by split.
Qed.
End infallible.

(** A hook that fails leaves the binding at the status it had, although the hooks
    before it were called: they are called once more with the next status. *)
Theorem failed_hook_repeats_the_ones_before :
  let refuses calls hook := match hook with HLeaderStart _ => (length calls <? 4)%nat | _ => false end in
  let step := @binding_step (list FsmHook) (recording_fsm refuses) in
  let b := foldl (fun b op => step op b) (binding_new [])
             [BObserve (mkMatrixRaftStatus Follower 1 (Some 2%N)) []; BObserve (mkMatrixRaftStatus Leader 2 (Some 1%N)) [];
              BObserve (mkMatrixRaftStatus Leader 2 (Some 1%N)) []] in
  rb_fsm b = [HOpen; HStartFollowing 1 2; HStopFollowing 1 2; HStopFollowing 1 2; HLeaderStart 2] /\ expects (rb_fsm b) = None.
Proof. vm_compute. by split. Qed.
