(* ===== verification/Applier.v ===== *)
(** * Applying on a shared pool, and waiting for it

    [src/applier.rs]: [GroupApplier] takes the apply tasks of one group from a worker,
    hands them to the host's handler in bounded batches, and records how far the
    handler says it got; [wait_for_applied] lets a read wait for that. The handler
    belongs to the host: it is a function from the batches it has had and the new one
    to its report. The tasks are those of [src/scheduler.rs].

    A group's record is shared between its worker, the submitters and the waiters, and
    each of the definitions below holds its lock once; the wait is the test a waiter
    makes each time it holds the lock. The theorem: a wait is never told that an index
    is reached which no batch carried and no handler reported. *)

From stdpp Require Import base strings pretty numbers list.
From S2P Require Import Prelude Types Driver.

Record ApplyTask := mkApplyTask { atk_entries : list LogEntry; atk_snapshot : option SnapshotMetadata }.

Record ApplierOptions := mkApplierOptions { apo_applier_num : N; apo_apply_max_batch_count : N; apo_max_queue_depth : N }.
Definition ApplierOptions_default : ApplierOptions := mkApplierOptions 2 64 4096.
Definition ApplierOptions_validate (o : ApplierOptions) : Result unit :=
  if (apo_applier_num o =? 0)%N then Err (InvalidRequest "applier requires at least one thread")
  else if (apo_apply_max_batch_count o =? 0)%N then Err (InvalidRequest "apply batch count must be at least 1")
  else Ok tt.
Definition to_driver_options (o : ApplierOptions) : DriverOptions :=
  mkDriverOptions (apo_applier_num o) (apo_apply_max_batch_count o) (apo_max_queue_depth o)
    (do_driver_batch_bytes DriverOptions_default) (do_tick_interval_ms DriverOptions_default).

Definition matrixraft_apply_task_through_index (task : ApplyTask) : N :=
  default 0%N ((fun entry => lid_index (log_id entry)) <$> last (atk_entries task)).

Definition task_ceiling (task : ApplyTask) : N :=
  N.max (matrixraft_apply_task_through_index task) (default 0%N (snap_index <$> atk_snapshot task)).
(** [iter().map(..).max().unwrap_or_default()] *)
Definition matrixraft_apply_batch_ceiling (tasks : list ApplyTask) : N := foldr N.max 0%N (task_ceiling <$> tasks).

Inductive ApplyReport :=
  | ReportReached (applied_index : N)
  | ReportStalled (applied_index : N) (reason : string).
Definition report_index (r : ApplyReport) : N := match r with ReportReached i | ReportStalled i _ => i end.
Definition is_stalled (r : ApplyReport) : bool := match r with ReportStalled _ _ => true | _ => false end.

Record ApplyStall := mkApplyStall { ast_applied_index : N; ast_reason : string }.

Record AppliedState := mkAppliedState {
  as_applied_index : N;
  as_batches : N;
  as_tasks : N;
  as_cancelled : bool;
  as_stall : option ApplyStall;
  as_over_reports : N
}.
#[export] Instance eta_AppliedState : Settable AppliedState :=
  fun s => mkAppliedState (as_applied_index s) (as_batches s) (as_tasks s) (as_cancelled s) (as_stall s) (as_over_reports s).
Definition applied_state_default : AppliedState := mkAppliedState 0 0 0 false None 0.

Record GroupApplyProgress := mkGroupApplyProgress {
  gap_applied_index : N; gap_batches_applied : N; gap_tasks_applied : N; gap_over_reported_applies : N }.
Definition progress (s : AppliedState) : GroupApplyProgress :=
  mkGroupApplyProgress (as_applied_index s) (as_batches s) (as_tasks s) (as_over_reports s).

(** What a report does to the record, with its lock held. *)
Definition record_report (count ceiling : N) (report : ApplyReport) (s : AppliedState) : AppliedState :=
  let reported := report_index report in
  let reached := N.min reported ceiling in
  let s := if (ceiling <? reported)%N then s <| as_over_reports ::= (fun n => n +s 1) |> else s in
  let s := if (as_applied_index s <? reached)%N then s <| as_applied_index := reached |> else s in
  let s := s <| as_batches ::= (fun n => n + 1)%N |> <| as_tasks ::= (fun n => n + count)%N |> in
  match report with
  | ReportStalled applied_index reason => s <| as_stall := Some (mkApplyStall (N.min applied_index ceiling) reason) |>
  | ReportReached _ => s
  end.

(** What happened to a group: the batches with their reports, and the resumes. *)
Inductive ApplyEvent := EBatch (tasks : list ApplyTask) (report : ApplyReport) | EResume.

Section applier.
Context (handler : list ApplyEvent -> list ApplyTask -> ApplyReport) (apply_max_batch_count : nat).

Record GroupApplier := mkGroupApplier { gr_applied : AppliedState; gr_events : list ApplyEvent }.

Definition apply_batch (tasks : list ApplyTask) (g : GroupApplier) : bool * GroupApplier :=
  let count := N.of_nat (length tasks) in
  let ceiling := matrixraft_apply_batch_ceiling tasks in
  let report := handler (gr_events g) tasks in
  (is_stalled report,
   mkGroupApplier (record_report count ceiling report (gr_applied g)) (gr_events g ++ [EBatch tasks report])).

(** The loop over bounded batches. *)
Fixpoint batch_loop (fuel : nat) (remaining : list ApplyTask) (g : GroupApplier) : GroupApplier :=
  match fuel with
  | O => g
  | S fuel =>
      let batch_limit := Nat.max apply_max_batch_count 1 in
      let batch := take batch_limit remaining in
      if bool_decide (length batch = 0%nat) then g
      else let '(stalled, g) := apply_batch batch g in
           if stalled : bool then g else batch_loop fuel (drop batch_limit remaining) g
  end.

Definition handle_mail (tasks : list ApplyTask) (g : GroupApplier) : GroupApplier :=
  if bool_decide (is_Some (as_stall (gr_applied g))) then g
  else if bool_decide (length tasks = 0%nat) then g
  else if (length tasks <=? Nat.max apply_max_batch_count 1)%nat then (apply_batch tasks g).2
  else batch_loop (S (length tasks)) tasks g.

Definition resume_group (g : GroupApplier) : bool * GroupApplier :=
  match as_stall (gr_applied g) with
  | None => (false, g)
  | Some _ => (true, mkGroupApplier ((gr_applied g) <| as_stall := None |>) (gr_events g ++ [EResume]))
  end.

Definition cancel (g : GroupApplier) : GroupApplier := mkGroupApplier ((gr_applied g) <| as_cancelled := true |>) (gr_events g).

(** The refusal of [submit]. *)
Definition stalled_refusal (key : DriverGroupKey) (g : GroupApplier) : option RaftError :=
  (fun stall => InvalidRequest ("group " ++s pretty (dgk_group_id key) ++s " node " ++s pretty (dgk_node_id key)
                                ++s " has stalled at applied index " ++s pretty (ast_applied_index stall) ++s ": " ++s ast_reason stall))
  <$> as_stall (gr_applied g).

Inductive ApplyWait :=
  | WaitReached (applied_index : N)
  | WaitTimedOut (applied_index : N)
  | WaitGroupGone (applied_index : N)
  | WaitStalled (applied_index : N).

(** One turn of the loop of [wait_for_applied]; [None]: it waits on. *)
Definition wait_for_applied (index : N) (past_deadline : bool) (g : GroupApplier) : option ApplyWait :=
  let applied := gr_applied g in
  if (index <=? as_applied_index applied)%N then Some (WaitReached (as_applied_index applied))
  else if as_cancelled applied then Some (WaitGroupGone (as_applied_index applied))
  else if bool_decide (is_Some (as_stall applied)) then Some (WaitStalled (as_applied_index applied))
  else if past_deadline then Some (WaitTimedOut (as_applied_index applied))
  else None.

Inductive ApplierOp := PDeliver (tasks : list ApplyTask) | PResume | PCancel.
Definition applier_step (g : GroupApplier) (op : ApplierOp) : GroupApplier :=
  match op with PDeliver tasks => handle_mail tasks g | PResume => (resume_group g).2 | PCancel => cancel g end.
Definition group_new : GroupApplier := mkGroupApplier applied_state_default [].
Definition run_applier (ops : list ApplierOp) : GroupApplier := foldl applier_step group_new ops.

(** ** What the record says of the events *)

Definition reached_by (e : ApplyEvent) : N :=
  match e with EBatch tasks report => N.min (report_index report) (matrixraft_apply_batch_ceiling tasks) | EResume => 0%N end.
Definition batch_tasks (e : ApplyEvent) : list ApplyTask := match e with EBatch tasks _ => tasks | EResume => [] end.

(** Whether the group is stalled after the events; [None] if a batch was handed out to
    a stalled group. *)
Definition stall_step (acc : option bool) (e : ApplyEvent) : option bool :=
  match acc, e with
  | Some false, EBatch _ report => Some (is_stalled report)
  | Some true, EResume => Some false
  | _, _ => None
  end.
Definition stalled_after (events : list ApplyEvent) : option bool := foldl stall_step (Some false) events.

Definition bounded_batch (e : ApplyEvent) : Prop :=
  match e with EBatch tasks _ => (0 < length tasks <= Nat.max apply_max_batch_count 1)%nat | EResume => True end.

Record group_ok (g : GroupApplier) : Prop := mk_group_ok {
  go_index : as_applied_index (gr_applied g) = foldr N.max 0%N (reached_by <$> gr_events g);
  go_stall : stalled_after (gr_events g) = Some (bool_decide (is_Some (as_stall (gr_applied g))));
  go_bound : Forall bounded_batch (gr_events g)
}.

Lemma foldr_max_snoc (l : list N) x : foldr N.max 0%N (l ++ [x]) = N.max (foldr N.max 0%N l) x.
Proof. induction l as [|y l IH]; cbn; [lia|]. rewrite IH. lia. Qed.

Lemma record_report_fields count ceiling report s :
  as_applied_index (record_report count ceiling report s) = N.max (as_applied_index s) (N.min (report_index report) ceiling)
  /\ (as_stall s = None -> bool_decide (is_Some (as_stall (record_report count ceiling report s))) = is_stalled report).
Proof.
  unfold record_report. destruct (ceiling <? report_index report)%N; cbn;
    destruct (N.ltb_spec (as_applied_index s) (N.min (report_index report) ceiling)); destruct report; cbn in *; (split; [lia|]); intros Hs; rewrite ?Hs; done.
Qed.

Lemma apply_batch_ok tasks g :
  group_ok g -> as_stall (gr_applied g) = None -> (0 < length tasks <= Nat.max apply_max_batch_count 1)%nat ->
  group_ok (apply_batch tasks g).2
  /\ (apply_batch tasks g).1 = bool_decide (is_Some (as_stall (gr_applied (apply_batch tasks g).2))).
Proof.
  intros [H1 H2 H3] Hs Ht. unfold apply_batch. cbn [fst snd]. set (report := handler _ _). clearbody report.
  destruct (record_report_fields (N.of_nat (length tasks)) (matrixraft_apply_batch_ceiling tasks) report (gr_applied g)) as [E1 E2].
  split; [|symmetry; by apply E2]. constructor; cbn [gr_applied gr_events].
  - rewrite E1, H1, fmap_app. cbn. by rewrite foldr_max_snoc.
  - unfold stalled_after in *. rewrite foldl_snoc, H2, Hs. cbn. by rewrite E2.
  - apply Forall_app. split; [done|]. by constructor.
Qed.

Lemma batch_loop_ok fuel remaining g :
  group_ok g -> as_stall (gr_applied g) = None -> (length remaining < fuel)%nat ->
  group_ok (batch_loop fuel remaining g)
  /\ exists batches rest, gr_events (batch_loop fuel remaining g) = gr_events g ++ batches /\ remaining = mjoin (batch_tasks <$> batches) ++ rest
       /\ (as_stall (gr_applied (batch_loop fuel remaining g)) = None -> rest = []).
Proof.
  revert remaining g. induction fuel as [|fuel IH]; intros remaining g Hok Hs Hf; [lia|]. cbn [batch_loop].
  set (limit := Nat.max apply_max_batch_count 1). case_bool_decide as H0.
  { split; [done|]. exists [], []. rewrite !app_nil_r. cbn. split_and!; [done| |done].
    rewrite length_take in H0. apply length_zero_iff_nil. lia. }
  assert (0 < length (take limit remaining) <= limit)%nat as Hb by (rewrite length_take in *; lia).
  destruct (apply_batch_ok _ g Hok Hs Hb) as [Hok1 Hst]. unfold apply_batch in *. cbn [fst snd] in *.
  set (report := handler _ _) in *. set (g1 := mkGroupApplier _ _) in *.
  destruct (is_stalled report) eqn:Hr.
  - split; [done|]. exists [EBatch (take limit remaining) report], (drop limit remaining). cbn. rewrite app_nil_r, take_drop.
    split_and!; [done|done|]. intros H. change (as_stall (gr_applied g1) = None) in H. symmetry in Hst. apply bool_decide_eq_true in Hst as [x Hx]. congruence.
  - assert (as_stall (gr_applied g1) = None) as Hs1 by (symmetry in Hst; apply bool_decide_eq_false in Hst; by apply eq_None_not_Some).
    destruct (IH (drop limit remaining) g1 Hok1 Hs1) as (Hok2 & batches & rest & E1 & E2 & E3); [rewrite length_drop; rewrite length_take in Hb; lia|].
    split; [done|]. exists (EBatch (take limit remaining) report :: batches), rest. split_and!; [|cbn|done].
    + rewrite E1. cbn. by rewrite <- app_assoc.
    + rewrite <- (take_drop limit remaining) at 1. rewrite E2 at 1. apply app_assoc.
Qed.

Lemma handle_mail_ok tasks g :
  group_ok g -> group_ok (handle_mail tasks g)
  /\ exists batches rest, gr_events (handle_mail tasks g) = gr_events g ++ batches /\ tasks = mjoin (batch_tasks <$> batches) ++ rest
       /\ (as_stall (gr_applied (handle_mail tasks g)) = None -> rest = []).
Proof.
  intros Hok. unfold handle_mail. case_bool_decide as Hs.
  { split; [done|]. exists [], tasks. rewrite app_nil_r. split_and!; [done|done|]. intros H. rewrite H in Hs. by destruct Hs. }
  apply eq_None_not_Some in Hs. case_bool_decide as H0.
  { split; [done|]. exists [], []. rewrite app_nil_r. split_and!; [done|by apply length_zero_iff_nil|done]. }
  destruct (Nat.leb_spec (length tasks) (Nat.max apply_max_batch_count 1)) as [Hl|Hl]; [|apply batch_loop_ok; [done|done|lia]].
  destruct (apply_batch_ok tasks g Hok Hs) as [Hok1 _]; [lia|]. split; [done|].
  exists [EBatch tasks (handler (gr_events g) tasks)], []. cbn. rewrite !app_nil_r. by split_and!.
Qed.

Lemma run_applier_ok ops : group_ok (run_applier ops).
Proof.
  unfold run_applier. assert (forall g, group_ok g -> group_ok (foldl applier_step g ops)) as H.
  { induction ops as [|op ops IH]; intros g Hg; [done|]. cbn. apply IH. destruct op; cbn.
    - by apply handle_mail_ok.
    - unfold resume_group. destruct (as_stall (gr_applied g)) as [stall|] eqn:Hs; [|done]. destruct Hg as [H1 H2 H3]. constructor; cbn.
      + rewrite fmap_app. change (reached_by <$> [EResume]) with [0%N]. rewrite foldr_max_snoc, <- H1. lia.
      + unfold stalled_after in *. rewrite foldl_snoc, H2, Hs. done.
      + apply Forall_app. split; [done|]. by constructor.
    - destruct Hg as [H1 H2 H3]. by constructor. }
  apply H. constructor; [done|done|constructor].
Qed.

Lemma foldr_max_elem (l : list N) x : (0 < x)%N -> (x <= foldr N.max 0 l)%N -> exists y, y ∈ l /\ (x <= y)%N.
Proof.
  intros Hx. induction l as [|y l IH]; cbn; intros H; [lia|]. destruct (decide (x <= y)%N); [exists y; split; [left|done]|].
  destruct IH as (z & Hz & Hle); [lia|]. exists z. split; [by right|done].
Qed.

(** C17: A wait is never told that an index is reached which the group was not given and
    did not report. Whatever a handler reports, and however deliveries, resumes and the
    cancel come: a wait that ends with the index reached, or any other way, says so of
    an index (if not zero) at or below which some batch's work ended and which the
    handler of that batch reported; no batch is handed to a stalled group before it is
    resumed, and none is empty or larger than its bound. *)
Theorem reached_means_applied ops index past_deadline wait :
  let g := run_applier ops in
  wait_for_applied index past_deadline g = Some wait ->
  stalled_after (gr_events g) = Some (bool_decide (is_Some (as_stall (gr_applied g))))
  /\ Forall bounded_batch (gr_events g)
  /\ match wait with
     | WaitReached reached => (index <= reached)%N
         /\ (reached = 0%N \/ exists tasks report, EBatch tasks report ∈ gr_events g
               /\ (reached <= matrixraft_apply_batch_ceiling tasks)%N /\ (reached <= report_index report)%N)
     | WaitTimedOut reached | WaitGroupGone reached | WaitStalled reached => (reached < index)%N
     end.
Proof.
  cbv zeta. intros Hw. destruct (run_applier_ok ops) as [H1 H2 H3]. split_and!; [done|done|].
  set (g := run_applier ops) in *. clearbody g. unfold wait_for_applied in Hw.
  destruct (N.leb_spec index (as_applied_index (gr_applied g))) as [Hle|Hlt].
  - injection Hw as <-. split; [done|]. destruct (decide (as_applied_index (gr_applied g) = 0%N)) as [|Hne]; [by left|right].
    destruct (foldr_max_elem (reached_by <$> gr_events g) (as_applied_index (gr_applied g))) as (y & Hy & Hyle); [lia|lia|].
    apply list_elem_of_fmap in Hy as (e & -> & He). destruct e as [tasks report|]; cbn in Hyle; [|lia].
    exists tasks, report. split_and!; [done|lia|lia].
  - destruct (as_cancelled _); [by injection Hw as <-|]. case_bool_decide; [by injection Hw as <-|].
    destruct past_deadline; [|done]. by injection Hw as <-.
Qed.
End applier.

Definition sample_task (index : N) : ApplyTask := mkApplyTask [mkLogEntry (mkLogId 1 index) [] true] None.
(** A handler that reports too much, and refuses what carries the fourth entry. *)
Definition sample_handler (events : list ApplyEvent) (tasks : list ApplyTask) : ApplyReport :=
  if (4 <=? matrixraft_apply_batch_ceiling tasks)%N then ReportStalled 3 "refused" else ReportReached 9000.

Example over_report_is_clamped :
  progress (gr_applied (run_applier sample_handler 2 [PDeliver [sample_task 1; sample_task 2; sample_task 3; sample_task 4; sample_task 5]]))
  = mkGroupApplyProgress 3 2 4 1.
Proof. vm_compute. reflexivity. Qed.

Lemma reached_means_applied_witness :
  let g := run_applier sample_handler 2 [PDeliver [sample_task 1; sample_task 2; sample_task 3; sample_task 4; sample_task 5]] in
  wait_for_applied 3 false g = Some (WaitReached 3) /\ wait_for_applied 5 false g = Some (WaitStalled 3)
  /\ exists tasks report, EBatch tasks report ∈ gr_events g /\ (3 <= matrixraft_apply_batch_ceiling tasks)%N.
Proof.
  intros g. split; [vm_compute; reflexivity|]. split; [vm_compute; reflexivity|].
  destruct (reached_means_applied sample_handler 2 [PDeliver [sample_task 1; sample_task 2; sample_task 3; sample_task 4; sample_task 5]]
    3 false (WaitReached 3)) as (_ & _ & _ & [H|(tasks & report & H1 & H2 & _)]); [vm_compute; reflexivity|discriminate H|].
  by exists tasks, report.
Defined.
