(* ===== verification/Merge.v ===== *)
(** * Merging heartbeats

    [src/heartbeat_merge.rs]: heartbeats bound for one peer are held back, in buckets
    by the hash of the peer's address, and leave together with a flush. The resolver of
    addresses belongs to the host and the hasher to the Rust library: both are
    parameters. A bucket has a lock of its own, so a flush is one step per bucket and
    offers come in between ([MFlushBucket]).

    The theorem: however offers and flushes interleave, the heartbeats of a peer leave
    in the order in which they were offered, none lost and none twice, and anything
    that is no heartbeat is handed back. *)

From stdpp Require Import base strings pretty numbers sorting gmap fin_maps sets list.
From S2P Require Import Prelude Types Dispatch.

Definition MATRIXRAFT_HEARTBEAT_MERGE_BUCKETS : nat := 16.

Inductive HeartbeatMergeMessage :=
  | HbRequest (target : N) (request : AppendEntriesRequest)
  | HbResponse (local_node_id peer_id : N) (response : AppendEntriesResponse).

Definition from_node_id (m : HeartbeatMergeMessage) : N :=
  match m with HbRequest _ request => aer_leader_id request | HbResponse local_node_id _ _ => local_node_id end.
Definition to_node_id (m : HeartbeatMergeMessage) : N :=
  match m with HbRequest target _ => target | HbResponse _ peer_id _ => peer_id end.
Definition into_raft_message (m : HeartbeatMergeMessage) : Message :=
  match m with
  | HbRequest target request => MAppendEntries target request
  | HbResponse local_node_id peer_id response => MAppendEntriesResponse local_node_id peer_id response
  end.

Record HeartbeatMergeStats := mkHeartbeatMergeStats {
  hms_queued_requests : N; hms_queued_responses : N; hms_flushed_requests : N; hms_flushed_responses : N;
  hms_bypassed_messages : N; hms_resolver_failures : N }.
#[export] Instance eta_HeartbeatMergeStats : Settable HeartbeatMergeStats :=
  fun s => mkHeartbeatMergeStats (hms_queued_requests s) (hms_queued_responses s) (hms_flushed_requests s)
    (hms_flushed_responses s) (hms_bypassed_messages s) (hms_resolver_failures s).

Abbreviation Bucket := (gmap string (list HeartbeatMergeMessage)) (only parsing).

Record HeartbeatMerger := mkHeartbeatMerger { hm_enabled : bool; hm_buckets : list Bucket; hm_counters : HeartbeatMergeStats }.
#[export] Instance eta_HeartbeatMerger : Settable HeartbeatMerger :=
  fun m => mkHeartbeatMerger (hm_enabled m) (hm_buckets m) (hm_counters m).

Record MergedHeartbeatBatch := mkMergedHeartbeatBatch { mhb_raft_addr : string; mhb_messages : list HeartbeatMergeMessage }.

Definition with_bucket_count (enabled : bool) (bucket_count : nat) : HeartbeatMerger :=
  mkHeartbeatMerger enabled (replicate (Nat.max bucket_count 1) ∅) (mkHeartbeatMergeStats 0 0 0 0 0 0).
Definition merger_new (enabled : bool) : HeartbeatMerger := with_bucket_count enabled MATRIXRAFT_HEARTBEAT_MERGE_BUCKETS.

Definition bucket_len (b : Bucket) : nat := sum_list_with length (map_to_list b).*2.
Definition pending_in_bucket (index : nat) (m : HeartbeatMerger) : option nat := bucket_len <$> hm_buckets m !! index.
Definition pending_len (m : HeartbeatMerger) : nat := sum_list_with bucket_len (hm_buckets m).

(** [BTreeMap<String, _>] iterates by key. *)
Definition addr_le (a b : string * list HeartbeatMergeMessage) : Prop := String.leb a.1 b.1 = true.
#[export] Instance addr_le_dec a b : Decision (addr_le a b).
Proof. unfold addr_le. apply _. Defined.
Definition bucket_entries (b : Bucket) : list (string * list HeartbeatMergeMessage) := merge_sort addr_le (map_to_list b).

Definition count_queued (m : HeartbeatMergeMessage) (s : HeartbeatMergeStats) : HeartbeatMergeStats :=
  match m with HbRequest _ _ => s <| hms_queued_requests ::= N.succ |> | HbResponse _ _ _ => s <| hms_queued_responses ::= N.succ |> end.
Definition count_flushed (s : HeartbeatMergeStats) (m : HeartbeatMergeMessage) : HeartbeatMergeStats :=
  match m with HbRequest _ _ => s <| hms_flushed_requests ::= N.succ |> | HbResponse _ _ _ => s <| hms_flushed_responses ::= N.succ |> end.

Section merger.
Context (resolve_raft_addr : N -> N -> result RaftError string) (hash : string -> N).

Definition bucket_for_addr (raft_addr : string) (bucket_count : nat) : nat :=
  N.to_nat (hash raft_addr `mod` N.of_nat (Nat.max bucket_count 1)).

Definition queue_heartbeat (heartbeat : HeartbeatMergeMessage) : ST RaftError HeartbeatMerger unit := fun m =>
  match resolve_raft_addr (from_node_id heartbeat) (to_node_id heartbeat) with
  | Err error => (Err error, m <| hm_counters ::= (fun s => s <| hms_resolver_failures ::= N.succ |>) |>)
  | Ok raft_addr =>
      let bucket := bucket_for_addr raft_addr (length (hm_buckets m)) in
      (Ok tt, m <| hm_counters ::= count_queued heartbeat |>
                <| hm_buckets ::= alter (fun b => <[raft_addr := default [] (b !! raft_addr) ++ [heartbeat]]> b) bucket |>)
  end.

Definition bypass (m : HeartbeatMerger) : HeartbeatMerger := m <| hm_counters ::= (fun s => s <| hms_bypassed_messages ::= N.succ |>) |>.

(** [None]: the message was absorbed. *)
Definition maybe_merge (message : Message) : ST RaftError HeartbeatMerger (option Message) := fun m =>
  if negb (hm_enabled m) then (Ok (Some message), bypass m)
  else match message with
  | MAppendEntries target request =>
      if bool_decide (aer_entries request = []) then (_ ← queue_heartbeat (HbRequest target request); mret None) m
      else (Ok (Some message), bypass m)
  | other => (Ok (Some other), bypass m)
  end.

Definition merge_heartbeat_response (local_node_id peer_id : N) (response : AppendEntriesResponse) : ST RaftError HeartbeatMerger unit := fun m =>
  if negb (hm_enabled m) then (Ok tt, bypass m) else queue_heartbeat (HbResponse local_node_id peer_id response) m.

(** What a flush does to one bucket. *)
Definition flush_bucket (index : nat) (m : HeartbeatMerger) : list MergedHeartbeatBatch * HeartbeatMerger :=
  let drained := default ∅ (hm_buckets m !! index) in
  let batches := (fun '(raft_addr, messages) => mkMergedHeartbeatBatch raft_addr messages) <$> bucket_entries drained in
  (batches, m <| hm_buckets ::= alter (fun _ => ∅) index |>
              <| hm_counters ::= (fun s => foldl count_flushed s (mjoin (mhb_messages <$> batches))) |>).

Fixpoint flush_from (indexes : list nat) (m : HeartbeatMerger) : list MergedHeartbeatBatch * HeartbeatMerger :=
  match indexes with
  | [] => ([], m)
  | index :: indexes =>
      let '(batches, m) := flush_bucket index m in
      let '(more, m) := flush_from indexes m in (batches ++ more, m)
  end.
Definition flush (m : HeartbeatMerger) : list MergedHeartbeatBatch * HeartbeatMerger := flush_from (seq 0 (length (hm_buckets m))) m.
Definition flush_messages (m : HeartbeatMerger) : list Message * HeartbeatMerger :=
  let '(batches, m) := flush m in (into_raft_message <$> (batches ≫= mhb_messages), m).
End merger.

(** ** The flusher *)

Record HeartbeatFlusher := mkHeartbeatFlusher { hf_merger : HeartbeatMerger; hf_flushes : N; hf_batches_sent : N; hf_messages_sent : N }.
#[export] Instance eta_HeartbeatFlusher : Settable HeartbeatFlusher :=
  fun f => mkHeartbeatFlusher (hf_merger f) (hf_flushes f) (hf_batches_sent f) (hf_messages_sent f).
Definition flusher_new (merger : HeartbeatMerger) : HeartbeatFlusher := mkHeartbeatFlusher merger 0 0 0.

(** The count, and what the sender is called with, if it is. *)
Definition flush_now (f : HeartbeatFlusher) : nat * option (list MergedHeartbeatBatch) * HeartbeatFlusher :=
  let '(batches, merger) := flush (hf_merger f) in
  let f := f <| hf_merger := merger |> <| hf_flushes ::= N.succ |> in
  if bool_decide (length batches = 0%nat) then (0%nat, None, f)
  else (length batches, Some batches,
        f <| hf_batches_sent ::= N.add (N.of_nat (length batches)) |>
          <| hf_messages_sent ::= N.add (N.of_nat (sum_list_with (fun b => length (mhb_messages b)) batches)) |>).

(** ** Offers and flushes *)

Definition at_addr (m : gmap string (list HeartbeatMergeMessage)) (addr : string) : list HeartbeatMergeMessage := default [] (m !! addr).
Definition add_at (m : gmap string (list HeartbeatMergeMessage)) (addr : string) (messages : list HeartbeatMergeMessage)
    : gmap string (list HeartbeatMergeMessage) := <[addr := at_addr m addr ++ messages]> m.

Inductive MergeOp :=
  | MOffer (message : Message)
  | MOfferResponse (local_node_id peer_id : N) (response : AppendEntriesResponse)
  | MFlushBucket (index : nat).

(** The merger, and by address what it took in and what it let go. *)
Record MergeHistory := mkMergeHistory { mh_merger : HeartbeatMerger; mh_offered : Bucket; mh_sent : Bucket }.

Section history.
Context (resolve_raft_addr : N -> N -> result RaftError string) (hash : string -> N).

Definition took_in (heartbeat : HeartbeatMergeMessage) (offered : Bucket) : Bucket :=
  match resolve_raft_addr (from_node_id heartbeat) (to_node_id heartbeat) with
  | Ok addr => add_at offered addr [heartbeat]
  | Err _ => offered
  end.

Definition merge_step (h : MergeHistory) (op : MergeOp) : MergeHistory :=
  match op with
  | MOffer message =>
      let '(r, m) := maybe_merge resolve_raft_addr hash message (mh_merger h) in
      mkMergeHistory m (match r, message with
                        | Ok None, MAppendEntries target request => took_in (HbRequest target request) (mh_offered h)
                        | _, _ => mh_offered h end) (mh_sent h)
  | MOfferResponse local_node_id peer_id response =>
      let '(r, m) := merge_heartbeat_response resolve_raft_addr hash local_node_id peer_id response (mh_merger h) in
      mkMergeHistory m (if hm_enabled (mh_merger h) then took_in (HbResponse local_node_id peer_id response) (mh_offered h) else mh_offered h) (mh_sent h)
  | MFlushBucket index =>
      let '(batches, m) := flush_bucket index (mh_merger h) in
      mkMergeHistory m (mh_offered h) (foldl (fun sent b => add_at sent (mhb_raft_addr b) (mhb_messages b)) (mh_sent h) batches)
  end.
Definition run_merge (enabled : bool) (bucket_count : nat) (ops : list MergeOp) : MergeHistory :=
  foldl merge_step (mkMergeHistory (with_bucket_count enabled bucket_count) ∅ ∅) ops.

Definition pending_at (m : HeartbeatMerger) (addr : string) : list HeartbeatMergeMessage :=
  default [] (b ← hm_buckets m !! bucket_for_addr hash addr (length (hm_buckets m)); b !! addr).

(** An address has its heartbeats in the bucket of its hash and in no other. *)
Record history_ok (h : MergeHistory) : Prop := mk_history_ok {
  ho_some : hm_buckets (mh_merger h) <> [];
  ho_home : forall i b addr, hm_buckets (mh_merger h) !! i = Some b -> is_Some (b !! addr) ->
    i = bucket_for_addr hash addr (length (hm_buckets (mh_merger h)));
  ho_flow : forall addr, at_addr (mh_offered h) addr = at_addr (mh_sent h) addr ++ pending_at (mh_merger h) addr
}.

Lemma at_add m addr messages addr' :
  at_addr (add_at m addr messages) addr' = if decide (addr = addr') then at_addr m addr ++ messages else at_addr m addr'.
Proof. unfold at_addr, add_at. rewrite lookup_insert. by case_decide. Qed.

Lemma bucket_in_range addr n : (bucket_for_addr hash addr n < Nat.max n 1)%nat.
Proof. unfold bucket_for_addr. assert (N.of_nat (Nat.max n 1) <> 0)%N as Hn by lia. pose proof (N.mod_lt (hash addr) _ Hn). lia. Qed.

Lemma queue_ok heartbeat h :
  history_ok h ->
  history_ok (mkMergeHistory (queue_heartbeat resolve_raft_addr hash heartbeat (mh_merger h)).2 (took_in heartbeat (mh_offered h)) (mh_sent h)).
Proof.
  intros [Hs Hh Hf]. unfold queue_heartbeat, took_in. destruct (resolve_raft_addr _ _) as [addr|e]; [|by constructor]. cbn [snd].
  set (m := mh_merger h) in *. set (home := bucket_for_addr hash addr (length (hm_buckets m))).
  assert (is_Some (hm_buckets m !! home)) as [b Hb].
  { apply lookup_lt_is_Some_2. pose proof (bucket_in_range addr (length (hm_buckets m))) as H. fold home in H.
    assert (length (hm_buckets m) <> 0%nat) by (by intros H0%length_zero_iff_nil). lia. }
  constructor; cbn.
  - intros H. apply (f_equal length) in H. rewrite length_alter in H. by apply length_zero_iff_nil in H.
  - intros i b' a Hi Ha. rewrite length_alter. destruct (decide (i = home)) as [->|Hne].
    + rewrite list_lookup_alter_eq, Hb in Hi. injection Hi as <-. apply lookup_insert_is_Some in Ha as [<-|[_ Ha]]; [done|]. by apply (Hh home b a).
    + rewrite list_lookup_alter_ne in Hi by done. by apply (Hh i b' a).
  - intros a. rewrite at_add. unfold pending_at. cbn. rewrite length_alter. case_decide as Ha.
    + subst a. fold home. rewrite list_lookup_alter_eq, Hb. cbn. rewrite lookup_insert_eq. cbn. rewrite (Hf addr), <- app_assoc. f_equal.
      unfold pending_at. fold m home. by rewrite Hb.
    + rewrite (Hf a). f_equal. unfold pending_at. fold m. destruct (decide (bucket_for_addr hash a (length (hm_buckets m)) = home)) as [->|Hne].
      * rewrite list_lookup_alter_eq, Hb. cbn. by rewrite lookup_insert_ne.
      * by rewrite list_lookup_alter_ne.
Qed.

Lemma sent_at sent (l : list (string * list HeartbeatMergeMessage)) addr : NoDup l.*1 ->
  at_addr (foldl (fun sent b => add_at sent (mhb_raft_addr b) (mhb_messages b)) sent
             ((fun '(raft_addr, messages) => mkMergedHeartbeatBatch raft_addr messages) <$> l)) addr
  = at_addr sent addr ++ at_addr (list_to_map l) addr.
Proof.
  revert sent. induction l as [|[a messages] l IH]; intros sent; [intros _; cbn; by rewrite app_nil_r|]. intros [Ha Hn]%NoDup_cons.
  rewrite fmap_cons. cbn [foldl mhb_raft_addr mhb_messages]. rewrite IH by done. rewrite at_add, list_to_map_cons. unfold at_addr. rewrite lookup_insert. case_decide as E; [|done].
  subst a. rewrite (not_elem_of_list_to_map_1 _ _ Ha). cbn. by rewrite app_nil_r.
Qed.

Lemma bucket_entries_map (b : Bucket) : NoDup (bucket_entries b).*1 /\ (list_to_map (bucket_entries b) : Bucket) = b.
Proof.
  assert (bucket_entries b ≡ₚ map_to_list b) as Hp by apply merge_sort_Permutation.
  assert (NoDup (bucket_entries b).*1) as Hn by (rewrite Hp; apply NoDup_fst_map_to_list). split; [done|].
  rewrite <- (list_to_map_to_list b) at 2. by apply list_to_map_proper.
Qed.

Lemma flush_bucket_ok index h :
  history_ok h -> history_ok (merge_step h (MFlushBucket index)).
Proof.
  intros [Hs Hh Hf]. cbn. set (m := mh_merger h) in *. set (drained := default ∅ (hm_buckets m !! index)).
  destruct (bucket_entries_map drained) as [Hn Hm]. constructor; cbn; rewrite ?length_alter.
  - intros H. apply (f_equal length) in H. rewrite length_alter in H. by apply length_zero_iff_nil in H.
  - intros i b a Hi Ha. destruct (decide (i = index)) as [->|Hne].
    + rewrite list_lookup_alter_eq in Hi. destruct (hm_buckets m !! index); [|done]. injection Hi as <-. rewrite lookup_empty in Ha. by destruct Ha.
    + rewrite list_lookup_alter_ne in Hi by done. by apply (Hh i b a).
  - intros a. rewrite sent_at, Hm by done. rewrite (Hf a), <- app_assoc. f_equal. unfold pending_at. cbn. rewrite length_alter. fold m.
    set (home := bucket_for_addr hash a (length (hm_buckets m))). unfold at_addr, drained. destruct (decide (index = home)) as [->|Hne].
    + rewrite list_lookup_alter_eq. destruct (hm_buckets m !! home) as [b|]; cbn; [by rewrite app_nil_r|done].
    + rewrite list_lookup_alter_ne by done. destruct (hm_buckets m !! index) as [b|] eqn:Hb; cbn; [|done].
      destruct (b !! a) as [l|] eqn:Hba; [|done]. exfalso. apply Hne. apply (Hh index b a Hb). by exists l.
Qed.

Lemma merge_step_ok op h : history_ok h -> history_ok (merge_step h op).
Proof.
  intros Hok. destruct op as [message|i p r|index]; [| |by apply flush_bucket_ok]; cbn.
  - unfold maybe_merge. destruct (hm_enabled (mh_merger h)); cbn [negb]; [|by destruct Hok].
    destruct message; try (by destruct Hok). case_bool_decide; [|by destruct Hok]. unfold mbind, ST_bind.
    pose proof (queue_ok (HbRequest target request) h Hok) as H'. unfold queue_heartbeat, took_in in *.
    destruct (resolve_raft_addr _ _); cbn in *; exact H'.
  - unfold merge_heartbeat_response. destruct (hm_enabled (mh_merger h)); cbn [negb]; [|by destruct Hok].
    pose proof (queue_ok (HbResponse i p r) h Hok) as H'. by destruct (queue_heartbeat _ _ _ _).
Qed.

Lemma run_merge_ok enabled bucket_count ops : history_ok (run_merge enabled bucket_count ops).
Proof.
  unfold run_merge. assert (forall h, history_ok h -> history_ok (foldl merge_step h ops)) as H.
  { induction ops as [|op ops IH]; intros h Hh; [done|]. cbn. by apply IH, merge_step_ok. }
  apply H. constructor; cbn.
  - intros E. apply (f_equal length) in E. rewrite length_replicate in E. cbn in E. lia.
  - intros i b a Hi Ha. apply lookup_replicate_1 in Hi as [-> _]. rewrite lookup_empty in Ha. by destruct Ha.
  - intros a. unfold pending_at. cbn. destruct (replicate _ _ !! _) as [b|] eqn:Hb; [|done]. apply lookup_replicate_1 in Hb as [-> _]. done.
Qed.

Lemma queue_pending heartbeat m addr :
  hm_buckets m <> [] -> resolve_raft_addr (from_node_id heartbeat) (to_node_id heartbeat) = Ok addr ->
  exists m', queue_heartbeat resolve_raft_addr hash heartbeat m = (Ok tt, m')
    /\ forall a, pending_at m' a = pending_at m a ++ (if decide (addr = a) then [heartbeat] else []).
Proof.
  intros Hs Hr. unfold queue_heartbeat. rewrite Hr. eexists. split; [reflexivity|]. intros a. unfold pending_at. cbn. rewrite length_alter.
  set (home := bucket_for_addr hash addr (length (hm_buckets m))).
  assert (is_Some (hm_buckets m !! home)) as [b Hb].
  { apply lookup_lt_is_Some_2. pose proof (bucket_in_range addr (length (hm_buckets m))) as H. fold home in H.
    assert (length (hm_buckets m) <> 0%nat) by (by intros H0%length_zero_iff_nil). lia. }
  case_decide as Ha; [subst a; fold home; rewrite list_lookup_alter_eq, Hb; cbn; by rewrite lookup_insert_eq|].
  rewrite app_nil_r. destruct (decide (bucket_for_addr hash a (length (hm_buckets m)) = home)) as [->|Hne].
  - rewrite list_lookup_alter_eq, Hb. cbn. by rewrite lookup_insert_ne.
  - by rewrite list_lookup_alter_ne.
Qed.

(** The heartbeat is held, behind what is held for its address already, or refused with
    the resolver's error and nothing changes. *)
Definition held_or_refused (heartbeat : HeartbeatMergeMessage) {A} (r : Result A) (m m' : HeartbeatMerger) : Prop :=
  match r with
  | Ok _ => exists addr, resolve_raft_addr (from_node_id heartbeat) (to_node_id heartbeat) = Ok addr
      /\ forall a, pending_at m' a = pending_at m a ++ (if decide (addr = a) then [heartbeat] else [])
  | Err e => resolve_raft_addr (from_node_id heartbeat) (to_node_id heartbeat) = Err e /\ hm_buckets m' = hm_buckets m
  end.

Lemma queue_held heartbeat m : hm_buckets m <> [] ->
  let '(r, m') := queue_heartbeat resolve_raft_addr hash heartbeat m in held_or_refused heartbeat r m m'.
Proof.
  intros Hs. unfold held_or_refused. destruct (resolve_raft_addr (from_node_id heartbeat) (to_node_id heartbeat)) as [addr|e] eqn:Hr.
  - destruct (queue_pending heartbeat m addr Hs Hr) as (m' & -> & Hp). by exists addr.
  - unfold queue_heartbeat. by rewrite Hr.
Qed.

(** C33: Merging loses, repeats and reorders no heartbeat it took in. Whatever is offered,
    whichever addresses resolve and however they hash, with flushes that take the buckets
    one at a time in between: what was taken in for an address is, in order, what was
    sent to it followed by what is held for it. A message offered to [maybe_merge] is
    handed back unchanged, unless it is an append request without entries and the
    merger is enabled: then it is held, or refused with the resolver's error. A
    response offered to an enabled merger is held or refused the same way; a disabled
    one answers success and drops it. *)
Theorem merging_keeps_heartbeats enabled bucket_count ops message local_node_id peer_id response :
  let h := run_merge enabled bucket_count ops in
  (forall addr, at_addr (mh_offered h) addr = at_addr (mh_sent h) addr ++ pending_at (mh_merger h) addr)
  /\ match maybe_merge resolve_raft_addr hash message (mh_merger h) with
     | (Ok (Some back), m) => back = message /\ hm_buckets m = hm_buckets (mh_merger h)
     | (r, m) => exists target request, message = MAppendEntries target request /\ aer_entries request = []
         /\ held_or_refused (HbRequest target request) r (mh_merger h) m
     end
  /\ let '(r, m) := merge_heartbeat_response resolve_raft_addr hash local_node_id peer_id response (mh_merger h) in
     if hm_enabled (mh_merger h) then held_or_refused (HbResponse local_node_id peer_id response) r (mh_merger h) m
     else r = Ok tt /\ hm_buckets m = hm_buckets (mh_merger h).
Proof.
  cbv zeta. destruct (run_merge_ok enabled bucket_count ops) as [Hs _ Hf]. split; [exact Hf|]. clear Hf.
  generalize dependent (mh_merger (run_merge enabled bucket_count ops)). intros m Hs. split.
  - unfold maybe_merge. destruct (negb (hm_enabled m)); [done|]. destruct message; try done.
    case_bool_decide as He; [|done]. pose proof (queue_held (HbRequest target request) m Hs) as Hq. unfold mbind, ST_bind.
    destruct (queue_heartbeat _ _ _ m) as [[[]|e] m']; cbn; by exists target, request.
  - unfold merge_heartbeat_response. destruct (hm_enabled m); cbn [negb]; [|done].
    exact (queue_held (HbResponse local_node_id peer_id response) m Hs).
Qed.
End history.

(** A disabled merger hands a heartbeat back, and keeps a response to itself. *)
Theorem disabled_merger_drops_responses resolve hash local_node_id peer_id response m :
  hm_enabled m = false ->
  merge_heartbeat_response resolve hash local_node_id peer_id response m = (Ok tt, bypass m)
  /\ hm_buckets (bypass m) = hm_buckets m.
Proof. intros H. unfold merge_heartbeat_response. by rewrite H. Qed.

Definition sample_resolver (from to : N) : result RaftError string := if (to =? 9)%N then Err NoLeader else Ok (pretty to).
Definition sample_heartbeat (term : N) : AppendEntriesRequest := mkAppendEntriesRequest 1 term 1 None [] 0 0.

Example sample_merge :
  let h := run_merge sample_resolver (fun _ => 5%N) true 3
    [MOffer (MAppendEntries 2 (sample_heartbeat 1)); MOffer (MAppendEntries 9 (sample_heartbeat 2)); MFlushBucket 2;
     MOffer (MAppendEntries 2 (sample_heartbeat 3))] in
  at_addr (mh_sent h) "2" = [HbRequest 2 (sample_heartbeat 1)] /\ pending_len (mh_merger h) = 1%nat
  /\ hms_resolver_failures (hm_counters (mh_merger h)) = 1%N.
Proof. vm_compute. by split_and!. Qed.

Lemma merging_keeps_heartbeats_witness :
  let h := run_merge sample_resolver (fun _ => 5%N) true 3
    [MOffer (MAppendEntries 2 (sample_heartbeat 1)); MFlushBucket 2; MOffer (MAppendEntries 2 (sample_heartbeat 3))] in
  [HbRequest 2 (sample_heartbeat 1); HbRequest 2 (sample_heartbeat 3)]
  = [HbRequest 2 (sample_heartbeat 1)] ++ pending_at (fun _ => 5%N) (mh_merger h) "2".
Proof.
  intros h. pose proof (proj1 (merging_keeps_heartbeats sample_resolver (fun _ => 5%N) true 3
    [MOffer (MAppendEntries 2 (sample_heartbeat 1)); MFlushBucket 2; MOffer (MAppendEntries 2 (sample_heartbeat 3))] (MCatchUpPeer 2)
    1 2 (mkAppendEntriesResponse 1 true 0 None None None SnapshotNone 0 0)) "2"%string) as H.
  exact H.
Defined.
