(* ===== verification/RpcBinary.v ===== *)
(** * The RPC codec

    [src/rpc_binary.rs]: a request envelope or a response as a protobuf message behind
    a frame of a magic, a length and a CRC-32C. The mirrors of log ids, entries and
    snapshot metadata are the write-ahead log's ([WalBinary.v]), and so is the view of
    the protobuf library: [RpcProst] adds the two decoders this file calls, and
    [RpcProstLaws] that each gives an encoded message back. [prost] bounds the depth of
    nested messages, so the law asks that no batch holds a batch, as the validator of
    requests does.

    The theorems: an envelope and a response are read back as they were sent; a frame
    whose body was damaged by a burst of at most thirty-two bits is never read. *)

From stdpp Require Import base strings pretty numbers list.
From Stdlib Require Import Strings.Byte.
From S2P Require Import Prelude Types Slice Bytes Membership Node Wal WalSegments WalBinary SnapshotTransfer.

Set Warnings "-register-all".

(** ** What the transport sends *)

Inductive TcpRaftTransportRequest :=
  | TAppendEntries (target : NodeId) (request : AppendEntriesRequest)
  | TVote (target : NodeId) (request : VoteRequest)
  | TInstallSnapshot (target : NodeId) (request : InstallSnapshotRequest)
  | TReadIndex (target : NodeId) (request : ReadIndexRequest)
  | TBatch (requests : list TcpRaftTransportRequest).

Record TcpRaftTransportEnvelope := mkEnvelope {
  env_cluster_id : N;
  env_user_payload : option string;
  env_request : TcpRaftTransportRequest
}.

Record TcpRaftRpcResult (T : Type) := mkRpcResult { rpc_ok : option T; rpc_error : option string }.
Arguments mkRpcResult {T} _ _.
Arguments rpc_ok {T} _.
Arguments rpc_error {T} _.

Inductive TcpRaftTransportResponse :=
  | RAppendEntries (result : TcpRaftRpcResult AppendEntriesResponse)
  | RVote (result : TcpRaftRpcResult VoteResponse)
  | RInstallSnapshot (result : TcpRaftRpcResult InstallSnapshotResponse)
  | RReadIndex (result : TcpRaftRpcResult ReadIndexResponse)
  | RBatch (responses : list TcpRaftTransportResponse).

Definition from_result {T} (r : Result T) : TcpRaftRpcResult T :=
  match r with Ok ok => mkRpcResult (Some ok) None | Err error => mkRpcResult None (Some (RaftError_to_string error)) end.
Definition into_result {T} (r : TcpRaftRpcResult T) : Result T :=
  ok_or (rpc_ok r) (TransportErr (default "raft RPC failed" (rpc_error r))).

(** ** The mirror messages *)

Record AppendEntriesRequestProto := mkAppendEntriesRequestProto {
  aeq_group_id : N; aeq_term : N; aeq_leader_id : N; aeq_prev_log_id : option LogIdProto;
  aeq_entries : list LogEntryProto; aeq_leader_commit : N; aeq_lease_epoch : N }.
Record AppendEntriesResponseProto := mkAppendEntriesResponseProto {
  aep_term : N; aep_success : bool; aep_match_index : N; aep_rejection_hint : option N; aep_rejected_index : option N;
  aep_require_snapshot : option N; aep_snapshot_state : Z; aep_lease_confirmation_epoch : N; aep_lease_duration_ms : N }.
Record VoteRequestProto := mkVoteRequestProto {
  vqp_group_id : N; vqp_term : N; vqp_candidate_id : N; vqp_last_log_id : option LogIdProto; vqp_pre_vote : bool; vqp_force : bool }.
Record VoteResponseProto := mkVoteResponseProto { vrp_term : N; vrp_vote_granted : bool; vrp_reason : string }.
Record SnapshotChunkProto := mkSnapshotChunkProto {
  scp_meta : option SnapshotMetadataProto; scp_offset : N; scp_data : list byte; scp_done : bool }.
Record InstallSnapshotRequestProto := mkInstallSnapshotRequestProto {
  iqp_group_id : N; iqp_term : N; iqp_leader_id : N; iqp_chunk : option SnapshotChunkProto }.
Record InstallSnapshotResponseProto := mkInstallSnapshotResponseProto {
  irp_term : N; irp_accepted : bool; irp_next_offset : N; irp_committed_index : N; irp_reason : string; irp_throttled : bool }.
Record ReadIndexRequestProto := mkReadIndexRequestProto {
  rqp_group_id : N; rqp_requester_id : N; rqp_min_commit_index : N; rqp_allow_lease_read : bool }.
Record ReadIndexResponseProto := mkReadIndexResponseProto {
  rrp_safe : bool; rrp_read_index : N; rrp_lease_read : bool; rrp_reason : string }.

(** The targeted requests have the same two fields each, and so have the results. *)
Record Targeted (R : Type) := mkTargeted { tg_target : N; tg_request : option R }.
Arguments mkTargeted {R} _ _.
Arguments tg_target {R} _.
Arguments tg_request {R} _.
Abbreviation TargetedAppendProto := (Targeted AppendEntriesRequestProto) (only parsing).
Abbreviation TargetedVoteProto := (Targeted VoteRequestProto) (only parsing).
Abbreviation TargetedInstallProto := (Targeted InstallSnapshotRequestProto) (only parsing).
Abbreviation TargetedReadProto := (Targeted ReadIndexRequestProto) (only parsing).
Record ResultProto (R : Type) := mkResultProto { rp_ok : option R; rp_error : option string }.
Arguments mkResultProto {R} _ _.
Arguments rp_ok {R} _.
Arguments rp_error {R} _.

(** [RpcRequestProto] is [option RequestKind] and [RequestBatchProto] the list of them. *)
Inductive RequestKind :=
  | QAppendEntries (arm : TargetedAppendProto)
  | QVote (arm : TargetedVoteProto)
  | QInstallSnapshot (arm : TargetedInstallProto)
  | QReadIndex (arm : TargetedReadProto)
  | QBatch (requests : list (option RequestKind)).
Abbreviation RpcRequestProto := (option RequestKind) (only parsing).
Inductive ResponseKind :=
  | PAppendEntries (arm : ResultProto AppendEntriesResponseProto)
  | PVote (arm : ResultProto VoteResponseProto)
  | PInstallSnapshot (arm : ResultProto InstallSnapshotResponseProto)
  | PReadIndex (arm : ResultProto ReadIndexResponseProto)
  | PBatch (responses : list (option ResponseKind)).
Abbreviation RpcResponseProto := (option ResponseKind) (only parsing).
Record EnvelopeProto := mkEnvelopeProto { ep_cluster_id : N; ep_user_payload : option string; ep_request : option RpcRequestProto }.

(** ** Conversions *)

Definition rpc_missing (what : string) : RaftError := TransportErr ("a framed RPC is missing " ++s what).

Definition snapshot_state_to_wire (state : SnapshotState) : Z :=
  match state with SnapshotNone => 0 | Creating => 1 | Receiving => 2 | Received => 3 | NotReady => 4 end.
Definition snapshot_state_from_wire (value : Z) : Result SnapshotState :=
  match value with
  | 0%Z => Ok SnapshotNone | 1%Z => Ok Creating | 2%Z => Ok Receiving | 3%Z => Ok Received | 4%Z => Ok NotReady
  | other => Err (TransportErr ("a framed RPC carries snapshot state " ++s pretty other ++s ", which this build does not recognise"))
  end.

Definition AppendEntriesRequestProto_from (v : AppendEntriesRequest) : AppendEntriesRequestProto :=
  mkAppendEntriesRequestProto (aer_group_id v) (aer_term v) (aer_leader_id v) (LogIdProto_from <$> aer_prev_log_id v)
    (LogEntryProto_from <$> aer_entries v) (aer_leader_commit v) (aer_lease_epoch v).
Definition AppendEntriesRequest_try_from (p : AppendEntriesRequestProto) : Result AppendEntriesRequest :=
  entries ← try_map LogEntry_try_from (aeq_entries p);
  Ok (mkAppendEntriesRequest (aeq_group_id p) (aeq_term p) (aeq_leader_id p) (LogId_from <$> aeq_prev_log_id p) entries
        (aeq_leader_commit p) (aeq_lease_epoch p)).

Definition AppendEntriesResponseProto_from (v : AppendEntriesResponse) : AppendEntriesResponseProto :=
  mkAppendEntriesResponseProto (resp_term v) (resp_success v) (resp_match_index v) (resp_rejection_hint v) (resp_rejected_index v)
    (resp_require_snapshot v) (snapshot_state_to_wire (resp_snapshot_state v)) (resp_lease_confirmation_epoch v) (resp_lease_duration_ms v).
Definition AppendEntriesResponse_try_from (p : AppendEntriesResponseProto) : Result AppendEntriesResponse :=
  state ← snapshot_state_from_wire (aep_snapshot_state p);
  Ok (mkAppendEntriesResponse (aep_term p) (aep_success p) (aep_match_index p) (aep_rejection_hint p) (aep_rejected_index p)
        (aep_require_snapshot p) state (aep_lease_confirmation_epoch p) (aep_lease_duration_ms p)).

Definition VoteRequestProto_from (v : VoteRequest) : VoteRequestProto :=
  mkVoteRequestProto (vr_group_id v) (vr_term v) (vr_candidate_id v) (LogIdProto_from <$> vr_last_log_id v) (vr_pre_vote v) (vr_force v).
Definition VoteRequest_from (p : VoteRequestProto) : VoteRequest :=
  mkVoteRequest (vqp_group_id p) (vqp_term p) (vqp_candidate_id p) (LogId_from <$> vqp_last_log_id p) (vqp_pre_vote p) (vqp_force p).
Definition VoteResponseProto_from (v : VoteResponse) : VoteResponseProto :=
  mkVoteResponseProto (vresp_term v) (vresp_vote_granted v) (vresp_reason v).
Definition VoteResponse_from (p : VoteResponseProto) : VoteResponse := mkVoteResponse (vrp_term p) (vrp_vote_granted p) (vrp_reason p).

Definition SnapshotChunkProto_from (v : SnapshotChunk) : SnapshotChunkProto :=
  mkSnapshotChunkProto (Some (SnapshotMetadataProto_from (chunk_meta v))) (chunk_offset v) (chunk_data v) (chunk_done v).
Definition SnapshotChunk_try_from (p : SnapshotChunkProto) : Result SnapshotChunk :=
  proto ← ok_or (scp_meta p) (rpc_missing "a chunk's metadata");
  meta ← SnapshotMetadata_try_from proto;
  Ok (mkSnapshotChunk meta (scp_offset p) (scp_data p) (scp_done p)).
Definition InstallSnapshotRequestProto_from (v : InstallSnapshotRequest) : InstallSnapshotRequestProto :=
  mkInstallSnapshotRequestProto (isr_group_id v) (isr_term v) (isr_leader_id v) (Some (SnapshotChunkProto_from (isr_chunk v))).
Definition InstallSnapshotRequest_try_from (p : InstallSnapshotRequestProto) : Result InstallSnapshotRequest :=
  proto ← ok_or (iqp_chunk p) (rpc_missing "an install's chunk");
  chunk ← SnapshotChunk_try_from proto;
  Ok (mkInstallSnapshotRequest (iqp_group_id p) (iqp_term p) (iqp_leader_id p) chunk).
Definition InstallSnapshotResponseProto_from (v : InstallSnapshotResponse) : InstallSnapshotResponseProto :=
  mkInstallSnapshotResponseProto (isp_term v) (isp_accepted v) (isp_next_offset v) (isp_committed_index v) (isp_reason v) (isp_throttled v).
Definition InstallSnapshotResponse_from (p : InstallSnapshotResponseProto) : InstallSnapshotResponse :=
  mkInstallSnapshotResponse (irp_term p) (irp_accepted p) (irp_next_offset p) (irp_committed_index p) (irp_reason p) (irp_throttled p).

Definition ReadIndexRequestProto_from (v : ReadIndexRequest) : ReadIndexRequestProto :=
  mkReadIndexRequestProto (rir_group_id v) (rir_requester_id v) (rir_min_commit_index v) (rir_allow_lease_read v).
Definition ReadIndexRequest_from (p : ReadIndexRequestProto) : ReadIndexRequest :=
  mkReadIndexRequest (rqp_group_id p) (rqp_requester_id p) (rqp_min_commit_index p) (rqp_allow_lease_read p).
Definition ReadIndexResponseProto_from (v : ReadIndexResponse) : ReadIndexResponseProto :=
  mkReadIndexResponseProto (rresp_safe v) (rresp_read_index v) (rresp_lease_read v) (rresp_reason v).
Definition ReadIndexResponse_from (p : ReadIndexResponseProto) : ReadIndexResponse :=
  mkReadIndexResponse (rrp_safe p) (rrp_read_index p) (rrp_lease_read p) (rrp_reason p).

Fixpoint RpcRequestProto_from (value : TcpRaftTransportRequest) : RpcRequestProto :=
  Some match value with
  | TAppendEntries target request => QAppendEntries (mkTargeted target (Some (AppendEntriesRequestProto_from request)))
  | TVote target request => QVote (mkTargeted target (Some (VoteRequestProto_from request)))
  | TInstallSnapshot target request => QInstallSnapshot (mkTargeted target (Some (InstallSnapshotRequestProto_from request)))
  | TReadIndex target request => QReadIndex (mkTargeted target (Some (ReadIndexRequestProto_from request)))
  | TBatch requests => QBatch (RpcRequestProto_from <$> requests)
  end.

Fixpoint RequestKind_try_from (kind : RequestKind) : Result TcpRaftTransportRequest :=
  match kind with
  | QAppendEntries arm =>
      proto ← ok_or (tg_request arm) (rpc_missing "an append request");
      request ← AppendEntriesRequest_try_from proto; Ok (TAppendEntries (tg_target arm) request)
  | QVote arm => proto ← ok_or (tg_request arm) (rpc_missing "a vote request"); Ok (TVote (tg_target arm) (VoteRequest_from proto))
  | QInstallSnapshot arm =>
      proto ← ok_or (tg_request arm) (rpc_missing "an install request");
      request ← InstallSnapshotRequest_try_from proto; Ok (TInstallSnapshot (tg_target arm) request)
  | QReadIndex arm =>
      proto ← ok_or (tg_request arm) (rpc_missing "a read index request"); Ok (TReadIndex (tg_target arm) (ReadIndexRequest_from proto))
  | QBatch requests =>
      requests ← try_map (fun kind => match kind with None => Err (rpc_missing "its request") | Some kind => RequestKind_try_from kind end) requests;
      Ok (TBatch requests)
  end.
Definition TcpRaftTransportRequest_try_from (proto : RpcRequestProto) : Result TcpRaftTransportRequest :=
  match proto with None => Err (rpc_missing "its request") | Some kind => RequestKind_try_from kind end.

Definition result_to_wire {T P} (to : T -> P) (r : TcpRaftRpcResult T) : ResultProto P := mkResultProto (to <$> rpc_ok r) (rpc_error r).
Definition result_from_wire {T P} (from : P -> T) (arm : ResultProto P) : TcpRaftRpcResult T := mkRpcResult (from <$> rp_ok arm) (rp_error arm).

Fixpoint RpcResponseProto_from (value : TcpRaftTransportResponse) : RpcResponseProto :=
  Some match value with
  | RAppendEntries result => PAppendEntries (result_to_wire AppendEntriesResponseProto_from result)
  | RVote result => PVote (result_to_wire VoteResponseProto_from result)
  | RInstallSnapshot result => PInstallSnapshot (result_to_wire InstallSnapshotResponseProto_from result)
  | RReadIndex result => PReadIndex (result_to_wire ReadIndexResponseProto_from result)
  | RBatch responses => PBatch (RpcResponseProto_from <$> responses)
  end.

Fixpoint ResponseKind_try_from (kind : ResponseKind) : Result TcpRaftTransportResponse :=
  match kind with
  | PAppendEntries arm =>
      ok ← match rp_ok arm with None => Ok None | Some proto => response ← AppendEntriesResponse_try_from proto; Ok (Some response) end;
      Ok (RAppendEntries (mkRpcResult ok (rp_error arm)))
  | PVote arm => Ok (RVote (result_from_wire VoteResponse_from arm))
  | PInstallSnapshot arm => Ok (RInstallSnapshot (result_from_wire InstallSnapshotResponse_from arm))
  | PReadIndex arm => Ok (RReadIndex (result_from_wire ReadIndexResponse_from arm))
  | PBatch responses =>
      responses ← try_map (fun kind => match kind with None => Err (rpc_missing "its response") | Some kind => ResponseKind_try_from kind end) responses;
      Ok (RBatch responses)
  end.
Definition TcpRaftTransportResponse_try_from (proto : RpcResponseProto) : Result TcpRaftTransportResponse :=
  match proto with None => Err (rpc_missing "its response") | Some kind => ResponseKind_try_from kind end.

Definition EnvelopeProto_from (value : TcpRaftTransportEnvelope) : EnvelopeProto :=
  mkEnvelopeProto (env_cluster_id value) (env_user_payload value) (Some (RpcRequestProto_from (env_request value))).
Definition TcpRaftTransportEnvelope_try_from (proto : EnvelopeProto) : Result TcpRaftTransportEnvelope :=
  request ← ok_or (ep_request proto) (rpc_missing "its request");
  request ← TcpRaftTransportRequest_try_from request;
  Ok (mkEnvelope (ep_cluster_id proto) (ep_user_payload proto) request).

(** ** The protobuf attributes *)

(** An [optional] string is on the wire when it is set, behind its length. *)
Definition FOptString (tag : N) (value : option string) : Field := FMessage tag (string_bytes <$> value).

Section messages.
Context `{Prost}.

Definition nested {A} (fields : A -> list Field) (tag : N) (o : option A) : Field :=
  FMessage tag ((fun a => message_encode (fields a)) <$> o).

Definition AppendEntriesRequestProto_fields (m : AppendEntriesRequestProto) : list Field :=
  [FUint64 1 (aeq_group_id m); FUint64 2 (aeq_term m); FUint64 3 (aeq_leader_id m); nested LogIdProto_fields 4 (aeq_prev_log_id m);
   FMessages 5 ((fun e => message_encode (LogEntryProto_fields e)) <$> aeq_entries m);
   FUint64 6 (aeq_leader_commit m); FUint64 7 (aeq_lease_epoch m)].
Definition AppendEntriesResponseProto_fields (m : AppendEntriesResponseProto) : list Field :=
  [FUint64 1 (aep_term m); FBool 2 (aep_success m); FUint64 3 (aep_match_index m); FOptUint64 4 (aep_rejection_hint m);
   FOptUint64 5 (aep_rejected_index m); FOptUint64 6 (aep_require_snapshot m); FInt32 7 (aep_snapshot_state m);
   FUint64 8 (aep_lease_confirmation_epoch m); FUint64 9 (aep_lease_duration_ms m)].
Definition VoteRequestProto_fields (m : VoteRequestProto) : list Field :=
  [FUint64 1 (vqp_group_id m); FUint64 2 (vqp_term m); FUint64 3 (vqp_candidate_id m); nested LogIdProto_fields 4 (vqp_last_log_id m);
   FBool 5 (vqp_pre_vote m); FBool 6 (vqp_force m)].
Definition VoteResponseProto_fields (m : VoteResponseProto) : list Field :=
  [FUint64 1 (vrp_term m); FBool 2 (vrp_vote_granted m); FString 3 (vrp_reason m)].
Definition SnapshotChunkProto_fields (m : SnapshotChunkProto) : list Field :=
  [nested SnapshotMetadataProto_fields 1 (scp_meta m); FUint64 2 (scp_offset m); FBytes 3 (scp_data m); FBool 4 (scp_done m)].
Definition InstallSnapshotRequestProto_fields (m : InstallSnapshotRequestProto) : list Field :=
  [FUint64 1 (iqp_group_id m); FUint64 2 (iqp_term m); FUint64 3 (iqp_leader_id m); nested SnapshotChunkProto_fields 4 (iqp_chunk m)].
Definition InstallSnapshotResponseProto_fields (m : InstallSnapshotResponseProto) : list Field :=
  [FUint64 1 (irp_term m); FBool 2 (irp_accepted m); FUint64 3 (irp_next_offset m); FUint64 4 (irp_committed_index m);
   FString 5 (irp_reason m); FBool 6 (irp_throttled m)].
Definition ReadIndexRequestProto_fields (m : ReadIndexRequestProto) : list Field :=
  [FUint64 1 (rqp_group_id m); FUint64 2 (rqp_requester_id m); FUint64 3 (rqp_min_commit_index m); FBool 4 (rqp_allow_lease_read m)].
Definition ReadIndexResponseProto_fields (m : ReadIndexResponseProto) : list Field :=
  [FBool 1 (rrp_safe m); FUint64 2 (rrp_read_index m); FBool 3 (rrp_lease_read m); FString 4 (rrp_reason m)].
Definition Targeted_fields {R} (fields : R -> list Field) (m : Targeted R) : list Field :=
  [FUint64 1 (tg_target m); nested fields 2 (tg_request m)].
Definition ResultProto_fields {R} (fields : R -> list Field) (m : ResultProto R) : list Field :=
  [nested fields 1 (rp_ok m); FOptString 2 (rp_error m)].

(** The arms of a [oneof] are message fields, one of which is there. *)
Fixpoint RequestKind_field (kind : RequestKind) : Field :=
  match kind with
  | QAppendEntries arm => FMessage 1 (Some (message_encode (Targeted_fields AppendEntriesRequestProto_fields arm)))
  | QVote arm => FMessage 2 (Some (message_encode (Targeted_fields VoteRequestProto_fields arm)))
  | QInstallSnapshot arm => FMessage 3 (Some (message_encode (Targeted_fields InstallSnapshotRequestProto_fields arm)))
  | QReadIndex arm => FMessage 4 (Some (message_encode (Targeted_fields ReadIndexRequestProto_fields arm)))
  | QBatch requests =>
      FMessage 5 (Some (message_encode [FMessages 1 ((fun r => message_encode (match r with None => [] | Some kind => [RequestKind_field kind] end)) <$> requests)]))
  end.
Definition RpcRequestProto_fields (m : RpcRequestProto) : list Field := match m with None => [] | Some kind => [RequestKind_field kind] end.
Fixpoint ResponseKind_field (kind : ResponseKind) : Field :=
  match kind with
  | PAppendEntries arm => FMessage 1 (Some (message_encode (ResultProto_fields AppendEntriesResponseProto_fields arm)))
  | PVote arm => FMessage 2 (Some (message_encode (ResultProto_fields VoteResponseProto_fields arm)))
  | PInstallSnapshot arm => FMessage 3 (Some (message_encode (ResultProto_fields InstallSnapshotResponseProto_fields arm)))
  | PReadIndex arm => FMessage 4 (Some (message_encode (ResultProto_fields ReadIndexResponseProto_fields arm)))
  | PBatch responses =>
      FMessage 5 (Some (message_encode [FMessages 1 ((fun r => message_encode (match r with None => [] | Some kind => [ResponseKind_field kind] end)) <$> responses)]))
  end.
Definition RpcResponseProto_fields (m : RpcResponseProto) : list Field := match m with None => [] | Some kind => [ResponseKind_field kind] end.
Definition EnvelopeProto_fields (m : EnvelopeProto) : list Field :=
  [FUint64 1 (ep_cluster_id m); FOptString 2 (ep_user_payload m); nested RpcRequestProto_fields 3 (ep_request m)].

(** The values the messages can hold. *)
Definition AppendEntriesRequestProto_ok (m : AppendEntriesRequestProto) : Prop :=
  u64 (aeq_group_id m) /\ u64 (aeq_term m) /\ u64 (aeq_leader_id m) /\ opt_ok LogIdProto_ok (aeq_prev_log_id m)
  /\ Forall LogEntryProto_ok (aeq_entries m) /\ u64 (aeq_leader_commit m) /\ u64 (aeq_lease_epoch m).
Definition AppendEntriesResponseProto_ok (m : AppendEntriesResponseProto) : Prop :=
  u64 (aep_term m) /\ u64 (aep_match_index m) /\ u64_opt (aep_rejection_hint m) /\ u64_opt (aep_rejected_index m)
  /\ u64_opt (aep_require_snapshot m) /\ (0 <= aep_snapshot_state m < 2147483648)%Z /\ u64 (aep_lease_confirmation_epoch m)
  /\ u64 (aep_lease_duration_ms m).
Definition VoteRequestProto_ok (m : VoteRequestProto) : Prop :=
  u64 (vqp_group_id m) /\ u64 (vqp_term m) /\ u64 (vqp_candidate_id m) /\ opt_ok LogIdProto_ok (vqp_last_log_id m).
Definition VoteResponseProto_ok (m : VoteResponseProto) : Prop := u64 (vrp_term m) /\ is_str (vrp_reason m).
Definition SnapshotChunkProto_ok (m : SnapshotChunkProto) : Prop := opt_ok SnapshotMetadataProto_ok (scp_meta m) /\ u64 (scp_offset m).
Definition InstallSnapshotRequestProto_ok (m : InstallSnapshotRequestProto) : Prop :=
  u64 (iqp_group_id m) /\ u64 (iqp_term m) /\ u64 (iqp_leader_id m) /\ opt_ok SnapshotChunkProto_ok (iqp_chunk m).
Definition InstallSnapshotResponseProto_ok (m : InstallSnapshotResponseProto) : Prop :=
  u64 (irp_term m) /\ u64 (irp_next_offset m) /\ u64 (irp_committed_index m) /\ is_str (irp_reason m).
Definition ReadIndexRequestProto_ok (m : ReadIndexRequestProto) : Prop :=
  u64 (rqp_group_id m) /\ u64 (rqp_requester_id m) /\ u64 (rqp_min_commit_index m).
Definition ReadIndexResponseProto_ok (m : ReadIndexResponseProto) : Prop := u64 (rrp_read_index m) /\ is_str (rrp_reason m).
Definition Targeted_ok {R} (ok : R -> Prop) (m : Targeted R) : Prop := u64 (tg_target m) /\ opt_ok ok (tg_request m).
Definition ResultProto_ok {R} (ok : R -> Prop) (m : ResultProto R) : Prop := opt_ok ok (rp_ok m) /\ opt_ok is_str (rp_error m).

(** [plain_ok] is for a request that is not a batch. *)
Definition plain_request_ok (m : RpcRequestProto) : Prop :=
  match m with
  | None => True
  | Some (QAppendEntries arm) => Targeted_ok AppendEntriesRequestProto_ok arm
  | Some (QVote arm) => Targeted_ok VoteRequestProto_ok arm
  | Some (QInstallSnapshot arm) => Targeted_ok InstallSnapshotRequestProto_ok arm
  | Some (QReadIndex arm) => Targeted_ok ReadIndexRequestProto_ok arm
  | Some (QBatch _) => False
  end.
Definition RpcRequestProto_ok (m : RpcRequestProto) : Prop :=
  match m with Some (QBatch requests) => Forall plain_request_ok requests | _ => plain_request_ok m end.
Definition plain_response_ok (m : RpcResponseProto) : Prop :=
  match m with
  | None => True
  | Some (PAppendEntries arm) => ResultProto_ok AppendEntriesResponseProto_ok arm
  | Some (PVote arm) => ResultProto_ok VoteResponseProto_ok arm
  | Some (PInstallSnapshot arm) => ResultProto_ok InstallSnapshotResponseProto_ok arm
  | Some (PReadIndex arm) => ResultProto_ok ReadIndexResponseProto_ok arm
  | Some (PBatch _) => False
  end.
Definition RpcResponseProto_ok (m : RpcResponseProto) : Prop :=
  match m with Some (PBatch responses) => Forall plain_response_ok responses | _ => plain_response_ok m end.
Definition EnvelopeProto_ok (m : EnvelopeProto) : Prop :=
  u64 (ep_cluster_id m) /\ opt_ok is_str (ep_user_payload m) /\ opt_ok RpcRequestProto_ok (ep_request m).
End messages.

(** The decoders of the two messages that are sent. *)
Class RpcProst := {
  EnvelopeProto_decode : list byte -> result string EnvelopeProto;
  RpcResponseProto_decode : list byte -> result string RpcResponseProto
}.
Class RpcProstLaws `{Prost} `{RpcProst} : Prop := {
  EnvelopeProto_decode_encode m : EnvelopeProto_ok m -> fits (message_encode (EnvelopeProto_fields m)) ->
    EnvelopeProto_decode (message_encode (EnvelopeProto_fields m)) = Ok m;
  RpcResponseProto_decode_encode m : RpcResponseProto_ok m -> fits (message_encode (RpcResponseProto_fields m)) ->
    RpcResponseProto_decode (message_encode (RpcResponseProto_fields m)) = Ok m
}.

(** ** Frames *)


Definition RPC_MAGIC : list byte := string_bytes "MRRP".
Definition RPC_FRAME_BYTES : nat := 8.
Definition RPC_HEAD_BYTES : nat := 4 + RPC_FRAME_BYTES.

Definition frame (body : list byte) : Result (list byte) :=
  if (u32_max <? N.of_nat (length body))%N then Err (TransportErr "a framed RPC exceeds a frame length")
  else Ok (RPC_MAGIC ++ to_le_bytes 4 (N.of_nat (length body)) ++ to_le_bytes 4 (digest_of Crc32c body) ++ body).

Definition is_framed_rpc (bytes : list byte) : bool := starts_with bytes RPC_MAGIC.

Definition unframe (bytes : list byte) : Result (list byte) :=
  if negb (is_framed_rpc bytes) then Err (TransportErr "a framed RPC does not open with its magic")
  else
    let rest := drop (length RPC_MAGIC) bytes in
    if (length rest <? RPC_FRAME_BYTES)%nat then Err (TransportErr "a framed RPC is shorter than its frame")
    else
      let length_ := frame_length rest in
      let digest := frame_digest rest in
      match checked_add (N.of_nat RPC_FRAME_BYTES) length_ with
      | None => Err (TransportErr "a framed RPC's length overflows")
      | Some end_ =>
          if (N.of_nat (length rest) <? end_)%N
          then Err (TransportErr ("a framed RPC declares " ++s pretty length_ ++s " bytes and carries " ++s pretty (N.of_nat (length rest) - N.of_nat RPC_FRAME_BYTES)%N))
          else
            let body := take (N.to_nat length_) (drop RPC_FRAME_BYTES rest) in
            if negb (digest_of Crc32c body =? digest)%N then Err (TransportErr "a framed RPC fails its frame digest") else Ok body
      end.

Definition framed_rpc_len (bytes : list byte) : option N :=
  if negb (is_framed_rpc bytes) || (length bytes <? length RPC_MAGIC + RPC_FRAME_BYTES)%nat then None
  else Some (N.of_nat (length RPC_MAGIC + RPC_FRAME_BYTES) + frame_length (drop (length RPC_MAGIC) bytes))%N.

Section codec.
Context `{Prost} `{RpcProst}.

Definition matrixraft_encode_rpc_envelope (envelope : TcpRaftTransportEnvelope) : Result (list byte) :=
  frame (message_encode (EnvelopeProto_fields (EnvelopeProto_from envelope))).
Definition matrixraft_decode_rpc_envelope (bytes : list byte) : Result TcpRaftTransportEnvelope :=
  body ← unframe bytes;
  match EnvelopeProto_decode body with
  | Err err => Err (TransportErr ("failed to decode a framed RPC: " ++s err))
  | Ok proto => TcpRaftTransportEnvelope_try_from proto
  end.
Definition matrixraft_encode_rpc_response (response : TcpRaftTransportResponse) : Result (list byte) :=
  frame (message_encode (RpcResponseProto_fields (RpcResponseProto_from response))).
Definition matrixraft_decode_rpc_response (bytes : list byte) : Result TcpRaftTransportResponse :=
  body ← unframe bytes;
  match RpcResponseProto_decode body with
  | Err err => Err (TransportErr ("failed to decode a framed RPC response: " ++s err))
  | Ok proto => TcpRaftTransportResponse_try_from proto
  end.
End codec.

(** ** Conversions back *)

Lemma SnapshotState_round_trip s : snapshot_state_from_wire (snapshot_state_to_wire s) = Ok s.
Proof. by destruct s. Qed.

Lemma opt_LogId_round_trip (o : option LogId) : LogId_from <$> (LogIdProto_from <$> o) = o.
Proof. destruct o; cbn; by rewrite ?LogId_round_trip. Qed.

Lemma AppendEntriesRequest_round_trip r : AppendEntriesRequest_try_from (AppendEntriesRequestProto_from r) = Ok r.
Proof.
  destruct r. unfold AppendEntriesRequest_try_from, AppendEntriesRequestProto_from. cbn -[try_map fmap].
  by rewrite (try_map_fmap LogEntry_try_from LogEntryProto_from _ LogEntry_round_trip), opt_LogId_round_trip.
Qed.

Lemma AppendEntriesResponse_round_trip r : AppendEntriesResponse_try_from (AppendEntriesResponseProto_from r) = Ok r.
Proof. destruct r. unfold AppendEntriesResponse_try_from. cbn. by rewrite SnapshotState_round_trip. Qed.

Lemma InstallSnapshotRequest_round_trip r : InstallSnapshotRequest_try_from (InstallSnapshotRequestProto_from r) = Ok r.
Proof.
  destruct r as [g t l [meta off data fin]]. unfold InstallSnapshotRequest_try_from, InstallSnapshotRequestProto_from, SnapshotChunk_try_from.
  cbn -[SnapshotMetadata_try_from SnapshotMetadataProto_from]. by rewrite SnapshotMetadata_round_trip.
Qed.

Lemma try_map_fmap_Forall {A B} (f : B -> Result A) (g : A -> B) l :
  Forall (fun x => f (g x) = Ok x) l -> try_map f (g <$> l) = Ok l.
Proof. induction 1 as [|x l Hx _ IH]; cbn; [done|]. rewrite Hx. cbn. by rewrite IH. Qed.

(** Induction over a tree of requests, or of responses. *)
Lemma request_tree_ind (P : TcpRaftTransportRequest -> Prop) :
  (forall r, (forall requests, r <> TBatch requests) -> P r) -> (forall requests, Forall P requests -> P (TBatch requests)) -> forall r, P r.
Proof.
  intros Hleaf Hbatch. fix IH 1. intros [t r|t r|t r|t r|requests]; try (by apply Hleaf).
  apply Hbatch. induction requests as [|r requests IHr]; constructor; [apply IH|apply IHr].
Qed.
Lemma response_tree_ind (P : TcpRaftTransportResponse -> Prop) :
  (forall r, (forall responses, r <> RBatch responses) -> P r) -> (forall responses, Forall P responses -> P (RBatch responses)) -> forall r, P r.
Proof.
  intros Hleaf Hbatch. fix IH 1. intros [r|r|r|r|responses]; try (by apply Hleaf).
  apply Hbatch. induction responses as [|r responses IHr]; constructor; [apply IH|apply IHr].
Qed.

Lemma Request_round_trip r : TcpRaftTransportRequest_try_from (RpcRequestProto_from r) = Ok r.
Proof.
  induction r as [r Hr|requests IH] using request_tree_ind.
  - destruct r as [t r|t r|t r|t r|requests]; cbn -[AppendEntriesRequest_try_from AppendEntriesRequestProto_from
      InstallSnapshotRequest_try_from InstallSnapshotRequestProto_from].
    + by rewrite AppendEntriesRequest_round_trip.
    + destruct r. unfold VoteRequest_from. cbn. by rewrite opt_LogId_round_trip.
    + by rewrite InstallSnapshotRequest_round_trip.
    + by destruct r.
    + by destruct (Hr requests).
  - cbn. by rewrite (try_map_fmap_Forall TcpRaftTransportRequest_try_from RpcRequestProto_from).
Qed.

Lemma result_round_trip {T P} (from : P -> T) (to : T -> P) r : (forall x, from (to x) = x) -> result_from_wire from (result_to_wire to r) = r.
Proof. intros H. destruct r as [[ok|] e]; unfold result_from_wire; cbn; by rewrite ?H. Qed.

Lemma Response_round_trip r : TcpRaftTransportResponse_try_from (RpcResponseProto_from r) = Ok r.
Proof.
  induction r as [r Hr|responses IH] using response_tree_ind.
  - destruct r as [r|r|r|r|responses]; cbn -[AppendEntriesResponse_try_from AppendEntriesResponseProto_from result_from_wire result_to_wire].
    + destruct r as [[ok|] e]; cbn -[AppendEntriesResponse_try_from AppendEntriesResponseProto_from]; by rewrite ?AppendEntriesResponse_round_trip.
    + rewrite result_round_trip; [done|by intros []].
    + rewrite result_round_trip; [done|by intros []].
    + rewrite result_round_trip; [done|by intros []].
    + by destruct (Hr responses).
  - cbn. by rewrite (try_map_fmap_Forall TcpRaftTransportResponse_try_from RpcResponseProto_from).
Qed.

Lemma Envelope_round_trip e : TcpRaftTransportEnvelope_try_from (EnvelopeProto_from e) = Ok e.
Proof.
  destruct e as [c p r]. unfold TcpRaftTransportEnvelope_try_from, EnvelopeProto_from. cbn -[TcpRaftTransportRequest_try_from RpcRequestProto_from].
  by rewrite Request_round_trip.
Qed.

(** ** Frames read back *)

Definition rpc_frame (digest : N) (body : list byte) : list byte := RPC_MAGIC ++ behind (N.of_nat (length body)) digest body.

Lemma frame_Ok body bytes : frame body = Ok bytes -> bytes = rpc_frame (crc32c body) body /\ (N.of_nat (length body) < u32_modulus)%N.
Proof.
  unfold frame. destruct (N.ltb_spec u32_max (N.of_nat (length body))); [done|]. intros [= <-].
  split; [done|unfold u32_max, u32_modulus in *; lia].
Qed.

Lemma is_framed_app bytes : is_framed_rpc (RPC_MAGIC ++ bytes) = true.
Proof. apply bool_decide_true. by eexists. Qed.

Lemma rpc_frame_length d body : (N.of_nat (length body) < u32_modulus)%N -> (d < u32_modulus)%N ->
  length (rpc_frame d body) = RPC_HEAD_BYTES + length body.
Proof.
  intros Hl Hd. destruct (behind_words _ d body Hl Hd) as (_ & _ & _ & Hlen). unfold rpc_frame. rewrite length_app, Hlen. done.
Qed.

(** A frame that holds a body of its length is read back, or refused, by its digest,
    whatever follows it. *)
Lemma unframe_rpc_frame d body rest : (N.of_nat (length body) < u32_modulus)%N -> (d < u32_modulus)%N ->
  unframe (rpc_frame d body ++ rest) = if (crc32c body =? d)%N then Ok body else Err (TransportErr "a framed RPC fails its frame digest").
Proof.
  intros Hl Hd. unfold unframe, rpc_frame. rewrite <- app_assoc, is_framed_app. cbn [negb].
  rewrite (drop_app_length' RPC_MAGIC) by done. rewrite behind_app.
  destruct (behind_words _ d (body ++ rest) Hl Hd) as (-> & -> & Hb & Hlen). unfold RPC_FRAME_BYTES, FRAME_BYTES in *. rewrite Hb, Hlen, length_app.
  destruct (Nat.ltb_spec (8 + (length body + length rest)) 8); [lia|]. unfold checked_add.
  destruct (N.leb_spec (N.of_nat 8 + N.of_nat (length body)) u64_max); [|unfold u64_max, u32_modulus in *; lia].
  destruct (N.ltb_spec (N.of_nat (8 + (length body + length rest))) (N.of_nat 8 + N.of_nat (length body))); [lia|].
  rewrite Nat2N.id, (take_app_length' body) by done. cbn [digest_of]. by destruct (crc32c body =? d)%N.
Qed.

Lemma frame_fits body bytes : frame body = Ok bytes -> fits body.
Proof. intros [_ H]%frame_Ok. unfold fits, u64, u64_max, u32_modulus in *. lia. Qed.

Section codec_facts.
Context `{HP : Prost} `{HR : RpcProst} `{!RpcProstLaws}.

(** The envelopes and responses of machine integers and Rust strings in which no batch
    holds a batch. *)
Definition envelope_ok (e : TcpRaftTransportEnvelope) : Prop := EnvelopeProto_ok (EnvelopeProto_from e).
Definition response_ok (r : TcpRaftTransportResponse) : Prop := RpcResponseProto_ok (RpcResponseProto_from r).

Lemma envelope_decode_encode e bytes rest : envelope_ok e -> matrixraft_encode_rpc_envelope e = Ok bytes ->
  matrixraft_decode_rpc_envelope (bytes ++ rest) = Ok e.
Proof.
  intros Hok He. unfold matrixraft_encode_rpc_envelope in He. pose proof (frame_fits _ _ He) as Hf. apply frame_Ok in He as [-> Hl].
  unfold matrixraft_decode_rpc_envelope. rewrite unframe_rpc_frame by (done || apply crc32c_lt). rewrite N.eqb_refl. cbn [mbind result_bind].
  by rewrite EnvelopeProto_decode_encode, Envelope_round_trip.
Qed.

Lemma response_decode_encode r bytes rest : response_ok r -> matrixraft_encode_rpc_response r = Ok bytes ->
  matrixraft_decode_rpc_response (bytes ++ rest) = Ok r.
Proof.
  intros Hok He. unfold matrixraft_encode_rpc_response in He. pose proof (frame_fits _ _ He) as Hf. apply frame_Ok in He as [-> Hl].
  unfold matrixraft_decode_rpc_response. rewrite unframe_rpc_frame by (done || apply crc32c_lt). rewrite N.eqb_refl. cbn [mbind result_bind].
  by rewrite RpcResponseProto_decode_encode, Response_round_trip.
Qed.

Lemma encoded_is_framed bytes body rest : frame body = Ok bytes ->
  is_framed_rpc (bytes ++ rest) = true /\ framed_rpc_len (take RPC_HEAD_BYTES (bytes ++ rest)) = Some (N.of_nat (length bytes)).
Proof.
  intros [-> Hl]%frame_Ok. pose proof (crc32c_lt body) as Hc. split; [unfold rpc_frame; rewrite <- app_assoc; apply is_framed_app|].
  destruct (behind_words _ _ body Hl Hc) as (Hw & _ & _ & Hlen). rewrite rpc_frame_length by done.
  assert (take RPC_HEAD_BYTES (rpc_frame (crc32c body) body ++ rest)
          = RPC_MAGIC ++ to_le_bytes 4 (N.of_nat (length body)) ++ to_le_bytes 4 (crc32c body)) as ->.
  { unfold rpc_frame, behind. rewrite <- !app_assoc, !(app_assoc RPC_MAGIC), app_assoc. apply take_app_length'.
    rewrite !length_app, !to_le_bytes_length. done. }
  unfold framed_rpc_len. rewrite is_framed_app, !length_app, !to_le_bytes_length. cbn [negb orb].
  rewrite (drop_app_length' RPC_MAGIC) by done. unfold RPC_HEAD_BYTES, RPC_FRAME_BYTES. change (length RPC_MAGIC) with 4. cbn [Nat.add Nat.ltb Nat.leb].
  unfold frame_length. rewrite (take_app_length' _ _ 4) by (by rewrite to_le_bytes_length). rewrite from_to_le_bytes by done. f_equal. lia.
Qed.

(** C22: An RPC survives the wire. What is encoded as a request envelope or a response
    opens with the magic; its first twelve bytes announce how many bytes to read; and
    whatever follows it on the connection, it is decoded as exactly what was sent. The
    values are those of the code's types, less a batch inside a batch. *)
Theorem rpc_round_trip envelope response sent answered rest :
  envelope_ok envelope -> response_ok response ->
  matrixraft_encode_rpc_envelope envelope = Ok sent -> matrixraft_encode_rpc_response response = Ok answered ->
  (is_framed_rpc sent = true /\ framed_rpc_len (take RPC_HEAD_BYTES (sent ++ rest)) = Some (N.of_nat (length sent))
   /\ matrixraft_decode_rpc_envelope (sent ++ rest) = Ok envelope)
  /\ (is_framed_rpc answered = true /\ framed_rpc_len (take RPC_HEAD_BYTES (answered ++ rest)) = Some (N.of_nat (length answered))
      /\ matrixraft_decode_rpc_response (answered ++ rest) = Ok response).
Proof.
  intros Ho1 Ho2 H1 H2.
  assert (forall body bytes, frame body = Ok bytes -> is_framed_rpc bytes = true) as Hf.
  { intros body bytes Hb. destruct (encoded_is_framed bytes body [] Hb) as [Hfr _]. by rewrite app_nil_r in Hfr. }
  split; (split; [by eapply Hf|]); (split; [eapply proj2, encoded_is_framed; by eauto|]).
  - by apply envelope_decode_encode.
  - by apply response_decode_encode.
Qed.

(** A body damaged by a burst of at most thirty-two bits is refused before anything of
    it is decoded. *)
Theorem damaged_rpc_is_refused body sent damaged e k rest :
  frame body = Ok sent -> length damaged = length body ->
  N.lxor (from_le_bytes body) (from_le_bytes damaged) = N.shiftl e k -> (0 < e < u32_modulus)%N ->
  (k <= 8 * N.of_nat (length body))%N ->
  unframe (take RPC_HEAD_BYTES sent ++ damaged ++ rest) = Err (TransportErr "a framed RPC fails its frame digest").
Proof.
  intros [-> Hl]%frame_Ok Hlen Hburst He Hk.
  replace (take RPC_HEAD_BYTES (rpc_frame (crc32c body) body) ++ damaged ++ rest) with (rpc_frame (crc32c body) damaged ++ rest).
  - rewrite unframe_rpc_frame by (rewrite ?Hlen; done || apply crc32c_lt).
    destruct (N.eqb_spec (crc32c damaged) (crc32c body)) as [E|]; [|done]. symmetry in E. by apply (crc32c_detects_bursts body damaged e k) in E.
  - unfold rpc_frame, behind. change RPC_HEAD_BYTES with 12. rewrite Hlen, (take_app_ge RPC_MAGIC) by (vm_compute; lia).
    change (12 - length RPC_MAGIC) with 8. rewrite !take_app_ge by (rewrite ?to_le_bytes_length; lia).
    rewrite !to_le_bytes_length. cbn [Nat.sub take]. by rewrite app_nil_r, <- !app_assoc.
Qed.
End codec_facts.
