(* ===== verification/Transport.v ===== *)
(** * Transports

    [src/transport.rs] and [src/facade/transport_runtime.rs]: what makes a request or a
    response fit to be sent, the transports (of the group itself, in memory,
    authenticated, over TCP), and the server of TCP connections. The trait [Transport]
    is a record of operations over the state of whoever answers.

    A connection is the bytes that arrive on it; a server reads one message at a time,
    framed ([RpcBinary.v]) or a line of JSON. The sockets are outside the sources: the
    class [Network] has what the client calls, and [loopback] is the network whose other
    end is the server modelled here. The JSON of older peers is a parameter, and so are
    the host's callbacks. Timeouts, threads and the errors of writing a reply are not
    modelled.

    The theorems: over the loopback, a call of the TCP transport is a call of the handler
    behind it, with the handler's error as text; a handler is reached only by a request
    that was decoded whole, validated and of a cluster it may talk to; every connection
    kept open for a peer leads to the peer's current address. *)

From stdpp Require Import base strings pretty numbers gmap fin_maps list.
From Stdlib Require Import Strings.Byte.
From S2P Require Import Prelude Types Slice Bytes Membership Node Wal WalSegments WalBinary SnapshotTransfer Cluster Election Append Reads Snapshots Executor RpcBinary.

(** ** Validation *)

Record TransportValidationReport := mkTransportValidationReport { tv_rpc : string; tv_valid : bool; tv_blockers : list string }.
Definition report_new (rpc : string) (blockers : list string) : TransportValidationReport :=
  mkTransportValidationReport rpc (bool_decide (blockers = [])) blockers.

Definition validate_positive_id (field : string) (value : N) : list string :=
  if (value =? 0)%N then [field ++s " must be greater than zero"] else [].
Definition validate_log_index (field : string) (index : LogIndex) : list string :=
  (if (index =? 0)%N then [field ++s " must be greater than zero"] else [])
  ++ (if (index =? u64_max)%N then [field ++s " must be below " ++s pretty u64_max ++s ", because the protocol needs the index after it"] else []).
Definition validate_log_id (field : string) (log_id : LogId) : list string := validate_log_index (field ++s ".index") (lid_index log_id).

(** [text.trim().is_empty()]: every character has Unicode's [White_Space], in UTF-8. *)
Fixpoint blank (bytes : list byte) : bool :=
  match bytes with
  | [] => true
  | a :: rest =>
      let n := byte_N a in
      if ((9 <=? n) && (n <=? 13) || (n =? 32))%N then blank rest
      else match rest with
      | [] => false
      | b :: rest =>
          let m := byte_N b in
          if ((n =? 194) && ((m =? 133) || (m =? 160)))%N then blank rest
          else match rest with
          | [] => false
          | c :: rest =>
              let k := byte_N c in
              ((n =? 225) && (m =? 154) && (k =? 128)
               || (n =? 226) && (m =? 128) && ((128 <=? k) && (k <=? 138) || (k =? 168) || (k =? 169) || (k =? 175))
               || (n =? 226) && (m =? 129) && (k =? 159) || (n =? 227) && (m =? 128) && (k =? 128))%N && blank rest
          end
      end
  end.
Definition validate_non_empty_reason (field reason : string) : list string :=
  if blank (string_bytes reason) then [field ++s ".reason must not be empty"] else [].

Definition require_transport_validation (report : TransportValidationReport) : Result unit :=
  if tv_valid report then Ok tt
  else Err (InvalidRequest (tv_rpc report ++s " validation failed: " ++s join "; " (tv_blockers report))).

(** The entries, each checked against the index after the one before it. *)
Fixpoint validate_entries (expected_index : option LogIndex) (entries : list LogEntry) : list string :=
  match entries with
  | [] => []
  | entry :: entries =>
      let index := lid_index (log_id entry) in
      validate_log_id "entries[].log_id" (log_id entry)
      ++ match expected_index with
         | Some expected =>
             if negb (index =? expected)%N
             then ["entries must be contiguous: expected index " ++s pretty expected ++s ", got " ++s pretty index] else []
         | None => []
         end
      ++ validate_entries (checked_add index 1) entries
  end.

Definition matrixraft_validate_append_entries_request (request : AppendEntriesRequest) : TransportValidationReport :=
  report_new "append_entries_request"
    (validate_positive_id "group_id" (aer_group_id request) ++ validate_positive_id "leader_id" (aer_leader_id request)
     ++ match aer_prev_log_id request with Some prev_log_id => validate_log_id "prev_log_id" prev_log_id | None => [] end
     ++ validate_entries (match aer_prev_log_id request with None => Some 1%N | Some log_id => checked_add (lid_index log_id) 1 end)
          (aer_entries request)).
Definition matrixraft_validate_append_entries_response (response : AppendEntriesResponse) : TransportValidationReport :=
  report_new "append_entries_response"
    ((if resp_success response && (bool_decide (is_Some (resp_rejection_hint response)) || bool_decide (is_Some (resp_rejected_index response)))
      then ["successful append response must not include rejection_hint or rejected_index"] else [])
     ++ match resp_require_snapshot response with Some required_index => validate_log_index "require_snapshot" required_index | None => [] end).
Definition matrixraft_validate_vote_request (request : VoteRequest) : TransportValidationReport :=
  report_new "vote_request"
    (validate_positive_id "group_id" (vr_group_id request) ++ validate_positive_id "candidate_id" (vr_candidate_id request)
     ++ match vr_last_log_id request with Some last_log_id => validate_log_id "last_log_id" last_log_id | None => [] end).
Definition matrixraft_validate_vote_response (response : VoteResponse) : TransportValidationReport :=
  report_new "vote_response" (validate_non_empty_reason "vote_response" (vresp_reason response)).
Definition matrixraft_validate_install_snapshot_request (request : InstallSnapshotRequest) : TransportValidationReport :=
  let meta := chunk_meta (isr_chunk request) in
  report_new "install_snapshot_request"
    (validate_positive_id "group_id" (isr_group_id request) ++ validate_positive_id "leader_id" (isr_leader_id request)
     ++ validate_log_id "chunk.meta.last_log_id" (snap_last_log_id meta)
     ++ (if blank (string_bytes (snap_id meta)) then ["chunk.meta.snapshot_id must not be empty"] else [])
     ++ (match snap_membership meta with [] => ["chunk.meta.membership must not be empty"] | _ => [] end)).
Definition matrixraft_validate_install_snapshot_response (response : InstallSnapshotResponse) : TransportValidationReport :=
  report_new "install_snapshot_response" (validate_non_empty_reason "install_snapshot_response" (isp_reason response)).
Definition matrixraft_validate_read_index_request (request : ReadIndexRequest) : TransportValidationReport :=
  report_new "read_index_request"
    (validate_positive_id "group_id" (rir_group_id request) ++ validate_positive_id "requester_id" (rir_requester_id request)).
Definition matrixraft_validate_read_index_response (response : ReadIndexResponse) : TransportValidationReport :=
  report_new "read_index_response"
    (validate_non_empty_reason "read_index_response" (rresp_reason response)
     ++ (if negb (rresp_safe response) && rresp_lease_read response then ["unsafe read-index response must not grant lease_read"] else [])).

Definition with_target (target : NodeId) (report : TransportValidationReport) : TransportValidationReport :=
  report_new (tv_rpc report) (tv_blockers report ++ validate_positive_id "target" target).
Definition is_batch (request : TcpRaftTransportRequest) : bool := match request with TBatch _ => true | _ => false end.
Fixpoint matrixraft_validate_tcp_transport_request (request : TcpRaftTransportRequest) : TransportValidationReport :=
  match request with
  | TAppendEntries target request => with_target target (matrixraft_validate_append_entries_request request)
  | TVote target request => with_target target (matrixraft_validate_vote_request request)
  | TInstallSnapshot target request => with_target target (matrixraft_validate_install_snapshot_request request)
  | TReadIndex target request => with_target target (matrixraft_validate_read_index_request request)
  | TBatch requests =>
      let fix items (index : N) (l : list TcpRaftTransportRequest) : list string :=
        match l with
        | [] => []
        | request :: l =>
            (if is_batch request then ["batch request " ++s pretty index ++s " must not be nested"]
             else (fun blocker => "batch request " ++s pretty index ++s ": " ++s blocker) <$> tv_blockers (matrixraft_validate_tcp_transport_request request))
            ++ items (index + 1)%N l
        end in
      report_new "tcp_batch_request"
        ((match requests with [] => ["batch requests must not be empty"] | _ => [] end) ++ items 0%N requests)
  end.

(** ** Transports *)

Record Transport (S : Type) := mkTransport {
  append_entries : NodeId -> AppendEntriesRequest -> ST RaftError S AppendEntriesResponse;
  vote : NodeId -> VoteRequest -> ST RaftError S VoteResponse;
  install_snapshot : NodeId -> InstallSnapshotRequest -> ST RaftError S InstallSnapshotResponse;
  transport_read_index : NodeId -> ReadIndexRequest -> ST RaftError S ReadIndexResponse
}.
Arguments mkTransport {S} _ _ _ _.
Arguments append_entries {S} _ _ _ _.
Arguments vote {S} _ _ _ _.
Arguments install_snapshot {S} _ _ _ _.
Arguments transport_read_index {S} _ _ _ _.

(** The group behind its mutex. *)
Definition ClusterRaftTransport : Transport RaftCluster :=
  mkTransport append_entries_to vote_to install_snapshot_chunk_to (fun _ request c => (read_index request c, c)).

(** ** Authentication *)

Record AuthenticatedRaftRpc (M A : Type) := mkAuthenticatedRaftRpc { auth : A; auth_message : M }.
Arguments mkAuthenticatedRaftRpc {M A} _ _.
Arguments auth {M A} _.
Arguments auth_message {M A} _.

Class AuthPolicy (A P : Type) := {
  token_for : P -> NodeId -> A;
  auth_validate : P -> NodeId -> A -> Result unit
}.
Record StaticRaftAuthToken := mkStaticRaftAuthToken { sat_token : string }.
#[export] Instance static_policy : AuthPolicy string StaticRaftAuthToken := {
  token_for := fun p _ => sat_token p;
  auth_validate := fun p _ token =>
    if bool_decide (token = sat_token p) then Ok tt else Err (TransportErr "raft transport authentication failed")
}.

Section authenticated.
Context {S A P : Type} `{!AuthPolicy A P} (policy : P) (inner : Transport S).

Definition wrap_request {M} (target : NodeId) (message : M) : AuthenticatedRaftRpc M A :=
  mkAuthenticatedRaftRpc (token_for policy target) message.
Definition authenticated {M R} (call : NodeId -> M -> ST RaftError S R) (target : NodeId) (request : AuthenticatedRaftRpc M A) : ST RaftError S R :=
  _ ← lift (auth_validate policy target (auth request));
  call target (auth_message request).
Definition append_entries_authenticated := authenticated (append_entries inner).
Definition vote_authenticated := authenticated (vote inner).
Definition install_snapshot_authenticated := authenticated (install_snapshot inner).
Definition read_index_authenticated := authenticated (transport_read_index inner).

(** The trait's own operations go straight to the inner transport. *)
Definition AuthenticatedRaftTransport : Transport S :=
  mkTransport (append_entries inner) (vote inner) (install_snapshot inner) (transport_read_index inner).
End authenticated.

(** ** In memory *)

Section in_memory.
Context {S : Type}.

Record InMemoryRaftTransport := mkInMemoryRaftTransport { im_peers : gmap NodeId (Transport S); im_validate_messages : bool }.
#[export] Instance eta_InMemory : Settable InMemoryRaftTransport := fun t => mkInMemoryRaftTransport (im_peers t) (im_validate_messages t).

Definition with_validation (validate_messages : bool) : InMemoryRaftTransport := mkInMemoryRaftTransport ∅ validate_messages.
Definition in_memory_new : InMemoryRaftTransport := with_validation true.
Definition register_handler (node_id : NodeId) (handler : Transport S) (t : InMemoryRaftTransport) : Result unit * InMemoryRaftTransport :=
  if (node_id =? 0)%N then (Err (InvalidRequest "in-memory raft transport node_id must be greater than zero"), t)
  else (Ok tt, t <| im_peers ::= <[node_id := handler]> |>).
Definition unregister (node_id : NodeId) (t : InMemoryRaftTransport) : InMemoryRaftTransport := t <| im_peers ::= delete node_id |>.
Definition handler_of (target : NodeId) (t : InMemoryRaftTransport) : Result (Transport S) :=
  if (target =? 0)%N then Err (InvalidRequest "in-memory raft transport target must be greater than zero")
  else ok_or (im_peers t !! target) (TransportErr ("in-memory raft transport target " ++s pretty target ++s " is not registered")).

Definition checked_call {M R} (t : InMemoryRaftTransport) (validate_request : M -> TransportValidationReport)
    (validate_response : R -> TransportValidationReport) (call : Transport S -> NodeId -> M -> ST RaftError S R)
    (target : NodeId) (request : M) : ST RaftError S R :=
  _ ← lift (if im_validate_messages t then require_transport_validation (validate_request request) else Ok tt);
  handler ← lift (handler_of target t);
  response ← call handler target request;
  _ ← lift (if im_validate_messages t then require_transport_validation (validate_response response) else Ok tt);
  mret response.
Definition InMemory_transport (t : InMemoryRaftTransport) : Transport S :=
  mkTransport
    (checked_call t matrixraft_validate_append_entries_request matrixraft_validate_append_entries_response append_entries)
    (checked_call t matrixraft_validate_vote_request matrixraft_validate_vote_response vote)
    (checked_call t matrixraft_validate_install_snapshot_request matrixraft_validate_install_snapshot_response install_snapshot)
    (checked_call t matrixraft_validate_read_index_request matrixraft_validate_read_index_response transport_read_index).
End in_memory.
Arguments InMemoryRaftTransport : clear implicits.

(** ** Messages of a connection *)

Definition ANY_CLUSTER_ID : N := 0.
Definition raft_clusters_may_talk (local sender : N) : bool :=
  (local =? ANY_CLUSTER_ID)%N || (sender =? ANY_CLUSTER_ID)%N || (local =? sender)%N.

Fixpoint matrixraft_is_health_check_request (request : TcpRaftTransportRequest) : bool :=
  match request with
  | TVote _ _ => true
  | TAppendEntries _ request => match aer_entries request with [] => true | _ => false end
  | TBatch requests => existsb matrixraft_is_health_check_request requests
  | TInstallSnapshot _ _ | TReadIndex _ _ => false
  end.

(** The bytes up to and with the first newline. *)
Fixpoint split_line (stream : list byte) : list byte * list byte :=
  match stream with
  | [] => ([], [])
  | b :: stream => if (byte_N b =? 10)%N then ([b], stream) else let '(line, rest) := split_line stream in (b :: line, rest)
  end.

Definition short_read : RaftError := TransportErr "failed to read a framed raft RPC: failed to fill whole buffer".

(** One message of the bytes a peer sends before it closes; [None] is the close. *)
Definition read_rpc_message (stream : list byte) : Result (option (list byte * list byte)) :=
  match stream with
  | [] => Ok None
  | first :: _ =>
      if negb (bool_decide (Some first = head RPC_MAGIC)) then
        let '(line, rest) := split_line stream in
        if utf8 line then Ok (Some (line, rest)) else Err (TransportErr "failed to read raft RPC: stream did not contain valid UTF-8")
      else if (length stream <? RPC_HEAD_BYTES)%nat then Err short_read
      else match framed_rpc_len (take RPC_HEAD_BYTES stream) with
           | None => Err (TransportErr "a raft RPC opened with the frame magic and did not carry a frame")
           | Some total =>
               if (N.of_nat (length stream) <? total)%N then Err short_read
               else Ok (Some (take (N.to_nat total) stream, drop (N.to_nat total) stream))
           end
  end.

Definition is_ascii_whitespace (b : byte) : bool :=
  let n := byte_N b in ((n =? 32) || (n =? 9) || (n =? 10) || (n =? 12) || (n =? 13))%N.

(** A refusal in the shape of the request that earned it. *)
Definition refusal {T} (reason : string) : TcpRaftRpcResult T := from_result (Err (TransportErr reason)).
Fixpoint refuse_request (reason : string) (request : TcpRaftTransportRequest) : TcpRaftTransportResponse :=
  match request with
  | TAppendEntries _ _ => RAppendEntries (refusal reason)
  | TVote _ _ => RVote (refusal reason)
  | TInstallSnapshot _ _ => RInstallSnapshot (refusal reason)
  | TReadIndex _ _ => RReadIndex (refusal reason)
  | TBatch requests => RBatch (refuse_request reason <$> requests)
  end.
Definition refuse_foreign_cluster (request : TcpRaftTransportRequest) (local sender : N) : TcpRaftTransportResponse :=
  refuse_request ("raft request from cluster " ++s pretty sender ++s " refused by cluster " ++s pretty local) request.

Section server.
Context {S : Type} (handler : Transport S).

Fixpoint handle_tcp_raft_request (request : TcpRaftTransportRequest) (s : S) : TcpRaftTransportResponse * S :=
  match request with
  | TAppendEntries target request => let '(r, s) := append_entries handler target request s in (RAppendEntries (from_result r), s)
  | TVote target request => let '(r, s) := vote handler target request s in (RVote (from_result r), s)
  | TInstallSnapshot target request => let '(r, s) := install_snapshot handler target request s in (RInstallSnapshot (from_result r), s)
  | TReadIndex target request => let '(r, s) := transport_read_index handler target request s in (RReadIndex (from_result r), s)
  | TBatch requests =>
      let fix each (l : list TcpRaftTransportRequest) (s : S) : list TcpRaftTransportResponse * S :=
        match l with
        | [] => ([], s)
        | request :: l => let '(r, s) := handle_tcp_raft_request request s in let '(rs, s) := each l s in (r :: rs, s)
        end in
      let '(rs, s) := each requests s in (RBatch rs, s)
  end.

Context `{Prost} `{RpcProst}.
Context (json_envelope : list byte -> result string TcpRaftTransportEnvelope) (json_of_response : TcpRaftTransportResponse -> result string (list byte)).
Context (cluster_id : N) (observer : option (TcpRaftTransportRequest -> string -> Result unit)).

Record Server := mkServer { srv_handler : S; srv_refused : N; srv_observed : N; srv_shutdown : bool }.
#[export] Instance eta_Server : Settable Server := fun s => mkServer (srv_handler s) (srv_refused s) (srv_observed s) (srv_shutdown s).

Definition decode_request (message : list byte) : Result TcpRaftTransportEnvelope :=
  if is_framed_rpc message then matrixraft_decode_rpc_envelope message
  else match json_envelope message with
       | Ok envelope => Ok envelope
       | Err err => Err (TransportErr ("failed to decode raft TCP request: " ++s err))
       end.
Definition encode_response (framed_request : bool) (response : TcpRaftTransportResponse) : Result (list byte) :=
  if framed_request then matrixraft_encode_rpc_response response
  else match json_of_response response with
       | Ok json => Ok (json ++ [x0a])
       | Err err => Err (TransportErr ("failed to encode raft TCP response: " ++s err))
       end.

(** The cluster check, the observer and the dispatch of a validated request. *)
Definition serve_envelope (envelope : TcpRaftTransportEnvelope) (s : Server) : TcpRaftTransportResponse * Server :=
  let request := env_request envelope in
  if negb (raft_clusters_may_talk cluster_id (env_cluster_id envelope))
  then (refuse_foreign_cluster request cluster_id (env_cluster_id envelope), s <| srv_refused ::= N.succ |>)
  else
    let shown := match observer, env_user_payload envelope with Some observe, Some payload => Some (observe request payload) | _, _ => None end in
    match shown with
    | Some (Err error) => (refuse_request (RaftError_to_string error) request, s <| srv_refused ::= N.succ |>)
    | _ =>
        let s := match shown with Some _ => s <| srv_observed ::= N.succ |> | None => s end in
        let '(response, inner) := handle_tcp_raft_request request (srv_handler s) in (response, s <| srv_handler := inner |>)
    end.

(** What becomes of one message: the connection goes on without an answer, ends, or
    carries an answer. *)
Inductive Served := Skipped | Closed (r : Result unit) | Answered (bytes : list byte).

Definition serve_message (message : list byte) (s : Server) : Served * Server :=
  if forallb is_ascii_whitespace message then (Skipped, s)
  else if srv_shutdown s then (Closed (Ok tt), s)
  else match decode_request message with
       | Err error => (Closed (Err error), s)
       | Ok envelope =>
           match require_transport_validation (matrixraft_validate_tcp_transport_request (env_request envelope)) with
           | Err error => (Closed (Err error), s)
           | Ok _ =>
               let '(response, s) := serve_envelope envelope s in
               match encode_response (is_framed_rpc message) response with
               | Err error => (Closed (Err error), s)
               | Ok bytes => (Answered bytes, s)
               end
           end
       end.

(** [serve_tcp_raft_connection]: each round takes a message of at least one byte, so the
    fuel, one more than the bytes, does not run out. *)
Fixpoint serve_connection (fuel : nat) (stream : list byte) (s : Server) : Result unit * list byte * Server :=
  match fuel with
  | 0 => (Ok tt, [], s)
  | Datatypes.S fuel =>
      if srv_shutdown s then (Ok tt, [], s)
      else match read_rpc_message stream with
           | Err error => (Err error, [], s)
           | Ok None => (Ok tt, [], s)
           | Ok (Some (message, rest)) =>
               match serve_message message s with
               | (Closed r, s) => (r, [], s)
               | (Skipped, s) => serve_connection fuel rest s
               | (Answered bytes, s) => let '(r, out, s) := serve_connection fuel rest s in (r, bytes ++ out, s)
               end
           end
  end.
Definition serve_tcp_raft_connection (stream : list byte) (s : Server) : Result unit * list byte * Server :=
  serve_connection (Datatypes.S (length stream)) stream s.
End server.
Arguments Server : clear implicits.

(** ** The client *)

(** Sockets: connecting to an address, writing to a connection, reading one message of it;
    the texts are those of I/O errors. *)
Class Network (W C : Type) := {
  connect : string -> W -> result string C * W;
  conn_addr : C -> string;
  write_all : C -> list byte -> W -> result string unit * W;
  read_message : C -> W -> Result (option (list byte)) * W
}.
(** A connection leads where it was opened to. *)
Class NetworkLaws W C `{Network W C} : Prop := connect_addr addr w c w' : connect addr w = (Ok c, w') -> conn_addr c = addr.

Definition DEFAULT_CONNECTIONS_PER_PEER : N := 4.

Section client.
Context {W C : Type} `{!Network W C} `{Prost} `{RpcProst}.
Context (json_response : list byte -> result string TcpRaftTransportResponse).
Context (resolver : option (NodeId -> NodeId -> Result string)) (local_node_id : NodeId).
Context (user_payload : option (NodeId -> Result (option string))).

Record TcpRaftTransport := mkTcpRaftTransport {
  tr_peers : gmap NodeId string;
  tr_idle : gmap NodeId (list C);
  tr_cluster_id : N;
  tr_re_resolved : N;
  tr_connections_per_peer : N
}.
#[export] Instance eta_TcpRaftTransport : Settable TcpRaftTransport :=
  fun t => mkTcpRaftTransport (tr_peers t) (tr_idle t) (tr_cluster_id t) (tr_re_resolved t) (tr_connections_per_peer t).

Definition new_in_cluster (peers : gmap NodeId string) (cluster_id : N) : TcpRaftTransport :=
  mkTcpRaftTransport peers ∅ cluster_id 0 DEFAULT_CONNECTIONS_PER_PEER.
Definition tcp_new (peers : gmap NodeId string) : TcpRaftTransport := new_in_cluster peers ANY_CLUSTER_ID.
Definition with_connections_per_peer (connections : N) (t : TcpRaftTransport) : TcpRaftTransport := t <| tr_connections_per_peer := N.max connections 1 |>.
Definition idle_connections (node_id : NodeId) (t : TcpRaftTransport) : nat := length (default [] (tr_idle t !! node_id)).

(** The last connection that was kept. *)
Definition take_idle (target : NodeId) (t : TcpRaftTransport) : option C * TcpRaftTransport :=
  match tr_idle t !! target with
  | None => (None, t)
  | Some pooled =>
      match last pooled with
      | None => (None, t)
      | Some connection => (Some connection, t <| tr_idle ::= <[target := removelast pooled]> |>)
      end
  end.
Definition store_idle (target : NodeId) (connection : C) (t : TcpRaftTransport) : TcpRaftTransport :=
  let pooled := default [] (tr_idle t !! target) in
  t <| tr_idle ::= <[target := if (N.of_nat (length pooled) <? tr_connections_per_peer t)%N then pooled ++ [connection] else pooled]> |>.

Definition set_peer_addr (node_id : NodeId) (addr : string) (t : TcpRaftTransport) : option string * TcpRaftTransport :=
  let previous := tr_peers t !! node_id in
  let t := t <| tr_peers ::= <[node_id := addr]> |> in
  (previous, if bool_decide (previous = Some addr) then t else t <| tr_idle ::= delete node_id |>).
Definition refresh_peer_addr (node_id : NodeId) (t : TcpRaftTransport) : Result (option string) * TcpRaftTransport :=
  match resolver with
  | None => (Err (TransportErr "this raft transport has no address resolver to refresh from"), t)
  | Some resolve_raft_addr =>
      match resolve_raft_addr local_node_id node_id with
      | Err error => (Err error, t)
      | Ok resolved =>
          if bool_decide (tr_peers t !! node_id = Some resolved) then (Ok None, t)
          else let '(previous, t) := set_peer_addr node_id resolved (t <| tr_re_resolved ::= N.succ |>) in (Ok previous, t)
      end
  end.

Definition closed_early : RaftError := TransportErr "raft RPC connection closed before a response".
Definition exchange (connection : C) (encoded : list byte) (w : W) : Result (list byte) * W :=
  match write_all connection encoded w with
  | (Err err, w) => (Err (TransportErr ("failed to write raft RPC: " ++s err)), w)
  | (Ok _, w) =>
      match read_message connection w with
      | (Err error, w) => (Err error, w)
      | (Ok None, w) | (Ok (Some []), w) => (Err closed_early, w)
      | (Ok (Some response), w) => (Ok response, w)
      end
  end.

Definition decode_rpc_response (bytes : list byte) : Result TcpRaftTransportResponse :=
  if is_framed_rpc bytes then matrixraft_decode_rpc_response bytes
  else match json_response bytes with Ok response => Ok response | Err err => Err (TransportErr ("failed to decode raft RPC: " ++s err)) end.

(** A fresh connection, to where the peer is now if it has moved. *)
Definition connect_to (target : NodeId) (addr : string) (t : TcpRaftTransport) (w : W) : Result C * (TcpRaftTransport * W) :=
  match connect addr w with
  | (Ok stream, w) => (Ok stream, (t, w))
  | (Err err, w) =>
      let '(refreshed, t) := refresh_peer_addr target t in
      match match refreshed with Ok (Some _) => tr_peers t !! target | _ => None end with
      | Some moved =>
          match connect moved w with
          | (Ok stream, w) => (Ok stream, (t, w))
          | (Err retry, w) =>
              (Err (TransportErr ("failed to connect to " ++s addr ++s ", and to " ++s moved ++s " after re-resolving: " ++s retry)), (t, w))
          end
      | None => (Err (TransportErr ("failed to connect to " ++s addr ++s ": " ++s err)), (t, w))
      end
  end.

(** One exchange on a fresh connection. *)
Definition send_fresh (target : NodeId) (addr : string) (encoded : list byte) (t : TcpRaftTransport) (w : W)
    : Result TcpRaftTransportResponse * (TcpRaftTransport * W) :=
  match connect_to target addr t w with
  | (Err error, (t, w)) => (Err error, (t, w))
  | (Ok stream, (t, w)) =>
      match exchange stream encoded w with
      | (Err error, w) => (Err error, (t, w))
      | (Ok response, w) => (decode_rpc_response response, (store_idle target stream t, w))
      end
  end.

(** Only a health check carries a payload, and only if the host has a callback. *)
Definition payload_for (target : NodeId) (request : TcpRaftTransportRequest) : Result (option string) :=
  match user_payload with
  | Some callback => if matrixraft_is_health_check_request request then callback target else Ok None
  | None => Ok None
  end.

Definition send_rpc (target : NodeId) (request : TcpRaftTransportRequest) : ST RaftError (TcpRaftTransport * W) TcpRaftTransportResponse := fun '(t, w) =>
  match tr_peers t !! target with
  | None => (Err (TransportErr ("raft transport target " ++s pretty target ++s " has no address")), (t, w))
  | Some addr =>
      match payload_for target request with
      | Err error => (Err error, (t, w))
      | Ok payload =>
          match matrixraft_encode_rpc_envelope (mkEnvelope (tr_cluster_id t) payload request) with
          | Err error => (Err error, (t, w))
          | Ok encoded =>
              match take_idle target t with
              | (None, t) => send_fresh target addr encoded t w
              | (Some connection, t) =>
                  match exchange connection encoded w with
                  | (Ok response, w) => (decode_rpc_response response, (store_idle target connection t, w))
                  | (Err _, w) => send_fresh target addr encoded t w
                  end
              end
          end
      end
  end.

Definition send_batch_rpc (target : NodeId) (requests : list TcpRaftTransportRequest) : ST RaftError (TcpRaftTransport * W) (list TcpRaftTransportResponse) :=
  match requests with
  | [] => mret []
  | _ =>
      _ ← for_each (fun request => lift (require_transport_validation (matrixraft_validate_tcp_transport_request request))) requests;
      response ← send_rpc target (TBatch requests);
      match response with RBatch responses => mret responses | _ => fail (TransportErr "unexpected batch RPC response") end
  end.

(** The operations of the trait: validate, send, take the answer of the right kind,
    validate it. *)
Definition tcp_call {M R} (validate_request : M -> TransportValidationReport) (validate_response : R -> TransportValidationReport)
    (send : NodeId -> M -> TcpRaftTransportRequest) (answer : TcpRaftTransportResponse -> option (TcpRaftRpcResult R)) (unexpected : string)
    (target : NodeId) (request : M) : ST RaftError (TcpRaftTransport * W) R :=
  _ ← lift (require_transport_validation (validate_request request));
  response ← send_rpc target (send target request);
  match answer response with
  | None => fail (TransportErr unexpected)
  | Some result =>
      response ← lift (into_result result);
      _ ← lift (require_transport_validation (validate_response response));
      mret response
  end.
Definition Tcp_transport : Transport (TcpRaftTransport * W) :=
  mkTransport
    (tcp_call matrixraft_validate_append_entries_request matrixraft_validate_append_entries_response TAppendEntries
       (fun r => match r with RAppendEntries result => Some result | _ => None end) "unexpected append-entries RPC response")
    (tcp_call matrixraft_validate_vote_request matrixraft_validate_vote_response TVote
       (fun r => match r with RVote result => Some result | _ => None end) "unexpected vote RPC response")
    (tcp_call matrixraft_validate_install_snapshot_request matrixraft_validate_install_snapshot_response TInstallSnapshot
       (fun r => match r with RInstallSnapshot result => Some result | _ => None end) "unexpected install-snapshot RPC response")
    (tcp_call matrixraft_validate_read_index_request matrixraft_validate_read_index_response TReadIndex
       (fun r => match r with RReadIndex result => Some result | _ => None end) "unexpected read-index RPC response").
End client.
Arguments TcpRaftTransport : clear implicits.

(** ** The server behind the network *)

(** The network whose other end is a server: what is written to a connection is served,
    and the answer waits to be read. *)
Section loopback.
Context {S : Type} (handler : Transport S) `{HP : Prost} `{HR : RpcProst}.
Context (json_envelope : list byte -> result string TcpRaftTransportEnvelope) (json_of_response : TcpRaftTransportResponse -> result string (list byte)).
Context (cluster_id : N) (observer : option (TcpRaftTransportRequest -> string -> Result unit)).

Record Loopback := mkLoopback { lo_server : Server S; lo_reply : list byte }.

Definition loopback : Network Loopback string := {|
  connect := fun addr w => (Ok addr, w);
  conn_addr := fun addr => addr;
  write_all := fun _ bytes w =>
    let '(_, out, server) := serve_tcp_raft_connection handler json_envelope json_of_response cluster_id observer bytes (lo_server w) in
    (Ok tt, mkLoopback server out);
  read_message := fun _ w =>
    match read_rpc_message (lo_reply w) with
    | Err error => (Err error, w)
    | Ok None => (Ok None, w)
    | Ok (Some (message, rest)) => (Ok (Some message), mkLoopback (lo_server w) rest)
    end
|}.
End loopback.
Arguments Loopback : clear implicits.

(** ** Reading and serving frames *)

Lemma read_framed body bytes rest : frame body = Ok bytes -> read_rpc_message (bytes ++ rest) = Ok (Some (bytes, rest)).
Proof.
  intros Hf. destruct (encoded_is_framed bytes body rest Hf) as [_ Hlen]. apply frame_Ok in Hf as [-> Hl].
  pose proof (rpc_frame_length (crc32c body) body Hl (crc32c_lt body)) as Hb. set (f := rpc_frame (crc32c body) body) in *.
  assert (exists l, f = x4d :: l) as [l Hm] by (by eexists). unfold read_rpc_message. rewrite Hm at 1. cbn [app].
  rewrite bool_decide_true by done. cbn [negb]. rewrite length_app, Hb. unfold RPC_HEAD_BYTES, RPC_FRAME_BYTES in *.
  destruct (Nat.ltb_spec (4 + 8 + length body + length rest) (4 + 8)); [lia|]. rewrite Hlen.
  destruct (N.ltb_spec (N.of_nat (4 + 8 + length body + length rest)) (N.of_nat (length f))); [lia|].
  by rewrite Nat2N.id, (take_app_length' f), (drop_app_length' f).
Qed.

Lemma framed_not_blank body bytes : frame body = Ok bytes -> forallb is_ascii_whitespace bytes = false /\ bytes <> [].
Proof. intros [-> _]%frame_Ok. by split. Qed.

Section serving.
Context {S : Type} (handler : Transport S) `{HP : Prost} `{HR : RpcProst} `{!RpcProstLaws}.
Context (json_envelope : list byte -> result string TcpRaftTransportEnvelope) (json_of_response : TcpRaftTransportResponse -> result string (list byte)).
Context (cluster_id : N) (observer : option (TcpRaftTransportRequest -> string -> Result unit)).
Abbreviation serve_envelope := (serve_envelope handler cluster_id observer).
Abbreviation serve_message := (serve_message handler json_envelope json_of_response cluster_id observer).
Abbreviation serve_connection := (serve_connection handler json_envelope json_of_response cluster_id observer).
Abbreviation serve_tcp_raft_connection := (serve_tcp_raft_connection handler json_envelope json_of_response cluster_id observer).

Definition request_valid (request : TcpRaftTransportRequest) : Prop := tv_valid (matrixraft_validate_tcp_transport_request request) = true.

Lemma require_valid report : tv_valid report = true -> require_transport_validation report = Ok tt.
Proof. unfold require_transport_validation. by intros ->. Qed.

Lemma serve_envelope_shutdown e s : srv_shutdown (serve_envelope e s).2 = srv_shutdown s.
Proof.
  unfold Transport.serve_envelope. destruct (negb _); [done|]. destruct observer as [observe|], (env_user_payload e) as [payload|]; cbn;
    try destruct (observe _ _); cbn; try destruct (handle_tcp_raft_request handler _ _); done.
Qed.

(** A request that arrives whole and valid is answered. *)
Lemma serve_framed e sent answered s :
  envelope_ok e -> request_valid (env_request e) -> matrixraft_encode_rpc_envelope e = Ok sent -> srv_shutdown s = false ->
  matrixraft_encode_rpc_response (serve_envelope e s).1 = Ok answered ->
  serve_message sent s = (Answered answered, (serve_envelope e s).2).
Proof.
  intros Hok Hv Hs Hd Ha. unfold Transport.serve_message. destruct (framed_not_blank _ _ Hs) as [-> _]. rewrite Hd.
  destruct (encoded_is_framed sent _ [] Hs) as [Hfr _]. rewrite app_nil_r in Hfr. unfold decode_request. rewrite Hfr.
  pose proof (envelope_decode_encode e sent [] Hok Hs) as Hdec. rewrite app_nil_r in Hdec. rewrite Hdec, require_valid by done.
  destruct (serve_envelope e s) as [r s'] eqn:Hse. cbn in Ha. unfold encode_response. by rewrite Ha.
Qed.

(** The answers to requests served one after the other. *)
Fixpoint serve_all (envelopes : list TcpRaftTransportEnvelope) (s : Server S) : Result (list byte * Server S) :=
  match envelopes with
  | [] => Ok ([], s)
  | e :: envelopes =>
      let '(response, s) := serve_envelope e s in
      answered ← matrixraft_encode_rpc_response response;
      '(out, s) ← serve_all envelopes s; Ok (answered ++ out, s)
  end.

Definition sent_as (e : TcpRaftTransportEnvelope) (sent : list byte) : Prop :=
  envelope_ok e /\ request_valid (env_request e) /\ matrixraft_encode_rpc_envelope e = Ok sent.

Lemma sent_as_length e sent : sent_as e sent -> 0 < length sent.
Proof. intros (_ & _ & Hs). destruct (framed_not_blank _ _ Hs) as [_ Hne]. destruct sent; [done|cbn; lia]. Qed.

Lemma serve_connection_frames es frames s out s' fuel :
  Forall2 sent_as es frames -> srv_shutdown s = false -> serve_all es s = Ok (out, s') -> length (mjoin frames) < fuel ->
  serve_connection fuel (mjoin frames) s = (Ok tt, out, s').
Proof.
  intros Hall. revert s out s' fuel. induction Hall as [|e sent es frames Hs Hall IH]; intros s out s' fuel Hd Hserve Hfuel.
  { injection Hserve as <- <-. destruct fuel; [lia|]. cbn. by rewrite Hd. }
  change (mjoin (sent :: frames)) with (sent ++ mjoin frames) in *. rewrite length_app in Hfuel. pose proof (sent_as_length _ _ Hs) as Hpos. destruct Hs as (Hok & Hv & Hs).
  destruct fuel as [|fuel]; [lia|]. cbn [Transport.serve_connection]. rewrite Hd, (read_framed _ _ _ Hs).
  cbn [serve_all] in Hserve. destruct (serve_envelope e s) as [r s1] eqn:Hse.
  destruct (matrixraft_encode_rpc_response r) as [answered|] eqn:Ha; [|done]. cbn [mbind result_bind] in Hserve.
  destruct (serve_all es s1) as [[out1 s2]|] eqn:Hrest; [|done]. injection Hserve as <- <-.
  rewrite (serve_framed e sent answered s) by (rewrite ?Hse; done). rewrite Hse. cbn [snd].
  rewrite (IH s1 out1 s2 fuel); [done| |done|lia]. pose proof (serve_envelope_shutdown e s) as Hkeep. rewrite Hse in Hkeep. cbn in Hkeep. by rewrite Hkeep.
Qed.

(** Requests that follow each other on a connection are served in order: each is answered
    from the state the one before it left, and the answers follow each other the same way. *)
Theorem connection_serves_in_order es frames s out s' :
  Forall2 sent_as es frames -> srv_shutdown s = false -> serve_all es s = Ok (out, s') ->
  serve_tcp_raft_connection (mjoin frames) s = (Ok tt, out, s').
Proof. intros Hall Hd Hs. unfold Transport.serve_tcp_raft_connection. apply (serve_connection_frames es); [done..|lia]. Qed.

(** *** What arrives on a connection *)

(** [stream] is the [messages], cut as the reader cuts them, followed by [rest]. *)
Inductive arrives : list byte -> list (list byte) -> list byte -> Prop :=
| arrives_nothing stream : arrives stream [] stream
| arrives_message stream message after messages rest :
    read_rpc_message stream = Ok (Some (message, after)) -> arrives after messages rest ->
    arrives stream (message :: messages) rest.

Definition blank_message (message : list byte) : bool := forallb is_ascii_whitespace message.

(** The request is valid, stamped by a cluster the server talks to, and accepted by the
    observer of payloads. *)
Definition request_admitted (e : TcpRaftTransportEnvelope) : bool :=
  tv_valid (matrixraft_validate_tcp_transport_request (env_request e)) && raft_clusters_may_talk cluster_id (env_cluster_id e)
  && match observer, env_user_payload e with Some observe, Some payload => is_ok (observe (env_request e) payload) | _, _ => true end.

(** The request of a message, when it is one the handler is to see. *)
Definition admitted (message : list byte) : option TcpRaftTransportEnvelope :=
  if blank_message message then None
  else match decode_request json_envelope message with Ok e => if request_admitted e then Some e else None | Err _ => None end.

(** What makes a message the last of its connection. *)
Definition breaks (message : list byte) : option RaftError :=
  if blank_message message then None
  else match decode_request json_envelope message with
       | Err error => Some error
       | Ok e => match require_transport_validation (matrixraft_validate_tcp_transport_request (env_request e)) with
                 | Err error => Some error | Ok _ => None end
       end.

(** The handler after the admitted requests of [messages], each handled once, in order. *)
Definition handled (messages : list (list byte)) (inner : S) : S :=
  foldl (fun inner e => (handle_tcp_raft_request handler (env_request e) inner).2) inner (omap admitted messages).

(** The answer to [message] cannot be encoded. *)
Definition unanswerable (message : list byte) (error : RaftError) (inner : S) : Prop :=
  exists e s, decode_request json_envelope message = Ok e /\ srv_handler s = inner
    /\ encode_response json_of_response (is_framed_rpc message) (serve_envelope e s).1 = Err error.

(** Why the connection is over: the peer closed it after whole messages, the reader
    failed on what is left, or the last message broke it or could not be answered. *)
Definition connection_end (r : Result unit) (messages : list (list byte)) (rest : list byte) (inner : S) : Prop :=
  match r with
  | Ok _ => rest = [] /\ Forall (fun m => breaks m = None) messages
  | Err error =>
      (read_rpc_message rest = Err error /\ Forall (fun m => breaks m = None) messages)
      \/ exists before m, messages = before ++ [m] /\ Forall (fun m => breaks m = None) before
           /\ (breaks m = Some error \/ unanswerable m error (handled before inner))
  end.

Lemma handled_cons message messages inner : handled (message :: messages) inner = handled messages (handled [message] inner).
Proof. unfold handled. cbn. by destruct (admitted message). Qed.

Lemma serve_envelope_handler e s : request_valid (env_request e) ->
  srv_handler (serve_envelope e s).2
  = if request_admitted e then (handle_tcp_raft_request handler (env_request e) (srv_handler s)).2 else srv_handler s.
Proof.
  intros Hv. unfold Transport.serve_envelope, request_admitted. rewrite Hv. destruct (raft_clusters_may_talk _ _); cbn [negb andb]; [|done].
  destruct observer as [observe|], (env_user_payload e) as [payload|]; cbn; try (destruct (observe _ _) as [[]|error]); cbn;
    try done; by destruct (handle_tcp_raft_request handler _ _).
Qed.

(** A message has exactly the effect of its admitted request, and ends the connection only
    for the reasons above. *)
Lemma serve_message_effect message s : srv_shutdown s = false ->
  let '(served, s1) := serve_message message s in
  srv_shutdown s1 = false /\ srv_handler s1 = handled [message] (srv_handler s)
  /\ match served with
     | Closed (Ok _) => False
     | Closed (Err error) => breaks message = Some error \/ unanswerable message error (srv_handler s)
     | Skipped | Answered _ => breaks message = None
     end.
Proof.
  intros Hd. unfold Transport.serve_message, handled, admitted, breaks. cbn [omap list_omap]. fold (blank_message message).
  destruct (blank_message message); [done|]. rewrite Hd. destruct (decode_request json_envelope message) as [e|error] eqn:Hdec; [|by repeat split; auto].
  destruct (require_transport_validation _) as [[]|error] eqn:Hv.
  - assert (request_valid (env_request e)) as Hok.
    { unfold require_transport_validation in Hv. unfold request_valid. by destruct (tv_valid _). }
    pose proof (serve_envelope_handler e s Hok) as Hh. pose proof (serve_envelope_shutdown e s) as Hs.
    destruct (serve_envelope e s) as [response s1] eqn:Hse. cbn [snd] in Hh, Hs.
    assert (srv_handler s1 = foldl (fun inner e => (handle_tcp_raft_request handler (env_request e) inner).2) (srv_handler s)
              (match (if request_admitted e then Some e else None) with Some y => [y] | None => [] end)) as Hfold by (rewrite Hh; by destruct (request_admitted e)).
    destruct (encode_response _ _ _) as [bytes|error] eqn:Henc; (split; [congruence|]); (split; [exact Hfold|]); [done|].
    right. exists e, s. by rewrite Hse.
  - split; [done|]. unfold request_admitted. unfold require_transport_validation in Hv. destruct (tv_valid _); [done|]. cbn. auto.
Qed.

Lemma split_line_shorter stream line rest : split_line stream = (line, rest) -> stream <> [] -> length rest < length stream.
Proof.
  revert line rest. induction stream as [|b stream IH]; intros line rest; [done|]. cbn.
  destruct (_ =? _)%N; [intros [= <- <-] _; lia|]. destruct (split_line stream) as [l r] eqn:E. intros [= <- <-] _.
  destruct stream; [injection E as <- <-; cbn; lia|]. specialize (IH l r eq_refl ltac:(done)). lia.
Qed.

Lemma read_shorter stream message rest : read_rpc_message stream = Ok (Some (message, rest)) -> length rest < length stream.
Proof.
  unfold read_rpc_message. destruct stream as [|b stream]; [done|]. destruct (negb _).
  - destruct (split_line (b :: stream)) as [line r] eqn:E. destruct (utf8 line); [|done]. intros [= <- <-]. by eapply split_line_shorter.
  - destruct (_ <? _)%nat; [done|]. unfold framed_rpc_len. destruct (_ || _); [done|]. destruct (_ <? _)%N; [done|].
    intros [= <- <-]. rewrite length_drop. cbn [length]. unfold RPC_FRAME_BYTES, RPC_MAGIC. cbn [length]. lia.
Qed.

Lemma serve_connection_accounts fuel stream s : srv_shutdown s = false -> length stream < fuel ->
  let '(r, out, s') := serve_connection fuel stream s in
  exists messages rest, arrives stream messages rest /\ srv_handler s' = handled messages (srv_handler s)
    /\ connection_end r messages rest (srv_handler s).
Proof.
  revert stream s. induction fuel as [|fuel IH]; intros stream s Hd Hf; [lia|]. cbn [Transport.serve_connection]. rewrite Hd.
  destruct (read_rpc_message stream) as [[[message after]|]|error] eqn:Hread.
  - pose proof (read_shorter _ _ _ Hread) as Hlt. pose proof (serve_message_effect message s Hd) as Hm.
    destruct (serve_message message s) as [served s1]. destruct Hm as (Hd1 & Hh & Hserved).
    assert (breaks message = None ->
      let '(r, out, s') := serve_connection fuel after s1 in
      exists messages rest, arrives stream messages rest /\ srv_handler s' = handled messages (srv_handler s)
        /\ connection_end r messages rest (srv_handler s)) as Hgo.
    { intros Hb. specialize (IH after s1 Hd1 ltac:(lia)). destruct (serve_connection fuel after s1) as [[r out] s'].
      destruct IH as (messages & rest & Ha & Hs' & He). exists (message :: messages), rest.
      split; [by econstructor|]. rewrite handled_cons, <- Hh. split; [done|]. destruct r as [[]|error]; unfold connection_end in *.
      - destruct He. split; [done|by constructor].
      - destruct He as [[? ?]|(before & m & -> & Hall & Hl)]; [left; split; [done|by constructor]|right].
        exists (message :: before), m. rewrite handled_cons, <- Hh. split_and!; [done|by constructor|done]. }
    destruct served as [|r|bytes]; [by apply Hgo| |].
    + destruct r as [[]|error]; [done|]. exists [message], after. split; [econstructor; [exact Hread|constructor]|]. split; [done|].
      right. exists [], message. done.
    + specialize (Hgo Hserved). by destruct (serve_connection fuel after s1) as [[r out] s'].
  - exists [], stream. split_and!; [constructor|done|]. split; [|constructor]. unfold read_rpc_message in Hread. destruct stream as [|b stream]; [done|].
    revert Hread. repeat case_match; congruence.
  - exists [], stream. split_and!; [constructor|done|]. left. by split.
Qed.

(** C21: A connection hands the handler exactly the admitted requests of its bytes. The
    bytes are cut into messages as the reader cuts them, up to where the connection ends.
    Those that decode to a valid request, stamped by a cluster the server may talk to and
    accepted by the observer of payloads, are handled, each once, in the order they
    arrived, and the handler's state afterwards is what that makes of it: blank, foreign,
    refused and undecodable messages leave no trace in it. The connection ends well only
    when every byte was taken, and otherwise with the error of the reader, of the first
    message that does not decode or is not valid, or of an answer that does not encode;
    nothing after that is read. The server is one that is not shut down meanwhile. *)
Theorem only_admitted_requests_reach_handler stream s :
  srv_shutdown s = false ->
  let '(r, out, s') := serve_tcp_raft_connection stream s in
  exists messages rest, arrives stream messages rest /\ srv_handler s' = handled messages (srv_handler s)
    /\ connection_end r messages rest (srv_handler s).
Proof. intros Hd. apply serve_connection_accounts; [done|lia]. Qed.
End serving.

(** ** What validity says *)

Lemma report_valid rpc blockers : tv_valid (report_new rpc blockers) = true <-> blockers = [].
Proof. apply bool_decide_eq_true. Qed.
Lemma positive_id_valid field value : validate_positive_id field value = [] <-> value <> 0%N.
Proof. unfold validate_positive_id. by destruct (N.eqb_spec value 0). Qed.
Lemma log_index_valid field index : validate_log_index field index = [] <-> index <> 0%N /\ index <> u64_max.
Proof. unfold validate_log_index. destruct (N.eqb_spec index 0), (N.eqb_spec index u64_max); naive_solver. Qed.

(** The entries follow [index] one by one, below the last index there is. *)
Fixpoint follow (index : LogIndex) (entries : list LogEntry) : Prop :=
  match entries with
  | [] => True
  | entry :: entries => lid_index (log_id entry) = (index + 1)%N /\ (index + 1 < u64_max)%N /\ follow (index + 1)%N entries
  end.

Lemma entries_valid index entries : (index < u64_max)%N ->
  Forall (fun entry => u64 (lid_index (log_id entry))) entries ->
  validate_entries (checked_add index 1) entries = [] <-> follow index entries.
Proof.
  intros Hlt Hu. revert index Hlt. induction Hu as [|entry entries Hu _ IH]; intros index Hlt; [done|]. cbn [validate_entries follow].
  unfold checked_add at 1. destruct (N.leb_spec (index + 1) u64_max) as [Hle|]; [|lia]. unfold validate_log_id.
  rewrite !app_nil, log_index_valid. unfold u64 in Hu. destruct (N.eqb_spec (lid_index (log_id entry)) (index + 1)) as [->|Hne]; cbn [negb]; [|naive_solver].
  split.
  - intros ((_ & Hm) & _ & Hf). assert (index + 1 < u64_max)%N as Hlt' by lia. split_and!; [done..|]. by apply IH.
  - intros (_ & Hm & Hf). split_and!; [lia|lia|done|]. by apply IH.
Qed.

(** A valid append request is, exactly, one whose ids are set and whose entries follow its
    previous entry without a gap, all below the last index of a [u64]. *)
Theorem append_request_valid_iff target request :
  Forall (fun entry => u64 (lid_index (log_id entry))) (aer_entries request) -> opt_ok (fun id => u64 (lid_index id)) (aer_prev_log_id request) ->
  request_valid (TAppendEntries target request) <->
    target <> 0%N /\ aer_group_id request <> 0%N /\ aer_leader_id request <> 0%N
    /\ opt_ok (fun id => (0 < lid_index id < u64_max)%N) (aer_prev_log_id request)
    /\ follow (default 0%N (lid_index <$> aer_prev_log_id request)) (aer_entries request).
Proof.
  intros Hu Hp. unfold request_valid. cbn [matrixraft_validate_tcp_transport_request]. unfold with_target, matrixraft_validate_append_entries_request.
  rewrite report_valid. cbn [tv_blockers report_new]. rewrite !app_nil, !positive_id_valid.
  destruct (aer_prev_log_id request) as [id|]; cbn [fmap option_fmap option_map default opt_ok] in *.
  - unfold validate_log_id. rewrite log_index_valid. unfold u64 in Hp. split.
    + intros ((Hg & Hl & (H1 & H2) & He) & Ht). assert (lid_index id < u64_max)%N by lia. split_and!; [done..|lia|lia|]. by apply entries_valid.
    + intros (Ht & Hg & Hl & [H1 H2] & He). split_and!; [done..|lia|lia| |done]. by apply entries_valid.
  - pose proof (entries_valid 0 (aer_entries request) ltac:(done) Hu) as He. change (checked_add 0 1) with (Some 1%N) in He. tauto.
Qed.

(** ** A call over the wire *)

(** What a caller is told of the handler's result: its error as text, or the answer if it
    is valid. *)
Definition as_remote {R} (validate_response : R -> TransportValidationReport) (r : Result R) : Result R :=
  match r with
  | Err error => Err (TransportErr (RaftError_to_string error))
  | Ok response => _ ← require_transport_validation (validate_response response); Ok response
  end.

Section remote.
Context {S : Type} (handler : Transport S) `{HP : Prost} `{HR : RpcProst} `{!RpcProstLaws}.
Context (json_envelope : list byte -> result string TcpRaftTransportEnvelope) (json_of_response : TcpRaftTransportResponse -> result string (list byte)).
Context (json_response : list byte -> result string TcpRaftTransportResponse).
Context (cluster_id : N) (resolver : option (NodeId -> NodeId -> Result string)) (local_node_id : NodeId)
        (user_payload : option (NodeId -> Result (option string))).
#[local] Instance the_network : Network (Loopback S) string := loopback handler json_envelope json_of_response cluster_id None.
Abbreviation send_rpc := (send_rpc json_response resolver local_node_id user_payload).
Abbreviation Tcp_transport := (Tcp_transport json_response resolver local_node_id user_payload).
Abbreviation Client := (TcpRaftTransport string * Loopback S)%type (only parsing).

(** The peer has an address, its server is up and in a cluster that talks, the request is
    valid, and it and its answer fit a frame. *)
Record deliverable (target : NodeId) (request : TcpRaftTransportRequest) (t : TcpRaftTransport string) (w : Loopback S) : Prop := mk_deliverable {
  dl_addr : is_Some (tr_peers t !! target);
  dl_talk : raft_clusters_may_talk cluster_id (tr_cluster_id t) = true;
  dl_up : srv_shutdown (lo_server w) = false;
  dl_sent : exists payload sent, payload_for user_payload target request = Ok payload /\ sent_as (mkEnvelope (tr_cluster_id t) payload request) sent;
  dl_answer : let response := (handle_tcp_raft_request handler request (srv_handler (lo_server w))).1 in
    response_ok response /\ exists answered, matrixraft_encode_rpc_response response = Ok answered
}.

Lemma exchange_loopback (c : string) e sent answered w :
  sent_as e sent -> srv_shutdown (lo_server w) = false ->
  matrixraft_encode_rpc_response (serve_envelope handler cluster_id None e (lo_server w)).1 = Ok answered ->
  exchange c sent w = (Ok answered, mkLoopback (serve_envelope handler cluster_id None e (lo_server w)).2 []).
Proof.
  intros Hs Hd Ha. unfold exchange. cbn [write_all the_network loopback].
  pose proof (connection_serves_in_order handler json_envelope json_of_response cluster_id None [e] [sent] (lo_server w)) as Hc.
  cbn [serve_all] in Hc. destruct (serve_envelope handler cluster_id None e (lo_server w)) as [r s1] eqn:Hse. cbn [fst snd] in *. rewrite Ha in Hc.
  cbn [mbind result_bind mjoin list_join] in Hc. rewrite !app_nil_r in Hc. rewrite (Hc answered s1); [|by apply Forall2_cons; split; [exact Hs|apply Forall2_nil]|done|done].
  cbn [read_message the_network loopback lo_reply]. pose proof (read_framed _ _ [] Ha) as Hr. rewrite app_nil_r in Hr. rewrite Hr.
  destruct (framed_not_blank _ _ Ha) as [_ Hne]. destruct answered; [done|]. done.
Qed.

Lemma serve_admitted (t : TcpRaftTransport string) payload request (s : Server S) :
  raft_clusters_may_talk cluster_id (tr_cluster_id t) = true ->
  serve_envelope handler cluster_id None (mkEnvelope (tr_cluster_id t) payload request) s
  = ((handle_tcp_raft_request handler request (srv_handler s)).1, s <| srv_handler := (handle_tcp_raft_request handler request (srv_handler s)).2 |>).
Proof. intros Ht. unfold serve_envelope. cbn [env_cluster_id env_request env_user_payload]. rewrite Ht. cbn [negb]. by destruct (handle_tcp_raft_request _ _ _). Qed.

(** The answer is the handler's; of the client only the pool of connections changes. *)
Lemma send_rpc_loopback target request (t : TcpRaftTransport string) (w : Loopback S) : deliverable target request t w ->
  let '(response, inner) := handle_tcp_raft_request handler request (srv_handler (lo_server w)) in
  exists t', send_rpc target request (t, w) = (Ok response, (t', mkLoopback ((lo_server w) <| srv_handler := inner |>) []))
    /\ tr_peers t' = tr_peers t.
Proof.
  intros [[addr Ha] Ht Hd (payload & sent & Hp & Hs) [Hr [answered Hans]]]. pose proof Hs as (Hok & Hv & Henc).
  pose proof (serve_admitted t payload request (lo_server w) Ht) as Hserve.
  destruct (handle_tcp_raft_request handler request (srv_handler (lo_server w))) as [response inner] eqn:Hh. cbn [fst snd] in *.
  assert (forall c : string, exchange c sent w = (Ok answered, mkLoopback ((lo_server w) <| srv_handler := inner |>) [])) as Hex.
  { intros c. rewrite (exchange_loopback c _ sent answered w Hs Hd) by (rewrite Hserve; done). by rewrite Hserve. }
  assert (decode_rpc_response json_response answered = Ok response) as Hdec.
  { unfold decode_rpc_response. destruct (encoded_is_framed answered _ [] Hans) as [Hf _]. rewrite app_nil_r in Hf. rewrite Hf.
    pose proof (response_decode_encode response answered [] Hr Hans) as Hd'. by rewrite app_nil_r in Hd'. }
  unfold Transport.send_rpc. rewrite Ha, Hp, Henc. unfold take_idle.
  assert (forall t', tr_peers t' = tr_peers t -> exists t'', send_fresh json_response resolver local_node_id target addr sent t' w
    = (Ok response, (t'', mkLoopback ((lo_server w) <| srv_handler := inner |>) [])) /\ tr_peers t'' = tr_peers t) as Hfresh.
  { intros t' Ht'. unfold send_fresh, connect_to. cbn [connect the_network loopback]. rewrite Hex, Hdec. by eexists. }
  destruct (tr_idle t !! target) as [pooled|]; [|by apply Hfresh]. destruct (last pooled) as [c|]; [|by apply Hfresh].
  rewrite Hex, Hdec. by eexists.
Qed.

(** A call that is validated, sent, and answered by the handler's call. *)
Definition remote_is_local {M R} (remote : NodeId -> M -> ST RaftError Client R) (local : NodeId -> M -> ST RaftError S R)
    (validate_response : R -> TransportValidationReport) (send : NodeId -> M -> TcpRaftTransportRequest) : Prop :=
  forall target request t w, deliverable target (send target request) t w ->
    let '(r, inner) := local target request (srv_handler (lo_server w)) in
    exists t' w', remote target request (t, w) = (as_remote validate_response r, (t', w'))
      /\ lo_server w' = (lo_server w) <| srv_handler := inner |> /\ tr_peers t' = tr_peers t.

Lemma tcp_call_is_local {M R} (local : NodeId -> M -> ST RaftError S R) validate_request validate_response (send : NodeId -> M -> TcpRaftTransportRequest)
    answer unexpected (wrap : TcpRaftRpcResult R -> TcpRaftTransportResponse) :
  (forall target request, request_valid (send target request) -> tv_valid (validate_request request) = true) ->
  (forall target request s, handle_tcp_raft_request handler (send target request) s
     = (wrap (from_result (local target request s).1), (local target request s).2)) ->
  (forall x, answer (wrap x) = Some x) ->
  remote_is_local (tcp_call json_response resolver local_node_id user_payload validate_request validate_response send answer unexpected)
    local validate_response send.
Proof.
  intros Hvalid Hhandle Hanswer target request t w Hd. pose proof (send_rpc_loopback target (send target request) t w Hd) as Hs.
  rewrite Hhandle in Hs. destruct (local target request (srv_handler (lo_server w))) as [r inner]. cbn [fst snd] in Hs. destruct Hs as (t' & Hs & Ht).
  destruct Hd as [_ _ _ (payload & sent & _ & _ & Hv & _) _]. cbn in Hv.
  exists t', (mkLoopback ((lo_server w) <| srv_handler := inner |>) []). split; [|by split]. unfold tcp_call.
  unfold mbind at 1, ST_bind at 1, lift at 1. rewrite (require_valid _ (Hvalid target request Hv)). unfold mbind at 1, ST_bind at 1. rewrite Hs, Hanswer.
  destruct r as [response|error]; cbn; [|done].
  unfold mbind, ST_bind, lift, mret, ST_ret, result_bind. by destruct (require_transport_validation (validate_response response)).
Qed.

Lemma with_target_valid target report : tv_valid report = bool_decide (tv_blockers report = []) -> tv_valid (with_target target report) = true -> tv_valid report = true.
Proof. intros -> Hv. unfold with_target in Hv. apply report_valid, app_nil in Hv as [Hv _]. by apply bool_decide_eq_true. Qed.

(** C20: A call over the wire is a call. When the server can be reached, is of a cluster
    that talks to the client's and is not shut down, each operation of the TCP transport
    on a valid request gives what the operation of the handler behind the server gives,
    an error turned into its text and an answer checked once more, and leaves the handler
    in the same state: it is called exactly once. *)
Theorem remote_call_is_local_call :
  remote_is_local (append_entries Tcp_transport) (append_entries handler) matrixraft_validate_append_entries_response TAppendEntries
  /\ remote_is_local (vote Tcp_transport) (vote handler) matrixraft_validate_vote_response TVote
  /\ remote_is_local (install_snapshot Tcp_transport) (install_snapshot handler) matrixraft_validate_install_snapshot_response TInstallSnapshot
  /\ remote_is_local (transport_read_index Tcp_transport) (transport_read_index handler) matrixraft_validate_read_index_response TReadIndex.
Proof.
  split_and!.
  - apply (tcp_call_is_local _ _ _ _ _ _ RAppendEntries); [|intros; cbn; by destruct (append_entries handler _ _ _)|done].
    intros target request. by apply with_target_valid.
  - apply (tcp_call_is_local _ _ _ _ _ _ RVote); [|intros; cbn; by destruct (vote handler _ _ _)|done]. intros target request. by apply with_target_valid.
  - apply (tcp_call_is_local _ _ _ _ _ _ RInstallSnapshot); [|intros; cbn; by destruct (install_snapshot handler _ _ _)|done].
    intros target request. by apply with_target_valid.
  - apply (tcp_call_is_local _ _ _ _ _ _ RReadIndex); [|intros; cbn; by destruct (transport_read_index handler _ _ _)|done].
    intros target request. by apply with_target_valid.
Qed.
End remote.

(** ** The connections that are kept *)

Section pool.
Context {W C : Type} `{HN : !Network W C} `{!NetworkLaws W C} `{HP : Prost} `{HR : RpcProst}.
Context (json_response : list byte -> result string TcpRaftTransportResponse).
Context (resolver : option (NodeId -> NodeId -> Result string)) (local_node_id : NodeId)
        (user_payload : option (NodeId -> Result (option string))).

(** Every connection kept for a peer leads to the address known for it, and there are no
    more of them than the limit. *)
Definition pool_current (t : TcpRaftTransport C) : Prop :=
  forall node_id pooled, tr_idle t !! node_id = Some pooled ->
    Forall (fun c => tr_peers t !! node_id = Some (conn_addr c)) pooled /\ (N.of_nat (length pooled) <= tr_connections_per_peer t)%N.

Lemma take_idle_current target t c t' : pool_current t -> take_idle target t = (c, t') ->
  pool_current t' /\ tr_peers t' = tr_peers t /\ tr_connections_per_peer t' = tr_connections_per_peer t
  /\ forall connection, c = Some connection -> tr_peers t !! target = Some (conn_addr connection).
Proof.
  intros Hp. unfold take_idle. destruct (tr_idle t !! target) as [pooled|] eqn:Hi; [|intros [= <- <-]; done].
  destruct (last pooled) as [connection|] eqn:Hl; [|intros [= <- <-]; done]. intros [= <- <-].
  destruct (Hp target pooled Hi) as [Hall Hlen]. apply last_Some in Hl as [l ->]. rewrite removelast_last in *. apply Forall_app in Hall as [Hall Hlast].
  rewrite length_app in Hlen. split_and!; [|done|done|intros ? [= <-]; by apply Forall_inv in Hlast].
  intros node_id pooled. cbn. rewrite lookup_insert. case_decide as E; [|apply Hp]. intros [= <-]. subst. split; [done|lia].
Qed.

Lemma store_idle_current target c t : pool_current t -> tr_peers t !! target = Some (conn_addr c) -> pool_current (store_idle target c t).
Proof.
  intros Hp Hc node_id pooled. unfold store_idle. cbn. rewrite lookup_insert. case_decide as E; [|apply Hp]. subst. intros [= <-].
  assert (Forall (fun c => tr_peers t !! node_id = Some (conn_addr c)) (default [] (tr_idle t !! node_id))
          /\ (N.of_nat (length (default [] (tr_idle t !! node_id))) <= tr_connections_per_peer t)%N) as [Hall Hlen].
  { destruct (tr_idle t !! node_id) as [pooled|] eqn:Hi; cbn; [by apply Hp|]. split; [done|lia]. }
  destruct (N.ltb_spec (N.of_nat (length (default [] (tr_idle t !! node_id)))) (tr_connections_per_peer t)); [|done].
  rewrite Forall_app, length_app. split; [by split; [|constructor]|cbn; lia].
Qed.

Lemma set_peer_addr_current node_id addr t : pool_current t -> pool_current (set_peer_addr node_id addr t).2.
Proof.
  intros Hp n pooled. unfold set_peer_addr. cbn. case_bool_decide as E; cbn.
  - intros Hi. destruct (Hp n pooled Hi) as [Hall Hlen]. split; [|done]. rewrite lookup_insert. case_decide as En; [|done]. subst. by rewrite <- E.
  - rewrite lookup_delete. case_decide as En; [done|]. intros Hi. rewrite lookup_insert_ne by done. by apply Hp.
Qed.

Lemma refresh_peer_addr_current node_id t : pool_current t -> pool_current (refresh_peer_addr resolver local_node_id node_id t).2.
Proof.
  intros Hp. unfold refresh_peer_addr. destruct resolver as [resolve|]; [|done]. destruct (resolve _ _) as [resolved|]; [|done].
  case_bool_decide; [done|]. pose proof (set_peer_addr_current node_id resolved (t <| tr_re_resolved ::= N.succ |>)) as Hs.
  destruct (set_peer_addr _ _ _). by apply Hs.
Qed.

Lemma connect_to_current target addr t w r t' w' : pool_current t -> tr_peers t !! target = Some addr ->
  connect_to resolver local_node_id target addr t w = (r, (t', w')) ->
  pool_current t' /\ forall c, r = Ok c -> tr_peers t' !! target = Some (conn_addr c).
Proof.
  intros Hp Ha. unfold connect_to. destruct (connect addr w) as [[c|err] w1] eqn:Hc.
  { intros [= <- <- <-]. split; [done|]. intros ? [= <-]. by rewrite (connect_addr _ _ _ _ Hc). }
  pose proof (refresh_peer_addr_current target t Hp) as Hr. destruct (refresh_peer_addr _ _ _ t) as [refreshed t1]. cbn in Hr.
  destruct (match refreshed with Ok (Some _) => tr_peers t1 !! target | _ => None end) as [moved|] eqn:Hm; [|by intros [= <- <- <-]].
  destruct (connect moved w1) as [[c|retry] w2] eqn:Hc2; [|by intros [= <- <- <-]]. intros [= <- <- <-]. split; [done|]. intros ? [= <-].
  rewrite (connect_addr _ _ _ _ Hc2). destruct refreshed as [[]|]; done.
Qed.

Lemma send_fresh_current target addr encoded t w : pool_current t -> tr_peers t !! target = Some addr ->
  pool_current (send_fresh json_response resolver local_node_id target addr encoded t w).2.1.
Proof.
  intros Hp Ha. unfold send_fresh. destruct (connect_to _ _ _ _ _ _) as [r [t1 w1]] eqn:Hc.
  destruct (connect_to_current _ _ _ _ _ _ _ Hp Ha Hc) as [H1 H2]. destruct r as [c|]; [|done].
  destruct (exchange c encoded w1) as [[response|] w2]; [|done]. cbn. apply store_idle_current; [done|by apply H2].
Qed.

(** The pool of connections follows the addresses. A send, with its retry on a fresh
    connection and its move to a re-resolved address, and a change of a peer's address
    keep every kept connection one to the peer's current address, and no more of them
    than the limit. *)
Theorem kept_connections_are_current t w target request node_id addr :
  pool_current t ->
  pool_current (send_rpc json_response resolver local_node_id user_payload target request (t, w)).2.1
  /\ pool_current (set_peer_addr node_id addr t).2 /\ pool_current (refresh_peer_addr resolver local_node_id node_id t).2.
Proof.
  intros Hp. split_and!; [|by apply set_peer_addr_current|by apply refresh_peer_addr_current]. unfold send_rpc.
  destruct (tr_peers t !! target) as [addr'|] eqn:Ha; [|done]. destruct (payload_for _ _ _); [|done]. destruct (matrixraft_encode_rpc_envelope _) as [encoded|]; [|done].
  destruct (take_idle target t) as [[c|] t1] eqn:Ht; destruct (take_idle_current _ _ _ _ Hp Ht) as (H1 & H2 & _ & H3).
  - destruct (exchange c encoded w) as [[response|] w1]; cbn.
    + apply store_idle_current; [done|]. rewrite H2. by apply H3.
    + apply send_fresh_current; [done|by rewrite H2].
  - apply send_fresh_current; [done|by rewrite H2].
Qed.
End pool.

(** A send takes its connection before the peer is moved and gives it back afterwards: the
    pool then holds a connection to the old address. *)
Definition moved_while_sending : TcpRaftTransport string :=
  let t := store_idle 2 "old:1" (tcp_new {[2%N := "old:1"]}) in
  match take_idle 2 t with
  | (Some connection, t) => store_idle 2 connection (set_peer_addr 2 "new:1" t).2
  | (None, t) => t
  end.
Example stale_connection_returns_to_pool :
  tr_peers moved_while_sending !! 2%N = Some "new:1" /\ tr_idle moved_while_sending !! 2%N = Some ["old:1"].
Proof. split; vm_compute; reflexivity. Qed.

(** A token that is not the policy's is refused and the inner transport is not called. *)
Theorem wrong_token_is_refused {S M R} (policy : StaticRaftAuthToken) (call : NodeId -> M -> ST RaftError S R) target token message s :
  token <> sat_token policy ->
  authenticated policy call target (mkAuthenticatedRaftRpc token message) s = (Err (TransportErr "raft transport authentication failed"), s).
Proof. intros Hne. unfold authenticated, mbind, ST_bind, lift. cbn. by rewrite bool_decide_false. Qed.
