(* ===== verification/RpcProtobuf.v ===== *)
(** * The protobuf library, for RPCs

    The decoders of an RPC envelope and of a response for the library of [Protobuf.v]:
    they satisfy the laws [RpcBinary.v] asks of [prost]. A batch inside a batch is refused,
    as a library refuses messages nested too deep. The theorems of [RpcBinary.v] and
    [Transport.v] are applied here, to a group of three replicas behind a server. *)

From stdpp Require Import base strings pretty numbers gmap list.
From Stdlib Require Import Strings.Byte.
From S2P Require Import Prelude Types Slice Bytes Membership Node Wal WalSegments WalBinary Protobuf SnapshotTransfer Cluster Election RpcBinary Transport.

Definition get_opt_string (tag : N) (fs : list (N * WireValue)) : result string (option string) :=
  match last (collect tag fs) with
  | None => Ok None
  | Some (WBytes l) => if utf8 l then Ok (Some (byte_text l)) else Err "invalid string value: data is not UTF-8 encoded"
  | Some _ => wrong_type
  end.

Lemma get_opt_string_field fields (Hnd : NoDup (field_tag <$> fields)) t o :
  opt_ok is_str o -> FOptString t o ∈ fields -> get_opt_string t (wire fields) = Ok o.
Proof.
  intros Hs Hf%collect_wire; [|done]. cbn in Hf. unfold get_opt_string. rewrite Hf. destruct o as [s|]; [|done]. cbn -[utf8 byte_text] in *.
  rewrite Hs. do 2 f_equal. apply String.string_of_list_byte_of_string.
Qed.

Ltac rpc_reader :=
  match goal with
  | Hnd : NoDup (field_tag <$> _) |- context [get_opt_string ?t (wire _)] =>
      erewrite (get_opt_string_field _ Hnd t); [|shelve|field_in]
  | _ => reader
  end.
(** As [reads_back], for messages with optional texts. *)
Ltac rpc_reads_back to read :=
  let m := fresh "m" in let Hok := fresh "Hok" in let Hfits := fresh "Hfits" in let Hnd := fresh "Hnd" in
  intros m Hok Hfits; unfold decode_with; rewrite read_fields_wire; [| |done];
  [assert (NoDup (field_tag <$> to m)) as Hnd by (apply (bool_decide_unpack _); vm_compute; exact I);
   unfold read; unshelve (repeat (rpc_reader; cbn [mbind result_bind])); [..|by destruct m]
  |]; first [red in Hok | cbv beta in Hok]; destruct_and?.

#[local] Hint Resolve LogIdProto_reads LogEntryProto_reads SnapshotMetadataProto_reads : readers.

Definition AppendEntriesRequestProto_read fs : result string AppendEntriesRequestProto :=
  g ← get_uint64 1 fs; t ← get_uint64 2 fs; l ← get_uint64 3 fs; p ← get_message LogIdProto_read 4 fs;
  e ← get_messages LogEntryProto_read 5 fs; c ← get_uint64 6 fs; x ← get_uint64 7 fs; Ok (mkAppendEntriesRequestProto g t l p e c x).
Definition AppendEntriesResponseProto_read fs : result string AppendEntriesResponseProto :=
  t ← get_uint64 1 fs; s ← get_bool 2 fs; m ← get_uint64 3 fs; h ← get_opt_uint64 4 fs; i ← get_opt_uint64 5 fs;
  r ← get_opt_uint64 6 fs; k ← get_int32 7 fs; e ← get_uint64 8 fs; d ← get_uint64 9 fs; Ok (mkAppendEntriesResponseProto t s m h i r k e d).
Definition VoteRequestProto_read fs : result string VoteRequestProto :=
  g ← get_uint64 1 fs; t ← get_uint64 2 fs; c ← get_uint64 3 fs; l ← get_message LogIdProto_read 4 fs; p ← get_bool 5 fs; f ← get_bool 6 fs;
  Ok (mkVoteRequestProto g t c l p f).
Definition VoteResponseProto_read fs : result string VoteResponseProto :=
  t ← get_uint64 1 fs; v ← get_bool 2 fs; r ← get_string 3 fs; Ok (mkVoteResponseProto t v r).
Definition SnapshotChunkProto_read fs : result string SnapshotChunkProto :=
  m ← get_message SnapshotMetadataProto_read 1 fs; o ← get_uint64 2 fs; d ← get_bytes 3 fs; f ← get_bool 4 fs; Ok (mkSnapshotChunkProto m o d f).
Definition InstallSnapshotRequestProto_read fs : result string InstallSnapshotRequestProto :=
  g ← get_uint64 1 fs; t ← get_uint64 2 fs; l ← get_uint64 3 fs; c ← get_message SnapshotChunkProto_read 4 fs; Ok (mkInstallSnapshotRequestProto g t l c).
Definition InstallSnapshotResponseProto_read fs : result string InstallSnapshotResponseProto :=
  t ← get_uint64 1 fs; a ← get_bool 2 fs; n ← get_uint64 3 fs; c ← get_uint64 4 fs; r ← get_string 5 fs; h ← get_bool 6 fs;
  Ok (mkInstallSnapshotResponseProto t a n c r h).
Definition ReadIndexRequestProto_read fs : result string ReadIndexRequestProto :=
  g ← get_uint64 1 fs; r ← get_uint64 2 fs; m ← get_uint64 3 fs; a ← get_bool 4 fs; Ok (mkReadIndexRequestProto g r m a).
Definition ReadIndexResponseProto_read fs : result string ReadIndexResponseProto :=
  s ← get_bool 1 fs; i ← get_uint64 2 fs; l ← get_bool 3 fs; r ← get_string 4 fs; Ok (mkReadIndexResponseProto s i l r).
Definition Targeted_read {R} (read : list (N * WireValue) -> result string R) fs : result string (Targeted R) :=
  t ← get_uint64 1 fs; r ← get_message read 2 fs; Ok (mkTargeted t r).
Definition ResultProto_read {R} (read : list (N * WireValue) -> result string R) fs : result string (ResultProto R) :=
  o ← get_message read 1 fs; e ← get_opt_string 2 fs; Ok (mkResultProto o e).

Lemma AppendEntriesRequestProto_reads : reads AppendEntriesRequestProto_read AppendEntriesRequestProto_fields AppendEntriesRequestProto_ok.
Proof. rpc_reads_back AppendEntriesRequestProto_fields AppendEntriesRequestProto_read. all: try done. nums. apply bytes_nums. Qed.
Lemma AppendEntriesResponseProto_reads : reads AppendEntriesResponseProto_read AppendEntriesResponseProto_fields AppendEntriesResponseProto_ok.
Proof. rpc_reads_back AppendEntriesResponseProto_fields AppendEntriesResponseProto_read. all: try done. nums. by apply i32_as_u64_ok. Qed.
Lemma VoteRequestProto_reads : reads VoteRequestProto_read VoteRequestProto_fields VoteRequestProto_ok.
Proof. rpc_reads_back VoteRequestProto_fields VoteRequestProto_read. all: try done. nums. Qed.
Lemma VoteResponseProto_reads : reads VoteResponseProto_read VoteResponseProto_fields VoteResponseProto_ok.
Proof. rpc_reads_back VoteResponseProto_fields VoteResponseProto_read. all: try done. nums. Qed.
Lemma SnapshotChunkProto_reads : reads SnapshotChunkProto_read SnapshotChunkProto_fields SnapshotChunkProto_ok.
Proof. rpc_reads_back SnapshotChunkProto_fields SnapshotChunkProto_read. all: try done. nums. Qed.
#[local] Hint Resolve SnapshotChunkProto_reads : readers.
Lemma InstallSnapshotRequestProto_reads : reads InstallSnapshotRequestProto_read InstallSnapshotRequestProto_fields InstallSnapshotRequestProto_ok.
Proof. rpc_reads_back InstallSnapshotRequestProto_fields InstallSnapshotRequestProto_read. all: try done. nums. Qed.
Lemma InstallSnapshotResponseProto_reads :
  reads InstallSnapshotResponseProto_read InstallSnapshotResponseProto_fields InstallSnapshotResponseProto_ok.
Proof. rpc_reads_back InstallSnapshotResponseProto_fields InstallSnapshotResponseProto_read. all: try done. nums. Qed.
Lemma ReadIndexRequestProto_reads : reads ReadIndexRequestProto_read ReadIndexRequestProto_fields ReadIndexRequestProto_ok.
Proof. rpc_reads_back ReadIndexRequestProto_fields ReadIndexRequestProto_read. all: try done. nums. Qed.
Lemma ReadIndexResponseProto_reads : reads ReadIndexResponseProto_read ReadIndexResponseProto_fields ReadIndexResponseProto_ok.
Proof. rpc_reads_back ReadIndexResponseProto_fields ReadIndexResponseProto_read. all: try done. nums. Qed.

Lemma Targeted_reads {R} read (to : R -> list Field) ok : reads read to ok -> reads (Targeted_read read) (Targeted_fields to) (Targeted_ok ok).
Proof. intros Hr. rpc_reads_back (@Targeted_fields _ R to) @Targeted_read. all: try done. nums. Qed.
Lemma ResultProto_reads {R} read (to : R -> list Field) ok : reads read to ok -> reads (ResultProto_read read) (ResultProto_fields to) (ResultProto_ok ok).
Proof. intros Hr. rpc_reads_back (@ResultProto_fields _ R to) @ResultProto_read. all: try done. nums. Qed.

(** ** The arms *)

Section arms.
Context {K : Type} (arm : N -> list byte -> result string K).

(** A [oneof]: the last field there is, by its tag. *)
Definition oneof_read (fs : list (N * WireValue)) : result string (option K) :=
  match last fs with
  | None => Ok None
  | Some (tag, WBytes body) => kind ← arm tag body; Ok (Some kind)
  | Some _ => wrong_type
  end.
End arms.

Definition too_deep {A} : result string A := Err "recursion limit reached".
Definition request_arm (batch : list byte -> result string RequestKind) (tag : N) (body : list byte) : result string RequestKind :=
  match tag with
  | 1%N => m ← decode_with (Targeted_read AppendEntriesRequestProto_read) body; Ok (QAppendEntries m)
  | 2%N => m ← decode_with (Targeted_read VoteRequestProto_read) body; Ok (QVote m)
  | 3%N => m ← decode_with (Targeted_read InstallSnapshotRequestProto_read) body; Ok (QInstallSnapshot m)
  | 4%N => m ← decode_with (Targeted_read ReadIndexRequestProto_read) body; Ok (QReadIndex m)
  | 5%N => batch body
  | _ => wrong_type
  end.
Definition response_arm (batch : list byte -> result string ResponseKind) (tag : N) (body : list byte) : result string ResponseKind :=
  match tag with
  | 1%N => m ← decode_with (ResultProto_read AppendEntriesResponseProto_read) body; Ok (PAppendEntries m)
  | 2%N => m ← decode_with (ResultProto_read VoteResponseProto_read) body; Ok (PVote m)
  | 3%N => m ← decode_with (ResultProto_read InstallSnapshotResponseProto_read) body; Ok (PInstallSnapshot m)
  | 4%N => m ← decode_with (ResultProto_read ReadIndexResponseProto_read) body; Ok (PReadIndex m)
  | 5%N => batch body
  | _ => wrong_type
  end.
Definition plain_request_read := oneof_read (request_arm (fun _ => too_deep)).
Definition plain_response_read := oneof_read (response_arm (fun _ => too_deep)).
Definition RpcRequestProto_read :=
  oneof_read (request_arm (fun body => l ← decode_with (get_messages plain_request_read 1) body; Ok (QBatch l))).
Definition RpcResponseProto_read :=
  oneof_read (response_arm (fun body => l ← decode_with (get_messages plain_response_read 1) body; Ok (PBatch l))).
Definition EnvelopeProto_read fs : result string EnvelopeProto :=
  c ← get_uint64 1 fs; p ← get_opt_string 2 fs; r ← get_message RpcRequestProto_read 3 fs; Ok (mkEnvelopeProto c p r).

(** A message of one length-delimited field is read as that field. *)
Lemma decode_single {A} (read : list (N * WireValue) -> result string A) tag body : tag_ok tag ->
  fits (put_all (wire [FMessage tag (Some body)])) -> decode_with read (put_all (wire [FMessage tag (Some body)])) = read [(tag, WBytes body)] /\ fits body.
Proof.
  intros Ht Hf. assert (fits body) as Hb. { apply (sub_fits (wire [FMessage tag (Some body)]) tag); [apply list_elem_of_here|done]. }
  split; [|done]. unfold decode_with. rewrite read_fields_wire; [done| |done]. constructor; [|done]. split; [done|]. by constructor.
Qed.

Lemma oneof_reads {K} (arm : N -> list byte -> result string K) tag body kind : tag_ok tag ->
  fits (put_all (wire [FMessage tag (Some body)])) -> (fits body -> arm tag body = Ok kind) ->
  decode_with (oneof_read arm) (put_all (wire [FMessage tag (Some body)])) = Ok (Some kind).
Proof.
  intros Ht Hf Ha. destruct (decode_single (oneof_read arm) tag body Ht Hf) as [-> Hb]. cbn. by rewrite Ha.
Qed.

Lemma repeated_reads {A} (read : list (N * WireValue) -> result string A) (to : A -> list Field) ok l :
  reads read to ok -> Forall ok l -> fits (put_all (wire [FMessages 1 ((fun m => put_all (wire (to m))) <$> l)])) ->
  decode_with (get_messages read 1) (put_all (wire [FMessages 1 ((fun m => put_all (wire (to m))) <$> l)])) = Ok l.
Proof.
  intros Hr Hl Hf. unfold decode_with. rewrite read_fields_wire; [|constructor; [split; [done|apply bytes_nums]|done]|done].
  apply (get_messages_field [FMessages 1 ((fun m => put_all (wire (to m))) <$> l)] (NoDup_singleton _) read to ok); [done..|apply list_elem_of_here].
Qed.

Lemma arm_read {A K} (r : result string A) (wrap : A -> K) m : r = Ok m -> (a ← r; Ok (wrap a)) = Ok (wrap m).
Proof. by intros ->. Qed.

Lemma request_arm_reads batch kind : plain_request_ok (Some kind) -> fits (put_all (wire [RequestKind_field kind])) ->
  decode_with (oneof_read (request_arm batch)) (put_all (wire [RequestKind_field kind])) = Ok (Some kind).
Proof.
  destruct kind as [m|m|m|m|l]; cbn [plain_request_ok RequestKind_field]; intros Hok Hf; [apply oneof_reads; [done..|intros Hb; cbn [request_arm]]..|done].
  - apply arm_read, (Targeted_reads _ _ _ AppendEntriesRequestProto_reads); done.
  - apply arm_read, (Targeted_reads _ _ _ VoteRequestProto_reads); done.
  - apply arm_read, (Targeted_reads _ _ _ InstallSnapshotRequestProto_reads); done.
  - apply arm_read, (Targeted_reads _ _ _ ReadIndexRequestProto_reads); done.
Qed.
Lemma response_arm_reads batch kind : plain_response_ok (Some kind) -> fits (put_all (wire [ResponseKind_field kind])) ->
  decode_with (oneof_read (response_arm batch)) (put_all (wire [ResponseKind_field kind])) = Ok (Some kind).
Proof.
  destruct kind as [m|m|m|m|l]; cbn [plain_response_ok ResponseKind_field]; intros Hok Hf; [apply oneof_reads; [done..|intros Hb; cbn [response_arm]]..|done].
  - apply arm_read, (ResultProto_reads _ _ _ AppendEntriesResponseProto_reads); done.
  - apply arm_read, (ResultProto_reads _ _ _ VoteResponseProto_reads); done.
  - apply arm_read, (ResultProto_reads _ _ _ InstallSnapshotResponseProto_reads); done.
  - apply arm_read, (ResultProto_reads _ _ _ ReadIndexResponseProto_reads); done.
Qed.

Lemma plain_request_reads : reads plain_request_read RpcRequestProto_fields plain_request_ok.
Proof. intros [kind|] Hok Hf; [by apply request_arm_reads|done]. Qed.
Lemma plain_response_reads : reads plain_response_read RpcResponseProto_fields plain_response_ok.
Proof. intros [kind|] Hok Hf; [by apply response_arm_reads|done]. Qed.

Lemma RpcRequestProto_reads : reads RpcRequestProto_read RpcRequestProto_fields RpcRequestProto_ok.
Proof.
  intros [[m|m|m|m|l]|] Hok Hf; [by apply request_arm_reads..| |done]. cbn [RpcRequestProto_ok] in Hok. cbn [RpcRequestProto_fields RequestKind_field] in *.
  apply oneof_reads; [done..|]. intros Hb. cbn [request_arm].
  pose proof (repeated_reads plain_request_read RpcRequestProto_fields plain_request_ok l plain_request_reads Hok Hb) as Hr. by apply (arm_read _ QBatch).
Qed.
Lemma RpcResponseProto_reads : reads RpcResponseProto_read RpcResponseProto_fields RpcResponseProto_ok.
Proof.
  intros [[m|m|m|m|l]|] Hok Hf; [by apply response_arm_reads..| |done]. cbn [RpcResponseProto_ok] in Hok. cbn [RpcResponseProto_fields ResponseKind_field] in *.
  apply oneof_reads; [done..|]. intros Hb. cbn [response_arm].
  pose proof (repeated_reads plain_response_read RpcResponseProto_fields plain_response_ok l plain_response_reads Hok Hb) as Hr. by apply (arm_read _ PBatch).
Qed.
#[local] Hint Resolve RpcRequestProto_reads : readers.
Lemma EnvelopeProto_reads : reads EnvelopeProto_read EnvelopeProto_fields EnvelopeProto_ok.
Proof. rpc_reads_back EnvelopeProto_fields EnvelopeProto_read. all: try done. nums. Qed.

#[export] Instance rpc_protobuf : RpcProst := {
  EnvelopeProto_decode := decode_with EnvelopeProto_read;
  RpcResponseProto_decode := decode_with RpcResponseProto_read
}.
#[export] Instance rpc_protobuf_laws : RpcProstLaws.
Proof. split; [apply EnvelopeProto_reads|apply RpcResponseProto_reads]. Qed.

(** ** A vote and an append over the wire *)

Definition no_json {A B} (_ : A) : result string B := Err "not JSON".
Definition sample_vote : VoteRequest := sample_request 1 2.
Definition vote_envelope : TcpRaftTransportEnvelope := mkEnvelope 7 (Some "zone-a") (TBatch [TVote 3 sample_vote; TReadIndex 1 (mkReadIndexRequest 1 1 0 true)]).
Definition vote_answer : TcpRaftTransportResponse :=
  RBatch [RVote (mkRpcResult (Some (mkVoteResponse 1 true "granted")) None); RReadIndex (mkRpcResult None (Some "no leader is available"))].
Definition bytes_of_result (r : Result (list byte)) : list byte := match r with Ok bytes => bytes | Err _ => [] end.

Ltac machine_values :=
  repeat (split || apply Forall_cons || apply Forall_nil); cbn; unfold u64, u64_max; try lia; try done.

Lemma rpc_round_trip_witness :
  matrixraft_decode_rpc_envelope (bytes_of_result (matrixraft_encode_rpc_envelope vote_envelope) ++ [x4d; x00]) = Ok vote_envelope
  /\ matrixraft_decode_rpc_response (bytes_of_result (matrixraft_encode_rpc_response vote_answer) ++ [x4d; x00]) = Ok vote_answer.
Proof.
  destruct (rpc_round_trip vote_envelope vote_answer (bytes_of_result (matrixraft_encode_rpc_envelope vote_envelope))
    (bytes_of_result (matrixraft_encode_rpc_response vote_answer)) [x4d; x00]) as [(_ & _ & H1) (_ & _ & H2)].
  - unfold envelope_ok, EnvelopeProto_ok. machine_values.
  - unfold response_ok. machine_values.
  - vm_compute. reflexivity.
  - vm_compute. reflexivity.
  - split; [exact H1|exact H2].
Defined.

Definition client : TcpRaftTransport string := new_in_cluster {[3%N := "10.0.0.3:7001"]} 7.
Definition server_end : Loopback RaftCluster := mkLoopback (mkServer sample_group 0 0 false) [].
Definition voting : Transport (TcpRaftTransport string * Loopback RaftCluster) :=
  @Tcp_transport _ _ (the_network ClusterRaftTransport no_json no_json 7) _ _ no_json None 1 None.

Definition granted : VoteResponse := match (vote_to 3 sample_vote sample_group).1 with Ok response => response | Err _ => mkVoteResponse 0 false "" end.
Lemma sample_answer : (handle_tcp_raft_request ClusterRaftTransport (TVote 3 sample_vote) (srv_handler (lo_server server_end))).1
  = RVote (mkRpcResult (Some (mkVoteResponse 1 true (vresp_reason granted))) None) /\ vresp_reason granted = "vote_granted".
Proof. split; vm_compute; reflexivity. Qed.

Lemma vote_deliverable : deliverable ClusterRaftTransport 7 None 3 (TVote 3 sample_vote) client server_end.
Proof.
  constructor; [eexists; vm_compute; reflexivity|vm_compute; reflexivity|vm_compute; reflexivity| |].
  - exists None, (bytes_of_result (matrixraft_encode_rpc_envelope (mkEnvelope 7 None (TVote 3 sample_vote)))). split; [reflexivity|].
    split; [unfold envelope_ok, EnvelopeProto_ok; machine_values|]. split; vm_compute; reflexivity.
  - cbv zeta. destruct sample_answer as [-> ->]. split; [unfold response_ok; machine_values|]. eexists. vm_compute. reflexivity.
Qed.

Lemma remote_call_is_local_call_witness :
  let '(r, inner) := vote ClusterRaftTransport 3 sample_vote (srv_handler (lo_server server_end)) in
  exists t' w', vote voting 3 sample_vote (client, server_end) = (as_remote matrixraft_validate_vote_response r, (t', w'))
    /\ lo_server w' = (lo_server server_end) <| srv_handler := inner |> /\ tr_peers t' = tr_peers client.
Proof.
  exact (proj1 (proj2 (remote_call_is_local_call ClusterRaftTransport no_json no_json no_json 7 None 1 None)) 3%N sample_vote client server_end vote_deliverable).
Defined.

(** A request of another cluster, a vote request of this one, and a line that is no
    request: the handler sees the vote request alone. *)
Definition mixed_stream : list byte :=
  bytes_of_result (matrixraft_encode_rpc_envelope (mkEnvelope 8 None (TVote 1 sample_vote)))
  ++ bytes_of_result (matrixraft_encode_rpc_envelope (mkEnvelope 7 None (TVote 3 sample_vote))) ++ string_bytes "garbage".
Definition mixed_server : Server RaftCluster := mkServer sample_group 0 0 false.

Example mixed_stream_served :
  let '(r, out, s') := serve_tcp_raft_connection ClusterRaftTransport no_json no_json 7 None mixed_stream mixed_server in
  r = Err (TransportErr "failed to decode raft TCP request: not JSON") /\ srv_refused s' = 1%N
  /\ (fun n => hs_voted_for (nd_hard_state n)) <$> rc_nodes (srv_handler s') !! 1%N
     = (fun n => hs_voted_for (nd_hard_state n)) <$> rc_nodes sample_group !! 1%N
  /\ (fun n => hs_voted_for (nd_hard_state n)) <$> rc_nodes (srv_handler s') !! 3%N = Some (Some 2%N).
Proof. vm_compute. by split_and!. Qed.

Lemma only_admitted_requests_reach_handler_witness :
  srv_shutdown mixed_server = false
  /\ let '(r, out, s') := serve_tcp_raft_connection ClusterRaftTransport no_json no_json 7 None mixed_stream mixed_server in
     exists messages rest, arrives mixed_stream messages rest
       /\ srv_handler s' = handled ClusterRaftTransport no_json 7 None messages (srv_handler mixed_server)
       /\ connection_end ClusterRaftTransport no_json no_json 7 None r messages rest (srv_handler mixed_server).
Proof.
  split; [reflexivity|].
  pose proof (only_admitted_requests_reach_handler ClusterRaftTransport no_json no_json 7 None mixed_stream mixed_server) as H.
  apply H. reflexivity.
Defined.

(** The loopback's connections lead where they were opened to. *)
Lemma loopback_laws {S} (handler : Transport S) cluster_id : @NetworkLaws _ _ (the_network handler no_json no_json cluster_id).
Proof. intros addr w c w' [= <- _]. done. Qed.

Definition warm_client : TcpRaftTransport string := store_idle 3 "10.0.0.3:7001" client.

Lemma warm_client_current : @pool_current _ _ (the_network ClusterRaftTransport no_json no_json 7) warm_client.
Proof.
  intros node_id pooled Hp. unfold warm_client, store_idle, client, new_in_cluster in *. cbn in Hp. rewrite lookup_insert in Hp.
  case_decide; [subst; injection Hp as <-|by rewrite lookup_empty in Hp]. split; [|vm_compute; congruence].
  constructor; [vm_compute; reflexivity|constructor].
Qed.

Lemma kept_connections_are_current_witness :
  let current := @pool_current _ _ (the_network ClusterRaftTransport no_json no_json 7) in
  let moved (from to : NodeId) : Result string := Ok "10.0.0.9:7001" in
  current (@send_rpc _ _ (the_network ClusterRaftTransport no_json no_json 7) _ _ no_json (Some moved) 1 None 3 (TVote 3 sample_vote) (warm_client, server_end)).2.1
  /\ current (set_peer_addr 3 "10.0.0.4:7001" warm_client).2 /\ current (refresh_peer_addr (Some moved) 1 3 warm_client).2
  /\ idle_connections 3 warm_client = 1 /\ idle_connections 3 (set_peer_addr 3 "10.0.0.4:7001" warm_client).2 = 0.
Proof.
  intros current moved.
  destruct (@kept_connections_are_current _ _ (the_network ClusterRaftTransport no_json no_json 7) (loopback_laws ClusterRaftTransport 7) _ _
    no_json (Some moved) 1 None warm_client server_end 3 (TVote 3 sample_vote) 3 "10.0.0.4:7001" warm_client_current) as (H1 & H2 & H3).
  split_and!; [exact H1|exact H2|exact H3|vm_compute; reflexivity|vm_compute; reflexivity].
Defined.
